(* ===== verification/_CoqProject ===== *)
-Q . S2P
Prelude.v
Floats.v
Text.v
Types.v
Drift.v
Cdc.v
TypesProps.v
Cache.v
CacheInv.v
CacheReach.v
CacheSpec.v
CacheSweep.v
CacheProps.v
CacheEvict.v
CacheFresh.v
Circuit.v
Priority.v
Scope.v
Coalesce.v
Retry.v
ConnPool.v
Upstream.v
Pool.v
PoolProps.v
Cascade.v
CascadeProps.v
Auth.v
Adaptive.v
Federated.v
Resilience.v
Metrics.v
Context.v
Refresh.v
Batch.v
Pipeline.v
ContextKeys.v
PipelineProps.v
BatchServer.v
PipelineSys.v
Peer.v
PeerProps.v
PeerSys.v
Workers.v
Semantic.v
Embedder.v
Distill.v
Persist.v
Settings.v
Config.v
ConfigProps.v
Vendors.v
VendorsProps.v
Admin.v
Handlers.v
Grpc.v
GrpcServices.v
GrpcProps.v
AuditLog.v
Start.v
Status.v
Engine.v
TuneSession.v
TuneTools.v
TuneProps.v
TuneToolsProps.v
Mcp.v
Prometheus.v
PrometheusProps.v
Sandbox.v
Lifecycle.v
Cli.v
Providers.v
Http.v
HitTrace.v
HitRate.v
HitReport.v
Perf.v
Corpus.v
