(* ===== verification/Prelude.v ===== *)
(** * A verification library for conproxy

    conproxy (src/src/) is a caching proxy in front of search upstreams (vector
    databases, full-text engines, REST back ends).  A query is looked up in an
    in-memory cache by the hash of its normalized text; fresh answers are served
    from there, stale ones are served while a refresh runs, and misses go upstream
    through request coalescing, a circuit breaker, retries, and a cascade or pool
    of upstreams, before the answer is filtered by scope, validated and cached.

    ** How the parts are modelled

    Each component of src/src/proxy is a record of its fields and one function per
    method.  Concurrent maps and atomics are fields of the record; a method runs to
    completion before the next one, except where the source waits: [Coalesce],
    [ConnPool] and the last part of [Auth] interleave concurrent calls, [Batch] the
    tasks of a parallel batch, [PipelineSys] queries, batch items, upstream answers,
    background refreshes, evictions and disconnects, [PeerSys] two nodes that
    replicate to each other, and [Workers] the loops of the scheduler.
    Time is an argument: nanoseconds on the monotonic clock ([mono]) and on the wall
    clock ([wall]).  Unsigned
    integers are [Z] with wrapping, saturating and truncating operations written
    out ([Prelude]); floats are IEEE binary32/binary64 through the Standard
    Library's executable [SpecFloat] ([Floats]); strings are lists of Unicode scalar
    values with UTF-8 lengths ([Text]).  A panic is a value of [outcome].

    - [Prelude]: machine integers, durations, panics, results, sums over maps, a
      stable sort, loops with fuel; the hint database [cpx] and the tactics
      [crush_hyps], [reflect_Z], [case_Z].
    - [Floats], [Text]: the float and string operations of the source.
    - [Types] (proxy/types.rs): JSON values, requests, responses, validation, cache
      entries and their integrity hash, signatures, certificate pins, the served
      response and its serializer.  [Drift] (proxy/types.rs): drift detection
      between responses and its sliding window.  [Cdc] (proxy/cdc/event.rs): change
      events and their sender.  [TypesProps]: their properties.
    - [Cache] (proxy/cache.rs): the cache store: two-tier lookup, insertion, S3-FIFO
      admission and eviction, memory and per-upstream limits, freshness, maintenance
      sweeps, statistics, fingerprints.  [CacheInv]: the invariant of an eviction
      ([Wq], [W]) and of the store ([inv]), and what one eviction and one admission
      do.  [CacheReach]: every public operation preserves [inv]; the store as a
      transition system ([op], [apply_op], [reachable]).  [CacheSpec]: the abstract
      lossy map, the refinement, the exact-text mapping.  [CacheSweep]: sweeps over
      the map in any iteration order.  [CacheProps], [CacheEvict], [CacheFresh]: the
      claims and their witnesses, run in a concrete environment.
    - [Circuit] (proxy/circuit.rs): the circuit breaker and the three-state machine
      it implements.
    - [Priority] (proxy/priority.rs): the bounded priority queue.
    - [Scope] (proxy/scope.rs, the scope section of config/mod.rs): scope filtering,
      reranking and boosting of results.
    - [Coalesce] (proxy/coalesce.rs): single flight, with interleavings.
    - [Retry] (proxy/retry.rs, the errors of proxy/upstream.rs): retry policy, backoff
      delays in binary64, and the executor.
    - [ConnPool] (proxy/connection_pool.rs): the semaphore and queue of an upstream's
      connections, with the interleavings of concurrent [acquire] calls.
    - [Upstream] (proxy/upstream.rs, the backend types of proxy/context.rs): query
      modes, the health tracker, the generic REST adapter.
    - [Pool] (proxy/pool.rs): the pool of upstreams: construction, the four selection
      strategies, queries with failover, statistics; [PoolProps]: its properties.
    - [Cascade] (proxy/cascade.rs): priority groups, the sequential cascade, parallel
      groups with reciprocal rank fusion, targeted queries; [CascadeProps]: its
      properties.
    - [Auth] (proxy/middleware.rs, proxy/agent.rs): the token bucket (sequentially and
      with concurrent calls), the agent registry, the authentication and rate-limit
      layers in the order the server installs them.
    - [Adaptive] (proxy/adaptive.rs): the latency window, the timeout computed from
      it, and time budgets.
    - [Federated] (proxy/federated.rs): merging of local and remote results.
    - [Resilience] (proxy/resilience.rs): the healthy, degraded and offline states.
    - [Metrics] (proxy/metrics.rs, proxy/query_stats.rs): the counters, the latency
      ring with its percentiles, and the bounded statistics per query.
    - [Context] (proxy/context.rs): the context manager: creation, switching, eviction,
      installed policies.  [ContextKeys]: the keys of two contexts.
    - [Refresh] (proxy/refresh.rs): the two refresh workers, cycle by cycle.
    - [Batch] (proxy/batch.rs): validation, sequential and parallel processing.
    - [Pipeline] (proxy/server/query_core.rs, with the client tracker and the context
      lookup of server/mod.rs): a query in the pieces between its awaits, from
      [query_begin] to [lead_finish] or [wait_finish], the background refresh, and
      [execute_query], which runs the pieces without interference.
      [PipelineProps]: one query; [BatchServer] (proxy/server/batch.rs): the batch
      and federated handlers; [PipelineSys]: all of them interleaved.
    - [Peer] (proxy/peer/, proxy/cdc/stream.rs): deduplication and application of
      events, snapshots, readiness; [PeerProps]: one node; [PeerSys]: two nodes, and the
      fetches announced between nodes.
    - [Workers] (proxy/workers/): recovery, cleanup, health and version checks, the
      scheduler.
    - [Semantic] (proxy/semantic_cache.rs), [Embedder] (proxy/smart_embedder.rs,
      embedder_config.rs): the embedding tier and the embedder with its cache.
    - [Distill] (proxy/distill.rs, slug.rs): rendering of an entry, dates, file names.
    - [Persist] (proxy/persistence.rs, the persistence part of cache.rs): the tables,
      their keys, flush and restore.
    - [Settings], [Config] (config/mod.rs, config/context_rooted.rs): the sections with
      their layers and checks; resources, contexts, projection, the file, loading and
      the environment.  [ConfigProps]: their properties.
    - [Vendors] (proxy/elasticsearch.rs, meilisearch.rs, milvus.rs, pgvector.rs,
      pinecone.rs, qdrant.rs): the requests each adapter builds and the answers it
      reads, as JSON values.  [VendorsProps]: scores, metadata, statements.
    - [Admin] (apply_reload of server/mod.rs): the reload of a configuration into the
      live state.  [Handlers] (server/admin.rs, cache.rs, context.rs): the
      handlers that manage agents and contexts and clear, check, evict and warm the cache.
    - [Grpc] (proxy/grpc/convert.rs, middleware.rs, search.rs): messages, conversions,
      metadata, authentication; [GrpcServices] (proxy/grpc/): the services;
      [GrpcProps]: their properties.
    - [AuditLog] (proxy/audit.rs, observability.rs): the ring of audit entries and its
      statistics; request ids, cache mutations, traces.
    - [Start] (server/mod.rs, bin/conproxy/commands/proxy.rs): from the command line
      and the configuration to the composed proxy.
    - [Status] (server/status.rs, grpc/observability.rs): health, readiness, degradation.
    - [Engine] (engine/mod.rs, engine/budget.rs): the in-process engine, its memory
      budget and its ticker.
    - [TuneSession] (proxy/tune/session.rs, apply.rs): tuning sessions, their export,
      and applying it to a file.  [TuneTools] (proxy/tune/): the tools, the comparison of
      runs and the benchmark.  [TuneProps], [TuneToolsProps]: their properties.
    - [Mcp] (proxy/client.rs, mcp/mod.rs, mcp/status.rs): the client of the proxy, the
      status panels, and every tool of the MCP server with its dispatch.
    - [Prometheus] (proxy/metrics.rs, server/status.rs): the text of the metrics page;
      [PrometheusProps]: a scraper that reads it back.
    - [Sandbox] (proxy/sandbox.rs, socket_tuning.rs, the part of server/mod.rs that opens
      the ports): dropping of privileges and the listeners, over a kernel with its rules.
    - [Lifecycle] (proxy/lifecycle.rs): PID file, stop, wait and status, over a Unix.
    - [Cli] (bin/conproxy/): the commands, what they print and write.
    - [Providers] (embedding/): the embedding services and the local model.
    - [Http] (server/mod.rs, server/query.rs): the routes and layers of the HTTP server,
      what a request changes, the drain at its end, query modes.
    - [HitTrace], [HitRate], [HitReport] (bin/hitrate_bench.rs): the traffic of the
      hit-rate benchmark, its sweeps over the caches of [Cache] and [Semantic], its
      verdict, report and replay.
    - [Perf] (bin/perf_summarize.rs): the summary of benchmark runs, its verdict, the
      baseline and the history.  [Corpus] (bin/corpus_gen.rs, corpus_seed.rs): the test
      corpora and their distribution over the backends.

    ** Interfaces

    Code outside src/ enters through classes: [Externals] (blake3 and the JSON
    printer), [UnicodeCase] (the Unicode lowercase table, with the laws
    [UnicodeCaseLaws], which the ASCII table satisfies), [CacheEnv] (with
    [CacheEnvLaws]: a concurrent map yields each entry once, a type has a size),
    [FloatPow] ([f64::powi], whose rounding is unspecified), [Decoders] (the JSON
    decoders of a response body), [Clients] (building an HTTP client), [Backend] (what
    each call to an upstream returns), [Clocked], [Embedding] and [Scheduler] (the
    readings of the clock, the embedder, the order in which parallel tasks end),
    [StatsEnv], [ContextEnv], [EmbedEnv], [EmbedderEnv] and [MapOrder] (the iteration
    order of a hash map, with the law that it lists the map once), [Codec], [JsonCodec]
    and [JsonText] (encoders and decoders), [Redb] (a transactional table store, with
    [RedbLaws]), [FloatText] (the shortest decimal text of a float, with
    [FloatTextLaws]), [NumberViews], [PercentEncode] and [VendorDecoders] (serde_json's
    views of a number, percent encoding, the decoders of the vendors' answers),
    [UnicodeUpper], [UnicodeAlnum], [FloatLn] and [FloatFixed] (letters and digits, the
    logarithm, a float with two decimals), [ScopeJson] (the scope section as JSON), [GaugeText] (the texts of gauges, with
    [GaugeTextLaws]), [Kernel] with [HostView] and [KernelLaws] (capabilities, users and
    sockets of Linux), [Unix] with [UnixView] and [UnixLaws] (files, processes and
    signals), [MaskedModel] (a tokenizer and a model that respects its mask), [FloatPowf]
    ([f64::powf]), [RangeRng] with [RangeRngLaws] (draws from a range), and
    [ValueCodec] (JSON text in protobuf fields, with [ValueCodecLaws]).  Within the development, [Dispatcher] with [DispatcherLaws] is what
    the query pipeline relies on in the upstreams, and [Mergeable] with [MergeLaws]
    what layers of files rely on in each section; the components discharge them.
    [RetryableError] is the trait of the source.  The theorems that need laws take them as class
    arguments and their witnesses discharge them with a concrete instance.

    ** What the theorems show

    - The cache: capacity, exact memory accounting, refinement of a lossy map,
      equivalence of the two-tier lookup, insert/lookup, exactness of one eviction,
      the memory limit after two passes, the per-upstream limit, oldest-first
      eviction, filtered eviction, the integrity sweep, monotone freshness, agreement
      of the background scan with lookups, and invalidation.
    - The circuit breaker implements its specification and opens, fails fast and
      recovers as configured.
    - Coalescing keeps one leader per key and forgets no waiter, under every
      interleaving; the retry executor terminates and returns the right answer.
    - The connection pool never exceeds its limit and wakes waiters in order, under
      every interleaving; its queue counter drifts and two of its races are exhibited.
    - An upstream is offline exactly between a run of failures and a run of
      successes; selection finds an available upstream, fairly; a pooled query fails
      only when every candidate did.
    - The cascade ends within its depth, in priority order, at the first good answer
      or with the best one; fusion keeps one best document per content.
    - The priority queue serves in order, stays bounded, and evicts from the wrong
      end when full; scope filtering loses or keeps exactly what it should.
    - A request passes the authentication in exactly the documented cases; the token
      bucket admits no more than its tokens and refills, except in the race that is
      exhibited; the adaptive timeout keeps its window and its bounds; interleaved
      results are the best of each identifier, in order; an outage moves an upstream
      to offline at its thresholds.
    - Validation, serialization, signatures and event numbering are exact.
    - Queries: whatever the interleaving, a served answer came from an upstream for
      that key and passed the scope filter, one request at a time asks for a key, the
      counters balance; a cached answer is always served; a cancelled leader blocks
      its key (exhibited).  Contexts do not share keys under the stated conditions.
    - Batches: at most max_parallel queries at a time, every query counted once.
    - Peers: a snapshot replicates the cache; an event changes the cache exactly when
      it is foreign, alive and newer; removals bounce for ever (exhibited).
    - Workers: when a recovery ends, what a cleanup removes, which polls count as a
      change, and that the scheduler stops.
    - The semantic tier is the list of the most recent embeddings; a batch of
      embeddings is what the model computes; a flushed cache is restored; the
      calendar is Gregorian; text survives its UTF-8 encoding.
    - Configuration: an accepted file with contexts can be run, with the policy of
      its one default context and exactly its resources; layers compose; acceptance
      does not depend on the order of a hash map; the environment settles.
    - Vendor adapters: what scores and metadata an answer gives, and that the SQL sent
      to PostgreSQL holds no text of the configuration that was not checked.
    - Administration: what a reload changes and keeps, on success and on failure; the
      agents of a running proxy as a map of keys; which entries an eviction removes.
    - gRPC: conversions round-trip, who is admitted, and where the services differ from
      their HTTP counterparts.
    - The audit log shows its most recent entries; readiness is decided exactly; a start
      composes exactly the configured parts; the engine's memory limit follows its
      budget within the stated tolerance.
    - Tuning: sessions of an agent are private; what selecting, exporting and applying a
      run do; the simulated cache and cascade against the real ones; the verdict of a
      benchmark; the workflow applies the preview it reports.  The client of the proxy
      returns what the search service answered.
    - The metrics page reads back as the values of the proxy, for names without quotes,
      backslashes and line breaks, and breaks for others (exhibited).
    - Ports and processes: what a start leaves of the privileges of the process, which
      starts fail; a stop signals the proxy and nothing else; waiting, the PID file.
    - Commands: switching contexts, the files of a distillation, what is shown of
      replication and the event stream.
    - Embeddings: a batch of a service comes back in order, a padded batch of the local
      model gives the vectors of its texts.  Request ids are distinct, the mutation log
      keeps the newest entries, and the stages of a trace fit in it.
    - The HTTP server: a path reaches exactly the handler of its route, a request without
      a key reads at most, the wait at the end of the server ends.  The MCP server: calls
      of other agents leave the sessions of an agent alone.
    - The benchmark: in a cache with room the hits are exactly the repeated queries, and in
      no cache more; sharing embeddings between sweeps changes nothing; verdicts and exit
      codes are exact; a replay counts every query once.  The performance summary reports
      each benchmark once and fails exactly on a regression; the age of a baseline is a day
      short (exhibited).  A corpus is read back as it was written and each backend gets
      exactly its documents.

    ** Fuel

    Loops of the source that are not structural run with fuel that is enough by
    proof: the ghost list (its length, [ghost_loop_terminates]), the eviction loops
    (the number of queued keys, [evict_while_exit]), the drift window (its length,
    [record_loop]), the retry loop (the allowed attempts, [execute_loop_spec]), the
    chunks of a batch of texts and the lossy decoder (the length of their input), the
    wait for open requests ([drain_fuel], [drain_loop_ends]).
    [record] is the exception: with a window of size zero the source loops for ever,
    and [record_zero_diverges] says so for every fuel.

    ** What is not modelled

    HTTP and gRPC framing is input and output around the modelled core, as are the TOML
    syntax and the paths of the configuration, the argument parser, and the uninstall and log commands, which run
    system tools.  Log lines, texts of error messages, the metrics of the Tokio runtime,
    the pages of the dashboard and the limits of memory allocation are left out, and so
    are, of the tools in src/src/bin/, the Markdown and HTML reports, the argument parsers,
    the loaders of the test backends, the test runner, the console snapshot and the
    generator of embeddings.  The operating system, the HTTP client, the tokenizer and the
    models are parameters. *)

From stdpp Require Export base tactics option numbers list gmap strings fin_maps sorting.
From Stdlib Require Export ZArith Lia.

#[global] Set Default Goal Selector "!".
#[export] Set Warnings "-notation-overridden".

Declare Scope conproxy_scope.
Delimit Scope conproxy_scope with cpx.
Open Scope Z_scope.

(** ** Machine integers

    A Rust unsigned integer of width [w] is a [Z] in [0, 2^w).  Wrapping
    ([fetch_add], [fetch_sub]), saturating ([saturating_add] and friends) and
    truncating ([as]) operations are written out. *)

Definition u_max (w : Z) : Z := 2 ^ w - 1.
Definition u8_max : Z := u_max 8.
Definition u32_max : Z := u_max 32.
Definition u64_max : Z := u_max 64.
Definition usize_max : Z := u_max 64.

Definition wrap (w x : Z) : Z := x mod 2 ^ w.
Definition sat_add (w x y : Z) : Z := Z.min (x + y) (u_max w).
Definition sat_sub (x y : Z) : Z := Z.max (x - y) 0.
Definition sat_mul (w x y : Z) : Z := Z.min (x * y) (u_max w).

Definition in_u (w x : Z) : Prop := 0 <= x <= u_max w.

Notation "x +! y" := (sat_add 64 x y) (at level 50, left associativity) : conproxy_scope.
Notation "x -! y" := (sat_sub x y) (at level 50, left associativity) : conproxy_scope.
Open Scope conproxy_scope.

(** Length of a vector or deque as a [usize]. *)
Definition zlen {A} (l : list A) : Z := Z.of_nat (length l).

(** ** Panics

    A computation that may panic (a checked arithmetic operator of [Duration],
    for instance) returns an [outcome]. *)
Inductive outcome (A : Type) : Type :=
| Ret (a : A)
| Panic.
Arguments Ret {A} a.
Arguments Panic {A}.

Definition obind {A B} (m : outcome A) (k : A -> outcome B) : outcome B :=
  match m with Ret a => k a | Panic => Panic end.

Notation "'let!' x ':=' m 'in' k" := (obind m (fun x => k))
  (at level 10, x pattern, m at level 100, k at level 200) : conproxy_scope.

(** ** Results *)
Inductive result (A E : Type) : Type :=
| Ok (a : A)
| Err (e : E).
Arguments Ok {A E} a.
Arguments Err {A E} e.

Definition is_ok {A E} (r : result A E) : bool :=
  match r with Ok _ => true | Err _ => false end.

(** ** Time

    An [Instant] is a number of nanoseconds on the monotonic clock; a
    [Duration] is a number of nanoseconds below [dur_max]. *)
Definition nanos_per_sec : Z := 1000000000.
Definition dur_max : Z := u64_max * nanos_per_sec + (nanos_per_sec - 1).
Definition from_secs (s : Z) : Z := s * nanos_per_sec.
Definition from_millis (ms : Z) : Z := ms * 1000000.
Definition from_micros (us : Z) : Z := us * 1000.
Definition as_secs (d : Z) : Z := d / nanos_per_sec.
Definition as_millis_u64 (d : Z) : Z := wrap 64 (d / 1000000).
Definition as_micros_u64 (d : Z) : Z := wrap 64 (d / 1000).

(** [Duration + Duration] panics when the sum does not fit. *)
Definition dur_add (a b : Z) : outcome Z :=
  if a + b <=? dur_max then Ret (a + b) else Panic.
(** [Duration::saturating_add] and [Duration::saturating_sub]. *)
Definition dur_sat_add (a b : Z) : Z := Z.min (a + b) dur_max.
Definition dur_sat_sub (a b : Z) : Z := Z.max (a - b) 0.

(** [Instant::elapsed] and [duration_since]: zero when the clock reads earlier. *)
Definition elapsed (now t : Z) : Z := Z.max (now - t) 0.

(** ** Automation *)

Create HintDb cpx.
Create Rewrite HintDb cpx.

(** Split the conjunctions and existentials of the context. *)
Ltac crush_hyps :=
  repeat match goal with
  | H : _ /\ _ |- _ => destruct H
  | H : exists _, _ |- _ => destruct H
  | H : Ret _ = Ret _ |- _ => injection H as H
  | H : Ok _ = Ok _ |- _ => injection H as H
  | H : Some _ = Some _ |- _ => injection H as H
  | H : (_, _) = (_, _) |- _ => injection H as H
  | H : Panic = Ret _ |- _ => discriminate H
  | H : None = Some _ |- _ => discriminate H
  end; subst.

(** Reflect the boolean comparisons of [Z] that the code branches on. *)
Ltac reflect_Z :=
  repeat match goal with
  | H : (_ <=? _) = true |- _ => apply Z.leb_le in H
  | H : (_ <=? _) = false |- _ => apply Z.leb_gt in H
  | H : (_ <? _) = true |- _ => apply Z.ltb_lt in H
  | H : (_ <? _) = false |- _ => apply Z.ltb_ge in H
  | H : (_ =? _) = true |- _ => apply Z.eqb_eq in H
  | H : (_ =? _) = false |- _ => apply Z.eqb_neq in H
  | H : negb _ = true |- _ => apply negb_true_iff in H
  | H : negb _ = false |- _ => apply negb_false_iff in H
  | H : _ && _ = true |- _ => apply andb_true_iff in H; destruct H
  end.

(** Case analysis on every boolean test of [Z] in the goal. *)
Ltac case_Z :=
  repeat match goal with
  | |- context [if ?b then _ else _] =>
      match b with
      | (_ <=? _) => destruct b eqn:?
      | (_ <? _) => destruct b eqn:?
      | (_ =? _) => destruct b eqn:?
      end
  end; reflect_Z.

(** ** Saturating and wrapping arithmetic *)

Lemma u_max_nonneg w : 0 <= w -> 0 <= u_max w.
Proof. intros. unfold u_max. pose proof (Z.pow_pos_nonneg 2 w). lia. Qed.

Lemma sat_add_nonneg w x y : 0 <= w -> 0 <= x -> 0 <= y -> 0 <= sat_add w x y.
Proof. intros ???. unfold sat_add. pose proof (u_max_nonneg w). lia. Qed.

Lemma sat_add_le_max w x y : sat_add w x y <= u_max w.
Proof. unfold sat_add. lia. Qed.

Lemma sat_add_le w x y : sat_add w x y <= x + y.
Proof. unfold sat_add. lia. Qed.

Lemma sat_add_mono w x y : 0 <= y -> x <= u_max w -> x <= sat_add w x y.
Proof. unfold sat_add. lia. Qed.

Lemma sat_sub_nonneg x y : 0 <= sat_sub x y.
Proof. unfold sat_sub. lia. Qed.

Lemma wrap_range w x : 0 <= w -> 0 <= wrap w x <= u_max w.
Proof.
  intros. unfold wrap, u_max. pose proof (Z.pow_pos_nonneg 2 w ltac:(lia) ltac:(lia)).
  pose proof (Z.mod_pos_bound x (2 ^ w)). lia.
Qed.

Lemma wrap_small w x : in_u w x -> wrap w x = x.
Proof. unfold in_u, wrap, u_max. intros. apply Z.mod_small. lia. Qed.

Lemma wrap_add_l w x y : wrap w (wrap w x + y) = wrap w (x + y).
Proof. unfold wrap. by rewrite Zplus_mod_idemp_l. Qed.

Lemma wrap_sub_l w x y : wrap w (wrap w x - y) = wrap w (x - y).
Proof. unfold wrap. by rewrite Zminus_mod_idemp_l. Qed.

#[export] Hint Resolve u_max_nonneg sat_add_nonneg sat_sub_nonneg sat_add_le_max : cpx.

Lemma zlen_nonneg {A} (l : list A) : 0 <= zlen l.
Proof. unfold zlen. lia. Qed.

Lemma zlen_app {A} (l k : list A) : zlen (l ++ k) = zlen l + zlen k.
Proof. unfold zlen. rewrite length_app. lia. Qed.

Lemma zlen_cons {A} (x : A) l : zlen (x :: l) = 1 + zlen l.
Proof. unfold zlen. simpl. lia. Qed.

Lemma zlen_nil {A} : zlen (@nil A) = 0.
Proof. done. Qed.

#[export] Hint Rewrite @zlen_app @zlen_cons @zlen_nil : cpx.
#[export] Hint Resolve zlen_nonneg : cpx.

(** ** Sums over a finite map *)

Definition msum {K A} `{Countable K} (f : A -> Z) (m : gmap K A) : Z :=
  map_fold (fun _ a acc => f a + acc) 0 m.

Section Msum.
Context {K A : Type} `{Countable K}.
Implicit Types (m : gmap K A) (f : A -> Z).

Lemma msum_empty f : msum f (∅ : gmap K A) = 0.
Proof. done. Qed.

Lemma msum_insert_new f m k a :
  m !! k = None -> msum f (<[k := a]> m) = f a + msum f m.
Proof.
  intros Hk. unfold msum. rewrite map_fold_insert_L; [done | | done].
  intros. lia.
Qed.

Lemma msum_delete f m k a :
  m !! k = Some a -> msum f m = f a + msum f (delete k m).
Proof.
  intros Hk. unfold msum. rewrite (map_fold_delete_L _ _ k a); [done | | done].
  intros. lia.
Qed.

Lemma msum_insert_old f m k a b :
  m !! k = Some a -> msum f (<[k := b]> m) = msum f m - f a + f b.
Proof.
  intros Hk. rewrite <- (insert_delete_eq m k b).
  rewrite msum_insert_new by apply lookup_delete_eq.
  rewrite (msum_delete f m k a Hk). lia.
Qed.

Lemma msum_nonneg f m : (forall k a, m !! k = Some a -> 0 <= f a) -> 0 <= msum f m.
Proof.
  induction m as [|k a m Hk IH] using map_ind; intros Hf; [by rewrite msum_empty|].
  rewrite msum_insert_new by done.
  assert (0 <= f a) by (apply (Hf k); by rewrite lookup_insert_eq).
  assert (0 <= msum f m); [|lia].
  apply IH. intros k' a' Hk'. apply (Hf k').
  rewrite lookup_insert_ne; [done | congruence].
Qed.

Lemma msum_size m : msum (fun _ => 1) m = Z.of_nat (size m).
Proof.
  induction m as [|k a m Hk IH] using map_ind; [done|].
  rewrite msum_insert_new by done. rewrite map_size_insert_None by done. lia.
Qed.
End Msum.

(** ** A stable sort

    [slice::sort_by] and [sort_by_key] are stable sorts; when the comparison
    is a total preorder their result is determined by it.  [sort_by le] inserts
    from the right, each element in front of the first one it is [<=] to. *)
Section StableSort.
Context {A : Type} (le : A -> A -> bool).

Fixpoint sorted_insert (x : A) (l : list A) : list A :=
  match l with
  | [] => [x]
  | y :: l' => if le x y then x :: y :: l' else y :: sorted_insert x l'
  end.

Definition sort_by (l : list A) : list A := foldr sorted_insert [] l.

Lemma sorted_insert_perm x l : sorted_insert x l ≡ₚ x :: l.
Proof.
  induction l as [|y l IH]; simpl; [done|].
  destruct (le x y); [done|]. rewrite IH. apply Permutation_swap.
Qed.

Lemma sort_by_perm l : sort_by l ≡ₚ l.
Proof.
  induction l as [|x l IH]; simpl; [done|].
  by rewrite sorted_insert_perm, IH.
Qed.

Lemma length_sort_by l : length (sort_by l) = length l.
Proof. by rewrite sort_by_perm. Qed.

Hypothesis le_total : forall x y, le x y = false -> le y x = true.
Hypothesis le_trans : forall x y z, le x y = true -> le y z = true -> le x z = true.

Lemma sorted_insert_sorted x l :
  StronglySorted (fun a b => le a b = true) l ->
  StronglySorted (fun a b => le a b = true) (sorted_insert x l).
Proof.
  induction l as [|y l IH]; intros Hs; simpl.
  - repeat constructor.
  - apply StronglySorted_inv in Hs as [Hs Hy].
    destruct (le x y) eqn:E.
    + constructor; [by constructor|]. constructor; [done|].
      eapply Forall_impl; [exact Hy|]. simpl. eauto.
    + constructor; [by apply IH|]. rewrite sorted_insert_perm.
      constructor; [by apply le_total|done].
Qed.

Lemma sort_by_sorted l : StronglySorted (fun a b => le a b = true) (sort_by l).
Proof.
  induction l; simpl; [constructor|]. by apply sorted_insert_sorted.
Qed.
End StableSort.

(** A sorted list is a fixed point of the sort. *)
Lemma sort_by_id {A} (le : A -> A -> bool) l :
  StronglySorted (fun a b => le a b = true) l -> sort_by le l = l.
Proof.
  induction l as [|x l IH]; intros Hs; simpl; [done|].
  apply StronglySorted_inv in Hs as [Hs Hx]. rewrite IH by done.
  destruct l as [|y l]; simpl; [done|].
  by apply Forall_inv in Hx as ->.
Qed.

Lemma strongly_sorted_impl {A} (R R' : A -> A -> Prop) l :
  (forall a b, R a b -> R' a b) -> StronglySorted R l -> StronglySorted R' l.
Proof.
  intros HR. induction 1 as [|x l Hs IH Hx]; constructor; [done|].
  eapply Forall_impl; [exact Hx|]. auto.
Qed.

Lemma filter_partition_perm {A} (g : A -> bool) l :
  l ≡ₚ List.filter g l ++ List.filter (fun x => negb (g x)) l.
Proof.
  induction l as [|x l IH]; simpl; [done|]. destruct (g x); simpl; [by rewrite <- IH|].
  rewrite IH at 1. apply Permutation_middle.
Qed.

(** ** Loops

    [while_fuel n cond body s] runs [while cond { body }] for at most [n]
    iterations; [None] means that the condition still held. *)
Fixpoint while_fuel {S} (n : nat) (cond : S -> bool) (body : S -> S) (s : S) : option S :=
  match n with
  | O => if cond s then None else Some s
  | S n' => if cond s then while_fuel n' cond body (body s) else Some s
  end.

Lemma while_fuel_exit {S} n cond (body : S -> S) s s' :
  while_fuel n cond body s = Some s' -> cond s' = false.
Proof.
  revert s. induction n as [|n IH]; intros s; simpl; destruct (cond s) eqn:E; intros H;
    [done|congruence|eauto|congruence].
Qed.

Lemma while_fuel_inv {S} (P : S -> Prop) n cond (body : S -> S) s s' :
  (forall x, P x -> cond x = true -> P (body x)) ->
  P s -> while_fuel n cond body s = Some s' -> P s'.
Proof.
  intros Hb. revert s. induction n as [|n IH]; intros s Hs; simpl; destruct (cond s) eqn:E;
    intros H; [done|congruence|eauto|congruence].
Qed.

(** A loop whose body decreases a measure terminates. *)
Lemma while_fuel_term {S} (mu : S -> nat) n cond (body : S -> S) s :
  (forall x, cond x = true -> (mu (body x) < mu x)%nat) ->
  (mu s <= n)%nat -> is_Some (while_fuel n cond body s).
Proof.
  intros Hdec. revert s. induction n as [|n IH]; intros s Hs; simpl; destruct (cond s) eqn:E;
    try by eexists.
  - specialize (Hdec s E). lia.
  - apply IH. specialize (Hdec s E). lia.
Qed.

(** A loop whose condition always holds never exits. *)
Lemma while_fuel_diverges {S} n cond (body : S -> S) s :
  (forall x, cond x = true) -> while_fuel n cond body s = None.
Proof. intros Hc. revert s. induction n as [|n IH]; intros s; simpl; by rewrite Hc. Qed.
