(* ===== verification/Floats.v ===== *)
(** * IEEE 754 binary32 and binary64 as used by the proxy

    Rust's [f32] and [f64] are the formats binary32 and binary64.  Values are
    the Standard Library's [spec_float] (no NaN payload), and the operations
    are its executable specification of the IEEE operations with rounding to
    nearest, ties to even, at the precision of the format.  Conversions to and
    from integers, [min], [max], [clamp] and the comparison used by the sorts
    of search results are written out here.  The file holds no axiom. *)

From Stdlib Require Import SpecFloat.
From S2P Require Import Prelude.
Open Scope Z_scope.
Open Scope conproxy_scope.

Abbreviation f32 := spec_float (only parsing).
Abbreviation f64 := spec_float (only parsing).

#[export] Instance spec_float_eq_dec : EqDecision spec_float.
Proof. solve_decision. Defined.

Module F32.
Definition prec : Z := 24.
Definition emax : Z := 128.
Definition add (x y : f32) : f32 := SFadd prec emax x y.
Definition sub (x y : f32) : f32 := SFsub prec emax x y.
Definition mul (x y : f32) : f32 := SFmul prec emax x y.
Definition div (x y : f32) : f32 := SFdiv prec emax x y.
(** [n as f32] *)
Definition of_Z (n : Z) : f32 := binary_normalize prec emax n 0 false.
(** The literal [n / d] rounded to nearest; [n] and [d] below [2^24]. *)
Definition lit (n d : Z) : f32 := div (of_Z n) (of_Z d).
(** [f32::MAX] *)
Definition max_value : f32 := SFmax_float prec emax.
End F32.

Module F64.
Definition prec : Z := 53.
Definition emax : Z := 1024.
Definition add (x y : f64) : f64 := SFadd prec emax x y.
Definition sub (x y : f64) : f64 := SFsub prec emax x y.
Definition mul (x y : f64) : f64 := SFmul prec emax x y.
Definition div (x y : f64) : f64 := SFdiv prec emax x y.
Definition sqrt (x : f64) : f64 := SFsqrt prec emax x.
Definition of_Z (n : Z) : f64 := binary_normalize prec emax n 0 false.
Definition lit (n d : Z) : f64 := div (of_Z n) (of_Z d).
End F64.

Definition f_zero : spec_float := S754_zero false.

(** [x as f64] of an [f32] (exact) and [x as f32] of an [f64] (rounds). *)
Definition f64_of_f32 (x : f32) : f64 :=
  match x with
  | S754_finite s m e => binary_round F64.prec F64.emax s m e
  | _ => x
  end.
Definition f32_of_f64 (x : f64) : f32 :=
  match x with
  | S754_finite s m e => binary_round F32.prec F32.emax s m e
  | _ => x
  end.

Definition is_nan (x : spec_float) : bool :=
  match x with S754_nan => true | _ => false end.
Definition is_infinite (x : spec_float) : bool :=
  match x with S754_infinity _ => true | _ => false end.
Definition is_finite (x : spec_float) : bool :=
  match x with S754_zero _ | S754_finite _ _ _ => true | _ => false end.

(** Magnitude of a finite float, truncated towards zero. *)
Definition trunc_mag (m : positive) (e : Z) : Z :=
  if 0 <=? e then Zpos m * 2 ^ e else Zpos m / 2 ^ (- e).

(** [x as u<w>]: truncation towards zero, saturating, NaN to zero. *)
Definition f_to_u (w : Z) (x : spec_float) : Z :=
  match x with
  | S754_zero _ | S754_nan => 0
  | S754_infinity s => if s then 0 else u_max w
  | S754_finite s m e => if s then 0 else Z.min (trunc_mag m e) (u_max w)
  end.

(** [x.ceil() as usize] for a non-negative [x]: the ceiling of a binary64 is a
    binary64, so no rounding happens between the two steps. *)
Definition f_ceil_to_u (w : Z) (x : spec_float) : Z :=
  match x with
  | S754_zero _ | S754_nan => 0
  | S754_infinity s => if s then 0 else u_max w
  | S754_finite true _ _ => 0
  | S754_finite false m e =>
      let c := if 0 <=? e then Zpos m * 2 ^ e
               else - ((- Zpos m) / 2 ^ (- e)) in
      Z.min c (u_max w)
  end.

Definition f_lt (x y : spec_float) : bool := SFltb x y.
Definition f_le (x y : spec_float) : bool := SFleb x y.
(** [x > y] and [x >= y]. *)
Definition f_gt (x y : spec_float) : bool := SFltb y x.
Definition f_ge (x y : spec_float) : bool := SFleb y x.
Definition f_eq (x y : spec_float) : bool := SFeqb x y.
Definition f_abs (x : spec_float) : spec_float := SFabs x.

(** [f32::max] / [f32::min]: a NaN operand is ignored. *)
Definition f_max (x y : spec_float) : spec_float :=
  if is_nan x then y else if is_nan y then x else if f_lt x y then y else x.
Definition f_min (x y : spec_float) : spec_float :=
  if is_nan x then y else if is_nan y then x else if f_lt y x then y else x.

(** [x.clamp(lo, hi)] with [lo <= hi]. *)
Definition f_clamp (x lo hi : spec_float) : spec_float :=
  if f_lt x lo then lo else if f_gt x hi then hi else x.

(** [a.partial_cmp(b).unwrap_or(Ordering::Equal)] *)
Definition cmp_or_eq (x y : spec_float) : comparison :=
  match SFcompare x y with Some c => c | None => Eq end.

(** Duration::as_secs_f64 / as_secs_f32 *)
Definition as_secs_f64 (d : Z) : f64 :=
  F64.add (F64.of_Z (d / nanos_per_sec))
          (F64.div (F64.of_Z (d mod nanos_per_sec)) (F64.of_Z nanos_per_sec)).
Definition as_secs_f32 (d : Z) : f32 :=
  F32.add (F32.of_Z (d / nanos_per_sec))
          (F32.div (F32.of_Z (d mod nanos_per_sec)) (F32.of_Z nanos_per_sec)).

(** ** Order

    [SFcompare] is a total preorder away from NaN. *)

Definition not_nan (x : spec_float) : Prop := is_nan x = false.

Lemma pos_compare_cont_eq m1 m2 : Pos.compare_cont Eq m1 m2 = (m1 ?= m2)%positive.
Proof. done. Qed.

(** A sort key in [Z * Z * Z] ordered lexicographically. *)
Definition f_key (x : spec_float) : Z * Z * Z :=
  match x with
  | S754_nan => (0, 0, 0)
  | S754_infinity true => (-2, 0, 0)
  | S754_finite true m e => (-1, - e, - Zpos m)
  | S754_zero _ => (0, 0, 0)
  | S754_finite false m e => (1, e, Zpos m)
  | S754_infinity false => (2, 0, 0)
  end.

Definition key_compare (k1 k2 : Z * Z * Z) : comparison :=
  let '(a1, b1, c1) := k1 in
  let '(a2, b2, c2) := k2 in
  match a1 ?= a2 with
  | Eq => match b1 ?= b2 with Eq => c1 ?= c2 | c => c end
  | c => c
  end.

Lemma SFcompare_key x y :
  not_nan x -> not_nan y -> SFcompare x y = Some (key_compare (f_key x) (f_key y)).
Proof.
  unfold not_nan. destruct x as [[]|[]| |[] m e], y as [[]|[]| |[] m' e']; simpl; try done.
  intros _ _. f_equal.
  replace (- e ?= - e') with (e' ?= e) by (by rewrite Z.compare_opp).
  replace (Z.neg m ?= Z.neg m') with (CompOpp (Pos.compare_cont Eq m m')) by done.
  rewrite (Z.compare_antisym e e'). by destruct (e ?= e').
Qed.

Lemma key_compare_refl k : key_compare k k = Eq.
Proof. destruct k as [[a b] c]; simpl. by rewrite !Z.compare_refl. Qed.

Lemma key_compare_spec k1 k2 :
  key_compare k1 k2 = Gt <-> key_compare k2 k1 = Lt.
Proof.
  destruct k1 as [[a b] c], k2 as [[a' b'] c']; simpl.
  rewrite (Z.compare_antisym a a'), (Z.compare_antisym b b'), (Z.compare_antisym c c').
  destruct (a ?= a'), (b ?= b'), (c ?= c'); simpl; intuition congruence.
Qed.

Lemma key_compare_trans k1 k2 k3 :
  key_compare k1 k2 <> Gt -> key_compare k2 k3 <> Gt -> key_compare k1 k3 <> Gt.
Proof.
  destruct k1 as [[a1 b1] c1], k2 as [[a2 b2] c2], k3 as [[a3 b3] c3]; simpl.
  destruct (Z.compare_spec a1 a2), (Z.compare_spec a2 a3), (Z.compare_spec a1 a3);
    try lia; try done;
  destruct (Z.compare_spec b1 b2), (Z.compare_spec b2 b3), (Z.compare_spec b1 b3);
    try lia; try done;
  destruct (Z.compare_spec c1 c2), (Z.compare_spec c2 c3), (Z.compare_spec c1 c3);
    try lia; done.
Qed.

(** The boolean order used to sort by score descending:
    [b.score.partial_cmp(&a.score).unwrap_or(Equal)] is not [Greater]. *)
Definition score_desc_le (a b : spec_float) : bool :=
  match cmp_or_eq b a with Gt => false | _ => true end.

Lemma f_le_key x y :
  not_nan x -> not_nan y -> f_le x y = true <-> key_compare (f_key x) (f_key y) <> Gt.
Proof.
  intros. unfold f_le, SFleb. rewrite SFcompare_key by done.
  destruct (key_compare _ _); intuition congruence.
Qed.

Lemma f_lt_key x y :
  not_nan x -> not_nan y -> f_lt x y = true <-> key_compare (f_key x) (f_key y) = Lt.
Proof.
  intros. unfold f_lt, SFltb. rewrite SFcompare_key by done.
  destruct (key_compare _ _); intuition congruence.
Qed.

Lemma f_lt_nan_l x y : f_lt x y = true -> not_nan x.
Proof. destruct x; simpl; try done. Qed.
Lemma f_lt_nan_r x y : f_lt x y = true -> not_nan y.
Proof. destruct x, y; simpl; try done. Qed.
Lemma f_le_nan_l x y : f_le x y = true -> not_nan x.
Proof. destruct x; simpl; try done. Qed.
Lemma f_le_nan_r x y : f_le x y = true -> not_nan y.
Proof. destruct x, y; simpl; try done. Qed.
#[export] Hint Resolve f_lt_nan_l f_lt_nan_r f_le_nan_l f_le_nan_r : cpx.

Lemma f_le_refl x : not_nan x -> f_le x x = true.
Proof. intros. apply f_le_key; [done..|]. by rewrite key_compare_refl. Qed.

Lemma f_le_trans x y z : f_le x y = true -> f_le y z = true -> f_le x z = true.
Proof.
  intros Hxy Hyz.
  assert (not_nan x) by eauto using f_le_nan_l.
  assert (not_nan y) by eauto using f_le_nan_l.
  assert (not_nan z) by eauto using f_le_nan_r.
  rewrite f_le_key in * by done. eauto using key_compare_trans.
Qed.

Lemma f_lt_le x y : f_lt x y = true -> f_le x y = true.
Proof. unfold f_lt, f_le, SFltb, SFleb. by destruct (SFcompare x y) as [[]|]. Qed.

(** Away from NaN, [<] is the negation of the converse [<=]. *)
Lemma f_lt_not_le x y :
  not_nan x -> not_nan y -> f_lt x y = negb (f_le y x).
Proof.
  intros Hx Hy. apply eq_true_iff_eq. rewrite negb_true_iff.
  rewrite <- not_true_iff_false, f_lt_key, f_le_key by done.
  rewrite <- (key_compare_spec (f_key y) (f_key x)).
  destruct (key_compare (f_key y) (f_key x)); intuition congruence.
Qed.

Lemma f_lt_trans x y z : f_lt x y = true -> f_lt y z = true -> f_lt x z = true.
Proof.
  intros Hxy Hyz.
  assert (not_nan x) by eauto using f_lt_nan_l.
  assert (not_nan y) by eauto using f_lt_nan_l.
  assert (not_nan z) by eauto using f_lt_nan_r.
  rewrite f_lt_not_le, negb_true_iff in * by done. apply not_true_iff_false. intros Hzx.
  assert (f_le z y = true) by (eapply f_le_trans; [exact Hzx|]; apply f_lt_le; rewrite f_lt_not_le by done; by rewrite Hxy).
  congruence.
Qed.

Lemma f_le_total x y : not_nan x -> not_nan y -> f_le x y = false -> f_le y x = true.
Proof.
  intros Hx Hy H. pose proof (f_lt_not_le y x Hy Hx) as E. rewrite H in E.
  by apply f_lt_le.
Qed.

Lemma score_desc_le_ge x y : not_nan x -> not_nan y -> score_desc_le x y = f_le y x.
Proof.
  intros. unfold score_desc_le, cmp_or_eq, f_le, SFleb. rewrite SFcompare_key by done.
  by destruct (key_compare _ _).
Qed.

(** [f_max] is an upper bound of both operands and one of them. *)
Lemma f_max_ub_l x y : not_nan x -> not_nan y -> f_le x (f_max x y) = true.
Proof.
  intros Hx Hy. unfold f_max. rewrite Hx, Hy.
  destruct (f_lt x y) eqn:E; [by apply f_lt_le|by apply f_le_refl].
Qed.
Lemma f_max_ub_r x y : not_nan x -> not_nan y -> f_le y (f_max x y) = true.
Proof.
  intros Hx Hy. unfold f_max. rewrite Hx, Hy.
  destruct (f_lt x y) eqn:E; [by apply f_le_refl|].
  rewrite f_lt_not_le in E by done. by apply negb_false_iff in E.
Qed.
Lemma f_max_not_nan x y : not_nan x -> not_nan y -> not_nan (f_max x y).
Proof. intros Hx Hy. unfold f_max. rewrite Hx, Hy. by destruct (f_lt x y). Qed.

(** [f_clamp] lands in its interval. *)
Lemma f_clamp_bounds x lo hi :
  not_nan x -> f_le lo hi = true ->
  f_le lo (f_clamp x lo hi) = true /\ f_le (f_clamp x lo hi) hi = true.
Proof.
  intros Hx Hlh.
  assert (Hl : not_nan lo) by eauto using f_le_nan_l.
  assert (Hh : not_nan hi) by eauto using f_le_nan_r.
  unfold f_clamp, f_gt. destruct (f_lt x lo) eqn:E1; [auto using f_le_refl|].
  rewrite f_lt_not_le in E1 by done. apply negb_false_iff in E1.
  change (SFltb hi x) with (f_lt hi x).
  destruct (f_lt hi x) eqn:E2; [auto using f_le_refl|].
  rewrite f_lt_not_le in E2 by done. apply negb_false_iff in E2. auto.
Qed.

Lemma f_to_u_range w x : 0 <= w -> 0 <= f_to_u w x <= u_max w.
Proof.
  intros Hw. pose proof (u_max_nonneg w Hw).
  destruct x as [|[]| |[] m e]; simpl; try lia.
  assert (0 <= trunc_mag m e); [|lia].
  unfold trunc_mag. destruct (0 <=? e) eqn:E; reflect_Z.
  - pose proof (Z.pow_pos_nonneg 2 e). lia.
  - apply Z.div_pos; [lia|]. apply Z.pow_pos_nonneg; lia.
Qed.
#[export] Hint Resolve f_le_refl f_le_trans f_lt_le f_max_not_nan : cpx.

Lemma f_gt_irrefl x : f_gt x x = false.
Proof.
  destruct (f_gt x x) eqn:E; [|done]. unfold f_gt in E.
  assert (not_nan x) as Hx by eauto using f_lt_nan_l.
  pose proof (f_lt_not_le _ _ Hx Hx) as Hl. unfold f_lt in *. rewrite E in Hl. by rewrite f_le_refl in Hl.
Qed.

(** Sorting by score, best first. *)
Lemma score_desc_sorted {A} (k : A -> f32) l :
  Forall (fun x => not_nan (k x)) l ->
  StronglySorted (fun a b => f_le (k b) (k a) = true) (sort_by (fun a b => score_desc_le (k a) (k b)) l).
Proof.
  induction l as [|x l IH]; intros Hnn; simpl; [constructor|].
  inversion_clear Hnn as [|? ? Hx Hl]. specialize (IH Hl).
  assert (Hs : Forall (fun x => not_nan (k x)) (sort_by (fun a b => score_desc_le (k a) (k b)) l))
    by (by rewrite sort_by_perm).
  revert IH Hs. generalize (sort_by (fun a b => score_desc_le (k a) (k b)) l). clear -Hx.
  intros l. induction l as [|y l IH]; intros Hso Hs; simpl; [repeat constructor|].
  inversion_clear Hs as [|? ? Hy Hl]. apply StronglySorted_inv in Hso as [Hso Hf].
  rewrite score_desc_le_ge by done. destruct (f_le (k y) (k x)) eqn:Ele.
  - constructor; [by constructor|]. constructor; [done|].
    eapply Forall_impl; [exact Hf|]. simpl. intros z Hz. by eapply f_le_trans.
  - constructor; [by apply IH|]. rewrite sorted_insert_perm. constructor; [|done].
    by apply f_le_total.
Qed.
