(* ===== verification/Text.v ===== *)
(** * Rust strings

    A [char] is a Unicode scalar value (a [Z]); a [str] is the list of its
    [char]s.  [len] and [as_bytes] go through the UTF-8 encoding.  The
    Unicode predicates the proxy uses ([is_whitespace], [is_control],
    [is_ascii_alphanumeric]) are written out from their definitions; the case
    mapping table of [str::to_lowercase] is a class with the laws the proofs
    use, and its restriction to ASCII is an instance of it. *)

From S2P Require Import Prelude.
Open Scope Z_scope.
Open Scope conproxy_scope.

Abbreviation char := Z (only parsing).
Abbreviation str := (list Z) (only parsing).
Abbreviation bytes := (list Z) (only parsing).

(** A string literal of the source. *)
Fixpoint lit (s : string) : str :=
  match s with
  | EmptyString => []
  | String a s' => Z.of_N (Ascii.N_of_ascii a) :: lit s'
  end.

Definition str_eqb (a b : str) : bool := bool_decide (a = b).

(** ** UTF-8 *)
Definition utf8_char (c : char) : bytes :=
  if c <? 128 then [c]
  else if c <? 2048 then [192 + Z.shiftr c 6; 128 + Z.land c 63]
  else if c <? 65536 then
    [224 + Z.shiftr c 12; 128 + Z.land (Z.shiftr c 6) 63; 128 + Z.land c 63]
  else
    [240 + Z.shiftr c 18; 128 + Z.land (Z.shiftr c 12) 63;
     128 + Z.land (Z.shiftr c 6) 63; 128 + Z.land c 63].

Definition as_bytes (s : str) : bytes := concat (map utf8_char s).

(** [str::len]: the number of bytes. *)
Definition str_len (s : str) : Z := zlen (as_bytes s).

(** ** Character classes *)
Definition is_whitespace (c : char) : bool :=
  ((9 <=? c) && (c <=? 13)) || (c =? 32) || (c =? 133) || (c =? 160) || (c =? 5760)
  || ((8192 <=? c) && (c <=? 8202)) || (c =? 8232) || (c =? 8233) || (c =? 8239)
  || (c =? 8287) || (c =? 12288).

Definition is_control (c : char) : bool := (c <? 32) || ((127 <=? c) && (c <=? 159)).

Definition is_ascii_digit (c : char) : bool := (48 <=? c) && (c <=? 57).
Definition is_ascii_upper (c : char) : bool := (65 <=? c) && (c <=? 90).
Definition is_ascii_lower (c : char) : bool := (97 <=? c) && (c <=? 122).
Definition is_ascii_alphanumeric (c : char) : bool :=
  is_ascii_digit c || is_ascii_upper c || is_ascii_lower c.
Definition to_ascii_lowercase_char (c : char) : char :=
  if is_ascii_upper c then c + 32 else c.
Definition to_ascii_lowercase (s : str) : str := map to_ascii_lowercase_char s.

(** ** Trimming and searching *)
Fixpoint trim_start_by (p : char -> bool) (s : str) : str :=
  match s with
  | [] => []
  | c :: s' => if p c then trim_start_by p s' else s
  end.
Definition trim_end_by (p : char -> bool) (s : str) : str :=
  reverse (trim_start_by p (reverse s)).
Definition trim (s : str) : str := trim_end_by is_whitespace (trim_start_by is_whitespace s).

Definition contains_char (s : str) (c : char) : bool := existsb (Z.eqb c) s.

Fixpoint starts_with (s p : str) : bool :=
  match p, s with
  | [], _ => true
  | c :: p', d :: s' => (c =? d) && starts_with s' p'
  | _ :: _, [] => false
  end.

Definition strip_prefix (p s : str) : option str :=
  if starts_with s p then Some (drop (length p) s) else None.

Fixpoint contains_str (s p : str) : bool :=
  starts_with s p ||
  match s with [] => false | _ :: s' => contains_str s' p end.

(** Decimal digits of an unsigned 64-bit number ([Display]). *)
Fixpoint digits_aux (fuel : nat) (n : Z) (acc : str) : str :=
  match fuel with
  | O => acc
  | S f => let acc := (48 + n mod 10) :: acc in
           if n <? 10 then acc else digits_aux f (n / 10) acc
  end.
Definition show_Z (n : Z) : str := digits_aux 20 n [].

(** ** Lowercasing

    [str::to_lowercase] follows the Unicode tables.  The laws are facts of those
    tables: the result consists of characters that lowercase to themselves, a
    string of such characters is left alone, and lowercasing neither creates
    nor removes white space at either end. *)
Class UnicodeCase := { to_lowercase : str -> str }.

Definition lower_fixed `{UnicodeCase} (c : char) : Prop := to_lowercase [c] = [c].

Class UnicodeCaseLaws (U : UnicodeCase) : Prop := {
  lower_out_fixed : forall s, Forall lower_fixed (to_lowercase s);
  lower_fixed_id : forall s, Forall lower_fixed s -> to_lowercase s = s;
  lower_space : lower_fixed 32;
  lower_head_ws : forall s,
    option_map is_whitespace (head (to_lowercase s)) = option_map is_whitespace (head s);
  lower_last_ws : forall s,
    option_map is_whitespace (last (to_lowercase s)) = option_map is_whitespace (last s)
}.

(** The ASCII restriction of the table. *)
Definition AsciiCase : UnicodeCase := {| to_lowercase := to_ascii_lowercase |}.

Lemma to_ascii_lowercase_char_idem c :
  to_ascii_lowercase_char (to_ascii_lowercase_char c) = to_ascii_lowercase_char c.
Proof.
  unfold to_ascii_lowercase_char, is_ascii_upper.
  destruct (65 <=? c) eqn:?, (c <=? 90) eqn:?; simpl; reflect_Z;
  repeat match goal with |- context [?a <=? ?b] => destruct (Z.leb_spec a b) end; simpl; lia.
Qed.

Lemma to_ascii_lowercase_char_ws c :
  is_whitespace (to_ascii_lowercase_char c) = is_whitespace c.
Proof.
  unfold to_ascii_lowercase_char, is_ascii_upper.
  destruct (65 <=? c) eqn:E1; [destruct (c <=? 90) eqn:E2|]; simpl; try done. reflect_Z.
  assert (exists k : nat, c = 65 + Z.of_nat k /\ (k <= 25)%nat) as (k & -> & Hk).
  { exists (Z.to_nat (c - 65)). lia. }
  do 26 (destruct k as [|k]; [done|]). lia.
Qed.

#[export] Instance AsciiCase_laws : UnicodeCaseLaws AsciiCase.
Proof.
  split; simpl; unfold lower_fixed; simpl.
  - intros s. apply Forall_forall. intros c (d & <- & _)%list_elem_of_In%in_map_iff.
    unfold to_ascii_lowercase. simpl. by rewrite to_ascii_lowercase_char_idem.
  - intros s Hs. induction Hs as [|c s Hc _ IH]; simpl; [done|].
    unfold to_ascii_lowercase in *. simpl in *. congruence.
  - done.
  - intros [|c s]; simpl; [done|]. by rewrite to_ascii_lowercase_char_ws.
  - intros s. unfold to_ascii_lowercase. change (map ?f s) with (f <$> s).
    rewrite fmap_last. destruct (last s) as [c|]; simpl; [|done].
    f_equal. apply to_ascii_lowercase_char_ws.
Qed.

(** ** Lemmas on trimming *)

Lemma trim_start_head p s c s' : trim_start_by p s = c :: s' -> p c = false.
Proof.
  induction s as [|d s IH]; simpl; [done|].
  destruct (p d) eqn:E; [done|]. by intros [= <- <-].
Qed.

Lemma trim_start_id p s :
  (forall c, head s = Some c -> p c = false) -> trim_start_by p s = s.
Proof. destruct s as [|c s]; simpl; [done|]. intros H. by rewrite (H c). Qed.

Lemma trim_end_id p s :
  (forall c, last s = Some c -> p c = false) -> trim_end_by p s = s.
Proof.
  intros H. unfold trim_end_by. rewrite trim_start_id, reverse_involutive; [done|].
  intros c Hc. apply H. by rewrite head_reverse in Hc.
Qed.

Lemma trim_end_last p s c : last (trim_end_by p s) = Some c -> p c = false.
Proof.
  unfold trim_end_by. rewrite last_reverse.
  destruct (trim_start_by p (reverse s)) as [|d r] eqn:E; simpl; [done|].
  intros [= ->]. eauto using trim_start_head.
Qed.

Lemma trim_start_suffix p s : exists l, s = l ++ trim_start_by p s /\ forallb p l = true.
Proof.
  induction s as [|c s (l & Hl & Hp)]; simpl; [by exists []|].
  destruct (p c) eqn:E; [|by exists []].
  exists (c :: l). simpl. rewrite E, Hp. split; [by f_equal|done].
Qed.

Lemma trim_end_prefix p s : exists l, s = trim_end_by p s ++ l /\ forallb p l = true.
Proof.
  destruct (trim_start_suffix p (reverse s)) as (l & Hl & Hp).
  exists (reverse l). unfold trim_end_by. split.
  - rewrite <- reverse_app, <- Hl. by rewrite reverse_involutive.
  - apply forallb_forall. intros c Hc.
    rewrite forallb_forall in Hp. apply Hp.
    apply list_elem_of_In. apply list_elem_of_In in Hc. by rewrite elem_of_reverse in Hc.
Qed.

(** The result of [trim] has no white space at either end. *)
Lemma trim_head s c : head (trim s) = Some c -> is_whitespace c = false.
Proof.
  unfold trim. intros Hc.
  destruct (trim_start_by is_whitespace s) as [|d r] eqn:E; simpl in Hc; [done|].
  pose proof (trim_start_head _ _ _ _ E) as Hd.
  destruct (trim_end_prefix is_whitespace (d :: r)) as (l & Hl & Hp).
  destruct (trim_end_by is_whitespace (d :: r)) as [|e q]; simpl in *; [done|].
  injection Hl as -> ?. by injection Hc as ->.
Qed.

Lemma trim_last s c : last (trim s) = Some c -> is_whitespace c = false.
Proof. unfold trim. apply trim_end_last. Qed.

Lemma trim_id s :
  (forall c, head s = Some c -> is_whitespace c = false) ->
  (forall c, last s = Some c -> is_whitespace c = false) -> trim s = s.
Proof. intros H1 H2. unfold trim. by rewrite (trim_start_id _ _ H1), trim_end_id. Qed.
