(* ===== verification/Types.v ===== *)
(** * Core data of the proxy (src/src/proxy/types.rs)

    Requests, responses and cache entries, the validation of both directions,
    the integrity hash, schema fingerprints, response signatures and
    certificate pinning.  JSON values are the [serde_json::Value] tree; the
    blake3 hash and the JSON printer are third-party code and enter as the
    class [Externals]. *)

From Stdlib Require Import SpecFloat.
From S2P Require Import Prelude Floats Text.
Open Scope Z_scope.
Open Scope conproxy_scope.

Abbreviation QueryHash := (list Z) (only parsing).

Definition and_then {A B} (x : option A) (f : A -> option B) : option B :=
  match x with Some a => f a | None => None end.
Definition or_else {A} (x y : option A) : option A :=
  match x with Some _ => x | None => y end.

(** serde_json::Value; a number keeps its [as_u64] view and its text. *)
#[warnings="-register-all"]
Inductive Value : Type :=
| VNull
| VBool (b : bool)
| VNumber (as_u64 : option Z) (text : str)
| VString (s : str)
| VArray (a : list Value)
| VObject (o : list (str * Value)).

Definition as_object (v : Value) : option (list (str * Value)) :=
  match v with VObject o => Some o | _ => None end.
Definition as_array (v : Value) : option (list Value) :=
  match v with VArray a => Some a | _ => None end.
(** [Map::get] *)
Definition obj_get (o : list (str * Value)) (k : str) : option Value :=
  snd <$> find (fun kv => str_eqb (fst kv) k) o.

(** Third-party functions: blake3 and serde_json. *)
Class Externals := {
  blake3_hash : bytes -> QueryHash;
  blake3_keyed_hex : bytes -> bytes -> str;
  json_to_string : Value -> str
}.

(** Little-endian bytes of an unsigned integer of [n] bytes. *)
Fixpoint to_le_bytes (n : nat) (x : Z) : bytes :=
  match n with
  | O => []
  | S n' => (x mod 256) :: to_le_bytes n' (x / 256)
  end.

(** The bit pattern of a binary32 (canonical quiet NaN). *)
Definition f32_bits (x : f32) : Z :=
  let sgn (s : bool) := if s then 2 ^ 31 else 0 in
  match x with
  | S754_zero s => sgn s
  | S754_infinity s => sgn s + 255 * 2 ^ 23
  | S754_nan => 255 * 2 ^ 23 + 2 ^ 22
  | S754_finite s m e =>
      sgn s + (if Zpos m <? 2 ^ 23 then Zpos m else (e + 150) * 2 ^ 23 + (Zpos m - 2 ^ 23))
  end.

(** ** Schema fingerprint *)
Record SchemaFingerprint := {
  embedding_dims : option Z;
  model_hint : option str;
  version : option str
}.

Definition SchemaFingerprint_default : SchemaFingerprint :=
  {| embedding_dims := None; model_hint := None; version := None |}.

Definition is_compatible (self other : SchemaFingerprint) : bool :=
  if (match embedding_dims self, embedding_dims other with
      | Some a, Some b => negb (a =? b)
      | _, _ => false
      end) then false
  else if (match model_hint self, model_hint other with
           | Some a, Some b => negb (str_eqb a b)
           | _, _ => false
           end) then false
  else true.

Definition is_known (self : SchemaFingerprint) : bool :=
  bool_decide (is_Some (embedding_dims self)) || bool_decide (is_Some (model_hint self)).

(** The first key of [keys] whose value is a number with a [u64] view, cast to [u32]. *)
Fixpoint first_dim (o : list (str * Value)) (keys : list str) : option Z :=
  match keys with
  | [] => None
  | k :: ks =>
      match obj_get o k with
      | Some (VNumber (Some d) _) => Some (wrap 32 d)
      | _ => first_dim o ks
      end
  end.

Fixpoint first_string (o : list (str * Value)) (keys : list str) : option str :=
  match keys with
  | [] => None
  | k :: ks =>
      match obj_get o k with
      | Some (VString s) => Some s
      | _ => first_string o ks
      end
  end.

(** Length of the first vector-like array field of one result object. *)
Fixpoint first_vector_len (o : list (str * Value)) (keys : list str) : option Z :=
  match keys with
  | [] => None
  | k :: ks =>
      match and_then (obj_get o k) as_array with
      | Some a => Some (wrap 32 (zlen a))
      | None => first_vector_len o ks
      end
  end.

Fixpoint infer_dims (results : list Value) : option Z :=
  match results with
  | [] => None
  | r :: rs =>
      match and_then (as_object r) (fun o =>
        first_vector_len o (map lit ["vector"; "embedding"; "embeddings"; "dense_vector"]%string))
      with
      | Some d => Some d
      | None => infer_dims rs
      end
  end.

Definition extract_from_json (value : Value) : SchemaFingerprint :=
  match as_object value with
  | None => SchemaFingerprint_default
  | Some obj =>
      let dims := first_dim obj (map lit ["embedding_dims"; "dimensions"; "dim"; "vector_size";
                                          "embedding_dimension"]%string) in
      let model := first_string obj (map lit ["model"; "embedding_model"; "model_name";
                                              "model_id"]%string) in
      let ver := first_string obj (map lit ["version"; "api_version"; "schema_version"]%string) in
      let dims := or_else dims
        (and_then (and_then (obj_get obj (lit "results")) as_array) infer_dims) in
      let meta := and_then (or_else (obj_get obj (lit "metadata")) (obj_get obj (lit "meta"))) as_object in
      match meta with
      | None => {| embedding_dims := dims; model_hint := model; version := ver |}
      | Some m =>
          {| embedding_dims := or_else dims (first_dim m (map lit ["embedding_dims"; "dimensions"]%string));
             model_hint := or_else model (first_string m (map lit ["model"; "embedding_model"]%string));
             version := ver |}
      end
  end.

(** ** Requests, results, responses *)
Inductive CacheStatus := Hit | Miss | Stale_ | Frozen_.
Inductive Freshness := Fresh | Stale | Expired | Frozen.
Inductive MissReason := NotInCache | ReasonExpired | ReasonUpstreamError | ReasonCircuitOpen.

#[export] Instance CacheStatus_eq_dec : EqDecision CacheStatus.
Proof. solve_decision. Defined.
#[export] Instance Freshness_eq_dec : EqDecision Freshness.
Proof. solve_decision. Defined.
#[export] Instance MissReason_eq_dec : EqDecision MissReason.
Proof. solve_decision. Defined.

Record SearchResult := {
  sr_id : str;
  score : f32;
  content : str;
  metadata : option Value;
  sr_upstream_id : option str
}.

Record QueryResponse := {
  results : list SearchResult;
  cache_status : CacheStatus;
  took_ms : Z;
  generated_at : option Z;
  miss_reason : option MissReason
}.

Record QueryRequest := {
  query : str;
  top_k : option Z;
  rq_priority : option Z;
  rq_upstream_id : option str;
  upstream_type : option str
}.

Definition MAX_QUERY_LENGTH : Z := 10000.
Definition MAX_TOP_K : Z := 1000.
Definition DEFAULT_TOP_K : Z := 10.
Definition MAX_RESULTS : Z := 1000.
Definition MAX_CONTENT_LENGTH : Z := 100000.
Definition MAX_RESPONSE_SIZE : Z := 10000000.

Inductive ValidationError :=
| EmptyQuery
| QueryTooLong (length max : Z)
| QueryContainsNullBytes
| QueryContainsControlChars
| TopKTooLarge (value max : Z).

Definition suspicious_code (c : char) : bool :=
  (c <? 32) && negb (c =? 9) && negb (c =? 10) && negb (c =? 13).

(** QueryRequest::validate *)
Definition request_validate (self : QueryRequest) : result unit ValidationError :=
  if bool_decide (trim (query self) = []) then Err EmptyQuery
  else if MAX_QUERY_LENGTH <? str_len (query self) then
    Err (QueryTooLong (str_len (query self)) MAX_QUERY_LENGTH)
  else if contains_char (query self) 0 then Err QueryContainsNullBytes
  else if existsb suspicious_code (query self) then Err QueryContainsControlChars
  else match top_k self with
       | Some k => if MAX_TOP_K <? k then Err (TopKTooLarge k MAX_TOP_K) else Ok tt
       | None => Ok tt
       end.

Definition effective_top_k (self : QueryRequest) : Z :=
  Z.min (default DEFAULT_TOP_K (top_k self)) MAX_TOP_K.

Inductive ResponseValidationError :=
| TooManyResults (count max : Z)
| ContentTooLong (result_id : str) (length max : Z)
| ContentContainsNullBytes (result_id : str)
| ContentContainsControlChars (result_id : str)
| ResponseTooLarge (size max : Z)
| EmptyResultId
| InvalidScore (result_id : str) (score : f32)
| TimestampTooOld (age_ms max_age_ms : Z)
| TimestampInFuture (generated_at_ms now_ms : Z)
| SignatureMissing
| SignatureInvalid (expected got : str)
| SignatureAlgorithmUnsupported (algorithm : str)
| CertificatePinningFailed (expected_fingerprint got_fingerprint : str)
| CertificateInvalid (reason : str).

(** json_approximate_size; [Iterator::sum] wraps in a release build. *)
Fixpoint json_approximate_size (value : Value) : Z :=
  match value with
  | VNull => 4
  | VBool b => if b then 4 else 5
  | VNumber _ _ => 8
  | VString s => str_len s +! 2
  | VArray arr =>
      let items := fold_right (fun v acc => wrap 64 (json_approximate_size v + acc)) 0 arr in
      items +! zlen arr +! 2
  | VObject obj =>
      let items := fold_right (fun kv acc =>
        wrap 64 ((str_len (fst kv) +! json_approximate_size (snd kv) +! 4) + acc)) 0 obj in
      items +! 2
  end.

(** Size contributed by one result to [validate] and [approximate_size]. *)
Definition result_size (r : SearchResult) (acc : Z) : Z :=
  let acc := acc +! (str_len (sr_id r) +! str_len (content r) +! 32) in
  match metadata r with
  | Some meta => acc +! json_approximate_size meta
  | None => acc
  end.

(** The checks of one result, in the order of the loop body. *)
Definition result_check (r : SearchResult) : option ResponseValidationError :=
  if bool_decide (sr_id r = []) then Some EmptyResultId
  else if is_nan (score r) || is_infinite (score r) then Some (InvalidScore (sr_id r) (score r))
  else if MAX_CONTENT_LENGTH <? str_len (content r) then
    Some (ContentTooLong (sr_id r) (str_len (content r)) MAX_CONTENT_LENGTH)
  else if contains_char (content r) 0 then Some (ContentContainsNullBytes (sr_id r))
  else if existsb (fun c => is_control c && negb (c =? 10) && negb (c =? 13) && negb (c =? 9))
            (content r) then Some (ContentContainsControlChars (sr_id r))
  else None.

Fixpoint validate_loop (rs : list SearchResult) (total_size : Z) : result Z ResponseValidationError :=
  match rs with
  | [] => Ok total_size
  | r :: rs' =>
      match result_check r with
      | Some e => Err e
      | None => validate_loop rs' (result_size r total_size)
      end
  end.

(** QueryResponse::validate *)
Definition response_validate (self : QueryResponse) : result unit ResponseValidationError :=
  if MAX_RESULTS <? zlen (results self) then
    Err (TooManyResults (zlen (results self)) MAX_RESULTS)
  else
    match validate_loop (results self) 0 with
    | Err e => Err e
    | Ok total_size =>
        if MAX_RESPONSE_SIZE <? total_size then Err (ResponseTooLarge total_size MAX_RESPONSE_SIZE)
        else Ok tt
    end.

(** QueryResponse::approximate_size *)
Definition response_approximate_size (self : QueryResponse) : Z :=
  fold_left (fun size r => result_size r size) (results self) 16.

(** QueryResponse::validate_timestamp *)
Definition validate_timestamp (self : QueryResponse) (max_age_ms now_ms clock_skew_tolerance_ms : Z)
  : result unit ResponseValidationError :=
  match generated_at self with
  | Some g =>
      if (now_ms +! clock_skew_tolerance_ms) <? g then Err (TimestampInFuture g now_ms)
      else if g <? (now_ms -! max_age_ms) then Err (TimestampTooOld (now_ms -! g) max_age_ms)
      else Ok tt
  | None => Ok tt
  end.

(** ** Cache entries *)
Record CacheEntry := {
  freq : Z;
  cached_at : Z;
  cached_at_wall : option Z;
  content_hash : option QueryHash;
  response : QueryResponse;
  ce_upstream_id : str;
  extended_count : Z;
  schema : SchemaFingerprint;
  query_text : option str;
  context_id : str
}.

Section WithExternals.
Context `{Externals}.

(** CacheEntry::compute_content_hash: the bytes fed to the hasher, in order. *)
Definition content_hash_input (r : QueryResponse) : bytes :=
  to_le_bytes 8 (zlen (results r)) ++
  concat (map (fun res =>
    as_bytes (sr_id res) ++ to_le_bytes 4 (f32_bits (score res)) ++ as_bytes (content res)
    ++ match metadata res with Some m => as_bytes (json_to_string m) | None => [] end)
    (results r)).
Definition compute_content_hash (r : QueryResponse) : QueryHash :=
  blake3_hash (content_hash_input r).

(** CacheEntry::verify_integrity *)
Definition entry_verify_integrity (self : CacheEntry) : bool :=
  match content_hash self with
  | Some stored_hash => bool_decide (stored_hash = compute_content_hash (response self))
  | None => true
  end.

(** CacheEntry::new_with_hash / new_with_query, at an instant and a wall clock. *)
Definition new_with_hash (now wall : Z) (r : QueryResponse) (up : str) (sc : SchemaFingerprint)
  (ctx : str) : CacheEntry :=
  {| response := r; ce_upstream_id := up; cached_at := now; cached_at_wall := Some wall;
     extended_count := 0; schema := sc; content_hash := Some (compute_content_hash r);
     query_text := None; freq := 0; context_id := ctx |}.
Definition new_with_query (now wall : Z) (r : QueryResponse) (up : str) (sc : SchemaFingerprint)
  (q ctx : str) : CacheEntry :=
  {| response := r; ce_upstream_id := up; cached_at := now; cached_at_wall := Some wall;
     extended_count := 0; schema := sc; content_hash := Some (compute_content_hash r);
     query_text := Some q; freq := 0; context_id := ctx |}.
End WithExternals.

(** ** Served responses *)
Inductive CachedResponse :=
| Cached (entry : CacheEntry) (status : CacheStatus) (took : Z)
| FreshResponse (r : QueryResponse)
| SharedFresh (r : QueryResponse) (took : Z).

(** CachedResponse::into_query_response *)
Definition into_query_response (self : CachedResponse) : QueryResponse :=
  match self with
  | Cached entry status took =>
      {| results := results (response entry); cache_status := status; took_ms := took;
         generated_at := generated_at (response entry); miss_reason := None |}
  | FreshResponse r => r
  | SharedFresh r took =>
      {| results := results r; cache_status := cache_status r; took_ms := took;
         generated_at := generated_at r; miss_reason := miss_reason r |}
  end.

(** The fields the hand-written [Serialize] impl emits, in order. *)
Inductive Field :=
| FResults (rs : list SearchResult)
| FCacheStatus (s : CacheStatus)
| FTookMs (t : Z)
| FGeneratedAt (g : option Z)
| FMissReason (m : option MissReason).

Definition opt_field {A} (o : option A) (f : Field) : list Field :=
  match o with Some _ => [f] | None => [] end.

(** What serde derives for [QueryResponse]: optional fields skipped when [None]. *)
Definition serialize_response (r : QueryResponse) : list Field :=
  [FResults (results r); FCacheStatus (cache_status r); FTookMs (took_ms r)]
  ++ opt_field (generated_at r) (FGeneratedAt (generated_at r))
  ++ opt_field (miss_reason r) (FMissReason (miss_reason r)).

(** The announced field count and the emitted fields. *)
Definition serialize_cached (self : CachedResponse) : Z * list Field :=
  match self with
  | Cached entry status took =>
      let has_generated_at := bool_decide (is_Some (generated_at (response entry))) in
      let field_count := if has_generated_at then 4 else 3 in
      (field_count,
       [FResults (results (response entry)); FCacheStatus status; FTookMs took]
       ++ if has_generated_at then [FGeneratedAt (generated_at (response entry))] else [])
  | FreshResponse r => (zlen (serialize_response r), serialize_response r)
  | SharedFresh r took =>
      let field_count := 3 in
      let field_count := if bool_decide (is_Some (generated_at r)) then field_count +! 1 else field_count in
      let field_count := if bool_decide (is_Some (miss_reason r)) then field_count +! 1 else field_count in
      (field_count,
       [FResults (results r); FCacheStatus (cache_status r); FTookMs took]
       ++ (if bool_decide (is_Some (generated_at r)) then [FGeneratedAt (generated_at r)] else [])
       ++ (if bool_decide (is_Some (miss_reason r)) then [FMissReason (miss_reason r)] else []))
  end.

(** ** Signatures and pinned certificates *)
Record SignatureConfig := {
  sig_enabled : bool;
  header_name : str;
  algorithm : str;
  sig_key : bytes
}.

Definition SignatureConfig_default : SignatureConfig :=
  {| sig_enabled := false; header_name := lit "X-Response-Signature";
     algorithm := lit "HMAC-SHA256"; sig_key := [] |}.
Definition hmac_sha256 (key : bytes) : SignatureConfig :=
  {| sig_enabled := true; header_name := lit "X-Response-Signature";
     algorithm := lit "HMAC-SHA256"; sig_key := key |}.

Section Signatures.
Context `{Externals}.

Definition derive_blake3_key (self : SignatureConfig) : bytes := blake3_hash (sig_key self).

Definition signature_verify (self : SignatureConfig) (body : bytes) (provided_signature : option str)
  : result unit ResponseValidationError :=
  if negb (sig_enabled self) then Ok tt
  else match provided_signature with
       | None => Err SignatureMissing
       | Some provided =>
           if str_eqb (algorithm self) (lit "HMAC-SHA256") then
             let expected := blake3_keyed_hex (derive_blake3_key self) body in
             if negb (str_eqb expected provided) then Err (SignatureInvalid expected provided)
             else Ok tt
           else if str_eqb (algorithm self) (lit "BLAKE3") then
             let expected := blake3_keyed_hex (derive_blake3_key self) body in
             if negb (str_eqb expected provided) then Err (SignatureInvalid expected provided)
             else Ok tt
           else Err (SignatureAlgorithmUnsupported (algorithm self))
       end.

Definition sign (self : SignatureConfig) (body : bytes) : str :=
  if str_eqb (algorithm self) (lit "HMAC-SHA256") || str_eqb (algorithm self) (lit "BLAKE3")
  then blake3_keyed_hex (derive_blake3_key self) body
  else [].
End Signatures.

Record CertificatePinConfig := { pin_enabled : bool; fingerprints : list str }.

Definition CertificatePinConfig_new (fps : list str) : CertificatePinConfig :=
  {| pin_enabled := negb (bool_decide (fps = [])); fingerprints := fps |}.

Section Pins.
Context `{UnicodeCase}.

(** [s.to_lowercase().replace([':', ' '], "")] *)
Definition normalize_fingerprint (s : str) : str :=
  List.filter (fun c => negb (c =? 58) && negb (c =? 32)) (to_lowercase s).

Definition certificate_verify (self : CertificatePinConfig) (cert_fingerprint : str)
  : result unit ResponseValidationError :=
  if negb (pin_enabled self) then Ok tt
  else if existsb (fun pinned =>
            str_eqb (normalize_fingerprint cert_fingerprint) (normalize_fingerprint pinned))
            (fingerprints self) then Ok tt
  else Err (CertificatePinningFailed (default [] (head (fingerprints self))) cert_fingerprint).
End Pins.
