(* ===== verification/Drift.v ===== *)
(** * Drift detection (src/src/proxy/types.rs)

    [detect_drift] grades how far two responses to a query differ, and
    [DriftAggregator] keeps a window of the last grades and raises an alert. *)

From Stdlib Require Import SpecFloat.
From S2P Require Import Prelude Floats Text Types.
Open Scope Z_scope.
Open Scope conproxy_scope.

Inductive DriftLevel := DNone | DMinor | DModerate | DSignificant | DMajor.

#[export] Instance DriftLevel_eq_dec : EqDecision DriftLevel.
Proof. solve_decision. Defined.

(** [level as usize], which is also the derived order. *)
Definition level_idx (l : DriftLevel) : Z :=
  match l with DNone => 0 | DMinor => 1 | DModerate => 2 | DSignificant => 3 | DMajor => 4 end.
Definition exceeds (self threshold : DriftLevel) : bool := level_idx threshold <? level_idx self.

(** Sum of the score differences of the results both responses hold, and their number. *)
Fixpoint score_drift (old_results new_results : list SearchResult) (sum : f32) (count : Z) : f32 * Z :=
  match old_results with
  | [] => (sum, count)
  | o :: rest =>
      match List.find (fun r => str_eqb (sr_id r) (sr_id o)) new_results with
      | Some n => score_drift rest new_results
                    (F32.add sum (f_abs (F32.sub (score o) (score n)))) (sat_add 32 count 1)
      | None => score_drift rest new_results sum count
      end
  end.

Definition id_set (rs : list SearchResult) : gset str := list_to_set (map sr_id rs).

Definition detect_drift (old new : QueryResponse) : DriftLevel :=
  let old_results := results old in
  let new_results := results new in
  match old_results, new_results with
  | [], [] => DNone
  | [], _ | _, [] => DMajor
  | _, _ =>
      let old_ids := id_set old_results in
      let new_ids := id_set new_results in
      let intersection := Z.of_nat (size (old_ids ∩ new_ids)) in
      let total := Z.max (Z.of_nat (size old_ids)) (Z.of_nat (size new_ids)) in
      let overlap_ratio := F32.div (F32.of_Z intersection) (F32.of_Z total) in
      let '(score_drift_sum, score_drift_count) := score_drift old_results new_results f_zero 0 in
      let avg_score_drift := if 0 <? score_drift_count
                             then F32.div score_drift_sum (F32.of_Z score_drift_count)
                             else F32.of_Z 1 in
      if f_ge overlap_ratio (F32.lit 9 10) && f_lt avg_score_drift (F32.lit 5 100) then DNone
      else if f_ge overlap_ratio (F32.lit 7 10) && f_lt avg_score_drift (F32.lit 15 100) then DMinor
      else if f_ge overlap_ratio (F32.lit 5 10) && f_lt avg_score_drift (F32.lit 3 10) then DModerate
      else if f_ge overlap_ratio (F32.lit 3 10) then DSignificant
      else DMajor
  end.

Record DriftObservation := { do_level : DriftLevel; do_timestamp : Z; do_query_hash : QueryHash }.

Record DriftAggregator := {
  observations : list DriftObservation;
  max_observations : Z;
  alert_threshold : DriftLevel;
  alert_count_threshold : Z
}.

Record DriftSummary := {
  total_observations : Z;
  level_counts : list Z;
  alert_triggered : bool;
  max_drift : DriftLevel;
  avg_drift : f32
}.

Definition DriftAggregator_new (max : Z) (threshold : DriftLevel) (count : Z) : DriftAggregator :=
  {| observations := []; max_observations := max; alert_threshold := threshold;
     alert_count_threshold := count |}.
Definition with_defaults : DriftAggregator := DriftAggregator_new 100 DModerate 10.

Definition put_observations (a : DriftAggregator) (l : list DriftObservation) : DriftAggregator :=
  {| observations := l; max_observations := max_observations a; alert_threshold := alert_threshold a;
     alert_count_threshold := alert_count_threshold a |}.

(** The loop of [record]; its body drops the oldest observation, if any. *)
Definition at_capacity (a : DriftAggregator) : bool := max_observations a <=? zlen (observations a).
Definition pop_front (a : DriftAggregator) : DriftAggregator :=
  put_observations a (List.tl (observations a)).

(** [record] within [fuel] iterations of its loop; [None] when it is still looping. *)
Definition record_fuel (fuel : nat) (now : Z) (level : DriftLevel) (h : QueryHash) (a : DriftAggregator)
  : option DriftAggregator :=
  match while_fuel fuel at_capacity pop_front a with
  | Some a => Some (put_observations a (observations a ++
                [{| do_level := level; do_timestamp := now; do_query_hash := h |}]))
  | None => None
  end.
(** As many iterations as there are observations suffice, when any number does. *)
Definition record (now : Z) (level : DriftLevel) (h : QueryHash) (a : DriftAggregator)
  : option DriftAggregator := record_fuel (length (observations a)) now level h a.

Definition count_level (counts : list Z) (idx : Z) : list Z :=
  match counts !! Z.to_nat idx with
  | Some slot => <[Z.to_nat idx := slot +! 1]> counts
  | None => counts
  end.

Definition summary_step (acc : list Z * DriftLevel * Z) (obs : DriftObservation) : list Z * DriftLevel * Z :=
  let '(counts, mx, sum) := acc in
  let idx := level_idx (do_level obs) in
  (count_level counts idx,
   if level_idx mx <? idx then do_level obs else mx,
   sat_add 32 sum idx).

Definition summary (a : DriftAggregator) : DriftSummary :=
  let '(counts, mx, sum) := fold_left summary_step (observations a) ([0; 0; 0; 0; 0], DNone, 0) in
  let total := zlen (observations a) in
  {| total_observations := total; level_counts := counts;
     alert_triggered := alert_count_threshold a <=?
       zlen (List.filter (fun o => exceeds (do_level o) (alert_threshold a)) (observations a));
     max_drift := mx;
     avg_drift := if 0 <? total then F32.div (F32.of_Z sum) (F32.of_Z total) else f_zero |}.

Definition should_alert (a : DriftAggregator) : bool := alert_triggered (summary a).
Definition agg_clear (a : DriftAggregator) : DriftAggregator := put_observations a [].
Definition agg_is_empty (a : DriftAggregator) : bool :=
  match observations a with [] => true | _ => false end.

(** ** Lemmas *)

(** Subtracting a finite float from itself gives a positive zero. *)
Lemma F32_sub_diag x : is_finite x = true -> F32.sub x x = S754_zero false.
Proof.
  destruct x as [[]|[]| |s m e]; simpl; try done. intros _. unfold F32.sub, SFsub.
  rewrite Z.min_id. unfold shl_align. rewrite Z.sub_diag. by destruct s.
Qed.

Lemma result_check_finite r : result_check r = None -> is_finite (score r) = true.
Proof.
  unfold result_check. destruct (bool_decide _); [done|].
  destruct (score r); simpl; done.
Qed.

Lemma validate_loop_all rs t t' : validate_loop rs t = Ok t' -> Forall (fun r => result_check r = None) rs.
Proof.
  revert t. induction rs as [|r rs IH]; intros t; simpl; [constructor|].
  destruct (result_check r) eqn:Er; [done|]. intros H. constructor; [done|eauto].
Qed.

Lemma response_validate_all r :
  response_validate r = Ok tt ->
  zlen (results r) <= MAX_RESULTS /\ Forall (fun x => result_check x = None) (results r).
Proof.
  unfold response_validate. destruct (MAX_RESULTS <? zlen (results r)) eqn:El; [done|]. reflect_Z.
  destruct (validate_loop (results r) 0) as [t|] eqn:Ev; [|done].
  intros _. split; [done|]. by eapply validate_loop_all.
Qed.

Lemma find_self rs o :
  NoDup (map sr_id rs) -> o ∈ rs -> List.find (fun r => str_eqb (sr_id r) (sr_id o)) rs = Some o.
Proof.
  induction rs as [|r rs IH]; intros Hnd Ho; [by apply elem_of_nil in Ho|]. simpl in *.
  apply NoDup_cons in Hnd as [Hni Hnd]. unfold str_eqb. case_bool_decide as Heq.
  - f_equal. apply elem_of_cons in Ho as [|Ho]; [done|]. exfalso. apply Hni. rewrite Heq.
    apply list_elem_of_In, in_map. by apply list_elem_of_In.
  - apply elem_of_cons in Ho as [->|Ho]; [done|]. by apply IH.
Qed.

Lemma score_drift_self rs l n :
  NoDup (map sr_id rs) -> Forall (fun r => is_finite (score r) = true) rs -> (forall o, o ∈ l -> o ∈ rs) ->
  0 <= n -> n + zlen l <= u32_max ->
  score_drift l rs f_zero n = (f_zero, n + zlen l).
Proof.
  intros Hnd Hfin. revert n. induction l as [|o l IH]; intros n Hl Hn Hmax; simpl.
  { f_equal. rewrite zlen_nil. lia. }
  rewrite zlen_cons in Hmax. pose proof (zlen_nonneg l).
  rewrite find_self by (auto; apply Hl; set_solver).
  rewrite F32_sub_diag by (rewrite Forall_forall in Hfin; apply Hfin, Hl; set_solver).
  change (F32.add f_zero (f_abs (S754_zero false))) with f_zero.
  assert (sat_add 32 n 1 = n + 1) as -> by (unfold sat_add, u32_max in *; lia).
  rewrite IH; [f_equal; rewrite zlen_cons; lia| |lia|lia].
  intros. apply Hl. set_solver.
Qed.

(** [n / n] is exactly one for every size a valid response can have. *)
Lemma F32_div_self_small n : 1 <= n <= 1000 -> F32.div (F32.of_Z n) (F32.of_Z n) = F32.of_Z 1.
Proof.
  intros Hn.
  assert (forallb (fun k => bool_decide (F32.div (F32.of_Z (Z.of_nat k)) (F32.of_Z (Z.of_nat k)) = F32.of_Z 1))
            (List.seq 1 1000) = true) as Hall by (vm_compute; reflexivity).
  rewrite forallb_forall in Hall. specialize (Hall (Z.to_nat n)).
  rewrite Z2Nat.id in Hall by lia. apply (bool_decide_eq_true _), Hall, in_seq. lia.
Qed.

(** Nor does zero divided by such a size leave zero. *)
Lemma F32_zero_div_small n : 1 <= n <= 1000 -> F32.div f_zero (F32.of_Z n) = f_zero.
Proof.
  intros Hn.
  assert (forallb (fun k => bool_decide (F32.div f_zero (F32.of_Z (Z.of_nat k)) = f_zero))
            (List.seq 1 1000) = true) as Hall by (vm_compute; reflexivity).
  rewrite forallb_forall in Hall. specialize (Hall (Z.to_nat n)).
  rewrite Z2Nat.id in Hall by lia. apply (bool_decide_eq_true _), Hall, in_seq. lia.
Qed.

Lemma size_id_set rs : NoDup (map sr_id rs) -> size (id_set rs) = length rs.
Proof. intros Hnd. unfold id_set. rewrite size_list_to_set by done. by rewrite length_map. Qed.

(** ** The window *)

Lemma record_loop a :
  0 < max_observations a ->
  while_fuel (length (observations a)) at_capacity pop_front a =
  Some (put_observations a (drop (length (observations a) - (Z.to_nat (max_observations a) - 1))
                              (observations a))).
Proof.
  intros Hm. destruct a as [obs mx th ct]. simpl in *. unfold put_observations. simpl.
  remember (length obs) as n eqn:Hn. revert obs Hn. induction n as [|n IH]; intros obs Hn; simpl.
  - destruct obs; [|done]. unfold at_capacity. simpl. rewrite zlen_nil.
    rewrite (proj2 (Z.leb_gt _ _)) by lia. done.
  - destruct obs as [|o obs]; [done|]. simpl in Hn. injection Hn as Hn.
    match goal with |- context [if ?b then _ else _] =>
      assert (b = (mx <=? 1 + Z.of_nat (length obs))) as -> end.
    { unfold at_capacity. simpl. by rewrite zlen_cons. }
    destruct (mx <=? 1 + Z.of_nat (length obs)) eqn:Ec; reflect_Z.
    + match goal with |- context [pop_front ?a] =>
        change (pop_front a) with {| observations := obs; max_observations := mx; alert_threshold := th;
                                     alert_count_threshold := ct |} end.
      rewrite (IH obs Hn).
      do 2 f_equal. rewrite <- Hn in *.
      replace (S n - (Z.to_nat mx - 1))%nat with (S (n - (Z.to_nat mx - 1)))%nat by lia. done.
    + rewrite <- Hn in *. replace (S n - (Z.to_nat mx - 1))%nat with 0%nat by lia. done.
Qed.

Lemma level_idx_range l : 0 <= level_idx l <= 4.
Proof. destruct l; simpl; lia. Qed.

(** Count of a level in a list of observations. *)
Definition level_count (i : Z) (l : list DriftObservation) : Z :=
  zlen (List.filter (fun o => level_idx (do_level o) =? i) l).

Lemma summary_fold l c0 c1 c2 c3 c4 mx sum :
  0 <= c0 -> 0 <= c1 -> 0 <= c2 -> 0 <= c3 -> 0 <= c4 ->
  c0 + zlen l <= usize_max -> c1 + zlen l <= usize_max -> c2 + zlen l <= usize_max ->
  c3 + zlen l <= usize_max -> c4 + zlen l <= usize_max ->
  (fold_left summary_step l ([c0; c1; c2; c3; c4], mx, sum)).1.1 =
    [c0 + level_count 0 l; c1 + level_count 1 l; c2 + level_count 2 l; c3 + level_count 3 l;
     c4 + level_count 4 l] /\
  (forall o, o ∈ l -> level_idx (do_level o) <= level_idx (fold_left summary_step l ([c0; c1; c2; c3; c4], mx, sum)).1.2) /\
  level_idx mx <= level_idx (fold_left summary_step l ([c0; c1; c2; c3; c4], mx, sum)).1.2.
Proof.
  revert c0 c1 c2 c3 c4 mx sum. induction l as [|o l IH]; intros c0 c1 c2 c3 c4 mx sum.
  { intros. unfold level_count. simpl. rewrite zlen_nil, !Z.add_0_r. split; [done|].
    split; [by intros o []%elem_of_nil|lia]. }
  rewrite zlen_cons. pose proof (zlen_nonneg l) as Hz. intros. simpl fold_left.
  assert (forall x, 0 <= x -> x + (1 + zlen l) <= usize_max -> x +! 1 = x + 1) as Hs
    by (intros; unfold sat_add, usize_max in *; lia).
  destruct (do_level o) eqn:El; unfold count_level; simpl.
  all: rewrite Hs by lia.
  all: match goal with |- context [fold_left summary_step _ (?cs, ?mx', ?sum')] =>
         match cs with [?a; ?b; ?c; ?d; ?f] => destruct (IH a b c d f mx' sum') as (-> & Hmax & Hmx) end end;
       try lia.
  all: unfold level_count; simpl; rewrite El; simpl; rewrite ?zlen_cons.
  all: split; [repeat (f_equal; try lia)|]; split.
  all: try (intros o' [->|Ho']%elem_of_cons; [rewrite El; simpl|by apply Hmax]).
  all: revert Hmx; case_Z; simpl; lia.
Qed.

(** ** Claims *)

(** A response does not drift from itself: when it passes validation and its
    result identifiers are distinct, [detect_drift] grades it [None] (in 32-bit
    float arithmetic, with its rounding). *)
Theorem detect_drift_self r :
  response_validate r = Ok tt -> NoDup (map sr_id (results r)) -> detect_drift r r = DNone.
Proof.
  intros [Hlen Hall]%response_validate_all Hnd. unfold detect_drift.
  destruct (results r) as [|x rs] eqn:Er; [done|]. rewrite <- Er in *.
  assert (1 <= zlen (results r)) as H1 by (rewrite Er, zlen_cons; pose proof (zlen_nonneg rs); lia).
  unfold MAX_RESULTS in Hlen.
  rewrite score_drift_self; [|done| |auto|lia|unfold u32_max, u_max; lia].
  2: { eapply Forall_impl; [exact Hall|]. apply result_check_finite. }
  rewrite (intersection_idemp_L (id_set (results r))), Z.max_id, size_id_set by done.
  fold (zlen (results r)). rewrite F32_div_self_small by lia.
  rewrite (proj2 (Z.ltb_lt _ _)) by lia. rewrite Z.add_0_l, F32_zero_div_small by lia.
  vm_compute. reflexivity.
Qed.

(** The window.  With a positive window size, [record] terminates and leaves
    the last [max_observations] of the earlier observations followed by the new
    one. *)
Theorem drift_window now lvl h a :
  0 < max_observations a ->
  let all := observations a ++ [{| do_level := lvl; do_timestamp := now; do_query_hash := h |}] in
  exists a', record now lvl h a = Some a' /\
    observations a' = drop (length all - Z.to_nat (max_observations a)) all /\
    zlen (observations a') = Z.min (max_observations a) (zlen (observations a) + 1).
Proof.
  intros Hm all. unfold record, record_fuel. rewrite record_loop by done.
  eexists. split; [done|]. simpl. unfold all.
  assert (length (observations a ++ [{| do_level := lvl; do_timestamp := now; do_query_hash := h |}]) =
          S (length (observations a))) as -> by (rewrite length_app; simpl; lia).
  replace (length (observations a) - (Z.to_nat (max_observations a) - 1))%nat
    with (S (length (observations a)) - Z.to_nat (max_observations a))%nat by lia.
  split; [by rewrite drop_app_le by lia|].
  unfold zlen. rewrite length_app, length_drop. simpl. lia.
Qed.

(** The summary of a window counts every observation once, under its level;
    the reported maximum is an upper bound of the levels seen; and the alert is
    raised exactly when enough observations exceed the threshold. *)
Theorem drift_summary a :
  zlen (observations a) <= usize_max ->
  let s := summary a in
  level_counts s = map (fun i => level_count i (observations a)) [0; 1; 2; 3; 4] /\
  (forall o, o ∈ observations a -> level_idx (do_level o) <= level_idx (max_drift s)) /\
  (should_alert a = true <->
   alert_count_threshold a <= zlen (List.filter (fun o => exceeds (do_level o) (alert_threshold a)) (observations a))).
Proof.
  intros Hl s. unfold s, should_alert, summary.
  destruct (summary_fold (observations a) 0 0 0 0 0 DNone 0) as (Hc & Hm & _); try lia.
  destruct (fold_left summary_step (observations a) _) as [[counts mx] sum]. simpl in *.
  split; [exact Hc|]. split; [exact Hm|]. by rewrite Z.leb_le.
Qed.

(** With a window of size zero the loop of [record] never ends: popping from an
    empty queue leaves its length at zero, which is not below zero. *)
Lemma record_zero_diverges fuel now lvl h a :
  max_observations a = 0 -> record_fuel fuel now lvl h a = None.
Proof.
  intros Hm. unfold record_fuel.
  assert (while_fuel fuel at_capacity pop_front a = None) as ->; [|done].
  revert a Hm. induction fuel as [|fuel IH]; intros a Hm; simpl;
    (assert (at_capacity a = true) as -> by
      (unfold at_capacity; rewrite Hm; apply Z.leb_le, zlen_nonneg)); [done|].
  by apply IH.
Qed.

(** ** Witnesses *)

Definition demo_res (id : string) : SearchResult :=
  {| sr_id := lit id; score := F32.lit 7 10; content := lit "text"; metadata := None; sr_upstream_id := None |}.
Definition demo_resp : QueryResponse :=
  {| results := [demo_res "a"; demo_res "b"; demo_res "c"]; cache_status := Miss; took_ms := 1;
     generated_at := None; miss_reason := None |}.
Definition demo_window : DriftAggregator :=
  put_observations (DriftAggregator_new 2 DMinor 2)
    [{| do_level := DMajor; do_timestamp := 1; do_query_hash := [1] |};
     {| do_level := DNone; do_timestamp := 2; do_query_hash := [2] |}].

Lemma detect_drift_self_witness : detect_drift demo_resp demo_resp = DNone.
Proof.
  apply detect_drift_self; [vm_compute; reflexivity|].
  apply (bool_decide_eq_true _). vm_compute. reflexivity.
Defined.

Lemma drift_window_witness :
  exists a', record 3 DMinor [3] demo_window = Some a' /\
    observations a' = [{| do_level := DNone; do_timestamp := 2; do_query_hash := [2] |};
                       {| do_level := DMinor; do_timestamp := 3; do_query_hash := [3] |}] /\
    zlen (observations a') = 2.
Proof. refine (drift_window 3 DMinor [3] demo_window _). simpl. lia. Defined.

Lemma drift_summary_witness :
  level_counts (summary demo_window) = [1; 0; 0; 0; 1].
Proof. refine (proj1 (drift_summary demo_window _)). vm_compute. discriminate. Defined.
