(* ===== verification/Cdc.v ===== *)
(** * Change-data-capture events (src/src/proxy/cdc/event.rs)

    The broadcast channel is third-party code; what the cache relies on is that
    [send] publishes the event to whoever is subscribed.  The sender therefore
    keeps the sequence of events it has published. *)

From S2P Require Import Prelude Text.
Open Scope Z_scope.
Open Scope conproxy_scope.

Inductive CdcEventType := Insert | Remove | FetchStart | FetchCancel.

#[export] Instance CdcEventType_eq_dec : EqDecision CdcEventType.
Proof. solve_decision. Defined.

Definition to_proto (t : CdcEventType) : Z :=
  match t with Insert => 1 | Remove => 2 | FetchStart => 3 | FetchCancel => 4 end.

Definition from_proto (v : Z) : option CdcEventType :=
  if v =? 1 then Some Insert
  else if v =? 2 then Some Remove
  else if v =? 3 then Some FetchStart
  else if v =? 4 then Some FetchCancel
  else None.

Definition cdc_as_str (t : CdcEventType) : str :=
  match t with
  | Insert => lit "insert"
  | Remove => lit "remove"
  | FetchStart => lit "fetch_start"
  | FetchCancel => lit "fetch_cancel"
  end.

Record CdcEvent := {
  ev_sequence : Z;
  timestamp_ms : Z;
  event_type : CdcEventType;
  query_key : str;
  payload : bytes;
  ev_upstream_id : str;
  ev_context_id : str;
  origin_node_id : str;
  absolute_expiry_ms : Z
}.

(** CdcEvent::is_expired *)
Definition ev_is_expired (now_ms : Z) (e : CdcEvent) : bool :=
  if absolute_expiry_ms e =? 0 then false else absolute_expiry_ms e <=? now_ms.

Record CdcEventBuilder := {
  b_query_key : str;
  b_payload : bytes;
  b_upstream_id : str;
  b_context_id : str;
  b_absolute_expiry_ms : Z
}.

Definition builder_insert (key : str) (pl : bytes) (up : str) : CdcEventBuilder :=
  {| b_query_key := key; b_payload := pl; b_upstream_id := up; b_context_id := [];
     b_absolute_expiry_ms := 0 |}.
Definition builder_remove (key : str) : CdcEventBuilder :=
  {| b_query_key := key; b_payload := []; b_upstream_id := []; b_context_id := [];
     b_absolute_expiry_ms := 0 |}.
Definition builder_fetch_start (key : str) : CdcEventBuilder := builder_remove key.
Definition builder_fetch_cancel (key : str) : CdcEventBuilder := builder_remove key.
Definition with_context (b : CdcEventBuilder) (ctx : str) : CdcEventBuilder :=
  {| b_query_key := b_query_key b; b_payload := b_payload b; b_upstream_id := b_upstream_id b;
     b_context_id := ctx; b_absolute_expiry_ms := b_absolute_expiry_ms b |}.
Definition with_expiry (b : CdcEventBuilder) (e : Z) : CdcEventBuilder :=
  {| b_query_key := b_query_key b; b_payload := b_payload b; b_upstream_id := b_upstream_id b;
     b_context_id := b_context_id b; b_absolute_expiry_ms := e |}.

Record EventSender := {
  es_sequence : Z;
  node_id : str;
  published : list CdcEvent
}.

Definition EventSender_new (node : str) : EventSender :=
  {| es_sequence := 1; node_id := node; published := [] |}.

Definition event_of (now_ms : Z) (self : EventSender) (ty : CdcEventType) (b : CdcEventBuilder)
  : CdcEvent :=
  {| ev_sequence := es_sequence self; timestamp_ms := now_ms; event_type := ty;
     query_key := b_query_key b; payload := b_payload b; ev_upstream_id := b_upstream_id b;
     ev_context_id := b_context_id b; origin_node_id := node_id self;
     absolute_expiry_ms := b_absolute_expiry_ms b |}.

(** EventSender::send *)
Definition send (now_ms : Z) (self : EventSender) (ty : CdcEventType) (b : CdcEventBuilder)
  : EventSender :=
  {| es_sequence := wrap 64 (es_sequence self + 1);
     node_id := node_id self;
     published := published self ++ [event_of now_ms self ty b] |}.

(** The sender numbers its events consecutively from 1. *)
Definition sender_wf (s : EventSender) : Prop :=
  es_sequence s = wrap 64 (1 + zlen (published s)) /\
  forall i e, published s !! i = Some e -> ev_sequence e = wrap 64 (1 + Z.of_nat i).

Lemma sender_wf_new node : sender_wf (EventSender_new node).
Proof. split; [done|]. by intros i e. Qed.

Lemma sender_wf_send now s ty b : sender_wf s -> sender_wf (send now s ty b).
Proof.
  intros [Hseq Hev]. split; simpl.
  - rewrite Hseq, zlen_app. unfold zlen at 2. simpl. by rewrite wrap_add_l, Z.add_assoc.
  - intros i e Hi. apply lookup_app_Some in Hi as [Hi|[Hlen Hi]]; [eauto|].
    apply list_lookup_singleton_Some in Hi as [Hi <-]. simpl.
    rewrite Hseq. unfold zlen. do 2 f_equal. lia.
Qed.
