(* ===== verification/TypesProps.v ===== *)
(** * Properties of requests, responses and events

    Validation in both directions, the hand-written serializer, signatures,
    integrity hashes, and the numbering of change events. *)

From Stdlib Require Import SpecFloat.
From S2P Require Import Prelude Floats Text Types Drift Cdc.
Open Scope Z_scope.
Open Scope conproxy_scope.

(** ** Lemmas *)

Lemma json_size_nonneg v : 0 <= json_approximate_size v.
Proof.
  destruct v as [|[]| | |a|o]; simpl; unfold sat_add, u_max; try lia.
  - pose proof (zlen_nonneg (as_bytes s)). unfold str_len. lia.
  - pose proof (zlen_nonneg a).
    assert (0 <= fold_right (fun v acc => wrap 64 (json_approximate_size v + acc)) 0 a); [|lia].
    destruct a; simpl; [lia|]. apply wrap_range. lia.
  - match goal with |- context [fold_right ?f 0 o] => assert (0 <= fold_right f 0 o); [|lia] end.
    destruct o; simpl; [lia|]. apply wrap_range. lia.
Qed.

Lemma result_size_mono r t : t <= usize_max -> t <= result_size r t.
Proof.
  intros Ht. unfold result_size. pose proof (zlen_nonneg (as_bytes (sr_id r))).
  pose proof (zlen_nonneg (as_bytes (content r))). unfold str_len.
  destruct (metadata r) as [v|]; [pose proof (json_size_nonneg v)|];
    unfold sat_add, usize_max, u_max in *; lia.
Qed.

Lemma result_size_max r t : result_size r t <= usize_max.
Proof. unfold result_size. destruct (metadata r); apply sat_add_le_max. Qed.

(** Away from saturation, starting 16 higher ends 16 higher. *)
Lemma result_size_shift r t k :
  0 <= k -> result_size r t + k < usize_max -> result_size r (t + k) = result_size r t + k.
Proof.
  intros Hk. unfold result_size. pose proof (zlen_nonneg (as_bytes (sr_id r))).
  pose proof (zlen_nonneg (as_bytes (content r))). unfold str_len.
  destruct (metadata r) as [v|]; [pose proof (json_size_nonneg v)|];
    unfold sat_add, usize_max, u_max in *; lia.
Qed.

Lemma validate_loop_size rs t t' k :
  0 <= k -> 0 <= t -> validate_loop rs t = Ok t' -> t' + k < usize_max ->
  fold_left (fun size r => result_size r size) rs (t + k) = t' + k.
Proof.
  intros Hk. revert t. induction rs as [|r rs IH]; intros t Ht; simpl; [intros [= <-]; done|].
  destruct (result_check r); [done|]. intros Hv Hm.
  assert (t' <= usize_max -> result_size r t <= t') as Hle.
  { clear IH Hm. pose proof (result_size_max r t) as Hmx. revert Hv Hmx. generalize (result_size r t).
    induction rs as [|r' rs IH]; intros z; simpl; [intros [= <-]; lia|].
    destruct (result_check r'); [done|]. intros Hv Hz Ht'.
    specialize (IH _ Hv (result_size_max r' z) Ht'). pose proof (result_size_mono r' z Hz). lia. }
  specialize (Hle ltac:(lia)). rewrite result_size_shift by lia. apply IH; [|done|done].
  unfold result_size. destruct (metadata r); apply sat_add_nonneg; try lia;
    try apply json_size_nonneg; repeat apply sat_add_nonneg; try lia; apply zlen_nonneg.
Qed.

(** ** Claims *)

(** Request validation is exact: a request is accepted if and only if its
    query is not blank, is at most [MAX_QUERY_LENGTH] bytes long, has no NUL and no
    suspicious control character, and asks for at most [MAX_TOP_K] results; an
    accepted request gets the number of results it asked for (ten by default). *)
Theorem request_validate_exact r :
  (request_validate r = Ok tt <->
     trim (query r) <> [] /\ str_len (query r) <= MAX_QUERY_LENGTH /\ (0 ∉ query r) /\
     Forall (fun c => suspicious_code c = false) (query r) /\
     match top_k r with Some k => k <= MAX_TOP_K | None => True end) /\
  (request_validate r = Ok tt -> effective_top_k r = default DEFAULT_TOP_K (top_k r)).
Proof.
  assert (Hiff : request_validate r = Ok tt <->
     trim (query r) <> [] /\ str_len (query r) <= MAX_QUERY_LENGTH /\ (0 ∉ query r) /\
     Forall (fun c => suspicious_code c = false) (query r) /\
     match top_k r with Some k => k <= MAX_TOP_K | None => True end).
  { unfold request_validate. case_bool_decide as Ht; [naive_solver|].
    destruct (MAX_QUERY_LENGTH <? str_len (query r)) eqn:El; reflect_Z; [naive_solver lia|].
    destruct (contains_char (query r) 0) eqn:Ec.
    { apply existsb_exists in Ec as (x & Hx & ->%Z.eqb_eq). split; [done|].
      intros (_ & _ & Hn & _). exfalso. by apply Hn, list_elem_of_In. }
    assert (0 ∉ query r) as Hz.
    { intros Hin%list_elem_of_In. assert (contains_char (query r) 0 = true); [|congruence].
      apply existsb_exists. by exists 0. }
    destruct (existsb suspicious_code (query r)) eqn:Es.
    { apply existsb_exists in Es as (x & Hx & Hs). split; [done|].
      intros (_ & _ & _ & Hf & _). rewrite Forall_forall in Hf. apply list_elem_of_In in Hx.
      specialize (Hf x Hx). congruence. }
    assert (Forall (fun c => suspicious_code c = false) (query r)) as Hf.
    { apply Forall_forall. intros x Hx. destruct (suspicious_code x) eqn:E; [|done].
      rewrite <- Es. symmetry. apply existsb_exists. exists x. split; [by apply list_elem_of_In|done]. }
    destruct (top_k r) as [k|]; [|naive_solver].
    destruct (MAX_TOP_K <? k) eqn:Ek; reflect_Z; naive_solver lia. }
  split; [done|]. intros (_ & _ & _ & _ & Hk)%Hiff. unfold effective_top_k.
  destruct (top_k r) as [k|]; simpl; [lia|done].
Qed.


(** The hand-written serializer of cached responses emits exactly what the
    derived serializer would emit for the converted response, and announces the
    number of fields it emits. *)
Theorem serialize_cached_agrees c :
  snd (serialize_cached c) = serialize_response (into_query_response c) /\
  fst (serialize_cached c) = zlen (snd (serialize_cached c)).
Proof.
  destruct c as [e st took|r|r took]; simpl; [|done|].
  - unfold serialize_response, opt_field. simpl.
    destruct (generated_at (response e)) as [g|]; [rewrite bool_decide_eq_true_2 by eauto|
      rewrite bool_decide_eq_false_2 by (by intros [])]; done.
  - unfold serialize_response, opt_field. simpl.
    destruct (generated_at r) as [g|], (miss_reason r) as [mr|];
      rewrite ?bool_decide_eq_true_2 by eauto; rewrite ?bool_decide_eq_false_2 by (by intros []); done.
Qed.

Section Signed.
Context `{Externals}.

(** Signatures.  A signature made by [sign] with a supported algorithm is
    accepted by [verify] for the same body; any other text is rejected, and so is
    a missing signature. *)
Theorem sign_verify_roundtrip cfg body given :
  sig_enabled cfg = true ->
  algorithm cfg = lit "HMAC-SHA256" \/ algorithm cfg = lit "BLAKE3" ->
  signature_verify cfg body (Some (sign cfg body)) = Ok tt /\
  (signature_verify cfg body (Some given) = Ok tt <-> given = sign cfg body) /\
  signature_verify cfg body None = Err SignatureMissing.
Proof.
  intros He Ha.
  assert (forall g, signature_verify cfg body (Some g) =
            if str_eqb (sign cfg body) g then Ok tt else Err (SignatureInvalid (sign cfg body) g)) as Hv.
  { intros g. unfold signature_verify, sign. rewrite He. simpl.
    destruct Ha as [-> | ->]; simpl; by destruct (str_eqb _ g). }
  rewrite !Hv. unfold str_eqb. split_and!.
  - by rewrite bool_decide_eq_true_2.
  - case_bool_decide; naive_solver.
  - unfold signature_verify. by rewrite He.
Qed.

(** Integrity.  A new entry verifies; an entry whose response was replaced
    verifies only if the hash of the replacement is the recorded one. *)
Theorem entry_integrity now wall r r' up sc q ctx :
  let e := new_with_query now wall r up sc q ctx in
  let e' := {| freq := freq e; cached_at := cached_at e; cached_at_wall := cached_at_wall e;
               content_hash := content_hash e; response := r'; ce_upstream_id := ce_upstream_id e;
               extended_count := extended_count e; schema := schema e; query_text := query_text e;
               context_id := context_id e |} in
  entry_verify_integrity e = true /\
  (entry_verify_integrity e' = true <->
   blake3_hash (content_hash_input r) = blake3_hash (content_hash_input r')).
Proof.
  simpl. unfold entry_verify_integrity. simpl. split; [by apply bool_decide_eq_true_2|].
  by rewrite bool_decide_eq_true.
Qed.
End Signed.

(** Change events are numbered without gaps: whatever is sent, the sender's
    published events carry the numbers 1, 2, 3, ... (as 64-bit counters), each the
    origin node's identifier; and the wire code of an event type decodes to it. *)
Theorem events_numbered node (evs : list (Z * CdcEventType * CdcEventBuilder)) :
  let s := fold_left (fun s x => send x.1.1 s x.1.2 x.2) evs (EventSender_new node) in
  (forall i e, published s !! i = Some e -> ev_sequence e = wrap 64 (1 + Z.of_nat i)) /\
  length (published s) = length evs /\
  (forall t, from_proto (to_proto t) = Some t).
Proof.
  assert (forall s0, sender_wf s0 ->
    sender_wf (fold_left (fun s x => send x.1.1 s x.1.2 x.2) evs s0) /\
    length (published (fold_left (fun s x => send x.1.1 s x.1.2 x.2) evs s0)) =
      (length (published s0) + length evs)%nat) as Hfold.
  { induction evs as [|x evs IH]; intros s0 Hs0; simpl; [split; [done|lia]|].
    destruct (IH (send x.1.1 s0 x.1.2 x.2)) as [H1 H2]; [by apply sender_wf_send|].
    split; [done|]. rewrite H2. simpl. rewrite length_app. simpl. lia. }
  destruct (Hfold (EventSender_new node) (sender_wf_new node)) as [[_ Hs] Hl].
  simpl. split_and!; [exact Hs|exact Hl|by intros []].
Qed.

(** ** Witnesses *)


Definition KeyedDemo : Externals :=
  {| blake3_hash := fun b => b; blake3_keyed_hex := fun k b => k ++ [0] ++ b; json_to_string := fun _ => [] |}.

Lemma sign_verify_roundtrip_witness :
  @signature_verify KeyedDemo (hmac_sha256 [1; 2]) [3] (Some (@sign KeyedDemo (hmac_sha256 [1; 2]) [3])) = Ok tt.
Proof.
  refine (proj1 (@sign_verify_roundtrip KeyedDemo (hmac_sha256 [1; 2]) [3] [] _ _)); [reflexivity|].
  left. reflexivity.
Defined.
