(* ===== verification/Cache.v ===== *)
(** * The cache store (src/src/proxy/cache.rs): state and operations

    Each operation of [CacheStore] is a function on the store's state.  The
    concurrent maps, the mutexes and the atomics of the source are the fields of
    one record, and an operation runs to completion before the next one starts:
    the model is the sequential behaviour of the store.  Every operation reads
    the clock once ([Clock]: the monotonic clock and the wall clock, in
    nanoseconds).

    The model is the store of the default feature set: the [persistence] and
    [embed-api] fields are compiled out there.  Parameters of the model (class
    [CacheEnv]): the blake3 hash, the JSON serializer, the size of a
    [CacheEntry] in memory, and the order in which the concurrent map yields its
    entries, of which only the fact that it is a permutation is used. *)

From Stdlib Require Import SpecFloat.
From S2P Require Import Prelude Floats Text Types Cdc.
Open Scope Z_scope.
Open Scope conproxy_scope.

Record Clock := { mono : Z; wall : Z }.

Class CacheEnv := {
  env_externals :: Externals;
  env_case :: UnicodeCase;
  serde_to_vec : QueryResponse -> option bytes;
  size_of_CacheEntry : Z;
  map_iter : gmap QueryHash CacheEntry -> list (QueryHash * CacheEntry)
}.

(** What the store relies on: an iterator yields every entry once, and a size
    is a [usize]. *)
Class CacheEnvLaws (E : CacheEnv) : Prop := {
  map_iter_perm : forall m, map_iter m ≡ₚ map_to_list m;
  size_of_CacheEntry_pos : 0 <= size_of_CacheEntry <= usize_max
}.

Definition DEFAULT_MAX_FROZEN_DURATION : Z := from_secs (24 * 60 * 60).

Inductive CacheHitType := HitExact | HitNormalized.
Inductive EvictionSource := FromSmall | FromMain.

Record S3FifoState := {
  small : list QueryHash;
  main : list QueryHash;
  ghost : list QueryHash;
  ghost_set : gset QueryHash;
  small_capacity : Z;
  main_capacity : Z;
  ghost_capacity : Z
}.

Definition S3FifoState_new (max_entries : Z) : S3FifoState :=
  let small_capacity := Z.max (max_entries / 10) 1 in
  let main_capacity := max_entries -! small_capacity in
  let ghost_capacity := Z.max max_entries 1 in
  {| small := []; main := []; ghost := []; ghost_set := ∅;
     small_capacity := small_capacity; main_capacity := main_capacity;
     ghost_capacity := ghost_capacity |}.

Definition put_queues (st : S3FifoState) (sm mn : list QueryHash) : S3FifoState :=
  {| small := sm; main := mn; ghost := ghost st; ghost_set := ghost_set st;
     small_capacity := small_capacity st; main_capacity := main_capacity st;
     ghost_capacity := ghost_capacity st |}.
Definition put_ghost (st : S3FifoState) (g : list QueryHash) (gs : gset QueryHash) : S3FifoState :=
  {| small := small st; main := main st; ghost := g; ghost_set := gs;
     small_capacity := small_capacity st; main_capacity := main_capacity st;
     ghost_capacity := ghost_capacity st |}.
Definition clear_queues (st : S3FifoState) : S3FifoState :=
  put_ghost (put_queues st [] []) [] ∅.

Record EvictionStats := {
  total : Z;
  expired : Z;
  low_similarity : Z;
  oldest : Z;
  size_limit : Z;
  manual : Z;
  integrity_failures : Z;
  per_upstream : Z;
  ghost_hits : Z;
  small_evictions : Z;
  main_evictions : Z;
  promotions : Z
}.

Definition EvictionStats_default : EvictionStats :=
  {|
    total := 0; expired := 0; low_similarity := 0; oldest := 0; size_limit := 0; manual := 0;
    integrity_failures := 0; per_upstream := 0; ghost_hits := 0; small_evictions := 0;
    main_evictions := 0; promotions := 0
  |}.

(** [st.field = st.field.saturating_add(n)] *)
Definition add_total (st : EvictionStats) (n : Z) : EvictionStats :=
  {|
    total := total st +! n; expired := expired st; low_similarity := low_similarity st;
    oldest := oldest st; size_limit := size_limit st; manual := manual st;
    integrity_failures := integrity_failures st; per_upstream := per_upstream st;
    ghost_hits := ghost_hits st; small_evictions := small_evictions st;
    main_evictions := main_evictions st; promotions := promotions st
  |}.
Definition add_expired (st : EvictionStats) (n : Z) : EvictionStats :=
  {|
    total := total st; expired := expired st +! n; low_similarity := low_similarity st;
    oldest := oldest st; size_limit := size_limit st; manual := manual st;
    integrity_failures := integrity_failures st; per_upstream := per_upstream st;
    ghost_hits := ghost_hits st; small_evictions := small_evictions st;
    main_evictions := main_evictions st; promotions := promotions st
  |}.
Definition add_oldest (st : EvictionStats) (n : Z) : EvictionStats :=
  {|
    total := total st; expired := expired st; low_similarity := low_similarity st;
    oldest := oldest st +! n; size_limit := size_limit st; manual := manual st;
    integrity_failures := integrity_failures st; per_upstream := per_upstream st;
    ghost_hits := ghost_hits st; small_evictions := small_evictions st;
    main_evictions := main_evictions st; promotions := promotions st
  |}.
Definition add_integrity_failures (st : EvictionStats) (n : Z) : EvictionStats :=
  {|
    total := total st; expired := expired st; low_similarity := low_similarity st;
    oldest := oldest st; size_limit := size_limit st; manual := manual st;
    integrity_failures := integrity_failures st +! n; per_upstream := per_upstream st;
    ghost_hits := ghost_hits st; small_evictions := small_evictions st;
    main_evictions := main_evictions st; promotions := promotions st
  |}.
Definition add_per_upstream (st : EvictionStats) (n : Z) : EvictionStats :=
  {|
    total := total st; expired := expired st; low_similarity := low_similarity st;
    oldest := oldest st; size_limit := size_limit st; manual := manual st;
    integrity_failures := integrity_failures st; per_upstream := per_upstream st +! n;
    ghost_hits := ghost_hits st; small_evictions := small_evictions st;
    main_evictions := main_evictions st; promotions := promotions st
  |}.
Definition add_ghost_hits (st : EvictionStats) (n : Z) : EvictionStats :=
  {|
    total := total st; expired := expired st; low_similarity := low_similarity st;
    oldest := oldest st; size_limit := size_limit st; manual := manual st;
    integrity_failures := integrity_failures st; per_upstream := per_upstream st;
    ghost_hits := ghost_hits st +! n; small_evictions := small_evictions st;
    main_evictions := main_evictions st; promotions := promotions st
  |}.
Definition add_small_evictions (st : EvictionStats) (n : Z) : EvictionStats :=
  {|
    total := total st; expired := expired st; low_similarity := low_similarity st;
    oldest := oldest st; size_limit := size_limit st; manual := manual st;
    integrity_failures := integrity_failures st; per_upstream := per_upstream st;
    ghost_hits := ghost_hits st; small_evictions := small_evictions st +! n;
    main_evictions := main_evictions st; promotions := promotions st
  |}.
Definition add_main_evictions (st : EvictionStats) (n : Z) : EvictionStats :=
  {|
    total := total st; expired := expired st; low_similarity := low_similarity st;
    oldest := oldest st; size_limit := size_limit st; manual := manual st;
    integrity_failures := integrity_failures st; per_upstream := per_upstream st;
    ghost_hits := ghost_hits st; small_evictions := small_evictions st;
    main_evictions := main_evictions st +! n; promotions := promotions st
  |}.
Definition add_promotions (st : EvictionStats) (n : Z) : EvictionStats :=
  {|
    total := total st; expired := expired st; low_similarity := low_similarity st;
    oldest := oldest st; size_limit := size_limit st; manual := manual st;
    integrity_failures := integrity_failures st; per_upstream := per_upstream st;
    ghost_hits := ghost_hits st; small_evictions := small_evictions st;
    main_evictions := main_evictions st; promotions := promotions st +! n
  |}.

Record CacheStore := {
  entries : gmap QueryHash CacheEntry;
  exact_to_normalized : gmap QueryHash QueryHash;
  fresh_duration : Z;
  stale_duration : Z;
  max_frozen_duration : Z;
  max_entries : Z;
  max_memory_bytes : Z;
  ttl_jitter_percent : f32;
  config_fingerprint : Z;
  eviction_stats : EvictionStats;
  per_upstream_limit : option Z;
  normalized_matching : bool;
  exact_hits : Z;
  normalized_hits : Z;
  total_memory_bytes : Z;
  cdc_sender : option EventSender;
  s3fifo : S3FifoState
}.

Definition put_entries (s : CacheStore) (v : gmap QueryHash CacheEntry) : CacheStore :=
  {|
    entries := v; exact_to_normalized := exact_to_normalized s;
    fresh_duration := fresh_duration s; stale_duration := stale_duration s;
    max_frozen_duration := max_frozen_duration s; max_entries := max_entries s;
    max_memory_bytes := max_memory_bytes s; ttl_jitter_percent := ttl_jitter_percent s;
    config_fingerprint := config_fingerprint s; eviction_stats := eviction_stats s;
    per_upstream_limit := per_upstream_limit s; normalized_matching := normalized_matching s;
    exact_hits := exact_hits s; normalized_hits := normalized_hits s;
    total_memory_bytes := total_memory_bytes s; cdc_sender := cdc_sender s; s3fifo := s3fifo s
  |}.
Definition put_exact_to_normalized (s : CacheStore) (v : gmap QueryHash QueryHash) : CacheStore :=
  {|
    entries := entries s; exact_to_normalized := v; fresh_duration := fresh_duration s;
    stale_duration := stale_duration s; max_frozen_duration := max_frozen_duration s;
    max_entries := max_entries s; max_memory_bytes := max_memory_bytes s;
    ttl_jitter_percent := ttl_jitter_percent s; config_fingerprint := config_fingerprint s;
    eviction_stats := eviction_stats s; per_upstream_limit := per_upstream_limit s;
    normalized_matching := normalized_matching s; exact_hits := exact_hits s;
    normalized_hits := normalized_hits s; total_memory_bytes := total_memory_bytes s;
    cdc_sender := cdc_sender s; s3fifo := s3fifo s
  |}.
Definition put_fresh_duration (s : CacheStore) (v : Z) : CacheStore :=
  {|
    entries := entries s; exact_to_normalized := exact_to_normalized s; fresh_duration := v;
    stale_duration := stale_duration s; max_frozen_duration := max_frozen_duration s;
    max_entries := max_entries s; max_memory_bytes := max_memory_bytes s;
    ttl_jitter_percent := ttl_jitter_percent s; config_fingerprint := config_fingerprint s;
    eviction_stats := eviction_stats s; per_upstream_limit := per_upstream_limit s;
    normalized_matching := normalized_matching s; exact_hits := exact_hits s;
    normalized_hits := normalized_hits s; total_memory_bytes := total_memory_bytes s;
    cdc_sender := cdc_sender s; s3fifo := s3fifo s
  |}.
Definition put_stale_duration (s : CacheStore) (v : Z) : CacheStore :=
  {|
    entries := entries s; exact_to_normalized := exact_to_normalized s;
    fresh_duration := fresh_duration s; stale_duration := v;
    max_frozen_duration := max_frozen_duration s; max_entries := max_entries s;
    max_memory_bytes := max_memory_bytes s; ttl_jitter_percent := ttl_jitter_percent s;
    config_fingerprint := config_fingerprint s; eviction_stats := eviction_stats s;
    per_upstream_limit := per_upstream_limit s; normalized_matching := normalized_matching s;
    exact_hits := exact_hits s; normalized_hits := normalized_hits s;
    total_memory_bytes := total_memory_bytes s; cdc_sender := cdc_sender s; s3fifo := s3fifo s
  |}.
Definition put_max_frozen_duration (s : CacheStore) (v : Z) : CacheStore :=
  {|
    entries := entries s; exact_to_normalized := exact_to_normalized s;
    fresh_duration := fresh_duration s; stale_duration := stale_duration s;
    max_frozen_duration := v; max_entries := max_entries s;
    max_memory_bytes := max_memory_bytes s; ttl_jitter_percent := ttl_jitter_percent s;
    config_fingerprint := config_fingerprint s; eviction_stats := eviction_stats s;
    per_upstream_limit := per_upstream_limit s; normalized_matching := normalized_matching s;
    exact_hits := exact_hits s; normalized_hits := normalized_hits s;
    total_memory_bytes := total_memory_bytes s; cdc_sender := cdc_sender s; s3fifo := s3fifo s
  |}.
Definition put_max_entries (s : CacheStore) (v : Z) : CacheStore :=
  {|
    entries := entries s; exact_to_normalized := exact_to_normalized s;
    fresh_duration := fresh_duration s; stale_duration := stale_duration s;
    max_frozen_duration := max_frozen_duration s; max_entries := v;
    max_memory_bytes := max_memory_bytes s; ttl_jitter_percent := ttl_jitter_percent s;
    config_fingerprint := config_fingerprint s; eviction_stats := eviction_stats s;
    per_upstream_limit := per_upstream_limit s; normalized_matching := normalized_matching s;
    exact_hits := exact_hits s; normalized_hits := normalized_hits s;
    total_memory_bytes := total_memory_bytes s; cdc_sender := cdc_sender s; s3fifo := s3fifo s
  |}.
Definition put_max_memory_bytes (s : CacheStore) (v : Z) : CacheStore :=
  {|
    entries := entries s; exact_to_normalized := exact_to_normalized s;
    fresh_duration := fresh_duration s; stale_duration := stale_duration s;
    max_frozen_duration := max_frozen_duration s; max_entries := max_entries s;
    max_memory_bytes := v; ttl_jitter_percent := ttl_jitter_percent s;
    config_fingerprint := config_fingerprint s; eviction_stats := eviction_stats s;
    per_upstream_limit := per_upstream_limit s; normalized_matching := normalized_matching s;
    exact_hits := exact_hits s; normalized_hits := normalized_hits s;
    total_memory_bytes := total_memory_bytes s; cdc_sender := cdc_sender s; s3fifo := s3fifo s
  |}.
Definition put_config_fingerprint (s : CacheStore) (v : Z) : CacheStore :=
  {|
    entries := entries s; exact_to_normalized := exact_to_normalized s;
    fresh_duration := fresh_duration s; stale_duration := stale_duration s;
    max_frozen_duration := max_frozen_duration s; max_entries := max_entries s;
    max_memory_bytes := max_memory_bytes s; ttl_jitter_percent := ttl_jitter_percent s;
    config_fingerprint := v; eviction_stats := eviction_stats s;
    per_upstream_limit := per_upstream_limit s; normalized_matching := normalized_matching s;
    exact_hits := exact_hits s; normalized_hits := normalized_hits s;
    total_memory_bytes := total_memory_bytes s; cdc_sender := cdc_sender s; s3fifo := s3fifo s
  |}.
Definition put_eviction_stats (s : CacheStore) (v : EvictionStats) : CacheStore :=
  {|
    entries := entries s; exact_to_normalized := exact_to_normalized s;
    fresh_duration := fresh_duration s; stale_duration := stale_duration s;
    max_frozen_duration := max_frozen_duration s; max_entries := max_entries s;
    max_memory_bytes := max_memory_bytes s; ttl_jitter_percent := ttl_jitter_percent s;
    config_fingerprint := config_fingerprint s; eviction_stats := v;
    per_upstream_limit := per_upstream_limit s; normalized_matching := normalized_matching s;
    exact_hits := exact_hits s; normalized_hits := normalized_hits s;
    total_memory_bytes := total_memory_bytes s; cdc_sender := cdc_sender s; s3fifo := s3fifo s
  |}.
Definition put_per_upstream_limit (s : CacheStore) (v : option Z) : CacheStore :=
  {|
    entries := entries s; exact_to_normalized := exact_to_normalized s;
    fresh_duration := fresh_duration s; stale_duration := stale_duration s;
    max_frozen_duration := max_frozen_duration s; max_entries := max_entries s;
    max_memory_bytes := max_memory_bytes s; ttl_jitter_percent := ttl_jitter_percent s;
    config_fingerprint := config_fingerprint s; eviction_stats := eviction_stats s;
    per_upstream_limit := v; normalized_matching := normalized_matching s;
    exact_hits := exact_hits s; normalized_hits := normalized_hits s;
    total_memory_bytes := total_memory_bytes s; cdc_sender := cdc_sender s; s3fifo := s3fifo s
  |}.
Definition put_normalized_matching (s : CacheStore) (v : bool) : CacheStore :=
  {|
    entries := entries s; exact_to_normalized := exact_to_normalized s;
    fresh_duration := fresh_duration s; stale_duration := stale_duration s;
    max_frozen_duration := max_frozen_duration s; max_entries := max_entries s;
    max_memory_bytes := max_memory_bytes s; ttl_jitter_percent := ttl_jitter_percent s;
    config_fingerprint := config_fingerprint s; eviction_stats := eviction_stats s;
    per_upstream_limit := per_upstream_limit s; normalized_matching := v;
    exact_hits := exact_hits s; normalized_hits := normalized_hits s;
    total_memory_bytes := total_memory_bytes s; cdc_sender := cdc_sender s; s3fifo := s3fifo s
  |}.
Definition put_exact_hits (s : CacheStore) (v : Z) : CacheStore :=
  {|
    entries := entries s; exact_to_normalized := exact_to_normalized s;
    fresh_duration := fresh_duration s; stale_duration := stale_duration s;
    max_frozen_duration := max_frozen_duration s; max_entries := max_entries s;
    max_memory_bytes := max_memory_bytes s; ttl_jitter_percent := ttl_jitter_percent s;
    config_fingerprint := config_fingerprint s; eviction_stats := eviction_stats s;
    per_upstream_limit := per_upstream_limit s; normalized_matching := normalized_matching s;
    exact_hits := v; normalized_hits := normalized_hits s;
    total_memory_bytes := total_memory_bytes s; cdc_sender := cdc_sender s; s3fifo := s3fifo s
  |}.
Definition put_normalized_hits (s : CacheStore) (v : Z) : CacheStore :=
  {|
    entries := entries s; exact_to_normalized := exact_to_normalized s;
    fresh_duration := fresh_duration s; stale_duration := stale_duration s;
    max_frozen_duration := max_frozen_duration s; max_entries := max_entries s;
    max_memory_bytes := max_memory_bytes s; ttl_jitter_percent := ttl_jitter_percent s;
    config_fingerprint := config_fingerprint s; eviction_stats := eviction_stats s;
    per_upstream_limit := per_upstream_limit s; normalized_matching := normalized_matching s;
    exact_hits := exact_hits s; normalized_hits := v;
    total_memory_bytes := total_memory_bytes s; cdc_sender := cdc_sender s; s3fifo := s3fifo s
  |}.
Definition put_total_memory_bytes (s : CacheStore) (v : Z) : CacheStore :=
  {|
    entries := entries s; exact_to_normalized := exact_to_normalized s;
    fresh_duration := fresh_duration s; stale_duration := stale_duration s;
    max_frozen_duration := max_frozen_duration s; max_entries := max_entries s;
    max_memory_bytes := max_memory_bytes s; ttl_jitter_percent := ttl_jitter_percent s;
    config_fingerprint := config_fingerprint s; eviction_stats := eviction_stats s;
    per_upstream_limit := per_upstream_limit s; normalized_matching := normalized_matching s;
    exact_hits := exact_hits s; normalized_hits := normalized_hits s; total_memory_bytes := v;
    cdc_sender := cdc_sender s; s3fifo := s3fifo s
  |}.
Definition put_cdc_sender (s : CacheStore) (v : option EventSender) : CacheStore :=
  {|
    entries := entries s; exact_to_normalized := exact_to_normalized s;
    fresh_duration := fresh_duration s; stale_duration := stale_duration s;
    max_frozen_duration := max_frozen_duration s; max_entries := max_entries s;
    max_memory_bytes := max_memory_bytes s; ttl_jitter_percent := ttl_jitter_percent s;
    config_fingerprint := config_fingerprint s; eviction_stats := eviction_stats s;
    per_upstream_limit := per_upstream_limit s; normalized_matching := normalized_matching s;
    exact_hits := exact_hits s; normalized_hits := normalized_hits s;
    total_memory_bytes := total_memory_bytes s; cdc_sender := v; s3fifo := s3fifo s
  |}.
Definition put_s3fifo (s : CacheStore) (v : S3FifoState) : CacheStore :=
  {|
    entries := entries s; exact_to_normalized := exact_to_normalized s;
    fresh_duration := fresh_duration s; stale_duration := stale_duration s;
    max_frozen_duration := max_frozen_duration s; max_entries := max_entries s;
    max_memory_bytes := max_memory_bytes s; ttl_jitter_percent := ttl_jitter_percent s;
    config_fingerprint := config_fingerprint s; eviction_stats := eviction_stats s;
    per_upstream_limit := per_upstream_limit s; normalized_matching := normalized_matching s;
    exact_hits := exact_hits s; normalized_hits := normalized_hits s;
    total_memory_bytes := total_memory_bytes s; cdc_sender := cdc_sender s; s3fifo := v
  |}.

(** [self.eviction_stats.lock()] and an update. *)
Definition upd_stats (s : CacheStore) (f : EvictionStats -> EvictionStats) : CacheStore :=
  put_eviction_stats s (f (eviction_stats s)).

(** Publish an event when a sender is configured. *)
Definition emit (clk : Clock) (ty : CdcEventType) (b : CdcEventBuilder) (s : CacheStore) : CacheStore :=
  match cdc_sender s with
  | Some sender => put_cdc_sender s (Some (send (wrap 64 (wall clk / 1000000)) sender ty b))
  | None => s
  end.

Definition put_freq (e : CacheEntry) (v : Z) : CacheEntry :=
  {| freq := v; cached_at := cached_at e; cached_at_wall := cached_at_wall e;
     content_hash := content_hash e; response := response e; ce_upstream_id := ce_upstream_id e;
     extended_count := extended_count e; schema := schema e; query_text := query_text e;
     context_id := context_id e |}.

(** [f.saturating_add(1).min(3)] on a [u8]. *)
Definition bumped (f : Z) : Z := Z.min (sat_add 8 f 1) 3.

(** Normalization of a query: trim, lowercase, collapse white space. *)
Fixpoint collapse_ws (prev_was_space : bool) (s : str) : str :=
  match s with
  | [] => []
  | c :: s' =>
      if is_whitespace c then
        if prev_was_space then collapse_ws true s' else 32 :: collapse_ws true s'
      else c :: collapse_ws false s'
  end.

Section Cache.
Context `{E : CacheEnv}.

Definition normalize_query (query : str) : str := collapse_ws false (to_lowercase (trim query)).

Definition hash_query (query : str) : QueryHash := blake3_hash (as_bytes (normalize_query query)).
Definition hash_query_exact (query : str) : QueryHash := blake3_hash (as_bytes query).

(** CacheEntry::approximate_size *)
Definition approximate_size (self : CacheEntry) : Z :=
  let size := size_of_CacheEntry in
  let size := fold_left (fun size result =>
    let size := size +! str_len (sr_id result) in
    let size := size +! str_len (content result) in
    let size := size +! 4 in
    match metadata result with
    | Some meta => size +! str_len (json_to_string meta)
    | None => size
    end) (results (response self)) size in
  let size := size +! str_len (ce_upstream_id self) in
  let size := match model_hint (schema self) with Some m => size +! str_len m | None => size end in
  let size := match version (schema self) with Some v => size +! str_len v | None => size end in
  match query_text self with Some q => size +! str_len q | None => size end.

(** ** Construction and configuration *)

Definition CacheStore_with (fresh stale max_entries max_memory : Z) (jitter : f32) : CacheStore :=
  {| entries := ∅; exact_to_normalized := ∅; fresh_duration := fresh; stale_duration := stale;
     max_frozen_duration := DEFAULT_MAX_FROZEN_DURATION; max_entries := max_entries;
     max_memory_bytes := max_memory; ttl_jitter_percent := jitter; config_fingerprint := 0;
     eviction_stats := EvictionStats_default; per_upstream_limit := None;
     normalized_matching := false; exact_hits := 0; normalized_hits := 0;
     total_memory_bytes := 0; cdc_sender := None; s3fifo := S3FifoState_new max_entries |}.

Definition CacheStore_new (fresh stale max_entries : Z) : CacheStore :=
  CacheStore_with fresh stale max_entries 0 (F32.lit 1 10).
Definition with_jitter (fresh stale max_entries : Z) (jitter : f32) : CacheStore :=
  CacheStore_with fresh stale max_entries 0 (f_clamp jitter f_zero (F32.of_Z 1)).
Definition with_memory_limit (fresh stale max_entries max_memory : Z) : CacheStore :=
  CacheStore_with fresh stale max_entries max_memory (F32.lit 1 10).

Definition set_per_upstream_limit (limit : option Z) (s : CacheStore) : CacheStore :=
  put_per_upstream_limit s limit.
(** The error is the message of the source. *)
Definition set_max_entries (max : Z) (s : CacheStore) : result unit str * CacheStore :=
  if max =? 0 then (Err (lit "cache.max_entries must be > 0"), s)
  else (Ok tt, put_max_entries s max).
Definition with_normalized_matching (enabled : bool) (s : CacheStore) : CacheStore :=
  put_normalized_matching s enabled.
Definition with_cdc_sender (sender : EventSender) (s : CacheStore) : CacheStore :=
  put_cdc_sender s (Some sender).
Definition set_max_frozen_duration (d : Z) (s : CacheStore) : CacheStore := put_max_frozen_duration s d.
Definition set_max_memory_bytes (b : Z) (s : CacheStore) : CacheStore := put_max_memory_bytes s b.
Definition set_fresh_duration (d : Z) (s : CacheStore) : CacheStore := put_fresh_duration s d.
Definition set_stale_duration (d : Z) (s : CacheStore) : CacheStore := put_stale_duration s d.

(** ** Memory-tracking wrappers *)

Definition tracked_insert (hash : QueryHash) (entry : CacheEntry) (s : CacheStore) : CacheStore :=
  let new_size := approximate_size entry in
  let old := entries s !! hash in
  let s := put_entries s (<[hash := entry]> (entries s)) in
  match old with
  | Some old_entry =>
      let old_size := approximate_size old_entry in
      if old_size <=? new_size
      then put_total_memory_bytes s (wrap 64 (total_memory_bytes s + (new_size -! old_size)))
      else put_total_memory_bytes s (wrap 64 (total_memory_bytes s - (old_size -! new_size)))
  | None => put_total_memory_bytes s (wrap 64 (total_memory_bytes s + new_size))
  end.

Definition tracked_remove (hash : QueryHash) (s : CacheStore) : option CacheEntry * CacheStore :=
  match entries s !! hash with
  | Some old =>
      let s := put_entries s (delete hash (entries s)) in
      let s := put_total_memory_bytes s (wrap 64 (total_memory_bytes s - approximate_size old)) in
      let s :=
        if normalized_matching s then
          match query_text old with
          | Some q => put_exact_to_normalized s (delete (hash_query_exact q) (exact_to_normalized s))
          | None => s
          end
        else s in
      (Some old, s)
  | None => (None, s)
  end.

(** ** S3-FIFO *)

Definition read_and_reset_freq (hash : QueryHash) (s : CacheStore) : Z * CacheStore :=
  match entries s !! hash with
  | Some e => (freq e, put_entries s (<[hash := put_freq e 0]> (entries s)))
  | None => (0, s)
  end.

(** [while ghost.len() >= ghost_capacity { pop_front; ghost_set.remove }] *)
Definition ghost_full (st : S3FifoState) : bool := ghost_capacity st <=? zlen (ghost st).
Definition ghost_pop (st : S3FifoState) : S3FifoState :=
  match ghost st with
  | old :: rest => put_ghost st rest (ghost_set st ∖ {[old]})
  | [] => st
  end.

Definition s3fifo_add_ghost (hash : QueryHash) (st : S3FifoState) : S3FifoState :=
  let st := default st (while_fuel (length (ghost st)) ghost_full ghost_pop st) in
  put_ghost st (ghost st ++ [hash]) (ghost_set st ∪ {[hash]}).

Definition add_ghost (hash : QueryHash) (s : CacheStore) : CacheStore :=
  put_s3fifo s (s3fifo_add_ghost hash (s3fifo s)).

Definition record_promotions (n : Z) (s : CacheStore) : CacheStore :=
  if 0 <? n then upd_stats s (fun st => add_promotions st n) else s.

Fixpoint evict_small_loop (attempts : nat) (proms : Z) (s : CacheStore)
  : option EvictionSource * CacheStore :=
  match attempts with
  | O => (None, record_promotions proms s)
  | S n =>
      match small (s3fifo s) with
      | [] => (None, s)
      | h :: rest =>
          let s := put_s3fifo s (put_queues (s3fifo s) rest (main (s3fifo s))) in
          let '(fr, s) := read_and_reset_freq h s in
          if fr =? 0 then
            match tracked_remove h s with
            | (Some _, s) => (Some FromSmall, record_promotions proms (add_ghost h s))
            | (None, s) => evict_small_loop n proms (add_ghost h s)
            end
          else
            let st := s3fifo s in
            evict_small_loop n (proms +! 1) (put_s3fifo s (put_queues st (small st) (main st ++ [h])))
      end
  end.

Definition s3fifo_evict_from_small (s : CacheStore) : option EvictionSource * CacheStore :=
  evict_small_loop (length (small (s3fifo s))) 0 s.

Fixpoint evict_main_loop (attempts : nat) (s : CacheStore) : option EvictionSource * CacheStore :=
  match attempts with
  | O => (None, s)
  | S n =>
      match main (s3fifo s) with
      | [] => (None, s)
      | h :: rest =>
          let s := put_s3fifo s (put_queues (s3fifo s) (small (s3fifo s)) rest) in
          let '(fr, s) := read_and_reset_freq h s in
          if fr =? 0 then
            match tracked_remove h s with
            | (Some _, s) => (Some FromMain, s)
            | (None, s) => evict_main_loop n s
            end
          else
            let st := s3fifo s in
            evict_main_loop n (put_s3fifo s (put_queues st (small st) (main st ++ [h])))
      end
  end.

Definition s3fifo_evict_from_main (s : CacheStore) : option EvictionSource * CacheStore :=
  evict_main_loop (length (main (s3fifo s))) s.

Definition is_empty_q (q : list QueryHash) : bool := match q with [] => true | _ => false end.

Definition s3fifo_evict_one (s : CacheStore) : option EvictionSource * CacheStore :=
  let '(r, s) := if negb (is_empty_q (small (s3fifo s))) then s3fifo_evict_from_small s else (None, s) in
  match r with
  | Some src => (Some src, s)
  | None => if negb (is_empty_q (main (s3fifo s))) then s3fifo_evict_from_main s else (None, s)
  end.

(** The memory-pressure variant has the same body. *)
Definition s3fifo_evict_one_memory (s : CacheStore) : option EvictionSource * CacheStore :=
  let '(r, s) := if negb (is_empty_q (small (s3fifo s))) then s3fifo_evict_from_small s else (None, s) in
  match r with
  | Some src => (Some src, s)
  | None => if negb (is_empty_q (main (s3fifo s))) then s3fifo_evict_from_main s else (None, s)
  end.

(** [while cond { match evict() { Some(Small) => se += 1, Some(Main) => me += 1,
    None => break } }]: every [Some] shortens the queues, so their length bounds
    the number of iterations. *)
Fixpoint evict_while (fuel : nat) (cond : CacheStore -> bool)
  (evict : CacheStore -> option EvictionSource * CacheStore) (se me : Z) (s : CacheStore)
  : Z * Z * CacheStore :=
  match fuel with
  | O => (se, me, s)
  | S n =>
      if cond s then
        match evict s with
        | (Some FromSmall, s) => evict_while n cond evict (se +! 1) me s
        | (Some FromMain, s) => evict_while n cond evict se (me +! 1) s
        | (None, s) => (se, me, s)
        end
      else (se, me, s)
  end.

Definition queue_len (s : CacheStore) : nat :=
  (length (small (s3fifo s)) + length (main (s3fifo s)))%nat.
Definition over_capacity (s : CacheStore) : bool :=
  let st := s3fifo s in
  (small_capacity st +! main_capacity st) <? (zlen (small st) +! zlen (main st)).
Definition over_memory (cap : Z) (s : CacheStore) : bool := cap <? total_memory_bytes s.

Definition s3fifo_admit (hash : QueryHash) (s : CacheStore) : CacheStore :=
  let st := s3fifo s in
  let was_ghost := bool_decide (hash ∈ ghost_set st) in
  let st := put_ghost st (ghost st) (ghost_set st ∖ {[hash]}) in
  let st :=
    if was_ghost
    then put_queues (put_ghost st (List.filter (fun h => negb (bool_decide (h = hash))) (ghost st))
                       (ghost_set st)) (small st) (main st ++ [hash])
    else put_queues st (small st ++ [hash]) (main st) in
  let s := put_s3fifo s st in
  let '(se, me, s) := evict_while (queue_len s) over_capacity s3fifo_evict_one 0 0 s in
  let max_memory := max_memory_bytes s in
  let '(se, me, s) :=
    if 0 <? max_memory
    then evict_while (queue_len s) (over_memory max_memory) s3fifo_evict_one_memory se me s
    else (se, me, s) in
  if was_ghost || (0 <? se) || (0 <? me) then
    upd_stats s (fun t =>
      let t := if was_ghost then add_ghost_hits t 1 else t in
      let t := add_small_evictions t se in
      let t := add_main_evictions t me in
      add_total t (se +! me))
  else s.

Definition enforce_memory_limit (s : CacheStore) : Z * CacheStore :=
  let cap := max_memory_bytes s in
  if cap =? 0 then (0, s)
  else
    let '(se, me, s) := evict_while (queue_len s) (over_memory cap) s3fifo_evict_one_memory 0 0 s in
    let evicted := se +! me in
    let s := if 0 <? evicted then upd_stats s (fun t => add_total t evicted) else s in
    (evicted, s).

(** ** Lookups *)

Definition contains (query : str) (s : CacheStore) : bool :=
  bool_decide (is_Some (entries s !! hash_query query)).

Definition bump_freq (hash : QueryHash) (s : CacheStore) : CacheStore :=
  match entries s !! hash with
  | Some e => put_entries s (<[hash := put_freq e (bumped (freq e))]> (entries s))
  | None => s
  end.

(** Tier 1 of the two-tier lookup: the hash the exact mapping leads to. *)
Definition tier1 (query : str) (s : CacheStore) : option (QueryHash * CacheEntry) :=
  match exact_to_normalized s !! hash_query_exact query with
  | Some nh => match entries s !! nh with Some e => Some (nh, e) | None => None end
  | None => None
  end.

Definition get_two_tier (query : str) (s : CacheStore) : option CacheEntry * CacheStore :=
  let exact_hash := hash_query_exact query in
  match tier1 query s with
  | Some (nh, e) =>
      let s := bump_freq nh s in
      (entries s !! nh, put_exact_hits s (wrap 64 (exact_hits s + 1)))
  | None =>
      let nh := hash_query query in
      match entries s !! nh with
      | Some e =>
          let s := put_exact_to_normalized s (<[exact_hash := nh]> (exact_to_normalized s)) in
          let s := bump_freq nh s in
          (entries s !! nh, put_normalized_hits s (wrap 64 (normalized_hits s + 1)))
      | None => (None, s)
      end
  end.

Definition get (query : str) (s : CacheStore) : option CacheEntry * CacheStore :=
  if normalized_matching s then get_two_tier query s
  else
    let nh := hash_query query in
    match entries s !! nh with
    | Some e =>
        let s := bump_freq nh s in
        (entries s !! nh, put_exact_hits s (wrap 64 (exact_hits s + 1)))
    | None => (None, s)
    end.

Definition get_with_hit_type (query : str) (s : CacheStore)
  : option (CacheEntry * CacheHitType) * CacheStore :=
  let tag t (r : option CacheEntry) := (fun e => (e, t)) <$> r in
  if negb (normalized_matching s) then
    let nh := hash_query query in
    match entries s !! nh with
    | Some e =>
        let s := bump_freq nh s in
        (tag HitExact (entries s !! nh), put_exact_hits s (wrap 64 (exact_hits s + 1)))
    | None => (None, s)
    end
  else
    let exact_hash := hash_query_exact query in
    match tier1 query s with
    | Some (nh, e) =>
        let s := bump_freq nh s in
        (tag HitExact (entries s !! nh), put_exact_hits s (wrap 64 (exact_hits s + 1)))
    | None =>
        let nh := hash_query query in
        match entries s !! nh with
        | Some e =>
            let s := put_exact_to_normalized s (<[exact_hash := nh]> (exact_to_normalized s)) in
            let s := bump_freq nh s in
            (tag HitNormalized (entries s !! nh),
             put_normalized_hits s (wrap 64 (normalized_hits s + 1)))
        | None => (None, s)
        end
    end.

Definition get_verified (query : str) (s : CacheStore) : option CacheEntry * CacheStore :=
  let hash := hash_query query in
  match entries s !! hash with
  | Some e =>
      let bad := match content_hash e with
                 | Some stored => negb (bool_decide (stored = compute_content_hash (response e)))
                 | None => false
                 end in
      if bad then
        let '(_, s) := tracked_remove hash s in
        (None, upd_stats s (fun t => add_integrity_failures t 1))
      else
        let s := bump_freq hash s in (entries s !! hash, s)
  | None => (None, s)
  end.

Definition get_by_hash (hash : QueryHash) (s : CacheStore) : option CacheEntry * CacheStore :=
  match entries s !! hash with
  | Some e => let s := bump_freq hash s in (entries s !! hash, s)
  | None => (None, s)
  end.

(** ** Per-upstream accounting *)

Definition count_for_upstream (upstream_id : str) (s : CacheStore) : Z :=
  zlen (List.filter (fun he => str_eqb (ce_upstream_id he.2) upstream_id) (map_iter (entries s))).

(** Remove a list of keys one after the other; the removed entries in order. *)
Fixpoint remove_all (hs : list QueryHash) (s : CacheStore) : list CacheEntry * CacheStore :=
  match hs with
  | [] => ([], s)
  | h :: hs' =>
      match tracked_remove h s with
      | (Some e, s) => let '(es, s) := remove_all hs' s in (e :: es, s)
      | (None, s) => remove_all hs' s
      end
  end.

Definition age_desc (a b : QueryHash * Z) : bool := b.2 <=? a.2.

Definition evict_from_upstream (clk : Clock) (upstream_id : str) (count : Z) (s : CacheStore)
  : Z * CacheStore :=
  if count =? 0 then (0, s)
  else
    let upstream_entries :=
      map (fun he : QueryHash * CacheEntry => (he.1, elapsed (mono clk) (cached_at he.2)))
        (List.filter (fun he => str_eqb (ce_upstream_id he.2) upstream_id) (map_iter (entries s))) in
    let upstream_entries := sort_by age_desc upstream_entries in
    let '(removed, s) := remove_all (map fst (take (Z.to_nat count) upstream_entries)) s in
    let evicted := zlen removed in
    let s := match cdc_sender s with
             | Some _ =>
                 fold_left (fun s (e : CacheEntry) =>
                   match query_text e with
                   | Some q => emit clk Remove (builder_remove q) s
                   | None => s
                   end) removed s
             | None => s
             end in
    let s := if 0 <? evicted
             then upd_stats s (fun t => add_total (add_oldest t evicted) evicted) else s in
    (evicted, s).

Definition entries_by_upstream (s : CacheStore) : gmap str Z :=
  fold_left (fun m (he : QueryHash * CacheEntry) =>
    <[ce_upstream_id he.2 := default 0 (m !! ce_upstream_id he.2) +! 1]> m) (map_iter (entries s)) ∅.

Definition enforce_per_upstream_limit (clk : Clock) (upstream_id : str) (max : Z) (s : CacheStore)
  : Z * CacheStore :=
  let current := count_for_upstream upstream_id s in
  if current <=? max then (0, s)
  else evict_from_upstream clk upstream_id (current -! max) s.

(** The per-upstream check both insert paths start with. *)
Definition check_upstream_limit (clk : Clock) (upstream_id : str) (s : CacheStore) : CacheStore :=
  match per_upstream_limit s with
  | Some limit =>
      if limit <=? count_for_upstream upstream_id s then
        let '(_, s) := evict_from_upstream clk upstream_id 1 s in
        upd_stats s (fun t => add_per_upstream t 1)
      else s
  | None => s
  end.

(** ** Insertion *)

Definition new_entry (clk : Clock) (r : QueryResponse) (upstream_id : str) (qt : option str) (ctx : str)
  : CacheEntry :=
  {| response := r; ce_upstream_id := upstream_id; cached_at := mono clk;
     cached_at_wall := Some (wall clk); extended_count := 0; schema := SchemaFingerprint_default;
     content_hash := Some (compute_content_hash r); query_text := qt; context_id := ctx; freq := 0 |}.

Definition insert_impl (clk : Clock) (query : str) (r : QueryResponse) (upstream_id ctx : str)
  (s : CacheStore) : CacheStore :=
  let normalized_hash := hash_query query in
  let exact_hash := if normalized_matching s then hash_query_exact query else replicate 32 0 in
  let s := check_upstream_limit clk upstream_id s in
  let is_new := negb (bool_decide (is_Some (entries s !! normalized_hash))) in
  let cdc_payload := match cdc_sender s with Some _ => serde_to_vec r | None => None end in
  let entry := new_entry clk r upstream_id (Some query) ctx in
  let s := tracked_insert normalized_hash entry s in
  let s := if normalized_matching s
           then put_exact_to_normalized s (<[exact_hash := normalized_hash]> (exact_to_normalized s))
           else s in
  let s := if is_new then s3fifo_admit normalized_hash s else s in
  match cdc_payload with
  | Some pl => emit clk Insert (builder_insert query pl upstream_id) s
  | None => s
  end.

Definition insert (clk : Clock) (query : str) (r : QueryResponse) (upstream_id : str) (s : CacheStore)
  : CacheStore := insert_impl clk query r upstream_id (lit "default") s.
Definition insert_with_context (clk : Clock) (query : str) (r : QueryResponse) (upstream_id ctx : str)
  (s : CacheStore) : CacheStore := insert_impl clk query r upstream_id ctx s.

Definition insert_by_hash (clk : Clock) (hash : QueryHash) (r : QueryResponse) (upstream_id : str)
  (key : option str) (s : CacheStore) : CacheStore :=
  let s := check_upstream_limit clk upstream_id s in
  let is_new := negb (bool_decide (is_Some (entries s !! hash))) in
  let cdc_payload := match cdc_sender s, key with
                     | Some _, Some _ => serde_to_vec r
                     | _, _ => None
                     end in
  let entry := new_entry clk r upstream_id key (lit "default") in
  let s := tracked_insert hash entry s in
  let s := if is_new then s3fifo_admit hash s else s in
  match cdc_payload, key with
  | Some pl, Some k => emit clk Insert (builder_insert k pl upstream_id) s
  | _, _ => s
  end.

Fixpoint warmup_loop (clk : Clock) (es : list (str * QueryResponse)) (upstream_id : str)
  (inserted : Z) (s : CacheStore) : Z * CacheStore :=
  match es with
  | [] => (inserted, s)
  | (q, r) :: es' =>
      if negb (is_ok (response_validate r)) then warmup_loop clk es' upstream_id inserted s
      else if max_entries s <=? Z.of_nat (size (entries s)) then (inserted, s)
      else
        let hash := hash_query q in
        let is_new := negb (bool_decide (is_Some (entries s !! hash))) in
        let s := tracked_insert hash (new_entry clk r upstream_id (Some q) (lit "default")) s in
        let s := if is_new then s3fifo_admit hash s else s in
        warmup_loop clk es' upstream_id (inserted +! 1) s
  end.

Definition warmup (clk : Clock) (es : list (str * QueryResponse)) (upstream_id : str) (s : CacheStore)
  : Z * CacheStore := warmup_loop clk es upstream_id 0 s.

(** ** Freshness *)

Definition jittered_ttl (base_ttl : Z) (query_hash : QueryHash) (s : CacheStore) : outcome Z :=
  if f_le (ttl_jitter_percent s) f_zero then Ret base_ttl
  else
    let hash_byte := default 0 (head query_hash) in
    let jitter_factor := F32.mul (F32.div (F32.of_Z hash_byte) (F32.of_Z 255)) (ttl_jitter_percent s) in
    let jitter_secs := f_to_u 64 (F32.mul (as_secs_f32 base_ttl) jitter_factor) in
    dur_add base_ttl (from_secs jitter_secs).

(** The jittered end of freshness and the end of the stale window. *)
Definition windows (hash : QueryHash) (s : CacheStore) : outcome (Z * Z) :=
  let! jittered_fresh := jittered_ttl (fresh_duration s) hash s in
  let! jittered_total := dur_add jittered_fresh (stale_duration s) in
  Ret (jittered_fresh, jittered_total).

Definition classify (age jittered_fresh jittered_total frozen : Z) : Freshness :=
  if age <? jittered_fresh then Fresh
  else if age <? jittered_total then Stale
  else if age <? frozen then Frozen
  else Expired.

Definition check_freshness_by_hash (clk : Clock) (hash : QueryHash) (s : CacheStore)
  : outcome (option Freshness) :=
  match entries s !! hash with
  | Some e =>
      let age := elapsed (mono clk) (cached_at e) in
      let! w := windows hash s in
      Ret (Some (classify age w.1 w.2 (max_frozen_duration s)))
  | None => Ret None
  end.

Definition check_freshness (clk : Clock) (query : str) (s : CacheStore) : outcome (option Freshness) :=
  check_freshness_by_hash clk (hash_query query) s.

Fixpoint stale_hashes_loop (clk : Clock) (s : CacheStore) (l : list (QueryHash * CacheEntry))
  : outcome (list QueryHash) :=
  match l with
  | [] => Ret []
  | (hash, e) :: l' =>
      let age := elapsed (mono clk) (cached_at e) in
      let! w := windows hash s in
      let! rest := stale_hashes_loop clk s l' in
      Ret (if (w.1 <=? age) && (age <? w.2) then hash :: rest else rest)
  end.
Definition get_stale_hashes (clk : Clock) (s : CacheStore) : outcome (list QueryHash) :=
  stale_hashes_loop clk s (map_iter (entries s)).

Definition extend_ttl (clk : Clock) (query : str) (s : CacheStore) : CacheStore :=
  let hash := hash_query query in
  match entries s !! hash with
  | Some old =>
      tracked_insert hash
        {| response := response old; ce_upstream_id := ce_upstream_id old; cached_at := mono clk;
           cached_at_wall := cached_at_wall old; extended_count := sat_add 32 (extended_count old) 1;
           schema := schema old; content_hash := content_hash old; query_text := query_text old;
           context_id := context_id old; freq := 1 |} s
  | None => s
  end.

(** ** Removal *)

Definition remove (clk : Clock) (query : str) (s : CacheStore) : CacheStore :=
  let exact_hash := hash_query_exact query in
  let '(_, s) := tracked_remove (hash_query query) s in
  let s := put_exact_to_normalized s (delete exact_hash (exact_to_normalized s)) in
  emit clk Remove (builder_remove query) s.

Definition wipe (s : CacheStore) : CacheStore :=
  put_s3fifo (put_total_memory_bytes (put_exact_to_normalized (put_entries s ∅) ∅) 0)
    (clear_queues (s3fifo s)).

Definition clear (clk : Clock) (s : CacheStore) : CacheStore := emit clk Remove (builder_remove []) (wipe s).

(** The bytes hashed by [compute_config_fingerprint], and the first eight bytes
    of the hash read as a little-endian [u64]. *)
Fixpoint from_le_bytes (b : bytes) : Z :=
  match b with [] => 0 | x :: b' => x + 256 * from_le_bytes b' end.
Definition compute_config_fingerprint (upstream_url : option str) (scope_seeds : list str) : Z :=
  from_le_bytes (take 8 (blake3_hash
    (match upstream_url with Some url => as_bytes url | None => [] end ++ [0] ++
     concat (map (fun seed => as_bytes seed ++ [0]) scope_seeds)))).

Definition update_config_fingerprint (upstream_url : option str) (scope_seeds : list str) (s : CacheStore)
  : bool * CacheStore :=
  let new_fingerprint := compute_config_fingerprint upstream_url scope_seeds in
  let old := config_fingerprint s in
  let s := put_config_fingerprint s new_fingerprint in
  if negb (old =? 0) && negb (old =? new_fingerprint) then (true, wipe s) else (false, s).

(** ** Eviction *)

(** Remove expired keys until [target] have gone. *)
Fixpoint evict_expired_loop (hs : list QueryHash) (target evicted : Z) (s : CacheStore)
  : Z * CacheStore :=
  match hs with
  | [] => (evicted, s)
  | h :: hs' =>
      if target <=? evicted then (evicted, s)
      else match tracked_remove h s with
           | (Some _, s) => evict_expired_loop hs' target (evicted +! 1) s
           | (None, s) => evict_expired_loop hs' target evicted s
           end
  end.

(** [for _ in 0..remaining { if both queues empty { break } ... }] *)
Fixpoint evict_n (n : nat) (evicted : Z) (s : CacheStore) : Z * CacheStore :=
  match n with
  | O => (evicted, s)
  | S n' =>
      if is_empty_q (small (s3fifo s)) && is_empty_q (main (s3fifo s)) then (evicted, s)
      else match s3fifo_evict_one s with
           | (Some _, s) => evict_n n' (evicted +! 1) s
           | (None, s) => evict_n n' evicted s
           end
  end.

Definition evict_smart (clk : Clock) (target_count : Z) (s : CacheStore) : outcome CacheStore :=
  let! total_ttl := dur_add (fresh_duration s) (stale_duration s) in
  let expired_hashes :=
    map fst (List.filter (fun he : QueryHash * CacheEntry => total_ttl <? elapsed (mono clk) (cached_at he.2))
               (map_iter (entries s))) in
  let '(expired_count, s) := evict_expired_loop expired_hashes target_count 0 s in
  let '(evicted, s) :=
    if expired_count <? target_count
    then let '(n, s) := evict_n (Z.to_nat (target_count -! expired_count)) 0 s in (expired_count +! n, s)
    else (expired_count, s) in
  Ret (if 0 <? evicted
       then upd_stats s (fun t => add_total (add_expired t expired_count) evicted) else s).

Definition evict_truly_expired (clk : Clock) (s : CacheStore) : Z * CacheStore :=
  let hs := map fst (List.filter (fun he : QueryHash * CacheEntry =>
              max_frozen_duration s <? elapsed (mono clk) (cached_at he.2)) (map_iter (entries s))) in
  let '(removed, s) := remove_all hs s in
  let count := zlen removed in
  (count, if 0 <? count then upd_stats s (fun t => add_total (add_expired t count) count) else s).

(** [SystemTime::now().checked_sub(Duration::from_secs(secs)).unwrap_or(UNIX_EPOCH)]: a
    [SystemTime] holds a signed 64-bit number of seconds. *)
Definition wall_minus_secs (w secs : Z) : Z :=
  let t := w - from_secs secs in
  if - 2 ^ 63 <=? t / nanos_per_sec then t else 0.

(** The three AND-combined criteria of [evict_filter]. *)
Definition filter_matches (clk : Clock) (ctx prefix : option str) (older_than_secs : option Z)
  (e : CacheEntry) : bool :=
  match ctx with Some c => str_eqb (context_id e) c | None => true end &&
  match prefix with
  | Some p => match query_text e with
              | Some t => starts_with (to_lowercase t) (to_lowercase p)
              | None => false
              end
  | None => true
  end &&
  match older_than_secs with
  | Some secs =>
      let threshold := wall_minus_secs (wall clk) secs in
      match cached_at_wall e with Some w => w <=? threshold | None => false end
  | None => true
  end.

Definition evict_filter (clk : Clock) (ctx prefix : option str) (older_than_secs max : option Z)
  (s : CacheStore) : Z * CacheStore :=
  let matches := map fst (List.filter (fun he : QueryHash * CacheEntry =>
                   filter_matches clk ctx prefix older_than_secs he.2) (map_iter (entries s))) in
  let matches := match max with Some m => take (Z.to_nat m) matches | None => matches end in
  let '(removed, s) := remove_all matches s in
  let n := zlen removed in
  (n, if 0 <? n
      then emit clk Remove (builder_remove (lit "bulk:" ++ show_Z n)) (upd_stats s (fun t => add_total t n))
      else s).

(** ** Statistics, snapshots, integrity *)

Record CacheStats := {
  cs_total : Z; cs_fresh : Z; cs_stale : Z; cs_expired : Z; cs_max_entries : Z;
  cs_memory_bytes : Z; cs_utilization : f32
}.

(** Running counts of fresh, stale and expired entries. *)
Definition count_freshness (clk : Clock) (fresh_ttl total_ttl : Z) (acc : Z * Z * Z) (e : CacheEntry)
  : Z * Z * Z :=
  let '(f, st, x) := acc in
  let age := elapsed (mono clk) (cached_at e) in
  if age <? fresh_ttl then (f +! 1, st, x)
  else if age <? total_ttl then (f, st +! 1, x)
  else (f, st, x +! 1).

Definition stats (clk : Clock) (s : CacheStore) : outcome CacheStats :=
  let! total_ttl := dur_add (fresh_duration s) (stale_duration s) in
  let '(f, st, x) := fold_left (fun acc (he : QueryHash * CacheEntry) =>
                       count_freshness clk (fresh_duration s) total_ttl acc he.2)
                       (map_iter (entries s)) (0, 0, 0) in
  let total := Z.of_nat (size (entries s)) in
  Ret {| cs_total := total; cs_fresh := f; cs_stale := st; cs_expired := x;
         cs_max_entries := max_entries s; cs_memory_bytes := total_memory_bytes s;
         cs_utilization := if 0 <? max_entries s
                           then F32.div (F32.of_Z total) (F32.of_Z (max_entries s)) else f_zero |}.

Record UpstreamCacheStats := {
  us_total : Z; us_fresh : Z; us_stale : Z; us_expired : Z; us_memory_bytes : Z
}.
Definition UpstreamCacheStats_default : UpstreamCacheStats :=
  {| us_total := 0; us_fresh := 0; us_stale := 0; us_expired := 0; us_memory_bytes := 0 |}.

Definition stats_by_upstream (clk : Clock) (s : CacheStore) : outcome (gmap str UpstreamCacheStats) :=
  fold_left (fun acc (he : QueryHash * CacheEntry) =>
    let! m := acc in
    let e := he.2 in
    let u := default UpstreamCacheStats_default (m !! ce_upstream_id e) in
    let! total_ttl := dur_add (fresh_duration s) (stale_duration s) in
    let '(f, st, x) := count_freshness clk (fresh_duration s) total_ttl
                         (us_fresh u, us_stale u, us_expired u) e in
    Ret (<[ce_upstream_id e :=
            {| us_total := us_total u +! 1; us_fresh := f; us_stale := st; us_expired := x;
               us_memory_bytes := us_memory_bytes u +! approximate_size e |}]> m))
    (map_iter (entries s)) (Ret ∅).

(** [Iterator::sum] wraps in a release build. *)
Definition memory_usage (s : CacheStore) : Z :=
  fold_right (fun (he : QueryHash * CacheEntry) acc => wrap 64 (approximate_size he.2 + acc)) 0
    (map_iter (entries s)).

Record IntegrityReport := { ir_total : Z; ir_valid : Z; ir_invalid : Z; ir_missing_hash : Z }.

Definition verify_integrity (s : CacheStore) : IntegrityReport :=
  let '(valid, invalid, missing) :=
    fold_left (fun acc (he : QueryHash * CacheEntry) =>
      let '(v, i, m) := acc in
      match content_hash he.2 with
      | Some stored => if bool_decide (stored = compute_content_hash (response he.2))
                       then (v +! 1, i, m) else (v, i +! 1, m)
      | None => (v, i, m +! 1)
      end) (map_iter (entries s)) (0, 0, 0) in
  {| ir_total := Z.of_nat (size (entries s)); ir_valid := valid; ir_invalid := invalid;
     ir_missing_hash := missing |}.

Definition corrupted (e : CacheEntry) : bool :=
  match content_hash e with
  | Some stored => negb (bool_decide (stored = compute_content_hash (response e)))
  | None => false
  end.
Definition remove_corrupted (s : CacheStore) : Z * CacheStore :=
  let hs := map fst (List.filter (fun he : QueryHash * CacheEntry => corrupted he.2) (map_iter (entries s))) in
  let '(removed, s) := remove_all hs s in (zlen removed, s).

Definition snapshot_entries (s : CacheStore) : list (str * bytes * str) :=
  omap (fun he : QueryHash * CacheEntry =>
    match serde_to_vec (response he.2) with
    | Some json => Some (default [] (query_text he.2), json, ce_upstream_id he.2)
    | None => None
    end) (map_iter (entries s)).

Record DistillSnapshot := {
  ds_hash : QueryHash; ds_context_id : str; ds_query_text : str; ds_cached_at_wall : Z;
  ds_response_json : bytes; ds_upstream_id : str; ds_extended_count : Z
}.

Definition snapshot_entries_rich (s : CacheStore) : list DistillSnapshot :=
  omap (fun he : QueryHash * CacheEntry =>
    match cached_at_wall he.2, serde_to_vec (response he.2) with
    | Some w, Some json =>
        Some {| ds_hash := he.1; ds_context_id := context_id he.2;
                ds_query_text := default [] (query_text he.2); ds_cached_at_wall := w;
                ds_response_json := json; ds_upstream_id := ce_upstream_id he.2;
                ds_extended_count := extended_count he.2 |}
    | _, _ => None
    end) (map_iter (entries s)).

(** [query_hash_hex]: two lowercase hexadecimal digits per byte. *)
Definition hex_digit (n : Z) : char := if n <? 10 then 48 + n else 87 + n.
Definition query_hash_hex (hash : QueryHash) : str :=
  concat (map (fun b => [hex_digit (Z.shiftr b 4); hex_digit (Z.land b 15)]) hash).

Inductive EntryFreshness := EFresh | EStale | EExpired.
Record CacheEntrySummary := {
  es_hash : str; es_query_text : str; es_upstream_id : str; es_context_id : str;
  es_cached_at_unix_ms : option Z; es_result_count : Z; es_freshness : EntryFreshness
}.

Definition entries_summary (clk : Clock) (s : CacheStore) : list CacheEntrySummary :=
  map (fun he : QueryHash * CacheEntry =>
    let e := he.2 in
    let age := elapsed (mono clk) (cached_at e) in
    {| es_hash := query_hash_hex he.1;
       es_query_text := take 120 (default [] (query_text e));
       es_upstream_id := ce_upstream_id e; es_context_id := context_id e;
       es_cached_at_unix_ms :=
         match cached_at_wall e with
         | Some w => if 0 <=? w then Some (wrap 64 (w / 1000000)) else None
         | None => None
         end;
       es_result_count := zlen (results (response e));
       es_freshness :=
         if age <? fresh_duration s then EFresh
         else if age <? dur_sat_add (fresh_duration s) (stale_duration s) then EStale
         else EExpired |}) (map_iter (entries s)).

End Cache.
