(* ===== verification/CacheInv.v ===== *)
(** * Invariants of the cache store

    [Wq] is the part of the invariant that every intermediate state of an
    eviction satisfies: each cached key is in a queue, the memory counter is the
    sum of the entry sizes, frequencies stay in [0, 3], and the ghost list is
    bounded.  [inv] adds the capacity bound that holds between operations. *)

From Stdlib Require Import SpecFloat.
From S2P Require Import Prelude Floats Text Types Cdc Cache.
Open Scope Z_scope.
Open Scope conproxy_scope.

Section CacheInv.
Context `{E : CacheEnv} {L : CacheEnvLaws E}.
Implicit Types (s : CacheStore) (st : S3FifoState) (h : QueryHash) (e : CacheEntry)
  (m : gmap QueryHash CacheEntry).

Record Wq m st (mem : Z) : Prop := {
  wq_cov : forall h, is_Some (m !! h) -> h ∈ small st \/ h ∈ main st;
  wq_mem : mem = wrap 64 (msum approximate_size m);
  wq_freq : forall h e, m !! h = Some e -> 0 <= freq e <= 3;
  wq_ghost_len : zlen (ghost st) <= ghost_capacity st;
  wq_ghost_set : forall h, h ∈ ghost_set st -> h ∈ ghost st;
  wq_caps : 0 < ghost_capacity st
}.

Definition W s : Prop := Wq (entries s) (s3fifo s) (total_memory_bytes s).

(** ** Elementary changes *)

Lemma approximate_size_put_freq e v : approximate_size (put_freq e v) = approximate_size e.
Proof. done. Qed.

Lemma Wq_freq m st mem h e v :
  Wq m st mem -> m !! h = Some e -> 0 <= v <= 3 -> Wq (<[h := put_freq e v]> m) st mem.
Proof.
  intros [Hc Hm Hf Hg Hgs Hcap] He Hv. split; try done.
  - intros h'. rewrite lookup_insert. case_decide; subst; intros Hs; eauto.
  - rewrite (msum_insert_old _ _ _ e) by done. rewrite approximate_size_put_freq, Hm. f_equal. lia.
  - intros h' e'. rewrite lookup_insert. case_decide; intros; simplify_eq; simpl; eauto.
Qed.

Lemma Wq_delete m st mem h e :
  Wq m st mem -> m !! h = Some e -> Wq (delete h m) st (wrap 64 (mem - approximate_size e)).
Proof.
  intros [Hc Hm Hf Hg Hgs Hcap] He. split; try done.
  - intros h'. rewrite lookup_delete. case_decide; [by intros []|eauto].
  - rewrite Hm, wrap_sub_l, (msum_delete _ _ _ e) by done. f_equal. lia.
  - intros h' e'. rewrite lookup_delete. case_decide; [done|eauto].
Qed.

(** A change of the queues that keeps every cached key queued. *)
Lemma Wq_requeue m st mem sm mn :
  Wq m st mem ->
  (forall h, is_Some (m !! h) -> h ∈ small st \/ h ∈ main st -> h ∈ sm \/ h ∈ mn) ->
  Wq m (put_queues st sm mn) mem.
Proof. intros [Hc Hm Hf Hg Hgs Hcap] Hq. split; simpl; eauto. Qed.

(** ** The ghost list *)

Definition ghost_ok st : Prop :=
  0 < ghost_capacity st /\ (forall h, h ∈ ghost_set st -> h ∈ ghost st).

Lemma ghost_pop_ok st : ghost_ok st -> ghost_ok (ghost_pop st).
Proof.
  unfold ghost_ok, ghost_pop. destruct (ghost st) as [|g gs] eqn:Eg; simpl; [by rewrite Eg|].
  intros [Hc Hs]. split; [done|]. intros h Hh.
  assert (h ∈ g :: gs) as Hin by (apply Hs; set_solver). set_solver.
Qed.

Lemma ghost_pop_frame st :
  small (ghost_pop st) = small st /\ main (ghost_pop st) = main st /\
  small_capacity (ghost_pop st) = small_capacity st /\
  main_capacity (ghost_pop st) = main_capacity st /\
  ghost_capacity (ghost_pop st) = ghost_capacity st.
Proof. unfold ghost_pop. by destruct (ghost st). Qed.

(** The loop that makes room in the ghost list terminates because the capacity
    is positive. *)
Lemma ghost_loop_terminates st :
  0 < ghost_capacity st ->
  exists st', while_fuel (length (ghost st)) ghost_full ghost_pop st = Some st'.
Proof.
  intros Hc.
  enough (forall n st0, 0 < ghost_capacity st0 -> (length (ghost st0) <= n)%nat ->
            is_Some (while_fuel n ghost_full ghost_pop st0)) as H.
  { by destruct (H (length (ghost st)) st Hc) as [st' ?]; [|exists st']. }
  clear st Hc. induction n as [|n IH]; intros st Hc Hn; simpl;
    destruct (ghost_full st) eqn:Ef; eauto; unfold ghost_full in Ef; reflect_Z.
  - unfold zlen in Ef. lia.
  - apply IH.
    + by rewrite (proj2 (proj2 (proj2 (proj2 (ghost_pop_frame st))))).
    + unfold ghost_pop. destruct (ghost st); simpl in *; unfold zlen in Ef; simpl in Ef; lia.
Qed.

(** What [s3fifo_add_ghost] guarantees. *)
Lemma add_ghost_spec h st :
  ghost_ok st ->
  let st' := s3fifo_add_ghost h st in
  ghost_ok st' /\ zlen (ghost st') <= ghost_capacity st' /\ h ∈ ghost_set st' /\
  small st' = small st /\ main st' = main st /\
  small_capacity st' = small_capacity st /\ main_capacity st' = main_capacity st /\
  ghost_capacity st' = ghost_capacity st.
Proof.
  intros Hok st'. unfold st', s3fifo_add_ghost.
  destruct (ghost_loop_terminates st (proj1 Hok)) as (st1 & Hst1). rewrite Hst1. simpl.
  pose proof (while_fuel_exit _ _ _ _ _ Hst1) as Hex. unfold ghost_full in Hex. reflect_Z.
  assert (ghost_ok st1 /\ small st1 = small st /\ main st1 = main st /\
          small_capacity st1 = small_capacity st /\ main_capacity st1 = main_capacity st /\
          ghost_capacity st1 = ghost_capacity st) as (Hok1 & ?).
  { eapply (while_fuel_inv (fun x => ghost_ok x /\ small x = small st /\ main x = main st /\
      small_capacity x = small_capacity st /\ main_capacity x = main_capacity st /\
      ghost_capacity x = ghost_capacity st)); [|done|exact Hst1].
    intros x (Hx & ? & ? & ? & ? & ?) _. split; [by apply ghost_pop_ok|].
    destruct (ghost_pop_frame x) as (-> & -> & -> & -> & ->). done. }
  unfold ghost_ok in *. simpl. destruct Hok1 as [Hc Hs].
  split_and!; try tauto.
  - intros h' Hh'. apply elem_of_union in Hh' as [Hh'|Hh']; apply elem_of_app; [eauto|set_solver].
  - rewrite zlen_app, zlen_cons, zlen_nil. lia.
  - set_solver.
Qed.

Lemma Wq_add_ghost m st mem h : Wq m st mem -> Wq m (s3fifo_add_ghost h st) mem.
Proof.
  intros [Hc Hm Hf Hg Hgs Hcap].
  destruct (add_ghost_spec h st) as (Hok & Hlen & _ & Hsm & Hmn & _ & _ & Hgc); [by split|].
  split; try done; [|apply Hok|by rewrite Hgc].
  intros h' Hh'. rewrite Hsm, Hmn. eauto.
Qed.

(** ** One eviction step

    The fields that no eviction touches. *)
Definition cfg s :=
  (fresh_duration s, stale_duration s, max_frozen_duration s, max_entries s, max_memory_bytes s,
   ttl_jitter_percent s, config_fingerprint s, per_upstream_limit s, normalized_matching s,
   exact_hits s, normalized_hits s, cdc_sender s).
Definition caps st := (small_capacity st, main_capacity st, ghost_capacity st).

(** Entries survive unchanged up to their access frequency. *)
Definition shrinks m m' : Prop :=
  forall h e', m' !! h = Some e' -> exists e v, m !! h = Some e /\ e' = put_freq e v.

(** Evictions moreover never raise a frequency. *)
Definition cools m m' : Prop :=
  forall h e', m' !! h = Some e' -> exists e v, m !! h = Some e /\ e' = put_freq e v /\ v <= freq e.

Definition one_if {A} (r : option A) : nat := match r with Some _ => 1 | None => 0 end.

(** [evicts s r s']: an eviction attempt with outcome [r] led from [s] to [s']. *)
Record evicts s (r : option EvictionSource) s' : Prop := {
  ev_W : W s';
  ev_cfg : cfg s' = cfg s;
  ev_caps : caps (s3fifo s') = caps (s3fifo s);
  ev_len : (queue_len s' + one_if r <= queue_len s)%nat;
  ev_size : (size (entries s') + one_if r = size (entries s))%nat;
  ev_cools : cools (entries s) (entries s');
  ev_e2n : exact_to_normalized s' ⊆ exact_to_normalized s
}.

Lemma put_freq_id e : put_freq e (freq e) = e.
Proof. by destruct e. Qed.
Lemma put_freq_twice e v w : put_freq (put_freq e v) w = put_freq e w.
Proof. done. Qed.

Lemma shrinks_refl m : shrinks m m.
Proof. intros h e He. exists e, (freq e). by rewrite put_freq_id. Qed.
Lemma shrinks_trans m1 m2 m3 : shrinks m1 m2 -> shrinks m2 m3 -> shrinks m1 m3.
Proof.
  intros H1 H2 h e3 He3. destruct (H2 _ _ He3) as (e2 & v & He2 & ->).
  destruct (H1 _ _ He2) as (e1 & w & He1 & ->). by exists e1, v.
Qed.
Lemma shrinks_delete m h : shrinks m (delete h m).
Proof. intros h' e' [_ He]%lookup_delete_Some. by apply shrinks_refl. Qed.
Lemma shrinks_freq m h e v : m !! h = Some e -> shrinks m (<[h := put_freq e v]> m).
Proof.
  intros He h' e'. rewrite lookup_insert. case_decide; intros; simplify_eq; eauto.
  by apply shrinks_refl.
Qed.

Lemma cools_shrinks m m' : cools m m' -> shrinks m m'.
Proof. intros H h e' He'. destruct (H _ _ He') as (e & v & ? & ? & _). eauto. Qed.
Lemma cools_refl m : cools m m.
Proof. intros h e He. exists e, (freq e). by rewrite put_freq_id. Qed.
Lemma cools_trans m1 m2 m3 : cools m1 m2 -> cools m2 m3 -> cools m1 m3.
Proof.
  intros H1 H2 h e3 He3. destruct (H2 _ _ He3) as (e2 & v & He2 & -> & Hv).
  destruct (H1 _ _ He2) as (e1 & w & He1 & -> & Hw). exists e1, v. simpl in *. split_and!; auto. lia.
Qed.
Lemma cools_delete m h : cools m (delete h m).
Proof. intros h' e' [_ He]%lookup_delete_Some. by apply cools_refl. Qed.
Lemma cools_freq m h e v : m !! h = Some e -> v <= freq e -> cools m (<[h := put_freq e v]> m).
Proof.
  intros He Hv h' e'. rewrite lookup_insert. case_decide; intros; simplify_eq; eauto.
  by apply cools_refl.
Qed.

Lemma evicts_refl s : W s -> evicts s None s.
Proof. intros. split; simpl; auto using cools_refl; lia. Qed.

Lemma evicts_trans s s1 s2 r : evicts s None s1 -> evicts s1 r s2 -> evicts s r s2.
Proof.
  intros [] []. split; simpl in *; eauto using cools_trans; try congruence; try lia.
  by etrans.
Qed.

(** A state change that does not touch the maps, the queues or the memory counter. *)
Lemma evicts_stats s r s1 f : evicts s r s1 -> evicts s r (upd_stats s1 f).
Proof. intros []. by split. Qed.

Lemma evicts_promotions s r s1 n : evicts s r s1 -> evicts s r (record_promotions n s1).
Proof. unfold record_promotions. destruct (0 <? n); [apply evicts_stats|done]. Qed.

Lemma tracked_remove_spec h s :
  let '(r, s') := tracked_remove h s in
  r = entries s !! h /\ entries s' = delete h (entries s) /\ s3fifo s' = s3fifo s /\
  cfg s' = cfg s /\ exact_to_normalized s' ⊆ exact_to_normalized s /\
  total_memory_bytes s' = match r with
                          | Some e => wrap 64 (total_memory_bytes s - approximate_size e)
                          | None => total_memory_bytes s
                          end /\
  eviction_stats s' = eviction_stats s.
Proof.
  unfold tracked_remove. destruct (entries s !! h) as [e|] eqn:He; simpl.
  - assert (forall x, delete x (exact_to_normalized s) ⊆ exact_to_normalized s)
      by (intros; apply delete_subseteq).
    unfold cfg. destruct (normalized_matching s) eqn:?; [destruct (query_text e)|];
      split_and!; simpl; auto; congruence.
  - split_and!; auto. by rewrite delete_id.
Qed.

Lemma W_remove h s : W s -> W (snd (tracked_remove h s)).
Proof.
  intros HW. pose proof (tracked_remove_spec h s) as Hr.
  destruct (tracked_remove h s) as [r s']. simpl in *.
  destruct Hr as (-> & He & Hs & _ & _ & Hm & _). unfold W. rewrite He, Hs, Hm.
  destruct (entries s !! h) as [e|] eqn:Eh; [by apply Wq_delete|by rewrite delete_id].
Qed.

(** Popping [h] and dropping it from the map. *)
Lemma Wq_drop m st mem h e sm mn :
  Wq m st mem -> m !! h = Some e ->
  (forall h', h' <> h -> h' ∈ small st \/ h' ∈ main st -> h' ∈ sm \/ h' ∈ mn) ->
  Wq (delete h m) (put_queues st sm mn) (wrap 64 (mem - approximate_size e)).
Proof.
  intros HW He Hq. apply Wq_requeue; [by apply Wq_delete|].
  intros h' [e' He']. apply lookup_delete_Some in He' as [Hne _]. by apply Hq.
Qed.

(** The state after popping [h] from the front of a queue. *)
Definition popped s (sm mn : list QueryHash) : CacheStore :=
  put_s3fifo s (put_queues (s3fifo s) sm mn).

Lemma remove_popped s h e sm mn :
  W s -> entries s !! h = Some e ->
  (forall h', h' <> h -> h' ∈ small (s3fifo s) \/ h' ∈ main (s3fifo s) -> h' ∈ sm \/ h' ∈ mn) ->
  (length sm + length mn < queue_len s)%nat ->
  forall src r s1,
  tracked_remove h (put_entries (popped s sm mn) (<[h := put_freq e 0]> (entries s))) = (r, s1) ->
  is_Some r /\ evicts s (Some src) s1 /\ s3fifo s1 = put_queues (s3fifo s) sm mn.
Proof.
  intros HW He Hq Hlen src r s1 Hr.
  pose proof (tracked_remove_spec h (put_entries (popped s sm mn) (<[h := put_freq e 0]> (entries s)))) as Hs.
  rewrite Hr in Hs. simpl in Hs. rewrite lookup_insert_eq in Hs.
  destruct Hs as (-> & Hen & Hst & Hcfg & He2n & Hmem & _). rewrite delete_insert_eq in Hen.
  split; [by eexists|]. split; [|done]. split.
  - unfold W. rewrite Hen, Hst, Hmem. by apply (Wq_drop _ _ _ h e).
  - by rewrite Hcfg.
  - by rewrite Hst.
  - unfold queue_len in *. rewrite Hst. simpl. lia.
  - rewrite Hen, map_size_delete_Some by eauto. simpl.
    assert (size (entries s) <> 0%nat); [|lia].
    intros H0%map_size_empty_inv. rewrite H0 in He. done.
  - rewrite Hen. apply cools_delete.
  - done.
Qed.

Lemma evicts_add_ghost s r s1 h : evicts s r s1 -> evicts s r (add_ghost h s1).
Proof.
  intros [HW Hcfg Hcaps Hlen Hsz Hsh He].
  destruct (add_ghost_spec h (s3fifo s1)) as (Hok & Hgl & _ & Hsm & Hmn & Hc1 & Hc2 & Hc3).
  { split; [apply HW|apply (wq_ghost_set _ _ _ HW)]. }
  split; try done.
  - by apply Wq_add_ghost.
  - change (s3fifo (add_ghost h s1)) with (s3fifo_add_ghost h (s3fifo s1)).
    rewrite <- Hcaps. unfold caps. by rewrite Hc1, Hc2, Hc3.
  - unfold queue_len in *. change (s3fifo (add_ghost h s1)) with (s3fifo_add_ghost h (s3fifo s1)).
    by rewrite Hsm, Hmn.
Qed.

(** Popping a key that is no longer cached. *)
Lemma evicts_pop_gone s h sm mn :
  W s -> entries s !! h = None ->
  (forall h', h' <> h -> h' ∈ small (s3fifo s) \/ h' ∈ main (s3fifo s) -> h' ∈ sm \/ h' ∈ mn) ->
  (length sm + length mn <= queue_len s)%nat ->
  evicts s None (popped s sm mn).
Proof.
  intros HW Hn Hq Hlen. split; try done; auto using cools_refl.
  - apply Wq_requeue; [done|]. intros h' [e' He']. apply Hq. intros ->. simpl in He'. congruence.
  - unfold queue_len in *. simpl. lia.
Qed.

(** Re-queueing a hot key with its frequency reset. *)
Lemma evicts_requeue s h e sm mn :
  W s -> entries s !! h = Some e ->
  (forall h', h' ∈ small (s3fifo s) \/ h' ∈ main (s3fifo s) -> h' ∈ sm \/ h' ∈ mn) ->
  (length sm + length mn <= queue_len s)%nat ->
  evicts s None (popped (put_entries s (<[h := put_freq e 0]> (entries s))) sm mn).
Proof.
  intros HW He Hq Hlen. split; try done.
  - apply Wq_requeue; [|auto]. apply Wq_freq; [done..|lia].
  - unfold queue_len in *. simpl. lia.
  - simpl. rewrite map_size_insert_Some by eauto. lia.
  - apply cools_freq; [done|]. by apply (wq_freq _ _ _ HW h).
Qed.

(** ** The eviction loops *)

Lemma add_ghost_queues h st :
  small (s3fifo_add_ghost h st) = small st /\ main (s3fifo_add_ghost h st) = main st.
Proof.
  unfold s3fifo_add_ghost. destruct (while_fuel _ _ _ _) as [st1|] eqn:Hw; simpl; [|done].
  eapply (while_fuel_inv (fun x => small x = small st /\ main x = main st)); [|done|exact Hw].
  intros x [] _. destruct (ghost_pop_frame x) as (-> & -> & _). done.
Qed.

Lemma evict_small_loop_evicts n proms s r s' :
  W s -> evict_small_loop n proms s = (r, s') -> evicts s r s'.
Proof.
  revert proms s. induction n as [|n IH]; intros proms s HW; simpl.
  { intros [= <- <-]. by apply evicts_promotions, evicts_refl. }
  destruct (small (s3fifo s)) as [|h rest] eqn:Esm.
  { intros [= <- <-]. by apply evicts_refl. }
  set (s0 := put_s3fifo s (put_queues (s3fifo s) rest (main (s3fifo s)))).
  assert (Hlen : (length rest + length (main (s3fifo s)) < queue_len s)%nat)
    by (unfold queue_len; rewrite Esm; simpl; lia).
  assert (Hq : forall h', h' <> h -> h' ∈ small (s3fifo s) \/ h' ∈ main (s3fifo s) ->
                 h' ∈ rest \/ h' ∈ main (s3fifo s)).
  { intros h' Hne. rewrite Esm. rewrite elem_of_cons. tauto. }
  unfold read_and_reset_freq. change (entries s0) with (entries s).
  destruct (entries s !! h) as [e|] eqn:He.
  - destruct (freq e =? 0) eqn:Ef.
    + destruct (tracked_remove _ _) as [ro s1] eqn:Hr.
      destruct (remove_popped s h e rest _ HW He Hq Hlen FromSmall _ _ Hr) as ([x ->] & Hev & _).
      intros [= <- <-]. by apply evicts_promotions, evicts_add_ghost.
    + intros Hl. eapply evicts_trans; [|eapply IH; [|exact Hl]].
      * apply (evicts_requeue s h e); [done..| |].
        -- intros h'. rewrite Esm, elem_of_cons, elem_of_app, list_elem_of_singleton. naive_solver.
        -- simpl. rewrite length_app. simpl. unfold queue_len in *. lia.
      * eapply ev_W, (evicts_requeue s h e); [done..| |].
        -- intros h'. rewrite Esm, elem_of_cons, elem_of_app, list_elem_of_singleton. naive_solver.
        -- simpl. rewrite length_app. simpl. unfold queue_len in *. lia.
  - assert (evicts s None (add_ghost h s0)) as Hg
      by (apply evicts_add_ghost, (evicts_pop_gone s h); auto; lia).
    change (0 =? 0) with true. cbv iota.
    unfold tracked_remove. change (entries s0) with (entries s). rewrite He.
    intros Hl. eapply evicts_trans; [exact Hg|]. eapply IH; [apply Hg|exact Hl].
Qed.

Lemma evict_main_loop_evicts n s r s' :
  W s -> evict_main_loop n s = (r, s') -> evicts s r s'.
Proof.
  revert s. induction n as [|n IH]; intros s HW; simpl.
  { intros [= <- <-]. by apply evicts_refl. }
  destruct (main (s3fifo s)) as [|h rest] eqn:Emn.
  { intros [= <- <-]. by apply evicts_refl. }
  set (s0 := put_s3fifo s (put_queues (s3fifo s) (small (s3fifo s)) rest)).
  assert (Hlen : (length (small (s3fifo s)) + length rest < queue_len s)%nat)
    by (unfold queue_len; rewrite Emn; simpl; lia).
  assert (Hq : forall h', h' <> h -> h' ∈ small (s3fifo s) \/ h' ∈ main (s3fifo s) ->
                 h' ∈ small (s3fifo s) \/ h' ∈ rest).
  { intros h' Hne. rewrite Emn. rewrite elem_of_cons. tauto. }
  unfold read_and_reset_freq. change (entries s0) with (entries s).
  destruct (entries s !! h) as [e|] eqn:He.
  - destruct (freq e =? 0) eqn:Ef.
    + destruct (tracked_remove _ _) as [ro s1] eqn:Hr.
      destruct (remove_popped s h e _ rest HW He Hq Hlen FromMain _ _ Hr) as ([x ->] & Hev & _).
      by intros [= <- <-].
    + assert (evicts s None (popped (put_entries s (<[h := put_freq e 0]> (entries s)))
                (small (s3fifo s)) (rest ++ [h]))) as Hg.
      { apply (evicts_requeue s h e); [done..| |].
        - intros h'. rewrite Emn, elem_of_cons, elem_of_app, list_elem_of_singleton. naive_solver.
        - rewrite length_app. simpl. lia. }
      intros Hl. eapply evicts_trans; [exact Hg|]. eapply IH; [apply Hg|exact Hl].
  - assert (evicts s None s0) as Hg by (apply (evicts_pop_gone s h); auto; lia).
    change (0 =? 0) with true. cbv iota.
    unfold tracked_remove. change (entries s0) with (entries s). rewrite He.
    intros Hl. eapply evicts_trans; [exact Hg|]. eapply IH; [apply Hg|exact Hl].
Qed.

Lemma evict_one_evicts s r s' : W s -> s3fifo_evict_one s = (r, s') -> evicts s r s'.
Proof.
  intros HW. unfold s3fifo_evict_one, s3fifo_evict_from_small, s3fifo_evict_from_main.
  destruct (is_empty_q (small (s3fifo s))) eqn:Esm; simpl.
  - destruct (is_empty_q (main (s3fifo s))); simpl; [|by apply evict_main_loop_evicts].
    intros [= <- <-]. by apply evicts_refl.
  - destruct (evict_small_loop _ _ _) as [r1 s1] eqn:Hs.
    apply evict_small_loop_evicts in Hs; [|done].
    destruct r1 as [src|]; [by intros [= <- <-]|].
    destruct (is_empty_q (main (s3fifo s1))); simpl; [by intros [= <- <-]|].
    intros Hm%evict_main_loop_evicts; [|apply Hs]. by eapply evicts_trans.
Qed.

Lemma evict_one_memory_eq s : s3fifo_evict_one_memory s = s3fifo_evict_one s.
Proof. done. Qed.

(** A cold cached key in the small queue makes the attempt succeed. *)
Lemma evict_small_cold n proms s h e :
  n = length (small (s3fifo s)) -> h ∈ small (s3fifo s) ->
  entries s !! h = Some e -> freq e = 0 ->
  exists src s', evict_small_loop n proms s = (Some src, s').
Proof.
  revert proms s. induction n as [|n IH]; intros proms s Hn Hin He Hf.
  { destruct (small (s3fifo s)); [by apply elem_of_nil in Hin|done]. }
  simpl. destruct (small (s3fifo s)) as [|h0 rest] eqn:Esm; [done|].
  simpl in Hn. injection Hn as Hn.
  unfold read_and_reset_freq. simpl.
  destruct (entries s !! h0) as [e0|] eqn:He0.
  - destruct (freq e0 =? 0) eqn:Ef0.
    + unfold tracked_remove. simpl. rewrite lookup_insert_eq. eauto.
    + reflect_Z. apply IH; simpl; try done.
      * apply elem_of_cons in Hin as [->|Hin]; [|done]. congruence.
      * rewrite lookup_insert_ne; [done|]. intros ->. congruence.
  - simpl. unfold tracked_remove. simpl. rewrite He0.
    destruct (add_ghost_queues h0 (put_queues (s3fifo s) rest (main (s3fifo s)))) as [Hgs Hgm].
    apply IH.
    + rewrite Hn. f_equal. symmetry. exact Hgs.
    + change (h ∈ small (s3fifo_add_ghost h0 (put_queues (s3fifo s) rest (main (s3fifo s))))).
      rewrite Hgs. apply elem_of_cons in Hin as [->|Hin]; [congruence|done].
    + done.
    + done.
Qed.

(** A failed pass over the small queue empties it and leaves other keys alone. *)
Lemma evict_small_none n proms s s' :
  n = length (small (s3fifo s)) -> evict_small_loop n proms s = (None, s') ->
  small (s3fifo s') = [] /\
  (forall h, h ∉ small (s3fifo s) -> entries s' !! h = entries s !! h) /\
  (forall h, h ∈ main (s3fifo s) -> h ∈ main (s3fifo s')).
Proof.
  revert proms s. induction n as [|n IH]; intros proms s Hn.
  { simpl. intros [= <-]. symmetry in Hn. apply nil_length_inv in Hn.
    unfold record_promotions. destruct (0 <? proms); by rewrite ?Hn. }
  simpl. destruct (small (s3fifo s)) as [|h0 rest] eqn:Esm; [done|].
  simpl in Hn. injection Hn as Hn. unfold read_and_reset_freq. simpl.
  destruct (entries s !! h0) as [e0|] eqn:He0.
  - destruct (freq e0 =? 0) eqn:Ef0.
    + unfold tracked_remove. simpl. by rewrite lookup_insert_eq.
    + intros Hl. apply IH in Hl as (Hs & He & Hm); [|done]. simpl in *.
      split; [done|]. split.
      * intros h Hh. rewrite not_elem_of_cons in Hh. rewrite He by tauto.
        by rewrite lookup_insert_ne by naive_solver.
      * intros h Hh. apply Hm, elem_of_app. by left.
  - simpl. unfold tracked_remove. simpl. rewrite He0. intros Hl.
    destruct (add_ghost_queues h0 (put_queues (s3fifo s) rest (main (s3fifo s)))) as [Hgs Hgm].
    apply IH in Hl as (Hs & He & Hm); [|rewrite Hn; f_equal; symmetry; exact Hgs].
    split; [done|]. split.
    + intros h Hh. rewrite not_elem_of_cons in Hh. rewrite He; [done|].
      change (h ∉ small (s3fifo_add_ghost h0 (put_queues (s3fifo s) rest (main (s3fifo s))))).
      rewrite Hgs. tauto.
    + intros h Hh. apply Hm.
      change (h ∈ main (s3fifo_add_ghost h0 (put_queues (s3fifo s) rest (main (s3fifo s))))).
      by rewrite Hgm.
Qed.

Lemma evict_main_cold n s h e :
  h ∈ take n (main (s3fifo s)) -> entries s !! h = Some e -> freq e = 0 ->
  exists src s', evict_main_loop n s = (Some src, s').
Proof.
  revert s. induction n as [|n IH]; intros s Hin He Hf; [by apply elem_of_nil in Hin|].
  simpl in *. destruct (main (s3fifo s)) as [|h0 rest] eqn:Emn; [by apply elem_of_nil in Hin|].
  unfold read_and_reset_freq. simpl.
  destruct (entries s !! h0) as [e0|] eqn:He0.
  - destruct (freq e0 =? 0) eqn:Ef0.
    + unfold tracked_remove. simpl. rewrite lookup_insert_eq. eauto.
    + reflect_Z. apply IH; simpl; try done.
      * apply elem_of_cons in Hin as [->|Hin]; [congruence|].
        rewrite take_app. set_solver.
      * rewrite lookup_insert_ne; [done|]. intros ->. congruence.
  - simpl. unfold tracked_remove. simpl. rewrite He0. apply IH; simpl; try done.
    apply elem_of_cons in Hin as [->|Hin]; [congruence|done].
Qed.

(** A cold cached key anywhere in the queues makes [s3fifo_evict_one] succeed. *)
Lemma evict_one_cold s h e :
  h ∈ small (s3fifo s) \/ h ∈ main (s3fifo s) -> entries s !! h = Some e -> freq e = 0 ->
  exists src s', s3fifo_evict_one s = (Some src, s').
Proof.
  intros Hin He Hf. unfold s3fifo_evict_one, s3fifo_evict_from_small, s3fifo_evict_from_main.
  destruct (decide (h ∈ small (s3fifo s))) as [Hs|Hs].
  - destruct (evict_small_cold _ 0 s h e eq_refl Hs He Hf) as (src & s' & Hl).
    destruct (small (s3fifo s)) as [|h0 r] eqn:Esm; [by apply elem_of_nil in Hs|].
    simpl is_empty_q. cbn [negb]. rewrite Hl. eauto.
  - destruct Hin as [|Hin]; [done|].
    assert (Hfin : forall s', entries s' !! h = Some e -> h ∈ main (s3fifo s') ->
      exists src s2, (if negb (is_empty_q (main (s3fifo s')))
        then evict_main_loop (length (main (s3fifo s'))) s' else (None, s')) = (Some src, s2)).
    { intros s' He' Hin'. destruct (main (s3fifo s')) as [|h0 r] eqn:Em; [by apply elem_of_nil in Hin'|].
      simpl is_empty_q. cbn [negb]. apply (evict_main_cold _ _ h e); [|done..].
      rewrite Em. by rewrite take_ge. }
    destruct (is_empty_q (small (s3fifo s))) eqn:Esm; cbn [negb]; [by apply Hfin|].
    destruct (evict_small_loop _ _ _) as [[src|] s1] eqn:Hl; [eauto|].
    destruct (evict_small_none _ _ _ _ eq_refl Hl) as (_ & Hk & Hm).
    apply Hfin; [by rewrite Hk|auto].
Qed.

(** ** Repeated evictions *)

(** The state only lost entries and queue slots. *)
Record reduces s s' : Prop := {
  rd_W : W s';
  rd_cfg : cfg s' = cfg s;
  rd_caps : caps (s3fifo s') = caps (s3fifo s);
  rd_len : (queue_len s' <= queue_len s)%nat;
  rd_size : (size (entries s') <= size (entries s))%nat;
  rd_cools : cools (entries s) (entries s');
  rd_e2n : exact_to_normalized s' ⊆ exact_to_normalized s
}.

Lemma reduces_refl s : W s -> reduces s s.
Proof. intros. by split; auto using cools_refl. Qed.
Lemma reduces_trans s s1 s2 : reduces s s1 -> reduces s1 s2 -> reduces s s2.
Proof.
  intros [] []. split; eauto using cools_trans; try congruence; try lia. by etrans.
Qed.
Lemma evicts_reduces s r s' : evicts s r s' -> reduces s s'.
Proof. intros []. split; auto; lia. Qed.
Lemma reduces_stats s s1 f : reduces s s1 -> reduces s (upd_stats s1 f).
Proof. intros []. by split. Qed.

Lemma evict_while_reduces fuel cond se me s se' me' s' :
  W s -> evict_while fuel cond s3fifo_evict_one se me s = (se', me', s') -> reduces s s'.
Proof.
  revert se me s. induction fuel as [|fuel IH]; intros se me s HW; simpl.
  { intros [= _ _ <-]. by apply reduces_refl. }
  destruct (cond s); [|intros [= _ _ <-]; by apply reduces_refl].
  destruct (s3fifo_evict_one s) as [[[]|] s1] eqn:Ho;
    apply evict_one_evicts in Ho; try done; pose proof (evicts_reduces _ _ _ Ho) as Hr.
  - intros Hl. eapply reduces_trans; [done|]. eapply IH; [apply Ho|done].
  - intros Hl. eapply reduces_trans; [done|]. eapply IH; [apply Ho|done].
  - by intros [= _ _ <-].
Qed.

(** With as much fuel as there are queued keys, the loop ends because its
    condition fails or because no entry could be evicted. *)
Lemma evict_while_exit fuel cond se me s se' me' s' :
  W s -> (queue_len s <= fuel)%nat ->
  evict_while fuel cond s3fifo_evict_one se me s = (se', me', s') ->
  cond s' = false \/ exists s0, s3fifo_evict_one s0 = (None, s').
Proof.
  revert se me s. induction fuel as [|fuel IH]; intros se me s HW Hf; simpl.
  { intros [= _ _ <-]. right. exists s. unfold queue_len in Hf.
    destruct (s3fifo s) as [[|] [|] ? ? ? ? ?] eqn:Es; simpl in Hf; try lia.
    unfold s3fifo_evict_one. rewrite Es. simpl. by rewrite Es. }
  destruct (cond s) eqn:Ec; [|intros [= _ _ <-]; by left].
  destruct (s3fifo_evict_one s) as [r s1] eqn:Ho. pose proof (evict_one_evicts _ _ _ HW Ho) as Hev.
  destruct r as [src|]; [|intros [= _ _ <-]; eauto].
  pose proof (ev_len _ _ _ Hev) as Hl. simpl in Hl.
  assert (W s1 /\ (queue_len s1 <= fuel)%nat) as [? ?] by (split; [apply Hev|lia]).
  destruct src; eauto.
Qed.

(** ** Admission *)

(** Capacities are sane and add up to [N]. *)
Definition cap_ok (N : Z) st : Prop :=
  small_capacity st + main_capacity st = N /\ N < usize_max.

Definition inv (N : Z) s : Prop := W s /\ cap_ok N (s3fifo s) /\ Z.of_nat (queue_len s) <= N.

Lemma cap_ok_caps N st st' : caps st' = caps st -> cap_ok N st -> cap_ok N st'.
Proof. unfold caps, cap_ok. intros [= -> -> _]. done. Qed.

Lemma reduces_inv N s s' : inv N s -> reduces s s' -> inv N s'.
Proof.
  intros (HW & Hc & Hl) Hr. split; [apply Hr|]. split; [by eapply cap_ok_caps, Hc; apply Hr|].
  pose proof (rd_len _ _ Hr). lia.
Qed.

Lemma over_capacity_false N s :
  cap_ok N (s3fifo s) -> over_capacity s = false <-> Z.of_nat (queue_len s) <= N.
Proof.
  intros [HN Hm]. unfold over_capacity, sat_add, queue_len, zlen. rewrite HN.
  unfold usize_max in Hm. rewrite Z.ltb_ge, Nat2Z.inj_add. lia.
Qed.

Lemma Wq_push m st mem h e sm mn g gs :
  Wq m st mem -> m !! h = None -> freq e = 0 -> 
  (forall h', h' = h \/ h' ∈ small st \/ h' ∈ main st -> h' ∈ sm \/ h' ∈ mn) ->
  zlen g <= ghost_capacity st -> (forall h', h' ∈ gs -> h' ∈ g) ->
  Wq (<[h := e]> m) (put_queues (put_ghost st g gs) sm mn) (wrap 64 (mem + approximate_size e)).
Proof.
  intros [Hc Hm Hf Hg Hgs Hcap] Hn Hfe Hq Hlen Hset. split; simpl; try done.
  - intros h'. rewrite lookup_insert. case_decide; intros Hh'; apply Hq; auto.
  - rewrite Hm, wrap_add_l, msum_insert_new by done. f_equal. lia.
  - intros h' e'. rewrite lookup_insert. case_decide; intros; simplify_eq; [lia|eauto].
Qed.

Lemma filter_zlen {A} (f : A -> bool) l : zlen (List.filter f l) <= zlen l.
Proof. unfold zlen. pose proof (List.filter_length_le f l). lia. Qed.

(** The queues right after the push, before any eviction. *)
Definition push_state h st : S3FifoState :=
  let was_ghost := bool_decide (h ∈ ghost_set st) in
  let st := put_ghost st (ghost st) (ghost_set st ∖ {[h]}) in
  if was_ghost
  then put_queues (put_ghost st (List.filter (fun h' => negb (bool_decide (h' = h))) (ghost st))
                     (ghost_set st)) (small st) (main st ++ [h])
  else put_queues st (small st ++ [h]) (main st).

Lemma push_state_spec m st mem h e :
  Wq m st mem -> m !! h = None -> freq e = 0 ->
  Wq (<[h := e]> m) (push_state h st) (wrap 64 (mem + approximate_size e)) /\
  (h ∈ small (push_state h st) \/ h ∈ main (push_state h st)) /\
  (length (small (push_state h st)) + length (main (push_state h st)) =
     S (length (small st) + length (main st)))%nat /\
  caps (push_state h st) = caps st.
Proof.
  intros HW Hn Hf. unfold push_state. pose proof (wq_ghost_len _ _ _ HW).
  pose proof (wq_ghost_set _ _ _ HW) as Hgs.
  destruct (bool_decide (h ∈ ghost_set st)) eqn:Eg; simpl; split_and!; try done.
  - change (put_queues _ _ _) with
      (put_queues (put_ghost st (List.filter (fun h' => negb (bool_decide (h' = h))) (ghost st))
                     (ghost_set st ∖ {[h]})) (small st) (main st ++ [h])).
    apply Wq_push; try done.
    + intros h'. rewrite elem_of_app, list_elem_of_singleton. tauto.
    + etrans; [apply filter_zlen|done].
    + intros h' [Hh' Hne]%elem_of_difference. apply list_elem_of_In, filter_In.
      split; [apply list_elem_of_In; auto|].
      rewrite bool_decide_eq_false_2; [done|]. set_solver.
  - right. apply elem_of_app. right. by apply list_elem_of_singleton.
  - rewrite length_app. simpl. lia.
  - apply Wq_push; try done.
    + intros h'. rewrite elem_of_app, list_elem_of_singleton. tauto.
    + intros h' [Hh' _]%elem_of_difference. auto.
  - left. apply elem_of_app. right. by apply list_elem_of_singleton.
  - rewrite length_app. simpl. lia.
Qed.

Lemma admit_spec N h e s m0 mem0 :
  Wq m0 (s3fifo s) mem0 -> m0 !! h = None -> entries s = <[h := e]> m0 ->
  total_memory_bytes s = wrap 64 (mem0 + approximate_size e) -> freq e = 0 ->
  cap_ok N (s3fifo s) -> Z.of_nat (queue_len s) <= N ->
  inv N (s3fifo_admit h s) /\ shrinks (entries s) (entries (s3fifo_admit h s)) /\
  cfg (s3fifo_admit h s) = cfg s /\
  exact_to_normalized (s3fifo_admit h s) ⊆ exact_to_normalized s.
Proof.
  intros HW Hn Hen Hmem Hf Hcap Hlen.
  destruct (push_state_spec _ _ _ h e HW Hn Hf) as (HW1 & Hin & Hl1 & Hc1).
  rewrite <- Hen, <- Hmem in HW1.
  set (s1 := put_s3fifo s (push_state h (s3fifo s))).
  assert (HWs1 : W s1) by exact HW1.
  assert (Hcap1 : cap_ok N (s3fifo s1)) by (by eapply cap_ok_caps, Hcap).
  assert (Hq1 : queue_len s1 = S (queue_len s)) by exact Hl1.
  assert (Hred : forall se me s2,
    evict_while (queue_len s1) over_capacity s3fifo_evict_one 0 0 s1 = (se, me, s2) ->
    reduces s1 s2 /\ inv N s2).
  { rewrite Hq1. intros se me s2. simpl. destruct (over_capacity s1) eqn:Eo.
    - destruct (evict_one_cold s1 h e) as (src & s' & Ho);
        [exact Hin|simpl; by rewrite Hen, lookup_insert_eq|done|].
      rewrite Ho. apply evict_one_evicts in Ho; [|done].
      assert (inv N s') as Hi.
      { split; [apply Ho|]. split; [by eapply cap_ok_caps, Hcap1; apply Ho|].
        pose proof (ev_len _ _ _ Ho). simpl in *. lia. }
      intros Hl. assert (reduces s' s2) as Hr
        by (destruct src; eapply evict_while_reduces; try exact Hl; apply Hi).
      split; [eapply reduces_trans; [by eapply evicts_reduces|done]|by eapply reduces_inv].
    - intros [= _ _ <-]. split; [by apply reduces_refl|]. split; [done|]. split; [done|].
      by apply (over_capacity_false N s1 Hcap1). }
  unfold s3fifo_admit. fold (push_state h (s3fifo s)). fold s1.
  destruct (evict_while (queue_len s1) over_capacity s3fifo_evict_one 0 0 s1) as [[se me] s2].
  destruct (Hred se me s2 eq_refl) as [Hr2 Hi2].
  assert (Hmem2 : forall se' me' s3,
    (if 0 <? max_memory_bytes s2
     then evict_while (queue_len s2) (over_memory (max_memory_bytes s2)) s3fifo_evict_one_memory se me s2
     else (se, me, s2)) = (se', me', s3) -> reduces s2 s3).
  { intros se' me' s3. destruct (0 <? max_memory_bytes s2).
    - apply evict_while_reduces, Hi2.
    - intros [= _ _ <-]. apply reduces_refl, Hi2. }
  destruct (if 0 <? max_memory_bytes s2 then _ else _) as [[se' me'] s3].
  specialize (Hmem2 se' me' s3 eq_refl).
  assert (Hr3 : reduces s1 s3) by (by eapply reduces_trans).
  match goal with |- context [if ?b then upd_stats s3 ?f else s3] =>
    assert (Hr4 : reduces s1 (if b then upd_stats s3 f else s3))
      by (destruct b; [by apply reduces_stats|done]);
    assert (Hi4 : inv N (if b then upd_stats s3 f else s3))
      by (eapply reduces_inv; [exact Hi2|]; destruct b; [by apply reduces_stats|done])
  end.
  split_and!; [exact Hi4|apply cools_shrinks, Hr4|by rewrite (rd_cfg _ _ Hr4)|apply Hr4].
Qed.
End CacheInv.
