(* ===== verification/CacheReach.v ===== *)
(** * Reachable states of the cache store

    Every public operation of [CacheStore] preserves the invariant [inv]; the
    states reachable from a freshly constructed store therefore satisfy it. *)

From Stdlib Require Import SpecFloat.
From S2P Require Import Prelude Floats Text Types Cdc Cache CacheInv.
Open Scope Z_scope.
Open Scope conproxy_scope.

Section CacheReach.
Context `{E : CacheEnv} {L : CacheEnvLaws E}.
Implicit Types (s : CacheStore) (h : QueryHash) (e : CacheEntry) (clk : Clock).

Lemma inv_ext N s s' :
  entries s' = entries s -> s3fifo s' = s3fifo s -> total_memory_bytes s' = total_memory_bytes s ->
  inv N s -> inv N s'.
Proof. unfold inv, W, queue_len. by intros -> -> ->. Qed.

Lemma emit_frame clk ty b s :
  entries (emit clk ty b s) = entries s /\ s3fifo (emit clk ty b s) = s3fifo s /\
  total_memory_bytes (emit clk ty b s) = total_memory_bytes s /\
  exact_to_normalized (emit clk ty b s) = exact_to_normalized s.
Proof. unfold emit. by destruct (cdc_sender s). Qed.

Lemma inv_emit N clk ty b s : inv N s -> inv N (emit clk ty b s).
Proof. destruct (emit_frame clk ty b s) as (? & ? & ? & _). by apply inv_ext. Qed.

Lemma inv_stats N s f : inv N s -> inv N (upd_stats s f).
Proof. by apply inv_ext. Qed.

Lemma inv_if N s s' (b : bool) : inv N s -> inv N s' -> inv N (if b then s else s').
Proof. by destruct b. Qed.

Create HintDb cache_inv.
#[local] Hint Resolve inv_emit inv_stats inv_if : cache_inv.

(** ** Lookups *)

Lemma bumped_range v : 0 <= v <= 3 -> 0 <= bumped v <= 3.
Proof. unfold bumped, sat_add, u_max. lia. Qed.

Lemma inv_bump N h s : inv N s -> inv N (bump_freq h s).
Proof.
  unfold bump_freq. destruct (entries s !! h) as [e|] eqn:He; [|done].
  intros (HW & Hc & Hl). split; [|done]. apply Wq_freq; [done..|].
  apply bumped_range. eapply wq_freq; [exact HW|done].
Qed.

Lemma inv_put_exact_hits N s v : inv N s -> inv N (put_exact_hits s v).
Proof. by apply inv_ext. Qed.
Lemma inv_put_normalized_hits N s v : inv N s -> inv N (put_normalized_hits s v).
Proof. by apply inv_ext. Qed.
Lemma inv_put_e2n N s v : inv N s -> inv N (put_exact_to_normalized s v).
Proof. by apply inv_ext. Qed.
#[local] Hint Resolve inv_bump inv_put_exact_hits inv_put_normalized_hits inv_put_e2n : cache_inv.

Lemma inv_get N q s : inv N s -> inv N (snd (get q s)).
Proof.
  intros Hi. unfold get, get_two_tier.
  destruct (normalized_matching s); [destruct (tier1 q s) as [[nh e]|]|];
    try destruct (entries s !! hash_query q) eqn:?; simpl; auto with cache_inv.
Qed.

Lemma inv_get_with_hit_type N q s : inv N s -> inv N (snd (get_with_hit_type q s)).
Proof.
  intros Hi. unfold get_with_hit_type.
  destruct (normalized_matching s); cbn [negb]; [destruct (tier1 q s) as [[nh e]|]|];
    try destruct (entries s !! hash_query q) eqn:?; simpl; auto with cache_inv.
Qed.

Lemma inv_get_by_hash N h s : inv N s -> inv N (snd (get_by_hash h s)).
Proof.
  intros Hi. unfold get_by_hash. destruct (entries s !! h); simpl; auto with cache_inv.
Qed.

(** ** Removals *)

Lemma reduces_tracked_remove h s : W s -> reduces s (snd (tracked_remove h s)).
Proof.
  intros HW. pose proof (W_remove h s HW) as HW'. pose proof (tracked_remove_spec h s) as Hs.
  destruct (tracked_remove h s) as [r s']. simpl in *.
  destruct Hs as (_ & He & Hst & Hcfg & He2n & _). split; try done.
  - by rewrite Hst.
  - unfold queue_len. by rewrite Hst.
  - rewrite He. apply map_size_delete_le || (destruct (entries s !! h) eqn:Eh;
      [rewrite map_size_delete_Some by eauto; lia|by rewrite delete_id]).
  - rewrite He. apply cools_delete.
Qed.

Lemma inv_tracked_remove N h s : inv N s -> inv N (snd (tracked_remove h s)).
Proof. intros Hi. eapply reduces_inv; [exact Hi|]. apply reduces_tracked_remove, Hi. Qed.

Lemma reduces_remove_all hs s : W s -> reduces s (snd (remove_all hs s)).
Proof.
  revert s. induction hs as [|h hs IH]; intros s HW; simpl; [by apply reduces_refl|].
  pose proof (reduces_tracked_remove h s HW) as Hr.
  destruct (tracked_remove h s) as [[e|] s1]; simpl in *.
  - pose proof (IH s1 (rd_W _ _ Hr)) as Hr2.
    destruct (remove_all hs s1) as [es s2]. simpl in *. by eapply reduces_trans.
  - eapply reduces_trans; [done|]. by apply IH, Hr.
Qed.

Lemma inv_remove_all N hs s : inv N s -> inv N (snd (remove_all hs s)).
Proof. intros Hi. eapply reduces_inv; [exact Hi|]. apply reduces_remove_all, Hi. Qed.

Lemma inv_get_verified N q s : inv N s -> inv N (snd (get_verified q s)).
Proof.
  intros Hi. unfold get_verified. destruct (entries s !! hash_query q) as [e|] eqn:He; [|done].
  match goal with |- context [if ?b then _ else _] => destruct b end; simpl; auto with cache_inv.
  pose proof (inv_tracked_remove N (hash_query q) s Hi).
  destruct (tracked_remove _ _). simpl in *. auto with cache_inv.
Qed.

Lemma inv_remove N clk q s : inv N s -> inv N (remove clk q s).
Proof.
  intros Hi. unfold remove. pose proof (inv_tracked_remove N (hash_query q) s Hi).
  destruct (tracked_remove _ _). simpl in *. auto with cache_inv.
Qed.

Lemma inv_fold_emit N clk removed s :
  inv N s ->
  inv N (fold_left (fun s e => match query_text e with
                               | Some q => emit clk Remove (builder_remove q) s
                               | None => s
                               end) removed s).
Proof.
  revert s. induction removed as [|e es IH]; intros s Hi; simpl; [done|].
  apply IH. destruct (query_text e); auto with cache_inv.
Qed.

Lemma inv_evict_from_upstream N clk u n s : inv N s -> inv N (snd (evict_from_upstream clk u n s)).
Proof.
  intros Hi. unfold evict_from_upstream. destruct (n =? 0); [done|].
  match goal with |- context [remove_all ?l s] => pose proof (inv_remove_all N l s Hi) as Hr;
    destruct (remove_all l s) as [removed s1] end. simpl in *.
  assert (Hi2 : inv N (match cdc_sender s1 with
     | Some _ => fold_left (fun s e => match query_text e with
                                       | Some q => emit clk Remove (builder_remove q) s
                                       | None => s
                                       end) removed s1
     | None => s1 end)) by (destruct (cdc_sender s1); auto using inv_fold_emit).
  auto with cache_inv.
Qed.

Lemma inv_enforce_per_upstream_limit N clk u n s :
  inv N s -> inv N (snd (enforce_per_upstream_limit clk u n s)).
Proof.
  intros Hi. unfold enforce_per_upstream_limit. destruct (_ <=? _); [done|].
  by apply inv_evict_from_upstream.
Qed.

Lemma inv_check_upstream_limit N clk u s : inv N s -> inv N (check_upstream_limit clk u s).
Proof.
  intros Hi. unfold check_upstream_limit. destruct (per_upstream_limit s); [|done].
  destruct (_ <=? _); [|done]. pose proof (inv_evict_from_upstream N clk u 1 s Hi).
  destruct (evict_from_upstream _ _ _ _). simpl in *. auto with cache_inv.
Qed.

Lemma inv_evict_truly_expired N clk s : inv N s -> inv N (snd (evict_truly_expired clk s)).
Proof.
  intros Hi. unfold evict_truly_expired.
  match goal with |- context [remove_all ?l s] => pose proof (inv_remove_all N l s Hi) as Hr;
    destruct (remove_all l s) as [removed s1] end. simpl in *. auto with cache_inv.
Qed.

Lemma inv_evict_filter N clk c p o m s : inv N s -> inv N (snd (evict_filter clk c p o m s)).
Proof.
  intros Hi. unfold evict_filter.
  match goal with |- context [remove_all ?l s] => pose proof (inv_remove_all N l s Hi) as Hr;
    destruct (remove_all l s) as [removed s1] end. simpl in *. auto with cache_inv.
Qed.

Lemma inv_remove_corrupted N s : inv N s -> inv N (snd (remove_corrupted s)).
Proof.
  intros Hi. unfold remove_corrupted.
  match goal with |- context [remove_all ?l s] => pose proof (inv_remove_all N l s Hi) as Hr;
    destruct (remove_all l s) as [removed s1] end. done.
Qed.

Lemma reduces_evict_expired_loop hs t n s : W s -> reduces s (snd (evict_expired_loop hs t n s)).
Proof.
  revert n s. induction hs as [|h hs IH]; intros n s HW; simpl; [by apply reduces_refl|].
  destruct (t <=? n); [by apply reduces_refl|].
  pose proof (reduces_tracked_remove h s HW) as Hr.
  destruct (tracked_remove h s) as [[e|] s1]; simpl in *;
    (eapply reduces_trans; [done|]; by apply IH, Hr).
Qed.

Lemma reduces_evict_n n c s : W s -> reduces s (snd (evict_n n c s)).
Proof.
  revert c s. induction n as [|n IH]; intros c s HW; simpl; [by apply reduces_refl|].
  destruct (_ && _); [by apply reduces_refl|].
  destruct (s3fifo_evict_one s) as [r s1] eqn:Ho.
  pose proof (evicts_reduces _ _ _ (evict_one_evicts _ _ _ HW Ho)) as Hr.
  destruct r; (eapply reduces_trans; [done|]; by apply IH, Hr).
Qed.

Lemma inv_evict_smart N clk n s s' : inv N s -> evict_smart clk n s = Ret s' -> inv N s'.
Proof.
  intros Hi. unfold evict_smart. destruct (dur_add _ _) as [t|]; simpl; [|done].
  match goal with |- context [evict_expired_loop ?l n 0 s] =>
    pose proof (reduces_evict_expired_loop l n 0 s (proj1 Hi)) as Hr;
    destruct (evict_expired_loop l n 0 s) as [x s1] end. simpl in Hr.
  pose proof (reduces_inv _ _ _ Hi Hr) as Hi1.
  pose proof (reduces_evict_n (Z.to_nat (n -! x)) 0 s1 (proj1 Hi1)) as Hr2.
  destruct (x <? n); [destruct (evict_n _ 0 s1) as [y s2]; simpl in Hr2|]; intros [= <-].
  - apply inv_if; [apply inv_stats|]; by eapply reduces_inv.
  - auto with cache_inv.
Qed.

Lemma inv_enforce_memory_limit N s : inv N s -> inv N (snd (enforce_memory_limit s)).
Proof.
  intros Hi. unfold enforce_memory_limit. destruct (_ =? 0); [done|].
  destruct (evict_while _ _ _ _ _ _) as [[se me] s1] eqn:Hl. simpl.
  apply evict_while_reduces in Hl; [|apply Hi].
  pose proof (reduces_inv _ _ _ Hi Hl). auto with cache_inv.
Qed.

Lemma inv_wipe N s : inv N s -> inv N (wipe s).
Proof.
  intros (HW & [Hc Hm] & Hl). split; [|split; [done|]].
  - split; simpl; try done; try apply HW.
    + intros h [e He]. by rewrite lookup_empty in He.
    + pose proof (wq_caps _ _ _ HW). unfold zlen. simpl. lia.
  - unfold queue_len in *. simpl. lia.
Qed.

Lemma inv_update_config_fingerprint N u ss s :
  inv N s -> inv N (snd (update_config_fingerprint u ss s)).
Proof.
  intros Hi. unfold update_config_fingerprint. destruct (_ && _); simpl.
  - apply inv_wipe. by apply (inv_ext N s).
  - by apply (inv_ext N s).
Qed.

(** ** Insertions *)

(** [tracked_insert] keeps the counter equal to the sum of the sizes. *)
Lemma tracked_insert_frame h e s :
  entries (tracked_insert h e s) = <[h := e]> (entries s) /\
  s3fifo (tracked_insert h e s) = s3fifo s /\ cfg (tracked_insert h e s) = cfg s /\
  exact_to_normalized (tracked_insert h e s) = exact_to_normalized s /\
  eviction_stats (tracked_insert h e s) = eviction_stats s.
Proof.
  unfold tracked_insert. destruct (entries s !! h) as [o|]; [destruct (_ <=? _)|]; done.
Qed.

Lemma tracked_insert_old_memory h e o s :
  entries s !! h = Some o ->
  total_memory_bytes (tracked_insert h e s) =
    wrap 64 (total_memory_bytes s - approximate_size o + approximate_size e).
Proof.
  intros Ho. unfold tracked_insert. rewrite Ho.
  destruct (approximate_size o <=? approximate_size e) eqn:Ec; reflect_Z; simpl; f_equal;
    unfold sat_sub; lia.
Qed.

Lemma tracked_insert_new_memory h e s :
  entries s !! h = None ->
  total_memory_bytes (tracked_insert h e s) = wrap 64 (total_memory_bytes s + approximate_size e).
Proof. intros Ho. unfold tracked_insert. by rewrite Ho. Qed.

Lemma Wq_update m st mem h o e :
  Wq m st mem -> m !! h = Some o -> 0 <= freq e <= 3 ->
  Wq (<[h := e]> m) st (wrap 64 (mem - approximate_size o + approximate_size e)).
Proof.
  intros [Hc Hm Hf Hg Hgs Hcap] Ho He. split; try done.
  - intros h'. rewrite lookup_insert. case_decide; subst; intros Hs; eauto.
  - rewrite (msum_insert_old _ _ _ o) by done. rewrite Hm.
    rewrite <- Z.add_sub_swap, <- Z.add_sub_assoc, wrap_add_l. f_equal. lia.
  - intros h' e'. rewrite lookup_insert. case_decide; intros; simplify_eq; eauto.
Qed.

Lemma inv_tracked_insert_old N h o e s :
  inv N s -> entries s !! h = Some o -> 0 <= freq e <= 3 -> inv N (tracked_insert h e s).
Proof.
  intros (HW & Hc & Hl) Ho He. destruct (tracked_insert_frame h e s) as (Hen & Hst & _).
  unfold inv, W, queue_len. rewrite Hen, Hst, (tracked_insert_old_memory h e o s Ho).
  split; [by apply Wq_update|done].
Qed.

(** [s'] is the result of inserting [e] under [h] into [s], with whatever
    mappings: admitted to the queues when the key is new. *)
Lemma inv_admit_if N h e s s' :
  inv N s -> freq e = 0 ->
  entries s' = entries (tracked_insert h e s) -> s3fifo s' = s3fifo s ->
  total_memory_bytes s' = total_memory_bytes (tracked_insert h e s) ->
  inv N (if negb (bool_decide (is_Some (entries s !! h))) then s3fifo_admit h s' else s').
Proof.
  intros Hi Hf He Hs Hm. destruct (tracked_insert_frame h e s) as (Hen & Hst & _).
  destruct (entries s !! h) as [o|] eqn:Ho.
  - rewrite bool_decide_eq_true_2 by eauto. simpl.
    apply (inv_ext N (tracked_insert h e s)); [done|by rewrite Hst|done|].
    eapply inv_tracked_insert_old; [done..|lia].
  - rewrite bool_decide_eq_false_2 by (by intros []). simpl.
    destruct Hi as (HW & Hc & Hl).
    apply (admit_spec N h e s' (entries s) (total_memory_bytes s)); try done.
    + rewrite Hs. exact HW.
    + by rewrite He.
    + by rewrite Hm, tracked_insert_new_memory.
    + by rewrite Hs.
    + unfold queue_len in *. by rewrite Hs.
Qed.

Lemma inv_insert_impl N clk q r u c s : inv N s -> inv N (insert_impl clk q r u c s).
Proof.
  intros Hi. unfold insert_impl. set (s1 := check_upstream_limit clk u s).
  assert (Hi1 : inv N s1) by (by apply inv_check_upstream_limit).
  match goal with |- context [tracked_insert ?h ?e s1] =>
    pose proof (tracked_insert_frame h e s1) as (Hen & Hst & _);
    pose proof (inv_admit_if N h e s1) as Hadm; set (s2 := tracked_insert h e s1) in * end.
  match goal with |- context [if _ then s3fifo_admit _ ?x else _] =>
    specialize (Hadm x Hi1 eq_refl); set (s3 := x) in * end.
  assert (Hi3 : inv N (if negb (bool_decide (is_Some (entries s1 !! hash_query q)))
                       then s3fifo_admit (hash_query q) s3 else s3)).
  { apply Hadm; unfold s3; destruct (normalized_matching s2); done. }
  destruct (cdc_sender s1); [destruct (serde_to_vec r)|]; auto with cache_inv.
Qed.

Lemma inv_insert_by_hash N clk h r u k s : inv N s -> inv N (insert_by_hash clk h r u k s).
Proof.
  intros Hi. unfold insert_by_hash. set (s1 := check_upstream_limit clk u s).
  assert (Hi1 : inv N s1) by (by apply inv_check_upstream_limit).
  match goal with |- context [tracked_insert ?h ?e s1] =>
    pose proof (tracked_insert_frame h e s1) as (Hen & Hst & _);
    pose proof (inv_admit_if N h e s1 (tracked_insert h e s1) Hi1 eq_refl eq_refl Hst eq_refl) as Hi3
  end.
  destruct (cdc_sender s1), k; try destruct (serde_to_vec r); auto with cache_inv.
Qed.

Lemma inv_warmup_loop N clk es u n s : inv N s -> inv N (snd (warmup_loop clk es u n s)).
Proof.
  revert n s. induction es as [|[q r] es IH]; intros n s Hi; simpl; [done|].
  destruct (is_ok _); simpl; [|by apply IH]. destruct (_ <=? _); [done|].
  apply IH, inv_admit_if with (e := new_entry clk r u (Some q) (lit "default")); try done.
  apply tracked_insert_frame.
Qed.

Lemma inv_extend_ttl N clk q s : inv N s -> inv N (extend_ttl clk q s).
Proof.
  intros Hi. unfold extend_ttl. destruct (entries s !! hash_query q) as [o|] eqn:Ho; [|done].
  eapply inv_tracked_insert_old; [done..|]. simpl. lia.
Qed.

Lemma inv_clear N clk s : inv N s -> inv N (clear clk s).
Proof. intros Hi. by apply inv_emit, inv_wipe. Qed.

(** ** The store as a transition system *)

(** The public operations that change the state, with their arguments. *)
Inductive op :=
| OGet (q : str)
| OGetWithHitType (q : str)
| OGetVerified (q : str)
| OGetByHash (h : QueryHash)
| OInsert (clk : Clock) (q : str) (r : QueryResponse) (u : str)
| OInsertWithContext (clk : Clock) (q : str) (r : QueryResponse) (u c : str)
| OInsertByHash (clk : Clock) (h : QueryHash) (r : QueryResponse) (u : str) (key : option str)
| OWarmup (clk : Clock) (es : list (str * QueryResponse)) (u : str)
| OExtendTtl (clk : Clock) (q : str)
| ORemove (clk : Clock) (q : str)
| OClear (clk : Clock)
| OUpdateConfigFingerprint (url : option str) (seeds : list str)
| OEvictSmart (clk : Clock) (n : Z)
| OEvictTrulyExpired (clk : Clock)
| OEvictFilter (clk : Clock) (c p : option str) (older max : option Z)
| OEvictFromUpstream (clk : Clock) (u : str) (n : Z)
| OEnforcePerUpstreamLimit (clk : Clock) (u : str) (n : Z)
| OEnforceMemoryLimit
| ORemoveCorrupted
| OSetPerUpstreamLimit (l : option Z)
| OSetMaxEntries (n : Z)
| OSetMaxMemoryBytes (n : Z)
| OSetFreshDuration (d : Z)
| OSetStaleDuration (d : Z)
| OSetMaxFrozenDuration (d : Z)
| OWithNormalizedMatching (b : bool)
| OWithCdcSender (x : EventSender).

Definition apply_op (o : op) (s : CacheStore) : outcome CacheStore :=
  match o with
  | OGet q => Ret (snd (get q s))
  | OGetWithHitType q => Ret (snd (get_with_hit_type q s))
  | OGetVerified q => Ret (snd (get_verified q s))
  | OGetByHash h => Ret (snd (get_by_hash h s))
  | OInsert clk q r u => Ret (insert clk q r u s)
  | OInsertWithContext clk q r u c => Ret (insert_with_context clk q r u c s)
  | OInsertByHash clk h r u k => Ret (insert_by_hash clk h r u k s)
  | OWarmup clk es u => Ret (snd (warmup clk es u s))
  | OExtendTtl clk q => Ret (extend_ttl clk q s)
  | ORemove clk q => Ret (remove clk q s)
  | OClear clk => Ret (clear clk s)
  | OUpdateConfigFingerprint url seeds => Ret (snd (update_config_fingerprint url seeds s))
  | OEvictSmart clk n => evict_smart clk n s
  | OEvictTrulyExpired clk => Ret (snd (evict_truly_expired clk s))
  | OEvictFilter clk c p o m => Ret (snd (evict_filter clk c p o m s))
  | OEvictFromUpstream clk u n => Ret (snd (evict_from_upstream clk u n s))
  | OEnforcePerUpstreamLimit clk u n => Ret (snd (enforce_per_upstream_limit clk u n s))
  | OEnforceMemoryLimit => Ret (snd (enforce_memory_limit s))
  | ORemoveCorrupted => Ret (snd (remove_corrupted s))
  | OSetPerUpstreamLimit l => Ret (set_per_upstream_limit l s)
  | OSetMaxEntries n => Ret (snd (set_max_entries n s))
  | OSetMaxMemoryBytes n => Ret (set_max_memory_bytes n s)
  | OSetFreshDuration d => Ret (set_fresh_duration d s)
  | OSetStaleDuration d => Ret (set_stale_duration d s)
  | OSetMaxFrozenDuration d => Ret (set_max_frozen_duration d s)
  | OWithNormalizedMatching b => Ret (with_normalized_matching b s)
  | OWithCdcSender x => Ret (with_cdc_sender x s)
  end.

Definition run_ops (os : list op) (s : CacheStore) : outcome CacheStore :=
  fold_left (fun acc o => let! s := acc in apply_op o s) os (Ret s).

(** States reachable from a store built with [max_entries = n] by operations
    that satisfy [P]. *)
Inductive reachable (P : op -> Prop) (n : Z) : CacheStore -> Prop :=
| reach_init fresh stale mem jit : reachable P n (CacheStore_with fresh stale n mem jit)
| reach_step s o s' : reachable P n s -> P o -> apply_op o s = Ret s' -> reachable P n s'.

Lemma inv_init fresh stale n mem jit :
  0 <= n < usize_max -> inv (Z.max 1 n) (CacheStore_with fresh stale n mem jit).
Proof.
  intros Hn. assert (0 <= n / 10 <= n) by (split; [apply Z.div_pos|apply Z.div_le_upper_bound]; lia).
  split; [|split].
  - split; simpl; try done.
    + intros h [e He]. by rewrite lookup_empty in He.
    + unfold zlen. simpl. lia.
    + lia.
  - split; simpl.
    + unfold sat_sub. lia.
    + unfold usize_max, u_max in *. lia.
  - unfold queue_len. simpl. lia.
Qed.

Lemma inv_apply_op N o s s' : inv N s -> apply_op o s = Ret s' -> inv N s'.
Proof.
  intros Hi. destruct o; simpl; try (intros [= <-]; by apply (inv_ext N s));
    lazymatch goal with
    | |- evict_smart _ _ _ = _ -> _ => by apply inv_evict_smart
    | |- _ => intros [= <-]
    end; unfold insert, insert_with_context, warmup, set_max_entries;
    auto using inv_get, inv_get_with_hit_type, inv_get_verified, inv_get_by_hash, inv_insert_impl,
      inv_insert_by_hash, inv_warmup_loop, inv_extend_ttl, inv_remove, inv_clear,
      inv_update_config_fingerprint, inv_evict_truly_expired, inv_evict_filter,
      inv_evict_from_upstream, inv_enforce_per_upstream_limit, inv_enforce_memory_limit,
      inv_remove_corrupted.
  destruct (_ =? 0); [done|by apply (inv_ext N s)].
Qed.

Lemma reachable_inv P n s : 0 <= n < usize_max -> reachable P n s -> inv (Z.max 1 n) s.
Proof. intros Hn. induction 1; eauto using inv_init, inv_apply_op. Qed.

Lemma reachable_run P n os s s' :
  Forall P os -> reachable P n s -> run_ops os s = Ret s' -> reachable P n s'.
Proof.
  intros HP Hr. revert s' HP. induction os as [|o os IH] using rev_ind; intros s' HP; unfold run_ops; simpl.
  { by intros [= <-]. }
  apply Forall_app in HP as [HP Ho]. apply Forall_inv in Ho.
  rewrite fold_left_app. simpl. fold (run_ops os s).
  destruct (run_ops os s) as [s1|] eqn:Hs; simpl; [|done].
  intros Hap. econstructor; [by apply IH|exact Ho|exact Hap].
Qed.

(** Every cached key sits in a queue, so the map is no larger than the queues. *)
Lemma inv_size N s : inv N s -> Z.of_nat (size (entries s)) <= N.
Proof.
  intros (HW & _ & Hl). etrans; [|exact Hl]. apply inj_le. rewrite <- size_dom.
  transitivity (size (list_to_set (small (s3fifo s) ++ main (s3fifo s)) : gset QueryHash)).
  - apply subseteq_size. intros h Hh. apply elem_of_list_to_set, elem_of_app.
    apply (wq_cov _ _ _ HW). by apply elem_of_dom.
  - unfold queue_len. rewrite <- length_app.
    generalize (small (s3fifo s) ++ main (s3fifo s)). intros l.
    induction l as [|x l IH]; simpl; [done|].
    rewrite size_union_alt, size_singleton.
    assert (size (list_to_set l ∖ {[x]} : gset QueryHash) <= size (list_to_set l : gset QueryHash))%nat.
    { apply subseteq_size. set_solver. }
    lia.
Qed.
End CacheReach.
