(* ===== verification/CacheSpec.v ===== *)
(** * What the cache promises: a lossy map

    The abstract cache ([AbsCache]) is the map a cache without capacity, time or
    queues would hold: the last response inserted under each key.  The store
    refines it: whatever a lookup returns is what the abstract cache holds.  The
    two-tier lookup (exact text first, normalized text second) is shown
    equivalent to the plain lookup by normalized hash. *)

From Stdlib Require Import SpecFloat.
From S2P Require Import Prelude Floats Text Types Cdc Cache CacheInv CacheReach.
Open Scope Z_scope.
Open Scope conproxy_scope.

Section CacheSpec.
Context `{E : CacheEnv} {L : CacheEnvLaws E}.
Implicit Types (s : CacheStore) (h : QueryHash) (e : CacheEntry) (clk : Clock).

(** The part of an entry a client sees; access counts and ages are not. *)
Definition Payload : Type := QueryResponse * str * option str * str.
Definition payload_of (e : CacheEntry) : Payload :=
  (response e, ce_upstream_id e, query_text e, context_id e).
Abbreviation AbsCache := (gmap QueryHash Payload).
Implicit Types (a : AbsCache).

Definition abs_warm (u : str) (a : AbsCache) (qr : str * QueryResponse) : AbsCache :=
  if is_ok (response_validate qr.2)
  then <[hash_query qr.1 := (qr.2, u, Some qr.1, lit "default")]> a else a.

(** One step of the abstract cache.  A warm-up may stop early (the store is
    full); a new configuration fingerprint may or may not invalidate. *)
Definition abs_step (o : op) (a a' : AbsCache) : Prop :=
  match o with
  | OInsert _ q r u => a' = <[hash_query q := (r, u, Some q, lit "default")]> a
  | OInsertWithContext _ q r u c => a' = <[hash_query q := (r, u, Some q, c)]> a
  | OInsertByHash _ h r u k => a' = <[h := (r, u, k, lit "default")]> a
  | OWarmup _ es u => exists n, a' = fold_left (abs_warm u) (take n es) a
  | ORemove _ q => a' = delete (hash_query q) a
  | OClear _ => a' = ∅
  | OUpdateConfigFingerprint _ _ => a' = a \/ a' = ∅
  | _ => a' = a
  end.

(** The store holds a part of the abstract cache. *)
Definition refines s a : Prop :=
  forall h e, entries s !! h = Some e -> a !! h = Some (payload_of e).

(** ** Operations that only lose entries *)

Definition lossy s s' : Prop :=
  shrinks (entries s) (entries s') /\ exact_to_normalized s' ⊆ exact_to_normalized s.

Lemma lossy_refl s : lossy s s.
Proof. split; [apply shrinks_refl|done]. Qed.
Lemma lossy_trans s s1 s2 : lossy s s1 -> lossy s1 s2 -> lossy s s2.
Proof. intros [] []. split; [by eapply shrinks_trans|by etrans]. Qed.
Lemma lossy_reduces s s' : reduces s s' -> lossy s s'.
Proof. intros []. split; [by apply cools_shrinks|done]. Qed.
Lemma lossy_ext s s1 s2 :
  lossy s s1 -> entries s2 = entries s1 -> exact_to_normalized s2 = exact_to_normalized s1 -> lossy s s2.
Proof. unfold lossy. by intros ? -> ->. Qed.
Lemma lossy_emit clk ty b s s1 : lossy s s1 -> lossy s (emit clk ty b s1).
Proof. intros Hl. destruct (emit_frame clk ty b s1) as (? & _ & _ & ?). by eapply lossy_ext. Qed.
Lemma lossy_stats f s s1 : lossy s s1 -> lossy s (upd_stats s1 f).
Proof. intros Hl. by eapply lossy_ext. Qed.
Lemma lossy_if (b : bool) s s1 s2 : lossy s s1 -> lossy s s2 -> lossy s (if b then s1 else s2).
Proof. by destruct b. Qed.
Lemma lossy_bump h s : lossy s (bump_freq h s).
Proof.
  unfold bump_freq. destruct (entries s !! h) as [e|] eqn:He; [|apply lossy_refl].
  split; [by apply shrinks_freq|done].
Qed.
Lemma lossy_remove_all hs s : W s -> lossy s (snd (remove_all hs s)).
Proof. intros. by apply lossy_reduces, reduces_remove_all. Qed.

Create HintDb lossy.
#[local] Hint Resolve lossy_refl lossy_emit lossy_stats lossy_if lossy_bump : lossy.

Lemma lossy_fold_emit clk removed s s1 :
  lossy s s1 ->
  lossy s (fold_left (fun s e => match query_text e with
                                 | Some q => emit clk Remove (builder_remove q) s
                                 | None => s
                                 end) removed s1).
Proof.
  revert s1. induction removed as [|e es IH]; intros s1 Hi; simpl; [done|].
  apply IH. destruct (query_text e); auto with lossy.
Qed.

Ltac remove_all_case :=
  match goal with |- context [remove_all ?l ?s] =>
    let H := fresh "Hr" in
    pose proof (lossy_remove_all l s) as H; destruct (remove_all l s) as [? ?]; simpl in *
  end.

Lemma lossy_evict_from_upstream clk u n s : W s -> lossy s (snd (evict_from_upstream clk u n s)).
Proof.
  intros HW. unfold evict_from_upstream. destruct (n =? 0); [apply lossy_refl|].
  remove_all_case. apply lossy_if; [apply lossy_stats|];
    destruct (cdc_sender c); auto using lossy_fold_emit.
Qed.

Lemma lossy_check_upstream_limit clk u s : W s -> lossy s (check_upstream_limit clk u s).
Proof.
  intros HW. unfold check_upstream_limit. destruct (per_upstream_limit s); [|apply lossy_refl].
  destruct (_ <=? _); [|apply lossy_refl]. pose proof (lossy_evict_from_upstream clk u 1 s HW).
  destruct (evict_from_upstream _ _ _ _). simpl in *. auto with lossy.
Qed.

Lemma lossy_get_verified q s : W s -> lossy s (snd (get_verified q s)).
Proof.
  intros HW. unfold get_verified. destruct (entries s !! hash_query q) as [e|] eqn:He; [|apply lossy_refl].
  match goal with |- context [if ?b then _ else _] => destruct b end; simpl; auto with lossy.
  pose proof (lossy_reduces _ _ (reduces_tracked_remove (hash_query q) s HW)).
  destruct (tracked_remove _ _). simpl in *. auto with lossy.
Qed.

Lemma lossy_evict_smart clk n s s' : W s -> evict_smart clk n s = Ret s' -> lossy s s'.
Proof.
  intros HW. unfold evict_smart. destruct (dur_add _ _) as [t|]; simpl; [|done].
  match goal with |- context [evict_expired_loop ?l n 0 s] =>
    pose proof (reduces_evict_expired_loop l n 0 s HW) as Hr;
    destruct (evict_expired_loop l n 0 s) as [x s1] end. simpl in Hr.
  pose proof (reduces_evict_n (Z.to_nat (n -! x)) 0 s1 (rd_W _ _ Hr)) as Hr2.
  destruct (x <? n); [destruct (evict_n _ 0 s1) as [y s2]; simpl in Hr2|]; intros [= <-];
    apply lossy_if; try apply lossy_stats; apply lossy_reduces; eauto using reduces_trans.
Qed.

(** Every operation that is neither an insertion, a removal by text, an
    extension nor an invalidation only loses entries. *)
Definition op_lossy (o : op) : bool :=
  match o with
  | OGetVerified _ | OGetByHash _ | OEvictSmart _ _ | OEvictTrulyExpired _ | OEvictFilter _ _ _ _ _
  | OEvictFromUpstream _ _ _ | OEnforcePerUpstreamLimit _ _ _ | OEnforceMemoryLimit | ORemoveCorrupted
  | OSetPerUpstreamLimit _ | OSetMaxEntries _ | OSetMaxMemoryBytes _ | OSetFreshDuration _
  | OSetStaleDuration _ | OSetMaxFrozenDuration _ | OWithNormalizedMatching _ | OWithCdcSender _ => true
  | _ => false
  end.

Lemma op_lossy_spec N o s s' : inv N s -> op_lossy o = true -> apply_op o s = Ret s' -> lossy s s'.
Proof.
  intros [HW _] Ho. destruct o; try discriminate Ho; simpl;
    try (intros [= <-]; exact (lossy_refl s));
    lazymatch goal with
    | |- evict_smart _ _ _ = _ -> _ => by apply lossy_evict_smart
    | |- _ => intros [= <-]
    end.
  - by apply lossy_get_verified.
  - unfold get_by_hash. destruct (entries s !! h); simpl; auto with lossy.
  - unfold evict_truly_expired. remove_all_case. auto with lossy.
  - unfold evict_filter. remove_all_case. auto with lossy.
  - by apply lossy_evict_from_upstream.
  - unfold enforce_per_upstream_limit. destruct (_ <=? _); [apply lossy_refl|].
    by apply lossy_evict_from_upstream.
  - unfold enforce_memory_limit. destruct (_ =? 0); [apply lossy_refl|].
    destruct (evict_while _ _ _ _ _ _) as [[se me] s1] eqn:Hl. simpl.
    apply evict_while_reduces, lossy_reduces in Hl; [|done]. auto with lossy.
  - unfold remove_corrupted. remove_all_case. auto.
  - unfold set_max_entries. destruct (_ =? 0); exact (lossy_refl s).
Qed.

(** ** Insertions *)

Lemma admit_if_lossy N h e s s' :
  inv N s -> freq e = 0 ->
  entries s' = entries (tracked_insert h e s) -> s3fifo s' = s3fifo s ->
  total_memory_bytes s' = total_memory_bytes (tracked_insert h e s) ->
  lossy s' (if negb (bool_decide (is_Some (entries s !! h))) then s3fifo_admit h s' else s').
Proof.
  intros (HW & Hc & Hl) Hf He Hs Hm.
  destruct (tracked_insert_frame h e s) as (Hen & _).
  destruct (entries s !! h) as [o|] eqn:Ho.
  - rewrite bool_decide_eq_true_2 by eauto. apply lossy_refl.
  - rewrite bool_decide_eq_false_2 by (by intros []). simpl.
    destruct (admit_spec N h e s' (entries s) (total_memory_bytes s)) as (_ & ? & _ & ?); try done.
    + rewrite Hs. exact HW.
    + by rewrite He.
    + by rewrite Hm, tracked_insert_new_memory.
    + by rewrite Hs.
    + unfold queue_len in *. by rewrite Hs.
Qed.

Lemma shrinks_insert h e m m' : shrinks m m' -> shrinks (<[h := e]> m) (<[h := e]> m').
Proof.
  intros Hs h' e'. rewrite !lookup_insert. case_decide; [|by apply Hs].
  intros [= <-]. exists e, (freq e). by rewrite put_freq_id.
Qed.

(** What decides about matching and freshness, which only the setters change. *)
Definition settings s :=
  (normalized_matching s, fresh_duration s, stale_duration s, ttl_jitter_percent s, max_frozen_duration s).
Lemma cfg_settings s s' : cfg s' = cfg s -> settings s' = settings s.
Proof. unfold cfg, settings. congruence. Qed.

Lemma remove_all_settings hs s : settings (snd (remove_all hs s)) = settings s.
Proof.
  revert s. induction hs as [|h hs IH]; intros s; simpl; [done|].
  pose proof (tracked_remove_spec h s) as Hs. destruct (tracked_remove h s) as [[e|] s1]; simpl in *;
    destruct Hs as (_ & _ & _ & Hcfg%cfg_settings & _).
  - specialize (IH s1). destruct (remove_all hs s1). simpl in *. congruence.
  - by rewrite IH.
Qed.

Lemma emit_settings clk ty b s : settings (emit clk ty b s) = settings s.
Proof. unfold emit. by destruct (cdc_sender s). Qed.

Lemma emit_matching clk ty b s : normalized_matching (emit clk ty b s) = normalized_matching s.
Proof. unfold emit. by destruct (cdc_sender s). Qed.

Lemma fold_emit_settings clk removed s :
  settings (fold_left (fun s e => match query_text e with
                                 | Some q => emit clk Remove (builder_remove q) s
                                 | None => s
                                 end) removed s) = settings s.
Proof.
  revert s. induction removed as [|e es IH]; intros s; simpl; [done|]. rewrite IH.
  destruct (query_text e); [apply emit_settings|done].
Qed.

Lemma check_limit_settings clk u s : settings (check_upstream_limit clk u s) = settings s.
Proof.
  unfold check_upstream_limit, evict_from_upstream. destruct (per_upstream_limit s); [|done].
  destruct (_ <=? _); [|done]. simpl.
  match goal with |- context [remove_all ?l s] => pose proof (remove_all_settings l s) as Hr;
    destruct (remove_all l s) as [removed s1] end. simpl in Hr.
  destruct (0 <? zlen removed); simpl; (destruct (cdc_sender s1); [|done]).
  - change (settings (upd_stats (upd_stats ?x ?f) ?g)) with (settings x). by rewrite fold_emit_settings.
  - change (settings (upd_stats ?x ?f)) with (settings x). by rewrite fold_emit_settings.
Qed.
Lemma check_limit_matching clk u s :
  normalized_matching (check_upstream_limit clk u s) = normalized_matching s.
Proof. pose proof (check_limit_settings clk u s) as H. unfold settings in H. congruence. Qed.

(** What an insertion through [insert_impl] leaves behind, relative to the store
    after the per-upstream check. *)
Lemma insert_impl_after_check N clk q r u c s :
  inv N s ->
  let e := new_entry clk r u (Some q) c in
  let s1 := check_upstream_limit clk u s in
  shrinks (<[hash_query q := e]> (entries s1)) (entries (insert_impl clk q r u c s)) /\
  (forall x nh, exact_to_normalized (insert_impl clk q r u c s) !! x = Some nh ->
     exact_to_normalized s1 !! x = Some nh \/ (x = hash_query_exact q /\ nh = hash_query q)).
Proof.
  intros Hi e s1. unfold insert_impl. fold e. fold s1.
  assert (Hi1 : inv N s1) by (by apply inv_check_upstream_limit).
  pose proof (tracked_insert_frame (hash_query q) e s1) as (Hen & Hst & Hcfg & He2n & _).
  pose proof (fun s' => admit_if_lossy N (hash_query q) e s1 s' Hi1 eq_refl) as Hadm.
  set (s2 := tracked_insert (hash_query q) e s1) in *.
  match goal with |- context [if _ then s3fifo_admit _ ?x else _] =>
    specialize (Hadm x); set (s3 := x) in * end.
  assert (Hsame : entries s3 = entries s2 /\ s3fifo s3 = s3fifo s2 /\
                  total_memory_bytes s3 = total_memory_bytes s2)
    by (unfold s3; destruct (normalized_matching s2); done).
  destruct Hsame as (Hs3 & Hf3 & Hm3).
  assert (Hl3 : lossy s3 (if negb (bool_decide (is_Some (entries s1 !! hash_query q)))
                          then s3fifo_admit (hash_query q) s3 else s3))
    by (apply Hadm; [done|by rewrite Hf3, Hst|done]).
  match goal with |- context [match ?p with Some pl => emit clk Insert _ ?x | None => _ end] =>
    assert (Hl4 : lossy s3 (match p with Some pl => emit clk Insert (builder_insert q pl u) x | None => x end))
      by (destruct p; auto with lossy) end.
  destruct Hl4 as [Hsh4 He4]. split.
  - by rewrite Hs3, Hen in Hsh4.
  - intros x nh Hx. eapply lookup_weaken in Hx; [|exact He4]. unfold s3 in Hx.
    assert (normalized_matching s2 = normalized_matching s) as Hn2
      by (rewrite <- (check_limit_matching clk u s); fold s1; unfold cfg in Hcfg; congruence).
    destruct (normalized_matching s2) eqn:En; simpl in Hx; rewrite He2n in Hx; [|auto].
    apply lookup_insert_Some in Hx as [[<- <-]|[_ Hx]]; [right|auto]. by rewrite <- Hn2.
Qed.

Lemma insert_impl_settings N clk q r u c s : inv N s -> settings (insert_impl clk q r u c s) = settings s.
Proof.
  intros Hi. unfold insert_impl. rewrite <- (check_limit_settings clk u s).
  set (s1 := check_upstream_limit clk u s). assert (Hi1 : inv N s1) by (by apply inv_check_upstream_limit).
  set (e := new_entry clk r u (Some q) c).
  pose proof (tracked_insert_frame (hash_query q) e s1) as (Hen & Hst & Hcfg%cfg_settings & _).
  pose proof (fun Hn => tracked_insert_new_memory (hash_query q) e s1 Hn) as Hmem.
  set (s2 := tracked_insert (hash_query q) e s1) in *.
  match goal with |- context [if _ then s3fifo_admit _ ?x else _] => set (s3 := x) in * end.
  assert (Hsame : entries s3 = entries s2 /\ s3fifo s3 = s3fifo s2 /\ total_memory_bytes s3 = total_memory_bytes s2 /\
                  settings s3 = settings s2) by (unfold s3; by destruct (normalized_matching s2)).
  destruct Hsame as (He3 & Hs3 & Hm3 & Hc3).
  assert (Ha : settings (if negb (bool_decide (is_Some (entries s1 !! hash_query q)))
                         then s3fifo_admit (hash_query q) s3 else s3) = settings s1).
  { destruct (entries s1 !! hash_query q) as [o|] eqn:Ho; simpl; [by rewrite Hc3|]. rewrite <- Hcfg, <- Hc3.
    destruct Hi1 as (HW & Hc & Hl). apply cfg_settings.
    apply (admit_spec N (hash_query q) e s3 (entries s1) (total_memory_bytes s1)); rewrite ?Hs3, ?Hst; try done.
    - by rewrite He3.
    - by rewrite Hm3, Hmem.
    - unfold queue_len in *. by rewrite Hs3, Hst. }
  destruct (cdc_sender s1); [destruct (serde_to_vec r)|]; rewrite ?emit_settings; done.
Qed.

Lemma insert_impl_lossy N clk q r u c s :
  inv N s ->
  let e := new_entry clk r u (Some q) c in
  shrinks (<[hash_query q := e]> (entries s)) (entries (insert_impl clk q r u c s)) /\
  (forall x nh, exact_to_normalized (insert_impl clk q r u c s) !! x = Some nh ->
     exact_to_normalized s !! x = Some nh \/ (x = hash_query_exact q /\ nh = hash_query q)).
Proof.
  intros Hi e. destruct (insert_impl_after_check N clk q r u c s Hi) as [Hsh He].
  pose proof (lossy_check_upstream_limit clk u s (proj1 Hi)) as [Hsh1 He1]. split.
  - eapply shrinks_trans; [|exact Hsh]. by apply shrinks_insert.
  - intros x nh [Hx|Hx]%He; [|auto]. left. by eapply lookup_weaken.
Qed.

Lemma insert_by_hash_lossy N clk h r u k s :
  inv N s ->
  let e := new_entry clk r u k (lit "default") in
  shrinks (<[h := e]> (entries s)) (entries (insert_by_hash clk h r u k s)) /\
  exact_to_normalized (insert_by_hash clk h r u k s) ⊆ exact_to_normalized s.
Proof.
  intros Hi e. unfold insert_by_hash. fold e. set (s1 := check_upstream_limit clk u s).
  assert (Hi1 : inv N s1) by (by apply inv_check_upstream_limit).
  pose proof (lossy_check_upstream_limit clk u s (proj1 Hi)) as [Hsh1 He1]. fold s1 in Hsh1, He1.
  pose proof (tracked_insert_frame h e s1) as (Hen & Hst & Hcfg & He2n & _).
  pose proof (admit_if_lossy N h e s1 (tracked_insert h e s1) Hi1 eq_refl eq_refl Hst eq_refl) as Hl3.
  assert (lossy (tracked_insert h e s1) (insert_by_hash clk h r u k s)) as [Hsh4 He4].
  { unfold insert_by_hash. fold s1 e.
    destruct (cdc_sender s1), k; try destruct (serde_to_vec r); auto with lossy. }
  split.
  - eapply shrinks_trans; [|exact Hsh4]. rewrite Hen. by apply shrinks_insert.
  - etrans; [exact He4|]. by rewrite He2n.
Qed.

(** ** Refinement, operation by operation *)

Lemma refines_shrinks m s a :
  (forall h e, m !! h = Some e -> a !! h = Some (payload_of e)) ->
  shrinks m (entries s) -> refines s a.
Proof. intros Hr Hs h e' He'. destruct (Hs _ _ He') as (e & v & He & ->). by rewrite (Hr _ _ He). Qed.

Lemma refines_lossy s s' a : refines s a -> lossy s s' -> refines s' a.
Proof. intros Hr [Hs _]. by eapply refines_shrinks. Qed.

Lemma refines_insert h e s s' a :
  refines s a -> shrinks (<[h := e]> (entries s)) (entries s') -> refines s' (<[h := payload_of e]> a).
Proof.
  intros Hr. apply refines_shrinks. intros h' e'. rewrite !lookup_insert.
  case_decide; [by intros [= <-]|apply Hr].
Qed.

Lemma refines_delete h s s' a :
  refines s a -> entries s' = delete h (entries s) -> refines s' (delete h a).
Proof.
  intros Hr He h' e'. rewrite He, !lookup_delete. case_decide; [done|apply Hr].
Qed.

Lemma lossy_get q s :
  shrinks (entries s) (entries (snd (get q s))) /\
  (forall x nh, exact_to_normalized (snd (get q s)) !! x = Some nh ->
     exact_to_normalized s !! x = Some nh \/ (x = hash_query_exact q /\ nh = hash_query q)).
Proof.
  unfold get, get_two_tier.
  destruct (normalized_matching s); [destruct (tier1 q s) as [[nh e]|]|].
  2: destruct (entries s !! hash_query q) as [e|] eqn:He.
  4: destruct (entries s !! hash_query q) as [e|] eqn:He.
  all: simpl; try (split; [apply (lossy_bump _ s)|unfold bump_freq; destruct (_ !! _); auto]);
    try (split; [apply shrinks_refl|auto]).
  split.
  - unfold bump_freq. simpl. rewrite He. by apply shrinks_freq.
  - unfold bump_freq. simpl. rewrite He. simpl. intros x nh.
    rewrite lookup_insert_Some. naive_solver.
Qed.

(** The two lookups have the same effect on the store. *)
Lemma get_with_hit_type_get q s :
  snd (get_with_hit_type q s) = snd (get q s) /\
  option_map fst (fst (get_with_hit_type q s)) = fst (get q s).
Proof.
  assert (forall (t : CacheHitType) (o : option CacheEntry),
    option_map fst ((fun e => (e, t)) <$> o) = o) as Hm by (by intros t []).
  unfold get_with_hit_type, get, get_two_tier.
  destruct (normalized_matching s); simpl; [destruct (tier1 q s) as [[nh e]|]|];
    try destruct (entries s !! hash_query q); simpl; auto.
Qed.

Lemma refines_extend_ttl clk q s a : refines s a -> refines (extend_ttl clk q s) a.
Proof.
  intros Hr. unfold extend_ttl. destruct (entries s !! hash_query q) as [o|] eqn:Ho; [|done].
  match goal with |- refines (tracked_insert ?h ?e s) a =>
    destruct (tracked_insert_frame h e s) as (Hen & _) end.
  intros h e. rewrite Hen, lookup_insert. case_decide; [|apply Hr].
  intros [= <-]. subst. by rewrite (Hr _ _ Ho).
Qed.

Lemma refines_warmup_loop N clk es u n s a :
  inv N s -> refines s a ->
  exists k, refines (snd (warmup_loop clk es u n s)) (fold_left (abs_warm u) (take k es) a).
Proof.
  revert n s a. induction es as [|[q r] es IH]; intros n s a Hi Hr; simpl; [by exists 0%nat|].
  destruct (is_ok (response_validate r)) eqn:Ev; simpl.
  - destruct (_ <=? _); [by exists 0%nat|].
    set (e := new_entry clk r u (Some q) (lit "default")).
    destruct (tracked_insert_frame (hash_query q) e s) as (Hen & Hst & _).
    destruct (IH (n +! 1) (if negb (bool_decide (is_Some (entries s !! hash_query q)))
         then s3fifo_admit (hash_query q) (tracked_insert (hash_query q) e s)
         else tracked_insert (hash_query q) e s) (<[hash_query q := payload_of e]> a)) as (k & Hk).
    + by apply inv_admit_if with (e := e).
    + eapply refines_lossy; [|by eapply admit_if_lossy with (e := e)].
      eapply refines_insert; [done|]. rewrite Hen. apply shrinks_refl.
    + exists (S k). simpl. unfold abs_warm at 2. simpl. rewrite Ev. exact Hk.
  - destruct (IH n s a Hi Hr) as (k & Hk). exists (S k). simpl. unfold abs_warm at 2. simpl.
    by rewrite Ev.
Qed.

Lemma remove_frame clk q s :
  entries (remove clk q s) = delete (hash_query q) (entries s) /\
  exact_to_normalized (remove clk q s) ⊆ exact_to_normalized s.
Proof.
  unfold remove. pose proof (tracked_remove_spec (hash_query q) s) as Hs.
  destruct (tracked_remove _ _) as [r s1]. simpl in *. destruct Hs as (_ & He & _ & _ & He2n & _).
  match goal with |- context [emit ?c ?t ?b ?x] => destruct (emit_frame c t b x) as (-> & _ & _ & ->) end.
  simpl. split; [done|]. etrans; [apply delete_subseteq|done].
Qed.

Lemma step_refines N o s s' a :
  inv N s -> refines s a -> apply_op o s = Ret s' -> exists a', abs_step o a a' /\ refines s' a'.
Proof.
  intros Hi Hr Ho. destruct (op_lossy o) eqn:El.
  { exists a. split; [by destruct o|]. eapply refines_lossy; [done|]. by eapply op_lossy_spec. }
  destruct o; try discriminate El; simpl in *; injection Ho as <-.
  - exists a. split; [done|]. eapply refines_shrinks; [exact Hr|]. apply lossy_get.
  - exists a. split; [done|]. rewrite (proj1 (get_with_hit_type_get q s)).
    eapply refines_shrinks; [exact Hr|]. apply lossy_get.
  - eexists. split; [done|].
    apply (refines_insert _ (new_entry clk r u (Some q) (lit "default")) _ _ _ Hr).
    by apply (insert_impl_lossy N).
  - eexists. split; [done|].
    apply (refines_insert _ (new_entry clk r u (Some q) c) _ _ _ Hr). by apply (insert_impl_lossy N).
  - eexists. split; [done|].
    apply (refines_insert _ (new_entry clk r u key (lit "default")) _ _ _ Hr).
    by apply (insert_by_hash_lossy N).
  - destruct (refines_warmup_loop N clk es u 0 s a Hi Hr) as (k & Hk). eauto.
  - exists a. split; [done|]. by apply refines_extend_ttl.
  - eexists. split; [done|]. eapply refines_delete; [done|]. apply remove_frame.
  - exists ∅. split; [done|]. unfold clear. intros h e.
    destruct (emit_frame clk Remove (builder_remove []) (wipe s)) as (-> & _).
    simpl. by rewrite lookup_empty.
  - unfold update_config_fingerprint. destruct (_ && _); simpl; [exists ∅|exists a]; split; auto.
    intros h e. simpl. by rewrite lookup_empty.
Qed.

(** ** The exact-text mapping *)

(** Every mapping leads from the exact hash of a query to its normalized hash. *)
Definition e2n_ok (Q : str -> Prop) s : Prop :=
  forall x nh, exact_to_normalized s !! x = Some nh ->
  exists q, Q q /\ x = hash_query_exact q /\ nh = hash_query q.

(** The operations that record a mapping use queries of [Q]. *)
Definition op_in (Q : str -> Prop) (o : op) : Prop :=
  match o with
  | OGet q | OGetWithHitType q | OInsert _ q _ _ | OInsertWithContext _ q _ _ _ => Q q
  | _ => True
  end.

Lemma e2n_ok_extends Q q s s' :
  e2n_ok Q s -> Q q ->
  (forall x nh, exact_to_normalized s' !! x = Some nh ->
     exact_to_normalized s !! x = Some nh \/ (x = hash_query_exact q /\ nh = hash_query q)) ->
  e2n_ok Q s'.
Proof. intros Hs Hq Hx x nh [H|[-> ->]]%Hx; eauto. Qed.

Lemma e2n_ok_subseteq Q s s' :
  e2n_ok Q s -> exact_to_normalized s' ⊆ exact_to_normalized s -> e2n_ok Q s'.
Proof. intros Hs Hx x nh H. eapply lookup_weaken in H; [|exact Hx]. eauto. Qed.

Lemma warmup_loop_e2n N clk es u n s :
  inv N s -> exact_to_normalized (snd (warmup_loop clk es u n s)) ⊆ exact_to_normalized s.
Proof.
  revert n s. induction es as [|[q r] es IH]; intros n s Hi; simpl; [done|].
  destruct (is_ok _); simpl; [|by apply IH]. destruct (_ <=? _); [done|].
  set (e := new_entry clk r u (Some q) (lit "default")).
  destruct (tracked_insert_frame (hash_query q) e s) as (_ & Hst & _ & He & _).
  etrans; [apply IH; by apply inv_admit_if with (e := e)|]. rewrite <- He.
  by eapply admit_if_lossy with (e := e).
Qed.

Lemma step_e2n_ok N Q o s s' :
  inv N s -> e2n_ok Q s -> op_in Q o -> apply_op o s = Ret s' -> e2n_ok Q s'.
Proof.
  intros Hi Hs HQ Ho. destruct (op_lossy o) eqn:El.
  { eapply e2n_ok_subseteq; [done|]. by eapply op_lossy_spec. }
  destruct o; try discriminate El; simpl in *; injection Ho as <-.
  - eapply e2n_ok_extends; [done..|]. apply lossy_get.
  - rewrite (proj1 (get_with_hit_type_get q s)). eapply e2n_ok_extends; [done..|]. apply lossy_get.
  - eapply e2n_ok_extends; [done..|]. by eapply insert_impl_lossy.
  - eapply e2n_ok_extends; [done..|]. by eapply insert_impl_lossy.
  - eapply e2n_ok_subseteq; [done|]. by eapply insert_by_hash_lossy.
  - eapply e2n_ok_subseteq; [done|]. by eapply warmup_loop_e2n.
  - unfold extend_ttl. destruct (entries s !! hash_query q) as [o|]; [|done].
    eapply e2n_ok_subseteq; [done|].
    match goal with |- context [tracked_insert ?h ?e s] =>
      destruct (tracked_insert_frame h e s) as (_ & _ & _ & -> & _) end. done.
  - eapply e2n_ok_subseteq; [done|]. apply remove_frame.
  - intros x nh. unfold clear.
    destruct (emit_frame clk Remove (builder_remove []) (wipe s)) as (_ & _ & _ & ->).
    simpl. by rewrite lookup_empty.
  - unfold update_config_fingerprint. destruct (_ && _); simpl; [|done].
    intros x nh. simpl. by rewrite lookup_empty.
Qed.

Lemma reachable_e2n_ok Q n s :
  0 <= n < usize_max -> reachable (op_in Q) n s -> e2n_ok Q s.
Proof.
  intros Hn. induction 1 as [|s o s' Hr IH HP Ho].
  - intros x nh. simpl. by rewrite lookup_empty.
  - eapply step_e2n_ok; [by eapply reachable_inv|done..].
Qed.

(** The exact hash separates the normalized hashes of the queries of [Q]; in
    particular when blake3 has no collision on their texts. *)
Definition collision_free (Q : str -> Prop) : Prop :=
  forall q q', Q q -> Q q' -> hash_query_exact q = hash_query_exact q' -> q = q'.

Lemma tier1_sound Q q s nh e :
  collision_free Q -> e2n_ok Q s -> Q q -> tier1 q s = Some (nh, e) ->
  nh = hash_query q /\ entries s !! hash_query q = Some e.
Proof.
  intros Hc Hs Hq. unfold tier1.
  destruct (exact_to_normalized s !! hash_query_exact q) as [nh'|] eqn:Hx; [|done].
  destruct (entries s !! nh') as [e'|] eqn:He; [|done]. intros [= <- <-].
  destruct (Hs _ _ Hx) as (q' & Hq' & Heq & ->). by rewrite (Hc q q') by done.
Qed.

(** ** Insertion with room to spare *)

(** No capacity, memory or per-upstream pressure on inserting [e]. *)
Definition has_room (N : Z) e s : Prop :=
  Z.of_nat (queue_len s) < N /\
  (max_memory_bytes s <= 0 \/ wrap 64 (total_memory_bytes s + approximate_size e) <= max_memory_bytes s).

Lemma evict_while_stop n cond ev se me s : cond s = false -> evict_while n cond ev se me s = (se, me, s).
Proof. intros Hc. destruct n; simpl; [done|by rewrite Hc]. Qed.

Lemma admit_room N h s :
  cap_ok N (s3fifo s) -> Z.of_nat (queue_len s) < N ->
  max_memory_bytes s <= 0 \/ total_memory_bytes s <= max_memory_bytes s ->
  entries (s3fifo_admit h s) = entries s /\
  exact_to_normalized (s3fifo_admit h s) = exact_to_normalized s.
Proof.
  intros Hc Hl Hm. unfold s3fifo_admit. fold (push_state h (s3fifo s)).
  set (s1 := put_s3fifo s (push_state h (s3fifo s))).
  assert (over_capacity s1 = false) as Ho.
  { apply (over_capacity_false N); simpl.
    - eapply cap_ok_caps, Hc. unfold push_state. by destruct (bool_decide _).
    - unfold queue_len in *. unfold s1, push_state. simpl. destruct (bool_decide _); simpl;
        rewrite length_app; simpl; lia. }
  rewrite evict_while_stop by done.
  change (max_memory_bytes s1) with (max_memory_bytes s).
  destruct (0 <? max_memory_bytes s) eqn:Em.
  - rewrite evict_while_stop.
    + destruct (_ || _); done.
    + unfold over_memory. reflect_Z. apply Z.ltb_ge. simpl. lia.
  - destruct (_ || _); done.
Qed.

Lemma insert_impl_room N clk q r u c s :
  inv N s -> per_upstream_limit s = None ->
  is_Some (entries s !! hash_query q) \/ has_room N (new_entry clk r u (Some q) c) s ->
  let s' := insert_impl clk q r u c s in
  entries s' = <[hash_query q := new_entry clk r u (Some q) c]> (entries s) /\
  normalized_matching s' = normalized_matching s /\
  exact_to_normalized s' = (if normalized_matching s
     then <[hash_query_exact q := hash_query q]> (exact_to_normalized s) else exact_to_normalized s).
Proof.
  intros Hi Hp Hroom s'. unfold s', insert_impl, check_upstream_limit. rewrite Hp.
  set (e := new_entry clk r u (Some q) c) in *.
  pose proof (tracked_insert_frame (hash_query q) e s) as (Hen & Hst & Hcfg & He2n & _).
  assert (normalized_matching (tracked_insert (hash_query q) e s) = normalized_matching s /\
          max_memory_bytes (tracked_insert (hash_query q) e s) = max_memory_bytes s) as [Hnm Hmm].
  { unfold cfg in Hcfg. split; congruence. }
  rewrite Hnm.
  match goal with |- context [if _ then s3fifo_admit _ ?x else _] => set (s3 := x) in * end.
  set (P := fun x => entries x = <[hash_query q := e]> (entries s) /\
    normalized_matching x = normalized_matching s /\
    exact_to_normalized x = (if normalized_matching s
     then <[hash_query_exact q := hash_query q]> (exact_to_normalized s) else exact_to_normalized s)).
  assert (Hs3 : P s3 /\ s3fifo s3 = s3fifo s /\
    total_memory_bytes s3 = total_memory_bytes (tracked_insert (hash_query q) e s) /\
    max_memory_bytes s3 = max_memory_bytes s).
  { unfold P, s3. destruct (normalized_matching s) eqn:En; simpl; split_and!; try done; congruence. }
  destruct Hs3 as (HP3 & Hf3 & Hm3 & Hmm3).
  match goal with |- context [match ?p with Some pl => emit clk Insert _ ?x | None => _ end] =>
    assert (Hx : P x); [|
      destruct p as [pl|]; [|exact Hx];
      destruct (emit_frame clk Insert (builder_insert q pl u) x) as (-> & _ & _ & ->);
      rewrite emit_matching; exact Hx]
  end.
  destruct (entries s !! hash_query q) as [o|] eqn:Ho.
  - by rewrite bool_decide_eq_true_2 by eauto.
  - rewrite bool_decide_eq_false_2 by (by intros []). simpl.
    destruct Hroom as [[? ?]|[Hr1 Hr2]]; [done|]. pose proof Hi as (HW & Hc & Hl).
    destruct (admit_room N (hash_query q) s3) as [He' He2n'].
    + by rewrite Hf3.
    + unfold queue_len in *. by rewrite Hf3.
    + rewrite Hmm3, Hm3, tracked_insert_new_memory by done. exact Hr2.
    + unfold P. rewrite He', He2n'. destruct HP3 as (? & Hn3 & ?). split_and!; try done.
      rewrite <- Hn3. destruct (admit_spec N (hash_query q) e s3 (entries s) (total_memory_bytes s))
        as (_ & _ & Hcfg3 & _); try done.
      * rewrite Hf3. exact HW.
      * by rewrite Hm3, tracked_insert_new_memory.
      * by rewrite Hf3.
      * unfold queue_len in *. by rewrite Hf3.
      * unfold cfg in Hcfg3. congruence.
Qed.

Lemma bump_lookup h e s :
  entries s !! h = Some e -> entries (bump_freq h s) !! h = Some (put_freq e (bumped (freq e))).
Proof. intros He. unfold bump_freq. rewrite He. simpl. by rewrite lookup_insert_eq. Qed.

(** The lookup that follows finds the new entry. *)
Lemma insert_impl_get N clk q r u c s :
  inv N s -> per_upstream_limit s = None ->
  is_Some (entries s !! hash_query q) \/ has_room N (new_entry clk r u (Some q) c) s ->
  fst (get q (insert_impl clk q r u c s)) = Some (put_freq (new_entry clk r u (Some q) c) 1).
Proof.
  intros Hi Hp Hroom. destruct (insert_impl_room N clk q r u c s Hi Hp Hroom) as (He & Hnm & He2n).
  assert (entries (insert_impl clk q r u c s) !! hash_query q = Some (new_entry clk r u (Some q) c)) as Hlk
    by (by rewrite He, lookup_insert_eq).
  unfold get, get_two_tier, tier1. rewrite Hnm, He2n.
  destruct (normalized_matching s); [rewrite lookup_insert_eq|]; rewrite Hlk; simpl;
    rewrite (bump_lookup _ _ _ Hlk); done.
Qed.

(** Without a memory limit an insertion with room queues one key at most, and the
    settings stay as they were. *)
Lemma admit_queue N h s :
  cap_ok N (s3fifo s) -> Z.of_nat (queue_len s) < N -> max_memory_bytes s <= 0 ->
  queue_len (s3fifo_admit h s) = S (queue_len s) /\
  per_upstream_limit (s3fifo_admit h s) = per_upstream_limit s /\
  max_memory_bytes (s3fifo_admit h s) = max_memory_bytes s /\
  normalized_matching (s3fifo_admit h s) = normalized_matching s.
Proof.
  intros Hc Hl Hm. unfold s3fifo_admit. fold (push_state h (s3fifo s)).
  set (s1 := put_s3fifo s (push_state h (s3fifo s))).
  assert (queue_len s1 = S (queue_len s)) as Hq.
  { unfold queue_len, s1, push_state. simpl. destruct (bool_decide _); simpl; rewrite length_app; simpl; lia. }
  rewrite evict_while_stop.
  - change (max_memory_bytes s1) with (max_memory_bytes s). rewrite (proj2 (Z.ltb_ge 0 _) Hm).
    by destruct (_ || _).
  - apply (over_capacity_false N); simpl; [|lia].
    eapply cap_ok_caps, Hc. unfold push_state. by destruct (bool_decide _).
Qed.

Lemma emit_limits clk ty b s :
  per_upstream_limit (emit clk ty b s) = per_upstream_limit s /\ max_memory_bytes (emit clk ty b s) = max_memory_bytes s /\
  queue_len (emit clk ty b s) = queue_len s.
Proof. unfold emit. by destruct (cdc_sender s). Qed.

Lemma insert_impl_queue N clk q r u c s :
  inv N s -> per_upstream_limit s = None -> max_memory_bytes s <= 0 -> Z.of_nat (queue_len s) < N ->
  let s' := insert_impl clk q r u c s in
  (queue_len s' <= S (queue_len s))%nat /\ per_upstream_limit s' = None /\ max_memory_bytes s' <= 0.
Proof.
  intros (_ & Hc & _) Hp Hm Hl s'. unfold s', insert_impl, check_upstream_limit. rewrite Hp.
  set (e := new_entry clk r u (Some q) c).
  pose proof (tracked_insert_frame (hash_query q) e s) as (_ & Hst & Hcfg & _).
  set (s1 := tracked_insert (hash_query q) e s) in *.
  match goal with |- context [if _ then s3fifo_admit _ ?x else _] => set (s3 := x) in * end.
  assert (Hs3 : s3fifo s3 = s3fifo s /\ per_upstream_limit s3 = None /\ max_memory_bytes s3 = max_memory_bytes s).
  { unfold cfg in Hcfg. unfold s3. destruct (normalized_matching s1); simpl; split_and!; congruence. }
  destruct Hs3 as (Hf3 & Hp3 & Hm3).
  assert (Hq3 : queue_len s3 = queue_len s) by (unfold queue_len; by rewrite Hf3).
  assert (H4 : forall b : bool, let s4 := if b then s3fifo_admit (hash_query q) s3 else s3 in
            (queue_len s4 <= S (queue_len s))%nat /\ per_upstream_limit s4 = None /\ max_memory_bytes s4 <= 0).
  { intros [] s4; unfold s4; [|split_and!; [lia|done|lia]].
    destruct (admit_queue N (hash_query q) s3) as (-> & -> & -> & _); [by rewrite Hf3|by rewrite Hq3|lia|].
    split_and!; [lia|done|lia]. }
  match goal with |- context [match ?p with Some pl => emit clk Insert _ ?x | None => _ end] =>
    specialize (H4 (negb (bool_decide (is_Some (entries s !! hash_query q)))));
    destruct p as [pl|]; [destruct (emit_limits clk Insert (builder_insert q pl u) x) as (-> & -> & ->)|]; exact H4 end.
Qed.
End CacheSpec.
