(* ===== verification/CacheSweep.v ===== *)
(** * Sweeps over the cache

    The maintenance operations of the store iterate over the concurrent map,
    collect the keys they want gone, and remove them one by one.  These lemmas
    say what such a sweep leaves, whatever the order of the iteration. *)

From Stdlib Require Import SpecFloat.
From S2P Require Import Prelude Floats Text Types Cdc Cache CacheInv CacheReach CacheSpec.
Open Scope Z_scope.
Open Scope conproxy_scope.

Section CacheSweep.
Context `{E : CacheEnv} {L : CacheEnvLaws E}.
Implicit Types (s : CacheStore) (h : QueryHash) (e : CacheEntry) (clk : Clock)
  (m : gmap QueryHash CacheEntry).

(** ** Iteration *)

Lemma elem_of_map_iter m h e : (h, e) ∈ map_iter m <-> m !! h = Some e.
Proof. rewrite map_iter_perm. apply elem_of_map_to_list. Qed.

Lemma NoDup_map_iter m : NoDup (map fst (map_iter m)).
Proof.
  change (map fst (map_iter m)) with ((map_iter m).*1). rewrite map_iter_perm.
  apply NoDup_fst_map_to_list.
Qed.

Definition keys_where (p : QueryHash * CacheEntry -> bool) m : list QueryHash :=
  map fst (List.filter p (map_iter m)).

Lemma elem_of_keys_where p m h :
  h ∈ keys_where p m <-> exists e, m !! h = Some e /\ p (h, e) = true.
Proof.
  unfold keys_where. rewrite list_elem_of_In, in_map_iff. split.
  - intros ([h' e] & <- & Hin%filter_In). destruct Hin as [Hin Hp].
    exists e. split; [|done]. by apply elem_of_map_iter, list_elem_of_In.
  - intros (e & He & Hp). exists (h, e). split; [done|]. apply filter_In.
    split; [|done]. by apply list_elem_of_In, elem_of_map_iter.
Qed.

Lemma NoDup_filter_fst {A B} (p : A * B -> bool) (l : list (A * B)) :
  NoDup (map fst l) -> NoDup (map fst (List.filter p l)).
Proof.
  induction l as [|[a b] l IH]; simpl; intros Hnd; [constructor|].
  apply NoDup_cons in Hnd as [Hni Hnd].
  destruct (p (a, b)); simpl; [constructor; [|by apply IH]|by apply IH].
  rewrite list_elem_of_In, in_map_iff. intros ([a' b'] & Ha & Hin%filter_In). simpl in Ha. subst.
  apply Hni. rewrite list_elem_of_In. destruct Hin as [Hin _]. by apply (in_map fst) in Hin.
Qed.

Lemma NoDup_keys_where p m : NoDup (keys_where p m).
Proof. apply NoDup_filter_fst, NoDup_map_iter. Qed.

(** Counting by iteration is counting over the map. *)
Lemma count_iter (p : CacheEntry -> bool) m :
  zlen (List.filter (fun he : QueryHash * CacheEntry => p he.2) (map_iter m)) =
  msum (fun e => if p e then 1 else 0) m.
Proof.
  assert (forall l l' : list (QueryHash * CacheEntry), l ≡ₚ l' ->
    zlen (List.filter (fun he => p he.2) l) = zlen (List.filter (fun he => p he.2) l')) as Hp.
  { intros l l' Hl. induction Hl; simpl; try done; try lia.
    - destruct (p x.2); rewrite ?zlen_cons; lia.
    - destruct (p x.2), (p y.2); rewrite ?zlen_cons; lia. }
  rewrite (Hp _ _ (map_iter_perm m)).
  induction m as [|h e m Hh IH] using map_ind; [done|].
  rewrite msum_insert_new, <- IH by done.
  rewrite (Hp _ _ (map_to_list_insert m h e Hh)). simpl.
  destruct (p e); rewrite ?zlen_cons; lia.
Qed.

(** ** Removing a list of keys *)

Lemma remove_all_lookup hs s h :
  entries (snd (remove_all hs s)) !! h = if decide (h ∈ hs) then None else entries s !! h.
Proof.
  revert s. induction hs as [|h0 hs IH]; intros s; [done|]. cbn [remove_all].
  pose proof (tracked_remove_spec h0 s) as Hs.
  destruct (tracked_remove h0 s) as [[e|] s1]; simpl in *; destruct Hs as (_ & He & _).
  1: specialize (IH s1); destruct (remove_all hs s1) as [es s2]; simpl in *.
  all: rewrite IH, He, lookup_delete;
    destruct (decide (h ∈ h0 :: hs)) as [Hin|Hin]; rewrite elem_of_cons in Hin;
    repeat case_decide; naive_solver.
Qed.

Lemma remove_all_removed hs s :
  NoDup hs -> map Some (fst (remove_all hs s)) = List.filter (fun o => bool_decide (is_Some o))
                                                    (map (fun h => entries s !! h) hs).
Proof.
  revert s. induction hs as [|h0 hs IH]; intros s Hnd; simpl; [done|].
  apply NoDup_cons in Hnd as [Hni Hnd].
  pose proof (tracked_remove_spec h0 s) as Hs.
  assert (forall s1, entries s1 = delete h0 (entries s) ->
            map (fun h => entries s1 !! h) hs = map (fun h => entries s !! h) hs) as Hsame.
  { intros s1 He. apply map_ext_in. intros h Hin. rewrite He, lookup_delete_ne; [done|].
    intros ->. by apply Hni, list_elem_of_In. }
  destruct (tracked_remove h0 s) as [[e|] s1]; simpl in *; destruct Hs as (Heq & He & _); rewrite <- Heq.
  - rewrite bool_decide_eq_true_2 by eauto. specialize (IH s1 Hnd).
    destruct (remove_all hs s1) as [es s2]; simpl in *. by rewrite IH, Hsame.
  - rewrite bool_decide_eq_false_2 by (by intros []). by rewrite IH, Hsame.
Qed.

Lemma remove_all_count hs s :
  NoDup hs -> (forall h, h ∈ hs -> is_Some (entries s !! h)) ->
  zlen (fst (remove_all hs s)) = zlen hs.
Proof.
  intros Hnd Hall. pose proof (remove_all_removed hs s Hnd) as Hr.
  apply (f_equal length) in Hr. rewrite length_map in Hr. unfold zlen. rewrite Hr.
  clear Hr. induction hs as [|h hs IH]; simpl; [done|].
  apply NoDup_cons in Hnd as [_ Hnd].
  rewrite bool_decide_eq_true_2 by (apply Hall; set_solver). simpl.
  rewrite !Nat2Z.inj_succ. f_equal. apply IH; [done|]. intros. apply Hall. set_solver.
Qed.

(** The keys that satisfy [p] go, the others stay. *)
Lemma sweep_lookup (p : CacheEntry -> bool) s h :
  entries (snd (remove_all (keys_where (fun he => p he.2) (entries s)) s)) !! h =
  match entries s !! h with Some e => if p e then None else Some e | None => None end.
Proof.
  rewrite remove_all_lookup. case_decide as Hin; rewrite elem_of_keys_where in Hin; simpl in Hin.
  - destruct Hin as (e & -> & Hp). by rewrite Hp.
  - destruct (entries s !! h) as [e|]; [|done]. destruct (p e) eqn:Ep; [|done].
    exfalso. eauto.
Qed.

Lemma sweep_count (p : CacheEntry -> bool) s :
  zlen (fst (remove_all (keys_where (fun he => p he.2) (entries s)) s)) =
  msum (fun e => if p e then 1 else 0) (entries s).
Proof.
  rewrite remove_all_count, <- count_iter.
  - unfold keys_where, zlen. by rewrite length_map.
  - apply NoDup_keys_where.
  - intros h (e & He & _)%elem_of_keys_where. eauto.
Qed.
End CacheSweep.
