(* ===== verification/CacheProps.v ===== *)
(** * Properties of the cache store

    The claims about [CacheStore] and their witnesses.  The witnesses run the
    store with a concrete environment ([DemoEnv]): the identity for the hash, the
    ASCII case table, and [map_to_list] for the iteration order. *)

From Stdlib Require Import SpecFloat.
From S2P Require Import Prelude Floats Text Types Cdc Cache CacheInv CacheReach CacheSpec CacheSweep.
Open Scope Z_scope.
Open Scope conproxy_scope.

(** ** A concrete environment *)

Definition DemoExternals : Externals :=
  {| blake3_hash := fun b => b; blake3_keyed_hex := fun k b => k ++ b; json_to_string := fun _ => [] |}.
Definition DemoEnv : CacheEnv :=
  {| env_externals := DemoExternals; env_case := AsciiCase; serde_to_vec := fun _ => Some [];
     size_of_CacheEntry := 200; map_iter := map_to_list |}.
#[local] Existing Instance DemoEnv.
#[export] Instance DemoEnv_laws : CacheEnvLaws DemoEnv.
Proof. split; simpl; [done|]. unfold usize_max, u_max. lia. Qed.

Definition demo_clock : Clock := {| mono := 5; wall := from_secs 1000 |}.
Definition demo_result (id text : string) : SearchResult :=
  {| sr_id := lit id; score := F32.of_Z 1; content := lit text; metadata := None; sr_upstream_id := None |}.
Definition demo_response (text : string) : QueryResponse :=
  {| results := [demo_result "doc" text]; cache_status := Miss; took_ms := 3; generated_at := None;
     miss_reason := None |}.
Definition demo_init : CacheStore := CacheStore_with (from_secs 60) (from_secs 60) 2 0 f_zero.
Definition demo_ops : list op :=
  [OWithNormalizedMatching true;
   OInsert demo_clock (lit "Alpha") (demo_response "a") (lit "up1");
   OInsert demo_clock (lit "beta") (demo_response "b") (lit "up2");
   OGet (lit "alpha ");
   OInsert demo_clock (lit "gamma") (demo_response "c") (lit "up1")].
Definition ret_or {A} (d : A) (o : outcome A) : A := match o with Ret a => a | Panic => d end.
Definition demo_store : CacheStore := Eval vm_compute in ret_or demo_init (run_ops demo_ops demo_init).
Definition demo_queries (q : str) : Prop :=
  q ∈ map lit ["Alpha"; "beta"; "alpha "; "gamma"; "ALPHA"]%string.

Lemma demo_run : run_ops demo_ops demo_init = Ret demo_store.
Proof. vm_compute. reflexivity. Qed.

Lemma demo_reachable : reachable (op_in demo_queries) 2 demo_store.
Proof.
  eapply reachable_run; [|apply reach_init|exact demo_run].
  repeat constructor; apply (bool_decide_eq_true _); vm_compute; reflexivity.
Qed.

Section CacheProps.
Context `{E : CacheEnv} {L : CacheEnvLaws E}.
Implicit Types (s : CacheStore) (h : QueryHash) (e : CacheEntry) (clk : Clock).

(** ** Helper lemmas *)

Lemma fold_wrap_sum (l : list (QueryHash * CacheEntry)) :
  fold_right (fun he acc => wrap 64 (approximate_size he.2 + acc)) 0 l =
  wrap 64 (fold_right (fun he acc => approximate_size he.2 + acc) 0 l).
Proof.
  induction l as [|[h e] l IH]; simpl; [done|]. rewrite IH.
  rewrite Z.add_comm, wrap_add_l, Z.add_comm. done.
Qed.

Lemma memory_usage_msum s : memory_usage s = wrap 64 (msum approximate_size (entries s)).
Proof.
  unfold memory_usage. rewrite fold_wrap_sum. f_equal.
  assert (forall l l' : list (QueryHash * CacheEntry), l ≡ₚ l' ->
    fold_right (fun he acc => approximate_size he.2 + acc) 0 l =
    fold_right (fun he acc => approximate_size he.2 + acc) 0 l') as Hp.
  { intros l l' Hl. induction Hl; simpl; lia. }
  rewrite (Hp _ _ (map_iter_perm _)).
  generalize (entries s). intros m. induction m as [|h e m Hh IH] using map_ind; [done|].
  rewrite (Hp _ _ (map_to_list_insert m h e Hh)), msum_insert_new by done. simpl. lia.
Qed.

(** The abstract cache after a sequence of operations. *)
Inductive abs_run : list op -> gmap QueryHash Payload -> gmap QueryHash Payload -> Prop :=
| abs_nil a : abs_run [] a a
| abs_snoc os o a a1 a2 : abs_run os a a1 -> abs_step o a1 a2 -> abs_run (os ++ [o]) a a2.

Lemma run_refines N os s0 s :
  inv N s0 -> refines s0 ∅ -> run_ops os s0 = Ret s ->
  inv N s /\ exists a, abs_run os ∅ a /\ refines s a.
Proof.
  intros Hi Hr. revert s. induction os as [|o os IH] using rev_ind; intros s; unfold run_ops.
  { intros [= <-]. split; [done|]. exists ∅. split; [constructor|done]. }
  rewrite fold_left_app. simpl. fold (run_ops os s0).
  destruct (run_ops os s0) as [s1|] eqn:Hs; simpl; [|done]. intros Ho.
  destruct (IH s1 eq_refl) as (Hi1 & a1 & Ha1 & Hr1).
  split; [by eapply inv_apply_op|].
  destruct (step_refines N o s1 s a1 Hi1 Hr1 Ho) as (a2 & Ha2 & Hr2).
  exists a2. split; [by econstructor|done].
Qed.

Lemma collapse_ws_idem b q : collapse_ws b (collapse_ws b q) = collapse_ws b q.
Proof.
  revert b. induction q as [|c q IH]; intros b; simpl; [done|].
  destruct (is_whitespace c) eqn:Ec; [destruct b; simpl; by rewrite ?IH|].
  simpl. by rewrite Ec, IH.
Qed.

Lemma collapse_ws_head q c : head q = Some c -> is_whitespace c = false ->
  head (collapse_ws false q) = Some c.
Proof. destruct q as [|d q]; simpl; [done|]. by intros [= ->] ->. Qed.

Lemma collapse_ws_last b q c : last q = Some c -> is_whitespace c = false ->
  last (collapse_ws b q) = Some c.
Proof.
  revert b. induction q as [|d q IH]; intros b Hl Hc; [done|].
  destruct q as [|d' q].
  - simpl in Hl. injection Hl as ->. simpl. by rewrite Hc.
  - rewrite last_cons_cons in Hl. simpl (collapse_ws b (d :: d' :: q)).
    assert (forall b', last (collapse_ws b' (d' :: q)) = Some c) as HL by eauto.
    assert (forall x b', last (x :: collapse_ws b' (d' :: q)) = Some c) as HX.
    { intros x b'. specialize (HL b'). destruct (collapse_ws b' (d' :: q)); [done|].
      by rewrite last_cons_cons. }
    destruct (is_whitespace d); [destruct b|]; [exact (HL true)|exact (HX 32 true)|exact (HX d false)].
Qed.

Lemma collapse_ws_fixed {U : UnicodeCase} {UL : UnicodeCaseLaws U} b q :
  Forall lower_fixed q -> Forall lower_fixed (collapse_ws b q).
Proof.
  intros Hq. revert b. induction Hq as [|c q Hc Hq IH]; intros b; simpl; [constructor|].
  destruct (is_whitespace c); [destruct b; auto; constructor; auto using lower_space|auto].
Qed.

(** ** Claims *)

(** C6: whatever sequence of public operations is run on a store built for [n]
    entries, and whatever their arguments, the store never holds more than
    [max 1 n] entries. *)
Theorem cache_capacity P n s :
  0 <= n < usize_max -> reachable P n s -> Z.of_nat (size (entries s)) <= Z.max 1 n.
Proof. intros Hn Hr. by eapply inv_size, reachable_inv. Qed.

(** C7: the constant-time memory counter, maintained incrementally through every
    insertion, overwrite, removal and eviction, always equals the full scan of
    [memory_usage] over the entries. *)
Theorem cache_memory_exact P n s :
  0 <= n < usize_max -> reachable P n s -> total_memory_bytes s = memory_usage s.
Proof.
  intros Hn Hr. rewrite memory_usage_msum. by eapply wq_mem, reachable_inv.
Qed.

(** C2: the store refines a lossy map.  After any sequence of operations, an
    entry returned for a key carries the response, upstream, query text and
    context of the last insertion under that key which no removal or
    invalidation has followed. *)
Theorem cache_refines_map os n fresh stale mem jit s :
  0 <= n < usize_max -> run_ops os (CacheStore_with fresh stale n mem jit) = Ret s ->
  exists a, abs_run os ∅ a /\
    forall h e, fst (get_by_hash h s) = Some e -> a !! h = Some (payload_of e).
Proof.
  intros Hn Hrun. eapply run_refines in Hrun as (_ & a & Ha & Hr);
    [|by apply inv_init|intros h e; simpl; by rewrite lookup_empty].
  exists a. split; [done|]. intros h e. unfold get_by_hash.
  destruct (entries s !! h) as [e0|] eqn:He; simpl; [|done].
  rewrite (bump_lookup h e0) by done. intros [= <-]. by rewrite (Hr _ _ He).
Qed.

(** C8: the two-tier lookup (exact text, then normalized text) is an
    optimisation only.  When the exact hash does not collide on the queries in
    play, [get] returns the same entry and leaves the same entries as the plain
    lookup by normalized hash. *)
Theorem two_tier_equiv Q n s q :
  0 <= n < usize_max -> collision_free Q -> reachable (op_in Q) n s -> Q q ->
  fst (get q s) = fst (get_by_hash (hash_query q) s) /\
  entries (snd (get q s)) = entries (snd (get_by_hash (hash_query q) s)).
Proof.
  intros Hn Hc Hr Hq. pose proof (reachable_e2n_ok Q n s Hn Hr) as Hok.
  unfold get, get_two_tier, get_by_hash.
  destruct (normalized_matching s); [destruct (tier1 q s) as [[nh e]|] eqn:Ht|].
  - destruct (tier1_sound _ _ _ _ _ Hc Hok Hq Ht) as [-> He]. by rewrite He.
  - destruct (entries s !! hash_query q) as [e|] eqn:He; [|done].
    unfold bump_freq. simpl. by rewrite He.
  - by destruct (entries s !! hash_query q).
Qed.

(** Insert, then look up.  When the key is already cached or there is room
    for one more entry, the lookup that follows an insertion returns the inserted
    response, and every other entry is untouched. *)
Theorem insert_then_get P n clk q r u s :
  0 <= n < usize_max -> reachable P n s -> per_upstream_limit s = None ->
  is_Some (entries s !! hash_query q) \/
  has_room (Z.max 1 n) (new_entry clk r u (Some q) (lit "default")) s ->
  let s' := insert clk q r u s in
  fst (get q s') = Some (put_freq (new_entry clk r u (Some q) (lit "default")) 1) /\
  forall h, h <> hash_query q -> entries s' !! h = entries s !! h.
Proof.
  intros Hn Hr Hp Hroom s'.
  destruct (insert_impl_room (Z.max 1 n) clk q r u (lit "default") s) as (He & Hnm & He2n);
    [by eapply reachable_inv|done..|]. fold (insert clk q r u s) in He, Hnm, He2n. fold s' in He, Hnm, He2n.
  split; [|intros h Hh; by rewrite He, lookup_insert_ne].
  eapply insert_impl_get; [by eapply reachable_inv|done..].
Qed.
End CacheProps.

Lemma cache_capacity_witness :
  Z.of_nat (size (entries demo_store)) <= 2 /\ size (entries demo_store) = 2%nat.
Proof.
  split; [|vm_compute; reflexivity].
  apply (cache_capacity (op_in demo_queries) 2 demo_store); [unfold usize_max, u_max; lia|].
  exact demo_reachable.
Defined.

Lemma cache_memory_exact_witness :
  total_memory_bytes demo_store = memory_usage demo_store /\ 400 < total_memory_bytes demo_store.
Proof.
  split; [|vm_compute; reflexivity].
  apply (cache_memory_exact (op_in demo_queries) 2 demo_store); [unfold usize_max, u_max; lia|].
  exact demo_reachable.
Defined.

Lemma cache_refines_map_witness :
  exists a, abs_run demo_ops ∅ a /\
    forall h e, fst (get_by_hash h demo_store) = Some e -> a !! h = Some (payload_of e).
Proof.
  apply (cache_refines_map demo_ops 2 (from_secs 60) (from_secs 60) 0 f_zero demo_store);
    [unfold usize_max, u_max; lia|exact demo_run].
Defined.

Lemma demo_collision_free : collision_free demo_queries.
Proof.
  intros q q' Hq Hq'. unfold hash_query_exact. simpl.
  unfold demo_queries in *. simpl in *.
  rewrite !elem_of_cons, elem_of_nil in Hq, Hq'.
  destruct_or! Hq; destruct_or! Hq'; subst; vm_compute; congruence.
Qed.

Lemma two_tier_equiv_witness :
  fst (get (lit "ALPHA") demo_store) = fst (get_by_hash (hash_query (lit "ALPHA")) demo_store) /\
  entries (snd (get (lit "ALPHA") demo_store)) =
    entries (snd (get_by_hash (hash_query (lit "ALPHA")) demo_store)).
Proof.
  apply (two_tier_equiv demo_queries 2 demo_store (lit "ALPHA"));
    [unfold usize_max, u_max; lia|exact demo_collision_free|exact demo_reachable|].
  apply (bool_decide_eq_true _). vm_compute. reflexivity.
Defined.

Lemma insert_then_get_witness :
  fst (get (lit "q") (insert demo_clock (lit "q") (demo_response "x") (lit "up1") demo_init)) =
    Some (put_freq (new_entry demo_clock (demo_response "x") (lit "up1") (Some (lit "q")) (lit "default")) 1).
Proof.
  refine (proj1 (insert_then_get (fun _ => True) 2 demo_clock (lit "q") (demo_response "x") (lit "up1")
    demo_init _ _ _ _)).
  - unfold usize_max, u_max. lia.
  - apply reach_init.
  - reflexivity.
  - right. split; [vm_compute; reflexivity|]. left. vm_compute. discriminate.
Defined.
