(* ===== verification/CacheEvict.v ===== *)
(** * Properties of eviction and maintenance

    S3-FIFO evictions, the memory limit, the per-upstream limit, filtered
    eviction and the integrity sweep. *)

From Stdlib Require Import SpecFloat.
From S2P Require Import Prelude Floats Text Types Cdc Cache CacheInv CacheReach CacheSpec CacheSweep CacheProps.
Open Scope Z_scope.
Open Scope conproxy_scope.

Section CacheEvict.
Context `{E : CacheEnv} {L : CacheEnvLaws E}.
Implicit Types (s : CacheStore) (h : QueryHash) (e : CacheEntry) (clk : Clock)
  (m : gmap QueryHash CacheEntry).

(** ** Cold entries *)

Definition cold s h : Prop := forall e, entries s !! h = Some e -> freq e = 0.
Definition all_cold s : Prop := forall h, cold s h.

(** A pass over the main queue that evicts nothing resets the frequency of every
    key it passed over. *)
Lemma evict_main_none n s s' :
  (n <= length (main (s3fifo s)))%nat -> evict_main_loop n s = (None, s') ->
  forall h, h ∈ take n (main (s3fifo s)) \/ cold s h -> cold s' h.
Proof.
  revert s. induction n as [|n IH]; intros s Hn; simpl.
  { intros [= <-] h [[]%elem_of_nil|Hh]. done. }
  destruct (main (s3fifo s)) as [|h0 rest] eqn:Emn; simpl in Hn; [lia|].
  unfold read_and_reset_freq. simpl. destruct (entries s !! h0) as [e0|] eqn:He0.
  - destruct (freq e0 =? 0) eqn:Ef0.
    + unfold tracked_remove. simpl. by rewrite lookup_insert_eq.
    + intros Hl h Hh. eapply IH in Hl; [exact Hl| |]; simpl.
      * rewrite length_app. lia.
      * destruct Hh as [[->|Hh]%elem_of_cons|Hh].
        -- right. intros e. simpl. rewrite lookup_insert_eq. by intros [= <-].
        -- left. rewrite take_app_le by lia. done.
        -- right. intros e. simpl. rewrite lookup_insert. case_decide; [by intros [= <-]|apply Hh].
  - simpl. unfold tracked_remove. simpl. rewrite He0. intros Hl h Hh.
    eapply IH in Hl; [exact Hl|simpl; lia|]. simpl.
    destruct Hh as [[->|Hh]%elem_of_cons|Hh]; [|by left|by right].
    right. intros e. simpl. congruence.
Qed.

(** A failed eviction leaves only cold entries. *)
Lemma evict_one_none s s' : W s -> s3fifo_evict_one s = (None, s') -> all_cold s'.
Proof.
  intros HW Ho. pose proof (evict_one_evicts _ _ _ HW Ho) as Hev.
  assert (Hmain : forall s1, W s1 -> small (s3fifo s1) = [] ->
    (if negb (is_empty_q (main (s3fifo s1))) then s3fifo_evict_from_main s1 else (None, s1)) = (None, s') ->
    all_cold s').
  { intros s1 HW1 Hsm Hm h. destruct (main (s3fifo s1)) as [|x l] eqn:Em; simpl in Hm.
    - injection Hm as <-. intros e He. destruct (wq_cov _ _ _ HW1 h) as [Hq|Hq]; [by eexists| |];
        rewrite ?Hsm, ?Em in Hq; by apply elem_of_nil in Hq.
    - unfold s3fifo_evict_from_main in Hm.
      eapply (evict_main_none _ _ _ (Nat.le_refl _) Hm). rewrite take_ge by done.
      destruct (entries s1 !! h) as [e|] eqn:He; [|right; intros e; congruence]. left.
      destruct (wq_cov _ _ _ HW1 h) as [Hq|Hq]; [by eexists| |done].
      rewrite Hsm in Hq. by apply elem_of_nil in Hq. }
  revert Ho. unfold s3fifo_evict_one, s3fifo_evict_from_small.
  destruct (small (s3fifo s)) as [|x l] eqn:Esm; cbn [is_empty_q negb]; [by apply Hmain|]. rewrite <- Esm.
  destruct (evict_small_loop _ 0 s) as [r1 s1] eqn:Hs.
  pose proof (evict_small_loop_evicts _ _ _ _ _ HW Hs) as Hev1.
  destruct r1 as [src|]; [done|]. apply Hmain; [apply Hev1|].
  by apply (evict_small_none _ _ _ _ eq_refl Hs).
Qed.

Lemma cools_cold s s' : W s' -> cools (entries s) (entries s') -> all_cold s -> all_cold s'.
Proof.
  intros HW Hc Hs h e' He'. destruct (Hc _ _ He') as (e & v & He & -> & Hv).
  specialize (Hs h e He). pose proof (wq_freq _ _ _ HW _ _ He'). simpl in *. lia.
Qed.

Lemma empty_memory s : W s -> entries s = ∅ -> total_memory_bytes s = 0.
Proof. intros HW He. rewrite (wq_mem _ _ _ HW), He. done. Qed.

(** Under [over_memory], the loop ends below the cap or with only cold entries;
    from cold entries it ends below the cap. *)
Lemma evict_memory_exit fuel cap se me s se' me' s' :
  W s -> 0 <= cap -> (queue_len s <= fuel)%nat ->
  evict_while fuel (over_memory cap) s3fifo_evict_one_memory se me s = (se', me', s') ->
  (over_memory cap s' = false \/ all_cold s') /\ (all_cold s -> over_memory cap s' = false).
Proof.
  revert se me s. induction fuel as [|fuel IH]; intros se me s HW Hcap Hf; simpl.
  { intros [= _ _ <-]. assert (entries s = ∅) as He.
    { apply map_empty. intros h. apply eq_None_not_Some. intros Hh.
      destruct (wq_cov _ _ _ HW h Hh) as [Hq|Hq]; unfold queue_len in Hf;
        [destruct (small (s3fifo s))|destruct (main (s3fifo s))]; simpl in *;
        (lia || by apply elem_of_nil in Hq). }
    assert (over_memory cap s = false) as ->; [|auto].
    unfold over_memory. rewrite (empty_memory s HW He). apply Z.ltb_ge. lia. }
  destruct (over_memory cap s) eqn:Ec; [|intros [= _ _ <-]; auto].
  rewrite evict_one_memory_eq.
  destruct (s3fifo_evict_one s) as [r s1] eqn:Ho. pose proof (evict_one_evicts _ _ _ HW Ho) as Hev.
  destruct r as [src|].
  - pose proof (ev_len _ _ _ Hev) as Hl. simpl in Hl.
    assert (W s1 /\ (queue_len s1 <= fuel)%nat) as [HW1 Hf1] by (split; [apply Hev|lia]).
    assert (all_cold s -> all_cold s1) by (apply cools_cold; [done|apply Hev]).
    destruct src; intros Hw; destruct (IH _ _ _ HW1 Hcap Hf1 Hw); auto.
  - intros [= _ _ <-]. split; [right; by eapply evict_one_none|].
    intros Hcold. exfalso. destruct (map_choose (entries s)) as (h & e & He).
    { intros He. unfold over_memory in Ec. rewrite (empty_memory s HW He) in Ec. reflect_Z. lia. }
    destruct (evict_one_cold s h e (wq_cov _ _ _ HW h ltac:(eauto)) He (Hcold h e He)) as (? & ? & ?).
    congruence.
Qed.

Lemma enforce_memory_limit_exit s :
  W s -> 0 < max_memory_bytes s ->
  let s' := snd (enforce_memory_limit s) in
  W s' /\ max_memory_bytes s' = max_memory_bytes s /\
  (total_memory_bytes s' <= max_memory_bytes s \/ all_cold s') /\
  (all_cold s -> total_memory_bytes s' <= max_memory_bytes s).
Proof.
  intros HW Hcap s'. unfold s', enforce_memory_limit.
  rewrite (proj2 (Z.eqb_neq _ _)) by lia.
  destruct (evict_while _ _ _ _ _ _) as [[se me] s1] eqn:Hl. simpl.
  pose proof (evict_while_reduces _ _ _ _ _ _ _ _ HW Hl) as Hr.
  apply evict_memory_exit in Hl as [H1 H2]; [|done|lia|done].
  assert (over_memory (max_memory_bytes s) s1 = false <-> total_memory_bytes s1 <= max_memory_bytes s)
    as Hiff by (unfold over_memory; rewrite Z.ltb_ge; done).
  rewrite Hiff in H1, H2. pose proof (rd_cfg _ _ Hr) as Hcfg. unfold cfg in Hcfg.
  pose proof (rd_W _ _ Hr).
  destruct (0 <? se +! me); simpl; split_and!; auto; congruence.
Qed.

(** ** Counting per upstream *)

Definition of_upstream (u : str) e : bool := str_eqb (ce_upstream_id e) u.

Lemma count_for_upstream_msum u s :
  count_for_upstream u s = msum (fun e => if of_upstream u e then 1 else 0) (entries s).
Proof. apply (count_iter (of_upstream u)). Qed.

Lemma msum_mono (f : CacheEntry -> Z) m m' :
  (forall e, 0 <= f e) ->
  (forall h e', m' !! h = Some e' -> exists e, m !! h = Some e /\ f e' = f e) ->
  msum f m' <= msum f m.
Proof.
  intros Hf. revert m. induction m' as [|h e' m' Hh IH] using map_ind; intros m Hm.
  { rewrite msum_empty. apply msum_nonneg. auto. }
  destruct (Hm h e') as (e & He & Hfe); [by rewrite lookup_insert_eq|].
  rewrite msum_insert_new, (msum_delete f m h e) by done. rewrite Hfe.
  assert (msum f m' <= msum f (delete h m)); [|lia].
  apply IH. intros h2 e2 He2. assert (h <> h2) by congruence.
  destruct (Hm h2 e2) as (e3 & ? & ?); [by rewrite lookup_insert_ne|].
  exists e3. by rewrite lookup_delete_ne.
Qed.

Lemma count_shrinks u m m' :
  shrinks m m' ->
  msum (fun e => if of_upstream u e then 1 else 0) m' <= msum (fun e => if of_upstream u e then 1 else 0) m.
Proof.
  intros Hs. apply msum_mono; [intros e; by destruct (of_upstream u e)|].
  intros h e' He'. destruct (Hs _ _ He') as (e & v & He & ->). eauto.
Qed.

Lemma count_insert u m h e :
  msum (fun e => if of_upstream u e then 1 else 0) (<[h := e]> m) <=
  (if of_upstream u e then 1 else 0) + msum (fun e => if of_upstream u e then 1 else 0) m.
Proof.
  destruct (m !! h) as [o|] eqn:Ho; [|by rewrite msum_insert_new].
  rewrite (msum_insert_old _ _ _ o) by done. destruct (of_upstream u o), (of_upstream u e); lia.
Qed.

(** ** Oldest-first eviction of an upstream's entries *)

Lemma sorted_take_drop {A} (R : A -> A -> Prop) k l x y :
  StronglySorted R l -> x ∈ take k l -> y ∈ drop k l -> R x y.
Proof.
  intros Hs. revert k. induction Hs as [|z l Hs IH Hz]; intros k Hx Hy.
  { rewrite take_nil in Hx. by apply elem_of_nil in Hx. }
  destruct k as [|k]; simpl in *; [by apply elem_of_nil in Hx|].
  apply elem_of_cons in Hx as [->|Hx]; [|by eapply IH].
  rewrite Forall_forall in Hz. apply Hz.
  rewrite <- (take_drop k l). apply elem_of_app. by right.
Qed.

Definition age clk e : Z := elapsed (mono clk) (cached_at e).

(** The keys [evict_from_upstream] selects, oldest first. *)
Definition by_age clk u s : list (QueryHash * Z) :=
  sort_by age_desc
    (map (fun he : QueryHash * CacheEntry => (he.1, elapsed (mono clk) (cached_at he.2)))
       (List.filter (fun he => str_eqb (ce_upstream_id he.2) u) (map_iter (entries s)))).

Lemma elem_of_by_age clk u s h a :
  (h, a) ∈ by_age clk u s <->
  exists e, entries s !! h = Some e /\ of_upstream u e = true /\ a = age clk e.
Proof.
  unfold by_age. rewrite sort_by_perm, list_elem_of_In, in_map_iff. split.
  - intros ([h' e] & Heq & [Hin Hp]%filter_In). injection Heq as -> <-. exists e.
    split; [|done]. by apply elem_of_map_iter, list_elem_of_In.
  - intros (e & He & Hp & ->). exists (h, e). split; [done|]. apply filter_In.
    split; [|done]. by apply list_elem_of_In, elem_of_map_iter.
Qed.

Lemma by_age_fst clk u s :
  map fst (by_age clk u s) ≡ₚ keys_where (fun he => of_upstream u he.2) (entries s).
Proof.
  unfold by_age. change (map fst) with (fmap (M := list) (@fst QueryHash Z)).
  rewrite sort_by_perm. change (fmap (M := list) (@fst QueryHash Z)) with (map (@fst QueryHash Z)).
  rewrite map_map. done.
Qed.

Lemma by_age_sorted clk u s :
  StronglySorted (fun x y => age_desc x y = true) (by_age clk u s).
Proof.
  apply sort_by_sorted; unfold age_desc.
  - intros x y. rewrite Z.leb_gt, Z.leb_le. lia.
  - intros x y z. rewrite !Z.leb_le. lia.
Qed.

Lemma fold_emit_entries clk removed s :
  entries (fold_left (fun s e => match query_text e with
                                 | Some q => emit clk Remove (builder_remove q) s
                                 | None => s
                                 end) removed s) = entries s.
Proof.
  revert s. induction removed as [|e es IH]; intros s; simpl; [done|]. rewrite IH.
  destruct (query_text e); [|done]. apply emit_frame.
Qed.

Lemma NoDup_take_keys k clk u s : NoDup (map fst (take k (by_age clk u s))).
Proof.
  change (map fst (take k (by_age clk u s))) with ((take k (by_age clk u s)).*1).
  rewrite fmap_take. apply (NoDup_app (take k (by_age clk u s).*1) (drop k (by_age clk u s).*1)).
  rewrite take_drop. change ((by_age clk u s).*1) with (map fst (by_age clk u s)).
  rewrite by_age_fst. apply NoDup_keys_where.
Qed.

Lemma evict_from_upstream_spec clk u n s :
  0 <= n ->
  let ks := map fst (take (Z.to_nat n) (by_age clk u s)) in
  fst (evict_from_upstream clk u n s) = zlen ks /\
  (forall h, entries (snd (evict_from_upstream clk u n s)) !! h =
             if decide (h ∈ ks) then None else entries s !! h).
Proof.
  intros Hn ks. unfold evict_from_upstream. destruct (n =? 0) eqn:E0; reflect_Z.
  { subst n. split; [done|]. intros h. unfold ks. done. }
  fold (by_age clk u s). fold ks.
  pose proof (remove_all_count ks s) as Hc. pose proof (remove_all_lookup ks s) as Hl.
  destruct (remove_all ks s) as [removed s1]. simpl in *.
  rewrite Hc; [|apply NoDup_take_keys|].
  - split; [done|]. intros h. rewrite <- Hl.
    destruct (0 <? zlen ks); simpl; (destruct (cdc_sender s1); [|done]); by rewrite fold_emit_entries.
  - intros h Hh. unfold ks in Hh. rewrite list_elem_of_In, in_map_iff in Hh.
    destruct Hh as ([h' a] & <- & Hin%list_elem_of_In).
    assert ((h', a) ∈ by_age clk u s) as (e & He & _)%elem_of_by_age; [|simpl; eauto].
    rewrite <- (take_drop (Z.to_nat n)). apply elem_of_app. by left.
Qed.

Lemma zlen_by_age clk u s : zlen (by_age clk u s) = count_for_upstream u s.
Proof. unfold by_age, zlen. by rewrite length_sort_by, length_map. Qed.

Lemma evict_from_upstream_count clk u n s :
  0 <= n -> fst (evict_from_upstream clk u n s) = Z.min n (count_for_upstream u s).
Proof.
  intros Hn. rewrite (proj1 (evict_from_upstream_spec clk u n s Hn)).
  rewrite <- (zlen_by_age clk). unfold zlen. rewrite length_map, length_take. lia.
Qed.

(** Removing present keys of a kind lowers the count of that kind by their number. *)
Lemma count_after_removal (p : CacheEntry -> bool) m ks :
  NoDup ks -> (forall h, h ∈ ks -> exists e, m !! h = Some e /\ p e = true) ->
  forall m', (forall h, m' !! h = if decide (h ∈ ks) then None else m !! h) ->
  msum (fun e => if p e then 1 else 0) m' = msum (fun e => if p e then 1 else 0) m - zlen ks.
Proof.
  revert m. induction ks as [|k ks IH]; intros m Hnd Hks m' Hm'.
  { change (zlen []) with 0. rewrite Z.sub_0_r. f_equal. apply map_eq. intros h. by rewrite Hm'. }
  apply NoDup_cons in Hnd as [Hni Hnd]. destruct (Hks k) as (e & He & Hu); [set_solver|].
  rewrite (IH (delete k m)); [| done | |].
  - rewrite (msum_delete _ m k e) by done. rewrite Hu, zlen_cons. lia.
  - intros h Hh. destruct (Hks h) as (e' & ? & ?); [set_solver|].
    exists e'. rewrite lookup_delete_ne by (intros ->; done). done.
  - intros h. rewrite Hm', lookup_delete.
    destruct (decide (h ∈ k :: ks)) as [Hin|Hin]; rewrite elem_of_cons in Hin;
      repeat case_decide; naive_solver.
Qed.

Lemma evict_from_upstream_remaining clk u n s :
  0 <= n ->
  count_for_upstream u (snd (evict_from_upstream clk u n s)) =
  count_for_upstream u s - fst (evict_from_upstream clk u n s).
Proof.
  intros Hn. destruct (evict_from_upstream_spec clk u n s Hn) as [-> Hl].
  rewrite !count_for_upstream_msum. apply (count_after_removal (of_upstream u) _ _ (NoDup_take_keys _ _ _ _)); [|exact Hl].
  intros h Hh. rewrite list_elem_of_In, in_map_iff in Hh.
  destruct Hh as ([h' a] & <- & Hin%list_elem_of_In).
  assert ((h', a) ∈ by_age clk u s) as (e & He & Hu & _)%elem_of_by_age; [|eauto].
  rewrite <- (take_drop (Z.to_nat n)). apply elem_of_app. by left.
Qed.

Lemma check_limit_count N clk u l s :
  inv N s -> per_upstream_limit s = Some l -> 0 <= l -> count_for_upstream u s <= Z.max 1 l ->
  count_for_upstream u (check_upstream_limit clk u s) <= Z.max 1 l - 1.
Proof.
  intros Hi Hl Hpos Hc. unfold check_upstream_limit. rewrite Hl.
  destruct (l <=? count_for_upstream u s) eqn:El; reflect_Z; [|lia].
  pose proof (evict_from_upstream_remaining clk u 1 s ltac:(lia)) as Hrem.
  rewrite evict_from_upstream_count in Hrem by lia.
  destruct (evict_from_upstream clk u 1 s) as [k s1]. simpl in *.
  change (count_for_upstream u (upd_stats s1 _)) with (count_for_upstream u s1).
  rewrite Hrem. assert (0 <= count_for_upstream u s) by apply zlen_nonneg. lia.
Qed.

Lemma filter_keys_present k p s h :
  h ∈ take k (keys_where p (entries s)) -> exists e, entries s !! h = Some e /\ p (h, e) = true.
Proof.
  intros Hh. apply elem_of_keys_where. rewrite <- (take_drop k). apply elem_of_app. by left.
Qed.

Lemma NoDup_take {A} k (l : list A) : NoDup l -> NoDup (take k l).
Proof. intros Hl. rewrite <- (take_drop k l) in Hl. by apply NoDup_app in Hl as [? _]. Qed.

(** [take m] written over the two cases of the bound. *)
Definition filter_bound (max : option Z) (n : nat) : nat :=
  match max with Some k => Z.to_nat k | None => n end.

Lemma evict_filter_keys clk c p o mx s :
  let f := filter_matches clk c p o in
  let ks := keys_where (fun he => f he.2) (entries s) in
  let ks' := take (filter_bound mx (length ks)) ks in
  fst (evict_filter clk c p o mx s) = zlen ks' /\
  (forall h, entries (snd (evict_filter clk c p o mx s)) !! h =
             if decide (h ∈ ks') then None else entries s !! h).
Proof.
  intros f ks ks'. unfold evict_filter. fold f. fold (keys_where (fun he => f he.2) (entries s)). fold ks.
  assert (match mx with Some m => take (Z.to_nat m) ks | None => ks end = ks') as ->.
  { unfold ks', filter_bound. destruct mx; [done|]. by rewrite take_ge. }
  pose proof (remove_all_lookup ks' s) as Hl. pose proof (remove_all_count ks' s) as Hc.
  destruct (remove_all ks' s) as [removed s1]. simpl in *. rewrite Hc.
  - split; [done|]. intros h. rewrite <- Hl. destruct (0 <? zlen ks'); [|done].
    match goal with |- context [emit ?a ?b ?d ?x] => destruct (emit_frame a b d x) as (-> & _) end. done.
  - apply NoDup_take, NoDup_keys_where.
  - intros h (e & He & _)%filter_keys_present. eauto.
Qed.

Lemma fold_integrity_invalid (l : list (QueryHash * CacheEntry)) v i mi :
  (forall h e, (h, e) ∈ l -> corrupted e = false) ->
  (fold_left (fun acc (he : QueryHash * CacheEntry) =>
      let '(v, i, m) := acc in
      match content_hash he.2 with
      | Some stored => if bool_decide (stored = compute_content_hash (response he.2))
                       then (v +! 1, i, m) else (v, i +! 1, m)
      | None => (v, i, m +! 1)
      end) l (v, i, mi)).1.2 = i.
Proof.
  revert v mi. induction l as [|[h e] l IH]; intros v mi Hl; simpl; [done|].
  assert (corrupted e = false) as Hc by (apply (Hl h); set_solver).
  unfold corrupted in Hc. destruct (content_hash e) as [x|].
  - apply negb_false_iff in Hc. rewrite Hc. apply IH. intros h' e' ?. apply (Hl h'). set_solver.
  - apply IH. intros h' e' ?. apply (Hl h'). set_solver.
Qed.

(** ** Claims *)

(** One S3-FIFO eviction.  [s3fifo_evict_one] either removes exactly one
    entry, or removes none; it removes none only when every cached entry had been
    accessed since it was last considered, and then it has reset all their access
    counts, so that the next attempt succeeds on a non-empty store. *)
Theorem evict_one_exact P n s r s' :
  0 <= n < usize_max -> reachable P n s -> s3fifo_evict_one s = (r, s') ->
  match r with
  | Some _ => size (entries s) = S (size (entries s'))
  | None => size (entries s') = size (entries s) /\
            (forall h e, entries s !! h = Some e -> freq e <> 0) /\
            (forall h e, entries s' !! h = Some e -> freq e = 0)
  end.
Proof.
  intros Hn Hr Ho. destruct (reachable_inv P n s Hn Hr) as (HW & _).
  pose proof (evict_one_evicts _ _ _ HW Ho) as Hev. pose proof (ev_size _ _ _ Hev) as Hsz.
  destruct r as [src|]; simpl in *; [lia|]. split; [lia|]. split.
  - intros h e He Hf.
    destruct (evict_one_cold s h e (wq_cov _ _ _ HW h ltac:(eauto)) He Hf) as (? & ? & ?). congruence.
  - by eapply evict_one_none.
Qed.

(** The memory limit.  A call of [enforce_memory_limit] stops early when it
    meets only recently accessed entries, but then it has reset their counts: two
    consecutive calls always bring the store under the configured limit. *)
Theorem memory_limit_two_passes P n s :
  0 <= n < usize_max -> reachable P n s -> 0 < max_memory_bytes s ->
  let s1 := snd (enforce_memory_limit s) in
  let s2 := snd (enforce_memory_limit s1) in
  total_memory_bytes s2 <= max_memory_bytes s.
Proof.
  intros Hn Hr Hcap s1 s2. destruct (reachable_inv P n s Hn Hr) as (HW & _).
  destruct (enforce_memory_limit_exit s HW Hcap) as (HW1 & Hm1 & Hor & _).
  fold s1 in HW1, Hm1, Hor. destruct Hor as [Hle|Hcold].
  - unfold s2. unfold enforce_memory_limit. rewrite Hm1, (proj2 (Z.eqb_neq _ _)) by lia.
    rewrite evict_while_stop; [done|]. unfold over_memory. by apply Z.ltb_ge.
  - destruct (enforce_memory_limit_exit s1 HW1) as (_ & _ & _ & Hc); [by rewrite Hm1|].
    rewrite <- Hm1. by apply Hc.
Qed.

(** The per-upstream limit is kept by insertions: with limit [l], an upstream
    that holds at most [max 1 l] entries still does after any insertion, whoever
    the inserted response comes from. *)
Theorem upstream_limit_kept P n clk q r u u' c l s :
  0 <= n < usize_max -> reachable P n s -> per_upstream_limit s = Some l -> 0 <= l ->
  count_for_upstream u' s <= Z.max 1 l ->
  count_for_upstream u' (insert_with_context clk q r u c s) <= Z.max 1 l.
Proof.
  intros Hn Hr Hl Hpos Hc. pose proof (reachable_inv P n s Hn Hr) as Hi.
  set (s1 := check_upstream_limit clk u s).
  assert (count_for_upstream u' (insert_with_context clk q r u c s) <=
          (if of_upstream u' (new_entry clk r u (Some q) c) then 1 else 0) + count_for_upstream u' s1) as Hle.
  { rewrite !count_for_upstream_msum. etrans; [|apply count_insert].
    apply count_shrinks. eapply insert_impl_after_check. exact Hi. }
  destruct (of_upstream u' (new_entry clk r u (Some q) c)) eqn:Eu.
  - unfold of_upstream, str_eqb in Eu. apply bool_decide_eq_true in Eu. simpl in Eu. subst u'.
    pose proof (check_limit_count _ clk u l s Hi Hl Hpos Hc). fold s1 in H. lia.
  - assert (count_for_upstream u' s1 <= count_for_upstream u' s); [|lia].
    rewrite !count_for_upstream_msum. apply count_shrinks.
    apply lossy_check_upstream_limit, Hi.
Qed.

(** Eviction from an upstream is oldest first: [evict_from_upstream] removes
    as many of the upstream's entries as asked (or all of them), touches no other
    entry, and no entry it removed is younger than one of the same upstream that
    it kept. *)
Theorem evict_upstream_oldest_first clk u n s :
  0 <= n ->
  let s' := snd (evict_from_upstream clk u n s) in
  fst (evict_from_upstream clk u n s) = Z.min n (count_for_upstream u s) /\
  count_for_upstream u s' = count_for_upstream u s - Z.min n (count_for_upstream u s) /\
  (forall h e, entries s !! h = Some e -> ce_upstream_id e <> u -> entries s' !! h = Some e) /\
  (forall h e h' e', entries s !! h = Some e -> entries s' !! h = None ->
     entries s' !! h' = Some e' -> ce_upstream_id e' = u -> age clk e' <= age clk e).
Proof.
  intros Hn s'. split; [by apply evict_from_upstream_count|].
  split; [unfold s'; by rewrite evict_from_upstream_remaining, evict_from_upstream_count|].
  destruct (evict_from_upstream_spec clk u n s Hn) as [_ Hl]. fold s' in Hl.
  assert (Hkey : forall h, h ∈ map fst (take (Z.to_nat n) (by_age clk u s)) ->
    exists e, entries s !! h = Some e /\ of_upstream u e = true /\
              (h, age clk e) ∈ take (Z.to_nat n) (by_age clk u s)).
  { intros h Hh. rewrite list_elem_of_In, in_map_iff in Hh.
    destruct Hh as ([h' a] & <- & Hin%list_elem_of_In).
    assert ((h', a) ∈ by_age clk u s) as (e & He & Hu & ->)%elem_of_by_age; [|eauto].
    rewrite <- (take_drop (Z.to_nat n)). apply elem_of_app. by left. }
  split.
  - intros h e He Hu. rewrite Hl. case_decide as Hin; [|done].
    destruct (Hkey h Hin) as (e' & He' & Hu' & _). exfalso. apply Hu.
    assert (e' = e) as -> by congruence. by apply bool_decide_eq_true in Hu'.
  - intros h e h' e' He Hgone Hkept Hu'. rewrite Hl in Hgone, Hkept.
    destruct (decide (h ∈ _)) as [Hin|]; [|congruence].
    destruct (decide (h' ∈ _)) as [|Hnin]; [done|].
    destruct (Hkey h Hin) as (e0 & He0 & _ & Htk). assert (e0 = e) as -> by congruence.
    assert ((h', age clk e') ∈ by_age clk u s) as Hin'.
    { apply elem_of_by_age. exists e'. split_and!; try done. by apply bool_decide_eq_true_2. }
    rewrite <- (take_drop (Z.to_nat n)) in Hin'. apply elem_of_app in Hin' as [Hin'|Hin'].
    { exfalso. apply Hnin. rewrite list_elem_of_In, in_map_iff. exists (h', age clk e').
      split; [done|]. by apply list_elem_of_In. }
    pose proof (sorted_take_drop _ _ _ _ _ (by_age_sorted clk u s) Htk Hin') as Hs.
    unfold age_desc in Hs. simpl in Hs. reflect_Z. done.
Qed.

(** Filtered eviction removes what it should: every entry it removes matches
    the filter, the number it reports is the number of matching entries capped by
    [max], and without a cap no matching entry is left. *)
Theorem evict_filter_exact clk c p o mx s :
  match mx with Some k => 0 <= k | None => True end ->
  let f := filter_matches clk c p o in
  let matching := msum (fun e => if f e then 1 else 0) (entries s) in
  let s' := snd (evict_filter clk c p o mx s) in
  fst (evict_filter clk c p o mx s) = match mx with Some k => Z.min k matching | None => matching end /\
  (forall h e, entries s !! h = Some e -> f e = false -> entries s' !! h = Some e) /\
  (mx = None -> forall h e, entries s' !! h = Some e -> f e = false).
Proof.
  intros Hmx f matching s'. destruct (evict_filter_keys clk c p o mx s) as [Hn Hl].
  fold f in Hn, Hl. fold s' in Hl.
  assert (zlen (keys_where (fun he => f he.2) (entries s)) = matching) as Hcount.
  { unfold matching, keys_where. rewrite <- count_iter. unfold zlen. by rewrite length_map. }
  split; [|split].
  - rewrite Hn. unfold zlen in *. rewrite length_take. unfold filter_bound. destruct mx; lia.
  - intros h e He Hf. rewrite Hl. case_decide as Hin; [|done].
    apply filter_keys_present in Hin as (e' & He' & Hf'). simpl in Hf'. congruence.
  - intros -> h e. rewrite Hl. simpl. rewrite take_ge by done. case_decide as Hin; [done|].
    intros He. destruct (f e) eqn:Ef; [|done]. exfalso. apply Hin, elem_of_keys_where. eauto.
Qed.

(** The integrity sweep.  [remove_corrupted] removes exactly the entries whose
    stored hash disagrees with their content, after which [verify_integrity] reports
    no invalid entry; and [get_verified] never returns an entry with a wrong hash. *)
Theorem integrity_sweep s :
  ir_invalid (verify_integrity (snd (remove_corrupted s))) = 0 /\
  (forall h e, entries s !! h = Some e -> corrupted e = false ->
     entries (snd (remove_corrupted s)) !! h = Some e) /\
  (forall q e, fst (get_verified q s) = Some e -> corrupted e = false).
Proof.
  assert (Hsw : forall h, entries (snd (remove_corrupted s)) !! h =
            match entries s !! h with Some e => if corrupted e then None else Some e | None => None end).
  { intros h. rewrite <- (sweep_lookup corrupted). unfold remove_corrupted.
    fold (keys_where (fun he => corrupted he.2) (entries s)). by destruct (remove_all _ s). }
  split; [|split].
  - unfold verify_integrity. set (s' := snd (remove_corrupted s)) in *.
    pose proof (fold_integrity_invalid (map_iter (entries s')) 0 0 0) as Hf.
    match goal with |- context [fold_left ?g ?l ?a] => destruct (fold_left g l a) as [[v i] mi] end.
    simpl in *. apply Hf. intros h e He%elem_of_map_iter. rewrite Hsw in He.
    destruct (entries s !! h) as [e0|]; [|done]. destruct (corrupted e0) eqn:Ec; congruence.
  - intros h e He Hc. by rewrite Hsw, He, Hc.
  - intros q e. unfold get_verified. destruct (entries s !! hash_query q) as [e0|] eqn:He; [|done].
    fold (corrupted e0). destruct (corrupted e0) eqn:Ec; [by destruct (tracked_remove _ _)|].
    simpl. rewrite (bump_lookup _ e0) by done. by intros [= <-].
Qed.
End CacheEvict.

(** ** Witnesses *)

#[local] Existing Instance DemoEnv.

(** A store whose only entry is in the main queue and has just been accessed,
    with a memory limit below its size. *)
Definition demo_hot_ops : list op :=
  [OInsert demo_clock (lit "a") (demo_response "a") (lit "up1"); OGet (lit "a");
   OInsert demo_clock (lit "b") (demo_response "b") (lit "up1");
   OInsert demo_clock (lit "c") (demo_response "c") (lit "up1");
   ORemove demo_clock (lit "c"); OGet (lit "a"); OSetMaxMemoryBytes 100].
Definition demo_hot : CacheStore := Eval vm_compute in ret_or demo_init (run_ops demo_hot_ops demo_init).

Lemma demo_hot_reachable : reachable (fun _ => True) 2 demo_hot.
Proof.
  eapply (reachable_run _ _ demo_hot_ops demo_init); [by repeat constructor|apply reach_init|].
  vm_compute. reflexivity.
Qed.

Lemma evict_one_exact_witness :
  size (entries demo_hot) = 1%nat /\
  match fst (s3fifo_evict_one demo_hot) with
  | Some _ => size (entries demo_hot) = S (size (entries (snd (s3fifo_evict_one demo_hot))))
  | None => size (entries (snd (s3fifo_evict_one demo_hot))) = size (entries demo_hot) /\
            (forall h e, entries demo_hot !! h = Some e -> freq e <> 0) /\
            (forall h e, entries (snd (s3fifo_evict_one demo_hot)) !! h = Some e -> freq e = 0)
  end.
Proof.
  split; [vm_compute; reflexivity|].
  refine (evict_one_exact (fun _ => True) 2 demo_hot (fst (s3fifo_evict_one demo_hot))
            (snd (s3fifo_evict_one demo_hot)) _ _ _).
  - unfold usize_max, u_max. lia.
  - exact demo_hot_reachable.
  - vm_compute. reflexivity.
Defined.

Lemma memory_limit_two_passes_witness :
  total_memory_bytes (snd (enforce_memory_limit (snd (enforce_memory_limit demo_hot)))) <= 100.
Proof.
  refine (memory_limit_two_passes (fun _ => True) 2 demo_hot _ _ _).
  - unfold usize_max, u_max. lia.
  - exact demo_hot_reachable.
  - vm_compute. reflexivity.
Defined.

(** One call is not always enough: here it evicts nothing and leaves the store
    above its limit. *)
Example memory_limit_one_pass_short :
  fst (enforce_memory_limit demo_hot) = 0 /\
  max_memory_bytes demo_hot < total_memory_bytes (snd (enforce_memory_limit demo_hot)).
Proof. vm_compute. done. Qed.

Definition demo_limited : CacheStore := Eval vm_compute in
  ret_or demo_init (run_ops (demo_ops ++ [OSetPerUpstreamLimit (Some 2)]) demo_init).

Lemma upstream_limit_kept_witness :
  count_for_upstream (lit "up1")
    (insert_with_context demo_clock (lit "delta") (demo_response "d") (lit "up1") (lit "ctx") demo_limited) <= 2.
Proof.
  refine (upstream_limit_kept (fun _ => True) 2 demo_clock (lit "delta") (demo_response "d") (lit "up1")
    (lit "up1") (lit "ctx") 2 demo_limited _ _ _ _ _).
  - unfold usize_max, u_max. lia.
  - eapply (reachable_run _ _ (demo_ops ++ [OSetPerUpstreamLimit (Some 2)]) demo_init);
      [by repeat constructor|apply reach_init|vm_compute; reflexivity].
  - reflexivity.
  - lia.
  - vm_compute. discriminate.
Defined.

Lemma evict_upstream_oldest_first_witness :
  fst (evict_from_upstream demo_clock (lit "up1") 1 demo_store) =
    Z.min 1 (count_for_upstream (lit "up1") demo_store).
Proof. refine (proj1 (evict_upstream_oldest_first demo_clock (lit "up1") 1 demo_store _)). lia. Defined.

Lemma evict_filter_exact_witness :
  fst (evict_filter demo_clock (Some (lit "default")) None None (Some 1) demo_store) = 1.
Proof.
  refine (eq_trans (proj1 (evict_filter_exact demo_clock (Some (lit "default")) None None (Some 1)
    demo_store _)) _); [lia|vm_compute; reflexivity].
Defined.

Lemma integrity_sweep_witness :
  ir_invalid (verify_integrity (snd (remove_corrupted demo_store))) = 0.
Proof. exact (proj1 (integrity_sweep demo_store)). Defined.
