(* ===== verification/CacheFresh.v ===== *)
(** * Freshness, query normalization and invalidation *)

From Stdlib Require Import SpecFloat.
From S2P Require Import Prelude Floats Text Types Cdc Cache CacheInv CacheReach CacheSpec CacheSweep CacheProps.
Open Scope Z_scope.
Open Scope conproxy_scope.

Section CacheFresh.
Context `{E : CacheEnv} {L : CacheEnvLaws E}.
Implicit Types (s : CacheStore) (h : QueryHash) (e : CacheEntry) (clk : Clock).

(** The order in which an entry ages. *)
Definition freshness_rank (f : Freshness) : Z :=
  match f with Fresh => 0 | Stale => 1 | Frozen => 2 | Expired => 3 end.

Lemma classify_mono a a' jf jt fr :
  a <= a' -> freshness_rank (classify a jf jt fr) <= freshness_rank (classify a' jf jt fr).
Proof. intros Ha. unfold classify. case_Z; simpl; lia. Qed.

Lemma jittered_ttl_ge base h s t : jittered_ttl base h s = Ret t -> base <= t.
Proof.
  unfold jittered_ttl. destruct (f_le _ _); [intros [= <-]; lia|].
  unfold dur_add. case_Z; intros [= <-].
  match goal with |- context [from_secs ?x] => assert (0 <= x) by (apply f_to_u_range; lia) end.
  unfold from_secs, nanos_per_sec. lia.
Qed.

Lemma stale_loop_spec clk s l hs :
  stale_hashes_loop clk s l = Ret hs -> NoDup (map fst l) ->
  forall h, h ∈ hs <-> exists e w, (h, e) ∈ l /\ windows h s = Ret w /\
    w.1 <= elapsed (mono clk) (cached_at e) < w.2.
Proof.
  revert hs. induction l as [|[h0 e0] l IH]; intros hs; simpl.
  { intros [= <-] _ h. split; [by intros []%elem_of_nil|]. intros (? & ? & []%elem_of_nil & _). }
  destruct (windows h0 s) as [w|] eqn:Hw; simpl; [|done].
  destruct (stale_hashes_loop clk s l) as [rest|] eqn:Hl; simpl; [|done].
  intros [= <-] Hnd h. apply NoDup_cons in Hnd as [_ Hnd]. specialize (IH rest eq_refl Hnd h).
  assert (Hrest : h ∈ rest -> exists e w, (h, e) ∈ (h0, e0) :: l /\ windows h s = Ret w /\
            w.1 <= elapsed (mono clk) (cached_at e) < w.2).
  { intros (e & w' & ? & ? & ?)%IH. exists e, w'. rewrite elem_of_cons. auto. }
  destruct (_ && _) eqn:Ec.
  - reflect_Z. rewrite elem_of_cons. split.
    + intros [->|Hh]; [|auto]. exists e0, w. rewrite elem_of_cons. auto.
    + intros (e & w' & [[= -> ->]|Hin]%elem_of_cons & Hww & Hr); [by left|]. right. apply IH. eauto.
  - split; [auto|]. intros (e & w' & [[= -> ->]|Hin]%elem_of_cons & Hww & Hr); [|apply IH; eauto].
    assert (w' = w) as -> by congruence. exfalso. apply andb_false_iff in Ec as [Ec|Ec]; reflect_Z; lia.
Qed.

(** A panic while computing a window stops the whole scan. *)
Lemma stale_loop_windows clk s l hs h e :
  stale_hashes_loop clk s l = Ret hs -> (h, e) ∈ l -> exists w, windows h s = Ret w.
Proof.
  revert hs. induction l as [|[h0 e0] l IH]; intros hs; simpl; [by intros _ []%elem_of_nil|].
  destruct (windows h0 s) as [w|] eqn:Hw; simpl; [|done].
  destruct (stale_hashes_loop clk s l) as [rest|] eqn:Hl; simpl; [|done].
  intros _ [[= -> ->]|Hin]%elem_of_cons; eauto.
Qed.

(** ** Claims *)

(** Entries only age.  As the monotonic clock advances, the freshness of a
    cached entry moves forward along Fresh, Stale, Frozen, Expired and never back. *)
Theorem freshness_monotone clk clk' h s f f' :
  mono clk <= mono clk' ->
  check_freshness_by_hash clk h s = Ret (Some f) ->
  check_freshness_by_hash clk' h s = Ret (Some f') ->
  freshness_rank f <= freshness_rank f'.
Proof.
  intros Hc. unfold check_freshness_by_hash. destruct (entries s !! h) as [e|]; [|done].
  destruct (windows h s) as [w|]; simpl; [|done]. intros [= <-] [= <-].
  apply classify_mono. unfold elapsed. lia.
Qed.

(** The background refresh sees what queries see: the keys listed by
    [get_stale_hashes] are exactly those whose freshness is [Stale]. *)
Theorem stale_hashes_agree clk s hs :
  get_stale_hashes clk s = Ret hs ->
  forall h, h ∈ hs <-> check_freshness_by_hash clk h s = Ret (Some Stale).
Proof.
  intros Hg h. unfold get_stale_hashes in Hg.
  rewrite (stale_loop_spec _ _ _ _ Hg (NoDup_map_iter _)). unfold check_freshness_by_hash. split.
  - intros (e & w & ->%elem_of_map_iter & -> & Hr). simpl. unfold classify.
    rewrite (proj2 (Z.ltb_ge _ _)), (proj2 (Z.ltb_lt _ _)) by lia. done.
  - destruct (entries s !! h) as [e|] eqn:He; [|done]. intros Hf.
    assert ((h, e) ∈ map_iter (entries s)) as Hin by (by apply elem_of_map_iter).
    destruct (stale_loop_windows _ _ _ _ _ _ Hg Hin) as [w Hw].
    exists e, w. split_and!; [done|done|..]; rewrite Hw in Hf; simpl in Hf; unfold classify in Hf;
      revert Hf; case_Z; try done; lia.
Qed.

(** Refreshing an entry restarts its life: right after [extend_ttl], an
    entry of a store with a positive fresh period is [Fresh], with the same response. *)
Theorem extend_ttl_fresh clk q s e w :
  entries s !! hash_query q = Some e -> 0 < fresh_duration s ->
  windows (hash_query q) s = Ret w ->
  let s' := extend_ttl clk q s in
  check_freshness clk q s' = Ret (Some Fresh) /\
  response <$> entries s' !! hash_query q = Some (response e).
Proof.
  intros He Hf Hw s'. unfold s', extend_ttl. rewrite He.
  match goal with |- context [tracked_insert ?h ?e s] =>
    destruct (tracked_insert_frame h e s) as (Hen & _ & Hcfg & _);
    set (s1 := tracked_insert h e s) in * end.
  assert (windows (hash_query q) s1 = Ret w) as Hw1.
  { unfold cfg in Hcfg. injection Hcfg as Hfd Hsd _ _ _ Hj _ _ _ _ _ _.
    rewrite <- Hw. unfold windows, jittered_ttl. by rewrite Hfd, Hsd, Hj. }
  unfold check_freshness, check_freshness_by_hash. rewrite Hen, lookup_insert_eq, Hw1. simpl.
  split; [|done]. unfold elapsed, classify. rewrite Z.sub_diag.
  unfold windows in Hw. destruct (jittered_ttl (fresh_duration s) (hash_query q) s) as [t|] eqn:Ht; [|done].
  simpl in Hw. destruct (dur_add t (stale_duration s)); simpl in Hw; [|done]. injection Hw as <-. simpl.
  apply jittered_ttl_ge in Ht. rewrite (proj2 (Z.ltb_lt _ _)) by lia. done.
Qed.

(** Normalization is idempotent, so that a query and its normalized form
    share one cache key. *)
Theorem normalize_query_idempotent {UL : UnicodeCaseLaws env_case} q :
  normalize_query (normalize_query q) = normalize_query q /\
  hash_query (normalize_query q) = hash_query q.
Proof.
  assert (normalize_query (normalize_query q) = normalize_query q) as Hi.
  { set (l := to_lowercase (trim q)). assert (Hn : normalize_query q = collapse_ws false l) by done.
    rewrite Hn. unfold normalize_query at 1.
    assert (Hh : forall c, head l = Some c -> is_whitespace c = false).
    { intros c Hc. pose proof (lower_head_ws (trim q)) as Hw. fold l in Hw. rewrite Hc in Hw. simpl in Hw.
      destruct (head (trim q)) as [d|] eqn:Hd; simpl in Hw; [|done].
      injection Hw as ->. by eapply trim_head. }
    assert (Hl : forall c, last l = Some c -> is_whitespace c = false).
    { intros c Hc. pose proof (lower_last_ws (trim q)) as Hw. fold l in Hw. rewrite Hc in Hw. simpl in Hw.
      destruct (last (trim q)) as [d|] eqn:Hd; simpl in Hw; [|done].
      injection Hw as ->. by eapply trim_last. }
    rewrite trim_id.
    - rewrite lower_fixed_id; [apply collapse_ws_idem|].
      apply collapse_ws_fixed. apply lower_out_fixed.
    - intros c Hc. destruct (head l) as [d|] eqn:Hd.
      + rewrite (collapse_ws_head l d) in Hc by auto. injection Hc as <-. auto.
      + destruct l; done.
    - intros c Hc. destruct (last l) as [d|] eqn:Hd.
      + rewrite (collapse_ws_last false l d) in Hc by auto. injection Hc as <-. auto.
      + apply last_None in Hd. rewrite Hd in Hc. done. }
  split; [done|]. unfold hash_query. by rewrite Hi.
Qed.

(** A change of configuration invalidates.  When the fingerprint of the
    upstream configuration differs from a recorded one, nothing survives: no
    entry, no mapping, no queued key, no accounted byte; when it is the same,
    or none was recorded, only the fingerprint is written. *)
Theorem fingerprint_invalidates url seeds s :
  let fp := compute_config_fingerprint url seeds in
  let '(changed, s') := update_config_fingerprint url seeds s in
  config_fingerprint s' = fp /\
  (changed = true <-> config_fingerprint s <> 0 /\ config_fingerprint s <> fp) /\
  (if changed
   then entries s' = ∅ /\ exact_to_normalized s' = ∅ /\ queue_len s' = 0%nat /\
        ghost_set (s3fifo s') = ∅ /\ total_memory_bytes s' = 0
   else s' = put_config_fingerprint s fp).
Proof.
  unfold update_config_fingerprint. destruct (_ && _) eqn:Ec; simpl.
  - apply andb_true_iff in Ec as [E1 E2]. reflect_Z. done.
  - split; [done|]. split; [|done]. apply andb_false_iff in Ec.
    rewrite !negb_false_iff, !Z.eqb_eq in Ec. split; [done|]. intros [? ?]. by destruct Ec.
Qed.
End CacheFresh.

(** ** Witnesses *)

#[local] Existing Instance DemoEnv.
Definition later : Clock := {| mono := from_secs 100; wall := from_secs 1100 |}.
Definition alpha_hash : QueryHash := hash_query (lit "alpha").

Lemma freshness_monotone_witness : freshness_rank Fresh <= freshness_rank Stale.
Proof.
  refine (freshness_monotone demo_clock later alpha_hash demo_store Fresh Stale _ _ _);
    vm_compute; [discriminate|reflexivity|reflexivity].
Defined.

Lemma stale_hashes_agree_witness :
  alpha_hash ∈ ret_or [] (get_stale_hashes later demo_store) <->
  check_freshness_by_hash later alpha_hash demo_store = Ret (Some Stale).
Proof.
  refine (stale_hashes_agree later demo_store (ret_or [] (get_stale_hashes later demo_store)) _ alpha_hash).
  vm_compute. reflexivity.
Defined.

Lemma extend_ttl_fresh_witness :
  check_freshness later (lit "alpha") (extend_ttl later (lit "alpha") demo_store) = Ret (Some Fresh).
Proof.
  refine (proj1 (extend_ttl_fresh later (lit "alpha") demo_store
    (default (new_entry later (demo_response "x") [] None []) (entries demo_store !! alpha_hash))
    (from_secs 60, from_secs 120) _ _ _)); vm_compute; reflexivity.
Defined.

Lemma normalize_query_idempotent_witness :
  normalize_query (normalize_query (lit "  Hello   World ")) = lit "hello world".
Proof.
  refine (eq_trans (proj1 (normalize_query_idempotent (lit "  Hello   World "))) _).
  vm_compute. reflexivity.
Defined.

Lemma fingerprint_invalidates_witness :
  fst (update_config_fingerprint (Some (lit "http://b")) []
         (snd (update_config_fingerprint (Some (lit "http://a")) [] demo_store))) = true /\
  match update_config_fingerprint (Some (lit "http://a")) [] demo_store with
  | (changed, s') => config_fingerprint s' = compute_config_fingerprint (Some (lit "http://a")) []
  end.
Proof.
  split; [vm_compute; reflexivity|].
  pose proof (fingerprint_invalidates (Some (lit "http://a")) [] demo_store) as H.
  destruct (update_config_fingerprint (Some (lit "http://a")) [] demo_store) as [c s'].
  exact (proj1 H).
Defined.
