(* ===== verification/Circuit.v ===== *)
(** * The circuit breaker (src/src/proxy/circuit.rs)

    The breaker keeps an atomic state byte, two counters, two timestamps and two
    metrics.  Each method is a function on that record at a reading [now] of the
    monotonic clock; methods are taken one at a time, so that a compare-exchange
    on a value just read succeeds.  [Spec] is the three-state machine the module
    documents, with no bytes or wrapping counters, and the breaker is proved to
    implement it step for step. *)

From S2P Require Import Prelude.
Open Scope Z_scope.
Open Scope conproxy_scope.

Inductive CircuitState := Closed | Open | HalfOpen.

#[export] Instance CircuitState_eq_dec : EqDecision CircuitState.
Proof. solve_decision. Defined.

Definition from_u8 (v : Z) : CircuitState :=
  if v =? 0 then Closed else if v =? 1 then Open else if v =? 2 then HalfOpen else Closed.
Definition to_u8 (s : CircuitState) : Z :=
  match s with Closed => 0 | Open => 1 | HalfOpen => 2 end.

Record CircuitBreakerConfig := {
  failure_threshold : Z;
  success_threshold : Z;
  open_duration : Z;
  failure_window : Z
}.

Definition CircuitBreakerConfig_default : CircuitBreakerConfig :=
  {| failure_threshold := 5; success_threshold := 2; open_duration := from_secs 30;
     failure_window := from_secs 60 |}.

Record CircuitBreaker := {
  config : CircuitBreakerConfig;
  state_byte : Z;
  failure_count : Z;
  half_open_successes : Z;
  opened_at : option Z;
  window_start : Z;
  times_opened : Z;
  times_tripped : Z
}.

Definition CircuitBreaker_new (now : Z) (c : CircuitBreakerConfig) : CircuitBreaker :=
  {| config := c; state_byte := to_u8 Closed; failure_count := 0; half_open_successes := 0;
     opened_at := None; window_start := now; times_opened := 0; times_tripped := 0 |}.
Definition default_config (now : Z) : CircuitBreaker := CircuitBreaker_new now CircuitBreakerConfig_default.

Definition put_failure_count (b : CircuitBreaker) (v : Z) : CircuitBreaker :=
  {| config := config b; state_byte := state_byte b; failure_count := v;
     half_open_successes := half_open_successes b; opened_at := opened_at b;
     window_start := window_start b; times_opened := times_opened b; times_tripped := times_tripped b |}.
Definition put_half_open_successes (b : CircuitBreaker) (v : Z) : CircuitBreaker :=
  {| config := config b; state_byte := state_byte b; failure_count := failure_count b;
     half_open_successes := v; opened_at := opened_at b;
     window_start := window_start b; times_opened := times_opened b; times_tripped := times_tripped b |}.

(** [open]: the timestamp and the counters are written only by the caller that
    moved the state. *)
Definition open (now : Z) (b : CircuitBreaker) : CircuitBreaker :=
  if negb (state_byte b =? to_u8 Open) then
    {| config := config b; state_byte := to_u8 Open; failure_count := failure_count b;
       half_open_successes := 0; opened_at := Some now; window_start := window_start b;
       times_opened := wrap 64 (times_opened b + 1); times_tripped := times_tripped b |}
  else b.

Definition close (now : Z) (b : CircuitBreaker) : CircuitBreaker :=
  {| config := config b; state_byte := to_u8 Closed; failure_count := 0; half_open_successes := 0;
     opened_at := None; window_start := now; times_opened := times_opened b;
     times_tripped := times_tripped b |}.

Definition half_open (b : CircuitBreaker) : CircuitBreaker :=
  if state_byte b =? to_u8 Open then
    {| config := config b; state_byte := to_u8 HalfOpen; failure_count := failure_count b;
       half_open_successes := 0; opened_at := opened_at b; window_start := window_start b;
       times_opened := times_opened b; times_tripped := times_tripped b |}
  else b.

Definition maybe_transition (now : Z) (b : CircuitBreaker) : CircuitBreaker :=
  match from_u8 (state_byte b) with
  | Open =>
      match opened_at b with
      | Some opened => if open_duration (config b) <=? elapsed now opened then half_open b else b
      | None => b
      end
  | _ => b
  end.

Definition maybe_reset_window (now : Z) (b : CircuitBreaker) : CircuitBreaker :=
  if failure_window (config b) <=? elapsed now (window_start b) then
    {| config := config b; state_byte := state_byte b; failure_count := 0;
       half_open_successes := half_open_successes b; opened_at := opened_at b; window_start := now;
       times_opened := times_opened b; times_tripped := times_tripped b |}
  else b.

Definition state (now : Z) (b : CircuitBreaker) : CircuitState * CircuitBreaker :=
  let b := maybe_transition now b in (from_u8 (state_byte b), b).

Definition allow_request (now : Z) (b : CircuitBreaker) : bool * CircuitBreaker :=
  let b := maybe_transition now b in
  match from_u8 (state_byte b) with
  | Closed => (true, b)
  | Open =>
      (false, {| config := config b; state_byte := state_byte b; failure_count := failure_count b;
                 half_open_successes := half_open_successes b; opened_at := opened_at b;
                 window_start := window_start b; times_opened := times_opened b;
                 times_tripped := wrap 64 (times_tripped b + 1) |})
  | HalfOpen => (true, b)
  end.

Definition record_success (now : Z) (b : CircuitBreaker) : CircuitBreaker :=
  match from_u8 (state_byte b) with
  | Closed => put_failure_count b 0
  | HalfOpen =>
      let prev := half_open_successes b in
      let b := put_half_open_successes b (wrap 32 (prev + 1)) in
      let successes := sat_add 32 prev 1 in
      if success_threshold (config b) <=? successes then close now b else b
  | Open => b
  end.

Definition record_failure (now : Z) (b : CircuitBreaker) : CircuitBreaker :=
  match from_u8 (state_byte b) with
  | Closed =>
      let b := maybe_reset_window now b in
      let prev := failure_count b in
      let b := put_failure_count b (wrap 32 (prev + 1)) in
      let failures := sat_add 32 prev 1 in
      if failure_threshold (config b) <=? failures then open now b else b
  | HalfOpen => open now b
  | Open => b
  end.

Definition trip (now : Z) (b : CircuitBreaker) : CircuitBreaker := open now b.
Definition reset (now : Z) (b : CircuitBreaker) : CircuitBreaker := close now b.

Definition set_config (c : CircuitBreakerConfig) (b : CircuitBreaker) : CircuitBreaker :=
  {| config := c; state_byte := state_byte b; failure_count := failure_count b;
     half_open_successes := half_open_successes b; opened_at := opened_at b;
     window_start := window_start b; times_opened := times_opened b; times_tripped := times_tripped b |}.

Definition time_until_half_open (now : Z) (b : CircuitBreaker) : option Z :=
  match from_u8 (state_byte b) with
  | Open =>
      match opened_at b with
      | Some opened =>
          let e := elapsed now opened in
          if e <? open_duration (config b) then Some (dur_sat_sub (open_duration (config b)) e) else Some 0
      | None => Some 0
      end
  | _ => None
  end.

(** CircuitResult and its accessors. *)
Inductive CircuitResult (T E : Type) := Success (v : T) | Failure (e : E) | CircuitOpen.
Arguments Success {T E} v.
Arguments Failure {T E} e.
Arguments CircuitOpen {T E}.
Definition is_success {T E} (r : CircuitResult T E) : bool :=
  match r with Success _ => true | _ => false end.
Definition is_circuit_open {T E} (r : CircuitResult T E) : bool :=
  match r with CircuitOpen => true | _ => false end.
Definition circuit_ok {T E} (r : CircuitResult T E) : option (result T E) :=
  match r with Success v => Some (Ok v) | Failure e => Some (Err e) | CircuitOpen => None end.

(** ** The events a breaker sees *)

Inductive event := EAllow | ESuccess | EFailure | ETrip | EReset | EState | ESetConfig (c : CircuitBreakerConfig).

Definition step (now : Z) (ev : event) (b : CircuitBreaker) : CircuitBreaker :=
  match ev with
  | EAllow => snd (allow_request now b)
  | ESuccess => record_success now b
  | EFailure => record_failure now b
  | ETrip => trip now b
  | EReset => reset now b
  | EState => snd (state now b)
  | ESetConfig c => set_config c b
  end.

Definition run (evs : list (Z * event)) (b : CircuitBreaker) : CircuitBreaker :=
  fold_left (fun b te => step te.1 te.2 b) evs b.

(** ** Specification *)
Module Spec.
Inductive abs :=
| AClosed (failures since : Z)
| AOpen (since : Z)
| AHalfOpen (successes : Z).

(** An open circuit becomes half-open once [open_duration] has passed. *)
Definition tick (c : CircuitBreakerConfig) (now : Z) (a : abs) : abs :=
  match a with
  | AOpen t => if open_duration c <=? elapsed now t then AHalfOpen 0 else a
  | _ => a
  end.

Definition step (c : CircuitBreakerConfig) (now : Z) (ev : event) (a : abs) : abs :=
  match ev with
  | EAllow | EState => tick c now a
  | ESuccess =>
      match a with
      | AClosed _ w => AClosed 0 w
      | AHalfOpen n => if success_threshold c <=? n + 1 then AClosed 0 now else AHalfOpen (n + 1)
      | AOpen _ => a
      end
  | EFailure =>
      match a with
      | AClosed f w =>
          let expired := failure_window c <=? elapsed now w in
          let f := if expired then 0 else f in
          let w := if expired then now else w in
          if failure_threshold c <=? f + 1 then AOpen now else AClosed (f + 1) w
      | AHalfOpen _ => AOpen now
      | AOpen _ => a
      end
  | ETrip => match a with AOpen _ => a | _ => AOpen now end
  | EReset => AClosed 0 now
  | ESetConfig _ => a
  end.

Definition allows (a : abs) : bool := match a with AOpen _ => false | _ => true end.
End Spec.

Definition abs_of (b : CircuitBreaker) : Spec.abs :=
  match from_u8 (state_byte b) with
  | Closed => Spec.AClosed (failure_count b) (window_start b)
  | Open => Spec.AOpen (default 0 (opened_at b))
  | HalfOpen => Spec.AHalfOpen (half_open_successes b)
  end.

(** ** Invariant *)

Definition config_ok (c : CircuitBreakerConfig) : Prop :=
  in_u 32 (failure_threshold c) /\ in_u 32 (success_threshold c).

Record wf (b : CircuitBreaker) : Prop := {
  wf_state : state_byte b = 0 \/ state_byte b = 1 \/ state_byte b = 2;
  wf_opened : state_byte b = 1 -> is_Some (opened_at b);
  wf_closed : state_byte b = 0 -> opened_at b = None;
  wf_failures : in_u 32 (failure_count b);
  wf_successes : in_u 32 (half_open_successes b);
  wf_half : state_byte b <> 2 -> half_open_successes b = 0;
  wf_config : config_ok (config b)
}.

Definition event_ok (ev : event) : Prop :=
  match ev with ESetConfig c => config_ok c | _ => True end.

(** Case analysis on the state byte of a well-formed breaker. *)
Ltac circuit_cases Hw :=
  match goal with b : CircuitBreaker |- _ =>
    let H := fresh "Hst" in
    pose proof (wf_state b Hw) as H; destruct b as [c sb fc hs oa ws tm tt]; simpl in H;
    destruct Hw as [_ Hop Hcl Hfc Hhs Hha Hcfg]; simpl in *;
    destruct H as [-> | [-> | ->]]
  end.

Lemma in_u32_wrap x : in_u 32 (wrap 32 x).
Proof. apply wrap_range. lia. Qed.
Lemma in_u32_0 : in_u 32 0.
Proof. unfold in_u, u_max. lia. Qed.
#[local] Hint Resolve in_u32_wrap in_u32_0 : cpx.

Lemma circuit_wf_new now c : config_ok c -> wf (CircuitBreaker_new now c).
Proof. intros. split; simpl; auto with cpx; done. Qed.

Lemma circuit_wf_step now ev b : wf b -> event_ok ev -> wf (step now ev b).
Proof.
  intros Hw Hev. circuit_cases Hw; destruct ev; simpl;
    unfold allow_request, state, record_success, record_failure, trip, reset, open, close,
      maybe_transition, maybe_reset_window, half_open, set_config, put_failure_count,
      put_half_open_successes; simpl; try destruct oa as [t|]; simpl; case_Z;
    split; simpl; auto with cpx; try done; try lia; eauto.
Qed.

Lemma circuit_wf_run evs b : wf b -> Forall (fun te => event_ok te.2) evs -> wf (run evs b).
Proof.
  intros Hw Hev. revert b Hw. induction Hev as [|te evs He _ IH]; intros b Hw; simpl; [done|].
  by apply IH, circuit_wf_step.
Qed.

(** ** Refinement *)

Lemma in_u32_incr x : in_u 32 x -> x = u_max 32 \/ (wrap 32 (x + 1) = x + 1 /\ sat_add 32 x 1 = x + 1).
Proof.
  unfold in_u. intros H. destruct (decide (x = u_max 32)) as [|Hne]; [by left|right].
  split; [apply wrap_small; unfold in_u; lia|unfold sat_add; lia].
Qed.

Lemma circuit_step_refines now ev b :
  wf b -> abs_of (step now ev b) = Spec.step (config b) now ev (abs_of b).
Proof.
  intros Hw. circuit_cases Hw; destruct ev; simpl; try done;
    unfold allow_request, state, record_success, record_failure, trip, reset, open, close,
      maybe_transition, maybe_reset_window, half_open, set_config, put_failure_count,
      put_half_open_successes, abs_of; simpl; try done.
  - destruct Hcfg as [Hft Hst]. unfold in_u in Hft.
    assert (Hrw : forall x, in_u 32 x -> (failure_threshold c <=? sat_add 32 x 1) = (failure_threshold c <=? x + 1)).
    { intros x [->|[_ ->]]%in_u32_incr; [|done]. unfold sat_add.
      rewrite !(proj2 (Z.leb_le _ _)); [done|lia|lia]. }
    destruct (failure_window c <=? elapsed now ws); simpl;
      [rewrite (Hrw 0) by apply in_u32_0|rewrite Hrw by done]; case_Z; simpl; try done.
    destruct (in_u32_incr fc Hfc) as [->|[-> _]]; [lia|done].
  - destruct (Hop eq_refl) as [t ->]. simpl. case_Z; done.
  - destruct (Hop eq_refl) as [t ->]. simpl. case_Z; done.
  - destruct Hcfg as [Hft Hst]. unfold in_u in Hst.
    destruct (in_u32_incr hs Hhs) as [->|[-> ->]].
    + unfold sat_add. rewrite !(proj2 (Z.leb_le _ _)); [done|lia|lia].
    + case_Z; done.
Qed.

Lemma config_step now ev b :
  (forall c, ev <> ESetConfig c) -> config (step now ev b) = config b.
Proof.
  intros Hev. destruct b as [c sb fc hs oa ws tm tt]. destruct ev; simpl; try (by exfalso; eapply Hev);
    unfold allow_request, state, record_success, record_failure, trip, reset, open, close,
      maybe_transition, maybe_reset_window, half_open, put_failure_count,
      put_half_open_successes; simpl; destruct (from_u8 sb); simpl; try destruct oa; case_Z; simpl;
      try done; try destruct (negb _); simpl; try done; try destruct (from_u8 _); done.
Qed.

(** ** Claims *)


Lemma failures_run b f w ts :
  wf b -> abs_of b = Spec.AClosed f w -> 0 <= f ->
  Forall (fun t => w <= t < w + failure_window (config b)) ts ->
  f + zlen ts < failure_threshold (config b) ->
  abs_of (run (map (fun t => (t, EFailure)) ts) b) = Spec.AClosed (f + zlen ts) w /\
  wf (run (map (fun t => (t, EFailure)) ts) b) /\
  config (run (map (fun t => (t, EFailure)) ts) b) = config b.
Proof.
  revert b f. induction ts as [|t ts IH]; intros b f Hw Ha Hf Hts Hlen; simpl.
  { rewrite zlen_nil, Z.add_0_r. done. }
  rewrite zlen_cons in *. pose proof (zlen_nonneg ts). inversion_clear Hts as [|? ? Ht Hts'].
  pose proof (circuit_step_refines t EFailure b Hw) as Hr. rewrite Ha in Hr. simpl in Hr.
  assert ((failure_window (config b) <=? elapsed t w) = false) as Hex
    by (apply Z.leb_gt; unfold elapsed; lia).
  rewrite Hex in Hr. rewrite (proj2 (Z.leb_gt _ _)) in Hr by lia.
  assert (config (record_failure t b) = config b) as Hcf by (by apply (config_step t EFailure)).
  destruct (IH (record_failure t b) (f + 1)) as (IH1 & IH2 & IH3); try done.
  - by apply (circuit_wf_step t EFailure).
  - lia.
  - by rewrite Hcf.
  - rewrite Hcf. lia.
  - simpl. unfold run in *. simpl. rewrite IH1, IH3. split_and!; try done. f_equal. lia.
Qed.

(** The failure threshold.  A closed breaker with no failure on record lets
    [failure_threshold - 1] consecutive failures within the window pass and opens
    at exactly the next one. *)
Theorem circuit_opens_at_threshold b w ts t :
  wf b -> abs_of b = Spec.AClosed 0 w ->
  Forall (fun x => w <= x < w + failure_window (config b)) (ts ++ [t]) ->
  zlen ts + 1 = failure_threshold (config b) ->
  let b1 := run (map (fun x => (x, EFailure)) ts) b in
  (exists f, abs_of b1 = Spec.AClosed f w) /\ abs_of (record_failure t b1) = Spec.AOpen t.
Proof.
  intros Hw Ha Hts Hlen b1. apply Forall_app in Hts as [Hts Ht]. apply Forall_inv in Ht.
  pose proof (zlen_nonneg ts).
  destruct (failures_run b 0 w ts Hw Ha) as (H1 & H2 & H3); [lia|done|lia|]. fold b1 in H1, H2, H3.
  split; [eauto|]. change (record_failure t b1) with (step t EFailure b1).
  rewrite (circuit_step_refines t EFailure b1 H2), H1, H3. simpl.
  rewrite (proj2 (Z.leb_gt (failure_window (config b)) _)) by (unfold elapsed; lia).
  rewrite (proj2 (Z.leb_le _ _)) by lia. done.
Qed.

(** Failing fast.  While an open circuit's wait has not elapsed, requests are
    refused, and no outcome reported late, probe or repeated trip changes that;
    only an explicit reset would. *)
Theorem circuit_fails_fast b t evs now :
  wf b -> abs_of b = Spec.AOpen t ->
  Forall (fun te => te.1 < t + open_duration (config b) /\
                    match te.2 with EReset | ESetConfig _ => False | _ => True end) evs ->
  now < t + open_duration (config b) -> 0 < open_duration (config b) ->
  abs_of (run evs b) = Spec.AOpen t /\ fst (allow_request now (run evs b)) = false.
Proof.
  intros Hw Ha Hevs Hnow Hpos.
  assert (abs_of (run evs b) = Spec.AOpen t /\ wf (run evs b) /\ config (run evs b) = config b)
    as (H1 & H2 & H3).
  { revert b Hw Ha Hevs Hnow Hpos. induction evs as [|[x ev] evs IH]; intros b Hw Ha Hevs Hnow Hpos; [done|].
    inversion_clear Hevs as [|? ? [Hx Hok] Hevs']. simpl in Hx, Hok.
    assert (config (step x ev b) = config b) as Hcf by (apply config_step; by intros c ->).
    pose proof (circuit_step_refines x ev b Hw) as Hr. rewrite Ha in Hr.
    assert (Spec.step (config b) x ev (Spec.AOpen t) = Spec.AOpen t) as Hs.
    { destruct ev; simpl; try done; rewrite (proj2 (Z.leb_gt _ _)); try done; unfold elapsed; lia. }
    destruct (IH (step x ev b)) as (? & ? & ?); rewrite ?Hcf; try done.
    - apply circuit_wf_step; [done|]. by destruct ev.
    - congruence.
    - simpl. unfold run in *. simpl. split_and!; try done. congruence. }
  split; [done|]. pose proof (circuit_step_refines now EAllow (run evs b) H2) as Hr. rewrite H1, H3 in Hr.
  simpl in Hr. rewrite (proj2 (Z.leb_gt _ _)) in Hr by (unfold elapsed; lia).
  revert Hr. unfold allow_request, abs_of. destruct (maybe_transition now (run evs b)) as [c' sb fc hs oa ws tm tt].
  simpl. destruct (from_u8 sb) eqn:E; simpl; rewrite ?E; done.
Qed.

Lemma successes_run b n ts :
  wf b -> abs_of b = Spec.AHalfOpen n -> 0 <= n -> n + zlen ts < success_threshold (config b) ->
  abs_of (run (map (fun t => (t, ESuccess)) ts) b) = Spec.AHalfOpen (n + zlen ts) /\
  wf (run (map (fun t => (t, ESuccess)) ts) b) /\
  config (run (map (fun t => (t, ESuccess)) ts) b) = config b.
Proof.
  revert b n. induction ts as [|t ts IH]; intros b n Hw Ha Hn Hlen; simpl.
  { rewrite zlen_nil, Z.add_0_r. done. }
  rewrite zlen_cons in *. pose proof (zlen_nonneg ts).
  pose proof (circuit_step_refines t ESuccess b Hw) as Hr. rewrite Ha in Hr. simpl in Hr.
  rewrite (proj2 (Z.leb_gt _ _)) in Hr by lia.
  assert (config (record_success t b) = config b) as Hcf by (by apply (config_step t ESuccess)).
  destruct (IH (record_success t b) (n + 1)) as (IH1 & IH2 & IH3); try done.
  - by apply (circuit_wf_step t ESuccess).
  - lia.
  - rewrite Hcf. lia.
  - simpl. unfold run in *. simpl. rewrite IH1, IH3. split_and!; try done. f_equal. lia.
Qed.

(** Recovery.  Once the wait is over the next request is let through (half
    open); from there [success_threshold] consecutive successes close the circuit
    with its counters cleared, while a single failure before that reopens it. *)
Theorem circuit_recovers b t now ts t' :
  wf b -> abs_of b = Spec.AOpen t -> t + open_duration (config b) <= now -> 0 <= open_duration (config b) ->
  zlen ts + 1 = success_threshold (config b) ->
  let b1 := snd (allow_request now b) in
  let b2 := run (map (fun x => (x, ESuccess)) ts) b1 in
  fst (allow_request now b) = true /\
  abs_of (record_success t' b2) = Spec.AClosed 0 t' /\
  abs_of (record_failure t' b2) = Spec.AOpen t'.
Proof.
  intros Hw Ha Hnow Hpos Hlen b1 b2. pose proof (zlen_nonneg ts).
  pose proof (circuit_step_refines now EAllow b Hw) as Hr. rewrite Ha in Hr. simpl in Hr. fold b1 in Hr.
  rewrite (proj2 (Z.leb_le _ _)) in Hr by (unfold elapsed; lia).
  assert (wf b1) as Hw1 by (by apply (circuit_wf_step now EAllow)).
  assert (config b1 = config b) as Hc1 by (by apply (config_step now EAllow)).
  destruct (successes_run b1 0 ts Hw1 Hr) as (H1 & H2 & H3); [lia|rewrite Hc1; lia|]. fold b2 in H1, H2, H3.
  split_and!.
  - revert Hr. unfold b1, allow_request, abs_of.
    destruct (maybe_transition now b) as [c' sb fc hs oa ws tm tt].
    simpl. destruct (from_u8 sb) eqn:E; simpl; rewrite ?E; done.
  - change (record_success t' b2) with (step t' ESuccess b2). rewrite (circuit_step_refines t' ESuccess b2 H2), H1, H3, Hc1. simpl.
    rewrite (proj2 (Z.leb_le _ _)) by lia. done.
  - change (record_failure t' b2) with (step t' EFailure b2). rewrite (circuit_step_refines t' EFailure b2 H2), H1. done.
Qed.

(** ** Witnesses *)

Definition demo_breaker : CircuitBreaker := CircuitBreaker_new 0 CircuitBreakerConfig_default.
Lemma demo_breaker_wf : wf demo_breaker.
Proof. apply circuit_wf_new. unfold config_ok, in_u, u_max. simpl. lia. Qed.
Definition demo_open : CircuitBreaker := trip 10 demo_breaker.
Lemma demo_open_wf : wf demo_open.
Proof. apply (circuit_wf_step 10 ETrip), I. apply demo_breaker_wf. Qed.


Lemma circuit_opens_at_threshold_witness :
  abs_of (record_failure 5 (run (map (fun x => (x, EFailure)) [1; 2; 3; 4]) demo_breaker)) = Spec.AOpen 5.
Proof.
  refine (proj2 (circuit_opens_at_threshold demo_breaker 0 [1; 2; 3; 4] 5 demo_breaker_wf _ _ _)).
  - reflexivity.
  - simpl. unfold from_secs, nanos_per_sec. repeat constructor; lia.
  - reflexivity.
Defined.

Lemma circuit_fails_fast_witness :
  fst (allow_request 100 (run [(20, ESuccess); (30, EFailure)] demo_open)) = false.
Proof.
  refine (proj2 (circuit_fails_fast demo_open 10 [(20, ESuccess); (30, EFailure)] 100 demo_open_wf _ _ _ _)).
  - reflexivity.
  - repeat constructor.
  - reflexivity.
  - reflexivity.
Defined.

Lemma circuit_recovers_witness :
  fst (allow_request (from_secs 40) demo_open) = true.
Proof.
  refine (proj1 (circuit_recovers demo_open 10 (from_secs 40) [from_secs 41] (from_secs 42) demo_open_wf _ _ _ _)).
  - reflexivity.
  - vm_compute. discriminate.
  - vm_compute. discriminate.
  - reflexivity.
Defined.
