(* ===== verification/Priority.v ===== *)
(** * The request priority queue (src/src/proxy/priority.rs)

    [BinaryHeap] is the Standard Library's max-heap: [pop] removes a greatest
    element, [peek] shows it.  It is modelled by the list of its elements in
    descending order; [push] inserts into it. *)

From Stdlib Require Import SpecFloat.
From S2P Require Import Prelude Floats Text.
Open Scope Z_scope.
Open Scope conproxy_scope.

Inductive Priority := Low | Normal | High | Critical.

#[export] Instance Priority_eq_dec : EqDecision Priority.
Proof. solve_decision. Defined.

(** [priority as usize]; the derived order is the order of these numbers. *)
Definition prio_idx (p : Priority) : Z :=
  match p with Low => 0 | Normal => 1 | High => 2 | Critical => 3 end.

Definition parse `{UnicodeCase} (s : str) : Priority :=
  let l := to_lowercase s in
  if str_eqb l (lit "low") || str_eqb l (lit "background") then Low
  else if str_eqb l (lit "normal") || str_eqb l (lit "default") then Normal
  else if str_eqb l (lit "high") || str_eqb l (lit "important") then High
  else if str_eqb l (lit "critical") || str_eqb l (lit "urgent") then Critical
  else Normal.

Definition from_int (n : Z) : Priority :=
  if n =? 0 then Low else if n =? 1 then Normal else if n =? 2 then High else Critical.

Section Queue.
Context {T : Type}.

Record PrioritizedRequest := {
  payload : T;
  priority : Priority;
  sequence : Z;
  enqueued_at : Z
}.

Definition wait_time (now : Z) (r : PrioritizedRequest) : Z := elapsed now (enqueued_at r).

Definition req_eq (a b : PrioritizedRequest) : bool :=
  (prio_idx (priority a) =? prio_idx (priority b)) && (sequence a =? sequence b).

(** [Ord::cmp]: higher priority is greater; within a priority, the older is greater. *)
Definition req_cmp (a b : PrioritizedRequest) : comparison :=
  match prio_idx (priority a) ?= prio_idx (priority b) with
  | Eq => sequence b ?= sequence a
  | c => c
  end.

Definition req_ge (a b : PrioritizedRequest) : bool :=
  match req_cmp a b with Lt => false | _ => true end.

Record PriorityQueue := {
  heap : list PrioritizedRequest;
  next_sequence : Z;
  max_size : Z
}.

Definition PriorityQueue_new (max : Z) : PriorityQueue :=
  {| heap := []; next_sequence := 0; max_size := max |}.
Definition unbounded : PriorityQueue := PriorityQueue_new usize_max.

Definition put_heap (q : PriorityQueue) (h : list PrioritizedRequest) : PriorityQueue :=
  {| heap := h; next_sequence := next_sequence q; max_size := max_size q |}.

(** Heap insertion. *)
Definition heap_push (r : PrioritizedRequest) (h : list PrioritizedRequest) : list PrioritizedRequest :=
  sorted_insert req_ge r h.

(** The tail of [push], after the queue-full check. *)
Definition enqueue (now : Z) (p : T) (pr : Priority) (q : PriorityQueue) : PriorityQueue :=
  {| heap := heap_push {| payload := p; priority := pr; sequence := next_sequence q; enqueued_at := now |} (heap q);
     next_sequence := wrap 64 (next_sequence q + 1); max_size := max_size q |}.

(** [Some] payload: rejected; [None]: accepted. *)
Definition push (now : Z) (p : T) (pr : Priority) (q : PriorityQueue) : option T * PriorityQueue :=
  if max_size q <=? zlen (heap q) then
    match heap q with
    | lowest :: rest =>
        if prio_idx pr <=? prio_idx (priority lowest) then (Some p, q)
        else (None, enqueue now p pr (put_heap q rest))
    | [] => (None, enqueue now p pr q)
    end
  else (None, enqueue now p pr q).

Definition push_normal (now : Z) (p : T) (q : PriorityQueue) : option T * PriorityQueue := push now p Normal q.

Definition pop (q : PriorityQueue) : option PrioritizedRequest * PriorityQueue :=
  match heap q with
  | r :: rest => (Some r, put_heap q rest)
  | [] => (None, q)
  end.

Definition peek_priority (q : PriorityQueue) : option Priority := priority <$> head (heap q).
Definition q_len (q : PriorityQueue) : Z := zlen (heap q).
Definition is_full (q : PriorityQueue) : bool := max_size q <=? zlen (heap q).
Definition q_clear (q : PriorityQueue) : PriorityQueue := put_heap q [].

Record QueueStats := {
  qs_total : Z; qs_max_size : Z; low_priority : Z; normal_priority : Z; high_priority : Z;
  critical_priority : Z
}.

Definition count_prio (counts : list Z) (r : PrioritizedRequest) : list Z :=
  match counts !! Z.to_nat (prio_idx (priority r)) with
  | Some slot => <[Z.to_nat (prio_idx (priority r)) := slot +! 1]> counts
  | None => counts
  end.

Definition q_stats (q : PriorityQueue) : QueueStats :=
  let c := fold_left count_prio (heap q) [0; 0; 0; 0] in
  {| qs_total := zlen (heap q); qs_max_size := max_size q;
     low_priority := default 0 (c !! 0%nat); normal_priority := default 0 (c !! 1%nat);
     high_priority := default 0 (c !! 2%nat); critical_priority := default 0 (c !! 3%nat) |}.

Definition utilization (s : QueueStats) : f64 :=
  if (qs_max_size s =? 0) || (qs_max_size s =? usize_max) then f_zero
  else F64.div (F64.of_Z (qs_total s)) (F64.of_Z (qs_max_size s)).

(** ** Invariant *)

(** [a] is served before [b]. *)
Definition before (a b : PrioritizedRequest) : Prop :=
  prio_idx (priority b) < prio_idx (priority a) \/
  (priority a = priority b /\ sequence a < sequence b).

Definition queue_ok (q : PriorityQueue) : Prop :=
  StronglySorted before (heap q) /\ Forall (fun r => 0 <= sequence r < next_sequence q) (heap q).

Lemma prio_idx_inj p p' : prio_idx p = prio_idx p' -> p = p'.
Proof. destruct p, p'; simpl; lia || done. Qed.

Lemma req_ge_before a b : sequence a <> sequence b -> req_ge a b = true <-> before a b.
Proof.
  intros Hne. unfold req_ge, req_cmp, before.
  destruct (Z.compare_spec (prio_idx (priority a)) (prio_idx (priority b))) as [Heq| |].
  - apply prio_idx_inj in Heq. rewrite Heq.
    destruct (Z.compare_spec (sequence b) (sequence a)); split; intros Hx; try lia;
      try (right; split; [done|lia]); try done; destruct Hx as [|[_ ?]]; lia.
  - split; [done|]. intros [|[Hp _]]; [lia|]. rewrite Hp in *. lia.
  - split; [auto|done].
Qed.

Lemma before_total a b : sequence a <> sequence b -> req_ge a b = false -> before b a.
Proof.
  intros Hne. unfold req_ge, req_cmp, before.
  destruct (Z.compare_spec (prio_idx (priority a)) (prio_idx (priority b))) as [Heq| |]; try done.
  - apply prio_idx_inj in Heq. destruct (Z.compare_spec (sequence b) (sequence a)); try done.
    intros _. right. split; [done|lia].
  - by left.
Qed.

Lemma before_trans a b c : before a b -> before b c -> before a c.
Proof.
  unfold before. intros [H1|[H1 H1']] [H2|[H2 H2']].
  - left. lia.
  - left. by rewrite <- H2.
  - left. by rewrite H1.
  - right. split; [congruence|lia].
Qed.

Lemma heap_push_sorted r h :
  StronglySorted before h -> Forall (fun x => sequence x <> sequence r) h ->
  StronglySorted before (heap_push r h).
Proof.
  unfold heap_push. induction h as [|x h IH]; intros Hs Hne; simpl; [repeat constructor|].
  apply StronglySorted_inv in Hs as [Hs Hx]. inversion_clear Hne as [|? ? Hnx Hnh].
  destruct (req_ge r x) eqn:Eg.
  - apply req_ge_before in Eg; [|done]. constructor; [by constructor|]. constructor; [done|].
    eapply Forall_impl; [exact Hx|]. intros y Hy. by eapply before_trans.
  - constructor; [by apply IH|]. rewrite sorted_insert_perm. constructor; [by apply before_total|done].
Qed.

Lemma enqueue_ok now p pr q :
  queue_ok q -> 0 <= next_sequence q < u64_max -> queue_ok (enqueue now p pr q).
Proof.
  intros [Hs Hq] Hn. unfold queue_ok, enqueue. simpl.
  rewrite wrap_small by (unfold in_u, u64_max in *; lia). split.
  - apply heap_push_sorted; [done|]. eapply Forall_impl; [exact Hq|]. simpl. lia.
  - unfold heap_push. rewrite sorted_insert_perm. constructor; [simpl; lia|].
    eapply Forall_impl; [exact Hq|]. simpl. lia.
Qed.

Lemma queue_ok_tail q r rest : queue_ok q -> heap q = r :: rest -> queue_ok (put_heap q rest).
Proof.
  unfold queue_ok. intros [Hs Hq] Hh. rewrite Hh in *. simpl.
  split; [by apply StronglySorted_inv in Hs as [? _]|by inversion Hq].
Qed.

Lemma push_ok now p pr q :
  queue_ok q -> 0 <= next_sequence q < u64_max -> queue_ok (snd (push now p pr q)).
Proof.
  intros Hq Hn. unfold push. destruct (_ <=? _); [|by apply enqueue_ok].
  destruct (heap q) as [|r rest] eqn:Hh; [by apply enqueue_ok|].
  destruct (_ <=? _); [done|]. apply enqueue_ok; [by eapply queue_ok_tail|done].
Qed.

(** ** Claims *)

(** Service order.  A request taken from the queue has the highest priority
    present, and among those the smallest sequence number, so that requests of
    equal priority leave in the order they came; what is left is again a queue
    with this property, and pushing keeps it. *)
Theorem pop_serves_first now p pr q r q' :
  queue_ok q -> 0 <= next_sequence q < u64_max -> pop (snd (push now p pr q)) = (Some r, q') ->
  queue_ok q' /\
  forall x, x ∈ heap q' ->
    prio_idx (priority x) < prio_idx (priority r) \/
    (priority r = priority x /\ sequence r < sequence x).
Proof.
  intros Hq Hn Hpop. pose proof (push_ok now p pr q Hq Hn) as Hq1. revert Hq1 Hpop.
  generalize (snd (push now p pr q)). intros q1 Hq1. unfold pop.
  destruct (heap q1) as [|y rest] eqn:Hh; [done|]. intros [= -> <-].
  split; [by eapply queue_ok_tail|]. simpl.
  destruct Hq1 as [Hs _]. rewrite Hh in Hs. apply StronglySorted_inv in Hs as [_ Hf].
  by rewrite Forall_forall in Hf.
Qed.

(** [push] keeps the queue within [max 1 max_size] requests, and tells the
    truth: a rejected request leaves the queue as it was and is given back; an
    accepted one is in the queue, under the requested priority. *)
Theorem push_bounded now p pr q :
  zlen (heap q) <= Z.max 1 (max_size q) ->
  let '(rejected, q') := push now p pr q in
  zlen (heap q') <= Z.max 1 (max_size q) /\
  match rejected with
  | Some p' => p' = p /\ q' = q
  | None => exists r, r ∈ heap q' /\ payload r = p /\ priority r = pr
  end.
Proof.
  intros Hlen. unfold push.
  assert (forall q0, (exists r, r ∈ heap (enqueue now p pr q0) /\ payload r = p /\ priority r = pr) /\
            zlen (heap (enqueue now p pr q0)) = 1 + zlen (heap q0)) as Henq.
  { intros q0. unfold enqueue. simpl. unfold heap_push. split.
    - eexists. rewrite sorted_insert_perm, elem_of_cons. split; [by left|done].
    - unfold zlen. rewrite sorted_insert_perm. simpl. lia. }
  destruct (max_size q <=? zlen (heap q)) eqn:Em; reflect_Z.
  - destruct (heap q) as [|r rest] eqn:Hh.
    + destruct (Henq q) as [? ->]. rewrite Hh, zlen_nil. split; [lia|done].
    + destruct (_ <=? _); [rewrite Hh; done|]. destruct (Henq (put_heap q rest)) as [? ->]. simpl.
      rewrite zlen_cons in *. split; [lia|done].
  - destruct (Henq q) as [? ->]. split; [lia|done].
Qed.

(** What a full queue evicts.  When a push displaces a request, the displaced
    one is the first in service order, that is the highest-priority, oldest request
    of the queue, and a push that does not outrank every queued request is
    rejected, however low the others are. *)
Theorem full_push_evicts_first now p pr q top rest :
  queue_ok q -> heap q = top :: rest -> max_size q <= zlen (heap q) ->
  (forall x, x ∈ rest -> before top x) /\
  (if prio_idx pr <=? prio_idx (priority top)
   then push now p pr q = (Some p, q)
   else fst (push now p pr q) = None /\
        heap (snd (push now p pr q)) ≡ₚ
          {| payload := p; priority := pr; sequence := next_sequence q; enqueued_at := now |} :: rest).
Proof.
  intros [Hs _] Hh Hfull. rewrite Hh in Hs. apply StronglySorted_inv in Hs as [_ Hf].
  split; [intros x Hx; rewrite Forall_forall in Hf; by apply Hf|].
  unfold push. rewrite (proj2 (Z.leb_le (max_size q) (zlen (heap q)))) by done. rewrite Hh.
  destruct (_ <=? _); [done|]. split; [done|]. simpl. apply sorted_insert_perm.
Qed.
End Queue.
Arguments PrioritizedRequest T : clear implicits.
Arguments PriorityQueue T : clear implicits.

(** ** Witnesses *)

Definition demo_req (p : Z) (pr : Priority) (s : Z) : PrioritizedRequest Z :=
  {| payload := p; priority := pr; sequence := s; enqueued_at := 0 |}.
Definition demo_queue : PriorityQueue Z :=
  snd (push 0 12 High (snd (push 0 11 Low (snd (push 0 10 Low (PriorityQueue_new 3)))))).

Lemma demo_queue_ok : queue_ok demo_queue.
Proof.
  split; vm_compute; [|repeat constructor; discriminate || reflexivity].
  repeat constructor; vm_compute; (left; reflexivity) || (right; split; reflexivity).
Qed.

Lemma pop_serves_first_witness :
  queue_ok (snd (pop (snd (push 1 13 Low demo_queue)))) /\
  fst (pop (snd (push 1 13 Low demo_queue))) = Some (demo_req 12 High 2).
Proof.
  split; [|reflexivity].
  refine (proj1 (pop_serves_first 1 13 Low demo_queue (demo_req 12 High 2)
    (snd (pop (snd (push 1 13 Low demo_queue)))) demo_queue_ok _ _)); [vm_compute|reflexivity].
  split; [discriminate|reflexivity].
Defined.

Lemma push_bounded_witness :
  zlen (heap (snd (push 1 13 Critical demo_queue))) <= 3.
Proof.
  pose proof (push_bounded 1 13 Critical demo_queue ltac:(vm_compute; discriminate)) as H.
  destruct (push 1 13 Critical demo_queue) as [r q'] eqn:E. simpl. exact (proj1 H).
Defined.

(** The full queue holds requests 10, 11 (low) and 12 (high); a critical push
    throws out request 12 and keeps both low ones. *)
Lemma full_push_evicts_first_witness :
  heap (snd (push 1 13 Critical demo_queue)) ≡ₚ
    [{| payload := 13; priority := Critical; sequence := 3; enqueued_at := 1 |}; demo_req 10 Low 0; demo_req 11 Low 1].
Proof.
  refine (proj2 (proj2 (full_push_evicts_first 1 13 Critical demo_queue (demo_req 12 High 2)
    [demo_req 10 Low 0; demo_req 11 Low 1] demo_queue_ok _ _))).
  - reflexivity.
  - vm_compute. discriminate.
Defined.
