(* ===== verification/Scope.v ===== *)
(** * Scope filtering of results (src/src/proxy/scope.rs)

    A scope filter scores the content of each search result against weighted
    phrases and drops, reranks or boosts results.  Similarities are 32-bit
    floats; hash sets of words are finite sets of strings.  The configuration
    record and its defaults come from src/src/config/mod.rs. *)

From Stdlib Require Import SpecFloat.
From S2P Require Import Prelude Floats Text Types.
Open Scope Z_scope.
Open Scope conproxy_scope.

Definition f_one : f32 := F32.of_Z 1.

(** [str::split_whitespace]: the non-empty runs of non-white-space characters. *)
Fixpoint split_ws (cur : str) (s : str) : list str :=
  match s with
  | [] => match cur with [] => [] | _ => [cur] end
  | c :: s' =>
      if is_whitespace c then
        match cur with [] => split_ws [] s' | _ => cur :: split_ws [] s' end
      else split_ws (cur ++ [c]) s'
  end.
Definition split_whitespace (s : str) : list str := split_ws [] s.
Definition word_set_of (s : str) : gset str := list_to_set (split_whitespace s).

(** ** Configuration *)

Record WeightedPhrase := { wp_text : str; wp_weight : f32; wp_min_similarity : option f32 }.
Definition WeightedPhrase_new (text : str) : WeightedPhrase :=
  {| wp_text := text; wp_weight := f_one; wp_min_similarity := None |}.

Record ProxyScopeConfig := {
  weighted_phrases : list WeightedPhrase;
  cfg_seeds : list str;
  cfg_mode : option str;
  cfg_min_seed_similarity : option f32;
  cfg_seed_weight : option f32;
  cfg_query_prefix : option str;
  cfg_lexical_weight : option f32;
  cfg_embed_band : option (f32 * f32)
}.

Definition or_list {A} (l base : list A) : list A := match l with [] => base | _ => l end.

Definition merge_with (self base : ProxyScopeConfig) : ProxyScopeConfig :=
  {| weighted_phrases := or_list (weighted_phrases self) (weighted_phrases base);
     cfg_seeds := or_list (cfg_seeds self) (cfg_seeds base);
     cfg_mode := or_else (cfg_mode self) (cfg_mode base);
     cfg_min_seed_similarity := or_else (cfg_min_seed_similarity self) (cfg_min_seed_similarity base);
     cfg_seed_weight := or_else (cfg_seed_weight self) (cfg_seed_weight base);
     cfg_query_prefix := or_else (cfg_query_prefix self) (cfg_query_prefix base);
     cfg_lexical_weight := or_else (cfg_lexical_weight self) (cfg_lexical_weight base);
     cfg_embed_band := or_else (cfg_embed_band self) (cfg_embed_band base) |}.

Definition effective_phrases (c : ProxyScopeConfig) : list WeightedPhrase :=
  match weighted_phrases c with
  | [] => map WeightedPhrase_new (List.filter (fun s => negb (bool_decide (s = []))) (cfg_seeds c))
  | ps => ps
  end.
Definition cfg_phrase_texts (c : ProxyScopeConfig) : list str := map wp_text (effective_phrases c).
Definition cfg_min_similarity (c : ProxyScopeConfig) : f32 :=
  default (F32.lit 25 100) (cfg_min_seed_similarity c).
Definition cfg_scope_weight (c : ProxyScopeConfig) : f32 := default (F32.lit 3 10) (cfg_seed_weight c).
Definition cfg_lexical (c : ProxyScopeConfig) : f32 := default (F32.lit 5 10) (cfg_lexical_weight c).
Definition cfg_band (c : ProxyScopeConfig) : f32 * f32 :=
  default (F32.lit 1 10, F32.lit 55 100) (cfg_embed_band c).

(** [(0.0..=1.0).contains(&v)] *)
Definition in_unit (v : f32) : bool := f_le f_zero v && f_le v f_one.

(** Which check of [validate] fails, if any; phrase checks carry the index. *)
Inductive ScopeConfigError :=
| BadMode | BadMinSimilarity | BadScopeWeight | BadLexicalWeight | BadBand | BadBandOrder
| BadPhraseText (i : Z) | BadPhraseWeight (i : Z) | BadPhraseMin (i : Z).

Fixpoint validate_phrases (i : Z) (ps : list WeightedPhrase) : result unit ScopeConfigError :=
  match ps with
  | [] => Ok tt
  | p :: ps' =>
      if bool_decide (trim (wp_text p) = []) then Err (BadPhraseText i)
      else if negb (is_finite (wp_weight p)) || f_lt (wp_weight p) f_zero then Err (BadPhraseWeight i)
      else if match wp_min_similarity p with Some ms => negb (in_unit ms) | None => false end
           then Err (BadPhraseMin i)
      else validate_phrases (i + 1) ps'
  end.

Section Scope.
Context `{UnicodeCase}.

Definition scope_config_validate (c : ProxyScopeConfig) : result unit ScopeConfigError :=
  if match cfg_mode c with
     | Some m => let l := to_lowercase m in
                 negb (str_eqb l (lit "filter") || str_eqb l (lit "rerank") || str_eqb l (lit "boost"))
     | None => false
     end then Err BadMode
  else if match cfg_min_seed_similarity c with Some v => negb (in_unit v) | None => false end
       then Err BadMinSimilarity
  else if match cfg_seed_weight c with Some v => negb (in_unit v) | None => false end then Err BadScopeWeight
  else if match cfg_lexical_weight c with Some v => negb (in_unit v) | None => false end
       then Err BadLexicalWeight
  else match cfg_embed_band c with
       | Some (lo, hi) =>
           if negb (in_unit lo) || negb (in_unit hi) then Err BadBand
           else if f_gt lo hi then Err BadBandOrder
           else validate_phrases 0 (weighted_phrases c)
       | None => validate_phrases 0 (weighted_phrases c)
       end.

(** ** The filter *)

Inductive FilterMode := Filter | Rerank | Boost.

Definition FilterMode_from (s : str) : FilterMode :=
  let l := to_lowercase s in
  if str_eqb l (lit "filter") then Filter
  else if str_eqb l (lit "rerank") then Rerank
  else if str_eqb l (lit "boost") then Boost
  else Filter.

Record PhraseEntry := {
  text_lower : str;
  word_set : gset str;
  weight : f32;
  pe_min_similarity : option f32
}.

Record ScopeSignals := { best_sim_of : f32; best_weighted : f32; any : bool }.
Definition ScopeSignals_NONE : ScopeSignals := {| best_sim_of := f_zero; best_weighted := f_zero; any := false |}.

Record ScopeFilter := {
  phrases : list PhraseEntry;
  phrase_texts : list str;
  mode : FilterMode;
  min_similarity : f32;
  scope_weight : f32;
  query_prefix : option str;
  lexical_weight : f32;
  embed_band : f32 * f32;
  phrase_embeddings : option (list (list f32))
}.

Definition phrase_entry (p : WeightedPhrase) : PhraseEntry :=
  let tl := to_lowercase (wp_text p) in
  {| text_lower := tl; word_set := word_set_of tl;
     weight := if is_finite (wp_weight p) && f_ge (wp_weight p) f_zero then wp_weight p else f_one;
     pe_min_similarity := wp_min_similarity p |}.

Definition from_config (c : ProxyScopeConfig) : ScopeFilter :=
  {| phrases := map phrase_entry (effective_phrases c);
     phrase_texts := map wp_text (effective_phrases c);
     mode := match cfg_mode c with Some m => FilterMode_from m | None => Filter end;
     min_similarity := cfg_min_similarity c; scope_weight := cfg_scope_weight c;
     query_prefix := cfg_query_prefix c; lexical_weight := cfg_lexical c; embed_band := cfg_band c;
     phrase_embeddings := None |}.

Definition with_phrase_embeddings (embs : list (list f32)) (f : ScopeFilter) : ScopeFilter :=
  if zlen embs =? zlen (phrases f) then
    {| phrases := phrases f; phrase_texts := phrase_texts f; mode := mode f;
       min_similarity := min_similarity f; scope_weight := scope_weight f; query_prefix := query_prefix f;
       lexical_weight := lexical_weight f; embed_band := embed_band f; phrase_embeddings := Some embs |}
  else f.

Definition ScopeFilter_none : ScopeFilter :=
  {| phrases := []; phrase_texts := []; mode := Filter; min_similarity := f_zero; scope_weight := f_zero;
     query_prefix := None; lexical_weight := F32.lit 5 10; embed_band := (F32.lit 1 10, F32.lit 55 100);
     phrase_embeddings := None |}.

Definition is_enabled (f : ScopeFilter) : bool := match phrases f with [] => false | _ => true end.

Definition apply_prefix (f : ScopeFilter) (query : str) : str :=
  match query_prefix f with Some prefix => prefix ++ [32] ++ query | None => query end.

Definition lexical_sim (phrase_lower : str) (phrase_words : gset str) (content_lower : str)
  (content_words : gset str) : f32 :=
  if bool_decide (phrase_words = ∅) || bool_decide (content_words = ∅) then f_zero
  else
    let overlap := Z.of_nat (size (phrase_words ∩ content_words)) in
    let recall := F32.div (F32.of_Z overlap) (F32.of_Z (Z.of_nat (size phrase_words))) in
    let substring_bonus := if contains_str content_lower phrase_lower then F32.lit 3 10 else f_zero in
    f_clamp (F32.add recall substring_bonus) f_zero f_one.

Definition cosine_step (acc : f64 * f64 * f64) (xy : f32 * f32) : f64 * f64 * f64 :=
  let '(dot, ma, mb) := acc in
  let x := f64_of_f32 xy.1 in
  let y := f64_of_f32 xy.2 in
  (F64.add dot (F64.mul x y), F64.add ma (F64.mul x x), F64.add mb (F64.mul y y)).

Definition cosine_similarity (a b : list f32) : f32 :=
  if negb (zlen a =? zlen b) || bool_decide (a = []) then f_zero
  else
    let '(dot, ma, mb) := fold_left cosine_step (combine a b) (f_zero, f_zero, f_zero) in
    let denom := F64.sqrt (F64.mul ma mb) in
    if f_eq denom f_zero then f_zero else f32_of_f64 (F64.div dot denom).

Definition hybrid_sim (f : ScopeFilter) (phrase_idx : nat) (lexical : f32) (content_emb : option (list f32))
  : f32 :=
  match phrase_embeddings f, content_emb with
  | Some phrase_embs, Some ce =>
      match phrase_embs !! phrase_idx with
      | Some pe =>
          let '(lo, hi) := embed_band f in
          if f_ge lexical hi || f_lt lexical lo then lexical
          else
            let semantic := f_clamp (cosine_similarity ce pe) f_zero f_one in
            let lw := f_clamp (lexical_weight f) f_zero f_one in
            f_clamp (F32.add (F32.mul lw lexical) (F32.mul (F32.sub f_one lw) semantic)) f_zero f_one
      | None => lexical
      end
  | _, _ => lexical
  end.

(** The loop over the phrases; [i] is the index of the first one of [ps]. *)
Fixpoint signals_loop (f : ScopeFilter) (content_lower : str) (content_words : gset str)
  (content_emb : option (list f32)) (i : nat) (ps : list PhraseEntry) (acc : ScopeSignals) : ScopeSignals :=
  match ps with
  | [] => acc
  | p :: ps' =>
      let lexical := lexical_sim (text_lower p) (word_set p) content_lower content_words in
      let sim := hybrid_sim f i lexical content_emb in
      let floor := default (min_similarity f) (pe_min_similarity p) in
      let acc := if f_lt sim floor then acc
                 else {| best_sim_of := f_max (best_sim_of acc) sim;
                         best_weighted := f_max (best_weighted acc) (F32.mul sim (weight p));
                         any := true |} in
      signals_loop f content_lower content_words content_emb (S i) ps' acc
  end.

Definition signals_for_emb (f : ScopeFilter) (content : str) (content_emb : option (list f32)) : ScopeSignals :=
  match phrases f with
  | [] => {| best_sim_of := f_one; best_weighted := f_one; any := true |}
  | ps =>
      let content_lower := to_lowercase content in
      let s := signals_loop f content_lower (word_set_of content_lower) content_emb 0 ps ScopeSignals_NONE in
      if any s then s else ScopeSignals_NONE
  end.
Definition signals_for (f : ScopeFilter) (content : str) : ScopeSignals := signals_for_emb f content None.

Definition max_seed_similarity (f : ScopeFilter) (content : str) : f32 := best_sim_of (signals_for f content).
Definition best_sim_with_embedding (f : ScopeFilter) (content : str) (ce : option (list f32)) : f32 :=
  let s := signals_for_emb f content ce in
  if any s then best_sim_of s else match phrases f with [] => f_one | _ => f_zero end.
Definition best_sim (f : ScopeFilter) (content : str) : f32 := best_sim_with_embedding f content None.

Definition emb_at (content_embeddings : option (list (list f32))) (idx : nat) : option (list f32) :=
  and_then content_embeddings (fun e => e !! idx).

(** [results.into_iter().enumerate()] *)
Definition enumerate {A} (l : list A) : list (nat * A) := combine (List.seq 0 (length l)) l.

(** The test of filter mode. *)
Definition keeps (f : ScopeFilter) (ces : option (list (list f32))) (ir : nat * SearchResult) : bool :=
  let s := signals_for_emb f (content ir.2) (emb_at ces ir.1) in
  any s && f_ge (best_sim_of s) (min_similarity f).

Definition apply_filter (f : ScopeFilter) (rs : list SearchResult) (ces : option (list (list f32)))
  : list SearchResult := map snd (List.filter (keeps f ces) (enumerate rs)).

Definition put_score (r : SearchResult) (v : f32) : SearchResult :=
  {| sr_id := sr_id r; score := v; content := content r; metadata := metadata r;
     sr_upstream_id := sr_upstream_id r |}.

Definition max_weight (f : ScopeFilter) : f32 :=
  f_max (fold_left f_max (map weight (phrases f)) f_one) f_one.

Definition blended (f : ScopeFilter) (ces : option (list (list f32))) (ir : nat * SearchResult) : f32 :=
  let w := f_clamp (scope_weight f) f_zero f_one in
  let s := signals_for_emb f (content ir.2) (emb_at ces ir.1) in
  let scope_signal := if any s then f_clamp (F32.div (best_weighted s) (max_weight f)) f_zero f_one else f_zero in
  F32.add (F32.mul (F32.sub f_one w) (score ir.2)) (F32.mul w scope_signal).

Definition apply_rerank (f : ScopeFilter) (rs : list SearchResult) (ces : option (list (list f32)))
  : list SearchResult :=
  let scored := map (fun ir => (ir.2, blended f ces ir)) (enumerate rs) in
  map (fun rs : SearchResult * f32 => put_score rs.1 rs.2)
    (sort_by (fun a b : SearchResult * f32 => score_desc_le a.2 b.2) scored).

Definition boosted (f : ScopeFilter) (ces : option (list (list f32))) (ir : nat * SearchResult) : SearchResult :=
  let w := f_clamp (scope_weight f) f_zero f_one in
  let s := signals_for_emb f (content ir.2) (emb_at ces ir.1) in
  if any s && f_ge (best_sim_of s) (min_similarity f) then
    let norm := f_clamp (F32.div (best_weighted s) (max_weight f)) f_zero f_one in
    put_score ir.2 (F32.mul (score ir.2) (F32.add f_one (F32.mul w norm)))
  else ir.2.

Definition apply_boost (f : ScopeFilter) (rs : list SearchResult) (ces : option (list (list f32)))
  : list SearchResult := map (boosted f ces) (enumerate rs).

Definition filter_results_hybrid (f : ScopeFilter) (rs : list SearchResult) (ces : option (list (list f32)))
  : list SearchResult :=
  if negb (is_enabled f) then rs
  else match mode f with
       | Filter => apply_filter f rs ces
       | Rerank => apply_rerank f rs ces
       | Boost => apply_boost f rs ces
       end.
Definition filter_results (f : ScopeFilter) (rs : list SearchResult) : list SearchResult :=
  filter_results_hybrid f rs None.

Record FilterStats := { input_count : Z; output_count : Z; filtered_count : Z; avg_similarity : f32 }.

Definition filter_with_stats (f : ScopeFilter) (rs : list SearchResult) : list SearchResult * FilterStats :=
  if negb (is_enabled f) then
    (rs, {| input_count := zlen rs; output_count := zlen rs; filtered_count := 0; avg_similarity := f_one |})
  else
    let filtered := filter_results f rs in
    let avg := match filtered with
               | [] => f_zero
               | _ => F32.div (fold_left F32.add (map (fun r => max_seed_similarity f (content r)) filtered) f_zero)
                        (F32.of_Z (zlen filtered))
               end in
    (filtered, {| input_count := zlen rs; output_count := zlen filtered;
                  filtered_count := zlen rs -! zlen filtered; avg_similarity := avg |}).

Record DiscardedResult := { dr_id : str; dr_similarity : f32; dr_threshold : f32 }.

Fixpoint discard_loop (f : ScopeFilter) (rs : list SearchResult) : list SearchResult * list DiscardedResult :=
  match rs with
  | [] => ([], [])
  | r :: rs' =>
      let s := signals_for f (content r) in
      let '(kept, discarded) := discard_loop f rs' in
      if any s && f_ge (best_sim_of s) (min_similarity f) then (r :: kept, discarded)
      else (kept, {| dr_id := sr_id r; dr_similarity := best_sim_of s; dr_threshold := min_similarity f |} :: discarded)
  end.

Definition filter_with_discarded (f : ScopeFilter) (rs : list SearchResult)
  : list SearchResult * list DiscardedResult :=
  if negb (is_enabled f) then (rs, []) else discard_loop f rs.

(** ** Lemmas *)

Lemma enumerate_from_filter (g : SearchResult -> bool) k (rs : list SearchResult) :
  map snd (List.filter (fun ir : nat * SearchResult => g ir.2) (combine (List.seq k (length rs)) rs)) =
  List.filter g rs.
Proof.
  revert k. induction rs as [|r rs IH]; intros k; simpl; [done|].
  destruct (g r); simpl; by rewrite IH.
Qed.

Lemma enumerate_snd {A} k (l : list A) : map snd (combine (List.seq k (length l)) l) = l.
Proof. revert k. induction l as [|x l IH]; intros k; simpl; [done|]. by rewrite IH. Qed.

Definition keeps_lex (f : ScopeFilter) (r : SearchResult) : bool :=
  let s := signals_for f (content r) in any s && f_ge (best_sim_of s) (min_similarity f).

Lemma discard_loop_spec f rs :
  fst (discard_loop f rs) = List.filter (keeps_lex f) rs /\
  map dr_id (snd (discard_loop f rs)) = map sr_id (List.filter (fun r => negb (keeps_lex f r)) rs).
Proof.
  induction rs as [|r rs [IH1 IH2]]; simpl; [done|].
  destruct (discard_loop f rs) as [kept disc]. simpl in *. fold (keeps_lex f r).
  destruct (keeps_lex f r); simpl; by rewrite IH1, IH2.
Qed.

(** A result without its score. *)
Definition unscored (r : SearchResult) : str * str * option Value * option str :=
  (sr_id r, content r, metadata r, sr_upstream_id r).

(** ** Claims *)

(** Filter mode is a filter.  The results kept are exactly those with a
    contributing phrase and enough similarity, unchanged and in order; and the
    variant that also reports what it dropped keeps the same results and accounts
    for every other one. *)
Theorem filter_mode_partitions f rs :
  is_enabled f = true -> mode f = Filter ->
  filter_results f rs = List.filter (keeps_lex f) rs /\
  fst (filter_with_discarded f rs) = filter_results f rs /\
  map sr_id rs ≡ₚ map sr_id (filter_results f rs) ++ map dr_id (snd (filter_with_discarded f rs)).
Proof.
  intros He Hm.
  assert (filter_results f rs = List.filter (keeps_lex f) rs) as Hf.
  { unfold filter_results, filter_results_hybrid. rewrite He, Hm. simpl.
    unfold apply_filter, enumerate. rewrite <- (enumerate_from_filter (keeps_lex f) 0). done. }
  destruct (discard_loop_spec f rs) as [H1 H2].
  unfold filter_with_discarded. rewrite He. simpl. split_and!; [done|by rewrite H1|].
  rewrite Hf, H2, <- map_app. apply Permutation_map, filter_partition_perm.
Qed.

(** Rerank and boost keep every result.  Reranking returns the same results
    with new scores, in descending score order (when no blended score is NaN);
    boosting keeps the order and changes only scores. *)
Theorem rerank_boost_keep_all f rs ces :
  is_enabled f = true ->
  (mode f = Rerank ->
     map unscored (filter_results_hybrid f rs ces) ≡ₚ map unscored rs /\
     (Forall (fun ir => not_nan (blended f ces ir)) (enumerate rs) ->
      StronglySorted (fun a b => f_le (score b) (score a) = true) (filter_results_hybrid f rs ces))) /\
  (mode f = Boost -> map unscored (filter_results_hybrid f rs ces) = map unscored rs).
Proof.
  intros He. unfold filter_results_hybrid. rewrite He. simpl. split; intros ->.
  - unfold apply_rerank. split.
    + rewrite map_map. simpl.
      change (fun x : SearchResult * f32 => unscored (put_score x.1 x.2))
        with (fun x : SearchResult * f32 => unscored x.1).
      rewrite (Permutation_map _ (sort_by_perm _ _)), map_map. simpl.
      rewrite <- (map_map snd unscored). unfold enumerate. by rewrite enumerate_snd.
    + intros Hnn. 
      assert (StronglySorted (fun a b : SearchResult * f32 => f_le b.2 a.2 = true)
        (sort_by (fun a b : SearchResult * f32 => score_desc_le a.2 b.2)
           (map (fun ir => (ir.2, blended f ces ir)) (enumerate rs)))) as Hs.
      { apply (score_desc_sorted (A := SearchResult * f32) snd). apply Forall_map. done. }
      induction Hs as [|x l Hs IH Hx]; simpl; constructor; [done|].
      apply Forall_map. done.
  - unfold apply_boost. rewrite map_map.
    transitivity (map (fun ir : nat * SearchResult => unscored ir.2) (enumerate rs)).
    + apply map_ext. intros ir. unfold boosted. by destruct (_ && _).
    + rewrite <- (map_map snd unscored). unfold enumerate. by rewrite enumerate_snd.
Qed.
End Scope.

(** ** Witnesses *)

#[local] Existing Instance AsciiCase.
Definition demo_scope (m : FilterMode) : ScopeFilter :=
  let f := from_config {| weighted_phrases := [WeightedPhrase_new (lit "Rust proxy")]; cfg_seeds := [];
    cfg_mode := None; cfg_min_seed_similarity := None; cfg_seed_weight := None; cfg_query_prefix := None;
    cfg_lexical_weight := None; cfg_embed_band := None |} in
  {| phrases := phrases f; phrase_texts := phrase_texts f; mode := m; min_similarity := min_similarity f;
     scope_weight := scope_weight f; query_prefix := query_prefix f; lexical_weight := lexical_weight f;
     embed_band := embed_band f; phrase_embeddings := phrase_embeddings f |}.
Definition demo_hits : list SearchResult :=
  [{| sr_id := lit "1"; score := F32.lit 5 10; content := lit "cooking pasta"; metadata := None; sr_upstream_id := None |};
   {| sr_id := lit "2"; score := F32.lit 4 10; content := lit "a rust proxy"; metadata := None; sr_upstream_id := None |}].

Lemma filter_mode_partitions_witness :
  filter_results (demo_scope Filter) demo_hits = List.filter (keeps_lex (demo_scope Filter)) demo_hits /\
  map sr_id (filter_results (demo_scope Filter) demo_hits) = [lit "2"].
Proof.
  split; [|vm_compute; reflexivity].
  refine (proj1 (filter_mode_partitions (demo_scope Filter) demo_hits _ _)); reflexivity.
Defined.

Lemma rerank_boost_keep_all_witness :
  map unscored (filter_results_hybrid (demo_scope Rerank) demo_hits None) ≡ₚ map unscored demo_hits /\
  map sr_id (filter_results_hybrid (demo_scope Rerank) demo_hits None) = [lit "2"; lit "1"].
Proof.
  split; [|vm_compute; reflexivity].
  refine (proj1 (proj1 (rerank_boost_keep_all (demo_scope Rerank) demo_hits None _) _)); reflexivity.
Defined.
