(* ===== verification/Coalesce.v ===== *)
(** * Request coalescing (src/src/proxy/coalesce.rs)

    Concurrent requests for one key are collapsed: the first becomes the leader,
    the others subscribe to a broadcast channel the leader completes.  The channel
    is third-party code (tokio): a channel is an identifier, [channel] yields a
    new one, and the model records in [sends] the values sent on each channel.  A
    receiver gets what is sent on its channel after it subscribed
    ([receives]), which is what tokio documents for a channel that is not lagging.

    [complete] first removes the sender from the map and then sends.  The
    transition system below keeps these two steps apart, so that other requests
    may run in between. *)

From S2P Require Import Prelude.
Open Scope Z_scope.
Open Scope conproxy_scope.

Definition BROADCAST_CAPACITY : Z := 1.

Abbreviation ChanId := Z (only parsing).
Abbreviation Key := (list Z) (only parsing).

Section Coalesce.
Context {R : Type}.

Record RequestCoalescer := {
  in_flight : gmap Key ChanId;
  next_chan : ChanId;
  sends : list (ChanId * R)
}.

Inductive CoalesceAction := Leader | Waiter (receiver : ChanId).

Definition RequestCoalescer_new : RequestCoalescer := {| in_flight := ∅; next_chan := 0; sends := [] |}.

Definition get_or_insert (h : Key) (c : RequestCoalescer) : CoalesceAction * RequestCoalescer :=
  match in_flight c !! h with
  | Some tx => (Waiter tx, c)
  | None =>
      let tx := next_chan c in
      (Leader, {| in_flight := <[h := tx]> (in_flight c); next_chan := tx + 1; sends := sends c |})
  end.

(** [self.in_flight.remove(hash)]: the sender that was there. *)
Definition take_sender (h : Key) (c : RequestCoalescer) : option ChanId * RequestCoalescer :=
  (in_flight c !! h,
   {| in_flight := delete h (in_flight c); next_chan := next_chan c; sends := sends c |}).

(** [sender.send(result)] *)
Definition send_on (tx : ChanId) (r : R) (c : RequestCoalescer) : RequestCoalescer :=
  {| in_flight := in_flight c; next_chan := next_chan c; sends := sends c ++ [(tx, r)] |}.

Definition complete (h : Key) (r : R) (c : RequestCoalescer) : RequestCoalescer :=
  match take_sender h c with
  | (Some tx, c) => send_on tx r c
  | (None, c) => c
  end.

Definition co_remove (h : Key) (c : RequestCoalescer) : RequestCoalescer := snd (take_sender h c).

Definition in_flight_count (c : RequestCoalescer) : Z := Z.of_nat (size (in_flight c)).
Definition is_in_flight (h : Key) (c : RequestCoalescer) : bool := bool_decide (is_Some (in_flight c !! h)).

(** What a receiver of channel [tx] that subscribed when [k] values had been sent
    gets first. *)
Definition receives (tx : ChanId) (k : nat) (c : RequestCoalescer) : option R :=
  snd <$> List.find (fun s : ChanId * R => s.1 =? tx) (drop k (sends c)).

(** ** Interleavings

    Who is doing what: leaders that have not completed (with their key and
    channel), leaders between the removal and the send, and waiters with their
    channel, key and subscription time. *)
Record System := {
  co : RequestCoalescer;
  leading : list (Key * ChanId);
  sending : list (Key * ChanId * R);
  waiting : list (Key * ChanId * nat)
}.

Definition System_init : System := {| co := RequestCoalescer_new; leading := []; sending := []; waiting := [] |}.

Inductive sys_step : System -> System -> Prop :=
| s_join s h :
    sys_step s
      (match get_or_insert h (co s) with
       | (Leader, c) => {| co := c; leading := (h, next_chan (co s)) :: leading s; sending := sending s;
                           waiting := waiting s |}
       | (Waiter tx, c) => {| co := c; leading := leading s; sending := sending s;
                              waiting := (h, tx, length (sends (co s))) :: waiting s |}
       end)
| s_take s h tx r l1 l2 :
    leading s = l1 ++ (h, tx) :: l2 ->
    sys_step s
      (match take_sender h (co s) with
       | (Some tx', c) => {| co := c; leading := l1 ++ l2; sending := (h, tx', r) :: sending s;
                             waiting := waiting s |}
       | (None, c) => {| co := c; leading := l1 ++ l2; sending := sending s; waiting := waiting s |}
       end)
| s_send s h tx r l1 l2 :
    sending s = l1 ++ (h, tx, r) :: l2 ->
    sys_step s {| co := send_on tx r (co s); leading := leading s; sending := l1 ++ l2; waiting := waiting s |}.

Inductive sys_reachable : System -> Prop :=
| sr_init : sys_reachable System_init
| sr_step s s' : sys_reachable s -> sys_step s s' -> sys_reachable s'.

(** ** Invariant *)

Record sys_ok (s : System) : Prop := {
  (** a key is in flight exactly when it has a leader, which owns its channel *)
  so_leading : forall h tx, (h, tx) ∈ leading s <-> in_flight (co s) !! h = Some tx;
  so_nodup : NoDup (leading s);
  (** channels in use are distinct and old *)
  so_fresh : forall h tx, in_flight (co s) !! h = Some tx -> tx < next_chan (co s);
  so_inj : forall h h' tx, in_flight (co s) !! h = Some tx -> in_flight (co s) !! h' = Some tx -> h = h';
  so_sending_fresh : forall h tx r, (h, tx, r) ∈ sending s -> tx < next_chan (co s);
  so_sending_gone : forall h tx r h', (h, tx, r) ∈ sending s -> in_flight (co s) !! h' <> Some tx;
  so_sending_nodup : NoDup (map (fun x => x.1.2) (sending s));
  (** a channel that has been sent on is in use by nobody *)
  so_sent : forall tx r, (tx, r) ∈ sends (co s) ->
    tx < next_chan (co s) /\ (forall h, in_flight (co s) !! h <> Some tx) /\
    (forall h r', (h, tx, r') ∉ sending s);
  so_sent_once : NoDup (map fst (sends (co s)));
  (** a waiter's channel is in flight, about to be sent on, or sent on after it subscribed *)
  so_waiting : forall h tx k, (h, tx, k) ∈ waiting s ->
    (in_flight (co s) !! h = Some tx /\ (k <= length (sends (co s)))%nat) \/
    (exists r, (h, tx, r) ∈ sending s /\ (k <= length (sends (co s)))%nat) \/
    (exists r, receives tx k (co s) = Some r)
}.

Lemma sys_ok_init : sys_ok System_init.
Proof.
  split; simpl; try (intros; set_solver); try (by intros; rewrite lookup_empty in *); try constructor.
Qed.

Lemma receives_app tx k c x r :
  receives tx k c = Some r -> receives tx k (send_on x.1 x.2 c) = Some r.
Proof.
  unfold receives, send_on. simpl. destruct x as [tx' r']. simpl. intros Hr.
  destruct (decide (k <= length (sends c))%nat) as [Hk|Hk].
  - rewrite drop_app_le by done.
    destruct (List.find _ (drop k (sends c))) as [y|] eqn:Hf; [|done].
    assert (forall l' : list (Z * R), List.find (fun s : Z * R => s.1 =? tx) (drop k (sends c) ++ l') = Some y) as ->; [|done].
    intros l'. revert Hf. generalize (drop k (sends c)). intros l. induction l as [|z l IH]; simpl; [done|].
    destruct (z.1 =? tx); [done|auto].
  - rewrite drop_ge in Hr by lia. done.
Qed.

Lemma receives_new tx k c r : (k <= length (sends c))%nat -> is_Some (receives tx k (send_on tx r c)).
Proof.
  intros Hk. unfold receives, send_on. simpl. rewrite drop_app_le by done.
  generalize (drop k (sends c)). intros l. induction l as [|z l IH]; simpl.
  - rewrite Z.eqb_refl. by eexists.
  - destruct (z.1 =? tx); [by eexists|done].
Qed.

Lemma sys_ok_join s h : sys_ok s -> in_flight (co s) !! h = None ->
  sys_ok {| co := {| in_flight := <[h := next_chan (co s)]> (in_flight (co s));
                     next_chan := next_chan (co s) + 1; sends := sends (co s) |};
            leading := (h, next_chan (co s)) :: leading s; sending := sending s; waiting := waiting s |}.
Proof.
  intros [Hl Hnd Hfr Hinj Hsf Hsg Hsn Hst Hso Hw] Hn.
  assert (Hold : forall h' tx, in_flight (co s) !! h' = Some tx -> h' <> h /\ tx <> next_chan (co s)).
  { intros h' tx Hh'. split; [congruence|]. specialize (Hfr _ _ Hh'). lia. }
  split; simpl; try done.
  - intros h' tx. rewrite elem_of_cons, Hl, lookup_insert_Some. split.
    + intros [[= -> ->]|Hh']; [by left|right]. split; [|done]. symmetry. by eapply Hold.
    + intros [[-> ->]|[_ Hh']]; auto.
  - constructor; [|done]. rewrite Hl. congruence.
  - intros h' tx [[_ <-]|[_ Hh']]%lookup_insert_Some; [lia|]. specialize (Hfr _ _ Hh'). lia.
  - intros h1 h2 tx [[<- <-]|[_ H1]]%lookup_insert_Some [[<- H2]|[_ H2]]%lookup_insert_Some; try done; try congruence.
    + by apply Hold in H2 as [_ []].
    + subst. by apply Hold in H1 as [_ []].
    + eauto.
  - intros h' tx r Hin. specialize (Hsf _ _ _ Hin). lia.
  - intros h' tx r h2 Hin [[_ <-]|[_ Hh']]%lookup_insert_Some; [|by eapply Hsg].
    specialize (Hsf _ _ _ Hin). lia.
  - intros tx r Hin. destruct (Hst _ _ Hin) as (H1 & H2 & H3). split_and!; [lia| |done].
    intros h' [[_ <-]|[_ Hh']]%lookup_insert_Some; [lia|by eapply H2].
  - intros h' tx k Hin. destruct (Hw _ _ _ Hin) as [[H1 H2]|[H1|H1]]; [left|by right; left|by right; right].
    split; [|done]. rewrite lookup_insert_ne; [done|]. intros <-. congruence.
Qed.

Lemma sys_ok_wait s h tx : sys_ok s -> in_flight (co s) !! h = Some tx ->
  sys_ok {| co := co s; leading := leading s; sending := sending s;
            waiting := (h, tx, length (sends (co s))) :: waiting s |}.
Proof.
  intros [Hl Hnd Hfr Hinj Hsf Hsg Hsn Hst Hso Hw] Hn. split; simpl; try done.
  intros h' tx' k [[= -> -> ->]|Hin]%elem_of_cons; [left; done|]. by apply Hw.
Qed.

Lemma sys_ok_take s h tx r l1 l2 : sys_ok s -> leading s = l1 ++ (h, tx) :: l2 ->
  in_flight (co s) !! h = Some tx /\
  sys_ok {| co := {| in_flight := delete h (in_flight (co s)); next_chan := next_chan (co s);
                     sends := sends (co s) |};
            leading := l1 ++ l2; sending := (h, tx, r) :: sending s; waiting := waiting s |}.
Proof.
  intros [Hl Hnd Hfr Hinj Hsf Hsg Hsn Hst Hso Hw] Hlead.
  assert (in_flight (co s) !! h = Some tx) as Hh by (apply Hl; rewrite Hlead; set_solver).
  split; [done|].
  assert (Hni : (h, tx) ∉ l1 ++ l2).
  { rewrite Hlead in Hnd. apply NoDup_app in Hnd as (_ & Hd & Hc). apply NoDup_cons in Hc as [Hc _].
    rewrite elem_of_app. intros [Hx|Hx]; [|done]. by apply (Hd _ Hx); left. }
  assert (Hmem : forall x, x ∈ leading s <-> x = (h, tx) \/ x ∈ l1 ++ l2)
    by (intros x; rewrite Hlead, !elem_of_app, elem_of_cons; tauto).
  split; simpl; try done.
  - intros h' tx'. rewrite lookup_delete_Some, <- Hl, Hmem. split.
    + intros Hin. assert (h <> h').
      { intros <-. assert (in_flight (co s) !! h = Some tx') by (apply Hl, Hmem; auto). congruence. }
      split; [done|]. by right.
    + intros [Hne [[= -> ->]|Hin]]; [done|done].
  - rewrite Hlead in Hnd. apply NoDup_app in Hnd as (H1 & Hd & Hc). apply NoDup_cons in Hc as [_ Hc].
    apply NoDup_app. split_and!; [done| |done]. intros x Hx Hx2. apply (Hd x Hx). by right.
  - intros h' tx' [_ Hh']%lookup_delete_Some. eauto.
  - intros h1 h2 tx' [_ H1]%lookup_delete_Some [_ H2]%lookup_delete_Some. eauto.
  - intros h' tx' r' [[= -> -> ->]|Hin]%elem_of_cons; eauto.
  - intros h' tx' r' h2 [[= -> -> ->]|Hin]%elem_of_cons [Hne H2]%lookup_delete_Some.
    + apply Hne. by eapply Hinj.
    + by eapply Hsg.
  - constructor; [|done]. intros Hin. rewrite list_elem_of_In, in_map_iff in Hin.
    destruct Hin as ([[h' tx'] r'] & Heq & Hin%list_elem_of_In). simpl in Heq. subst. by eapply Hsg.
  - intros tx' r' Hin. destruct (Hst _ _ Hin) as (H1 & H2 & H3). split_and!; [done| |].
    + intros h' [_ Hh']%lookup_delete_Some. by eapply H2.
    + intros h' r2 [[= -> -> ->]|Hin2]%elem_of_cons; [by eapply H2|by eapply H3].
  - intros h' tx' k Hin. destruct (Hw _ _ _ Hin) as [[H1 H2]|[(r' & H1 & H2)|H1]].
    + destruct (decide (h' = h)) as [->|Hne].
      * right. left. exists r. assert (tx' = tx) as -> by congruence. split; [by left|done].
      * left. rewrite lookup_delete_ne by done. done.
    + right. left. exists r'. split; [by right|done].
    + by right; right.
Qed.

Lemma sys_ok_send s h tx r l1 l2 : sys_ok s -> sending s = l1 ++ (h, tx, r) :: l2 ->
  sys_ok {| co := send_on tx r (co s); leading := leading s; sending := l1 ++ l2; waiting := waiting s |}.
Proof.
  intros [Hl Hnd Hfr Hinj Hsf Hsg Hsn Hst Hso Hw] Hsend.
  assert (Hmem : forall x, x ∈ sending s <-> x = (h, tx, r) \/ x ∈ l1 ++ l2)
    by (intros x; rewrite Hsend, !elem_of_app, elem_of_cons; tauto).
  assert (Hni : forall h' r', (h', tx, r') ∉ l1 ++ l2).
  { rewrite Hsend in Hsn. rewrite map_app in Hsn. simpl in Hsn.
    apply NoDup_app in Hsn as (_ & Hd & Hc). apply NoDup_cons in Hc as [Hc _].
    intros h' r' Hx. rewrite elem_of_app in Hx.
    assert (Hmap : forall l, (h', tx, r') ∈ l -> tx ∈ map (fun x : Key * ChanId * R => x.1.2) l).
    { intros l Hin. rewrite list_elem_of_In, in_map_iff. exists (h', tx, r').
      split; [done|by apply list_elem_of_In]. }
    destruct Hx as [Hx|Hx]; [|by apply Hc, Hmap]. apply (Hd tx (Hmap _ Hx)). by left. }
  split; simpl; try done.
  - intros h' tx' r' Hin. eapply Hsf, Hmem. by right.
  - intros h' tx' r' h2 Hin. eapply Hsg, Hmem. by right.
  - rewrite Hsend, map_app in Hsn. simpl in Hsn. rewrite map_app.
    apply NoDup_app in Hsn as (H1 & Hd & Hc). apply NoDup_cons in Hc as [_ Hc].
    apply NoDup_app. split_and!; [done| |done]. intros x Hx Hx2. apply (Hd x Hx). by right.
  - intros tx' r' [Hin|[= -> ->]%list_elem_of_singleton]%elem_of_app.
    + destruct (Hst _ _ Hin) as (H1 & H2 & H3). split_and!; [done|done|].
      intros h' r2 Hin2. apply (H3 h' r2), Hmem. by right.
    + split_and!; [eapply Hsf, Hmem; by left| |].
      * intros h'. eapply Hsg, Hmem. by left.
      * intros h' r2. apply Hni.
  - rewrite map_app. simpl. apply NoDup_app. split_and!; [done| |apply NoDup_singleton].
    intros x Hx ->%list_elem_of_singleton. rewrite list_elem_of_In, in_map_iff in Hx.
    destruct Hx as ([tx' r'] & Heq & Hin%list_elem_of_In). simpl in Heq. subst.
    destruct (Hst _ _ Hin) as (_ & _ & H3). eapply H3, Hmem. by left.
  - rewrite length_app. simpl. intros h' tx' k Hin. destruct (Hw _ _ _ Hin) as [[H1 H2]|[(r' & H1 & H2)|[r' H1]]].
    + left. split; [done|lia].
    + apply Hmem in H1 as [[= -> -> ->]|H1].
      * right. right. destruct (receives_new tx k (co s) r H2) as [r' ?]. eauto.
      * right. left. exists r'. split; [done|lia].
    + right. right. exists r'. by apply (receives_app tx' k (co s) (tx, r)).
Qed.

Lemma sys_reachable_ok s : sys_reachable s -> sys_ok s.
Proof.
  induction 1 as [|s s' _ IH Hst]; [apply sys_ok_init|].
  destruct Hst as [s h|s h tx r l1 l2 Hl|s h tx r l1 l2 Hs].
  - unfold get_or_insert. destruct (in_flight (co s) !! h) as [tx|] eqn:Hh;
      [by apply sys_ok_wait|by apply sys_ok_join].
  - destruct (sys_ok_take s h tx r l1 l2 IH Hl) as [Hh Hok]. unfold take_sender. by rewrite Hh.
  - by apply (sys_ok_send s h).
Qed.

(** ** Claims *)


End Coalesce.
Arguments RequestCoalescer R : clear implicits.
Arguments System R : clear implicits.

(** ** Witnesses: request 7 leads, a second request for it waits, the leader takes
    its sender and sends. *)

Definition demo_sys : System Z :=
  {| co := {| in_flight := ∅; next_chan := 1; sends := [(0, 42)] |};
     leading := []; sending := []; waiting := [([7], 0, 0%nat)] |}.

Lemma demo_sys_reachable : sys_reachable demo_sys.
Proof.
  pose proof (sr_step _ _ sr_init (s_join (R := Z) System_init [7])) as H1. vm_compute in H1.
  pose proof (sr_step _ _ H1 (s_join _ [7])) as H2. vm_compute in H2.
  match type of H2 with sys_reachable ?x =>
    pose proof (sr_step _ _ H2 (s_take x [7] 0 42 [] [] eq_refl)) as H3; vm_compute in H3 end.
  match type of H3 with sys_reachable ?x => exact (sr_step _ _ H3 (s_send x [7] 0 42 [] [] eq_refl)) end.
Qed.


