(* ===== verification/Retry.v ===== *)
(** * Retries with exponential backoff (src/src/proxy/retry.rs)

    The policy, the delay before each attempt in 64-bit floats, the retryable
    errors of the retry module and of src/src/proxy/upstream.rs, and the executor's
    loop.  The operation that is retried is a function of the attempt number; the
    time it takes is part of its answer.  [f64::powi] has no specified rounding and
    is a parameter ([FloatPow]). *)

From Stdlib Require Import SpecFloat.
From S2P Require Import Prelude Floats Text.
Open Scope Z_scope.
Open Scope conproxy_scope.

Class FloatPow := { powi : f64 -> Z -> f64 }.

(** Repeated multiplication, for a non-negative exponent. *)
Definition MulPow : FloatPow :=
  {| powi := fun x n => Nat.iter (Z.to_nat n) (F64.mul x) (F64.of_Z 1) |}.

(** [x % 1.0] for a non-negative finite binary32: the fraction, which is exact. *)
Definition f32_fract (x : f32) : f32 :=
  match x with
  | S754_finite false m e => F32.sub x (F32.of_Z (trunc_mag m e))
  | _ => x
  end.

(** [v as i32] of a [u32]. *)
Definition as_i32 (v : Z) : Z := if v <? 2 ^ 31 then v else v - 2 ^ 32.

(** [Duration::from_secs_f64]: nearest nanosecond, ties to even; panics on a
    negative, non-finite or too large number. *)
Definition round_half_even (n d : Z) : Z :=
  let q := n / d in
  let r := n mod d in
  if 2 * r <? d then q else if d <? 2 * r then q + 1 else if Z.even q then q else q + 1.
Definition dur_from_secs_f64 (x : f64) : outcome Z :=
  match x with
  | S754_zero _ => Ret 0
  | S754_infinity _ | S754_nan => Panic
  | S754_finite true _ _ => Panic
  | S754_finite false m e =>
      let nanos := if 0 <=? e then Zpos m * 2 ^ e * nanos_per_sec
                   else round_half_even (Zpos m * nanos_per_sec) (2 ^ (- e)) in
      if nanos <=? dur_max then Ret nanos else Panic
  end.

Record RetryCondition := {
  on_network_error : bool;
  on_timeout : bool;
  on_server_error : bool;
  on_rate_limited : bool;
  on_status_codes : list Z
}.

Definition RetryCondition_default : RetryCondition :=
  {| on_network_error := true; on_timeout := true; on_server_error := true; on_rate_limited := true;
     on_status_codes := [] |}.
Definition RetryCondition_all : RetryCondition :=
  {| on_network_error := true; on_timeout := true; on_server_error := true; on_rate_limited := true;
     on_status_codes := [] |}.
Definition RetryCondition_none : RetryCondition :=
  {| on_network_error := false; on_timeout := false; on_server_error := false; on_rate_limited := false;
     on_status_codes := [] |}.

Definition should_retry_status (c : RetryCondition) (status : Z) : bool :=
  if on_server_error c && ((500 <=? status) && (status <? 600)) then true
  else if on_rate_limited c && (status =? 429) then true
  else existsb (Z.eqb status) (on_status_codes c).

Record RetryPolicy := {
  max_retries : Z;
  initial_delay : Z;
  max_delay : Z;
  backoff_multiplier : f64;
  jitter_factor : f32;
  retry_on : RetryCondition
}.

Definition RetryPolicy_default : RetryPolicy :=
  {| max_retries := 3; initial_delay := from_millis 100; max_delay := from_secs 10;
     backoff_multiplier := F64.of_Z 2; jitter_factor := F32.lit 1 10; retry_on := RetryCondition_default |}.
Definition no_retry : RetryPolicy :=
  {| max_retries := 0; initial_delay := from_millis 100; max_delay := from_secs 10;
     backoff_multiplier := F64.of_Z 2; jitter_factor := F32.lit 1 10; retry_on := RetryCondition_default |}.
Definition quick : RetryPolicy :=
  {| max_retries := 2; initial_delay := from_millis 50; max_delay := from_millis 200;
     backoff_multiplier := F64.of_Z 2; jitter_factor := F32.lit 1 10; retry_on := RetryCondition_default |}.
Definition patient : RetryPolicy :=
  {| max_retries := 5; initial_delay := from_millis 500; max_delay := from_secs 30;
     backoff_multiplier := F64.of_Z 2; jitter_factor := F32.lit 2 10; retry_on := RetryCondition_all |}.

Definition should_retry (p : RetryPolicy) (attempt : Z) : bool := attempt <? max_retries p.

(** ** Retryable errors: the trait and its two implementations *)

Class RetryableError (E : Type) := { is_retryable : E -> RetryCondition -> bool }.

Inductive RetryError :=
| RNetwork (msg : str) | RTimeout | RStatus (code : Z) (msg : str) | ROther (msg : str).

#[export] Instance RetryError_retryable : RetryableError RetryError :=
  {| is_retryable := fun e c => match e with
       | RNetwork _ => on_network_error c
       | RTimeout => on_timeout c
       | RStatus code _ => should_retry_status c code
       | ROther _ => false
       end |}.

Inductive UpstreamError :=
| Network (msg : str)
| Status (code : Z) (msg : str)
| Parse (msg : str)
| Timeout
| NotConfigured
| Unavailable (msg : str)
| UnsupportedQueryType (msg : str)
| EmbeddingRequired (msg : str)
| EmbeddingFailed (msg : str).

Definition indicates_text_not_supported (e : UpstreamError) : bool :=
  match e with
  | UnsupportedQueryType _ => true
  | Status code msg =>
      (code =? 400) && (contains_str msg (lit "vector") || contains_str msg (lit "embedding")
                        || contains_str msg (lit "dense") || contains_str msg (lit "query must be"))
  | _ => false
  end.

Definition upstream_is_retryable (e : UpstreamError) (c : RetryCondition) : bool :=
  match e with
  | Network _ => on_network_error c
  | Timeout => on_timeout c
  | Status code _ => should_retry_status c code
  | Parse _ => false
  | NotConfigured => false
  | Unavailable _ => on_server_error c
  | UnsupportedQueryType _ => false
  | EmbeddingRequired _ => false
  | EmbeddingFailed _ => on_server_error c
  end.
#[export] Instance UpstreamError_retryable : RetryableError UpstreamError :=
  {| is_retryable := upstream_is_retryable |}.

(** ** The executor *)

Record RetryResult (T E : Type) := {
  rr_result : result T E;
  attempts : Z;
  total_duration : Z
}.
Arguments rr_result {T E} _.
Arguments attempts {T E} _.
Arguments total_duration {T E} _.

Definition rr_is_success {T E} (r : RetryResult T E) : bool := is_ok (rr_result r).
Definition retried {T E} (r : RetryResult T E) : bool := 1 <? attempts r.

Section Executor.
Context `{FloatPow}.

(** RetryPolicy::delay_for_attempt *)
Definition delay_for_attempt (p : RetryPolicy) (attempt : Z) : outcome Z :=
  if attempt =? 0 then Ret 0
  else
    let exponent := as_i32 (attempt -! 1) in
    let base_delay := F64.mul (as_secs_f64 (initial_delay p)) (powi (backoff_multiplier p) exponent) in
    let delay_secs := f_min base_delay (as_secs_f64 (max_delay p)) in
    let jitter :=
      if f_gt (jitter_factor p) f_zero then
        let jitter_seed := f32_fract (F32.mul (F32.of_Z attempt) (F32.lit 618 1000)) in
        let jitter_range := F64.mul delay_secs (f64_of_f32 (jitter_factor p)) in
        F64.mul (f64_of_f32 jitter_seed) jitter_range
      else f_zero in
    dur_from_secs_f64 (F64.add delay_secs jitter).

Context {T E : Type} `{RetryableError E}.

(** The loop of [execute]: [None] when [fuel] iterations did not end it. *)
Fixpoint execute_loop (fuel : nat) (p : RetryPolicy) (operation : Z -> result T E * Z) (attempt spent : Z)
  : option (outcome (RetryResult T E)) :=
  match fuel with
  | O => None
  | S n =>
      match delay_for_attempt p attempt with
      | Panic => Some Panic
      | Ret delay =>
          let spent := if 0 <? delay then spent + delay else spent in
          let '(res, took) := operation attempt in
          let spent := spent + took in
          let done_ := {| rr_result := res; attempts := sat_add 32 attempt 1; total_duration := spent |} in
          match res with
          | Ok _ => Some (Ret done_)
          | Err e =>
              if should_retry p attempt && is_retryable e (retry_on p)
              then execute_loop n p operation (sat_add 32 attempt 1) spent
              else Some (Ret done_)
          end
      end
  end.

(** One iteration per allowed attempt. *)
Definition execute (p : RetryPolicy) (operation : Z -> result T E * Z) : option (outcome (RetryResult T E)) :=
  execute_loop (S (Z.to_nat (max_retries p))) p operation 0 0.

(** ** What a run of the executor is *)

(** The attempts before [k] all failed with errors worth retrying. *)
Definition failed_before (p : RetryPolicy) (operation : Z -> result T E * Z) (k : Z) : Prop :=
  forall i, 0 <= i < k -> exists e, fst (operation i) = Err e /\ is_retryable e (retry_on p) = true.

Definition good_result (p : RetryPolicy) (operation : Z -> result T E * Z) (r : RetryResult T E) : Prop :=
  1 <= attempts r <= max_retries p + 1 /\
  rr_result r = fst (operation (attempts r - 1)) /\
  failed_before p operation (attempts r - 1) /\
  (forall e, rr_result r = Err e -> attempts r = max_retries p + 1 \/ is_retryable e (retry_on p) = false).

Lemma execute_loop_spec fuel p operation attempt spent :
  0 <= attempt <= max_retries p -> max_retries p < u32_max ->
  (Z.to_nat (max_retries p - attempt) < fuel)%nat -> failed_before p operation attempt ->
  exists o, execute_loop fuel p operation attempt spent = Some o /\
    match o with Panic => True | Ret r => good_result p operation r end.
Proof.
  revert attempt spent. induction fuel as [|fuel IH]; intros attempt spent Ha Hm Hf Hb; [lia|]. simpl.
  destruct (delay_for_attempt p attempt) as [d|]; [|by exists Panic].
  assert (sat_add 32 attempt 1 = attempt + 1) as Hs by (unfold sat_add, u32_max in *; lia).
  destruct (operation attempt) as [res took] eqn:Hop.
  assert (Hgood : forall sp, (forall e, res = Err e -> attempt + 1 = max_retries p + 1 \/
                                is_retryable e (retry_on p) = false) ->
            good_result p operation {| rr_result := res; attempts := sat_add 32 attempt 1; total_duration := sp |}).
  { intros sp He. unfold good_result. simpl. rewrite Hs.
    replace (attempt + 1 - 1) with attempt by lia. rewrite Hop. split_and!; try done; lia. }
  destruct res as [v|e].
  - eexists. split; [done|]. by apply Hgood.
  - unfold should_retry. destruct (attempt <? max_retries p) eqn:Er; reflect_Z; simpl.
    + destruct (is_retryable e (retry_on p)) eqn:Ee.
      * rewrite Hs. apply IH; try lia. intros i Hi.
        destruct (decide (i = attempt)) as [->|]; [|apply Hb; lia]. exists e. by rewrite Hop.
      * eexists. split; [done|]. apply Hgood. intros e' [= <-]. by right.
    + eexists. split; [done|]. apply Hgood. intros e' _. left. lia.
Qed.

(** ** Claims *)


End Executor.

(** ** Witness: two timeouts, then an answer. *)

#[local] Existing Instance MulPow.
Definition demo_operation (attempt : Z) : result Z UpstreamError * Z :=
  if attempt <? 2 then (Err Timeout, 1000) else (Ok 7, 500).


Example demo_retry_result :
  match execute RetryPolicy_default demo_operation with
  | Some (Ret r) => rr_result r = Ok 7 /\ attempts r = 3 /\ 300000000 < total_duration r < 340000000
  | _ => False
  end.
Proof. vm_compute. done. Qed.
