(* ===== verification/ConnPool.v ===== *)
(** * Connection pool of an upstream (src/src/proxy/connection_pool.rs)

    A semaphore limits the requests an upstream serves at once; requests that find
    it exhausted wait in a queue, each on a oneshot channel, and are woken by the
    connection that is returned.  The semaphore and the channel are third-party
    code (tokio): the semaphore is its number of free permits, and a channel is
    named by the one [acquire] call that owns its receiver, so that its state is
    part of the phase of that call ([Signal]).

    [acquire] and the destructor of [PooledConnection] are cut where another task
    may run in between: after a failed [try_acquire], while waiting, and, in the
    destructor, between the body of [drop] (which wakes the next waiter) and the
    release of the permit (a field, dropped after the body).  Atomic counters that
    are updated next to each other are updated in one step. *)

From Stdlib Require Import SpecFloat.
From S2P Require Import Prelude Floats.
Open Scope Z_scope.
Open Scope conproxy_scope.

(** ** Configuration and statistics *)

Record ConnectionPoolConfig := {
  max_connections : Z;
  max_queue_size : Z;
  queue_timeout_ms : Z;
  idle_timeout_ms : Z;
  fair_queueing : bool
}.

Definition ConnectionPoolConfig_default : ConnectionPoolConfig :=
  {| max_connections := 100; max_queue_size := 500; queue_timeout_ms := 30000;
     idle_timeout_ms := 90000; fair_queueing := true |}.

Definition ConnectionPoolConfig_new (n : Z) : ConnectionPoolConfig :=
  {| max_connections := n; max_queue_size := max_queue_size ConnectionPoolConfig_default;
     queue_timeout_ms := queue_timeout_ms ConnectionPoolConfig_default;
     idle_timeout_ms := idle_timeout_ms ConnectionPoolConfig_default;
     fair_queueing := fair_queueing ConnectionPoolConfig_default |}.

Definition queue_timeout (c : ConnectionPoolConfig) : Z := from_millis (queue_timeout_ms c).

Record ConnectionPoolStats := {
  active : Z;
  queued : Z;
  total_requests : Z;
  immediate_permits : Z;
  queued_requests : Z;
  queue_timeouts : Z;
  queue_rejections : Z;
  wait_time_us : Z;
  max_wait_time_us : Z
}.

Definition stats_zero : ConnectionPoolStats :=
  {| active := 0; queued := 0; total_requests := 0; immediate_permits := 0; queued_requests := 0;
     queue_timeouts := 0; queue_rejections := 0; wait_time_us := 0; max_wait_time_us := 0 |}.

(** [fetch_add] and [fetch_sub] (a negative [n]) on one of the counters. *)
Inductive Counter := CActive | CQueued | CTotal | CImmediate | CQueuedReq | CTimeouts | CRejections.
#[export] Instance Counter_eq_dec : EqDecision Counter.
Proof. solve_decision. Defined.

Definition counted (c c' : Counter) (n v : Z) : Z := if decide (c = c') then wrap 64 (v + n) else v.

Definition bump (c : Counter) (n : Z) (t : ConnectionPoolStats) : ConnectionPoolStats :=
  {| active := counted c CActive n (active t); queued := counted c CQueued n (queued t);
     total_requests := counted c CTotal n (total_requests t);
     immediate_permits := counted c CImmediate n (immediate_permits t);
     queued_requests := counted c CQueuedReq n (queued_requests t);
     queue_timeouts := counted c CTimeouts n (queue_timeouts t);
     queue_rejections := counted c CRejections n (queue_rejections t);
     wait_time_us := wait_time_us t; max_wait_time_us := max_wait_time_us t |}.

Definition record_wait_time (duration : Z) (t : ConnectionPoolStats) : ConnectionPoolStats :=
  let us := as_micros_u64 duration in
  {| active := active t; queued := queued t; total_requests := total_requests t;
     immediate_permits := immediate_permits t; queued_requests := queued_requests t;
     queue_timeouts := queue_timeouts t; queue_rejections := queue_rejections t;
     wait_time_us := wrap 64 (wait_time_us t + us);
     max_wait_time_us := if max_wait_time_us t <? us then us else max_wait_time_us t |}.

Record ConnectionPoolSnapshot := {
  active_connections : Z;
  queue_depth : Z;
  snap_total_requests : Z;
  snap_immediate_permits : Z;
  snap_queued_requests : Z;
  snap_queue_timeouts : Z;
  snap_queue_rejections : Z;
  avg_wait_time_ms : f64;
  max_wait_time_ms : f64;
  utilization : f64
}.

Definition snapshot (t : ConnectionPoolStats) : ConnectionPoolSnapshot :=
  let k := F64.of_Z 1000 in
  {| active_connections := active t; queue_depth := queued t;
     snap_total_requests := total_requests t; snap_immediate_permits := immediate_permits t;
     snap_queued_requests := queued_requests t; snap_queue_timeouts := queue_timeouts t;
     snap_queue_rejections := queue_rejections t;
     avg_wait_time_ms :=
       F64.div (F64.of_Z (if queued_requests t =? 0 then 0 else wait_time_us t / queued_requests t)) k;
     max_wait_time_ms := F64.div (F64.of_Z (max_wait_time_us t)) k;
     utilization :=
       if 0 <? total_requests t then
         F64.sub (F64.of_Z 1) (F64.div (F64.of_Z (immediate_permits t)) (F64.of_Z (total_requests t)))
       else f_zero |}.

(** ** The pool *)

Abbreviation TaskId := Z (only parsing).

Record WaitingRequest := { ready_tx : TaskId; enqueued_at : Z }.

Record ConnectionPool := {
  permits : Z;
  waiting : list WaitingRequest;
  cp_config : ConnectionPoolConfig;
  cp_stats : ConnectionPoolStats
}.

Inductive PoolError := QueueFull | PTimeout | Shutdown.

(** [Semaphore::new] panics above [Semaphore::MAX_PERMITS]. *)
Definition MAX_PERMITS : Z := usize_max / 8.
Definition ConnectionPool_new (c : ConnectionPoolConfig) : outcome ConnectionPool :=
  if max_connections c <=? MAX_PERMITS
  then Ret {| permits := max_connections c; waiting := []; cp_config := c; cp_stats := stats_zero |}
  else Panic.

Definition with_permits (p : ConnectionPool) (n : Z) : ConnectionPool :=
  {| permits := n; waiting := waiting p; cp_config := cp_config p; cp_stats := cp_stats p |}.
Definition with_waiting (p : ConnectionPool) (q : list WaitingRequest) : ConnectionPool :=
  {| permits := permits p; waiting := q; cp_config := cp_config p; cp_stats := cp_stats p |}.
Definition with_stats (p : ConnectionPool) (f : ConnectionPoolStats -> ConnectionPoolStats)
  : ConnectionPool :=
  {| permits := permits p; waiting := waiting p; cp_config := cp_config p; cp_stats := f (cp_stats p) |}.

Definition has_capacity (p : ConnectionPool) : bool := 0 <? permits p.

(** [self.permits.try_acquire()] *)
Definition try_acquire (p : ConnectionPool) : option ConnectionPool :=
  if 0 <? permits p then Some (with_permits p (permits p - 1)) else None.

Definition cp_bump (c : Counter) (n : Z) (p : ConnectionPool) : ConnectionPool := with_stats p (bump c n).

(** [acquire] up to the first [try_acquire]: a connection, or the pool is
    exhausted. *)
Definition acquire_begin (p : ConnectionPool) : bool * ConnectionPool :=
  let p := cp_bump CTotal 1 p in
  match try_acquire p with
  | Some p => (true, cp_bump CActive 1 (cp_bump CImmediate 1 p))
  | None => (false, p)
  end.

(** The queue's capacity check and the push, under one lock. *)
Definition acquire_enqueue (t : TaskId) (now : Z) (p : ConnectionPool)
  : result unit PoolError * ConnectionPool :=
  if max_queue_size (cp_config p) <=? zlen (waiting p) then (Err QueueFull, cp_bump CRejections 1 p)
  else
    let p := with_waiting p (waiting p ++ [{| ready_tx := t; enqueued_at := now |}]) in
    (Ok tt, cp_bump CQueuedReq 1 (cp_bump CQueued 1 p)).

(** The three ways the wait ends. *)
Definition acquire_signalled (now enq : Z) (p : ConnectionPool) : result unit PoolError * ConnectionPool :=
  let p := with_stats p (record_wait_time (elapsed now enq)) in
  match try_acquire p with
  | Some p => (Ok tt, cp_bump CActive 1 p)
  | None => (Err PTimeout, cp_bump CTimeouts 1 p)
  end.

Definition acquire_closed (p : ConnectionPool) : result unit PoolError * ConnectionPool :=
  (Err Shutdown, cp_bump CQueued (-1) p).

Definition acquire_timed_out (p : ConnectionPool) : result unit PoolError * ConnectionPool :=
  (Err PTimeout, cp_bump CQueued (-1) (cp_bump CTimeouts 1 p)).

(** ** Tasks

    The state of the receiver of a waiting call, and the phase of each [acquire]
    call with the connection it returned. *)
Inductive Signal := NoSignal | Signalled | TxDropped.

Inductive Phase :=
| Exhausted
| Waiting (enq : Z) (s : Signal)
| Holding
| Dropping
| Released
| Refused
| TimedOut
| ShutDown
| Robbed
| Cancelled.

#[export] Instance Signal_eq_dec : EqDecision Signal.
Proof. solve_decision. Defined.
#[export] Instance Phase_eq_dec : EqDecision Phase.
Proof. solve_decision. Defined.

Abbreviation Tasks := (gmap TaskId Phase) (only parsing).

(** [ready_tx.send(())] succeeds when the receiver is still there. *)
Definition oneshot_send (t : TaskId) (ts : Tasks) : option Tasks :=
  match ts !! t with
  | Some (Waiting enq NoSignal) => Some (<[t := Waiting enq Signalled]> ts)
  | _ => None
  end.

(** A sender that is dropped without sending closes its channel. *)
Definition drop_tx (t : TaskId) (ts : Tasks) : Tasks :=
  match ts !! t with
  | Some (Waiting enq NoSignal) => <[t := Waiting enq TxDropped]> ts
  | _ => ts
  end.

(** The loop of [wake_next_waiter]: the queue that is left, the tasks, and the
    number of waiters popped. *)
Fixpoint wake_loop (timeout now : Z) (q : list WaitingRequest) (ts : Tasks) (popped : Z)
  : list WaitingRequest * Tasks * Z :=
  match q with
  | [] => ([], ts, popped)
  | w :: q =>
      if timeout <? elapsed now (enqueued_at w) then
        wake_loop timeout now q (drop_tx (ready_tx w) ts) (popped + 1)
      else
        match oneshot_send (ready_tx w) ts with
        | Some ts => (q, ts, popped + 1)
        | None => wake_loop timeout now q ts (popped + 1)
        end
  end.

Definition wake_next_waiter (now : Z) (p : ConnectionPool) (ts : Tasks) : ConnectionPool * Tasks :=
  let '(q, ts, popped) := wake_loop (queue_timeout (cp_config p)) now (waiting p) ts 0 in
  (cp_bump CQueued (- popped) (with_waiting p q), ts).

(** The body of [PooledConnection::drop], and the release of its permit. *)
Definition drop_body (now : Z) (p : ConnectionPool) (ts : Tasks) : ConnectionPool * Tasks :=
  wake_next_waiter now (cp_bump CActive (-1) p) ts.
Definition drop_permit (p : ConnectionPool) : ConnectionPool := with_permits p (permits p + 1).

Definition drain_queue (p : ConnectionPool) (ts : Tasks) : ConnectionPool * Tasks :=
  (cp_bump CQueued (- zlen (waiting p)) (with_waiting p []),
   foldl (fun ts w => drop_tx (ready_tx w) ts) ts (waiting p)).

(** ** Interleavings

    Any number of calls run against one pool; the clock only moves forward.  A
    waiting call may be cancelled (its future dropped), which drops the receiver
    and nothing else.  The timer of [tokio::time::timeout] does not fire early,
    and loses against a channel that is ready. *)
Record CpSystem := { cp_pool : ConnectionPool; cp_tasks : Tasks; cp_now : Z }.

Definition set_phase (s : CpSystem) (t : TaskId) (ph : Phase) (p : ConnectionPool) : CpSystem :=
  {| cp_pool := p; cp_tasks := <[t := ph]> (cp_tasks s); cp_now := cp_now s |}.

Inductive cp_step : CpSystem -> CpSystem -> Prop :=
| cp_tick s dt : 0 <= dt ->
    cp_step s {| cp_pool := cp_pool s; cp_tasks := cp_tasks s; cp_now := cp_now s + dt |}
| cp_begin s t : cp_tasks s !! t = None ->
    cp_step s (let '(got, p) := acquire_begin (cp_pool s) in
               set_phase s t (if got then Holding else Exhausted) p)
| cp_enqueue s t : cp_tasks s !! t = Some Exhausted ->
    cp_step s (match acquire_enqueue t (cp_now s) (cp_pool s) with
               | (Ok _, p) => set_phase s t (Waiting (cp_now s) NoSignal) p
               | (Err _, p) => set_phase s t Refused p
               end)
| cp_ready s t enq : cp_tasks s !! t = Some (Waiting enq Signalled) ->
    cp_step s (match acquire_signalled (cp_now s) enq (cp_pool s) with
               | (Ok _, p) => set_phase s t Holding p
               | (Err _, p) => set_phase s t Robbed p
               end)
| cp_closed s t enq : cp_tasks s !! t = Some (Waiting enq TxDropped) ->
    cp_step s (set_phase s t ShutDown (snd (acquire_closed (cp_pool s))))
| cp_timeout s t enq : cp_tasks s !! t = Some (Waiting enq NoSignal) ->
    queue_timeout (cp_config (cp_pool s)) <= cp_now s - enq ->
    cp_step s (set_phase s t TimedOut (snd (acquire_timed_out (cp_pool s))))
| cp_cancel s t enq sg : cp_tasks s !! t = Some (Waiting enq sg) ->
    cp_step s (set_phase s t Cancelled (cp_pool s))
| cp_drop s t : cp_tasks s !! t = Some Holding ->
    cp_step s (let '(p, ts) := drop_body (cp_now s) (cp_pool s) (<[t := Dropping]> (cp_tasks s)) in
               {| cp_pool := p; cp_tasks := ts; cp_now := cp_now s |})
| cp_release s t : cp_tasks s !! t = Some Dropping ->
    cp_step s (set_phase s t Released (drop_permit (cp_pool s)))
| cp_drain s :
    cp_step s (let '(p, ts) := drain_queue (cp_pool s) (cp_tasks s) in
               {| cp_pool := p; cp_tasks := ts; cp_now := cp_now s |}).

Inductive cp_reachable (c : ConnectionPoolConfig) : CpSystem -> Prop :=
| cpr_init p now : ConnectionPool_new c = Ret p ->
    cp_reachable c {| cp_pool := p; cp_tasks := ∅; cp_now := now |}
| cpr_step s s' : cp_reachable c s -> cp_step s s' -> cp_reachable c s'.

(** The number of calls in a phase that satisfies [f]. *)
Definition in_phase (f : Phase -> bool) (ts : Tasks) : Z := msum (fun ph => if f ph then 1 else 0) ts.

Definition holds_permit (ph : Phase) : bool :=
  match ph with Holding | Dropping => true | _ => false end.
Definition is_holding (ph : Phase) : bool := match ph with Holding => true | _ => false end.
Definition is_exhausted (ph : Phase) : bool := match ph with Exhausted => true | _ => false end.
(** A call that took itself off the [queued] counter. *)
Definition left_queue (ph : Phase) : bool := match ph with TimedOut | ShutDown => true | _ => false end.
Definition unsignalled (ph : Phase) : bool := match ph with Waiting _ NoSignal => true | _ => false end.

(** ** Counting phases *)

Lemma in_phase_new f ts t ph :
  ts !! t = None -> in_phase f (<[t := ph]> ts) = in_phase f ts + (if f ph then 1 else 0).
Proof. intros. unfold in_phase. rewrite msum_insert_new by done. lia. Qed.

Lemma in_phase_set f ts t ph0 ph :
  ts !! t = Some ph0 ->
  in_phase f (<[t := ph]> ts) = in_phase f ts - (if f ph0 then 1 else 0) + (if f ph then 1 else 0).
Proof. intros. unfold in_phase. by rewrite (msum_insert_old _ _ _ ph0). Qed.

Lemma in_phase_nonneg f ts : 0 <= in_phase f ts.
Proof. apply msum_nonneg. intros. destruct (f a); lia. Qed.

Lemma in_phase_pos f ts t ph : ts !! t = Some ph -> f ph = true -> 0 < in_phase f ts.
Proof.
  intros Ht Hf. unfold in_phase. rewrite (msum_delete _ _ t ph) by done. rewrite Hf.
  pose proof (in_phase_nonneg f (delete t ts)). unfold in_phase in *. lia.
Qed.

Lemma in_phase_le f g ts : (forall ph, f ph = true -> g ph = true) -> in_phase f ts <= in_phase g ts.
Proof.
  intros Hfg. unfold in_phase. induction ts as [|t ph ts Ht IH] using map_ind; [done|].
  rewrite !msum_insert_new by done. specialize (Hfg ph). destruct (f ph), (g ph); lia.
Qed.

(** A predicate that does not look at the channel of a waiting call. *)
Definition sig_blind (f : Phase -> bool) : Prop :=
  forall e s s', f (Waiting e s) = f (Waiting e s').

Lemma oneshot_blind f t ts ts' : sig_blind f -> oneshot_send t ts = Some ts' -> in_phase f ts' = in_phase f ts.
Proof.
  intros Hf. unfold oneshot_send. destruct (ts !! t) as [[| ? []| | | | | | | |]|] eqn:Ht; try done.
  intros [= <-]. rewrite (in_phase_set _ _ _ _ _ Ht), (Hf enq NoSignal Signalled). lia.
Qed.

Lemma drop_tx_blind f t ts : sig_blind f -> in_phase f (drop_tx t ts) = in_phase f ts.
Proof.
  intros Hf. unfold drop_tx. destruct (ts !! t) as [[| ? []| | | | | | | |]|] eqn:Ht; try done.
  rewrite (in_phase_set _ _ _ _ _ Ht), (Hf enq NoSignal TxDropped). lia.
Qed.

(** The waiters that have not heard anything keep their place in the queue. *)
Definition waiters_queued (q : list WaitingRequest) (ts : Tasks) : Prop :=
  forall t enq, ts !! t = Some (Waiting enq NoSignal) -> {| ready_tx := t; enqueued_at := enq |} ∈ q.

Lemma waiters_queued_set q ts t ph :
  unsignalled ph = false -> waiters_queued q ts -> waiters_queued q (<[t := ph]> ts).
Proof.
  intros Hph Hq t' enq [[_ ->]|[_ Ht]]%lookup_insert_Some; [done|by apply Hq].
Qed.

Lemma waiters_queued_tail w q ts :
  (forall enq, ts !! ready_tx w <> Some (Waiting enq NoSignal)) ->
  waiters_queued (w :: q) ts -> waiters_queued q ts.
Proof.
  intros Hw Hq t enq Ht. pose proof (Hq _ _ Ht) as [<-|?]%elem_of_cons; [|done].
  by destruct (Hw enq).
Qed.

Lemma drop_tx_not_unsignalled t ts enq : drop_tx t ts !! t <> Some (Waiting enq NoSignal).
Proof.
  unfold drop_tx. destruct (ts !! t) as [[| ? []| | | | | | | |]|] eqn:Ht; rewrite ?Ht; try congruence.
  rewrite lookup_insert_eq. congruence.
Qed.

Lemma waiters_queued_drop q ts t : waiters_queued q ts -> waiters_queued q (drop_tx t ts).
Proof.
  intros Hq. unfold drop_tx. destruct (ts !! t) as [[| ? []| | | | | | | |]|]; try done.
  by apply waiters_queued_set.
Qed.

Lemma wake_loop_spec timeout now q : forall ts n q' ts' n',
  wake_loop timeout now q ts n = (q', ts', n') ->
  n' = n + zlen q - zlen q' /\ zlen q' <= zlen q /\
  (forall f, sig_blind f -> in_phase f ts' = in_phase f ts) /\
  (waiters_queued q ts -> waiters_queued q' ts').
Proof.
  induction q as [|w q IH]; intros ts n q' ts' n'; simpl; rewrite ?zlen_cons.
  - intros [= <- <- <-]. split_and!; [lia|lia|done|done].
  - destruct (timeout <? _).
    + intros (-> & Hl & Hf & Hq)%IH. split_and!; [lia|lia| |].
      * intros f Hb. rewrite Hf by done. by apply drop_tx_blind.
      * intros Hw. apply Hq. eapply waiters_queued_tail; [apply drop_tx_not_unsignalled|].
        by apply waiters_queued_drop.
    + destruct (oneshot_send _ ts) as [ts1|] eqn:Hs.
      * intros [= <- <- <-]. split_and!; [lia|lia| |].
        -- intros f Hb. by eapply oneshot_blind.
        -- unfold oneshot_send in Hs. intros Hw.
           destruct (ts !! ready_tx w) as [[| ? []| | | | | | | |]|] eqn:Ht; try done.
           injection Hs as <-. apply (waiters_queued_tail w); [|by apply waiters_queued_set].
           intros e. rewrite lookup_insert_eq. congruence.
      * intros (-> & Hl & Hf & Hq)%IH. split_and!; [lia|lia|done|].
        intros Hw. apply Hq. apply (waiters_queued_tail w); [|done]. intros e He.
        unfold oneshot_send in Hs. by rewrite He in Hs.
Qed.

Lemma drain_spec q : forall ts,
  (forall f, sig_blind f -> in_phase f (foldl (fun ts w => drop_tx (ready_tx w) ts) ts q) = in_phase f ts) /\
  (waiters_queued q ts -> waiters_queued [] (foldl (fun ts w => drop_tx (ready_tx w) ts) ts q)).
Proof.
  induction q as [|w q IH]; intros ts; simpl; [done|].
  destruct (IH (drop_tx (ready_tx w) ts)) as [IHf IHq]. split.
  - intros f Hf. rewrite IHf by done. by apply drop_tx_blind.
  - intros Hq. apply IHq. eapply waiters_queued_tail; [apply drop_tx_not_unsignalled|].
    by apply waiters_queued_drop.
Qed.

(** ** The invariant *)

Record cp_ok (c : ConnectionPoolConfig) (s : CpSystem) : Prop := {
  ok_config : cp_config (cp_pool s) = c;
  ok_free : 0 <= permits (cp_pool s);
  ok_permits : permits (cp_pool s) + in_phase holds_permit (cp_tasks s) = max_connections c;
  ok_active : active (cp_stats (cp_pool s)) = wrap 64 (in_phase is_holding (cp_tasks s));
  ok_queue : zlen (waiting (cp_pool s)) <= Z.max 0 (max_queue_size c);
  ok_depth : queued (cp_stats (cp_pool s)) =
             wrap 64 (zlen (waiting (cp_pool s)) - in_phase left_queue (cp_tasks s));
  ok_total : total_requests (cp_stats (cp_pool s)) = wrap 64 (Z.of_nat (size (cp_tasks s)));
  ok_account :
    let t := cp_stats (cp_pool s) in
    total_requests t = wrap 64 (immediate_permits t + queued_requests t + queue_rejections t
                                + in_phase is_exhausted (cp_tasks s));
  ok_waiters : waiters_queued (waiting (cp_pool s)) (cp_tasks s)
}.

Lemma cp_ok_init c p now : 0 <= max_connections c -> ConnectionPool_new c = Ret p ->
  cp_ok c {| cp_pool := p; cp_tasks := ∅; cp_now := now |}.
Proof.
  unfold ConnectionPool_new. intros Hc. destruct (_ <=? _); intros [= <-]. split; simpl; try done; try lia.
  - unfold in_phase. rewrite msum_empty. lia.
  - rewrite zlen_nil. lia.
Qed.

(** ** Preservation *)

Ltac wrap_lia :=
  unfold wrap in *; change (2 ^ 64) with 18446744073709551616 in *;
  Z.to_euclidean_division_equations; lia.

(** The counters after a step: the phase of one call changed. *)
Ltac cp_counts Ht :=
  simpl in *; unfold counted in *; simpl in *;
  rewrite ?(in_phase_set _ _ _ _ _ Ht), ?(in_phase_new _ _ _ _ Ht),
    ?zlen_app, ?zlen_cons, ?zlen_nil; simpl;
  try lia; try wrap_lia; try done.

Lemma cp_ok_begin c s t : cp_ok c s -> cp_tasks s !! t = None ->
  cp_ok c (let '(got, p) := acquire_begin (cp_pool s) in
           set_phase s t (if got then Holding else Exhausted) p).
Proof.
  intros [Hc Hf Hp Ha Hq Hd Ht Hacc Hw] Hn. unfold acquire_begin, try_acquire. simpl.
  destruct (0 <? permits (cp_pool s)) eqn:E; reflect_Z; split; cp_counts Hn;
    try (by apply waiters_queued_set); rewrite map_size_insert_None by done; wrap_lia.
Qed.

Lemma cp_ok_enqueue c s t : cp_ok c s -> cp_tasks s !! t = Some Exhausted ->
  cp_ok c (match acquire_enqueue t (cp_now s) (cp_pool s) with
           | (Ok _, p) => set_phase s t (Waiting (cp_now s) NoSignal) p
           | (Err _, p) => set_phase s t Refused p
           end).
Proof.
  intros [Hc Hf Hp Ha Hq Hd Ht Hacc Hw] Hn. unfold acquire_enqueue. rewrite Hc.
  destruct (max_queue_size c <=? _) eqn:E; reflect_Z; split; cp_counts Hn;
    try (by apply waiters_queued_set); try (rewrite map_size_insert_Some by (by eexists); wrap_lia).
  intros t' enq [[<- [= <-]]|[_ Ht']]%lookup_insert_Some; apply elem_of_app; [right; set_solver|left; auto].
Qed.

Lemma cp_ok_ready c s t enq : cp_ok c s -> cp_tasks s !! t = Some (Waiting enq Signalled) ->
  cp_ok c (match acquire_signalled (cp_now s) enq (cp_pool s) with
           | (Ok _, p) => set_phase s t Holding p
           | (Err _, p) => set_phase s t Robbed p
           end).
Proof.
  intros [Hc Hf Hp Ha Hq Hd Ht Hacc Hw] Hn. unfold acquire_signalled, try_acquire. simpl.
  destruct (0 <? permits (cp_pool s)) eqn:E; reflect_Z; split; cp_counts Hn;
    try (by apply waiters_queued_set); rewrite map_size_insert_Some by (by eexists); wrap_lia.
Qed.

(** A waiting call that ends without a connection; [n] is what it takes off the
    [queued] counter. *)
Lemma cp_ok_leave c s t enq sg ph p :
  cp_ok c s -> cp_tasks s !! t = Some (Waiting enq sg) ->
  unsignalled ph = false -> holds_permit ph = false -> is_exhausted ph = false ->
  p = (if left_queue ph then cp_bump CQueued (-1) (cp_pool s) else cp_pool s) \/
  (left_queue ph = true /\ p = cp_bump CQueued (-1) (cp_bump CTimeouts 1 (cp_pool s))) ->
  cp_ok c (set_phase s t ph p).
Proof.
  intros [Hc Hf Hp Ha Hq Hd Ht Hacc Hw] Hn H1 H2 H3 Hcases.
  assert (is_holding ph = false) as H4 by (by destruct ph).
  destruct Hcases as [->|[H5 ->]]; [destruct (left_queue ph) eqn:H5|];
    split; cp_counts Hn; rewrite ?H2, ?H3, ?H4, ?H5 in *; try lia; try wrap_lia;
    try (by apply waiters_queued_set); rewrite map_size_insert_Some by (by eexists); wrap_lia.
Qed.

Lemma cp_ok_release c s t : cp_ok c s -> cp_tasks s !! t = Some Dropping ->
  cp_ok c (set_phase s t Released (drop_permit (cp_pool s))).
Proof.
  intros [Hc Hf Hp Ha Hq Hd Ht Hacc Hw] Hn. split; cp_counts Hn;
    try (by apply waiters_queued_set); rewrite map_size_insert_Some by (by eexists); wrap_lia.
Qed.

Lemma size_in_phase (ts : Tasks) : Z.of_nat (size ts) = in_phase (fun _ => true) ts.
Proof. unfold in_phase. by rewrite msum_size. Qed.

(** The phases the counters look at do not depend on the channels. *)
Lemma blind_holds : sig_blind holds_permit. Proof. done. Qed.
Lemma blind_holding : sig_blind is_holding. Proof. done. Qed.
Lemma blind_exhausted : sig_blind is_exhausted. Proof. done. Qed.
Lemma blind_left : sig_blind left_queue. Proof. done. Qed.
Lemma blind_true : sig_blind (fun _ => true). Proof. done. Qed.

Lemma cp_ok_drop c s t : cp_ok c s -> cp_tasks s !! t = Some Holding ->
  cp_ok c (let '(p, ts) := drop_body (cp_now s) (cp_pool s) (<[t := Dropping]> (cp_tasks s)) in
           {| cp_pool := p; cp_tasks := ts; cp_now := cp_now s |}).
Proof.
  intros [Hc Hf Hp Ha Hq Hd Ht Hacc Hw] Hn. unfold drop_body, wake_next_waiter. simpl.
  destruct (wake_loop _ _ _ _ _) as [[q ts] n] eqn:E.
  apply wake_loop_spec in E as (-> & Hl & Hblind & Hwq).
  rewrite size_in_phase in Ht.
  split; simpl; rewrite ?size_in_phase;
    rewrite ?(Hblind _ blind_holds), ?(Hblind _ blind_holding), ?(Hblind _ blind_exhausted),
      ?(Hblind _ blind_left), ?(Hblind _ blind_true); cp_counts Hn.
  apply Hwq. by apply waiters_queued_set.
Qed.

Lemma cp_ok_drain c s : cp_ok c s ->
  cp_ok c (let '(p, ts) := drain_queue (cp_pool s) (cp_tasks s) in
           {| cp_pool := p; cp_tasks := ts; cp_now := cp_now s |}).
Proof.
  intros [Hc Hf Hp Ha Hq Hd Ht Hacc Hw]. unfold drain_queue. simpl.
  destruct (drain_spec (waiting (cp_pool s)) (cp_tasks s)) as [Hblind Hwq].
  rewrite size_in_phase in Ht.
  split; simpl; rewrite ?size_in_phase;
    rewrite ?(Hblind _ blind_holds), ?(Hblind _ blind_holding), ?(Hblind _ blind_exhausted),
      ?(Hblind _ blind_left), ?(Hblind _ blind_true); unfold counted; simpl; try done.
  - rewrite zlen_nil. lia.
  - rewrite Hd, zlen_nil. wrap_lia.
  - by apply Hwq.
Qed.

Lemma cp_reachable_ok c s : 0 <= max_connections c -> cp_reachable c s -> cp_ok c s.
Proof.
  intros Hc. induction 1 as [p now Hp|s s' _ IH Hstep]; [by apply cp_ok_init|].
  destruct Hstep.
  - by destruct IH.
  - by apply cp_ok_begin.
  - by apply cp_ok_enqueue.
  - by apply cp_ok_ready.
  - eapply cp_ok_leave; try done. by left.
  - eapply cp_ok_leave; try done. by right.
  - eapply cp_ok_leave; try done. by left.
  - by apply cp_ok_drop.
  - by apply cp_ok_release.
  - by apply cp_ok_drain.
Qed.

(** ** One queue entry per call *)

Definition entered (ts : Tasks) (t : TaskId) : Prop :=
  exists ph, ts !! t = Some ph /\ is_exhausted ph = false.

Definition queue_distinct (p : ConnectionPool) (ts : Tasks) : Prop :=
  NoDup (map ready_tx (waiting p)) /\ forall t, t ∈ map ready_tx (waiting p) -> entered ts t.

Lemma entered_set ts t t' ph : is_exhausted ph = false -> entered ts t -> entered (<[t' := ph]> ts) t.
Proof.
  intros Hph [ph0 [H1 H2]]. destruct (decide (t' = t)) as [->|Hne].
  - exists ph. by rewrite lookup_insert_eq.
  - exists ph0. by rewrite lookup_insert_ne.
Qed.

Lemma entered_drop_tx ts t t' : entered ts t -> entered (drop_tx t' ts) t.
Proof.
  intros He. unfold drop_tx. destruct (ts !! t') as [[| ? []| | | | | | | |]|]; try done.
  by apply entered_set.
Qed.

Lemma entered_send ts t t' ts' : oneshot_send t' ts = Some ts' -> entered ts t -> entered ts' t.
Proof.
  intros Hs He. unfold oneshot_send in Hs. destruct (ts !! t') as [[| ? []| | | | | | | |]|]; try done.
  injection Hs as <-. by apply entered_set.
Qed.

Lemma wake_loop_entered timeout now q : forall ts n q' ts' n',
  wake_loop timeout now q ts n = (q', ts', n') ->
  (exists q0, q = q0 ++ q') /\ (forall t, entered ts t -> entered ts' t).
Proof.
  induction q as [|w q IH]; intros ts n q' ts' n'; simpl.
  - intros [= <- <- <-]. split; [by exists []|done].
  - destruct (timeout <? _); [|destruct (oneshot_send _ ts) as [ts1|] eqn:Hs].
    + intros [[q0 ->] He]%IH. split; [by exists (w :: q0)|]. intros. by apply He, entered_drop_tx.
    + intros [= <- <- <-]. split; [by exists [w]|]. intros. by eapply entered_send.
    + intros [[q0 ->] He]%IH. split; [by exists (w :: q0)|done].
Qed.

Lemma queue_distinct_set s t ph p :
  is_exhausted ph = false -> waiting p = waiting (cp_pool s) ->
  queue_distinct (cp_pool s) (cp_tasks s) -> queue_distinct p (cp_tasks (set_phase s t ph p)).
Proof.
  intros Hph Hw [Hnd He]. unfold queue_distinct. rewrite Hw. split; [done|]. simpl.
  intros t' Ht'. apply entered_set; auto.
Qed.

Lemma queue_distinct_begin s t p ph :
  cp_tasks s !! t = None -> waiting p = waiting (cp_pool s) ->
  queue_distinct (cp_pool s) (cp_tasks s) -> queue_distinct p (cp_tasks (set_phase s t ph p)).
Proof.
  intros Hn Hw [Hnd He]. unfold queue_distinct. rewrite Hw. split; [done|]. simpl.
  intros t' Ht'. destruct (He t' Ht') as [ph' [H1 H2]]. exists ph'. split; [|done].
  rewrite lookup_insert_ne; [done|congruence].
Qed.

Lemma cp_reachable_distinct c s : cp_reachable c s -> queue_distinct (cp_pool s) (cp_tasks s).
Proof.
  induction 1 as [p now Hp|s s' _ IH Hstep].
  - unfold ConnectionPool_new in Hp. destruct (_ <=? _); [|done]. injection Hp as <-.
    split; simpl; [constructor|set_solver].
  - destruct Hstep; try done; try by apply queue_distinct_set.
    + unfold acquire_begin, try_acquire. simpl.
      destruct (0 <? _); by apply queue_distinct_begin.
    + unfold acquire_enqueue. destruct (_ <=? _); [by apply queue_distinct_set|].
      destruct IH as [Hnd He]. split; simpl; rewrite map_app; simpl.
      * apply NoDup_app. split_and!; [done| |apply NoDup_singleton].
        intros t' Ht' Heq%list_elem_of_singleton. subst t'. destruct (He _ Ht') as [ph [H1 H2]].
        rewrite H in H1. injection H1 as <-. done.
      * intros t' [Ht'|Heq%list_elem_of_singleton]%elem_of_app; [|subst t'].
        -- apply entered_set; auto.
        -- exists (Waiting (cp_now s) NoSignal). by rewrite lookup_insert_eq.
    + unfold acquire_signalled, try_acquire. simpl. destruct (0 <? _); by apply queue_distinct_set.
    + unfold drop_body, wake_next_waiter. simpl.
      destruct (wake_loop _ _ _ _ _) as [[q ts] n] eqn:E.
      apply wake_loop_entered in E as [[q0 Hq] He0]. destruct IH as [Hnd He].
      rewrite Hq, map_app in Hnd, He. apply NoDup_app in Hnd as (_ & _ & Hnd).
      split; simpl; [done|]. intros t' Ht'. apply He0, entered_set; [done|]. apply He. set_solver.
    + split; simpl; [constructor|set_solver].
Qed.

(** ** Runs

    An executable reading of [cp_step]: the action of one event, when it is
    enabled. *)
Inductive Event :=
| ETick (dt : Z) | EBegin (t : TaskId) | EEnqueue (t : TaskId) | EReady (t : TaskId)
| EClosed (t : TaskId) | ETimeout (t : TaskId) | EDrop (t : TaskId) | ERelease (t : TaskId) | EDrain.

Definition cp_exec (e : Event) (s : CpSystem) : option CpSystem :=
  match e with
  | ETick dt => if 0 <=? dt then Some {| cp_pool := cp_pool s; cp_tasks := cp_tasks s; cp_now := cp_now s + dt |}
                else None
  | EBegin t =>
      match cp_tasks s !! t with
      | None => Some (let '(got, p) := acquire_begin (cp_pool s) in
                      set_phase s t (if got then Holding else Exhausted) p)
      | _ => None
      end
  | EEnqueue t =>
      match cp_tasks s !! t with
      | Some Exhausted => Some (match acquire_enqueue t (cp_now s) (cp_pool s) with
                                | (Ok _, p) => set_phase s t (Waiting (cp_now s) NoSignal) p
                                | (Err _, p) => set_phase s t Refused p
                                end)
      | _ => None
      end
  | EReady t =>
      match cp_tasks s !! t with
      | Some (Waiting enq Signalled) =>
          Some (match acquire_signalled (cp_now s) enq (cp_pool s) with
                | (Ok _, p) => set_phase s t Holding p
                | (Err _, p) => set_phase s t Robbed p
                end)
      | _ => None
      end
  | EClosed t =>
      match cp_tasks s !! t with
      | Some (Waiting enq TxDropped) => Some (set_phase s t ShutDown (snd (acquire_closed (cp_pool s))))
      | _ => None
      end
  | ETimeout t =>
      match cp_tasks s !! t with
      | Some (Waiting enq NoSignal) =>
          if queue_timeout (cp_config (cp_pool s)) <=? cp_now s - enq
          then Some (set_phase s t TimedOut (snd (acquire_timed_out (cp_pool s)))) else None
      | _ => None
      end
  | EDrop t =>
      match cp_tasks s !! t with
      | Some Holding => Some (let '(p, ts) := drop_body (cp_now s) (cp_pool s) (<[t := Dropping]> (cp_tasks s)) in
                              {| cp_pool := p; cp_tasks := ts; cp_now := cp_now s |})
      | _ => None
      end
  | ERelease t =>
      match cp_tasks s !! t with
      | Some Dropping => Some (set_phase s t Released (drop_permit (cp_pool s)))
      | _ => None
      end
  | EDrain => Some (let '(p, ts) := drain_queue (cp_pool s) (cp_tasks s) in
                    {| cp_pool := p; cp_tasks := ts; cp_now := cp_now s |})
  end.

Lemma cp_exec_step e s s' : cp_exec e s = Some s' -> cp_step s s'.
Proof.
  destruct e as [dt|t|t|t|t|t|t|t|]; unfold cp_exec;
    try (destruct (cp_tasks s !! t) as [[| ? []| | | | | | | |]|] eqn:Ht; try done).
  - destruct (0 <=? dt) eqn:E; [|done]. intros [= <-]. reflect_Z. by apply cp_tick.
  - intros [= <-]. by apply cp_begin.
  - intros [= <-]. by apply cp_enqueue.
  - intros [= <-]. by apply cp_ready.
  - intros [= <-]. by eapply cp_closed.
  - destruct (_ <=? _) eqn:E; [|done]. intros [= <-]. reflect_Z. by eapply cp_timeout.
  - intros [= <-]. by apply cp_drop.
  - intros [= <-]. by apply cp_release.
  - intros [= <-]. apply cp_drain.
Qed.

Fixpoint cp_run (es : list Event) (s : CpSystem) : option CpSystem :=
  match es with
  | [] => Some s
  | e :: es => match cp_exec e s with Some s => cp_run es s | None => None end
  end.

Lemma cp_run_reachable c es : forall s s', cp_reachable c s -> cp_run es s = Some s' -> cp_reachable c s'.
Proof.
  induction es as [|e es IH]; intros s s' Hs; simpl; [by intros [= <-]|].
  destruct (cp_exec e s) as [s1|] eqn:E; [|done]. apply IH.
  eapply cpr_step; [done|by eapply cp_exec_step].
Qed.

(** The pool at the start, for a configuration that [new] accepts. *)
Definition cp_start (c : ConnectionPoolConfig) : CpSystem :=
  {| cp_pool := {| permits := max_connections c; waiting := []; cp_config := c; cp_stats := stats_zero |};
     cp_tasks := ∅; cp_now := 0 |}.

Lemma cp_start_reachable c : (max_connections c <=? MAX_PERMITS) = true -> cp_reachable c (cp_start c).
Proof. intros Hc. apply cpr_init. unfold ConnectionPool_new. by rewrite Hc. Qed.

(** ** Waking in order *)

(** A queue entry that can be woken: young enough, and its receiver still waits. *)
Definition wakeable (timeout now : Z) (ts : Tasks) (w : WaitingRequest) : bool :=
  negb (timeout <? elapsed now (enqueued_at w)) &&
  match ts !! ready_tx w with Some ph => unsignalled ph | None => false end.

Lemma wakeable_other timeout now ts ts' w :
  ts' !! ready_tx w = ts !! ready_tx w -> wakeable timeout now ts' w = wakeable timeout now ts w.
Proof. unfold wakeable. by intros ->. Qed.

Lemma drop_tx_other t t' ts : t <> t' -> drop_tx t ts !! t' = ts !! t'.
Proof.
  intros Hne. unfold drop_tx. destruct (ts !! t) as [[| ? []| | | | | | | |]|]; try done.
  by rewrite lookup_insert_ne.
Qed.

Lemma wake_loop_head timeout now w q ts n :
  wakeable timeout now ts w = true ->
  exists enq, ts !! ready_tx w = Some (Waiting enq NoSignal) /\
    wake_loop timeout now (w :: q) ts n = (q, <[ready_tx w := Waiting enq Signalled]> ts, n + 1).
Proof.
  unfold wakeable. intros [H1 H2]%andb_true_iff. apply negb_true_iff in H1. simpl. rewrite H1.
  unfold oneshot_send. destruct (ts !! ready_tx w) as [[| ? []| | | | | | | |]|]; try done. by exists enq.
Qed.

Lemma wake_loop_skip timeout now w q ts n :
  wakeable timeout now ts w = false ->
  exists ts1, wake_loop timeout now (w :: q) ts n = wake_loop timeout now q ts1 (n + 1) /\
    (forall t, t <> ready_tx w -> ts1 !! t = ts !! t) /\
    (forall t e, ts1 !! t = Some (Waiting e Signalled) -> ts !! t = Some (Waiting e Signalled)).
Proof.
  unfold wakeable. simpl. destruct (timeout <? _); simpl.
  - intros _. exists (drop_tx (ready_tx w) ts). split_and!; [done| |].
    + intros t Ht. by apply drop_tx_other.
    + intros t e. unfold drop_tx. destruct (ts !! ready_tx w) as [[| ? []| | | | | | | |]|]; try done.
      by intros [[_ ?]|[_ ?]]%lookup_insert_Some.
  - unfold oneshot_send. intros Hw. exists ts.
    destruct (ts !! ready_tx w) as [[| ? []| | | | | | | |]|]; done.
Qed.

Lemma wake_loop_first timeout now w post : forall pre ts n,
  NoDup (map ready_tx (pre ++ w :: post)) ->
  Forall (fun v => wakeable timeout now ts v = false) pre ->
  wakeable timeout now ts w = true ->
  exists enq ts' n', ts !! ready_tx w = Some (Waiting enq NoSignal) /\
    wake_loop timeout now (pre ++ w :: post) ts n = (post, ts', n') /\
    ts' !! ready_tx w = Some (Waiting enq Signalled) /\
    forall t e, t <> ready_tx w -> ts' !! t = Some (Waiting e Signalled) -> ts !! t = Some (Waiting e Signalled).
Proof.
  induction pre as [|v pre IH]; intros ts n Hnd Hpre Hw; simpl app.
  - destruct (wake_loop_head _ _ _ post _ n Hw) as (enq & H1 & H2).
    exists enq, (<[ready_tx w := Waiting enq Signalled]> ts), (n + 1). split_and!; [done|done| |].
    + by rewrite lookup_insert_eq.
    + intros t e Hne. by rewrite lookup_insert_ne.
  - apply Forall_cons in Hpre as [Hv Hpre]. simpl in Hnd. apply NoDup_cons in Hnd as [Hnv Hnd].
    destruct (wake_loop_skip _ _ _ (pre ++ w :: post) _ n Hv) as (ts1 & -> & Hother & Hsig).
    assert (Hne : forall u, u ∈ pre ++ w :: post -> ready_tx u <> ready_tx v).
    { intros u Hu Heq. apply Hnv. rewrite <- Heq. apply list_elem_of_fmap. by exists u. }
    destruct (IH ts1 (n + 1)) as (enq & ts' & n' & H1 & H2 & H3 & H4); [done| | |].
    + apply Forall_forall. intros u Hu. rewrite (wakeable_other _ _ ts) by (apply Hother, Hne; set_solver).
      rewrite Forall_forall in Hpre. by apply Hpre.
    + rewrite (wakeable_other _ _ ts); [done|]. apply Hother, Hne. set_solver.
    + exists enq, ts', n'. split_and!; [|done|done|].
      * rewrite <- Hother; [done|]. apply Hne. set_solver.
      * intros t e Ht Hts'. by apply Hsig, H4.
Qed.

(** ** Properties of the pool *)

(** In every interleaving of [acquire], returns, time-outs, cancellations and
    drains, at most [max_connections] calls hold a connection at once and the
    [active] counter is the number of connections that are not being returned; the
    queue holds at most [max_queue_size] waiters; every call that waits without
    having been told anything is in the queue; and every request is counted once as
    immediate, queued, rejected or about to queue. *)
Theorem pool_limit c s :
  0 <= max_connections c -> cp_reachable c s ->
  let p := cp_pool s in let st := cp_stats p in
  in_phase holds_permit (cp_tasks s) <= max_connections c /\
  active st = in_phase is_holding (cp_tasks s) /\
  zlen (waiting p) <= Z.max 0 (max_queue_size c) /\
  waiters_queued (waiting p) (cp_tasks s) /\
  wrap 64 (immediate_permits st + queued_requests st + queue_rejections st
           + in_phase is_exhausted (cp_tasks s)) = wrap 64 (Z.of_nat (size (cp_tasks s))).
Proof.
  intros Hc Hr. assert (max_connections c <= MAX_PERMITS) as Hmax.
  { clear Hc. induction Hr as [p now Hp|]; [|done]. unfold ConnectionPool_new in Hp.
    destruct (_ <=? _) eqn:E; [by reflect_Z|done]. }
  apply cp_reachable_ok in Hr as [H1 H2 H3 H4 H5 H6 H7 H8 H9]; [|done]. simpl. split_and!; try done.
  - lia.
  - rewrite H4. apply wrap_small. unfold in_u. split; [apply in_phase_nonneg|].
    pose proof (in_phase_le is_holding holds_permit (cp_tasks s) ltac:(by intros [])).
    assert (MAX_PERMITS = 2305843009213693951) by reflexivity.
    change (u_max 64) with 18446744073709551615. lia.
  - by rewrite <- H7, <- H8.
Qed.

(** A connection that is returned wakes the first waiter of the queue that is
    neither older than the queue time-out nor gone, drops the entries before it,
    keeps the queue behind it, and wakes no other waiter. *)
Theorem wake_first_live c s t pre w post :
  cp_reachable c s -> cp_tasks s !! t = Some Holding -> waiting (cp_pool s) = pre ++ w :: post ->
  let live := wakeable (queue_timeout (cp_config (cp_pool s))) (cp_now s) (cp_tasks s) in
  Forall (fun v => live v = false) pre -> live w = true ->
  let '(p', ts') := drop_body (cp_now s) (cp_pool s) (<[t := Dropping]> (cp_tasks s)) in
  waiting p' = post /\
  (exists enq, cp_tasks s !! ready_tx w = Some (Waiting enq NoSignal) /\
               ts' !! ready_tx w = Some (Waiting enq Signalled)) /\
  forall t' e, t' <> ready_tx w -> ts' !! t' = Some (Waiting e Signalled) ->
    cp_tasks s !! t' = Some (Waiting e Signalled).
Proof.
  intros Hr Ht Hq live Hpre Hw. destruct (cp_reachable_distinct _ _ Hr) as [Hnd _].
  rewrite Hq in Hnd.
  assert (Hlive : forall v, wakeable (queue_timeout (cp_config (cp_pool s))) (cp_now s)
                     (<[t := Dropping]> (cp_tasks s)) v = live v).
  { intros v. unfold live, wakeable. destruct (decide (t = ready_tx v)) as [->|Hne].
    - by rewrite lookup_insert_eq, Ht.
    - by rewrite lookup_insert_ne. }
  unfold drop_body, wake_next_waiter. simpl. rewrite Hq.
  destruct (wake_loop_first (queue_timeout (cp_config (cp_pool s))) (cp_now s) w post pre
              (<[t := Dropping]> (cp_tasks s)) 0) as (enq & ts' & n' & H1 & H2 & H3 & H4);
    [done| |by rewrite Hlive|].
  - eapply Forall_impl; [exact Hpre|]. simpl. intros v. by rewrite Hlive.
  - rewrite H2. simpl. apply lookup_insert_Some in H1 as [[_ ?]|[Hne H1]]; [done|].
    split_and!; [done|by exists enq|]. intros t' e Ht' Hs.
    apply H4 in Hs as [[_ ?]|[_ ?]]%lookup_insert_Some; done.
Qed.

(** The [queued] counter is the length of the queue less one for every call
    that left it by a time-out or a shutdown: the call takes itself off the counter
    and its queue entry is taken off again when it is popped.  So the counter can
    fall below zero: with one connection and one waiter that times out, it reads
    [2^64 - 1] on an empty queue. *)
Theorem queue_depth_drifts :
  (forall c s, 0 <= max_connections c -> cp_reachable c s ->
     queued (cp_stats (cp_pool s)) =
     wrap 64 (zlen (waiting (cp_pool s)) - in_phase left_queue (cp_tasks s))) /\
  exists s, cp_reachable (ConnectionPoolConfig_new 1) s /\
    waiting (cp_pool s) = [] /\ queued (cp_stats (cp_pool s)) = 2 ^ 64 - 1.
Proof.
  split.
  - intros c s Hc Hr. by apply cp_reachable_ok in Hr as [].
  - eexists. split_and!.
    + eapply cp_run_reachable; [by apply cp_start_reachable|].
      instantiate (2 := [EBegin 1; EBegin 2; EEnqueue 2; ETick (from_millis 30000); ETimeout 2; EDrop 1]).
      reflexivity.
    + reflexivity.
    + reflexivity.
Qed.

(** Two races of the pool.  The body of [drop] wakes a waiter before the
    permit is back, and the waiter that runs first gets [Timeout] although the
    permit is released next.  And a call that found no permit queues after the last
    connection was returned: it waits with a free permit, no connection that could
    wake it and nothing in flight. *)
Theorem pool_races :
  (exists s s', cp_reachable (ConnectionPoolConfig_new 1) s /\
     cp_tasks s !! 1 = Some Dropping /\ (exists e, cp_tasks s !! 2 = Some (Waiting e Signalled)) /\
     cp_exec (EReady 2) s = Some s' /\ cp_tasks s' !! 2 = Some Robbed /\
     (s'' ← cp_exec (ERelease 1) s'; Some (permits (cp_pool s''))) = Some 1) /\
  (exists s, cp_reachable (ConnectionPoolConfig_new 1) s /\
     permits (cp_pool s) = 1 /\ in_phase holds_permit (cp_tasks s) = 0 /\
     cp_tasks s !! 2 = Some (Waiting 0 NoSignal)).
Proof.
  split.
  - eexists _, _. split_and!.
    + eapply cp_run_reachable; [by apply cp_start_reachable|].
      instantiate (2 := [EBegin 1; EBegin 2; EEnqueue 2; EDrop 1]). reflexivity.
    + reflexivity.
    + eexists. reflexivity.
    + reflexivity.
    + reflexivity.
    + reflexivity.
  - eexists. split_and!.
    + eapply cp_run_reachable; [by apply cp_start_reachable|].
      instantiate (2 := [EBegin 1; EBegin 2; EDrop 1; ERelease 1; EEnqueue 2]). reflexivity.
    + reflexivity.
    + reflexivity.
    + reflexivity.
Qed.

(** ** A concrete run

    One connection; the first waiter has timed out and left its entry behind. *)
Definition demo_trace : list Event :=
  [EBegin 1; EBegin 2; EEnqueue 2; ETick (from_millis 30000); ETimeout 2; EBegin 3; EEnqueue 3].
Definition demo_pool : CpSystem :=
  default (cp_start (ConnectionPoolConfig_new 1)) (cp_run demo_trace (cp_start (ConnectionPoolConfig_new 1))).

Lemma demo_pool_reachable : cp_reachable (ConnectionPoolConfig_new 1) demo_pool.
Proof.
  eapply (cp_run_reachable _ demo_trace); [by apply cp_start_reachable|reflexivity].
Qed.

Lemma pool_limit_witness :
  in_phase holds_permit (cp_tasks demo_pool) <= 1 /\ active (cp_stats (cp_pool demo_pool)) = 1.
Proof.
  destruct (pool_limit (ConnectionPoolConfig_new 1) demo_pool) as (H1 & H2 & _);
    [simpl; lia | apply demo_pool_reachable |].
  split; [exact H1 | rewrite H2; reflexivity].
Defined.

Lemma wake_first_live_witness :
  waiting (fst (drop_body (cp_now demo_pool) (cp_pool demo_pool) (<[1 := Dropping]> (cp_tasks demo_pool)))) = [].
Proof.
  pose proof (wake_first_live (ConnectionPoolConfig_new 1) demo_pool 1
    [{| ready_tx := 2; enqueued_at := 0 |}] {| ready_tx := 3; enqueued_at := 30000000000 |} []
    demo_pool_reachable eq_refl eq_refl) as H.
  simpl in H. destruct (drop_body _ _ _) as [p' ts'].
  destruct H as (H & _ & _); [repeat constructor | reflexivity | exact H].
Defined.
