(* ===== verification/Upstream.v ===== *)
(** * Upstreams (src/src/proxy/upstream.rs, the types of src/src/proxy/context.rs)

    Query modes and backend types, the health tracker that decides whether an
    upstream is online, degraded or offline, and the generic REST adapter.  The
    HTTP exchange and the JSON decoders are third-party code: the adapter is a
    function of the reply ([HttpReply]) and of three decoders ([Decoders]). *)

From Stdlib Require Import SpecFloat.
From S2P Require Import Prelude Floats Text Types Retry.
Open Scope Z_scope.
Open Scope conproxy_scope.

(** ** Query modes *)

Inductive QueryMode := TextNative | VectorOnly | UnknownMode.
#[export] Instance QueryMode_eq_dec : EqDecision QueryMode.
Proof. solve_decision. Defined.

Definition supports_text (m : QueryMode) : bool :=
  match m with TextNative | UnknownMode => true | VectorOnly => false end.
Definition requires_embedding (m : QueryMode) : bool :=
  match m with VectorOnly => true | _ => false end.
Definition mode_from_u8 (v : Z) : QueryMode :=
  if v =? 1 then TextNative else if v =? 2 then VectorOnly else UnknownMode.
Definition mode_as_u8 (m : QueryMode) : Z :=
  match m with TextNative => 1 | VectorOnly => 2 | UnknownMode => 0 end.

(** ** Backend types *)

Inductive UpstreamType := FullTextSearch | VectorDatabase | Hybrid | UnknownType.
#[export] Instance UpstreamType_eq_dec : EqDecision UpstreamType.
Proof. solve_decision. Defined.

Definition is_fts (t : UpstreamType) : bool := match t with FullTextSearch | Hybrid => true | _ => false end.
Definition is_vector_db (t : UpstreamType) : bool := match t with VectorDatabase | Hybrid => true | _ => false end.
Definition type_is_known (t : UpstreamType) : bool := match t with UnknownType => false | _ => true end.
Definition score_range (t : UpstreamType) : f32 * f32 :=
  match t with
  | FullTextSearch => (f_zero, F32.of_Z 100)
  | VectorDatabase => (f_zero, F32.of_Z 1)
  | Hybrid => (f_zero, F32.of_Z 1)
  | UnknownType => (f_zero, F32.of_Z 1)
  end.
Definition type_from_u8 (v : Z) : UpstreamType :=
  if v =? 0 then FullTextSearch else if v =? 1 then VectorDatabase else if v =? 2 then Hybrid else UnknownType.
Definition type_to_u8 (t : UpstreamType) : Z :=
  match t with FullTextSearch => 0 | VectorDatabase => 1 | Hybrid => 2 | UnknownType => 3 end.
Definition type_as_str (t : UpstreamType) : str :=
  match t with
  | FullTextSearch => lit "fts"
  | VectorDatabase => lit "vector_db"
  | Hybrid => lit "hybrid"
  | UnknownType => lit "unknown"
  end.

(** ** Health *)

Inductive UpstreamStatus := Online | Degraded | Offline.
#[export] Instance UpstreamStatus_eq_dec : EqDecision UpstreamStatus.
Proof. solve_decision. Defined.

Record HealthTracker := {
  consecutive_failures : Z;
  consecutive_successes : Z;
  is_offline : Z;
  ht_total_requests : Z;
  failed_requests : Z;
  last_success_ms : Z;
  last_failure_ms : Z;
  offline_threshold : Z;
  recovery_threshold : Z;
  degraded_threshold : f32
}.

Definition with_thresholds (offline recovery : Z) (degraded : f32) : HealthTracker :=
  {| consecutive_failures := 0; consecutive_successes := 0; is_offline := 0; ht_total_requests := 0;
     failed_requests := 0; last_success_ms := 0; last_failure_ms := 0; offline_threshold := offline;
     recovery_threshold := recovery; degraded_threshold := degraded |}.
Definition HealthTracker_new : HealthTracker := with_thresholds 3 2 (F32.lit 1 10).

(** [now_ms] is the wall clock. *)
Definition ht_record_success (now_ms : Z) (h : HealthTracker) : HealthTracker :=
  let prev := consecutive_successes h in
  let successes := sat_add 32 prev 1 in
  {| consecutive_failures := 0;
     consecutive_successes := wrap 32 (prev + 1);
     is_offline := if (is_offline h =? 1) && (recovery_threshold h <=? successes) then 0 else is_offline h;
     ht_total_requests := wrap 32 (ht_total_requests h + 1);
     failed_requests := failed_requests h;
     last_success_ms := now_ms; last_failure_ms := last_failure_ms h;
     offline_threshold := offline_threshold h; recovery_threshold := recovery_threshold h;
     degraded_threshold := degraded_threshold h |}.

Definition ht_record_failure (now_ms : Z) (h : HealthTracker) : HealthTracker :=
  let prev := consecutive_failures h in
  let failures := sat_add 32 prev 1 in
  {| consecutive_failures := wrap 32 (prev + 1);
     consecutive_successes := 0;
     is_offline := if offline_threshold h <=? failures then 1 else is_offline h;
     ht_total_requests := wrap 32 (ht_total_requests h + 1);
     failed_requests := wrap 32 (failed_requests h + 1);
     last_success_ms := last_success_ms h; last_failure_ms := now_ms;
     offline_threshold := offline_threshold h; recovery_threshold := recovery_threshold h;
     degraded_threshold := degraded_threshold h |}.

Definition status (h : HealthTracker) : UpstreamStatus :=
  if is_offline h =? 1 then Offline
  else if (10 <=? ht_total_requests h) && (consecutive_failures h =? 0) then
    let error_rate := F32.div (F32.of_Z (failed_requests h)) (F32.of_Z (ht_total_requests h)) in
    if f_gt error_rate (degraded_threshold h) then Degraded else Online
  else Online.

Definition reset_window (h : HealthTracker) : HealthTracker :=
  {| consecutive_failures := consecutive_failures h; consecutive_successes := consecutive_successes h;
     is_offline := is_offline h; ht_total_requests := 0; failed_requests := 0;
     last_success_ms := last_success_ms h; last_failure_ms := last_failure_ms h;
     offline_threshold := offline_threshold h; recovery_threshold := recovery_threshold h;
     degraded_threshold := degraded_threshold h |}.

Definition time_since_last_success (now_ms : Z) (h : HealthTracker) : option Z :=
  if last_success_ms h =? 0 then None
  else if last_success_ms h <? now_ms then Some (from_millis (sat_sub now_ms (last_success_ms h)))
  else Some 0.

(** ** The generic REST adapter *)

Inductive HttpReply :=
| HttpTimeout
| HttpFailed (msg : str)
| HttpStatus (code : Z) (body : result str UpstreamError).

Class Decoders := {
  decode_response : str -> option QueryResponse;
  decode_results : str -> option (list SearchResult);
  decode_wrapper : str -> option (list SearchResult)
}.

Definition status_is_success (code : Z) : bool := (200 <=? code) && (code <? 300).

(** [&s[..n]]: panics unless byte [n] is at a character boundary of [s]. *)
Fixpoint slice_to (n : Z) (s : str) : outcome str :=
  if n =? 0 then Ret []
  else match s with
       | [] => Panic
       | c :: s => if zlen (utf8_char c) <=? n
                   then obind (slice_to (n - zlen (utf8_char c)) s) (fun r => Ret (c :: r))
                   else Panic
       end.

Definition with_results (took now : Z) (rs : list SearchResult) : QueryResponse :=
  {| results := rs; cache_status := Miss; took_ms := took; generated_at := Some now; miss_reason := None |}.

(** GenericRestAdapter::query; [took] is the elapsed time in milliseconds and [now]
    the wall clock when the body has been decoded. *)
Definition generic_query `{Decoders} (took now : Z) (reply : HttpReply)
  : outcome (result QueryResponse UpstreamError) :=
  match reply with
  | HttpTimeout => Ret (Err Timeout)
  | HttpFailed msg => Ret (Err (Network msg))
  | HttpStatus code body =>
      if negb (status_is_success code) then
        Ret (Err (Status code (match body with Ok b => b | Err _ => [] end)))
      else
        match body with
        | Err e => Ret (Err e)
        | Ok body =>
            match decode_response body with
            | Some r => Ret (Ok {| results := results r; cache_status := Miss; took_ms := took;
                                   generated_at := generated_at r; miss_reason := miss_reason r |})
            | None =>
            match decode_results body with
            | Some rs => Ret (Ok (with_results took now rs))
            | None =>
            match decode_wrapper body with
            | Some rs => Ret (Ok (with_results took now rs))
            | None =>
                obind (if 200 <? str_len body then slice_to 200 body else Ret body)
                  (fun shown => Ret (Err (Parse (lit "Failed to parse upstream response: " ++ shown))))
            end end end
        end
  end.

(** ** Health histories

    The outcomes of the requests of an upstream, the newest first, and the tracker
    they leave behind (the wall clock plays no part in its status). *)
Definition health_event (ok : bool) (h : HealthTracker) : HealthTracker :=
  if ok then ht_record_success 0 h else ht_record_failure 0 h.
Definition health_after (ft rt : Z) (deg : f32) (hist : list bool) : HealthTracker :=
  foldr health_event (with_thresholds ft rt deg) hist.

(** The length of the run of [b] at the head of a history. *)
Fixpoint streak (b : bool) (hist : list bool) : nat :=
  match hist with
  | [] => 0
  | e :: hist => if Bool.eqb e b then S (streak b hist) else 0
  end.

(** A run of [n] equal outcomes somewhere in a history. *)
Definition has_run (b : bool) (n : nat) (hist : list bool) : Prop :=
  exists l r, hist = l ++ replicate n b ++ r.

(** Some [n] failures in a row with no [m] successes in a row since. *)
Definition down (n m : nat) (hist : list bool) : Prop :=
  exists since before, hist = since ++ replicate n false ++ before /\ ~ has_run true m since.

Lemma streak_prefix b n : forall hist, (n <= streak b hist)%nat <-> exists r, hist = replicate n b ++ r.
Proof.
  induction n as [|n IH]; intros hist; simpl; [split; [by exists hist|lia]|].
  destruct hist as [|e hist]; simpl.
  - split; [lia|by intros [r ?]].
  - destruct (Bool.eqb e b) eqn:E.
    + apply Bool.eqb_prop in E as ->. rewrite <- Nat.succ_le_mono, IH.
      split; intros [r Hr]; exists r; [by rewrite Hr|by injection Hr].
    + apply Bool.eqb_false_iff in E. split; [lia|]. intros [r Hr]. by injection Hr.
Qed.

Lemma has_run_cons b n e hist :
  (0 < n)%nat -> has_run b n (e :: hist) <-> (n <= streak b (e :: hist))%nat \/ has_run b n hist.
Proof.
  intros Hn. rewrite streak_prefix. split.
  - intros ([|x l] & r & Hr); simpl in Hr; [by left; exists r|right].
    injection Hr as _ ->. by exists l, r.
  - intros [[r ->]|(l & r & ->)]; [by exists [], r|by exists (e :: l), r].
Qed.

(** A run of successes at the head does not reach behind a failure. *)
Lemma streak_true_app since n before :
  (0 < n)%nat -> streak true (since ++ replicate n false ++ before) = streak true since.
Proof.
  intros Hn. induction since as [|[] since IH]; simpl; [|by rewrite IH|done].
  by destruct n; [lia|].
Qed.

Lemma down_success n m hist :
  (0 < n)%nat -> (0 < m)%nat ->
  down n m (true :: hist) <-> down n m hist /\ (S (streak true hist) < m)%nat.
Proof.
  intros Hn Hm. split.
  - intros ([|e since] & before & Heq & Hno); simpl in Heq; [by destruct n; [lia|]|].
    injection Heq as <- ->. rewrite has_run_cons in Hno by done. simpl in Hno.
    rewrite streak_true_app by done. split; [|destruct (decide (S (streak true since) < m)%nat); [done|]].
    + exists since, before. tauto.
    + exfalso. apply Hno. left. lia.
  - intros [(since & before & -> & Hno) Hlt]. rewrite streak_true_app in Hlt by done.
    exists (true :: since), before. split; [done|]. rewrite has_run_cons by done. simpl.
    intros [?|?]; [lia|done].
Qed.

Lemma down_failure n m hist :
  (0 < n)%nat -> (0 < m)%nat ->
  down n m (false :: hist) <-> (n <= S (streak false hist))%nat \/ down n m hist.
Proof.
  intros Hn Hm. split.
  - intros ([|e since] & before & Heq & Hno); simpl in Heq.
    + left. change (S (streak false hist)) with (streak false (false :: hist)).
      apply streak_prefix. by exists before.
    + right. injection Heq as <- ->. exists since, before. split; [done|]. intros Hr. apply Hno.
      apply has_run_cons; auto.
  - intros [Hle|(since & before & -> & Hno)].
    + change (S (streak false hist)) with (streak false (false :: hist)) in Hle.
      apply streak_prefix in Hle as [r Hr]. exists [], r. split; [done|].
      intros ([|x l] & r' & Hr'); [by destruct m; [lia|]|done].
    + exists (false :: since), before. split; [done|]. rewrite has_run_cons by done. simpl.
      intros [?|?]; [lia|done].
Qed.

Lemma streak_length b hist : (streak b hist <= length hist)%nat.
Proof. induction hist as [|e l IH]; simpl; [lia|destruct (Bool.eqb e b); lia]. Qed.

Lemma health_counts ft rt deg hist :
  Z.of_nat (length hist) < 2 ^ 32 ->
  let h := health_after ft rt deg hist in
  consecutive_failures h = Z.of_nat (streak false hist) /\
  consecutive_successes h = Z.of_nat (streak true hist) /\
  offline_threshold h = ft /\ recovery_threshold h = rt /\ degraded_threshold h = deg.
Proof.
  induction hist as [|e hist IH]; [done|]. simpl length. intros Hl.
  destruct IH as (H1 & H2 & H3 & H4 & H5); [lia|]. simpl in *.
  pose proof (streak_length false hist). pose proof (streak_length true hist).
  destruct e; simpl; rewrite ?H1, ?H2, ?wrap_small by (unfold in_u, u_max; lia); split_and!; done || lia.
Qed.

(** ** Properties of the tracker *)

(** An upstream is offline exactly when [offline_threshold] of its requests
    failed in a row and there has been no run of [recovery_threshold] successes
    since; otherwise it is online or degraded.  (Both thresholds at least one, and
    fewer than [2^32] requests, after which the counters wrap.) *)
Theorem offline_iff ft rt deg hist :
  (0 < ft)%nat -> (0 < rt)%nat -> Z.of_nat (length hist) < 2 ^ 32 ->
  status (health_after (Z.of_nat ft) (Z.of_nat rt) deg hist) = Offline <-> down ft rt hist.
Proof.
  intros Hft Hrt. assert (Hoff : forall h, is_offline h = 0 \/ is_offline h = 1 ->
    (status h = Offline <-> is_offline h = 1)).
  { intros h [Hh|Hh]; unfold status; rewrite Hh; simpl; [|done]. repeat case_match; done. }
  cut (Z.of_nat (length hist) < 2 ^ 32 ->
       let h := health_after (Z.of_nat ft) (Z.of_nat rt) deg hist in
       (is_offline h = 0 \/ is_offline h = 1) /\ (is_offline h = 1 <-> down ft rt hist)).
  { intros H Hl. destruct (H Hl) as [H1 <-]. by apply Hoff. }
  induction hist as [|e hist IH]; intros Hl; simpl in Hl.
  - split; [by left|]. split; [done|]. intros ([|] & before & Heq & _); [by destruct ft; [lia|]|done].
  - destruct IH as [IH1 IH2]; [lia|].
    destruct (health_counts (Z.of_nat ft) (Z.of_nat rt) deg hist ltac:(lia)) as (H1 & H2 & H3 & H4 & _).
    pose proof (streak_length false hist). pose proof (streak_length true hist).
    destruct e; simpl; rewrite ?H1, ?H2, ?H3, ?H4; unfold sat_add, u_max; rewrite Z.min_l by lia.
    + rewrite down_success, <- IH2 by done.
      destruct IH1 as [->| ->]; simpl; [split; [by left|]; split; [done|by intros [? _]]|].
      destruct (Z.of_nat rt <=? _) eqn:E; reflect_Z; (split; [lia|]); split; lia.
    + rewrite down_failure, <- IH2 by done.
      destruct (Z.of_nat ft <=? _) eqn:E; reflect_Z; (split; [lia|]); split; lia.
Qed.

(** Three failures, then one success: still offline. *)
Lemma offline_iff_witness :
  status (health_after 3 2 (F32.lit 1 10) [true; false; false; false]) = Offline.
Proof.
  apply (offline_iff 3 2); [lia|lia|simpl; lia|].
  exists [true], []. split; [reflexivity|]. intros ([|a [|b l]] & r & H); discriminate H.
Defined.

(** ** The adapter's error message *)

Lemma utf8_char_len c : 1 <= zlen (utf8_char c).
Proof. unfold utf8_char. repeat case_match; rewrite ?zlen_cons, zlen_nil; lia. Qed.

Lemma str_len_cons c s : str_len (c :: s) = zlen (utf8_char c) + str_len s.
Proof. unfold str_len, as_bytes. simpl. by rewrite zlen_app. Qed.

Lemma str_len_nonneg s : 0 <= str_len s.
Proof. apply zlen_nonneg. Qed.

(** A slice is the prefix with that many bytes, where there is one. *)
Lemma slice_to_spec s : forall n r,
  slice_to n s = Ret r <-> (exists s2, s = r ++ s2) /\ str_len r = n.
Proof.
  induction s as [|c s IH]; intros n r; simpl.
  - destruct (n =? 0) eqn:E; reflect_Z; split; try done.
    + intros [= <-]. split; [by exists []|done].
    + intros [[s2 Hs] _]. by destruct r.
    + intros [[s2 Hs] Hn]. by destruct r.
  - pose proof (utf8_char_len c). destruct (n =? 0) eqn:E; reflect_Z; [subst n; split|].
    + intros [= <-]. split; [by exists (c :: s)|done].
    + intros [[s2 Hs] Hn]. destruct r as [|c' r]; [done|]. rewrite str_len_cons in Hn.
      injection Hs as <- _. pose proof (str_len_nonneg r). lia.
    + destruct r as [|c' r].
      { split; [|by intros [_ <-]]. destruct (_ <=? n); [|done]. by destruct (slice_to _ s). }
      rewrite str_len_cons. transitivity (c = c' /\ slice_to (n - zlen (utf8_char c)) s = Ret r).
      * destruct (_ <=? n) eqn:E'; reflect_Z.
        -- destruct (slice_to _ s) as [r'|]; simpl; [|by split; [|intros [_ ?]]].
           split; [by intros [= <- <-]|by intros [<- [= <-]]].
        -- split; [done|]. intros [_ Hs]. apply IH in Hs as [_ Hs]. pose proof (str_len_nonneg r). lia.
      * rewrite IH. split.
        -- intros [<- [[s2 ->] Hn]]. split; [by exists s2|lia].
        -- intros [[s2 [= <- ->]] Hn]. split_and!; [done|by exists s2|lia].
Qed.

Lemma slice_to_panics n s : slice_to n s = Panic <-> forall s1 s2, s = s1 ++ s2 -> str_len s1 <> n.
Proof.
  split.
  - intros Hp s1 s2 Hs Hn. assert (slice_to n s = Ret s1) as Hr by (apply slice_to_spec; eauto).
    congruence.
  - intros Hno. destruct (slice_to n s) as [r|] eqn:E; [|done].
    apply slice_to_spec in E as [[s2 Hs] Hn]. by destruct (Hno r s2).
Qed.

(** C40: the adapter returns a response or an error for every reply but one kind:
    it panics exactly on a body of a successful reply that no decoder accepts, is
    longer than 200 bytes and has a character across byte 200, where the error
    message is cut. *)
Theorem generic_query_panics_iff (D : Decoders) took now reply :
  generic_query took now reply = Panic <->
  exists code body, reply = HttpStatus code (Ok body) /\ status_is_success code = true /\
    decode_response body = None /\ decode_results body = None /\ decode_wrapper body = None /\
    200 < str_len body /\ forall s1 s2, body = s1 ++ s2 -> str_len s1 <> 200.
Proof.
  split.
  - destruct reply as [| |code [body|]]; simpl; try done; destruct (status_is_success code) eqn:E; simpl; try done.
    destruct (decode_response body) eqn:E1, (decode_results body) eqn:E2, (decode_wrapper body) eqn:E3; try done.
    destruct (200 <? str_len body) eqn:E4; [|done]. destruct (slice_to 200 body) eqn:E5; [done|].
    intros _. reflect_Z. exists code, body. split_and!; try done. by apply slice_to_panics.
  - intros (code & body & -> & H1 & H2 & H3 & H4 & H5%Z.ltb_lt & H6%slice_to_panics).
    simpl. by rewrite H1, H2, H3, H4, H5, H6.
Qed.

(** A body with a two-byte character after 199 one-byte ones. *)
Definition NoDecoders : Decoders :=
  {| decode_response := fun _ => None; decode_results := fun _ => None; decode_wrapper := fun _ => None |}.

Lemma parse_error_panics :
  @generic_query NoDecoders 0 0 (HttpStatus 200 (Ok (replicate 199 97 ++ [233; 97]))) = Panic.
Proof. reflexivity. Qed.
