(* ===== verification/Pool.v ===== *)
(** * The pool of upstreams (src/src/proxy/pool.rs)

    Upstreams are shared ([Arc]): a handle is the position of the upstream in the
    pool's vector, and the lists the code passes around ([available], the vector
    sorted by priority) are lists of handles.  The adapters talk to remote services;
    what a call returns is a parameter ([Backend]), indexed by the number of the
    call, so that an upstream may answer differently each time. *)

From Stdlib Require Import SpecFloat.
From S2P Require Import Prelude Floats Text Types Retry ConnPool Upstream.
Open Scope Z_scope.
Open Scope conproxy_scope.

Inductive LoadBalanceStrategy := RoundRobin | Weighted | Random | Failover.
#[export] Instance LoadBalanceStrategy_eq_dec : EqDecision LoadBalanceStrategy.
Proof. solve_decision. Defined.

(** The fields of [UpstreamEndpointConfig] that the pool reads itself. *)
Record UpstreamEndpointConfig := {
  uc_id : str;
  uc_weight : option Z;
  uc_priority : option Z;
  uc_max_concurrent : option Z;
  uc_enabled : option bool;
  uc_upstream_type : option str;
  uc_query_mode : option str
}.

Record PooledUpstream := {
  pu_id : str;
  pu_mode : Z;
  pu_health : HealthTracker;
  connection_pool : ConnectionPool;
  pu_weight : Z;
  pu_priority : Z;
  requests : Z;
  failures : Z;
  enabled : bool;
  pu_type : Z
}.

Definition str_in (s : option str) (l : list string) : bool :=
  match s with Some s => existsb (fun x => str_eqb s (lit x)) l | None => false end.

Definition upstream_type_of (t : option str) : UpstreamType :=
  if str_in t ["elasticsearch"; "opensearch"; "meilisearch"]%string then FullTextSearch
  else if str_in t ["qdrant"; "pinecone"; "milvus"; "pgvector"]%string then VectorDatabase
  else UnknownType.

(** The adapter [create_adapter] picks, by the query mode the adapters start with;
    [pg] is the [pgvector] feature.  Building its client may fail. *)
Definition adapter_mode (pg : bool) (t : option str) : QueryMode :=
  if str_in t ["elasticsearch"; "opensearch"; "meilisearch"]%string then TextNative
  else if str_in t ["milvus"; "pinecone"]%string then VectorOnly
  else if pg && str_in t ["pgvector"]%string then VectorOnly
  else UnknownMode.

Definition declared_mode (m : option str) : QueryMode :=
  if str_in m ["vector_only"]%string then VectorOnly
  else if str_in m ["text_native"]%string then TextNative
  else UnknownMode.

Class Clients := { build_client : UpstreamEndpointConfig -> result unit str; pgvector_feature : bool }.

Definition PooledUpstream_new `{Clients} (c : UpstreamEndpointConfig)
  : outcome (result PooledUpstream str) :=
  let pool_config := match uc_max_concurrent c with
                     | Some n => ConnectionPoolConfig_new n
                     | None => ConnectionPoolConfig_default
                     end in
  match build_client c with
  | Err e => Ret (Err e)
  | Ok _ =>
      let mode := declared_mode (uc_query_mode c) in
      let mode := if decide (mode = UnknownMode) then adapter_mode pgvector_feature (uc_upstream_type c)
                  else mode in
      let! p := ConnectionPool_new pool_config in
      Ret (Ok {| pu_id := uc_id c; pu_mode := mode_as_u8 mode; pu_health := HealthTracker_new;
                 connection_pool := p; pu_weight := default 1 (uc_weight c);
                 pu_priority := default 0 (uc_priority c); requests := 0; failures := 0;
                 enabled := default true (uc_enabled c);
                 pu_type := type_to_u8 (upstream_type_of (uc_upstream_type c)) |})
  end.

Definition is_healthy (u : PooledUpstream) : bool :=
  enabled u && bool_decide (status (pu_health u) = Online).
Definition is_available (u : PooledUpstream) : bool :=
  enabled u && bool_decide (status (pu_health u) <> Offline).

Definition with_health (u : PooledUpstream) (h : HealthTracker) (req fail : Z) : PooledUpstream :=
  {| pu_id := pu_id u; pu_mode := pu_mode u; pu_health := h; connection_pool := connection_pool u;
     pu_weight := pu_weight u; pu_priority := pu_priority u; requests := req; failures := fail;
     enabled := enabled u; pu_type := pu_type u |}.
Definition pu_record_success (now_ms : Z) (u : PooledUpstream) : PooledUpstream :=
  with_health u (ht_record_success now_ms (pu_health u)) (wrap 64 (requests u + 1)) (failures u).
Definition pu_record_failure (now_ms : Z) (u : PooledUpstream) : PooledUpstream :=
  with_health u (ht_record_failure now_ms (pu_health u)) (wrap 64 (requests u + 1)) (wrap 64 (failures u + 1)).

Definition set_enabled (b : bool) (u : PooledUpstream) : PooledUpstream :=
  {| pu_id := pu_id u; pu_mode := pu_mode u; pu_health := pu_health u; connection_pool := connection_pool u;
     pu_weight := pu_weight u; pu_priority := pu_priority u; requests := requests u;
     failures := failures u; enabled := b; pu_type := pu_type u |}.
Definition set_query_mode (m : QueryMode) (u : PooledUpstream) : PooledUpstream :=
  {| pu_id := pu_id u; pu_mode := mode_as_u8 m; pu_health := pu_health u;
     connection_pool := connection_pool u; pu_weight := pu_weight u; pu_priority := pu_priority u;
     requests := requests u; failures := failures u; enabled := enabled u; pu_type := pu_type u |}.
Definition query_mode (u : PooledUpstream) : QueryMode := mode_from_u8 (pu_mode u).
Definition pu_upstream_type (u : PooledUpstream) : UpstreamType := type_from_u8 (pu_type u).

Definition failure_rate (u : PooledUpstream) : f64 :=
  if requests u =? 0 then f_zero else F64.div (F64.of_Z (failures u)) (F64.of_Z (requests u)).

(** [query_pooled] and [query_vector_pooled], given the connection and the
    adapter's answer. *)
Definition query_pooled (conn : result unit PoolError) (answer : result QueryResponse UpstreamError)
  : result QueryResponse UpstreamError :=
  match conn with
  | Err QueueFull => Err (Unavailable (lit "connection queue full"))
  | Err PTimeout => Err Timeout
  | Err Shutdown => Err (Unavailable (lit "connection pool shutdown"))
  | Ok _ => answer
  end.

(** ** The pool *)

Abbreviation Handle := nat (only parsing).

Record UpstreamPool := {
  upstreams : list PooledUpstream;
  upstreams_by_priority : list Handle;
  by_id : gmap str Handle;
  strategy : LoadBalanceStrategy;
  current_index : Z
}.

Definition prio (us : list PooledUpstream) (h : Handle) : Z :=
  match us !! h with Some u => pu_priority u | None => 0 end.
Definition prio_le (us : list PooledUpstream) (a b : Handle) : bool := prio us a <=? prio us b.

(** [collect::<Result<Vec<_>, _>>()] over the configurations. *)
Fixpoint build_all `{Clients} (cs : list UpstreamEndpointConfig) : outcome (result (list PooledUpstream) str) :=
  match cs with
  | [] => Ret (Ok [])
  | c :: cs =>
      let! r := PooledUpstream_new c in
      match r with
      | Err e => Ret (Err e)
      | Ok u => let! rs := build_all cs in
                match rs with Err e => Ret (Err e) | Ok us => Ret (Ok (u :: us)) end
      end
  end.

Definition index_by_id (us : list PooledUpstream) : gmap str Handle :=
  foldl (fun m iu => <[pu_id iu.2 := iu.1]> m) ∅ (zip (seq 0 (length us)) us).

Definition pool_of (us : list PooledUpstream) (st : LoadBalanceStrategy) : UpstreamPool :=
  {| upstreams := us; upstreams_by_priority := sort_by (prio_le us) (seq 0 (length us));
     by_id := index_by_id us; strategy := st; current_index := 0 |}.

Definition UpstreamPool_new `{Clients} (cs : list UpstreamEndpointConfig) (st : LoadBalanceStrategy)
  : outcome (result UpstreamPool str) :=
  let! r := build_all cs in
  match r with Err e => Ret (Err e) | Ok us => Ret (Ok (pool_of us st)) end.

Definition pool_get (p : UpstreamPool) (id : str) : option Handle :=
  match by_id p !! id with
  | Some i => if decide (i < length (upstreams p))%nat then Some i else None
  | None => None
  end.

(** The handles whose upstream satisfies [f], in the order of the vector. *)
Definition handles_where (f : PooledUpstream -> bool) (p : UpstreamPool) : list Handle :=
  List.filter (fun h => match upstreams p !! h with Some u => f u | None => false end)
    (seq 0 (length (upstreams p))).

Definition all (p : UpstreamPool) : list Handle := seq 0 (length (upstreams p)).
Definition healthy (p : UpstreamPool) : list Handle := handles_where is_healthy p.
Definition available (p : UpstreamPool) : list Handle := handles_where is_available p.
Definition with_mode (m : QueryMode) (p : UpstreamPool) : list Handle :=
  handles_where (fun u => bool_decide (query_mode u = m)) p.
Definition with_type (t : UpstreamType) (p : UpstreamPool) : list Handle :=
  handles_where (fun u => bool_decide (pu_upstream_type u = t)) p.

(** ** Selection *)

Definition weight_of (p : UpstreamPool) (h : Handle) : Z :=
  match upstreams p !! h with Some u => pu_weight u | None => 0 end.

(** [self.current_index.fetch_add(1)]: the old value. *)
Definition next_index (p : UpstreamPool) : Z * UpstreamPool :=
  (current_index p,
   {| upstreams := upstreams p; upstreams_by_priority := upstreams_by_priority p; by_id := by_id p;
      strategy := strategy p; current_index := wrap 64 (current_index p + 1) |}).

Definition select_round_robin (av : list Handle) (p : UpstreamPool) : option Handle * UpstreamPool :=
  match av with
  | [] => (None, p)
  | _ => let '(counter, p) := next_index p in (av !! Z.to_nat (counter mod zlen av), p)
  end.

Definition total_weight (p : UpstreamPool) (av : list Handle) : Z :=
  foldl (fun acc h => sat_add 32 acc (weight_of p h)) 0 av.

(** The loop over the accumulated weights, with the last upstream as a fallback. *)
Fixpoint weighted_pick (p : UpstreamPool) (index acc : Z) (av : list Handle) : option Handle :=
  match av with
  | [] => None
  | h :: av =>
      let acc := sat_add 32 acc (weight_of p h) in
      if index <? acc then Some h else weighted_pick p index acc av
  end.

Definition select_weighted (av : list Handle) (p : UpstreamPool) : option Handle * UpstreamPool :=
  match av with
  | [] => (None, p)
  | _ =>
      let total := total_weight p av in
      if total =? 0 then select_round_robin av p
      else
        let '(counter, p) := next_index p in
        let index := wrap 32 counter mod total in
        (match weighted_pick p index 0 av with Some h => Some h | None => last av end, p)
  end.

Definition select_random (av : list Handle) (p : UpstreamPool) : option Handle * UpstreamPool :=
  match av with
  | [] => (None, p)
  | _ => let '(seed, p) := next_index p in
         (av !! Z.to_nat (wrap 64 (seed * 2654435761) mod zlen av), p)
  end.

Definition find_handle (f : PooledUpstream -> bool) (p : UpstreamPool) (l : list Handle) : option Handle :=
  List.find (fun h => match upstreams p !! h with Some u => f u | None => false end) l.

Definition select_failover (p : UpstreamPool) : option Handle * UpstreamPool :=
  (match find_handle (fun u => is_available u && is_healthy u) p (upstreams_by_priority p) with
   | Some h => Some h
   | None => find_handle is_available p (upstreams_by_priority p)
   end, p).

Definition select_from_available (av : list Handle) (p : UpstreamPool) : option Handle * UpstreamPool :=
  match av with
  | [] => (None, p)
  | _ =>
      match strategy p with
      | RoundRobin => select_round_robin av p
      | Weighted => select_weighted av p
      | Random => select_random av p
      | Failover => select_failover p
      end
  end.

Definition select (p : UpstreamPool) : option Handle * UpstreamPool :=
  select_from_available (available p) p.
Definition select_where (f : PooledUpstream -> bool) (p : UpstreamPool) : option Handle * UpstreamPool :=
  select_from_available (handles_where (fun u => is_available u && f u) p) p.

(** ** Queries with failover *)

(** What the world answers: the connection, the adapter and the wall clock of the
    [n]-th call. *)
Class Backend := {
  bk_conn : nat -> Handle -> result unit PoolError;
  bk_query : nat -> Handle -> QueryRequest -> result QueryResponse UpstreamError;
  bk_query_vector : nat -> Handle -> QueryRequest -> list f32 -> result QueryResponse UpstreamError;
  bk_discover : nat -> Handle -> result QueryMode UpstreamError;
  bk_wall : nat -> Z
}.

Record World := { w_pool : UpstreamPool; w_calls : nat }.

Definition with_upstreams (p : UpstreamPool) (us : list PooledUpstream) : UpstreamPool :=
  {| upstreams := us; upstreams_by_priority := upstreams_by_priority p; by_id := by_id p;
     strategy := strategy p; current_index := current_index p |}.

(** A change of one upstream's atomics. *)
Definition update_upstream (h : Handle) (f : PooledUpstream -> PooledUpstream) (p : UpstreamPool)
  : UpstreamPool := with_upstreams p (alter f h (upstreams p)).

Definition id_of (p : UpstreamPool) (h : Handle) : str :=
  match upstreams p !! h with Some u => pu_id u | None => [] end.

Definition tag_results (id : str) (r : QueryResponse) : QueryResponse :=
  {| results := map (fun x => {| sr_id := sr_id x; score := score x; content := content x;
                                 metadata := metadata x; sr_upstream_id := Some id |}) (results r);
     cache_status := cache_status r; took_ms := took_ms r; generated_at := generated_at r;
     miss_reason := miss_reason r |}.

Section Query.
Context `{Backend} (request : QueryRequest).

(** [upstream.query_pooled(request)]: the answer of call [w_calls]. *)
Definition call_pooled (h : Handle) (w : World) : result QueryResponse UpstreamError * World :=
  (query_pooled (bk_conn (w_calls w) h) (bk_query (w_calls w) h request),
   {| w_pool := w_pool w; w_calls := S (w_calls w) |}).

(** One attempt: the call, the tags and the bookkeeping. *)
Definition attempt (h : Handle) (w : World) : result QueryResponse UpstreamError * World :=
  let '(r, w) := call_pooled h w in
  match r with
  | Ok resp =>
      (Ok (tag_results (id_of (w_pool w) h) resp),
       {| w_pool := update_upstream h (pu_record_success (bk_wall (w_calls w))) (w_pool w);
          w_calls := w_calls w |})
  | Err e =>
      (Err e,
       {| w_pool := update_upstream h (pu_record_failure (bk_wall (w_calls w))) (w_pool w);
          w_calls := w_calls w |})
  end.

(** The loop over the candidates. *)
Fixpoint try_all (cs : list Handle) (w : World) : result QueryResponse UpstreamError * World :=
  match cs with
  | [] => (Err (Unavailable (lit "All upstreams failed")), w)
  | h :: cs =>
      match attempt h w with
      | (Ok r, w) => (Ok r, w)
      | (Err _, w) => try_all cs w
      end
  end.

Definition candidates (p : UpstreamPool) : list Handle :=
  match available p with [] => all p | av => av end.

Definition query_selected (cs : list Handle) (w : World) : result QueryResponse UpstreamError * World :=
  let '(primary, p) := select_from_available cs (w_pool w) in
  let w := {| w_pool := p; w_calls := w_calls w |} in
  match primary with
  | Some h =>
      match attempt h w with
      | (Ok r, w) => (Ok r, w)
      | (Err e, w) => if (length cs =? 1)%nat then (Err e, w) else try_all cs w
      end
  | None => try_all cs w
  end.

Definition pool_query (w : World) : result QueryResponse UpstreamError * World :=
  match candidates (w_pool w) with
  | [] => (Err (Unavailable (lit "No upstreams configured")), w)
  | cs =>
      match rq_upstream_id request with
      | Some target_id =>
          match pool_get (w_pool w) target_id with
          | Some h => attempt h w
          | None => query_selected cs w
          end
      | None => query_selected cs w
      end
  end.
End Query.

(** ** Statistics *)

Record PoolStats := {
  total_upstreams : Z;
  healthy_upstreams : Z;
  degraded_upstreams : Z;
  offline_upstreams : Z;
  ps_total_requests : Z;
  ps_total_failures : Z;
  ps_failure_rate : f64;
  ps_active_connections : Z;
  total_queue_depth : Z;
  total_max_connections : Z;
  pool_utilization : f64;
  tc_fts : Z;
  tc_vector_db : Z;
  tc_hybrid : Z;
  tc_unknown : Z
}.

(** A saturating [usize] or [u64] sum over the upstreams. *)
Definition sum_over (f : PooledUpstream -> Z) (us : list PooledUpstream) : Z :=
  foldl (fun acc u => acc +! f u) 0 us.
Definition count_status (s : UpstreamStatus) (u : PooledUpstream) : Z :=
  if decide (status (pu_health u) = s) then 1 else 0.
Definition count_type (t : UpstreamType) (u : PooledUpstream) : Z :=
  if decide (pu_upstream_type u = t) then 1 else 0.
Definition count_mode (m : QueryMode) (u : PooledUpstream) : Z :=
  if decide (query_mode u = m) then 1 else 0.

Definition pool_stats (p : UpstreamPool) : PoolStats :=
  let us := upstreams p in
  let req := sum_over requests us in
  let fail := sum_over failures us in
  let act := sum_over (fun u => active (cp_stats (connection_pool u))) us in
  let maxc := sum_over (fun u => max_connections (cp_config (connection_pool u))) us in
  {| total_upstreams := zlen us;
     healthy_upstreams := sum_over (count_status Online) us;
     degraded_upstreams := sum_over (count_status Degraded) us;
     offline_upstreams := sum_over (count_status Offline) us;
     ps_total_requests := req; ps_total_failures := fail;
     ps_failure_rate := if 0 <? req then F64.div (F64.of_Z fail) (F64.of_Z req) else f_zero;
     ps_active_connections := act;
     total_queue_depth := sum_over (fun u => queued (cp_stats (connection_pool u))) us;
     total_max_connections := maxc;
     pool_utilization := if 0 <? maxc then F64.div (F64.of_Z act) (F64.of_Z maxc) else f_zero;
     tc_fts := sum_over (count_type FullTextSearch) us;
     tc_vector_db := sum_over (count_type VectorDatabase) us;
     tc_hybrid := sum_over (count_type Hybrid) us;
     tc_unknown := sum_over (count_type UnknownType) us |}.

(** Counts of text-native, vector-only and unknown upstreams. *)
Definition mode_counts (p : UpstreamPool) : Z * Z * Z :=
  (sum_over (count_mode TextNative) (upstreams p), sum_over (count_mode VectorOnly) (upstreams p),
   sum_over (count_mode UnknownMode) (upstreams p)).
