(* ===== verification/PoolProps.v ===== *)
(** * Properties of the upstream pool

    Selection: every strategy returns an available upstream, round robin and
    weighted round robin are fair over a full turn, failover prefers the healthy
    upstream of best priority.  Queries: failover reaches every candidate before it
    gives up. *)

From Stdlib Require Import SpecFloat.
From S2P Require Import Prelude Floats Text Types Retry ConnPool Upstream Pool.
Open Scope Z_scope.
Open Scope conproxy_scope.

(** ** Handles *)

Lemma handles_where_elem f p h :
  h ∈ handles_where f p <-> exists u, upstreams p !! h = Some u /\ f u = true.
Proof.
  unfold handles_where. rewrite list_elem_of_In, filter_In, <- list_elem_of_In, elem_of_seq. split.
  - intros [_ Hf]. destruct (upstreams p !! h) as [u|] eqn:E; [by exists u|done].
  - intros (u & Hu & Hf). rewrite Hu. split; [|done]. apply lookup_lt_Some in Hu. lia.
Qed.

Lemma find_handle_spec f p l :
  match find_handle f p l with
  | Some h => exists l1 l2, l = l1 ++ h :: l2 /\ h ∈ handles_where f p /\
                Forall (fun h' => h' ∉ handles_where f p) l1
  | None => Forall (fun h' => h' ∉ handles_where f p) l
  end.
Proof.
  unfold find_handle. induction l as [|h l IH]; simpl; [done|].
  destruct (match upstreams p !! h with Some u => f u | None => false end) eqn:E.
  - exists [], l. split_and!; [done| |done]. apply handles_where_elem.
    destruct (upstreams p !! h) as [u|]; [by exists u|done].
  - assert (h ∉ handles_where f p).
    { rewrite handles_where_elem. intros (u & Hu & Hf). rewrite Hu in E. congruence. }
    destruct (List.find _ l) as [h'|].
    + destruct IH as (l1 & l2 & -> & H1 & H2). exists (h :: l1), l2. split_and!; [done|done|by constructor].
    + by constructor.
Qed.

(** ** Cyclic order *)

Lemma cyclic_perm (c : Z) (n : nat) : (0 < n)%nat ->
  map (fun i => Z.to_nat ((c + Z.of_nat i) mod Z.of_nat n)) (seq 0 n) ≡ₚ seq 0 n.
Proof.
  intros Hn. apply submseteq_length_Permutation; [|by rewrite length_map].
  apply NoDup_submseteq.
  - apply NoDup_fmap_2_strong; [|apply NoDup_seq].
    intros i j Hi%elem_of_seq Hj%elem_of_seq Heq.
    pose proof (Z.mod_pos_bound (c + Z.of_nat i) (Z.of_nat n)).
    pose proof (Z.mod_pos_bound (c + Z.of_nat j) (Z.of_nat n)).
    assert ((c + Z.of_nat i) mod Z.of_nat n = (c + Z.of_nat j) mod Z.of_nat n) as Hm by lia.
    assert ((Z.of_nat i - Z.of_nat j) mod Z.of_nat n = 0) as Hz.
    { replace (Z.of_nat i - Z.of_nat j) with ((c + Z.of_nat i) - (c + Z.of_nat j)) by lia.
      rewrite Zminus_mod, Hm, Z.sub_diag. apply Z.mod_0_l. lia. }
    apply Z.mod_divide in Hz as [k Hk]; [|lia]. assert (k = 0) by nia. nia.
  - intros x (i & -> & Hi)%list_elem_of_fmap. apply elem_of_seq.
    pose proof (Z.mod_pos_bound (c + Z.of_nat i) (Z.of_nat n)). lia.
Qed.

(** Reading a list at the positions of a full turn yields the list. *)
Lemma cyclic_read {A} (l : list A) (c : Z) : l <> [] ->
  map (fun i => l !! Z.to_nat ((c + Z.of_nat i) mod zlen l)) (seq 0 (length l)) ≡ₚ map Some l.
Proof.
  intros Hl. assert (0 < length l)%nat as Hn by (destruct l; simpl; [done|lia]).
  transitivity (map (fun i => l !! i) (seq 0 (length l))).
  - rewrite <- (cyclic_perm c (length l) Hn) at 2. by rewrite map_map.
  - cut (map (fun i => l !! i) (seq 0 (length l)) = map Some l); [by intros ->|]. clear Hl Hn. induction l as [|x l IH]; simpl; [done|].
    f_equal. rewrite <- seq_shift, map_map. exact IH.
Qed.

(** ** Well-formed pools *)

Record pool_wf (p : UpstreamPool) : Prop := {
  wf_sorted : upstreams_by_priority p ≡ₚ seq 0 (length (upstreams p));
  wf_order : StronglySorted (fun a b => prio (upstreams p) a <= prio (upstreams p) b) (upstreams_by_priority p);
  wf_index : in_u 64 (current_index p)
}.

Lemma pool_of_wf us st : pool_wf (pool_of us st).
Proof.
  split; simpl.
  - apply sort_by_perm.
  - eapply (strongly_sorted_impl (fun a b => prio_le us a b = true)).
    + intros a b. by apply Z.leb_le.
    + apply sort_by_sorted; unfold prio_le; intros; reflect_Z; apply Z.leb_le; lia.
  - by split.
Qed.

(** Bookkeeping does not touch the order. *)
Lemma update_upstream_wf h f p :
  (forall u, pu_priority (f u) = pu_priority u) -> pool_wf p -> pool_wf (update_upstream h f p).
Proof.
  intros Hf [H1 H2 H3]. assert (forall a, prio (alter f h (upstreams p)) a = prio (upstreams p) a) as Hp.
  { intros a. unfold prio. rewrite list_lookup_alter. case_decide; [|done].
    subst. destruct (upstreams p !! a); simpl; [apply Hf|done]. }
  split; simpl; rewrite ?length_alter; [done| |done].
  eapply strongly_sorted_impl; [|exact H2]. intros a b. simpl. by rewrite !Hp.
Qed.

Lemma next_index_wf p : pool_wf p -> pool_wf (snd (next_index p)).
Proof. intros [H1 H2 H3]. split; simpl; [done|done|]. apply wrap_range. lia. Qed.

Lemma lookup_mod {A} (l : list A) (c : Z) : l <> [] -> exists x, l !! Z.to_nat (c mod zlen l) = Some x /\ x ∈ l.
Proof.
  intros Hl. assert (0 < zlen l) by (unfold zlen; destruct l; simpl; [done|lia]).
  pose proof (Z.mod_pos_bound c (zlen l)). destruct (lookup_lt_is_Some_2 l (Z.to_nat (c mod zlen l))) as [x Hx].
  - unfold zlen in *. lia.
  - exists x. split; [done|]. by eapply list_elem_of_lookup_2.
Qed.

Lemma weighted_pick_elem p index acc av h : weighted_pick p index acc av = Some h -> h ∈ av.
Proof.
  revert acc. induction av as [|x av IH]; intros acc; simpl; [done|].
  destruct (index <? _); [intros [= ->]; set_solver|]. intros ?%IH. set_solver.
Qed.

Lemma last_elem {A} (l : list A) : l <> [] -> exists x, last l = Some x /\ x ∈ l.
Proof.
  intros Hl. destruct (last l) as [x|] eqn:E; [|by apply last_None in E].
  exists x. split; [done|]. apply last_Some in E as [l' ->]. set_solver.
Qed.

(** The three strategies that look at the list they are given. *)
Lemma select_list_strategies av p :
  av <> [] -> strategy p <> Failover ->
  exists h, fst (select_from_available av p) = Some h /\ h ∈ av.
Proof.
  intros Hav Hs. unfold select_from_available. destruct av as [|a av]; [done|].
  destruct (strategy p); try done.
  - by apply lookup_mod.
  - unfold select_weighted. destruct (_ =? 0); [by apply lookup_mod|]. cbn [next_index fst].
    destruct (weighted_pick _ _ _ _) as [h|] eqn:E; [exists h; split; [done|by eapply weighted_pick_elem]|].
    by apply last_elem.
  - by apply lookup_mod.
Qed.

Lemma handles_where_all p f h : pool_wf p -> h ∈ handles_where f p -> h ∈ upstreams_by_priority p.
Proof.
  intros [Hp _ _] (u & Hu & _)%handles_where_elem. rewrite Hp, elem_of_seq.
  apply lookup_lt_Some in Hu. lia.
Qed.

(** The first match in priority order has the best priority of all matches. *)
Lemma find_handle_best f p : pool_wf p ->
  match find_handle f p (upstreams_by_priority p) with
  | Some h => h ∈ handles_where f p /\
      forall h', h' ∈ handles_where f p -> prio (upstreams p) h <= prio (upstreams p) h'
  | None => handles_where f p = []
  end.
Proof.
  intros Hwf. pose proof (find_handle_spec f p (upstreams_by_priority p)) as Hf.
  destruct (find_handle f p _) as [h|].
  - destruct Hf as (l1 & l2 & Heq & Hh & Hl1). split; [done|]. intros h' Hh'.
    pose proof (handles_where_all _ _ _ Hwf Hh') as Hin. rewrite Heq in Hin.
    destruct Hwf as [_ Hs _]. rewrite Heq in Hs. apply elem_of_app in Hin as [Hin|Hin].
    + rewrite Forall_forall in Hl1. by destruct (Hl1 h').
    + apply elem_of_cons in Hin as [->|Hin]; [lia|].
      clear - Hs Hin. induction l1 as [|x l1 IH]; simpl in Hs.
      * apply StronglySorted_inv in Hs as [_ Hs]. rewrite Forall_forall in Hs. by apply Hs.
      * apply StronglySorted_inv in Hs as [Hs _]. auto.
  - destruct (handles_where f p) as [|h l] eqn:E; [done|]. exfalso.
    assert (h ∈ handles_where f p) as Hh by (rewrite E; set_solver).
    rewrite Forall_forall in Hf. eapply Hf; [by eapply handles_where_all|]. set_solver.
Qed.

(** ** Properties of selection *)

Definition healthy_handles (p : UpstreamPool) : list Handle :=
  handles_where (fun u => is_available u && is_healthy u) p.

(** [select] finds an upstream whenever one is available, and what it finds is
    available, under every strategy; under failover it is a healthy upstream when
    there is one, and the one of best priority among its kind. *)
Theorem select_available p :
  pool_wf p ->
  match fst (select p) with
  | Some h => h ∈ available p /\
      (strategy p = Failover ->
        if decide (healthy_handles p = [])
        then forall h', h' ∈ available p -> prio (upstreams p) h <= prio (upstreams p) h'
        else h ∈ healthy p /\
             forall h', h' ∈ healthy p -> prio (upstreams p) h <= prio (upstreams p) h')
  | None => available p = []
  end.
Proof.
  intros Hwf. unfold select.
  destruct (decide (available p = [])) as [->|Hav]; [done|].
  destruct (decide (strategy p = Failover)) as [Hs|Hs].
  - assert (select_from_available (available p) p = select_failover p) as ->
      by (unfold select_from_available; destruct (available p); [done|by rewrite Hs]).
    unfold select_failover. simpl.
    assert (Hhh : forall h, h ∈ healthy_handles p <-> h ∈ healthy p).
    { intros h. unfold healthy_handles, healthy. rewrite !handles_where_elem.
      unfold is_available, is_healthy. split; intros (u & Hu & Hf); exists u; (split; [done|]).
      - by apply andb_true_iff in Hf as [_ ?].
      - rewrite Hf. apply andb_true_iff in Hf as [-> Hf]. apply bool_decide_eq_true in Hf.
        rewrite Hf. done. }
    pose proof (find_handle_best (fun u => is_available u && is_healthy u) p Hwf) as H1.
    pose proof (find_handle_best is_available p Hwf) as H2. fold (healthy_handles p) in H1.
    destruct (find_handle _ p _) as [h|] eqn:E1.
    + destruct H1 as [H1 H3]. split.
      * apply handles_where_elem in H1 as (u & Hu & [? _]%andb_true_iff).
        apply handles_where_elem. by exists u.
      * intros _. rewrite decide_False by (intros Heq; rewrite Heq in H1; set_solver).
        split; [by apply Hhh|]. intros h' Hh'. by apply H3, Hhh.
    + destruct (find_handle is_available p _) as [h|] eqn:E2; [|exact H2].
      destruct H2 as [H2 H3]. split; [done|]. intros _. by rewrite decide_True.
  - destruct (select_list_strategies (available p) p Hav Hs) as (h & -> & Hh). split; [done|]. done.
Qed.

(** [n] selections in a row. *)
Fixpoint select_times (n : nat) (p : UpstreamPool) : list (option Handle) :=
  match n with
  | O => []
  | S n => let '(h, p) := select p in h :: select_times n p
  end.

(** A strategy that reads the counter and moves it by one. *)
Lemma select_times_counter (pick : Z -> option Handle) av n : forall p,
  (forall p', available p' = av -> strategy p' = strategy p -> upstreams p' = upstreams p ->
     select p' = (pick (current_index p'), snd (next_index p'))) ->
  available p = av -> 0 <= current_index p -> current_index p + Z.of_nat n <= 2 ^ 64 ->
  select_times n p = map (fun i => pick (current_index p + Z.of_nat i)) (seq 0 n).
Proof.
  induction n as [|n IH]; intros p Hsel Hav Hc Hn; [done|].
  simpl select_times. rewrite Hsel by done. simpl. rewrite Z.add_0_r. f_equal.
  destruct n as [|n]; [done|].
  assert (wrap 64 (current_index p + 1) = current_index p + 1) as Hw
    by (apply wrap_small; unfold in_u, u_max; lia).
  rewrite IH.
  - simpl current_index. rewrite Hw, <- seq_shift, map_map. apply map_ext. intros i.
    f_equal. lia.
  - intros p' H1 H2 H3. by apply Hsel.
  - done.
  - simpl. rewrite Hw. lia.
  - simpl. rewrite Hw. lia.
Qed.

(** Round robin is fair: as many selections as there are available upstreams
    return each of them once (while the counter does not wrap). *)
Theorem round_robin_fair p :
  strategy p = RoundRobin -> available p <> [] -> 0 <= current_index p ->
  current_index p + zlen (available p) <= 2 ^ 64 ->
  select_times (length (available p)) p ≡ₚ map Some (available p).
Proof.
  intros Hs Hav H0 Hc.
  rewrite (select_times_counter (fun i => available p !! Z.to_nat (i mod zlen (available p))) (available p)).
  - apply (cyclic_read (available p)). done.
  - intros p' H1 H2 H3. unfold select, select_from_available. rewrite H1, H2, Hs.
    destruct (available p) eqn:E; [done|]. rewrite <- E in *. unfold select_round_robin. by rewrite E.
  - done.
  - done.
  - exact Hc.
Qed.

(** ** Weighted round robin *)

Definition weight_sum (p : UpstreamPool) (av : list Handle) : Z :=
  foldr (fun h acc => weight_of p h + acc) 0 av.

(** Each handle as often as its weight says. *)
Definition expand (p : UpstreamPool) (av : list Handle) : list Handle :=
  flat_map (fun h => replicate (Z.to_nat (weight_of p h)) h) av.

Definition weights_ok (p : UpstreamPool) (av : list Handle) : Prop :=
  Forall (fun h => 0 <= weight_of p h) av.

Lemma weight_sum_nonneg p av : weights_ok p av -> 0 <= weight_sum p av.
Proof. induction 1; simpl; lia. Qed.

Lemma length_expand p av : weights_ok p av -> Z.of_nat (length (expand p av)) = weight_sum p av.
Proof.
  induction 1 as [|h av Hh _ IH]; simpl; [done|]. unfold expand in *. simpl.
  rewrite length_app, length_replicate. lia.
Qed.

Lemma total_weight_sum p av : weights_ok p av -> weight_sum p av <= u_max 32 ->
  total_weight p av = weight_sum p av.
Proof.
  intros Hok Hsum. unfold total_weight.
  cut (forall acc, 0 <= acc -> acc + weight_sum p av <= u_max 32 ->
         foldl (fun acc h => sat_add 32 acc (weight_of p h)) acc av = acc + weight_sum p av).
  { intros Hcut. rewrite Hcut; lia. }
  clear Hsum. induction Hok as [|h av Hh Hok IH]; intros acc Ha Hs; simpl in *; [lia|].
  pose proof (weight_sum_nonneg _ _ Hok).
  unfold sat_add at 2. rewrite Z.min_l by lia. rewrite IH; lia.
Qed.

Lemma weighted_pick_expand p index : forall av acc,
  weights_ok p av -> 0 <= acc <= index -> acc + weight_sum p av <= u_max 32 ->
  weighted_pick p index acc av = expand p av !! Z.to_nat (index - acc).
Proof.
  induction av as [|h av IH]; intros acc Hok Ha Hs; simpl in *; [done|].
  apply Forall_cons in Hok as [Hh Hok]. pose proof (weight_sum_nonneg _ _ Hok).
  unfold sat_add. rewrite Z.min_l by lia. destruct (index <? _) eqn:E; reflect_Z.
  - rewrite lookup_app_l by (rewrite length_replicate; lia).
    symmetry. apply lookup_replicate. split; [done|lia].
  - rewrite IH by (done || lia). rewrite lookup_app_r by (rewrite length_replicate; lia).
    rewrite length_replicate. f_equal. lia.
Qed.

Lemma weighted_pick_ext p p' index l : (forall h, weight_of p' h = weight_of p h) ->
  forall acc, weighted_pick p' index acc l = weighted_pick p index acc l.
Proof. intros Hw. induction l as [|h l IH]; intros acc; simpl; [done|]. by rewrite Hw, IH. Qed.

Lemma total_weight_ext p p' l : (forall h, weight_of p' h = weight_of p h) ->
  total_weight p' l = total_weight p l.
Proof.
  intros Hw. unfold total_weight. generalize 0.
  induction l as [|h l IH]; intros acc; simpl; [done|]. by rewrite Hw, IH.
Qed.

(** Weighted round robin is fair: as many selections as the weights of the
    available upstreams add up to return each upstream as often as its weight says
    (the weights add up to a [u32], not zero, and the counter does not wrap at 32
    bits on the way). *)
Theorem weighted_fair p :
  strategy p = Weighted -> weights_ok p (available p) ->
  let total := weight_sum p (available p) in
  0 < total <= u_max 32 -> 0 <= current_index p -> current_index p + total <= 2 ^ 64 ->
  wrap 32 (current_index p) + total <= 2 ^ 32 ->
  select_times (Z.to_nat total) p ≡ₚ map Some (expand p (available p)).
Proof.
  intros Hs Hok total Ht H0 Hc Hw. set (av := available p) in *.
  assert (Hlen : zlen (expand p av) = total) by (by apply length_expand).
  assert (Hne : av <> []) by (intros E; unfold total in Ht; rewrite E in Ht; simpl in Ht; lia).
  set (pick := fun c => match weighted_pick p (wrap 32 c mod total) 0 av with
                        | Some h => Some h | None => last av end).
  rewrite (select_times_counter pick av).
  - rewrite <- (cyclic_read (expand p av) (wrap 32 (current_index p))).
    2:{ intros E. rewrite E in Hlen. unfold zlen in Hlen. simpl in Hlen. lia. }
    rewrite Hlen. assert (length (expand p av) = Z.to_nat total) as -> by (unfold zlen in Hlen; lia).
    cut (forall i, i ∈ seq 0 (Z.to_nat total) -> pick (current_index p + Z.of_nat i) =
           expand p av !! Z.to_nat ((wrap 32 (current_index p) + Z.of_nat i) mod total)).
    { intros Hi. erewrite map_ext_in; [done|]. intros i Hin. apply Hi. by apply list_elem_of_In. }
    intros i Hi%elem_of_seq. unfold pick. rewrite <- (wrap_add_l 32 (current_index p)).
    rewrite (wrap_small 32 (_ + _)).
    2:{ pose proof (wrap_range 32 (current_index p)). unfold in_u, u_max. lia. }
    set (j := (wrap 32 (current_index p) + Z.of_nat i) mod total).
    assert (0 <= j < total) by (apply Z.mod_pos_bound; lia).
    rewrite weighted_pick_expand by (done || (fold total; lia)). rewrite Z.sub_0_r.
    destruct (expand p av !! Z.to_nat j) eqn:E; [done|].
    apply lookup_ge_None in E. unfold zlen in Hlen. lia.
  - intros p' H1 H2 H3. unfold select, select_from_available. rewrite H1, H2, Hs. unfold select_weighted.
    assert (forall h, weight_of p' h = weight_of p h) as Hwt by (intros h; unfold weight_of; by rewrite H3).
    assert (total_weight p' av = total) as Htw.
    { transitivity (total_weight p av); [|apply total_weight_sum; [done|fold total; lia]].
      by apply total_weight_ext. }
    destruct av as [|a av'] eqn:E; [done|]. rewrite <- E in *. rewrite Htw.
    destruct (total =? 0) eqn:Ez; reflect_Z; [lia|]. cbn [next_index snd]. f_equal.
    unfold pick. rewrite (weighted_pick_ext p); [by rewrite E|exact Hwt].
  - done.
  - done.
  - lia.
Qed.

(** ** Queries *)

Definition answered `{Backend} (req : QueryRequest) (n : nat) (h : Handle) : result QueryResponse UpstreamError :=
  query_pooled (bk_conn n h) (bk_query n h req).

Lemma id_of_update h f p h' : (forall u, pu_id (f u) = pu_id u) -> id_of (update_upstream h f p) h' = id_of p h'.
Proof.
  intros Hf. unfold id_of. simpl. rewrite list_lookup_alter. case_decide; [|done]. subst.
  destruct (upstreams p !! h'); simpl; [apply Hf|done].
Qed.

Lemma attempt_spec `{Backend} req h w r w' :
  attempt req h w = (r, w') ->
  w_calls w' = S (w_calls w) /\ (forall h', id_of (w_pool w') h' = id_of (w_pool w) h') /\
  match answered req (w_calls w) h with
  | Ok raw => r = Ok (tag_results (id_of (w_pool w) h) raw)
  | Err e => r = Err e
  end.
Proof.
  unfold attempt, call_pooled. fold (answered req (w_calls w) h).
  destruct (answered req (w_calls w) h); intros [= <- <-]; simpl; split_and!; try done;
    intros h'; by apply id_of_update.
Qed.

Lemma try_all_spec `{Backend} req cs : forall w r w',
  try_all req cs w = (r, w') ->
  match r with
  | Ok resp => exists n h raw, h ∈ cs /\ (w_calls w <= n < w_calls w')%nat /\
      answered req n h = Ok raw /\ resp = tag_results (id_of (w_pool w) h) raw
  | Err _ => forall i h, cs !! i = Some h -> is_ok (answered req (w_calls w + i) h) = false
  end /\ (w_calls w' <= w_calls w + length cs)%nat /\
  (is_ok r = false -> w_calls w' = (w_calls w + length cs)%nat).
Proof.
  induction cs as [|h cs IH]; intros w r w'; simpl.
  - intros [= <- <-]. split_and!; [done|lia|intros; lia].
  - destruct (attempt req h w) as [r1 w1] eqn:E. apply attempt_spec in E as (Hc & Hid & Ha).
    destruct (answered req (w_calls w) h) as [raw|e] eqn:Ea; subst r1.
    + intros [= <- <-]. split_and!; [|lia|done]. exists (w_calls w), h, raw. split_and!; [set_solver|lia|lia|done|done].
    + intros (H1 & H2 & H3)%IH. rewrite Hc in *. split_and!; [|lia|intros; specialize (H3 ltac:(done)); lia].
      destruct r as [resp|e'].
      * destruct H1 as (n & h' & raw & Hh & Hn & Hr & ->). exists n, h', raw.
        split_and!; [set_solver|lia|lia|done|by rewrite Hid].
      * intros [|i] h'; simpl; [intros [= <-]; by rewrite Nat.add_0_r, Ea|].
        intros Hi%H1. by rewrite Nat.add_succ_r.
Qed.

Lemma failover_available p h : pool_wf p -> fst (select_failover p) = Some h -> h ∈ available p.
Proof.
  intros Hwf. unfold select_failover. simpl.
  pose proof (find_handle_best is_available p Hwf) as H2.
  pose proof (find_handle_best (fun u => is_available u && is_healthy u) p Hwf) as H1.
  destruct (find_handle (fun u => is_available u && is_healthy u) p _) as [h1|].
  - intros [= <-]. destruct H1 as [(u & Hu & [Hf' _]%andb_true_iff)%handles_where_elem _].
    apply handles_where_elem. eauto.
  - intros Hf. rewrite Hf in H2. by destruct H2.
Qed.

Lemma select_candidates p h : pool_wf p ->
  fst (select_from_available (candidates p) p) = Some h -> h ∈ candidates p.
Proof.
  intros Hwf. destruct (decide (candidates p = [])) as [->|Hc]; [done|].
  destruct (decide (strategy p = Failover)) as [Hs|Hs].
  - assert (select_from_available (candidates p) p = select_failover p) as ->
      by (unfold select_from_available; destruct (candidates p); [done|by rewrite Hs]).
    intros Hf%failover_available; [|done]. unfold candidates. destruct (available p); [set_solver|done].
  - destruct (select_list_strategies _ p Hc Hs) as (h' & -> & Hh'). by intros [= <-].
Qed.

Lemma select_keeps av p h' : id_of (snd (select_from_available av p)) h' = id_of p h'.
Proof.
  unfold select_from_available, select_weighted, select_round_robin, select_random, next_index.
  destruct av; [done|]. destruct (strategy p); try done. destruct (_ =? 0); done.
Qed.

(** C25: a query without a target upstream fails only after every candidate has
    been asked and has failed; when it succeeds, the response is one a candidate
    gave, its results marked with that candidate's name.  At most one call more than
    there are candidates is made, and exactly so many when all fail: the primary is
    asked twice. *)
Theorem pool_query_failover `{Backend} req w r w' :
  pool_wf (w_pool w) -> candidates (w_pool w) <> [] -> rq_upstream_id req = None ->
  pool_query req w = (r, w') ->
  let cs := candidates (w_pool w) in
  match r with
  | Ok resp => exists n h raw, h ∈ cs /\ (w_calls w <= n < w_calls w')%nat /\
      answered req n h = Ok raw /\ resp = tag_results (id_of (w_pool w) h) raw
  | Err _ => forall h, h ∈ cs -> exists n, (w_calls w <= n < w_calls w')%nat /\ is_ok (answered req n h) = false
  end /\
  (w_calls w' <= w_calls w + length cs + 1)%nat /\
  (is_ok r = false -> (2 <= length cs)%nat -> is_Some (fst (select_from_available cs (w_pool w))) ->
   w_calls w' = (w_calls w + length cs + 1)%nat).
Proof.
  intros Hwf Hne Hid. unfold pool_query. rewrite Hid.
  assert (match candidates (w_pool w) with
          | [] => (Err (Unavailable (lit "No upstreams configured")), w)
          | cs => query_selected req cs w
          end = query_selected req (candidates (w_pool w)) w) as ->
    by (by destruct (candidates (w_pool w))).
  unfold query_selected.
  pose proof (select_candidates (w_pool w)) as Hsel.
  pose proof (select_keeps (candidates (w_pool w)) (w_pool w)) as Hkeep.
  destruct (select_from_available (candidates (w_pool w)) (w_pool w)) as [primary p] eqn:Es. simpl in Hsel, Hkeep.
  set (cs := candidates (w_pool w)) in *. destruct primary as [h|].
  - specialize (Hsel h Hwf eq_refl).
    destruct (attempt req h _) as [r1 w1] eqn:E. apply attempt_spec in E as (Hc & Hid1 & Ha). simpl in *.
    destruct (answered req (w_calls w) h) as [raw|e] eqn:Ea; subst r1.
    + intros [= <- <-]. split_and!; [|lia|done]. exists (w_calls w), h, raw.
      split_and!; [done|lia|lia|done|by rewrite Hkeep].
    + destruct (length cs =? 1)%nat eqn:El.
      * apply Nat.eqb_eq in El. intros [= <- <-]. split_and!; [|lia|lia].
        intros h' Hh'. destruct cs as [|x [|]]; try done.
        apply list_elem_of_singleton in Hh' as ->. apply list_elem_of_singleton in Hsel as ->.
        exists (w_calls w). split; [lia|]. by rewrite Ea.
      * intros (H1 & H2 & H3)%try_all_spec. rewrite Hc in *.
        split_and!; [|lia|intros Hr _ _; specialize (H3 Hr); lia].
        destruct r as [resp|e'].
        -- destruct H1 as (n & h' & raw & Hh & Hn & Hr & ->). exists n, h', raw.
           split_and!; [done|lia|lia|done|by rewrite Hid1, Hkeep].
        -- intros h' [i Hi]%list_elem_of_lookup. exists (S (w_calls w) + i)%nat.
           specialize (H3 eq_refl). apply lookup_lt_Some in Hi as ?. split; [lia|]. by apply H1.
  - intros (H1 & H2 & H3)%try_all_spec. simpl in *. split_and!; [|lia|by intros _ _ []].
    destruct r as [resp|e'].
    + destruct H1 as (n & h' & raw & Hh & Hn & Hr & ->). exists n, h', raw.
      split_and!; [done|lia|lia|done|by rewrite Hkeep].
    + intros h' [i Hi]%list_elem_of_lookup. exists (w_calls w + i)%nat.
      specialize (H3 eq_refl). apply lookup_lt_Some in Hi as ?. split; [lia|]. by apply H1.
Qed.

(** A query with a target upstream that the pool knows is sent to that
    upstream alone: one call, no failover, and the upstream's own error. *)
Theorem pool_query_targeted `{Backend} req w id h r w' :
  rq_upstream_id req = Some id -> pool_get (w_pool w) id = Some h ->
  pool_query req w = (r, w') ->
  w_calls w' = S (w_calls w) /\
  r = match answered req (w_calls w) h with
      | Ok raw => Ok (tag_results (id_of (w_pool w) h) raw)
      | Err e => Err e
      end.
Proof.
  intros Hid Hget. unfold pool_query. rewrite Hid, Hget.
  destruct (candidates (w_pool w)) as [|c cs] eqn:E.
  - exfalso. unfold candidates in E. destruct (available (w_pool w)); [|done]. unfold all in E.
    unfold pool_get in Hget. destruct (by_id _ !! id); [|done]. case_decide; [|done].
    destruct (length (upstreams (w_pool w))); [lia|done].
  - intros (H1 & _ & H3)%attempt_spec. split; [done|]. by destruct (answered req (w_calls w) h).
Qed.

(** ** A concrete pool *)

Definition demo_upstream (id : string) (weight priority : Z) (t : UpstreamType) : PooledUpstream :=
  {| pu_id := lit id; pu_mode := 0; pu_health := HealthTracker_new;
     connection_pool := {| permits := 100; waiting := []; cp_config := ConnectionPoolConfig_default;
                           cp_stats := stats_zero |};
     pu_weight := weight; pu_priority := priority; requests := 0; failures := 0; enabled := true;
     pu_type := type_to_u8 t |}.

Definition demo_up_pool (st : LoadBalanceStrategy) : UpstreamPool :=
  pool_of [demo_upstream "a" 2 1 FullTextSearch; demo_upstream "b" 1 0 VectorDatabase] st.

Definition demo_answer : QueryResponse :=
  {| results := [{| sr_id := lit "1"; score := F32.of_Z 1; content := lit "x"; metadata := None;
                    sr_upstream_id := None |}];
     cache_status := Miss; took_ms := 1; generated_at := None; miss_reason := None |}.

(** The first upstream always fails, the second answers. *)
Definition DemoBackend : Backend :=
  {| bk_conn := fun _ _ => Ok tt;
     bk_query := fun _ h _ => if (h =? 0)%nat then Err Timeout else Ok demo_answer;
     bk_query_vector := fun _ _ _ _ => Err Timeout;
     bk_discover := fun _ _ => Err Timeout;
     bk_wall := fun _ => 0 |}.

Definition demo_request (target : option str) : QueryRequest :=
  {| query := lit "q"; top_k := None; rq_priority := None; rq_upstream_id := target; upstream_type := None |}.
Definition demo_world : World := {| w_pool := demo_up_pool RoundRobin; w_calls := 0 |}.

Lemma select_available_witness : fst (select (demo_up_pool Failover)) = Some 1%nat.
Proof.
  pose proof (select_available (demo_up_pool Failover) (pool_of_wf _ _)) as H.
  vm_compute in H. destruct H as [H _]. reflexivity.
Defined.

Lemma round_robin_fair_witness :
  select_times 2 (demo_up_pool RoundRobin) ≡ₚ [Some 0%nat; Some 1%nat].
Proof.
  apply (round_robin_fair (demo_up_pool RoundRobin)); [reflexivity|discriminate|simpl; lia|].
  vm_compute. discriminate.
Defined.

Lemma weighted_fair_witness :
  select_times 3 (demo_up_pool Weighted) ≡ₚ [Some 0%nat; Some 0%nat; Some 1%nat].
Proof.
  apply (weighted_fair (demo_up_pool Weighted)); [reflexivity| | | | |].
  - repeat constructor; vm_compute; discriminate.
  - vm_compute. split; [reflexivity|discriminate].
  - vm_compute. discriminate.
  - vm_compute. discriminate.
  - vm_compute. discriminate.
Defined.

Lemma pool_query_failover_witness :
  match fst (@pool_query DemoBackend (demo_request None) demo_world) with
  | Ok resp => exists n h raw, h ∈ candidates (w_pool demo_world) /\ (0 <= n < 3)%nat /\
      @answered DemoBackend (demo_request None) n h = Ok raw /\
      resp = tag_results (id_of (w_pool demo_world) h) raw
  | Err _ => False
  end.
Proof.
  destruct (@pool_query DemoBackend (demo_request None) demo_world) as [r w'] eqn:E.
  pose proof (@pool_query_failover DemoBackend (demo_request None) demo_world r w'
    (pool_of_wf _ _) ltac:(discriminate) eq_refl E) as [H _].
  vm_compute in E. injection E as <- <-. exact H.
Defined.

Lemma pool_query_targeted_witness :
  fst (@pool_query DemoBackend (demo_request (Some (lit "a"))) demo_world) = Err Timeout.
Proof.
  destruct (@pool_query DemoBackend (demo_request (Some (lit "a"))) demo_world) as [r w'] eqn:E.
  destruct (@pool_query_targeted DemoBackend (demo_request (Some (lit "a"))) demo_world (lit "a") 0%nat r w'
    eq_refl eq_refl E) as [_ H]. exact H.
Defined.

(** [select_failover] ignores the list it is given, so that a selection by
    predicate may return an upstream that does not satisfy it. *)
Lemma failover_ignores_predicate :
  fst (select_where (fun u => is_fts (pu_upstream_type u)) (demo_up_pool Failover)) = Some 1%nat /\
  is_fts (pu_upstream_type (demo_upstream "b" 1 0 VectorDatabase)) = false.
Proof. split; reflexivity. Qed.
