(* ===== verification/Cascade.v ===== *)
(** * Cascaded queries (src/src/proxy/cascade.rs)

    Upstreams are asked in priority order until one answers well enough; upstreams
    of equal priority may be asked together and their results fused.  Time is a
    sequence of readings of the monotonic clock ([Clocked]): the code's reads of
    [Instant::now] and [elapsed] take the readings in order.  The embedder, the
    order in which parallel tasks end and the order in which a hash map lists its
    values are parameters. *)

From Stdlib Require Import SpecFloat.
From S2P Require Import Prelude Floats Text Types Retry ConnPool Upstream Pool.
Open Scope Z_scope.
Open Scope conproxy_scope.

(** ** Configuration and results *)

Inductive FusionMethod := NoFusion | Rrf.
#[export] Instance FusionMethod_eq_dec : EqDecision FusionMethod.
Proof. solve_decision. Defined.

Record CascadeConfig := {
  cc_enabled : bool;
  min_score_threshold : f32;
  min_results : Z;
  max_cascade_depth : Z;
  merge_cascade_results : bool;
  cascade_timeout_ms : Z;
  fusion_method : FusionMethod;
  rrf_k : Z
}.

Definition CascadeConfig_default : CascadeConfig :=
  {| cc_enabled := true; min_score_threshold := F32.lit 7 10; min_results := 1; max_cascade_depth := 3;
     merge_cascade_results := false; cascade_timeout_ms := 30000; fusion_method := NoFusion; rrf_k := 60 |}.

Definition cascade_timeout (c : CascadeConfig) : Z := from_millis (cascade_timeout_ms c).

Inductive CascadeStopReason :=
| ThresholdMet | MinResultsMet | MaxDepthReached | AllExhausted | StopTimeout | Disabled | NoUpstreams.
#[export] Instance CascadeStopReason_eq_dec : EqDecision CascadeStopReason.
Proof. solve_decision. Defined.

Record UpstreamScore := {
  us_upstream_id : str;
  us_upstream_type : UpstreamType;
  us_query_mode : QueryMode;
  us_max_score : f32;
  normalized_score : f32;
  result_count : Z;
  latency_ms : Z;
  met_threshold : bool;
  us_error : option str
}.

Record CascadeResult := {
  cr_results : list SearchResult;
  upstreams_tried : list str;
  final_upstream : option str;
  stop_reason : CascadeStopReason;
  upstream_scores : list UpstreamScore;
  cascade_time_ms : Z;
  cascade_depth : Z
}.

Definition cascade_is_success (r : CascadeResult) : bool :=
  match stop_reason r with ThresholdMet | MinResultsMet => true | _ => false end.

(** [Display] of an upstream error. *)
Definition display_upstream_error (e : UpstreamError) : str :=
  match e with
  | Network msg => lit "Network error: " ++ msg
  | Status code msg => lit "Upstream error " ++ show_Z code ++ lit ": " ++ msg
  | Parse msg => lit "Parse error: " ++ msg
  | Timeout => lit "Request timed out"
  | NotConfigured => lit "Upstream not configured"
  | Unavailable msg => lit "Upstream unavailable: " ++ msg
  | UnsupportedQueryType msg => lit "Query type not supported: " ++ msg
  | EmbeddingRequired msg => lit "Embedding required but not available: " ++ msg
  | EmbeddingFailed msg => lit "Embedding failed: " ++ msg
  end.

(** [iter().max_by(partial_cmp or Equal)]: of equals, the last. *)
Definition max_by (x y : f32) : f32 := match cmp_or_eq x y with Gt => x | _ => y end.
Definition max_score_of (rs : list SearchResult) : option f32 :=
  match map score rs with [] => None | x :: xs => Some (foldl max_by x xs) end.
Definition max_score (r : CascadeResult) : option f32 := max_score_of (cr_results r).

Definition normalize_score (s : f32) (t : UpstreamType) : f32 :=
  let '(lo, hi) := score_range t in
  let one := F32.of_Z 1 in
  if f_le hi lo then f_clamp s f_zero one
  else f_clamp (F32.div (F32.sub s lo) (F32.sub hi lo)) f_zero one.

(** Does an answer meet the thresholds? *)
Definition meets (c : CascadeConfig) (normalized : f32) (n : Z) : bool :=
  f_ge normalized (min_score_threshold c) && (min_results c <=? n).

(** ** Reciprocal rank fusion *)

Record Accum := { rrf_score : f32; best_result : SearchResult }.

Section Rrf.
Context `{Externals}.

(** The order in which the hash map yields its values. *)
Variable values_order : gmap QueryHash Accum -> list Accum.

Definition rrf_key (r : SearchResult) : QueryHash := blake3_hash (as_bytes (content r)).
Definition rrf_term (k rank : Z) : f32 :=
  F32.div (F32.of_Z 1) (F32.add (F32.add (F32.of_Z k) (F32.of_Z rank)) (F32.of_Z 1)).

Definition rrf_add (k : Z) (rank : Z) (r : SearchResult) (m : gmap QueryHash Accum) : gmap QueryHash Accum :=
  let rrf := rrf_term k rank in
  <[rrf_key r :=
      match m !! rrf_key r with
      | Some a => {| rrf_score := F32.add (rrf_score a) rrf;
                     best_result := if f_gt (score r) (score (best_result a)) then r else best_result a |}
      | None => {| rrf_score := rrf; best_result := r |}
      end]> m.

Fixpoint rrf_list (k rank : Z) (rs : list SearchResult) (m : gmap QueryHash Accum) : gmap QueryHash Accum :=
  match rs with
  | [] => m
  | r :: rs => rrf_list k (rank + 1) rs (rrf_add k rank r m)
  end.

Definition rrf_table (k : Z) (lists : list (str * list SearchResult)) : gmap QueryHash Accum :=
  foldl (fun m l => rrf_list k 0 (snd l) m) ∅ lists.

Definition fuse_rrf (lists : list (str * list SearchResult)) (k max_results : Z) : list SearchResult :=
  let merged := map (fun a => (rrf_score a, best_result a)) (values_order (rrf_table k lists)) in
  let merged := sort_by (fun a b => score_desc_le a.1 b.1) merged in
  map snd (take (Z.to_nat max_results) merged).
End Rrf.

(** ** Order of the cascade *)

(** Insertion into the B-tree map from priorities to groups. *)
Fixpoint group_insert (prio : Z) (h : Handle) (gs : list (Z * list Handle)) : list (Z * list Handle) :=
  match gs with
  | [] => [(prio, [h])]
  | (q, g) :: gs' =>
      if prio <? q then (prio, [h]) :: gs
      else if prio =? q then (q, g ++ [h]) :: gs'
      else (q, g) :: group_insert prio h gs'
  end.

Definition group_by_priority (us : list PooledUpstream) (hs : list Handle) : list (list Handle) :=
  map snd (foldl (fun gs h => group_insert (prio us h) h gs) [] hs).

Definition cascade_order (p : UpstreamPool) : list Handle :=
  sort_by (prio_le (upstreams p)) (match available p with [] => all p | av => av end).

(** [(!(type_match || id_match) as u32, priority)], compared lexicographically. *)
Definition pref_key `{UnicodeCase} (pref : str) (us : list PooledUpstream) (h : Handle) : Z * Z :=
  match us !! h with
  | Some u =>
      let type_match := contains_str (to_ascii_lowercase (type_as_str (pu_upstream_type u))) pref in
      let id_match := contains_str (to_ascii_lowercase (pu_id u)) pref in
      (if type_match || id_match then 0 else 1, pu_priority u)
  | None => (1, 0)
  end.
Definition key_le (a b : Z * Z) : bool := (a.1 <? b.1) || ((a.1 =? b.1) && (a.2 <=? b.2)).

Definition cascade_order_with_preference `{UnicodeCase} (preferred : option str) (p : UpstreamPool)
  : list Handle :=
  match preferred with
  | Some pref =>
      let pref_lower := to_lowercase pref in
      sort_by (fun a b => key_le (pref_key pref_lower (upstreams p) a) (pref_key pref_lower (upstreams p) b))
        (cascade_order p)
  | None => cascade_order p
  end.

(** ** The executor *)

Record CascadeMetrics := {
  cascade_success : Z;
  cascade_exhausted : Z;
  cascade_timeouts : Z;
  cascade_depth_sum : Z;
  cascade_depth_count : Z
}.

Definition metric_depth (depth : Z) (m : CascadeMetrics) : CascadeMetrics :=
  {| cascade_success := cascade_success m; cascade_exhausted := cascade_exhausted m;
     cascade_timeouts := cascade_timeouts m; cascade_depth_sum := wrap 64 (cascade_depth_sum m + depth);
     cascade_depth_count := wrap 64 (cascade_depth_count m + 1) |}.
Definition metric_success (depth : Z) (m : CascadeMetrics) : CascadeMetrics :=
  metric_depth depth
    {| cascade_success := wrap 64 (cascade_success m + 1); cascade_exhausted := cascade_exhausted m;
       cascade_timeouts := cascade_timeouts m; cascade_depth_sum := cascade_depth_sum m;
       cascade_depth_count := cascade_depth_count m |}.
Definition metric_exhausted (m : CascadeMetrics) : CascadeMetrics :=
  {| cascade_success := cascade_success m; cascade_exhausted := wrap 64 (cascade_exhausted m + 1);
     cascade_timeouts := cascade_timeouts m; cascade_depth_sum := cascade_depth_sum m;
     cascade_depth_count := cascade_depth_count m |}.
Definition metric_timeout (m : CascadeMetrics) : CascadeMetrics :=
  {| cascade_success := cascade_success m; cascade_exhausted := cascade_exhausted m;
     cascade_timeouts := wrap 64 (cascade_timeouts m + 1); cascade_depth_sum := cascade_depth_sum m;
     cascade_depth_count := cascade_depth_count m |}.

(** Parameters: the readings of the clock, the embedder of the [embed-api] feature,
    and how the tasks of a parallel group end.  A task is joined with its result or
    with a panic; [te_late] says of a task that is abandoned whether it had run. *)
Class Clocked := { clk : nat -> Z }.
Class Embedding := { embed_api : bool; embedder : option (nat -> str -> result (list f32) str) }.
Record TaskEnd := { te_handle : Handle; te_panicked : bool; te_late : bool }.
Class Scheduler := { completions : nat -> list Handle -> list TaskEnd }.

(** The metrics are optional ([Option<Arc<ProxyMetrics>>]). *)
Record CState := { c_world : World; c_reads : nat; c_metrics : option CascadeMetrics }.

Definition read_clock `{Clocked} (s : CState) : Z * CState :=
  (clk (c_reads s), {| c_world := c_world s; c_reads := S (c_reads s); c_metrics := c_metrics s |}).
Definition with_world (s : CState) (w : World) : CState :=
  {| c_world := w; c_reads := c_reads s; c_metrics := c_metrics s |}.
Definition with_metric (f : CascadeMetrics -> CascadeMetrics) (s : CState) : CState :=
  {| c_world := c_world s; c_reads := c_reads s; c_metrics := f <$> c_metrics s |}.

Definition on_upstream (h : Handle) (f : PooledUpstream -> PooledUpstream) (w : World) : World :=
  {| w_pool := update_upstream h f (w_pool w); w_calls := w_calls w |}.
Definition called (w : World) : World := {| w_pool := w_pool w; w_calls := S (w_calls w) |}.

Definition settle `{Backend} (ok : bool) (h : Handle) (w : World) : World :=
  on_upstream h (if ok then pu_record_success (bk_wall (w_calls w)) else pu_record_failure (bk_wall (w_calls w))) w.

Section Executor.
Context `{Backend} `{Externals} `{UnicodeCase} `{Clocked} `{Embedding} `{Scheduler}.
Context (values_order : gmap QueryHash Accum -> list Accum).
Context (config : CascadeConfig) (request : QueryRequest).

Definition call_vector (h : Handle) (v : list f32) (w : World) : result QueryResponse UpstreamError * World :=
  (query_pooled (bk_conn (w_calls w) h) (bk_query_vector (w_calls w) h request v), called w).

Definition embed_and_query (missing : str) (h : Handle) (w : World) : result QueryResponse UpstreamError * World :=
  match embedder with
  | None => (Err (EmbeddingRequired missing), w)
  | Some e =>
      match e (w_calls w) (query request) with
      | Err m => (Err (EmbeddingFailed m), called w)
      | Ok v => call_vector h v (called w)
      end
  end.

Definition mode_of (w : World) (h : Handle) : QueryMode :=
  match upstreams (w_pool w) !! h with Some u => query_mode u | None => UnknownMode end.
Definition type_of (w : World) (h : Handle) : UpstreamType :=
  match upstreams (w_pool w) !! h with Some u => pu_upstream_type u | None => UnknownType end.

(** Mode-aware dispatch of [query_upstream] and of the tasks of [run_rrf_group];
    the two differ in the messages of a missing embedder. *)
Definition dispatch (missing missing_probed : str) (h : Handle) (w : World)
  : result QueryResponse UpstreamError * World :=
  if negb embed_api then call_pooled request h w
  else match mode_of w h with
       | VectorOnly => embed_and_query missing h w
       | TextNative => call_pooled request h w
       | UnknownMode =>
           match call_pooled request h w with
           | (Ok r, w) => (Ok r, on_upstream h (set_query_mode TextNative) w)
           | (Err e, w) =>
               if indicates_text_not_supported e then
                 match bk_discover (w_calls w) h with
                 | Ok d =>
                     let w := on_upstream h (set_query_mode d) (called w) in
                     if decide (d = VectorOnly) then embed_and_query missing_probed h w else (Err e, w)
                 | Err _ => (Err e, called w)
                 end
               else (Err e, w)
           end
       end.

Definition query_upstream : Handle -> World -> result QueryResponse UpstreamError * World :=
  dispatch (lit "VectorOnly upstream requires proxy-embed feature with embedder configured")
    (lit "VectorOnly upstream requires embedding support").
Definition rrf_query_upstream : Handle -> World -> result QueryResponse UpstreamError * World :=
  dispatch (lit "VectorOnly upstream requires embedder") (lit "VectorOnly upstream requires embedder").

(** The state of the loop over the upstreams, and how a step of it ends. *)
Record Progress := {
  g_tried : list str;
  g_scores : list UpstreamScore;
  g_best : option (str * list SearchResult * f32);
  g_depth : Z
}.
Inductive Flow := Go (g : Progress) (s : CState) | Done (r : CascadeResult) (s : CState).

(** [start.elapsed().as_millis() as u64] at the end. *)
Definition finish (start : Z) (rs : list SearchResult) (final : option str) (why : CascadeStopReason)
    (depth : Z) (g : Progress) (s : CState) : Flow :=
  let '(now, s) := read_clock s in
  Done {| cr_results := rs; upstreams_tried := g_tried g; final_upstream := final; stop_reason := why;
          upstream_scores := g_scores g; cascade_time_ms := as_millis_u64 (elapsed now start);
          cascade_depth := depth |} s.

Definition finish_best (start : Z) (why : CascadeStopReason) (depth : Z) (g : Progress) (s : CState) : Flow :=
  match g_best g with
  | Some (id, rs, _) => finish start rs (Some id) why depth g s
  | None => finish start [] None why depth g s
  end.

(** Keep the better of the best answer so far and a new one. *)
Definition better (best : option (str * list SearchResult * f32)) (id : str) (rs : list SearchResult)
    (normalized : f32) : option (str * list SearchResult * f32) :=
  match best with
  | None => Some (id, rs, normalized)
  | Some (_, _, b) => if f_gt normalized b then Some (id, rs, normalized) else best
  end.

Definition score_record (id : str) (t : UpstreamType) (m : QueryMode) (rs : list SearchResult)
    (latency : Z) (err : option str) : UpstreamScore :=
  let mx := default f_zero (max_score_of rs) in
  let norm := normalize_score mx t in
  {| us_upstream_id := id; us_upstream_type := t; us_query_mode := m; us_max_score := mx;
     normalized_score := norm; result_count := zlen rs; latency_ms := latency;
     met_threshold := meets config norm (zlen rs); us_error := err |}.

Definition error_record (id : str) (t : UpstreamType) (m : QueryMode) (latency : Z) (err : str) : UpstreamScore :=
  {| us_upstream_id := id; us_upstream_type := t; us_query_mode := m; us_max_score := f_zero;
     normalized_score := f_zero; result_count := 0; latency_ms := latency; met_threshold := false;
     us_error := Some err |}.

(** The checks at the top of each group and of each upstream. *)
Definition guard (start : Z) (g : Progress) (s : CState) : Flow :=
  if max_cascade_depth config <=? g_depth g then
    finish_best start MaxDepthReached (g_depth g) g (with_metric (metric_depth (g_depth g)) s)
  else
    let '(now, s) := read_clock s in
    if cascade_timeout config <? elapsed now start then
      finish_best start StopTimeout (g_depth g) g (with_metric metric_timeout s)
    else Go g s.

(** One upstream of the sequential path. *)
Definition ask (start : Z) (h : Handle) (g : Progress) (s : CState) : Flow :=
  let id := id_of (w_pool (c_world s)) h in
  let t := type_of (c_world s) h in
  let m := mode_of (c_world s) h in
  let tried := g_tried g ++ [id] in
  let '(query_start, s) := read_clock s in
  let '(r, w) := query_upstream h (c_world s) in
  let '(now, s) := read_clock (with_world s w) in
  let latency := as_millis_u64 (elapsed now query_start) in
  match r with
  | Ok resp =>
      let rs := results (tag_results id resp) in
      let rec := score_record id t m rs latency None in
      let scores := g_scores g ++ [rec] in
      let s := with_world s (settle true h (c_world s)) in
      if met_threshold rec then
        let depth := g_depth g +! 1 in
        finish start rs (Some id) ThresholdMet depth
          {| g_tried := tried; g_scores := scores; g_best := g_best g; g_depth := g_depth g |}
          (with_metric (metric_success depth) s)
      else
        Go {| g_tried := tried; g_scores := scores;
              g_best := better (g_best g) id rs (normalized_score rec); g_depth := g_depth g + 1 |} s
  | Err e =>
      Go {| g_tried := tried;
            g_scores := g_scores g ++ [error_record id t m latency (display_upstream_error e)];
            g_best := g_best g; g_depth := g_depth g + 1 |}
         (with_world s (settle false h (c_world s)))
  end.

Fixpoint sequential (start : Z) (group : list Handle) (g : Progress) (s : CState) : Flow :=
  match group with
  | [] => Go g s
  | h :: group =>
      match guard start g s with
      | Done r s => Done r s
      | Go g s =>
          match ask start h g s with
          | Done r s => Done r s
          | Go g s => sequential start group g s
          end
      end
  end.

(** *** Parallel groups *)

Record RrfUpstreamResult := {
  rr_uid : str;
  rr_type : UpstreamType;
  rr_mode : QueryMode;
  rr_results : list SearchResult;
  rr_latency_ms : Z;
  rr_error : option str
}.

(** The body of a task. *)
Definition rrf_task (h : Handle) (s : CState) : RrfUpstreamResult * CState :=
  let id := id_of (w_pool (c_world s)) h in
  let t := type_of (c_world s) h in
  let m := mode_of (c_world s) h in
  let '(query_start, s) := read_clock s in
  let '(r, w) := rrf_query_upstream h (c_world s) in
  let '(now, s) := read_clock (with_world s w) in
  let latency := as_millis_u64 (elapsed now query_start) in
  match r with
  | Ok resp =>
      ({| rr_uid := id; rr_type := t; rr_mode := m; rr_results := results (tag_results id resp);
          rr_latency_ms := latency; rr_error := None |}, with_world s (settle true h (c_world s)))
  | Err e =>
      ({| rr_uid := id; rr_type := t; rr_mode := m; rr_results := []; rr_latency_ms := latency;
          rr_error := Some (display_upstream_error e) |}, with_world s (settle false h (c_world s)))
  end.

Record RrfAcc := {
  ra_ids : list str;
  ra_scores : list UpstreamScore;
  ra_lists : list (str * list SearchResult);
  ra_best : f32
}.

Definition rrf_collect (r : RrfUpstreamResult) (a : RrfAcc) : RrfAcc :=
  let rec := score_record (rr_uid r) (rr_type r) (rr_mode r) (rr_results r) (rr_latency_ms r) (rr_error r) in
  match rr_results r with
  | [] => {| ra_ids := ra_ids a ++ [rr_uid r]; ra_scores := ra_scores a ++ [rec]; ra_lists := ra_lists a;
             ra_best := ra_best a |}
  | rs => {| ra_ids := ra_ids a ++ [rr_uid r]; ra_scores := ra_scores a ++ [rec];
             ra_lists := ra_lists a ++ [(rr_uid r, rs)];
             ra_best := if f_gt (normalized_score rec) (ra_best a) then normalized_score rec else ra_best a |}
  end.

(** The tasks that had run when they were abandoned. *)
Definition rrf_late (ts : list TaskEnd) (s : CState) : CState :=
  foldl (fun s t => if te_late t then snd (rrf_task (te_handle t) s) else s) s ts.

(** The loop over [join_next]. *)
Fixpoint rrf_join (start : Z) (ts : list TaskEnd) (a : RrfAcc) (s : CState) : RrfAcc * CState :=
  match ts with
  | [] => (a, s)
  | t :: ts =>
      let '(joined, s) :=
        if te_panicked t then (None, s)
        else let '(r, s) := rrf_task (te_handle t) s in (Some r, s) in
      let '(now, s) := read_clock s in
      if cascade_timeout config <? elapsed now start then (a, rrf_late ts s)
      else match joined with
           | Some r => rrf_join start ts (rrf_collect r a) s
           | None => rrf_join start ts a s
           end
  end.

Record RrfGroupOutcome := {
  fused_results : option (list SearchResult);
  ro_met_threshold : bool;
  best_normalized : f32;
  ro_upstream_ids : list str;
  ro_scores : list UpstreamScore
}.

Definition run_rrf_group (start : Z) (group : list Handle) (s : CState) : RrfGroupOutcome * CState :=
  let '(a, s) := rrf_join start (completions (c_reads s) group)
                   {| ra_ids := []; ra_scores := []; ra_lists := []; ra_best := f_zero |} s in
  match ra_lists a with
  | [] => ({| fused_results := None; ro_met_threshold := false; best_normalized := f_zero;
              ro_upstream_ids := ra_ids a; ro_scores := ra_scores a |}, s)
  | lists =>
      let max_results := Z.max (default 10 (top_k request)) 1 in
      let fused := fuse_rrf values_order lists (rrf_k config) max_results in
      ({| fused_results := Some fused;
          ro_met_threshold := negb (bool_decide (fused = [])) && meets config (ra_best a) (zlen fused);
          best_normalized := ra_best a; ro_upstream_ids := ra_ids a; ro_scores := ra_scores a |}, s)
  end.

Definition ask_group (start : Z) (group : list Handle) (g : Progress) (s : CState) : Flow :=
  let '(o, s) := run_rrf_group start group s in
  let g := {| g_tried := g_tried g ++ ro_upstream_ids o; g_scores := g_scores g ++ ro_scores o;
              g_best := g_best g; g_depth := g_depth g + zlen group |} in
  match fused_results o with
  | Some fused =>
      if ro_met_threshold o then
        finish start fused None ThresholdMet (g_depth g) g (with_metric (metric_success (g_depth g)) s)
      else
        Go {| g_tried := g_tried g; g_scores := g_scores g;
              g_best := better (g_best g) (default [] (head (ro_upstream_ids o))) fused (best_normalized o);
              g_depth := g_depth g |} s
  | None => Go g s
  end.

(** *** The loop over the groups *)

Fixpoint cascade_groups (start : Z) (groups : list (list Handle)) (g : Progress) (s : CState) : Flow :=
  match groups with
  | [] => Go g s
  | group :: groups =>
      match guard start g s with
      | Done r s => Done r s
      | Go g s =>
          let step :=
            if bool_decide (fusion_method config = Rrf) && (2 <=? zlen group)
            then ask_group start group g s else sequential start group g s in
          match step with
          | Done r s => Done r s
          | Go g s => cascade_groups start groups g s
          end
      end
  end.

Definition no_progress : Progress := {| g_tried := []; g_scores := []; g_best := None; g_depth := 0 |}.

(** The result of a step that ended; the loop's own end is [AllExhausted]. *)
Definition cascade_run (start : Z) (groups : list (list Handle)) (s : CState) : Flow :=
  match cascade_groups start groups no_progress s with
  | Done r s => Done r s
  | Go g s =>
      let depth := zlen (g_tried g) in
      finish_best start AllExhausted depth g (with_metric (metric_depth depth) (with_metric metric_exhausted s))
  end.

Definition query_single_targeted (start : Z) (h : Handle) (s : CState) : Flow :=
  let id := id_of (w_pool (c_world s)) h in
  let '(_, s) := read_clock s in
  let '(r, w) := query_upstream h (c_world s) in
  match r with
  | Ok resp =>
      finish start (results (tag_results id resp)) (Some id) ThresholdMet 1
        {| g_tried := [id]; g_scores := []; g_best := None; g_depth := 0 |}
        (with_world s (settle true h w))
  | Err e =>
      let '(_, s) := read_clock s in
      finish start [] None AllExhausted 1
        {| g_tried := [id]; g_scores := []; g_best := None; g_depth := 0 |}
        (with_world s (settle false h w))
  end.

Definition cascade_all (start : Z) (s : CState) : Flow :=
  match cascade_order_with_preference (upstream_type request) (w_pool (c_world s)) with
  | [] => finish start [] None NoUpstreams 0 no_progress s
  | hs => cascade_run start (group_by_priority (upstreams (w_pool (c_world s))) hs) s
  end.

Definition cascade_query (s : CState) : Flow :=
  let '(start, s) := read_clock s in
  if negb (cc_enabled config) then finish start [] None Disabled 0 no_progress s
  else match and_then (rq_upstream_id request) (pool_get (w_pool (c_world s))) with
       | Some h =>
           match query_single_targeted start h s with
           | Done r s => if negb (bool_decide (cr_results r = [])) then Done r s else cascade_all start s
           | Go g s => Go g s
           end
       | None => cascade_all start s
       end.
End Executor.
