(* ===== verification/CascadeProps.v ===== *)
(** * Properties of cascaded queries

    The sequential cascade: order, depth, where it stops and what it returns.
    Fusion: what survives and with which score. *)

From Stdlib Require Import SpecFloat.
From S2P Require Import Prelude Floats Text Types Retry ConnPool Upstream Pool PoolProps Cascade.
Open Scope Z_scope.
Open Scope conproxy_scope.

(** ** Priority groups *)

Definition with_prio (us : list PooledUpstream) (q : Z) (hs : list Handle) : list Handle :=
  List.filter (fun h => prio us h =? q) hs.

(** The groups that have been built from [hs]: one per priority, in order. *)
Definition groups_of (us : list PooledUpstream) (hs : list Handle) (gs : list (Z * list Handle)) : Prop :=
  StronglySorted Z.lt (map fst gs) /\
  (forall q, q ∈ map fst gs <-> q ∈ map (prio us) hs) /\
  Forall (fun g => g.2 = with_prio us g.1 hs) gs.

Lemma group_insert_keys q h gs q' : q' ∈ map fst (group_insert q h gs) <-> q' = q \/ q' ∈ map fst gs.
Proof.
  induction gs as [|[p g] gs IH]; simpl; [set_solver|].
  destruct (q <? p); [simpl; set_solver|]. destruct (q =? p) eqn:E; reflect_Z; simpl; [set_solver|].
  set_solver.
Qed.

Lemma group_insert_sorted q h gs :
  StronglySorted Z.lt (map fst gs) -> StronglySorted Z.lt (map fst (group_insert q h gs)).
Proof.
  induction gs as [|[p g] gs IH]; simpl; intros Hs; [repeat constructor|].
  apply StronglySorted_inv in Hs as [Hs Hp]. destruct (q <? p) eqn:E; reflect_Z; simpl.
  - constructor; [by constructor|]. constructor; [done|].
    eapply Forall_impl; [exact Hp|]. simpl. lia.
  - destruct (q =? p) eqn:E'; reflect_Z; simpl; constructor; auto.
    apply Forall_forall. intros x Hx%group_insert_keys. rewrite Forall_forall in Hp.
    destruct Hx as [->|Hx]; [lia|by apply Hp].
Qed.

Lemma with_prio_snoc us q hs h :
  with_prio us q (hs ++ [h]) = with_prio us q hs ++ (if prio us h =? q then [h] else []).
Proof. unfold with_prio. rewrite List.filter_app. simpl. by destruct (prio us h =? q). Qed.

Lemma with_prio_none us q hs : q ∉ map (prio us) hs -> with_prio us q hs = [].
Proof.
  unfold with_prio. induction hs as [|h hs IH]; simpl; [done|]. intros Hq.
  destruct (prio us h =? q) eqn:E; reflect_Z; set_solver.
Qed.

Lemma group_insert_entries us hs h gs :
  groups_of us hs gs ->
  Forall (fun g => g.2 = with_prio us g.1 (hs ++ [h])) (group_insert (prio us h) h gs).
Proof.
  intros (Hs & Hk & Hf). set (q := prio us h).
  assert (Hother : forall g, g.1 <> q -> g.2 = with_prio us g.1 hs -> g.2 = with_prio us g.1 (hs ++ [h])).
  { intros g Hne Hg. rewrite with_prio_snoc. fold q.
    rewrite (proj2 (Z.eqb_neq q g.1)) by congruence. by rewrite app_nil_r. }
  assert (Hnew : q ∉ map fst gs -> with_prio us q (hs ++ [h]) = [h]).
  { intros Hq. rewrite with_prio_snoc. fold q. rewrite Z.eqb_refl.
    rewrite with_prio_none; [done|]. by rewrite <- Hk. }
  clear Hk. induction gs as [|[p g] gs IH]; simpl.
  - constructor; [|done]. simpl. symmetry. apply Hnew. set_solver.
  - apply Forall_cons in Hf as [Hg Hf]. simpl in Hs. apply StronglySorted_inv in Hs as [Hs Hp].
    rewrite Forall_forall in Hp. destruct (q <? p) eqn:E; reflect_Z.
    + assert (q ∉ p :: map fst gs) as Hq by (intros [->|Hq%Hp]%elem_of_cons; lia).
      constructor; [symmetry; by apply Hnew|]. constructor; [apply Hother; [simpl; lia|done]|].
      rewrite Forall_forall in *. intros g' Hg'. apply Hother; [|by apply Hf].
      assert (g'.1 ∈ map fst gs) as ?%Hp by (apply list_elem_of_fmap; eauto). lia.
    + destruct (q =? p) eqn:E'; reflect_Z.
      * subst p. constructor.
        -- simpl in *. rewrite with_prio_snoc. fold q. rewrite Z.eqb_refl. by rewrite Hg.
        -- rewrite Forall_forall in *. intros g' Hg'. apply Hother; [|by apply Hf].
           assert (g'.1 ∈ map fst gs) as ?%Hp by (apply list_elem_of_fmap; eauto). lia.
      * constructor; [by apply Hother|]. apply IH; [done|done|].
        intros Hq. apply Hnew. set_solver.
Qed.

Lemma group_by_priority_spec us hs :
  exists qs, StronglySorted Z.lt qs /\ (forall q, q ∈ qs <-> q ∈ map (prio us) hs) /\
    group_by_priority us hs = map (fun q => with_prio us q hs) qs.
Proof.
  unfold group_by_priority.
  cut (groups_of us hs (foldl (fun gs h => group_insert (prio us h) h gs) [] hs)).
  { intros (Hs & Hk & Hf). eexists. split_and!; [exact Hs|exact Hk|]. rewrite map_map.
    apply map_ext_in. intros g Hg%list_elem_of_In. rewrite Forall_forall in Hf. by apply Hf. }
  induction hs as [|h hs IH] using rev_ind; [repeat split; constructor || done|].
  rewrite foldl_app. simpl. split_and!.
  - apply group_insert_sorted, IH.
  - intros q. rewrite group_insert_keys, map_app, elem_of_app. destruct IH as (_ & -> & _). set_solver.
  - by apply group_insert_entries.
Qed.

Lemma strongly_sorted_app {A} (R : A -> A -> Prop) l1 l2 :
  StronglySorted R l1 -> StronglySorted R l2 -> (forall x y, x ∈ l1 -> y ∈ l2 -> R x y) ->
  StronglySorted R (l1 ++ l2).
Proof.
  intros H1 H2 Hx. induction H1 as [|x l1 H1 IH Hf]; simpl; [done|]. constructor.
  - apply IH. intros. apply Hx; set_solver.
  - apply Forall_app. split; [done|]. apply Forall_forall. intros y Hy. apply Hx; set_solver.
Qed.

Lemma with_prio_elem us q hs h : h ∈ with_prio us q hs <-> h ∈ hs /\ prio us h = q.
Proof.
  unfold with_prio. rewrite list_elem_of_In, filter_In, <- list_elem_of_In. by rewrite Z.eqb_eq.
Qed.

Definition order_of (us : list PooledUpstream) (hs : list Handle) : list Handle :=
  concat (group_by_priority us hs).

Lemma order_of_sorted us hs :
  StronglySorted (fun a b => prio us a <= prio us b) (order_of us hs).
Proof.
  unfold order_of. destruct (group_by_priority_spec us hs) as (qs & Hs & _ & ->).
  induction Hs as [|q qs Hs IH Hq]; simpl; [constructor|]. apply strongly_sorted_app; [|done|].
  - assert (forall h, h ∈ with_prio us q hs -> prio us h = q) as Hp by (by intros h []%with_prio_elem).
    revert Hp. generalize (with_prio us q hs). clear. intros l. induction l as [|h l IH]; intros Hp; constructor.
    + apply IH. set_solver.
    + apply Forall_forall. intros x Hx. rewrite (Hp x), (Hp h) by set_solver. lia.
  - intros x y [_ Hx]%with_prio_elem Hy. apply list_elem_of_In, in_concat in Hy as (g & Hg & Hy).
    apply list_elem_of_In, list_elem_of_fmap in Hg as (q' & -> & Hq'). apply list_elem_of_In in Hy. apply with_prio_elem in Hy as [_ Hy].
    rewrite Forall_forall in Hq. specialize (Hq _ Hq'). lia.
Qed.

Lemma with_prio_partition us q hs :
  hs ≡ₚ with_prio us q hs ++ List.filter (fun h => negb (prio us h =? q)) hs.
Proof. apply filter_partition_perm. Qed.

Lemma order_of_perm us hs : order_of us hs ≡ₚ hs.
Proof.
  unfold order_of. destruct (group_by_priority_spec us hs) as (qs & Hs & Hk & ->).
  assert (Hin : forall h, h ∈ hs -> prio us h ∈ qs).
  { intros h Hh. apply Hk, list_elem_of_fmap. eauto. }
  clear Hk. revert hs Hin. induction Hs as [|q qs Hs IH Hq]; intros hs Hin; simpl.
  - destruct hs as [|h hs]; [done|]. specialize (Hin h). set_solver.
  - etransitivity; [|symmetry; apply (with_prio_partition us q hs)]. apply Permutation_app_head.
    rewrite <- (IH (List.filter (fun h => negb (prio us h =? q)) hs)).
    + cut (map (fun q => with_prio us q hs) qs
           = map (fun q' => with_prio us q' (List.filter (fun h => negb (prio us h =? q)) hs)) qs);
        [by intros ->|].
      apply map_ext_in. intros q' Hq'%list_elem_of_In. rewrite Forall_forall in Hq. specialize (Hq q' Hq').
      unfold with_prio. induction hs as [|h hs IHhs]; simpl; [done|].
      destruct (prio us h =? q) eqn:E; simpl; reflect_Z.
      * rewrite (proj2 (Z.eqb_neq (prio us h) q')) by lia. apply IHhs. set_solver.
      * destruct (prio us h =? q'); [f_equal|]; apply IHhs; set_solver.
    + intros h Hh. rewrite list_elem_of_In, filter_In, <- list_elem_of_In in Hh. destruct Hh as [Hh Hne].
      reflect_Z. specialize (Hin h Hh). set_solver.
Qed.

(** ** The sequential cascade *)

(** No answer among the scores beats [b]. *)
Definition unbeaten (scores : list UpstreamScore) (b : f32) : Prop :=
  forall sc, sc ∈ scores -> us_error sc = None -> f_gt (normalized_score sc) b = false.

(** The best answer so far is the answer of a score that is not beaten. *)
Definition best_ok (scores : list UpstreamScore) (best : option (str * list SearchResult * f32)) : Prop :=
  match best with
  | Some (id, rs, b) =>
      (exists sc, sc ∈ scores /\ us_error sc = None /\ us_upstream_id sc = id /\
         normalized_score sc = b /\ result_count sc = zlen rs) /\ unbeaten scores b
  | None => Forall (fun sc => us_error sc <> None) scores
  end.

Lemma best_ok_error scores best sc :
  us_error sc <> None -> best_ok scores best -> best_ok (scores ++ [sc]) best.
Proof.
  intros He. destruct best as [[[id rs] b]|]; simpl.
  - intros [(sc' & H1 & H2) Hu]. split; [exists sc'; split; [set_solver|done]|].
    intros x [Hx|Hx%list_elem_of_singleton]%elem_of_app Hx'; [by apply Hu|]. by subst x.
  - intros Hf. apply Forall_app. split; [done|]. by constructor.
Qed.

Lemma best_ok_better scores best sc id rs :
  us_error sc = None -> us_upstream_id sc = id -> result_count sc = zlen rs ->
  best_ok scores best -> best_ok (scores ++ [sc]) (better best id rs (normalized_score sc)).
Proof.
  intros He Hid Hrc. assert (Hself : f_gt (normalized_score sc) (normalized_score sc) = false).
  { apply f_gt_irrefl. }
  assert (Hnew : exists sc', sc' ∈ scores ++ [sc] /\ us_error sc' = None /\ us_upstream_id sc' = id /\
      normalized_score sc' = normalized_score sc /\ result_count sc' = zlen rs)
    by (exists sc; split_and!; [set_solver|done..]).
  destruct best as [[[id0 rs0] b]|]; simpl.
  - intros [(sc' & H1 & H2) Hu]. destruct (f_gt (normalized_score sc) b) eqn:E; simpl.
    + split; [done|]. intros x [Hx|Hx%list_elem_of_singleton]%elem_of_app Hx'; [|by subst x].
      destruct (f_gt (normalized_score x) (normalized_score sc)) eqn:Ex; [|done].
      rewrite <- (Hu x Hx Hx'). unfold f_gt in *. symmetry. by apply (f_lt_trans _ (normalized_score sc)).
    + split; [exists sc'; split; [set_solver|done]|].
      intros x [Hx|Hx%list_elem_of_singleton]%elem_of_app Hx'; [by apply Hu|]. by subst x.
  - intros Hf. split; [done|]. rewrite Forall_forall in Hf.
    intros x [Hx|Hx%list_elem_of_singleton]%elem_of_app Hx'; [by destruct (Hf x Hx)|]. by subst x.
Qed.

Record seq_inv (ids : Handle -> str) (dn : list Handle) (g : Progress) : Prop := {
  i_tried : g_tried g = map ids dn;
  i_ids : map us_upstream_id (g_scores g) = g_tried g;
  i_depth : g_depth g = zlen dn;
  i_met : Forall (fun sc => met_threshold sc = false) (g_scores g);
  i_best : best_ok (g_scores g) (g_best g)
}.

(** What a result of the sequential cascade says. *)
Record seq_result (cfg : CascadeConfig) (ids : Handle -> str) (order : list Handle) (r : CascadeResult) : Prop := {
  q_prefix : exists n, upstreams_tried r = map ids (take n order) /\ (n <= length order)%nat;
  q_ids : map us_upstream_id (upstream_scores r) = upstreams_tried r;
  q_depth : cascade_depth r = zlen (upstreams_tried r);
  q_bound : zlen (upstreams_tried r) <= Z.max 0 (max_cascade_depth cfg);
  q_stop :
    if decide (stop_reason r = ThresholdMet) then
      exists pre sc, upstream_scores r = pre ++ [sc] /\ Forall (fun x => met_threshold x = false) pre /\
        us_error sc = None /\ final_upstream r = Some (us_upstream_id sc) /\
        result_count sc = zlen (cr_results r) /\
        normalized_score sc = normalize_score (default f_zero (max_score r)) (us_upstream_type sc) /\
        meets cfg (normalized_score sc) (zlen (cr_results r)) = true
    else
      (stop_reason r = AllExhausted -> length (upstreams_tried r) = length order) /\
      Forall (fun x => met_threshold x = false) (upstream_scores r) /\
      match final_upstream r with
      | Some id => exists b, best_ok (upstream_scores r) (Some (id, cr_results r, b))
      | None => cr_results r = [] /\ Forall (fun sc => us_error sc <> None) (upstream_scores r)
      end
}.

(** The names of the upstreams never change. *)
Definition same_ids (ids : Handle -> str) (s : CState) : Prop :=
  forall h, id_of (w_pool (c_world s)) h = ids h.

Section Sequential.
Context `{Backend} `{Externals} `{UnicodeCase} `{Clocked} `{Embedding} `{Scheduler}.
Context (config : CascadeConfig) (request : QueryRequest).

Lemma on_upstream_ids h f w h' : (forall u, pu_id (f u) = pu_id u) ->
  id_of (w_pool (on_upstream h f w)) h' = id_of (w_pool w) h'.
Proof. intros Hf. by apply id_of_update. Qed.

Lemma settle_ids ok h w h' : id_of (w_pool (settle ok h w)) h' = id_of (w_pool w) h'.
Proof. unfold settle. destruct ok; by apply on_upstream_ids. Qed.

Lemma embed_ids m h w h' : id_of (w_pool (snd (embed_and_query request m h w))) h' = id_of (w_pool w) h'.
Proof. unfold embed_and_query. destruct embedder; [|done]. by destruct (r _ _). Qed.

Lemma dispatch_ids m m' h w h' : id_of (w_pool (snd (dispatch request m m' h w))) h' = id_of (w_pool w) h'.
Proof.
  unfold dispatch. destruct embed_api; simpl; [|done].
  destruct (mode_of w h); [done|apply embed_ids|]. unfold call_pooled.
  destruct (query_pooled _ _) as [r|e]; simpl; [by rewrite id_of_update|].
  destruct (indicates_text_not_supported e); [|done]. simpl.
  destruct (bk_discover _ h) as [d|]; [|done]. case_decide; rewrite ?embed_ids; simpl;
    rewrite id_of_update; done.
Qed.

Lemma guard_spec start g s :
  match guard config start g s with
  | Go g' s' => g' = g /\ g_depth g < max_cascade_depth config /\ forall h, id_of (w_pool (c_world s')) h = id_of (w_pool (c_world s)) h
  | Done r s' => upstreams_tried r = g_tried g /\ upstream_scores r = g_scores g /\ cascade_depth r = g_depth g /\
      (stop_reason r = MaxDepthReached \/ stop_reason r = StopTimeout) /\
      match g_best g with
      | Some (id, rs, _) => final_upstream r = Some id /\ cr_results r = rs
      | None => final_upstream r = None /\ cr_results r = []
      end
  end.
Proof.
  unfold guard, finish_best, finish. destruct (_ <=? _) eqn:E; reflect_Z.
  - destruct (g_best g) as [[[id rs] b]|]; simpl; split_and!; auto.
  - simpl. destruct (_ <? _); simpl; [|done].
    destruct (g_best g) as [[[id rs] b]|]; simpl; split_and!; auto.
Qed.

Lemma guard_done_result ids dn rest g r :
  seq_inv ids dn g -> zlen dn <= Z.max 0 (max_cascade_depth config) ->
  upstreams_tried r = g_tried g -> upstream_scores r = g_scores g -> cascade_depth r = g_depth g ->
  stop_reason r <> ThresholdMet -> (stop_reason r = AllExhausted -> rest = []) ->
  match g_best g with
  | Some (id, rs, _) => final_upstream r = Some id /\ cr_results r = rs
  | None => final_upstream r = None /\ cr_results r = []
  end ->
  seq_result config ids (dn ++ rest) r.
Proof.
  intros [Htr Hid Hdp Hmt Hbs] Hb Ht Hs Hd Hr Hrest Hbest.
  assert (zlen (upstreams_tried r) = zlen dn) as Hlen by (rewrite Ht, Htr; unfold zlen; by rewrite length_map).
  split.
  - exists (length dn). rewrite take_app_length, Ht, length_app. split; [done|lia].
  - by rewrite Ht, Hs.
  - by rewrite Hlen, Hd.
  - by rewrite Hlen.
  - rewrite decide_False by done. split_and!.
    + intros ->%Hrest. rewrite app_nil_r. unfold zlen in Hlen. lia.
    + by rewrite Hs.
    + rewrite Hs. destruct (g_best g) as [[[id rs] b]|]; destruct Hbest as [-> ->]; [by exists b|done].
Qed.

(** One answer: either it is good and the cascade ends, or it is recorded. *)
Lemma ask_spec ids dn rest start h g s :
  seq_inv ids dn g -> same_ids ids s -> zlen dn < max_cascade_depth config -> in_u 64 (max_cascade_depth config) ->
  match ask config request start h g s with
  | Go g' s' => seq_inv ids (dn ++ [h]) g' /\ same_ids ids s'
  | Done r s' => seq_result config ids ((dn ++ [h]) ++ rest) r
  end.
Proof.
  intros [Htr Hid Hdp Hmt Hbs] Hsame Hlt Hmax. unfold ask. simpl.
  destruct (query_upstream request h (c_world s)) as [res w] eqn:Eq.
  assert (Hw : forall h', id_of (w_pool w) h' = ids h').
  { intros h'. rewrite <- Hsame. unfold query_upstream in Eq.
    pose proof (dispatch_ids (lit "VectorOnly upstream requires proxy-embed feature with embedder configured")
      (lit "VectorOnly upstream requires embedding support") h (c_world s) h') as Hd. by rewrite Eq in Hd. }
  rewrite (Hsame h). destruct res as [resp|e].
  - set (rs := map _ (results resp)). set (rec := score_record _ _ _ _ rs _ None).
    destruct (meets config _ _) eqn:Em.
    + unfold finish. simpl. assert (zlen dn + 1 <= u_max 64) as Hu by (unfold in_u in Hmax; lia). split; simpl.
      * exists (length (dn ++ [h])). rewrite (length_app (dn ++ [h])), take_app_length, Htr, map_app.
        split; [done|lia].
      * rewrite map_app, Hid. done.
      * rewrite Hdp, Htr, zlen_app, zlen_cons, zlen_nil. unfold sat_add, zlen. rewrite length_map. unfold zlen in Hu. lia.
      * rewrite Htr, zlen_app, zlen_cons, zlen_nil. unfold zlen in *. rewrite length_map. lia.
      * exists (g_scores g), rec. split_and!; done.
    + split; [split; simpl|].
      * by rewrite Htr, map_app.
      * by rewrite map_app, Hid.
      * rewrite Hdp, zlen_app, zlen_cons, zlen_nil. lia.
      * apply Forall_app. split; [done|]. by constructor.
      * by apply (best_ok_better _ _ rec).
      * intros h'. change (id_of (w_pool (settle true h w)) h' = ids h'). by rewrite settle_ids.
  - split; [split; simpl|].
    + by rewrite Htr, map_app.
    + by rewrite map_app, Hid.
    + rewrite Hdp, zlen_app, zlen_cons, zlen_nil. lia.
    + apply Forall_app. split; [done|]. by constructor.
    + by apply best_ok_error.
    + intros h'. change (id_of (w_pool (settle false h w)) h' = ids h'). by rewrite settle_ids.
Qed.

Lemma guard_result ids dn rest start g s :
  seq_inv ids dn g -> same_ids ids s -> zlen dn <= Z.max 0 (max_cascade_depth config) ->
  match guard config start g s with
  | Go g' s' => g' = g /\ zlen dn < max_cascade_depth config /\ same_ids ids s'
  | Done r s' => seq_result config ids (dn ++ rest) r
  end.
Proof.
  intros Hinv Hsame Hb. pose proof (guard_spec start g s) as Hg.
  destruct (guard config start g s) as [g' s'|r s'].
  - destruct Hg as (-> & Hd & Hi). split_and!; [done| |]; [by destruct Hinv as [_ _ <- _ _]|].
    intros h. by rewrite Hi.
  - destruct Hg as (Ht & Hs & Hd & Hr & Hbest). eapply guard_done_result; try done;
      destruct Hr as [Hr|Hr]; rewrite Hr; done.
Qed.

Lemma sequential_spec ids group : forall dn rest start g s,
  in_u 64 (max_cascade_depth config) ->
  seq_inv ids dn g -> same_ids ids s -> zlen dn <= Z.max 0 (max_cascade_depth config) ->
  match sequential config request start group g s with
  | Go g' s' => seq_inv ids (dn ++ group) g' /\ same_ids ids s' /\
                zlen (dn ++ group) <= Z.max 0 (max_cascade_depth config)
  | Done r s' => seq_result config ids (dn ++ group ++ rest) r
  end.
Proof.
  induction group as [|h group IH]; intros dn rest start g s Hmax Hinv Hsame Hb; simpl.
  - by rewrite app_nil_r.
  - pose proof (guard_result ids dn (h :: group ++ rest) start g s Hinv Hsame Hb) as Hg.
    destruct (guard config start g s) as [g1 s1|r s1]; [|done]. destruct Hg as (-> & Hlt & Hs1).
    pose proof (ask_spec ids dn (group ++ rest) start h g s1 Hinv Hs1 Hlt Hmax) as Ha.
    destruct (ask config request start h g s1) as [g2 s2|r s2]; [|by rewrite <- app_assoc in Ha].
    destruct Ha as [Hinv2 Hs2].
    specialize (IH (dn ++ [h]) rest start g2 s2 Hmax Hinv2 Hs2).
    rewrite zlen_app, zlen_cons, zlen_nil in IH. specialize (IH ltac:(lia)).
    by rewrite <- !app_assoc in IH.
Qed.

Lemma cascade_groups_spec vo ids groups : forall dn start g s,
  fusion_method config = NoFusion -> in_u 64 (max_cascade_depth config) ->
  seq_inv ids dn g -> same_ids ids s -> zlen dn <= Z.max 0 (max_cascade_depth config) ->
  match cascade_groups vo config request start groups g s with
  | Go g' s' => seq_inv ids (dn ++ concat groups) g' /\ same_ids ids s' /\
                zlen (dn ++ concat groups) <= Z.max 0 (max_cascade_depth config)
  | Done r s' => seq_result config ids (dn ++ concat groups) r
  end.
Proof.
  induction groups as [|group groups IH]; intros dn start g s Hf Hmax Hinv Hsame Hb; simpl.
  - by rewrite app_nil_r.
  - pose proof (guard_result ids dn (group ++ concat groups) start g s Hinv Hsame Hb) as Hg.
    destruct (guard config start g s) as [g1 s1|r s1]; [|done]. destruct Hg as (-> & Hlt & Hs1).
    rewrite bool_decide_false by (rewrite Hf; done). simpl.
    pose proof (sequential_spec ids group dn (concat groups) start g s1 Hmax Hinv Hs1 Hb) as Ha.
    destruct (sequential config request start group g s1) as [g2 s2|r s2]; [|done].
    destruct Ha as (Hinv2 & Hs2 & Hb2). rewrite app_assoc. by apply IH.
Qed.

Definition order_at (s : CState) : list Handle :=
  order_of (upstreams (w_pool (c_world s)))
    (cascade_order_with_preference (upstream_type request) (w_pool (c_world s))).

Lemma seq_inv_init ids : seq_inv ids [] no_progress.
Proof. split; simpl; try done; constructor. Qed.

(** The loop's own end: every upstream has been asked. *)
Lemma exhausted_result vo ids groups start s :
  fusion_method config = NoFusion -> in_u 64 (max_cascade_depth config) -> same_ids ids s ->
  exists r s', cascade_run vo config request start groups s = Done r s' /\
    seq_result config ids (concat groups) r.
Proof.
  intros Hf Hmax Hsame. unfold cascade_run.
  pose proof (cascade_groups_spec vo ids groups [] start no_progress s Hf Hmax (seq_inv_init ids) Hsame) as Hg.
  specialize (Hg ltac:(unfold zlen; simpl; lia)). simpl in Hg.
  destruct (cascade_groups _ _ _ _ _ _ _) as [g s'|r s']; [|by exists r, s'].
  destruct Hg as (Hinv & _ & Hb). unfold finish_best, finish.
  destruct (g_best g) as [[[id rs] b]|] eqn:Eb; simpl; eexists _, _; (split; [done|]);
    rewrite <- (app_nil_r (concat groups)); eapply guard_done_result; try done; simpl;
    try (by rewrite Eb); destruct Hinv as [Htr _ Hd _ _]; rewrite Hd, Htr; unfold zlen; by rewrite length_map.
Qed.

Lemma cascade_query_result vo s :
  cc_enabled config = true -> fusion_method config = NoFusion -> in_u 64 (max_cascade_depth config) ->
  rq_upstream_id request = None -> candidates (w_pool (c_world s)) <> [] ->
  exists r s', cascade_query vo config request s = Done r s' /\
    seq_result config (id_of (w_pool (c_world s))) (order_at s) r.
Proof.
  intros He Hf Hmax Hid Hc. unfold cascade_query. simpl. rewrite He, Hid. simpl.
  unfold cascade_all. simpl.
  destruct (cascade_order_with_preference (upstream_type request) (w_pool (c_world s))) as [|h hs] eqn:E.
  - exfalso. assert (Hlen : length (cascade_order_with_preference (upstream_type request) (w_pool (c_world s)))
                       = length (candidates (w_pool (c_world s)))).
    { unfold cascade_order_with_preference, cascade_order. destruct (upstream_type request);
        rewrite ?length_sort_by; done. }
    rewrite E in Hlen. simpl in Hlen. by destruct (candidates (w_pool (c_world s))).
  - unfold order_at, order_of. rewrite E. by apply exhausted_result.
Qed.

(** C24: a sequential cascade (no fusion, no target) always ends; the upstreams it
    tried are the first ones in order of priority, whatever type the request
    prefers, among the available upstreams (all of them when none is available);
    it tried at most [max_cascade_depth] of them, as its depth says. *)
Theorem cascade_order_and_depth vo s :
  cc_enabled config = true -> fusion_method config = NoFusion -> in_u 64 (max_cascade_depth config) ->
  rq_upstream_id request = None -> candidates (w_pool (c_world s)) <> [] ->
  let p := w_pool (c_world s) in
  StronglySorted (fun a b => prio (upstreams p) a <= prio (upstreams p) b) (order_at s) /\
  order_at s ≡ₚ candidates p /\
  exists r s' n, cascade_query vo config request s = Done r s' /\
    upstreams_tried r = map (id_of p) (take n (order_at s)) /\ (n <= length (order_at s))%nat /\
    Z.of_nat n <= max_cascade_depth config /\ cascade_depth r = Z.of_nat n.
Proof.
  intros He Hf Hmax Hid Hc p. split_and!.
  - apply order_of_sorted.
  - unfold order_at. rewrite order_of_perm. unfold cascade_order_with_preference, cascade_order, candidates.
    destruct (upstream_type request); by rewrite ?sort_by_perm.
  - destruct (cascade_query_result vo s He Hf Hmax Hid Hc) as (r & s' & Hq & [[n [Hn Hle]] _ Hd Hb _]).
    assert (zlen (upstreams_tried r) = Z.of_nat n) as Hlen
      by (rewrite Hn; unfold zlen; rewrite length_map, length_take; lia).
    exists r, s', n. rewrite Hlen in *. unfold in_u in Hmax. split_and!; try done. lia.
Qed.

(** A sequential cascade stops with [ThresholdMet] exactly at the first answer
    whose normalised best score and number of results meet the configured
    thresholds, and returns that answer; no answer before it met them, and when the
    cascade stops for another reason no answer did. *)
Theorem cascade_stops_at_first_good vo s :
  cc_enabled config = true -> fusion_method config = NoFusion -> in_u 64 (max_cascade_depth config) ->
  rq_upstream_id request = None -> candidates (w_pool (c_world s)) <> [] ->
  exists r s', cascade_query vo config request s = Done r s' /\
  if decide (stop_reason r = ThresholdMet) then
    exists pre sc, upstream_scores r = pre ++ [sc] /\ Forall (fun x => met_threshold x = false) pre /\
      final_upstream r = Some (us_upstream_id sc) /\ us_error sc = None /\
      normalized_score sc = normalize_score (default f_zero (max_score r)) (us_upstream_type sc) /\
      f_le (min_score_threshold config) (normalized_score sc) = true /\
      min_results config <= zlen (cr_results r)
  else Forall (fun x => met_threshold x = false) (upstream_scores r).
Proof.
  intros He Hf Hmax Hid Hc.
  destruct (cascade_query_result vo s He Hf Hmax Hid Hc) as (r & s' & Hq & [_ _ _ _ Hs]).
  exists r, s'. split; [done|]. case_decide.
  - destruct Hs as (pre & sc & Hp & Hpre & Herr & Hfin & _ & Hnorm & [Hm1 Hm2]%andb_true_iff).
    exists pre, sc. reflect_Z. split_and!; done.
  - by destruct Hs as (_ & ? & _).
Qed.

(** A sequential cascade that no answer satisfied returns the results of an
    upstream whose normalised score is not exceeded by any other that answered, or
    nothing when every upstream it tried failed; when it stops because the
    upstreams are exhausted, it tried all of them. *)
Theorem cascade_returns_best vo s :
  cc_enabled config = true -> fusion_method config = NoFusion -> in_u 64 (max_cascade_depth config) ->
  rq_upstream_id request = None -> candidates (w_pool (c_world s)) <> [] ->
  exists r s', cascade_query vo config request s = Done r s' /\
  (stop_reason r <> ThresholdMet ->
   (stop_reason r = AllExhausted -> length (upstreams_tried r) = length (candidates (w_pool (c_world s)))) /\
   match final_upstream r with
   | Some id => exists sc, sc ∈ upstream_scores r /\ us_error sc = None /\ us_upstream_id sc = id /\
       result_count sc = zlen (cr_results r) /\
       forall sc', sc' ∈ upstream_scores r -> us_error sc' = None ->
         f_gt (normalized_score sc') (normalized_score sc) = false
   | None => cr_results r = [] /\ Forall (fun sc => us_error sc <> None) (upstream_scores r)
   end).
Proof.
  intros He Hf Hmax Hid Hc.
  destruct (cascade_query_result vo s He Hf Hmax Hid Hc) as (r & s' & Hq & [_ _ _ _ Hs]).
  exists r, s'. split; [done|]. intros Hne. rewrite decide_False in Hs by done.
  destruct Hs as (Hex & _ & Hb). split.
  - intros Hall. rewrite (Hex Hall). unfold order_at. rewrite order_of_perm.
    unfold cascade_order_with_preference, cascade_order. destruct (upstream_type request);
      rewrite ?length_sort_by; done.
  - destruct (final_upstream r) as [id|]; [|done].
    destruct Hb as (b & (sc & Hsc & Herr & Hi & Hn & Hrc) & Hu). exists sc. rewrite Hn. split_and!; done.
Qed.
End Sequential.

(** ** Fusion *)

Section Fusion.
Context `{Externals}.
Implicit Types (m : gmap QueryHash Accum) (rs : list SearchResult).

(** The terms a document collects: one per occurrence, in order. *)
Fixpoint list_terms (k rank : Z) (rs : list SearchResult) (key : QueryHash) : list f32 :=
  match rs with
  | [] => []
  | r :: rs => (if decide (rrf_key r = key) then [rrf_term k rank] else []) ++ list_terms k (rank + 1) rs key
  end.
Definition terms (k : Z) (lists : list (str * list SearchResult)) (key : QueryHash) : list f32 :=
  concat (map (fun l => list_terms k 0 (snd l) key) lists).

(** The sum of the terms, from the left. *)
Definition rrf_sum (ts : list f32) : option f32 :=
  match ts with [] => None | x :: xs => Some (foldl F32.add x xs) end.

Lemma rrf_sum_snoc ts x :
  rrf_sum (ts ++ [x]) = Some (match rrf_sum ts with Some y => F32.add y x | None => x end).
Proof. destruct ts as [|y ts]; simpl; [done|]. by rewrite foldl_app. Qed.

(** The accumulator of a key after the documents [seen] with the terms [ts key]. *)
Definition table_ok (seen : list SearchResult) (ts : QueryHash -> list f32) m : Prop :=
  forall key, match m !! key with
  | Some a => rrf_sum (ts key) = Some (rrf_score a) /\ best_result a ∈ seen /\
      rrf_key (best_result a) = key /\
      forall r, r ∈ seen -> rrf_key r = key -> f_gt (score r) (score (best_result a)) = false
  | None => ts key = [] /\ forall r, r ∈ seen -> rrf_key r <> key
  end.

Lemma rrf_add_ok k rank r seen ts m :
  table_ok seen ts m ->
  table_ok (seen ++ [r]) (fun key => ts key ++ (if decide (rrf_key r = key) then [rrf_term k rank] else []))
    (rrf_add k rank r m).
Proof.
  intros Hok key. specialize (Hok key). unfold rrf_add.
  destruct (decide (rrf_key r = key)) as [Hk|Hk].
  - subst key. rewrite lookup_insert_eq, rrf_sum_snoc.
    destruct (m !! rrf_key r) as [a|]; simpl.
    + destruct Hok as (Hs & Hin & Hkey & Hbest). rewrite Hs. split; [done|].
      destruct (f_gt (score r) (score (best_result a))) eqn:E; split_and!; try done; try set_solver.
      intros x [Hx|Hx%list_elem_of_singleton]%elem_of_app Hxk; [|subst; apply f_gt_irrefl].
      destruct (f_gt (score x) (score r)) eqn:Ex; [|done]. rewrite <- (Hbest x Hx Hxk).
      unfold f_gt in *. symmetry. by apply (f_lt_trans _ (score r)).
    + destruct Hok as [-> Hno]. simpl. split_and!; [done|set_solver|done|].
      intros x [Hx|Hx%list_elem_of_singleton]%elem_of_app Hxk; [by destruct (Hno x Hx)|].
      subst. apply f_gt_irrefl.
  - rewrite lookup_insert_ne by done. rewrite app_nil_r. destruct (m !! key) as [a|].
    + destruct Hok as (Hs & Hin & Hkey & Hbest). split_and!; [done|set_solver|done|].
      intros x [Hx|Hx%list_elem_of_singleton]%elem_of_app Hxk; [auto|by subst].
    + destruct Hok as [Hs Hno]. split; [done|].
      intros x [Hx|Hx%list_elem_of_singleton]%elem_of_app; [auto|by subst].
Qed.

Lemma table_ok_ext seen ts ts' m : (forall key, ts key = ts' key) -> table_ok seen ts m -> table_ok seen ts' m.
Proof. intros Hts Hok key. specialize (Hok key). by rewrite <- Hts. Qed.

Lemma rrf_list_ok k rs : forall rank seen ts m,
  table_ok seen ts m ->
  table_ok (seen ++ rs) (fun key => ts key ++ list_terms k rank rs key) (rrf_list k rank rs m).
Proof.
  induction rs as [|r rs IH]; intros rank seen ts m Hok; simpl.
  - rewrite app_nil_r. eapply table_ok_ext; [|exact Hok]. intros key. by rewrite app_nil_r.
  - specialize (IH (rank + 1) _ _ _ (rrf_add_ok k rank r seen ts m Hok)).
    rewrite <- app_assoc in IH. eapply table_ok_ext; [|exact IH]. intros key. by rewrite app_assoc.
Qed.

Lemma rrf_table_ok k lists : table_ok (concat (map snd lists)) (terms k lists) (rrf_table k lists).
Proof.
  unfold rrf_table. induction lists as [|l lists IH] using rev_ind.
  - intros key. simpl. rewrite lookup_empty. split; [done|]. set_solver.
  - rewrite foldl_app, map_app, concat_app. simpl. rewrite app_nil_r.
    eapply table_ok_ext; [|by apply rrf_list_ok]. intros key. unfold terms.
    rewrite map_app, concat_app. simpl. by rewrite app_nil_r.
Qed.

(** The values in the order of the sort, each with its key. *)
Lemma values_keys vo k lists :
  vo (rrf_table k lists) ≡ₚ map snd (map_to_list (rrf_table k lists)) ->
  map (fun a => rrf_key (best_result a)) (vo (rrf_table k lists)) ≡ₚ map fst (map_to_list (rrf_table k lists)).
Proof.
  intros ->. rewrite map_map.
  cut (forall l, (forall ka, ka ∈ l -> rrf_table k lists !! ka.1 = Some ka.2) ->
         map (fun x : QueryHash * Accum => rrf_key (best_result x.2)) l = map fst l).
  { intros Hcut. rewrite Hcut; [done|]. intros [key a]. by rewrite elem_of_map_to_list. }
  intros l Hl. apply map_ext_in. intros [key a] Hin%list_elem_of_In. specialize (Hl _ Hin). simpl in *.
  pose proof (rrf_table_ok k lists key) as Hok. rewrite Hl in Hok. by destruct Hok as (_ & _ & ? & _).
Qed.

(** Reciprocal rank fusion returns at most [max_results] documents, as many as
    there are distinct contents when they fit; no two share a content hash; each is
    one of the documents given, of the best score among those with its content; and
    they come in descending order of the sum of [1 / (k + rank)] over the places
    where their content occurs. *)
Theorem fuse_rrf_spec vo lists k max_results :
  vo (rrf_table k lists) ≡ₚ map snd (map_to_list (rrf_table k lists)) ->
  (forall key x, rrf_sum (terms k lists key) = Some x -> not_nan x) ->
  let all := concat (map snd lists) in
  let out := fuse_rrf vo lists k max_results in
  let sum r := rrf_sum (terms k lists (rrf_key r)) in
  length out = Nat.min (Z.to_nat max_results) (size (rrf_table k lists)) /\
  (forall key, is_Some (rrf_table k lists !! key) <-> exists r, r ∈ all /\ rrf_key r = key) /\
  NoDup (map rrf_key out) /\
  (forall r, r ∈ out -> r ∈ all /\
     forall r', r' ∈ all -> rrf_key r' = rrf_key r -> f_gt (score r') (score r) = false) /\
  StronglySorted (fun a b => exists x y, sum a = Some x /\ sum b = Some y /\ f_le y x = true) out.
Proof.
  intros Hvo Hnn all out sum. pose proof (rrf_table_ok k lists) as Hok.
  set (m := rrf_table k lists) in *.
  assert (Hval : forall a, a ∈ vo m -> m !! rrf_key (best_result a) = Some a).
  { intros a. rewrite Hvo. intros ([key a'] & -> & Hin)%list_elem_of_fmap.
    apply elem_of_map_to_list in Hin as Hl. specialize (Hok key). rewrite Hl in Hok.
    destruct Hok as (_ & _ & <- & _). done. }
  set (L := sort_by (fun a b : f32 * SearchResult => score_desc_le a.1 b.1)
              (map (fun a => (rrf_score a, best_result a)) (vo m))).
  assert (HL : L ≡ₚ map (fun a => (rrf_score a, best_result a)) (vo m)) by apply sort_by_perm.
  assert (Hel : forall x, x ∈ L -> exists a, a ∈ vo m /\ x = (rrf_score a, best_result a)).
  { intros x. rewrite HL. intros (a & -> & Ha)%list_elem_of_fmap. by exists a. }
  assert (Hout : out = map snd (take (Z.to_nat max_results) L)) by done.
  split_and!.
  - rewrite Hout, length_map, length_take. f_equal. rewrite HL, length_map, Hvo, length_map.
    apply length_map_to_list.
  - intros key. specialize (Hok key). destruct (m !! key) as [a|].
    + destruct Hok as (_ & Hin & Hk & _). split; [intros _; by exists (best_result a)|by eexists].
    + destruct Hok as [_ Hno]. split; [by intros [? ?]|]. intros (r & Hr & Hk). by destruct (Hno r Hr).
  - rewrite Hout, map_map.
    assert (NoDup (map (fun x : f32 * SearchResult => rrf_key x.2) L)) as Hnd.
    { rewrite HL, map_map. pose proof (values_keys vo k lists Hvo) as Hkeys. fold m in Hkeys.
      simpl. rewrite Hkeys. apply NoDup_fst_map_to_list. }
    rewrite <- (take_drop (Z.to_nat max_results) L), map_app in Hnd. by apply NoDup_app in Hnd as [Hnd _].
  - intros r. rewrite Hout. intros ([x r'] & -> & Hin)%list_elem_of_fmap. simpl.
    apply elem_of_take in Hin as (i & Hi & _). apply list_elem_of_lookup_2, Hel in Hi as (a & Ha & [= -> ->]).
    specialize (Hok (rrf_key (best_result a))). rewrite (Hval a Ha) in Hok.
    destruct Hok as (_ & H1 & _ & H2). split; [done|]. intros r' Hr' Hk. by apply H2.
  - assert (Hs : StronglySorted (fun a b : f32 * SearchResult => f_le b.1 a.1 = true) L).
    { apply (score_desc_sorted fst). apply Forall_forall. intros x (a & -> & Ha)%list_elem_of_fmap.
      specialize (Hok (rrf_key (best_result a))). rewrite (Hval a Ha) in Hok. simpl. apply Hnn with (rrf_key (best_result a)).
      by destruct Hok. }
    assert (Hsum : forall x, x ∈ L -> sum x.2 = Some x.1).
    { intros x (a & Ha & ->)%Hel. simpl. specialize (Hok (rrf_key (best_result a))).
      rewrite (Hval a Ha) in Hok. unfold sum. by destruct Hok. }
    rewrite Hout. clear - Hs Hsum. revert Hsum. generalize (Z.to_nat max_results). intros n.
    revert n. induction Hs as [|x L Hs IH Hx]; intros [|n] Hsum; simpl; try constructor.
    + apply IH. set_solver.
    + apply Forall_forall. intros r (y & -> & Hy)%list_elem_of_fmap.
      apply elem_of_take in Hy as (i & Hi & _). apply list_elem_of_lookup_2 in Hi.
      rewrite Forall_forall in Hx. exists x.1, y.1. split_and!; [apply Hsum|apply Hsum|by apply Hx]; set_solver.
Qed.
End Fusion.

(** ** Concrete cascades *)

Definition CascadeExternals : Externals :=
  {| blake3_hash := fun b => b; blake3_keyed_hex := fun _ b => b; json_to_string := fun _ => [] |}.
Definition DemoClock : Clocked := {| clk := fun _ => 0 |}.
Definition NoEmbedding : Embedding := {| embed_api := false; embedder := None |}.
Definition InOrder : Scheduler :=
  {| completions := fun _ hs => map (fun h => {| te_handle := h; te_panicked := false; te_late := false |}) hs |}.
Definition list_values (m : gmap QueryHash Accum) : list Accum := map snd (map_to_list m).
Definition demo_cstate : CState := {| c_world := demo_world; c_reads := 0; c_metrics := None |}.

Definition demo_cascade (cfg : CascadeConfig) (req : QueryRequest) : Flow :=
  @cascade_query DemoBackend CascadeExternals AsciiCase DemoClock NoEmbedding InOrder list_values cfg req demo_cstate.

Lemma cascade_order_and_depth_witness :
  exists r s' n, demo_cascade CascadeConfig_default (demo_request None) = Done r s' /\
    cascade_depth r = Z.of_nat n /\ Z.of_nat n <= 3.
Proof.
  destruct (@cascade_order_and_depth DemoBackend CascadeExternals AsciiCase DemoClock NoEmbedding InOrder
    CascadeConfig_default (demo_request None) list_values demo_cstate) as (_ & _ & r & s' & n & H1 & _ & _ & H2 & H3);
    [reflexivity | reflexivity | vm_compute; split; discriminate | reflexivity | discriminate |].
  exists r, s', n. split; [exact H1 | split; [exact H3 | exact H2]].
Defined.

Lemma cascade_stops_at_first_good_witness :
  exists r s', demo_cascade CascadeConfig_default (demo_request None) = Done r s' /\
    stop_reason r = ThresholdMet.
Proof.
  destruct (@cascade_stops_at_first_good DemoBackend CascadeExternals AsciiCase DemoClock NoEmbedding InOrder
    CascadeConfig_default (demo_request None) list_values demo_cstate) as (r & s' & H1 & _);
    [reflexivity | reflexivity | vm_compute; split; discriminate | reflexivity | discriminate |].
  exists r, s'. split; [exact H1|]. vm_compute in H1. injection H1 as <- _. reflexivity.
Defined.

(** With a higher threshold the cascade goes on to the failing upstream. *)
Definition strict_config : CascadeConfig :=
  {| cc_enabled := true; min_score_threshold := F32.of_Z 2; min_results := 1; max_cascade_depth := 3;
     merge_cascade_results := false; cascade_timeout_ms := 30000; fusion_method := NoFusion; rrf_k := 60 |}.

Lemma cascade_returns_best_witness :
  exists r s', demo_cascade strict_config (demo_request None) = Done r s' /\
    length (upstreams_tried r) = 2%nat /\ final_upstream r = Some (lit "b").
Proof.
  destruct (@cascade_returns_best DemoBackend CascadeExternals AsciiCase DemoClock NoEmbedding InOrder
    strict_config (demo_request None) list_values demo_cstate) as (r & s' & H1 & H2);
    [reflexivity | reflexivity | vm_compute; split; discriminate | reflexivity | discriminate |].
  exists r, s'. split; [exact H1|]. vm_compute in H1. injection H1 as <- _.
  destruct H2 as [H2 _]; [discriminate|]. split; [apply H2; reflexivity | reflexivity].
Defined.

Definition demo_doc (id text : string) (s : Z) : SearchResult :=
  {| sr_id := lit id; score := F32.of_Z s; content := lit text; metadata := None; sr_upstream_id := None |}.
Definition demo_lists : list (str * list SearchResult) :=
  [(lit "a", [demo_doc "1" "x" 1; demo_doc "2" "y" 2]); (lit "b", [demo_doc "3" "y" 3])].

Lemma demo_terms_nan key x : rrf_sum (@terms CascadeExternals 60 demo_lists key) = Some x -> not_nan x.
Proof.
  unfold terms, demo_lists. simpl. repeat case_decide; simpl; try done; intros [= <-]; reflexivity.
Qed.

Lemma fuse_rrf_spec_witness :
  length (@fuse_rrf CascadeExternals list_values demo_lists 60 10) = 2%nat /\
  map sr_id (@fuse_rrf CascadeExternals list_values demo_lists 60 10) = [lit "3"; lit "1"].
Proof.
  destruct (@fuse_rrf_spec CascadeExternals list_values demo_lists 60 10) as (H1 & _);
    [reflexivity | exact demo_terms_nan |].
  split; [exact H1 | vm_compute; reflexivity].
Defined.

(** A priority group is asked as a whole: fusion exceeds the maximal depth. *)
Definition rrf_config : CascadeConfig :=
  {| cc_enabled := true; min_score_threshold := F32.of_Z 2; min_results := 1; max_cascade_depth := 1;
     merge_cascade_results := false; cascade_timeout_ms := 30000; fusion_method := Rrf; rrf_k := 60 |}.
Definition flat_state : CState :=
  {| c_world := {| w_pool := pool_of [demo_upstream "a" 1 0 UnknownType; demo_upstream "b" 1 0 UnknownType] RoundRobin;
                   w_calls := 0 |}; c_reads := 0; c_metrics := None |}.

Lemma fusion_exceeds_depth :
  exists r s', @cascade_query DemoBackend CascadeExternals AsciiCase DemoClock NoEmbedding InOrder list_values
                 rrf_config (demo_request None) flat_state = Done r s' /\
    cascade_depth r = 2 /\ length (upstreams_tried r) = 2%nat /\ max_cascade_depth rrf_config = 1.
Proof. eexists _, _. split; [vm_compute; reflexivity | repeat split]. Qed.
