(* ===== verification/Auth.v ===== *)
(** * Rate limiting and authentication (src/src/proxy/middleware.rs, src/src/proxy/agent.rs)

    The token bucket, the agent registry and the two middlewares.  Requests are
    reduced to what the middlewares read: the method, the path and two headers; the
    rest of the server ([next.run]) is the outcome [Pass]. *)

From Stdlib Require Import SpecFloat.
From S2P Require Import Prelude Floats Text.
Open Scope Z_scope.
Open Scope conproxy_scope.

(** ** Token bucket *)

Record RateLimiter := {
  rl_capacity : Z;
  refill_rate : Z;
  tokens : Z;
  last_refill : Z
}.

Definition RateLimiter_new (now requests_per_second burst_size : Z) : RateLimiter :=
  {| rl_capacity := burst_size; refill_rate := requests_per_second;
     tokens := sat_mul 64 burst_size 1000; last_refill := now |}.

Definition with_tokens (l : RateLimiter) (t at_ : Z) : RateLimiter :=
  {| rl_capacity := rl_capacity l; refill_rate := refill_rate l; tokens := t; last_refill := at_ |}.

(** Thousandths of a token for an elapsed time. *)
Definition tokens_to_add (l : RateLimiter) (d : Z) : Z :=
  f_to_u 64 (F64.mul (F64.mul (as_secs_f64 d) (F64.of_Z (refill_rate l))) (F64.of_Z 1000)).
Definition max_tokens (l : RateLimiter) : Z := sat_mul 64 (rl_capacity l) 1000.

Definition refill (now : Z) (l : RateLimiter) : RateLimiter :=
  let d := elapsed now (last_refill l) in
  if from_millis 1 <=? d then
    with_tokens l (Z.min (tokens l +! tokens_to_add l d) (max_tokens l)) now
  else l.

(** [compare_exchange] on the tokens. *)
Definition take_token (l : RateLimiter) : bool * RateLimiter :=
  if tokens l <? 1000 then (false, l)
  else (true, with_tokens l (sat_sub (tokens l) 1000) (last_refill l)).

Definition rl_try_acquire (now : Z) (l : RateLimiter) : bool * RateLimiter := take_token (refill now l).

Definition available_tokens (now : Z) (l : RateLimiter) : Z * RateLimiter :=
  let l := refill now l in (wrap 32 (tokens l / 1000), l).

(** ** Agents *)

Record AgentIdentity := {
  ai_id : str;
  default_context : option str;
  allowed_contexts : list str;
  priority_class : Z
}.

Definition can_access_context (a : AgentIdentity) (ctx : str) : bool :=
  bool_decide (allowed_contexts a = []) || existsb (fun c => str_eqb c ctx) (allowed_contexts a).

Record AgentQuota := {
  q_requests_total : Z;
  q_cache_hits : Z;
  q_cache_misses : Z;
  q_rate_limited : Z;
  q_context_denied : Z
}.
Definition AgentQuota_new : AgentQuota :=
  {| q_requests_total := 0; q_cache_hits := 0; q_cache_misses := 0; q_rate_limited := 0; q_context_denied := 0 |}.
Definition quota_record_request (q : AgentQuota) : AgentQuota :=
  {| q_requests_total := wrap 64 (q_requests_total q + 1); q_cache_hits := q_cache_hits q;
     q_cache_misses := q_cache_misses q; q_rate_limited := q_rate_limited q;
     q_context_denied := q_context_denied q |}.
Definition quota_record_rate_limited (q : AgentQuota) : AgentQuota :=
  {| q_requests_total := q_requests_total q; q_cache_hits := q_cache_hits q;
     q_cache_misses := q_cache_misses q; q_rate_limited := wrap 64 (q_rate_limited q + 1);
     q_context_denied := q_context_denied q |}.

Definition quota_record_hit (q : AgentQuota) : AgentQuota :=
  {| q_requests_total := q_requests_total q; q_cache_hits := wrap 64 (q_cache_hits q + 1);
     q_cache_misses := q_cache_misses q; q_rate_limited := q_rate_limited q;
     q_context_denied := q_context_denied q |}.
Definition quota_record_miss (q : AgentQuota) : AgentQuota :=
  {| q_requests_total := q_requests_total q; q_cache_hits := q_cache_hits q;
     q_cache_misses := wrap 64 (q_cache_misses q + 1); q_rate_limited := q_rate_limited q;
     q_context_denied := q_context_denied q |}.
Definition quota_record_context_denied (q : AgentQuota) : AgentQuota :=
  {| q_requests_total := q_requests_total q; q_cache_hits := q_cache_hits q;
     q_cache_misses := q_cache_misses q; q_rate_limited := q_rate_limited q;
     q_context_denied := wrap 64 (q_context_denied q + 1) |}.

Record AgentEntry := {
  ae_identity : AgentIdentity;
  ae_rate_limiter : option RateLimiter;
  ae_quota : AgentQuota;
  ae_enabled : bool
}.

Record AgentConfig := {
  ac_id : str;
  ac_api_key : str;
  ac_default_context : option str;
  ac_allowed_contexts : list str;
  ac_rate_limit_rps : option Z;
  ac_priority_class : option Z;
  ac_enabled : bool
}.

Record AgentRegistry := { agents : gmap str AgentEntry; id_to_key : gmap str str }.

Definition AgentRegistry_new : AgentRegistry := {| agents := ∅; id_to_key := ∅ |}.

Definition register (now : Z) (c : AgentConfig) (r : AgentRegistry) : AgentRegistry :=
  let entry :=
    {| ae_identity := {| ai_id := ac_id c; default_context := ac_default_context c;
                         allowed_contexts := ac_allowed_contexts c;
                         priority_class := default 0 (ac_priority_class c) |};
       ae_rate_limiter := (fun rps => RateLimiter_new now rps (Z.max (sat_mul 32 rps 2) 1)) <$> ac_rate_limit_rps c;
       ae_quota := AgentQuota_new; ae_enabled := ac_enabled c |} in
  {| agents := <[ac_api_key c := entry]> (agents r); id_to_key := <[ac_id c := ac_api_key c]> (id_to_key r) |}.

Definition registry_from_config (now : Z) (cs : list AgentConfig) : AgentRegistry :=
  foldl (fun r c => register now c r) AgentRegistry_new cs.

(** The entry stays in the registry; the lookup shares its limiter and quota. *)
Definition agent_lookup (key : str) (r : AgentRegistry) : option AgentEntry :=
  match agents r !! key with
  | Some e => if negb (ae_enabled e) then None else Some e
  | None => None
  end.

Definition registry_is_empty (r : AgentRegistry) : bool := bool_decide (agents r = ∅).

Definition remove_by_id (id : str) (r : AgentRegistry) : bool * AgentRegistry :=
  match id_to_key r !! id with
  | Some key => (true, {| agents := delete key (agents r); id_to_key := delete id (id_to_key r) |})
  | None => (false, r)
  end.

(** [rotate_key], cut between the removal and the insertions. *)
Definition rotate_remove (id : str) (r : AgentRegistry) : option AgentEntry * AgentRegistry :=
  match id_to_key r !! id with
  | Some old =>
      match agents r !! old with
      | Some e => (Some e, {| agents := delete old (agents r); id_to_key := id_to_key r |})
      | None => (None, r)
      end
  | None => (None, r)
  end.
Definition rotate_key (id new_key : str) (r : AgentRegistry) : bool * AgentRegistry :=
  match rotate_remove id r with
  | (Some e, r) => (true, {| agents := <[new_key := e]> (agents r); id_to_key := <[id := new_key]> (id_to_key r) |})
  | (None, r) => (false, r)
  end.

(** ** Middleware *)

(** The [u8] accumulator of the comparison. *)
Fixpoint xor_fold (acc : Z) (a b : bytes) : Z :=
  match a, b with
  | x :: a, y :: b => xor_fold (Z.lor acc (Z.lxor x y)) a b
  | _, _ => acc
  end.
Definition constant_time_eq (a b : str) : bool :=
  if negb (str_len a =? str_len b) then false else xor_fold 0 (as_bytes a) (as_bytes b) =? 0.

(** A header value: [None] inside when it is not visible ASCII ([to_str] fails). *)
Record Request := {
  is_get : bool;
  path : str;
  h_x_api_key : option (option str);
  h_authorization : option (option str)
}.

Definition extract_api_key (r : Request) : option str :=
  match h_x_api_key r with
  | Some v => v
  | None =>
      match h_authorization r with
      | Some (Some auth) => strip_prefix (lit "Bearer ") auth
      | _ => None
      end
  end.

Definition WEB_UI_ALLOWLIST : list str :=
  map lit ["/stats"; "/stats/queries"; "/metrics"; "/audit"; "/circuit"; "/queue"; "/clients";
           "/cache/integrity"; "/cache/upstreams"; "/contexts"; "/contexts/current"]%string.

(** [str::split] on one character. *)
Fixpoint split_on (sep : char) (cur s : str) : list str :=
  match s with
  | [] => [cur]
  | c :: s => if c =? sep then cur :: split_on sep [] s else split_on sep (cur ++ [c]) s
  end.

Definition is_context_stats_path (p : str) : bool :=
  let trimmed := trim_end_by (Z.eqb 47) (trim_start_by (Z.eqb 47) p) in
  match split_on 47 [] trimmed with
  | [a; _; c] => str_eqb a (lit "contexts") && str_eqb c (lit "stats")
  | _ => false
  end.
Definition is_web_ui_allowlisted (p : str) : bool :=
  existsb (fun x => str_eqb p x) WEB_UI_ALLOWLIST || is_context_stats_path p.

Record AuthConfig := { api_key : option str; agent_registry : option AgentRegistry; web_ui_enabled : bool }.

Inductive Response :=
| Pass (who : option AgentIdentity)
| Unauthorized (msg : str)
| TooManyRequests.

Definition set_entry (key : str) (e : AgentEntry) (c : AuthConfig) : AuthConfig :=
  {| api_key := api_key c;
     agent_registry := (fun r => {| agents := <[key := e]> (agents r); id_to_key := id_to_key r |}) <$> agent_registry c;
     web_ui_enabled := web_ui_enabled c |}.

Definition global_key_check (key : str) (c : AuthConfig) : Response :=
  match api_key c with
  | Some expected => if constant_time_eq key expected then Pass None else Unauthorized (lit "Invalid API key")
  | None => Unauthorized (lit "Invalid API key")
  end.

Definition agent_of (key : str) (c : AuthConfig) : option AgentEntry :=
  match agent_registry c with
  | Some r => if registry_is_empty r then None else agent_lookup key r
  | None => None
  end.

(** The per-agent limiter, and the entry after the request. *)
Definition admit_agent (now : Z) (e : AgentEntry) : bool * AgentEntry :=
  match ae_rate_limiter e with
  | Some l =>
      let '(ok, l) := rl_try_acquire now l in
      (ok, {| ae_identity := ae_identity e; ae_rate_limiter := Some l;
              ae_quota := if ok then quota_record_request (ae_quota e) else quota_record_rate_limited (ae_quota e);
              ae_enabled := ae_enabled e |})
  | None => (true, {| ae_identity := ae_identity e; ae_rate_limiter := None;
                      ae_quota := quota_record_request (ae_quota e); ae_enabled := ae_enabled e |})
  end.

Definition has_auth (c : AuthConfig) : bool :=
  bool_decide (is_Some (api_key c)) ||
  match agent_registry c with Some r => negb (registry_is_empty r) | None => false end.

Definition auth_middleware (now : Z) (req : Request) (c : AuthConfig) : Response * AuthConfig :=
  if web_ui_enabled c && is_get req && is_web_ui_allowlisted (path req) then (Pass None, c)
  else if negb (has_auth c) then (Pass None, c)
  else
    match extract_api_key req with
    | None => (Unauthorized (lit "API key required (provide via X-API-Key or Authorization: Bearer header)"), c)
    | Some key =>
        match agent_of key c with
        | Some e =>
            let '(ok, e') := admit_agent now e in
            (if ok then Pass (Some (ae_identity e)) else TooManyRequests, set_entry key e' c)
        | None => (global_key_check key c, c)
        end
    end.

(** The global limiter; a request with an identity has been limited already. *)
Definition rate_limit_middleware (now : Z) (who : option AgentIdentity) (limiter : option RateLimiter)
  : Response * option RateLimiter :=
  match limiter with
  | None => (Pass who, None)
  | Some l =>
      match who with
      | Some _ => (Pass who, Some l)
      | None => let '(ok, l) := rl_try_acquire now l in (if ok then Pass None else TooManyRequests, Some l)
      end
  end.

(** The two layers of the protected routes (src/src/proxy/server/mod.rs): the
    authentication runs first. *)
Definition protected (now : Z) (req : Request) (c : AuthConfig) (limiter : option RateLimiter)
  : Response * AuthConfig * option RateLimiter :=
  let '(resp, c) := auth_middleware now req c in
  match resp with
  | Pass who => let '(resp, limiter) := rate_limit_middleware now who limiter in (resp, c, limiter)
  | _ => (resp, c, limiter)
  end.

(** ** Properties of the comparison *)

Lemma xor_fold_zero a : forall acc b, length a = length b ->
  xor_fold acc a b = 0 <-> acc = 0 /\ a = b.
Proof.
  induction a as [|x a IH]; intros acc [|y b] Hl; simpl in *; try lia; [tauto|].
  rewrite IH by lia. rewrite Z.lor_eq_0_iff. split.
  - intros [[H1 H2%Z.lxor_eq] ->]. by subst.
  - intros [-> [= -> ->]]. by rewrite Z.lxor_nilpotent.
Qed.

Lemma constant_time_eq_spec a b : constant_time_eq a b = true <-> as_bytes a = as_bytes b.
Proof.
  unfold constant_time_eq, str_len. destruct (zlen (as_bytes a) =? zlen (as_bytes b)) eqn:E; simpl; reflect_Z.
  - rewrite Z.eqb_eq, xor_fold_zero by (unfold zlen in E; lia). tauto.
  - split; [done|]. intros Hab. by rewrite Hab in E.
Qed.

(** ** Properties of authentication *)


(** An agent without a limit of its own is not limited at all: the global limiter
    lets every request with an identity through. *)
Lemma agent_without_limit_unlimited now req c limiter key e :
  web_ui_enabled c = false -> extract_api_key req = Some key -> agent_of key c = Some e ->
  ae_rate_limiter e = None -> has_auth c = true ->
  fst (fst (protected now req c limiter)) = Pass (Some (ae_identity e)).
Proof.
  intros Hw Hk He Hl Ha. unfold protected, auth_middleware. rewrite Hw, Ha, Hk, He. simpl.
  unfold admit_agent. rewrite Hl. simpl. by destruct limiter.
Qed.

(** ** Properties of the registry *)

(** Registering an agent again under a new key leaves the old key valid, and
    removing the agent by its name does not remove it. *)
Lemma old_key_survives now c c' r :
  ac_id c = ac_id c' -> ac_api_key c <> ac_api_key c' -> ac_enabled c = true ->
  let r1 := register now c' (register now c r) in
  is_Some (agent_lookup (ac_api_key c) r1) /\
  is_Some (agent_lookup (ac_api_key c) (snd (remove_by_id (ac_id c) r1))).
Proof.
  intros Hid Hk He. unfold remove_by_id, agent_lookup. simpl. rewrite Hid, lookup_insert_eq. simpl.
  rewrite lookup_delete_ne by done. rewrite lookup_insert_ne by done. rewrite lookup_insert_eq. simpl.
  rewrite He. simpl. split; by eexists.
Qed.

(** Between the two halves of [rotate_key] neither key is valid. *)
Lemma rotate_window r id new_key old e :
  id_to_key r !! id = Some old -> agents r !! old = Some e -> agents r !! new_key = None ->
  agent_lookup old (snd (rotate_remove id r)) = None /\
  agent_lookup new_key (snd (rotate_remove id r)) = None.
Proof.
  intros Ho He Hn. unfold rotate_remove, agent_lookup. rewrite Ho, He. simpl.
  assert (delete old (agents r) !! new_key = None) as -> by (apply lookup_delete_None; auto).
  by rewrite lookup_delete_eq.
Qed.

(** Rotation moves the agent from its old key to the new one. *)
Lemma rotate_key_spec r id new_key old e :
  id_to_key r !! id = Some old -> agents r !! old = Some e -> old <> new_key ->
  let '(ok, r') := rotate_key id new_key r in
  ok = true /\ agents r' !! new_key = Some e /\ agents r' !! old = None /\ id_to_key r' !! id = Some new_key /\
  forall k, k <> old -> k <> new_key -> agents r' !! k = agents r !! k.
Proof.
  intros Ho He Hne. unfold rotate_key, rotate_remove. rewrite Ho, He. simpl. split_and!; try done.
  - by rewrite lookup_insert_eq.
  - rewrite lookup_insert_ne by done. by rewrite lookup_delete_eq.
  - by rewrite lookup_insert_eq.
  - intros k H1 H2. rewrite lookup_insert_ne, lookup_delete_ne by done. done.
Qed.

(** ** Properties of the token bucket *)

(** A run of [try_acquire] calls: how many were admitted, and what the refills
    added. *)
Fixpoint limiter_run (ts : list Z) (l : RateLimiter) : Z * Z * RateLimiter :=
  match ts with
  | [] => (0, 0, l)
  | t :: ts =>
      let d := elapsed t (last_refill l) in
      let added := if from_millis 1 <=? d then tokens_to_add l d else 0 in
      let '(ok, l) := rl_try_acquire t l in
      let '(n, a, l) := limiter_run ts l in
      ((if ok then 1 else 0) + n, added + a, l)
  end.

Record limiter_ok (l : RateLimiter) : Prop := {
  lo_tokens : 0 <= tokens l <= max_tokens l;
  lo_cap : in_u 32 (rl_capacity l);
  lo_rate : in_u 32 (refill_rate l)
}.

Lemma max_tokens_eq l : in_u 32 (rl_capacity l) -> max_tokens l = rl_capacity l * 1000.
Proof. unfold in_u, max_tokens, sat_mul, u_max. intros. apply Z.min_l. lia. Qed.

Lemma RateLimiter_new_ok now rps burst : in_u 32 rps -> in_u 32 burst -> limiter_ok (RateLimiter_new now rps burst).
Proof.
  intros Hr Hb. split; simpl; try done. change (max_tokens (RateLimiter_new now rps burst)) with (sat_mul 64 burst 1000).
  unfold sat_mul, in_u, u_max in *. lia.
Qed.

Lemma tokens_to_add_nonneg l d : 0 <= tokens_to_add l d.
Proof. apply f_to_u_range. lia. Qed.

Lemma refill_ok now l : limiter_ok l ->
  limiter_ok (refill now l) /\ max_tokens (refill now l) = max_tokens l /\
  let d := elapsed now (last_refill l) in
  tokens (refill now l) <= tokens l + (if from_millis 1 <=? d then tokens_to_add l d else 0).
Proof.
  intros [Ht Hc Hr]. unfold refill. destruct (_ <=? _); simpl.
  - pose proof (tokens_to_add_nonneg l (elapsed now (last_refill l))). unfold sat_add.
    assert (0 <= u_max 64) by (apply u_max_nonneg; lia).
    split_and!; [split; simpl; try done|done|lia].
    change (max_tokens (with_tokens l _ now)) with (max_tokens l). lia.
  - split_and!; [done|done|lia].
Qed.

Lemma take_token_ok l : limiter_ok l ->
  let '(ok, l') := take_token l in
  limiter_ok l' /\ max_tokens l' = max_tokens l /\ tokens l' = tokens l - (if ok then 1000 else 0).
Proof.
  intros [Ht Hc Hr]. unfold take_token. destruct (tokens l <? 1000) eqn:E; reflect_Z.
  - split_and!; [done|done|lia].
  - unfold sat_sub. split_and!; simpl; [|done|lia]. split; simpl; try done.
    change (max_tokens (with_tokens l _ _)) with (max_tokens l). lia.
Qed.

Lemma limiter_run_spec ts : forall l n a l', limiter_ok l -> limiter_run ts l = (n, a, l') ->
  limiter_ok l' /\ max_tokens l' = max_tokens l /\ 0 <= n /\ 1000 * n + tokens l' <= tokens l + a.
Proof.
  induction ts as [|t ts IH]; intros l n a l' Hok; simpl.
  - intros [= <- <- <-]. split_and!; [done|done|lia|lia].
  - unfold rl_try_acquire. destruct (refill_ok t l Hok) as (Hok1 & Hm1 & Hr).
    pose proof (take_token_ok (refill t l) Hok1) as Ht.
    destruct (take_token (refill t l)) as [ok l1]. destruct Ht as (Hok2 & Hm2 & Htok).
    destruct (limiter_run ts l1) as [[n1 a1] l2] eqn:E. intros [= <- <- <-].
    destruct (IH _ _ _ _ Hok2 E) as (Hok3 & Hm3 & Hn & Hb). simpl in Hr.
    split_and!; [done|congruence|destruct ok; lia|destruct ok; lia].
Qed.



(** ** Concurrent calls

    [refill] holds the lock of [last_refill], but [try_acquire] takes its token
    outside it: another call may take one between the load and the store of a
    refill.  The phases of a call, and the events of a run. *)
Inductive RcPhase := RcStoring (new_tokens at_ : Z) | RcReady | RcDone (ok : bool).
Inductive RcEvent := RcTick (dt : Z) | RcRefill (t : Z) | RcStore (t : Z) | RcTake (t : Z).
Record RcState := { rc_lim : RateLimiter; rc_calls : gmap Z RcPhase; rc_locked : bool; rc_now : Z }.

Definition rc_set (s : RcState) (l : RateLimiter) (t : Z) (ph : RcPhase) (locked : bool) : RcState :=
  {| rc_lim := l; rc_calls := <[t := ph]> (rc_calls s); rc_locked := locked; rc_now := rc_now s |}.

Definition rc_exec (e : RcEvent) (s : RcState) : option RcState :=
  match e with
  | RcTick dt =>
      if 0 <=? dt then Some {| rc_lim := rc_lim s; rc_calls := rc_calls s; rc_locked := rc_locked s; rc_now := rc_now s + dt |}
      else None
  | RcRefill t =>
      match rc_calls s !! t, rc_locked s with
      | None, false =>
          let l := rc_lim s in
          if from_millis 1 <=? elapsed (rc_now s) (last_refill l)
          then Some (rc_set s l t (RcStoring (tokens (refill (rc_now s) l)) (rc_now s)) true)
          else Some (rc_set s l t RcReady false)
      | _, _ => None
      end
  | RcStore t =>
      match rc_calls s !! t with
      | Some (RcStoring n at_) => Some (rc_set s (with_tokens (rc_lim s) n at_) t RcReady false)
      | _ => None
      end
  | RcTake t =>
      match rc_calls s !! t with
      | Some RcReady => let '(ok, l) := take_token (rc_lim s) in Some (rc_set s l t (RcDone ok) (rc_locked s))
      | _ => None
      end
  end.

Fixpoint rc_run (es : list RcEvent) (s : RcState) : option RcState :=
  match es with
  | [] => Some s
  | e :: es => match rc_exec e s with Some s => rc_run es s | None => None end
  end.

Definition rc_start (l : RateLimiter) : RcState :=
  {| rc_lim := l; rc_calls := ∅; rc_locked := false; rc_now := last_refill l |}.
Definition rc_admitted (s : RcState) : Z :=
  msum (fun ph => match ph with RcDone true => 1 | _ => 0 end) (rc_calls s).

(** Within a millisecond of the last refill at most one refill happens. *)
Lemma added_one_ms ts : forall l n a l',
  Forall (fun t => 0 <= t <= from_millis 1) ts -> refill_rate l = 1 ->
  last_refill l = 0 \/ last_refill l = from_millis 1 -> limiter_run ts l = (n, a, l') ->
  a <= (if last_refill l =? 0 then 1 else 0).
Proof.
  induction ts as [|t ts IH]; intros l n a l' Hts Hrate Hlast; cbn [limiter_run].
  - intros [= <- <- <-]. destruct (_ =? 0); lia.
  - apply Forall_cons in Hts as [Ht Hts].
    destruct (rl_try_acquire t l) as [ok l1] eqn:Ea. destruct (limiter_run ts l1) as [[n1 a1] l2] eqn:Er.
    intros [= <- <- <-]. change (Z.pos (1 * 1000000)) with (from_millis 1).
    assert (Hl1 : refill_rate l1 = 1 /\ last_refill l1 = (if from_millis 1 <=? elapsed t (last_refill l) then t else last_refill l)).
    { unfold rl_try_acquire, take_token, refill in Ea.
      destruct (from_millis 1 <=? _); simpl in Ea; destruct (_ <? 1000); injection Ea as <- <-; done. }
    destruct Hl1 as [Hr1 Hl1].
    assert (from_millis 1 = 1000000) as Hms by done. unfold elapsed in *.
    destruct (from_millis 1 <=? Z.max (t - last_refill l) 0) eqn:E; reflect_Z.
    + assert (last_refill l = 0 /\ t = from_millis 1) as [H0 H1] by lia.
      specialize (IH l1 n1 a1 l2 Hts Hr1 ltac:(right; congruence) Er). rewrite Hl1, H1, Hms in IH. simpl in IH.
      assert (tokens_to_add l (Z.max (t - last_refill l) 0) = 1) as ->.
      { unfold tokens_to_add. rewrite Hrate, H0, H1. vm_compute. reflexivity. }
      rewrite H0, Z.eqb_refl. lia.
    + specialize (IH l1 n1 a1 l2 Hts Hr1 ltac:(congruence) Er). rewrite Hl1 in IH. lia.
Qed.

(** Two concurrent calls can take the one token of a bucket of capacity one
    within a millisecond, at one request per second, because a refill writes back
    the tokens it read before another call took one; calls that run one after the
    other never admit more than one request in that time. *)
Theorem limiter_race :
  (exists es s, rc_run es (rc_start (RateLimiter_new 0 1 1)) = Some s /\
     rc_now s = from_millis 1 /\ rc_admitted s = 2) /\
  (forall ts, Forall (fun t => 0 <= t <= from_millis 1) ts ->
     let '(n, _, _) := limiter_run ts (RateLimiter_new 0 1 1) in n <= 1).
Proof.
  split.
  - exists [RcRefill 1; RcTick (from_millis 1); RcRefill 2; RcTake 1; RcStore 2; RcTake 2].
    eexists. split_and!; vm_compute; reflexivity.
  - intros ts Hts. destruct (limiter_run ts (RateLimiter_new 0 1 1)) as [[n a] l'] eqn:E.
    pose proof (added_one_ms ts (RateLimiter_new 0 1 1) n a l' Hts eq_refl ltac:(by left) E) as Ha. simpl in Ha.
    destruct (limiter_run_spec ts _ n a l' (RateLimiter_new_ok 0 1 1 ltac:(split; discriminate) ltac:(split; discriminate)) E)
      as ([Ht _ _] & _ & _ & Hb).
    change (tokens (RateLimiter_new 0 1 1)) with 1000 in Hb. lia.
Qed.
