(* ===== verification/Adaptive.v ===== *)
(** * Adaptive timeouts (src/src/proxy/adaptive.rs)

    A ring buffer of latencies in microseconds, the timeout computed from their
    99th percentile, and the time budget of a request. *)

From Stdlib Require Import SpecFloat.
From S2P Require Import Prelude Floats.
Open Scope Z_scope.
Open Scope conproxy_scope.

Record AdaptiveTimeoutConfig := {
  min_timeout : Z;
  max_timeout : Z;
  latency_multiplier : f64;
  sample_size : Z;
  initial_timeout : Z
}.

Definition AdaptiveTimeoutConfig_default : AdaptiveTimeoutConfig :=
  {| min_timeout := from_millis 100; max_timeout := from_secs 30; latency_multiplier := F64.of_Z 2;
     sample_size := 100; initial_timeout := from_secs 5 |}.

Record AdaptiveTimeout := {
  at_config : AdaptiveTimeoutConfig;
  samples : list Z;
  write_pos : Z;
  sample_count : Z;
  cached_p99 : Z;
  current_timeout : Z
}.

Definition AdaptiveTimeout_new (c : AdaptiveTimeoutConfig) : AdaptiveTimeout :=
  {| at_config := c; samples := []; write_pos := 0; sample_count := 0; cached_p99 := 0;
     current_timeout := as_micros_u64 (initial_timeout c) |}.

(** The latency that a percentile picks out of the sorted samples. *)
Definition percentile_index (q : f64) (len : Z) : Z :=
  Z.min (sat_sub (f_ceil_to_u 64 (F64.mul (F64.of_Z len) q)) 1) (sat_sub len 1).
Definition percentile (q : f64) (sorted : list Z) : Z :=
  default 0 (sorted !! Z.to_nat (percentile_index q (zlen sorted))).

(** [u64::clamp] panics when the bounds are the wrong way round. *)
Definition clamp_u64 (x lo hi : Z) : outcome Z :=
  if lo <=? hi then Ret (Z.min (Z.max x lo) hi) else Panic.

Definition recalculate (a : AdaptiveTimeout) : outcome AdaptiveTimeout :=
  match samples a with
  | [] => Ret a
  | _ =>
      let c := at_config a in
      let sorted := sort_by Z.leb (samples a) in
      let p99_us := percentile (F64.lit 99 100) sorted in
      let timeout_us := f_to_u 64 (F64.mul (F64.of_Z p99_us) (latency_multiplier c)) in
      let! t := clamp_u64 timeout_us (as_micros_u64 (min_timeout c)) (as_micros_u64 (max_timeout c)) in
      Ret {| at_config := c; samples := samples a; write_pos := write_pos a; sample_count := sample_count a;
             cached_p99 := p99_us; current_timeout := t |}
  end.

(** The write into the ring buffer, under the lock. *)
Definition ring_write {A} (size pos : Z) (x : A) (l : list A) : list A :=
  if zlen l <? size then l ++ [x]
  else <[Z.to_nat (if size =? 0 then 0 else pos mod size) := x]> l.

Definition at_record (latency : Z) (a : AdaptiveTimeout) : outcome AdaptiveTimeout :=
  let a :=
    {| at_config := at_config a;
       samples := ring_write (sample_size (at_config a)) (write_pos a) (as_micros_u64 latency) (samples a);
       write_pos := wrap 64 (write_pos a + 1); sample_count := wrap 64 (sample_count a + 1);
       cached_p99 := cached_p99 a; current_timeout := current_timeout a |} in
  if sample_count a mod 10 =? 0 then recalculate a else Ret a.

Definition at_timeout (a : AdaptiveTimeout) : Z := from_micros (current_timeout a).
Definition p99_latency (a : AdaptiveTimeout) : Z := from_micros (cached_p99 a).

Definition at_reset (a : AdaptiveTimeout) : AdaptiveTimeout := AdaptiveTimeout_new (at_config a).

Record AdaptiveTimeoutStats := {
  as_sample_count : Z;
  min_latency_ms : f64;
  max_latency_ms : f64;
  avg_latency_ms : f64;
  p50_latency_ms : f64;
  p95_latency_ms : f64;
  p99_latency_ms : f64;
  current_timeout_ms : f64
}.

Definition millis (us : Z) : f64 := F64.div (F64.of_Z us) (F64.of_Z 1000).

(** [iter().sum()] of [u64]s wraps in a release build. *)
Definition at_stats (a : AdaptiveTimeout) : AdaptiveTimeoutStats :=
  match samples a with
  | [] => {| as_sample_count := 0; min_latency_ms := f_zero; max_latency_ms := f_zero; avg_latency_ms := f_zero;
             p50_latency_ms := f_zero; p95_latency_ms := f_zero; p99_latency_ms := f_zero;
             current_timeout_ms := millis (current_timeout a) |}
  | _ =>
      let sorted := sort_by Z.leb (samples a) in
      let sum := foldl (fun acc x => wrap 64 (acc + x)) 0 sorted in
      {| as_sample_count := sample_count a; min_latency_ms := millis (default 0 (head sorted));
         max_latency_ms := millis (default 0 (last sorted)); avg_latency_ms := millis (sum / zlen sorted);
         p50_latency_ms := millis (percentile (F64.lit 1 2) sorted);
         p95_latency_ms := millis (percentile (F64.lit 95 100) sorted);
         p99_latency_ms := millis (percentile (F64.lit 99 100) sorted);
         current_timeout_ms := millis (current_timeout a) |}
  end.

(** ** Time budgets *)

Record TimeoutBudget := { deadline : Z; original : Z }.
Definition TimeoutBudget_new (now timeout : Z) : TimeoutBudget := {| deadline := now + timeout; original := timeout |}.
Definition from_adaptive (now : Z) (a : AdaptiveTimeout) : TimeoutBudget := TimeoutBudget_new now (at_timeout a).
Definition remaining (now : Z) (b : TimeoutBudget) : Z := Z.max (deadline b - now) 0.
Definition is_expired (now : Z) (b : TimeoutBudget) : bool := deadline b <=? now.
Definition budget_elapsed (now : Z) (b : TimeoutBudget) : Z := sat_sub (original b) (remaining now b).
Definition remaining_fraction (now : Z) (b : TimeoutBudget) : f64 :=
  if original b =? 0 then f_zero else F64.div (as_secs_f64 (remaining now b)) (as_secs_f64 (original b)).

(** ** The ring buffer *)

(** What the buffer holds after the latencies [h] (oldest first). *)
Record ring_ok {A} (k : nat) (h l : list A) : Prop := {
  r_perm : l ≡ₚ drop (length h - k) h;
  r_place : forall j, (length h - k <= j < length h)%nat -> l !! (j mod k)%nat = h !! j
}.

Lemma ring_write_ok {A} k (h l : list A) x : (0 < k)%nat -> ring_ok k h l ->
  ring_ok k (h ++ [x]) (ring_write (Z.of_nat k) (Z.of_nat (length h)) x l).
Proof.
  intros Hk [Hp Hpl]. assert (Hlen : length l = Nat.min (length h) k).
  { rewrite Hp, length_drop. lia. }
  unfold ring_write. destruct (zlen l <? Z.of_nat k) eqn:E; reflect_Z; unfold zlen in E.
  - assert (length h < k)%nat by lia. replace (length h - k)%nat with 0%nat in Hp by lia. split.
    + rewrite length_app. simpl. replace (length h + 1 - k)%nat with 0%nat by lia. simpl. by rewrite Hp.
    + intros j Hj. rewrite length_app in Hj. simpl in Hj. rewrite Nat.mod_small by lia.
      destruct (decide (j = length h)) as [->|Hne].
      * rewrite !lookup_app_r by lia. by rewrite Hlen, Nat.min_l, !Nat.sub_diag by lia.
      * rewrite !lookup_app_l by lia. rewrite <- Hpl by lia. by rewrite Nat.mod_small by lia.
  - assert (k <= length h)%nat as Hkh by lia.
    destruct (Z.of_nat k =? 0) eqn:Ez; reflect_Z; [lia|].
    rewrite <- Nat2Z.inj_mod, Nat2Z.id. set (i := (length h mod k)%nat).
    assert (i < k)%nat by (apply Nat.mod_upper_bound; lia).
    assert (((length h - k) mod k)%nat = i) as Hi.
    { unfold i. replace (length h) with (length h - k + 1 * k)%nat at 2 by lia. by rewrite Nat.Div0.mod_add. }
    destruct (lookup_lt_is_Some_2 h (length h - k)) as [a Ha]; [lia|].
    assert (l !! i = Some a) as Hla by (rewrite <- Hi, Hpl by lia; done).
    split.
    + rewrite length_app. simpl. rewrite drop_app_le by lia.
      rewrite (drop_S _ _ _ Ha) in Hp. replace (length h + 1 - k)%nat with (S (length h - k)) by lia.
      apply list_elem_of_split_length in Hla as (l1 & l2 & -> & Hl1).
      rewrite insert_app_r_alt by lia. rewrite Hl1, Nat.sub_diag. simpl.
      rewrite <- Permutation_middle in Hp |- *. apply Permutation_cons_inv in Hp.
      rewrite Hp. by rewrite Permutation_app_comm.
    + intros j Hj. rewrite length_app in Hj. simpl in Hj.
      destruct (decide (j = length h)) as [->|Hne].
      * fold i. rewrite list_lookup_insert_eq by lia. rewrite lookup_app_r by lia. by rewrite Nat.sub_diag.
      * rewrite lookup_app_l by lia. rewrite list_lookup_insert_ne; [apply Hpl; lia|].
        unfold i. intros Heq.
        assert (length h = j + k * ((length h) / k - j / k))%nat.
        { pose proof (Nat.div_mod_eq (length h) k). pose proof (Nat.div_mod_eq j k).
          assert (j / k <= length h / k)%nat by (apply Nat.Div0.div_le_mono; lia). nia. }
        destruct (length h / k - j / k)%nat as [|[|]]; nia.
Qed.

(** ** Runs *)

Fixpoint at_run (h : list Z) (a : AdaptiveTimeout) : outcome AdaptiveTimeout :=
  match h with
  | [] => Ret a
  | x :: h => let! a := at_record x a in at_run h a
  end.

Record adaptive_ok (c : AdaptiveTimeoutConfig) (h : list Z) (a : AdaptiveTimeout) : Prop := {
  ao_config : at_config a = c;
  ao_ring : ring_ok (Z.to_nat (sample_size c)) (map as_micros_u64 h) (samples a);
  ao_pos : write_pos a = zlen h;
  ao_count : sample_count a = zlen h;
  ao_timeout :
    if zlen h <? 10 then current_timeout a = as_micros_u64 (initial_timeout c)
    else as_micros_u64 (min_timeout c) <= current_timeout a <= as_micros_u64 (max_timeout c)
}.

Lemma recalculate_bounds a :
  as_micros_u64 (min_timeout (at_config a)) <= as_micros_u64 (max_timeout (at_config a)) -> samples a <> [] ->
  exists a', recalculate a = Ret a' /\ at_config a' = at_config a /\ samples a' = samples a /\
    write_pos a' = write_pos a /\ sample_count a' = sample_count a /\
    as_micros_u64 (min_timeout (at_config a)) <= current_timeout a' <= as_micros_u64 (max_timeout (at_config a)).
Proof.
  intros Hb Hne. unfold recalculate, clamp_u64. destruct (samples a) eqn:E; [done|]. rewrite <- E. clear E.
  rewrite (proj2 (Z.leb_le _ _) Hb). simpl. eexists. split; [done|]. simpl. split_and!; try done; lia.
Qed.

Lemma at_record_ok c h a x :
  0 < sample_size c -> as_micros_u64 (min_timeout c) <= as_micros_u64 (max_timeout c) ->
  zlen h + 1 < 2 ^ 64 -> adaptive_ok c h a ->
  exists a', at_record x a = Ret a' /\ adaptive_ok c (h ++ [x]) a'.
Proof.
  intros Hk Hb Hlen [Hc Hr Hp Hn Ht]. unfold at_record. rewrite Hc, Hp, Hn.
  pose proof (zlen_nonneg h).
  rewrite !wrap_small by (unfold in_u, u_max; lia).
  set (l' := ring_write _ _ _ _).
  assert (Hr' : ring_ok (Z.to_nat (sample_size c)) (map as_micros_u64 (h ++ [x])) l').
  { unfold l'. rewrite map_app. simpl. replace (zlen h) with (Z.of_nat (length (map as_micros_u64 h)))
      by (unfold zlen; by rewrite length_map).
    rewrite <- (Z2Nat.id (sample_size c)) at 2 by lia. apply ring_write_ok; [lia|done]. }
  assert (Hz : zlen (h ++ [x]) = zlen h + 1) by (rewrite zlen_app, zlen_cons, zlen_nil; lia).
  simpl. destruct ((zlen h + 1) mod 10 =? 0) eqn:E; reflect_Z.
  - set (a1 := {| at_config := c; samples := l' |}).
    destruct (recalculate_bounds a1) as (a' & -> & H1 & H2 & H3 & H4 & H5); [done| |].
    { simpl. intros E0. destruct Hr' as [Hp' _]. rewrite E0 in Hp'. apply Permutation_nil_l in Hp'.
      assert (length (drop (length (map as_micros_u64 (h ++ [x])) - Z.to_nat (sample_size c))
                (map as_micros_u64 (h ++ [x]))) = 0%nat) as Hl by (by rewrite <- Hp').
      rewrite length_drop, length_map, length_app in Hl. simpl in Hl. lia. }
    exists a'. split; [done|]. split; rewrite ?H1, ?H2, ?H3, ?H4; simpl; try done.
    rewrite Hz. destruct (zlen h + 1 <? 10) eqn:E1; reflect_Z; [|done].
    rewrite Z.mod_small in E by lia. lia.
  - eexists. split; [done|]. split; simpl; try done.
    rewrite Hz. destruct (zlen h + 1 <? 10) eqn:E1, (zlen h <? 10) eqn:E2; reflect_Z; try done; try lia.
    assert (zlen h + 1 = 10) as E3 by lia. rewrite E3 in E. done.
Qed.

Lemma at_run_ok c h' : forall h a,
  0 < sample_size c -> as_micros_u64 (min_timeout c) <= as_micros_u64 (max_timeout c) ->
  zlen (h ++ h') < 2 ^ 64 -> adaptive_ok c h a ->
  exists a', at_run h' a = Ret a' /\ adaptive_ok c (h ++ h') a'.
Proof.
  induction h' as [|x h' IH]; intros h a Hk Hb Hlen Hok; simpl.
  - rewrite app_nil_r. by exists a.
  - rewrite zlen_app, zlen_cons in Hlen. pose proof (zlen_nonneg h').
    destruct (at_record_ok c h a x) as (a1 & -> & Hok1); [done|done|lia|done|]. simpl.
    destruct (IH (h ++ [x]) a1) as (a2 & Hr & Hok2); [done|done| |done|].
    + rewrite !zlen_app, zlen_cons, zlen_nil. lia.
    + exists a2. split; [done|]. by rewrite <- app_assoc in Hok2.
Qed.

(** After any sequence of latencies the samples are the last [sample_size] of
    them, and the recommended timeout is the initial one for the first nine and lies
    between the configured minimum and maximum from the tenth on; no record panics
    when the minimum is not above the maximum. *)
Theorem adaptive_window c h :
  0 < sample_size c -> as_micros_u64 (min_timeout c) <= as_micros_u64 (max_timeout c) -> zlen h < 2 ^ 64 ->
  exists a, at_run h (AdaptiveTimeout_new c) = Ret a /\
    samples a ≡ₚ drop (length h - Z.to_nat (sample_size c)) (map as_micros_u64 h) /\
    sample_count a = zlen h /\
    if zlen h <? 10 then current_timeout a = as_micros_u64 (initial_timeout c)
    else as_micros_u64 (min_timeout c) <= current_timeout a <= as_micros_u64 (max_timeout c).
Proof.
  intros Hk Hb Hlen. destruct (at_run_ok c h [] (AdaptiveTimeout_new c)) as (a & Hr & [H1 [H2 _] H3 H4 H5]);
    [done|done|done| |].
  - by split; simpl.
  - exists a. rewrite length_map in H2. split_and!; done.
Qed.

Lemma adaptive_window_witness :
  exists a, at_run (map from_millis [10; 20; 30]) (AdaptiveTimeout_new AdaptiveTimeoutConfig_default) = Ret a /\
    samples a ≡ₚ [10000; 20000; 30000] /\ current_timeout a = 5000000.
Proof.
  destruct (adaptive_window AdaptiveTimeoutConfig_default (map from_millis [10; 20; 30])) as (a & H1 & H2 & _ & H3);
    [simpl; lia | vm_compute; discriminate | vm_compute; reflexivity |].
  exists a. split; [exact H1 | split; [exact H2 | exact H3]].
Defined.

(** A budget is spent exactly when nothing remains, and what has elapsed and what
    remains make up the timeout until then. *)
Lemma budget_accounts now t timeout :
  0 <= timeout -> now <= t ->
  let b := TimeoutBudget_new now timeout in
  (is_expired t b = true <-> remaining t b = 0) /\ budget_elapsed t b + remaining t b = timeout.
Proof.
  intros H1 H2. unfold budget_elapsed, is_expired, remaining, sat_sub, TimeoutBudget_new. simpl.
  rewrite Z.leb_le. split; [split; intros; lia|lia].
Qed.
