(* ===== verification/Federated.v ===== *)
(** * Federated search (src/src/proxy/federated.rs)

    Local results first, remote results when the local ones do not suffice, and the
    four ways to merge the two. *)

From Stdlib Require Import SpecFloat.
From S2P Require Import Prelude Floats Text Types.
Open Scope Z_scope.
Open Scope conproxy_scope.

Inductive ResultSource := Local | Remote.
#[export] Instance ResultSource_eq_dec : EqDecision ResultSource.
Proof. solve_decision. Defined.

Record FederatedResult := { fr_result : SearchResult; fr_source : ResultSource }.
Definition fr_local (r : SearchResult) : FederatedResult := {| fr_result := r; fr_source := Local |}.
Definition fr_remote (r : SearchResult) : FederatedResult := {| fr_result := r; fr_source := Remote |}.
Definition fr_id (f : FederatedResult) : str := sr_id (fr_result f).

Inductive MergeMode := LocalOnlyFallback | LocalPriority | RemotePriority | Interleave.
#[export] Instance MergeMode_eq_dec : EqDecision MergeMode.
Proof. solve_decision. Defined.

Definition merge_mode_parse `{UnicodeCase} (s : str) : MergeMode :=
  let l := to_lowercase s in
  let eqs x := str_eqb l (lit x) in
  if eqs "local_only_fallback"%string || eqs "localonly"%string || eqs "fallback"%string then LocalOnlyFallback
  else if eqs "local_priority"%string || eqs "local"%string then LocalPriority
  else if eqs "remote_priority"%string || eqs "remote"%string then RemotePriority
  else if eqs "interleave"%string || eqs "blend"%string || eqs "merge"%string then Interleave
  else LocalOnlyFallback.

Inductive FallbackDecision := LocalSufficient | EmptyLocal | BelowMinResults | LowConfidence | AlwaysRemote.
#[export] Instance FallbackDecision_eq_dec : EqDecision FallbackDecision.
Proof. solve_decision. Defined.

Record FederatedSearchConfig := {
  fs_enabled : bool;
  min_local_results : Z;
  min_local_confidence : f32;
  fallback_on_empty : bool;
  fallback_on_low_confidence : bool;
  merge_mode : MergeMode;
  max_merged_results : Z
}.

Definition FederatedSearchConfig_default : FederatedSearchConfig :=
  {| fs_enabled := false; min_local_results := 3; min_local_confidence := F32.lit 7 10;
     fallback_on_empty := true; fallback_on_low_confidence := true; merge_mode := LocalOnlyFallback;
     max_merged_results := 10 |}.

Record FederatedStats := {
  local_count : Z;
  remote_count : Z;
  merged_count : Z;
  duplicates_removed : Z;
  remote_queried : bool;
  fallback_reason : option str;
  local_latency_ms : Z;
  remote_latency_ms : option Z
}.

Definition should_query_remote (c : FederatedSearchConfig) (local : list SearchResult) : FallbackDecision :=
  match merge_mode c with
  | Interleave | RemotePriority => AlwaysRemote
  | _ =>
      match local with
      | [] => if fallback_on_empty c then EmptyLocal else LocalSufficient
      | _ =>
          if zlen local <? min_local_results c then BelowMinResults
          else if fallback_on_low_confidence c &&
                  f_lt (foldl f_max f_zero (map score local)) (min_local_confidence c) then LowConfidence
          else LocalSufficient
      end
  end.

(** Keep the first of each identifier that has not been seen; the number dropped. *)
Fixpoint dedup (seen : gset str) (l : list FederatedResult) (dropped : Z) : list FederatedResult * Z :=
  match l with
  | [] => ([], dropped)
  | f :: l =>
      if decide (fr_id f ∈ seen) then dedup seen l (dropped +! 1)
      else let '(k, d) := dedup ({[fr_id f]} ∪ seen) l dropped in (f :: k, d)
  end.

Definition merge_priority (local remote : list SearchResult) (local_first : bool) : list FederatedResult * Z :=
  let primary := if local_first then map fr_local local else map fr_remote remote in
  let secondary := if local_first then map fr_remote remote else map fr_local local in
  let '(k, d) := dedup (list_to_set (map fr_id primary)) secondary 0 in
  (primary ++ k, d).

Definition merge_interleave (local remote : list SearchResult) : list FederatedResult * Z :=
  let all := map fr_local local ++ map fr_remote remote in
  dedup ∅ (sort_by (fun a b => score_desc_le (score (fr_result a)) (score (fr_result b))) all) 0.

Definition fed_merge (c : FederatedSearchConfig) (local remote : list SearchResult)
  : list FederatedResult * FederatedStats :=
  let '(merged, dups) :=
    match merge_mode c with
    | LocalOnlyFallback => match local with [] => (map fr_remote remote, 0) | _ => (map fr_local local, 0) end
    | LocalPriority => merge_priority local remote true
    | RemotePriority => merge_priority local remote false
    | Interleave => merge_interleave local remote
    end in
  let merged := take (Z.to_nat (max_merged_results c)) merged in
  (merged, {| local_count := zlen local; remote_count := zlen remote; merged_count := zlen merged;
              duplicates_removed := dups; remote_queried := 0 <? zlen remote; fallback_reason := None;
              local_latency_ms := 0; remote_latency_ms := None |}).

Definition merge_responses (c : FederatedSearchConfig) (local : QueryResponse) (remote : option QueryResponse)
  : QueryResponse * FederatedStats :=
  let remote_latency := took_ms <$> remote in
  let '(merged, st) := fed_merge c (results local) (match remote with Some r => results r | None => [] end) in
  ({| results := map fr_result merged; cache_status := Miss;
      took_ms := took_ms local +! default 0 remote_latency; generated_at := None; miss_reason := None |},
   {| local_count := local_count st; remote_count := remote_count st; merged_count := merged_count st;
      duplicates_removed := duplicates_removed st; remote_queried := remote_queried st;
      fallback_reason := fallback_reason st; local_latency_ms := took_ms local;
      remote_latency_ms := remote_latency |}).

(** ** Properties *)

(** The kept results: a sublist with distinct new identifiers that covers all
    identifiers, each the first with its identifier. *)
Lemma dedup_spec l : forall seen d k d', dedup seen l d = (k, d') -> d + zlen l <= u_max 64 ->
  sublist k l /\ NoDup (map fr_id k) /\ (forall f, f ∈ k -> fr_id f ∉ seen) /\
  (forall f, f ∈ l -> fr_id f ∈ seen \/ fr_id f ∈ map fr_id k) /\
  d' = d + zlen l - zlen k.
Proof.
  induction l as [|f l IH]; intros seen d k d'; simpl; rewrite ?zlen_cons, ?zlen_nil.
  - intros [= <- <-] _. split_and!; [done|apply NoDup_nil_2|set_solver|set_solver|unfold zlen; simpl; lia].
  - intros H Hd. pose proof (zlen_nonneg l). case_decide as Hin.
    + assert (d +! 1 = d + 1) as Hs by (unfold sat_add; lia). rewrite Hs in H.
      apply IH in H as (H1 & H2 & H3 & H4 & ->); [|lia].
      split_and!; [by constructor|done|done| |lia]. intros g [->|Hg]%elem_of_cons; [by left|auto].
    + destruct (dedup ({[fr_id f]} ∪ seen) l d) as [k0 d0] eqn:E. injection H as <- <-.
      apply IH in E as (H1 & H2 & H3 & H4 & ->); [|lia]. rewrite zlen_cons. split_and!; [by constructor| | | |lia].
      * simpl. constructor; [|done]. intros (g & Hg & Hk)%list_elem_of_fmap. specialize (H3 g Hk). set_solver.
      * intros g [->|Hg]%elem_of_cons; [done|]. specialize (H3 g Hg). set_solver.
      * intros g [->|Hg]%elem_of_cons; simpl; [right; set_solver|]. specialize (H4 g Hg). set_solver.
Qed.

(** In a list sorted by score the result kept for an identifier is the best. *)
Lemma dedup_best l : forall seen d k d',
  StronglySorted (fun a b => f_le (score (fr_result b)) (score (fr_result a)) = true) l ->
  Forall (fun f => not_nan (score (fr_result f))) l ->
  dedup seen l d = (k, d') ->
  forall f g, f ∈ k -> g ∈ l -> fr_id g = fr_id f -> f_le (score (fr_result g)) (score (fr_result f)) = true.
Proof.
  induction l as [|h l IH]; intros seen d k d' Hs Hn; simpl; [set_solver|].
  apply StronglySorted_inv in Hs as [Hs Hh]. apply Forall_cons in Hn as [Hnh Hn].
  rewrite Forall_forall in Hh.
  assert (Hnot : forall seen d k d' f, dedup seen l d = (k, d') -> f ∈ k -> fr_id f ∉ seen).
  { clear. induction l as [|h l IH]; intros seen d k d' f; simpl; [intros [= <- <-]; set_solver|].
    case_decide; [eauto|]. destruct (dedup _ l d) as [k0 d0] eqn:E. intros [= <- <-] [->|Hf]%elem_of_cons; [done|].
    specialize (IH _ _ _ _ _ E Hf). set_solver. }
  case_decide as Hin.
  - intros Hd f g Hf [->|Hg]%elem_of_cons Hid; [|by eapply IH].
    destruct (Hnot _ _ _ _ _ Hd Hf). by rewrite <- Hid.
  - destruct (dedup _ l d) as [k0 d0] eqn:E. intros [= <- <-] f g [->|Hf]%elem_of_cons [->|Hg]%elem_of_cons Hid.
    + by apply f_le_refl.
    + by apply Hh.
    + specialize (Hnot _ _ _ _ _ E Hf). set_solver.
    + by eapply IH.
Qed.

Lemma sublist_strongly_sorted {A} (R : A -> A -> Prop) k l :
  sublist k l -> StronglySorted R l -> StronglySorted R k.
Proof.
  induction 1 as [|x k l Hk IH|x k l Hk IH]; intros Hs; [done| |].
  - apply StronglySorted_inv in Hs as [Hs Hx]. constructor; [by apply IH|].
    rewrite Forall_forall in *. intros y Hy. apply Hx. by eapply elem_of_sublist.
  - apply StronglySorted_inv in Hs as [Hs Hx]. by apply IH.
Qed.

(** Interleaving returns the results of both sources in descending order of
    score, at most [max_merged_results] of them, with distinct identifiers, each the
    best result of its identifier; no identifier is lost unless the limit cuts it,
    and the statistics count the duplicates. *)
Theorem interleave_spec c local remote :
  merge_mode c = Interleave -> 0 <= max_merged_results c ->
  Forall (fun r => not_nan (score r)) (local ++ remote) -> zlen local + zlen remote <= u_max 64 ->
  let all := map fr_local local ++ map fr_remote remote in
  let '(out, st) := fed_merge c local remote in
  StronglySorted (fun a b => f_le (score (fr_result b)) (score (fr_result a)) = true) out /\
  NoDup (map fr_id out) /\
  (forall f, f ∈ out -> f ∈ all /\
     forall g, g ∈ all -> fr_id g = fr_id f -> f_le (score (fr_result g)) (score (fr_result f)) = true) /\
  merged_count st = Z.min (max_merged_results c) (zlen all - duplicates_removed st) /\
  (merged_count st < max_merged_results c -> forall f, f ∈ all -> fr_id f ∈ map fr_id out).
Proof.
  intros Hm Hmax Hnn Hlen all. unfold fed_merge. rewrite Hm. unfold merge_interleave. fold all.
  set (sorted := sort_by _ all). destruct (dedup ∅ sorted 0) as [k d] eqn:E. simpl.
  assert (Hp : sorted ≡ₚ all) by apply sort_by_perm.
  assert (Hall : Forall (fun f => not_nan (score (fr_result f))) all).
  { unfold all. apply Forall_app in Hnn as [H1 H2]. apply Forall_app. split; apply Forall_map; done. }
  assert (Hs : StronglySorted (fun a b => f_le (score (fr_result b)) (score (fr_result a)) = true) sorted)
    by (by apply (score_desc_sorted (fun f => score (fr_result f)))).
  assert (Hzl : zlen sorted = zlen all) by (unfold zlen; by rewrite Hp).
  assert (Hza : zlen all = zlen local + zlen remote)
    by (unfold all; rewrite zlen_app; unfold zlen; by rewrite !length_map).
  destruct (dedup_spec sorted ∅ 0 k d E) as (Hsub & Hnd & _ & Hcov & ->); [lia|].
  set (n := Z.to_nat (max_merged_results c)).
  assert (Hin : forall f, f ∈ take n k -> f ∈ k) by (intros f (i & Hi & _)%elem_of_take; by eapply list_elem_of_lookup_2).
  assert (Hz : zlen (take n k) = Z.min (max_merged_results c) (zlen k))
    by (unfold zlen, n; rewrite length_take; lia).
  split_and!.
  - eapply sublist_strongly_sorted; [|exact Hs]. etransitivity; [apply sublist_take|done].
  - rewrite <- (take_drop n k), map_app in Hnd. by apply NoDup_app in Hnd as [? _].
  - intros f Hf%Hin. split; [rewrite <- Hp; by eapply elem_of_sublist|]. intros g Hg Hid.
    eapply (dedup_best sorted); [done|by rewrite Hp|exact E|done|by rewrite Hp|done].
  - rewrite Hz. lia.
  - intros Hlt f Hf. rewrite <- Hp in Hf. destruct (Hcov f Hf) as [?|Hk]; [set_solver|].
    rewrite take_ge; [done|]. rewrite Hz in Hlt. unfold zlen, n in *. lia.
Qed.

Definition demo_hit (id : string) (s : Z) : SearchResult :=
  {| sr_id := lit id; score := F32.of_Z s; content := []; metadata := None; sr_upstream_id := None |}.
Definition demo_fed (m : MergeMode) : FederatedSearchConfig :=
  {| fs_enabled := true; min_local_results := 3; min_local_confidence := F32.lit 7 10; fallback_on_empty := true;
     fallback_on_low_confidence := true; merge_mode := m; max_merged_results := 10 |}.

Lemma interleave_spec_witness :
  let out := fst (fed_merge (demo_fed Interleave) [demo_hit "a" 1] [demo_hit "a" 3; demo_hit "b" 2]) in
  map fr_id out = [lit "a"; lit "b"] /\ NoDup (map fr_id out).
Proof.
  split; [reflexivity|].
  exact (proj1 (proj2 (interleave_spec (demo_fed Interleave) [demo_hit "a" 1] [demo_hit "a" 3; demo_hit "b" 2] eq_refl
    ltac:(discriminate) ltac:(repeat constructor) ltac:(vm_compute; discriminate)))).
Defined.

(** The fallback mode asks the remote side when there are too few or too weak local
    results, and then throws its answer away. *)
Lemma fallback_discards_remote c local remote :
  merge_mode c = LocalOnlyFallback -> local <> [] ->
  fst (fed_merge c local remote) = fst (fed_merge c local []) /\
  (zlen local < min_local_results c -> should_query_remote c local = BelowMinResults).
Proof.
  intros Hm Hl. unfold fed_merge, should_query_remote. rewrite Hm. destruct local as [|r l]; [done|].
  split; [done|]. intros H. by rewrite (proj2 (Z.ltb_lt _ _) H).
Qed.

(** With priority the preferred source is kept as it is and the other adds what it
    has of new identifiers, in order. *)
Lemma merge_priority_spec local remote (first : bool) :
  zlen local + zlen remote <= u_max 64 ->
  let primary := if first then map fr_local local else map fr_remote remote in
  let secondary := if first then map fr_remote remote else map fr_local local in
  let '(out, d) := merge_priority local remote first in
  exists k, out = primary ++ k /\ sublist k secondary /\ NoDup (map fr_id k) /\
    (forall f, f ∈ k -> fr_id f ∉ map fr_id primary) /\
    (forall f, f ∈ secondary -> fr_id f ∈ map fr_id out) /\ d = zlen secondary - zlen k.
Proof.
  intros Hlen primary secondary. unfold merge_priority. fold primary secondary.
  destruct (dedup (list_to_set (map fr_id primary)) secondary 0) as [k d] eqn:E.
  assert (zlen secondary <= u_max 64) as Hz.
  { pose proof (zlen_nonneg local). pose proof (zlen_nonneg remote).
    unfold secondary, zlen in *. destruct first; rewrite length_map; lia. }
  destruct (dedup_spec _ _ _ _ _ E) as (H1 & H2 & H3 & H4 & ->); [lia|].
  exists k. split_and!; [done|done|done| | |lia].
  - intros f Hf. specialize (H3 f Hf). by rewrite elem_of_list_to_set in H3.
  - intros f Hf. rewrite map_app, elem_of_app. specialize (H4 f Hf). by rewrite elem_of_list_to_set in H4.
Qed.
