(* ===== verification/Resilience.v ===== *)
(** * The resilience state machine (src/src/proxy/resilience.rs)

    Healthy, degraded and offline, with the counters that move an upstream between
    them, the request rate of the degraded state and its retry delays. *)

From Stdlib Require Import SpecFloat.
From S2P Require Import Prelude Floats.
Open Scope Z_scope.
Open Scope conproxy_scope.

Inductive UpstreamState := Healthy | SDegraded | SOffline.
#[export] Instance UpstreamState_eq_dec : EqDecision UpstreamState.
Proof. solve_decision. Defined.

Record ResilienceConfig := {
  degraded_after_failures : Z;
  offline_after_consecutive : Z;
  healthy_after_successes : Z;
  failure_window : Z;
  probe_interval : Z;
  degraded_rps_limit : f32;
  max_rps : f32;
  rps_increment : f32;
  rs_max_retries : Z;
  retry_base_delay : Z;
  retry_max_delay : Z
}.

Definition ResilienceConfig_default : ResilienceConfig :=
  {| degraded_after_failures := 5; offline_after_consecutive := 10; healthy_after_successes := 3;
     failure_window := from_secs 60; probe_interval := from_secs 30; degraded_rps_limit := F32.of_Z 10;
     max_rps := F32.of_Z 1000; rps_increment := F32.of_Z 5; rs_max_retries := 3;
     retry_base_delay := from_millis 100; retry_max_delay := from_secs 10 |}.

Record UpstreamStateManager := {
  rs_config : ResilienceConfig;
  rs_state : UpstreamState;
  rs_failure_count : Z;
  rs_consecutive_failures : Z;
  rs_consecutive_successes : Z;
  rs_window_start : Z;
  current_rps : Z;
  transitions : Z;
  total_failures : Z;
  total_successes : Z;
  last_transition : Z
}.

(** [(x * 100.0) as u32] *)
Definition fixed_point (x : f32) : Z := f_to_u 32 (F32.mul x (F32.of_Z 100)).

Definition UpstreamStateManager_new (now : Z) (c : ResilienceConfig) : UpstreamStateManager :=
  {| rs_config := c; rs_state := Healthy; rs_failure_count := 0; rs_consecutive_failures := 0;
     rs_consecutive_successes := 0; rs_window_start := now; current_rps := fixed_point (degraded_rps_limit c);
     transitions := 0; total_failures := 0; total_successes := 0; last_transition := now |}.

(** The fields the transitions change. *)
Definition set_rs (m : UpstreamStateManager) (st : UpstreamState) (fc cf cs ws rps tr last : Z)
  : UpstreamStateManager :=
  {| rs_config := rs_config m; rs_state := st; rs_failure_count := fc; rs_consecutive_failures := cf;
     rs_consecutive_successes := cs; rs_window_start := ws; current_rps := rps; transitions := tr;
     total_failures := total_failures m; total_successes := total_successes m; last_transition := last |}.

Definition transition_to (now : Z) (st : UpstreamState) (m : UpstreamStateManager) : UpstreamStateManager :=
  if decide (rs_state m = st) then m
  else
    let tr := wrap 64 (transitions m + 1) in
    let initial := fixed_point (degraded_rps_limit (rs_config m)) in
    match st with
    | Healthy => set_rs m Healthy 0 0 0 now initial tr now
    | SDegraded => set_rs m SDegraded 0 (rs_consecutive_failures m) 0 (rs_window_start m) initial tr now
    | SOffline => set_rs m SOffline (rs_failure_count m) (rs_consecutive_failures m) 0 (rs_window_start m)
                    (current_rps m) tr now
    end.

Definition rs_maybe_reset_window (now : Z) (m : UpstreamStateManager) : UpstreamStateManager :=
  if failure_window (rs_config m) <=? elapsed now (rs_window_start m) then
    set_rs m (rs_state m) 0 (rs_consecutive_failures m) (rs_consecutive_successes m) now (current_rps m)
      (transitions m) (last_transition m)
  else m.

Definition count_success (m : UpstreamStateManager) : UpstreamStateManager :=
  {| rs_config := rs_config m; rs_state := rs_state m; rs_failure_count := rs_failure_count m;
     rs_consecutive_failures := 0; rs_consecutive_successes := wrap 32 (rs_consecutive_successes m + 1);
     rs_window_start := rs_window_start m; current_rps := current_rps m; transitions := transitions m;
     total_failures := total_failures m; total_successes := wrap 64 (total_successes m + 1);
     last_transition := last_transition m |}.

Definition count_failure (m : UpstreamStateManager) : UpstreamStateManager :=
  {| rs_config := rs_config m; rs_state := rs_state m; rs_failure_count := rs_failure_count m;
     rs_consecutive_failures := wrap 32 (rs_consecutive_failures m + 1); rs_consecutive_successes := 0;
     rs_window_start := rs_window_start m; current_rps := current_rps m; transitions := transitions m;
     total_failures := wrap 64 (total_failures m + 1); total_successes := total_successes m;
     last_transition := last_transition m |}.

Definition with_failures (m : UpstreamStateManager) (fc : Z) : UpstreamStateManager :=
  set_rs m (rs_state m) fc (rs_consecutive_failures m) (rs_consecutive_successes m) (rs_window_start m)
    (current_rps m) (transitions m) (last_transition m).
Definition with_rps (m : UpstreamStateManager) (rps : Z) : UpstreamStateManager :=
  set_rs m (rs_state m) (rs_failure_count m) (rs_consecutive_failures m) (rs_consecutive_successes m)
    (rs_window_start m) rps (transitions m) (last_transition m).

Definition rs_record_success (now : Z) (m : UpstreamStateManager) : UpstreamStateManager :=
  let prev := rs_consecutive_successes m in
  let c := rs_config m in
  let m := count_success m in
  match rs_state m with
  | Healthy => with_failures m 0
  | SDegraded =>
      let m := with_rps m (Z.min (sat_add 32 (current_rps m) (fixed_point (rps_increment c))) (fixed_point (max_rps c))) in
      if healthy_after_successes c <=? sat_add 32 prev 1 then transition_to now Healthy m else m
  | SOffline => transition_to now SDegraded m
  end.

Definition rs_record_failure (now : Z) (m : UpstreamStateManager) : UpstreamStateManager :=
  let c := rs_config m in
  let m := count_failure m in
  match rs_state m with
  | Healthy =>
      let m := rs_maybe_reset_window now m in
      let prev := rs_failure_count m in
      let m := with_failures m (wrap 32 (prev + 1)) in
      if degraded_after_failures c <=? sat_add 32 prev 1 then transition_to now SDegraded m else m
  | SDegraded =>
      if offline_after_consecutive c <=? rs_consecutive_failures m then transition_to now SOffline m else m
  | SOffline => m
  end.

Definition rs_allow_request (m : UpstreamStateManager) : bool :=
  match rs_state m with Healthy | SDegraded => true | SOffline => false end.

Definition current_rps_limit (m : UpstreamStateManager) : f32 :=
  match rs_state m with
  | Healthy => F32.max_value
  | SDegraded => F32.div (F32.of_Z (current_rps m)) (F32.of_Z 100)
  | SOffline => f_zero
  end.

Definition retry_delay (attempt : Z) (m : UpstreamStateManager) : option Z :=
  if negb (bool_decide (rs_state m = SDegraded)) then None
  else if rs_max_retries (rs_config m) <=? attempt then None
  else
    let base_ms := as_millis_u64 (retry_base_delay (rs_config m)) in
    let multiplier := Z.min (2 ^ attempt) u64_max in
    let delay_ms := sat_mul 64 base_ms multiplier in
    Some (from_millis (Z.min delay_ms (as_millis_u64 (retry_max_delay (rs_config m))))).

Definition force_offline (now : Z) (m : UpstreamStateManager) : UpstreamStateManager := transition_to now SOffline m.
Definition force_healthy (now : Z) (m : UpstreamStateManager) : UpstreamStateManager := transition_to now Healthy m.

Record ResilienceSnapshot := {
  sn_state : UpstreamState;
  sn_transitions : Z;
  sn_total_failures : Z;
  sn_total_successes : Z;
  sn_current_rps_limit : f32;
  time_in_current_state_ms : Z
}.
Definition rs_snapshot (now : Z) (m : UpstreamStateManager) : ResilienceSnapshot :=
  {| sn_state := rs_state m; sn_transitions := transitions m; sn_total_failures := total_failures m;
     sn_total_successes := total_successes m; sn_current_rps_limit := current_rps_limit m;
     time_in_current_state_ms := as_millis_u64 (elapsed now (last_transition m)) |}.

(** ** Properties *)

(** [n] failures in a row at the given times. *)
Definition failures_at (ts : list Z) (m : UpstreamStateManager) : UpstreamStateManager :=
  foldl (fun m t => rs_record_failure t m) m ts.
Definition successes_at (ts : list Z) (m : UpstreamStateManager) : UpstreamStateManager :=
  foldl (fun m t => rs_record_success t m) m ts.

Section Outage.
Context (c : ResilienceConfig) (t0 : Z).

(** The state after [n] failures of a new manager within the window. *)
Definition outage_state (n : Z) : UpstreamState :=
  if n <? degraded_after_failures c then Healthy
  else if n <? Z.max (offline_after_consecutive c) (degraded_after_failures c + 1) then SDegraded
  else SOffline.

Record outage_inv (n : Z) (m : UpstreamStateManager) : Prop := {
  oi_config : rs_config m = c;
  oi_state : rs_state m = outage_state n;
  oi_cf : rs_consecutive_failures m = n;
  oi_fc : n < degraded_after_failures c -> rs_failure_count m = n;
  oi_ws : rs_window_start m = t0
}.

Lemma outage_step n m t :
  0 <= n -> n + 1 < 2 ^ 32 -> t0 <= t < t0 + failure_window c -> outage_inv n m ->
  outage_inv (n + 1) (rs_record_failure t m).
Proof.
  intros H0 Hn Ht [Hc Hs Hcf Hfc Hws].
  assert (Hw : wrap 32 (n + 1) = n + 1) by (apply wrap_small; unfold in_u, u_max; lia).
  unfold rs_record_failure. simpl. rewrite Hs, Hc, Hcf. unfold outage_state in *.
  destruct (n <? degraded_after_failures c) eqn:E1; reflect_Z.
  - unfold rs_maybe_reset_window. simpl. rewrite Hc, Hws.
    replace (failure_window c <=? elapsed t t0) with false
      by (symmetry; apply Z.leb_gt; unfold elapsed; lia).
    simpl. rewrite (Hfc E1), Hw. unfold sat_add, u_max. rewrite Z.min_l by lia.
    unfold transition_to. simpl. rewrite Hs.
    destruct (degraded_after_failures c <=? n + 1) eqn:E2; reflect_Z; simpl;
      (split; simpl; try done; try congruence; try lia); unfold outage_state.
    + by rewrite (proj2 (Z.ltb_ge _ _)), (proj2 (Z.ltb_lt _ _)) by lia.
    + by rewrite (proj2 (Z.ltb_lt _ _)) by lia.
  - rewrite Hw. destruct (n <? Z.max _ _) eqn:E2; reflect_Z.
    + destruct (offline_after_consecutive c <=? n + 1) eqn:E3; reflect_Z.
      * unfold transition_to. simpl. rewrite Hs. simpl.
        split; simpl; try done; try congruence; try lia.
        unfold outage_state. by rewrite !(proj2 (Z.ltb_ge _ _)) by lia.
      * split; simpl; try done; try congruence; try lia.
        unfold outage_state. by rewrite Hs, (proj2 (Z.ltb_ge _ _)), (proj2 (Z.ltb_lt _ _)) by lia.
    + split; simpl; try done; try congruence; try lia.
      unfold outage_state. by rewrite Hs, !(proj2 (Z.ltb_ge _ _)) by lia.
Qed.

Lemma outage_failures ts : forall n m,
  0 <= n -> n + Z.of_nat (length ts) < 2 ^ 32 ->
  Forall (fun t => t0 <= t < t0 + failure_window c) ts ->
  outage_inv n m -> outage_inv (n + Z.of_nat (length ts)) (failures_at ts m).
Proof.
  induction ts as [|t ts IH]; intros n m H0 Hl Ht Hi; simpl length in *.
  - by rewrite Z.add_0_r.
  - apply Forall_cons in Ht as [Ht Hts].
    replace (n + Z.of_nat (S (length ts))) with ((n + 1) + Z.of_nat (length ts)) by lia.
    apply IH; [lia|lia|done|]. by apply outage_step; [|lia|..].
Qed.
End Outage.

(** Failures of a new manager within one window, with no success in between, walk
    it from healthy over degraded to offline: it is healthy below
    [degraded_after_failures], degraded from there, and offline once the run reaches
    [offline_after_consecutive] (and at least one more failure than the first bound).
    The second count starts with the run, not with the degraded state. *)
Theorem resilience_outage (c : ResilienceConfig) (t0 : Z) (ts : list Z) :
  0 < degraded_after_failures c -> Z.of_nat (length ts) < 2 ^ 32 ->
  Forall (fun t => t0 <= t < t0 + failure_window c) ts ->
  rs_state (failures_at ts (UpstreamStateManager_new t0 c)) = outage_state c (Z.of_nat (length ts)).
Proof.
  intros Hd Hl Ht. eapply oi_state, (outage_failures c t0 ts 0); [lia|done|done|].
  split; simpl; try done. unfold outage_state. by rewrite (proj2 (Z.ltb_lt _ _)).
Qed.

(** Ten failures in ten seconds under the default thresholds reach the offline state. *)
Lemma resilience_outage_witness :
  rs_state (failures_at (from_secs <$> [0;1;2;3;4;5;6;7;8;9]) (UpstreamStateManager_new 0 ResilienceConfig_default))
  = SOffline.
Proof.
  rewrite (resilience_outage ResilienceConfig_default 0 (from_secs <$> [0;1;2;3;4;5;6;7;8;9]));
    [reflexivity|vm_compute; reflexivity|vm_compute; reflexivity|].
  repeat constructor; vm_compute; congruence.
Defined.

(** Recovery: a probe success moves an offline upstream to degraded, and from there it
    takes [healthy_after_successes] further successes in a row to be healthy. *)
Lemma degraded_successes ts : forall m,
  rs_state m = SDegraded -> 0 <= rs_consecutive_successes m ->
  rs_consecutive_successes m + Z.of_nat (length ts) < 2 ^ 32 ->
  rs_consecutive_successes m + Z.of_nat (length ts) < healthy_after_successes (rs_config m) ->
  rs_state (successes_at ts m) = SDegraded /\
  rs_config (successes_at ts m) = rs_config m /\
  rs_consecutive_successes (successes_at ts m) = rs_consecutive_successes m + Z.of_nat (length ts).
Proof.
  induction ts as [|t ts IH]; intros m Hs H0 Hl Hh; simpl length in *; [simpl; split_and!; [done..|lia]|].
  simpl. assert (Hw : wrap 32 (rs_consecutive_successes m + 1) = rs_consecutive_successes m + 1)
    by (apply wrap_small; unfold in_u, u_max; lia).
  assert (rs_state (rs_record_success t m) = SDegraded /\
          rs_config (rs_record_success t m) = rs_config m /\
          rs_consecutive_successes (rs_record_success t m) = rs_consecutive_successes m + 1) as (S1 & S2 & S3).
  { unfold rs_record_success. simpl. rewrite Hs.
    assert (Hsat : sat_add 32 (rs_consecutive_successes m) 1 = rs_consecutive_successes m + 1)
      by (unfold sat_add, u_max; lia).
    rewrite Hsat, (proj2 (Z.leb_gt _ _)) by lia. simpl. by rewrite Hw. }
  destruct (IH (rs_record_success t m)) as (R1 & R2 & R3); rewrite ?S2, ?S3; try lia; [done|].
  unfold successes_at in *. split_and!; [done|congruence|rewrite R3; lia].
Qed.

(** Recovery from offline takes exactly one probe success to be degraded and then
    [healthy_after_successes] successes in a row to be healthy; before the last of them
    the upstream is still degraded. *)
Theorem resilience_recovery (m : UpstreamStateManager) (tp t : Z) (ts : list Z) :
  rs_state m = SOffline ->
  0 < healthy_after_successes (rs_config m) < 2 ^ 32 ->
  Z.of_nat (length ts) = healthy_after_successes (rs_config m) - 1 ->
  let degraded := rs_record_success tp m in
  rs_state (successes_at ts degraded) = SDegraded /\
  rs_state (rs_record_success t (successes_at ts degraded)) = Healthy.
Proof.
  intros Hs Hh Hl degraded.
  assert (rs_state degraded = SDegraded /\ rs_config degraded = rs_config m /\
          rs_consecutive_successes degraded = 0) as (S1 & S2 & S3).
  { unfold degraded, rs_record_success, transition_to. simpl. by rewrite Hs. }
  destruct (degraded_successes ts degraded) as (R1 & R2 & R3); rewrite ?S2, ?S3; try lia; [done|].
  split; [done|]. unfold rs_record_success at 1. simpl. rewrite R1.
  rewrite R2, S2, R3, S3.
  assert (Hsat : forall x, 0 <= x < 2 ^ 32 - 1 -> sat_add 32 x 1 = x + 1) by (unfold sat_add, u_max; lia).
  rewrite Hsat, (proj2 (Z.leb_le _ _)) by lia.
  unfold transition_to. simpl. by rewrite R1.
Qed.

(** One probe and three successes with the default thresholds. *)
Lemma resilience_recovery_witness :
  let m := force_offline 0 (UpstreamStateManager_new 0 ResilienceConfig_default) in
  rs_state (rs_record_success 4 (successes_at [2; 3] (rs_record_success 1 m))) = Healthy.
Proof.
  intros m. eapply (resilience_recovery m 1 4 [2; 3]);
    [vm_compute; reflexivity|split; vm_compute; reflexivity|vm_compute; reflexivity].
Defined.
