(* ===== verification/Metrics.v ===== *)
(** * Counters (src/src/proxy/metrics.rs, src/src/proxy/query_stats.rs)

    The proxy's counters, the ring of recent latencies with its percentiles, and the
    statistics kept per query.  The counters of [ProxyMetrics] are indexed by the
    name of their field; those of the cascade are the record of [Cascade], which
    shares them.  Rendering for Prometheus is left out. *)

From Stdlib Require Import SpecFloat.
From S2P Require Import Prelude Floats Text Types Drift Retry ConnPool Upstream Pool Cascade Adaptive.
Open Scope Z_scope.
Open Scope conproxy_scope.

(** ** ProxyMetrics *)

Inductive MetricId :=
| requests_total | cache_hits | cache_misses
| miss_not_in_cache | miss_expired | miss_upstream_error | miss_circuit_open
| cache_stale | cache_frozen | coalesced_requests
| upstream_requests | upstream_failures | validation_errors
| refresh_operations | evictions | drift_alerts
| drift_none | drift_minor | drift_moderate | drift_significant | drift_major
| integrity_failures | schema_changes | warmup_requests | warmup_entries.
#[export] Instance Counter_eq_dec : EqDecision MetricId.
Proof. solve_decision. Defined.

Definition LATENCY_RING_SIZE : Z := 1000.

Record ProxyMetrics := {
  pm_count : MetricId -> Z;
  latency_sum_us : Z;
  latency_max_us : Z;
  latency_min_us : Z;
  pm_cascade : CascadeMetrics;
  latency_ring : list Z;
  latency_ring_pos : Z
}.

Definition CascadeMetrics_zero : CascadeMetrics :=
  {| cascade_success := 0; cascade_exhausted := 0; cascade_timeouts := 0; cascade_depth_sum := 0;
     cascade_depth_count := 0 |}.

Definition ProxyMetrics_new : ProxyMetrics :=
  {| pm_count := fun _ => 0; latency_sum_us := 0; latency_max_us := 0; latency_min_us := u64_max;
     pm_cascade := CascadeMetrics_zero; latency_ring := replicate (Z.to_nat LATENCY_RING_SIZE) 0;
     latency_ring_pos := 0 |}.

(** [counter.fetch_add(1)] *)
Definition incr (c : MetricId) (m : ProxyMetrics) : ProxyMetrics :=
  {| pm_count := fun d => if decide (d = c) then wrap 64 (pm_count m d + 1) else pm_count m d;
     latency_sum_us := latency_sum_us m; latency_max_us := latency_max_us m;
     latency_min_us := latency_min_us m; pm_cascade := pm_cascade m; latency_ring := latency_ring m;
     latency_ring_pos := latency_ring_pos m |}.

Definition record_hit (m : ProxyMetrics) : ProxyMetrics := incr cache_hits (incr requests_total m).

Definition miss_counter (r : MissReason) : MetricId :=
  match r with
  | NotInCache => miss_not_in_cache
  | ReasonExpired => miss_expired
  | ReasonUpstreamError => miss_upstream_error
  | ReasonCircuitOpen => miss_circuit_open
  end.
Definition record_miss (r : MissReason) (m : ProxyMetrics) : ProxyMetrics :=
  incr (miss_counter r) (incr cache_misses (incr requests_total m)).

Definition record_stale (m : ProxyMetrics) : ProxyMetrics := incr cache_stale (incr requests_total m).
Definition record_frozen (m : ProxyMetrics) : ProxyMetrics := incr cache_frozen (incr requests_total m).
Definition record_coalesced : ProxyMetrics -> ProxyMetrics := incr coalesced_requests.
Definition record_upstream_request : ProxyMetrics -> ProxyMetrics := incr upstream_requests.
Definition record_upstream_failure : ProxyMetrics -> ProxyMetrics := incr upstream_failures.
Definition record_validation_error : ProxyMetrics -> ProxyMetrics := incr validation_errors.
Definition record_refresh : ProxyMetrics -> ProxyMetrics := incr refresh_operations.
Definition record_eviction : ProxyMetrics -> ProxyMetrics := incr evictions.
Definition record_drift_alert : ProxyMetrics -> ProxyMetrics := incr drift_alerts.
Definition record_integrity_failure : ProxyMetrics -> ProxyMetrics := incr integrity_failures.
Definition record_schema_change : ProxyMetrics -> ProxyMetrics := incr schema_changes.
Definition record_warmup_request : ProxyMetrics -> ProxyMetrics := incr warmup_requests.
Definition record_warmup_entry : ProxyMetrics -> ProxyMetrics := incr warmup_entries.

Definition record_drift (l : DriftLevel) (m : ProxyMetrics) : ProxyMetrics :=
  match l with
  | DNone => incr drift_none m
  | DMinor => incr drift_minor m
  | DModerate => incr drift_moderate m
  | DSignificant => incr drift_alerts (incr drift_significant m)
  | DMajor => incr drift_alerts (incr drift_major m)
  end.

Definition with_cascade (f : CascadeMetrics -> CascadeMetrics) (m : ProxyMetrics) : ProxyMetrics :=
  {| pm_count := pm_count m; latency_sum_us := latency_sum_us m; latency_max_us := latency_max_us m;
     latency_min_us := latency_min_us m; pm_cascade := f (pm_cascade m); latency_ring := latency_ring m;
     latency_ring_pos := latency_ring_pos m |}.

(** The compare-and-swap loops leave the larger and the smaller value. *)
Definition record_latency (d : Z) (m : ProxyMetrics) : ProxyMetrics :=
  let us := as_micros_u64 d in
  {| pm_count := pm_count m; latency_sum_us := wrap 64 (latency_sum_us m + us);
     latency_max_us := if latency_max_us m <? us then us else latency_max_us m;
     latency_min_us := if us <? latency_min_us m then us else latency_min_us m;
     pm_cascade := pm_cascade m;
     latency_ring := <[Z.to_nat (latency_ring_pos m mod LATENCY_RING_SIZE) := us]> (latency_ring m);
     latency_ring_pos := wrap 64 (latency_ring_pos m + 1) |}.

Record LatencyPercentiles := { lp_sample_count : Z; lp_p50_ms : f64; lp_p95_ms : f64; lp_p99_ms : f64 }.

(** The samples the percentiles are taken from, sorted. *)
Definition ring_samples (m : ProxyMetrics) : list Z :=
  sort_by Z.leb (take (Z.to_nat (Z.min (latency_ring_pos m) LATENCY_RING_SIZE)) (latency_ring m)).

Definition latency_percentiles (m : ProxyMetrics) : LatencyPercentiles :=
  if latency_ring_pos m =? 0 then {| lp_sample_count := 0; lp_p50_ms := f_zero; lp_p95_ms := f_zero; lp_p99_ms := f_zero |}
  else
    let sorted := ring_samples m in
    {| lp_sample_count := latency_ring_pos m;
       lp_p50_ms := millis (percentile (F64.lit 1 2) sorted);
       lp_p95_ms := millis (percentile (F64.lit 95 100) sorted);
       lp_p99_ms := millis (percentile (F64.lit 99 100) sorted) |}.

Definition ratio (a b : Z) : f64 := if 0 <? b then F64.div (F64.of_Z a) (F64.of_Z b) else f_zero.

(** The figures of a snapshot that are computed. *)
Record MetricsSnapshot := {
  ms_count : MetricId -> Z;
  cache_hit_rate : f64;
  upstream_error_rate : f64;
  latency_avg_ms : f64;
  ms_latency_max_ms : f64;
  ms_latency_min_ms : f64;
  ms_cascade : CascadeMetrics;
  cascade_avg_depth : f64
}.

Definition metrics_snapshot (m : ProxyMetrics) : MetricsSnapshot :=
  {| ms_count := pm_count m;
     cache_hit_rate := ratio (pm_count m cache_hits) (pm_count m requests_total);
     upstream_error_rate := ratio (pm_count m upstream_failures) (pm_count m upstream_requests);
     latency_avg_ms :=
       millis (if pm_count m requests_total =? 0 then 0 else latency_sum_us m / pm_count m requests_total);
     ms_latency_max_ms := millis (latency_max_us m);
     ms_latency_min_ms := if latency_min_us m =? u64_max then f_zero else millis (latency_min_us m);
     ms_cascade := pm_cascade m;
     cascade_avg_depth := ratio (cascade_depth_sum (pm_cascade m)) (cascade_depth_count (pm_cascade m)) |}.

Definition metrics_reset (m : ProxyMetrics) : ProxyMetrics :=
  {| pm_count := fun _ => 0; latency_sum_us := 0; latency_max_us := 0; latency_min_us := u64_max;
     pm_cascade := CascadeMetrics_zero; latency_ring := map (fun _ => 0) (latency_ring m);
     latency_ring_pos := 0 |}.

(** ** Statistics per query *)

Record QueryStats := {
  qs_count : Z;
  qs_hits : Z;
  qs_misses : Z;
  total_latency_us : Z;
  max_latency_us : Z;
  min_latency_us : Z;
  first_seen : Z;
  last_seen : Z
}.

Definition QueryStats_new (timestamp : Z) : QueryStats :=
  {| qs_count := 1; qs_hits := 0; qs_misses := 1; total_latency_us := 0; max_latency_us := 0;
     min_latency_us := u64_max; first_seen := timestamp; last_seen := timestamp |}.

Definition qs_record (is_hit : bool) (latency timestamp : Z) (q : QueryStats) : QueryStats :=
  let us := as_micros_u64 latency in
  {| qs_count := wrap 64 (qs_count q + 1);
     qs_hits := if is_hit then wrap 64 (qs_hits q + 1) else qs_hits q;
     qs_misses := if is_hit then qs_misses q else wrap 64 (qs_misses q + 1);
     total_latency_us := wrap 64 (total_latency_us q + us);
     max_latency_us := if us <=? max_latency_us q then max_latency_us q else us;
     min_latency_us := if min_latency_us q <=? us then min_latency_us q else us;
     first_seen := first_seen q; last_seen := timestamp |}.

Definition qs_hit_rate (q : QueryStats) : f64 :=
  if qs_count q =? 0 then f_zero else F64.div (F64.of_Z (qs_hits q)) (F64.of_Z (qs_count q)).
Definition avg_latency (q : QueryStats) : Z :=
  if qs_count q =? 0 then 0 else from_micros (total_latency_us q / qs_count q).

Record QueryStatsTracker := {
  qt_stats : gmap str QueryStats;
  max_queries : Z;
  store_query_text : bool
}.
Definition QueryStatsTracker_new (n : Z) : QueryStatsTracker :=
  {| qt_stats := ∅; max_queries := n; store_query_text := true |}.
Definition hash_only (n : Z) : QueryStatsTracker :=
  {| qt_stats := ∅; max_queries := n; store_query_text := false |}.

(** The hasher of the standard library, whose algorithm is unspecified, and the
    order in which the concurrent map lists its entries. *)
Class StatsEnv := {
  default_hash : str -> str;
  stats_iter : gmap str QueryStats -> list (str * QueryStats)
}.
Class StatsEnvLaws (E : StatsEnv) : Prop := { stats_iter_perm : forall m, stats_iter m ≡ₚ map_to_list m }.

Section Stats.
Context `{StatsEnv}.

Definition query_key (q : str) (t : QueryStatsTracker) : str :=
  if store_query_text t then q else lit "hash:" ++ default_hash q.

Definition put_qt_stats (t : QueryStatsTracker) (m : gmap str QueryStats) : QueryStatsTracker :=
  {| qt_stats := m; max_queries := max_queries t; store_query_text := store_query_text t |}.

(** The scan for the oldest entry. *)
Definition older (acc : option str * Z) (kv : str * QueryStats) : option str * Z :=
  if last_seen kv.2 <? acc.2 then (Some kv.1, last_seen kv.2) else acc.
Definition evict_oldest (t : QueryStatsTracker) : QueryStatsTracker :=
  match fst (foldl older (None, u64_max) (stats_iter (qt_stats t))) with
  | Some k => put_qt_stats t (delete k (qt_stats t))
  | None => t
  end.

Definition first_record (is_hit : bool) (latency timestamp : Z) : QueryStats :=
  let us := as_micros_u64 latency in
  {| qs_count := 1; qs_hits := if is_hit then 1 else 0; qs_misses := if is_hit then 0 else 1;
     total_latency_us := us; max_latency_us := us; min_latency_us := us; first_seen := timestamp;
     last_seen := timestamp |}.

(** [timestamp] is the wall clock in seconds. *)
Definition stats_record (timestamp : Z) (q : str) (is_hit : bool) (latency : Z) (t : QueryStatsTracker)
  : QueryStatsTracker :=
  let key := query_key q t in
  match qt_stats t !! key with
  | Some s => put_qt_stats t (<[key := qs_record is_hit latency timestamp s]> (qt_stats t))
  | None =>
      let t := if max_queries t <=? Z.of_nat (size (qt_stats t)) then evict_oldest t else t in
      put_qt_stats t (<[key := first_record is_hit latency timestamp]> (qt_stats t))
  end.

Definition stats_clear (t : QueryStatsTracker) : QueryStatsTracker := put_qt_stats t ∅.

Record QueryStatsSnapshot := {
  sq_query : str;
  sq_count : Z;
  sq_hits : Z;
  sq_misses : Z;
  sq_hit_rate : f64;
  sq_avg_latency_ms : f64;
  sq_max_latency_ms : f64;
  sq_min_latency_ms : f64;
  sq_first_seen : Z;
  sq_last_seen : Z
}.
Definition from_stats (k : str) (q : QueryStats) : QueryStatsSnapshot :=
  {| sq_query := k; sq_count := qs_count q; sq_hits := qs_hits q; sq_misses := qs_misses q;
     sq_hit_rate := ratio (qs_hits q) (qs_count q);
     sq_avg_latency_ms := millis (if qs_count q =? 0 then 0 else total_latency_us q / qs_count q);
     sq_max_latency_ms := millis (max_latency_us q);
     sq_min_latency_ms := millis (if min_latency_us q =? u64_max then 0 else min_latency_us q);
     sq_first_seen := first_seen q; sq_last_seen := last_seen q |}.
Definition snapshots (t : QueryStatsTracker) : list QueryStatsSnapshot :=
  map (fun kv => from_stats kv.1 kv.2) (stats_iter (qt_stats t)).

Definition stats_get (q : str) (t : QueryStatsTracker) : option QueryStatsSnapshot :=
  from_stats (query_key q t) <$> qt_stats t !! query_key q t.
Definition top_by_count (n : Z) (t : QueryStatsTracker) : list QueryStatsSnapshot :=
  take (Z.to_nat n) (sort_by (fun a b => sq_count b <=? sq_count a) (snapshots t)).
Definition top_by_latency (n : Z) (t : QueryStatsTracker) : list QueryStatsSnapshot :=
  take (Z.to_nat n) (sort_by (fun a b => score_desc_le (sq_avg_latency_ms a) (sq_avg_latency_ms b)) (snapshots t)).

Definition low_hit_rate (threshold : f64) (limit : Z) (t : QueryStatsTracker) : list QueryStatsSnapshot :=
  let es := List.filter (fun kv : str * QueryStats => 1 <? qs_count kv.2) (stats_iter (qt_stats t)) in
  let es := List.filter (fun q => f_lt (sq_hit_rate q) threshold) (map (fun kv => from_stats kv.1 kv.2) es) in
  take (Z.to_nat limit) (sort_by (fun a b => match cmp_or_eq (sq_hit_rate a) (sq_hit_rate b) with Gt => false | _ => true end) es).

Record AggregateStats := {
  unique_queries : Z;
  total_requests : Z;
  total_hits : Z;
  ag_hit_rate : f64;
  ag_avg_latency_ms : f64
}.
Definition aggregate (t : QueryStatsTracker) : AggregateStats :=
  let sum (f : QueryStats -> Z) := foldl (fun a kv => a +! f kv.2) 0 (stats_iter (qt_stats t)) in
  let n := sum qs_count in
  {| unique_queries := Z.of_nat (size (qt_stats t)); total_requests := n; total_hits := sum qs_hits;
     ag_hit_rate := ratio (sum qs_hits) n;
     ag_avg_latency_ms := millis (if n =? 0 then 0 else sum total_latency_us / n) |}.
End Stats.

(** ** Balance of the counters *)

(** Every request is counted once under its outcome, and every miss once under its
    reason, modulo the width of the counters. *)
Record balanced (m : ProxyMetrics) : Prop := {
  bal_requests :
    wrap 64 (pm_count m cache_hits + pm_count m cache_misses + pm_count m cache_stale + pm_count m cache_frozen)
    = pm_count m requests_total;
  bal_misses :
    wrap 64 (pm_count m miss_not_in_cache + pm_count m miss_expired + pm_count m miss_upstream_error +
             pm_count m miss_circuit_open) = pm_count m cache_misses
}.

Definition uncounted (c : MetricId) : bool :=
  match c with
  | requests_total | cache_hits | cache_misses | miss_not_in_cache | miss_expired | miss_upstream_error
  | miss_circuit_open | cache_stale | cache_frozen => false
  | _ => true
  end.

Lemma balanced_new : balanced ProxyMetrics_new.
Proof. by split. Qed.

Lemma balanced_incr c m : uncounted c = true -> balanced m -> balanced (incr c m).
Proof. intros Hc [H1 H2]. destruct c; try done; by split. Qed.

Lemma wrap_step a b t : wrap 64 (a + b) = t -> wrap 64 (wrap 64 (a + 1) + b) = wrap 64 (t + 1).
Proof. intros <-. rewrite !wrap_add_l. f_equal. lia. Qed.

(** One counter of a sum was increased: its total was increased too. *)
Ltac counted :=
  let H1 := fresh "H1" in let H2 := fresh "H2" in
  intros [H1 H2]; split; simpl; try done;
  match goal with
  | |- wrap 64 ?S = _ =>
      match S with
      | context [wrap 64 (?x + 1)] =>
          let y := fresh "y" in
          replace S with (wrap 64 (x + 1) + (S - wrap 64 (x + 1))) by lia;
          apply wrap_step; generalize (wrap 64 (x + 1)) as y; intros y;
          first [rewrite <- H1 | rewrite <- H2]; f_equal; lia
      end
  end.

Lemma balanced_hit m : balanced m -> balanced (record_hit m).
Proof. counted. Qed.
Lemma balanced_stale m : balanced m -> balanced (record_stale m).
Proof. counted. Qed.
Lemma balanced_frozen m : balanced m -> balanced (record_frozen m).
Proof. counted. Qed.
Lemma balanced_miss r m : balanced m -> balanced (record_miss r m).
Proof. destruct r; counted. Qed.
Lemma balanced_latency d m : balanced m -> balanced (record_latency d m).
Proof. intros []. by split. Qed.
Lemma balanced_coalesced m : balanced m -> balanced (record_coalesced m).
Proof. by apply balanced_incr. Qed.
Lemma balanced_upstream_request m : balanced m -> balanced (record_upstream_request m).
Proof. by apply balanced_incr. Qed.
Lemma balanced_upstream_failure m : balanced m -> balanced (record_upstream_failure m).
Proof. by apply balanced_incr. Qed.
Lemma balanced_validation_error m : balanced m -> balanced (record_validation_error m).
Proof. by apply balanced_incr. Qed.

Create HintDb balance.
#[export] Hint Resolve balanced_hit balanced_stale balanced_frozen balanced_miss balanced_latency balanced_coalesced
  balanced_upstream_request balanced_upstream_failure balanced_validation_error : balance.

(** ** Recent latencies *)

Lemma ring_write_take k (ring : list Z) n x :
  length ring = k -> (0 < k)%nat ->
  take (Nat.min (S n) k) (<[(n mod k)%nat := x]> ring) =
  ring_write (Z.of_nat k) (Z.of_nat n) x (take (Nat.min n k) ring).
Proof.
  intros Hl Hk. unfold ring_write, zlen. rewrite length_take, Hl.
  destruct (Z.of_nat (Nat.min (Nat.min n k) k) <? Z.of_nat k) eqn:E; reflect_Z.
  - rewrite !Nat.min_l by lia. rewrite Nat.mod_small by lia.
    rewrite (take_S_r _ _ x) by (apply list_lookup_insert_eq; lia). by rewrite take_insert_ge by lia.
  - rewrite !Nat.min_r by lia. destruct (Z.of_nat k =? 0) eqn:E0; reflect_Z; [lia|].
    rewrite <- Nat2Z.inj_mod, Nat2Z.id. rewrite !take_ge; [done|lia|rewrite length_insert; lia].
Qed.

Lemma ring_size_pos : 0 < LATENCY_RING_SIZE.
Proof. done. Qed.
#[local] Opaque LATENCY_RING_SIZE.

Record window_ok (h : list Z) (m : ProxyMetrics) : Prop := {
  wo_pos : latency_ring_pos m = zlen h;
  wo_len : length (latency_ring m) = Z.to_nat LATENCY_RING_SIZE;
  wo_ring : ring_ok (Z.to_nat LATENCY_RING_SIZE) (map as_micros_u64 h)
              (take (Nat.min (length h) (Z.to_nat LATENCY_RING_SIZE)) (latency_ring m))
}.

Lemma window_ok_new : window_ok [] ProxyMetrics_new.
Proof.
  split; simpl; [done|by rewrite length_replicate|]. split; simpl; [by rewrite take_0|intros; lia].
Qed.

Lemma window_ok_record h m d :
  zlen h + 1 < 2 ^ 64 -> window_ok h m -> window_ok (h ++ [d]) (record_latency d m).
Proof.
  intros Hb [Hp Hl Hr]. pose proof (zlen_nonneg h). pose proof ring_size_pos.
  assert (Hz : zlen (h ++ [d]) = zlen h + 1) by (rewrite zlen_app, zlen_cons, zlen_nil; lia).
  split; simpl.
  - rewrite Hz, Hp. apply wrap_small. unfold in_u, u_max. lia.
  - by rewrite length_insert.
  - rewrite map_app, length_app, Nat.add_1_r, Hp. change (map as_micros_u64 [d]) with [as_micros_u64 d].
    assert (Z.to_nat (zlen h mod LATENCY_RING_SIZE) = (length h mod Z.to_nat LATENCY_RING_SIZE)%nat) as ->.
    { unfold zlen. rewrite Z2Nat.inj_mod by lia. by rewrite Nat2Z.id. }
    rewrite ring_write_take by lia.
    rewrite <- (length_map as_micros_u64 h) at 1. apply ring_write_ok; [lia|done].
Qed.

Lemma window_ok_run ds : forall h m, zlen h + zlen ds < 2 ^ 64 -> window_ok h m ->
  window_ok (h ++ ds) (foldl (fun m d => record_latency d m) m ds).
Proof.
  induction ds as [|d ds IH]; intros h m Hb Hw; [by rewrite app_nil_r|]. simpl.
  rewrite zlen_cons in Hb. pose proof (zlen_nonneg ds).
  replace (h ++ d :: ds) with ((h ++ [d]) ++ ds) by (by rewrite <- app_assoc).
  apply IH; [rewrite zlen_app, zlen_cons, zlen_nil; lia|]. apply window_ok_record; [lia|done].
Qed.

(** The percentiles of the latencies are taken from the last thousand latencies
    recorded, or from all of them while there are fewer, in ascending order. *)
Theorem latency_window ds :
  zlen ds < 2 ^ 64 ->
  let m := foldl (fun m d => record_latency d m) ProxyMetrics_new ds in
  ring_samples m ≡ₚ drop (length ds - Z.to_nat LATENCY_RING_SIZE) (map as_micros_u64 ds) /\
  StronglySorted (fun a b => (a <=? b) = true) (ring_samples m) /\
  latency_ring_pos m = zlen ds.
Proof.
  intros Hb m. destruct (window_ok_run ds [] ProxyMetrics_new) as [Hp Hl [Hr _]];
    [rewrite zlen_nil; lia|apply window_ok_new|]. simpl in *. fold m in Hp, Hl, Hr.
  rewrite length_map in Hr. unfold ring_samples. split_and!; [|apply sort_by_sorted|done].
  - rewrite sort_by_perm, <- Hr, Hp. f_equiv. f_equal. pose proof ring_size_pos. unfold zlen. lia.
  - intros a b. rewrite Z.leb_gt, Z.leb_le. lia.
  - intros a b c. rewrite !Z.leb_le. lia.
Qed.

Lemma latency_window_witness :
  let m := foldl (fun m d => record_latency d m) ProxyMetrics_new (map from_millis [3; 1; 2]) in
  ring_samples m ≡ₚ [3000; 1000; 2000].
Proof.
  pose proof (proj1 (latency_window (map from_millis [3; 1; 2]) ltac:(reflexivity))) as H.
  vm_compute in H. vm_compute. exact H.
Defined.

(** ** Statistics per query *)

Section Tracker.
Context `{Env : StatsEnv} {Laws : StatsEnvLaws Env}.

(** The scan finds a least recently seen entry. *)
Lemma older_spec l : forall acc,
  let r := foldl older acc l in
  r.2 <= acc.2 /\ (forall kv, kv ∈ l -> r.2 <= last_seen kv.2) /\
  (r = acc \/ exists kv, kv ∈ l /\ r = (Some kv.1, last_seen kv.2)).
Proof.
  induction l as [|kv l IH]; intros acc; simpl; [split_and!; [lia|set_solver|by left]|].
  destruct (IH (older acc kv)) as (H1 & H2 & H3). set (r := foldl older (older acc kv) l) in *.
  assert (Ho : (older acc kv).2 <= acc.2 /\ (older acc kv).2 <= last_seen kv.2 /\
               (older acc kv = acc \/ older acc kv = (Some kv.1, last_seen kv.2))).
  { unfold older. destruct (_ <? _) eqn:E; reflect_Z; simpl; split_and!; auto; lia. }
  destruct Ho as (Ho1 & Ho2 & Ho3). split_and!; [lia| |].
  - intros kv' [->|Hk]%elem_of_cons; [lia|auto].
  - destruct H3 as [->|(kv' & Hk & Hr)]; [|right; exists kv'; set_solver].
    destruct Ho3 as [Ho3|Ho3]; rewrite Ho3; [by left|right; exists kv; set_solver].
Qed.

Lemma evict_oldest_spec t :
  qt_stats t <> ∅ -> (forall k q, qt_stats t !! k = Some q -> last_seen q < u64_max) ->
  exists k q, qt_stats t !! k = Some q /\ evict_oldest t = put_qt_stats t (delete k (qt_stats t)) /\
    forall k' q', qt_stats t !! k' = Some q' -> last_seen q <= last_seen q'.
Proof.
  intros Hne Hb. unfold evict_oldest.
  destruct (older_spec (stats_iter (qt_stats t)) (None, u64_max)) as (H1 & H2 & H3).
  assert (Hin : forall k q, (k, q) ∈ stats_iter (qt_stats t) <-> qt_stats t !! k = Some q)
    by (intros; rewrite stats_iter_perm; apply elem_of_map_to_list).
  apply map_choose in Hne as (k0 & q0 & Hk0). pose proof (H2 (k0, q0) (proj2 (Hin _ _) Hk0)) as Hle.
  specialize (Hb _ _ Hk0). simpl in Hle.
  destruct H3 as [Hr|([k q] & Hkq & Hr)]; [rewrite Hr in Hle; simpl in Hle; lia|].
  exists k, q. rewrite Hr. simpl. split_and!; [by apply Hin|done|].
  intros k' q' Hk'. pose proof (H2 (k', q') (proj2 (Hin _ _) Hk')) as H. by rewrite Hr in H.
Qed.

Record tracker_ok (n : Z) (t : QueryStatsTracker) : Prop := {
  to_max : max_queries t = n;
  to_size : Z.of_nat (size (qt_stats t)) <= Z.max 1 n;
  to_entry : forall k q, qt_stats t !! k = Some q ->
    last_seen q < u64_max /\ qs_count q = wrap 64 (qs_hits q + qs_misses q) /\
    min_latency_us q <= max_latency_us q
}.

Lemma qs_record_entry h lat ts q : ts < u64_max ->
  qs_count q = wrap 64 (qs_hits q + qs_misses q) -> min_latency_us q <= max_latency_us q ->
  let q' := qs_record h lat ts q in
  last_seen q' < u64_max /\ qs_count q' = wrap 64 (qs_hits q' + qs_misses q') /\
  min_latency_us q' <= max_latency_us q'.
Proof.
  intros Ht Hc Hm. split_and!; [done| |].
  - simpl. rewrite Hc. destruct h; unfold wrap.
    + rewrite !Zplus_mod_idemp_l. f_equal. lia.
    + rewrite Zplus_mod_idemp_l, Zplus_mod_idemp_r. f_equal. lia.
  - simpl. case_Z; lia.
Qed.

Lemma stats_record_ok n ts q h lat t :
  0 <= n -> ts < u64_max -> tracker_ok n t ->
  tracker_ok n (stats_record ts q h lat t) /\
  is_Some (qt_stats (stats_record ts q h lat t) !! query_key q t).
Proof.
  intros Hn Ht [Hmax Hsz He]. unfold stats_record. set (key := query_key q t).
  destruct (qt_stats t !! key) as [s|] eqn:Ek.
  - split; [|simpl; rewrite lookup_insert_eq; by eexists]. split; simpl; [done| |].
    + rewrite map_size_insert_Some by (by eexists). done.
    + intros k q' [[<- <-]|[? Hk]]%lookup_insert_Some; [|by eapply He].
      destruct (He _ _ Ek) as (_ & H1 & H2). by apply qs_record_entry.
  - set (t' := if max_queries t <=? _ then _ else _).
    assert (Ht' : max_queries t' = n /\ Z.of_nat (size (qt_stats t')) <= Z.max 0 (n - 1) /\
                  qt_stats t' ⊆ qt_stats t).
    { unfold t'. rewrite Hmax. destruct (n <=? Z.of_nat (size (qt_stats t))) eqn:E; reflect_Z; [|split_and!; [done|lia|done]].
      destruct (decide (qt_stats t = ∅)) as [E0|E0].
      - rewrite E0, map_size_empty in E. assert (evict_oldest t = t) as ->.
        { unfold evict_oldest. rewrite E0. assert (stats_iter ∅ = []) as -> by (apply Permutation_nil_r; by rewrite stats_iter_perm, map_to_list_empty). done. }
        rewrite E0, map_size_empty. split_and!; [done|lia|done].
      - destruct (evict_oldest_spec t E0) as (k & q0 & Hk & -> & _); [intros k q0 Hk; by apply He in Hk as [? _]|].
        simpl. rewrite map_size_delete_Some by (by eexists). split_and!; [done|lia|apply delete_subseteq]. }
    destruct Ht' as (Hm' & Hs' & Hsub). split; [|simpl; rewrite lookup_insert_eq; by eexists].
    split; simpl; [done| |].
    + rewrite map_size_insert_None; [lia|]. by eapply lookup_weaken_None.
    + intros k q' [[<- <-]|[? Hk]]%lookup_insert_Some.
      * simpl. split_and!; [done|by destruct h|lia].
      * eapply He. by eapply lookup_weaken.
Qed.

Definition stats_run (rs : list (Z * str * bool * Z)) (t : QueryStatsTracker) : QueryStatsTracker :=
  foldl (fun t r => stats_record r.1.1.1 r.1.1.2 r.1.2 r.2 t) t rs.

(** The tracker of query statistics stays within its limit (of at least one
    query) whatever is recorded, by dropping a least recently seen query; for every
    query it tracks the requests are the hits and the misses. *)
Theorem stats_bounded n rs :
  0 <= n -> Forall (fun r => r.1.1.1 < u64_max) rs ->
  let t := stats_run rs (QueryStatsTracker_new n) in
  Z.of_nat (size (qt_stats t)) <= Z.max 1 n /\
  forall k q, qt_stats t !! k = Some q -> qs_count q = wrap 64 (qs_hits q + qs_misses q).
Proof.
  intros Hn Hts. assert (tracker_ok n (QueryStatsTracker_new n)) as Hok.
  { split; simpl; [done|rewrite map_size_empty; lia|intros k q H; by rewrite lookup_empty in H]. }
  revert Hok. generalize (QueryStatsTracker_new n) as t0. intros t0 Hok.
  assert (tracker_ok n (stats_run rs t0)) as [_ Hs He].
  { revert t0 Hok. induction Hts as [|r rs Hr Hts IH]; intros t0 Hok; [done|]. simpl.
    apply IH. by apply stats_record_ok. }
  split; [done|]. intros k q Hk. by apply He in Hk as (_ & ? & _).
Qed.
End Tracker.

#[export] Instance demo_stats_env : StatsEnv := {| default_hash := fun s => s; stats_iter := map_to_list |}.
#[export] Instance demo_stats_laws : StatsEnvLaws demo_stats_env.
Proof. by split. Qed.

(** Three queries in a tracker for two: the one seen first is dropped. *)
Lemma stats_bounded_witness :
  let t := stats_run [(1, lit "a", false, 5); (2, lit "b", false, 5); (3, lit "c", true, 5)] (QueryStatsTracker_new 2) in
  Z.of_nat (size (qt_stats t)) <= 2 /\ qt_stats t !! lit "a" = None /\ is_Some (qt_stats t !! lit "b").
Proof.
  split; [|split; [vm_compute; reflexivity|vm_compute; eexists; reflexivity]].
  apply (stats_bounded 2 [(1, lit "a", false, 5); (2, lit "b", false, 5); (3, lit "c", true, 5)]).
  - discriminate.
  - repeat constructor.
Defined.
