(* ===== verification/Context.v ===== *)
(** * Cache contexts (src/src/proxy/context.rs)

    The manager of cache contexts: creation, switching, deletion, the policies
    installed from the configuration, statistics, and the eviction of contexts that
    were not accessed recently. *)

From Stdlib Require Import SpecFloat.
From stdpp Require Import sorting.
From S2P Require Import Prelude Floats Text Types Cdc Cache Scope Retry ConnPool Upstream Pool Cascade.
Open Scope Z_scope.
Open Scope conproxy_scope.

(** The part of a policy that serves queries; the other sections of the
    configuration are carried along unread. *)
Record ContextPolicy := { cp_scope_filter : ScopeFilter; cp_scope : ProxyScopeConfig; cp_cascade : CascadeConfig }.

(** A resolved context of the configuration, with the url and the index of its legs. *)
Record ResolvedContext := {
  rx_id : str;
  rx_is_default : bool;
  rx_description : option str;
  rx_legs : list (str * option str);
  rx_scope : ProxyScopeConfig;
  rx_cascade : CascadeConfig
}.

Record ContextMetadata := {
  md_id : str;
  md_upstream_url : str;
  md_collection : str;
  md_description : option str;
  md_query_mode : QueryMode;
  md_upstream_type : UpstreamType;
  md_created_at : Z;
  md_last_accessed : Z;
  md_entry_count : Z
}.

Definition ContextMetadata_new (clk : Clock) (id url collection : str) : ContextMetadata :=
  let now := as_secs (wall clk) in
  {| md_id := id; md_upstream_url := url; md_collection := collection; md_description := None;
     md_query_mode := UnknownMode; md_upstream_type := UnknownType; md_created_at := now;
     md_last_accessed := now; md_entry_count := 0 |}.
Definition with_description (d : option str) (m : ContextMetadata) : ContextMetadata :=
  {| md_id := md_id m; md_upstream_url := md_upstream_url m; md_collection := md_collection m;
     md_description := d; md_query_mode := md_query_mode m; md_upstream_type := md_upstream_type m;
     md_created_at := md_created_at m; md_last_accessed := md_last_accessed m;
     md_entry_count := md_entry_count m |}.

Record ContextStats := { cs_hits : Z; cs_misses : Z; cs_queries : Z }.
Definition ContextStats_new : ContextStats := {| cs_hits := 0; cs_misses := 0; cs_queries := 0 |}.
Definition cs_record_hit (s : ContextStats) : ContextStats :=
  {| cs_hits := wrap 64 (cs_hits s + 1); cs_misses := cs_misses s; cs_queries := wrap 64 (cs_queries s + 1) |}.
Definition cs_record_miss (s : ContextStats) : ContextStats :=
  {| cs_hits := cs_hits s; cs_misses := wrap 64 (cs_misses s + 1); cs_queries := wrap 64 (cs_queries s + 1) |}.
Definition cs_hit_rate (s : ContextStats) : f64 :=
  if cs_queries s =? 0 then f_zero else F64.div (F64.of_Z (cs_hits s)) (F64.of_Z (cs_queries s)).

Record ContextConfig := {
  default_context_id : str;
  max_active_contexts : Z;
  auto_create : bool;
  inactive_timeout : Z
}.
Definition ContextConfig_default : ContextConfig :=
  {| default_context_id := lit "default"; max_active_contexts := 10; auto_create := true;
     inactive_timeout := from_secs 3600 |}.

Record ContextCache := {
  cx_metadata : ContextMetadata;
  cx_stats : ContextStats;
  last_access : Z;
  policy : option ContextPolicy
}.
Definition ContextCache_new (clk : Clock) (m : ContextMetadata) : ContextCache :=
  {| cx_metadata := m; cx_stats := ContextStats_new; last_access := mono clk; policy := None |}.
Definition touch (clk : Clock) (c : ContextCache) : ContextCache :=
  {| cx_metadata := cx_metadata c; cx_stats := cx_stats c; last_access := mono clk; policy := policy c |}.
Definition on_stats (f : ContextStats -> ContextStats) (c : ContextCache) : ContextCache :=
  {| cx_metadata := cx_metadata c; cx_stats := f (cx_stats c); last_access := last_access c; policy := policy c |}.
Definition on_metadata (f : ContextMetadata -> ContextMetadata) (c : ContextCache) : ContextCache :=
  {| cx_metadata := f (cx_metadata c); cx_stats := cx_stats c; last_access := last_access c; policy := policy c |}.
Definition put_policy (p : ContextPolicy) (c : ContextCache) : ContextCache :=
  {| cx_metadata := cx_metadata c; cx_stats := cx_stats c; last_access := last_access c; policy := Some p |}.

Record ContextManager := {
  active : gmap str ContextCache;
  current : str;
  cm_config : ContextConfig
}.
Definition put_active (m : ContextManager) (a : gmap str ContextCache) : ContextManager :=
  {| active := a; current := current m; cm_config := cm_config m |}.
Definition put_current (m : ContextManager) (c : str) : ContextManager :=
  {| active := active m; current := c; cm_config := cm_config m |}.

Inductive ContextError := NotFound (id : str) | AlreadyExists (id : str) | CannotDeleteDefault.

(** The order in which the concurrent map lists its entries. *)
Class ContextEnv := { ctx_iter : gmap str ContextCache -> list (str * ContextCache) }.
Class ContextEnvLaws (E : ContextEnv) : Prop := { ctx_iter_perm : forall m, ctx_iter m ≡ₚ map_to_list m }.

Definition ContextManager_new (clk : Clock) (c : ContextConfig) : ContextManager :=
  let id := default_context_id c in
  {| active := {[ id := ContextCache_new clk (ContextMetadata_new clk id [] []) ]}; current := id;
     cm_config := c |}.

Definition ctx_create (clk : Clock) (id url collection : str) (m : ContextManager)
  : result unit ContextError * ContextManager :=
  if decide (is_Some (active m !! id)) then (Err (AlreadyExists id), m)
  else (Ok tt, put_active m (<[id := ContextCache_new clk (ContextMetadata_new clk id url collection)]> (active m))).

Definition active_count (m : ContextManager) : Z := Z.of_nat (size (active m)).

Section Evict.
Context `{ContextEnv}.

Definition candidates_lru (m : ContextManager) : list (str * ContextCache) :=
  sort_by (fun a b => last_access a.2 <=? last_access b.2)
    (List.filter (fun kv : str * ContextCache =>
       negb (str_eqb kv.1 (current m)) && negb (str_eqb kv.1 (default_context_id (cm_config m))))
       (ctx_iter (active m))).

Definition maybe_evict (m : ContextManager) : ContextManager :=
  if active_count m <=? max_active_contexts (cm_config m) then m
  else
    let to_evict := sat_sub (active_count m) (max_active_contexts (cm_config m)) in
    put_active m
      (foldl (fun a kv => delete kv.1 a) (active m) (take (Z.to_nat to_evict) (candidates_lru m))).

Definition switch (clk : Clock) (id : str) (m : ContextManager) : result unit ContextError * ContextManager :=
  let go m :=
    let m := put_active m (alter (touch clk) id (active m)) in
    (Ok tt, maybe_evict (put_current m id)) in
  if decide (is_Some (active m !! id)) then go m
  else if auto_create (cm_config m) then
    match ctx_create clk id [] [] m with
    | (Ok _, m) | (Err (AlreadyExists _), m) => go m
    | (Err e, m) => (Err e, m)
    end
  else (Err (NotFound id), m).
End Evict.

Definition policy_of `{UnicodeCase} (r : ResolvedContext) : ContextPolicy :=
  {| cp_scope_filter := from_config (rx_scope r); cp_scope := rx_scope r; cp_cascade := rx_cascade r |}.

Definition install_one `{UnicodeCase} (clk : Clock) (r : ResolvedContext) (a : gmap str ContextCache)
  : gmap str ContextCache :=
  let p := policy_of r in
  let url := match rx_legs r with l :: _ => l.1 | [] => [] end in
  let collection := match rx_legs r with l :: _ => default [] l.2 | [] => [] end in
  match a !! rx_id r with
  | Some c =>
      let c := put_policy p c in
      let c := match rx_description r with
               | Some d => on_metadata (with_description (Some d)) c
               | None => c
               end in
      <[rx_id r := touch clk c]> a
  | None =>
      let md := with_description (rx_description r) (ContextMetadata_new clk (rx_id r) url collection) in
      <[rx_id r := put_policy p (ContextCache_new clk md)]> a
  end.

Definition resolved_default (rs : list ResolvedContext) : str :=
  match List.find rx_is_default rs with Some r => rx_id r | None => lit "default" end.

Definition install_resolved `{UnicodeCase} (clk : Clock) (rs : list ResolvedContext) (m : ContextManager)
  : ContextManager :=
  let m := put_active m (foldl (fun a r => install_one clk r a) (active m) rs) in
  if decide (is_Some (active m !! resolved_default rs)) then put_current m (resolved_default rs) else m.

Definition from_resolved `{UnicodeCase} (clk : Clock) (rs : list ResolvedContext) : ContextManager :=
  install_resolved clk rs
    (ContextManager_new clk
       {| default_context_id := resolved_default rs;
          max_active_contexts := max_active_contexts ContextConfig_default;
          auto_create := auto_create ContextConfig_default;
          inactive_timeout := inactive_timeout ContextConfig_default |}).

Definition context_scope_filter (id : str) (m : ContextManager) : option ScopeFilter :=
  match active m !! id with Some c => cp_scope_filter <$> policy c | None => None end.
Definition policy_for (id : str) (m : ContextManager) : option ContextPolicy :=
  match active m !! id with Some c => policy c | None => None end.

Definition ctx_delete (id : str) (m : ContextManager) : result unit ContextError * ContextManager :=
  let d := default_context_id (cm_config m) in
  if str_eqb id d then (Err CannotDeleteDefault, m)
  else if decide (is_Some (active m !! id)) then
    let m := if str_eqb (current m) id then put_current m d else m in
    (Ok tt, put_active m (delete id (active m)))
  else (Err (NotFound id), m).

Definition ctx_get (id : str) (m : ContextManager) : option ContextMetadata := cx_metadata <$> active m !! id.
Definition get_current (m : ContextManager) : option ContextMetadata := ctx_get (current m) m.

Definition record_hit_for (id : str) (m : ContextManager) : ContextManager :=
  put_active m (alter (on_stats cs_record_hit) id (active m)).
Definition record_miss_for (id : str) (m : ContextManager) : ContextManager :=
  put_active m (alter (on_stats cs_record_miss) id (active m)).
Definition record_hit_current (m : ContextManager) : ContextManager := record_hit_for (current m) m.
Definition record_miss_current (m : ContextManager) : ContextManager := record_miss_for (current m) m.
Definition reset_all_stats (m : ContextManager) : ContextManager :=
  put_active m (on_stats (fun _ => ContextStats_new) <$> active m).

Definition update_metadata (id : str) (f : ContextMetadata -> ContextMetadata) (m : ContextManager)
  : result unit ContextError * ContextManager :=
  if decide (is_Some (active m !! id)) then (Ok tt, put_active m (alter (on_metadata f) id (active m)))
  else (Err (NotFound id), m).
Definition ctx_set_query_mode (id : str) (mode : QueryMode) : ContextManager -> result unit ContextError * ContextManager :=
  update_metadata id (fun m =>
    {| md_id := md_id m; md_upstream_url := md_upstream_url m; md_collection := md_collection m;
       md_description := md_description m; md_query_mode := mode; md_upstream_type := md_upstream_type m;
       md_created_at := md_created_at m; md_last_accessed := md_last_accessed m;
       md_entry_count := md_entry_count m |}).

(** ** Eviction *)

Lemma delete_all_lookup {A} (l : list (str * A)) : forall (a : gmap str A) k,
  foldl (fun a kv => delete kv.1 a) a l !! k = (if decide (k ∈ l.*1) then None else a !! k).
Proof.
  induction l as [|kv l IH]; intros a k; simpl; [done|]. rewrite IH.
  destruct (decide (k = kv.1)) as [->|Hne].
  - rewrite lookup_delete_eq. by repeat case_decide; set_solver.
  - rewrite lookup_delete_ne by done. repeat case_decide; set_solver.
Qed.

Lemma delete_all_size {A} (l : list (str * A)) : forall (a : gmap str A),
  NoDup l.*1 -> (forall kv, kv ∈ l -> is_Some (a !! kv.1)) ->
  size (foldl (fun a kv => delete kv.1 a) a l) = (size a - length l)%nat.
Proof.
  induction l as [|kv l IH]; intros a Hnd Hin; simpl; [lia|].
  apply NoDup_cons in Hnd as [Hni Hnd]. rewrite IH; [|done|].
  - rewrite map_size_delete_Some by (apply Hin; set_solver). lia.
  - intros kv' Hk. rewrite lookup_delete_ne; [apply Hin; set_solver|].
    intros Heq. apply Hni. rewrite Heq. by apply list_elem_of_fmap_2.
Qed.

(** The current and the default context are there. *)
Record ctx_inv (m : ContextManager) : Prop := {
  ci_current : is_Some (active m !! current m);
  ci_default : is_Some (active m !! default_context_id (cm_config m))
}.

Definition pinned (m : ContextManager) (id : str) : Prop :=
  id = current m \/ id = default_context_id (cm_config m).

Section Eviction.
Context `{Env : ContextEnv} {Laws : ContextEnvLaws Env}.

Lemma candidates_lru_elem m k c :
  (k, c) ∈ candidates_lru m <-> active m !! k = Some c /\ ~ pinned m k.
Proof.
  unfold candidates_lru, pinned. rewrite sort_by_perm, list_elem_of_In, filter_In, <- list_elem_of_In.
  rewrite ctx_iter_perm, elem_of_map_to_list, andb_true_iff, !negb_true_iff. simpl.
  unfold str_eqb. rewrite !bool_decide_eq_false. tauto.
Qed.

Lemma candidates_lru_sorted m :
  StronglySorted (fun a b => last_access a.2 <= last_access b.2) (candidates_lru m).
Proof.
  eapply strongly_sorted_impl; [|apply sort_by_sorted].
  - intros a b. simpl. by rewrite Z.leb_le.
  - intros a b. rewrite Z.leb_gt, Z.leb_le. lia.
  - intros a b c. rewrite !Z.leb_le. lia.
Qed.

Lemma candidates_lru_nodup m : NoDup (candidates_lru m).*1.
Proof.
  unfold candidates_lru. rewrite sort_by_perm.
  assert (NoDup (ctx_iter (active m)).*1) as Hnd by (rewrite ctx_iter_perm; apply NoDup_fst_map_to_list).
  revert Hnd. generalize (ctx_iter (active m)) as l. induction l as [|kv l IH]; simpl; [done|].
  intros [Hni Hnd]%NoDup_cons. destruct (_ && _); simpl; [|auto]. apply NoDup_cons. split; [|auto].
  intros (kv' & Heq & Hk)%list_elem_of_fmap. apply list_elem_of_In, filter_In in Hk as [Hk%list_elem_of_In _].
  apply Hni. rewrite Heq. by apply list_elem_of_fmap_2.
Qed.

(** All but the current and the default context are candidates. *)
Lemma candidates_lru_length m : ctx_inv m ->
  Z.of_nat (size (active m)) - 2 <= zlen (candidates_lru m).
Proof.
  intros [Hc Hd]. unfold zlen.
  assert (Hsub : dom (active m) ⊆ list_to_set (candidates_lru m).*1 ∪ {[current m; default_context_id (cm_config m)]}).
  { intros k [c Hk]%elem_of_dom. destruct (decide (pinned m k)) as [[->| ->]|Hp]; [set_solver|set_solver|].
    apply elem_of_union_l, elem_of_list_to_set, list_elem_of_fmap. exists (k, c). split; [done|].
    by apply candidates_lru_elem. }
  apply subseteq_size in Hsub. rewrite size_dom in Hsub.
  etransitivity; [|apply Nat2Z.inj_le; reflexivity].
  assert (size (list_to_set (C := gset str) (candidates_lru m).*1 ∪ {[current m; default_context_id (cm_config m)]})
          <= length (candidates_lru m) + 2)%nat; [|lia].
  rewrite size_union_alt. rewrite size_list_to_set by apply candidates_lru_nodup. rewrite length_fmap.
  assert (size (({[current m; default_context_id (cm_config m)]} : gset str) ∖ list_to_set (candidates_lru m).*1)
          <= size ({[current m; default_context_id (cm_config m)]} : gset str))%nat
    by (apply subseteq_size; set_solver).
  assert (size ({[current m; default_context_id (cm_config m)]} : gset str) <= 2)%nat; [|lia].
  rewrite size_union_alt, !size_singleton.
  assert (size (({[default_context_id (cm_config m)]} : gset str) ∖ {[current m]}) <= 1)%nat; [|lia].
  rewrite <- (size_singleton (C := gset str) (default_context_id (cm_config m))). apply subseteq_size. set_solver.
Qed.

Lemma maybe_evict_spec m :
  0 <= max_active_contexts (cm_config m) -> ctx_inv m ->
  let m' := maybe_evict m in
  ctx_inv m' /\ current m' = current m /\ cm_config m' = cm_config m /\ active m' ⊆ active m /\
  active_count m' <= Z.max 2 (max_active_contexts (cm_config m)) /\
  (active_count m <= max_active_contexts (cm_config m) -> m' = m) /\
  (forall k c k' c', active m !! k = Some c -> active m' !! k = None ->
     active m' !! k' = Some c' -> ~ pinned m k' -> last_access c <= last_access c').
Proof.
  intros Hmax Hinv. unfold maybe_evict. destruct (active_count m <=? _) eqn:E; reflect_Z.
  { split_and!; try done; [lia|]. intros k c k' c' H1 H2. by rewrite H1 in H2. }
  set (n := Z.to_nat (sat_sub (active_count m) (max_active_contexts (cm_config m)))).
  set (gone := take n (candidates_lru m)).
  assert (Hgone : forall k, k ∈ gone.*1 -> is_Some (active m !! k) /\ ~ pinned m k).
  { intros k ([k0 c] & -> & Hk)%list_elem_of_fmap.
    assert ((k0, c) ∈ candidates_lru m) as Hc by (rewrite <- (take_drop n (candidates_lru m)); set_solver).
    apply candidates_lru_elem in Hc as [Hc Hp]. split; [by eexists|done]. }
  assert (Hlk : forall k, foldl (fun a kv => delete kv.1 a) (active m) gone !! k =
                     if decide (k ∈ gone.*1) then None else active m !! k) by apply delete_all_lookup.
  assert (Hnd : NoDup gone.*1).
  { pose proof (candidates_lru_nodup m) as H. rewrite <- (take_drop n (candidates_lru m)), fmap_app in H. by apply NoDup_app in H as [? _]. }
  simpl. split_and!; try done.
  - destruct Hinv as [Hc Hd]. split; simpl; rewrite Hlk; (case_decide as Hin; [|done]);
      apply Hgone in Hin as [_ Hp]; exfalso; apply Hp; [by left|by right].
  - apply map_subseteq_spec. intros k c. rewrite Hlk. by case_decide.
  - unfold active_count. simpl. rewrite delete_all_size; [|done|].
    + pose proof (candidates_lru_length m Hinv) as Hl. unfold gone, n, zlen, active_count in *. rewrite length_take.
      unfold sat_sub. lia.
    + intros kv Hk. apply Hgone. by apply list_elem_of_fmap_2.
  - intros Hle. lia.
  - intros k c k' c' Hk Hgk Hk' Hp. rewrite Hlk in Hgk, Hk'. destruct (decide (k ∈ gone.*1)) as [Hin|]; [|congruence].
    destruct (decide (k' ∈ gone.*1)) as [|Hin']; [done|]. apply list_elem_of_fmap in Hin as ([k0 c0] & -> & Hin).
    assert ((k0, c0) ∈ candidates_lru m) as Hc0 by (rewrite <- (take_drop n (candidates_lru m)); set_solver).
    apply candidates_lru_elem in Hc0 as [Hc0 _]. simpl in *. replace c with c0 by congruence.
    assert ((k', c') ∈ candidates_lru m) as Hc' by (by apply candidates_lru_elem).
    pose proof (candidates_lru_sorted m) as Hs. rewrite <- (take_drop n (candidates_lru m)) in Hs, Hc'. fold gone in Hs, Hc'.
    apply elem_of_app in Hc' as [Hc'|Hc']; [destruct Hin'; by apply (list_elem_of_fmap_2 fst) in Hc'|].
    exact (StronglySorted_app_1_elem_of _ _ _ _ _ Hs Hin Hc').
Qed.
End Eviction.

(** ** The manager as a transition system *)

Inductive ctx_op :=
| XSwitch (clk : Clock) (id : str)
| XCreate (clk : Clock) (id url collection : str)
| XDelete (id : str)
| XInstall (clk : Clock) (rs : list ResolvedContext)
| XHit (id : str)
| XMiss (id : str)
| XResetStats
| XSetQueryMode (id : str) (mode : QueryMode).

Section System.
Context `{Env : ContextEnv} {Laws : ContextEnvLaws Env} `{UnicodeCase}.

Definition ctx_apply (o : ctx_op) (m : ContextManager) : ContextManager :=
  match o with
  | XSwitch clk id => snd (switch clk id m)
  | XCreate clk id u c => snd (ctx_create clk id u c m)
  | XDelete id => snd (ctx_delete id m)
  | XInstall clk rs => install_resolved clk rs m
  | XHit id => record_hit_for id m
  | XMiss id => record_miss_for id m
  | XResetStats => reset_all_stats m
  | XSetQueryMode id mode => snd (ctx_set_query_mode id mode m)
  end.

Lemma ctx_inv_mono m a : (forall k, is_Some (active m !! k) -> is_Some (a !! k)) -> ctx_inv m -> ctx_inv (put_active m a).
Proof. intros Ha [Hc Hd]. split; simpl; auto. Qed.

Lemma ctx_inv_alter m f k : ctx_inv m -> ctx_inv (put_active m (alter f k (active m))).
Proof. apply ctx_inv_mono. intros k'. by rewrite lookup_alter_is_Some. Qed.

Lemma install_one_dom clk r a k : is_Some (a !! k) -> is_Some (install_one clk r a !! k).
Proof.
  intros Hk. unfold install_one. destruct (a !! rx_id r); apply lookup_insert_is_Some'; tauto.
Qed.

Lemma switch_ok clk id m :
  0 <= max_active_contexts (cm_config m) -> ctx_inv m ->
  match switch clk id m with
  | (Ok _, m') =>
      ctx_inv m' /\ current m' = id /\ cm_config m' = cm_config m /\
      active_count m' <= Z.max 2 (max_active_contexts (cm_config m))
  | (Err e, m') => m' = m /\ e = NotFound id /\ active m !! id = None /\ auto_create (cm_config m) = false
  end.
Proof.
  intros Hmax Hinv.
  assert (Hgo : forall m1, cm_config m1 = cm_config m -> ctx_inv m1 -> is_Some (active m1 !! id) ->
    let m' := maybe_evict (put_current (put_active m1 (alter (touch clk) id (active m1))) id) in
    ctx_inv m' /\ current m' = id /\ cm_config m' = cm_config m /\
    active_count m' <= Z.max 2 (max_active_contexts (cm_config m))).
  { intros m1 Hc [_ Hd] Hid. set (m2 := put_current _ id).
    assert (ctx_inv m2) as Hi2 by (split; simpl; by rewrite lookup_alter_is_Some).
    destruct (maybe_evict_spec m2) as (H1 & H2 & H3 & _ & H4 & _); [simpl; by rewrite Hc|done|].
    simpl in *. rewrite Hc in *. split_and!; done. }
  unfold switch. case_decide as Hid; [by apply Hgo|].
  destruct (auto_create (cm_config m)) eqn:Ea.
  - unfold ctx_create. rewrite decide_False by done. simpl.
    set (a := <[id := _]> (active m)). apply (Hgo (put_active m a)); [done| |by simpl; unfold a; rewrite lookup_insert_eq; eexists].
    apply ctx_inv_mono; [|done]. intros k Hk. apply lookup_insert_is_Some'; tauto.
  - split_and!; try done. by apply eq_None_not_Some.
Qed.

Lemma ctx_apply_ok o m :
  0 <= max_active_contexts (cm_config m) -> ctx_inv m ->
  ctx_inv (ctx_apply o m) /\ cm_config (ctx_apply o m) = cm_config m.
Proof.
  intros Hmax Hinv. destruct o; simpl.
  - pose proof (switch_ok clk id m Hmax Hinv) as Hs. destruct (switch clk id m) as [[]]; simpl; [tauto|].
    by destruct Hs as (-> & _).
  - unfold ctx_create. case_decide; [done|]. split; [|done]. apply ctx_inv_mono; [|done].
    intros k Hk. apply lookup_insert_is_Some'; tauto.
  - unfold ctx_delete, str_eqb. destruct (bool_decide (id = _)) eqn:E; [done|]. apply bool_decide_eq_false in E.
    case_decide; [|done]. destruct Hinv as [Hc Hd].
    destruct (bool_decide (current m = id)) eqn:E2; simpl; (split; [|done]); split; simpl;
      rewrite lookup_delete_ne; try done; by apply bool_decide_eq_false in E2.
  - unfold install_resolved. set (m1 := put_active m _).
    assert (ctx_inv m1) as Hi.
    { apply ctx_inv_mono; [|done]. intros k. generalize (active m) as a. induction rs as [|r rs IH]; intros a Hk; [done|].
      simpl. apply IH. by apply install_one_dom. }
    case_decide as Hd; [|done]. split; [|done]. split; [done|apply Hi].
  - split; [by apply ctx_inv_alter|done].
  - split; [by apply ctx_inv_alter|done].
  - split; [|done]. apply ctx_inv_mono; [|done]. intros k. by rewrite lookup_fmap, fmap_is_Some.
  - unfold ctx_set_query_mode, update_metadata. case_decide; [|done]. split; [by apply ctx_inv_alter|done].
Qed.

End System.

(** Policies are part of the contexts that are evicted: once enough other contexts
    were switched to, a context that was installed with a policy and served queries
    all along is gone, and it comes back without its policy. *)
#[export] Instance demo_ctx_env : ContextEnv := {| ctx_iter := map_to_list |}.
#[export] Instance demo_ctx_laws : ContextEnvLaws demo_ctx_env.
Proof. by split. Qed.

Definition at_ns (n : Z) : Clock := {| mono := n; wall := n |}.
Definition demo_resolved : ResolvedContext :=
  {| rx_id := lit "tenant"; rx_is_default := false; rx_description := None; rx_legs := [];
     rx_scope := {| weighted_phrases := [WeightedPhrase_new (lit "rust")]; cfg_seeds := []; cfg_mode := None;
                    cfg_min_seed_similarity := None; cfg_seed_weight := None; cfg_query_prefix := None;
                    cfg_lexical_weight := None; cfg_embed_band := None |}; rx_cascade := CascadeConfig_default |}.
Definition demo_names : list str := map (fun n => lit "c" ++ show_Z n) [1; 2; 3; 4; 5; 6; 7; 8; 9].
Definition demo_switches : list ctx_op :=
  imap (fun i name => XSwitch (at_ns (Z.of_nat i + 1)) name) demo_names.

#[local] Existing Instance AsciiCase.


(** The scope filter of the installed context is lost after nine other contexts were
    used, and the context is created again without it. *)
Lemma policy_lost_by_eviction :
  let m0 := from_resolved (at_ns 0) [demo_resolved] in
  let m1 := foldl (fun m o => ctx_apply o m) m0 demo_switches in
  is_Some (context_scope_filter (lit "tenant") m0) /\
  active m1 !! lit "tenant" = None /\
  is_Some (ctx_get (lit "tenant") (snd (switch (at_ns 50) (lit "tenant") m1))) /\
  context_scope_filter (lit "tenant") (snd (switch (at_ns 50) (lit "tenant") m1)) = None.
Proof. split_and!; vm_compute; try reflexivity; by eexists. Qed.
