(* ===== verification/Refresh.v ===== *)
(** * The refresh workers (src/src/proxy/refresh.rs)

    A cycle of a worker lists the stale entries and spawns one task for each that is
    not pending; a task asks the upstream and stores its answer.  The worker shares
    the cache, the upstream and the metrics with the server, and these are arguments
    here.  A task holds a clone of the map of pending hashes; cloning a [DashMap]
    copies it, so that removing a hash from the clone leaves the worker's map as it
    is. *)

From Stdlib Require Import SpecFloat.
From S2P Require Import Prelude Floats Text Types Drift Cdc Cache CacheProps Retry Metrics.
Open Scope Z_scope.
Open Scope conproxy_scope.

(** ** The worker that reads the query from the entry *)

Record RefreshTask := { rt_hash : QueryHash; rt_query : str }.

Section Worker.
Context `{CacheEnv}.

Definition plain_request (q : str) (k : option Z) : QueryRequest :=
  {| query := q; top_k := k; rq_priority := None; rq_upstream_id := None; upstream_type := None |}.

(** The loop over the stale hashes: the hashes that get a task. *)
Fixpoint spawn_plain (hs : list QueryHash) (pending : gset QueryHash) : list QueryHash * gset QueryHash :=
  match hs with
  | [] => ([], pending)
  | h :: hs =>
      if decide (h ∈ pending) then spawn_plain hs pending
      else let '(ts, p) := spawn_plain hs ({[h]} ∪ pending) in (h :: ts, p)
  end.

Definition plain_cycle (clk : Clock) (s : CacheStore) (pending : gset QueryHash)
  : outcome (list QueryHash * gset QueryHash) :=
  let! hs := get_stale_hashes clk s in Ret (spawn_plain hs pending).

Definition plain_task (clk : Clock) (upstream : QueryRequest -> result QueryResponse UpstreamError)
    (uid : str) (h : QueryHash) (s : CacheStore) : CacheStore :=
  match get_by_hash h s with
  | (Some e, s) =>
      match query_text e with
      | Some q =>
          match upstream (plain_request q (Some (Z.max (zlen (results (response e))) 10))) with
          | Ok r => insert_by_hash clk h r uid (Some q) s
          | Err _ => s
          end
      | None => s
      end
  | (None, s) => s
  end.

(** ** The worker that tracks queries *)

Record QueryTrackingRefreshWorker := {
  rw_upstream_id : str;
  query_map : gmap QueryHash str;
  pending : gset QueryHash;
  drift_aggregator : DriftAggregator;
  last_schema : option SchemaFingerprint;
  has_metrics : bool
}.

Definition QueryTrackingRefreshWorker_new (uid : str) (metrics : bool) (agg : DriftAggregator)
  : QueryTrackingRefreshWorker :=
  {| rw_upstream_id := uid; query_map := ∅; pending := ∅; drift_aggregator := agg; last_schema := None;
     has_metrics := metrics |}.

Definition put_query_map (w : QueryTrackingRefreshWorker) (m : gmap QueryHash str) : QueryTrackingRefreshWorker :=
  {| rw_upstream_id := rw_upstream_id w; query_map := m; pending := pending w;
     drift_aggregator := drift_aggregator w; last_schema := last_schema w; has_metrics := has_metrics w |}.
Definition put_pending (w : QueryTrackingRefreshWorker) (p : gset QueryHash) : QueryTrackingRefreshWorker :=
  {| rw_upstream_id := rw_upstream_id w; query_map := query_map w; pending := p;
     drift_aggregator := drift_aggregator w; last_schema := last_schema w; has_metrics := has_metrics w |}.
Definition put_drift (w : QueryTrackingRefreshWorker) (a : DriftAggregator) : QueryTrackingRefreshWorker :=
  {| rw_upstream_id := rw_upstream_id w; query_map := query_map w; pending := pending w;
     drift_aggregator := a; last_schema := last_schema w; has_metrics := has_metrics w |}.

Definition register_query (q : str) (w : QueryTrackingRefreshWorker) : QueryTrackingRefreshWorker :=
  put_query_map w (<[hash_query q := q]> (query_map w)).
Definition unregister_query (q : str) (w : QueryTrackingRefreshWorker) : QueryTrackingRefreshWorker :=
  put_query_map w (delete (hash_query q) (query_map w)).

Fixpoint spawn_tracked (hs : list QueryHash) (w : QueryTrackingRefreshWorker)
  : list RefreshTask * QueryTrackingRefreshWorker :=
  match hs with
  | [] => ([], w)
  | h :: hs =>
      if decide (h ∈ pending w) then spawn_tracked hs w
      else match query_map w !! h with
           | None => spawn_tracked hs w
           | Some q =>
               let '(ts, w) := spawn_tracked hs (put_pending w ({[h]} ∪ pending w)) in
               ({| rt_hash := h; rt_query := q |} :: ts, w)
           end
  end.

Definition refresh_stale_entries (clk : Clock) (s : CacheStore) (w : QueryTrackingRefreshWorker)
  : outcome (list RefreshTask * QueryTrackingRefreshWorker) :=
  let! hs := get_stale_hashes clk s in Ret (spawn_tracked hs w).

(** A task: the old entry is read before the call and the answer stored after it.
    [None] when the drift window never admits the observation. *)
Definition refresh_task (clk : Clock) (upstream : QueryRequest -> result QueryResponse UpstreamError)
    (t : RefreshTask) (s : CacheStore) (m : ProxyMetrics) (w : QueryTrackingRefreshWorker)
  : option (CacheStore * ProxyMetrics * QueryTrackingRefreshWorker) :=
  let '(old, s) := get (rt_query t) s in
  match upstream (plain_request (rt_query t) None) with
  | Ok r =>
      let stored := insert clk (rt_query t) r (rw_upstream_id w) s in
      match old with
      | Some e =>
          let drift := detect_drift (response e) r in
          match record (mono clk) drift (rt_hash t) (drift_aggregator w) with
          | Some agg =>
              Some (stored, if has_metrics w then record_refresh (record_drift drift m) else m, put_drift w agg)
          | None => None
          end
      | None => Some (stored, if has_metrics w then record_refresh m else m, w)
      end
  | Err _ => Some (s, m, w)
  end.

Definition update_schema (sc : SchemaFingerprint) (m : ProxyMetrics) (w : QueryTrackingRefreshWorker)
  : ProxyMetrics * QueryTrackingRefreshWorker :=
  let changed := match last_schema w with Some old => negb (is_compatible old sc) | None => false end in
  (if changed && has_metrics w then record_schema_change m else m,
   {| rw_upstream_id := rw_upstream_id w; query_map := query_map w; pending := pending w;
      drift_aggregator := drift_aggregator w; last_schema := Some sc; has_metrics := has_metrics w |}).

(** ** Properties *)

Lemma spawn_tracked_spec hs : forall w ts w', spawn_tracked hs w = (ts, w') ->
  query_map w' = query_map w /\
  pending w' = list_to_set (map rt_hash ts) ∪ pending w /\
  NoDup (map rt_hash ts) /\
  (forall t, t ∈ ts -> rt_hash t ∈ hs /\ (rt_hash t ∉ pending w) /\ (query_map w !! rt_hash t) = Some (rt_query t)) /\
  (forall h, h ∈ hs -> is_Some (query_map w !! h) -> h ∈ pending w').
Proof.
  induction hs as [|h hs IH]; intros w ts w'; simpl.
  - intros [= <- <-]. split_and!; [done|set_solver|constructor|set_solver|set_solver].
  - case_decide as Hp.
    + intros H0%IH. destruct H0 as (H1 & H2 & H3 & H4 & H5). split_and!; [done|done|done|set_solver|].
      intros h' [->|Hh]%elem_of_cons Hq; [rewrite H2; set_solver|auto].
    + destruct (query_map w !! h) as [q|] eqn:Eq.
      * destruct (spawn_tracked hs _) as [ts0 w0] eqn:E. intros [= <- <-].
        destruct (IH _ _ _ E) as (H1 & H2 & H3 & H4 & H5). simpl in *.
        split_and!; [done|rewrite H2; set_solver| | |].
        -- constructor; [|done]. intros (t & Ht & Hin)%list_elem_of_fmap. destruct (H4 t Hin) as (_ & Hn & _). set_solver.
        -- intros t [->|Ht]%elem_of_cons; [simpl; split_and!; [set_solver|done|done]|].
           destruct (H4 t Ht) as (? & ? & ?). split_and!; [set_solver|set_solver|done].
        -- intros h' [->|Hh]%elem_of_cons Hq; [rewrite H2; set_solver|auto].
      * intros H0%IH. destruct H0 as (H1 & H2 & H3 & H4 & H5). split_and!; [done|done|done|set_solver|].
        intros h' [->|Hh]%elem_of_cons Hq; [rewrite Eq in Hq; by destruct Hq|auto].
Qed.

(** What happens to a worker: queries are registered, and cycles run at any time on
    whatever the cache holds; tasks end in any order and do not touch the map of
    pending hashes. *)
Inductive RwEvent :=
| RwRegister (q : str)
| RwUnregister (q : str)
| RwCycle (clk : Clock) (s : CacheStore)
| RwDrift (a : DriftAggregator).

Fixpoint rw_run (es : list RwEvent) (w : QueryTrackingRefreshWorker)
  : outcome (list RefreshTask * QueryTrackingRefreshWorker) :=
  match es with
  | [] => Ret ([], w)
  | e :: es =>
      let! r := match e with
                | RwRegister q => Ret ([], register_query q w)
                | RwUnregister q => Ret ([], unregister_query q w)
                | RwCycle clk s => refresh_stale_entries clk s w
                | RwDrift a => Ret ([], put_drift w a)
                end in
      let! r' := rw_run es r.2 in
      Ret (r.1 ++ r'.1, r'.2)
  end.

Lemma rw_run_spec es : forall w ts w', rw_run es w = Ret (ts, w') ->
  pending w' = list_to_set (map rt_hash ts) ∪ pending w /\ NoDup (map rt_hash ts) /\
  (forall t, t ∈ ts -> rt_hash t ∉ pending w).
Proof.
  induction es as [|e es IH]; intros w ts w'; simpl.
  - intros [= <- <-]. split_and!; [set_solver|constructor|set_solver].
  - match goal with |- obind ?m _ = _ -> _ => destruct m as [[ts0 w0]|] eqn:E0; [|done] end. simpl.
    destruct (rw_run es w0) as [[ts1 w1]|] eqn:E1; [|done]. simpl. intros [= <- <-].
    destruct (IH _ _ _ E1) as (H1 & H2 & H3).
    assert (Hstep : pending w0 = list_to_set (map rt_hash ts0) ∪ pending w /\ NoDup (map rt_hash ts0) /\
                    (forall t, t ∈ ts0 -> rt_hash t ∉ pending w)).
    { destruct e; simpl in E0; try (injection E0 as <- <-; simpl; split_and!; [set_solver|constructor|set_solver]).
      unfold refresh_stale_entries in E0. destruct (get_stale_hashes clk s); [|done]. simpl in E0. injection E0 as E0.
      destruct (spawn_tracked_spec _ _ _ _ E0) as (_ & Hp & Hnd & Ht & _). split_and!; [done|done|]. intros t Hin. by apply Ht. }
    destruct Hstep as (Hp & Hnd & Hn). split_and!.
    + rewrite H1, Hp, map_app, list_to_set_app_L. set_solver.
    + rewrite map_app. apply NoDup_app. split_and!; [done| |done].
      intros h Hh (t & -> & Ht)%list_elem_of_fmap. apply (H3 t Ht). rewrite Hp. set_solver.
    + intros t [Ht|Ht]%elem_of_app; [auto|]. specialize (H3 t Ht). rewrite Hp in H3. set_solver.
Qed.

(** The worker spawns at most one task for a hash during its whole life,
    however often the entry becomes stale again, because a hash that was refreshed
    once stays in the map of pending hashes. *)
Theorem refresh_at_most_once es uid metrics agg ts w :
  rw_run es (QueryTrackingRefreshWorker_new uid metrics agg) = Ret (ts, w) ->
  NoDup (map rt_hash ts) /\ (forall t, t ∈ ts -> rt_hash t ∈ pending w) /\
  forall clk s ts' w', refresh_stale_entries clk s w = Ret (ts', w') ->
    forall t t', t ∈ ts -> t' ∈ ts' -> rt_hash t' <> rt_hash t.
Proof.
  intros Hr. destruct (rw_run_spec _ _ _ _ Hr) as (Hp & Hnd & _). simpl in Hp.
  assert (Hin : forall t, t ∈ ts -> rt_hash t ∈ pending w) by (intros t Ht; rewrite Hp; set_solver).
  split_and!; [done|done|]. intros clk s ts' w' Hc t t' Ht Ht' Heq.
  unfold refresh_stale_entries in Hc. destruct (get_stale_hashes clk s) as [hs|]; [|done]. injection Hc as Hc.
  destruct (spawn_tracked_spec _ _ _ _ Hc) as (_ & _ & _ & H4 & _). destruct (H4 t' Ht') as (_ & Hn & _).
  apply Hn. rewrite Heq. auto.
Qed.

(** A task stores what the upstream answered, neither filtered nor validated. *)
Lemma refresh_stores_unchecked clk upstream t s m w r :
  upstream (plain_request (rt_query t) None) = Ok r ->
  fst (get (rt_query t) s) = None ->
  exists m', refresh_task clk upstream t s m w =
    Some (insert clk (rt_query t) r (rw_upstream_id w) (snd (get (rt_query t) s)), m', w).
Proof.
  intros Hu Hg. unfold refresh_task. destruct (get (rt_query t) s) as [old s1]. simpl in Hg. rewrite Hg, Hu.
  by eexists.
Qed.
End Worker.

(** ** Witness: an entry that is stale in two cycles is refreshed in the first. *)

#[local] Existing Instance DemoEnv.
Definition demo_stale : Clock := {| mono := from_secs 70; wall := from_secs 2000 |}.
Definition demo_worker : QueryTrackingRefreshWorker := QueryTrackingRefreshWorker_new (lit "up") true with_defaults.
Definition demo_life : list RwEvent :=
  [RwRegister (lit "gamma"); RwCycle demo_stale demo_store; RwCycle demo_stale demo_store].
Definition demo_spawned : list RefreshTask * QueryTrackingRefreshWorker :=
  Eval vm_compute in ret_or ([], demo_worker) (rw_run demo_life demo_worker).

Lemma refresh_at_most_once_witness :
  map rt_query (fst demo_spawned) = [lit "gamma"] /\ NoDup (map rt_hash (fst demo_spawned)).
Proof.
  split; [reflexivity|].
  apply (refresh_at_most_once demo_life (lit "up") true with_defaults (fst demo_spawned) (snd demo_spawned)).
  vm_compute. reflexivity.
Defined.
