(* ===== verification/Batch.v ===== *)
(** * Batches (src/src/proxy/batch.rs)

    Validation of a batch, and the processor: in sequence, as a loop over the queries,
    or in parallel, as a transition system over the spawned tasks, the semaphore that
    bounds them, the fail-fast flag and the loop that joins them in order until the
    deadline.  What a query answers is the environment's. *)

From Stdlib Require Import SpecFloat.
From S2P Require Import Prelude Floats Text Types.
Open Scope Z_scope.
Open Scope conproxy_scope.

Record BatchQuery := { bq_id : str; bq_query : str; bq_top_k : option Z; bq_priority : option Z }.
Record BatchRequest := { queries : list BatchQuery; fail_fast : bool; timeout_ms : option Z }.

Definition request_of (q : BatchQuery) : QueryRequest :=
  {| query := bq_query q; top_k := bq_top_k q; rq_priority := bq_priority q; rq_upstream_id := None;
     upstream_type := None |}.

Record BatchQueryResult := {
  bqr_success : bool;
  bqr_response : option QueryResponse;
  bqr_error : option str;
  bqr_took_ms : Z
}.
Definition bqr_ok (r : QueryResponse) : BatchQueryResult :=
  {| bqr_success := true; bqr_response := Some r; bqr_error := None; bqr_took_ms := took_ms r |}.
Definition bqr_err (msg : str) (took : Z) : BatchQueryResult :=
  {| bqr_success := false; bqr_response := None; bqr_error := Some msg; bqr_took_ms := took |}.

Record BatchConfig := {
  max_queries : Z;
  max_total_results : Z;
  default_query_timeout : Z;
  max_batch_timeout : Z;
  parallel : bool;
  max_parallel : Z
}.
Definition BatchConfig_default : BatchConfig :=
  {| max_queries := 100; max_total_results := 1000; default_query_timeout := from_secs 30;
     max_batch_timeout := from_secs 300; parallel := true; max_parallel := 10 |}.

Inductive BatchError := EmptyBatch | TooManyQueries (count max : Z) | DuplicateId (id : str).

(** The loop over [seen_ids]. *)
Fixpoint first_duplicate (seen : gset str) (qs : list BatchQuery) : option str :=
  match qs with
  | [] => None
  | q :: qs => if decide (bq_id q ∈ seen) then Some (bq_id q) else first_duplicate ({[bq_id q]} ∪ seen) qs
  end.
Definition batch_validate (c : BatchConfig) (r : BatchRequest) : result unit BatchError :=
  if bool_decide (queries r = []) then Err EmptyBatch
  else if max_queries c <? zlen (queries r) then Err (TooManyQueries (zlen (queries r)) (max_queries c))
  else match first_duplicate ∅ (queries r) with
       | Some id => Err (DuplicateId id)
       | None => Ok tt
       end.

Definition batch_timeout (c : BatchConfig) (r : BatchRequest) : Z :=
  match timeout_ms r with Some ms => from_millis ms | None => max_batch_timeout c end.

Record BatchResponse := {
  br_results : gmap str BatchQueryResult;
  success_count : Z;
  error_count : Z;
  complete_ : bool
}.
Definition empty_response : BatchResponse :=
  {| br_results := ∅; success_count := 0; error_count := 0; complete_ := true |}.

(** A joined result. *)
Definition add_result (id : str) (r : BatchQueryResult) (a : BatchResponse) : BatchResponse :=
  {| br_results := <[id := r]> (br_results a);
     success_count := if bqr_success r then success_count a +! 1 else success_count a;
     error_count := if bqr_success r then error_count a else error_count a +! 1;
     complete_ := complete_ a |}.
Definition incomplete (a : BatchResponse) : BatchResponse :=
  {| br_results := br_results a; success_count := success_count a; error_count := error_count a; complete_ := false |}.
(** A task that panicked: an error without a result. *)
Definition add_panic (a : BatchResponse) : BatchResponse :=
  {| br_results := br_results a; success_count := success_count a; error_count := error_count a +! 1; complete_ := false |}.

(** ** In sequence *)

(** At the [k]-th query: what has elapsed since the start, and what the query answers
    and takes. *)
Record SeqEnv := { elapsed_at : nat -> Z; answers_at : nat -> QueryRequest -> result QueryResponse str; took_at : nat -> Z }.

Fixpoint process_sequential (ev : SeqEnv) (ff : bool) (timeout : Z) (k : nat) (qs : list BatchQuery)
    (a : BatchResponse) : BatchResponse :=
  match qs with
  | [] => a
  | q :: qs =>
      if timeout <? elapsed_at ev k then incomplete a
      else
        match answers_at ev k (request_of q) with
        | Ok r => process_sequential ev ff timeout (S k) qs (add_result (bq_id q) (bqr_ok r) a)
        | Err e =>
            let a := add_result (bq_id q) (bqr_err e (as_millis_u64 (took_at ev k))) a in
            if ff then incomplete a else process_sequential ev ff timeout (S k) qs a
        end
  end.

(** ** In parallel *)

(** A task checks the flag and queues for a permit; asks; ends with a result. *)
Inductive TaskState := TSpawned | TQueued | TAsking | TEnded (r : BatchQueryResult) | TPanicked.

Record ParState := {
  tasks_ : list (BatchQuery * TaskState);
  failed : bool;
  joined : nat;
  acc : BatchResponse;
  over : bool
}.
Definition par_init (qs : list BatchQuery) : ParState :=
  {| tasks_ := map (fun q => (q, TSpawned)) qs; failed := false; joined := 0; acc := empty_response; over := false |}.

Definition asking (ts : list (BatchQuery * TaskState)) : Z :=
  zlen (List.filter (fun t => match snd t with TAsking => true | _ => false end) ts).

Inductive ParEvent :=
| PCheck (i : nat)
| PAcquire (i : nat)
| PAnswer (i : nat) (r : result QueryResponse str) (took : Z)
| PPanic (i : nat)
| PJoin
| PDeadline.

Definition put_task (i : nat) (t : TaskState) (s : ParState) : ParState :=
  {| tasks_ := alter (fun x => (fst x, t)) i (tasks_ s); failed := failed s; joined := joined s; acc := acc s; over := over s |}.

Definition skipped : BatchQueryResult := bqr_err (lit "Skipped due to fail-fast") 0.

Section Par.
Context (c : BatchConfig) (ff : bool).

(** [None]: the event is not possible.  The tasks keep running after the deadline. *)
Definition par_exec (e : ParEvent) (s : ParState) : option ParState :=
  match e with
  | PCheck i =>
      match tasks_ s !! i with
      | Some (_, TSpawned) => Some (put_task i (if ff && failed s then TEnded skipped else TQueued) s)
      | _ => None
      end
  | PAcquire i =>
      match tasks_ s !! i with
      | Some (_, TQueued) => if asking (tasks_ s) <? max_parallel c then Some (put_task i TAsking s) else None
      | _ => None
      end
  | PAnswer i r took =>
      match tasks_ s !! i with
      | Some (_, TAsking) =>
          let s := put_task i (TEnded (match r with Ok resp => bqr_ok resp | Err e => bqr_err e (as_millis_u64 took) end)) s in
          Some {| tasks_ := tasks_ s; failed := match r with Err _ => ff || failed s | Ok _ => failed s end;
                  joined := joined s; acc := acc s; over := over s |}
      | _ => None
      end
  | PPanic i =>
      match tasks_ s !! i with
      | Some (_, TAsking) => Some (put_task i TPanicked s)
      | _ => None
      end
  | PJoin =>
      if over s then None
      else
        let join a := {| tasks_ := tasks_ s; failed := failed s; joined := S (joined s); acc := a; over := false |} in
        match tasks_ s !! joined s with
        | Some (q, TEnded r) => Some (join (add_result (bq_id q) r (acc s)))
        | Some (_, TPanicked) => Some (join (add_panic (acc s)))
        | _ => None
        end
  | PDeadline =>
      if over s then None
      else match tasks_ s !! joined s with
           | Some _ => Some {| tasks_ := tasks_ s; failed := failed s; joined := joined s; acc := incomplete (acc s); over := true |}
           | None => None
           end
  end.

Fixpoint par_run (es : list ParEvent) (s : ParState) : option ParState :=
  match es with
  | [] => Some s
  | e :: es => match par_exec e s with Some s => par_run es s | None => None end
  end.

(** The joining loop is over: all tasks joined, or the deadline. *)
Definition par_finished (s : ParState) : bool := over s || (length (tasks_ s) <=? joined s)%nat.
End Par.

(** ** Validation *)

Lemma first_duplicate_none qs : forall seen,
  first_duplicate seen qs = None <-> NoDup (map bq_id qs) /\ (forall q, q ∈ qs -> bq_id q ∉ seen).
Proof.
  induction qs as [|q qs IH]; intros seen; simpl.
  - split; [|done]. intros _. split; [apply NoDup_nil_2|set_solver].
  - case_decide as Hd; [split; [done|]; intros [_ H]; exfalso; apply (H q); set_solver|].
    rewrite IH, NoDup_cons. split.
    + intros [Hn Hs]. split_and!; [|done|].
      * intros (q' & Heq & Hq')%list_elem_of_In%in_map_iff. apply list_elem_of_In in Hq'.
        apply (Hs q' Hq'). rewrite Heq. set_solver.
      * intros q' [->|Hq']%elem_of_cons; [done|]. specialize (Hs q' Hq'). set_solver.
    + intros [[Hni Hn] Hs]. split; [done|]. intros q' Hq'. apply not_elem_of_union. split; [|apply Hs; set_solver].
      apply not_elem_of_singleton. intros Heq. apply Hni. rewrite <- Heq. apply list_elem_of_In, in_map, list_elem_of_In, Hq'.
Qed.

(** A batch is accepted exactly when it is not empty, has no more queries than
    allowed and names each query differently. *)
Theorem batch_validate_exact c r :
  batch_validate c r = Ok tt <->
  queries r <> [] /\ zlen (queries r) <= max_queries c /\ NoDup (map bq_id (queries r)).
Proof.
  unfold batch_validate. case_bool_decide as He; [split; [done|by intros [? _]]|].
  destruct (max_queries c <? zlen (queries r)) eqn:Em; reflect_Z; [split; [done|intros (_ & ? & _); lia]|].
  destruct (first_duplicate ∅ (queries r)) as [id|] eqn:Ef.
  - split; [done|]. intros (_ & _ & Hn). assert (first_duplicate ∅ (queries r) = None) by
      (apply first_duplicate_none; split; [done|set_solver]). congruence.
  - split; [|done]. intros _. apply first_duplicate_none in Ef as [Hn _]. split_and!; [done|lia|done].
Qed.

(** ** Processing in sequence *)

Definition result_at (ev : SeqEnv) (k : nat) (q : BatchQuery) : BatchQueryResult :=
  match answers_at ev k (request_of q) with
  | Ok r => bqr_ok r
  | Err e => bqr_err e (as_millis_u64 (took_at ev k))
  end.

Lemma add_result_count id r a : success_count a + error_count a < u_max 64 ->
  0 <= success_count a -> 0 <= error_count a ->
  success_count (add_result id r a) + error_count (add_result id r a) = success_count a + error_count a + 1 /\
  0 <= success_count (add_result id r a) /\ 0 <= error_count (add_result id r a).
Proof. intros. unfold add_result, sat_add. simpl. destruct (bqr_success r); simpl; lia. Qed.

Lemma id_not_in q qs : bq_id q ∉ map bq_id qs -> forall q', q' ∈ qs -> bq_id q' <> bq_id q.
Proof. intros Hn q' Hq' Heq. apply Hn. rewrite <- Heq. by apply list_elem_of_In, in_map, list_elem_of_In. Qed.

Lemma process_sequential_spec ev ff timeout qs : forall k a,
  complete_ a = true -> 0 <= success_count a -> 0 <= error_count a ->
  success_count a + error_count a + zlen qs <= u_max 64 ->
  NoDup (map bq_id qs) -> (forall q, q ∈ qs -> br_results a !! bq_id q = None) ->
  let a' := process_sequential ev ff timeout k qs a in
  exists n : nat, (n <= length qs)%nat /\
    (forall i q, qs !! i = Some q ->
       br_results a' !! bq_id q = if decide (i < n)%nat then Some (result_at ev (k + i) q) else None) /\
    (forall id, id ∉ map bq_id qs -> br_results a' !! id = br_results a !! id) /\
    success_count a' + error_count a' = success_count a + error_count a + Z.of_nat n /\
    (complete_ a' = true <-> n = length qs /\
       (ff = true -> forall i q, qs !! i = Some q -> is_ok (answers_at ev (k + i) (request_of q)) = true)).
Proof.
  induction qs as [|q qs IH]; intros k a Hc Hs He Hb Hn Hno; simpl.
  { exists 0%nat. split_and!; [done|by intros i q|done|lia|]. split; [|done]. intros _. split; [done|]. by intros _ i q. }
  rewrite zlen_cons in Hb. pose proof (zlen_nonneg qs). apply NoDup_cons in Hn as [Hni Hn].
  pose proof (id_not_in q qs Hni) as Hid.
  destruct (timeout <? elapsed_at ev k) eqn:Et.
  { exists 0%nat. split_and!; [lia| |done|simpl; lia|].
    - intros i q' Hq'. rewrite decide_False by lia. apply Hno, list_elem_of_lookup. by eexists.
    - simpl. split; [done|]. by intros [? _]. }
  set (a1 := add_result (bq_id q) (result_at ev k q) a).
  destruct (add_result_count (bq_id q) (result_at ev k q) a) as (Hcnt & Hs1 & He1); [lia|done|done|]. fold a1 in Hcnt, Hs1, He1.
  destruct (IH (S k) a1) as (n & Hle & Hres & Hout & Hsum & Hcomp); clear IH; try done; [lia| |].
  { intros q' Hq'. simpl. rewrite lookup_insert_ne; [apply Hno; set_solver|]. by apply not_eq_sym, Hid. }
  assert (Hstop : forall e, answers_at ev k (request_of q) = Err e -> ff = true -> exists n : nat, (n <= S (length qs))%nat /\
    (forall i q', (q :: qs) !! i = Some q' ->
       br_results (incomplete a1) !! bq_id q' = if decide (i < n)%nat then Some (result_at ev (k + i) q') else None) /\
    (forall id, id ∉ bq_id q :: map bq_id qs -> br_results (incomplete a1) !! id = br_results a !! id) /\
    success_count (incomplete a1) + error_count (incomplete a1) = success_count a + error_count a + Z.of_nat n /\
    (complete_ (incomplete a1) = true <-> n = S (length qs) /\
       (ff = true -> forall i q', (q :: qs) !! i = Some q' -> is_ok (answers_at ev (k + i) (request_of q')) = true))).
  { intros e Ha ->. exists 1%nat. split_and!; [lia| | |simpl in *; lia|].
    - intros [|i] q' Hq'; simpl in Hq'.
      + injection Hq' as <-. rewrite decide_True, Nat.add_0_r by lia. simpl. by rewrite lookup_insert_eq.
      + rewrite decide_False by lia. simpl. assert (q' ∈ qs) by (apply list_elem_of_lookup; by eexists).
        rewrite lookup_insert_ne; [apply Hno; set_solver|]. by apply not_eq_sym, Hid.
    - intros id Hin. simpl. rewrite lookup_insert_ne; [done|]. set_solver.
    - simpl. split; [done|]. intros [_ Hall]. specialize (Hall eq_refl 0%nat q eq_refl). rewrite Nat.add_0_r, Ha in Hall. done. }
  assert (Hgo : (ff = true -> is_ok (answers_at ev k (request_of q)) = true) -> let a' := process_sequential ev ff timeout (S k) qs a1 in
    exists n : nat, (n <= S (length qs))%nat /\
    (forall i q', (q :: qs) !! i = Some q' ->
       br_results a' !! bq_id q' = if decide (i < n)%nat then Some (result_at ev (k + i) q') else None) /\
    (forall id, id ∉ bq_id q :: map bq_id qs -> br_results a' !! id = br_results a !! id) /\
    success_count a' + error_count a' = success_count a + error_count a + Z.of_nat n /\
    (complete_ a' = true <-> n = S (length qs) /\
       (ff = true -> forall i q', (q :: qs) !! i = Some q' -> is_ok (answers_at ev (k + i) (request_of q')) = true))).
  { intros Hok a'. exists (S n). split_and!; [lia| | |unfold a'; lia|].
    - intros [|i] q' Hq'; simpl in Hq'.
      + injection Hq' as <-. rewrite decide_True, Nat.add_0_r by lia. unfold a'. rewrite Hout by done. simpl. by rewrite lookup_insert_eq.
      + unfold a'. rewrite (Hres i q' Hq'), <- Nat.add_succ_comm. simpl.
        destruct (decide (i < n)%nat), (decide (S i < S n)%nat); try done; lia.
    - intros id Hin. unfold a'. rewrite Hout by set_solver. simpl. rewrite lookup_insert_ne; [done|]. set_solver.
    - unfold a'. rewrite Hcomp. split; intros [Hl Hall]; (split; [lia|]); intros Hff.
      + intros [|i] q' Hq'; simpl in Hq'; [injection Hq' as <-; rewrite Nat.add_0_r; auto|].
        rewrite <- Nat.add_succ_comm. by apply Hall.
      + intros i q' Hq'. rewrite Nat.add_succ_comm. by apply Hall. }
  unfold a1, result_at in Hstop, Hgo. destruct (answers_at ev k (request_of q)) as [r|e] eqn:Ha; [by apply Hgo|].
  destruct ff; [by eapply Hstop|by apply Hgo].
Qed.

(** Processing in sequence answers a prefix of the queries: each of them gets
    exactly its own answer or error, the rest get nothing, the counts add up to the
    number of queries answered, and the batch is complete exactly when all were
    answered and, with fail-fast, none failed. *)
Theorem batch_sequential ev ff timeout qs :
  zlen qs <= u_max 64 -> NoDup (map bq_id qs) ->
  let a := process_sequential ev ff timeout 0 qs empty_response in
  exists n : nat, (n <= length qs)%nat /\
    (forall i q, qs !! i = Some q -> br_results a !! bq_id q = if decide (i < n)%nat then Some (result_at ev i q) else None) /\
    success_count a + error_count a = Z.of_nat n /\
    (complete_ a = true <-> n = length qs /\
       (ff = true -> forall i q, qs !! i = Some q -> is_ok (answers_at ev i (request_of q)) = true)).
Proof.
  intros Hb Hn.
  destruct (process_sequential_spec ev ff timeout qs 0 empty_response eq_refl) as (n & H1 & H2 & _ & H3 & H4);
    [simpl; lia..|done|done|].
  exists n. by split_and!.
Qed.

(** ** Processing in parallel *)

Definition asks (t : TaskState) : Z := match t with TAsking => 1 | _ => 0 end.
Definition task_ended (t : TaskState) : bool := match t with TEnded _ | TPanicked => true | _ => false end.

Lemma asking_cons x ts : asking (x :: ts) = asks (snd x) + asking ts.
Proof. unfold asking. simpl. destruct (snd x); simpl; rewrite ?zlen_cons; lia. Qed.
Lemma asking_put ts : forall i q t0 t, ts !! i = Some (q, t0) ->
  asking (alter (fun x => (fst x, t)) i ts) = asking ts - asks t0 + asks t.
Proof.
  induction ts as [|[q1 t1] ts IH]; intros [|i] q t0 t; simpl; try done.
  - intros [= -> ->]. rewrite !asking_cons. simpl. lia.
  - intros Hi. specialize (IH i q t0 t Hi). rewrite !asking_cons. unfold alter in *. simpl in *. lia.
Qed.
Lemma put_fst ts t : forall i, map fst (alter (fun x => (fst x, t)) i ts) = map fst (ts : list (BatchQuery * TaskState)).
Proof. induction ts as [|x ts IH]; intros [|i]; simpl; try done. f_equal. apply IH. Qed.

Record par_inv (c : BatchConfig) (qs : list BatchQuery) (s : ParState) : Prop := {
  pi_tasks : map fst (tasks_ s) = qs;
  pi_limit : asking (tasks_ s) <= max_parallel c;
  pi_joined : (joined s <= length (tasks_ s))%nat;
  pi_nonneg : 0 <= success_count (acc s) /\ 0 <= error_count (acc s);
  pi_count : success_count (acc s) + error_count (acc s) = Z.of_nat (joined s);
  pi_ended : forall i q t, tasks_ s !! i = Some (q, t) -> (i < joined s)%nat -> task_ended t = true;
  pi_results : forall i q t, tasks_ s !! i = Some (q, t) ->
    br_results (acc s) !! bq_id q = if decide (i < joined s)%nat then match t with TEnded r => Some r | _ => None end else None;
  pi_complete : complete_ (acc s) = true ->
    over s = false /\ forall i q t, tasks_ s !! i = Some (q, t) -> (i < joined s)%nat -> t <> TPanicked
}.

Lemma par_inv_init c qs : 0 <= max_parallel c -> par_inv c qs (par_init qs).
Proof.
  intros Hm. split; simpl.
  - induction qs as [|q qs IH]; simpl; [done|by f_equal].
  - assert (asking (map (fun q => (q, TSpawned)) qs) = 0) as ->; [|done].
    induction qs as [|q qs IH]; simpl; [done|]. rewrite asking_cons, IH. done.
  - lia.
  - done.
  - done.
  - intros i q t _ Hi. lia.
  - intros i q t _. by rewrite lookup_empty.
  - intros _. split; [done|]. intros i q t _ Hi. lia.
Qed.

(** A task that has not been joined changes its state. *)
Lemma par_inv_put c qs s i q t0 t :
  par_inv c qs s -> tasks_ s !! i = Some (q, t0) -> task_ended t0 = false ->
  asking (tasks_ s) - asks t0 + asks t <= max_parallel c -> par_inv c qs (put_task i t s).
Proof.
  intros [P1 P2 P3 P4 P5 P6 P7 P8] Hi He Hl.
  assert (Hnj : ~ (i < joined s)%nat) by (intros Hj; by rewrite (P6 _ _ _ Hi Hj) in He).
  assert (Hlk : forall i' q' t', alter (fun x : BatchQuery * TaskState => (fst x, t)) i (tasks_ s) !! i' = Some (q', t') ->
            (i' = i /\ q' = q) \/ (i' <> i /\ tasks_ s !! i' = Some (q', t'))).
  { intros i' q' t'. destruct (decide (i' = i)) as [->|Hne].
    - rewrite list_lookup_alter, decide_True, Hi by done. intros [= <- _]. by left.
    - rewrite list_lookup_alter_ne by done. by right. }
  split; simpl; try done.
  - by rewrite put_fst.
  - by rewrite (asking_put _ _ q t0).
  - by rewrite length_alter.
  - intros i' q' t' [[-> ->]|[_ Hi']]%Hlk Hj; [done|by eapply P6].
  - intros i' q' t' [[-> ->]|[_ Hi']]%Hlk; [|by apply P7]. rewrite decide_False by done.
    specialize (P7 _ _ _ Hi). by rewrite decide_False in P7.
  - intros Hc. destruct (P8 Hc) as [H1 H2]. split; [done|]. intros i' q' t' [[-> ->]|[_ Hi']]%Hlk Hj; [done|by eapply H2].
Qed.

Lemma ids_distinct (ts : list (BatchQuery * TaskState)) i j q t q' t' :
  NoDup (map bq_id (map fst ts)) -> ts !! i = Some (q, t) -> ts !! j = Some (q', t') -> bq_id q = bq_id q' -> i = j.
Proof.
  intros Hn Hi Hj Heq. eapply (NoDup_lookup _ i j (bq_id q) Hn).
  - change (map ?f ?l) with (f <$> l). by rewrite !list_lookup_fmap, Hi.
  - change (map ?f ?l) with (f <$> l). rewrite !list_lookup_fmap, Hj. simpl. by rewrite Heq.
Qed.

(** The next task is joined. *)
Lemma par_inv_join c qs s q t a :
  NoDup (map bq_id qs) -> par_inv c qs s -> tasks_ s !! joined s = Some (q, t) -> task_ended t = true -> over s = false ->
  0 <= success_count a -> 0 <= error_count a ->
  success_count a + error_count a = success_count (acc s) + error_count (acc s) + 1 ->
  br_results a = match t with TEnded r => <[bq_id q := r]> (br_results (acc s)) | _ => br_results (acc s) end ->
  (complete_ a = true -> complete_ (acc s) = true /\ t <> TPanicked) ->
  par_inv c qs {| tasks_ := tasks_ s; failed := failed s; joined := S (joined s); acc := a; over := false |}.
Proof.
  intros Hn [P1 P2 P3 P4 P5 P6 P7 P8] Hj Het Ho Hs He Hc Hr Hco. split; simpl; try done.
  - apply lookup_lt_Some in Hj. lia.
  - lia.
  - intros i q' t' Hi Hlt. destruct (decide (i = joined s)) as [->|Hne]; [congruence|]. apply (P6 _ _ _ Hi). lia.
  - intros i q' t' Hi. specialize (P7 _ _ _ Hi) as P7i. rewrite Hr. destruct (decide (i = joined s)) as [->|Hne].
    + rewrite Hj in Hi. injection Hi as <- <-. rewrite decide_True by lia. rewrite decide_False in P7i by lia.
      destruct t; try done. by rewrite lookup_insert_eq.
    + assert (bq_id q <> bq_id q') as Hid.
      { intros Heq. apply Hne. symmetry. eapply ids_distinct; [|exact Hj|exact Hi|exact Heq]. by rewrite P1. }
      replace (match t with TEnded r => <[bq_id q := r]> (br_results (acc s)) | _ => br_results (acc s) end !! bq_id q')
        with (br_results (acc s) !! bq_id q') by (destruct t; try done; by rewrite lookup_insert_ne).
      rewrite P7i. destruct (decide (i < joined s)%nat), (decide (i < S (joined s))%nat); try done; lia.
  - intros Hca. destruct (Hco Hca) as [Hcs Hnp]. destruct (P8 Hcs) as [_ H2]. split; [done|]. intros i q' t' Hi Hlt.
    destruct (decide (i = joined s)) as [->|Hne]; [congruence|]. apply (H2 _ _ _ Hi). lia.
Qed.

Lemma par_exec_inv c ff qs e s s' :
  zlen qs < u_max 64 -> NoDup (map bq_id qs) -> par_inv c qs s -> par_exec c ff e s = Some s' -> par_inv c qs s'.
Proof.
  intros Hb Hn Hi He. pose proof (pi_limit _ _ _ Hi) as Hl. pose proof (pi_nonneg _ _ _ Hi) as [Hs He0].
  assert (Hroom : forall x, tasks_ s !! joined s = Some x -> success_count (acc s) + error_count (acc s) < u_max 64).
  { intros x Hx. rewrite (pi_count _ _ _ Hi). apply lookup_lt_Some in Hx.
    assert (length (tasks_ s) = length qs) as Hle by (rewrite <- (pi_tasks _ _ _ Hi), length_map; done).
    unfold zlen in Hb. lia. }
  destruct e as [i|i|i r tk|i| |]; simpl in He.
  - destruct (tasks_ s !! i) as [[q t]|] eqn:Ht; [|done]. destruct t; try done. injection He as <-.
    eapply par_inv_put; [done|exact Ht|done|]. destruct (ff && failed s); simpl; lia.
  - destruct (tasks_ s !! i) as [[q t]|] eqn:Ht; [|done]. destruct t; try done.
    destruct (asking (tasks_ s) <? max_parallel c) eqn:Em; [|done]. injection He as <-. reflect_Z.
    eapply par_inv_put; [done|exact Ht|done|]. simpl. lia.
  - destruct (tasks_ s !! i) as [[q t]|] eqn:Ht; [|done]. destruct t; try done. injection He as <-.
    match goal with |- par_inv c qs {| tasks_ := alter (fun x => (_, ?t)) i _; failed := _; joined := _; acc := _; over := _ |} =>
      destruct (par_inv_put c qs s i q TAsking t Hi Ht eq_refl) as [P1 P2 P3 P4 P5 P6 P7 P8]; [simpl; lia|] end.
    by split.
  - destruct (tasks_ s !! i) as [[q t]|] eqn:Ht; [|done]. destruct t; try done. injection He as <-.
    eapply par_inv_put; [done|exact Ht|done|]. simpl. lia.
  - destruct (over s) eqn:Eo; [done|]. destruct (tasks_ s !! joined s) as [[q t]|] eqn:Ht; [|done].
    specialize (Hroom _ eq_refl). destruct t as [| | |r|]; try done; injection He as <-.
    + destruct (add_result_count (bq_id q) r (acc s)) as (H1 & H2 & H3); [lia|done|done|].
      eapply par_inv_join; try done.
    + eapply par_inv_join; try done; simpl; unfold sat_add; lia.
  - destruct (over s) eqn:Eo; [done|]. destruct (tasks_ s !! joined s) as [x|] eqn:Ht; [|done]. injection He as <-.
    destruct Hi as [P1 P2 P3 P4 P5 P6 P7 P8]. by split.
Qed.

(** C26: in every schedule of the tasks of a parallel batch, at most [max_parallel]
    queries are being asked at a time; every query joined so far counts once as a
    success or an error and has its own result, the others have none; and when the
    batch ends complete, every query has a result. *)
Theorem batch_parallel c ff qs es s :
  0 <= max_parallel c -> zlen qs < u_max 64 -> NoDup (map bq_id qs) ->
  par_run c ff es (par_init qs) = Some s ->
  asking (tasks_ s) <= max_parallel c /\
  success_count (acc s) + error_count (acc s) = Z.of_nat (joined s) /\
  (forall i q t, tasks_ s !! i = Some (q, t) -> br_results (acc s) !! bq_id q =
     if decide (i < joined s)%nat then match t with TEnded r => Some r | _ => None end else None) /\
  (par_finished s = true -> complete_ (acc s) = true -> forall q, q ∈ qs -> is_Some (br_results (acc s) !! bq_id q)).
Proof.
  intros Hm Hb Hn Hr.
  assert (par_inv c qs s) as Hi.
  { revert Hr. generalize (par_inv_init c qs Hm). generalize (par_init qs).
    induction es as [|e es IH]; intros s0 Hi; simpl; [by intros [= <-]|].
    destruct (par_exec c ff e s0) as [s1|] eqn:Ee; [|done]. apply IH. by eapply par_exec_inv. }
  destruct Hi as [P1 P2 P3 P4 P5 P6 P7 P8]. split_and!; try done.
  intros Hf Hc q Hq. destruct (P8 Hc) as [Ho Hp]. unfold par_finished in Hf. rewrite Ho in Hf. simpl in Hf.
  apply Nat.leb_le in Hf. rewrite <- P1 in Hq. apply list_elem_of_In, in_map_iff in Hq as ([q' t] & <- & Hin).
  apply list_elem_of_In, list_elem_of_lookup in Hin as [i Hi]. pose proof (lookup_lt_Some _ _ _ Hi) as Hlt.
  simpl. rewrite (P7 _ _ _ Hi), decide_True by lia. specialize (P6 _ _ _ Hi ltac:(lia)).
  specialize (Hp _ _ _ Hi ltac:(lia)). destruct t; try done.
Qed.

(** ** Witnesses *)

Definition demo_batch : list BatchQuery :=
  map (fun id => {| bq_id := lit id; bq_query := lit "q"; bq_top_k := None; bq_priority := None |}) ["a"; "b"; "c"]%string.
Definition demo_batch_response : QueryResponse :=
  {| results := []; cache_status := Miss; took_ms := 3; generated_at := None; miss_reason := None |}.
(** The second query fails. *)
Definition demo_seq : SeqEnv :=
  {| elapsed_at := fun _ => 0; answers_at := fun k _ => if Nat.eqb k 1 then Err (lit "down") else Ok demo_batch_response;
     took_at := fun _ => 0 |}.

Lemma batch_sequential_witness :
  let a := process_sequential demo_seq true 1 0 demo_batch empty_response in
  exists n : nat, (n <= length demo_batch)%nat /\ success_count a + error_count a = Z.of_nat n /\
    (complete_ a = true <-> n = length demo_batch /\
       (true = true -> forall i q, demo_batch !! i = Some q -> is_ok (answers_at demo_seq i (request_of q)) = true)) /\
    error_count a = 1.
Proof.
  assert (NoDup (map bq_id demo_batch)) as Hn by (apply (bool_decide_eq_true _); vm_compute; reflexivity).
  destruct (batch_sequential demo_seq true 1 demo_batch ltac:(vm_compute; discriminate) Hn) as (n & H1 & _ & H2 & H3).
  exists n. split; [exact H1|]. split; [exact H2|]. split; [exact H3|]. vm_compute. reflexivity.
Defined.

(** Two at a time; the first fails and the third, checked later, is skipped. *)
Definition demo_schedule : list ParEvent :=
  [PCheck 0; PAcquire 0; PCheck 1; PAcquire 1; PAnswer 0 (Err (lit "down")) 5; PJoin; PCheck 2;
   PAnswer 1 (Ok demo_batch_response) 5; PJoin; PJoin].
Definition demo_two : BatchConfig :=
  {| max_queries := 100; max_total_results := 1000; default_query_timeout := 0; max_batch_timeout := 0;
     parallel := true; max_parallel := 2 |}.
Definition demo_done : ParState := default (par_init []) (par_run demo_two true demo_schedule (par_init demo_batch)).

Lemma batch_parallel_witness :
  asking (tasks_ demo_done) <= 2 /\
  success_count (acc demo_done) + error_count (acc demo_done) = Z.of_nat (joined demo_done) /\
  (forall q, q ∈ demo_batch -> is_Some (br_results (acc demo_done) !! bq_id q)).
Proof.
  assert (NoDup (map bq_id demo_batch)) as Hn by (apply (bool_decide_eq_true _); vm_compute; reflexivity).
  destruct (batch_parallel demo_two true demo_batch demo_schedule demo_done ltac:(discriminate)
              ltac:(vm_compute; reflexivity) Hn ltac:(vm_compute; reflexivity)) as (H1 & H2 & _ & H3).
  split; [exact H1|]. split; [exact H2|]. apply H3; vm_compute; reflexivity.
Defined.

(** A parallel batch that skipped a query for fail-fast still reports completion. *)
Example skipped_yet_complete :
  complete_ (acc demo_done) = true /\ br_results (acc demo_done) !! lit "c" = Some skipped.
Proof. split; vm_compute; reflexivity. Qed.
