(* ===== verification/Pipeline.v ===== *)
(** * The query pipeline (src/src/proxy/server/query_core.rs, server/mod.rs, server/query.rs)

    [execute_query] over the components of the library: pause, validation, contexts
    and access, the cache with its freshness, the circuit breaker, coalescing, the
    retried dispatch to the upstreams, scope filtering, validation, storing and
    broadcasting, with the metrics, statistics and client tracking on the way.

    The handler is asynchronous and runs in pieces: up to its first await
    ([query_begin]), after the answer of the upstreams ([lead_finish]), after the
    message of the leader ([wait_finish]), and the background refresh of a stale hit
    ([background_refresh]).  A piece runs without interruption and reads one time
    ([Clock]); [start] is the time the request arrived.  [execute_query] composes the
    pieces for a request that runs alone; [Sys] interleaves the pieces of any number
    of requests.  The model is the default feature set. *)

From Stdlib Require Import SpecFloat.
From S2P Require Import Prelude Floats Text Types Drift Cdc Cache Circuit Scope Coalesce Retry ConnPool.
From S2P Require Import Upstream Pool Cascade Auth Adaptive Metrics Context Refresh.
Open Scope Z_scope.
Open Scope conproxy_scope.

(** ** Clients *)

Record ClientInfo := { cl_request_id : str; started_at_ms : Z; cl_query : str; cl_source : str }.
Record ClientTracker := { cl_active : gmap str ClientInfo; total_completed : Z; total_rejected : Z }.
Definition ClientTracker_new : ClientTracker := {| cl_active := ∅; total_completed := 0; total_rejected := 0 |}.

Definition track (clk : Clock) (rid q source : str) (c : ClientTracker) : ClientTracker :=
  {| cl_active := <[rid := {| cl_request_id := rid; started_at_ms := as_millis_u64 (wall clk); cl_query := q;
                              cl_source := source |}]> (cl_active c);
     total_completed := total_completed c; total_rejected := total_rejected c |}.
Definition client_complete (rid : str) (c : ClientTracker) : ClientTracker :=
  {| cl_active := delete rid (cl_active c); total_completed := wrap 64 (total_completed c + 1);
     total_rejected := total_rejected c |}.
Definition client_reject (c : ClientTracker) : ClientTracker :=
  {| cl_active := cl_active c; total_completed := total_completed c;
     total_rejected := wrap 64 (total_rejected c + 1) |}.

Definition context_query (ctx q : str) : str := lit "ctx:" ++ ctx ++ lit ":" ++ q.

(** The [x-context] header, when it is visible ASCII, the agent, the default. *)
Definition resolve_context (header : option (option str)) (agent : option AgentIdentity) : str :=
  match header with
  | Some (Some (c :: ctx)) => c :: ctx
  | _ => match agent with
         | Some a => match default_context a with Some ctx => ctx | None => lit "default" end
         | None => lit "default"
         end
  end.

(** ** Dispatch *)

(** Cascade, pool or single adapter; the metrics of the cascade are the proxy's. *)
Record Backends := {
  b_cascade : option CascadeConfig;
  b_pool : bool;
  b_single : bool;
  b_world : World;
  b_reads : nat
}.
Definition has_upstream (b : Backends) : bool :=
  bool_decide (is_Some (b_cascade b)) || b_pool b || b_single b.

(** Whether a permit of the global limit is free at a call, and what the single
    adapter answers and how long a call takes. *)
Class Single := {
  free_permit : nat -> bool;
  sg_query : nat -> QueryRequest -> result QueryResponse UpstreamError;
  call_took : nat -> Z
}.

Definition default_upstream (r : QueryResponse) : QueryResponse :=
  {| results := map (fun x =>
       {| sr_id := sr_id x; score := score x; content := content x; metadata := metadata x;
          sr_upstream_id := match sr_upstream_id x with None => Some (lit "default") | u => u end |}) (results r);
     cache_status := cache_status r; took_ms := took_ms r; generated_at := generated_at r;
     miss_reason := miss_reason r |}.

(** Is the outcome of a cascade a failure of the upstreams? *)
Definition upstream_failure (r : CascadeResult) : bool :=
  let all_errored := negb (bool_decide (upstream_scores r = [])) &&
                     forallb (fun s => bool_decide (is_Some (us_error s))) (upstream_scores r) in
  match stop_reason r with
  | StopTimeout | NoUpstreams => true
  | AllExhausted => all_errored
  | _ => false
  end.

Definition put_world (b : Backends) (w : World) (reads : nat) : Backends :=
  {| b_cascade := b_cascade b; b_pool := b_pool b; b_single := b_single b; b_world := w; b_reads := reads |}.

Section Dispatch.
Context `{Backend} `{Single} `{Externals} `{UnicodeCase} `{Clocked} `{Embedding} `{Scheduler}.
Context (values_order : gmap QueryHash Accum -> list Accum).

Definition dispatch_upstream_query (request : QueryRequest) (b : Backends) (m : ProxyMetrics)
  : result QueryResponse UpstreamError * Backends * ProxyMetrics :=
  if negb (free_permit (w_calls (b_world b))) then
    (Err (Unavailable (lit "Global connection limit reached")), put_world b (called (b_world b)) (b_reads b), m)
  else
    match b_cascade b with
    | Some c =>
        let s := {| c_world := b_world b; c_reads := b_reads b; c_metrics := Some (pm_cascade m) |} in
        match cascade_query values_order c request s with
        | Done r s =>
            let b := put_world b (c_world s) (c_reads s) in
            let m := with_cascade (fun cm => default cm (c_metrics s)) m in
            if upstream_failure r then (Err (Unavailable (lit "All upstreams failed in cascade")), b, m)
            else (Ok {| results := cr_results r; cache_status := Miss; took_ms := cascade_time_ms r;
                        generated_at := None; miss_reason := None |}, b, m)
        | Go _ _ => (Err NotConfigured, b, m) (* does not happen: [cascade_query_done] *)
        end
    | None =>
        if b_pool b then
          let '(r, w) := pool_query request (b_world b) in (r, put_world b w (b_reads b), m)
        else if b_single b then
          let r := match sg_query (w_calls (b_world b)) request with
                   | Ok resp => Ok (default_upstream resp)
                   | Err e => Err e
                   end in
          (r, put_world b (called (b_world b)) (b_reads b), m)
        else (Err NotConfigured, b, m)
    end.
End Dispatch.

(** What the pipeline needs of the upstreams: whether there are any, and an answer. *)
Class Dispatcher (U : Type) := {
  disp_present : U -> bool;
  disp_query : QueryRequest -> U -> ProxyMetrics -> result QueryResponse UpstreamError * U * ProxyMetrics;
  disp_took : U -> Z
}.
(** Asking the upstreams touches none of the pipeline's counters. *)
Class DispatcherLaws (U : Type) `{Dispatcher U} : Prop := {
  disp_count : forall q u m, pm_count (snd (disp_query q u m)) = pm_count m
}.

#[export] Instance BackendsDispatcher `{Backend} `{Single} `{Externals} `{UnicodeCase} `{Clocked} `{Embedding}
    `{Scheduler} (values_order : gmap QueryHash Accum -> list Accum) : Dispatcher Backends :=
  {| disp_present := has_upstream; disp_query := dispatch_upstream_query values_order;
     disp_took := fun b => call_took (w_calls (b_world b)) |}.

(** ** The state of the server *)

Record AppState (U : Type) := {
  st_cache : CacheStore;
  st_upstreams : U;
  coalescer : @RequestCoalescer (result QueryResponse str);
  refresh_worker : option QueryTrackingRefreshWorker;
  st_scope_filter : ScopeFilter;
  st_metrics : ProxyMetrics;
  circuit_breaker : CircuitBreaker;
  retry_policy : RetryPolicy;
  adaptive_timeout : AdaptiveTimeout;
  query_stats : QueryStatsTracker;
  st_upstream_id : str;
  context_manager : ContextManager;
  paused : bool;
  client_tracker : ClientTracker
}.
Arguments st_cache {U} _.
Arguments st_upstreams {U} _.
Arguments coalescer {U} _.
Arguments refresh_worker {U} _.
Arguments st_scope_filter {U} _.
Arguments st_metrics {U} _.
Arguments circuit_breaker {U} _.
Arguments retry_policy {U} _.
Arguments adaptive_timeout {U} _.
Arguments query_stats {U} _.
Arguments st_upstream_id {U} _.
Arguments context_manager {U} _.
Arguments paused {U} _.
Arguments client_tracker {U} _.

Section Setters.
Context {U : Type}.
Definition on_cache (f : CacheStore -> CacheStore) (s : AppState U) : AppState U :=
  {| st_cache := f (st_cache s); st_upstreams := st_upstreams s; coalescer := coalescer s; refresh_worker
     := refresh_worker s; st_scope_filter := st_scope_filter s; st_metrics := st_metrics s;
     circuit_breaker := circuit_breaker s; retry_policy := retry_policy s; adaptive_timeout :=
     adaptive_timeout s; query_stats := query_stats s; st_upstream_id := st_upstream_id s;
     context_manager := context_manager s; paused := paused s; client_tracker := client_tracker s |}.
Definition on_upstreams (f : U -> U) (s : AppState U) : AppState U :=
  {| st_cache := st_cache s; st_upstreams := f (st_upstreams s); coalescer := coalescer s; refresh_worker
     := refresh_worker s; st_scope_filter := st_scope_filter s; st_metrics := st_metrics s;
     circuit_breaker := circuit_breaker s; retry_policy := retry_policy s; adaptive_timeout :=
     adaptive_timeout s; query_stats := query_stats s; st_upstream_id := st_upstream_id s;
     context_manager := context_manager s; paused := paused s; client_tracker := client_tracker s |}.
Definition on_coalescer (f : @RequestCoalescer (result QueryResponse str) -> @RequestCoalescer (result QueryResponse str)) (s : AppState U) : AppState U :=
  {| st_cache := st_cache s; st_upstreams := st_upstreams s; coalescer := f (coalescer s); refresh_worker
     := refresh_worker s; st_scope_filter := st_scope_filter s; st_metrics := st_metrics s;
     circuit_breaker := circuit_breaker s; retry_policy := retry_policy s; adaptive_timeout :=
     adaptive_timeout s; query_stats := query_stats s; st_upstream_id := st_upstream_id s;
     context_manager := context_manager s; paused := paused s; client_tracker := client_tracker s |}.
Definition on_worker (f : option QueryTrackingRefreshWorker -> option QueryTrackingRefreshWorker) (s : AppState U) : AppState U :=
  {| st_cache := st_cache s; st_upstreams := st_upstreams s; coalescer := coalescer s; refresh_worker :=
     f (refresh_worker s); st_scope_filter := st_scope_filter s; st_metrics := st_metrics s;
     circuit_breaker := circuit_breaker s; retry_policy := retry_policy s; adaptive_timeout :=
     adaptive_timeout s; query_stats := query_stats s; st_upstream_id := st_upstream_id s;
     context_manager := context_manager s; paused := paused s; client_tracker := client_tracker s |}.
Definition on_metrics (f : ProxyMetrics -> ProxyMetrics) (s : AppState U) : AppState U :=
  {| st_cache := st_cache s; st_upstreams := st_upstreams s; coalescer := coalescer s; refresh_worker :=
     refresh_worker s; st_scope_filter := st_scope_filter s; st_metrics := f (st_metrics s);
     circuit_breaker := circuit_breaker s; retry_policy := retry_policy s; adaptive_timeout :=
     adaptive_timeout s; query_stats := query_stats s; st_upstream_id := st_upstream_id s;
     context_manager := context_manager s; paused := paused s; client_tracker := client_tracker s |}.
Definition on_circuit (f : CircuitBreaker -> CircuitBreaker) (s : AppState U) : AppState U :=
  {| st_cache := st_cache s; st_upstreams := st_upstreams s; coalescer := coalescer s; refresh_worker :=
     refresh_worker s; st_scope_filter := st_scope_filter s; st_metrics := st_metrics s; circuit_breaker
     := f (circuit_breaker s); retry_policy := retry_policy s; adaptive_timeout := adaptive_timeout s;
     query_stats := query_stats s; st_upstream_id := st_upstream_id s; context_manager := context_manager
     s; paused := paused s; client_tracker := client_tracker s |}.
Definition on_adaptive (f : AdaptiveTimeout -> AdaptiveTimeout) (s : AppState U) : AppState U :=
  {| st_cache := st_cache s; st_upstreams := st_upstreams s; coalescer := coalescer s; refresh_worker :=
     refresh_worker s; st_scope_filter := st_scope_filter s; st_metrics := st_metrics s; circuit_breaker
     := circuit_breaker s; retry_policy := retry_policy s; adaptive_timeout := f (adaptive_timeout s);
     query_stats := query_stats s; st_upstream_id := st_upstream_id s; context_manager := context_manager
     s; paused := paused s; client_tracker := client_tracker s |}.
Definition on_query_stats (f : QueryStatsTracker -> QueryStatsTracker) (s : AppState U) : AppState U :=
  {| st_cache := st_cache s; st_upstreams := st_upstreams s; coalescer := coalescer s; refresh_worker :=
     refresh_worker s; st_scope_filter := st_scope_filter s; st_metrics := st_metrics s; circuit_breaker
     := circuit_breaker s; retry_policy := retry_policy s; adaptive_timeout := adaptive_timeout s;
     query_stats := f (query_stats s); st_upstream_id := st_upstream_id s; context_manager :=
     context_manager s; paused := paused s; client_tracker := client_tracker s |}.
Definition on_contexts (f : ContextManager -> ContextManager) (s : AppState U) : AppState U :=
  {| st_cache := st_cache s; st_upstreams := st_upstreams s; coalescer := coalescer s; refresh_worker :=
     refresh_worker s; st_scope_filter := st_scope_filter s; st_metrics := st_metrics s; circuit_breaker
     := circuit_breaker s; retry_policy := retry_policy s; adaptive_timeout := adaptive_timeout s;
     query_stats := query_stats s; st_upstream_id := st_upstream_id s; context_manager := f
     (context_manager s); paused := paused s; client_tracker := client_tracker s |}.
Definition on_clients (f : ClientTracker -> ClientTracker) (s : AppState U) : AppState U :=
  {| st_cache := st_cache s; st_upstreams := st_upstreams s; coalescer := coalescer s; refresh_worker :=
     refresh_worker s; st_scope_filter := st_scope_filter s; st_metrics := st_metrics s; circuit_breaker
     := circuit_breaker s; retry_policy := retry_policy s; adaptive_timeout := adaptive_timeout s;
     query_stats := query_stats s; st_upstream_id := st_upstream_id s; context_manager := context_manager
     s; paused := paused s; client_tracker := f (client_tracker s) |}.
End Setters.

(** ** One request *)

Record QueryCall := {
  qc_request : QueryRequest;
  qc_context : str;
  qc_request_id : str;
  qc_agent : option AgentIdentity;
  qc_source : str;
  qc_skip_cache : bool
}.

Record QueryResult := { qr_response : CachedResponse; qr_status : Z }.
Definition qr_ok (r : CachedResponse) : QueryResult := {| qr_response := r; qr_status := 200 |}.

Definition empty_miss_response (took : Z) (reason : option MissReason) : QueryResponse :=
  {| results := []; cache_status := Miss; took_ms := took; generated_at := None; miss_reason := reason |}.
Definition refused (took : Z) (reason : option MissReason) (status : Z) : QueryResult :=
  {| qr_response := FreshResponse (empty_miss_response took reason); qr_status := status |}.

(** The task that a stale hit spawns. *)
Record BgTask := { bg_query : str; bg_context : str; bg_scope : ScopeFilter }.

(** How the first piece ends: with a response, as the leader of a hash, or waiting
    for a leader on a channel on which so many values had been sent. *)
Inductive QueryPhase :=
| Respond (r : QueryResult)
| Lead (hash : QueryHash) (reason : MissReason)
| Wait (hash : QueryHash) (rx : ChanId) (since : nat).

Section Query.
Context `{CacheEnv} `{StatsEnv} `{ContextEnv} {U : Type} `{Dispatcher U} `{FloatPow}.
Context (start : Z) (clk : Clock) (c : QueryCall).

Definition spent : Z := elapsed (mono clk) start.
Definition took : Z := as_millis_u64 spent.
Definition the_query : str := query (qc_request c).
Definition ctx_query : str := context_query (qc_context c) the_query.
Definition query_hash : QueryHash := hash_query ctx_query.

Definition finished : AppState U -> AppState U := on_clients (client_complete (qc_request_id c)).
Definition with_latency : AppState U -> AppState U := on_metrics (record_latency spent).
Definition with_query_stats (hit : bool) : AppState U -> AppState U :=
  on_query_stats (stats_record (as_secs (wall clk)) the_query hit spent).

Definition scope_filter_for (ctx : str) (s : AppState U) : ScopeFilter :=
  match context_scope_filter ctx (context_manager s) with Some f => f | None => st_scope_filter s end.
Definition apply_scope_filter (f : ScopeFilter) (rs : list SearchResult) : list SearchResult :=
  if negb (is_enabled f) then rs else filter_results f rs.

(** [state.cache.get_by_hash] *)
Definition cache_get (s : AppState U) : option CacheEntry * AppState U :=
  let '(e, cache) := get_by_hash query_hash (st_cache s) in (e, on_cache (fun _ => cache) s).

Definition ensure_context (s : AppState U) : AppState U :=
  match ctx_get (qc_context c) (context_manager s) with
  | Some _ => s
  | None => on_contexts (fun m => snd (switch clk (qc_context c) m)) s
  end.

Definition serve_fresh (e : CacheEntry) (s : AppState U) : QueryResult * AppState U :=
  let s := on_contexts (record_hit_for (qc_context c)) (on_metrics record_hit s) in
  let s := finished (with_query_stats true (with_latency s)) in
  (qr_ok (Cached e Hit took), s).

Definition serve_stale (e : CacheEntry) (s : AppState U) : QueryResult * BgTask * AppState U :=
  let s := on_metrics record_stale s in
  let task := {| bg_query := the_query; bg_context := qc_context c; bg_scope := scope_filter_for (qc_context c) s |} in
  let s := finished (with_query_stats true (with_latency s)) in
  (qr_ok (Cached e Stale_ took), task, s).

(** Past the cache. *)
Definition miss_path (reason : MissReason) (s : AppState U) : QueryPhase * AppState U :=
  if disp_present (st_upstreams s) then
    let '(ok, cb) := allow_request (mono clk) (circuit_breaker s) in
    let s := on_circuit (fun _ => cb) s in
    if negb ok then
      match cache_get s with
      | (Some e, s) => (Respond (qr_ok (Cached e Frozen_ took)), finished (on_metrics record_frozen s))
      | (None, s) => (Respond (refused took (Some ReasonCircuitOpen) 503),
                      finished (on_metrics (record_miss ReasonCircuitOpen) s))
      end
    else
      let '(action, co) := get_or_insert query_hash (coalescer s) in
      let s := on_coalescer (fun _ => co) s in
      match action with
      | Leader => (Lead query_hash reason, on_metrics record_upstream_request s)
      | Waiter rx => (Wait query_hash rx (length (sends co)), on_metrics record_coalesced s)
      end
  else
    match cache_get s with
    | (Some e, s) => (Respond (qr_ok (Cached e Hit took)), finished s)
    | (None, s) => (Respond (refused took (Some reason) 503), finished (on_metrics (record_miss reason) s))
    end.

Definition lookup_or_miss (s : AppState U) : outcome (QueryPhase * option BgTask * AppState U) :=
  let! fr := if qc_skip_cache c then Ret None else check_freshness_by_hash clk query_hash (st_cache s) in
  let miss reason s := let '(ph, s) := miss_path reason s in Ret (ph, None, s) in
  match fr with
  | Some Fresh =>
      match cache_get s with
      | (Some e, s) => let '(r, s) := serve_fresh e s in Ret (Respond r, None, s)
      | (None, s) => miss NotInCache s
      end
  | Some Stale =>
      match cache_get s with
      | (Some e, s) => let '(r, t, s) := serve_stale e s in Ret (Respond r, Some t, s)
      | (None, s) => miss NotInCache s
      end
  | Some _ => miss ReasonExpired s
  | None => miss NotInCache s
  end.

(** The handler up to its first await. *)
Definition query_begin (s : AppState U) : outcome (QueryPhase * option BgTask * AppState U) :=
  if paused s then Ret (Respond (refused took None 503), None, on_clients client_reject s)
  else if negb (is_ok (request_validate (qc_request c))) then
    Ret (Respond (refused took None 400), None, on_metrics record_validation_error s)
  else
    let s := on_clients (track clk (qc_request_id c) the_query (qc_source c)) s in
    let s := ensure_context s in
    if match qc_agent c with Some a => negb (can_access_context a (qc_context c)) | None => false end then
      Ret (Respond (refused took None 403), None, finished s)
    else lookup_or_miss s.

Definition register_with_worker (q : str) : AppState U -> AppState U := on_worker (fmap (register_query q)).

(** The leader's answer before it is stored or sent. *)
Definition accepted (f : ScopeFilter) (reason : MissReason) (r : QueryResponse) : QueryResponse :=
  {| results := apply_scope_filter f (results r); cache_status := Miss; took_ms := took_ms r;
     generated_at := generated_at r; miss_reason := Some reason |}.
Definition timed (r : QueryResponse) : QueryResponse :=
  {| results := results r; cache_status := cache_status r; took_ms := took; generated_at := generated_at r;
     miss_reason := miss_reason r |}.

Definition lead_ok (reason : MissReason) (r : QueryResponse) (s : AppState U) : QueryResult * AppState U :=
  let s := on_contexts (record_miss_for (qc_context c)) (on_metrics (record_miss reason) s) in
  let s := on_circuit (record_success (mono clk)) s in
  let r := accepted (scope_filter_for (qc_context c) s) reason r in
  let served := qr_ok (SharedFresh (timed r) took) in
  if negb (is_ok (response_validate r)) then
    let s := on_coalescer (complete query_hash (Ok (timed r))) (on_metrics record_validation_error s) in
    (served, finished (with_latency s))
  else
    let s := on_cache (insert_by_hash clk query_hash r (st_upstream_id s) (Some ctx_query)) s in
    let s := register_with_worker ctx_query s in
    let s := on_coalescer (complete query_hash (Ok (timed r))) s in
    (served, finished (with_query_stats false (with_latency s))).

Definition lead_err (err : UpstreamError) (s : AppState U) : QueryResult * AppState U :=
  let s := on_metrics record_upstream_failure (on_metrics (record_miss ReasonUpstreamError) s) in
  let s := on_circuit (record_failure (mono clk)) s in
  match cache_get s with
  | (Some e, s) =>
      let broadcast := {| results := results (response e); cache_status := Frozen_; took_ms := took;
                          generated_at := generated_at (response e); miss_reason := miss_reason (response e) |} in
      let s := on_coalescer (complete query_hash (Ok broadcast)) (on_metrics record_frozen s) in
      (qr_ok (Cached e Frozen_ took), finished (with_latency s))
  | (None, s) =>
      let s := on_coalescer (complete query_hash (Err (display_upstream_error err))) s in
      (refused took (Some ReasonUpstreamError) 502, finished (with_latency s))
  end.

(** The leader, once the upstreams have answered. *)
Definition lead_finish (reason : MissReason) (rr : RetryResult QueryResponse UpstreamError) (s : AppState U)
  : outcome (QueryResult * AppState U) :=
  let! a := if rr_is_success rr then at_record (total_duration rr) (adaptive_timeout s)
            else Ret (adaptive_timeout s) in
  let s := on_adaptive (fun _ => a) s in
  let s := if retried rr then on_metrics record_upstream_request s else s in
  Ret (match rr_result rr with
       | Ok r => lead_ok reason r s
       | Err e => lead_err e s
       end).

(** A waiter, once it received a value ([None]: the channel is closed). *)
Definition wait_finish (received : option (result QueryResponse str)) (s : AppState U) : QueryResult * AppState U :=
  match received with
  | Some (Ok r) => (qr_ok (SharedFresh r took), finished (with_latency s))
  | _ =>
      match cache_get s with
      | (Some e, s) => (qr_ok (Cached e Frozen_ took), finished (with_latency (on_metrics record_frozen s)))
      | (None, s) => (refused took (Some ReasonUpstreamError) 502, finished (with_latency s))
      end
  end.

(** The executor's attempts are consecutive dispatches. *)
Definition attempt_state (n : nat) (u : U) (m : ProxyMetrics) : U * ProxyMetrics :=
  Nat.iter n (fun um => let '(_, u, m) := disp_query (qc_request c) um.1 um.2 in (u, m)) (u, m).
Definition operation (u : U) (m : ProxyMetrics) (i : Z) : result QueryResponse UpstreamError * Z :=
  let '(u, m) := attempt_state (Z.to_nat i) u m in (fst (fst (disp_query (qc_request c) u m)), disp_took u).

Definition ask_upstreams (s : AppState U)
  : option (outcome (RetryResult QueryResponse UpstreamError * AppState U)) :=
  match execute (retry_policy s) (operation (st_upstreams s) (st_metrics s)) with
  | Some (Ret rr) =>
      let '(u, m) := attempt_state (Z.to_nat (attempts rr)) (st_upstreams s) (st_metrics s) in
      Some (Ret (rr, on_metrics (fun _ => m) (on_upstreams (fun _ => u) s)))
  | Some Panic => Some Panic
  | None => None
  end.
End Query.

(** The background refresh, given what the single adapter answered ([None]: there is
    no single adapter). *)
Definition background_refresh `{CacheEnv} {U} (clk : Clock) (answer : option (result QueryResponse UpstreamError))
    (t : BgTask) (s : AppState U) : AppState U :=
  match answer with
  | Some (Ok r) =>
      let r := {| results := apply_scope_filter (bg_scope t) (results r); cache_status := cache_status r;
                  took_ms := took_ms r; generated_at := generated_at r; miss_reason := miss_reason r |} in
      if is_ok (response_validate r) then
        let q := context_query (bg_context t) (bg_query t) in
        register_with_worker q (on_cache (insert_with_context clk q r (st_upstream_id s) (bg_context t)) s)
      else s
  | _ => s
  end.

(** A request that runs alone: [None] when it would wait for another request. *)
Definition execute_query `{CacheEnv} `{StatsEnv} `{ContextEnv} {U} `{Dispatcher U} `{FloatPow}
    (start : Z) (clk clk' : Clock) (c : QueryCall) (s : AppState U)
  : option (outcome (QueryResult * option BgTask * AppState U)) :=
  match query_begin start clk c s with
  | Panic => Some Panic
  | Ret (Respond r, bg, s) => Some (Ret (r, bg, s))
  | Ret (Lead _ reason, bg, s) =>
      match ask_upstreams c s with
      | Some (Ret (rr, s)) =>
          Some (let! rs := lead_finish start clk' c reason rr s in Ret (rs.1, bg, rs.2))
      | Some Panic => Some Panic
      | None => None
      end
  | Ret (Wait _ _ _, _, _) => None
  end.

(** The HTTP status of a result. *)
Definition http_status (r : QueryResult) : Z :=
  if bool_decide (qr_status r ∈ [200; 400; 403; 502; 503]) then qr_status r else 500.
