(* ===== verification/ContextKeys.v ===== *)
(** * The cache keys of contexts (src/src/proxy/server/mod.rs, [context_query])

    A query is cached under the hash of "ctx:<context>:<query>", normalized.  Two
    contexts with plain names never share a key; names with a colon, or that differ
    only in case, do. *)

From S2P Require Import Prelude Floats Text Types Cache CacheProps Pipeline.
Open Scope Z_scope.
Open Scope conproxy_scope.

(** Visible ASCII that is not an upper-case letter. *)
Definition plain_char (c : Z) : bool := (33 <=? c) && (c <=? 126) && negb (is_ascii_upper c).
(** A context name without upper-case letters, white space and colons. *)
Definition plain_context (ctx : str) : bool := forallb (fun c => plain_char c && negb (c =? 58)) ctx.

(** Lowercasing maps such characters to themselves, in every position. *)
Class PlainCase (C : UnicodeCase) : Prop := {
  lower_plain_prefix : forall p s, forallb plain_char p = true -> exists t, to_lowercase (p ++ s) = p ++ t
}.

#[export] Instance AsciiCase_plain : PlainCase AsciiCase.
Proof.
  split. intros p s Hp. exists (to_ascii_lowercase s). simpl. unfold to_ascii_lowercase. rewrite map_app. f_equal.
  induction p as [|c p IH]; simpl in *; [done|]. apply andb_prop in Hp as [Hc Hp]. rewrite IH by done. f_equal.
  unfold plain_char in Hc. unfold to_ascii_lowercase_char. apply andb_prop in Hc as [_ Hc]. by destruct (is_ascii_upper c).
Qed.

Lemma plain_not_ws c : plain_char c = true -> is_whitespace c = false.
Proof.
  unfold plain_char, is_whitespace. intros Hc. apply andb_prop in Hc as [[H1 H2]%andb_prop _].
  apply Z.leb_le in H1, H2.
  repeat match goal with
  | |- context [?a <=? ?b] => destruct (Z.leb_spec a b); try lia
  | |- context [?a =? ?b] => destruct (Z.eqb_spec a b); try lia
  end; done.
Qed.

Lemma trim_start_app p (l r : str) c r' : r = c :: r' -> p c = false ->
  exists l', trim_start_by p (l ++ r) = l' ++ r.
Proof.
  intros -> Hc. induction l as [|d l IH]; simpl; [rewrite Hc; by exists []|].
  destruct (p d); [done|]. by exists (d :: l).
Qed.

Lemma trim_plain_prefix (p s : str) : p <> [] -> forallb plain_char p = true -> exists t, trim (p ++ s) = p ++ t.
Proof.
  intros Hne Hp. unfold trim. rewrite trim_start_id.
  - unfold trim_end_by. rewrite reverse_app.
    destruct (reverse p) as [|c r] eqn:Er; [by apply (f_equal reverse) in Er; rewrite reverse_involutive in Er|].
    destruct (trim_start_app is_whitespace (reverse s) (c :: r) c r) as [l' ->]; [done| |].
    + apply plain_not_ws. rewrite forallb_forall in Hp. apply Hp. apply list_elem_of_In.
      rewrite <- (reverse_involutive p), Er, elem_of_reverse. set_solver.
    + exists (reverse l'). by rewrite reverse_app, <- Er, reverse_involutive.
  - destruct p as [|c p]; [done|]. simpl in *. intros d [= <-]. apply andb_prop in Hp as [Hc _]. by apply plain_not_ws.
Qed.

Lemma collapse_plain_prefix (p s : str) : forall b, forallb plain_char p = true ->
  exists t, collapse_ws b (p ++ s) = p ++ t.
Proof.
  induction p as [|c p IH]; intros b Hp; simpl in *; [by eexists|].
  apply andb_prop in Hp as [Hc Hp]. rewrite (plain_not_ws _ Hc). destruct (IH false Hp) as [t ->]. by exists t.
Qed.

Lemma cut_at_sep (k : Z) (l1 l2 r1 r2 : str) :
  k ∉ l1 -> k ∉ l2 -> l1 ++ k :: r1 = l2 ++ k :: r2 -> l1 = l2.
Proof.
  revert l2. induction l1 as [|a l1 IH]; intros [|b l2] H1 H2; simpl; try done.
  - intros [= -> _]. set_solver.
  - intros [= -> _]. set_solver.
  - intros [= -> Heq]. f_equal. apply IH; [set_solver|set_solver|done].
Qed.

Section Keys.
Context `{E : CacheEnv} {PL : PlainCase env_case}.

(** The normalized key still starts with the context. *)
Lemma normalize_context ctx q : plain_context ctx = true ->
  exists t, normalize_query (context_query ctx q) = lit "ctx:" ++ ctx ++ lit ":" ++ t.
Proof.
  intros Hc. unfold context_query, normalize_query.
  assert (Hp : forallb plain_char (lit "ctx:" ++ ctx ++ lit ":") = true).
  { rewrite !forallb_app. simpl. rewrite andb_true_r. unfold plain_context in Hc. rewrite forallb_forall in *.
    intros c Hin. by apply Hc, andb_prop in Hin as [? _]. }
  assert (Happ : forall t, lit "ctx:" ++ ctx ++ lit ":" ++ t = (lit "ctx:" ++ ctx ++ lit ":") ++ t)
    by (intros t; by rewrite <- !app_assoc).
  rewrite Happ. destruct (trim_plain_prefix (lit "ctx:" ++ ctx ++ lit ":") q) as [t1 ->]; [done|done|].
  destruct (lower_plain_prefix (lit "ctx:" ++ ctx ++ lit ":") t1 Hp) as [t2 ->].
  destruct (collapse_plain_prefix (lit "ctx:" ++ ctx ++ lit ":") t2 false Hp) as [t ->].
  exists t. by rewrite Happ.
Qed.

(** C22: contexts are isolated in the cache: two different contexts whose names have
    no upper-case letter, no white space and no colon never share a cache key,
    whatever the queries, as long as the hash does not collide on the two keys. *)
Theorem context_isolation c1 c2 q1 q2 :
  plain_context c1 = true -> plain_context c2 = true -> c1 <> c2 ->
  (blake3_hash (as_bytes (normalize_query (context_query c1 q1))) =
     blake3_hash (as_bytes (normalize_query (context_query c2 q2))) ->
   normalize_query (context_query c1 q1) = normalize_query (context_query c2 q2)) ->
  hash_query (context_query c1 q1) <> hash_query (context_query c2 q2).
Proof.
  intros H1 H2 Hne Hinj Heq. unfold hash_query in Heq. apply Hinj in Heq. clear Hinj.
  destruct (normalize_context c1 q1 H1) as [t1 E1]. destruct (normalize_context c2 q2 H2) as [t2 E2].
  rewrite E1, E2 in Heq. simpl in Heq. injection Heq as Heq. apply Hne. revert Heq. apply cut_at_sep.
  all: intros Hin%list_elem_of_In; unfold plain_context in *; rewrite forallb_forall in *.
  - by apply H1, andb_prop in Hin as [_ Hb].
  - by apply H2, andb_prop in Hin as [_ Hb].
Qed.
End Keys.

#[local] Existing Instance DemoEnv.

Lemma context_isolation_witness :
  hash_query (context_query (lit "tenant-a") (lit "Refunds ")) <> hash_query (context_query (lit "tenant-b") (lit "refunds")).
Proof.
  apply (context_isolation (E := DemoEnv) (PL := AsciiCase_plain) (lit "tenant-a") (lit "tenant-b") (lit "Refunds ") (lit "refunds"));
    [reflexivity|reflexivity|discriminate|].
  intros Heq. exfalso. revert Heq. vm_compute. discriminate.
Defined.

(** Contexts whose names differ only in case share their entries, and a colon in a
    name lets two contexts meet in one key, whatever the hash. *)
Lemma context_collision (h : list Z -> list Z) :
  let E := {| env_externals := {| blake3_hash := h; blake3_keyed_hex := fun k b => k ++ b; json_to_string := fun _ => [] |};
              env_case := AsciiCase; serde_to_vec := fun _ => Some []; size_of_CacheEntry := 200;
              map_iter := map_to_list |} in
  hash_query (context_query (lit "Tenant") (lit "q")) = hash_query (context_query (lit "tenant") (lit "q")) /\
  hash_query (context_query (lit "a:b") (lit "c")) = hash_query (context_query (lit "a") (lit "b:c")).
Proof. split; reflexivity. Qed.
