(* ===== verification/PipelineProps.v ===== *)
(** * Properties of the pieces of the query pipeline

    What each piece of [execute_query] does to the cache, the coalescer, the counters
    and the client table, and what it answers; then the claims about a request that
    runs alone, and the cache keys of contexts. *)

From Stdlib Require Import SpecFloat.
From S2P Require Import Prelude Floats Text Types Drift Cdc Cache CacheInv CacheReach CacheSpec CacheProps.
From S2P Require Import Circuit Scope Coalesce Retry ConnPool Upstream Pool Cascade CascadeProps Auth Adaptive.
From S2P Require Import Metrics Context Refresh Pipeline.
Open Scope Z_scope.
Open Scope conproxy_scope.

Definition reply_results (r : QueryResult) : list SearchResult := results (into_query_response (qr_response r)).

(** The cache holds these results under a hash. *)
Definition stored `{CacheEnv} (cache : CacheStore) (h : QueryHash) (rs : list SearchResult) : Prop :=
  exists e, entries cache !! h = Some e /\ rs = results (response e).

(** A reply is what the cache holds, or a refusal without results. *)
Definition cached_or_refused `{CacheEnv} (cache : CacheStore) (h : QueryHash) (r : QueryResult) : Prop :=
  (qr_status r = 200 /\ stored cache h (reply_results r)) \/ (qr_status r <> 200 /\ reply_results r = []).

Ltac app_unfold :=
  unfold finished, with_latency, with_query_stats, register_with_worker, on_cache, on_upstreams, on_coalescer,
    on_worker, on_metrics, on_circuit, on_adaptive, on_query_stats, on_contexts, on_clients in *; simpl in *.

Section Pieces.
Context `{E : CacheEnv} {L : CacheEnvLaws E} `{SE : StatsEnv} `{CE : ContextEnv} {U : Type} `{D : Dispatcher U} `{FP : FloatPow}.
Implicit Types (s : AppState U) (c : QueryCall).

(** What every piece kept: the invariant of the cache and the balance of the
    counters. *)
Record kept s s' : Prop := {
  kp_inv : forall N, inv N (st_cache s) -> inv N (st_cache s');
  kp_balanced : balanced (st_metrics s) -> balanced (st_metrics s')
}.
Lemma kept_refl s : kept s s.
Proof. by split. Qed.
Lemma kept_trans s s1 s2 : kept s s1 -> kept s1 s2 -> kept s s2.
Proof. intros [] []. split; auto. Qed.
(** Two states with the same cache and metrics. *)
Lemma kept_same s s' : st_cache s' = st_cache s -> st_metrics s' = st_metrics s -> kept s s'.
Proof. intros H1 H2. split; [by rewrite H1|by rewrite H2]. Qed.

Lemma cache_get_spec c s e s' : cache_get c s = (e, s') ->
  kept s s' /\ lossy (st_cache s) (st_cache s') /\ s' = on_cache (fun _ => st_cache s') s /\
  match e with
  | Some e => stored (st_cache s) (query_hash c) (results (response e))
  | None => entries (st_cache s) !! query_hash c = None
  end.
Proof.
  unfold cache_get. destruct (get_by_hash (query_hash c) (st_cache s)) as [e0 cache] eqn:Eg.
  intros [= <- <-]. simpl.
  assert (cache = snd (get_by_hash (query_hash c) (st_cache s))) as Hc by (by rewrite Eg).
  split_and!; [| |done|].
  - split; simpl; [|done]. intros N HN. rewrite Hc. by apply inv_get_by_hash.
  - unfold get_by_hash in Eg. destruct (entries (st_cache s) !! query_hash c); injection Eg as _ <-;
      [apply lossy_bump|apply lossy_refl].
  - unfold get_by_hash in Eg. destruct (entries (st_cache s) !! query_hash c) as [e1|] eqn:Ee; [|by injection Eg as <- _].
    injection Eg as <- _. unfold bump_freq. rewrite Ee. simpl. rewrite lookup_insert_eq.
    exists e1. by rewrite Ee.
Qed.

(** What a piece that has not answer_stored yet did to the coalescer. *)
Definition phase_spec c s (ph : QueryPhase) s' : Prop :=
  match ph with
  | Respond r =>
      coalescer s' = coalescer s /\ cached_or_refused (st_cache s) (query_hash c) r
  | Lead h _ => h = query_hash c /\ get_or_insert h (coalescer s) = (Leader, coalescer s')
  | Wait h rx k =>
      h = query_hash c /\ get_or_insert h (coalescer s) = (Waiter rx, coalescer s') /\
      k = length (sends (coalescer s'))
  end.

Ltac kept := split; simpl; [intros ? ?; assumption|auto 10 with balance].

Lemma miss_path_spec start clk c reason s ph s' :
  miss_path start clk c reason s = (ph, s') ->
  kept s s' /\ lossy (st_cache s) (st_cache s') /\ phase_spec c s ph s' /\
  client_tracker s' =
    match ph with Respond _ => client_complete (qc_request_id c) (client_tracker s) | _ => client_tracker s end.
Proof.
  unfold miss_path. destruct (disp_present (st_upstreams s)).
  - destruct (allow_request (mono clk) (circuit_breaker s)) as [ok cb]. set (s0 := on_circuit _ s).
    destruct ok; simpl.
    + destruct (get_or_insert (query_hash c) (coalescer s)) as [[|rx] co] eqn:Eg; intros [= <- <-].
      * split_and!; [kept|apply lossy_refl|by simpl|done].
      * split_and!; [kept|apply lossy_refl|by simpl|done].
    + destruct (cache_get c s0) as [[e|] s1] eqn:Ec; destruct (cache_get_spec _ _ _ _ Ec) as (Hk & Hl & Hs & He);
        intros [= <- <-]; simpl in Hl; (split_and!; [|done|split; [by rewrite Hs|]|by rewrite Hs]).
      * eapply kept_trans; [eapply kept_trans; [|exact Hk]; kept|]. kept.
      * left. split; [done|exact He].
      * eapply kept_trans; [eapply kept_trans; [|exact Hk]; kept|]. kept.
      * by right.
  - destruct (cache_get c s) as [[e|] s1] eqn:Ec; destruct (cache_get_spec _ _ _ _ Ec) as (Hk & Hl & Hs & He);
      intros [= <- <-]; simpl in Hl; (split_and!; [|done|split; [by rewrite Hs|]|by rewrite Hs]).
    + eapply kept_trans; [exact Hk|]. by split.
    + left. split; [done|exact He].
    + eapply kept_trans; [exact Hk|]. kept.
    + by right.
Qed.

Lemma lookup_or_miss_spec start clk c s ph bg s' :
  lookup_or_miss start clk c s = Ret (ph, bg, s') ->
  kept s s' /\ lossy (st_cache s) (st_cache s') /\ phase_spec c s ph s' /\
  client_tracker s' =
    match ph with Respond _ => client_complete (qc_request_id c) (client_tracker s) | _ => client_tracker s end.
Proof.
  unfold lookup_or_miss. destruct (if qc_skip_cache c then _ else _) as [fr|]; [|done]. simpl.
  assert (Hmiss : forall s1 reason,
    kept s s1 -> lossy (st_cache s) (st_cache s1) -> s1 = on_cache (fun _ => st_cache s1) s ->
    (let '(ph, s) := miss_path start clk c reason s1 in Ret (ph, None, s)) = Ret (ph, bg, s') ->
    kept s s' /\ lossy (st_cache s) (st_cache s') /\ phase_spec c s ph s' /\
    client_tracker s' =
      match ph with Respond _ => client_complete (qc_request_id c) (client_tracker s) | _ => client_tracker s end).
  { intros s1 reason Hk Hl Hs. destruct (miss_path start clk c reason s1) as [ph1 s2] eqn:Em. intros [= -> _ ->].
    destruct (miss_path_spec _ _ _ _ _ _ _ Em) as (H1 & H2 & H3 & H4).
    assert (coalescer s1 = coalescer s /\ client_tracker s1 = client_tracker s) as [Hc Ht] by (by rewrite Hs).
    split_and!; [by eapply kept_trans|by eapply lossy_trans| |by rewrite H4, Ht].
    unfold phase_spec in *. rewrite Hc in H3. destruct ph as [r| |]; try done. destruct H3 as [Hco H3]. split; [done|].
    destruct H3 as [[Hst (e & He & Hr)]|H3]; [left; split; [done|]|by right].
    destruct Hl as [Hsh _]. destruct (Hsh _ _ He) as (e0 & v & He0 & ->). by exists e0. }
  destruct fr as [[]|].
  - destruct (cache_get c s) as [[e|] s1] eqn:Ec; destruct (cache_get_spec _ _ _ _ Ec) as (Hk & Hl & Hs & He);
      [|by apply Hmiss].
    intros [= <- <- <-]. split_and!; [|done| |by rewrite Hs].
    + eapply kept_trans; [exact Hk|]. kept.
    + split; [by rewrite Hs|]. left. split; [done|exact He].
  - destruct (cache_get c s) as [[e|] s1] eqn:Ec; destruct (cache_get_spec _ _ _ _ Ec) as (Hk & Hl & Hs & He);
      [|by apply Hmiss].
    intros [= <- <- <-]. split_and!; [|done| |by rewrite Hs].
    + eapply kept_trans; [exact Hk|]. kept.
    + split; [by rewrite Hs|]. left. split; [done|exact He].
  - apply Hmiss; [kept|apply lossy_refl|by destruct s].
  - apply Hmiss; [kept|apply lossy_refl|by destruct s].
  - apply Hmiss; [kept|apply lossy_refl|by destruct s].
Qed.

Lemma query_begin_spec start clk c s ph bg s' :
  query_begin start clk c s = Ret (ph, bg, s') ->
  kept s s' /\ lossy (st_cache s) (st_cache s') /\ phase_spec c s ph s' /\
  match ph with
  | Respond _ => cl_active (client_tracker s') = cl_active (client_tracker s) \/
                 cl_active (client_tracker s') = delete (qc_request_id c) (cl_active (client_tracker s))
  | _ => exists i, cl_active (client_tracker s') = <[qc_request_id c := i]> (cl_active (client_tracker s))
  end.
Proof.
  unfold query_begin. destruct (paused s).
  { intros [= <- <- <-]. split_and!; [kept|apply lossy_refl|split; [done|by right]|by left]. }
  destruct (negb _).
  { intros [= <- <- <-]. split_and!; [kept|apply lossy_refl|split; [done|by right]|by left]. }
  set (s0 := on_clients _ s). set (s1 := ensure_context clk c s0).
  assert (Hs1 : st_cache s1 = st_cache s /\ st_metrics s1 = st_metrics s /\ coalescer s1 = coalescer s /\
                client_tracker s1 = client_tracker s0).
  { unfold s1, ensure_context. by destruct (ctx_get _ _). }
  destruct Hs1 as (H1 & H2 & H3 & H4).
  destruct (match qc_agent c with Some _ => _ | None => _ end).
  - intros [= <- <- <-]. split_and!; [|by simpl; rewrite H1; apply lossy_refl|split; [done|by right]|].
    + split; simpl; rewrite ?H1, ?H2; auto.
    + right. simpl. rewrite H4. simpl. apply delete_insert_eq.
  - intros Hl. destruct (lookup_or_miss_spec _ _ _ _ _ _ _ Hl) as (K & Lo & P & T).
    rewrite H1 in Lo. unfold phase_spec in P. rewrite H3, H1 in P. rewrite H4 in T.
    split_and!; [|done|done|].
    + eapply kept_trans; [|exact K]. by apply kept_same.
    + destruct ph; rewrite T; simpl; [right; apply delete_insert_eq|by eexists|by eexists].
Qed.

Lemma scope_filter_for_miss ctx f s :
  scope_filter_for ctx (on_circuit f (on_contexts (record_miss_for ctx) s)) = scope_filter_for ctx s.
Proof.
  unfold scope_filter_for, context_scope_filter. simpl. rewrite lookup_alter_eq.
  by destruct (active (context_manager s) !! ctx).
Qed.

(** What the leader leaves in the cache after an answer: its filtered results, when
    they are valid. *)
Definition answer_stored clk c s (rs : list SearchResult) s' : Prop :=
  forall N, inv N (st_cache s) ->
    (entries (st_cache s') = entries (st_cache s)) \/
    (exists r, results r = rs /\ is_ok (response_validate r) = true /\
       shrinks (<[query_hash c := new_entry clk r (st_upstream_id s) (Some (ctx_query c)) (lit "default")]>
                  (entries (st_cache s))) (entries (st_cache s'))).

Lemma lead_ok_spec start clk c reason resp s r s' :
  lead_ok start clk c reason resp s = (r, s') ->
  let rs := apply_scope_filter (scope_filter_for (qc_context c) s) (results resp) in
  kept s s' /\ client_tracker s' = client_complete (qc_request_id c) (client_tracker s) /\
  qr_status r = 200 /\ reply_results r = rs /\ answer_stored clk c s rs s' /\
  exists v, coalescer s' = complete (query_hash c) (Ok v) (coalescer s) /\ results v = rs.
Proof.
  unfold lead_ok. set (m := on_metrics (record_miss reason) s).
  rewrite scope_filter_for_miss. change (scope_filter_for (qc_context c) m) with (scope_filter_for (qc_context c) s).
  set (a := accepted _ reason resp). destruct (response_validate a) as [[]|] eqn:Ev; simpl; intros [= <- <-].
  - split_and!; try done.
    + split; simpl; [intros N; apply inv_insert_by_hash|auto with balance].
    + intros N HN. right. exists a. rewrite Ev. split_and!; try done.
      by destruct (insert_by_hash_lossy N clk (query_hash c) a (st_upstream_id s) (Some (ctx_query c)) _ HN) as [Hs _].
    + by eexists.
  - split_and!; try done; [split; simpl; auto 6 with balance|by left|by eexists].
Qed.

Lemma lead_err_spec start clk c err s r s' :
  lead_err start clk c err s = (r, s') ->
  kept s s' /\ client_tracker s' = client_complete (qc_request_id c) (client_tracker s) /\
  lossy (st_cache s) (st_cache s') /\ cached_or_refused (st_cache s) (query_hash c) r /\
  exists v, coalescer s' = complete (query_hash c) v (coalescer s) /\
    forall q, v = Ok q -> stored (st_cache s) (query_hash c) (results q).
Proof.
  unfold lead_err. set (s0 := on_circuit _ _).
  destruct (cache_get c s0) as [[e|] s1] eqn:Ec; destruct (cache_get_spec _ _ _ _ Ec) as (Hk & Hl & Hs & He);
    intros [= <- <-]; (split_and!; [|by rewrite Hs|done| |by rewrite Hs; eexists; split; [done|intros q [= <-]; exact He]]).
  - eapply kept_trans; [eapply kept_trans; [|exact Hk]|]; kept.
  - left. split; [done|exact He].
  - eapply kept_trans; [eapply kept_trans; [|exact Hk]|]; kept.
  - by right.
Qed.

Lemma wait_finish_spec start clk c received s r s' :
  wait_finish start clk c received s = (r, s') ->
  kept s s' /\ client_tracker s' = client_complete (qc_request_id c) (client_tracker s) /\
  lossy (st_cache s) (st_cache s') /\ coalescer s' = coalescer s /\
  match received with
  | Some (Ok v) => qr_status r = 200 /\ reply_results r = results v
  | _ => cached_or_refused (st_cache s) (query_hash c) r
  end.
Proof.
  unfold wait_finish.
  assert (Hno : match cache_get c s with
    | (Some e, s) => (qr_ok (Cached e Frozen_ (took start clk)), finished c (with_latency start clk (on_metrics record_frozen s)))
    | (None, s) => (refused (took start clk) (Some ReasonUpstreamError) 502, finished c (with_latency start clk s))
    end = (r, s') ->
    kept s s' /\ client_tracker s' = client_complete (qc_request_id c) (client_tracker s) /\
    lossy (st_cache s) (st_cache s') /\ coalescer s' = coalescer s /\ cached_or_refused (st_cache s) (query_hash c) r).
  { destruct (cache_get c s) as [[e|] s1] eqn:Ec; destruct (cache_get_spec _ _ _ _ Ec) as (Hk & Hl & Hs & He);
      intros [= <- <-]; (split_and!; [eapply kept_trans; [exact Hk|]; kept|by rewrite Hs|done|by rewrite Hs|]).
    - left. split; [done|exact He].
    - by right. }
  destruct received as [[v|err]|]; [|exact Hno|exact Hno].
  intros [= <- <-]. split_and!; try done; [kept|apply lossy_refl].
Qed.

Lemma background_refresh_spec clk answer t s s' :
  background_refresh clk answer t s = s' ->
  kept s s' /\ client_tracker s' = client_tracker s /\ coalescer s' = coalescer s /\
  forall N, inv N (st_cache s) ->
    entries (st_cache s') = entries (st_cache s) \/
    exists resp r, answer = Some (Ok resp) /\ results r = apply_scope_filter (bg_scope t) (results resp) /\
      is_ok (response_validate r) = true /\
      let q := context_query (bg_context t) (bg_query t) in
      shrinks (<[hash_query q := new_entry clk r (st_upstream_id s) (Some q) (bg_context t)]> (entries (st_cache s)))
        (entries (st_cache s')).
Proof.
  intros <-. unfold background_refresh.
  destruct answer as [[resp|]|]; try (split_and!; [kept|done|done|by left]).
  match goal with |- context [response_validate ?x] => set (r := x) end.
  destruct (is_ok (response_validate r)) eqn:Ev; [|split_and!; [kept|done|done|by left]].
  split_and!; [split; simpl; [intros N; apply inv_insert_impl|done]|done|done|].
  intros N HN. right. exists resp, r. split_and!; try done. simpl.
  by destruct (insert_impl_lossy N clk (context_query (bg_context t) (bg_query t)) r (st_upstream_id s) (bg_context t) _ HN).
Qed.
End Pieces.

(** ** A request that runs alone *)

Section Alone.
Context `{E : CacheEnv} {L : CacheEnvLaws E} `{SE : StatsEnv} `{CE : ContextEnv} {U : Type} `{D : Dispatcher U} `{FP : FloatPow}.
Implicit Types (s : AppState U) (c : QueryCall).

Lemma cache_get_some c s e : entries (st_cache s) !! query_hash c = Some e ->
  exists e' s', cache_get c s = (Some e', s') /\ s' = on_cache (fun _ => st_cache s') s.
Proof.
  intros He. unfold cache_get, get_by_hash. rewrite He. unfold bump_freq. rewrite He. simpl.
  rewrite lookup_insert_eq. eexists _, _. split; [done|]. done.
Qed.

(** A piece that answers 200, or leads with the cache unchanged. *)
Definition serves_or_leads s (o : outcome (QueryPhase * option BgTask * AppState U)) : Prop :=
  exists ph bg s', o = Ret (ph, bg, s') /\
    match ph with
    | Respond r => qr_status r = 200
    | Lead _ _ => st_cache s' = st_cache s /\ adaptive_timeout s' = adaptive_timeout s /\ retry_policy s' = retry_policy s
    | Wait _ _ _ => False
    end.

Lemma miss_path_serves start clk c reason s e :
  entries (st_cache s) !! query_hash c = Some e -> in_flight (coalescer s) !! query_hash c = None ->
  serves_or_leads s (let '(ph, s) := miss_path start clk c reason s in Ret (ph, None, s)).
Proof.
  intros He Hf. unfold serves_or_leads, miss_path. destruct (disp_present (st_upstreams s)).
  - destruct (allow_request (mono clk) (circuit_breaker s)) as [[] cb]; simpl.
    + unfold get_or_insert. rewrite Hf. eexists _, _, _. by split_and!.
    + destruct (cache_get_some c (on_circuit (fun _ => cb) s) e He) as (e' & s' & -> & _). eexists _, _, _. by split_and!.
  - destruct (cache_get_some c s e He) as (e' & s' & -> & _). eexists _, _, _. by split_and!.
Qed.

Lemma begin_serves start clk c s e w :
  paused s = false -> is_ok (request_validate (qc_request c)) = true ->
  match qc_agent c with Some a => can_access_context a (qc_context c) = true | None => True end ->
  entries (st_cache s) !! query_hash c = Some e -> windows (query_hash c) (st_cache s) = Ret w ->
  in_flight (coalescer s) !! query_hash c = None ->
  serves_or_leads s (query_begin start clk c s).
Proof.
  intros Hp Hv Ha He Hw Hf. unfold query_begin. rewrite Hp, Hv. simpl.
  set (s0 := on_clients _ s). set (s1 := ensure_context clk c s0).
  assert (Hs1 : st_cache s1 = st_cache s /\ coalescer s1 = coalescer s /\ adaptive_timeout s1 = adaptive_timeout s /\
                retry_policy s1 = retry_policy s) by (unfold s1, ensure_context; by destruct (ctx_get _ _)).
  destruct Hs1 as (H1 & H2 & H3 & H4).
  replace (match qc_agent c with Some a => negb (can_access_context a (qc_context c)) | None => false end) with false
    by (destruct (qc_agent c); [by rewrite Ha|done]).
  assert (Hm : forall reason, serves_or_leads s1 (let '(ph, s) := miss_path start clk c reason s1 in Ret (ph, None, s)))
    by (intros reason; eapply miss_path_serves; [by rewrite H1|by rewrite H2]).
  assert (Hl : serves_or_leads s1 (lookup_or_miss start clk c s1)).
  { unfold lookup_or_miss, check_freshness_by_hash. rewrite H1, He, Hw. simpl.
    destruct (cache_get_some c s1 e) as (e' & s' & Hg & _); [by rewrite H1|]. rewrite Hg.
    destruct (qc_skip_cache c); [apply Hm|]. simpl.
    destruct (classify _ _ _ _); try apply Hm; eexists _, _, _; by split_and!. }
  destruct Hl as (ph & bg & s' & -> & Hph). exists ph, bg, s'. split; [done|]. destruct ph; try done.
  destruct Hph as (-> & -> & ->). by split_and!.
Qed.

Lemma execute_loop_no_panic (p : RetryPolicy) (f : Z -> result QueryResponse UpstreamError * Z) fuel :
  (forall i, 0 <= i <= max_retries p -> delay_for_attempt p i <> Panic) -> max_retries p < u32_max ->
  forall att sp, 0 <= att <= max_retries p -> execute_loop fuel p f att sp <> Some Panic.
Proof.
  intros Hd Hm. induction fuel as [|n IH]; intros att sp Hr; simpl; [done|].
  destruct (delay_for_attempt p att) eqn:Ed; [|by apply Hd in Ed].
  destruct (f att) as [[v|err] tk]; [done|].
  destruct (should_retry p att && _) eqn:Er; [|done]. apply andb_prop in Er as [Er _].
  unfold should_retry in Er. reflect_Z. apply IH. unfold sat_add, u32_max in *. lia.
Qed.

(** The retries end with a result when no delay panics. *)
Lemma ask_upstreams_ret c s :
  0 <= max_retries (retry_policy s) < u32_max ->
  (forall i, 0 <= i <= max_retries (retry_policy s) -> delay_for_attempt (retry_policy s) i <> Panic) ->
  exists rr s', ask_upstreams c s = Some (Ret (rr, s')) /\ st_cache s' = st_cache s /\
    adaptive_timeout s' = adaptive_timeout s.
Proof.
  intros Hm Hd. unfold ask_upstreams.
  destruct (execute_loop_spec (S (Z.to_nat (max_retries (retry_policy s)))) (retry_policy s)
              (operation c (st_upstreams s) (st_metrics s)) 0 0) as (o & Ho & Hg);
    [lia|lia|lia|intros i Hi; lia|].
  unfold execute. rewrite Ho. destruct o as [rr|].
  - destruct (attempt_state c (Z.to_nat (attempts rr)) (st_upstreams s) (st_metrics s)) as [u m]. by eexists _, _.
  - exfalso. by eapply execute_loop_no_panic in Ho; [|exact Hd|lia|lia].
Qed.

(** Asking the upstreams counts nothing itself. *)
Lemma ask_upstreams_count {DL : DispatcherLaws U} c s rr s' :
  ask_upstreams c s = Some (Ret (rr, s')) -> pm_count (st_metrics s') = pm_count (st_metrics s).
Proof.
  unfold ask_upstreams. destruct (execute _ _) as [[rr0|]|]; try done.
  destruct (attempt_state c (Z.to_nat (attempts rr0)) (st_upstreams s) (st_metrics s)) as [u m] eqn:Ea.
  intros [= <- <-]. simpl. change m with (snd (u, m)). rewrite <- Ea. clear u m Ea. unfold attempt_state.
  induction (Z.to_nat (attempts rr0)) as [|n IH]; simpl; [done|]. rewrite <- IH.
  destruct (Nat.iter n _ _) as [u m]. simpl. rewrite <- (disp_count (qc_request c) u m).
  by destruct (disp_query (qc_request c) u m) as [[r u'] m'].
Qed.

Lemma at_record_ret d a :
  as_micros_u64 (min_timeout (at_config a)) <= as_micros_u64 (max_timeout (at_config a)) ->
  exists a', at_record d a = Ret a'.
Proof.
  intros Hb. unfold at_record. destruct (_ mod 10 =? 0); [|by eexists].
  unfold recalculate. simpl. destruct (ring_write _ _ _ _); [by eexists|].
  unfold clamp_u64. rewrite (proj2 (Z.leb_le _ _) Hb). by eexists.
Qed.

End Alone.

(** ** The upstreams of the server *)

Section Upstreams.
Context `{B : Backend} `{SG : Single} `{X : Externals} `{UC : UnicodeCase} `{CK : Clocked} `{EM : Embedding} `{SC : Scheduler}.
Context (vo : gmap QueryHash Accum -> list Accum).

Definition ended (f : Flow) : Prop := match f with Done _ _ => True | Go _ _ => False end.

Lemma finish_ended start rs final why depth g s : ended (finish start rs final why depth g s).
Proof. unfold finish. by destruct (read_clock s). Qed.
Lemma finish_best_ended start why depth g s : ended (finish_best start why depth g s).
Proof. unfold finish_best. destruct (g_best g) as [[[? ?] ?]|]; apply finish_ended. Qed.
#[local] Hint Resolve finish_ended finish_best_ended : core.

Lemma cascade_all_ended config request start s : ended (cascade_all vo config request start s).
Proof.
  unfold cascade_all. destruct (cascade_order_with_preference _ _); [auto|].
  unfold cascade_run. destruct (cascade_groups _ _ _ _ _ _ _); simpl; auto.
Qed.

Lemma cascade_query_done config request s : ended (cascade_query vo config request s).
Proof.
  unfold cascade_query. destruct (read_clock s) as [start s1]. destruct (negb _); [auto|].
  destruct (and_then _ _) as [h|]; [|apply cascade_all_ended].
  assert (ended (query_single_targeted request start h s1)) as Hq.
  { unfold query_single_targeted. destruct (read_clock s1) as [x s2].
    destruct (query_upstream _ h (c_world s2)) as [[resp|e] w]; [auto|]. destruct (read_clock s2). auto. }
  destruct (query_single_targeted request start h s1) as [g s2|r s2]; [done|].
  destruct (negb _); [done|apply cascade_all_ended].
Qed.

(** Cascade, pool and single adapter leave the pipeline's counters alone. *)
#[export] Instance BackendsDispatcher_laws : DispatcherLaws Backends (H := BackendsDispatcher vo).
Proof.
  split. intros q u m. simpl. unfold dispatch_upstream_query. destruct (negb _); [done|].
  destruct (b_cascade u) as [cfg|].
  - destruct (cascade_query _ _ _ _) as [g s|r s]; [done|]. by destruct (upstream_failure r).
  - destruct (b_pool u); [by destruct (pool_query q (b_world u))|]. by destruct (b_single u).
Qed.
End Upstreams.

(** ** A concrete server *)

#[local] Existing Instance DemoEnv.
#[local] Existing Instance MulPow.

(** One upstream that always answers the same. *)
#[export] Instance demo_dispatcher : Dispatcher (result QueryResponse UpstreamError) :=
  {| disp_present := fun _ => true; disp_query := fun _ u m => (u, u, m); disp_took := fun _ => 1000 |}.

Definition demo_app (cache : CacheStore) (u : result QueryResponse UpstreamError)
  : AppState (result QueryResponse UpstreamError) :=
  {| st_cache := cache; st_upstreams := u; coalescer := RequestCoalescer_new; refresh_worker := None;
     st_scope_filter := ScopeFilter_none; st_metrics := ProxyMetrics_new; circuit_breaker := default_config 0;
     retry_policy := RetryPolicy_default; adaptive_timeout := AdaptiveTimeout_new AdaptiveTimeoutConfig_default;
     query_stats := QueryStatsTracker_new 100; st_upstream_id := lit "up";
     context_manager := ContextManager_new demo_clock ContextConfig_default; paused := false;
     client_tracker := ClientTracker_new |}.

Definition demo_call (q : string) : QueryCall :=
  {| qc_request := {| query := lit q; top_k := None; rq_priority := None; rq_upstream_id := None; upstream_type := None |};
     qc_context := lit "default"; qc_request_id := lit "r1"; qc_agent := None; qc_source := lit "rest";
     qc_skip_cache := false |}.

(** An entry of two days ago, and upstreams that fail. *)
Definition demo_cached : CacheStore :=
  insert_by_hash demo_clock (query_hash (demo_call "beta")) (demo_response "b") (lit "up") None demo_init.
Definition demo_late : Clock := {| mono := from_secs 172800; wall := from_secs 174000 |}.

