(* ===== verification/BatchServer.v ===== *)
(** * Batches and federated search at the server (src/src/proxy/server/batch.rs)

    The function that [handle_batch] runs for each query of a batch, in pieces like
    those of [Pipeline]: up to its first await, after the upstream's answer, after the
    message of a leader.  The scope filter is the one in force when the batch
    arrived.  Then the federated handler, and what the pieces keep. *)

From Stdlib Require Import SpecFloat.
From S2P Require Import Prelude Floats Text Types Drift Cdc Cache CacheInv CacheReach CacheSpec CacheProps.
From S2P Require Import Circuit Scope Coalesce Retry ConnPool Upstream Pool Cascade Auth Adaptive Federated.
From S2P Require Import Metrics Context Refresh Batch Pipeline PipelineProps.
Open Scope Z_scope.
Open Scope conproxy_scope.

(** ** One query of a batch *)

Inductive ItemPhase :=
| IDone (r : result QueryResponse str)
| ILead (reason : MissReason)
| IWait (rx : ChanId) (since : nat).

(** A cached response with its status and time. *)
Definition stamped (r : QueryResponse) (st : CacheStatus) (tk : Z) : QueryResponse :=
  {| results := results r; cache_status := st; took_ms := tk; generated_at := generated_at r; miss_reason := miss_reason r |}.

Section Item.
Context `{CacheEnv} `{StatsEnv} `{ContextEnv} {U : Type} `{Dispatcher U}.
Context (start : Z) (clk : Clock) (c : QueryCall).

(** The handler before the queries: the context, and whether the agent may use it. *)
Definition batch_enter (s : AppState U) : bool * AppState U :=
  let s := ensure_context clk c s in
  (match qc_agent c with Some a => can_access_context a (qc_context c) | None => true end, s).

Definition item_miss (reason : MissReason) (s : AppState U) : ItemPhase * AppState U :=
  if disp_present (st_upstreams s) then
    let '(action, co) := get_or_insert (query_hash c) (coalescer s) in
    let s := on_coalescer (fun _ => co) s in
    match action with
    | Leader => (ILead reason, on_metrics record_upstream_request s)
    | Waiter rx => (IWait rx (length (sends co)), on_metrics record_coalesced s)
    end
  else
    match cache_get c s with
    | (Some e, s) => (IDone (Ok (stamped (response e) Hit (took start clk))), with_latency start clk s)
    | (None, s) => (IDone (Err (lit "No upstream configured and query not in cache")), s)
    end.

Definition item_hit (e : CacheEntry) (st : CacheStatus) (s : AppState U) : ItemPhase * AppState U :=
  let s := on_contexts (record_hit_for (qc_context c)) (on_metrics record_hit s) in
  (IDone (Ok (stamped (response e) st (took start clk))), with_query_stats start clk c true (with_latency start clk s)).

Definition item_begin (s : AppState U) : outcome (ItemPhase * AppState U) :=
  let! fr := check_freshness_by_hash clk (query_hash c) (st_cache s) in
  Ret match fr with
      | Some Fresh => match cache_get c s with (Some e, s) => item_hit e Hit s | (None, s) => item_miss NotInCache s end
      | Some Stale => match cache_get c s with (Some e, s) => item_hit e Stale_ s | (None, s) => item_miss NotInCache s end
      | Some _ => item_miss ReasonExpired s
      | None => item_miss NotInCache s
      end.

Definition item_lead (f : ScopeFilter) (reason : MissReason) (answer : result QueryResponse UpstreamError) (s : AppState U)
  : result QueryResponse str * AppState U :=
  match answer with
  | Ok r =>
      let s := on_contexts (record_miss_for (qc_context c)) (on_metrics (record_miss reason) s) in
      let r := accepted f reason r in
      let s := if is_ok (response_validate r)
               then register_with_worker (ctx_query c)
                      (on_cache (insert_by_hash clk (query_hash c) r (st_upstream_id s) (Some (ctx_query c))) s)
               else s in
      let s := on_coalescer (complete (query_hash c) (Ok (timed start clk r))) (with_latency start clk s) in
      (Ok (timed start clk r), with_query_stats start clk c false s)
  | Err err =>
      let s := on_metrics record_upstream_failure (on_metrics (record_miss ReasonUpstreamError) s) in
      match cache_get c s with
      | (Some e, s) =>
          let r := stamped (response e) Frozen_ (took start clk) in
          (Ok r, on_coalescer (complete (query_hash c) (Ok r)) (with_latency start clk s))
      | (None, s) =>
          (Err (display_upstream_error err), on_coalescer (complete (query_hash c) (Err (display_upstream_error err))) s)
      end
  end.

Definition item_wait (received : option (result QueryResponse str)) (s : AppState U) : result QueryResponse str * AppState U :=
  match received with
  | Some (Ok r) => (Ok (timed start clk r), with_latency start clk s)
  | _ =>
      match cache_get c s with
      | (Some e, s) => (Ok (stamped (response e) Frozen_ (took start clk)), with_latency start clk s)
      | (None, s) => (Err (lit "Upstream request failed"), s)
      end
  end.
End Item.

(** An item's result as the reply of a request. *)
Definition item_reply (r : result QueryResponse str) : QueryResult :=
  match r with
  | Ok r => qr_ok (FreshResponse r)
  | Err _ => refused 0 None 502
  end.

(** ** Federated search *)

Record FederatedRequest := { fq_query : str; local_results : option (list SearchResult); fq_top_k : option Z }.
Record FederatedSearchResponse := {
  fsr_results : list SearchResult; fsr_status : CacheStatus; fsr_took_ms : Z; fsr_stats : FederatedStats; fsr_http : Z
}.
Definition FederatedStats_default : FederatedStats :=
  {| local_count := 0; remote_count := 0; merged_count := 0; duplicates_removed := 0; remote_queried := false;
     fallback_reason := None; local_latency_ms := 0; remote_latency_ms := None |}.

Definition decision_name (d : FallbackDecision) : str :=
  match d with
  | LocalSufficient => lit "local_sufficient"
  | EmptyLocal => lit "empty_local"
  | BelowMinResults => lit "below_min_results"
  | LowConfidence => lit "low_confidence"
  | AlwaysRemote => lit "always_remote"
  end.

Section Federated.
Context `{CacheEnv} `{StatsEnv} `{ContextEnv} {U : Type}.
Context (start : Z) (clk : Clock) (c : QueryCall) (fed : FederatedSearchConfig).

Definition fed_reply (rs : list SearchResult) (st : CacheStatus) (http : Z) : FederatedSearchResponse :=
  {| fsr_results := rs; fsr_status := st; fsr_took_ms := took start clk; fsr_stats := FederatedStats_default; fsr_http := http |}.

(** How the first piece ends: with a reply, with the remote results (or none) to merge,
    or asking the upstream. *)
Inductive FedPhase :=
| FDone (r : FederatedSearchResponse)
| FMerge (remote : option QueryResponse)
| FAsk.

Definition cache_get_text (s : AppState U) : option CacheEntry * AppState U :=
  let '(e, cache) := get (ctx_query c) (st_cache s) in (e, on_cache (fun _ => cache) s).

Definition fed_begin (local : list SearchResult) (has_remote : bool) (s : AppState U) : FedPhase * AppState U :=
  let '(allowed, s) := batch_enter clk c s in
  if negb allowed then (FDone (fed_reply [] Miss 403), s)
  else if negb (fs_enabled fed) then
    match cache_get_text s with
    | (Some e, s) =>
        (FDone (fed_reply (results (response e)) Hit 200),
         with_latency start clk (on_contexts (record_hit_for (qc_context c)) (on_metrics record_hit s)))
    | (None, s) => (FDone (fed_reply [] Miss 503), s)
    end
  else
    match should_query_remote fed local with
    | LocalSufficient => (FMerge None, s)
    | _ =>
        if negb has_remote then (FMerge None, s)
        else match cache_get_text s with
             | (Some e, s) => (FMerge (Some (response e)), s)
             | (None, s) => (FAsk, s)
             end
    end.

(** The upstream's answer goes into the cache as it is. *)
Definition fed_answer (answer : result QueryResponse UpstreamError) (s : AppState U) : option QueryResponse * AppState U :=
  match answer with
  | Ok r => (Some r, on_cache (insert_with_context clk (ctx_query c) r (st_upstream_id s) (qc_context c)) s)
  | Err _ => (None, on_metrics record_upstream_failure s)
  end.

Definition fed_finish (local : list SearchResult) (remote : option QueryResponse) (latency : option Z) (s : AppState U)
  : FederatedSearchResponse * AppState U :=
  let '(merged, st) := merge_responses fed
    {| results := local; cache_status := Hit; took_ms := 0; generated_at := None; miss_reason := None |} remote in
  ({| fsr_results := results merged; fsr_status := cache_status merged; fsr_took_ms := took start clk;
      fsr_stats := {| local_count := local_count st; remote_count := remote_count st; merged_count := merged_count st;
                      duplicates_removed := duplicates_removed st; remote_queried := remote_queried st;
                      fallback_reason := Some (decision_name (should_query_remote fed local));
                      local_latency_ms := 0; remote_latency_ms := latency |};
      fsr_http := 200 |}, with_latency start clk s).
End Federated.

(** ** What the pieces of an item keep *)

Section ItemSpecs.
Context `{E : CacheEnv} {L : CacheEnvLaws E} `{SE : StatsEnv} `{CE : ContextEnv} {U : Type} `{D : Dispatcher U}.
Implicit Types (s : AppState U) (c : QueryCall).

Definition item_phase c (ph : ItemPhase) : QueryPhase :=
  match ph with
  | IDone r => Respond (item_reply r)
  | ILead reason => Lead (query_hash c) reason
  | IWait rx k => Wait (query_hash c) rx k
  end.

Lemma kept_metrics s s' : st_cache s' = st_cache s -> (balanced (st_metrics s) -> balanced (st_metrics s')) -> kept s s'.
Proof. intros H1 H2. split; [by rewrite H1|done]. Qed.

Lemma item_miss_spec start clk c reason s ph s' :
  item_miss start clk c reason s = (ph, s') ->
  kept s s' /\ lossy (st_cache s) (st_cache s') /\ phase_spec c s (item_phase c ph) s'.
Proof.
  unfold item_miss. destruct (disp_present (st_upstreams s)).
  - destruct (get_or_insert (query_hash c) (coalescer s)) as [[|rx] co] eqn:Eg; intros [= <- <-];
      (split_and!; [apply kept_metrics; [done|]; simpl; auto with balance|apply lossy_refl|by simpl]).
  - destruct (cache_get c s) as [[e|] s1] eqn:Ec; destruct (cache_get_spec _ _ _ _ Ec) as (Hk & Hl & Hs & He);
      intros [= <- <-]; simpl in Hl; (split_and!; [|done|split; [by rewrite Hs|]]).
    + eapply kept_trans; [exact Hk|]. apply kept_metrics; [done|]. simpl. auto with balance.
    + left. split; [done|exact He].
    + done.
    + by right.
Qed.

Lemma item_begin_spec start clk c s ph s' :
  item_begin start clk c s = Ret (ph, s') ->
  kept s s' /\ lossy (st_cache s) (st_cache s') /\ phase_spec c s (item_phase c ph) s'.
Proof.
  unfold item_begin. destruct (check_freshness_by_hash _ _ _) as [fr|]; [|done]. simpl. intros [= Hr].
  assert (Hget : forall st, match cache_get c s with
            (Some e, s) => item_hit start clk c e st s | (None, s) => item_miss start clk c NotInCache s end = (ph, s') ->
            kept s s' /\ lossy (st_cache s) (st_cache s') /\ phase_spec c s (item_phase c ph) s').
  { intros st. destruct (cache_get c s) as [[e|] s1] eqn:Ec; destruct (cache_get_spec _ _ _ _ Ec) as (Hk & Hl & Hs & He).
    - intros [= <- <-]. simpl in Hl. split_and!; [|done|split; [by rewrite Hs|left; split; [done|exact He]]].
      eapply kept_trans; [exact Hk|]. apply kept_metrics; [done|]. simpl. auto with balance.
    - intros Hm. destruct (item_miss_spec _ _ _ _ _ _ _ Hm) as (H1 & H2 & H3).
      assert (coalescer s1 = coalescer s) as Hc by (by rewrite Hs).
      split_and!; [by eapply kept_trans|by eapply lossy_trans|]. unfold phase_spec in *. rewrite Hc in H3.
      destruct (item_phase c ph) as [r| |]; try done. destruct H3 as [Hco H3]. split; [done|].
      destruct H3 as [[Hst (e & Hee & Hrs)]|H3]; [left; split; [done|]|by right].
      destruct Hl as [Hsh _]. destruct (Hsh _ _ Hee) as (e0 & v & He0 & ->). by exists e0. }
  destruct fr as [[]|]; try (by eapply item_miss_spec); by eapply Hget.
Qed.

Lemma item_lead_ok start clk c f reason resp s r s' :
  item_lead start clk c f reason (Ok resp) s = (r, s') ->
  let rs := apply_scope_filter f (results resp) in
  kept s s' /\ qr_status (item_reply r) = 200 /\ reply_results (item_reply r) = rs /\ answer_stored clk c s rs s' /\
  exists v, coalescer s' = complete (query_hash c) (Ok v) (coalescer s) /\ results v = rs.
Proof.
  unfold item_lead. set (a := accepted f reason resp).
  destruct (response_validate a) as [[]|] eqn:Ev; simpl; intros [= <- <-].
  - split_and!; try done.
    + split; simpl; [intros N; apply inv_insert_by_hash|auto with balance].
    + intros N HN. right. exists a. rewrite Ev. split_and!; try done.
      by destruct (insert_by_hash_lossy N clk (query_hash c) a (st_upstream_id s) (Some (ctx_query c)) _ HN) as [Hs _].
    + by eexists.
  - split_and!; try done; [split; simpl; auto 6 with balance|by left|by eexists].
Qed.

Lemma item_lead_err start clk c f reason err s r s' :
  item_lead start clk c f reason (Err err) s = (r, s') ->
  kept s s' /\ lossy (st_cache s) (st_cache s') /\ cached_or_refused (st_cache s) (query_hash c) (item_reply r) /\
  exists v, coalescer s' = complete (query_hash c) v (coalescer s) /\
    forall q, v = Ok q -> stored (st_cache s) (query_hash c) (results q).
Proof.
  unfold item_lead. set (s0 := on_metrics _ _).
  destruct (cache_get c s0) as [[e|] s1] eqn:Ec; destruct (cache_get_spec _ _ _ _ Ec) as (Hk & Hl & Hs & He);
    intros [= <- <-]; (split_and!; [|done| |by rewrite Hs; eexists; split; [done|intros q [= <-]; exact He]]).
  - eapply kept_trans; [eapply kept_trans; [|exact Hk]|]; (apply kept_metrics; [done|]; simpl; auto with balance).
  - left. split; [done|exact He].
  - eapply kept_trans; [eapply kept_trans; [|exact Hk]|]; (apply kept_metrics; [done|]; simpl; auto with balance).
  - by right.
Qed.

Lemma item_wait_spec start clk c received s r s' :
  item_wait start clk c received s = (r, s') ->
  kept s s' /\ lossy (st_cache s) (st_cache s') /\ coalescer s' = coalescer s /\
  match received with
  | Some (Ok v) => qr_status (item_reply r) = 200 /\ reply_results (item_reply r) = results v
  | _ => cached_or_refused (st_cache s) (query_hash c) (item_reply r)
  end.
Proof.
  unfold item_wait.
  assert (Hno : match cache_get c s with
    | (Some e, s) => (Ok (stamped (response e) Frozen_ (took start clk)), with_latency start clk s)
    | (None, s) => (Err (lit "Upstream request failed"), s)
    end = (r, s') ->
    kept s s' /\ lossy (st_cache s) (st_cache s') /\ coalescer s' = coalescer s /\
    cached_or_refused (st_cache s) (query_hash c) (item_reply r)).
  { destruct (cache_get c s) as [[e|] s1] eqn:Ec; destruct (cache_get_spec _ _ _ _ Ec) as (Hk & Hl & Hs & He);
      intros [= <- <-]; (split_and!; [|done|by rewrite Hs|]).
    - eapply kept_trans; [exact Hk|]. apply kept_metrics; [done|]. simpl. auto with balance.
    - left. split; [done|exact He].
    - done.
    - by right. }
  destruct received as [[v|err]|]; [|exact Hno|exact Hno].
  intros [= <- <-]. split_and!; try done; [apply kept_metrics; [done|]; simpl; auto with balance|apply lossy_refl].
Qed.

(** Federated search caches an answer without filtering or validating it. *)
Lemma federated_stores_unchecked N clk c r s :
  inv N (st_cache s) -> per_upstream_limit (st_cache s) = None ->
  has_room N (new_entry clk r (st_upstream_id s) (Some (ctx_query c)) (qc_context c)) (st_cache s) ->
  response <$> entries (st_cache (snd (fed_answer clk c (Ok r) s))) !! query_hash c = Some r.
Proof.
  intros Hi Hp Hr. simpl. unfold insert_with_context.
  destruct (insert_impl_room N clk (ctx_query c) r (st_upstream_id s) (qc_context c) (st_cache s)) as (-> & _);
    [done..|by right|]. by rewrite lookup_insert_eq.
Qed.
End ItemSpecs.
