(* ===== verification/PipelineSys.v ===== *)
(** * Concurrent queries

    Any number of requests and batch items run through the pieces of [Pipeline] and
    [BatchServer] in any interleaving: they arrive, upstreams answer leaders, waiters
    receive what leaders send, background tasks end, entries are evicted, clients
    disconnect.  The history keeps
    what the upstreams answered ([answers]) and which hash a channel was created for
    ([owner]). *)

From Stdlib Require Import SpecFloat.
From S2P Require Import Prelude Floats Text Types Drift Cdc Cache CacheInv CacheReach CacheSpec CacheProps.
From S2P Require Import Circuit Scope Coalesce Retry ConnPool Upstream Pool Cascade Auth Adaptive.
From S2P Require Import Federated Metrics Context Refresh Batch Pipeline PipelineProps BatchServer.
Open Scope Z_scope.
Open Scope conproxy_scope.

Inductive JobState := JLead (reason : MissReason) | JWait (rx : ChanId) (since : nat) | JDone (r : QueryResult).
(** A query, or an item of a batch with the scope filter of its batch. *)
Inductive JobKind := KQuery | KBatch (f : ScopeFilter).
Record Job := { j_kind : JobKind; j_call : QueryCall; j_start : Z; j_state : JobState }.

(** An answer: the hash it was fetched for, the scope filter in force, its results. *)
Abbreviation Answer := (QueryHash * ScopeFilter * list SearchResult)%type (only parsing).

Record Sys (U : Type) := {
  app : AppState U;
  jobs : gmap Z Job;
  tasks : list BgTask;
  batches : gmap Z (str * ScopeFilter);
  owner : gmap Z QueryHash;
  answers : list Answer
}.
Arguments app {U} _.
Arguments jobs {U} _.
Arguments tasks {U} _.
Arguments batches {U} _.
Arguments owner {U} _.
Arguments answers {U} _.

Inductive SysEvent (U : Type) :=
| EArrive (n : Z) (b : option Z) (start : Z) (clk : Clock) (c : QueryCall)
| EAnswer (n : Z) (clk : Clock) (rr : RetryResult QueryResponse UpstreamError) (u : U)
| EReceive (n : Z) (clk : Clock)
| EBackground (k : nat) (clk : Clock) (answer : option (result QueryResponse UpstreamError))
| ECancel (n : Z)
| EMaintain (o : op)
| EBatch (b : Z) (clk : Clock) (c : QueryCall).
Arguments EArrive {U} _ _ _ _ _.
Arguments EAnswer {U} _ _ _ _.
Arguments EReceive {U} _ _.
Arguments EBackground {U} _ _ _.
Arguments ECancel {U} _.
Arguments EMaintain {U} _.
Arguments EBatch {U} _ _ _.

Section System.
Context `{E : CacheEnv} {L : CacheEnvLaws E} `{SE : StatsEnv} `{CE : ContextEnv} {U : Type} `{D : Dispatcher U}.

Definition job_at (k : JobKind) (c : QueryCall) (start : Z) (st : JobState) : Job :=
  {| j_kind := k; j_call := c; j_start := start; j_state := st |}.

(** The pieces of a job, by its kind. *)
Definition begin_job (k : JobKind) (start : Z) (clk : Clock) (c : QueryCall) (s : AppState U)
  : outcome (QueryPhase * option BgTask * AppState U) :=
  match k with
  | KQuery => query_begin start clk c s
  | KBatch _ => let! x := item_begin start clk c s in Ret (item_phase c x.1, None, x.2)
  end.
Definition finish_lead (k : JobKind) (start : Z) (clk : Clock) (c : QueryCall) (reason : MissReason)
    (rr : RetryResult QueryResponse UpstreamError) (s : AppState U) : outcome (QueryResult * AppState U) :=
  match k with
  | KQuery => lead_finish start clk c reason rr s
  | KBatch f => let '(r, s) := item_lead start clk c f reason (rr_result rr) s in Ret (item_reply r, s)
  end.
Definition finish_wait (k : JobKind) (start : Z) (clk : Clock) (c : QueryCall)
    (received : option (result QueryResponse str)) (s : AppState U) : QueryResult * AppState U :=
  match k with
  | KQuery => wait_finish start clk c received s
  | KBatch _ => let '(r, s) := item_wait start clk c received s in (item_reply r, s)
  end.
(** The scope filter a job applies to an answer. *)
Definition job_filter (k : JobKind) (c : QueryCall) (s : AppState U) : ScopeFilter :=
  match k with KQuery => scope_filter_for (qc_context c) s | KBatch f => f end.

Definition state_of (ph : QueryPhase) : JobState :=
  match ph with Respond r => JDone r | Lead _ reason => JLead reason | Wait _ rx k => JWait rx k end.

(** A query, or an item of a batch that has been admitted. *)
Definition kind_of (b : option Z) (c : QueryCall) (s : Sys U) : option JobKind :=
  match b with
  | None => Some KQuery
  | Some b => match batches s !! b with
              | Some (ctx, f) => if str_eqb (qc_context c) ctx then Some (KBatch f) else None
              | None => None
              end
  end.

(** [None]: the event is not possible, or the handler panics. *)
Definition sys_exec (e : SysEvent U) (s : Sys U) : option (Sys U) :=
  match e with
  | EArrive n b start clk c =>
      match jobs s !! n, kind_of b c s with
      | None, Some k =>
          match begin_job k start clk c (app s) with
          | Ret (ph, bg, a) =>
              Some {| app := a; jobs := <[n := job_at k c start (state_of ph)]> (jobs s);
                      tasks := tasks s ++ option_list bg; batches := batches s;
                      owner := match ph with
                               | Lead h _ => <[next_chan (coalescer (app s)) := h]> (owner s)
                               | _ => owner s
                               end;
                      answers := answers s |}
          | Panic => None
          end
      | _, _ => None
      end
  | EAnswer n clk rr u =>
      match jobs s !! n with
      | Some j =>
          match j_state j with
          | JLead reason =>
              let a := on_upstreams (fun _ => u) (app s) in
              match finish_lead (j_kind j) (j_start j) clk (j_call j) reason rr a with
              | Ret (r, a') =>
                  Some {| app := a'; jobs := <[n := job_at (j_kind j) (j_call j) (j_start j) (JDone r)]> (jobs s);
                          tasks := tasks s; batches := batches s; owner := owner s;
                          answers := match rr_result rr with
                                     | Ok q => (query_hash (j_call j), job_filter (j_kind j) (j_call j) (app s), results q) :: answers s
                                     | Err _ => answers s
                                     end |}
              | Panic => None
              end
          | _ => None
          end
      | None => None
      end
  | EReceive n clk =>
      match jobs s !! n with
      | Some j =>
          match j_state j with
          | JWait rx k =>
              match receives rx k (coalescer (app s)) with
              | Some v =>
                  let '(r, a) := finish_wait (j_kind j) (j_start j) clk (j_call j) (Some v) (app s) in
                  Some {| app := a; jobs := <[n := job_at (j_kind j) (j_call j) (j_start j) (JDone r)]> (jobs s);
                          tasks := tasks s; batches := batches s; owner := owner s; answers := answers s |}
              | None => None
              end
          | _ => None
          end
      | None => None
      end
  | EBackground k clk answer =>
      match tasks s !! k with
      | Some t =>
          Some {| app := background_refresh clk answer t (app s); jobs := jobs s; tasks := delete k (tasks s); batches := batches s;
                  owner := owner s;
                  answers := match answer with
                             | Some (Ok q) => (hash_query (context_query (bg_context t) (bg_query t)), bg_scope t,
                                               results q) :: answers s
                             | _ => answers s
                             end |}
      | None => None
      end
  | ECancel n =>
      match jobs s !! n with
      | Some j =>
          match j_state j with
          | JDone _ => None
          | _ => Some {| app := app s; jobs := delete n (jobs s); tasks := tasks s; batches := batches s; owner := owner s;
                         answers := answers s |}
          end
      | None => None
      end
  | EMaintain o =>
      if op_lossy o then
        match apply_op o (st_cache (app s)) with
        | Ret cache => Some {| app := on_cache (fun _ => cache) (app s); jobs := jobs s; tasks := tasks s; batches := batches s;
                               owner := owner s; answers := answers s |}
        | Panic => None
        end
      else None
  | EBatch b clk c =>
      match batches s !! b with
      | None =>
          let '(ok, a) := batch_enter clk c (app s) in
          Some {| app := a; jobs := jobs s; tasks := tasks s;
                  batches := if ok then <[b := (qc_context c, scope_filter_for (qc_context c) a)]> (batches s) else batches s;
                  owner := owner s; answers := answers s |}
      | Some _ => None
      end
  end.

Fixpoint sys_run (es : list (SysEvent U)) (s : Sys U) : option (Sys U) :=
  match es with
  | [] => Some s
  | e :: es => match sys_exec e s with Some s => sys_run es s | None => None end
  end.

(** A server that has not served anything yet. *)
Record fresh_app (N : Z) (a : AppState U) : Prop := {
  fa_cache : inv N (st_cache a);
  fa_empty : entries (st_cache a) = ∅;
  fa_coalescer : coalescer a = RequestCoalescer_new;
  fa_metrics : balanced (st_metrics a)
}.
Definition Sys_init (a : AppState U) : Sys U :=
  {| app := a; jobs := ∅; tasks := []; batches := ∅; owner := ∅; answers := [] |}.

(** ** Provenance *)

(** Results that the upstreams answered for a hash, filtered by scope. *)
Definition fetched (log : list Answer) (h : QueryHash) (rs : list SearchResult) : Prop :=
  exists f raw, (h, f, raw) ∈ log /\ rs = apply_scope_filter f raw.
Definition honest (log : list Answer) (h : QueryHash) (r : QueryResult) : Prop :=
  (qr_status r = 200 /\ fetched log h (reply_results r)) \/ (qr_status r <> 200 /\ reply_results r = []).

Lemma fetched_mono log x h rs : fetched log h rs -> fetched (x :: log) h rs.
Proof. intros (f & raw & Hin & ->). exists f, raw. set_solver. Qed.
Lemma honest_mono log x h r : honest log h r -> honest (x :: log) h r.
Proof. intros [[H1 H2]|H1]; [left; split; [done|by apply fetched_mono]|by right]. Qed.

Record sys_inv (N : Z) (s : Sys U) : Prop := {
  si_cache : inv N (st_cache (app s));
  si_balanced : balanced (st_metrics (app s));
  si_entries : forall h e, entries (st_cache (app s)) !! h = Some e ->
    fetched (answers s) h (results (response e)) /\ is_ok (response_validate (response e)) = true;
  si_owner : forall tx h, owner s !! tx = Some h -> tx < next_chan (coalescer (app s));
  si_flight : forall h tx, in_flight (coalescer (app s)) !! h = Some tx -> owner s !! tx = Some h;
  si_sent : forall tx v, (tx, Ok v) ∈ sends (coalescer (app s)) ->
    exists h, owner s !! tx = Some h /\ fetched (answers s) h (results v);
  si_wait : forall n j rx k, jobs s !! n = Some j -> j_state j = JWait rx k ->
    owner s !! rx = Some (query_hash (j_call j));
  si_done : forall n j r, jobs s !! n = Some j -> j_state j = JDone r ->
    honest (answers s) (query_hash (j_call j)) r;
  si_lead : forall n j reason, jobs s !! n = Some j -> j_state j = JLead reason ->
    is_Some (in_flight (coalescer (app s)) !! query_hash (j_call j));
  si_single : forall n j reason n' j' reason', jobs s !! n = Some j -> j_state j = JLead reason ->
    jobs s !! n' = Some j' -> j_state j' = JLead reason' -> query_hash (j_call j) = query_hash (j_call j') -> n = n';
  si_old : forall tx v, (tx, v) ∈ sends (coalescer (app s)) -> tx < next_chan (coalescer (app s));
  si_unsent : forall h tx v, in_flight (coalescer (app s)) !! h = Some tx -> (tx, v) ∉ sends (coalescer (app s))
}.

Lemma sys_inv_init N a : fresh_app N a -> sys_inv N (Sys_init a).
Proof.
  intros [H1 H2 H3 H4]. split; simpl; try done; try (by intros *; rewrite lookup_empty).
  - intros h e. by rewrite H2, lookup_empty.
  - intros h tx. rewrite H3. simpl. by rewrite lookup_empty.
  - intros tx v. rewrite H3. simpl. set_solver.
  - intros tx v. rewrite H3. simpl. set_solver.
  - intros h tx v. rewrite H3. simpl. set_solver.
Qed.

Definition entries_ok (log : list Answer) (cache : CacheStore) : Prop :=
  forall h e, entries cache !! h = Some e ->
    fetched log h (results (response e)) /\ is_ok (response_validate (response e)) = true.

Lemma entries_ok_shrinks log m cache :
  (forall h e, m !! h = Some e ->
     fetched log h (results (response e)) /\ is_ok (response_validate (response e)) = true) ->
  shrinks m (entries cache) -> entries_ok log cache.
Proof. intros Hm Hs h e He. destruct (Hs _ _ He) as (e0 & v & He0 & ->). exact (Hm _ _ He0). Qed.

Lemma entries_ok_lossy log cache cache' : lossy cache cache' -> entries_ok log cache -> entries_ok log cache'.
Proof. intros [Hs _] Ho. by eapply entries_ok_shrinks. Qed.

(** A new entry with an answer of the log. *)
Lemma entries_ok_insert log x cache cache' h e :
  entries_ok log cache -> shrinks (<[h := e]> (entries cache)) (entries cache') ->
  fetched (x :: log) h (results (response e)) -> is_ok (response_validate (response e)) = true ->
  entries_ok (x :: log) cache'.
Proof.
  intros Ho Hs Hf Hv. eapply entries_ok_shrinks; [|exact Hs].
  intros h' e' [[<- <-]|[_ He]]%lookup_insert_Some; [done|].
  destruct (Ho _ _ He). split; [by apply fetched_mono|done].
Qed.

Lemma honest_cached log cache h r : entries_ok log cache -> cached_or_refused cache h r -> honest log h r.
Proof.
  intros Ho [[H1 (e & He & Hr)]|H1]; [left; split; [done|]|by right]. rewrite Hr. by apply (Ho h e).
Qed.

Lemma complete_spec {R} (h : QueryHash) (v : R) co :
  in_flight (complete h v co) = delete h (in_flight co) /\ next_chan (complete h v co) = next_chan co /\
  sends (complete h v co) = sends co ++ match in_flight co !! h with Some tx => [(tx, v)] | None => [] end.
Proof.
  unfold complete, take_sender. destruct (in_flight co !! h) eqn:E0; simpl; [done|].
  split_and!; try done. by rewrite app_nil_r.
Qed.

Lemma receives_sent {R} tx k (co : @RequestCoalescer R) v : receives tx k co = Some v -> (tx, v) ∈ sends co.
Proof.
  unfold receives. destruct (List.find _ _) as [[tx' v']|] eqn:Ef; [|done]. simpl. intros [= ->].
  apply find_some in Ef as [Hin Htx]. simpl in Htx. apply Z.eqb_eq in Htx as ->.
  apply list_elem_of_In in Hin. rewrite <- (take_drop k (sends co)). set_solver.
Qed.

(** ** The pieces of a job *)

Lemma begin_job_spec k start clk c (s : AppState U) ph bg s' :
  begin_job k start clk c s = Ret (ph, bg, s') ->
  kept s s' /\ lossy (st_cache s) (st_cache s') /\ phase_spec c s ph s'.
Proof.
  destruct k; simpl.
  - intros Hq. by destruct (query_begin_spec _ _ _ _ _ _ _ Hq) as (? & ? & ? & _).
  - destruct (item_begin start clk c s) as [[ph0 s0]|] eqn:Ei; [|done]. simpl. intros [= <- _ <-].
    by eapply item_begin_spec.
Qed.

Lemma finish_lead_spec k start clk c reason rr (s : AppState U) r s' :
  finish_lead k start clk c reason rr s = Ret (r, s') ->
  kept s s' /\
  match rr_result rr with
  | Ok q =>
      let rs := apply_scope_filter (job_filter k c s) (results q) in
      qr_status r = 200 /\ reply_results r = rs /\ answer_stored clk c s rs s' /\
      exists v, coalescer s' = complete (query_hash c) (Ok v) (coalescer s) /\ results v = rs
  | Err _ =>
      lossy (st_cache s) (st_cache s') /\ cached_or_refused (st_cache s) (query_hash c) r /\
      exists v, coalescer s' = complete (query_hash c) v (coalescer s) /\
        forall q, v = Ok q -> stored (st_cache s) (query_hash c) (results q)
  end.
Proof.
  destruct k as [|f]; simpl.
  - unfold lead_finish. destruct (if rr_is_success rr then _ else _) as [ad|]; [|done]. simpl.
    set (a0 := if retried rr then _ else _).
    assert (Ha0 : st_cache a0 = st_cache s /\ coalescer a0 = coalescer s /\ kept s a0 /\ st_upstream_id a0 = st_upstream_id s /\
                  scope_filter_for (qc_context c) a0 = scope_filter_for (qc_context c) s).
    { unfold a0. destruct (retried rr); simpl; split_and!; try done; apply kept_metrics; simpl; auto with balance. }
    destruct Ha0 as (Hc0 & Hco0 & Hk0 & Hu0 & Hf0). destruct (rr_result rr) as [q|err]; intros [= El].
    + destruct (lead_ok_spec _ _ _ _ _ _ _ _ El) as (K & _ & Hst & Hrs & Hans & v & Hco & Hv).
      unfold answer_stored in *. rewrite Hf0, ?Hc0, ?Hco0, ?Hu0 in *.
      split_and!; [by eapply kept_trans|done..|by exists v].
    + destruct (lead_err_spec _ _ _ _ _ _ _ El) as (K & _ & Lo & Hcr & v & Hco & Hv).
      rewrite Hc0, Hco0 in *. split_and!; [by eapply kept_trans|done..|by exists v].
  - destruct (item_lead start clk c f reason (rr_result rr) s) as [r0 s0] eqn:El. intros [= <- <-].
    destruct (rr_result rr) as [q|err]; [by apply item_lead_ok in El|by apply item_lead_err in El].
Qed.

Lemma finish_wait_spec k start clk c received (s : AppState U) r s' :
  finish_wait k start clk c received s = (r, s') ->
  kept s s' /\ lossy (st_cache s) (st_cache s') /\ coalescer s' = coalescer s /\
  match received with
  | Some (Ok v) => qr_status r = 200 /\ reply_results r = results v
  | _ => cached_or_refused (st_cache s) (query_hash c) r
  end.
Proof.
  destruct k; simpl.
  - intros Hw. by destruct (wait_finish_spec _ _ _ _ _ _ _ Hw) as (? & _ & ? & ? & ?).
  - destruct (item_wait start clk c received s) as [r0 s0] eqn:Ew. intros [= <- <-]. by apply item_wait_spec in Ew.
Qed.

Lemma arrive_inv N n b start clk c s s' :
  sys_inv N s -> sys_exec (EArrive n b start clk c) s = Some s' -> sys_inv N s'.
Proof.
  intros [I1 I2 I3 I4 I5 I6 I7 I8 I9 I10 I11 I12]. simpl. destruct (jobs s !! n) eqn:Ej; [done|].
  destruct (kind_of b c s) as [kd|]; [|done].
  destruct (begin_job kd start clk c (app s)) as [[[ph bg] a]|] eqn:Eq; [|done]. intros [= <-].
  destruct (begin_job_spec _ _ _ _ _ _ _ _ Eq) as ([K1 K2] & Lo & P).
  assert (Hn : forall k j', jobs s !! k = Some j' -> k <> n) by (intros k j' Hk ->; congruence).
  assert (Hnew : forall k j', <[n := job_at kd c start (state_of ph)]> (jobs s) !! k = Some j' ->
            (k = n /\ j' = job_at kd c start (state_of ph)) \/ jobs s !! k = Some j').
  { intros k j' [[<- <-]|[? ?]]%lookup_insert_Some; auto. }
  destruct ph as [r|h reason|h rx k]; simpl in *.
  - destruct P as [Hco Hr]. split; simpl; rewrite ?Hco; auto.
    + by eapply entries_ok_lossy.
    + intros k j' rx kk [[-> ->]|Hk]%Hnew; [done|by eapply I7].
    + intros k j' r' [[-> ->]|Hk]%Hnew; [intros [= <-]; by eapply honest_cached|by eapply I8].
    + intros k j' reason [[-> ->]|Hk]%Hnew; [done|by eapply I9].
    + intros k j' r1 k' j'' r2 [[-> ->]|Hk]%Hnew H1 [[-> ->]|Hk']%Hnew H2; try done. by eapply I10.
  - destruct P as [-> Hco]. unfold get_or_insert in Hco.
    destruct (in_flight (coalescer (app s)) !! query_hash c) eqn:Ef; [done|]. injection Hco as Hco.
    split; simpl; rewrite <- ?Hco; simpl; auto.
    + by eapply entries_ok_lossy.
    + intros tx h [[<- _]|[_ Ho]]%lookup_insert_Some; [lia|]. apply I4 in Ho. lia.
    + intros h tx [[<- <-]|[_ Hf]]%lookup_insert_Some; [by rewrite lookup_insert_eq|].
      rewrite lookup_insert_ne; [by apply I5|]. intros <-. apply I5, I4 in Hf. lia.
    + intros tx v Hv. destruct (I6 _ _ Hv) as (h & Ho & Hp). exists h. split; [|done].
      rewrite lookup_insert_ne; [done|]. intros <-. apply I4 in Ho. lia.
    + intros k j' rx kk [[-> ->]|Hk]%Hnew Hj; [done|]. specialize (I7 _ _ _ _ Hk Hj).
      rewrite lookup_insert_ne; [done|]. intros <-. apply I4 in I7. lia.
    + intros k j' r' [[-> ->]|Hk]%Hnew; [done|by eapply I8].
    + intros k j' reason' [[-> ->]|Hk]%Hnew Hj; [rewrite lookup_insert_eq; by eexists|].
      apply lookup_insert_is_Some'. right. by eapply I9.
    + assert (Hno : forall k j' r, jobs s !! k = Some j' -> j_state j' = JLead r -> query_hash (j_call j') <> query_hash c).
      { intros k j' r Hk Hj Heq. specialize (I9 _ _ _ Hk Hj). rewrite Heq, Ef in I9. by destruct I9. }
      intros k j' r1 k' j'' r2 [[-> ->]|Hk]%Hnew H1 [[-> ->]|Hk']%Hnew H2 Heq; simpl in *; try done.
      * symmetry in Heq. by apply (Hno k' j'' r2) in Heq.
      * by apply (Hno k j' r1) in Heq.
      * by eapply I10.
    + intros tx v Hv. apply I11 in Hv. lia.
    + intros h tx v [[<- <-]|[_ Hf]]%lookup_insert_Some Hv; [apply I11 in Hv; lia|by eapply I12].
  - destruct P as (-> & Hco & ->). unfold get_or_insert in Hco.
    destruct (in_flight (coalescer (app s)) !! query_hash c) eqn:Ef; [|done]. injection Hco as -> Hco.
    rewrite <- Hco in Hnew. split; simpl; rewrite <- ?Hco; simpl; auto.
    + by eapply entries_ok_lossy.
    + intros k j' rx' kk [[-> ->]|Hk]%Hnew Hj; [injection Hj as -> _; by apply I5|by eapply I7].
    + intros k j' r' [[-> ->]|Hk]%Hnew; [done|by eapply I8].
    + intros k j' reason' [[-> ->]|Hk]%Hnew; [done|by eapply I9].
    + intros k j' r1 k' j'' r2 [[-> ->]|Hk]%Hnew H1 [[-> ->]|Hk']%Hnew H2; try done. by eapply I10.
Qed.

(** A job [n] is replaced by one that is done. *)
Section Finish.
Context (N : Z) (s : Sys U) (n : Z) (j : Job) (r : QueryResult) (a : AppState U) (log : list Answer).
Hypothesis Hinv : sys_inv N s.
Hypothesis Hj : jobs s !! n = Some j.
Hypothesis Hcache : inv N (st_cache a).
Hypothesis Hbal : balanced (st_metrics a).
Hypothesis Hent : entries_ok log (st_cache a).
Hypothesis Hlog : forall h rs, fetched (answers s) h rs -> fetched log h rs.
Hypothesis Hr : honest log (query_hash (j_call j)) r.
Hypothesis Hnext : next_chan (coalescer a) = next_chan (coalescer (app s)).
Hypothesis Hflight : in_flight (coalescer a) ⊆ in_flight (coalescer (app s)).
Hypothesis Hsent : forall tx v, (tx, Ok v) ∈ sends (coalescer a) ->
  exists h, owner s !! tx = Some h /\ fetched log h (results v).
Hypothesis Hlead : forall n' j' reason, n' <> n -> jobs s !! n' = Some j' -> j_state j' = JLead reason ->
  is_Some (in_flight (coalescer a) !! query_hash (j_call j')).
Hypothesis Hold : forall tx v, (tx, v) ∈ sends (coalescer a) -> tx < next_chan (coalescer (app s)).
Hypothesis Hunsent : forall h tx v, in_flight (coalescer a) !! h = Some tx -> (tx, v) ∉ sends (coalescer a).

Lemma finish_inv :
  sys_inv N {| app := a; jobs := <[n := job_at (j_kind j) (j_call j) (j_start j) (JDone r)]> (jobs s); tasks := tasks s; batches := batches s;
               owner := owner s; answers := log |}.
Proof.
  destruct Hinv as [I1 I2 I3 I4 I5 I6 I7 I8 I9 I10 I11 I12].
  assert (Hnew : forall k j', <[n := job_at (j_kind j) (j_call j) (j_start j) (JDone r)]> (jobs s) !! k = Some j' ->
            (k = n /\ j' = job_at (j_kind j) (j_call j) (j_start j) (JDone r)) \/ (k <> n /\ jobs s !! k = Some j')).
  { intros k j' [[<- <-]|[? ?]]%lookup_insert_Some; auto. }
  split; simpl; auto.
  - intros tx h Ho. rewrite Hnext. eauto.
  - intros h tx Hf. apply I5. by eapply lookup_weaken.
  - intros k j' rx kk [[-> ->]|[_ Hk]]%Hnew; [done|by eapply I7].
  - intros k j' r' [[-> ->]|[_ Hk]]%Hnew Hs; [by injection Hs as <-|].
    destruct (I8 _ _ _ Hk Hs) as [[H1 H2]|H1]; [left; auto|by right].
  - intros k j' reason [[-> ->]|[? Hk]]%Hnew; [done|by eapply Hlead].
  - intros k j' r1 k' j'' r2 [[-> ->]|[_ Hk]]%Hnew H1 [[-> ->]|[_ Hk']]%Hnew H2; try done. by eapply I10.
  - intros tx v. rewrite Hnext. apply Hold.
Qed.
End Finish.

Lemma answer_inv N n clk rr u s s' :
  sys_inv N s -> sys_exec (EAnswer n clk rr u) s = Some s' -> sys_inv N s'.
Proof.
  intros Hi. pose proof Hi as [I1 I2 I3 I4 I5 I6 I7 I8 I9 I10 I11 I12]. simpl.
  destruct (jobs s !! n) as [j|] eqn:Ej; [|done]. destruct (j_state j) as [reason| |] eqn:Es; try done.
  destruct (finish_lead _ _ _ _ _ _ _) as [[r a]|] eqn:El; [|done]. intros [= <-].
  destruct (finish_lead_spec _ _ _ _ _ _ _ _ _ El) as ([K1 K2] & Hl). simpl in K1, K2.
  assert (Hlead : forall n' j' reason', n' <> n -> jobs s !! n' = Some j' -> j_state j' = JLead reason' ->
            is_Some (delete (query_hash (j_call j)) (in_flight (coalescer (app s))) !! query_hash (j_call j'))).
  { intros n' j' reason' Hne Hj' Hs'. rewrite lookup_delete_ne; [by eapply I9|].
    intros Heq. apply Hne. by eapply I10. }
  assert (Hsent : forall log v tx w, (forall h rs, fetched (answers s) h rs -> fetched log h rs) ->
     (forall q, v = Ok q -> fetched log (query_hash (j_call j)) (results q)) ->
     (tx, Ok w) ∈ sends (complete (query_hash (j_call j)) v (coalescer (app s))) ->
     exists h, owner s !! tx = Some h /\ fetched log h (results w)).
  { intros log v tx w Hm Hv. destruct (complete_spec (query_hash (j_call j)) v (coalescer (app s))) as (_ & _ & ->).
    intros [Hin|Hin]%elem_of_app; [destruct (I6 _ _ Hin) as (h & ? & ?); eauto|].
    destruct (in_flight _ !! _) eqn:Ef; [|set_solver]. apply list_elem_of_singleton in Hin as [= -> <-].
    exists (query_hash (j_call j)). eauto. }
  assert (Hold : forall v tx w, (tx, w) ∈ sends (complete (query_hash (j_call j)) v (coalescer (app s))) ->
            tx < next_chan (coalescer (app s))).
  { intros v tx w. destruct (complete_spec (query_hash (j_call j)) v (coalescer (app s))) as (_ & _ & ->).
    intros [Hin|Hin]%elem_of_app; [by eapply I11|]. destruct (in_flight _ !! _) eqn:Ef; [|set_solver].
    apply list_elem_of_singleton in Hin as [= -> _]. by eapply I4, I5. }
  assert (Hunsent : forall v h tx w, delete (query_hash (j_call j)) (in_flight (coalescer (app s))) !! h = Some tx ->
            (tx, w) ∉ sends (complete (query_hash (j_call j)) v (coalescer (app s)))).
  { intros v h tx w [Hne Hf]%lookup_delete_Some.
    destruct (complete_spec (query_hash (j_call j)) v (coalescer (app s))) as (_ & _ & ->).
    intros [Hin|Hin]%elem_of_app; [by eapply I12|]. destruct (in_flight _ !! _) eqn:Ef in Hin; [|set_solver].
    apply list_elem_of_singleton in Hin as [= -> _]. apply I5 in Hf, Ef. congruence. }
  destruct (rr_result rr) as [q|err].
  - destruct Hl as (Hst & Hrs & Hans & v & Hco & Hv). simpl in Hans, Hco.
    set (x := (query_hash (j_call j), job_filter (j_kind j) (j_call j) (app s), results q)).
    assert (Hx : fetched (x :: answers s) (query_hash (j_call j))
                   (apply_scope_filter (job_filter (j_kind j) (j_call j) (app s)) (results q)))
      by (eexists _, _; split; [|done]; set_solver).
    destruct (complete_spec (query_hash (j_call j)) (Ok v) (coalescer (app s))) as (Hf & Hnx & _).
    apply finish_inv; rewrite ?Hco, ?Hnx, ?Hf; auto; try (by intros; eapply Hold); try (by intros; eapply Hunsent).
    + destruct (Hans N) as [He|(r' & Hr' & Hok & Hsh)]; [done|..].
      * intros h e. rewrite He. intros Hhe. destruct (I3 _ _ Hhe). split; [by apply fetched_mono|done].
      * eapply entries_ok_insert; [exact I3|exact Hsh|simpl; rewrite Hr'; exact Hx|done].
    + intros. by apply fetched_mono.
    + left. split; [done|]. rewrite Hrs. exact Hx.
    + apply delete_subseteq.
    + intros tx w. apply Hsent; [intros; by apply fetched_mono|]. intros q' [= <-]. rewrite Hv. exact Hx.
  - destruct Hl as (Lo & Hcr & v & Hco & Hv). simpl in Lo, Hcr, Hco, Hv.
    destruct (complete_spec (query_hash (j_call j)) v (coalescer (app s))) as (Hf & Hnx & _).
    apply finish_inv; rewrite ?Hco, ?Hnx, ?Hf; auto; try (by intros; eapply Hold); try (by intros; eapply Hunsent).
    + by eapply entries_ok_lossy.
    + by eapply honest_cached.
    + apply delete_subseteq.
    + intros tx w. apply Hsent; [auto|]. intros q' Hq'. destruct (Hv _ Hq') as (e & He & ->). by apply (I3 _ e).
Qed.

Lemma receive_inv N n clk s s' :
  sys_inv N s -> sys_exec (EReceive n clk) s = Some s' -> sys_inv N s'.
Proof.
  intros Hi. pose proof Hi as [I1 I2 I3 I4 I5 I6 I7 I8 I9 I10 I11 I12]. cbn [sys_exec].
  destruct (jobs s !! n) as [j|] eqn:Ej; [|done]. destruct (j_state j) as [|rx k|] eqn:Es; try done.
  destruct (receives rx k (coalescer (app s))) as [v|] eqn:Er; [|done].
  destruct (finish_wait (j_kind j) (j_start j) clk (j_call j) (Some v) (app s)) as [r a] eqn:Ew. intros [= <-].
  destruct (finish_wait_spec _ _ _ _ _ _ _ _ Ew) as ([K1 K2] & Lo & Hco & Hv).
  apply finish_inv; rewrite ?Hco; auto.
  - by eapply entries_ok_lossy.
  - destruct v as [v|err]; [|by eapply honest_cached]. destruct Hv as [H1 H2]. left. split; [done|].
    rewrite H2. apply receives_sent in Er. destruct (I6 _ _ Er) as (h & Ho & Hp).
    rewrite (I7 _ _ _ _ Ej Es) in Ho. by injection Ho as ->.
  - intros n' j' reason _. apply I9.
Qed.

Lemma batch_enter_same clk c (a0 : AppState U) ok a : batch_enter clk c a0 = (ok, a) ->
  st_cache a = st_cache a0 /\ st_metrics a = st_metrics a0 /\ coalescer a = coalescer a0.
Proof. unfold batch_enter, ensure_context. destruct (ctx_get _ _); by intros [= _ <-]. Qed.

(** The jobs and the coalescer stay; the cache and the log move on. *)
Lemma cache_step_inv N s a log ts bs :
  sys_inv N s -> inv N (st_cache a) -> balanced (st_metrics a) -> entries_ok log (st_cache a) ->
  coalescer a = coalescer (app s) -> (forall h rs, fetched (answers s) h rs -> fetched log h rs) ->
  sys_inv N {| app := a; jobs := jobs s; tasks := ts; batches := bs; owner := owner s; answers := log |}.
Proof.
  intros [I1 I2 I3 I4 I5 I6 I7 I8 I9 I10 I11 I12] H1 H2 H3 Hco Hm. split; simpl; rewrite ?Hco; auto.
  - intros tx v Hv. destruct (I6 _ _ Hv) as (h & ? & ?). eauto.
  - intros n j r Hj Hs. destruct (I8 _ _ _ Hj Hs) as [[? ?]|?]; [left; auto|by right].
Qed.

Lemma sys_exec_inv N e s s' : sys_inv N s -> sys_exec e s = Some s' -> sys_inv N s'.
Proof.
  intros Hi. destruct e as [n b start clk c|n clk rr u|n clk|k clk ans|n|o|b clk c];
    [by apply arrive_inv|by apply answer_inv|by apply receive_inv|..]; simpl.
  - destruct (tasks s !! k) as [t|]; [|done]. intros [= <-].
    destruct (background_refresh_spec clk ans t (app s) _ eq_refl) as ([K1 K2] & _ & Hco & Hans).
    apply cache_step_inv; auto; [apply K1, Hi|apply K2, Hi| |].
    + destruct (Hans N) as [He|(q & r & -> & Hr & Hok & Hsh)]; [apply Hi|..].
      * intros h e. rewrite He. intros Hhe. destruct (si_entries _ _ Hi _ _ Hhe).
        destruct ans as [[q|]|]; (split; [|done]); try done. by apply fetched_mono.
      * eapply entries_ok_insert; [exact (si_entries _ _ Hi)|exact Hsh| |done]. simpl. rewrite Hr.
        eexists _, _. split; [|done]. set_solver.
    + intros h rs Hf. destruct ans as [[q|]|]; try done. by apply fetched_mono.
  - destruct (jobs s !! n) as [j|] eqn:Ej; [|done].
    assert (Hdel : sys_inv N {| app := app s; jobs := delete n (jobs s); tasks := tasks s; batches := batches s; owner := owner s; answers := answers s |}).
    { destruct Hi as [I1 I2 I3 I4 I5 I6 I7 I8 I9 I10 I11 I12]. split; simpl; auto.
      - intros k j' rx kk [_ Hk]%lookup_delete_Some. by eapply I7.
      - intros k j' r [_ Hk]%lookup_delete_Some. by eapply I8.
      - intros k j' r [_ Hk]%lookup_delete_Some. by eapply I9.
      - intros k j' r1 k' j'' r2 [_ Hk]%lookup_delete_Some H1 [_ Hk']%lookup_delete_Some H2. by eapply I10. }
    destruct (j_state j); try done; by intros [= <-].
  - destruct (op_lossy o) eqn:Eo; [|done]. destruct (apply_op o (st_cache (app s))) as [cache|] eqn:Ea; [|done].
    intros [= <-]. apply cache_step_inv; auto.
    + simpl. eapply inv_apply_op; [apply Hi|exact Ea].
    + apply Hi.
    + simpl. eapply entries_ok_lossy; [eapply op_lossy_spec; [apply Hi|exact Eo|exact Ea]|exact (si_entries _ _ Hi)].
  - destruct (batches s !! b); [done|]. destruct (batch_enter clk c (app s)) as [ok a] eqn:Ee. intros [= <-].
    destruct (batch_enter_same clk c (app s) ok a Ee) as (H1 & H2 & H3). injection Ee as _ Ea. rewrite Ea in *.
    apply cache_step_inv; [done|rewrite H1; apply Hi|rewrite H2; apply Hi| |done|done].
    intros h e. rewrite H1. apply Hi.
Qed.

Lemma sys_run_inv N es : forall s s', sys_inv N s -> sys_run es s = Some s' -> sys_inv N s'.
Proof.
  induction es as [|e es IH]; intros s s' Hi; simpl; [by intros [= <-]|].
  destruct (sys_exec e s) eqn:Ee; [|done]. apply IH. by eapply sys_exec_inv.
Qed.

(** ** Claims *)

(** C1: whatever the interleaving of queries, batch items, upstream answers,
    background refreshes of stale hits, evictions and disconnects, a request is
    answered with status 200 only with results that an upstream answered for its own
    cache key, filtered by the scope in force for it, and otherwise without results;
    and the cache holds only such answers, all of them valid.  (The periodic refresh
    worker, federated search and peers, which store unfiltered answers, are not part
    of this system.) *)
Theorem served_provenance N a es s :
  fresh_app N a -> sys_run es (Sys_init a) = Some s ->
  (forall n j r, jobs s !! n = Some j -> j_state j = JDone r -> honest (answers s) (query_hash (j_call j)) r) /\
  (forall h e, entries (st_cache (app s)) !! h = Some e ->
     fetched (answers s) h (results (response e)) /\ is_ok (response_validate (response e)) = true).
Proof.
  intros Hf Hr. destruct (sys_run_inv N es _ _ (sys_inv_init N a Hf) Hr) as [_ _ I3 _ _ _ _ I8 _ _ _ _]. eauto.
Qed.

(** C3: in every interleaving of queries and batch items at most one at a time asks
    the upstreams for a cache key, the cache stays within its capacity, and the
    counters balance: the requests counted are the hits, the misses, the stale and the
    frozen responses, and the misses are those of the four reasons. *)
Theorem pipeline_accounts N a es s :
  fresh_app N a -> sys_run es (Sys_init a) = Some s ->
  (forall n j reason n' j' reason', jobs s !! n = Some j -> j_state j = JLead reason ->
     jobs s !! n' = Some j' -> j_state j' = JLead reason' -> query_hash (j_call j) = query_hash (j_call j') -> n = n') /\
  Z.of_nat (size (entries (st_cache (app s)))) <= N /\
  balanced (st_metrics (app s)).
Proof.
  intros Hf Hr. destruct (sys_run_inv N es _ _ (sys_inv_init N a Hf) Hr) as [I1 I2 _ _ _ _ _ _ _ I10 _ _].
  split_and!; [done|by eapply inv_size|done].
Qed.

(** *** A leader that disconnects *)

Record blocked (h : QueryHash) (tx : Z) (s : Sys U) : Prop := {
  bl_inv : exists N, sys_inv N s;
  bl_flight : in_flight (coalescer (app s)) !! h = Some tx;
  bl_nolead : forall n j reason, jobs s !! n = Some j -> j_state j = JLead reason -> query_hash (j_call j) <> h
}.

Lemma blocked_flight h tx e s s' :
  blocked h tx s -> sys_exec e s = Some s' -> in_flight (coalescer (app s')) !! h = Some tx.
Proof.
  intros [_ Hf Hn] He.
  destruct e as [n b start clk c|n clk rr u|n clk|k clk ans|n|o|b clk c]; cbn [sys_exec] in He.
  - destruct (jobs s !! n); [done|].
    destruct (kind_of b c s) as [kd|]; [|done].
    destruct (begin_job kd start clk c (app s)) as [[[ph bg] a]|] eqn:Eq; [|done]. injection He as <-. simpl.
    destruct (begin_job_spec _ _ _ _ _ _ _ _ Eq) as (_ & _ & P).
    destruct ph as [r|h' reason|h' rx k]; simpl in P; [by destruct P as [-> _]| |].
    + destruct P as [-> Hg]. unfold get_or_insert in Hg. destruct (in_flight _ !! query_hash c) eqn:E1; [done|].
      injection Hg as <-. simpl. rewrite lookup_insert_ne; [done|]. intros Heq. by rewrite Heq, Hf in E1.
    + destruct P as (-> & Hg & _). unfold get_or_insert in Hg. destruct (in_flight _ !! query_hash c); [|done].
      by injection Hg as _ <-.
  - destruct (jobs s !! n) as [j|] eqn:Ej; [|done]. destruct (j_state j) as [reason| |] eqn:Es; try done.
    destruct (finish_lead _ _ _ _ _ _ _) as [[r a]|] eqn:El; [|done]. injection He as <-. simpl.
    destruct (finish_lead_spec _ _ _ _ _ _ _ _ _ El) as (_ & Hl).
    assert (exists v, coalescer a = complete (query_hash (j_call j)) v (coalescer (app s))) as [v ->].
    { destruct (rr_result rr); [destruct Hl as (_ & _ & _ & v & -> & _)|destruct Hl as (_ & _ & v & -> & _)]; by eexists. }
    destruct (complete_spec (query_hash (j_call j)) v (coalescer (app s))) as (-> & _).
    rewrite lookup_delete_ne; [done|]. by eapply Hn.
  - destruct (jobs s !! n) as [j|]; [|done]. destruct (j_state j) as [|rx k|]; try done.
    destruct (receives rx k (coalescer (app s))) as [v|]; [|done].
    destruct (finish_wait (j_kind j) (j_start j) clk (j_call j) (Some v) (app s)) as [r a] eqn:Ew. injection He as <-. simpl.
    by apply finish_wait_spec in Ew as (_ & _ & -> & _).
  - destruct (tasks s !! k) as [t|]; [|done]. injection He as <-. simpl.
    by destruct (background_refresh_spec clk ans t (app s) _ eq_refl) as (_ & _ & -> & _).
  - destruct (jobs s !! n) as [j|]; [|done]. by destruct (j_state j); try done; injection He as <-.
  - destruct (op_lossy o); [|done]. by destruct (apply_op o (st_cache (app s))); [injection He as <-|].
  - destruct (batches s !! b); [done|]. destruct (batch_enter clk c (app s)) as [ok a] eqn:Ee. injection He as <-. simpl.
    by destruct (batch_enter_same clk c (app s) ok a Ee) as (_ & _ & ->).
Qed.

Lemma blocked_nolead h tx e s s' n0 j0 reason0 :
  blocked h tx s -> sys_exec e s = Some s' ->
  jobs s' !! n0 = Some j0 -> j_state j0 = JLead reason0 -> query_hash (j_call j0) <> h.
Proof.
  intros [_ Hf Hn] He. revert n0 j0 reason0.
  destruct e as [n b start clk c|n clk rr u|n clk|k clk ans|n|o|b clk c]; cbn [sys_exec] in He.
  - destruct (jobs s !! n); [done|].
    destruct (kind_of b c s) as [kd|]; [|done].
    destruct (begin_job kd start clk c (app s)) as [[[ph bg] a]|] eqn:Eq; [|done]. injection He as <-. simpl.
    destruct (begin_job_spec _ _ _ _ _ _ _ _ Eq) as (_ & _ & P).
    intros n' j reason [[<- <-]|[_ Hj]]%lookup_insert_Some Hs; [|by eapply Hn]. simpl in *.
    destruct ph; try done. destruct P as [-> Hg]. unfold get_or_insert in Hg.
    destruct (in_flight _ !! query_hash c) eqn:E1; [done|]. intros Heq. by rewrite Heq, Hf in E1.
  - destruct (jobs s !! n) as [j|] eqn:Ej; [|done]. destruct (j_state j); try done.
    destruct (finish_lead _ _ _ _ _ _ _) as [[r a]|]; [|done]. injection He as <-. simpl.
    intros n' j' reason' [[<- <-]|[_ Hj]]%lookup_insert_Some Hs; [done|by eapply Hn].
  - destruct (jobs s !! n) as [j|]; [|done]. destruct (j_state j); try done.
    destruct (receives _ _ _); [|done]. destruct (finish_wait _ _ _ _ _ _). injection He as <-. simpl.
    intros n' j' reason' [[<- <-]|[_ Hj]]%lookup_insert_Some Hs; [done|by eapply Hn].
  - destruct (tasks s !! k); [|done]. by injection He as <-.
  - destruct (jobs s !! n) as [j|]; [|done].
    destruct (j_state j); try done; injection He as <-; simpl; intros n' j' reason' [_ Hj]%lookup_delete_Some; by eapply Hn.
  - destruct (op_lossy o); [|done]. by destruct (apply_op o (st_cache (app s))); [injection He as <-|].
  - destruct (batches s !! b); [done|]. destruct (batch_enter clk c (app s)) as [ok a]. by injection He as <-.
Qed.

Lemma blocked_step h tx e s s' : blocked h tx s -> sys_exec e s = Some s' -> blocked h tx s'.
Proof.
  intros Hb He. split; [|by eapply blocked_flight|intros *; by eapply blocked_nolead].
  destruct Hb as [[N Hi] _ _]. exists N. by eapply sys_exec_inv.
Qed.

(** C37: when the client of a leader disconnects, its cache key stays in flight for
    ever: in every continuation no request becomes the leader for it, and no request
    that waits on its channel receives anything. *)
Theorem cancelled_leader_blocks N a es s n j reason s1 es' s2 :
  fresh_app N a -> sys_run es (Sys_init a) = Some s ->
  jobs s !! n = Some j -> j_state j = JLead reason -> sys_exec (ECancel n) s = Some s1 ->
  sys_run es' s1 = Some s2 ->
  let h := query_hash (j_call j) in
  exists tx, in_flight (coalescer (app s2)) !! h = Some tx /\
    (forall n' j' r, jobs s2 !! n' = Some j' -> j_state j' = JLead r -> query_hash (j_call j') <> h) /\
    (forall k, receives tx k (coalescer (app s2)) = None).
Proof.
  intros Hf Hr Hj Hs Hc Hr' h.
  pose proof (sys_run_inv N es _ _ (sys_inv_init N a Hf) Hr) as Hi.
  destruct (si_lead _ _ Hi _ _ _ Hj Hs) as [tx Htx]. exists tx.
  assert (Hb : blocked h tx s1).
  { split; [exists N; by eapply sys_exec_inv| |].
    - simpl in Hc. rewrite Hj, Hs in Hc. by injection Hc as <-.
    - simpl in Hc. rewrite Hj, Hs in Hc. injection Hc as <-. simpl.
      intros n' j' r [Hne Hj']%lookup_delete_Some Hs' Heq. apply Hne. by eapply (si_single _ _ Hi). }
  clear Hc Hr Hi Htx Hj Hs Hf. revert s1 Hr' Hb. induction es' as [|e es' IH]; intros s1; simpl.
  - intros [= <-] [[N' Hi] Hfl Hn]. split_and!; [done|done|]. intros k.
    destruct (receives tx k (coalescer (app s1))) as [v|] eqn:Er; [|done].
    apply receives_sent in Er. by apply (si_unsent _ _ Hi h) in Er.
  - destruct (sys_exec e s1) as [s3|] eqn:Ee; [|done]. intros Hr' Hb. eapply IH; [exact Hr'|]. by eapply blocked_step.
Qed.
End System.

(** ** Witnesses: a query and a batch item for one key, an answer, a third from the cache, and a
    fourth whose client disconnects. *)

#[local] Existing Instance DemoEnv.

Definition demo_server : AppState (result QueryResponse UpstreamError) := demo_app demo_init (Err NotConfigured).
Definition demo_fetched : RetryResult QueryResponse UpstreamError :=
  {| rr_result := Ok (demo_response "b"); attempts := 1; total_duration := 1000 |}.
Definition demo_events : list (SysEvent (result QueryResponse UpstreamError)) :=
  [EBatch 7 demo_clock (demo_call "beta"); EArrive 1 None 4 demo_clock (demo_call "beta"); EArrive 2 (Some 7) 4 demo_clock (demo_call "Beta ");
   EAnswer 1 demo_clock demo_fetched (Err NotConfigured); EReceive 2 demo_clock;
   EArrive 3 None 4 demo_clock (demo_call "beta"); EArrive 4 None 4 demo_clock (demo_call "gamma")].
Definition demo_served : Sys (result QueryResponse UpstreamError) :=
  default (Sys_init demo_server) (sys_run demo_events (Sys_init demo_server)).
Definition demo_later : list (SysEvent (result QueryResponse UpstreamError)) :=
  [EArrive 5 None 6 demo_clock (demo_call "gamma")].
Definition demo_cut : Sys (result QueryResponse UpstreamError) := default demo_served (sys_exec (ECancel 4) demo_served).
Definition demo_after : Sys (result QueryResponse UpstreamError) := default demo_served (sys_run demo_later demo_cut).

Lemma default_some {A} (d : A) o : match o with Some _ => true | None => false end = true -> o = Some (default d o).
Proof. by destruct o. Qed.
Lemma demo_served_run : sys_run demo_events (Sys_init demo_server) = Some demo_served.
Proof. apply default_some. vm_compute. reflexivity. Qed.
Lemma demo_cut_run : sys_exec (ECancel 4) demo_served = Some demo_cut.
Proof. apply default_some. vm_compute. reflexivity. Qed.
Lemma demo_after_run : sys_run demo_later demo_cut = Some demo_after.
Proof. apply default_some. vm_compute. reflexivity. Qed.
Lemma demo_fresh : fresh_app 2 demo_server.
Proof. split; [by apply inv_init|vm_compute; reflexivity..|]. split; vm_compute; reflexivity. Qed.

(** The three requests that are done were all served, from the upstream's answer. *)
Lemma served_provenance_witness :
  Forall (fun n => exists j r, jobs demo_served !! n = Some j /\ j_state j = JDone r /\
    qr_status r = 200 /\ fetched (answers demo_served) (query_hash (j_call j)) (reply_results r)) [1; 2; 3].
Proof.
  destruct (served_provenance 2 demo_server demo_events demo_served demo_fresh demo_served_run) as [H _].
  assert (G : forall n j r, jobs demo_served !! n = Some j -> j_state j = JDone r -> qr_status r = 200 ->
            exists j r, jobs demo_served !! n = Some j /\ j_state j = JDone r /\
              qr_status r = 200 /\ fetched (answers demo_served) (query_hash (j_call j)) (reply_results r)).
  { intros n j r H1 H2 H3. exists j, r. destruct (H n j r H1 H2) as [[_ Hf]|[Hn _]]; [exact (conj H1 (conj H2 (conj H3 Hf)))|case (Hn H3)]. }
  repeat (apply Forall_cons; split; [eapply G; vm_compute; reflexivity|]). exact (Forall_nil_2 _).
Defined.

Lemma pipeline_accounts_witness :
  Z.of_nat (size (entries (st_cache (app demo_served)))) <= 2 /\ balanced (st_metrics (app demo_served)) /\
  pm_count (st_metrics (app demo_served)) cache_hits = 1 /\ pm_count (st_metrics (app demo_served)) requests_total = 2.
Proof.
  destruct (pipeline_accounts 2 demo_server demo_events demo_served demo_fresh demo_served_run) as (_ & H1 & H2).
  split_and!; [exact H1|exact H2|vm_compute; reflexivity..].
Defined.

Lemma cancelled_leader_blocks_witness :
  exists tx, in_flight (coalescer (app demo_after)) !! query_hash (demo_call "gamma") = Some tx /\
    (forall k, receives tx k (coalescer (app demo_after)) = None) /\
    exists j k, jobs demo_after !! 5 = Some j /\ j_state j = JWait tx k.
Proof.
  destruct (cancelled_leader_blocks 2 demo_server demo_events demo_served 4
    (job_at KQuery (demo_call "gamma") 4 (JLead NotInCache)) NotInCache demo_cut demo_later demo_after
    demo_fresh demo_served_run ltac:(vm_compute; reflexivity) eq_refl demo_cut_run demo_after_run) as (tx & H1 & _ & H2).
  exists tx. split_and!; [exact H1|exact H2|].
  assert (tx = 1) as ->.
  { assert (in_flight (coalescer (app demo_after)) !! query_hash (demo_call "gamma") = Some 1) as H3
      by (vm_compute; reflexivity).
    simpl j_call in H1. rewrite H3 in H1. by injection H1. }
  eexists _, _. split; vm_compute; reflexivity.
Defined.
