(* ===== verification/Peer.v ===== *)
(** * Peer replication (src/src/proxy/peer/, src/src/proxy/cdc/stream.rs)

    A node publishes the changes of its cache ([Cdc]); its peers subscribe to the
    stream, drop their own events, expired ones and inserts that are no newer than
    what they hold, and apply the rest to their cache, which publishes in turn.  A
    joining node first reads a snapshot of a peer's cache.  [DistributedCoalescer]
    tracks the fetches that peers announce.

    gRPC and JSON are third-party code: a message is the record of its fields, and
    the decoder of payloads is a parameter. *)

From Stdlib Require Import SpecFloat.
From S2P Require Import Prelude Floats Text Types Cdc Cache CacheInv CacheReach CacheSpec CacheProps.
Open Scope Z_scope.
Open Scope conproxy_scope.

(** ** The stream (cdc/stream.rs) *)

Record ProtoEvent := {
  pe_sequence : Z;
  pe_timestamp_ms : Z;
  pe_event_type : Z;
  pe_query_key : str;
  pe_payload : bytes;
  pe_upstream_id : str;
  pe_context_id : str;
  pe_origin_node_id : str;
  pe_absolute_expiry_ms : Z
}.

Definition internal_to_proto (e : CdcEvent) : ProtoEvent :=
  {| pe_sequence := ev_sequence e; pe_timestamp_ms := timestamp_ms e; pe_event_type := to_proto (event_type e);
     pe_query_key := query_key e; pe_payload := payload e; pe_upstream_id := ev_upstream_id e;
     pe_context_id := ev_context_id e; pe_origin_node_id := origin_node_id e;
     pe_absolute_expiry_ms := absolute_expiry_ms e |}.

Definition proto_to_internal (p : ProtoEvent) : option CdcEvent :=
  match from_proto (pe_event_type p) with
  | Some t =>
      Some {| ev_sequence := pe_sequence p; timestamp_ms := pe_timestamp_ms p; event_type := t;
              query_key := pe_query_key p; payload := pe_payload p; ev_upstream_id := pe_upstream_id p;
              ev_context_id := pe_context_id p; origin_node_id := pe_origin_node_id p;
              absolute_expiry_ms := pe_absolute_expiry_ms p |}
  | None => None
  end.

(** The event types a subscriber names; unknown names are dropped. *)
Definition filter_type (s : str) : option CdcEventType :=
  if str_eqb s (lit "insert") then Some Insert
  else if str_eqb s (lit "remove") then Some Remove
  else if str_eqb s (lit "fetch_start") then Some FetchStart
  else if str_eqb s (lit "fetch_cancel") then Some FetchCancel
  else None.

(** What the subscription task sends for one event: nothing when a non-empty filter
    does not contain its type. *)
Definition forward (names : list str) (e : CdcEvent) : option ProtoEvent :=
  let filter := omap filter_type names in
  if negb (bool_decide (filter = [])) && negb (bool_decide (event_type e ∈ filter)) then None
  else Some (internal_to_proto e).

(** ** The receiver (peer/receiver.rs) *)

Inductive DeduplicateResult := Apply | Echo | DupStale | DupExpired.
#[export] Instance DeduplicateResult_eq_dec : EqDecision DeduplicateResult.
Proof. solve_decision. Defined.

(** [serde_json::from_slice] for responses. *)
Class Codec := { serde_from_slice : bytes -> option QueryResponse }.

Definition now_ms (clk : Clock) : Z := wrap 64 (wall clk / 1000000).

Record PeerReplicationStats := { events_received : Z; events_applied : Z; events_skipped : Z; rp_errors : Z }.
Definition PeerReplicationStats_default : PeerReplicationStats :=
  {| events_received := 0; events_applied := 0; events_skipped := 0; rp_errors := 0 |}.
Definition count_received (t : PeerReplicationStats) : PeerReplicationStats :=
  {| events_received := wrap 64 (events_received t + 1); events_applied := events_applied t;
     events_skipped := events_skipped t; rp_errors := rp_errors t |}.
Definition count_outcome (applied : bool) (t : PeerReplicationStats) : PeerReplicationStats :=
  {| events_received := events_received t;
     events_applied := if applied then wrap 64 (events_applied t + 1) else events_applied t;
     events_skipped := if applied then events_skipped t else wrap 64 (events_skipped t + 1);
     rp_errors := rp_errors t |}.
Definition count_error (t : PeerReplicationStats) : PeerReplicationStats :=
  {| events_received := events_received t; events_applied := events_applied t;
     events_skipped := events_skipped t; rp_errors := wrap 64 (rp_errors t + 1) |}.

(** What the subscription yields: an event, its end, an error. *)
Inductive StreamMessage := SEvent (p : ProtoEvent) | SEnd | SError.

Section Receiver.
Context `{E : CacheEnv} `{C : Codec}.

Definition local_timestamp_ms (e : CacheEntry) : Z :=
  match cached_at_wall e with Some w => as_millis_u64 w | None => 0 end.

Definition deduplicate (clk : Clock) (e : CdcEvent) (local_node_id : str) (s : CacheStore)
  : DeduplicateResult * CacheStore :=
  if str_eqb (origin_node_id e) local_node_id then (Echo, s)
  else if (0 <? absolute_expiry_ms e) && (absolute_expiry_ms e <=? now_ms clk) then (DupExpired, s)
  else
    match event_type e with
    | Insert =>
        match get (query_key e) s with
        | (Some existing, s) =>
            if timestamp_ms e <=? local_timestamp_ms existing then (DupStale, s) else (Apply, s)
        | (None, s) => (Apply, s)
        end
    | _ => (Apply, s)
    end.

Definition apply_event (clk : Clock) (e : CdcEvent) (s : CacheStore) : bool * CacheStore :=
  match event_type e with
  | Insert =>
      match payload e with
      | [] => (false, s)
      | pl =>
          match serde_from_slice pl with
          | Some r => (true, insert clk (query_key e) r (ev_upstream_id e) s)
          | None => (false, s)
          end
      end
  | Remove =>
      match query_key e with
      | [] => (true, clear clk s)
      | k => (true, remove clk k s)
      end
  | FetchStart | FetchCancel => (false, s)
  end.

(** Deduplicate, then apply. *)
Definition receive (clk : Clock) (local : str) (e : CdcEvent) (s : CacheStore) : bool * CacheStore :=
  match deduplicate clk e local s with
  | (Apply, s) => apply_event clk e s
  | (_, s) => (false, s)
  end.

Definition handle_event (clk : Clock) (local : str) (p : ProtoEvent) (ts : PeerReplicationStats * CacheStore)
  : PeerReplicationStats * CacheStore :=
  match proto_to_internal p with
  | None => ts
  | Some e => let '(applied, s) := receive clk local e ts.2 in (count_outcome applied ts.1, s)
  end.

(** The loop over the stream; an error ends it and is counted by [run]. *)
Fixpoint connect_and_receive (local : str) (ms : list (Clock * StreamMessage)) (ts : PeerReplicationStats * CacheStore)
  : PeerReplicationStats * CacheStore :=
  match ms with
  | (clk, SEvent p) :: ms => connect_and_receive local ms (handle_event clk local p (count_received ts.1, ts.2))
  | (_, SError) :: _ => (count_error ts.1, ts.2)
  | (_, SEnd) :: _ | [] => ts
  end.

(** ** Snapshots (peer/snapshot.rs) *)

(** The events of [stream_snapshot], for a client that stays connected. *)
Definition stream_snapshot (clk : Clock) (node : str) (s : CacheStore) : list ProtoEvent :=
  let ttl_ms := wrap 64 ((fresh_duration s + stale_duration s) / 1000000) in
  let now := now_ms clk in
  imap (fun i (x : str * bytes * str) =>
    {| pe_sequence := sat_add 64 (Z.of_nat i) 1; pe_timestamp_ms := now; pe_event_type := to_proto Insert;
       pe_query_key := x.1.1; pe_payload := x.1.2; pe_upstream_id := x.2; pe_context_id := [];
       pe_origin_node_id := node;
       pe_absolute_expiry_ms := if 0 <? ttl_ms then sat_add 64 now ttl_ms else 0 |}) (snapshot_entries s).

(** The client: each message at its time; the number of events applied. *)
Fixpoint request_snapshot (local : str) (ms : list (Clock * ProtoEvent)) (applied : Z) (s : CacheStore)
  : Z * CacheStore :=
  match ms with
  | [] => (applied, s)
  | (clk, p) :: ms =>
      match proto_to_internal p with
      | Some e => let '(ok, s) := receive clk local e s in
                  request_snapshot local ms (if ok then sat_add 64 applied 1 else applied) s
      | None => request_snapshot local ms applied s
      end
  end.
End Receiver.

(** ** Readiness (peer/mod.rs) *)

Inductive PeerState := Warming | Ready.
Definition peer_state_as_u8 (s : PeerState) : Z := match s with Warming => 0 | Ready => 1 end.
Definition peer_state_from_u8 (v : Z) : PeerState := if v =? 1 then Ready else Warming.
Definition peer_state_as_str (s : PeerState) : str :=
  match s with Warming => lit "warming" | Ready => lit "ready" end.

(** [PeerManager::new] *)
Definition initial_state (peers : list str) (snapshot_on_join : bool) : PeerState :=
  if bool_decide (peers = []) || negb snapshot_on_join then Ready else Warming.

(** What the snapshot of a peer and the parity check gave: [None] for an error,
    otherwise the two counts. *)
Definition SnapshotOutcome := option (option (Z * Z)).

Definition parity_ratio (local remote : Z) : f64 :=
  if 0 <? remote then F64.div (F64.of_Z local) (F64.of_Z remote) else F64.of_Z 1.

(** The joining task of [PeerManager::start]: the states it stores, and the number
    of peers it asked. *)
Fixpoint join (threshold : f64) (peers : list SnapshotOutcome) (asked : nat) : PeerState * nat :=
  match peers with
  | [] => (Ready, asked)
  | Some (Some (l, r)) :: peers =>
      if f_ge (parity_ratio l r) threshold then (Ready, S asked) else join threshold peers (S asked)
  | _ :: peers => join threshold peers (S asked)
  end.
