(* ===== verification/PeerProps.v ===== *)
(** * Properties of peer replication

    The wire format round-trips; a received event changes the cache only when it is
    foreign, unexpired and newer; a snapshot reproduces the cache it was taken of.
    Two nodes that subscribe to each other re-publish what they apply: an older write
    can win over a newer one, and a removal circulates for ever. *)

From Stdlib Require Import SpecFloat.
From S2P Require Import Prelude Floats Text Types Cdc Cache CacheInv CacheReach CacheSpec CacheProps Peer.
Open Scope Z_scope.
Open Scope conproxy_scope.

Lemma from_to_proto t : from_proto (to_proto t) = Some t.
Proof. by destruct t. Qed.
Lemma to_from_proto v t : from_proto v = Some t -> to_proto t = v.
Proof.
  unfold from_proto. repeat case_match; reflect_Z; try done; by intros [= <-].
Qed.

Lemma proto_back e : proto_to_internal (internal_to_proto e) = Some e.
Proof. destruct e. unfold proto_to_internal, internal_to_proto. simpl. by rewrite from_to_proto. Qed.

(** The wire format of events is faithful: every event is read back as it was
    sent, a message is accepted exactly when its type code is one of the four, and an
    accepted message is the one its event would be sent as. *)
Theorem proto_roundtrip :
  (forall e, proto_to_internal (internal_to_proto e) = Some e) /\
  (forall p, (exists e, proto_to_internal p = Some e) <-> 1 <= pe_event_type p <= 4) /\
  (forall p e, proto_to_internal p = Some e -> internal_to_proto e = p).
Proof.
  split_and!.
  - exact proto_back.
  - intros p. unfold proto_to_internal. split.
    + intros [e He]. destruct (from_proto (pe_event_type p)) as [t|] eqn:Ef; [|done].
      apply to_from_proto in Ef as <-. destruct t; simpl; lia.
    + intros Hr. assert (exists t, from_proto (pe_event_type p) = Some t) as [t ->]; [|by eexists].
      assert (pe_event_type p = 1 \/ pe_event_type p = 2 \/ pe_event_type p = 3 \/ pe_event_type p = 4)
        as [->|[->|[->| ->]]] by lia; by eexists.
  - intros [sq ts t k pl u c o x] e. unfold proto_to_internal, internal_to_proto. simpl.
    destruct (from_proto t) as [t'|] eqn:Ef; [|done]. intros [= <-]. simpl. by rewrite (to_from_proto t t').
Qed.

Section Receive.
Context `{E : CacheEnv} {L : CacheEnvLaws E} `{C : Codec}.
Implicit Types (s : CacheStore) (e : CdcEvent) (clk : Clock).

(** The default: lookups by the normalized text alone. *)
Definition plain s : Prop := normalized_matching s = false.

Lemma get_plain q s : plain s ->
  get q s = match entries s !! hash_query q with
            | Some x => (entries (bump_freq (hash_query q) s) !! hash_query q,
                         put_exact_hits (bump_freq (hash_query q) s) (wrap 64 (exact_hits s + 1)))
            | None => (None, s)
            end.
Proof.
  intros Hp. unfold get. rewrite Hp. destruct (entries s !! hash_query q) eqn:He; [|done].
  do 2 f_equal. unfold bump_freq. by rewrite He.
Qed.

(** The entries differ in their access counts at most. *)
Definition same_content s s' : Prop := forall h, response <$> entries s' !! h = response <$> entries s !! h.
Lemma same_content_refl s : same_content s s.
Proof. done. Qed.

Lemma get_same_content q s : plain s -> same_content s (snd (get q s)).
Proof.
  intros Hp h. rewrite get_plain by done. destruct (entries s !! hash_query q) as [x|] eqn:He; [|done]. simpl.
  unfold bump_freq. rewrite He. simpl. rewrite lookup_insert. case_decide; [|done]. subst. by rewrite He.
Qed.

Definition foreign (local : str) e : Prop := origin_node_id e <> local.
Definition unexpired clk e : Prop := absolute_expiry_ms e <= 0 \/ now_ms clk < absolute_expiry_ms e.

(** A local entry at least as new as the event. *)
Definition superseded e s : Prop :=
  exists x, entries s !! hash_query (query_key e) = Some x /\ timestamp_ms e <= local_timestamp_ms x.

Lemma deduplicate_spec clk e local s : plain s ->
  let '(d, s') := deduplicate clk e local s in
  same_content s s' /\ (forall N, inv N s -> inv N s') /\
  (d = Apply <-> foreign local e /\ unexpired clk e /\ (event_type e = Insert -> ~ superseded e s)) /\
  (d = Apply -> (event_type e = Insert /\ s' = snd (get (query_key e) s)) \/ s' = s).
Proof.
  intros Hp. unfold deduplicate, foreign, unexpired, str_eqb.
  destruct (decide (origin_node_id e = local)) as [Ho|Ho].
  { rewrite bool_decide_eq_true_2 by done. split_and!; try done. split; [done|]. by intros [? _]. }
  rewrite bool_decide_eq_false_2 by done.
  destruct ((0 <? absolute_expiry_ms e) && (absolute_expiry_ms e <=? now_ms clk)) eqn:Ex.
  { apply andb_prop in Ex as [H1 H2]. reflect_Z. split_and!; try done. split; [done|]. intros (_ & [?|?] & _); lia. }
  apply andb_false_iff in Ex. assert (Hun : absolute_expiry_ms e <= 0 \/ now_ms clk < absolute_expiry_ms e).
  { destruct Ex; reflect_Z; [left|right]; lia. }
  destruct (event_type e) eqn:Et; [|by split_and!; auto..].
  pose proof (get_same_content (query_key e) s Hp) as Hc.
  assert (Hi : forall N, inv N s -> inv N (snd (get (query_key e) s))) by (intros N; apply inv_get).
  assert (Hg : fst (get (query_key e) s) = None <-> entries s !! hash_query (query_key e) = None) by
    (rewrite get_plain by done; destruct (entries s !! hash_query (query_key e)) eqn:He; simpl; [|done];
     by rewrite (bump_lookup _ _ _ He)).
  assert (Ht : forall y, fst (get (query_key e) s) = Some y -> exists x,
            entries s !! hash_query (query_key e) = Some x /\ local_timestamp_ms x = local_timestamp_ms y).
  { rewrite get_plain by done. intros y. destruct (entries s !! hash_query (query_key e)) as [x|] eqn:He; simpl; [|done].
    rewrite (bump_lookup _ _ _ He). intros [= <-]. by exists x. }
  destruct (get (query_key e) s) as [[y|] s1] eqn:Eg; simpl in *.
  - destruct (Ht y eq_refl) as (x & Hx & Hxy).
    destruct (timestamp_ms e <=? local_timestamp_ms y) eqn:El; reflect_Z; split_and!; auto.
    + split; [done|]. intros (_ & _ & Hs). case (Hs eq_refl). exists x. split; [done|lia].
    + split; [|done]. intros _. split_and!; auto. intros _ (x' & Hx' & Hl). rewrite Hx in Hx'. injection Hx' as <-. lia.
  - split_and!; auto. split; [|done]. intros _. split_and!; auto. intros _ (x & Hx & _).
    by rewrite (proj1 Hg eq_refl) in Hx.
Qed.

(** The content an applied event leaves. *)
Definition applied_content clk e s s' : Prop :=
  match event_type e with
  | Insert => exists r, serde_from_slice (payload e) = Some r /\
      forall h x, entries s' !! h = Some x ->
        (h = hash_query (query_key e) /\ response x = r) \/ response <$> entries s !! h = Some (response x)
  | Remove => if bool_decide (query_key e = []) then entries s' = ∅
              else entries s' = delete (hash_query (query_key e)) (entries s)
  | _ => False
  end.

(** C16: an event received from a peer is applied only when it comes from another
    node, has not expired and, for an insert, when every local entry for its key is
    older than it and its payload decodes; then the cache holds the new response or
    lost entries, a removal removes exactly its key (all keys when it names none).
    Otherwise no cached response changes.  The cache's invariant is kept. *)
Theorem receive_lww N clk local e s :
  inv N s -> plain s ->
  let '(ok, s') := receive clk local e s in
  inv N s' /\
  (if ok then foreign local e /\ unexpired clk e /\ (event_type e = Insert -> ~ superseded e s) /\
              applied_content clk e s s'
   else same_content s s').
Proof.
  intros Hi Hp. unfold receive. pose proof (deduplicate_spec clk e local s Hp) as Hd.
  destruct (deduplicate clk e local s) as [d s1]. destruct Hd as (Hc & Hinv & Hd & Hs1).
  destruct d; try (split; [by apply Hinv|done]).
  destruct (proj1 Hd eq_refl) as (H1 & H2 & H3). specialize (Hs1 eq_refl). specialize (Hinv _ Hi).
  unfold apply_event, applied_content. destruct (event_type e) eqn:Et; [| |by split..].
  - destruct (payload e) as [|b pl] eqn:Epl; [by split|].
    destruct (serde_from_slice (b :: pl)) as [r|] eqn:Er; [|by split].
    split; [by apply inv_insert_impl|]. split_and!; auto. exists r. split; [done|].
    intros h x Hx. destruct (insert_impl_lossy N clk (query_key e) r (ev_upstream_id e) (lit "default") s1 Hinv) as [Hsh _].
    destruct (Hsh _ _ Hx) as (x0 & v & Hx0 & ->).
    apply lookup_insert_Some in Hx0 as [[<- <-]|[_ Hx0]]; [by left|right].
    rewrite <- (Hc h), Hx0. done.
  - destruct Hs1 as [[? _]| ->]; [done|]. destruct (query_key e) as [|k ks] eqn:Ek.
    + split; [by apply inv_clear|]. split_and!; auto. rewrite bool_decide_eq_true_2 by done.
      unfold clear. by destruct (emit_frame clk Remove (builder_remove []) (wipe s)) as (-> & _).
    + split; [by apply inv_remove|]. split_and!; auto. by destruct (remove_frame clk (k :: ks) s) as (-> & _).
Qed.

(** An insert of a key that is not cached. *)
Lemma receive_new clk local e r s :
  plain s -> event_type e = Insert -> entries s !! hash_query (query_key e) = None ->
  foreign local e -> unexpired clk e -> payload e <> [] -> serde_from_slice (payload e) = Some r ->
  receive clk local e s = (true, insert clk (query_key e) r (ev_upstream_id e) s).
Proof.
  intros Hp Ht Hno Hf Hx Hpl Hr. unfold receive, deduplicate, foreign, unexpired, str_eqb in *.
  rewrite bool_decide_eq_false_2 by done.
  replace (_ && _) with false by (symmetry; apply andb_false_iff; destruct Hx;
    [left; apply Z.ltb_ge; lia|right; apply Z.leb_gt; lia]).
  rewrite Ht, get_plain, Hno by done. unfold apply_event. rewrite Ht.
  destruct (payload e) as [|b pl]; [done|]. by rewrite Hr.
Qed.

(** *** An older write can win *)

(** The comparison is with the time the replica stored its entry, not with the
    time of the write: when two writes of one key are published and the older arrives
    after the newer was written, the replica keeps the older one and drops the newer
    (even when they arrive in the order they were written). *)
Theorem newer_write_lost N clk1 clk2 local e1 e2 r1 s :
  inv N s -> plain s -> per_upstream_limit s = None ->
  event_type e1 = Insert -> event_type e2 = Insert -> query_key e2 = query_key e1 ->
  has_room N (new_entry clk1 r1 (ev_upstream_id e1) (Some (query_key e1)) (lit "default")) s ->
  entries s !! hash_query (query_key e1) = None ->
  foreign local e1 -> unexpired clk1 e1 -> payload e1 <> [] -> serde_from_slice (payload e1) = Some r1 ->
  timestamp_ms e1 < timestamp_ms e2 -> timestamp_ms e2 <= as_millis_u64 (wall clk1) ->
  let '(ok1, s1) := receive clk1 local e1 s in
  let '(ok2, s2) := receive clk2 local e2 s1 in
  ok1 = true /\ ok2 = false /\ response <$> entries s2 !! hash_query (query_key e1) = Some r1.
Proof.
  intros Hi Hp Hu Ht1 Ht2 Hk Hroom Hno Hf Hx Hpl Hr Hlt Hle.
  rewrite (receive_new clk1 local e1 r1 s) by done.
  set (s1 := insert clk1 (query_key e1) r1 (ev_upstream_id e1) s).
  destruct (insert_impl_room N clk1 (query_key e1) r1 (ev_upstream_id e1) (lit "default") s) as (He & Hnm & _);
    [done..|by right|]. fold (insert clk1 (query_key e1) r1 (ev_upstream_id e1) s) in He, Hnm. fold s1 in He, Hnm.
  assert (Hlk : entries s1 !! hash_query (query_key e1) =
            Some (new_entry clk1 r1 (ev_upstream_id e1) (Some (query_key e1)) (lit "default")))
    by (by rewrite He, lookup_insert_eq).
  assert (Hp1 : plain s1) by (unfold plain; by rewrite Hnm).
  pose proof (deduplicate_spec clk2 e2 local s1 Hp1) as Hd. unfold receive.
  destruct (deduplicate clk2 e2 local s1) as [d s2] eqn:Ed. destruct Hd as (Hc & _ & Hd & _).
  assert (d <> Apply) as Hna.
  { intros ->. destruct (proj1 Hd eq_refl) as (_ & _ & Hs). apply (Hs Ht2).
    eexists. rewrite Hk. split; [exact Hlk|exact Hle]. }
  destruct d; try done; (split_and!; [done..|]); by rewrite (Hc _), Hlk.
Qed.

(** *** Snapshots *)

(** The message of an entry: foreign, in time, with a payload that decodes to it. *)
Definition good_message (local : str) (m : Clock * ProtoEvent) (hx : QueryHash * CacheEntry) : Prop :=
  exists e, proto_to_internal m.2 = Some e /\ event_type e = Insert /\ foreign local e /\ unexpired m.1 e /\
    hash_query (query_key e) = hx.1 /\ payload e <> [] /\ serde_from_slice (payload e) = Some (response hx.2).

Lemma request_snapshot_run N local ms : forall l s k,
  inv N s -> plain s -> per_upstream_limit s = None -> max_memory_bytes s <= 0 ->
  Z.of_nat (queue_len s) + zlen l <= N -> NoDup l.*1 -> (forall h, h ∈ l.*1 -> entries s !! h = None) ->
  Forall2 (good_message local) ms l -> 0 <= k -> k + zlen l < u_max 64 ->
  let '(n, s') := request_snapshot local ms k s in
  n = k + zlen l /\ inv N s' /\
  forall h, response <$> entries s' !! h =
    match (list_to_map l : gmap QueryHash CacheEntry) !! h with
    | Some x => Some (response x)
    | None => response <$> entries s !! h
    end.
Proof.
  induction ms as [|[clk p] ms IH]; intros l s k Hi Hp Hu Hm Hq Hnd Hno Hf Hk Hb.
  { apply Forall2_nil_inv_l in Hf as ->. simpl. split_and!; [unfold zlen; simpl; lia|done|].
    intros h. by rewrite lookup_empty. }
  apply Forall2_cons_inv_l in Hf as ([h0 x0] & l' & (e & He & Ht & Hfo & Hx & Hh & Hpl & Hr) & Hf & ->). simpl in *.
  rewrite zlen_cons in Hq, Hb. pose proof (zlen_nonneg l'). apply NoDup_cons in Hnd as [Hnin Hnd].
  rewrite He, (receive_new clk local e (response x0) s) by (try done; rewrite Hh; apply Hno; set_solver).
  set (s1 := insert clk (query_key e) (response x0) (ev_upstream_id e) s).
  destruct (insert_impl_room N clk (query_key e) (response x0) (ev_upstream_id e) (lit "default") s) as (Hen & Hnm & _);
    [done..|right; split; [lia|by left]|].
  destruct (insert_impl_queue N clk (query_key e) (response x0) (ev_upstream_id e) (lit "default") s) as (Hq1 & Hu1 & Hm1);
    [done..|lia|].
  change (insert_impl _ _ _ _ _ s) with s1 in Hen, Hnm, Hq1, Hu1, Hm1. rewrite Hh in Hen.
  assert (sat_add 64 k 1 = k + 1) as Hsat by (unfold sat_add, u_max in *; lia). rewrite Hsat.
  specialize (IH l' s1 (k + 1)). destruct (request_snapshot local ms (k + 1) s1) as [n s'].
  destruct IH as (-> & Hi' & Hs'); try done; try lia.
  - by apply inv_insert_impl.
  - unfold plain. by rewrite Hnm.
  - intros h Hin. rewrite Hen, lookup_insert_ne; [apply Hno; set_solver|]. by intros ->.
  - rewrite zlen_cons. split_and!; [lia|done|]. intros h. rewrite Hs', Hen.
    destruct (decide (h0 = h)) as [->|Hne].
    + rewrite !lookup_insert_eq. by rewrite not_elem_of_list_to_map_1.
    + by rewrite !lookup_insert_ne.
Qed.

(** What a codec must give for the entries of a cache. *)
Definition codec_ok s : Prop := forall h x, entries s !! h = Some x ->
  exists j, serde_to_vec (response x) = Some j /\ j <> [] /\ serde_from_slice j = Some (response x).
(** Every entry is cached under the hash of the query it keeps. *)
Definition keyed s : Prop := forall h x, entries s !! h = Some x -> exists q, query_text x = Some q /\ hash_query q = h.

Definition timely (ms : list (Clock * ProtoEvent)) : Prop :=
  Forall (fun m => pe_absolute_expiry_ms m.2 <= 0 \/ now_ms m.1 < pe_absolute_expiry_ms m.2) ms.

Lemma Forall2_imap {A B} (f : nat -> A -> B) l : Forall2 (fun p x => exists i, p = f i x) (imap f l) l.
Proof.
  revert f. induction l as [|x l IH]; intros f; simpl; constructor; [by eexists|].
  eapply Forall2_impl; [apply (IH (f ∘ S))|]. intros p y [i ->]. by eexists.
Qed.

Lemma snapshot_entries_map s : keyed s -> codec_ok s ->
  snapshot_entries s = map (fun hx : QueryHash * CacheEntry =>
    (default [] (query_text hx.2), default [] (serde_to_vec (response hx.2)), ce_upstream_id hx.2)) (map_iter (entries s)).
Proof.
  intros Hk Hc. unfold snapshot_entries.
  assert (Hin : forall hx, hx ∈ map_iter (entries s) -> entries s !! hx.1 = Some hx.2).
  { intros [h x] Hx. rewrite map_iter_perm in Hx. by apply elem_of_map_to_list in Hx. }
  induction (map_iter (entries s)) as [|hx l IH]; simpl; [done|].
  destruct (Hc hx.1 hx.2) as (j & Hj & _); [apply Hin; set_solver|]. rewrite Hj. simpl. f_equal.
  apply IH. intros hy Hy. apply Hin. set_solver.
Qed.

Lemma stream_snapshot_good clk node local s ms :
  node <> local -> keyed s -> codec_ok s -> timely ms -> ms.*2 = stream_snapshot clk node s ->
  Forall2 (good_message local) ms (map_iter (entries s)).
Proof.
  intros Hn Hk Hc Ht Hms. unfold stream_snapshot in Hms. rewrite snapshot_entries_map in Hms by done.
  change (map ?f ?l) with (f <$> l) in Hms. rewrite imap_fmap in Hms.
  match type of Hms with _ = imap ?f ?l => pose proof (Forall2_imap f l) as Hf end. rewrite <- Hms in Hf. clear Hms.
  assert (Hin : forall hx, hx ∈ map_iter (entries s) -> entries s !! hx.1 = Some hx.2).
  { intros [h x] Hx. rewrite map_iter_perm in Hx. by apply elem_of_map_to_list in Hx. }
  remember (map_iter (entries s)) as l. clear Heql. revert l Hf Hin.
  induction ms as [|[c p] ms IH]; intros l Hf Hin; simpl in *.
  { apply Forall2_nil_inv_l in Hf as ->. constructor. }
  apply Forall2_cons_inv_l in Hf as (hx & l' & [i Hp] & Hf & ->). apply Forall_cons in Ht as [Ht1 Ht].
  constructor; [|apply IH; [done|done|intros; apply Hin; set_solver]].
  destruct (Hk hx.1 hx.2) as (q & Hq & Hh); [apply Hin; set_solver|].
  destruct (Hc hx.1 hx.2) as (j & Hj & Hj0 & Hd); [apply Hin; set_solver|].
  unfold good_message, proto_to_internal. simpl in *. rewrite Hp in *. simpl in *. rewrite Hq, Hj. simpl.
  eexists. split; [done|]. simpl. by split_and!.
Qed.

(** C15: a snapshot reproduces the cache: streamed by one node and received in time by
    another with an empty cache and room for it, it leaves there exactly the same
    responses under the same keys, and counts all of them as applied. *)
Theorem snapshot_replicates N clk node local src dst ms :
  inv N dst -> plain dst -> per_upstream_limit dst = None -> max_memory_bytes dst <= 0 ->
  entries dst = ∅ -> queue_len dst = 0%nat -> Z.of_nat (size (entries src)) <= N ->
  node <> local -> keyed src -> codec_ok src -> timely ms -> ms.*2 = stream_snapshot clk node src ->
  let '(n, dst') := request_snapshot local ms 0 dst in
  n = Z.of_nat (size (entries src)) /\ inv N dst' /\
  forall h, response <$> entries dst' !! h = response <$> entries src !! h.
Proof.
  intros Hi Hp Hu Hm He Hq Hsz Hn Hk Hc Ht Hms.
  pose proof (stream_snapshot_good clk node local src ms Hn Hk Hc Ht Hms) as Hf.
  pose proof (map_iter_perm (entries src)) as Hperm.
  assert (Hlen : zlen (map_iter (entries src)) = Z.of_nat (size (entries src))).
  { unfold zlen. rewrite Hperm. f_equal. apply length_map_to_list. }
  assert (Hnd : NoDup (map_iter (entries src)).*1) by (rewrite Hperm; apply NoDup_fst_map_to_list).
  assert (HN : N < usize_max) by (destruct Hi as (_ & [_ ?] & _); done).
  pose proof (request_snapshot_run N local ms (map_iter (entries src)) dst 0) as Hrun.
  destruct (request_snapshot local ms 0 dst) as [n dst'].
  destruct Hrun as (-> & Hi' & Hs); try done; try lia.
  - intros h _. by rewrite He, lookup_empty.
  - unfold usize_max in *. lia.
  - split_and!; [lia|done|]. intros h. rewrite Hs, He, lookup_empty.
    rewrite (list_to_map_proper _ (map_to_list (entries src))) by done. rewrite list_to_map_to_list.
    by destruct (entries src !! h).
Qed.
End Receive.

(** ** Witnesses: payloads carry the content of the only result. *)

Definition PeerEnv : CacheEnv :=
  {| env_externals := DemoExternals; env_case := AsciiCase;
     serde_to_vec := fun r => Some (1 :: match results r with x :: _ => content x | [] => [] end);
     size_of_CacheEntry := 200; map_iter := map_to_list |}.
Definition PeerCodec : Codec :=
  {| serde_from_slice := fun b =>
       match b with
       | 1 :: t => Some {| results := [{| sr_id := lit "doc"; score := F32.of_Z 1; content := t; metadata := None;
                                          sr_upstream_id := None |}];
                           cache_status := Miss; took_ms := 3; generated_at := None; miss_reason := None |}
       | _ => None
       end |}.
#[local] Existing Instance PeerEnv.
#[local] Existing Instance PeerCodec.
#[export] Instance PeerEnv_laws : CacheEnvLaws PeerEnv.
Proof. split; simpl; [done|]. unfold usize_max, u_max. lia. Qed.

Definition at_ms (n : Z) : Clock := {| mono := n * 1000000; wall := n * 1000000 |}.
Definition demo_event (ms : Z) (text : string) : CdcEvent :=
  {| ev_sequence := 1; timestamp_ms := ms; event_type := Insert; query_key := lit "beta"; payload := 1 :: lit text;
     ev_upstream_id := lit "up"; ev_context_id := []; origin_node_id := lit "a"; absolute_expiry_ms := 0 |}.

Lemma receive_lww_witness :
  let '(ok, s') := receive (at_ms 100) (lit "b") (demo_event 10 "x") demo_init in
  ok = true /\ inv 2 s' /\ applied_content (at_ms 100) (demo_event 10 "x") demo_init s'.
Proof.
  assert (fst (receive (at_ms 100) (lit "b") (demo_event 10 "x") demo_init) = true) as Hok by (vm_compute; reflexivity).
  assert (inv 2 demo_init) as Hi by (apply inv_init; unfold usize_max, u_max; lia).
  pose proof (receive_lww 2 (at_ms 100) (lit "b") (demo_event 10 "x") demo_init Hi eq_refl) as H.
  destruct (receive (at_ms 100) (lit "b") (demo_event 10 "x") demo_init) as [ok s']. simpl in Hok. subst ok.
  destruct H as (H1 & _ & _ & _ & H2). exact (conj eq_refl (conj H1 H2)).
Defined.

(** Written at 10 and 20 ms, received at 100 and 101 ms. *)
Lemma newer_write_lost_witness :
  let '(ok1, s1) := receive (at_ms 100) (lit "b") (demo_event 10 "old") demo_init in
  let '(ok2, s2) := receive (at_ms 101) (lit "b") (demo_event 20 "new") s1 in
  ok1 = true /\ ok2 = false /\
  response <$> entries s2 !! hash_query (query_key (demo_event 10 "old")) = Some (demo_response "old").
Proof.
  apply (newer_write_lost 2 (at_ms 100) (at_ms 101) (lit "b") (demo_event 10 "old") (demo_event 20 "new")
           (demo_response "old") demo_init).
  - apply inv_init. unfold usize_max, u_max. lia.
  - reflexivity.
  - reflexivity.
  - reflexivity.
  - reflexivity.
  - reflexivity.
  - split; [vm_compute; reflexivity|]. left. vm_compute. discriminate.
  - reflexivity.
  - discriminate.
  - left. vm_compute. discriminate.
  - discriminate.
  - reflexivity.
  - reflexivity.
  - vm_compute. discriminate.
Defined.

Definition demo_source : CacheStore :=
  insert (at_ms 6) (lit "Gamma") (demo_response "g") (lit "up")
    (insert (at_ms 5) (lit "beta") (demo_response "b") (lit "up") demo_init).
Definition demo_messages : list (Clock * ProtoEvent) :=
  map (fun p => (at_ms 50, p)) (stream_snapshot (at_ms 40) (lit "a") demo_source).

Lemma map_check {A} (f : QueryHash * A -> bool) (m : gmap QueryHash A) :
  forallb f (map_to_list m) = true -> forall h x, m !! h = Some x -> f (h, x) = true.
Proof.
  intros Hf h x Hx. rewrite forallb_forall in Hf. apply Hf. apply list_elem_of_In. by apply elem_of_map_to_list.
Qed.
Lemma map_value_in {A B} (f : A -> B) (m : gmap QueryHash A) h x :
  m !! h = Some x -> In (f x) (map (fun hx => f hx.2) (map_to_list m)).
Proof.
  intros Hx. apply elem_of_map_to_list, list_elem_of_In in Hx. exact (in_map (fun hx => f hx.2) _ _ Hx).
Qed.
Definition keyed_entry (hx : QueryHash * CacheEntry) : bool :=
  match query_text hx.2 with Some q => str_eqb (hash_query q) hx.1 | None => false end.
Lemma demo_keyed_all : forallb keyed_entry (map_to_list (entries demo_source)) = true.
Proof. vm_compute. reflexivity. Qed.
Lemma demo_keyed : keyed demo_source.
Proof.
  intros h x Hx. pose proof (map_check keyed_entry _ demo_keyed_all h x Hx) as Hb. unfold keyed_entry in Hb.
  simpl in Hb. destruct (query_text x) as [q|]; [|discriminate].
  apply bool_decide_eq_true in Hb. exact (ex_intro _ q (conj eq_refl Hb)).
Qed.
Lemma demo_responses :
  map (fun hx => response hx.2) (map_to_list (entries demo_source)) = [demo_response "b"; demo_response "g"].
Proof. vm_compute. reflexivity. Qed.
Lemma demo_codec : codec_ok demo_source.
Proof.
  intros h x Hx. eexists. split; [reflexivity|]. split; [discriminate|].
  pose proof (map_value_in response _ _ _ Hx) as Hin. rewrite demo_responses in Hin.
  simpl in Hin. destruct Hin as [<-|[<-|[]]]; reflexivity.
Qed.
Lemma demo_timely : timely demo_messages.
Proof.
  apply (bool_decide_eq_true (timely demo_messages)). vm_compute. reflexivity.
Qed.

Lemma snapshot_replicates_witness :
  let '(n, dst') := request_snapshot (lit "b") demo_messages 0 demo_init in
  n = Z.of_nat (size (entries demo_source)) /\
  response <$> entries dst' !! hash_query (lit "gamma") = response <$> entries demo_source !! hash_query (lit "gamma").
Proof.
  pose proof (snapshot_replicates 2 (at_ms 40) (lit "a") (lit "b") demo_source demo_init demo_messages) as H.
  destruct (request_snapshot (lit "b") demo_messages 0 demo_init) as [n dst'].
  destruct H as (H1 & _ & H2);
    [apply inv_init; unfold usize_max, u_max; lia|reflexivity|reflexivity|discriminate|reflexivity|reflexivity
    |vm_compute; discriminate|discriminate|exact demo_keyed|exact demo_codec|exact demo_timely
    |vm_compute; reflexivity|].
  exact (conj H1 (H2 (hash_query (lit "gamma")))).
Defined.
