(* ===== verification/PeerSys.v ===== *)
(** * Two nodes that replicate to each other

    Each node's cache publishes its changes and each node receives the other's stream
    in order (no subscriber lags).  The caches change by local operations and by
    received events, interleaved in any way. *)

From Stdlib Require Import SpecFloat.
From S2P Require Import Prelude Floats Text Types Cdc Cache CacheInv CacheReach CacheSpec CacheProps Peer PeerProps.
Open Scope Z_scope.
Open Scope conproxy_scope.

(** The changes a node makes itself. *)
Inductive LocalOp :=
| LInsert (q : str) (r : QueryResponse) (u ctx : str)
| LInsertByHash (h : QueryHash) (r : QueryResponse) (u : str) (key : option str)
| LRemove (q : str)
| LClear.

(** [read_x] counts the events of the other node that node [x] has received. *)
Record Pair := { node_a : CacheStore; node_b : CacheStore; read_a : nat; read_b : nat }.

Inductive PairStep :=
| LocalA (clk : Clock) (o : LocalOp)
| LocalB (clk : Clock) (o : LocalOp)
| DeliverA (clk : Clock)
| DeliverB (clk : Clock).

Definition events_of (s : CacheStore) : list CdcEvent :=
  match cdc_sender s with Some es => published es | None => [] end.

Section Pair.
Context `{E : CacheEnv} {L : CacheEnvLaws E} `{C : Codec}.
Context (ida idb : str).

Definition local_op (clk : Clock) (o : LocalOp) (s : CacheStore) : CacheStore :=
  match o with
  | LInsert q r u ctx => insert_with_context clk q r u ctx s
  | LInsertByHash h r u key => insert_by_hash clk h r u key s
  | LRemove q => remove clk q s
  | LClear => clear clk s
  end.

(** The next event of [from], over the wire, into [to]. *)
Definition deliver (clk : Clock) (local : str) (from : CacheStore) (read : nat) (to : CacheStore) : option CacheStore :=
  match events_of from !! read with
  | Some e =>
      match proto_to_internal (internal_to_proto e) with
      | Some e => Some (snd (receive clk local e to))
      | None => Some to
      end
  | None => None
  end.

Definition pair_exec (st : PairStep) (p : Pair) : option Pair :=
  match st with
  | LocalA clk o => Some {| node_a := local_op clk o (node_a p); node_b := node_b p; read_a := read_a p; read_b := read_b p |}
  | LocalB clk o => Some {| node_a := node_a p; node_b := local_op clk o (node_b p); read_a := read_a p; read_b := read_b p |}
  | DeliverA clk =>
      match deliver clk ida (node_b p) (read_a p) (node_a p) with
      | Some a => Some {| node_a := a; node_b := node_b p; read_a := S (read_a p); read_b := read_b p |}
      | None => None
      end
  | DeliverB clk =>
      match deliver clk idb (node_a p) (read_b p) (node_b p) with
      | Some b => Some {| node_a := node_a p; node_b := b; read_a := read_a p; read_b := S (read_b p) |}
      | None => None
      end
  end.

Fixpoint pair_run (sts : list PairStep) (p : Pair) : option Pair :=
  match sts with
  | [] => Some p
  | st :: sts => match pair_exec st p with Some p => pair_run sts p | None => None end
  end.

(** ** What a step publishes *)

Definition own (id : str) (e : CdcEvent) : Prop := origin_node_id e = id /\ absolute_expiry_ms e = 0.

(** The sender stays, and publishes some more of its own events. *)
Definition grows (s s' : CacheStore) : Prop :=
  forall es, cdc_sender s = Some es ->
  exists es' new, cdc_sender s' = Some es' /\ node_id es' = node_id es /\
    published es' = published es ++ new /\ Forall (own (node_id es)) new.

Lemma grows_same s s' : cdc_sender s' = cdc_sender s -> grows s s'.
Proof. intros Hs es He. exists es, []. rewrite Hs, app_nil_r. by split_and!. Qed.
Lemma grows_cfg s s' : cfg s' = cfg s -> grows s s'.
Proof. intros Hc. apply grows_same. unfold cfg in Hc. congruence. Qed.
Lemma grows_trans s s1 s2 : grows s s1 -> grows s1 s2 -> grows s s2.
Proof.
  intros H1 H2 es He. destruct (H1 es He) as (es1 & n1 & He1 & Hn1 & Hp1 & Hf1).
  destruct (H2 es1 He1) as (es2 & n2 & He2 & Hn2 & Hp2 & Hf2). rewrite Hn1 in *.
  exists es2, (n1 ++ n2). split_and!; [done|congruence|by rewrite Hp2, Hp1, app_assoc|by apply Forall_app].
Qed.
Lemma grows_emit clk ty b s : b_absolute_expiry_ms b = 0 -> grows s (emit clk ty b s).
Proof.
  intros Hb es He. unfold emit. rewrite He. simpl. eexists _, [_]. split_and!; [done|done|done|].
  constructor; [|done]. by split.
Qed.
Lemma grows_fold_emit clk removed s :
  grows s (fold_left (fun s e => match query_text e with
                                 | Some q => emit clk Remove (builder_remove q) s
                                 | None => s
                                 end) removed s).
Proof.
  revert s. induction removed as [|e es IH]; intros s; simpl; [by apply grows_same|].
  eapply grows_trans; [|apply IH]. destruct (query_text e); [by apply grows_emit|by apply grows_same].
Qed.

Lemma grows_check_limit clk u s : W s -> grows s (check_upstream_limit clk u s).
Proof.
  intros HW. unfold check_upstream_limit, evict_from_upstream. destruct (per_upstream_limit s); [|by apply grows_same].
  destruct (_ <=? _); [|by apply grows_same]. simpl.
  match goal with |- context [remove_all ?l s] => pose proof (reduces_remove_all l s HW) as Hr;
    destruct (remove_all l s) as [removed s1] end. simpl in Hr.
  eapply grows_trans; [eapply grows_cfg, rd_cfg, Hr|].
  assert (grows s1 (match cdc_sender s1 with Some _ => fold_left (fun s e => match query_text e with
                                 | Some q => emit clk Remove (builder_remove q) s
                                 | None => s
                                 end) removed s1 | None => s1 end))
    by (destruct (cdc_sender s1); [apply grows_fold_emit|by apply grows_same]).
  destruct (0 <? zlen removed); simpl; (eapply grows_trans; [eassumption|by apply grows_same]).
Qed.

Lemma grows_admit N h e s s' :
  inv N s -> freq e = 0 ->
  entries s' = entries (tracked_insert h e s) -> s3fifo s' = s3fifo s ->
  total_memory_bytes s' = total_memory_bytes (tracked_insert h e s) ->
  grows s' (if negb (bool_decide (is_Some (entries s !! h))) then s3fifo_admit h s' else s').
Proof.
  intros (HW & Hc & Hl) Hf He Hs Hm. destruct (tracked_insert_frame h e s) as (Hen & _).
  destruct (entries s !! h) as [o|] eqn:Ho.
  - rewrite bool_decide_eq_true_2 by eauto. by apply grows_same.
  - rewrite bool_decide_eq_false_2 by (by intros []). simpl.
    destruct (admit_spec N h e s' (entries s) (total_memory_bytes s)) as (_ & _ & Hcfg & _);
      [by rewrite Hs|done|by rewrite He|by rewrite Hm, tracked_insert_new_memory|done|by rewrite Hs| |].
    + unfold queue_len in *. by rewrite Hs.
    + by apply grows_cfg.
Qed.

Lemma grows_insert_impl N clk q r u c s : inv N s -> grows s (insert_impl clk q r u c s).
Proof.
  intros Hi. unfold insert_impl. set (s1 := check_upstream_limit clk u s).
  assert (Hi1 : inv N s1) by (by apply inv_check_upstream_limit).
  eapply grows_trans; [apply (grows_check_limit clk u), Hi|]. fold s1.
  match goal with |- context [tracked_insert ?h ?e s1] =>
    pose proof (tracked_insert_frame h e s1) as (Hen & Hst & Hcfg & _);
    pose proof (grows_admit N h e s1) as Hadm; set (s2 := tracked_insert h e s1) in * end.
  match goal with |- context [if _ then s3fifo_admit _ ?x else _] =>
    specialize (Hadm x Hi1 eq_refl); set (s3 := x) in * end.
  eapply grows_trans; [apply (grows_cfg _ s2); done|].
  eapply (grows_trans _ s3); [apply grows_same; unfold s3; by destruct (normalized_matching s2)|].
  eapply grows_trans; [apply Hadm; unfold s3; by destruct (normalized_matching s2)|].
  destruct (cdc_sender s1); [destruct (serde_to_vec r)|]; try (by apply grows_same). by apply grows_emit.
Qed.

Lemma grows_insert_by_hash N clk h r u k s : inv N s -> grows s (insert_by_hash clk h r u k s).
Proof.
  intros Hi. unfold insert_by_hash. set (s1 := check_upstream_limit clk u s).
  assert (Hi1 : inv N s1) by (by apply inv_check_upstream_limit).
  eapply grows_trans; [apply (grows_check_limit clk u), Hi|]. fold s1.
  match goal with |- context [tracked_insert ?h ?e s1] =>
    pose proof (tracked_insert_frame h e s1) as (Hen & Hst & Hcfg & _);
    pose proof (grows_admit N h e s1 (tracked_insert h e s1) Hi1 eq_refl eq_refl Hst eq_refl) as Hadm end.
  eapply grows_trans; [by apply grows_cfg|]. eapply grows_trans; [exact Hadm|].
  destruct (cdc_sender s1), k; try destruct (serde_to_vec r); try (by apply grows_same). by apply grows_emit.
Qed.

Lemma grows_remove clk q s : grows s (remove clk q s).
Proof.
  unfold remove. pose proof (tracked_remove_spec (hash_query q) s) as Hs. destruct (tracked_remove _ _) as [x s1].
  simpl in Hs. eapply grows_trans; [|by apply grows_emit]. apply grows_same. simpl.
  destruct Hs as (_ & _ & _ & Hc & _). unfold cfg in Hc. congruence.
Qed.
Lemma grows_clear clk s : grows s (clear clk s).
Proof. unfold clear. eapply grows_trans; [|by apply grows_emit]. by apply grows_same. Qed.

Lemma local_op_step N clk o s : inv N s -> inv N (local_op clk o s) /\ grows s (local_op clk o s).
Proof.
  intros Hi. destruct o; simpl.
  - split; [by apply inv_insert_impl|by eapply grows_insert_impl].
  - split; [by apply inv_insert_by_hash|by eapply grows_insert_by_hash].
  - split; [by apply inv_remove|apply grows_remove].
  - split; [by apply inv_clear|apply grows_clear].
Qed.

Lemma get_sender q s : cdc_sender (snd (get q s)) = cdc_sender s.
Proof.
  unfold get, get_two_tier, bump_freq. destruct (normalized_matching s); [destruct (tier1 q s) as [[nh x]|]|].
  - simpl. by destruct (entries s !! nh).
  - destruct (entries s !! hash_query q) eqn:He; simpl; [|done]. by rewrite He.
  - destruct (entries s !! hash_query q) eqn:He; simpl; [|done]. by rewrite ?He.
Qed.

Lemma deduplicate_step N clk e local s :
  inv N s -> inv N (snd (deduplicate clk e local s)) /\ grows s (snd (deduplicate clk e local s)).
Proof.
  intros Hi. unfold deduplicate. destruct (str_eqb _ _); [split; [done|by apply grows_same]|].
  destruct (_ && _); [split; [done|by apply grows_same]|].
  destruct (event_type e); try (split; [done|by apply grows_same]).
  pose proof (inv_get N (query_key e) s Hi) as H1. pose proof (get_sender (query_key e) s) as H2.
  destruct (get (query_key e) s) as [[x|] s1]; simpl in *; [destruct (_ <=? _); simpl|];
    (split; [done|by apply grows_same]).
Qed.

Lemma receive_step N clk local e s :
  inv N s -> inv N (snd (receive clk local e s)) /\ grows s (snd (receive clk local e s)).
Proof.
  intros Hi. unfold receive. destruct (deduplicate_step N clk e local s Hi) as [H1 H2].
  destruct (deduplicate clk e local s) as [d s1]. simpl in *.
  assert (inv N (snd (apply_event clk e s1)) /\ grows s1 (snd (apply_event clk e s1))) as [H3 H4].
  { unfold apply_event. destruct (event_type e); try (split; [done|by apply grows_same]).
    - destruct (payload e) as [|b pl]; [split; [done|by apply grows_same]|].
      destruct (serde_from_slice (b :: pl)); simpl; [|split; [done|by apply grows_same]].
      split; [by apply inv_insert_impl|by eapply grows_insert_impl].
    - destruct (query_key e); simpl; [split; [by apply inv_clear|apply grows_clear]|].
      split; [by apply inv_remove|apply grows_remove]. }
  destruct d; simpl; (split; [done|]); try done. by eapply grows_trans.
Qed.

(** A removal is published when it is applied. *)
Lemma emit_events clk ty b s es : cdc_sender s = Some es ->
  exists e, events_of (emit clk ty b s) = events_of s ++ [e] /\ event_type e = ty.
Proof. intros He. unfold emit, events_of. rewrite He. simpl. by eexists. Qed.

Lemma receive_removal clk local id e s es :
  own id e -> id <> local -> event_type e = Remove -> cdc_sender s = Some es ->
  exists e', events_of (snd (receive clk local e s)) = events_of s ++ [e'] /\ event_type e' = Remove.
Proof.
  intros [Ho Hx] Hne Ht Hs. unfold receive, deduplicate, str_eqb. rewrite bool_decide_eq_false_2 by congruence.
  rewrite Hx. simpl. rewrite Ht. unfold apply_event. rewrite Ht. destruct (query_key e) as [|k ks]; simpl.
  - unfold clear. by destruct (emit_events clk Remove (builder_remove []) (wipe s) es Hs) as (e' & -> & He'); [exists e'].
  - unfold remove. pose proof (tracked_remove_spec (hash_query (k :: ks)) s) as Hr.
    destruct (tracked_remove _ _) as [x s1]. simpl in Hr. destruct Hr as (_ & _ & _ & Hc & _).
    assert (cdc_sender s1 = Some es) as Hs1 by (unfold cfg in Hc; congruence).
    set (s2 := put_exact_to_normalized s1 _).
    destruct (emit_events clk Remove (builder_remove (k :: ks)) s2 es Hs1) as (e' & -> & He').
    exists e'. split; [|done]. unfold events_of. simpl. by rewrite Hs1, Hs.
Qed.

(** ** The invariant and the storm *)

Record node_ok (N : Z) (id : str) (s : CacheStore) : Prop := {
  no_inv : inv N s;
  no_sender : exists es, cdc_sender s = Some es /\ node_id es = id;
  no_own : Forall (own id) (events_of s)
}.
Record pair_ok (N : Z) (p : Pair) : Prop := {
  po_a : node_ok N ida (node_a p);
  po_b : node_ok N idb (node_b p);
  po_read_a : (read_a p <= length (events_of (node_b p)))%nat;
  po_read_b : (read_b p <= length (events_of (node_a p)))%nat
}.

Lemma node_ok_step N id s s' : node_ok N id s -> inv N s' -> grows s s' ->
  node_ok N id s' /\ exists new, events_of s' = events_of s ++ new.
Proof.
  intros [Hi (es & Hs & Hid) Ho] Hi' Hg. destruct (Hg es Hs) as (es' & new & Hs' & Hn & Hp & Hf).
  assert (events_of s' = events_of s ++ new) as Hev by (unfold events_of; by rewrite Hs, Hs').
  split; [|by exists new]. split; [done|exists es'; split; [done|congruence]|].
  rewrite Hev. apply Forall_app. split; [done|]. by rewrite <- Hid.
Qed.

Definition removal_pending (log : list CdcEvent) (read : nat) : Prop :=
  exists i e, log !! i = Some e /\ (read <= i)%nat /\ event_type e = Remove.
Definition storm (p : Pair) : Prop :=
  removal_pending (events_of (node_a p)) (read_b p) \/ removal_pending (events_of (node_b p)) (read_a p).

Lemma removal_pending_app log new read : removal_pending log read -> removal_pending (log ++ new) read.
Proof. intros (i & e & Hi & Hr & Ht). exists i, e. split; [by apply lookup_app_l_Some|done]. Qed.

(** One delivery: the receiver's log grows; a removal is consumed only by publishing
    another one. *)
Lemma deliver_spec N clk id id' from read to to' :
  id <> id' -> node_ok N id from -> node_ok N id' to -> deliver clk id' from read to = Some to' ->
  node_ok N id' to' /\ (S read <= length (events_of from))%nat /\
  (exists new, events_of to' = events_of to ++ new) /\
  (removal_pending (events_of from) read ->
     removal_pending (events_of from) (S read) \/ removal_pending (events_of to') (length (events_of to))).
Proof.
  intros Hne Hf Ht. unfold deliver. destruct (events_of from !! read) as [e|] eqn:He; [|done].
  rewrite (proto_back e). intros [= <-].
  destruct (receive_step N clk id' e to (no_inv _ _ _ Ht)) as [Hi Hg].
  destruct (node_ok_step N id' to _ Ht Hi Hg) as [Hok [new Hnew]].
  split_and!; [done|by apply lookup_lt_Some in He|by exists new|].
  intros (i & e' & Hi' & Hr & Hty). destruct (decide (i = read)) as [->|Hd].
  - right. assert (e' = e) as -> by congruence. destruct (no_sender _ _ _ Ht) as (es & Hs & _).
    assert (own id e) as Ho by (by eapply Forall_lookup_1; [apply Hf|]).
    destruct (receive_removal clk id' id e to es Ho Hne Hty Hs) as (e2 & Hev & Ht2).
    exists (length (events_of to)), e2. rewrite Hev. split; [by apply list_lookup_middle|]. by split.
  - left. exists i, e'. split; [done|]. split; [lia|done].
Qed.

Lemma pair_step_ok N st p p' : ida <> idb -> pair_ok N p -> pair_exec st p = Some p' ->
  pair_ok N p' /\ (storm p -> storm p').
Proof.
  intros Hne [Ha Hb Hra Hrb] He. destruct st as [clk o|clk o|clk|clk]; simpl in He.
  - injection He as <-. destruct (local_op_step N clk o (node_a p) (no_inv _ _ _ Ha)) as [Hi Hg].
    destruct (node_ok_step _ _ _ _ Ha Hi Hg) as [Hok [new Hnew]].
    split; [split; simpl; try done; rewrite Hnew, length_app; lia|].
    intros [Hs|Hs]; [left|by right]. simpl. rewrite Hnew. by apply removal_pending_app.
  - injection He as <-. destruct (local_op_step N clk o (node_b p) (no_inv _ _ _ Hb)) as [Hi Hg].
    destruct (node_ok_step _ _ _ _ Hb Hi Hg) as [Hok [new Hnew]].
    split; [split; simpl; try done; rewrite Hnew, length_app; lia|].
    intros [Hs|Hs]; [by left|right]. simpl. rewrite Hnew. by apply removal_pending_app.
  - destruct (deliver clk ida (node_b p) (read_a p) (node_a p)) as [a|] eqn:Ed; [|done]. injection He as <-.
    destruct (deliver_spec N clk idb ida _ _ _ _ (not_eq_sym Hne) Hb Ha Ed) as (Hok & Hr & [new Hnew] & Hp).
    split; [split; simpl; try done; rewrite Hnew, length_app; lia|].
    intros [Hs|Hs]; [left; simpl; rewrite Hnew; by apply removal_pending_app|].
    destruct (Hp Hs) as [H|(i & e & Hi & Hl & Ht)]; [by right|left]. exists i, e. simpl. split; [done|]. split; [lia|done].
  - destruct (deliver clk idb (node_a p) (read_b p) (node_b p)) as [b|] eqn:Ed; [|done]. injection He as <-.
    destruct (deliver_spec N clk ida idb _ _ _ _ Hne Ha Hb Ed) as (Hok & Hr & [new Hnew] & Hp).
    split; [split; simpl; try done; rewrite Hnew, length_app; lia|].
    intros [Hs|Hs]; [|right; simpl; rewrite Hnew; by apply removal_pending_app].
    destruct (Hp Hs) as [H|(i & e & Hi & Hl & Ht)]; [by left|right]. exists i, e. simpl. split; [done|]. split; [lia|done].
Qed.

(** C38: a removal never comes to rest: once two nodes replicate to each other and one
    has published a removal that the other has not yet received, then after every
    sequence of local changes and deliveries some removal is still on its way, so
    that there is always an event to deliver. *)
Theorem removal_storm N sts : forall p p',
  ida <> idb -> pair_ok N p -> storm p -> pair_run sts p = Some p' ->
  storm p' /\ ((read_b p' < length (events_of (node_a p')))%nat \/ (read_a p' < length (events_of (node_b p')))%nat).
Proof.
  induction sts as [|st sts IH]; intros p p' Hne Hok Hs; simpl.
  - intros [= <-]. split; [done|].
    destruct Hs as [(i & e & Hi & Hr & _)|(i & e & Hi & Hr & _)]; [left|right]; apply lookup_lt_Some in Hi; lia.
  - destruct (pair_exec st p) as [p1|] eqn:Ee; [|done].
    destruct (pair_step_ok N st p p1 Hne Hok Ee) as [Hok1 Hs1]. apply IH; auto.
Qed.
End Pair.

(** ** Witness: one removal, and a run in which it removes what was stored after it. *)

#[local] Existing Instance PeerEnv.
#[local] Existing Instance PeerCodec.

Definition demo_node (id : string) : CacheStore := with_cdc_sender (EventSender_new (lit id)) demo_init.
Definition demo_pair : Pair :=
  {| node_a := remove (at_ms 1) (lit "beta") (demo_node "a"); node_b := demo_node "b"; read_a := 0; read_b := 0 |}.
Definition demo_steps : list PairStep :=
  [LocalA (at_ms 2) (LInsert (lit "beta") (demo_response "fresh") (lit "up") (lit "default"));
   DeliverB (at_ms 3); DeliverA (at_ms 4)].

Lemma demo_node_inv id : inv 2 (demo_node id).
Proof. apply (inv_ext 2 demo_init); try reflexivity. apply inv_init. unfold usize_max, u_max. lia. Qed.

Lemma demo_pair_ok : pair_ok (lit "a") (lit "b") 2 demo_pair.
Proof.
  split; simpl; [| |lia|lia].
  - split; [apply inv_remove, demo_node_inv|by eexists|]. by constructor.
  - split; [apply demo_node_inv|by eexists|]. constructor.
Qed.

Lemma removal_storm_witness :
  exists p', pair_run (lit "a") (lit "b") demo_steps demo_pair = Some p' /\ storm p' /\
    entries (node_a p') = ∅.
Proof.
  assert (exists p', pair_run (lit "a") (lit "b") demo_steps demo_pair = Some p' /\ entries (node_a p') = ∅)
    as (p' & Hr & He) by (eexists; split; [vm_compute; reflexivity|vm_compute; reflexivity]).
  exists p'. split; [exact Hr|]. split; [|exact He].
  refine (proj1 (removal_storm (lit "a") (lit "b") 2 demo_steps demo_pair p' _ demo_pair_ok _ Hr)); [discriminate|].
  left. eexists 0%nat, _. split; [vm_compute; reflexivity|]. split; [simpl; lia|reflexivity].
Defined.

(** * Fetches announced by peers (src/src/proxy/peer/singleflight.rs)

    A node that sees a peer's FETCH_START makes its own requests for the key wait on
    a [Notify] until the answer or a FETCH_CANCEL arrives, or a time-out.  A [Notify]
    is a number; [woken] records the calls of [notify_waiters]. *)

Record FetchState := { fs_origin_node_id : str; fs_notify : Z }.
Record DistributedCoalescer := {
  active_fetches : gmap str FetchState;
  dc_sender : EventSender;
  dc_wait_timeout : Z;
  next_notify : Z;
  woken : list Z
}.
Definition DistributedCoalescer_new (sender : EventSender) (timeout : Z) : DistributedCoalescer :=
  {| active_fetches := ∅; dc_sender := sender; dc_wait_timeout := timeout; next_notify := 0; woken := [] |}.

Inductive CoalesceDecision := Proceed | WaitFor (n : Z).

Definition dc_check (k : str) (c : DistributedCoalescer) : CoalesceDecision :=
  match active_fetches c !! k with Some f => WaitFor (fs_notify f) | None => Proceed end.

Definition dc_publish (clk : Clock) (ty : CdcEventType) (b : CdcEventBuilder) (c : DistributedCoalescer) : DistributedCoalescer :=
  {| active_fetches := active_fetches c; dc_sender := send (now_ms clk) (dc_sender c) ty b;
     dc_wait_timeout := dc_wait_timeout c; next_notify := next_notify c; woken := woken c |}.

(** Take the entry of a key; wake its waiters or not. *)
Definition dc_take (wake : bool) (k : str) (c : DistributedCoalescer) : DistributedCoalescer :=
  {| active_fetches := delete k (active_fetches c); dc_sender := dc_sender c; dc_wait_timeout := dc_wait_timeout c;
     next_notify := next_notify c;
     woken := match active_fetches c !! k with
              | Some f => if wake then woken c ++ [fs_notify f] else woken c
              | None => woken c
              end |}.

Definition register_fetch (clk : Clock) (k : str) (c : DistributedCoalescer) : DistributedCoalescer :=
  dc_publish clk FetchStart (builder_fetch_start k) c.
Definition complete_fetch (k : str) : DistributedCoalescer -> DistributedCoalescer := dc_take true k.
Definition cancel_fetch (clk : Clock) (k : str) (c : DistributedCoalescer) : DistributedCoalescer :=
  dc_publish clk FetchCancel (builder_fetch_cancel k) (dc_take false k c).
Definition on_remote_fetch_start (k origin : str) (c : DistributedCoalescer) : DistributedCoalescer :=
  {| active_fetches := <[k := {| fs_origin_node_id := origin; fs_notify := next_notify c |}]> (active_fetches c);
     dc_sender := dc_sender c; dc_wait_timeout := dc_wait_timeout c; next_notify := next_notify c + 1;
     woken := woken c |}.
Definition on_remote_fetch_cancel (k : str) : DistributedCoalescer -> DistributedCoalescer := dc_take true k.
Definition on_remote_insert (k : str) : DistributedCoalescer -> DistributedCoalescer := dc_take true k.
Definition active_fetch_count (c : DistributedCoalescer) : Z := Z.of_nat (size (active_fetches c)).

(** A wait ends with [true] when its [Notify] is woken after the wait began, and with
    [false] at the time-out. *)
Definition wait_for_fetch (n : Z) (before after : list Z) : bool :=
  bool_decide (n ∈ drop (length before) after).

(** ** Who is released *)

Inductive dc_op :=
| DRegister (clk : Clock) (k : str) | DComplete (k : str) | DCancel (clk : Clock) (k : str)
| DStart (k origin : str) | DRemoteCancel (k : str) | DRemoteInsert (k : str).
Definition dc_apply (o : dc_op) : DistributedCoalescer -> DistributedCoalescer :=
  match o with
  | DRegister clk k => register_fetch clk k
  | DComplete k => complete_fetch k
  | DCancel clk k => cancel_fetch clk k
  | DStart k origin => on_remote_fetch_start k origin
  | DRemoteCancel k => on_remote_fetch_cancel k
  | DRemoteInsert k => on_remote_insert k
  end.
Definition dc_run (os : list dc_op) (c : DistributedCoalescer) : DistributedCoalescer := foldl (flip dc_apply) c os.

(** The operations that drop the entry of a key without waking anybody. *)
Definition forgets (k : str) (o : dc_op) : bool :=
  match o with DStart k' _ | DCancel _ k' => str_eqb k k' | _ => false end.
(** The operations that release the waiters of a key. *)
Definition releases (k : str) (o : dc_op) : bool :=
  match o with DComplete k' | DRemoteCancel k' | DRemoteInsert k' => str_eqb k k' | _ => false end.

Lemma woken_grows o c : exists l, woken (dc_apply o c) = woken c ++ l.
Proof.
  destruct o; simpl; try (exists []; by rewrite app_nil_r);
    (destruct (active_fetches c !! k); [by eexists|exists []; by rewrite app_nil_r]) ||
    (exists []; rewrite app_nil_r; by destruct (active_fetches c !! k)).
Qed.
Lemma woken_run os : forall c, exists l, woken (dc_run os c) = woken c ++ l.
Proof.
  induction os as [|o os IH]; intros c; simpl; [exists []; by rewrite app_nil_r|].
  destruct (woken_grows o c) as [l1 H1]. destruct (IH (dc_apply o c)) as [l2 H2].
  exists (l1 ++ l2). unfold dc_run in *. simpl. by rewrite H2, H1, app_assoc.
Qed.

Lemma entry_kept k f o c : active_fetches c !! k = Some f -> forgets k o = false -> releases k o = false ->
  active_fetches (dc_apply o c) !! k = Some f.
Proof.
  assert (Hn : forall k', str_eqb k k' = false -> k' <> k).
  { intros k' Hb ->. unfold str_eqb in Hb. by rewrite bool_decide_eq_true_2 in Hb. }
  intros Hf H1 H2. destruct o; simpl in *; try done; rewrite ?lookup_delete_ne, ?lookup_insert_ne; auto.
Qed.

(** Every request that waits for a key is released by the first answer, cancellation
    or completion for it, unless the fetch was announced again or cancelled locally
    in between. *)
Theorem fetch_released k n os o c :
  dc_check k c = WaitFor n -> forallb (fun o => negb (forgets k o)) os = true -> releases k o = true ->
  wait_for_fetch n (woken c) (woken (dc_run (os ++ [o]) c)) = true.
Proof.
  intros Hc Hos Ho. unfold dc_check in Hc. destruct (active_fetches c !! k) as [f|] eqn:Hf; [|done].
  injection Hc as <-. unfold wait_for_fetch. apply bool_decide_eq_true.
  assert (exists l, woken (dc_run (os ++ [o]) c) = woken c ++ l /\ fs_notify f ∈ l) as (l & -> & Hl);
    [|by rewrite drop_app_length].
  assert (Hrel : forall o c, releases k o = true -> active_fetches c !! k = Some f ->
            woken (dc_apply o c) = woken c ++ [fs_notify f]).
  { intros o' c' Hr Hf'. destruct o'; simpl in Hr; try done; unfold str_eqb in Hr;
      apply bool_decide_eq_true in Hr as <-; simpl; by rewrite Hf'. }
  revert c Hf Hos. induction os as [|o1 os IH]; intros c Hf Hos; simpl in *.
  - exists [fs_notify f]. unfold dc_run. simpl. split; [by apply Hrel|set_solver].
  - apply andb_prop in Hos as [H1 Hos]. apply negb_true_iff in H1. unfold dc_run in *. simpl.
    destruct (releases k o1) eqn:Er.
    + destruct (woken_run (os ++ [o]) (dc_apply o1 c)) as [l Hl]. unfold dc_run in Hl.
      exists ([fs_notify f] ++ l). rewrite Hl, (Hrel o1 c Er Hf), app_assoc. split; [done|set_solver].
    + destruct (woken_grows o1 c) as [l1 Hl1].
      destruct (IH (dc_apply o1 c)) as (l & Hl & Hin); [by apply entry_kept|done|].
      exists (l1 ++ l). rewrite Hl, Hl1, app_assoc. split; [done|set_solver].
Qed.

(** A second announcement of a key strands the requests that wait for the first. *)
Example waiter_stranded :
  let c := on_remote_fetch_start (lit "q") (lit "b") (DistributedCoalescer_new (EventSender_new (lit "a")) 100) in
  dc_check (lit "q") c = WaitFor 0 /\
  wait_for_fetch 0 (woken c) (woken (dc_run [DStart (lit "q") (lit "c"); DRemoteInsert (lit "q")] c)) = false.
Proof. split; reflexivity. Qed.
