(* ===== verification/Workers.v ===== *)
(** * The background workers (src/src/proxy/workers)

    Recovery of an upstream that was offline, cleanup of the cache, health checks,
    detection of a new corpus version, and the scheduler that runs such tasks.  The
    timers are the sequence in which the steps are called; an HTTP exchange is an
    argument of the step that makes it. *)

From Stdlib Require Import SpecFloat.
From S2P Require Import Prelude Floats Text Types Cdc Cache CacheInv CacheReach CacheSweep CacheProps Retry Upstream Metrics Refresh.
Open Scope Z_scope.
Open Scope conproxy_scope.

(** ** Recovery: the tracker (workers/recovery.rs) *)

Record RecoveryConfig := {
  initial_rps : f32;
  max_rps : f32;
  rps_increment : f32;
  batch_size : Z;
  batch_delay : Z;
  stability_period : Z
}.

Definition RecoveryConfig_default : RecoveryConfig :=
  {| initial_rps := F32.of_Z 1; max_rps := F32.of_Z 50; rps_increment := F32.of_Z 5; batch_size := 5;
     batch_delay := from_millis 200; stability_period := from_secs 30 |}.

Inductive RecoveryState := RStable | RRecovering | RPaused | ROffline.
#[export] Instance RecoveryState_eq_dec : EqDecision RecoveryState.
Proof. solve_decision. Defined.

(** [state as u32] *)
Definition recovery_as_u32 (st : RecoveryState) : Z :=
  match st with RStable => 0 | RRecovering => 1 | RPaused => 2 | ROffline => 3 end.

(** The rate is kept in hundredths of a request per second. *)
Record RecoveryTracker := {
  rec_state : Z;
  rec_rps : Z;
  rec_recovering : bool;
  successful_batches : Z;
  required_batches : Z
}.

Definition RecoveryTracker_new (c : RecoveryConfig) : RecoveryTracker :=
  let batch_interval_secs := as_secs_f32 (batch_delay c) in
  let required := if f_gt batch_interval_secs f_zero
                  then f_to_u 32 (F32.div (as_secs_f32 (stability_period c)) batch_interval_secs) else 10 in
  {| rec_state := recovery_as_u32 RStable; rec_rps := f_to_u 32 (F32.mul (initial_rps c) (F32.of_Z 100));
     rec_recovering := false; successful_batches := 0; required_batches := Z.max required 1 |}.

Definition recovery_state (t : RecoveryTracker) : RecoveryState :=
  if rec_state t =? 0 then RStable else if rec_state t =? 1 then RRecovering
  else if rec_state t =? 2 then RPaused else ROffline.

Definition set_recovery_state (st : RecoveryState) (t : RecoveryTracker) : RecoveryTracker :=
  {| rec_state := recovery_as_u32 st; rec_rps := rec_rps t; rec_recovering := rec_recovering t;
     successful_batches := successful_batches t; required_batches := required_batches t |}.
Definition set_recovering (b : bool) (t : RecoveryTracker) : RecoveryTracker :=
  {| rec_state := rec_state t; rec_rps := rec_rps t; rec_recovering := b;
     successful_batches := successful_batches t; required_batches := required_batches t |}.
Definition set_batches (n : Z) (t : RecoveryTracker) : RecoveryTracker :=
  {| rec_state := rec_state t; rec_rps := rec_rps t; rec_recovering := rec_recovering t;
     successful_batches := n; required_batches := required_batches t |}.
Definition set_rps (rps : f32) (t : RecoveryTracker) : RecoveryTracker :=
  {| rec_state := rec_state t; rec_rps := f_to_u 32 (F32.mul rps (F32.of_Z 100));
     rec_recovering := rec_recovering t; successful_batches := successful_batches t;
     required_batches := required_batches t |}.
Definition current_rps (t : RecoveryTracker) : f32 := F32.div (F32.of_Z (rec_rps t)) (F32.of_Z 100).

Definition start_recovery (rps : f32) (t : RecoveryTracker) : RecoveryTracker :=
  set_batches 0 (set_rps rps (set_recovery_state RRecovering (set_recovering true t))).
Definition complete_recovery (t : RecoveryTracker) : RecoveryTracker :=
  set_recovery_state RStable (set_recovering false t).
Definition go_offline (t : RecoveryTracker) : RecoveryTracker :=
  set_recovery_state ROffline (set_recovering false t).

Definition rec_record_success (inc max : f32) (t : RecoveryTracker) : RecoveryTracker :=
  let prev := successful_batches t in
  let batches := sat_add 32 prev 1 in
  let t := set_batches (wrap 32 (prev + 1)) t in
  let t := set_rps (f_min (F32.add (current_rps t) inc) max) t in
  if required_batches t <=? batches then complete_recovery t else t.
Definition rec_record_failure (t : RecoveryTracker) : RecoveryTracker :=
  set_recovery_state RPaused (set_batches 0 t).

(** ** Recovery: the worker *)

(** [Duration::from_secs_f32] panics on a value that no duration represents. *)
Definition from_secs_f32_fits (x : f32) : bool :=
  is_finite x && negb (f_lt x f_zero) && f_lt x (F32.of_Z (2 ^ 64)).

(** The world of a worker: the shared cache and the shared health tracker. *)
Record RecoveryWorld := { rec_cache : CacheStore; rec_health : HealthTracker }.

Section Recovery.
Context `{CacheEnv}.
Context (cfg : RecoveryConfig) (base_url : str) (queries : gmap QueryHash str).

(** A call to the upstream: the clock when it returns, and its answer. *)
Definition UpstreamCall : Type := Clock * (QueryRequest -> result QueryResponse UpstreamError).

Definition refresh_entry (call : UpstreamCall) (hash : QueryHash) (q : str) (s : CacheStore) : bool * CacheStore :=
  match call.2 (plain_request q (Some 10)) with
  | Ok r => (true, insert_by_hash call.1 hash r base_url (Some q) s)
  | Err _ => (false, s)
  end.

Definition record_health (ok : bool) (now_ms : Z) (h : HealthTracker) : HealthTracker :=
  if ok then ht_record_success now_ms h else ht_record_failure now_ms h.

Fixpoint recovery_loop (t : RecoveryTracker) (calls : nat -> UpstreamCall) (hs : list QueryHash)
    (succ fail : Z) (w : RecoveryWorld) : outcome (Z * Z * RecoveryWorld) :=
  match hs with
  | [] => Ret (succ, fail, w)
  | hash :: hs =>
      match queries !! hash with
      | None => recovery_loop t calls hs succ fail w
      | Some q =>
          if from_secs_f32_fits (F32.div (F32.of_Z 1) (current_rps t)) then
            let '(ok, s) := refresh_entry (calls 0%nat) hash q (rec_cache w) in
            let w := {| rec_cache := s;
                        rec_health := record_health ok (wall (calls 0%nat).1 / 1000000) (rec_health w) |} in
            recovery_loop t (fun i => calls (S i)) hs
              (if ok then sat_add 32 succ 1 else succ) (if ok then fail else sat_add 32 fail 1) w
          else Panic
      end
  end.

Definition process_recovery_batch (clk : Clock) (calls : nat -> UpstreamCall) (t : RecoveryTracker)
    (w : RecoveryWorld) : outcome (RecoveryTracker * RecoveryWorld) :=
  let! all_stale := get_stale_hashes clk (rec_cache w) in
  match take (Z.to_nat (batch_size cfg)) all_stale with
  | [] => Ret (complete_recovery t, w)
  | hs =>
      let! r := recovery_loop t calls hs 0 0 w in
      let '(succ, fail, w) := r in
      Ret (if succ <? fail then rec_record_failure t else rec_record_success (rps_increment cfg) (max_rps cfg) t, w)
  end.

(** One turn of the loop of [run]; the first component is [was_offline]. *)
Definition recovery_tick (clk : Clock) (calls : nat -> UpstreamCall)
    (st : bool * RecoveryTracker * RecoveryWorld) : outcome (bool * RecoveryTracker * RecoveryWorld) :=
  let '(was_offline, t, w) := st in
  match status (rec_health w) with
  | Offline => Ret (true, go_offline t, w)
  | Online | Degraded =>
      let '(was_offline, t) :=
        if was_offline && negb (rec_recovering t) then (false, start_recovery (initial_rps cfg) t)
        else (was_offline, t) in
      if rec_recovering t then
        let! r := process_recovery_batch clk calls t w in Ret (was_offline, r.1, r.2)
      else Ret (was_offline, t, w)
  end.
End Recovery.

(** ** Cleanup (workers/cleanup.rs) *)

Definition repeat_metric (n : Z) (f : ProxyMetrics -> ProxyMetrics) (m : ProxyMetrics) : ProxyMetrics :=
  Nat.iter (Z.to_nat n) f m.

Definition cleanup `{CacheEnv} (check_integrity : bool) (clk : Clock) (s : CacheStore) (m : option ProxyMetrics)
  : CacheStore * option ProxyMetrics :=
  let '(evicted, s) := evict_truly_expired clk s in
  let m := if 0 <? evicted then repeat_metric evicted record_eviction <$> m else m in
  (s, if check_integrity then
        let report := verify_integrity s in
        if 0 <? ir_invalid report then repeat_metric (ir_invalid report) record_integrity_failure <$> m else m
      else m).

(** ** Health checks (workers/health.rs) *)

Record HealthCheckConfig := { check_interval : Z; recovery_check_interval : Z; check_timeout : Z }.
Definition HealthCheckConfig_default : HealthCheckConfig :=
  {| check_interval := from_secs 30; recovery_check_interval := from_secs 5; check_timeout := from_secs 5 |}.

Definition next_interval (c : HealthCheckConfig) (h : HealthTracker) : Z :=
  match status h with
  | Online => check_interval c
  | Degraded => check_interval c / 2
  | Offline => recovery_check_interval c
  end.

Definition generic_health_check (reply : HttpReply) : result bool UpstreamError :=
  match reply with
  | HttpTimeout => Err Timeout
  | HttpFailed msg => Err (Network msg)
  | HttpStatus code _ => Ok (status_is_success code)
  end.

Definition perform_health_check (reply : HttpReply) (now_ms : Z) (h : HealthTracker) : HealthTracker :=
  match generic_health_check reply with
  | Ok true => ht_record_success now_ms h
  | Ok false | Err _ => ht_record_failure now_ms h
  end.

(** ** Corpus versions (workers/version.rs) *)

Record UpstreamVersion := {
  uv_version : option str;
  corpus_hash : option str;
  doc_count : option Z;
  last_modified : option Z
}.
Definition UpstreamVersion_default : UpstreamVersion :=
  {| uv_version := None; corpus_hash := None; doc_count := None; last_modified := None |}.
Definition UpstreamVersion_new (v : str) : UpstreamVersion :=
  {| uv_version := Some v; corpus_hash := None; doc_count := None; last_modified := None |}.

(** [if let (Some(a), Some(b)) = (x, y) { if test(a, b) { return true; } }] *)
Definition both {A} (test : A -> A -> bool) (x y : option A) : bool :=
  match x, y with Some a, Some b => test a b | _, _ => false end.

Definition count_differs (a b : Z) : bool :=
  let diff := if b <? a then a -! b else b -! a in
  let max_val := F64.of_Z (Z.max a b) in
  let threshold := f_to_u 64 (F64.mul max_val (F64.lit 1 100)) in
  threshold <? diff.

Definition differs_from (self other : UpstreamVersion) : bool :=
  both (fun a b => negb (str_eqb a b)) (uv_version self) (uv_version other)
  || both (fun a b => negb (str_eqb a b)) (corpus_hash self) (corpus_hash other)
  || both count_differs (doc_count self) (doc_count other)
  || both (fun a b => negb (a =? b)) (last_modified self) (last_modified other).

Definition is_none {A} (x : option A) : bool := match x with None => true | Some _ => false end.
Definition version_is_empty (v : UpstreamVersion) : bool :=
  is_none (uv_version v) && is_none (corpus_hash v) && is_none (doc_count v) && is_none (last_modified v).

(** [Value::get], [Value::as_str] and [Value::as_u64] *)
Definition value_get (v : Value) (k : str) : option Value :=
  match as_object v with Some o => obj_get o k | None => None end.
Definition value_str (v : Value) : option str := match v with VString s => Some s | _ => None end.
Definition value_u64 (v : Value) : option Z := match v with VNumber n _ => n | _ => None end.

(** The JSON decoder is third-party code: [decode] is [serde_json::from_str]. *)
Definition parse_version (decode : str -> option Value) (body : str) : option UpstreamVersion :=
  match decode body with
  | Some json =>
      Some {| uv_version := and_then (value_get json (lit "version")) value_str;
              corpus_hash := and_then (or_else (value_get json (lit "corpus_hash")) (value_get json (lit "hash"))) value_str;
              doc_count := and_then (or_else (value_get json (lit "doc_count")) (value_get json (lit "count"))) value_u64;
              last_modified := and_then (or_else (value_get json (lit "last_modified")) (value_get json (lit "timestamp"))) value_u64 |}
  | None => match trim body with [] => None | v => Some (UpstreamVersion_new v) end
  end.

Definition fetch_version (decode : str -> option Value) (reply : HttpReply) : option UpstreamVersion :=
  match reply with
  | HttpStatus code (Ok body) => if status_is_success code then parse_version decode body else None
  | _ => None
  end.

Record VersionCheckWorker := {
  invalidate_on_change : bool;
  current_version : UpstreamVersion;
  changes_detected : Z
}.
Definition VersionCheckWorker_new (invalidate : bool) : VersionCheckWorker :=
  {| invalidate_on_change := invalidate; current_version := UpstreamVersion_default; changes_detected := 0 |}.

Definition check_version `{CacheEnv} (clk : Clock) (fetched : option UpstreamVersion)
    (w : VersionCheckWorker) (s : CacheStore) : VersionCheckWorker * CacheStore :=
  match fetched with
  | Some new =>
      let changed := negb (version_is_empty (current_version w)) && differs_from new (current_version w) in
      ({| invalidate_on_change := invalidate_on_change w; current_version := new;
          changes_detected := if changed then wrap 64 (changes_detected w + 1) else changes_detected w |},
       if changed && invalidate_on_change w then clear clk s else s)
  | None => (w, s)
  end.

(** ** Properties of recovery *)

(** The outcomes of the batches since a recovery started, the newest first. *)
Definition recovery_after (c : RecoveryConfig) (t : RecoveryTracker) (hist : list bool) : RecoveryTracker :=
  foldr (fun ok t => if (ok : bool) then rec_record_success (rps_increment c) (max_rps c) t else rec_record_failure t)
    (start_recovery (initial_rps c) t) hist.

Lemma recovery_counts c t hist :
  Z.of_nat (length hist) < 2 ^ 32 ->
  successful_batches (recovery_after c t hist) = Z.of_nat (streak true hist) /\
  required_batches (recovery_after c t hist) = required_batches t.
Proof.
  induction hist as [|ok hist IH]; [done|]. simpl length. intros Hl. destruct IH as [H1 H2]; [lia|].
  pose proof (streak_length true hist). destruct ok; simpl in *; [|done].
  unfold rec_record_success. case_match; simpl; rewrite H1, H2, wrap_small by (unfold in_u, u_max; lia); split; lia || done.
Qed.

(** A recovery ends with the first run of [required_batches] successful batches.
    Until then its state is Recovering before the first failed batch and Paused for
    ever after it, whatever succeeds later. *)
Theorem recovery_outcome c t n hist :
  required_batches t = Z.of_nat n -> (0 < n)%nat -> Z.of_nat (length hist) < 2 ^ 32 ->
  (rec_recovering (recovery_after c t hist) = false <-> has_run true n hist) /\
  (~ has_run true n hist ->
     recovery_state (recovery_after c t hist) = if forallb (fun b => b) hist then RRecovering else RPaused) /\
  (forall hist', hist = true :: hist' -> ~ has_run true n hist' -> has_run true n hist ->
     recovery_state (recovery_after c t hist) = RStable).
Proof.
  intros Hn Hpos. induction hist as [|ok hist IH]; intros Hl; simpl in Hl.
  { split_and!; [|done|done]. simpl. split; [done|]. intros ([|] & r & Hr); [by destruct n; [lia|]|done]. }
  destruct IH as (IH1 & IH2 & _); [lia|]. destruct (recovery_counts c t hist) as [Hc Hq]; [lia|].
  pose proof (streak_length true hist).
  destruct ok; simpl.
  - unfold rec_record_success. simpl. rewrite Hc, Hq, Hn. unfold sat_add, u_max. rewrite Z.min_l by lia.
    rewrite has_run_cons by done. simpl.
    destruct (Z.of_nat n <=? Z.of_nat (streak true hist) + 1) eqn:E; reflect_Z; simpl.
    + split_and!; [split; [left; lia|done]| |done]. intros Hno. exfalso. apply Hno. left. lia.
    + split_and!.
      * rewrite IH1. split; [by right|]. intros [?|?]; [lia|done].
      * intros Hno. apply IH2. tauto.
      * intros hist' [= <-] Hn' Hr. rewrite has_run_cons in Hr by done. simpl in Hr. destruct Hr; [lia|done].
  - rewrite has_run_cons by done. simpl. rewrite IH1. split_and!; [|done|done].
    split; [by right|]. intros [?|?]; [lia|done].
Qed.

Lemma recovery_outcome_witness :
  let t := RecoveryTracker_new RecoveryConfig_default in
  recovery_state (recovery_after RecoveryConfig_default t [true; false; true]) = RPaused /\
  rec_recovering (recovery_after RecoveryConfig_default t (replicate 150 true)) = false.
Proof.
  split.
  - rewrite (proj1 (proj2 (recovery_outcome RecoveryConfig_default (RecoveryTracker_new RecoveryConfig_default) 150
      [true; false; true] ltac:(vm_compute; reflexivity) ltac:(lia) ltac:(simpl; lia)))); [reflexivity|].
    intros (l1 & l2 & H). apply (f_equal length) in H. rewrite !length_app, length_replicate in H. simpl in H. lia.
  - apply (proj1 (recovery_outcome RecoveryConfig_default (RecoveryTracker_new RecoveryConfig_default) 150
      (replicate 150 true) ltac:(vm_compute; reflexivity) ltac:(lia) ltac:(rewrite length_replicate; lia))).
    exists [], []. by rewrite app_nil_r.
Defined.

(** The default ramp: one request per second, five more after each batch, at most
    fifty; and 150 batches to stability. *)
Lemma ramp_top t : rec_rps t = 5000 ->
  rec_rps (rec_record_success (F32.of_Z 5) (F32.of_Z 50) t) = 5000.
Proof.
  intros Ht. unfold rec_record_success, current_rps. simpl.
  assert (E : rec_rps (set_rps (f_min (F32.add (F32.div (F32.of_Z (rec_rps t)) (F32.of_Z 100)) (F32.of_Z 5)) (F32.of_Z 50)) t) = 5000)
    by (rewrite Ht; vm_compute; reflexivity).
  case_match; exact E.
Qed.

Lemma default_ramp_steps k : (k < 10)%nat -> forall t, rec_rps t = 100 + 500 * Z.of_nat k ->
  rec_rps (rec_record_success (F32.of_Z 5) (F32.of_Z 50) t) = Z.min (100 + 500 * Z.of_nat (S k)) 5000.
Proof.
  intros Hk t Ht. unfold rec_record_success, current_rps. simpl.
  match goal with |- rec_rps (if _ then complete_recovery ?u else _) = _ => assert (E : rec_rps u = Z.min (100 + 500 * Z.of_nat (S k)) 5000) end.
  { simpl. rewrite Ht. do 10 (destruct k as [|k]; [vm_compute; reflexivity|]). lia. }
  case_match; exact E.
Qed.

Theorem default_ramp t k :
  let c := RecoveryConfig_default in
  required_batches (RecoveryTracker_new c) = 150 /\
  rec_rps (recovery_after c t (replicate k true)) = Z.min (100 + 500 * Z.of_nat k) 5000.
Proof.
  split; [vm_compute; reflexivity|]. induction k as [|k IH]; [vm_compute; reflexivity|].
  change (recovery_after _ t (replicate (S k) true)) with
    (rec_record_success (F32.of_Z 5) (F32.of_Z 50) (recovery_after RecoveryConfig_default t (replicate k true))).
  destruct (decide (k < 10)%nat) as [Hk|Hk].
  - apply default_ramp_steps; [done|]. rewrite IH. lia.
  - rewrite ramp_top; lia.
Qed.

Section RecoveryProps.
Context `{CacheEnv}.
Context (cfg : RecoveryConfig) (base_url : str) (queries : gmap QueryHash str).

(** A configured rate below one hundredth is stored as zero, and the first entry
    with a known query then makes the worker panic: the delay is one over zero. *)
Lemma zero_rate_panics t calls h q hs a b w :
  rec_rps t = 0 -> queries !! h = Some q -> recovery_loop base_url queries t calls (h :: hs) a b w = Panic.
Proof. intros Ht Hq. simpl. rewrite Hq. unfold current_rps. by rewrite Ht. Qed.

(** Entries whose query is unknown are skipped, and a batch of only such entries
    counts as a success although no request was sent. *)
Lemma unknown_batch_succeeds clk calls t w hs :
  get_stale_hashes clk (rec_cache w) = Ret hs -> hs <> [] -> 0 < batch_size cfg ->
  Forall (fun h => queries !! h = None) hs ->
  process_recovery_batch cfg base_url queries clk calls t w =
    Ret (rec_record_success (rps_increment cfg) (max_rps cfg) t, w).
Proof.
  intros Hs Hne Hb Hu. unfold process_recovery_batch. rewrite Hs. cbn [obind].
  destruct (take (Z.to_nat (batch_size cfg)) hs) as [|h l] eqn:E.
  - destruct hs; [done|]. by destruct (Z.to_nat (batch_size cfg)) eqn:En; [lia|].
  - assert (Hall : Forall (fun h => queries !! h = None) (h :: l)) by (rewrite <- E; by apply Forall_take).
    assert (Hl : forall l a b, Forall (fun h => queries !! h = None) l ->
                 recovery_loop base_url queries t calls l a b w = Ret (a, b, w)).
    { induction 1 as [|x l' Hx _ IH]; simpl; [done|]. by rewrite Hx. }
    pose proof (Hl _ 0 0 Hall) as Hr. by rewrite Hr.
Qed.
End RecoveryProps.

(** ** Properties of cleanup *)

Definition truly_expired `{CacheEnv} (clk : Clock) (s : CacheStore) (e : CacheEntry) : bool :=
  max_frozen_duration s <? elapsed (mono clk) (cached_at e).

Lemma count_incr c d m : wrap 64 (pm_count (incr c m) d) =
  wrap 64 (pm_count m d + if decide (d = c) then 1 else 0).
Proof.
  unfold incr. simpl. case_decide; rewrite ?Z.add_0_r; [|done]. unfold wrap. by rewrite Z.mod_mod.
Qed.

Lemma wrap_congr_l w a b c : wrap w a = wrap w b -> wrap w (a + c) = wrap w (b + c).
Proof. unfold wrap. intros He. by rewrite Zplus_mod, He, <- Zplus_mod. Qed.

Lemma count_repeat c d n m : 0 <= n -> wrap 64 (pm_count (repeat_metric n (incr c) m) d) =
  wrap 64 (pm_count m d + if decide (d = c) then n else 0).
Proof.
  intros Hn. unfold repeat_metric.
  replace (if decide (d = c) then n else 0) with (if decide (d = c) then Z.of_nat (Z.to_nat n) else 0)
    by (rewrite Z2Nat.id by done; done).
  induction (Z.to_nat n) as [|k IH]; [by case_decide; rewrite Z.add_0_r|].
  change (Nat.iter (S k) (incr c) m) with (incr c (Nat.iter k (incr c) m)). rewrite count_incr.
  rewrite (wrap_congr_l _ _ _ _ IH). f_equal. case_decide; lia.
Qed.

(** A cleanup removes exactly the entries older than the frozen limit and counts
    each; the integrity check counts the corrupted entries and removes none. *)
Theorem cleanup_exact `{E : CacheEnv} {L : CacheEnvLaws E} ci clk s m :
  exists s' m', cleanup ci clk s (Some m) = (s', Some m') /\
    (forall h, entries s' !! h =
       match entries s !! h with Some e => if truly_expired clk s e then None else Some e | None => None end) /\
    wrap 64 (pm_count m' evictions) =
      wrap 64 (pm_count m evictions + msum (fun e => if truly_expired clk s e then 1 else 0) (entries s)) /\
    wrap 64 (pm_count m' integrity_failures) =
      wrap 64 (pm_count m integrity_failures + if ci then Z.max 0 (ir_invalid (verify_integrity s')) else 0).
Proof.
  unfold cleanup, evict_truly_expired.
  pose proof (sweep_lookup (truly_expired clk s) s) as Hl. pose proof (sweep_count (truly_expired clk s) s) as Hc.
  unfold keys_where in *. fold (truly_expired clk s). simpl in Hl, Hc.
  change (fun he : QueryHash * CacheEntry => max_frozen_duration s <? elapsed (mono clk) (cached_at he.2))
    with (fun he : QueryHash * CacheEntry => truly_expired clk s he.2) in *.
  destruct (remove_all _ s) as [rem s1] eqn:Er. simpl in Hl, Hc.
  set (s' := if 0 <? zlen rem then _ else s1). set (m1 := if 0 <? zlen rem then _ else Some m).
  assert (He : entries s' = entries s1) by (unfold s'; by case_match).
  assert (H1 : exists m2, m1 = Some m2 /\ forall d, wrap 64 (pm_count m2 d) =
            wrap 64 (pm_count m d + if decide (d = evictions) then zlen rem else 0)).
  { unfold m1. destruct (0 <? zlen rem) eqn:Ez; reflect_Z; simpl.
    - eexists. split; [done|]. intros d. apply count_repeat. lia.
    - eexists. split; [done|]. intros d. assert (zlen rem = 0) as -> by (unfold zlen in *; lia).
      case_decide; by rewrite Z.add_0_r. }
  destruct H1 as (m2 & -> & H2).
  assert (H3 : exists m3, (if ci then if 0 <? ir_invalid (verify_integrity s')
              then repeat_metric (ir_invalid (verify_integrity s')) record_integrity_failure <$> Some m2 else Some m2
              else Some m2) = Some m3 /\ forall d, wrap 64 (pm_count m3 d) = wrap 64 (pm_count m2 d +
              if decide (d = integrity_failures) then if ci then Z.max 0 (ir_invalid (verify_integrity s')) else 0 else 0)).
  { destruct ci; [|exists m2; split; [done|]; intros d; case_decide; by rewrite Z.add_0_r].
    destruct (0 <? ir_invalid (verify_integrity s')) eqn:Ez; reflect_Z; simpl; eexists; (split; [done|]); intros d.
    - rewrite Z.max_r by lia. apply count_repeat. lia.
    - rewrite Z.max_l by lia. case_decide; by rewrite Z.add_0_r. }
  destruct H3 as (m3 & H3 & H4). exists s', m3. split; [by rewrite H3|].
  split; [by rewrite He|]. rewrite <- Hc, !H4, !decide_False, decide_True, Z.add_0_r, H2, decide_True by done.
  split; [done|]. apply wrap_congr_l. rewrite H2, decide_False by done. by rewrite Z.add_0_r.
Qed.

(** ** Properties of health checks *)

(** The faster interval is used exactly while the upstream is down: after
    [offline_threshold] failed checks in a row without [recovery_threshold] good ones
    since. *)
Definition checks (ft rt : Z) (deg : f32) (hist : list HttpReply) : HealthTracker :=
  foldr (fun r h => perform_health_check r 0 h) (with_thresholds ft rt deg) hist.
Definition check_ok (r : HttpReply) : bool :=
  match r with HttpStatus code _ => status_is_success code | _ => false end.

Lemma checks_health ft rt deg hist : checks ft rt deg hist = health_after ft rt deg (map check_ok hist).
Proof.
  induction hist as [|r hist IH]; [done|]. cbn [map]. change (perform_health_check r 0 (checks ft rt deg hist) =
    health_event (check_ok r) (health_after ft rt deg (map check_ok hist))).
  rewrite <- IH. unfold perform_health_check, generic_health_check, health_event, check_ok.
  destruct r as [| |code body]; [done|done|]. by destruct (status_is_success code).
Qed.

Theorem check_interval_exact c ft rt deg hist :
  (0 < ft)%nat -> (0 < rt)%nat -> Z.of_nat (length hist) < 2 ^ 32 ->
  let i := next_interval c (checks (Z.of_nat ft) (Z.of_nat rt) deg hist) in
  (down ft rt (map check_ok hist) -> i = recovery_check_interval c) /\
  (~ down ft rt (map check_ok hist) -> i = check_interval c \/ i = check_interval c / 2).
Proof.
  intros Hft Hrt Hl. rewrite checks_health. cbv zeta. unfold next_interval.
  pose proof (offline_iff ft rt deg (map check_ok hist) Hft Hrt) as Ho. rewrite length_map in Ho.
  specialize (Ho Hl). destruct (status _); split; intros Hd; try (by left); try (by right); try done; exfalso;
    first [by apply Hd, Ho|by apply Ho in Hd].
Qed.

(** ** Properties of version checks *)

Lemma str_eqb_sym a b : str_eqb a b = str_eqb b a.
Proof. apply Bool.eq_iff_eq_true. unfold str_eqb. rewrite !bool_decide_eq_true. naive_solver. Qed.

Lemma count_differs_sym a b : count_differs a b = count_differs b a.
Proof.
  unfold count_differs. rewrite (Z.max_comm a b). f_equal.
  destruct (b <? a) eqn:E1, (a <? b) eqn:E2; reflect_Z; unfold sat_sub; lia.
Qed.

Lemma both_sym {A} (f : A -> A -> bool) x y : (forall a b, f a b = f b a) -> both f x y = both f y x.
Proof. intros Hf. destruct x, y; simpl; auto. Qed.

(** A change is seen whichever of the two versions came first, and only in a field
    that both versions have. *)
Theorem differs_from_sym v v' :
  differs_from v v' = differs_from v' v /\ differs_from v v = false /\
  (version_is_empty v = true -> differs_from v v' = false).
Proof.
  split_and!.
  - unfold differs_from. f_equal; [f_equal; [f_equal|]|]; apply both_sym; intros.
    + by rewrite str_eqb_sym.
    + by rewrite str_eqb_sym.
    + apply count_differs_sym.
    + by rewrite Z.eqb_sym.
  - unfold differs_from, both. assert (forall n, count_differs n n = false) as Hc.
    { intros n. unfold count_differs. rewrite Z.ltb_irrefl. unfold sat_sub. rewrite Z.sub_diag. simpl.
      apply Z.ltb_ge. unfold f_to_u. case_match; try lia; [by destruct s|].
      destruct s; [lia|]. apply Z.min_glb; [|done]. unfold trunc_mag. case_match; [lia|].
      apply Z.div_pos; [lia|]. apply Z.pow_pos_nonneg; reflect_Z; lia. }
    assert (forall s, str_eqb s s = true) as Hs by (intros; by apply bool_decide_eq_true_2).
    destruct (uv_version v), (corpus_hash v), (doc_count v), (last_modified v); rewrite ?Hs, ?Hc, ?Z.eqb_refl; done.
  - unfold version_is_empty, differs_from, both. by destruct (uv_version v), (corpus_hash v), (doc_count v), (last_modified v).
Qed.

(** The polls at which a sequence of fetched versions counts as a change. *)
Fixpoint version_changes (cur : UpstreamVersion) (vs : list UpstreamVersion) : list bool :=
  match vs with
  | [] => []
  | v :: vs => (negb (version_is_empty cur) && differs_from v cur) :: version_changes v vs
  end.

Fixpoint version_polls `{CacheEnv} (polls : list (Clock * option UpstreamVersion)) (w : VersionCheckWorker)
    (s : CacheStore) : VersionCheckWorker * CacheStore :=
  match polls with
  | [] => (w, s)
  | (clk, v) :: polls => let '(w, s) := check_version clk v w s in version_polls polls w s
  end.

(** Failed polls change nothing.  The others count a change exactly when the version
    differs from that of the last good poll; the cache is emptied if there was one and
    invalidation is on, and is untouched otherwise. *)
Theorem version_polls_exact `{CacheEnv} polls w s w' s' :
  version_polls polls w s = (w', s') ->
  let vs := omap snd polls in
  let ch := version_changes (current_version w) vs in
  wrap 64 (changes_detected w') = wrap 64 (changes_detected w + zlen (List.filter (fun b => b) ch)) /\
  current_version w' = default (current_version w) (last vs) /\
  (if invalidate_on_change w && existsb (fun b => b) ch then entries s' = ∅ else s' = s).
Proof.
  revert w s. induction polls as [|[clk [v|]] polls IH]; intros w s; cbn [version_polls check_version].
  - intros [= <- <-]. simpl. rewrite andb_false_r. split_and!; [by rewrite Z.add_0_r|done|done].
  - intros (H1 & H2 & H3)%IH. simpl in *.
    set (c := negb (version_is_empty (current_version w)) && differs_from v (current_version w)) in *.
    split_and!.
    + rewrite H1. destruct c; simpl; [|done]. rewrite zlen_cons.
      rewrite Z.add_assoc. apply wrap_congr_l. unfold wrap. by rewrite Z.mod_mod.
    + rewrite H2. change (list_omap _ _ snd polls) with (omap snd polls). rewrite last_cons. by destruct (last (omap snd polls)).
    + destruct (invalidate_on_change w); simpl in *; [|by rewrite andb_false_r in H3].
      rewrite andb_true_r in H3. destruct c; simpl in *; [|done].
      destruct (existsb _ _); [done|]. rewrite H3. apply (emit_frame clk Remove (builder_remove []) (wipe s)).
  - intros (H1 & H2 & H3)%IH. by simpl in *.
Qed.

(** A reply without any known field hides a change on either side of it, and a corpus
    that grows by one percent or less between two polls is never seen to grow. *)
Example blank_reply_hides_change :
  version_changes UpstreamVersion_default
    [UpstreamVersion_new (lit "v1"); UpstreamVersion_default; UpstreamVersion_new (lit "v2")] = [false; false; false].
Proof. reflexivity. Qed.

Definition count_version (n : Z) : UpstreamVersion :=
  {| uv_version := None; corpus_hash := None; doc_count := Some n; last_modified := None |}.
Example slow_growth_unseen :
  existsb (fun b => b) (version_changes (count_version 100) (map count_version (seqZ 100 100))) = false /\
  differs_from (count_version 199) (count_version 100) = true.
Proof. vm_compute. split; reflexivity. Qed.

(** ** The scheduler (workers/scheduler.rs) *)

Record ScheduledTask := { task_name : str; task_interval : Z; task_enabled : bool }.
Definition WorkerScheduler : Type := list ScheduledTask.

Definition register_optional (name : str) (interval : Z) (enabled : bool) (tasks : WorkerScheduler) : WorkerScheduler :=
  tasks ++ [{| task_name := name; task_interval := interval; task_enabled := enabled |}].
Definition register_task (name : str) (interval : Z) (tasks : WorkerScheduler) : WorkerScheduler :=
  register_optional name interval true tasks.
Definition task_count (tasks : WorkerScheduler) : Z := zlen tasks.
Definition enabled_count (tasks : WorkerScheduler) : Z := zlen (List.filter task_enabled tasks).
Definition task_names (tasks : WorkerScheduler) : list str := map task_name tasks.

(** A spawned loop sleeps, runs its handler, or has left. *)
Inductive LoopState := Sleeping | Handling | Left.
#[export] Instance LoopState_eq_dec : EqDecision LoopState.
Proof. solve_decision. Defined.

Record Running := { cancelled : bool; loops : list LoopState; runs : list nat }.

(** [run]: one loop for each enabled task. *)
Definition spawn_loops (tasks : WorkerScheduler) : Running :=
  let n := length (List.filter task_enabled tasks) in
  {| cancelled := false; loops := replicate n Sleeping; runs := [] |}.

(** Both branches of the [select!] may be ready at once, so a cancelled loop may run
    its handler once more before it leaves. *)
Inductive sched_step : Running -> Running -> Prop :=
| sched_fire r i : loops r !! i = Some Sleeping ->
    sched_step r {| cancelled := cancelled r; loops := <[i := Handling]> (loops r); runs := i :: runs r |}
| sched_return r i : loops r !! i = Some Handling ->
    sched_step r {| cancelled := cancelled r; loops := <[i := Sleeping]> (loops r); runs := runs r |}
| sched_leave r i : loops r !! i = Some Sleeping -> cancelled r = true ->
    sched_step r {| cancelled := true; loops := <[i := Left]> (loops r); runs := runs r |}
| sched_shutdown r :
    sched_step r {| cancelled := true; loops := loops r; runs := runs r |}.

(** [run] returns when every handle has been joined; without any handle it waits for
    the cancellation. *)
Definition run_returned (r : Running) : bool :=
  match loops r with [] => cancelled r | l => forallb (fun x => bool_decide (x = Left)) l end.

Lemma elem_of_list_update {A} (l : list A) i x y : x ∈ <[i := y]> l -> x = y \/ x ∈ l.
Proof.
  rewrite !list_elem_of_lookup. intros [j Hj]. apply list_lookup_insert_Some in Hj as [(_ & <- & _)|[_ Hj]]; eauto.
Qed.

(** Every spawned loop belongs to an enabled task and stays until the shutdown; a
    shutdown lets every loop leave, so that [run] returns. *)
Lemma sched_inv tasks r : rtc sched_step (spawn_loops tasks) r ->
  length (loops r) = length (List.filter task_enabled tasks) /\
  (Left ∈ loops r -> cancelled r = true) /\ Forall (fun i => (i < length (loops r))%nat) (runs r).
Proof.
  revert r. apply rtc_ind_r; [|intros r r' Hr Hs IH].
  - simpl. rewrite length_replicate. split_and!; [done| |constructor].
    intros [? _]%elem_of_replicate. done.
  - destruct IH as (H1 & H2 & H3). inversion Hs; subst; simpl; rewrite ?length_insert; split_and!; try done.
    1, 3: intros [Hl|Hl]%elem_of_list_update; done || auto.
    constructor; [|done]. by eapply lookup_lt_Some.
Qed.

Lemma loops_leave r : cancelled r = true ->
  exists r', rtc sched_step r r' /\ cancelled r' = true /\ loops r' = replicate (length (loops r)) Left.
Proof.
  intros Hc.
  assert (forall k r, cancelled r = true -> (k <= length (loops r))%nat -> exists r', rtc sched_step r r' /\ cancelled r' = true /\
    loops r' = replicate k Left ++ drop k (loops r)) as Hk.
  { clear r Hc. intros k r Hc. induction k as [|k IH]; intros Hle; [exists r; split_and!; [apply rtc_refl|done|done]|].
    destruct IH as (r1 & Hr1 & Hc1 & Hl1); [lia|].
    destruct (lookup_lt_is_Some_2 (loops r) k) as [x Hx]; [lia|].
    assert (Hat : loops r1 !! k = Some x).
    { rewrite Hl1, lookup_app_r, length_replicate, Nat.sub_diag, lookup_drop by (rewrite length_replicate; lia). by rewrite Nat.add_0_r. }
    assert (Hset : forall y, <[k := y]> (loops r1) = (replicate k Left ++ [y]) ++ drop (S k) (loops r)).
    { intros y. rewrite Hl1, insert_app_r_alt, length_replicate, Nat.sub_diag by (rewrite length_replicate; lia).
      rewrite (drop_S _ _ _ Hx). simpl. by rewrite <- app_assoc. }
    rewrite replicate_S_end.
    destruct x.
    - eexists. split_and!; [eapply rtc_r; [exact Hr1|exact (sched_leave r1 k Hat Hc1)]|done|apply Hset].
    - set (r2 := {| cancelled := cancelled r1; loops := <[k := Sleeping]> (loops r1); runs := runs r1 |}).
      assert (Hat2 : loops r2 !! k = Some Sleeping) by (apply list_lookup_insert_eq; by eapply lookup_lt_Some).
      eexists. split_and!; [eapply rtc_r; [eapply rtc_r; [exact Hr1|exact (sched_return r1 k Hat)]|
        exact (sched_leave r2 k Hat2 Hc1)]|done|]. simpl. by rewrite list_insert_insert_eq, Hset.
    - exists r1. split_and!; [done|done|]. rewrite Hl1, (drop_S _ _ _ Hx). by rewrite <- app_assoc. }
  destruct (Hk (length (loops r)) r Hc ltac:(lia)) as (r' & H1 & H2 & H3). exists r'.
  by rewrite drop_ge, app_nil_r in H3.
Qed.

Theorem scheduler_shutdown tasks r : rtc sched_step (spawn_loops tasks) r ->
  (run_returned r = true -> cancelled r = true) /\
  (cancelled r = true -> exists r', rtc sched_step r r' /\ run_returned r' = true).
Proof.
  intros Hr. destruct (sched_inv _ _ Hr) as (_ & Hl & _). split.
  - unfold run_returned. destruct (loops r) as [|x l] eqn:E; [done|]. simpl. intros [Hx _]%andb_prop.
    apply Hl. apply bool_decide_eq_true in Hx as ->. set_solver.
  - intros Hc. destruct (loops_leave r Hc) as (r' & H1 & H2 & H3). exists r'. split; [done|].
    unfold run_returned. rewrite H3. destruct (loops r) as [|x l]; simpl; [done|].
    clear. induction l; simpl; done.
Qed.
