(* ===== verification/Semantic.v ===== *)
(** * The semantic cache tier (src/src/proxy/semantic_cache.rs)

    Embeddings of past queries under their hashes, searched by cosine similarity.
    The map is concurrent: what a scan sees first is up to [EmbedEnv], whose law says
    that it sees each entry once.  The theorems hold for every order. *)

From Stdlib Require Import SpecFloat.
From S2P Require Import Prelude Floats Text Types.
Open Scope Z_scope.
Open Scope conproxy_scope.

Definition DEFAULT_SIMILARITY_THRESHOLD : f32 := F32.lit 92 100.
Definition DEFAULT_MAX_ENTRIES : Z := 10000.

(** An embedding: a [Vec<f32>]. *)
Abbreviation EmbVec := (list f32).

Record SemanticCache := {
  embeddings : gmap QueryHash (Z * EmbVec);
  sequence : Z;
  sc_threshold : f32;
  sc_max_entries : Z;
  sc_hits : Z;
  sc_misses : Z;
  sc_evictions : Z
}.

Definition SemanticCache_new (threshold : f32) (max_entries : Z) : SemanticCache :=
  {| embeddings := ∅; sequence := 0; sc_threshold := f_clamp threshold f_zero (F32.of_Z 1);
     sc_max_entries := max_entries; sc_hits := 0; sc_misses := 0; sc_evictions := 0 |}.

Definition sc_hit (s : SemanticCache) : SemanticCache :=
  {| embeddings := embeddings s; sequence := sequence s; sc_threshold := sc_threshold s;
     sc_max_entries := sc_max_entries s; sc_hits := wrap 64 (sc_hits s + 1); sc_misses := sc_misses s;
     sc_evictions := sc_evictions s |}.
Definition sc_miss (s : SemanticCache) : SemanticCache :=
  {| embeddings := embeddings s; sequence := sequence s; sc_threshold := sc_threshold s;
     sc_max_entries := sc_max_entries s; sc_hits := sc_hits s; sc_misses := wrap 64 (sc_misses s + 1);
     sc_evictions := sc_evictions s |}.
Definition put_embeddings (m : gmap QueryHash (Z * EmbVec)) (s : SemanticCache) : SemanticCache :=
  {| embeddings := m; sequence := sequence s; sc_threshold := sc_threshold s;
     sc_max_entries := sc_max_entries s; sc_hits := sc_hits s; sc_misses := sc_misses s;
     sc_evictions := sc_evictions s |}.

(** ** Similarity *)

Definition similarity_step (acc : f64 * f64 * f64) (xy : f32 * f32) : f64 * f64 * f64 :=
  let '(dot, mag_a, mag_b) := acc in
  let x := f64_of_f32 xy.1 in
  let y := f64_of_f32 xy.2 in
  (F64.add dot (F64.mul x y), F64.add mag_a (F64.mul x x), F64.add mag_b (F64.mul y y)).

Definition embedding_similarity (a b : EmbVec) : f32 :=
  let '(dot, mag_a, mag_b) := fold_left similarity_step (zip a b) (f_zero, f_zero, f_zero) in
  let denom := F64.sqrt (F64.mul mag_a mag_b) in
  if f_eq denom f_zero then f_zero else f32_of_f64 (F64.div dot denom).

(** ** Operations *)

Class EmbedEnv := { embed_iter : gmap QueryHash (Z * EmbVec) -> list (QueryHash * (Z * EmbVec)) }.
Class EmbedEnvLaws (E : EmbedEnv) : Prop := { embed_iter_perm : forall m, embed_iter m ≡ₚ map_to_list m }.

(** The scan of [lookup]: the best hash, its similarity, and whether an entry of
    another dimension was seen. *)
Definition scan_step (q : EmbVec) (acc : option QueryHash * f32 * bool) (kv : QueryHash * (Z * EmbVec))
  : option QueryHash * f32 * bool :=
  let '(best_hash, best_sim, dim_mismatch) := acc in
  let stored := kv.2.2 in
  if negb (Nat.eqb (length stored) (length q)) then (best_hash, best_sim, true)
  else let sim := embedding_similarity q stored in
       if f_gt sim best_sim then (Some kv.1, sim, dim_mismatch) else acc.

Definition semantic_lookup `{EmbedEnv} (q : EmbVec) (s : SemanticCache) : option QueryHash * SemanticCache :=
  if decide (embeddings s = ∅) then (None, sc_miss s)
  else
    let '(best_hash, best_sim, dim_mismatch) :=
      fold_left (scan_step q) (embed_iter (embeddings s)) (None, S754_infinity true, false) in
    if dim_mismatch && match best_hash with None => true | Some _ => false end then (None, sc_miss s)
    else if f_ge best_sim (sc_threshold s) then (best_hash, sc_hit s) else (None, sc_miss s).

(** [Iterator::min_by_key]: the first of the smallest. *)
Definition min_seq_step (acc : option (QueryHash * Z)) (kv : QueryHash * (Z * EmbVec)) : option (QueryHash * Z) :=
  match acc with
  | None => Some (kv.1, kv.2.1)
  | Some (_, m) => if kv.2.1 <? m then Some (kv.1, kv.2.1) else acc
  end.

Definition evict_lru_one `{EmbedEnv} (s : SemanticCache) : SemanticCache :=
  match fold_left min_seq_step (embed_iter (embeddings s)) None with
  | Some (key, _) =>
      {| embeddings := delete key (embeddings s); sequence := sequence s; sc_threshold := sc_threshold s;
         sc_max_entries := sc_max_entries s; sc_hits := sc_hits s; sc_misses := sc_misses s;
         sc_evictions := wrap 64 (sc_evictions s + 1) |}
  | None => s
  end.

Definition semantic_insert `{EmbedEnv} (hash : QueryHash) (e : EmbVec) (s : SemanticCache) : SemanticCache :=
  if sc_max_entries s =? 0 then s
  else
    let seq := sequence s in
    let s := {| embeddings := <[hash := (seq, e)]> (embeddings s); sequence := wrap 64 (seq + 1);
                sc_threshold := sc_threshold s; sc_max_entries := sc_max_entries s; sc_hits := sc_hits s;
                sc_misses := sc_misses s; sc_evictions := sc_evictions s |} in
    if sc_max_entries s <? Z.of_nat (size (embeddings s)) then evict_lru_one s else s.

Definition semantic_clear (s : SemanticCache) : SemanticCache := put_embeddings ∅ s.

Definition semantic_snapshot `{EmbedEnv} (s : SemanticCache) : list (QueryHash * EmbVec * Z) :=
  map (fun kv : QueryHash * (Z * EmbVec) => (kv.1, kv.2.2, kv.2.1)) (embed_iter (embeddings s)).

(** ** Settings *)

Record SemanticCacheSettings := {
  scs_enabled : option bool;
  similarity_threshold : option f32;
  scs_max_entries : option Z
}.
Definition semantic_enabled (c : SemanticCacheSettings) : bool := default false (scs_enabled c).
Definition semantic_threshold (c : SemanticCacheSettings) : f32 :=
  default DEFAULT_SIMILARITY_THRESHOLD (similarity_threshold c).
Definition semantic_max_entries (c : SemanticCacheSettings) : Z := default DEFAULT_MAX_ENTRIES (scs_max_entries c).
Definition semantic_merge_with (self base : SemanticCacheSettings) : SemanticCacheSettings :=
  {| scs_enabled := or_else (scs_enabled self) (scs_enabled base);
     similarity_threshold := or_else (similarity_threshold self) (similarity_threshold base);
     scs_max_entries := or_else (scs_max_entries self) (scs_max_entries base) |}.

(** ** The cache keeps the newest embeddings *)

(** The abstract tier: hashes and embeddings, the newest first, at most [n]. *)
Definition recent_insert (n : nat) (h : QueryHash) (e : EmbVec) (l : list (QueryHash * EmbVec))
  : list (QueryHash * EmbVec) :=
  take n ((h, e) :: filter (fun kv => kv.1 <> h) l).

Definition strip (kv : QueryHash * (Z * EmbVec)) : QueryHash * EmbVec := (kv.1, kv.2.2).
Definition newer (a b : QueryHash * (Z * EmbVec)) : Prop := b.2.1 < a.2.1.

(** The entries in the order of their sequence numbers. *)
Record seq_order (s : SemanticCache) (l : list (QueryHash * (Z * EmbVec))) : Prop := {
  so_map : embeddings s = list_to_map l;
  so_pos : 0 <= sequence s;
  so_keys : NoDup l.*1;
  so_sorted : StronglySorted newer l;
  so_seq : Forall (fun kv => 0 <= kv.2.1 < sequence s) l;
  so_len : zlen l <= sc_max_entries s
}.

Definition refines_recent (s : SemanticCache) (l : list (QueryHash * EmbVec)) : Prop :=
  exists ql, seq_order s ql /\ l = strip <$> ql.

Section SemanticProps.
Context `{E : EmbedEnv} {L : EmbedEnvLaws E}.

Lemma elem_of_embed_iter m h v : (h, v) ∈ embed_iter m <-> m !! h = Some v.
Proof. rewrite embed_iter_perm. apply elem_of_map_to_list. Qed.

Lemma min_seq_spec l : forall acc,
  match fold_left min_seq_step l acc with
  | Some (k, m) => (acc = Some (k, m) \/ exists v, (k, v) ∈ l /\ v.1 = m) /\
                   (forall kv, kv ∈ l -> m <= kv.2.1) /\ (forall k' m', acc = Some (k', m') -> m <= m')
  | None => acc = None /\ l = []
  end.
Proof.
  induction l as [|kv l IH]; intros acc; simpl.
  { destruct acc as [[k m]|]; [|done]. split_and!; [by left|set_solver|]. intros k' m' [= -> ->]. lia. }
  specialize (IH (min_seq_step acc kv)). destruct (fold_left min_seq_step l _) as [[k m]|].
  - destruct IH as (H1 & H2 & H3).
    assert (Hs : exists k1 m1, min_seq_step acc kv = Some (k1, m1) /\ m1 <= kv.2.1 /\
              (forall k' m', acc = Some (k', m') -> m1 <= m') /\ (acc = Some (k1, m1) \/ (k1, m1) = (kv.1, kv.2.1))).
    { unfold min_seq_step. destruct acc as [[k0 m0]|].
      - destruct (_ <? _) eqn:Ez; reflect_Z; eexists _, _; (split_and!; [done|lia| |auto]);
          intros k' m' [= -> ->]; lia.
      - eexists _, _. split_and!; [done|lia|done|auto]. }
    destruct Hs as (k1 & m1 & Hs & Hle & Hacc & Hor). specialize (H3 _ _ Hs). split_and!.
    + destruct H1 as [H1|(v & Hv & Hm)]; [|right; exists v; set_solver].
      rewrite Hs in H1. injection H1 as -> ->. destruct Hor as [Hor|[= -> ->]]; [by left|].
      right. exists kv.2. destruct kv as [? [? ?]]; simpl; split; [set_solver|done].
    + intros kv' [->|Hk]%elem_of_cons; [lia|auto].
    + intros k' m' Ha. specialize (Hacc _ _ Ha). lia.
  - destruct IH as [IH _]. unfold min_seq_step in IH. destruct acc as [[]|]; [|done]. by case_match.
Qed.

(** The victim is the entry inserted longest ago. *)
Lemma evict_lru_last s ql k v :
  embeddings s = list_to_map (ql ++ [(k, v)]) -> NoDup (ql ++ [(k, v)]).*1 -> StronglySorted newer (ql ++ [(k, v)]) ->
  embeddings (evict_lru_one s) = list_to_map ql /\ sc_evictions (evict_lru_one s) = wrap 64 (sc_evictions s + 1) /\
  sequence (evict_lru_one s) = sequence s /\ sc_max_entries (evict_lru_one s) = sc_max_entries s.
Proof.
  intros Hm Hnd Hs. unfold evict_lru_one.
  pose proof (min_seq_spec (embed_iter (embeddings s)) None) as Hmin.
  assert (Hin : forall kv, kv ∈ embed_iter (embeddings s) <-> kv ∈ ql ++ [(k, v)]).
  { intros [k0 v0]. rewrite elem_of_embed_iter, Hm. by rewrite elem_of_list_to_map. }
  destruct (fold_left _ _ _) as [[k0 m0]|].
  - destruct Hmin as ([?|(v0 & Hv0 & Hm0)] & Hle & _); [done|]. apply Hin in Hv0.
    assert (k0 = k) as ->.
    { apply elem_of_app in Hv0 as [Hv0|Hv0]; [|set_solver].
      assert (Hlt : newer (k0, v0) (k, v)) by (eapply StronglySorted_app_1_elem_of; [exact Hs|done|set_solver]).
      unfold newer in Hlt. simpl in Hlt. specialize (Hle (k, v)). rewrite Hin in Hle. specialize (Hle ltac:(set_solver)).
      simpl in Hle. lia. }
    simpl. split_and!; [|done..]. rewrite Hm. rewrite fmap_app in Hnd. apply NoDup_app in Hnd as (Hnd & Hdis & _).
    assert (k ∉ ql.*1) as Hk by (intros Hk; eapply Hdis; [exact Hk|]; simpl; set_solver).
    rewrite list_to_map_snoc by done. apply delete_insert_id. by apply not_elem_of_list_to_map.
  - destruct Hmin as [_ Hnil]. specialize (Hin (k, v)). rewrite Hnil in Hin. set_solver.
Qed.

Lemma list_to_map_replace h v (ql : list (QueryHash * (Z * EmbVec))) :
  (<[h := v]> (list_to_map ql) : gmap QueryHash (Z * EmbVec)) =
  list_to_map ((h, v) :: filter (fun kv => kv.1 <> h) ql).
Proof.
  simpl. apply map_eq. intros k. destruct (decide (k = h)) as [->|Hk]; [by rewrite !lookup_insert_eq|].
  rewrite !lookup_insert_ne by done. induction ql as [|[k0 v0] ql IH]; simpl; [done|].
  rewrite filter_cons. simpl. case_decide as Hd; simpl.
  - destruct (decide (k = k0)) as [->|]; [by rewrite !lookup_insert_eq|by rewrite !lookup_insert_ne].
  - destruct (decide (k = k0)) as [->|]; [by destruct Hd|by rewrite lookup_insert_ne].
Qed.

Lemma keys_filter_NoDup h (ql : list (QueryHash * (Z * EmbVec))) :
  NoDup ql.*1 -> NoDup (h :: (filter (fun kv => kv.1 <> h) ql).*1).
Proof.
  intros Hnd. constructor.
  - intros ([k v] & -> & Hin)%list_elem_of_fmap. apply list_elem_of_filter in Hin as [Hin _]. done.
  - induction ql as [|[k v] ql IH]; simpl; [done|]. apply NoDup_cons in Hnd as [Hn Hnd].
    rewrite filter_cons. simpl. case_decide; simpl; [|by apply IH]. constructor; [|by apply IH].
    intros ([k' v'] & -> & Hin)%list_elem_of_fmap. apply list_elem_of_filter in Hin as [_ Hin].
    apply Hn, list_elem_of_fmap. by exists (k', v').
Qed.

Lemma StronglySorted_filter_newer (P : QueryHash * (Z * EmbVec) -> Prop) `{!forall x, Decision (P x)} l :
  StronglySorted newer l -> StronglySorted newer (filter P l).
Proof.
  induction 1 as [|x l _ IH Hx]; [constructor|]. rewrite filter_cons. case_decide; [|done].
  constructor; [done|]. rewrite Forall_forall in *. intros y [_ Hy]%list_elem_of_filter. auto.
Qed.

Lemma strip_filter (h : QueryHash) (ql : list (QueryHash * (Z * EmbVec))) :
  strip <$> filter (fun kv => kv.1 <> h) ql = filter (fun kv => kv.1 <> h) (strip <$> ql).
Proof.
  induction ql as [|[k v] ql IH]; [done|]. rewrite fmap_cons, !filter_cons. unfold strip at 2. cbn [fst].
  destruct (decide (k = h)) as [Hk|Hk].
  - by rewrite !decide_False by tauto.
  - by rewrite !decide_True, fmap_cons, IH by tauto.
Qed.

(** Inserting is inserting into the list of the newest embeddings. *)
Lemma semantic_insert_refines h e s l :
  sequence s + 1 < 2 ^ 64 -> 1 <= sc_max_entries s -> refines_recent s l ->
  refines_recent (semantic_insert h e s) (recent_insert (Z.to_nat (sc_max_entries s)) h e l) /\
  sequence (semantic_insert h e s) = sequence s + 1 /\ sc_max_entries (semantic_insert h e s) = sc_max_entries s.
Proof.
  intros Hseq Hmax (ql & [Hm Hp Hk Hs Hq Hl] & ->). unfold semantic_insert.
  destruct (sc_max_entries s =? 0) eqn:E0; reflect_Z; [lia|]. cbv zeta.
  rewrite wrap_small by (unfold in_u, u_max; lia).
  set (ql1 := (h, (sequence s, e)) :: filter (fun kv => kv.1 <> h) ql).
  set (s1 := {| embeddings := <[h := _]> _ |}).
  assert (Hm1 : embeddings s1 = list_to_map ql1) by (simpl; by rewrite Hm, list_to_map_replace).
  assert (Hk1 : NoDup ql1.*1) by (by apply keys_filter_NoDup).
  assert (Hf : Forall (fun kv : QueryHash * (Z * EmbVec) => 0 <= kv.2.1 < sequence s) (filter (fun kv => kv.1 <> h) ql)).
  { rewrite Forall_forall in *. intros x [_ Hx]%list_elem_of_filter. auto. }
  assert (Hs1 : StronglySorted newer ql1).
  { constructor; [by apply StronglySorted_filter_newer|]. eapply Forall_impl; [exact Hf|]. unfold newer. simpl. lia. }
  assert (Hq1 : Forall (fun kv => 0 <= kv.2.1 < sequence s + 1) ql1).
  { constructor; [simpl; lia|]. eapply Forall_impl; [exact Hf|]. simpl. lia. }
  assert (Hst : recent_insert (Z.to_nat (sc_max_entries s)) h e (strip <$> ql) =
                strip <$> take (Z.to_nat (sc_max_entries s)) ql1).
  { unfold recent_insert, ql1. by rewrite fmap_take, fmap_cons, strip_filter. }
  assert (Hsz : Z.of_nat (size (embeddings s1)) = zlen ql1).
  { rewrite Hm1, map_size_list_to_map by done. done. }
  assert (Hlen : zlen ql1 <= sc_max_entries s + 1).
  { unfold ql1. rewrite zlen_cons. pose proof (length_filter (fun kv : QueryHash * (Z * EmbVec) => kv.1 <> h) ql).
    unfold zlen in *. lia. }
  rewrite Hst, Hsz. change (sc_max_entries s1) with (sc_max_entries s).
  destruct (sc_max_entries s <? zlen ql1) eqn:El; reflect_Z.
  - destruct (exists_last (l := ql1)) as (ql2 & [k v] & Hsn); [unfold ql1; done|].
    rewrite Hsn in Hm1, Hk1, Hs1, Hq1. destruct (evict_lru_last _ _ _ _ Hm1 Hk1 Hs1) as (He & _ & Hse & Hme).
    assert (Hl2 : zlen ql2 = sc_max_entries s) by (rewrite Hsn, zlen_app, zlen_cons, zlen_nil in *; lia).
    rewrite Hse, Hme. split_and!; [|done|done].
    exists ql2. split; [|rewrite Hsn, take_app_length' by (unfold zlen in Hl2; lia); done].
    rewrite fmap_app in Hk1. apply NoDup_app in Hk1 as (Hk1 & _).
    constructor; rewrite ?Hse, ?Hme; [done|simpl; lia|done|by eapply StronglySorted_app_1_l| |simpl; lia].
    by apply Forall_app in Hq1 as [Hq1 _].
  - split_and!; [|done|done]. exists ql1. split.
    + constructor; [done|simpl; lia|done|done|done|done].
    + by rewrite take_ge by (unfold zlen in El; lia).
Qed.

Lemma SemanticCache_new_refines thr n : 0 <= n -> refines_recent (SemanticCache_new thr n) [].
Proof. intros Hn. exists []. split; [|done]. constructor; simpl; [done|lia|constructor|constructor|constructor|done]. Qed.

(** ** Lookup finds the best match *)

Definition sim_of (q : EmbVec) (kv : QueryHash * (Z * EmbVec)) : f32 := embedding_similarity q kv.2.2.
Definition same_dim (q : EmbVec) (kv : QueryHash * (Z * EmbVec)) : Prop := length kv.2.2 = length q.

(** What a scan knows after the entries [P]. *)
Definition scanned (q : EmbVec) (P : list (QueryHash * (Z * EmbVec))) (acc : option QueryHash * f32 * bool) : Prop :=
  (forall kv, kv ∈ P -> same_dim q kv -> f_gt (sim_of q kv) acc.1.2 = false) /\
  match acc.1.1 with
  | None => acc.1.2 = S754_infinity true
  | Some h => exists v, (h, v) ∈ P /\ same_dim q (h, v) /\ acc.1.2 = sim_of q (h, v) /\ not_nan acc.1.2
  end.

Lemma scan_spec q l : forall P acc, scanned q P acc -> scanned q (P ++ l) (fold_left (scan_step q) l acc).
Proof.
  induction l as [|kv l IH]; intros P acc Ha; simpl; [by rewrite app_nil_r|].
  rewrite cons_middle, app_assoc. apply IH. destruct acc as [[bh bs] mm], Ha as [H1 H2]; simpl in *.
  destruct (Nat.eqb (length kv.2.2) (length q)) eqn:Ed; simpl.
  - apply Nat.eqb_eq in Ed. fold (sim_of q kv). destruct (f_gt (sim_of q kv) bs) eqn:Eg; simpl.
    + split.
      * intros kv' [Hk|Hk]%elem_of_app Hd; simpl; [|apply list_elem_of_singleton in Hk as ->; apply f_gt_irrefl].
        destruct (f_gt (sim_of q kv') (sim_of q kv)) eqn:Ec; [|done]. specialize (H1 _ Hk Hd).
        unfold f_gt in *. change SFltb with f_lt in *. by rewrite (f_lt_trans _ _ _ Eg Ec) in H1.
      * exists kv.2. destruct kv as [h v]; simpl in *. split_and!; [set_solver|done|done|]. by eapply f_lt_nan_r.
    + split; simpl.
      * intros kv' [Hk|Hk]%elem_of_app Hd; [auto|]. by apply list_elem_of_singleton in Hk as ->.
      * destruct bh; [|done]. destruct H2 as (v & Hv & H2). exists v. set_solver.
  - apply Nat.eqb_neq in Ed. split; simpl.
    + intros kv' [Hk|Hk]%elem_of_app Hd; [auto|]. by apply list_elem_of_singleton in Hk as ->.
    + destruct bh; [|done]. destruct H2 as (v & Hv & H2). exists v. set_solver.
Qed.

Lemma neg_inf_below thr : f_ge (S754_infinity true) (f_clamp thr f_zero (F32.of_Z 1)) = false.
Proof. unfold f_clamp. destruct (f_lt thr f_zero) eqn:E1; [done|]. destruct (f_gt _ _); [done|]. by destruct thr as [|[]| |[]]. Qed.

(** No entry of the right dimension beats a similarity below the threshold. *)
Lemma below_threshold thr bs x :
  f_ge bs thr = false -> not_nan bs ->
  f_gt x bs = false -> f_ge x thr = false.
Proof.
  intros Hb Hn Hx. destruct (f_ge x thr) eqn:Ege; [|done].
  assert (Hx' : not_nan x) by (by eapply f_le_nan_r). unfold f_gt, f_ge in *. change SFltb with f_lt in *.
  change SFleb with f_le in *. rewrite f_lt_not_le in Hx by done. apply negb_false_iff in Hx.
  by rewrite (f_le_trans _ _ _ Ege Hx) in Hb.
Qed.

Lemma semantic_lookup_best thr q s :
  sc_threshold s = f_clamp thr f_zero (F32.of_Z 1) ->
  let r := fst (semantic_lookup q s) in
  snd (semantic_lookup q s) = (if bool_decide (is_Some r) then sc_hit s else sc_miss s) /\
  match r with
  | Some h => exists seq e, embeddings s !! h = Some (seq, e) /\ length e = length q /\
      f_ge (embedding_similarity q e) (sc_threshold s) = true /\
      forall h' seq' e', embeddings s !! h' = Some (seq', e') -> length e' = length q ->
        f_gt (embedding_similarity q e') (embedding_similarity q e) = false
  | None => forall h' seq' e', embeddings s !! h' = Some (seq', e') -> length e' = length q ->
      f_ge (embedding_similarity q e') (sc_threshold s) = false
  end.
Proof.
  intros Ht. unfold semantic_lookup. case_decide as Hemp.
  { simpl. split; [done|]. intros h' seq' e'. rewrite Hemp. by rewrite lookup_empty. }
  pose proof (scan_spec q (embed_iter (embeddings s)) [] (None, S754_infinity true, false)) as Hs.
  destruct (fold_left _ _ _) as [[bh bs] mm]. destruct Hs as [H1 H2]; [split; [set_solver|done]|]. simpl in H1, H2.
  assert (Hall : forall h' seq' e', embeddings s !! h' = Some (seq', e') -> length e' = length q ->
                   f_gt (embedding_similarity q e') bs = false).
  { intros h' seq' e' Hin Hd. apply (H1 (h', (seq', e'))); [by apply elem_of_embed_iter|done]. }
  pose proof (neg_inf_below thr) as Hinf. rewrite <- Ht in Hinf.
  destruct bh as [h|].
  - destruct H2 as ([seq e] & Hin%elem_of_embed_iter & Hd & -> & Hnn). rewrite andb_false_r. unfold sim_of in *. simpl in *.
    destruct (f_ge (embedding_similarity q e) (sc_threshold s)) eqn:Ege; simpl; (split; [done|]).
    + exists seq, e. split_and!; try done.
    + intros h' seq' e' Hin' Hd'. eapply below_threshold; eauto.
  - rewrite andb_true_r, H2 in *. assert (Hgo : forall h' seq' e', embeddings s !! h' = Some (seq', e') ->
      length e' = length q -> f_ge (embedding_similarity q e') (sc_threshold s) = false).
    { intros h' seq' e' Hin Hd. eapply below_threshold; [exact Hinf|done|]. by apply (Hall h' seq'). }
    destruct mm; [done|]. by rewrite Hinf.
Qed.
(** ** The tier as a whole *)

Inductive sem_op := SInsert (h : QueryHash) (e : EmbVec) | SLookup (q : EmbVec) | SClear.

Definition sem_apply (s : SemanticCache) (o : sem_op) : SemanticCache :=
  match o with
  | SInsert h e => semantic_insert h e s
  | SLookup q => snd (semantic_lookup q s)
  | SClear => semantic_clear s
  end.
Definition recent_apply (n : nat) (l : list (QueryHash * EmbVec)) (o : sem_op) : list (QueryHash * EmbVec) :=
  match o with SInsert h e => recent_insert n h e l | SLookup _ => l | SClear => [] end.

Definition only_counts (s s' : SemanticCache) : Prop :=
  embeddings s' = embeddings s /\ sequence s' = sequence s /\ sc_threshold s' = sc_threshold s /\
  sc_max_entries s' = sc_max_entries s.

Lemma semantic_lookup_only_counts q s : only_counts s (snd (semantic_lookup q s)).
Proof. unfold semantic_lookup. repeat case_match; done. Qed.

Lemma semantic_insert_threshold h e s : sc_threshold (semantic_insert h e s) = sc_threshold s.
Proof. unfold semantic_insert, evict_lru_one. repeat case_match; done. Qed.

Lemma refines_only_counts s s' l : only_counts s s' -> refines_recent s l -> refines_recent s' l.
Proof.
  intros (H1 & H2 & _ & H4) (ql & [] & ->). exists ql. split; [|done]. constructor; rewrite ?H1, ?H2, ?H4; done.
Qed.

Lemma sem_run_refines ops : forall s l,
  1 <= sc_max_entries s -> 0 <= sequence s -> sequence s + zlen ops < 2 ^ 64 -> refines_recent s l ->
  let s' := fold_left sem_apply ops s in
  refines_recent s' (fold_left (recent_apply (Z.to_nat (sc_max_entries s))) ops l) /\
  sc_threshold s' = sc_threshold s /\ sc_max_entries s' = sc_max_entries s.
Proof.
  induction ops as [|o ops IH]; intros s l Hm Hp Hq Hr; [done|]. cbn [fold_left].
  rewrite zlen_cons in Hq. assert (0 <= zlen ops) by (unfold zlen; lia).
  destruct o as [h e|q|]; cbn [sem_apply recent_apply].
  - destruct (semantic_insert_refines h e s l) as (H1 & H2 & H3); [lia|done|done|].
    rewrite <- (semantic_insert_threshold h e s), <- H3 at 1. rewrite <- H3. apply IH; [lia|lia|lia|by rewrite H3].
  - destruct (semantic_lookup_only_counts q s) as (H1 & H2 & H3 & H4). rewrite <- H4, <- H3. apply IH; [lia|lia|lia|].
    by apply (refines_only_counts s).
  - apply (IH (semantic_clear s)); [done|done|simpl; lia|]. exists []. split; [|done].
    constructor; simpl; [done|done|constructor|constructor|constructor|rewrite zlen_nil; lia].
Qed.

(** Under any sequence of insertions, lookups and clears (fewer than [2^64], after
    which the sequence numbers wrap) the tier holds exactly the most recently inserted
    embeddings, at most [max_entries] of them; and a lookup returns an entry of the
    query's dimension with the highest similarity if that reaches the threshold, and
    nothing only if no such entry reaches it. *)
Theorem semantic_recent thr n ops q :
  1 <= n -> zlen ops < 2 ^ 64 ->
  let s := fold_left sem_apply ops (SemanticCache_new thr n) in
  let l := fold_left (recent_apply (Z.to_nat n)) ops [] in
  (forall h e, (exists seq, embeddings s !! h = Some (seq, e)) <-> (h, e) ∈ l) /\
  Z.of_nat (size (embeddings s)) <= n /\
  match fst (semantic_lookup q s) with
  | Some h => exists e, (h, e) ∈ l /\ length e = length q /\ f_ge (embedding_similarity q e) (sc_threshold s) = true /\
      forall h' e', (h', e') ∈ l -> length e' = length q ->
        f_gt (embedding_similarity q e') (embedding_similarity q e) = false
  | None => forall h' e', (h', e') ∈ l -> length e' = length q ->
      f_ge (embedding_similarity q e') (sc_threshold s) = false
  end.
Proof.
  intros Hn Hz s l. destruct (sem_run_refines ops (SemanticCache_new thr n) []) as (Hr & Ht & Hm);
    [done|done|simpl; lia|by apply SemanticCache_new_refines; lia|].
  fold s in Hr, Ht, Hm. simpl in Hr, Ht, Hm. fold l in Hr. destruct Hr as (ql & [H1 _ H2 _ _ H5] & Hl).
  assert (Hin : forall h e, (exists seq, embeddings s !! h = Some (seq, e)) <-> (h, e) ∈ l).
  { intros h e. rewrite H1, Hl, list_elem_of_fmap. split.
    - intros [seq Hs%elem_of_list_to_map]; [|done]. by exists (h, (seq, e)).
    - intros ([h' [seq e']] & Heq & Hs). injection Heq as -> ->. exists seq. by apply elem_of_list_to_map. }
  split_and!; [done| |].
  - rewrite H1, map_size_list_to_map, <- Hm by done. done.
  - destruct (semantic_lookup_best thr q s Ht) as [_ Hb]. destruct (fst (semantic_lookup q s)) as [h|].
    + destruct Hb as (seq & e & He & Hd & Hg & Hbest). exists e. split_and!; [by apply Hin; eauto|done|done|].
      intros h' e' Hk. apply Hin in Hk as [seq' Hk]. eauto.
    + intros h' e' Hk. apply Hin in Hk as [seq' Hk]. eauto.
Qed.
End SemanticProps.

(** ** Witness: three insertions into a tier of two; the query is nearest to the last. *)

#[export] Instance DemoEmbed : EmbedEnv := {| embed_iter := map_to_list |}.
#[export] Instance DemoEmbed_laws : EmbedEnvLaws DemoEmbed.
Proof. by constructor. Qed.

Definition demo_vec (x y : Z) : EmbVec := [F32.of_Z x; F32.of_Z y].
Definition demo_sem_ops : list sem_op :=
  [SInsert [1] (demo_vec 1 0); SInsert [2] (demo_vec 0 1); SInsert [3] (demo_vec 1 1)].
Definition demo_sem : SemanticCache := fold_left sem_apply demo_sem_ops (SemanticCache_new (F32.lit 9 10) 2).

Lemma semantic_recent_witness :
  fst (semantic_lookup (demo_vec 2 3) demo_sem) = Some [3] /\ embeddings demo_sem !! [1] = None /\
  exists seq, embeddings demo_sem !! [2] = Some (seq, demo_vec 0 1).
Proof.
  split; [vm_compute; reflexivity|]. split; [vm_compute; reflexivity|].
  apply (semantic_recent (F32.lit 9 10) 2 demo_sem_ops (demo_vec 2 3)); [lia|vm_compute; reflexivity|].
  vm_compute. right. left.
Defined.
