(* ===== verification/Embedder.v ===== *)
(** * The caching embedder (src/src/proxy/smart_embedder.rs, embedder_config.rs)

    Embeddings of texts under a hash of provider, model and text, with request
    coalescing, batches and eviction.  The model provider is third-party code and an
    argument of the operations; so are the standard library's hasher and the iteration
    order of the concurrent map ([EmbedderEnv]).  A request is two steps, before and
    after the call of the provider. *)

From Stdlib Require Import SpecFloat.
From S2P Require Import Prelude Floats Text Types Semantic.
Open Scope Z_scope.
Open Scope conproxy_scope.

Record EmbedderConfig := {
  model_name : str;
  cache_max_entries : Z;
  cache_ttl : Z;
  max_batch_size : Z;
  warmup_on_start : bool;
  warmup_iterations : Z;
  em_request_timeout : Z;
  em_provider : str;
  em_api_key : option str;
  em_base_url : option str
}.

Definition EmbedderConfig_default : EmbedderConfig :=
  {| model_name := lit "all-MiniLM-L6-v2"; cache_max_entries := 10000; cache_ttl := from_secs 3600;
     max_batch_size := 32; warmup_on_start := true; warmup_iterations := 3;
     em_request_timeout := from_secs 30; em_provider := lit "onnx"; em_api_key := None; em_base_url := None |}.

Record CachedEmbedding := { ce_vector : EmbVec; ce_created : Z }.

Inductive EmbedError :=
| EmbeddingFailed (msg : str)
| ProviderFailed (msg : str).

Record SmartEmbedder := {
  se_config : EmbedderConfig;
  se_loaded : bool;
  se_cache : gmap Z CachedEmbedding;
  se_in_flight : gset Z;
  se_hits : Z;
  se_misses : Z;
  se_coalesced : Z;
  se_computed : Z
}.

Definition SmartEmbedder_new (c : EmbedderConfig) : SmartEmbedder :=
  {| se_config := c; se_loaded := false; se_cache := ∅; se_in_flight := ∅; se_hits := 0; se_misses := 0;
     se_coalesced := 0; se_computed := 0 |}.

Definition put_cache (m : gmap Z CachedEmbedding) (s : SmartEmbedder) : SmartEmbedder :=
  {| se_config := se_config s; se_loaded := se_loaded s; se_cache := m; se_in_flight := se_in_flight s;
     se_hits := se_hits s; se_misses := se_misses s; se_coalesced := se_coalesced s; se_computed := se_computed s |}.
Definition put_in_flight (f : gset Z) (s : SmartEmbedder) : SmartEmbedder :=
  {| se_config := se_config s; se_loaded := se_loaded s; se_cache := se_cache s; se_in_flight := f;
     se_hits := se_hits s; se_misses := se_misses s; se_coalesced := se_coalesced s; se_computed := se_computed s |}.
Definition set_loaded (s : SmartEmbedder) : SmartEmbedder :=
  {| se_config := se_config s; se_loaded := true; se_cache := se_cache s; se_in_flight := se_in_flight s;
     se_hits := se_hits s; se_misses := se_misses s; se_coalesced := se_coalesced s; se_computed := se_computed s |}.
Definition add_counts (hits misses coalesced computed : Z) (s : SmartEmbedder) : SmartEmbedder :=
  {| se_config := se_config s; se_loaded := se_loaded s; se_cache := se_cache s; se_in_flight := se_in_flight s;
     se_hits := wrap 64 (se_hits s + hits); se_misses := wrap 64 (se_misses s + misses);
     se_coalesced := wrap 64 (se_coalesced s + coalesced); se_computed := wrap 64 (se_computed s + computed) |}.

Class EmbedderEnv := {
  sip_hash : list str -> Z;
  cached_iter : gmap Z CachedEmbedding -> list (Z * CachedEmbedding)
}.
Class EmbedderEnvLaws (E : EmbedderEnv) : Prop := { cached_iter_perm : forall m, cached_iter m ≡ₚ map_to_list m }.

Section Embedder.
Context `{EmbedderEnv}.

Definition embed_key (c : EmbedderConfig) (text : str) : Z := sip_hash [em_provider c; model_name c; text].

Definition ensure_loaded (load : result unit EmbedError) (s : SmartEmbedder) : result SmartEmbedder EmbedError :=
  if se_loaded s then Ok s else match load with Ok _ => Ok (set_loaded s) | Err e => Err e end.

(** A cached vector that is still within its time to live. *)
Definition cached_vector (now : Z) (text : str) (s : SmartEmbedder) : option EmbVec :=
  match se_cache s !! embed_key (se_config s) text with
  | Some e => if elapsed now (ce_created e) <? cache_ttl (se_config s) then Some (ce_vector e) else None
  | None => None
  end.

Definition created_le (a b : Z * CachedEmbedding) : bool := ce_created a.2 <=? ce_created b.2.

Definition em_maybe_evict (s : SmartEmbedder) : SmartEmbedder :=
  let max := cache_max_entries (se_config s) in
  if Z.of_nat (size (se_cache s)) <=? max then s
  else
    let victims := take (Z.to_nat (max / 10)) (sort_by created_le (cached_iter (se_cache s))) in
    put_cache (foldl (fun m kv => delete kv.1 m) (se_cache s) victims) s.

(** ** A single text *)

Inductive EmbedStep := EHit (v : EmbVec) | ELead | EWait.

Definition embed_begin (now : Z) (text : str) (s : SmartEmbedder) : EmbedStep * SmartEmbedder :=
  let key := embed_key (se_config s) text in
  match cached_vector now text s with
  | Some v => (EHit v, add_counts 1 0 0 0 s)
  | None =>
      let s := add_counts 0 1 0 0 s in
      if decide (key ∈ se_in_flight s) then (EWait, add_counts 0 0 1 0 s)
      else (ELead, put_in_flight ({[key]} ∪ se_in_flight s) s)
  end.

Definition compute_embedding (load : result unit EmbedError) (provider : str -> result EmbVec EmbedError) (text : str)
    (s : SmartEmbedder) : result EmbVec EmbedError * SmartEmbedder :=
  match ensure_loaded load s with
  | Err e => (Err e, s)
  | Ok s => match provider text with
            | Ok v => (Ok v, add_counts 0 0 0 1 s)
            | Err e => (Err e, s)
            end
  end.

(** The leader, once the provider has answered at [now]. *)
Definition embed_lead (now : Z) (load : result unit EmbedError) (provider : str -> result EmbVec EmbedError)
    (text : str) (s : SmartEmbedder) : result EmbVec EmbedError * SmartEmbedder :=
  let key := embed_key (se_config s) text in
  let '(r, s) := compute_embedding load provider text s in
  let s := put_in_flight (se_in_flight s ∖ {[key]}) s in
  match r with
  | Ok v =>
      (r, if 0 <? cache_max_entries (se_config s)
          then let s := em_maybe_evict s in
               put_cache (<[key := {| ce_vector := v; ce_created := now |}]> (se_cache s)) s
          else s)
  | Err _ => (r, s)
  end.

(** A waiter receives the vector the leader broadcast; a leader that failed drops the
    channel. *)
Definition embed_wait (leader : result EmbVec EmbedError) : result EmbVec EmbedError :=
  match leader with Ok v => Ok v | Err _ => Err (EmbeddingFailed (lit "Coalesced request failed")) end.

(** [embed] when nobody else asks for the same text. *)
Definition embed_alone (now : Z) (load : result unit EmbedError) (provider : str -> result EmbVec EmbedError)
    (text : str) (s : SmartEmbedder) : option (result EmbVec EmbedError * SmartEmbedder) :=
  match embed_begin now text s with
  | (EHit v, s) => Some (Ok v, s)
  | (ELead, s) => Some (embed_lead now load provider text s)
  | (EWait, _) => None
  end.

(** ** Batches *)

(** [slice::chunks]; a list has at most as many chunks as elements. *)
Fixpoint chunks_fuel {A} (fuel : nat) (n : nat) (l : list A) : list (list A) :=
  match fuel, l with
  | O, _ | _, [] => []
  | S fuel, _ => take n l :: chunks_fuel fuel n (drop n l)
  end.
Definition chunks {A} (n : nat) (l : list A) : list (list A) := chunks_fuel (length l) n l.

(** The texts found in the cache, and those to compute with their positions. *)
Fixpoint check_cached (now : Z) (i : nat) (texts : list str) (s : SmartEmbedder)
  : list (option EmbVec) * list (nat * str) * SmartEmbedder :=
  match texts with
  | [] => ([], [], s)
  | text :: texts =>
      match cached_vector now text s with
      | Some v => let '(rs, todo, s) := check_cached now (S i) texts (add_counts 1 0 0 0 s) in (Some v :: rs, todo, s)
      | None => let '(rs, todo, s) := check_cached now (S i) texts (add_counts 0 1 0 0 s) in
                (None :: rs, (i, text) :: todo, s)
      end
  end.

(** Store the vectors of one chunk; [chunk[i]] panics when the provider returned more
    vectors than it was given texts. *)
Fixpoint store_chunk (now : Z) (chunk : list (nat * str)) (computed : list EmbVec) (rs : list (option EmbVec))
    (s : SmartEmbedder) : outcome (list (option EmbVec) * SmartEmbedder) :=
  match computed, chunk with
  | [], _ => Ret (rs, s)
  | v :: computed, (i, text) :: chunk =>
      let s := if 0 <? cache_max_entries (se_config s)
               then put_cache (<[embed_key (se_config s) text := {| ce_vector := v; ce_created := now |}]> (se_cache s)) s
               else s in
      store_chunk now chunk computed (<[i := Some v]> rs) s
  | _ :: _, [] => Panic
  end.

Fixpoint run_chunks (now : Z) (provider : list str -> result (list EmbVec) EmbedError) (cs : list (list (nat * str)))
    (rs : list (option EmbVec)) (s : SmartEmbedder)
  : outcome (result (list (option EmbVec)) EmbedError * SmartEmbedder) :=
  match cs with
  | [] => Ret (Ok rs, s)
  | chunk :: cs =>
      match provider (map snd chunk) with
      | Err e => Ret (Err e, s)
      | Ok computed =>
          let! r := store_chunk now chunk computed rs (add_counts 0 0 0 (zlen computed) s) in
          run_chunks now provider cs r.1 (em_maybe_evict r.2)
      end
  end.

(** [collect] of the results; a missing one is an error. *)
Fixpoint collect_results (i : Z) (rs : list (option EmbVec)) : result (list EmbVec) EmbedError :=
  match rs with
  | [] => Ok []
  | None :: _ => Err (EmbeddingFailed (lit "Missing embedding for text at index " ++ show_Z i))
  | Some v :: rs => match collect_results (i + 1) rs with Ok vs => Ok (v :: vs) | Err e => Err e end
  end.

Definition embed_batch (now : Z) (load : result unit EmbedError)
    (provider : list str -> result (list EmbVec) EmbedError) (texts : list str) (s : SmartEmbedder)
  : outcome (result (list EmbVec) EmbedError * SmartEmbedder) :=
  match texts with
  | [] => Ret (Ok [], s)
  | _ =>
      match ensure_loaded load s with
      | Err e => Ret (Err e, s)
      | Ok s =>
          let '(rs, todo, s) := check_cached now 0 texts s in
          let! r := run_chunks now provider (chunks (Z.to_nat (Z.max (max_batch_size (se_config s)) 1)) todo) rs s in
          match r with
          | (Ok rs, s) => Ret (collect_results 0 rs, s)
          | (Err e, s) => Ret (Err e, s)
          end
      end
  end.

Definition clear_cache (s : SmartEmbedder) : SmartEmbedder := put_cache ∅ s.

Definition em_hit_rate (s : SmartEmbedder) : f64 :=
  let total := wrap 64 (se_hits s + se_misses s) in
  if total =? 0 then f_zero else F64.div (F64.of_Z (se_hits s)) (F64.of_Z total).
End Embedder.

(** ** Properties *)

Section EmbedderProps.
Context `{E : EmbedderEnv} {L : EmbedderEnvLaws E}.

Lemma concat_chunks_fuel {A} n : (0 < n)%nat -> forall fuel (l : list A), (length l <= fuel)%nat ->
  concat (chunks_fuel fuel n l) = l.
Proof.
  intros Hn fuel. induction fuel as [|fuel IH]; intros l Hl; [by destruct l; simpl in *; [|lia]|].
  destruct l as [|x l]; [done|]. cbn [chunks_fuel concat].
  rewrite IH; [apply take_drop|]. rewrite length_drop. simpl in *. lia.
Qed.

Lemma concat_chunks {A} n (l : list A) : (0 < n)%nat -> concat (chunks n l) = l.
Proof. intros. by apply concat_chunks_fuel. Qed.

(** The cache agrees with [f]. *)
Definition coherent (f : str -> EmbVec) (s : SmartEmbedder) : Prop :=
  forall t e, se_cache s !! embed_key (se_config s) t = Some e -> ce_vector e = f t.

(** Only texts with the same vector share a key. *)
Definition separates (f : str -> EmbVec) (c : EmbedderConfig) : Prop :=
  forall t t', embed_key c t = embed_key c t' -> f t = f t'.

(** The positions of [rs] that are filled agree with [tgt]; the others are to do. *)
Definition partial (f : str -> EmbVec) (tgt : list EmbVec) (rs : list (option EmbVec)) (todo : list (nat * str)) : Prop :=
  length rs = length tgt /\
  (forall j v, tgt !! j = Some v -> rs !! j = Some (Some v) \/ (rs !! j = Some None /\ exists t, (j, t) ∈ todo)) /\
  (forall j t, (j, t) ∈ todo -> tgt !! j = Some (f t)).

Lemma check_cached_spec f now texts : forall i s rs todo s',
  coherent f s -> check_cached now i texts s = (rs, todo, s') ->
  se_cache s' = se_cache s /\ se_config s' = se_config s /\ length rs = length texts /\
  (forall j t, texts !! j = Some t -> rs !! j = Some (Some (f t)) \/ (rs !! j = Some None /\ ((i + j)%nat, t) ∈ todo)) /\
  (forall k t, (k, t) ∈ todo -> exists j, k = (i + j)%nat /\ texts !! j = Some t).
Proof.
  induction texts as [|t texts IH]; intros i s rs todo s' Hc; simpl.
  { intros [= <- <- <-]. split_and!; [done..|set_solver]. }
  destruct (cached_vector now t s) as [v|] eqn:Ev.
  - destruct (check_cached _ _ _ _) as [[rs0 todo0] s0] eqn:Ec. intros [= <- <- <-].
    destruct (IH _ (add_counts 1 0 0 0 s) _ _ _ Hc Ec) as (H1 & H2 & H3 & H4 & H5). simpl in *.
    split_and!; [done|done|by f_equal| |].
    + intros [|j] t'; simpl.
      * intros [= <-]. left. do 2 f_equal. unfold cached_vector in Ev. destruct (se_cache s !! _) as [e|] eqn:Ee; [|done].
        destruct (_ <? _); [|done]. injection Ev as <-. by apply Hc.
      * intros Ht. rewrite Nat.add_succ_r. by apply (H4 j t').
    + intros k t' (j & -> & Hj)%H5. exists (S j). split; [lia|done].
  - destruct (check_cached _ _ _ _) as [[rs0 todo0] s0] eqn:Ec. intros [= <- <- <-].
    destruct (IH _ (add_counts 0 1 0 0 s) _ _ _ Hc Ec) as (H1 & H2 & H3 & H4 & H5). simpl in *.
    split_and!; [done|done|by f_equal| |].
    + intros [|j] t'; simpl.
      * intros [= <-]. right. rewrite Nat.add_0_r. split; [done|set_solver].
      * intros Ht. rewrite Nat.add_succ_r. destruct (H4 j t' Ht) as [?|[? ?]]; [by left|right; split; [done|set_solver]].
    + intros k t' [Heq|(j & -> & Hj)%H5]%elem_of_cons; [injection Heq as -> ->; exists 0%nat; split; [lia|done]|].
      exists (S j). split; [lia|done].
Qed.

Lemma store_chunk_spec f now tgt chunk rest : forall rs s,
  partial f tgt rs (chunk ++ rest) ->
  exists rs' s', store_chunk now chunk (map f (map snd chunk)) rs s = Ret (rs', s') /\ partial f tgt rs' rest /\
    se_config s' = se_config s /\ (separates f (se_config s) -> coherent f s -> coherent f s').
Proof.
  induction chunk as [|[i t] chunk IH]; intros rs s Hp; simpl; [by eauto 10|].
  destruct Hp as (H1 & H2 & H3).
  assert (Ht : tgt !! i = Some (f t)) by (apply H3; set_solver).
  match goal with |- exists _ _, store_chunk _ _ _ ?r ?x = _ /\ _ => set (rs1 := r); set (s1 := x) end.
  assert (Hc1 : se_config s1 = se_config s) by (unfold s1; by case_match).
  destruct (IH rs1 s1) as (rs' & s' & Hs & Hp' & Hc & Hco).
  - unfold rs1. split_and!; [by rewrite length_insert| |].
    + intros j v Hj. destruct (decide (j = i)) as [->|Hne].
      * left. rewrite list_lookup_insert_eq by (apply lookup_lt_Some in Hj; lia). by rewrite Ht in Hj; injection Hj as ->.
      * rewrite list_lookup_insert_ne by done. destruct (H2 j v Hj) as [?|[? [t' Ht']]]; [by left|right; split; [done|]].
        exists t'. set_solver.
    + intros j t' Hj. apply H3. set_solver.
  - exists rs', s'. split_and!; [done|done|congruence|]. intros Hsep Hcoh. rewrite Hc1 in Hco. apply Hco; [done|].
    unfold s1. case_match; [|done]. intros t' e. simpl. destruct (decide (embed_key (se_config s) t = embed_key (se_config s) t')) as [Hk|Hk].
    + rewrite Hk, lookup_insert_eq. intros [= <-]. simpl. by apply Hsep.
    + rewrite lookup_insert_ne by done. apply Hcoh.
Qed.

Lemma foldl_delete_lookup (vs : list (Z * CachedEmbedding)) : forall (m : gmap Z CachedEmbedding) k,
  foldl (fun m kv => delete kv.1 m) m vs !! k = if decide (k ∈ vs.*1) then None else m !! k.
Proof.
  induction vs as [|[k0 v0] vs IH]; intros m k; [case_decide; set_solver|].
  cbn [foldl fst]. rewrite IH, fmap_cons. cbn [fst]. rewrite lookup_delete.
  repeat case_decide; set_solver.
Qed.

Lemma em_maybe_evict_sub s :
  se_config (em_maybe_evict s) = se_config s /\
  forall k e, se_cache (em_maybe_evict s) !! k = Some e -> se_cache s !! k = Some e.
Proof.
  unfold em_maybe_evict. case_match; [done|]. split; [done|]. intros k e. simpl. rewrite foldl_delete_lookup.
  by case_decide.
Qed.

Lemma run_chunks_spec f now provider tgt cs : (forall ts, provider ts = Ok (map f ts)) -> forall rs s,
  partial f tgt rs (concat cs) ->
  exists rs' s', run_chunks now provider cs rs s = Ret (Ok rs', s') /\ partial f tgt rs' [] /\
    se_config s' = se_config s /\ (separates f (se_config s) -> coherent f s -> coherent f s').
Proof.
  intros Hpr. induction cs as [|c cs IH]; intros rs s Hp; simpl; [by eauto 10|].
  rewrite Hpr. destruct (store_chunk_spec f now tgt c (concat cs) rs
    (add_counts 0 0 0 (zlen (map f (map snd c))) s) Hp) as (rs1 & s1 & Hs1 & Hp1 & Hc1 & Hco1).
  rewrite Hs1. simpl. destruct (em_maybe_evict_sub s1) as [Hce Hsub].
  destruct (IH rs1 (em_maybe_evict s1) Hp1) as (rs' & s' & Hs & Hp' & Hc & Hco).
  exists rs', s'. split_and!; [done|done|by rewrite Hc, Hce, Hc1|].
  intros Hsep Hcoh. apply Hco; [by rewrite Hce, Hc1|]. intros t e He%Hsub. rewrite Hce in He.
  by apply (Hco1 Hsep Hcoh t e).
Qed.

Lemma collect_partial f tgt rs i : partial f tgt rs [] -> collect_results i rs = Ok tgt.
Proof.
  intros (H1 & H2 & _). revert i tgt H1 H2. induction rs as [|r rs IH]; intros i [|v tgt] H1 H2; simpl in *; try done.
  destruct (H2 0%nat v eq_refl) as [Hr|[_ [t Ht]]]; [|set_solver]. simpl in Hr. injection Hr as ->.
  rewrite (IH (i + 1) tgt); [done|lia|]. intros j w Hj. destruct (H2 (S j) w Hj) as [?|[_ [t Ht]]]; [by left|set_solver].
Qed.

(** A batch returns what the model computes for each text, in order, whatever part of
    it comes from the cache and however it is cut into chunks; and it leaves the cache
    coherent.  (The provider answers each text, keys do not confuse texts with
    different vectors, and the cache was coherent.) *)
Theorem embed_batch_faithful f now load provider texts s :
  (forall ts, provider ts = Ok (map f ts)) -> load = Ok tt ->
  separates f (se_config s) -> coherent f s ->
  exists s', embed_batch now load provider texts s = Ret (Ok (map f texts), s') /\ coherent f s' /\
    se_config s' = se_config s.
Proof.
  intros Hpr -> Hsep Hcoh. unfold embed_batch. destruct texts as [|t0 texts0]; [by exists s|].
  set (texts := t0 :: texts0).
  assert (Hl : exists s0, ensure_loaded (Ok tt) s = Ok s0 /\ se_cache s0 = se_cache s /\ se_config s0 = se_config s).
  { unfold ensure_loaded. by destruct (se_loaded s); eexists. }
  destruct Hl as (s0 & -> & Hc0 & Hf0).
  assert (Hcoh0 : coherent f s0) by (intros t e; rewrite Hc0, Hf0; apply Hcoh).
  destruct (check_cached now 0 texts s0) as [[rs todo] s1] eqn:Ec.
  destruct (check_cached_spec f now texts 0 s0 rs todo s1 Hcoh0 Ec) as (H1 & H2 & H3 & H4 & H5).
  assert (Hp : partial f (map f texts) rs todo).
  { split_and!; [by rewrite length_map| |].
    - intros j v (t & -> & Ht)%list_lookup_fmap_Some. destruct (H4 j t Ht) as [?|[? ?]]; [by left|right; eauto].
    - intros j t (j' & -> & Hj)%H5. rewrite Nat.add_0_l. apply list_lookup_fmap_Some. by exists t. }
  destruct (run_chunks_spec f now provider (map f texts)
    (chunks (Z.to_nat (Z.max (max_batch_size (se_config s1)) 1)) todo) Hpr rs s1) as (rs' & s' & Hr & Hp' & Hc' & Hco).
  { rewrite concat_chunks by lia. done. }
  rewrite Hr. cbn [obind]. rewrite (collect_partial _ _ _ _ Hp'). exists s'. split_and!; [done| |congruence].
  apply Hco; [by rewrite H2, Hf0|]. intros t e. rewrite H1, H2. apply Hcoh0.
Qed.

(** ** The size of the cache *)

Lemma foldl_delete_size (vs : list (Z * CachedEmbedding)) : forall (m : gmap Z CachedEmbedding),
  NoDup vs.*1 -> (forall kv, kv ∈ vs -> m !! kv.1 = Some kv.2) ->
  (size (foldl (fun m kv => delete kv.1 m) m vs) + length vs = size m)%nat.
Proof.
  induction vs as [|[k v] vs IH]; intros m Hnd Hin; simpl; [lia|].
  apply NoDup_cons in Hnd as [Hk Hnd].
  assert (Hkv : m !! k = Some v) by (apply (Hin (k, v)); set_solver).
  specialize (IH (delete k m) Hnd). rewrite map_size_delete_Some in IH by eauto.
  assert (size m <> 0%nat) by (intros Hz%map_size_empty_inv; by subst).
  rewrite Nat.add_succ_r, IH; [lia|]. intros kv Hkv'. rewrite lookup_delete_ne; [apply Hin; set_solver|].
  intros ->. apply Hk, list_elem_of_fmap. by exists kv.
Qed.

(** An eviction frees a tenth of the configured size, rounded down. *)
Lemma em_maybe_evict_size s :
  0 <= cache_max_entries (se_config s) ->
  let max := cache_max_entries (se_config s) in
  Z.of_nat (size (se_cache (em_maybe_evict s))) =
  if Z.of_nat (size (se_cache s)) <=? max then Z.of_nat (size (se_cache s)) else Z.of_nat (size (se_cache s)) - max / 10.
Proof.
  intros Hm max. unfold em_maybe_evict. fold max. destruct (_ <=? max) eqn:Ez; reflect_Z; [done|]. simpl.
  set (vs := take _ _).
  assert (Hperm : sort_by created_le (cached_iter (se_cache s)) ≡ₚ map_to_list (se_cache s))
    by (rewrite sort_by_perm; apply cached_iter_perm).
  assert (Hlen : length vs = Z.to_nat (max / 10)).
  { unfold vs. rewrite length_take, Hperm, length_map_to_list. apply Nat.min_l.
    assert (max / 10 <= max) by (apply Z.div_le_upper_bound; lia). lia. }
  pose proof (foldl_delete_size vs (se_cache s)) as Hs.
  rewrite Hlen in Hs. assert (0 <= max / 10) by (apply Z.div_pos; lia).
  enough (size (foldl (fun m kv => delete kv.1 m) (se_cache s) vs) + Z.to_nat (max / 10) = size (se_cache s))%nat by lia.
  apply Hs.
  - unfold vs. rewrite fmap_take. apply (sublist_NoDup _ (sort_by created_le (cached_iter (se_cache s))).*1);
      [|apply sublist_take]. rewrite Hperm. apply NoDup_fst_map_to_list.
  - intros [k v] Hkv. simpl. apply elem_of_map_to_list. rewrite <- Hperm. unfold vs in Hkv.
    by apply elem_of_take in Hkv as (i & Hi & _); eapply list_elem_of_lookup_2.
Qed.

Lemma embed_lead_size now load provider text s :
  0 <= cache_max_entries (se_config s) ->
  let max := cache_max_entries (se_config s) in
  let n := Z.of_nat (size (se_cache s)) in
  Z.of_nat (size (se_cache (snd (embed_lead now load provider text s)))) <=
    Z.max n (1 + (if n <=? max then n else n - max / 10)) /\
  se_config (snd (embed_lead now load provider text s)) = se_config s.
Proof.
  intros Hm max n. unfold embed_lead, compute_embedding.
  assert (Hl : forall s0, ensure_loaded load s = Ok s0 -> se_cache s0 = se_cache s /\ se_config s0 = se_config s).
  { unfold ensure_loaded. intros s0. by repeat case_match; intros [= <-]. }
  destruct (ensure_loaded load s) as [s0|e]; [|simpl; split; [lia|done]].
  destruct (Hl s0 eq_refl) as [H1 H2]. destruct (provider text) as [v|e]; simpl; [|rewrite H1, H2; split; [lia|done]].
  rewrite H2. fold max. destruct (0 <? max); simpl; [|rewrite H1, H2; split; [lia|done]].
  match goal with |- context [em_maybe_evict ?x] => set (s1 := x) end.
  pose proof (em_maybe_evict_size s1) as He. simpl in He. rewrite H1, H2 in He. specialize (He Hm). fold max n in He.
  split; [|by rewrite (proj1 (em_maybe_evict_sub s1))].
  destruct (se_cache (em_maybe_evict s1) !! embed_key (se_config s) text) as [e|] eqn:Ek.
  - rewrite map_size_insert_Some by eauto. rewrite He. lia.
  - rewrite map_size_insert_None by done. rewrite Nat2Z.inj_succ, He. lia.
Qed.
(** What happens to an embedder besides batches, in any order and interleaving. *)
Inductive embed_event :=
| EvBegin (now : Z) (text : str)
| EvLead (now : Z) (load : result unit EmbedError) (provider : str -> result EmbVec EmbedError) (text : str)
| EvClear.
Definition embed_apply (s : SmartEmbedder) (e : embed_event) : SmartEmbedder :=
  match e with
  | EvBegin now text => snd (embed_begin now text s)
  | EvLead now load provider text => snd (embed_lead now load provider text s)
  | EvClear => clear_cache s
  end.

Lemma embed_begin_frame now text s :
  se_cache (snd (embed_begin now text s)) = se_cache s /\ se_config (snd (embed_begin now text s)) = se_config s.
Proof. unfold embed_begin. repeat case_match; done. Qed.

(** With a configured size of ten or more, single texts never leave more than one
    entry above it. *)
Theorem embed_cache_bounded c es :
  10 <= cache_max_entries c ->
  Z.of_nat (size (se_cache (fold_left embed_apply es (SmartEmbedder_new c)))) <= cache_max_entries c + 1.
Proof.
  intros Hc. cut (forall s, se_config s = c -> Z.of_nat (size (se_cache s)) <= cache_max_entries c + 1 ->
    Z.of_nat (size (se_cache (fold_left embed_apply es s))) <= cache_max_entries c + 1).
  { intros Hgo. apply Hgo; [done|]. simpl. rewrite map_size_empty. lia. }
  assert (1 <= cache_max_entries c / 10) by (apply Z.div_le_lower_bound; lia).
  induction es as [|e es IH]; intros s Hs Hn; [done|]. cbn [fold_left]. apply IH.
  - destruct e; simpl; [by rewrite (proj2 (embed_begin_frame _ _ _))| |done].
    rewrite (proj2 (embed_lead_size now load provider text s ltac:(rewrite Hs; lia))). done.
  - destruct e; simpl; [by rewrite (proj1 (embed_begin_frame _ _ _))| |rewrite map_size_empty; lia].
    destruct (embed_lead_size now load provider text s) as [Hl _]; [rewrite Hs; lia|].
    rewrite Hs in Hl. destruct (_ <=? cache_max_entries c) eqn:Ez; reflect_Z; lia.
Qed.

(** Below ten a tenth of the size is zero: nothing is ever evicted, and the cache
    grows with every new text. *)
Lemma small_cache_never_evicts s : 0 <= cache_max_entries (se_config s) < 10 -> em_maybe_evict s = s.
Proof.
  intros Hm. unfold em_maybe_evict. case_match; [done|].
  rewrite Z.div_small by lia. simpl. by destruct s.
Qed.

Theorem small_cache_grows f now load ts c :
  0 < cache_max_entries c < 10 -> load = Ok tt -> NoDup (map (embed_key c) ts) ->
  size (se_cache (fold_left embed_apply (map (EvLead now load (fun t => Ok (f t))) ts) (SmartEmbedder_new c))) = length ts.
Proof.
  intros Hc -> Hnd. cut (forall s, se_config s = c -> (forall t, t ∈ ts -> se_cache s !! embed_key c t = None) ->
    size (se_cache (fold_left embed_apply (map (EvLead now (Ok tt) (fun t => Ok (f t))) ts) s)) =
    (size (se_cache s) + length ts)%nat).
  { intros Hgo. rewrite Hgo; [by simpl; rewrite map_size_empty|done|done]. }
  induction ts as [|t ts IH]; intros s Hs Hnew; simpl; [lia|]. apply NoDup_cons in Hnd as [Hk Hnd].
  set (s1 := snd (embed_lead _ _ _ _ _)).
  assert (H1 : se_config s1 = c /\ se_cache s1 = <[embed_key c t := {| ce_vector := f t; ce_created := now |}]> (se_cache s)).
  { unfold s1, embed_lead, compute_embedding, ensure_loaded.
    destruct (se_loaded s); simpl; rewrite Hs; rewrite (proj2 (Z.ltb_lt _ _)) by lia; simpl;
      rewrite small_cache_never_evicts by (simpl; rewrite Hs; lia); done. }
  destruct H1 as [H1 H2]. rewrite IH; [|done|done|].
  - rewrite H2, map_size_insert_None by (apply Hnew; set_solver). lia.
  - intros t' Ht'. rewrite H2, lookup_insert_ne; [apply Hnew; set_solver|]. intros Heq. apply Hk. rewrite Heq.
    by apply list_elem_of_fmap_2.
Qed.
End EmbedderProps.

(** ** A concrete embedder *)

#[export] Instance DemoEmbedder : EmbedderEnv :=
  {| sip_hash := fun l => foldl (fun a c => 2 ^ 21 * a + c + 1) 0 (concat l); cached_iter := map_to_list |}.
#[export] Instance DemoEmbedder_laws : EmbedderEnvLaws DemoEmbedder.
Proof. by constructor. Qed.

Definition demo_embedder (max batch : Z) : SmartEmbedder :=
  SmartEmbedder_new {| model_name := lit "m"; cache_max_entries := max; cache_ttl := from_secs 3600;
    max_batch_size := batch; warmup_on_start := false; warmup_iterations := 0; em_request_timeout := 0;
    em_provider := lit "p"; em_api_key := None; em_base_url := None |}.
Definition demo_model (c : EmbedderConfig) (t : str) : EmbVec := [F32.of_Z (embed_key c t)].
Definition demo_texts : list str := [lit "a"; lit "b"; lit "a"; lit "c"].

Lemma embed_batch_faithful_witness :
  let s := demo_embedder 100 2 in
  let f := demo_model (se_config s) in
  exists s', embed_batch 0 (Ok tt) (fun ts => Ok (map f ts)) demo_texts s = Ret (Ok (map f demo_texts), s') /\
    coherent f s' /\ se_config s' = se_config s.
Proof.
  intros s f. apply (embed_batch_faithful f 0 (Ok tt) (fun ts => Ok (map f ts)) demo_texts s).
  - reflexivity.
  - reflexivity.
  - intros t t' Hk. unfold f, demo_model. rewrite Hk. reflexivity.
  - intros t e He. discriminate He.
Defined.

(** Batches evict once for each chunk, a tenth of the size: with chunks of three and a
    size of twenty the cache grows without bound. *)
Fixpoint demo_batches (n : nat) (i : Z) (s : SmartEmbedder) : SmartEmbedder :=
  match n with
  | O => s
  | S n =>
      match embed_batch i (Ok tt) (fun ts => Ok (map (demo_model (se_config s)) ts))
              [show_Z (3 * i); show_Z (3 * i + 1); show_Z (3 * i + 2)] s with
      | Ret (_, s) => demo_batches n (i + 1) s
      | Panic => s
      end
  end.
Example batches_outgrow_cache :
  size (se_cache (demo_batches 40 1 (demo_embedder 20 3))) = 52%nat /\
  size (se_cache (demo_batches 60 1 (demo_embedder 20 3))) = 72%nat.
Proof. split; vm_compute; reflexivity. Qed.
