(* ===== verification/Distill.v ===== *)
(** * Distilled entries (src/src/proxy/distill.rs, src/src/proxy/slug.rs)

    The markdown rendering of a cache entry with its ISO 8601 date, and the file name
    made from a query.  [i64], [i32] and [u32] arithmetic is written out; the JSON
    reader and pretty printer are third-party code. *)

From S2P Require Import Prelude Text Types.
Open Scope Z_scope.
Open Scope conproxy_scope.

(** ** Dates *)

(** [x as i32] *)
Definition wrap_i32 (x : Z) : Z := (x + 2 ^ 31) mod 2 ^ 32 - 2 ^ 31.

(** Year of the era, month and day of a day of an era of 400 years (which starts on
    the first of March). *)
Definition ymd_of_doe (doe : Z) : Z * Z * Z :=
  let yoe := (doe - doe / 1460 + doe / 36524 - doe / 146096) / 365 in
  let doy := doe - (365 * yoe + yoe / 4 - yoe / 100) in
  let mp := (5 * doy + 2) / 153 in
  let d := doy - (153 * mp + 2) / 5 + 1 in
  let m := if mp <? 10 then mp + 3 else mp - 9 in
  (yoe, m, d).

(** [days_to_ymd]; Rust's division truncates towards zero. *)
Definition days_to_ymd (days : Z) : Z * Z * Z :=
  let z := days + 719468 in
  let era := Z.quot (if 0 <=? z then z else z - 146096) 146097 in
  let doe := wrap 32 (z - era * 146097) in
  let '(yoe, m, d) := ymd_of_doe doe in
  let y := wrap_i32 (wrap_i32 yoe + wrap_i32 (era * 400)) in
  ((if m <=? 2 then wrap_i32 (y + 1) else y), m, d).

(** [{:0w}] of a number that is not negative. *)
Definition pad (w : nat) (n : Z) : str :=
  let s := show_Z n in replicate (w - length s) 48 ++ s.

Definition chrono_like_format (secs nsec : Z) : str :=
  let days := secs / 86400 in
  let secs_of_day := secs mod 86400 in
  let '(year, month, day) := days_to_ymd days in
  let hour := secs_of_day / 3600 in
  let minute := (secs_of_day mod 3600) / 60 in
  let second := secs_of_day mod 60 in
  pad 4 year ++ lit "-" ++ pad 2 month ++ lit "-" ++ pad 2 day ++ lit "T" ++ pad 2 hour ++ lit ":" ++
  pad 2 minute ++ lit ":" ++ pad 2 second ++ lit "." ++ pad 9 nsec ++ lit "Z".

Definition format_cached_at_ms (ms : Z) : str :=
  chrono_like_format (ms / 1000) ((ms mod 1000) * 1000000).

(** ** Bytes to text

    [String::from_utf8_lossy]: a maximal prefix of a sequence that cannot be
    completed becomes one replacement character. *)
Definition replacement : char := 65533.
Definition is_cont (b : Z) : bool := (128 <=? b) && (b <=? 191).

(** The number of continuation bytes after a first byte, its payload, and the range of
    the second byte. *)
Definition utf8_lead (b : Z) : option (nat * Z * Z * Z) :=
  if (194 <=? b) && (b <=? 223) then Some (1%nat, b - 192, 128, 191)
  else if b =? 224 then Some (2%nat, 0, 160, 191)
  else if b =? 237 then Some (2%nat, 13, 128, 159)
  else if (225 <=? b) && (b <=? 239) then Some (2%nat, b - 224, 128, 191)
  else if b =? 240 then Some (3%nat, 0, 144, 191)
  else if (241 <=? b) && (b <=? 243) then Some (3%nat, b - 240, 128, 191)
  else if b =? 244 then Some (3%nat, 4, 128, 143)
  else None.

(** Read [n] continuation bytes, the first in [lo..hi]: the character or nothing, and
    what is left. *)
Fixpoint utf8_tail (n : nat) (lo hi acc : Z) (bs : bytes) : option char * bytes :=
  match n with
  | O => (Some acc, bs)
  | S n =>
      match bs with
      | b :: bs' => if (lo <=? b) && (b <=? hi) then utf8_tail n 128 191 (acc * 64 + (b - 128)) bs' else (None, bs)
      | [] => (None, [])
      end
  end.

Fixpoint lossy_fuel (fuel : nat) (bs : bytes) : str :=
  match fuel, bs with
  | O, _ | _, [] => []
  | S fuel, b :: bs =>
      if b <? 128 then b :: lossy_fuel fuel bs
      else match utf8_lead b with
           | None => replacement :: lossy_fuel fuel bs
           | Some (n, p, lo, hi) =>
               let '(c, bs) := utf8_tail n lo hi p bs in
               default replacement c :: lossy_fuel fuel bs
           end
  end.
Definition from_utf8_lossy (bs : bytes) : str := lossy_fuel (length bs) bs.

(** ** Markdown *)

Record DistillEntry := {
  de_query : str;
  de_context_id : str;
  de_upstream_id : str;
  de_hash_hex : str;
  de_cached_at_ms : Z;
  de_extended_count : Z;
  de_response_json : bytes
}.

Class JsonText := { json_from_slice : bytes -> option Value; json_to_string_pretty : Value -> option str }.

Definition nl : str := [10].

Definition render_entry_md `{JsonText} (e : DistillEntry) : str :=
  lit "# " ++ (match de_query e with [] => lit "<empty>" | q => q end) ++ nl ++ nl ++
  lit "## Metadata" ++ nl ++ nl ++
  lit "- **Context:** `" ++ de_context_id e ++ lit "`" ++ nl ++
  lit "- **Upstream:** `" ++ de_upstream_id e ++ lit "`" ++ nl ++
  lit "- **Hash:** `" ++ de_hash_hex e ++ lit "`" ++ nl ++
  lit "- **Cached at:** `" ++ format_cached_at_ms (de_cached_at_ms e) ++ lit "`" ++ nl ++
  (if 0 <? de_extended_count e then lit "- **TTL extensions:** " ++ show_Z (de_extended_count e) ++ nl else []) ++
  nl ++ lit "## Response" ++ nl ++ nl ++
  match json_from_slice (de_response_json e) with
  | Some value =>
      match json_to_string_pretty value with
      | Some pretty => lit "```json" ++ nl ++ pretty ++ nl ++ lit "```" ++ nl
      | None => lit "```" ++ nl ++ lit "(response could not be pretty-printed)" ++ nl ++ lit "```" ++ nl
      end
  | None =>
      lit "```" ++ nl ++ lit "(response JSON unparseable; raw bytes below)" ++ nl ++ nl ++
      from_utf8_lossy (de_response_json e) ++ nl ++ lit "```" ++ nl
  end.

(** ** File names *)

(** The loop of [slugify]: the output reversed, and [last_was_sep]. *)
Definition slug_step (acc : str * bool) (ch : char) : str * bool :=
  let '(out, last_was_sep) := acc in
  if is_ascii_alphanumeric ch then (to_ascii_lowercase_char ch :: out, false)
  else if negb last_was_sep then (45 :: out, true) else acc.

Definition slugify (input : str) : str :=
  let '(out, _) := fold_left slug_step input ([], true) in
  reverse (match out with 45 :: out' => out' | _ => out end).

(** ** The calendar

    The Gregorian calendar, one day after the other. *)
Definition leap (y : Z) : bool := (y mod 4 =? 0) && (negb (y mod 100 =? 0) || (y mod 400 =? 0)).
Definition month_len (y m : Z) : Z :=
  if m =? 2 then (if leap y then 29 else 28)
  else if (m =? 4) || (m =? 6) || (m =? 9) || (m =? 11) then 30 else 31.
Definition next_date (date : Z * Z * Z) : Z * Z * Z :=
  let '(y, m, d) := date in
  if d <? month_len y m then (y, m, d + 1) else if m <? 12 then (y, m + 1, 1) else (y + 1, 1, 1).

(** The years of an era: the day on which one starts and its length. *)
Definition year_start (yoe : Z) : Z := 365 * yoe + yoe / 4 - yoe / 100.
Definition year_len (yoe : Z) : Z := if leap (yoe + 1) then 366 else 365.
Definition year_index (doe : Z) : Z := (doe - doe / 1460 + doe / 36524 - doe / 146096) / 365.
Definition month_day (doy : Z) : Z * Z :=
  let mp := (5 * doy + 2) / 153 in
  (if mp <? 10 then mp + 3 else mp - 9, doy - (153 * mp + 2) / 5 + 1).

Lemma seqZ_check (P : Z -> bool) n : forallb P (seqZ 0 n) = true -> forall x, 0 <= x < n -> P x = true.
Proof.
  intros Hf x Hx. rewrite forallb_forall in Hf. apply Hf, list_elem_of_In, elem_of_seqZ. lia.
Qed.

(** The quotient grows with the day, so that it is enough to look at the first and the
    last day of each year. *)
Lemma year_index_mono a b : 0 <= a <= b -> b <= 146096 -> year_index a <= year_index b.
Proof.
  intros Ha Hb. unfold year_index. apply Z.div_le_mono; [lia|].
  assert (a / 36524 <= b / 36524) by (apply Z.div_le_mono; lia).
  destruct (decide (b = 146096)) as [->|Hn].
  - assert (a - a / 1460 <= 146096 - 146096 / 1460)
      by (pose proof (Z.div_mod a 1460 ltac:(lia)); pose proof (Z.mod_pos_bound a 1460 ltac:(lia)); change (146096 / 1460) with 100; lia).
    destruct (decide (a = 146096)) as [->|Hna]; [lia|].
    assert (a / 146096 = 0) as -> by (apply Z.div_small; lia).
    change (146096 / 36524) with 4 in *. change (146096 / 146096) with 1. change (146096 / 1460) with 100 in *.
    assert (a / 36524 <= 3) by (apply Z.lt_succ_r, Z.div_lt_upper_bound; lia). lia.
  - assert (b / 146096 = 0) as -> by (apply Z.div_small; lia).
    assert (a / 146096 = 0) as -> by (apply Z.div_small; lia).
    pose proof (Z.div_mod a 1460 ltac:(lia)). pose proof (Z.mod_pos_bound a 1460 ltac:(lia)).
    pose proof (Z.div_mod b 1460 ltac:(lia)). pose proof (Z.mod_pos_bound b 1460 ltac:(lia)). lia.
Qed.

Definition year_bounds_ok (yoe : Z) : bool :=
  (year_index (year_start yoe) =? yoe) && (year_index (year_start yoe + year_len yoe - 1) =? yoe) &&
  (year_start yoe + year_len yoe <=? 146097) &&
  ((yoe =? 399) || (year_start (yoe + 1) =? year_start yoe + year_len yoe)).
Lemma year_bounds yoe : 0 <= yoe < 400 -> year_bounds_ok yoe = true.
Proof. apply seqZ_check. vm_compute. reflexivity. Qed.

Lemma year_index_of yoe doy :
  0 <= yoe < 400 -> 0 <= doy < year_len yoe -> year_index (year_start yoe + doy) = yoe.
Proof.
  intros Hy Hd. pose proof (year_bounds yoe Hy) as Hb. unfold year_bounds_ok in Hb.
  rewrite !andb_true_iff, !Z.eqb_eq, Z.leb_le in Hb. destruct Hb as (((H1 & H2) & H3) & _).
  assert (0 <= year_start yoe).
  { unfold year_start. pose proof (Z.div_le_mono yoe 100 4). assert (yoe / 100 <= yoe / 4).
    { apply Z.div_le_compat_l; lia. } lia. }
  pose proof (year_index_mono (year_start yoe) (year_start yoe + doy)).
  pose proof (year_index_mono (year_start yoe + doy) (year_start yoe + year_len yoe - 1)). lia.
Qed.

(** Every day of an era is a day of one of its years. *)
Lemma year_split doe : 0 <= doe < 146097 ->
  exists yoe doy, 0 <= yoe < 400 /\ 0 <= doy < year_len yoe /\ doe = year_start yoe + doy.
Proof.
  intros Hd. assert (Hgo : forall n : nat, (n <= 400)%nat ->
    (n = 400%nat /\ doe < 146097 \/ doe < year_start (Z.of_nat n)) ->
    exists yoe doy, 0 <= yoe < 400 /\ 0 <= doy < year_len yoe /\ doe = year_start yoe + doy).
  { induction n as [|n IH]; intros Hn Hlt; [change (year_start (Z.of_nat 0)) with 0 in Hlt; lia|].
    destruct (decide (doe < year_start (Z.of_nat n))) as [Hs|Hs]; [apply IH; [lia|by right]|].
    pose proof (year_bounds (Z.of_nat n) ltac:(lia)) as Hb. unfold year_bounds_ok in Hb.
    rewrite !andb_true_iff, orb_true_iff, !Z.eqb_eq, Z.leb_le in Hb. destruct Hb as (_ & Hb).
    exists (Z.of_nat n), (doe - year_start (Z.of_nat n)). split_and!; try lia.
    destruct Hb as [Hb|Hb].
    - assert (n = 399%nat) as -> by lia. change (year_len (Z.of_nat 399)) with 366. change (year_start (Z.of_nat 399)) with 145731 in *. lia.
    - replace (Z.of_nat n + 1) with (Z.of_nat (S n)) in Hb by lia. destruct Hlt as [[Hl ?]|Hlt]; [|lia].
      injection Hl as ->. change (year_len (Z.of_nat 399)) with 366. change (year_start (Z.of_nat 399)) with 145731 in *. lia. }
  apply (Hgo 400%nat); [lia|by left; split; [|lia]].
Qed.

(** Within a year. *)
Definition civil (yoe doy : Z) : Z * Z * Z :=
  let '(m, d) := month_day doy in ((if m <=? 2 then yoe + 1 else yoe), m, d).

Lemma ymd_of_split yoe doy : 0 <= yoe < 400 -> 0 <= doy < year_len yoe ->
  ymd_of_doe (year_start yoe + doy) = (yoe, (month_day doy).1, (month_day doy).2).
Proof.
  intros Hy Hd. pose proof (year_index_of yoe doy Hy Hd) as Hi. unfold ymd_of_doe. fold (year_index (year_start yoe + doy)).
  rewrite Hi. fold (year_start yoe). replace (year_start yoe + doy - year_start yoe) with doy by lia. done.
Qed.

Definition doy_ok (lp : bool) (doy : Z) : bool :=
  let '(m, d) := month_day doy in
  let '(m', d') := month_day (doy + 1) in
  let len := if m =? 2 then (if lp then 29 else 28) else if (m =? 4) || (m =? 6) || (m =? 9) || (m =? 11) then 30 else 31 in
  (1 <=? m) && (m <=? 12) && (1 <=? d) && (d <=? len) &&
  (if d <? len then (m' =? m) && (d' =? d + 1) else if m <? 12 then (m' =? m + 1) && (d' =? 1) && negb (m =? 2) else (m' =? 1) && (d' =? 1)).
Lemma doy_step (lp : bool) doy : 0 <= doy < (if lp then 365 else 364) -> doy_ok lp doy = true.
Proof. destruct lp; apply seqZ_check; vm_compute; reflexivity. Qed.

Lemma civil_next yoe doy : 0 <= doy -> doy + 1 < year_len yoe ->
  next_date (civil yoe doy) = civil yoe (doy + 1).
Proof.
  intros H0 Hd. pose proof (doy_step (leap (yoe + 1)) doy) as Hs. unfold year_len in Hd.
  specialize (Hs ltac:(destruct (leap (yoe + 1)); lia)). unfold doy_ok in Hs. unfold civil, next_date, month_len.
  destruct (month_day doy) as [m d], (month_day (doy + 1)) as [m' d'].
  rewrite !andb_true_iff, !Z.leb_le in Hs. destruct Hs as ((((Hm1 & Hm2) & Hd1) & Hd2) & Hs).
  destruct (m =? 2) eqn:E2; reflect_Z.
  - subst m. change (2 <? 12) with true in Hs. change (negb (2 =? 2)) with false in Hs. rewrite andb_false_r in Hs.
    change (2 <=? 2) with true. cbv iota in *. destruct (d <? _) eqn:El; [|done].
    rewrite andb_true_iff, !Z.eqb_eq in Hs. by destruct Hs as [-> ->].
  - destruct (d <? _) eqn:El.
    + rewrite andb_true_iff, !Z.eqb_eq in Hs. destruct Hs as [-> ->]. done.
    + destruct (m <? 12) eqn:E12; [apply Z.ltb_lt in E12|apply Z.ltb_ge in E12].
      * rewrite !andb_true_iff, !Z.eqb_eq in Hs. destruct Hs as [[-> ->] _].
        destruct (m <=? 2) eqn:Em, (m + 1 <=? 2) eqn:Em'; reflect_Z; try lia; done.
      * rewrite !andb_true_iff, !Z.eqb_eq in Hs. destruct Hs as [-> ->]. assert (m = 12) as -> by lia. done.
Qed.

Lemma civil_new_year yoe : next_date (civil yoe (year_len yoe - 1)) = (yoe + 1, 3, 1).
Proof.
  unfold year_len. unfold civil, next_date, month_len. destruct (leap (yoe + 1)) eqn:El; simpl; rewrite El; done.
Qed.

Lemma wrap_i32_id x : - 2 ^ 31 <= x < 2 ^ 31 -> wrap_i32 x = x.
Proof. intros Hx. unfold wrap_i32. rewrite Z.mod_small by lia. lia. Qed.

Lemma era_floor z : Z.quot (if 0 <=? z then z else z - 146096) 146097 = z / 146097.
Proof.
  destruct (0 <=? z) eqn:E; reflect_Z; [by rewrite Z.quot_div_nonneg by lia|].
  replace (z - 146096) with (- (146096 - z)) by lia. rewrite Z.quot_opp_l, Z.quot_div_nonneg by lia.
  pose proof (Z.div_mod z 146097 ltac:(lia)). pose proof (Z.mod_pos_bound z 146097 ltac:(lia)).
  rewrite <- (Z.div_unique (146096 - z) 146097 (- (z / 146097)) (146096 - z mod 146097)); lia.
Qed.

Definition shift_year (k : Z) (date : Z * Z * Z) : Z * Z * Z := let '(y, m, d) := date in (y + 400 * k, m, d).

Lemma days_to_ymd_civil era yoe doy :
  - 4800000 <= era <= 4800000 -> 0 <= yoe < 400 -> 0 <= doy < year_len yoe ->
  days_to_ymd (era * 146097 + (year_start yoe + doy) - 719468) = shift_year era (civil yoe doy).
Proof.
  intros He Hy Hd. unfold days_to_ymd.
  replace (era * 146097 + (year_start yoe + doy) - 719468 + 719468) with (year_start yoe + doy + era * 146097) by lia.
  pose proof (year_bounds yoe Hy) as Hb. unfold year_bounds_ok in Hb.
  rewrite !andb_true_iff, Z.leb_le in Hb. destruct Hb as ((_ & Hb) & _).
  assert (H0 : 0 <= year_start yoe).
  { unfold year_start. assert (yoe / 100 <= yoe / 4) by (apply Z.div_le_compat_l; lia). lia. }
  rewrite era_floor, Z.div_add, (Z.div_small (year_start yoe + doy)) by lia.
  replace (year_start yoe + doy + era * 146097 - (0 + era) * 146097) with (year_start yoe + doy) by lia.
  rewrite wrap_small, ymd_of_split by (done || unfold in_u, u_max; lia).
  unfold civil. destruct (month_day doy) as [m d]. cbn [fst snd shift_year].
  rewrite (wrap_i32_id yoe), (wrap_i32_id ((0 + era) * 400)), (wrap_i32_id (yoe + (0 + era) * 400)), wrap_i32_id by lia. destruct (m <=? 2); do 2 f_equal; lia.
Qed.

Lemma leap_shift y k : leap (y + 400 * k) = leap y.
Proof.
  unfold leap. replace ((y + 400 * k) mod 4) with (y mod 4); [replace ((y + 400 * k) mod 100) with (y mod 100);
    [replace ((y + 400 * k) mod 400) with (y mod 400); [done|]|]|].
  - rewrite Z.mul_comm. by rewrite Z.mod_add.
  - replace (y + 400 * k) with (y + (4 * k) * 100) by lia. by rewrite Z.mod_add.
  - replace (y + 400 * k) with (y + (100 * k) * 4) by lia. by rewrite Z.mod_add.
Qed.

Lemma next_date_shift k date : next_date (shift_year k date) = shift_year k (next_date date).
Proof.
  destruct date as [[y m] d]. unfold next_date, shift_year, month_len. rewrite leap_shift.
  repeat (case_match; simplify_eq/=; try done); do 2 f_equal; lia.
Qed.

(** Every day but the last of a year, the last of a year, the last of an era. *)
Lemma civil_step era yoe doy :
  - 4800000 <= era < 4800000 -> 0 <= yoe < 400 -> 0 <= doy < year_len yoe ->
  let n := era * 146097 + (year_start yoe + doy) - 719468 in
  days_to_ymd (n + 1) = next_date (days_to_ymd n).
Proof.
  intros He Hy Hd n. unfold n. rewrite days_to_ymd_civil, next_date_shift by lia.
  destruct (decide (doy + 1 < year_len yoe)) as [Hlt|Hge].
  - rewrite civil_next by lia.
    rewrite <- days_to_ymd_civil by lia. f_equal. lia.
  - assert (doy = year_len yoe - 1) as -> by lia. rewrite civil_new_year.
    destruct (decide (yoe = 399)) as [->|Hn].
    + pose proof (days_to_ymd_civil (era + 1) 0 0 ltac:(lia) ltac:(lia) ltac:(vm_compute; split; [discriminate|reflexivity])) as Hc.
      change (year_start 0 + 0) with 0 in Hc. change (civil 0 0) with (0, 3, 1) in Hc.
      change (year_start 399) with 145731. change (year_len 399) with 366.
      replace (era * 146097 + (145731 + (366 - 1)) - 719468 + 1) with ((era + 1) * 146097 + 0 - 719468) by lia.
      rewrite Hc. unfold shift_year. do 2 f_equal. lia.
    + pose proof (year_bounds yoe Hy) as Hb. unfold year_bounds_ok in Hb.
      rewrite !andb_true_iff, orb_true_iff, !Z.eqb_eq in Hb. destruct Hb as (_ & [Hb|Hb]); [lia|].
      assert (1 <= year_len (yoe + 1)) by (unfold year_len; case_match; lia).
      pose proof (days_to_ymd_civil era (yoe + 1) 0 ltac:(lia) ltac:(lia) ltac:(lia)) as Hc.
      change (civil (yoe + 1) 0) with (yoe + 1, 3, 1) in Hc. rewrite <- Hc. f_equal. lia.
Qed.

(** Day zero is the first of January 1970 and every day is followed by the next day of
    the Gregorian calendar, for the days of every 64-bit number of milliseconds and as
    many before 1970. *)
Theorem calendar n :
  - 213503982335 <= n <= 213503982335 ->
  days_to_ymd 0 = (1970, 1, 1) /\ days_to_ymd (n + 1) = next_date (days_to_ymd n).
Proof.
  intros Hn. split; [vm_compute; reflexivity|].
  set (z := n + 719468). pose proof (Z.div_mod z 146097 ltac:(lia)) as Hz. pose proof (Z.mod_pos_bound z 146097 ltac:(lia)) as Hm.
  destruct (year_split (z mod 146097) Hm) as (yoe & doy & Hy & Hd & He).
  replace n with (z / 146097 * 146097 + (year_start yoe + doy) - 719468) by (unfold z in *; lia).
  apply civil_step; [|done|done]. unfold z in *. lia.
Qed.

Lemma calendar_witness : days_to_ymd (19782 + 1) = (2024, 3, 1).
Proof. rewrite (proj2 (calendar 19782 ltac:(lia))). vm_compute. reflexivity. Defined.

(** ** Slugs *)

Definition is_slug_char (c : char) : bool := is_ascii_digit c || is_ascii_lower c.

(** Words of slug characters with one hyphen between them. *)
Fixpoint slug_from (sep : bool) (l : str) : bool :=
  match l with
  | [] => negb sep
  | c :: l => if c =? 45 then negb sep && slug_from true l else is_slug_char c && slug_from false l
  end.
Definition slug_form (l : str) : Prop := l = [] \/ slug_from true l = true.

Lemma slug_char_alnum c : is_slug_char c = true ->
  is_ascii_alphanumeric c = true /\ to_ascii_lowercase_char c = c /\ (c =? 45) = false.
Proof.
  unfold is_slug_char, is_ascii_alphanumeric, to_ascii_lowercase_char, is_ascii_digit, is_ascii_upper, is_ascii_lower.
  intros Hc. assert (Hr : 48 <= c <= 57 \/ 97 <= c <= 122) by lia.
  split_and!; [destruct Hr; lia| |lia]. case_match; lia.
Qed.

Lemma alnum_slug_char c : is_ascii_alphanumeric c = true -> is_slug_char (to_ascii_lowercase_char c) = true.
Proof.
  unfold is_slug_char, is_ascii_alphanumeric, to_ascii_lowercase_char, is_ascii_digit, is_ascii_upper, is_ascii_lower.
  intros Hc. case_match; lia.
Qed.

Lemma slug_from_snoc l c : forall s, is_slug_char c = true -> slug_from s l = true ->
  slug_from s (l ++ [c]) = true /\ slug_from s (l ++ [45; c]) = true.
Proof.
  induction l as [|x l IH]; intros s Hc Hl; simpl in *.
  - apply negb_true_iff in Hl as ->. destruct (slug_char_alnum c Hc) as (_ & _ & ->). by rewrite Hc.
  - destruct (x =? 45); apply andb_true_iff in Hl as [-> Hl]; destruct (IH _ Hc Hl) as [-> ->]; done.
Qed.

(** What the loop has written is a slug, or a slug and a hyphen. *)
Definition slug_state (acc : str * bool) : Prop :=
  match acc with
  | (out, true) => out = [] \/ exists o, out = 45 :: o /\ slug_from true (reverse o) = true
  | (out, false) => slug_from true (reverse out) = true
  end.

Lemma slug_step_state acc c : slug_state acc -> slug_state (slug_step acc c).
Proof.
  destruct acc as [out sep]. unfold slug_step. destruct (is_ascii_alphanumeric c) eqn:Ea.
  - apply alnum_slug_char in Ea. intros Hs. simpl. rewrite reverse_cons. destruct sep; simpl in Hs.
    + destruct Hs as [->|(o & -> & Ho)].
      * simpl. destruct (slug_char_alnum _ Ea) as (_ & _ & ->). by rewrite Ea.
      * rewrite reverse_cons, <- app_assoc. by apply slug_from_snoc.
    + by apply slug_from_snoc.
  - destruct sep; simpl; [done|]. intros Hs. right. by exists out.
Qed.

Lemma slug_from_last s l : slug_from s l = true -> last l <> Some 45.
Proof.
  revert s. induction l as [|c l IH]; intros s Hl; [done|]. simpl in Hl. destruct l as [|c' l].
  - simpl in *. intros [= ->]. simpl in Hl. by rewrite andb_false_r in Hl.
  - destruct (c =? 45); apply andb_true_iff in Hl as [_ Hl]; by apply (IH _ Hl).
Qed.

Lemma slug_fold l : forall out s, slug_from s l = true ->
  fold_left slug_step l (out, s) = (reverse l ++ out, false).
Proof.
  induction l as [|c l IH]; intros out s Hl; cbn [fold_left slug_from] in *.
  - by apply negb_true_iff in Hl as ->.
  - destruct (c =? 45) eqn:E; apply andb_true_iff in Hl as [Hc Hl].
    + apply Z.eqb_eq in E as ->. apply negb_true_iff in Hc as ->.
      change (slug_step (out, false) 45) with (45 :: out, true). rewrite IH by done.
      by rewrite reverse_cons, <- app_assoc.
    + destruct (slug_char_alnum c Hc) as (Ha & Hlow & _). unfold slug_step at 2. rewrite Ha, Hlow, IH by done.
      by rewrite reverse_cons, <- app_assoc.
Qed.

Lemma slug_form_id l : slug_form l -> slugify l = l.
Proof.
  intros [->|Hl]; [done|]. unfold slugify. rewrite slug_fold by done. rewrite app_nil_r.
  pose proof (slug_from_last _ _ Hl) as Hne. rewrite <- (reverse_involutive l) at 2.
  destruct (reverse l) as [|c o] eqn:Er; [done|].
  assert (last l = Some c) as Hc by (rewrite <- (reverse_involutive l), Er, reverse_cons; apply last_snoc).
  destruct (decide (c = 45)) as [->|Hn]; [done|]. destruct c as [|p|p]; try done.
  do 6 (destruct p as [p|p|]; try done).
Qed.

(** The slug of a query has only lower-case letters and digits, in words separated by
    single hyphens, with none at the ends; and making a slug again changes nothing. *)
Theorem slugify_form s : slug_form (slugify s) /\ slugify (slugify s) = slugify s.
Proof.
  assert (Hf : slug_form (slugify s)); [|by split; [|apply slug_form_id]].
  assert (Hs : slug_state (fold_left slug_step s ([], true))).
  { assert (forall l acc, slug_state acc -> slug_state (fold_left slug_step l acc)) as Hgo.
    { induction l as [|c l IH]; intros acc Ha; [done|]. simpl. by apply IH, slug_step_state. }
    apply Hgo. by left. }
  unfold slugify. destruct (fold_left slug_step s ([], true)) as [out []]; simpl in Hs.
  - destruct Hs as [->|(o & -> & Ho)]; [by left|by right].
  - right. destruct out as [|c o]; [done|].
    destruct (decide (c = 45)) as [->|Hn].
    + exfalso. apply slug_from_last in Hs. apply Hs. rewrite reverse_cons. apply last_snoc.
    + destruct c as [|p|p]; try done. do 6 (destruct p as [p|p|]; try done).
Qed.

(** ** UTF-8 *)

Definition scalar (c : char) : Prop := 0 <= c < 55296 \/ 57344 <= c < 1114112.

Lemma land_63 x : Z.land x 63 = x mod 64.
Proof. change 63 with (Z.ones 6). by rewrite Z.land_ones. Qed.
Lemma shiftr_div k x : 0 <= k -> Z.shiftr x k = x / 2 ^ k.
Proof. intros. by apply Z.shiftr_div_pow2. Qed.

Ltac decide_bytes :=
  repeat match goal with
  | |- context [if ?b then _ else _] =>
      first [replace b with true by (symmetry; lia) | replace b with false by (symmetry; lia) | destruct b eqn:?]
  end.

Lemma lossy_char c fuel rest : scalar c ->
  lossy_fuel (S fuel) (utf8_char c ++ rest) = c :: lossy_fuel fuel rest.
Proof.
  intros Hc. unfold utf8_char. rewrite !land_63, !shiftr_div by lia.
  change (2 ^ 6) with 64. change (2 ^ 12) with 4096. change (2 ^ 18) with 262144. unfold scalar in Hc.
  destruct (c <? 128) eqn:E1; reflect_Z.
  { cbn [app lossy_fuel]. by rewrite (proj2 (Z.ltb_lt _ _)) by lia. }
  pose proof (Z.div_mod c 64 ltac:(lia)). pose proof (Z.mod_pos_bound c 64 ltac:(lia)).
  destruct (c <? 2048) eqn:E2; reflect_Z.
  { cbn [app lossy_fuel]. unfold utf8_lead. cbn [utf8_tail]. decide_bytes; cbn [utf8_tail default]; decide_bytes; cbn [default].
    all: first [unfold id; f_equal; lia | lia]. }
  pose proof (Z.div_mod (c / 64) 64 ltac:(lia)). pose proof (Z.mod_pos_bound (c / 64) 64 ltac:(lia)).
  assert (H4096 : c / 4096 = c / 64 / 64) by (rewrite Z.div_div by lia; done).
  destruct (c <? 65536) eqn:E3; reflect_Z.
  { cbn [app lossy_fuel]. rewrite H4096. unfold utf8_lead. decide_bytes; cbn [utf8_tail default]; decide_bytes; cbn [default].
    all: first [unfold id; f_equal; lia | lia]. }
  pose proof (Z.div_mod (c / 64 / 64) 64 ltac:(lia)). pose proof (Z.mod_pos_bound (c / 64 / 64) 64 ltac:(lia)).
  assert (H262144 : c / 262144 = c / 64 / 64 / 64) by (rewrite !Z.div_div by lia; done).
  cbn [app lossy_fuel]. rewrite H262144, H4096. unfold utf8_lead. decide_bytes; cbn [utf8_tail default]; decide_bytes; cbn [default].
  all: first [unfold id; f_equal; lia | lia].
Qed.

(** Text survives its encoding. *)
Theorem utf8_roundtrip s : Forall scalar s -> from_utf8_lossy (as_bytes s) = s.
Proof.
  intros Hs. unfold from_utf8_lossy.
  assert (Hgo : forall fuel, (length s <= fuel)%nat -> lossy_fuel fuel (as_bytes s) = s).
  { induction Hs as [|c s Hc _ IH]; intros fuel Hf; [by destruct fuel|]. destruct fuel as [|fuel]; simpl in Hf; [lia|].
    unfold as_bytes. cbn [map concat]. rewrite lossy_char by done. f_equal. apply IH. lia. }
  apply Hgo. clear Hgo Hs. unfold as_bytes. induction s as [|c s IH]; simpl; [lia|].
  rewrite length_app. assert (1 <= length (utf8_char c))%nat; [|lia]. unfold utf8_char. repeat case_match; simpl; lia.
Qed.
