(* ===== verification/Persist.v ===== *)
(** * Persistence (src/src/proxy/persistence.rs, the persistence section of
      src/src/proxy/cache.rs)

    The database is third-party code: [Redb] has its reads and its write
    transactions, and [RedbLaws] says what is documented of them, namely that a read
    that succeeds sees the committed tables and a commit that succeeds has applied the
    transaction.  [JsonCodec] is the serializer of a type.  A failed transaction leaves
    the database as it was. *)

From Stdlib Require Import SpecFloat.
From S2P Require Import Prelude Floats Text Types Cache CacheInv CacheReach CacheSpec CacheSweep CacheProps Context.
Open Scope Z_scope.
Open Scope conproxy_scope.

(** ** The database *)

Inductive Table := EntriesTable | HealthTable | MetaTable.
#[export] Instance Table_eq_dec : EqDecision Table.
Proof. solve_decision. Defined.

Inductive TableOp :=
| TInsert (t : Table) (k v : bytes)
| TRemove (t : Table) (k : bytes)
| TDelete (t : Table)
| TOpen (t : Table).

Class Redb (D : Type) := {
  db_get : D -> Table -> bytes -> result (option bytes) str;
  db_iter : D -> Table -> result (list (bytes * bytes)) str;
  db_len : D -> Table -> result Z str;
  db_write : D -> list TableOp -> result D str
}.

Definition tables : Type := Table -> gmap bytes bytes.
Definition apply_table_op (m : tables) (o : TableOp) : tables := fun t =>
  match o with
  | TInsert t' k v => if decide (t = t') then <[k := v]> (m t) else m t
  | TRemove t' k => if decide (t = t') then delete k (m t) else m t
  | TDelete t' => if decide (t = t') then ∅ else m t
  | TOpen _ => m t
  end.

Class RedbLaws (D : Type) `{Redb D} := {
  db_view : D -> tables;
  db_get_ok d t k v : db_get d t k = Ok v -> v = db_view d t !! k;
  db_iter_ok d t l : db_iter d t = Ok l -> l ≡ₚ map_to_list (db_view d t);
  db_len_ok d t n : db_len d t = Ok n -> n = Z.of_nat (size (db_view d t));
  db_write_ok d ops d' : db_write d ops = Ok d' -> forall t, db_view d' t = fold_left apply_table_op ops (db_view d) t
}.

Class JsonCodec (A : Type) := { to_vec : A -> result bytes str; from_slice : bytes -> result A str }.

Inductive PersistenceError :=
| DatabaseOpen (msg : str) | Serialize (msg : str) | Deserialize (msg : str)
| WriteError (msg : str) | ReadError (msg : str) | FlushError (msg : str).

Definition map_err {A E F} (f : E -> F) (r : result A E) : result A F :=
  match r with Ok a => Ok a | Err e => Err (f e) end.
Definition rbind {A B E} (r : result A E) (k : A -> result B E) : result B E :=
  match r with Ok a => k a | Err e => Err e end.
Notation "'let?' x ':=' m 'in' k" := (rbind m (fun x => k))
  (at level 10, x pattern, m at level 100, k at level 200) : conproxy_scope.

(** ** What is stored *)

Record PersistedResult := { pr_id : str; pr_content : str; pr_score : f32; pr_metadata : option Value }.
Record PersistedResponse := {
  ps_results : list PersistedResult;
  ps_cache_status : str;
  ps_took_ms : Z;
  ps_generated_at : option Z
}.
Record PersistedEntry := {
  pe_query : str;
  pe_upstream_id : str;
  pe_response : PersistedResponse;
  pe_cached_at_ms : Z;
  pe_extended_count : Z;
  pe_content_hash : bytes
}.
Record PersistedUpstreamHealth := {
  ph_upstream_id : str;
  ph_status : str;
  ph_consecutive_failures : Z;
  ph_consecutive_successes : Z;
  ph_last_success_ms : option Z;
  ph_last_failure_ms : option Z
}.

Definition status_name (c : CacheStatus) : str :=
  match c with
  | Hit => lit "hit" | Miss => lit "miss" | Stale_ => lit "stale" | Frozen_ => lit "frozen"
  end.
Definition status_of_name (s : str) : CacheStatus :=
  if str_eqb s (lit "hit") then Hit
  else if str_eqb s (lit "miss") then Miss
  else if str_eqb s (lit "stale") then Stale_
  else if str_eqb s (lit "frozen") then Frozen_
  else Miss.

Definition to_persisted (r : QueryResponse) : PersistedResponse :=
  {| ps_results := map (fun x => {| pr_id := sr_id x; pr_content := content x; pr_score := score x;
                                    pr_metadata := metadata x |}) (results r);
     ps_cache_status := status_name (cache_status r); ps_took_ms := took_ms r; ps_generated_at := generated_at r |}.
Definition of_persisted (p : PersistedResponse) : QueryResponse :=
  {| results := map (fun x => {| sr_id := pr_id x; score := pr_score x; content := pr_content x;
                                 metadata := pr_metadata x; sr_upstream_id := None |}) (ps_results p);
     cache_status := status_of_name (ps_cache_status p); took_ms := ps_took_ms p;
     generated_at := ps_generated_at p; miss_reason := None |}.

(** ** Operations *)

Section Persistent.
Context {D : Type} `{Redb D} `{JsonCodec PersistedEntry} `{JsonCodec PersistedUpstreamHealth} `{JsonCodec ContextMetadata}.

Definition write_txn (d : D) (ops : list TableOp) : result D PersistenceError := map_err WriteError (db_write d ops).
Definition read_key (d : D) (t : Table) (k : bytes) : result (option bytes) PersistenceError :=
  map_err ReadError (db_get d t k).
Definition read_all (d : D) (t : Table) : result (list (bytes * bytes)) PersistenceError :=
  map_err ReadError (db_iter d t).

(** The three tables are created in one transaction. *)
Definition open_tables (created : result D str) : result D PersistenceError :=
  let? d := map_err DatabaseOpen created in
  map_err DatabaseOpen (db_write d [TOpen EntriesTable; TOpen HealthTable; TOpen MetaTable]).

Definition decode {A} `{JsonCodec A} (v : option bytes) : result (option A) PersistenceError :=
  match v with
  | Some b => let? a := map_err Deserialize (from_slice b) in Ok (Some a)
  | None => Ok None
  end.

Definition store_entry (query_hash : bytes) (e : PersistedEntry) (d : D) : result D PersistenceError :=
  let? value := map_err Serialize (to_vec e) in
  write_txn d [TInsert EntriesTable query_hash value].
Definition load_entry (query_hash : bytes) (d : D) : result (option PersistedEntry) PersistenceError :=
  let? v := read_key d EntriesTable query_hash in decode v.
Definition remove_entry (query_hash : bytes) (d : D) : result D PersistenceError :=
  write_txn d [TRemove EntriesTable query_hash].

Definition context_prefix (context_id : str) : bytes := as_bytes (lit "ctx:") ++ as_bytes context_id ++ [58].
Definition context_key (context_id : str) (query_hash : bytes) : bytes := context_prefix context_id ++ query_hash.

Definition store_entry_for_context (c : str) (h : bytes) (e : PersistedEntry) (d : D) : result D PersistenceError :=
  let? value := map_err Serialize (to_vec e) in
  write_txn d [TInsert EntriesTable (context_key c h) value].
Definition load_entry_for_context (c : str) (h : bytes) (d : D) : result (option PersistedEntry) PersistenceError :=
  let? v := read_key d EntriesTable (context_key c h) in decode v.
Definition remove_entry_for_context (c : str) (h : bytes) (d : D) : result D PersistenceError :=
  write_txn d [TRemove EntriesTable (context_key c h)].

(** [slice::starts_with] *)
Definition bytes_start_with (b p : bytes) : bool := starts_with b p.

(** The hash in a key of the context, when there is one. *)
Definition hash_in_key (prefix key : bytes) : option bytes :=
  if bytes_start_with key prefix then
    let hash_start := (length key - 32)%nat in
    if (length prefix <=? hash_start)%nat && (hash_start + 32 =? length key)%nat
    then Some (drop hash_start key) else None
  else None.
Definition entries_for_context (c : str) (d : D) : result (list bytes) PersistenceError :=
  let? l := read_all d EntriesTable in
  Ok (omap (fun kv : bytes * bytes => hash_in_key (context_prefix c) kv.1) l).
Definition entry_count_for_context (c : str) (d : D) : Z :=
  match entries_for_context c d with Ok l => zlen l | Err _ => 0 end.

Definition clear_context (c : str) (d : D) : result (Z * D) PersistenceError :=
  let? l := read_all d EntriesTable in
  let keys := map fst (List.filter (fun kv : bytes * bytes => bytes_start_with kv.1 (context_prefix c)) l) in
  if 0 <? zlen keys
  then let? d := write_txn d (map (TRemove EntriesTable) keys) in Ok (zlen keys, d)
  else Ok (zlen keys, d).

Definition all_entry_hashes (d : D) : result (list bytes) PersistenceError :=
  let? l := read_all d EntriesTable in
  Ok (map fst (List.filter (fun kv : bytes * bytes => (length kv.1 =? 32)%nat) l)).
Definition entry_count (d : D) : Z := match db_len d EntriesTable with Ok n => n | Err _ => 0 end.

Definition store_health (upstream_id : str) (h : PersistedUpstreamHealth) (d : D) : result D PersistenceError :=
  let? value := map_err Serialize (to_vec h) in
  write_txn d [TInsert HealthTable (as_bytes upstream_id) value].
Definition load_health (upstream_id : str) (d : D) : result (option PersistedUpstreamHealth) PersistenceError :=
  let? v := read_key d HealthTable (as_bytes upstream_id) in decode v.

Fixpoint decode_all {A} `{JsonCodec A} (l : list bytes) : result (list A) PersistenceError :=
  match l with
  | [] => Ok []
  | b :: l => let? a := map_err Deserialize (from_slice b) in let? rest := decode_all l in Ok (a :: rest)
  end.
Definition all_health_states (d : D) : result (list PersistedUpstreamHealth) PersistenceError :=
  let? l := read_all d HealthTable in decode_all (map snd l).

Definition store_meta (key : str) (value : bytes) (d : D) : result D PersistenceError :=
  write_txn d [TInsert MetaTable (as_bytes key) value].
Definition load_meta (key : str) (d : D) : result (option bytes) PersistenceError := read_key d MetaTable (as_bytes key).

Definition record_flush (now_ms : Z) (d : D) : result D PersistenceError :=
  store_meta (lit "last_flush_ms") (to_le_bytes 8 now_ms) d.
Definition last_flush_time (d : D) : result (option Z) PersistenceError :=
  let? v := load_meta (lit "last_flush_ms") d in
  Ok (match v with Some b => if (length b =? 8)%nat then Some (from_le_bytes b) else None | None => None end).
Definition flush (now_ms : Z) (d : D) : result D PersistenceError := record_flush now_ms d.

Definition clear_entries (d : D) : result (Z * D) PersistenceError :=
  let count := entry_count d in
  let? d := write_txn d [TDelete EntriesTable; TOpen EntriesTable] in Ok (count, d).
Definition clear_all (d : D) : result D PersistenceError :=
  write_txn d [TDelete EntriesTable; TDelete HealthTable; TDelete MetaTable;
               TOpen EntriesTable; TOpen HealthTable; TOpen MetaTable].

Definition meta_context_key (id : str) : str := lit "context:" ++ id.
Definition store_context (m : ContextMetadata) (d : D) : result D PersistenceError :=
  let? value := map_err Serialize (to_vec m) in store_meta (meta_context_key (md_id m)) value d.
Definition load_context (id : str) (d : D) : result (option ContextMetadata) PersistenceError :=
  let? v := load_meta (meta_context_key id) d in decode v.
Definition all_contexts (d : D) : result (list ContextMetadata) PersistenceError :=
  let? l := read_all d MetaTable in
  decode_all (map snd (List.filter (fun kv : bytes * bytes => bytes_start_with kv.1 (as_bytes (lit "context:"))) l)).
Definition remove_context (id : str) (d : D) : result D PersistenceError :=
  write_txn d [TRemove MetaTable (as_bytes (meta_context_key id))].
Definition context_count (d : D) : Z := match all_contexts d with Ok l => zlen l | Err _ => 0 end.

Record PersistenceStats := {
  pst_entry_count : Z; pst_health_record_count : Z; pst_size_on_disk : Z; pst_last_flush_ms : option Z
}.
Definition persistence_stats (d : D) : PersistenceStats :=
  {| pst_entry_count := entry_count d;
     pst_health_record_count := match db_len d HealthTable with Ok n => n | Err _ => 0 end;
     pst_size_on_disk := 0;
     pst_last_flush_ms := match last_flush_time d with Ok t => t | Err _ => None end |}.

(** ** The cache and its database (proxy/cache.rs)

    A failed write is logged and the cache goes on with the database as it was. *)
Definition zero_hash : bytes := replicate 32 0.

Definition entry_to_persist (now_ms : Z) (e : CacheEntry) : PersistedEntry :=
  {| pe_query := default [] (query_text e); pe_upstream_id := ce_upstream_id e;
     pe_response := to_persisted (response e); pe_cached_at_ms := now_ms;
     pe_extended_count := extended_count e; pe_content_hash := default zero_hash (content_hash e) |}.

Definition or_same (d : D) (r : result D PersistenceError) : D := match r with Ok d' => d' | Err _ => d end.

Definition persist_entry (now_ms : Z) (h : QueryHash) (e : CacheEntry) (d : D) : D :=
  or_same d (store_entry h (entry_to_persist now_ms e) d).
Definition unpersist_entry (h : QueryHash) (d : D) : D := or_same d (remove_entry h d).
Definition clear_persistence (d : D) : D := or_same d (let? r := clear_entries d in Ok r.2).

Definition entry_of_persisted (clk : Clock) (p : PersistedEntry) : CacheEntry :=
  {| freq := 0; cached_at := mono clk; cached_at_wall := Some (from_millis (pe_cached_at_ms p));
     content_hash := Some (pe_content_hash p); response := of_persisted (pe_response p);
     ce_upstream_id := pe_upstream_id p; extended_count := pe_extended_count p;
     schema := SchemaFingerprint_default;
     query_text := match pe_query p with [] => None | q => Some q end; context_id := lit "default" |}.

Context `{CacheEnv}.

Fixpoint restore_loop (clk : Clock) (d : D) (hs : list bytes) (restored : Z) (s : CacheStore) : Z * CacheStore :=
  match hs with
  | [] => (restored, s)
  | h :: hs =>
      if max_entries s <=? Z.of_nat (size (entries s)) then (restored, s)
      else match load_entry h d with
           | Ok (Some p) =>
               restore_loop clk d hs (sat_add 64 restored 1) (s3fifo_admit h (tracked_insert h (entry_of_persisted clk p) s))
           | Ok None | Err _ => restore_loop clk d hs restored s
           end
  end.
Definition restore_from_persistence (clk : Clock) (d : D) (s : CacheStore) : Z * CacheStore :=
  match all_entry_hashes d with
  | Ok hs => restore_loop clk d hs 0 s
  | Err _ => (0, s)
  end.

Definition flush_to_persistence (now_ms : Z) (s : CacheStore) (d : D) : Z * D :=
  let d' := fold_left (fun d (he : QueryHash * CacheEntry) => persist_entry now_ms he.1 he.2 d) (map_iter (entries s)) d in
  (fold_left (fun n _ => sat_add 64 n 1) (map_iter (entries s)) 0, or_same d' (flush now_ms d')).
Definition sync_persistence (now_ms : Z) (d : D) : bool * D :=
  match flush now_ms d with Ok d' => (true, d') | Err _ => (false, d) end.
End Persistent.

(** ** Responses *)

(** What is lost on the way to disk: the upstream of a result and the miss reason. *)
Definition without_origin (r : QueryResponse) : QueryResponse :=
  {| results := map (fun x => {| sr_id := sr_id x; score := score x; content := content x; metadata := metadata x;
                                 sr_upstream_id := None |}) (results r);
     cache_status := cache_status r; took_ms := took_ms r; generated_at := generated_at r; miss_reason := None |}.

Lemma response_roundtrip r : of_persisted (to_persisted r) = without_origin r.
Proof.
  unfold of_persisted, to_persisted, without_origin. simpl. f_equal; [|by destruct (cache_status r)].
  rewrite map_map. done.
Qed.

Lemma without_origin_hash `{Externals} r : compute_content_hash (without_origin r) = compute_content_hash r.
Proof.
  unfold compute_content_hash, content_hash_input, without_origin. cbn [results].
  unfold zlen. by rewrite length_map, map_map.
Qed.

Definition with_no_results : QueryResponse :=
  {| results := []; cache_status := Miss; took_ms := 0; generated_at := None; miss_reason := None |}.

(** ** Keys *)

Lemma starts_with_app p s : starts_with (p ++ s) p = true.
Proof. induction p as [|c p IH]; simpl; [by destruct s|]. by rewrite Z.eqb_refl. Qed.
Lemma starts_with_inv s p : starts_with s p = true -> exists r, s = p ++ r.
Proof.
  revert s. induction p as [|c p IH]; intros s; simpl; [by exists s|]. destruct s as [|d s]; [done|].
  intros [He Hs]%andb_prop. apply Z.eqb_eq in He as ->. apply IH in Hs as [r ->]. by exists r.
Qed.

(** Entries of different contexts or hashes have different keys, and no context key
    is the key of an entry without a context. *)
Lemma context_key_inj c c' h h' :
  length h = 32%nat -> length h' = 32%nat -> context_key c h = context_key c' h' ->
  as_bytes c = as_bytes c' /\ h = h'.
Proof.
  intros Hh Hh' He. unfold context_key, context_prefix in He. rewrite <- !app_assoc in He.
  apply app_inv_head in He. rewrite !app_assoc in He. apply app_inj_2 in He as [He ->]; [|lia].
  split; [|done]. by apply app_inj_2 in He as [-> _].
Qed.

Lemma context_key_long c h h' : length h = 32%nat -> length h' = 32%nat -> context_key c h <> h'.
Proof. intros Hh Hh' He. apply (f_equal length) in He. unfold context_key, context_prefix in He. rewrite !length_app in He. simpl in He. lia. Qed.

(** A context without a colon in its name. *)
Definition no_colon (c : str) : Prop := 58 ∉ as_bytes c.

Lemma prefix_colon (a b r r' : bytes) : 58 ∉ a -> 58 ∉ b -> a ++ 58 :: r = b ++ 58 :: r' -> a = b.
Proof.
  revert b. induction a as [|x a IH]; intros [|y b] Ha Hb He; simpl in He; try done.
  - injection He as <- _. set_solver.
  - injection He as -> _. set_solver.
  - injection He as <- He. f_equal. apply IH; [set_solver|set_solver|done].
Qed.

Lemma context_prefix_exact c c' h : no_colon c -> no_colon c' ->
  bytes_start_with (context_key c' h) (context_prefix c) = true <-> as_bytes c = as_bytes c'.
Proof.
  intros Hc Hc'. unfold context_key, context_prefix. split.
  - intros [r Hr]%starts_with_inv. rewrite <- !app_assoc in Hr. apply app_inv_head in Hr. symmetry in Hr.
    by apply prefix_colon in Hr.
  - intros He. unfold bytes_start_with. rewrite He. apply starts_with_app.
Qed.

Section PersistProps.
Context {D : Type} `{R : Redb D} {RL : RedbLaws D}.
Context `{CE : JsonCodec PersistedEntry} `{CH : JsonCodec PersistedUpstreamHealth} `{CM : JsonCodec ContextMetadata}.

(** The disk can be read and written. *)
Definition disk_available : Prop :=
  (forall (d : D) ops, exists d', db_write d ops = Ok d') /\
  (forall (d : D) t k, exists v, db_get d t k = Ok v) /\ (forall (d : D) t, exists l, db_iter d t = Ok l).

(** The serializer gives the value back. *)
Definition decodes {A} `{JsonCodec A} (a : A) : Prop := exists b, to_vec a = Ok b /\ from_slice b = Ok a.

Lemma read_key_view d t k v : read_key d t k = Ok v -> v = db_view d t !! k.
Proof. unfold read_key. destruct (db_get d t k) as [v'|] eqn:E; simpl; [|done]. intros [= <-]. by apply db_get_ok in E. Qed.

Lemma view_removes ks d d' : db_write d (map (TRemove EntriesTable) ks) = Ok d' ->
  forall k, db_view d' EntriesTable !! k = if decide (k ∈ ks) then None else db_view d EntriesTable !! k.
Proof.
  intros Hw k. rewrite (db_write_ok _ _ _ Hw). clear Hw. generalize (db_view d). induction ks as [|k0 ks IH]; intros m.
  - by rewrite decide_False by set_solver.
  - cbn [map fold_left]. rewrite IH.
    change (apply_table_op m (TRemove EntriesTable k0) EntriesTable) with (delete k0 (m EntriesTable)). rewrite lookup_delete.
    repeat case_decide; set_solver.
Qed.

(** Clearing a context removes exactly the keys with its prefix. *)
Theorem clear_context_exact c d n d' :
  clear_context c d = Ok (n, d') ->
  (forall k, db_view d' EntriesTable !! k =
     if bytes_start_with k (context_prefix c) then None else db_view d EntriesTable !! k) /\
  (forall h, db_view d' EntriesTable !! context_key c h = None) /\
  (forall c' h, no_colon c -> no_colon c' -> as_bytes c' <> as_bytes c ->
     db_view d' EntriesTable !! context_key c' h = db_view d EntriesTable !! context_key c' h).
Proof.
  intros Hc.
  assert (Hgo : forall k, db_view d' EntriesTable !! k =
     if bytes_start_with k (context_prefix c) then None else db_view d EntriesTable !! k).
  { unfold clear_context, read_all in Hc. destruct (db_iter d EntriesTable) as [l|] eqn:El; simpl in Hc; [|done].
    apply db_iter_ok in El. set (ks := map fst _) in Hc.
    assert (Hks : forall k, k ∈ ks <-> bytes_start_with k (context_prefix c) = true /\ is_Some (db_view d EntriesTable !! k)).
    { intros k. unfold ks. rewrite list_elem_of_In, in_map_iff. split.
      - intros ([k0 v] & <- & Hin%filter_In). destruct Hin as [Hin Hp]. split; [done|].
        apply list_elem_of_In in Hin. rewrite El, elem_of_map_to_list in Hin. eauto.
      - intros [Hp [v Hv]]. exists (k, v). split; [done|]. apply filter_In. split; [|done].
        apply list_elem_of_In. by rewrite El, elem_of_map_to_list. }
    intros k. destruct (0 <? zlen ks) eqn:Ez.
    - unfold write_txn in Hc. destruct (db_write d _) as [d1|] eqn:Ew; simpl in Hc; [|done]. injection Hc as <- <-.
      rewrite (view_removes _ _ _ Ew). case_decide as Hk.
      + apply Hks in Hk as [-> _]. done.
      + destruct (bytes_start_with k _) eqn:Ep; [|done]. destruct (db_view d EntriesTable !! k) eqn:Ev; [|done].
        exfalso. apply Hk, Hks. eauto.
    - injection Hc as <- <-. destruct (bytes_start_with k _) eqn:Ep; [|done].
      destruct (db_view d EntriesTable !! k) eqn:Ev; [|done]. exfalso. reflect_Z.
      assert (Hk : k ∈ ks) by (apply Hks; eauto). destruct ks; [set_solver|]. rewrite zlen_cons in Ez.
      pose proof (zlen_nonneg ks). lia. }
  split; [done|]. split.
  - intros h. rewrite Hgo. unfold bytes_start_with, context_key. by rewrite starts_with_app.
  - intros c' h Hn Hn' Hne. rewrite Hgo. destruct (bytes_start_with _ _) eqn:Ep; [|done].
    apply context_prefix_exact in Ep; [|done..]. congruence.
Qed.
(** ** A flush and a restart *)

Context `{E : CacheEnv} {L : CacheEnvLaws E}.

Definition encoded {A} `{JsonCodec A} (a : A) : bytes := match to_vec a with Ok b => b | Err _ => [] end.
Definition stored_value (now_ms : Z) (he : QueryHash * CacheEntry) : bytes * bytes :=
  (he.1, encoded (entry_to_persist now_ms he.2)).

Lemma persist_entry_view now_ms h e d :
  disk_available -> decodes (entry_to_persist now_ms e) ->
  db_view (persist_entry now_ms h e d) EntriesTable =
    <[h := encoded (entry_to_persist now_ms e)]> (db_view d EntriesTable).
Proof.
  intros (Hw & _) (b & Hb & _). unfold persist_entry, store_entry, write_txn, encoded. rewrite Hb. simpl.
  destruct (Hw d [TInsert EntriesTable h b]) as [d' Hd]. rewrite Hd. simpl.
  by rewrite (db_write_ok _ _ _ Hd).
Qed.

Lemma flush_fold_view now_ms l : disk_available -> Forall (fun he => decodes (entry_to_persist now_ms he.2)) l ->
  NoDup l.*1 -> forall d,
  db_view (fold_left (fun d (he : QueryHash * CacheEntry) => persist_entry now_ms he.1 he.2 d) l d) EntriesTable =
  list_to_map (map (stored_value now_ms) l) ∪ db_view d EntriesTable.
Proof.
  intros Ha. induction l as [|[h e] l IH]; intros Hl Hnd d; simpl; [by rewrite (left_id_L ∅ (∪))|].
  apply Forall_cons in Hl as [He Hl]. apply NoDup_cons in Hnd as [Hn Hnd].
  rewrite IH, persist_entry_view by done. simpl. rewrite <- insert_union_l. symmetry. apply insert_union_r.
  apply not_elem_of_list_to_map. intros Hin. apply Hn. apply list_elem_of_fmap in Hin as ([k v] & -> & Hin).
  apply list_elem_of_fmap in Hin as ([h' e'] & Heq & Hin). injection Heq as -> _. simpl.
  apply list_elem_of_fmap. by exists (h', e').
Qed.

Lemma flush_view now_ms s d :
  disk_available -> (forall h e, entries s !! h = Some e -> decodes (entry_to_persist now_ms e)) ->
  db_view d EntriesTable = ∅ ->
  db_view (snd (flush_to_persistence now_ms s d)) EntriesTable =
    (fun e => encoded (entry_to_persist now_ms e)) <$> entries s.
Proof.
  intros Ha Hc Hd. unfold flush_to_persistence, flush, record_flush, store_meta, write_txn. cbn [snd].
  set (d1 := fold_left _ _ d). destruct (proj1 Ha d1 [TInsert MetaTable (as_bytes (lit "last_flush_ms")) (to_le_bytes 8 now_ms)])
    as [d2 Hd2]. rewrite Hd2. cbn [map_err or_same]. rewrite (db_write_ok _ _ _ Hd2). cbn [fold_left].
  change (apply_table_op (db_view d1) (TInsert MetaTable _ _) EntriesTable) with (db_view d1 EntriesTable).
  unfold d1. rewrite flush_fold_view, Hd, (right_id_L ∅ (∪)); [|done| |apply NoDup_map_iter].
  - apply map_eq. intros h. rewrite lookup_fmap. apply option_eq. intros v. rewrite <- elem_of_list_to_map.
    + change (map ?f ?l) with (f <$> l). rewrite list_elem_of_fmap. split.
      * intros ([h' e] & Heq & Hin). injection Heq as -> ->. apply elem_of_map_iter in Hin. by rewrite Hin.
      * intros Hv. destruct (entries s !! h) as [e|] eqn:Ee; [|done]. simpl in Hv. injection Hv as <-. exists (h, e).
        split; [done|]. by apply elem_of_map_iter.
    + rewrite <- list_fmap_compose. apply NoDup_map_iter.
  - apply Forall_forall. intros [h e] Hin%elem_of_map_iter. simpl. eauto.
Qed.

Lemma load_entry_view h d p : disk_available -> decodes p -> db_view d EntriesTable !! h = Some (encoded p) ->
  load_entry h d = Ok (Some p).
Proof.
  intros (_ & Hg & _) (b & Hb & Hf) Hv. unfold load_entry, read_key. destruct (Hg d EntriesTable h) as [v Hgv].
  rewrite Hgv. simpl. apply db_get_ok in Hgv. rewrite Hv in Hgv. subst v. unfold encoded. rewrite Hb. simpl. by rewrite Hf.
Qed.

Definition room (N : Z) (k : Z) (s : CacheStore) : Prop :=
  inv N s /\ max_memory_bytes s <= 0 /\ Z.of_nat (size (entries s)) + k <= max_entries s /\
  Z.of_nat (queue_len s) + k <= N.

(** One entry more, with room for it. *)
Lemma restore_one N k h e s :
  room N (k + 1) s -> 0 <= k -> entries s !! h = None -> freq e = 0 ->
  let s' := s3fifo_admit h (tracked_insert h e s) in
  room N k s' /\ entries s' = <[h := e]> (entries s).
Proof.
  intros ((HW & Hc & Hl) & Hm & Hs & Hq) Hk Hn Hf s'.
  destruct (tracked_insert_frame h e s) as (Hen & Hst & Hcfg & _).
  assert (Hmem : max_memory_bytes (tracked_insert h e s) = max_memory_bytes s) by (unfold cfg in Hcfg; congruence).
  assert (Hmax : max_entries (tracked_insert h e s) = max_entries s) by (unfold cfg in Hcfg; congruence).
  assert (Hql : queue_len (tracked_insert h e s) = queue_len s) by (unfold queue_len; by rewrite Hst).
  destruct (admit_spec N h e (tracked_insert h e s) (entries s) (total_memory_bytes s)) as (Hi & _ & Hcf & _);
    [by rewrite Hst|done|done|by apply tracked_insert_new_memory|done|by rewrite Hst|lia|].
  destruct (admit_queue N h (tracked_insert h e s)) as (Hq' & _ & Hm' & _); [by rewrite Hst|lia|lia|].
  destruct (admit_room N h (tracked_insert h e s)) as (Hen' & _); [by rewrite Hst|lia|left; lia|].
  assert (Hmax' : max_entries s' = max_entries s) by (unfold s', cfg in *; congruence).
  assert (He : entries s' = <[h := e]> (entries s)) by (unfold s'; by rewrite Hen', Hen).
  split; [|done]. split; [done|]. rewrite Hmax', He, map_size_insert_None by done.
  change (max_memory_bytes s') with (max_memory_bytes (s3fifo_admit h (tracked_insert h e s))).
  change (queue_len s') with (queue_len (s3fifo_admit h (tracked_insert h e s))). lia.
Qed.

Lemma restore_loop_spec N clk d (f : QueryHash -> PersistedEntry) hs : forall n s,
  NoDup hs -> (forall h, h ∈ hs -> load_entry h d = Ok (Some (f h)) /\ entries s !! h = None) ->
  room N (zlen hs) s -> 0 <= n -> n + zlen hs < 2 ^ 64 ->
  exists s', restore_loop clk d hs n s = (n + zlen hs, s') /\ inv N s' /\
    forall h, entries s' !! h = if decide (h ∈ hs) then Some (entry_of_persisted clk (f h)) else entries s !! h.
Proof.
  induction hs as [|h hs IH]; intros n s Hnd Hl Hr Hn Hb.
  { exists s. rewrite zlen_nil, Z.add_0_r. split_and!; [done|apply Hr|]. intros h. by rewrite decide_False by set_solver. }
  rewrite zlen_cons in *. apply NoDup_cons in Hnd as [Hni Hnd]. pose proof (zlen_nonneg hs).
  destruct (Hl h) as [Hld Hno]; [set_solver|]. simpl. rewrite Hld.
  destruct (max_entries s <=? _) eqn:Em; reflect_Z; [destruct Hr as (_ & _ & ? & _); lia|].
  assert (sat_add 64 n 1 = n + 1) as -> by (unfold sat_add, u_max; lia).
  destruct (restore_one N (zlen hs) h (entry_of_persisted clk (f h)) s) as [Hr1 He1];
    [by rewrite Z.add_comm|lia|done|done|].
  destruct (IH (n + 1) (s3fifo_admit h (tracked_insert h (entry_of_persisted clk (f h)) s))) as (s' & Hs' & Hi & He);
    [done| |done|lia|lia|].
  - intros h' Hh'. split; [apply Hl; set_solver|]. rewrite He1, lookup_insert_ne by (intros ->; done). apply Hl. set_solver.
  - exists s'. split_and!; [rewrite Hs'; f_equal; lia|done|]. intros h'. rewrite He, He1.
    destruct (decide (h' ∈ hs)) as [Hh'|Hh']; [by rewrite decide_True by set_solver|].
    destruct (decide (h' = h)) as [->|Hne]; [by rewrite lookup_insert_eq, decide_True by set_solver|].
    by rewrite lookup_insert_ne, decide_False by set_solver.
Qed.

(** The entries of a restored cache, through the stored form. *)
Lemma flush_restore_entries N now_ms clk s d s0 :
  disk_available -> (forall h e, entries s !! h = Some e -> decodes (entry_to_persist now_ms e) /\ length h = 32%nat) ->
  db_view d EntriesTable = ∅ -> entries s0 = ∅ -> room N (Z.of_nat (size (entries s))) s0 ->
  Z.of_nat (size (entries s)) < 2 ^ 64 ->
  let d1 := snd (flush_to_persistence now_ms s d) in
  exists s1, restore_from_persistence clk d1 s0 = (Z.of_nat (size (entries s)), s1) /\ inv N s1 /\
    forall h, entries s1 !! h = (fun e => entry_of_persisted clk (entry_to_persist now_ms e)) <$> entries s !! h.
Proof.
  intros Ha Hc Hd H0 Hr Hb d1.
  assert (Hv : db_view d1 EntriesTable = (fun e => encoded (entry_to_persist now_ms e)) <$> entries s)
    by (apply flush_view; [done| |done]; intros h e He; by apply (Hc h e)).
  unfold restore_from_persistence, all_entry_hashes, read_all.
  destruct (proj2 (proj2 Ha) d1 EntriesTable) as [l Hl]. rewrite Hl. simpl. apply db_iter_ok in Hl.
  set (hs := map fst _).
  assert (Hhs : hs = l.*1).
  { unfold hs. change (l.*1) with (map fst l). f_equal.
    assert (Hall : forall kv, kv ∈ l -> length kv.1 = 32%nat).
    { intros [k v] Hin. rewrite Hl, elem_of_map_to_list, Hv, lookup_fmap in Hin.
      destruct (entries s !! k) as [e|] eqn:Ee; [|done]. by apply (Hc k e). }
    clear -Hall. induction l as [|kv l IH]; simpl; [done|]. rewrite (Hall kv) by set_solver. simpl. f_equal.
    apply IH. intros. apply Hall. set_solver. }
  assert (Hin : forall h, h ∈ hs <-> is_Some (entries s !! h)).
  { intros h. rewrite Hhs, Hl, Hv, list_elem_of_fmap. split.
    - intros ([k v] & -> & Hk). rewrite elem_of_map_to_list, lookup_fmap in Hk. simpl. by destruct (entries s !! k).
    - intros [e He]. exists (h, encoded (entry_to_persist now_ms e)). split; [done|].
      rewrite elem_of_map_to_list, lookup_fmap, He. done. }
  assert (Hlen : zlen hs = Z.of_nat (size (entries s))).
  { unfold zlen. rewrite Hhs, length_fmap, Hl, length_map_to_list, Hv, map_size_fmap. done. }
  assert (Hnd : NoDup hs) by (rewrite Hhs, Hl; apply NoDup_fst_map_to_list).
  set (f := fun h => entry_to_persist now_ms (default (entry_of_persisted clk
    {| pe_query := []; pe_upstream_id := []; pe_response := to_persisted (with_no_results); pe_cached_at_ms := 0;
       pe_extended_count := 0; pe_content_hash := [] |}) (entries s !! h))).
  destruct (restore_loop_spec N clk d1 f hs 0 s0) as (s1 & Hs1 & Hi & He); [done| |by rewrite Hlen|lia|lia|].
  - intros h Hh. split; [|by rewrite H0]. apply Hin in Hh as [e Hh]. unfold f. rewrite Hh. simpl.
    apply load_entry_view; [done|by apply (Hc h e)|]. rewrite Hv, lookup_fmap, Hh. done.
  - exists s1. split_and!; [by rewrite Hs1, Hlen|done|]. intros h. rewrite He.
    destruct (entries s !! h) as [e|] eqn:Ee.
    + rewrite decide_True by (apply Hin; eauto). unfold f. by rewrite Ee.
    + rewrite decide_False by (rewrite Hin, Ee; by intros []). by rewrite H0.
Qed.

(** An entry before and after a restart at [clk]. *)
Record restarted (clk : Clock) (e e' : CacheEntry) : Prop := {
  rs_response : response e' = without_origin (response e);
  rs_upstream : ce_upstream_id e' = ce_upstream_id e;
  rs_text : query_text e' = match query_text e with Some [] => None | q => q end;
  rs_extended : extended_count e' = extended_count e;
  rs_hash : content_hash e' = Some (default zero_hash (content_hash e));
  rs_age : cached_at e' = mono clk;
  rs_context : context_id e' = lit "default"
}.
Lemma restarted_entry clk now_ms e : restarted clk e (entry_of_persisted clk (entry_to_persist now_ms e)).
Proof. split; try done; [apply response_roundtrip|]. simpl. by destruct (query_text e) as [[]|]. Qed.

End PersistProps.

(** A context whose name starts with another's and a colon loses its entries with it,
    and counts among them. *)
Example nested_context_cleared h :
  bytes_start_with (context_key (lit "docs:eu") h) (context_prefix (lit "docs")) = true.
Proof. reflexivity. Qed.

(** A restored entry passes the integrity check if it had a correct hash; one without
    a hash is stored with a hash of zeros and comes back corrupted. *)
Lemma restored_integrity `{CacheEnv} clk now_ms e :
  let e' := entry_of_persisted clk (entry_to_persist now_ms e) in
  response e' = without_origin (response e) /\
  (forall x, content_hash e = Some x -> entry_verify_integrity e' = entry_verify_integrity e) /\
  (content_hash e = None -> entry_verify_integrity e = true /\
     (compute_content_hash (response e) <> zero_hash -> corrupted e' = true)).
Proof.
  simpl. split_and!; [apply response_roundtrip| |].
  - intros x Hx. unfold entry_verify_integrity. simpl. rewrite Hx. simpl.
    by rewrite response_roundtrip, without_origin_hash.
  - intros Hn. unfold entry_verify_integrity, corrupted. simpl. rewrite Hn. simpl.
    split; [done|]. rewrite response_roundtrip, without_origin_hash. intros Hne.
    apply negb_true_iff, bool_decide_eq_false. naive_solver.
Qed.

(** ** A concrete database *)

#[export] Instance DemoDisk : Redb tables := {|
  db_get := fun d t k => Ok (d t !! k);
  db_iter := fun d t => Ok (map_to_list (d t));
  db_len := fun d t => Ok (Z.of_nat (size (d t)));
  db_write := fun d ops => Ok (fold_left apply_table_op ops d)
|}.
#[export] Instance DemoDisk_laws : RedbLaws tables.
Proof.
  refine {| db_view := fun d => d |}.
  - intros d t k v [= <-]. reflexivity.
  - intros d t l [= <-]. reflexivity.
  - intros d t n [= <-]. reflexivity.
  - intros d ops d' [= <-] t. reflexivity.
Defined.
Lemma demo_available : disk_available (D := tables).
Proof. split_and!; intros; eexists; reflexivity. Qed.

#[local] Existing Instance DemoEnv.
Definition demo_long_query : str := lit "abcdefghijklmnopqrstuvwxyz012345".
Definition demo_flushed : CacheStore := insert demo_clock demo_long_query (demo_response "b") (lit "up") demo_init.
Definition demo_disk_entry : CacheEntry := new_entry demo_clock (demo_response "b") (lit "up") (Some demo_long_query) (lit "default").
#[local] Instance DemoEntryCodec : JsonCodec PersistedEntry :=
  {| to_vec := fun p => Ok (pe_query p); from_slice := fun _ => Ok (entry_to_persist 1 demo_disk_entry) |}.

Lemma demo_flushed_entries : map_to_list (entries demo_flushed) = [(demo_long_query, demo_disk_entry)].
Proof. vm_compute. reflexivity. Qed.
Lemma demo_flushed_ok h e : entries demo_flushed !! h = Some e ->
  decodes (entry_to_persist 1 e) /\ length h = 32%nat.
Proof.
  intros He%elem_of_map_to_list. rewrite demo_flushed_entries in He. apply list_elem_of_singleton in He.
  injection He as -> ->. split; [|reflexivity]. eexists. split; reflexivity.
Qed.
Lemma demo_room : room 2 (Z.of_nat (size (entries demo_flushed))) demo_init.
Proof. split; [by apply inv_init|]. vm_compute. repeat split; discriminate. Qed.

Definition empty_disk : tables := fun _ => ∅.
