(* ===== verification/Settings.v ===== *)
(** * Configuration sections (src/src/config/mod.rs)

    The sections of the proxy configuration with their defaults, the way a local file
    is laid over a global one, and their validation.  Every section is [Mergeable]:
    [merge self base] is the [merge_with] of the source, and [MergeLaws] is what layers
    of files rely on.  A failed check is a constructor of [ConfigError]; the text of
    the message is left out. *)

From Stdlib Require Import SpecFloat.
From S2P Require Import Prelude Floats Text Types Circuit Scope Retry ConnPool Cascade Auth.
Open Scope Z_scope.
Open Scope conproxy_scope.

(** ** Merging *)

Class Mergeable (A : Type) := merge : A -> A -> A.
Class MergeLaws (A : Type) `{Mergeable A} : Prop := {
  merge_assoc (a b c : A) : merge (merge a b) c = merge a (merge b c);
  merge_idem (a : A) : merge a a = a
}.

#[export] Instance option_merge {A} : Mergeable (option A) := or_else.
#[global] Arguments option_merge : simpl never.
#[export] Instance option_merge_laws {A} : MergeLaws (option A).
Proof. split; [by intros [] [] []|by intros []]. Qed.

(** A list that is set replaces the other. *)
#[export] Instance list_merge {A} : Mergeable (list A) := or_list.
#[global] Arguments list_merge : simpl never.
#[export] Instance list_merge_laws {A} : MergeLaws (list A).
Proof. split; [by intros [] [] []|by intros []]. Qed.

(** Component by component. *)
Tactic Notation "merge_fields" reference(I) :=
  split; [intros [] [] []|intros []]; unfold merge, I; simpl; f_equal; first [apply merge_assoc | apply merge_idem | done].

(** ** Errors *)

Inductive ConfigError :=
| LlmRemoved
| BadUpstreamType (id : str) | BadQueryMode (id : str) | MissingTable (id : str) | BadDistanceMetric (id : str)
| BadUrl (id : str) | BadTimeout (id : str)
| BadUpstreamUrl | BadUpstreamTimeout | BadMaxEntries | BadMaxConnections | BadListenBacklog
| BadFreshDuration | BadStaleDuration | BadRefreshInterval
| BadDistillFormat | BadLocalConfidence | BadMergeMode | BadMaxMerged | BadMinLocalResults
| BadScope (e : ScopeConfigError)
| BadRps | BadBurst | BadMaxDelay | BadDelayOrder | BadMultiplier
| BadEvictionPolicy | BadEntrySize | BadPerUpstream | BadThreshold | UnsafeThreshold
| EmptyApiKey | BadSignature | BadReplayWindow
| BadFailureThreshold | BadSuccessThreshold | BadOpenDuration | BadFailureWindow
| NoUpstreams | NoDefault | TwoDefaults | EmptyProvider (name : str)
| UnknownUpstream (ctx ref : str) | UnknownEmbedder (ctx ref : str) | MissingUrl (id : str)
| NoLegs (ctx : str) | BadLegTimeout (ctx id : str) | BadContextScope (ctx : str) (e : ScopeConfigError)
| BadContextMaxEntries (ctx : str)
| EmptyAgentId | UnknownAllowedContext (agent ctx : str) | UnknownDefaultContext (agent ctx : str)
| NoResolvedContexts.

Abbreviation checked := (result unit ConfigError).

(** [if bad { return Err(e) }], then the rest. *)
Definition reject (bad : bool) (e : ConfigError) (rest : checked) : checked := if bad then Err e else rest.
Definition also (c rest : checked) : checked := match c with Ok _ => rest | Err e => Err e end.
(** [if let Some(x) = o { if p(x) { .. } }] *)
Definition some_and {A} (p : A -> bool) (o : option A) : bool := match o with Some a => p a | None => false end.
Definition one_of (l : list string) (s : str) : bool := existsb (fun x => str_eqb s (lit x)) l.
Fixpoint each {A} (f : A -> checked) (l : list A) : checked :=
  match l with [] => Ok tt | a :: l => also (f a) (each f l) end.

Lemma reject_ok b e r : reject b e r = Ok tt <-> b = false /\ r = Ok tt.
Proof. unfold reject. destruct b; naive_solver. Qed.
Lemma also_ok c r : also c r = Ok tt <-> c = Ok tt /\ r = Ok tt.
Proof. unfold also. destruct c as [[]|]; naive_solver. Qed.
Lemma each_ok {A} (f : A -> checked) l : each f l = Ok tt <-> Forall (fun a => f a = Ok tt) l.
Proof.
  induction l as [|a l IH]; simpl; [split; [constructor|done]|]. by rewrite also_ok, IH, Forall_cons.
Qed.

(** ** Endpoints *)

Record EndpointConfig := {
  ep_id : str; ep_url : str; ep_timeout_secs : option Z; ep_weight : option Z; ep_priority : option Z;
  ep_max_concurrent : option Z; ep_enabled : option bool; ep_version_endpoint : option str;
  ep_version_poll_interval_secs : option Z; ep_upstream_type : option str; ep_query_mode : option str;
  ep_table : option str; ep_embedding_column : option str; ep_content_column : option str;
  ep_metadata_columns : list str; ep_distance_metric : option str; ep_dimensions : option Z;
  ep_index : option str; ep_search_fields : list str; ep_return_fields : list str; ep_api_key : option str
}.

Definition endpoint_default : EndpointConfig :=
  {| ep_id := []; ep_url := []; ep_timeout_secs := None; ep_weight := None; ep_priority := None;
     ep_max_concurrent := None; ep_enabled := None; ep_version_endpoint := None;
     ep_version_poll_interval_secs := None; ep_upstream_type := None; ep_query_mode := None; ep_table := None;
     ep_embedding_column := None; ep_content_column := None; ep_metadata_columns := []; ep_distance_metric := None;
     ep_dimensions := None; ep_index := None; ep_search_fields := []; ep_return_fields := []; ep_api_key := None |}.

Definition ep_timeout (e : EndpointConfig) : Z := default 30 (ep_timeout_secs e).
Definition ep_is_enabled (e : EndpointConfig) : bool := default true (ep_enabled e).
Definition ep_is_pgvector (e : EndpointConfig) : bool :=
  some_and (fun t => str_eqb t (lit "pgvector")) (ep_upstream_type e).

Definition endpoint_validate (e : EndpointConfig) : checked :=
  reject (some_and (fun t => negb (one_of ["elasticsearch"; "opensearch"; "qdrant"; "pinecone"; "milvus"; "pgvector"; "meilisearch"] t))
            (ep_upstream_type e)) (BadUpstreamType (ep_id e)) (
  reject (some_and (fun q => negb (one_of ["text_native"; "vector_only"; "unknown"] q)) (ep_query_mode e))
    (BadQueryMode (ep_id e)) (
  reject (ep_is_pgvector e && match ep_table e with None => true | Some _ => false end) (MissingTable (ep_id e)) (
  reject (some_and (fun d => negb (one_of ["cosine"; "l2"; "inner_product"] d)) (ep_distance_metric e))
    (BadDistanceMetric (ep_id e)) (
  Ok tt)))).

(** ** Federated search *)

Record FederatedSettings := {
  fd_enabled : option bool; fd_min_local_results : option Z; fd_min_local_confidence : option f32;
  fd_fallback_on_empty : option bool; fd_fallback_on_low_confidence : option bool; fd_merge_mode : option str;
  fd_max_merged_results : option Z
}.
#[export] Instance federated_merge : Mergeable FederatedSettings := fun self base =>
  {| fd_enabled := merge (fd_enabled self) (fd_enabled base);
     fd_min_local_results := merge (fd_min_local_results self) (fd_min_local_results base);
     fd_min_local_confidence := merge (fd_min_local_confidence self) (fd_min_local_confidence base);
     fd_fallback_on_empty := merge (fd_fallback_on_empty self) (fd_fallback_on_empty base);
     fd_fallback_on_low_confidence := merge (fd_fallback_on_low_confidence self) (fd_fallback_on_low_confidence base);
     fd_merge_mode := merge (fd_merge_mode self) (fd_merge_mode base);
     fd_max_merged_results := merge (fd_max_merged_results self) (fd_max_merged_results base) |}.
#[export] Instance federated_merge_laws : MergeLaws FederatedSettings.
Proof. merge_fields federated_merge. Qed.
#[global] Arguments federated_merge : simpl never.

Definition is_zero (n : Z) : bool := n =? 0.

Definition federated_validate `{UnicodeCase} (c : FederatedSettings) : checked :=
  reject (some_and (fun v => negb (in_unit v)) (fd_min_local_confidence c)) BadLocalConfidence (
  reject (some_and (fun m => negb (one_of ["local_only_fallback"; "local_priority"; "remote_priority"; "interleave"] (to_lowercase m)))
            (fd_merge_mode c)) BadMergeMode (
  reject (some_and is_zero (fd_max_merged_results c)) BadMaxMerged (
  reject (some_and is_zero (fd_min_local_results c)) BadMinLocalResults (Ok tt)))).

(** ** Security *)

Record RateLimitSettings := { rl_enabled : option bool; rl_requests_per_second : option Z; rl_burst_size : option Z }.
#[export] Instance rate_limit_merge : Mergeable RateLimitSettings := fun self base =>
  {| rl_enabled := merge (rl_enabled self) (rl_enabled base);
     rl_requests_per_second := merge (rl_requests_per_second self) (rl_requests_per_second base);
     rl_burst_size := merge (rl_burst_size self) (rl_burst_size base) |}.
#[export] Instance rate_limit_merge_laws : MergeLaws RateLimitSettings.
Proof. merge_fields rate_limit_merge. Qed.
#[global] Arguments rate_limit_merge : simpl never.
Definition rate_limit_validate (c : RateLimitSettings) : checked :=
  reject (some_and is_zero (rl_requests_per_second c)) BadRps (
  reject (some_and is_zero (rl_burst_size c)) BadBurst (Ok tt)).

Record AdvancedSecurity := {
  as_enabled : option bool; as_signature_algorithm : option str; as_tls_pinning : option bool;
  as_replay_detection : option bool; as_replay_window_seconds : option Z
}.
#[export] Instance advanced_merge : Mergeable AdvancedSecurity := fun self base =>
  {| as_enabled := merge (as_enabled self) (as_enabled base);
     as_signature_algorithm := merge (as_signature_algorithm self) (as_signature_algorithm base);
     as_tls_pinning := merge (as_tls_pinning self) (as_tls_pinning base);
     as_replay_detection := merge (as_replay_detection self) (as_replay_detection base);
     as_replay_window_seconds := merge (as_replay_window_seconds self) (as_replay_window_seconds base) |}.
#[export] Instance advanced_merge_laws : MergeLaws AdvancedSecurity.
Proof. merge_fields advanced_merge. Qed.
#[global] Arguments advanced_merge : simpl never.
Definition advanced_validate (c : AdvancedSecurity) : checked :=
  reject (some_and (fun s => negb (one_of ["hmac-sha256"; "blake3"] s)) (as_signature_algorithm c)) BadSignature (
  reject (some_and is_zero (as_replay_window_seconds c)) BadReplayWindow (Ok tt)).

Record SecuritySettings := { sec_api_key : option str; sec_rate_limit : RateLimitSettings; sec_advanced : AdvancedSecurity }.
#[export] Instance security_merge : Mergeable SecuritySettings := fun self base =>
  {| sec_api_key := merge (sec_api_key self) (sec_api_key base);
     sec_rate_limit := merge (sec_rate_limit self) (sec_rate_limit base);
     sec_advanced := merge (sec_advanced self) (sec_advanced base) |}.
#[export] Instance security_merge_laws : MergeLaws SecuritySettings.
Proof. merge_fields security_merge. Qed.
#[global] Arguments security_merge : simpl never.
(** The rate limit of this section is not checked. *)
Definition security_validate (c : SecuritySettings) : checked :=
  reject (some_and (fun k => match k with [] => true | _ => false end) (sec_api_key c)) EmptyApiKey (
  advanced_validate (sec_advanced c)).
(** ** Retries *)

Record RetrySettings := {
  rt_enabled : option bool;
  rt_max_retries : option Z;
  rt_initial_delay_ms : option Z;
  rt_max_delay_ms : option Z;
  rt_backoff_multiplier : option f64;
  rt_on_network_error : option bool;
  rt_on_timeout : option bool;
  rt_on_server_error : option bool;
  rt_on_rate_limited : option bool
}.
#[export] Instance retry_merge : Mergeable RetrySettings := fun self base =>
  {| rt_enabled := merge (rt_enabled self) (rt_enabled base);
     rt_max_retries := merge (rt_max_retries self) (rt_max_retries base);
     rt_initial_delay_ms := merge (rt_initial_delay_ms self) (rt_initial_delay_ms base);
     rt_max_delay_ms := merge (rt_max_delay_ms self) (rt_max_delay_ms base);
     rt_backoff_multiplier := merge (rt_backoff_multiplier self) (rt_backoff_multiplier base);
     rt_on_network_error := merge (rt_on_network_error self) (rt_on_network_error base);
     rt_on_timeout := merge (rt_on_timeout self) (rt_on_timeout base);
     rt_on_server_error := merge (rt_on_server_error self) (rt_on_server_error base);
     rt_on_rate_limited := merge (rt_on_rate_limited self) (rt_on_rate_limited base) |}.
#[export] Instance retry_merge_laws : MergeLaws RetrySettings.
Proof. merge_fields retry_merge. Qed.
#[global] Arguments retry_merge : simpl never.

Definition rt_max_delay (c : RetrySettings) : Z := default 10000 (rt_max_delay_ms c).
Definition rt_initial_delay (c : RetrySettings) : Z := default 100 (rt_initial_delay_ms c).
Definition retry_settings_validate (c : RetrySettings) : checked :=
  reject (some_and is_zero (rt_max_delay_ms c)) BadMaxDelay (
  reject (some_and (fun max => some_and (fun initial => max <? initial) (rt_initial_delay_ms c)) (rt_max_delay_ms c)) BadDelayOrder (
  reject (some_and (fun m => f_lt m (F64.of_Z 1)) (rt_backoff_multiplier c)) BadMultiplier (Ok tt))).

(** ** Cache *)

Record SemanticSettings := {
  sm_enabled : option bool;
  sm_similarity_threshold : option f32;
  sm_max_entries : option Z;
  sm_allow_unsafe_threshold : option bool
}.
#[export] Instance semantic_merge : Mergeable SemanticSettings := fun self base =>
  {| sm_enabled := merge (sm_enabled self) (sm_enabled base);
     sm_similarity_threshold := merge (sm_similarity_threshold self) (sm_similarity_threshold base);
     sm_max_entries := merge (sm_max_entries self) (sm_max_entries base);
     sm_allow_unsafe_threshold := merge (sm_allow_unsafe_threshold self) (sm_allow_unsafe_threshold base) |}.
#[export] Instance semantic_merge_laws : MergeLaws SemanticSettings.
Proof. merge_fields semantic_merge. Qed.
#[global] Arguments semantic_merge : simpl never.

Definition SAFE_SIMILARITY_THRESHOLD_FLOOR : f32 := F32.lit 85 100.
Definition sm_is_enabled (c : SemanticSettings) : bool := default false (sm_enabled c).
Definition semantic_validate (c : SemanticSettings) : checked :=
  match sm_similarity_threshold c with
  | Some t =>
      reject (negb (in_unit t)) BadThreshold (
      reject (sm_is_enabled c && f_lt t SAFE_SIMILARITY_THRESHOLD_FLOOR && negb (default false (sm_allow_unsafe_threshold c)))
        UnsafeThreshold (Ok tt))
  | None => Ok tt
  end.

Record PerUpstreamSettings := {
  pu_enabled : option bool;
  pu_max_entries_per_upstream : option Z
}.
#[export] Instance per_upstream_merge : Mergeable PerUpstreamSettings := fun self base =>
  {| pu_enabled := merge (pu_enabled self) (pu_enabled base);
     pu_max_entries_per_upstream := merge (pu_max_entries_per_upstream self) (pu_max_entries_per_upstream base) |}.
#[export] Instance per_upstream_merge_laws : MergeLaws PerUpstreamSettings.
Proof. merge_fields per_upstream_merge. Qed.
#[global] Arguments per_upstream_merge : simpl never.

Definition per_upstream_validate (c : PerUpstreamSettings) : checked :=
  reject (some_and is_zero (pu_max_entries_per_upstream c)) BadPerUpstream (Ok tt).

Record CacheSettings := {
  cs_max_memory_mb : option Z;
  cs_max_entry_size_kb : option Z;
  cs_eviction_policy : option str;
  cs_error_ttl_5xx_secs : option Z;
  cs_error_ttl_timeout_secs : option Z;
  cs_error_ttl_connection_secs : option Z;
  cs_normalized_matching : option bool;
  cs_per_upstream : PerUpstreamSettings;
  cs_semantic : SemanticSettings
}.
#[export] Instance cache_merge : Mergeable CacheSettings := fun self base =>
  {| cs_max_memory_mb := merge (cs_max_memory_mb self) (cs_max_memory_mb base);
     cs_max_entry_size_kb := merge (cs_max_entry_size_kb self) (cs_max_entry_size_kb base);
     cs_eviction_policy := merge (cs_eviction_policy self) (cs_eviction_policy base);
     cs_error_ttl_5xx_secs := merge (cs_error_ttl_5xx_secs self) (cs_error_ttl_5xx_secs base);
     cs_error_ttl_timeout_secs := merge (cs_error_ttl_timeout_secs self) (cs_error_ttl_timeout_secs base);
     cs_error_ttl_connection_secs := merge (cs_error_ttl_connection_secs self) (cs_error_ttl_connection_secs base);
     cs_normalized_matching := merge (cs_normalized_matching self) (cs_normalized_matching base);
     cs_per_upstream := merge (cs_per_upstream self) (cs_per_upstream base);
     cs_semantic := merge (cs_semantic self) (cs_semantic base) |}.
#[export] Instance cache_merge_laws : MergeLaws CacheSettings.
Proof. merge_fields cache_merge. Qed.
#[global] Arguments cache_merge : simpl never.

Definition cache_validate (c : CacheSettings) : checked :=
  reject (some_and (fun p => negb (one_of ["lru"; "lfu"; "ttl_first"] p)) (cs_eviction_policy c)) BadEvictionPolicy (
  reject (some_and is_zero (cs_max_entry_size_kb c)) BadEntrySize (
  also (per_upstream_validate (cs_per_upstream c)) (semantic_validate (cs_semantic c)))).

(** ** Distillation, events, peers *)

Record DistillSettings := {
  ds_output_dir : option str;
  ds_post_process_cmd : option str;
  ds_format : option str;
  ds_include_stale : option bool
}.
#[export] Instance distill_merge : Mergeable DistillSettings := fun self base =>
  {| ds_output_dir := merge (ds_output_dir self) (ds_output_dir base);
     ds_post_process_cmd := merge (ds_post_process_cmd self) (ds_post_process_cmd base);
     ds_format := merge (ds_format self) (ds_format base);
     ds_include_stale := merge (ds_include_stale self) (ds_include_stale base) |}.
#[export] Instance distill_merge_laws : MergeLaws DistillSettings.
Proof. merge_fields distill_merge. Qed.
#[global] Arguments distill_merge : simpl never.

Definition distill_validate (c : DistillSettings) : checked :=
  reject (some_and (fun f => negb (one_of ["md"; "json"; "both"] f)) (ds_format c)) BadDistillFormat (Ok tt).

Record CdcSettings := {
  cd_enabled : option bool;
  cd_buffer_size : option Z
}.
#[export] Instance cdc_merge : Mergeable CdcSettings := fun self base =>
  {| cd_enabled := merge (cd_enabled self) (cd_enabled base);
     cd_buffer_size := merge (cd_buffer_size self) (cd_buffer_size base) |}.
#[export] Instance cdc_merge_laws : MergeLaws CdcSettings.
Proof. merge_fields cdc_merge. Qed.
#[global] Arguments cdc_merge : simpl never.

Record PeerSettings := {
  pp_enabled : option bool;
  pp_node_id : option str;
  pp_peers : list str;
  pp_reconnect_interval_ms : option Z;
  pp_fetch_wait_timeout_ms : option Z;
  pp_snapshot_on_join : option bool;
  pp_ready_threshold : option f64;
  pp_snapshot_batch_size : option Z;
  pp_shared_secret : option str
}.
#[export] Instance peer_merge : Mergeable PeerSettings := fun self base =>
  {| pp_enabled := merge (pp_enabled self) (pp_enabled base);
     pp_node_id := merge (pp_node_id self) (pp_node_id base);
     pp_peers := merge (pp_peers self) (pp_peers base);
     pp_reconnect_interval_ms := merge (pp_reconnect_interval_ms self) (pp_reconnect_interval_ms base);
     pp_fetch_wait_timeout_ms := merge (pp_fetch_wait_timeout_ms self) (pp_fetch_wait_timeout_ms base);
     pp_snapshot_on_join := merge (pp_snapshot_on_join self) (pp_snapshot_on_join base);
     pp_ready_threshold := merge (pp_ready_threshold self) (pp_ready_threshold base);
     pp_snapshot_batch_size := merge (pp_snapshot_batch_size self) (pp_snapshot_batch_size base);
     pp_shared_secret := merge (pp_shared_secret self) (pp_shared_secret base) |}.
#[export] Instance peer_merge_laws : MergeLaws PeerSettings.
Proof. merge_fields peer_merge. Qed.
#[global] Arguments peer_merge : simpl never.

(** ** Environment references

    [env] is the environment of the process. *)
Definition starts (p : string) (s : str) : bool := starts_with s (lit p).
Definition resolve_env_ref (env : str -> option str) (s : str) : option str :=
  if starts "${" s && match last s with Some 125 => true | _ => false end then
    match env (take (length s - 3) (drop 2 s)) with
    | Some [] | None => None
    | Some v => Some v
    end
  else Some s.

Inductive SecretError := EmptySecret | UndefinedVariable (raw : str).
Definition resolve_shared_secret (env : str -> option str) (c : PeerSettings) : result (option str) SecretError :=
  match pp_shared_secret c with
  | None => Ok None
  | Some raw =>
      match trim raw with
      | [] => Err EmptySecret
      | raw => match resolve_env_ref env raw with Some v => Ok (Some v) | None => Err (UndefinedVariable raw) end
      end
  end.
Definition resolve_api_key (env : str -> option str) (e : EndpointConfig) : result (option str) SecretError :=
  match ep_api_key e with
  | None => Ok None
  | Some raw =>
      match resolve_env_ref env raw with
      | None => Err (UndefinedVariable raw)
      | Some [] => Ok None
      | Some v => Ok (Some v)
      end
  end.

(** ** Circuit breaker and sockets

    These sections have no unset fields: the one that is given is taken whole. *)
Record CircuitSettings := {
  cb_failure_threshold : Z; cb_success_threshold : Z; cb_open_duration_secs : Z; cb_failure_window_secs : Z
}.
Definition CircuitSettings_default : CircuitSettings :=
  {| cb_failure_threshold := 25; cb_success_threshold := 2; cb_open_duration_secs := 30; cb_failure_window_secs := 60 |}.
Definition to_circuit_breaker_config (c : CircuitSettings) : CircuitBreakerConfig :=
  {| failure_threshold := cb_failure_threshold c; success_threshold := cb_success_threshold c;
     open_duration := from_secs (cb_open_duration_secs c); failure_window := from_secs (cb_failure_window_secs c) |}.
Definition circuit_settings_validate (c : CircuitSettings) : checked :=
  reject (is_zero (cb_failure_threshold c)) BadFailureThreshold (
  reject (is_zero (cb_success_threshold c)) BadSuccessThreshold (
  reject (is_zero (cb_open_duration_secs c)) BadOpenDuration (
  reject (is_zero (cb_failure_window_secs c)) BadFailureWindow (Ok tt)))).

Record SocketSettings := {
  so_tcp_nodelay : bool; so_tcp_keepalive_secs : Z; so_tcp_keepalive_interval : Z; so_tcp_keepalive_probes : Z;
  so_listen_backlog : Z; so_send_buffer_size : option Z; so_recv_buffer_size : option Z; so_defer_accept_secs : Z;
  so_user_timeout_ms : Z; so_reuse_port : bool; so_upstream_pool_idle_timeout_secs : Z; so_upstream_pool_max_idle : Z
}.
Definition SocketSettings_default : SocketSettings :=
  {| so_tcp_nodelay := true; so_tcp_keepalive_secs := 60; so_tcp_keepalive_interval := 15; so_tcp_keepalive_probes := 5;
     so_listen_backlog := 4096; so_send_buffer_size := None; so_recv_buffer_size := None; so_defer_accept_secs := 5;
     so_user_timeout_ms := 30000; so_reuse_port := true; so_upstream_pool_idle_timeout_secs := 90;
     so_upstream_pool_max_idle := 32 |}.

Definition keep_self {A} : Mergeable A := fun self _ => self.
Lemma keep_self_laws A : @MergeLaws A keep_self.
Proof. by split. Qed.
#[export] Instance circuit_merge : Mergeable CircuitSettings := keep_self.
#[export] Instance circuit_merge_laws : MergeLaws CircuitSettings := keep_self_laws _.
#[export] Instance socket_merge : Mergeable SocketSettings := keep_self.
#[export] Instance socket_merge_laws : MergeLaws SocketSettings := keep_self_laws _.
#[export] Instance cascade_merge : Mergeable CascadeConfig := keep_self.
#[export] Instance cascade_merge_laws : MergeLaws CascadeConfig := keep_self_laws _.
#[export] Instance pool_merge : Mergeable ConnectionPoolConfig := keep_self.
#[export] Instance pool_merge_laws : MergeLaws ConnectionPoolConfig := keep_self_laws _.

(** The web interface is on when either file turns it on. *)
Record WebUiSettings := { wu_enabled : bool }.
#[export] Instance web_ui_merge : Mergeable WebUiSettings := fun self base =>
  {| wu_enabled := wu_enabled self || wu_enabled base |}.
#[export] Instance web_ui_merge_laws : MergeLaws WebUiSettings.
Proof. split; [intros [] [] []|intros []]; unfold merge, web_ui_merge; simpl; f_equal; [by rewrite orb_assoc|apply orb_diag]. Qed.

#[export] Instance scope_merge : Mergeable ProxyScopeConfig := merge_with.
#[export] Instance scope_merge_laws : MergeLaws ProxyScopeConfig.
Proof.
  split; [intros [] [] []|intros []]; unfold merge, scope_merge, merge_with, or_else, or_list; simpl; f_equal;
    repeat (case_match; simplify_eq; try done).
Qed.

#[global] Arguments keep_self : simpl never.
#[global] Arguments web_ui_merge : simpl never.
#[global] Arguments scope_merge : simpl never.

(** ** The proxy *)

Record ProxySettings := {
  px_listen : option str;
  px_http_listen : option str;
  px_fresh_duration_secs : option Z;
  px_stale_duration_secs : option Z;
  px_max_entries : option Z;
  px_upstream_url : option str;
  px_upstream_timeout_secs : option Z;
  px_ttl_jitter_percent : option f32;
  px_refresh_interval_secs : option Z;
  px_scope : ProxyScopeConfig;
  px_cache : CacheSettings;
  px_distill : DistillSettings;
  px_api_key : option str;
  px_rate_limit : RateLimitSettings;
  px_retry : RetrySettings;
  px_upstreams : list EndpointConfig;
  px_federated : FederatedSettings;
  px_security : SecuritySettings;
  px_cascade : CascadeConfig;
  px_pool : ConnectionPoolConfig;
  px_circuit_breaker : CircuitSettings;
  px_agents : list AgentConfig;
  px_cdc : CdcSettings;
  px_peer : PeerSettings;
  px_socket_tuning : SocketSettings;
  px_shutdown_timeout_secs : option Z;
  px_max_global_connections : option Z;
  px_web_ui : WebUiSettings
}.
#[export] Instance proxy_merge : Mergeable ProxySettings := fun self base =>
  {| px_listen := merge (px_listen self) (px_listen base);
     px_http_listen := merge (px_http_listen self) (px_http_listen base);
     px_fresh_duration_secs := merge (px_fresh_duration_secs self) (px_fresh_duration_secs base);
     px_stale_duration_secs := merge (px_stale_duration_secs self) (px_stale_duration_secs base);
     px_max_entries := merge (px_max_entries self) (px_max_entries base);
     px_upstream_url := merge (px_upstream_url self) (px_upstream_url base);
     px_upstream_timeout_secs := merge (px_upstream_timeout_secs self) (px_upstream_timeout_secs base);
     px_ttl_jitter_percent := merge (px_ttl_jitter_percent self) (px_ttl_jitter_percent base);
     px_refresh_interval_secs := merge (px_refresh_interval_secs self) (px_refresh_interval_secs base);
     px_scope := merge (px_scope self) (px_scope base);
     px_cache := merge (px_cache self) (px_cache base);
     px_distill := merge (px_distill self) (px_distill base);
     px_api_key := merge (px_api_key self) (px_api_key base);
     px_rate_limit := merge (px_rate_limit self) (px_rate_limit base);
     px_retry := merge (px_retry self) (px_retry base);
     px_upstreams := merge (px_upstreams self) (px_upstreams base);
     px_federated := merge (px_federated self) (px_federated base);
     px_security := merge (px_security self) (px_security base);
     px_cascade := merge (px_cascade self) (px_cascade base);
     px_pool := merge (px_pool self) (px_pool base);
     px_circuit_breaker := merge (px_circuit_breaker self) (px_circuit_breaker base);
     px_agents := merge (px_agents self) (px_agents base);
     px_cdc := merge (px_cdc self) (px_cdc base);
     px_peer := merge (px_peer self) (px_peer base);
     px_socket_tuning := merge (px_socket_tuning self) (px_socket_tuning base);
     px_shutdown_timeout_secs := merge (px_shutdown_timeout_secs self) (px_shutdown_timeout_secs base);
     px_max_global_connections := merge (px_max_global_connections self) (px_max_global_connections base);
     px_web_ui := merge (px_web_ui self) (px_web_ui base) |}.
#[export] Instance proxy_merge_laws : MergeLaws ProxySettings.
Proof. merge_fields proxy_merge. Qed.
#[global] Arguments proxy_merge : simpl never.

