(* ===== verification/Config.v ===== *)
(** * Configuration: contexts and the whole file (src/src/config/context_rooted.rs, mod.rs)

    Named upstream and embedder resources, the contexts that refer to them and the
    resolution of a context's legs, the projection of the resolved contexts onto the
    settings the proxy runs with, and the configuration file: layers, validation,
    loading and environment overrides.

    The tables are [HashMap]s: the source iterates over them in an order of the map's
    own.  [MapOrder] is that order, of which only the fact that it lists the map once
    is used, so that what depends on the order shows in the theorems. *)

From Stdlib Require Import SpecFloat.
From S2P Require Import Prelude Floats Text Types Circuit Scope Retry ConnPool Cascade Auth Settings.
Open Scope Z_scope.
Open Scope conproxy_scope.

Class MapOrder := map_order : forall V : Type, gmap str V -> list (str * V).
Class MapOrderLaws (O : MapOrder) : Prop :=
  map_order_perm : forall V (m : gmap str V), map_order V m ≡ₚ map_to_list m.
#[global] Arguments map_order {_ V} m.
Definition ListedOrder : MapOrder := fun V m => map_to_list m.
Definition Reversed : MapOrder := fun V m => rev (map_to_list m).
#[export] Instance ListedOrder_laws : MapOrderLaws ListedOrder.
Proof. by intros V m. Qed.
#[export] Instance Reversed_laws : MapOrderLaws Reversed.
Proof. intros V m. unfold map_order, Reversed. symmetry. apply Permutation_rev. Qed.

(** [for x in xs { out.push(f(x)?) }] *)
Fixpoint try_each {A B E} (f : A -> result B E) (l : list A) : result (list B) E :=
  match l with
  | [] => Ok []
  | a :: l => match f a with
              | Err e => Err e
              | Ok b => match try_each f l with Ok bs => Ok (b :: bs) | Err e => Err e end
              end
  end.
Lemma try_each_ok {A B E} (f : A -> result B E) l bs :
  try_each f l = Ok bs <-> Forall2 (fun a b => f a = Ok b) l bs.
Proof.
  revert bs. induction l as [|a l IH]; intros bs; simpl.
  { split; [intros [= <-]; constructor|by inversion 1]. }
  split.
  - intros H. repeat case_match; simplify_eq. constructor; [done|]. by apply IH.
  - inversion 1 as [|? b ? bs' Hab Hl]; subst. rewrite Hab. apply IH in Hl. by rewrite Hl.
Qed.

(** ** Resources and contexts *)

Record ServerSettings := { sv_listen : option str; sv_http_listen : option str }.
#[export] Instance server_merge : Mergeable ServerSettings := fun self base =>
  {| sv_listen := merge (sv_listen self) (sv_listen base);
     sv_http_listen := merge (sv_http_listen self) (sv_http_listen base) |}.
#[export] Instance server_merge_laws : MergeLaws ServerSettings.
Proof. merge_fields server_merge. Qed.

Record UpstreamResource := {
  ur_url : option str; ur_upstream_type : option str; ur_timeout_secs : option Z; ur_weight : option Z;
  ur_priority : option Z; ur_max_concurrent : option Z; ur_enabled : option bool; ur_version_endpoint : option str;
  ur_version_poll_interval_secs : option Z; ur_query_mode : option str; ur_table : option str;
  ur_embedding_column : option str; ur_content_column : option str; ur_metadata_columns : list str;
  ur_distance_metric : option str; ur_dimensions : option Z; ur_index : option str; ur_search_fields : list str;
  ur_return_fields : list str; ur_api_key : option str
}.
Record ContextLeg := {
  lg_resource_ref : str; lg_url : option str; lg_upstream_type : option str; lg_timeout_secs : option Z;
  lg_weight : option Z; lg_priority : option Z; lg_max_concurrent : option Z; lg_enabled : option bool;
  lg_version_endpoint : option str; lg_version_poll_interval_secs : option Z; lg_query_mode : option str;
  lg_table : option str; lg_embedding_column : option str; lg_content_column : option str;
  lg_metadata_columns : option (list str); lg_distance_metric : option str; lg_dimensions : option Z;
  lg_index : option str; lg_search_fields : option (list str); lg_return_fields : option (list str);
  lg_api_key : option str
}.
Record EmbedderResource := {
  er_provider : option str; er_model : option str; er_api_key : option str; er_base_url : option str;
  er_batch_size : option Z
}.
Record ContextEmbedder := {
  ce_resource_ref : str; ce_provider : option str; ce_model : option str; ce_api_key : option str;
  ce_base_url : option str; ce_batch_size : option Z
}.
Record ContextCacheSettings := {
  cx_fresh_secs : option Z; cx_stale_secs : option Z; cx_max_entries : option Z; cx_max_memory_mb : option Z;
  cx_eviction_policy : option str
}.
Record NamedContext := {
  nc_default : option bool; nc_description : option str; nc_upstreams : list ContextLeg;
  nc_embedder : option ContextEmbedder; nc_cache : ContextCacheSettings; nc_scope : ProxyScopeConfig;
  nc_cascade : CascadeConfig; nc_federated : FederatedSettings
}.

Record ResolvedLeg := { rg_resource_id : str; rg_endpoint : EndpointConfig }.
Record ResolvedEmbedder := {
  re_resource_id : str; re_provider : option str; re_model : option str; re_api_key : option str;
  re_base_url : option str; re_batch_size : option Z
}.
Record ResolvedCtx := {
  rc_id : str; rc_is_default : bool; rc_description : option str; rc_legs : list ResolvedLeg;
  rc_embedder : option ResolvedEmbedder; rc_cache : ContextCacheSettings; rc_scope : ProxyScopeConfig;
  rc_cascade : CascadeConfig; rc_federated : FederatedSettings
}.

(** The endpoint of a leg: its own fields where set, the resource's otherwise. *)
Definition leg_endpoint (resource_id : str) (r : UpstreamResource) (l : ContextLeg) (url : str) : EndpointConfig :=
  {| ep_id := resource_id; ep_url := url;
     ep_timeout_secs := or_else (lg_timeout_secs l) (ur_timeout_secs r);
     ep_weight := or_else (lg_weight l) (ur_weight r);
     ep_priority := or_else (lg_priority l) (ur_priority r);
     ep_max_concurrent := or_else (lg_max_concurrent l) (ur_max_concurrent r);
     ep_enabled := or_else (lg_enabled l) (ur_enabled r);
     ep_version_endpoint := or_else (lg_version_endpoint l) (ur_version_endpoint r);
     ep_version_poll_interval_secs := or_else (lg_version_poll_interval_secs l) (ur_version_poll_interval_secs r);
     ep_upstream_type := or_else (lg_upstream_type l) (ur_upstream_type r);
     ep_query_mode := or_else (lg_query_mode l) (ur_query_mode r);
     ep_table := or_else (lg_table l) (ur_table r);
     ep_embedding_column := or_else (lg_embedding_column l) (ur_embedding_column r);
     ep_content_column := or_else (lg_content_column l) (ur_content_column r);
     ep_metadata_columns := default (ur_metadata_columns r) (lg_metadata_columns l);
     ep_distance_metric := or_else (lg_distance_metric l) (ur_distance_metric r);
     ep_dimensions := or_else (lg_dimensions l) (ur_dimensions r);
     ep_index := or_else (lg_index l) (ur_index r);
     ep_search_fields := default (ur_search_fields r) (lg_search_fields l);
     ep_return_fields := default (ur_return_fields r) (lg_return_fields l);
     ep_api_key := or_else (lg_api_key l) (ur_api_key r) |}.

Definition resolve_leg (resource_id : str) (r : UpstreamResource) (l : ContextLeg) : result ResolvedLeg ConfigError :=
  match or_else (lg_url l) (ur_url r) with
  | None => Err (MissingUrl resource_id)
  | Some url =>
      let endpoint := leg_endpoint resource_id r l url in
      match endpoint_validate endpoint with
      | Err e => Err e
      | Ok _ => Ok {| rg_resource_id := resource_id; rg_endpoint := endpoint |}
      end
  end.

Definition resolve_embedder (resource_id : str) (r : EmbedderResource) (a : ContextEmbedder) : ResolvedEmbedder :=
  {| re_resource_id := resource_id; re_provider := or_else (ce_provider a) (er_provider r);
     re_model := or_else (ce_model a) (er_model r); re_api_key := or_else (ce_api_key a) (er_api_key r);
     re_base_url := or_else (ce_base_url a) (er_base_url r);
     re_batch_size := or_else (ce_batch_size a) (er_batch_size r) |}.

Section Tables.
Context {O : MapOrder} `{U : UnicodeCase}.
Variables (upstreams : gmap str UpstreamResource) (embedders : gmap str EmbedderResource).

Definition resolve_context_leg (id : str) (l : ContextLeg) : result ResolvedLeg ConfigError :=
  match upstreams !! lg_resource_ref l with
  | None => Err (UnknownUpstream id (lg_resource_ref l))
  | Some r => resolve_leg (lg_resource_ref l) r l
  end.
Definition resolve_attached (id : str) (a : option ContextEmbedder) : result (option ResolvedEmbedder) ConfigError :=
  match a with
  | None => Ok None
  | Some a => match embedders !! ce_resource_ref a with
              | None => Err (UnknownEmbedder id (ce_resource_ref a))
              | Some r => Ok (Some (resolve_embedder (ce_resource_ref a) r a))
              end
  end.
Definition is_default (c : NamedContext) : bool := default false (nc_default c).

(** The body of the loop over the contexts. *)
Definition resolve_named_context (kc : str * NamedContext) : result ResolvedCtx ConfigError :=
  match try_each (resolve_context_leg kc.1) (nc_upstreams kc.2) with
  | Err e => Err e
  | Ok legs =>
      match resolve_attached kc.1 (nc_embedder kc.2) with
      | Err e => Err e
      | Ok embedder =>
          Ok {| rc_id := kc.1; rc_is_default := is_default kc.2; rc_description := nc_description kc.2;
                rc_legs := legs; rc_embedder := embedder; rc_cache := nc_cache kc.2; rc_scope := nc_scope kc.2;
                rc_cascade := nc_cascade kc.2; rc_federated := nc_federated kc.2 |}
      end
  end.
Definition resolve_all_contexts (contexts : gmap str NamedContext) : result (list ResolvedCtx) ConfigError :=
  try_each resolve_named_context (map_order contexts).

(** ** Validation of the tables *)

Definition url_ok (url : str) : bool :=
  starts "http://" url || starts "https://" url || starts "postgres://" url || starts "postgresql://" url.
Definition validate_url (id url : str) : checked := reject (negb (url_ok url)) (BadUrl id) (Ok tt).
Definition timeout_bad (t : Z) : bool := (t =? 0) || (300 <? t).

(** The stand-in endpoint a typed resource is checked with. *)
Definition resource_stub (name : str) (r : UpstreamResource) (ut : str) : EndpointConfig :=
  {| ep_id := name; ep_url := default (lit "http://placeholder") (ur_url r); ep_timeout_secs := None; ep_weight := None;
     ep_priority := None; ep_max_concurrent := None; ep_enabled := None; ep_version_endpoint := None;
     ep_version_poll_interval_secs := None; ep_upstream_type := Some ut; ep_query_mode := ur_query_mode r;
     ep_table := ur_table r; ep_embedding_column := None; ep_content_column := None; ep_metadata_columns := [];
     ep_distance_metric := ur_distance_metric r; ep_dimensions := None; ep_index := None; ep_search_fields := [];
     ep_return_fields := []; ep_api_key := None |}.
Definition check_resource (nr : str * UpstreamResource) : checked :=
  also (match ur_url nr.2 with Some url => validate_url nr.1 url | None => Ok tt end)
       (match ur_upstream_type nr.2 with Some ut => endpoint_validate (resource_stub nr.1 nr.2 ut) | None => Ok tt end).
Definition check_embedder (ne : str * EmbedderResource) : checked :=
  reject (some_and (fun p => negb (one_of ["onnx"; "openai"; "voyage"; "cohere"; "google"; "ollama"] p) &&
                             match p with [] => true | _ => false end) (er_provider ne.2)) (EmptyProvider ne.1) (Ok tt).
Definition check_leg (ctx : str) (l : ResolvedLeg) : checked :=
  also (validate_url (rg_resource_id l) (ep_url (rg_endpoint l)))
       (reject (some_and timeout_bad (ep_timeout_secs (rg_endpoint l))) (BadLegTimeout ctx (rg_resource_id l)) (Ok tt)).
Definition check_scope (wrap_ : ScopeConfigError -> ConfigError) (c : ProxyScopeConfig) : checked :=
  match scope_config_validate c with Ok _ => Ok tt | Err e => Err (wrap_ e) end.
Definition check_resolved (c : ResolvedCtx) : checked :=
  reject (match rc_legs c with [] => true | _ => false end) (NoLegs (rc_id c)) (
  also (each (check_leg (rc_id c)) (rc_legs c)) (
  also (check_scope (BadContextScope (rc_id c)) (rc_scope c)) (
  reject (some_and is_zero (cx_max_entries (rc_cache c))) (BadContextMaxEntries (rc_id c)) (Ok tt)))).
Definition check_agent (contexts : gmap str NamedContext) (a : AgentConfig) : checked :=
  let known c := match contexts !! c with Some _ => true | None => false end in
  reject (match ac_id a with [] => true | _ => false end) EmptyAgentId (
  also (each (fun c => reject (negb (known c)) (UnknownAllowedContext (ac_id a) c) (Ok tt)) (ac_allowed_contexts a)) (
  match ac_default_context a with
  | Some dc => reject (negb (known dc)) (UnknownDefaultContext (ac_id a) dc) (Ok tt)
  | None => Ok tt
  end)).

Definition defaults (l : list (str * NamedContext)) : list (str * NamedContext) :=
  filter (fun kc => is_default kc.2 = true) l.
Definition validate_context_rooted (contexts : gmap str NamedContext) (agents : list AgentConfig) : checked :=
  match map_order contexts with
  | [] => Ok tt
  | _ =>
      reject (match map_order upstreams with [] => true | _ => false end) NoUpstreams (
      let default_count := zlen (defaults (map_order contexts)) in
      reject (default_count =? 0) NoDefault (
      reject (1 <? default_count) TwoDefaults (
      also (each check_resource (map_order upstreams)) (
      also (each check_embedder (map_order embedders)) (
      match resolve_all_contexts contexts with
      | Err e => Err e
      | Ok resolved => also (each check_resolved resolved) (each (check_agent contexts) agents)
      end)))))
  end.
End Tables.

(** ** The settings the proxy runs with *)

Definition put_upstreams (px : ProxySettings) (us : list EndpointConfig) (url : option str) : ProxySettings :=
  {| px_listen := px_listen px; px_http_listen := px_http_listen px; px_fresh_duration_secs := px_fresh_duration_secs px;
     px_stale_duration_secs := px_stale_duration_secs px; px_max_entries := px_max_entries px; px_upstream_url := url;
     px_upstream_timeout_secs := px_upstream_timeout_secs px; px_ttl_jitter_percent := px_ttl_jitter_percent px;
     px_refresh_interval_secs := px_refresh_interval_secs px; px_scope := px_scope px; px_cache := px_cache px;
     px_distill := px_distill px; px_api_key := px_api_key px; px_rate_limit := px_rate_limit px; px_retry := px_retry px;
     px_upstreams := us; px_federated := px_federated px; px_security := px_security px; px_cascade := px_cascade px;
     px_pool := px_pool px; px_circuit_breaker := px_circuit_breaker px; px_agents := px_agents px; px_cdc := px_cdc px;
     px_peer := px_peer px; px_socket_tuning := px_socket_tuning px; px_shutdown_timeout_secs := px_shutdown_timeout_secs px;
     px_max_global_connections := px_max_global_connections px; px_web_ui := px_web_ui px |}.
(** Scope, cascade, federation, durations and limits of a context. *)
Definition with_policy (px : ProxySettings) (c : ResolvedCtx) : ProxySettings :=
  let k := rc_cache c in
  {| px_listen := px_listen px; px_http_listen := px_http_listen px;
     px_fresh_duration_secs := or_else (cx_fresh_secs k) (px_fresh_duration_secs px);
     px_stale_duration_secs := or_else (cx_stale_secs k) (px_stale_duration_secs px);
     px_max_entries := or_else (cx_max_entries k) (px_max_entries px);
     px_upstream_url := px_upstream_url px;
     px_upstream_timeout_secs := px_upstream_timeout_secs px; px_ttl_jitter_percent := px_ttl_jitter_percent px;
     px_refresh_interval_secs := px_refresh_interval_secs px; px_scope := rc_scope c;
     px_cache := {| cs_max_memory_mb := or_else (cx_max_memory_mb k) (cs_max_memory_mb (px_cache px));
                    cs_max_entry_size_kb := cs_max_entry_size_kb (px_cache px);
                    cs_eviction_policy := or_else (cx_eviction_policy k) (cs_eviction_policy (px_cache px));
                    cs_error_ttl_5xx_secs := cs_error_ttl_5xx_secs (px_cache px);
                    cs_error_ttl_timeout_secs := cs_error_ttl_timeout_secs (px_cache px);
                    cs_error_ttl_connection_secs := cs_error_ttl_connection_secs (px_cache px);
                    cs_normalized_matching := cs_normalized_matching (px_cache px);
                    cs_per_upstream := cs_per_upstream (px_cache px); cs_semantic := cs_semantic (px_cache px) |};
     px_distill := px_distill px; px_api_key := px_api_key px; px_rate_limit := px_rate_limit px; px_retry := px_retry px;
     px_upstreams := px_upstreams px; px_federated := rc_federated c; px_security := px_security px;
     px_cascade := rc_cascade c;
     px_pool := px_pool px; px_circuit_breaker := px_circuit_breaker px; px_agents := px_agents px; px_cdc := px_cdc px;
     px_peer := px_peer px; px_socket_tuning := px_socket_tuning px; px_shutdown_timeout_secs := px_shutdown_timeout_secs px;
     px_max_global_connections := px_max_global_connections px; px_web_ui := px_web_ui px |}.

(** One endpoint per resource, the first one met. *)
Fixpoint first_seen (seen : gset str) (ls : list ResolvedLeg) : list EndpointConfig :=
  match ls with
  | [] => []
  | l :: ls => if decide (rg_resource_id l ∈ seen) then first_seen seen ls
               else rg_endpoint l :: first_seen ({[rg_resource_id l]} ∪ seen) ls
  end.
Definition policy_context (resolved : list ResolvedCtx) : option ResolvedCtx :=
  or_else (List.find rc_is_default resolved) (head resolved).
Definition project_to_proxy (base : ProxySettings) (resolved : list ResolvedCtx) : result ProxySettings ConfigError :=
  match policy_context resolved with
  | None => Err NoResolvedContexts
  | Some c =>
      let out := with_policy base c in
      match first_seen ∅ (concat (map rc_legs resolved)) with
      | [] => Ok out
      | us => Ok (put_upstreams out us None)
      end
  end.

Definition put_listen (px : ProxySettings) (l h : option str) : ProxySettings :=
  {| px_listen := l; px_http_listen := h; px_fresh_duration_secs := px_fresh_duration_secs px;
     px_stale_duration_secs := px_stale_duration_secs px; px_max_entries := px_max_entries px;
     px_upstream_url := px_upstream_url px;
     px_upstream_timeout_secs := px_upstream_timeout_secs px; px_ttl_jitter_percent := px_ttl_jitter_percent px;
     px_refresh_interval_secs := px_refresh_interval_secs px; px_scope := px_scope px; px_cache := px_cache px;
     px_distill := px_distill px; px_api_key := px_api_key px; px_rate_limit := px_rate_limit px; px_retry := px_retry px;
     px_upstreams := px_upstreams px; px_federated := px_federated px; px_security := px_security px;
     px_cascade := px_cascade px;
     px_pool := px_pool px; px_circuit_breaker := px_circuit_breaker px; px_agents := px_agents px; px_cdc := px_cdc px;
     px_peer := px_peer px; px_socket_tuning := px_socket_tuning px; px_shutdown_timeout_secs := px_shutdown_timeout_secs px;
     px_max_global_connections := px_max_global_connections px; px_web_ui := px_web_ui px |}.
Definition put_agents (px : ProxySettings) (a : list AgentConfig) : ProxySettings :=
  {| px_listen := px_listen px; px_http_listen := px_http_listen px; px_fresh_duration_secs := px_fresh_duration_secs px;
     px_stale_duration_secs := px_stale_duration_secs px; px_max_entries := px_max_entries px;
     px_upstream_url := px_upstream_url px;
     px_upstream_timeout_secs := px_upstream_timeout_secs px; px_ttl_jitter_percent := px_ttl_jitter_percent px;
     px_refresh_interval_secs := px_refresh_interval_secs px; px_scope := px_scope px; px_cache := px_cache px;
     px_distill := px_distill px; px_api_key := px_api_key px; px_rate_limit := px_rate_limit px; px_retry := px_retry px;
     px_upstreams := px_upstreams px; px_federated := px_federated px; px_security := px_security px;
     px_cascade := px_cascade px;
     px_pool := px_pool px; px_circuit_breaker := px_circuit_breaker px; px_agents := a; px_cdc := px_cdc px;
     px_peer := px_peer px; px_socket_tuning := px_socket_tuning px; px_shutdown_timeout_secs := px_shutdown_timeout_secs px;
     px_max_global_connections := px_max_global_connections px; px_web_ui := px_web_ui px |}.

(** The deprecated [upstream_url] as an endpoint named [default]. *)
Definition legacy_endpoint (url : str) (timeout : option Z) : EndpointConfig :=
  {| ep_id := lit "default"; ep_url := url; ep_timeout_secs := timeout; ep_weight := None; ep_priority := None;
     ep_max_concurrent := None; ep_enabled := None; ep_version_endpoint := None;
     ep_version_poll_interval_secs := None; ep_upstream_type := None; ep_query_mode := None; ep_table := None;
     ep_embedding_column := None; ep_content_column := None; ep_metadata_columns := []; ep_distance_metric := None;
     ep_dimensions := None; ep_index := None; ep_search_fields := []; ep_return_fields := []; ep_api_key := None |}.
Definition normalize_upstreams (px : ProxySettings) : bool * ProxySettings :=
  match px_upstreams px, px_upstream_url px with
  | [], Some url =>
      (true, put_upstreams px [legacy_endpoint url (px_upstream_timeout_secs px)] (px_upstream_url px))
  | _, _ => (false, px)
  end.

(** ** Defaults: nothing set *)
Definition FederatedSettings_default : FederatedSettings :=
  {| fd_enabled := None; fd_min_local_results := None; fd_min_local_confidence := None; fd_fallback_on_empty := None;
     fd_fallback_on_low_confidence := None; fd_merge_mode := None; fd_max_merged_results := None |}.
Definition ProxyScopeConfig_default : ProxyScopeConfig :=
  {| weighted_phrases := []; cfg_seeds := []; cfg_mode := None; cfg_min_seed_similarity := None; cfg_seed_weight := None;
     cfg_query_prefix := None; cfg_lexical_weight := None; cfg_embed_band := None |}.
Definition RateLimitSettings_default : RateLimitSettings :=
  {| rl_enabled := None; rl_requests_per_second := None; rl_burst_size := None |}.
Definition CacheSettings_default : CacheSettings :=
  {| cs_max_memory_mb := None; cs_max_entry_size_kb := None; cs_eviction_policy := None; cs_error_ttl_5xx_secs := None;
     cs_error_ttl_timeout_secs := None; cs_error_ttl_connection_secs := None; cs_normalized_matching := None;
     cs_per_upstream := {| pu_enabled := None; pu_max_entries_per_upstream := None |};
     cs_semantic := {| sm_enabled := None; sm_similarity_threshold := None; sm_max_entries := None;
                       sm_allow_unsafe_threshold := None |} |}.
Definition ProxySettings_default : ProxySettings :=
  {| px_listen := None; px_http_listen := None; px_fresh_duration_secs := None; px_stale_duration_secs := None;
     px_max_entries := None; px_upstream_url := None; px_upstream_timeout_secs := None; px_ttl_jitter_percent := None;
     px_refresh_interval_secs := None; px_scope := ProxyScopeConfig_default; px_cache := CacheSettings_default;
     px_distill := {| ds_output_dir := None; ds_post_process_cmd := None; ds_format := None; ds_include_stale := None |};
     px_api_key := None; px_rate_limit := RateLimitSettings_default;
     px_retry := {| rt_enabled := None; rt_max_retries := None; rt_initial_delay_ms := None; rt_max_delay_ms := None;
                    rt_backoff_multiplier := None; rt_on_network_error := None; rt_on_timeout := None;
                    rt_on_server_error := None; rt_on_rate_limited := None |};
     px_upstreams := []; px_federated := FederatedSettings_default;
     px_security := {| sec_api_key := None; sec_rate_limit := RateLimitSettings_default;
                       sec_advanced := {| as_enabled := None; as_signature_algorithm := None; as_tls_pinning := None;
                                          as_replay_detection := None; as_replay_window_seconds := None |} |};
     px_cascade := CascadeConfig_default; px_pool := ConnectionPoolConfig_default;
     px_circuit_breaker := CircuitSettings_default; px_agents := [];
     px_cdc := {| cd_enabled := None; cd_buffer_size := None |};
     px_peer := {| pp_enabled := None; pp_node_id := None; pp_peers := []; pp_reconnect_interval_ms := None;
                   pp_fetch_wait_timeout_ms := None; pp_snapshot_on_join := None; pp_ready_threshold := None;
                   pp_snapshot_batch_size := None; pp_shared_secret := None |};
     px_socket_tuning := SocketSettings_default; px_shutdown_timeout_secs := None; px_max_global_connections := None;
     px_web_ui := {| wu_enabled := false |} |}.

(** ** The other sections of the file *)

Record PackageEntry := { pk_git : str; pk_tag : option str }.
Record SearchSettings := {
  se_use_hybrid : option bool; se_default_limit : option Z; se_auto_index_on_install : option bool;
  se_federated : FederatedSettings
}.
#[export] Instance search_merge : Mergeable SearchSettings := fun self base =>
  {| se_use_hybrid := merge (se_use_hybrid self) (se_use_hybrid base);
     se_default_limit := merge (se_default_limit self) (se_default_limit base);
     se_auto_index_on_install := merge (se_auto_index_on_install self) (se_auto_index_on_install base);
     se_federated := merge (se_federated self) (se_federated base) |}.
#[export] Instance search_merge_laws : MergeLaws SearchSettings.
Proof. merge_fields search_merge. Qed.
Record EmbeddingSettings := {
  eb_model_path : option str; eb_tokenizer_path : option str; eb_batch_size : option Z; eb_provider : option str;
  eb_api_key : option str; eb_base_url : option str
}.
#[export] Instance embedding_merge : Mergeable EmbeddingSettings := fun self base =>
  {| eb_model_path := merge (eb_model_path self) (eb_model_path base);
     eb_tokenizer_path := merge (eb_tokenizer_path self) (eb_tokenizer_path base);
     eb_batch_size := merge (eb_batch_size self) (eb_batch_size base);
     eb_provider := merge (eb_provider self) (eb_provider base);
     eb_api_key := merge (eb_api_key self) (eb_api_key base);
     eb_base_url := merge (eb_base_url self) (eb_base_url base) |}.
#[export] Instance embedding_merge_laws : MergeLaws EmbeddingSettings.
Proof. merge_fields embedding_merge. Qed.
Record WebSettings := { wb_auto_index : option bool; wb_content_dir : option str }.
#[export] Instance web_merge : Mergeable WebSettings := fun self base =>
  {| wb_auto_index := merge (wb_auto_index self) (wb_auto_index base);
     wb_content_dir := merge (wb_content_dir self) (wb_content_dir base) |}.
#[export] Instance web_merge_laws : MergeLaws WebSettings.
Proof. merge_fields web_merge. Qed.
Record WarmSettings := { wm_paths : option (list str); wm_warm_interval : option Z; wm_warm_limit : option Z }.
#[export] Instance warm_merge : Mergeable WarmSettings := fun self base =>
  {| wm_paths := merge (wm_paths self) (wm_paths base);
     wm_warm_interval := merge (wm_warm_interval self) (wm_warm_interval base);
     wm_warm_limit := merge (wm_warm_limit self) (wm_warm_limit base) |}.
#[export] Instance warm_merge_laws : MergeLaws WarmSettings.
Proof. merge_fields warm_merge. Qed.

(** [merged.extend(..)]: the entries of both, the local ones first. *)
Definition extend_merge {V} : Mergeable (gmap str V) := fun self base => self ∪ base.
Lemma extend_merge_laws V : @MergeLaws (gmap str V) extend_merge.
Proof. split; unfold merge, extend_merge; intros; [by rewrite (assoc_L (∪))|by rewrite (idemp_L (∪))]. Qed.
(** A table that is not empty replaces the other. *)
Definition replace_merge {V} : Mergeable (gmap str V) := fun self base => if decide (self = ∅) then base else self.
Lemma replace_merge_laws V : @MergeLaws (gmap str V) replace_merge.
Proof. split; unfold merge, replace_merge; intros; repeat case_decide; naive_solver. Qed.

(** ** The file *)

Record ConfigFile := {
  cf_llm : option Value; cf_packages : gmap str PackageEntry; cf_registries : gmap str str;
  cf_search : SearchSettings; cf_embedding : EmbeddingSettings; cf_web : WebSettings; cf_proxy : ProxySettings;
  cf_context : WarmSettings; cf_server : ServerSettings; cf_upstreams : gmap str UpstreamResource;
  cf_embedders : gmap str EmbedderResource; cf_contexts : gmap str NamedContext; cf_agents : list AgentConfig
}.
(** [default_global] and [default_local]. *)
Definition ConfigFile_default : ConfigFile :=
  {| cf_llm := None; cf_packages := ∅; cf_registries := ∅;
     cf_search := {| se_use_hybrid := None; se_default_limit := None; se_auto_index_on_install := None;
                     se_federated := FederatedSettings_default |};
     cf_embedding := {| eb_model_path := None; eb_tokenizer_path := None; eb_batch_size := None; eb_provider := None;
                        eb_api_key := None; eb_base_url := None |};
     cf_web := {| wb_auto_index := None; wb_content_dir := None |}; cf_proxy := ProxySettings_default;
     cf_context := {| wm_paths := None; wm_warm_interval := None; wm_warm_limit := None |};
     cf_server := {| sv_listen := None; sv_http_listen := None |};
     cf_upstreams := ∅; cf_embedders := ∅; cf_contexts := ∅; cf_agents := [] |}.
(** [global.merge_with(local)] is [merge local global]. *)
#[export] Instance config_merge : Mergeable ConfigFile := fun other self =>
  {| cf_llm := None;
     cf_packages := replace_merge (cf_packages other) (cf_packages self);
     cf_registries := extend_merge (cf_registries other) (cf_registries self);
     cf_search := merge (cf_search other) (cf_search self);
     cf_embedding := merge (cf_embedding other) (cf_embedding self);
     cf_web := merge (cf_web other) (cf_web self);
     cf_proxy := merge (cf_proxy other) (cf_proxy self);
     cf_context := merge (cf_context other) (cf_context self);
     cf_server := merge (cf_server other) (cf_server self);
     cf_upstreams := extend_merge (cf_upstreams other) (cf_upstreams self);
     cf_embedders := extend_merge (cf_embedders other) (cf_embedders self);
     cf_contexts := replace_merge (cf_contexts other) (cf_contexts self);
     cf_agents := merge (cf_agents other) (cf_agents self) |}.

Section File.
Context {O : MapOrder} `{U : UnicodeCase}.

(** The body of the loop over [proxy.upstreams]. *)
Definition check_endpoint (u : EndpointConfig) : checked :=
  also (endpoint_validate u) (
  reject (negb (url_ok (ep_url u))) (BadUrl (ep_id u)) (
  reject (some_and timeout_bad (ep_timeout_secs u)) (BadTimeout (ep_id u)) (Ok tt))).
Definition agents_for_ctx (c : ConfigFile) : list AgentConfig := or_list (cf_agents c) (px_agents (cf_proxy c)).

Definition config_validate (c : ConfigFile) : checked :=
  let px := cf_proxy c in
  reject (match cf_llm c with Some _ => true | None => false end) LlmRemoved (
  also (each check_endpoint (px_upstreams px)) (
  reject (some_and (fun u => negb (starts "http://" u) && negb (starts "https://" u)) (px_upstream_url px)) BadUpstreamUrl (
  reject (some_and timeout_bad (px_upstream_timeout_secs px)) BadUpstreamTimeout (
  reject (some_and is_zero (px_max_entries px)) BadMaxEntries (
  reject (is_zero (max_connections (px_pool px)) || (10000 <? max_connections (px_pool px))) BadMaxConnections (
  reject (65535 <? so_listen_backlog (px_socket_tuning px)) BadListenBacklog (
  reject (some_and is_zero (px_fresh_duration_secs px)) BadFreshDuration (
  reject (some_and is_zero (px_stale_duration_secs px)) BadStaleDuration (
  reject (some_and is_zero (px_refresh_interval_secs px)) BadRefreshInterval (
  also (distill_validate (px_distill px)) (
  also (federated_validate (px_federated px)) (
  also (check_scope BadScope (px_scope px)) (
  also (rate_limit_validate (px_rate_limit px)) (
  also (retry_settings_validate (px_retry px)) (
  also (cache_validate (px_cache px)) (
  also (security_validate (px_security px)) (
  also (circuit_settings_validate (px_circuit_breaker px)) (
  validate_context_rooted (cf_upstreams c) (cf_embedders c) (cf_contexts c) (agents_for_ctx c))))))))))))))))))).

Definition is_context_rooted (c : ConfigFile) : bool := negb (bool_decide (cf_contexts c = ∅)).
Definition effective_scope_seeds (c : ConfigFile) : list str :=
  match List.find (fun kc => match nc_default kc.2 with Some b => b | None => false end) (map_order (cf_contexts c)) with
  | Some kc => cfg_phrase_texts (nc_scope kc.2)
  | None => cfg_phrase_texts (px_scope (cf_proxy c))
  end.
Definition resolve_contexts (c : ConfigFile) : result (list ResolvedCtx) ConfigError :=
  resolve_all_contexts (cf_upstreams c) (cf_embedders c) (cf_contexts c).
Definition base_proxy (c : ConfigFile) : ProxySettings :=
  let base := (normalize_upstreams (cf_proxy c)).2 in
  put_listen base (or_else (sv_listen (cf_server c)) (px_listen base))
                  (or_else (sv_http_listen (cf_server c)) (px_http_listen base)).
Definition effective_proxy (c : ConfigFile) : result ProxySettings ConfigError :=
  match resolve_contexts c with
  | Err e => Err e
  | Ok resolved =>
      match project_to_proxy (base_proxy c) resolved with
      | Err e => Err e
      | Ok projected => Ok (match cf_agents c with [] => projected | a => put_agents projected a end)
      end
  end.

(** ** Loading

    [read path] is [None] when the path does not exist; [parse] is the TOML reader. *)
Inductive LoadError (IoE TomlE : Type) :=
| LoadIo (e : IoE) | LoadToml (e : TomlE) | ConfigValidation (e : ConfigError) | NotInitialized.
#[global] Arguments LoadIo {_ _}. #[global] Arguments LoadToml {_ _}.
#[global] Arguments ConfigValidation {_ _}. #[global] Arguments NotInitialized {_ _}.
Record Config := { cfg_config : ConfigFile; cfg_local_root : option str }.

Section Load.
Context {IoE TomlE : Type} (read : str -> option (result str IoE)) (parse : str -> result ConfigFile TomlE).

Definition load_file (path : str) : result (option ConfigFile) (LoadError IoE TomlE) :=
  match read path with
  | None => Ok None
  | Some (Err e) => Err (LoadIo e)
  | Some (Ok content) => match parse content with Err e => Err (LoadToml e) | Ok c => Ok (Some c) end
  end.
Definition merged_of (global local : option ConfigFile) : ConfigFile :=
  match global, local with
  | Some g, Some l => merge l g
  | Some g, None => g
  | None, Some l => l
  | None, None => ConfigFile_default
  end.
Definition Config_load (global_path local_path : str) (local_root : result str (LoadError IoE TomlE))
    : result Config (LoadError IoE TomlE) :=
  match load_file global_path with
  | Err e => Err e
  | Ok global =>
      match load_file local_path with
      | Err e => Err e
      | Ok local =>
          let merged := merged_of global local in
          match config_validate merged with
          | Err e => Err (ConfigValidation e)
          | Ok _ =>
              match local with
              | None => Ok {| cfg_config := merged; cfg_local_root := None |}
              | Some _ => match local_root with
                          | Err e => Err e
                          | Ok r => Ok {| cfg_config := merged; cfg_local_root := Some r |}
                          end
              end
          end
      end
  end.
End Load.
End File.

(** ** Environment overrides

    [to_uppercase] is [str::to_uppercase]. *)
Class UnicodeUpper := to_uppercase : str -> str.

(** [rsplitn(2, ':')]: what follows the last colon, and what precedes it. *)
Fixpoint rsplit_colon (s : str) : str * option str :=
  match s with
  | [] => ([], None)
  | c :: s => match rsplit_colon s with
              | (tail, Some h) => (tail, Some (c :: h))
              | (tail, None) => if c =? 58 then (tail, Some []) else (c :: tail, None)
              end
  end.
(** [str::parse::<usize>] *)
Fixpoint parse_digits (acc : Z) (s : str) : option Z :=
  match s with
  | [] => Some acc
  | c :: s => if is_ascii_digit c then
                let n := 10 * acc + (c - 48) in
                if usize_max <? n then None else parse_digits n s
              else None
  end.
Definition parse_usize (s : str) : option Z :=
  match s with
  | [] => None
  | 43 :: [] => None
  | 43 :: s => parse_digits 0 s
  | s => parse_digits 0 s
  end.

Section Env.
Context `{Up : UnicodeUpper} (env : str -> option str).

Definition listen_override (current : option str) : option str :=
  let host := env (lit "CONPROXY_HOST") in
  let port := env (lit "CONPROXY_PORT") in
  match host, port with
  | None, None => None
  | _, _ =>
      let '(cur_port, cur_host) := rsplit_colon (default (lit "127.0.0.1:3000") current) in
      Some (default (default (lit "127.0.0.1") cur_host) host ++ lit ":" ++ default cur_port port)
  end.
Definition max_entries_override : option Z :=
  match env (lit "CONPROXY_CACHE_MAX_ENTRIES") with Some v => parse_usize v | None => None end.
Definition upstream_key (id : str) : str :=
  lit "CONPROXY_UPSTREAM_" ++ map (fun c => if c =? 45 then 95 else c) (to_uppercase id) ++ lit "_URL".
Definition override_url (e : EndpointConfig) : Z * EndpointConfig :=
  match env (upstream_key (ep_id e)) with
  | None => (0, e)
  | Some url =>
      (1, {| ep_id := ep_id e; ep_url := url; ep_timeout_secs := ep_timeout_secs e; ep_weight := ep_weight e;
             ep_priority := ep_priority e; ep_max_concurrent := ep_max_concurrent e; ep_enabled := ep_enabled e;
             ep_version_endpoint := ep_version_endpoint e;
             ep_version_poll_interval_secs := ep_version_poll_interval_secs e; ep_upstream_type := ep_upstream_type e;
             ep_query_mode := ep_query_mode e; ep_table := ep_table e; ep_embedding_column := ep_embedding_column e;
             ep_content_column := ep_content_column e; ep_metadata_columns := ep_metadata_columns e;
             ep_distance_metric := ep_distance_metric e; ep_dimensions := ep_dimensions e; ep_index := ep_index e;
             ep_search_fields := ep_search_fields e; ep_return_fields := ep_return_fields e; ep_api_key := ep_api_key e |})
  end.
Definition was_set {A} (o : option A) : Z := match o with Some _ => 1 | None => 0 end.

Definition apply_env_overrides (px : ProxySettings) : Z * ProxySettings :=
  let listen := listen_override (px_listen px) in
  let key := env (lit "CONPROXY_API_KEY") in
  let entries := max_entries_override in
  let us := map override_url (px_upstreams px) in
  let count := foldl (fun n (u : Z * EndpointConfig) => sat_add 64 n u.1) (was_set listen + was_set key + was_set entries) us in
  (count,
   {| px_listen := or_else listen (px_listen px); px_http_listen := px_http_listen px;
      px_fresh_duration_secs := px_fresh_duration_secs px; px_stale_duration_secs := px_stale_duration_secs px;
      px_max_entries := or_else entries (px_max_entries px); px_upstream_url := px_upstream_url px;
      px_upstream_timeout_secs := px_upstream_timeout_secs px; px_ttl_jitter_percent := px_ttl_jitter_percent px;
      px_refresh_interval_secs := px_refresh_interval_secs px; px_scope := px_scope px; px_cache := px_cache px;
      px_distill := px_distill px; px_api_key := or_else key (px_api_key px); px_rate_limit := px_rate_limit px;
      px_retry := px_retry px; px_upstreams := map snd us; px_federated := px_federated px;
      px_security := {| sec_api_key := or_else key (sec_api_key (px_security px));
                        sec_rate_limit := sec_rate_limit (px_security px); sec_advanced := sec_advanced (px_security px) |};
      px_cascade := px_cascade px; px_pool := px_pool px; px_circuit_breaker := px_circuit_breaker px;
      px_agents := px_agents px; px_cdc := px_cdc px; px_peer := px_peer px; px_socket_tuning := px_socket_tuning px;
      px_shutdown_timeout_secs := px_shutdown_timeout_secs px; px_max_global_connections := px_max_global_connections px;
      px_web_ui := px_web_ui px |}).
End Env.

(** ** Accessors of the proxy section *)

Definition px_listen_addr (px : ProxySettings) : str := default (lit "127.0.0.1:9999") (px_listen px).
Definition px_cdc_enabled (px : ProxySettings) : bool :=
  default false (cd_enabled (px_cdc px)) || default false (pp_enabled (px_peer px)).
(** [scope_seeds_mut]: the phrases become bare seeds; the new configuration and its seeds. *)
Definition scope_seeds_mut (c : ProxyScopeConfig) : ProxyScopeConfig :=
  match weighted_phrases c with
  | [] => c
  | ps => {| weighted_phrases := []; cfg_seeds := match cfg_seeds c with [] => map wp_text ps | s => s end;
             cfg_mode := cfg_mode c; cfg_min_seed_similarity := cfg_min_seed_similarity c;
             cfg_seed_weight := cfg_seed_weight c; cfg_query_prefix := cfg_query_prefix c;
             cfg_lexical_weight := cfg_lexical_weight c; cfg_embed_band := cfg_embed_band c |}
  end.
