(* ===== verification/ConfigProps.v ===== *)
(** * Properties of the configuration

    Layers of files, what validation guarantees of the settings the proxy runs with,
    what depends on the order of the tables, and environment references. *)

From Stdlib Require Import SpecFloat.
From S2P Require Import Prelude Floats Text Types Circuit Scope Retry ConnPool Cascade Auth Settings Config.
Open Scope Z_scope.
Open Scope conproxy_scope.

(** ** Orders *)

Lemma map_order_empty {O : MapOrder} {L : MapOrderLaws O} {V} (m : gmap str V) : map_order m = [] <-> m = ∅.
Proof.
  split; intros Hm.
  - apply map_to_list_empty_iff. apply Permutation_nil. rewrite <- Hm. apply map_order_perm.
  - subst. pose proof (map_order_perm V ∅) as Hp. rewrite map_to_list_empty in Hp. by apply Permutation_nil_r in Hp.
Qed.
Lemma elem_of_map_order {O : MapOrder} {L : MapOrderLaws O} {V} (m : gmap str V) k v : (k, v) ∈ map_order m <-> m !! k = Some v.
Proof. by rewrite map_order_perm, elem_of_map_to_list. Qed.
Lemma two_orders {O1 O2 : MapOrder} {L1 : MapOrderLaws O1} {L2 : MapOrderLaws O2} {V} (m : gmap str V) :
  @map_order O1 V m ≡ₚ @map_order O2 V m.
Proof. rewrite (map_order_perm (O := O1)). symmetry. apply (map_order_perm (O := O2)). Qed.

Lemma each_perm {A} (f : A -> checked) l l' : l ≡ₚ l' -> each f l = Ok tt <-> each f l' = Ok tt.
Proof. intros Hp. by rewrite !each_ok, Hp. Qed.
Lemma try_each_perm {A B E} (f : A -> result B E) l l' bs :
  l ≡ₚ l' -> try_each f l = Ok bs -> exists bs', try_each f l' = Ok bs' /\ bs ≡ₚ bs'.
Proof.
  rewrite try_each_ok. intros Hp HF. destruct (Permutation_Forall2 Hp HF) as (bs' & Hb & HF').
  exists bs'. by rewrite try_each_ok.
Qed.

Lemma Forall2_elem_l {A B} (P : A -> B -> Prop) l k x : Forall2 P l k -> x ∈ l -> exists y, y ∈ k /\ P x y.
Proof. induction 1; intros Hx; [by apply not_elem_of_nil in Hx|]. apply elem_of_cons in Hx. set_solver. Qed.
Lemma Forall2_elem_r {A B} (P : A -> B -> Prop) l k y : Forall2 P l k -> y ∈ k -> exists x, x ∈ l /\ P x y.
Proof. induction 1; intros Hx; [by apply not_elem_of_nil in Hx|]. apply elem_of_cons in Hx. set_solver. Qed.

(** ** Resolved contexts *)

Record leg_of (l : ContextLeg) (g : ResolvedLeg) : Prop := {
  leg_id : rg_resource_id g = lg_resource_ref l;
  leg_ep_id : ep_id (rg_endpoint g) = rg_resource_id g;
  leg_valid : endpoint_validate (rg_endpoint g) = Ok tt
}.
Record context_of (kc : str * NamedContext) (c : ResolvedCtx) : Prop := {
  ctx_id : rc_id c = kc.1;
  ctx_default : rc_is_default c = is_default kc.2;
  ctx_cache : rc_cache c = nc_cache kc.2;
  ctx_scope : rc_scope c = nc_scope kc.2;
  ctx_cascade : rc_cascade c = nc_cascade kc.2;
  ctx_federated : rc_federated c = nc_federated kc.2;
  ctx_legs : Forall2 leg_of (nc_upstreams kc.2) (rc_legs c)
}.

Lemma resolve_leg_of id r l g : resolve_leg id r l = Ok g -> id = lg_resource_ref l -> leg_of l g.
Proof.
  unfold resolve_leg. intros H ->. repeat case_match; simplify_eq. split; try done. simpl. by destruct a.
Qed.
Lemma resolve_context_of ups embs kc c : resolve_named_context ups embs kc = Ok c -> context_of kc c.
Proof.
  unfold resolve_named_context. intros H. destruct (try_each _ _) as [legs|] eqn:E; [|done]. case_match; simplify_eq.
  split; try done. simpl. apply try_each_ok in E. eapply Forall2_impl; [apply E|]. simpl. intros l g Hl.
  unfold resolve_context_leg in Hl. case_match; [|done]. by eapply resolve_leg_of.
Qed.
Lemma resolve_all_of {O : MapOrder} ups embs ctxs rs :
  resolve_all_contexts ups embs ctxs = Ok rs -> Forall2 context_of (map_order ctxs) rs.
Proof.
  unfold resolve_all_contexts. rewrite try_each_ok. intros H. eapply Forall2_impl; [apply H|].
  intros kc c. apply resolve_context_of.
Qed.

(** ** One endpoint per resource *)

Definition leg_named (g : ResolvedLeg) : Prop := ep_id (rg_endpoint g) = rg_resource_id g.

Lemma first_seen_in ls : forall seen e, e ∈ first_seen seen ls -> exists g, g ∈ ls /\ rg_endpoint g = e.
Proof.
  induction ls as [|g ls IH]; intros seen e He; simpl in He; [set_solver|].
  case_decide; [|apply elem_of_cons in He as [->|He]; [set_solver|]];
    destruct (IH _ _ He) as (g' & ? & ?); set_solver.
Qed.
Lemma first_seen_ids ls : Forall leg_named ls -> forall seen,
  NoDup (map ep_id (first_seen seen ls)) /\
  forall id, id ∈ map ep_id (first_seen seen ls) <-> id ∈ map rg_resource_id ls /\ id ∉ seen.
Proof.
  induction 1 as [|g ls Hg _ IH]; intros seen; simpl; [split; [constructor|set_solver]|].
  case_decide as Hin.
  - destruct (IH seen) as [Hn Hi]. split; [done|]. intros id. rewrite Hi. set_solver.
  - destruct (IH ({[rg_resource_id g]} ∪ seen)) as [Hn Hi]. simpl. rewrite Hg. split.
    + constructor; [rewrite Hi; set_solver|done].
    + intros id. rewrite elem_of_cons, Hi. set_unfold. destruct (decide (id = rg_resource_id g)); naive_solver.
Qed.

Lemma named_legs kcs rs : Forall2 context_of kcs rs -> Forall leg_named (concat (map rc_legs rs)).
Proof.
  induction 1 as [|kc c kcs rs Hc _ IH]; simpl; [constructor|]. apply Forall_app. split; [|done].
  pose proof (ctx_legs _ _ Hc) as Hl. induction Hl as [|l g ls gs Hlg _ IHl]; constructor; [|done].
  apply (leg_ep_id _ _ Hlg).
Qed.
Definition refs (kc : str * NamedContext) : list str := map lg_resource_ref (nc_upstreams kc.2).
Lemma leg_refs kcs rs : Forall2 context_of kcs rs ->
  map rg_resource_id (concat (map rc_legs rs)) = concat (map refs kcs).
Proof.
  induction 1 as [|kc c kcs rs Hc _ IH]; simpl; [done|]. rewrite map_app, IH. f_equal.
  unfold refs. pose proof (ctx_legs _ _ Hc) as Hl. induction Hl as [|l g ls gs Hlg _ IHl]; simpl; [done|].
  by rewrite (leg_id _ _ Hlg), IHl.
Qed.
Lemma elem_of_refs {O : MapOrder} {L : MapOrderLaws O} (ctxs : gmap str NamedContext) id :
  id ∈ concat (map refs (map_order ctxs)) <->
  exists k c l, ctxs !! k = Some c /\ l ∈ nc_upstreams c /\ lg_resource_ref l = id.
Proof.
  rewrite list_elem_of_In, in_concat. split.
  - intros (x & Hx & Hid). apply in_map_iff in Hx as ([k c] & <- & Hkc). apply in_map_iff in Hid as (l & Hl & Hin).
    apply list_elem_of_In in Hkc, Hin. apply elem_of_map_order in Hkc. naive_solver.
  - intros (k & c & l & Hk & Hl & <-). exists (refs (k, c)). split.
    + apply in_map, list_elem_of_In. by apply elem_of_map_order.
    + apply in_map. by apply list_elem_of_In.
Qed.

(** ** The default context *)

Lemma defaults_one {O : MapOrder} {L : MapOrderLaws O} (ctxs : gmap str NamedContext) :
  zlen (defaults (map_order ctxs)) = 1 ->
  exists k c, ctxs !! k = Some c /\ is_default c = true /\
    forall k' c', ctxs !! k' = Some c' -> is_default c' = true -> k' = k /\ c' = c.
Proof.
  unfold zlen. intros H. destruct (defaults (map_order ctxs)) as [|[k c] [|]] eqn:E; simpl in H; try lia.
  assert (Hin : forall k' c', (k', c') ∈ defaults (map_order ctxs) <-> is_default c' = true /\ ctxs !! k' = Some c').
  { intros k' c'. unfold defaults. rewrite list_elem_of_filter, elem_of_map_order. done. }
  rewrite E in Hin. exists k, c. destruct (Hin k c) as [[Hd Hk] _]; [set_solver|]. split; [done|]. split; [done|].
  intros k' c' Hk' Hd'. specialize (Hin k' c'). set_solver.
Qed.
Lemma policy_default kcs rs k c :
  Forall2 context_of kcs rs -> (k, c) ∈ kcs -> is_default c = true ->
  (forall k' c', (k', c') ∈ kcs -> is_default c' = true -> c' = c) ->
  exists rc, policy_context rs = Some rc /\ rc ∈ rs /\ exists k', context_of (k', c) rc.
Proof.
  intros HF Hin Hd Hu. unfold policy_context.
  destruct (List.find rc_is_default rs) as [rc|] eqn:E.
  - exists rc. apply List.find_some in E as [Hrc Hdef]. apply list_elem_of_In in Hrc. split; [done|]. split; [done|].
    destruct (Forall2_elem_r _ _ _ _ HF Hrc) as ([k' c'] & Hkc & Hof). exists k'.
    rewrite (ctx_default _ _ Hof) in Hdef. by rewrite <- (Hu _ _ Hkc Hdef).
  - destruct (Forall2_elem_l _ _ _ _ HF Hin) as (rc & Hrc & Hof).
    apply list_elem_of_In in Hrc. pose proof (List.find_none _ _ E _ Hrc) as Hn.
    rewrite (ctx_default _ _ Hof) in Hn. by simpl in Hn; rewrite Hd in Hn.
Qed.

(** ** What validation guarantees *)

(** A chain of checks as the conjunction of what each of them accepts. *)
Ltac split_checks := repeat first [setoid_rewrite reject_ok | setoid_rewrite also_ok].
Ltac split_checks_in H := repeat first [setoid_rewrite reject_ok in H | setoid_rewrite also_ok in H].

Section Validated.
Context {O : MapOrder} {L : MapOrderLaws O} `{U : UnicodeCase}.

Lemma validate_tables c : config_validate c = Ok tt ->
  validate_context_rooted (cf_upstreams c) (cf_embedders c) (cf_contexts c) (agents_for_ctx c) = Ok tt.
Proof. unfold config_validate. split_checks. tauto. Qed.

Lemma context_rooted_resolves ups embs ctxs agents :
  validate_context_rooted ups embs ctxs agents = Ok tt -> ctxs <> ∅ ->
  exists rs, resolve_all_contexts ups embs ctxs = Ok rs /\ Forall (fun c => check_resolved c = Ok tt) rs /\
    zlen (defaults (map_order ctxs)) = 1 /\ Forall (fun a => check_agent ctxs a = Ok tt) agents.
Proof.
  unfold validate_context_rooted. intros H Hne. destruct (map_order ctxs) as [|kc kcs] eqn:E.
  { by apply map_order_empty in E. }
  rewrite <- E in H |- *. split_checks_in H.
  destruct H as (_ & H0 & H1 & _ & _ & H). destruct (resolve_all_contexts ups embs ctxs) as [rs|] eqn:Er; [|done].
  exists rs. apply also_ok in H as [Hr Ha]. apply each_ok in Hr, Ha. reflect_Z. split; [done|]. split; [done|].
  split; [|done]. unfold zlen in *. lia.
Qed.

Lemma check_resolved_leg c g : check_resolved c = Ok tt -> g ∈ rc_legs c ->
  url_ok (ep_url (rg_endpoint g)) = true /\ some_and timeout_bad (ep_timeout_secs (rg_endpoint g)) = false.
Proof.
  unfold check_resolved. rewrite reject_ok, also_ok, each_ok. intros (_ & Hl & _) Hg.
  rewrite Forall_forall in Hl. specialize (Hl _ Hg). unfold check_leg, validate_url in Hl.
  split_checks_in Hl. destruct Hl as [[Hu _] [Ht _]]. by apply negb_false_iff in Hu.
Qed.
Lemma check_resolved_scope c : check_resolved c = Ok tt -> scope_config_validate (rc_scope c) = Ok tt.
Proof.
  unfold check_resolved. rewrite reject_ok, !also_ok. intros (_ & _ & Hs & _). unfold check_scope in Hs.
  by case_match; [destruct a|].
Qed.
Lemma check_resolved_legs c : check_resolved c = Ok tt -> rc_legs c <> [].
Proof. unfold check_resolved. rewrite reject_ok. intros [Hl _] E. by rewrite E in Hl. Qed.

(** What the settings made from a context-rooted file promise. *)
Record serves (c : ConfigFile) (d : NamedContext) (px : ProxySettings) : Prop := {
  serves_scope : px_scope px = nc_scope d /\ scope_config_validate (nc_scope d) = Ok tt;
  serves_cascade : px_cascade px = nc_cascade d;
  serves_federated : px_federated px = nc_federated d;
  serves_fresh : px_fresh_duration_secs px = or_else (cx_fresh_secs (nc_cache d)) (px_fresh_duration_secs (cf_proxy c));
  serves_stale : px_stale_duration_secs px = or_else (cx_stale_secs (nc_cache d)) (px_stale_duration_secs (cf_proxy c));
  serves_entries : px_max_entries px = or_else (cx_max_entries (nc_cache d)) (px_max_entries (cf_proxy c));
  serves_listen : px_listen px = or_else (sv_listen (cf_server c)) (px_listen (cf_proxy c));
  serves_agents : px_agents px = agents_for_ctx c;
  serves_legacy : px_upstream_url px = None;
  serves_nodup : NoDup (map ep_id (px_upstreams px));
  serves_ids : forall id, id ∈ map ep_id (px_upstreams px) <->
    exists k n l, cf_contexts c !! k = Some n /\ l ∈ nc_upstreams n /\ lg_resource_ref l = id;
  serves_endpoints : Forall (fun e => check_endpoint e = Ok tt) (px_upstreams px)
}.

Lemma endpoints_checked kcs rs : Forall2 context_of kcs rs -> Forall (fun c => check_resolved c = Ok tt) rs ->
  Forall (fun e => check_endpoint e = Ok tt) (first_seen ∅ (concat (map rc_legs rs))).
Proof.
  intros HF Hc. apply Forall_forall. intros e He. apply first_seen_in in He as (g & Hg & <-).
  apply list_elem_of_In, in_concat in Hg as (gs & Hgs & Hg). apply in_map_iff in Hgs as (rc & <- & Hrc).
  apply list_elem_of_In in Hrc, Hg. rewrite Forall_forall in Hc.
  destruct (check_resolved_leg _ _ (Hc _ Hrc) Hg) as [Hu Ht].
  destruct (Forall2_elem_r _ _ _ _ HF Hrc) as (kc & _ & Hof).
  destruct (Forall2_elem_r _ _ _ _ (ctx_legs _ _ Hof) Hg) as (l & _ & Hl).
  unfold check_endpoint. by rewrite (leg_valid _ _ Hl), Hu, Ht.
Qed.
Lemma base_fields c :
  px_fresh_duration_secs (base_proxy c) = px_fresh_duration_secs (cf_proxy c) /\
  px_stale_duration_secs (base_proxy c) = px_stale_duration_secs (cf_proxy c) /\
  px_max_entries (base_proxy c) = px_max_entries (cf_proxy c) /\
  px_agents (base_proxy c) = px_agents (cf_proxy c) /\
  px_listen (base_proxy c) = or_else (sv_listen (cf_server c)) (px_listen (cf_proxy c)).
Proof. unfold base_proxy, normalize_upstreams. repeat case_match; by repeat split. Qed.

(** The projection of resolved contexts that are checked and have one default. *)
Lemma project_checked base kcs rs k d :
  Forall2 context_of kcs rs -> Forall (fun c => check_resolved c = Ok tt) rs ->
  (k, d) ∈ kcs -> is_default d = true -> (forall k' c', (k', c') ∈ kcs -> is_default c' = true -> c' = d) ->
  exists rc k', context_of (k', d) rc /\ check_resolved rc = Ok tt /\ first_seen ∅ (concat (map rc_legs rs)) <> [] /\
    project_to_proxy base rs = Ok (put_upstreams (with_policy base rc) (first_seen ∅ (concat (map rc_legs rs))) None).
Proof.
  intros HF Hc Hin Hd Hu. destruct (policy_default kcs rs k d HF Hin Hd Hu) as (rc & Hp & Hrc & k' & Hof).
  assert (Hck : check_resolved rc = Ok tt) by (rewrite Forall_forall in Hc; by apply Hc).
  exists rc, k'. split; [done|]. split; [done|].
  assert (Hf : first_seen ∅ (concat (map rc_legs rs)) <> []);
    [|split; [done|]; unfold project_to_proxy; rewrite Hp; by destruct (first_seen _ _)].
  intros Ef.
  pose proof (check_resolved_legs _ Hck) as Hne. destruct (rc_legs rc) as [|g gs] eqn:Eg; [done|].
  destruct (first_seen_ids _ (named_legs _ _ HF) ∅) as [_ Hi]. rewrite Ef in Hi.
  apply (not_elem_of_nil (rg_resource_id g)), (Hi (rg_resource_id g)). split; [|set_solver].
  apply list_elem_of_In, in_map, in_concat. exists (rc_legs rc). split; [apply in_map; by apply list_elem_of_In|].
  rewrite Eg. by left.
Qed.

(** The settings made from an accepted file with contexts. *)
Definition projected (c : ConfigFile) (rs : list ResolvedCtx) (rc : ResolvedCtx) : ProxySettings :=
  let px := put_upstreams (with_policy (base_proxy c) rc) (first_seen ∅ (concat (map rc_legs rs))) None in
  match cf_agents c with [] => px | a => put_agents px a end.
Lemma effective_form c : config_validate c = Ok tt -> cf_contexts c <> ∅ ->
  exists rs rc k k' d, resolve_contexts c = Ok rs /\ Forall2 context_of (map_order (cf_contexts c)) rs /\
    Forall (fun c => check_resolved c = Ok tt) rs /\ cf_contexts c !! k = Some d /\ is_default d = true /\
    (forall k' d', cf_contexts c !! k' = Some d' -> is_default d' = true -> k' = k /\ d' = d) /\
    context_of (k', d) rc /\ check_resolved rc = Ok tt /\
    px_upstreams (projected c rs rc) <> [] /\ effective_proxy c = Ok (projected c rs rc).
Proof.
  intros Hv Hc. apply validate_tables in Hv. apply context_rooted_resolves in Hv as (rs & Hr & Hck & H1 & _); [|done].
  destruct (defaults_one _ H1) as (k & d & Hk & Hd & Hu). pose proof (resolve_all_of _ _ _ _ Hr) as HF.
  destruct (project_checked (base_proxy c) _ _ k d HF Hck) as (rc & k' & Hof & Hrc & Hf & Hp);
    [by apply elem_of_map_order|done|intros ? ? Hin; apply elem_of_map_order in Hin; naive_solver|].
  exists rs, rc, k, k', d. unfold effective_proxy, resolve_contexts. rewrite Hr, Hp.
  split_and!; try done. unfold projected. by destruct (cf_agents c).
Qed.
End Validated.

(** C12: a configuration with contexts that validation accepts can always be run: the
    settings the proxy runs with exist, whatever the order of the tables; they carry
    the scope, the cascade, the federation and the limits of the one default context,
    the listen address of [server] and the agents of the file; and their upstreams are
    exactly the resources the contexts refer to, one endpoint each, every one of which
    passes the checks of an endpoint. *)
Theorem validated_projects {O : MapOrder} {L : MapOrderLaws O} `{U : UnicodeCase} (c : ConfigFile)
  (Hv : config_validate c = Ok tt) (Hc : cf_contexts c <> ∅) :
  exists px k d, effective_proxy c = Ok px /\ cf_contexts c !! k = Some d /\ is_default d = true /\
    (forall k' d', cf_contexts c !! k' = Some d' -> is_default d' = true -> k' = k) /\ serves c d px.
Proof.
  destruct (effective_form c Hv Hc) as (rs & rc & k & k' & d & Hr & HF & Hck & Hk & Hd & Hu & Hof & Hrc & _ & Hp).
  destruct (first_seen_ids _ (named_legs _ _ HF) ∅) as [Hn Hi]. pose proof (endpoints_checked _ _ HF Hck) as He.
  destruct (base_fields c) as (B1 & B2 & B3 & B4 & B5).
  exists (projected c rs rc), k, d. split; [done|]. split; [done|]. split; [done|]. split; [naive_solver|].
  unfold projected. destruct Hof as [_ _ Hx Hs Hy Hz _]; simpl in *.
  assert (Hs' := check_resolved_scope _ Hrc). rewrite Hs in Hs'.
  split; unfold agents_for_ctx; destruct (cf_agents c); simpl;
    rewrite ?B1, ?B2, ?B3, ?B4, ?B5, ?Hx, ?Hs, ?Hy, ?Hz; try done.
  all: intros id; rewrite Hi, (leg_refs _ _ HF), elem_of_refs; set_solver.
Qed.

(** ** Order *)

Lemma context_rooted_order {O1 O2 : MapOrder} {L1 : MapOrderLaws O1} {L2 : MapOrderLaws O2} `{U : UnicodeCase}
    ups embs ctxs agents :
  validate_context_rooted (O := O1) ups embs ctxs agents = Ok tt ->
  validate_context_rooted (O := O2) ups embs ctxs agents = Ok tt.
Proof.
  unfold validate_context_rooted, resolve_all_contexts.
  pose proof (two_orders (O1 := O1) (O2 := O2) ctxs) as Hc. pose proof (two_orders (O1 := O1) (O2 := O2) ups) as Hu.
  pose proof (two_orders (O1 := O1) (O2 := O2) embs) as He.
  destruct (@map_order O1 _ ctxs) as [|kc kcs] eqn:E; [apply Permutation_nil in Hc; by rewrite Hc|].
  destruct (@map_order O2 _ ctxs) as [|kc' kcs'] eqn:E'; [done|]. split_checks.
  assert (Hlen : zlen (defaults (kc :: kcs)) = zlen (defaults (kc' :: kcs'))).
  { unfold zlen, defaults. by rewrite Hc. }
  rewrite Hlen, (each_perm _ _ _ Hu), (each_perm _ _ _ He). intros (Hn & H0 & H1 & Hr & Hb & H).
  destruct (try_each _ (kc :: kcs)) as [rs|] eqn:Er; [|done].
  destruct (try_each_perm _ _ _ _ Hc Er) as (rs' & Er' & Hp). rewrite Er'.
  apply also_ok in H as [Hrs Ha]. rewrite also_ok, <- (each_perm _ _ _ Hp). split; [|done].
  destruct (@map_order O2 _ ups) eqn:Eu; [|done]. apply Permutation_sym, Permutation_nil in Hu. by rewrite Hu in Hn.
Qed.

(** Whether a configuration is accepted does not depend on the order in which
    the hash maps of its tables are walked. *)
Theorem validate_order_free {O1 O2 : MapOrder} {L1 : MapOrderLaws O1} {L2 : MapOrderLaws O2} `{U : UnicodeCase}
    (c : ConfigFile) :
  config_validate (O := O1) c = Ok tt <-> config_validate (O := O2) c = Ok tt.
Proof.
  assert (Ht : validate_context_rooted (O := O1) (cf_upstreams c) (cf_embedders c) (cf_contexts c) (agents_for_ctx c) = Ok tt
    <-> validate_context_rooted (O := O2) (cf_upstreams c) (cf_embedders c) (cf_contexts c) (agents_for_ctx c) = Ok tt)
    by (split; apply context_rooted_order).
  unfold config_validate. split_checks. by rewrite Ht.
Qed.

(** ** A small file *)

Definition plain_resource (url : option str) : UpstreamResource :=
  {| ur_url := url; ur_upstream_type := None; ur_timeout_secs := None; ur_weight := None; ur_priority := None;
     ur_max_concurrent := None; ur_enabled := None; ur_version_endpoint := None; ur_version_poll_interval_secs := None;
     ur_query_mode := None; ur_table := None; ur_embedding_column := None; ur_content_column := None;
     ur_metadata_columns := []; ur_distance_metric := None; ur_dimensions := None; ur_index := None;
     ur_search_fields := []; ur_return_fields := []; ur_api_key := None |}.
Definition plain_leg (r : str) (timeout : option Z) : ContextLeg :=
  {| lg_resource_ref := r; lg_url := None; lg_upstream_type := None; lg_timeout_secs := timeout; lg_weight := None;
     lg_priority := None; lg_max_concurrent := None; lg_enabled := None; lg_version_endpoint := None;
     lg_version_poll_interval_secs := None; lg_query_mode := None; lg_table := None; lg_embedding_column := None;
     lg_content_column := None; lg_metadata_columns := None; lg_distance_metric := None; lg_dimensions := None;
     lg_index := None; lg_search_fields := None; lg_return_fields := None; lg_api_key := None |}.
Definition cfg_context (dflt : bool) (fresh : option Z) (ls : list ContextLeg) : NamedContext :=
  {| nc_default := Some dflt; nc_description := None; nc_upstreams := ls; nc_embedder := None;
     nc_cache := {| cx_fresh_secs := fresh; cx_stale_secs := None; cx_max_entries := None; cx_max_memory_mb := None;
                    cx_eviction_policy := None |};
     nc_scope := ProxyScopeConfig_default; nc_cascade := CascadeConfig_default; nc_federated := FederatedSettings_default |}.
Definition with_contexts (llm : option Value) (px : ProxySettings) (us : gmap str UpstreamResource)
    (cs : gmap str NamedContext) : ConfigFile :=
  {| cf_llm := llm; cf_packages := ∅; cf_registries := ∅; cf_search := cf_search ConfigFile_default;
     cf_embedding := cf_embedding ConfigFile_default; cf_web := cf_web ConfigFile_default; cf_proxy := px;
     cf_context := cf_context ConfigFile_default; cf_server := cf_server ConfigFile_default; cf_upstreams := us;
     cf_embedders := ∅; cf_contexts := cs; cf_agents := [] |}.

(** Two contexts reach the same resource with different timeouts. *)
Definition shared_file (fresh : option Z) : ConfigFile :=
  with_contexts None ProxySettings_default {[lit "es" := plain_resource (Some (lit "http://es"))]}
    (<[lit "docs" := cfg_context true fresh [plain_leg (lit "es") (Some 5)]]>
     {[lit "code" := cfg_context false None [plain_leg (lit "es") (Some 60)]]}).
Definition timeouts (r : result ProxySettings ConfigError) : option (list (option Z)) :=
  match r with Ok px => Some (map ep_timeout_secs (px_upstreams px)) | Err _ => None end.

#[local] Existing Instance AsciiCase.

Lemma validated_projects_witness :
  exists px k d, effective_proxy (O := ListedOrder) (shared_file None) = Ok px /\
    cf_contexts (shared_file None) !! k = Some d /\ is_default d = true /\
    (forall k' d', cf_contexts (shared_file None) !! k' = Some d' -> is_default d' = true -> k' = k) /\
    serves (shared_file None) d px.
Proof. apply (validated_projects (O := ListedOrder) (shared_file None)); by vm_compute. Defined.
Lemma validate_order_free_witness :
  config_validate (O := ListedOrder) (shared_file None) = Ok tt <->
  config_validate (O := Reversed) (shared_file None) = Ok tt.
Proof. apply (validate_order_free (O1 := ListedOrder) (O2 := Reversed) (shared_file None)). Defined.

(** The endpoint of a resource that two contexts share is the one met first: its
    timeout depends on the order of a hash map. *)
Lemma shared_endpoint_order :
  config_validate (O := ListedOrder) (shared_file None) = Ok tt /\
  timeouts (effective_proxy (O := ListedOrder) (shared_file None)) <>
  timeouts (effective_proxy (O := Reversed) (shared_file None)).
Proof. by vm_compute. Qed.

(** The limits of a context are not checked: a fresh time of zero, which the proxy
    section may not have, is accepted in the default context and is what runs. *)
Lemma context_limits_unchecked :
  config_validate (O := ListedOrder) (shared_file (Some 0)) = Ok tt /\
  (match effective_proxy (O := ListedOrder) (shared_file (Some 0)) with
   | Ok px => config_validate (O := ListedOrder) (with_contexts None px ∅ ∅)
   | Err e => Err e
   end) = Err BadFreshDuration.
Proof. by vm_compute. Qed.

(** A file without contexts is accepted, but [effective_proxy] fails on it. *)
Lemma legacy_has_no_projection :
  config_validate (O := ListedOrder) ConfigFile_default = Ok tt /\
  effective_proxy (O := ListedOrder) ConfigFile_default = Err NoResolvedContexts.
Proof. by vm_compute. Qed.

(** ** Layers *)

Definition drop_llm (c : ConfigFile) : ConfigFile :=
  {| cf_llm := None; cf_packages := cf_packages c; cf_registries := cf_registries c; cf_search := cf_search c;
     cf_embedding := cf_embedding c; cf_web := cf_web c; cf_proxy := cf_proxy c; cf_context := cf_context c;
     cf_server := cf_server c; cf_upstreams := cf_upstreams c; cf_embedders := cf_embedders c;
     cf_contexts := cf_contexts c; cf_agents := cf_agents c |}.

(** Layers of configuration files compose: laying a file over the result of
    laying two others gives what the other grouping gives; and laying a file over
    itself changes nothing but the removed [llm] section. *)
Theorem config_layers (a b c : ConfigFile) :
  merge (merge a b) c = merge a (merge b c) /\ merge a a = drop_llm a.
Proof.
  unfold merge at 1 2 3 4 5, config_merge, drop_llm; simpl. split; f_equal;
    first [apply merge_assoc | apply merge_idem | apply (merge_assoc (MergeLaws := replace_merge_laws _))
          | apply (merge_assoc (MergeLaws := extend_merge_laws _)) | apply (merge_idem (MergeLaws := replace_merge_laws _))
          | apply (merge_idem (MergeLaws := extend_merge_laws _))].
Qed.

(** The sections without unset fields come from the local file alone. *)
Lemma global_sections_ignored g l :
  px_cascade (cf_proxy (merge l g)) = px_cascade (cf_proxy l) /\ px_pool (cf_proxy (merge l g)) = px_pool (cf_proxy l) /\
  px_circuit_breaker (cf_proxy (merge l g)) = px_circuit_breaker (cf_proxy l) /\
  px_socket_tuning (cf_proxy (merge l g)) = px_socket_tuning (cf_proxy l).
Proof. done. Qed.

(** ** Loading *)

Definition one_file (content : str) (path : str) : option (result str unit) := Some (Ok content).

(** The removed [llm] section is refused in one file, but goes unnoticed when both
    a global and a local file exist. *)
Lemma llm_lost_in_merge :
  let old := with_contexts (Some VNull) ProxySettings_default ∅ ∅ in
  let parse := fun _ : str => Ok old : result ConfigFile unit in
  config_validate (O := ListedOrder) old = Err LlmRemoved /\
  Config_load (O := ListedOrder) (one_file []) parse (lit "global") (lit "local") (Ok (lit ".conproxy"))
    = Ok {| cfg_config := drop_llm old; cfg_local_root := Some (lit ".conproxy") |}.
Proof. by vm_compute. Qed.

(** What loading returns has passed validation; it is the local file over the
    global one, either alone, or the default; an unreadable or unparseable file is
    an error, never skipped; and a missing pair of files loads. *)
Theorem load_exact {O : MapOrder} `{U : UnicodeCase} {IoE TomlE} (read : str -> option (result str IoE))
    (parse : str -> result ConfigFile TomlE) (gp lp : str) (root : result str (LoadError IoE TomlE)) :
  (forall c, Config_load read parse gp lp root = Ok c ->
    config_validate (cfg_config c) = Ok tt /\
    exists g l, load_file read parse gp = Ok g /\ load_file read parse lp = Ok l /\
      cfg_config c = merged_of g l /\ (cfg_local_root c = None <-> l = None)) /\
  (forall p e, p = gp \/ p = lp -> read p = Some (Err e) -> is_ok (Config_load read parse gp lp root) = false) /\
  (forall p s e, p = gp \/ p = lp -> read p = Some (Ok s) -> parse s = Err e ->
    is_ok (Config_load read parse gp lp root) = false) /\
  (MapOrderLaws O -> read gp = None -> read lp = None ->
    Config_load read parse gp lp root = Ok {| cfg_config := ConfigFile_default; cfg_local_root := None |}).
Proof.
  unfold Config_load. split_and!.
  - intros c H. destruct (load_file read parse gp) as [g|], (load_file read parse lp) as [l|]; try done.
    destruct (config_validate (merged_of g l)) as [[]|] eqn:Ev; [|done].
    destruct l; [destruct root; [|done]|]; simplify_eq; (split; [done|]); eexists _, _; naive_solver.
  - intros p e [->| ->] Hr; [unfold load_file at 1; by rewrite Hr|]. destruct (load_file read parse gp); [|done].
    unfold load_file. by rewrite Hr.
  - intros p s e [->| ->] Hr Hp; [unfold load_file at 1; by rewrite Hr, Hp|]. destruct (load_file read parse gp); [|done].
    unfold load_file. by rewrite Hr, Hp.
  - intros HO Hg Hl. unfold load_file. rewrite Hg, Hl. simpl.
    assert (E : config_validate ConfigFile_default = Ok tt); [|by rewrite E].
    unfold config_validate; simpl. unfold validate_context_rooted. by rewrite (proj2 (map_order_empty ∅)).
Qed.

(** ** Environment overrides *)

Lemma rsplit_no_colon s : contains_char s 58 = false -> rsplit_colon s = (s, None).
Proof.
  induction s as [|c s IH]; [done|]. unfold contains_char in *. cbn -[Z.eqb]. intros H. apply orb_false_iff in H as [Hc Hs].
  rewrite (IH Hs). rewrite Z.eqb_sym in Hc. by rewrite Hc.
Qed.
Lemma rsplit_host_port h p : contains_char p 58 = false -> rsplit_colon (h ++ 58 :: p) = (p, Some h).
Proof.
  intros Hp. induction h as [|c h IH]; cbn -[Z.eqb] in *; [by rewrite (rsplit_no_colon _ Hp)|by rewrite IH].
Qed.
Lemma rsplit_tail s : contains_char (rsplit_colon s).1 58 = false.
Proof.
  induction s as [|c s IH]; [done|]. cbn -[Z.eqb]. destruct (rsplit_colon s) as [t [h|]]; [done|].
  destruct (c =? 58) eqn:E; [done|]. unfold contains_char in *. cbn -[Z.eqb] in *. rewrite Z.eqb_sym, E. done.
Qed.
Lemma or_else_twice {A} (o x : option A) : or_else o (or_else o x) = or_else o x.
Proof. by destruct o. Qed.
Lemma override_url_idem `{Up : UnicodeUpper} env e : (override_url env (override_url env e).2).2 = (override_url env e).2.
Proof. unfold override_url at 2 3. destruct (env (upstream_key (ep_id e))) eqn:E; unfold override_url; simpl; by rewrite E. Qed.

(** The overrides of the environment settle: applying them to settings they were
    already applied to changes nothing, when the port is given without a colon. *)
Theorem env_overrides_settle `{Up : UnicodeUpper} (env : str -> option str) (px : ProxySettings)
  (Hport : forall p, env (lit "CONPROXY_PORT") = Some p -> contains_char p 58 = false) :
  (apply_env_overrides env (apply_env_overrides env px).2).2 = (apply_env_overrides env px).2.
Proof.
  unfold apply_env_overrides; simpl. f_equal.
  - set (s0 := px_listen px). destruct (listen_override env s0) as [s|] eqn:E; simpl; [|by rewrite E].
    unfold listen_override in *. destruct (rsplit_colon (default _ s0)) as [cp ch] eqn:Er.
    pose proof (rsplit_tail (default (lit "127.0.0.1:3000") s0)) as Ht. rewrite Er in Ht; simpl in Ht.
    destruct (env (lit "CONPROXY_HOST")) as [h|], (env (lit "CONPROXY_PORT")) as [p|]; simplify_eq; simpl;
      change (lit ":") with [58]; simpl; rewrite rsplit_host_port; simpl; eauto.
  - apply or_else_twice.
  - apply or_else_twice.
  - rewrite !map_map. apply map_ext. intros e. apply override_url_idem.
  - f_equal. apply or_else_twice.
Qed.
Definition env_demo (k : str) : option str :=
  if str_eqb k (lit "CONPROXY_HOST") then Some (lit "0.0.0.0")
  else if str_eqb k (lit "CONPROXY_PORT") then Some (lit "80") else None.
Lemma env_overrides_settle_witness :
  (@apply_env_overrides (fun s => s) env_demo (apply_env_overrides (Up := fun s => s) env_demo ProxySettings_default).2).2
  = (apply_env_overrides (Up := fun s => s) env_demo ProxySettings_default).2.
Proof.
  apply (env_overrides_settle (Up := fun s => s) env_demo ProxySettings_default). intros p Hp. vm_compute in Hp.
  injection Hp as <-. reflexivity.
Defined.

(** With only the host given, the port is that of an address the proxy does not
    otherwise use: the default to listen on is 127.0.0.1:9999. *)
Lemma host_alone_changes_port :
  let env := fun k => if str_eqb k (lit "CONPROXY_HOST") then Some (lit "127.0.0.1") else None in
  px_listen_addr ProxySettings_default = lit "127.0.0.1:9999" /\
  px_listen_addr (apply_env_overrides (Up := fun s => s) env ProxySettings_default).2 = lit "127.0.0.1:3000".
Proof. by vm_compute. Qed.

(** ** References to the environment *)

Definition braced (v : str) : str := lit "${" ++ v ++ lit "}".
Lemma braced_last v : last (braced v) = Some 125.
Proof. unfold braced. change (lit "}") with [125]. by rewrite app_assoc, last_snoc. Qed.

(** A reference ${NAME} stands for the value of the variable NAME and is refused
    when it is unset or empty; every other text stands for itself; an endpoint's key
    and the shared secret of the peers are resolved so, and a peer secret of blanks
    is refused. *)
Theorem references_resolve (env : str -> option str) (v s : str) :
  resolve_env_ref env (braced v) = match env v with Some [] | None => None | x => x end /\
  (starts "${" s = false -> resolve_env_ref env s = Some s) /\
  (forall e raw, ep_api_key e = Some raw -> resolve_env_ref env raw = None ->
     resolve_api_key env e = Err (UndefinedVariable raw)) /\
  (forall c raw, pp_shared_secret c = Some raw -> trim raw = [] -> resolve_shared_secret env c = Err EmptySecret).
Proof.
  split_and!.
  - unfold resolve_env_ref. rewrite braced_last. assert (Hs : starts "${" (braced v) = true) by (by destruct v).
    rewrite Hs. unfold braced. cbv iota beta delta [andb].
    replace (take _ _) with v; [by destruct (env v) as [[|]|]|]. 
    symmetry. change (drop 2 _) with (v ++ [125]). apply take_app_length'. rewrite !length_app. cbn. lia.
  - intros H. unfold resolve_env_ref. by rewrite H.
  - intros e raw He Hr. unfold resolve_api_key. by rewrite He, Hr.
  - intros c raw Hc Ht. unfold resolve_shared_secret. by rewrite Hc, Ht.
Qed.
