(* ===== verification/Vendors.v ===== *)
(** * Vendor adapters (src/src/proxy/qdrant.rs, elasticsearch.rs, meilisearch.rs, milvus.rs,
    pinecone.rs, pgvector.rs)

    Each adapter turns a query into the request of its vendor, and the reply into the
    results of the proxy.  The network is a function from calls to replies ([http]);
    the typed decoders that serde derives, the text of floats and the percent encoder
    are third-party and enter as classes.  For pgvector, [sql] runs a statement. *)

From Stdlib Require Import SpecFloat.
From S2P Require Import Prelude Floats Text Types Retry Upstream Scope Settings.
Open Scope Z_scope.
Open Scope conproxy_scope.

(** ** Calls and replies *)

Inductive Method := GET | POST.
Record HttpCall := { hc_method : Method; hc_url : str; hc_body : option Value }.

(** The text of a float: [f32::to_string], and that of serde_json for a field and for
    a [Value], which is as wide as an [f64]. *)
Class FloatText := { display_f32 : f32 -> str; json_f32_text : f32 -> str; json_value_text : f64 -> str }.
(** A displayed float has no dollar sign and no quote. *)
Class FloatTextLaws (F : FloatText) : Prop := {
  display_plain x : Forall (fun c => c <> 36 /\ c <> 39) (display_f32 x)
}.

Definition json_str (s : str) : Value := VString s.
Definition json_strs (l : list str) : Value := VArray (map VString l).
Definition json_usize (n : Z) : Value := VNumber (Some n) (show_Z n).
(** A float that is not finite is serialized as null. *)
Definition json_f32 `{FloatText} (x : f32) : Value := if is_finite x then VNumber None (json_f32_text x) else VNull.
Definition json_value_f32 `{FloatText} (x : f32) : Value :=
  if is_finite x then VNumber None (json_value_text (f64_of_f32 x)) else VNull.
Definition field (k : string) (v : Value) : str * Value := (lit k, v).
(** [skip_serializing_if = "Option::is_none"] *)
Definition present (k : string) (o : option Value) : list (str * Value) :=
  match o with Some v => [field k v] | None => [] end.

(** [e.is_timeout()] or another failure to send. *)
Definition send_error (r : HttpReply) : option UpstreamError :=
  match r with HttpTimeout => Some Timeout | HttpFailed m => Some (Network m) | HttpStatus _ _ => None end.
(** [read_json_with_timeout]: a body that cannot be read or decoded is a parse error. *)
Definition read_json {A} (decode : str -> result A str) (body : result str UpstreamError) : result A UpstreamError :=
  match body with
  | Ok b => match decode b with Ok a => Ok a | Err m => Err (Parse m) end
  | Err (Network m) => Err (Parse m)
  | Err e => Err e
  end.
(** A reply that is sent, has a good status, and whose body decodes. *)
Definition json_reply {A} (decode : str -> result A str) (r : HttpReply) : result A UpstreamError :=
  match r with
  | HttpTimeout => Err Timeout
  | HttpFailed m => Err (Network m)
  | HttpStatus code body =>
      if negb (status_is_success code) then Err (Status code (match body with Ok b => b | Err _ => [] end))
      else read_json decode body
  end.
(** A health check that reads the status of the body. *)
Definition json_health {A} (decode : str -> result A str) (good : A -> bool) (r : HttpReply) : result bool UpstreamError :=
  match r with
  | HttpTimeout => Err Timeout
  | HttpFailed m => Err (Network m)
  | HttpStatus code body =>
      if negb (status_is_success code) then Ok false
      else match read_json decode body with Ok a => Ok (good a) | Err e => Err e end
  end.
(** A health check by the status of the reply; every failure to send is a network
    error. *)
Definition status_health (timeout_text : str) (r : HttpReply) : result bool UpstreamError :=
  match r with
  | HttpTimeout => Err (Network timeout_text)
  | HttpFailed m => Err (Network m)
  | HttpStatus code _ => Ok (status_is_success code)
  end.

Definition trim_end_slash (s : str) : str := trim_end_by (fun c => c =? 47) s.

(** ** Fields of a document *)

Definition v_get (v : Value) (k : string) : option Value := and_then (as_object v) (fun o => obj_get o (lit k)).
Definition as_str (v : Value) : option str := match v with VString s => Some s | _ => None end.
Definition extract_content (v : Value) : option str :=
  and_then (or_else (v_get v "content") (or_else (v_get v "text") (v_get v "body"))) as_str.
Definition without_keys (ks : list string) (o : list (str * Value)) : list (str * Value) :=
  List.filter (fun kv => negb (one_of ks kv.1)) o.
(** [(k.clone(), v.to_string())]: the values as JSON text. *)
Definition rendered `{Externals} (o : list (str * Value)) : list (str * Value) :=
  map (fun kv => (kv.1, VString (json_to_string kv.2))) o.
Definition content_keys : list string := ["content"; "text"; "body"].
(** The metadata of Qdrant and Pinecone. *)
Definition rendered_metadata `{Externals} (p : Value) : Value :=
  match as_object p with Some o => VObject (rendered (without_keys content_keys o)) | None => VNull end.
Definition below (threshold : option f32) (score : f32) : bool :=
  match threshold with Some t => f_lt score t | None => false end.
Definition wrong_dims (dims : option Z) (vector : list f32) : bool :=
  match dims with Some d => negb (zlen vector =? d) | None => false end.
Definition dims_message (vendor : string) (dims : option Z) (vector : list f32) : str :=
  lit vendor ++ lit " query vector dimension mismatch: expected " ++ show_Z (default 0 dims) ++
  lit ", got " ++ show_Z (zlen vector).
Definition limit_of (r : QueryRequest) : Z := default 10 (top_k r).

(** ** Qdrant *)

Record QdrantConfig := {
  qd_base_url : str; qd_collection : str; qd_timeout : Z; qd_with_payload : bool; qd_with_vectors : bool;
  qd_score_threshold : option f32; qd_api_key : option str
}.
Definition QdrantConfig_default : QdrantConfig :=
  {| qd_base_url := lit "http://localhost:6333"; qd_collection := lit "default"; qd_timeout := from_secs 30;
     qd_with_payload := true; qd_with_vectors := false; qd_score_threshold := None; qd_api_key := None |}.
Inductive QdrantPointId := Uuid (s : str) | Integer (n : Z).
Definition point_id_text (i : QdrantPointId) : str := match i with Uuid s => s | Integer n => show_Z n end.
Record QdrantScoredPoint := { qp_id : QdrantPointId; qp_score : f32; qp_payload : option Value }.

Definition qd_collection_path (c : QdrantConfig) : str :=
  trim_end_slash (qd_base_url c) ++ lit "/collections/" ++ qd_collection c.
Definition qd_search_url (c : QdrantConfig) : str := qd_collection_path c ++ lit "/points/search".
Definition qd_query_url (c : QdrantConfig) : str := qd_collection_path c ++ lit "/points/query".
Definition qd_health_url (c : QdrantConfig) : str := trim_end_slash (qd_base_url c) ++ lit "/".

Definition qd_request `{FloatText} (c : QdrantConfig) (vector : option (list f32)) (query : option str) (limit : Z) : Value :=
  VObject (present "vector" ((fun v => VArray (map json_f32 v)) <$> vector) ++ present "query" (VString <$> query) ++
    [field "limit" (json_usize limit); field "with_payload" (VBool (qd_with_payload c));
     field "with_vector" (VBool (qd_with_vectors c))] ++ present "score_threshold" (json_f32 <$> qd_score_threshold c)).
Definition qd_result `{Externals} (p : QdrantScoredPoint) : SearchResult :=
  {| sr_id := point_id_text (qp_id p); score := qp_score p; content := default [] (and_then (qp_payload p) extract_content);
     metadata := rendered_metadata <$> qp_payload p; sr_upstream_id := None |}.

(** ** Elasticsearch *)

Record ElasticsearchConfig := {
  es_base_url : str; es_index : str; es_timeout : Z; es_search_fields : list str; es_return_fields : list str;
  es_api_key : option str; es_score_threshold : option f32
}.
Definition ElasticsearchConfig_default : ElasticsearchConfig :=
  {| es_base_url := lit "http://localhost:9200"; es_index := lit "documents"; es_timeout := from_secs 30;
     es_search_fields := [lit "content"]; es_return_fields := []; es_api_key := None; es_score_threshold := None |}.
Record EsHit := { eh_id : str; eh_score : option f32; eh_source : option Value }.
Record EsSearchResponse := { es_max_score : option f32; es_hits : list EsHit }.

Definition es_search_url (c : ElasticsearchConfig) : str :=
  trim_end_slash (es_base_url c) ++ lit "/" ++ es_index c ++ lit "/_search".
Definition es_health_url (c : ElasticsearchConfig) : str :=
  trim_end_slash (es_base_url c) ++ lit "/_cluster/health?timeout=5s".
(** The object is a sorted map: its fields in the order of their names. *)
Definition es_query_body `{FloatText} (c : ElasticsearchConfig) (query : str) (size : Z) : Value :=
  VObject ((match es_return_fields c with [] => [] | l => [field "_source" (json_strs l)] end) ++
           present "min_score" (json_value_f32 <$> es_score_threshold c) ++
           [field "query" (VObject [field "multi_match" (VObject
              [field "fields" (json_strs (es_search_fields c)); field "query" (json_str query);
               field "type" (json_str (lit "best_fields"))])]);
            field "size" (json_usize size)]).
Definition es_normalize_score (score max_score : f32) : f32 :=
  if f_le max_score f_zero then f_zero else f_clamp (F32.div score max_score) f_zero f_one.
Definition es_metadata (src : Value) : Value :=
  match src with VObject o => VObject (without_keys content_keys o) | v => v end.
Definition es_result (max_score : f32) (h : EsHit) : SearchResult :=
  {| sr_id := eh_id h; score := es_normalize_score (default f_zero (eh_score h)) max_score;
     content := default [] (and_then (eh_source h) extract_content); metadata := es_metadata <$> eh_source h;
     sr_upstream_id := None |}.
Definition es_parse_hits (r : EsSearchResponse) : list SearchResult :=
  map (es_result (default f_zero (es_max_score r))) (es_hits r).

(** ** Meilisearch *)

Record MeilisearchConfig := {
  ms_base_url : str; ms_index : str; ms_timeout : Z; ms_search_attributes : list str;
  ms_displayed_attributes : list str; ms_api_key : option str; ms_score_threshold : option f32
}.
Definition MeilisearchConfig_default : MeilisearchConfig :=
  {| ms_base_url := lit "http://localhost:7700"; ms_index := lit "documents"; ms_timeout := from_secs 30;
     ms_search_attributes := []; ms_displayed_attributes := []; ms_api_key := None; ms_score_threshold := None |}.

(** The views of a JSON number that [Value] does not keep, and [f64::to_string]. *)
Class NumberViews := { as_i64 : Value -> option Z; as_f64 : Value -> option f64; display_f64 : f64 -> str }.
(** [percent_encoding::utf8_percent_encode] with the set of characters to encode. *)
Class PercentEncode := percent_encode : list Z -> str -> str.
(** Besides the control characters: space, quote, #, %, <, >, ?, backquote, braces,
    bar, backslash, caret and brackets. *)
Definition PATH_SAFE : list Z := [32; 34; 35; 37; 60; 62; 63; 96; 123; 125; 124; 92; 94; 91; 93].

Definition show_i64 (n : Z) : str := if n <? 0 then lit "-" ++ show_Z (- n) else show_Z n.
Definition as_u64 (v : Value) : option Z := match v with VNumber u _ => u | _ => None end.

Section Meili.
Context `{NumberViews}.

Definition ms_search_url `{PercentEncode} (c : MeilisearchConfig) : str :=
  trim_end_slash (ms_base_url c) ++ lit "/indexes/" ++ percent_encode PATH_SAFE (ms_index c) ++ lit "/search".
Definition ms_health_url (c : MeilisearchConfig) : str := trim_end_slash (ms_base_url c) ++ lit "/health".
(** The object is a sorted map: its fields in the order of their names. *)
Definition ms_query_body (c : MeilisearchConfig) (query : str) (limit : Z) : Value :=
  VObject ((match ms_displayed_attributes c with [] => [] | l => [field "attributesToRetrieve" (json_strs l)] end) ++
           (match ms_search_attributes c with [] => [] | l => [field "attributesToSearchOn" (json_strs l)] end) ++
           [field "limit" (json_usize limit); field "q" (json_str query); field "showRankingScore" (VBool true)]).
Definition ms_normalize_score (score : option f32) : f32 := f_clamp (default f_zero score) f_zero f_one.
Definition ranking_score (hit : Value) : option f32 := f32_of_f64 <$> and_then (v_get hit "_rankingScore") as_f64.
Definition id_text (v : Value) : option str :=
  or_else (as_str v) (or_else (show_i64 <$> as_i64 v) (or_else (show_Z <$> as_u64 v) (display_f64 <$> as_f64 v))).
Definition hit_id (hit : Value) : str :=
  default [] (or_else (and_then (v_get hit "id") id_text) (and_then (v_get hit "uid") as_str)).
Definition ms_result (hit : Value) : option SearchResult :=
  let id := hit_id hit in
  let content := default [] (extract_content hit) in
  let metadata := (fun o => VObject (without_keys ["id"; "content"; "text"; "body"; "_rankingScore"; "_formatted"] o))
                    <$> as_object hit in
  match content, id with
  | [], [] => None
  | _, _ => Some {| sr_id := id; score := ms_normalize_score (ranking_score hit); content := content;
                    metadata := metadata; sr_upstream_id := None |}
  end.
Definition ms_parse_hits (hits : list Value) : list SearchResult := omap ms_result hits.
Definition ms_retain (threshold : option f32) (rs : list SearchResult) : list SearchResult :=
  match threshold with Some t => List.filter (fun r => f_ge (score r) t) rs | None => rs end.
End Meili.

(** ** Milvus *)

Record MilvusConfig := {
  mv_base_url : str; mv_collection : str; mv_timeout : Z; mv_api_key : option str; mv_vector_field : str;
  mv_output_fields : list str; mv_dimensions : option Z; mv_score_threshold : option f32
}.
Definition MilvusConfig_default : MilvusConfig :=
  {| mv_base_url := lit "http://localhost:9091"; mv_collection := lit "default"; mv_timeout := from_secs 30;
     mv_api_key := None; mv_vector_field := lit "vector"; mv_output_fields := [lit "content"]; mv_dimensions := None;
     mv_score_threshold := None |}.
Record MilvusHit := {
  mh_id : option Value; mh_distance : option f32; mh_content : option str; mh_entity : option Value
}.
Record MilvusSearchResponse := { mr_code : Z; mr_data : list MilvusHit; mr_message : option str }.

Definition mv_search_url (c : MilvusConfig) : str := trim_end_slash (mv_base_url c) ++ lit "/v2/vectordb/entities/search".
Definition mv_list_url (c : MilvusConfig) : str := trim_end_slash (mv_base_url c) ++ lit "/v2/vectordb/collections/list".
Definition mv_request `{FloatText} (c : MilvusConfig) (vector : list f32) (limit : Z) : Value :=
  VObject ([field "collectionName" (json_str (mv_collection c)); field "data" (VArray [VArray (map json_f32 vector)]);
            field "limit" (json_usize limit)] ++
           (match mv_output_fields c with [] => [] | l => [field "outputFields" (json_strs l)] end) ++
           [field "annsField" (json_str (mv_vector_field c))]).
Definition normalize_milvus_score (distance : option f32) : f32 :=
  f_clamp (F32.sub f_one (default f_zero distance)) f_zero f_one.
Definition mv_id `{Externals} (v : Value) : str :=
  match v with VString s => s | VNumber _ t => t | other => json_to_string other end.
Definition mv_metadata `{Externals} (e : Value) : option Value :=
  (fun o => VObject (rendered (without_keys ["content"; "text"; "body"; "vector"; "id"] o))) <$> as_object e.
Definition mv_result `{Externals} (threshold : option f32) (h : MilvusHit) : option SearchResult :=
  let score := normalize_milvus_score (mh_distance h) in
  if below threshold score then None
  else Some {| sr_id := default (lit "unknown") (mv_id <$> mh_id h); score := score;
               content := default [] (or_else (mh_content h) (and_then (mh_entity h) extract_content));
               metadata := and_then (mh_entity h) mv_metadata; sr_upstream_id := None |}.
Definition mv_map_hits `{Externals} (hits : list MilvusHit) (threshold : option f32) : list SearchResult :=
  omap (mv_result threshold) hits.

(** ** Pinecone *)

Record PineconeConfig := {
  pc_base_url : str; pc_api_key : option str; pc_namespace : option str; pc_timeout : Z; pc_dimensions : option Z;
  pc_include_metadata : bool; pc_score_threshold : option f32
}.
Definition PineconeConfig_default : PineconeConfig :=
  {| pc_base_url := lit "http://localhost:8080"; pc_api_key := None; pc_namespace := None; pc_timeout := from_secs 30;
     pc_dimensions := None; pc_include_metadata := true; pc_score_threshold := None |}.
Record PineconeMatch := { pm_id : option str; pm_score : option f32; pm_metadata : option Value }.

Definition pc_query_url (c : PineconeConfig) : str := trim_end_slash (pc_base_url c) ++ lit "/query".
Definition pc_describe_url (c : PineconeConfig) : str := trim_end_slash (pc_base_url c) ++ lit "/describe_index_stats".
Definition pc_request `{FloatText} (c : PineconeConfig) (vector : list f32) (top_k : Z) : Value :=
  VObject ([field "vector" (VArray (map json_f32 vector)); field "topK" (json_usize top_k);
            field "includeMetadata" (VBool (pc_include_metadata c))] ++ present "namespace" (VString <$> pc_namespace c)).
Definition pc_result `{Externals} (threshold : option f32) (m : PineconeMatch) : option SearchResult :=
  let score := f_clamp (default f_zero (pm_score m)) f_zero f_one in
  if below threshold score then None
  else Some {| sr_id := default (lit "unknown") (pm_id m); score := score;
               content := default [] (and_then (pm_metadata m) extract_content);
               metadata := rendered_metadata <$> pm_metadata m; sr_upstream_id := None |}.
Definition pc_map_matches `{Externals} (ms : list PineconeMatch) (threshold : option f32) : list SearchResult :=
  omap (pc_result threshold) ms.

(** ** The queries over HTTP

    [took] is the elapsed time in milliseconds and [now] the wall clock when the reply
    has been decoded. *)
Class VendorDecoders := {
  decode_qdrant : str -> result (list QdrantScoredPoint) str;
  decode_collection_status : str -> result str str;
  decode_es : str -> result EsSearchResponse str;
  decode_cluster_status : str -> result str str;
  decode_meili : str -> result (list Value) str;
  decode_meili_health : str -> result str str;
  decode_milvus : str -> result MilvusSearchResponse str;
  decode_pinecone : str -> result (list PineconeMatch) str
}.

Section Queries.
Context `{Externals} `{FloatText} `{NumberViews} `{PercentEncode} `{VendorDecoders}.
Variables (http : HttpCall -> HttpReply) (took now : Z).

Definition http_post (url : str) (body : Value) : HttpReply := http {| hc_method := POST; hc_url := url; hc_body := Some body |}.
Definition http_get (url : str) : HttpReply := http {| hc_method := GET; hc_url := url; hc_body := None |}.
Definition replied {A} (f : A -> list SearchResult) (r : result A UpstreamError) : result QueryResponse UpstreamError :=
  match r with Ok a => Ok (with_results took now (f a)) | Err e => Err e end.

Definition qd_search (c : QdrantConfig) (body : Value) : result QueryResponse UpstreamError :=
  replied (map qd_result) (json_reply decode_qdrant (http_post (qd_search_url c) body)).
Definition qd_query (c : QdrantConfig) (r : QueryRequest) : result QueryResponse UpstreamError :=
  qd_search c (qd_request c None (Some (query r)) (limit_of r)).
Definition qd_query_vector (c : QdrantConfig) (r : QueryRequest) (v : list f32) : result QueryResponse UpstreamError :=
  qd_search c (qd_request c (Some v) None (limit_of r)).
Definition qd_health_check (timeout_text : str) (c : QdrantConfig) : result bool UpstreamError :=
  match status_health timeout_text (http_get (qd_health_url c)) with
  | Ok true =>
      match http_get (qd_collection_path c) with
      | HttpTimeout => Err (Network timeout_text)
      | r => json_health decode_collection_status (fun s => str_eqb s (lit "green")) r
      end
  | other => other
  end.
Definition qd_discover_query_mode (timeout_text : str) (c : QdrantConfig) : result QueryMode UpstreamError :=
  match http_post (qd_query_url c) (VObject [field "limit" (json_usize 1); field "query" (json_str (lit "test"));
                                        field "with_payload" (VBool false)]) with
  | HttpTimeout => Err (Network timeout_text)
  | HttpFailed m => Err (Network m)
  | HttpStatus code body =>
      if status_is_success code then Ok TextNative
      else
        let body := match body with Ok b => b | Err _ => [] end in
        if (code =? 400) || contains_str body (lit "vector") || contains_str body (lit "embedding") then Ok VectorOnly
        else if code =? 404 then Ok VectorOnly
        else Ok UnknownMode
  end.

Definition es_query (c : ElasticsearchConfig) (r : QueryRequest) : result QueryResponse UpstreamError :=
  replied es_parse_hits (json_reply decode_es (http_post (es_search_url c) (es_query_body c (query r) (limit_of r)))).
Definition es_health_check (c : ElasticsearchConfig) : result bool UpstreamError :=
  json_health decode_cluster_status (fun s => str_eqb s (lit "green") || str_eqb s (lit "yellow")) (http_get (es_health_url c)).

Definition ms_query (c : MeilisearchConfig) (r : QueryRequest) : result QueryResponse UpstreamError :=
  replied (fun hits => ms_retain (ms_score_threshold c) (ms_parse_hits hits))
    (json_reply decode_meili (http_post (ms_search_url c) (ms_query_body c (query r) (limit_of r)))).
Definition ms_health_check (c : MeilisearchConfig) : result bool UpstreamError :=
  json_health decode_meili_health (fun s => str_eqb s (lit "available")) (http_get (ms_health_url c)).

Definition vector_required (vendor : string) : result QueryResponse UpstreamError :=
  Err (UnsupportedQueryType (lit vendor ++ lit " requires vector queries (use query_vector)")).
Definition mv_query : result QueryResponse UpstreamError := vector_required "milvus".
Definition mv_query_vector (c : MilvusConfig) (r : QueryRequest) (v : list f32) : result QueryResponse UpstreamError :=
  if wrong_dims (mv_dimensions c) v then Err (Network (dims_message "milvus" (mv_dimensions c) v))
  else
    match json_reply decode_milvus (http_post (mv_search_url c) (mv_request c v (limit_of r))) with
    | Err e => Err e
    | Ok m =>
        if negb (mr_code m =? 0) then
          Err (Network (lit "milvus search error code " ++ show_i64 (mr_code m) ++ lit ": " ++ default [] (mr_message m)))
        else Ok (with_results took now (mv_map_hits (mr_data m) (mv_score_threshold c)))
    end.
Definition mv_health_check (timeout_text : str) (c : MilvusConfig) : result bool UpstreamError :=
  status_health timeout_text (http_post (mv_list_url c) (VObject [])).

Definition pc_query : result QueryResponse UpstreamError := vector_required "pinecone".
Definition pc_query_vector (c : PineconeConfig) (r : QueryRequest) (v : list f32) : result QueryResponse UpstreamError :=
  if wrong_dims (pc_dimensions c) v then Err (Network (dims_message "pinecone" (pc_dimensions c) v))
  else replied (fun ms => pc_map_matches ms (pc_score_threshold c))
         (json_reply decode_pinecone (http_post (pc_query_url c) (pc_request c v (limit_of r)))).
Definition pc_health_check (timeout_text : str) (c : PineconeConfig) : result bool UpstreamError :=
  status_health timeout_text (http_post (pc_describe_url c) (VObject [])).
End Queries.

(** ** pgvector *)

Inductive DistanceMetric := Cosine | L2 | InnerProduct.
Definition metric_operator (m : DistanceMetric) : str :=
  lit (match m with Cosine => "<=>" | L2 => "<->" | InnerProduct => "<#>" end).
Definition to_similarity (m : DistanceMetric) (distance : f64) : f32 :=
  f32_of_f64 (match m with
              | Cosine => F64.sub (F64.of_Z 1) distance
              | L2 => F64.div (F64.of_Z 1) (F64.add (F64.of_Z 1) distance)
              | InnerProduct => SFopp distance
              end).
Record PgvectorConfig := {
  pg_url : str; pg_table : str; pg_embedding_column : str; pg_content_column : str; pg_title_column : option str;
  pg_metadata_columns : list str; pg_distance_metric : DistanceMetric; pg_dimensions : option Z; pg_timeout_secs : Z
}.
Inductive PgConfigError := PgUrl | PgTable | PgEmbedding | PgContent | PgUnsafe (name : str).
Definition is_safe_identifier (s : str) : bool :=
  match s with [] => false | _ => (str_len s <=? 128) && forallb (fun c => is_ascii_alphanumeric c || (c =? 95)) s end.
Definition pg_names (c : PgvectorConfig) : list str :=
  [pg_table c; pg_embedding_column c; pg_content_column c] ++ option_list (pg_title_column c) ++ pg_metadata_columns c.
Definition is_empty_str (s : str) : bool := match s with [] => true | _ => false end.
Definition pg_validate (c : PgvectorConfig) : result unit PgConfigError :=
  if is_empty_str (pg_url c) then Err PgUrl
  else if is_empty_str (pg_table c) then Err PgTable
  else if is_empty_str (pg_embedding_column c) then Err PgEmbedding
  else if is_empty_str (pg_content_column c) then Err PgContent
  else match List.find (fun n => negb (is_safe_identifier n)) (pg_names c) with
       | Some n => Err (PgUnsafe n)
       | None => Ok tt
       end.

(** [join]: the pieces with a separator between them. *)
Fixpoint join_with (sep : str) (l : list str) : str :=
  match l with [] => [] | [x] => x | x :: l => x ++ sep ++ join_with sep l end.
Definition pg_distance (c : PgvectorConfig) : str := pg_embedding_column c ++ lit " " ++ metric_operator (pg_distance_metric c).
Definition build_select_columns (c : PgvectorConfig) : str :=
  join_with (lit ", ") ([pg_content_column c] ++ option_list (pg_title_column c) ++ pg_metadata_columns c ++
                   [pg_distance c ++ lit " $1::vector AS distance"]).
Definition build_query_sql (c : PgvectorConfig) : str :=
  lit "SELECT " ++ build_select_columns c ++ lit " FROM " ++ pg_table c ++ lit " ORDER BY " ++ pg_distance c ++
  lit " $1::vector LIMIT $2".
Definition format_vector `{FloatText} (v : list f32) : str := lit "[" ++ join_with (lit ",") (map display_f32 v) ++ lit "]".

(** [str::replace] of a pattern that is not empty: [skip] characters of the last
    match are still to be dropped. *)
Fixpoint replace_from (pat new : str) (skip : nat) (s : str) : str :=
  match s with
  | [] => []
  | c :: s' => match skip with
               | S k => replace_from pat new k s'
               | O => if starts_with s pat then new ++ replace_from pat new (length pat - 1) s'
                      else c :: replace_from pat new O s'
               end
  end.
Definition replace (pat new s : str) : str := replace_from pat new O s.
(** The statement that is sent. *)
Definition pg_sent_sql `{FloatText} (c : PgvectorConfig) (v : list f32) : str :=
  replace (lit "$2") (lit "$1") (replace (lit "$1") (lit "'" ++ format_vector v ++ lit "'") (build_query_sql c)).

(** A cell of a row as the adapter can read it. *)
Inductive PgCell := PgText (s : str) | PgFloat (x : f64) | PgInt (n : Z) | PgOther.
Definition try_get_string (row : list PgCell) (i : nat) : option str :=
  match row !! i with Some (PgText s) => Some s | _ => None end.
(** [row.get] panics where [try_get] fails. *)
Definition get_string (row : list PgCell) (i : nat) : outcome str :=
  match try_get_string row i with Some s => Ret s | None => Panic end.
Definition get_float (row : list PgCell) (i : nat) : outcome f64 :=
  match row !! i with Some (PgFloat x) => Ret x | _ => Panic end.

(** [serde_json::Map::insert]: a map sorted by its keys. *)
Fixpoint str_lt (a b : str) : bool :=
  match a, b with
  | _, [] => false
  | [], _ => true
  | x :: a, y :: b => (x <? y) || ((x =? y) && str_lt a b)
  end.
Fixpoint obj_insert (k : str) (v : Value) (o : list (str * Value)) : list (str * Value) :=
  match o with
  | [] => [(k, v)]
  | (k', v') :: o' => if str_eqb k k' then (k, v) :: o'
                      else if str_lt k k' then (k, v) :: o else (k', v') :: obj_insert k v o'
  end.
Fixpoint pg_columns (row : list PgCell) (i : nat) (names : list str) (o : list (str * Value)) : list (str * Value) :=
  match names with
  | [] => o
  | name :: names =>
      pg_columns row (S i) names (match try_get_string row i with Some v => obj_insert name (VString v) o | None => o end)
  end.
Definition pg_metadata (c : PgvectorConfig) (row : list PgCell) : option Value :=
  let offset := match pg_title_column c with Some _ => 2%nat | None => 1%nat end in
  match pg_columns row offset (pg_metadata_columns c) [] with [] => None | o => Some (VObject o) end.
Definition pg_row (c : PgvectorConfig) (idx : Z) (row : list PgCell) : outcome SearchResult :=
  obind (get_string row 0) (fun content =>
  let title := match pg_title_column c with Some _ => try_get_string row 1 | None => None end in
  obind (get_float row (length row - 1)) (fun distance =>
  Ret {| sr_id := default (lit "row-" ++ show_Z idx) title; score := to_similarity (pg_distance_metric c) distance;
         content := content; metadata := pg_metadata c row; sr_upstream_id := None |})).
Fixpoint pg_rows (c : PgvectorConfig) (idx : Z) (rows : list (list PgCell)) : outcome (list SearchResult) :=
  match rows with
  | [] => Ret []
  | row :: rows => obind (pg_row c idx row) (fun r => obind (pg_rows c (idx + 1) rows) (fun rs => Ret (r :: rs)))
  end.
(** [as i64] of a [usize]. *)
Definition usize_as_i64 (n : Z) : Z := if n <? 2 ^ 63 then n else n - 2 ^ 64.

Section Pg.
Context `{FloatText} (sql : str -> list Z -> result (list (list PgCell)) str).

Definition pg_query_vector (took now : Z) (c : PgvectorConfig) (r : QueryRequest) (v : list f32)
  : outcome (result QueryResponse UpstreamError) :=
  if wrong_dims (pg_dimensions c) v then Ret (Err (Network (dims_message "pgvector" (pg_dimensions c) v)))
  else
    let text := pg_sent_sql c v in
    match sql text [usize_as_i64 (limit_of r)] with
    | Err e => Ret (Err (Network (lit "pgvector query: " ++ text ++ lit ": " ++ e)))
    | Ok rows => obind (pg_rows c 0 rows) (fun rs => Ret (Ok (with_results took now rs)))
    end.
Definition pg_query : result QueryResponse UpstreamError := vector_required "pgvector".
(** The check of the dimensions when the adapter connects; the row has an [i32],
    [as usize] of which extends its sign. *)
Definition pg_check_dims (c : PgvectorConfig) : outcome (result unit UpstreamError) :=
  match pg_dimensions c with
  | None => Ret (Ok tt)
  | Some dims =>
      match sql (lit "SELECT vector_dims(" ++ pg_embedding_column c ++ lit ") FROM " ++ pg_table c ++ lit " LIMIT 1") [] with
      | Err e => Ret (Err (Network (lit "pgvector dimension check failed: " ++ e)))
      | Ok [] => Ret (Ok tt)
      | Ok (row :: _) =>
          match head row with
          | Some (PgInt n) =>
              if negb (wrap 64 n =? dims) then
                Ret (Err (Network (lit "pgvector dimension mismatch: expected " ++ show_Z dims ++ lit ", got " ++ show_i64 n)))
              else Ret (Ok tt)
          | _ => Panic
          end
      end
  end.
Definition pg_health_check : result bool UpstreamError :=
  match sql (lit "SELECT 1") [] with Ok _ => Ok true | Err e => Err (Network (lit "pgvector health: " ++ e)) end.
End Pg.
