(* ===== verification/VendorsProps.v ===== *)
(** * Properties of the vendor adapters *)

From Stdlib Require Import SpecFloat.
From S2P Require Import Prelude Floats Text Types Retry Upstream Scope Settings Vendors.
Open Scope Z_scope.
Open Scope conproxy_scope.

(** ** Scores *)

Definition unit_score (r : SearchResult) : Prop := is_nan (score r) = true \/ in_unit (score r) = true.

Lemma clamp_unit x : is_nan (f_clamp x f_zero f_one) = true \/ in_unit (f_clamp x f_zero f_one) = true.
Proof.
  destruct (is_nan x) eqn:E; [left; by destruct x|right]. unfold in_unit.
  destruct (f_clamp_bounds x f_zero f_one) as [H1 H2]; [done|done|]. by rewrite H1, H2.
Qed.
Lemma omap_results {A} (f : A -> option SearchResult) (P : SearchResult -> Prop) l :
  (forall a r, f a = Some r -> P r) -> Forall P (omap f l).
Proof.
  intros Hf. apply Forall_forall. intros r Hr. apply list_elem_of_omap in Hr as (a & _ & Ha). by apply (Hf a).
Qed.

Section Scores.
Context `{Externals} `{FloatText} `{NumberViews} `{PercentEncode} `{VendorDecoders}.

Lemma replied_ok {A} took now (f : A -> list SearchResult) r resp :
  replied took now f r = Ok resp -> exists a, r = Ok a /\ results resp = f a.
Proof. unfold replied. destruct r as [a|]; [|done]. intros [= <-]. by exists a. Qed.

Lemma es_hits_unit r : Forall unit_score (es_parse_hits r).
Proof.
  unfold es_parse_hits. apply Forall_map, Forall_true. intros h. unfold unit_score, es_result, es_normalize_score; simpl.
  destruct (f_le _ _); [by right|apply clamp_unit].
Qed.
Definition fits (t : option f32) (r : SearchResult) : Prop := unit_score r /\ below t (score r) = false.
Lemma ms_hits_fit t hits : Forall (fits t) (ms_retain t (ms_parse_hits hits)).
Proof.
  assert (Hu : Forall unit_score (ms_parse_hits hits)).
  { apply omap_results. intros hit r Hr. unfold ms_result in Hr. unfold unit_score.
    repeat case_match; simplify_eq; apply clamp_unit. }
  unfold ms_retain. destruct t as [t|]; [|eapply Forall_impl; [apply Hu|]; done].
  apply Forall_forall. intros r Hr. apply list_elem_of_In, filter_In in Hr as [Hin Hge].
  rewrite Forall_forall in Hu. split; [apply Hu; by apply list_elem_of_In|]. simpl. unfold f_ge in Hge.
  rewrite f_lt_not_le by eauto using f_le_nan_l, f_le_nan_r. by apply negb_false_iff.
Qed.
Lemma mv_hits_fit t hits : Forall (fits t) (mv_map_hits hits t).
Proof.
  apply omap_results. intros h r Hr. unfold mv_result in Hr. destruct (below _ _) eqn:E; [done|]. injection Hr as <-.
  split; [apply clamp_unit|done].
Qed.
Lemma pc_matches_fit t ms : Forall (fits t) (pc_map_matches ms t).
Proof.
  apply omap_results. intros h r Hr. unfold pc_result in Hr. destruct (below _ _) eqn:E; [done|]. injection Hr as <-.
  split; [apply clamp_unit|done].
Qed.

(** The scores that Elasticsearch, Meilisearch, Milvus and Pinecone results carry
    into the cascade are in [0, 1] (or NaN, when the reply's numbers overflow), and
    for the last three none is below the configured threshold. *)
Theorem vendor_scores (http : HttpCall -> HttpReply) (took now : Z) (r : QueryRequest) (v : list f32) (resp : QueryResponse) :
  (forall c, es_query http took now c r = Ok resp -> Forall unit_score (results resp)) /\
  (forall c, ms_query http took now c r = Ok resp -> Forall (fits (ms_score_threshold c)) (results resp)) /\
  (forall c, mv_query_vector http took now c r v = Ok resp -> Forall (fits (mv_score_threshold c)) (results resp)) /\
  (forall c, pc_query_vector http took now c r v = Ok resp -> Forall (fits (pc_score_threshold c)) (results resp)).
Proof.
  split_and!; intros c Hq.
  - apply replied_ok in Hq as (a & _ & ->). apply es_hits_unit.
  - apply replied_ok in Hq as (a & _ & ->). apply ms_hits_fit.
  - unfold mv_query_vector in Hq. destruct (wrong_dims _ _); [done|]. destruct (json_reply _ _); [|done].
    destruct (negb _); [done|]. injection Hq as <-. apply mv_hits_fit.
  - unfold pc_query_vector in Hq. destruct (wrong_dims _ _); [done|]. apply replied_ok in Hq as (a & _ & ->).
    apply pc_matches_fit.
Qed.
End Scores.

(** A Milvus hit without a distance counts as a perfect match. *)
Lemma missing_distance_is_perfect : normalize_milvus_score None = f_one.
Proof. reflexivity. Qed.
(** Without a maximal score every Elasticsearch hit scores zero, the best one too. *)
Lemma no_max_score_zero hits r : r ∈ es_parse_hits {| es_max_score := None; es_hits := hits |} -> score r = f_zero.
Proof. unfold es_parse_hits. intros Hr. apply list_elem_of_fmap in Hr as (h & -> & _). reflexivity. Qed.
(** A cosine distance of two is a similarity of minus one. *)
Lemma cosine_below_zero : to_similarity Cosine (F64.of_Z 2) = F32.of_Z (-1).
Proof. vm_compute. reflexivity. Qed.

(** ** Metadata *)

Lemma find_map_value {A B} (f : A -> B) (k : str) (o : list (str * A)) :
  snd <$> List.find (fun kv => str_eqb (fst kv) k) (map (fun kv => (kv.1, f kv.2)) o)
  = f <$> (snd <$> List.find (fun kv => str_eqb (fst kv) k) o).
Proof. induction o as [|[k' v] o IH]; simpl; [done|]. by case_match. Qed.
Lemma obj_get_without ks o k : obj_get (without_keys ks o) k = if one_of ks k then None else obj_get o k.
Proof.
  unfold obj_get, without_keys. induction o as [|[k' v] o IH]; simpl; [by case_match|].
  destruct (one_of ks k') eqn:E; simpl.
  - rewrite IH. destruct (str_eqb k' k) eqn:Ek; [|done]. apply bool_decide_eq_true in Ek as ->. by rewrite E.
  - destruct (str_eqb k' k) eqn:Ek; simpl; [|apply IH]. apply bool_decide_eq_true in Ek as ->. by rewrite E.
Qed.
Lemma obj_get_rendered `{Externals} o k : obj_get (rendered o) k = (fun v => VString (json_to_string v)) <$> obj_get o k.
Proof. apply (find_map_value (fun v => VString (json_to_string v))). Qed.

(** The metadata of a document is its other fields: as they are for Elasticsearch,
    as JSON text for Qdrant, Pinecone and Milvus; the content is in none of them. *)
Theorem metadata_exact `{Externals} (o : list (str * Value)) (k : string) :
  v_get (es_metadata (VObject o)) k = (if one_of content_keys (lit k) then None else v_get (VObject o) k) /\
  v_get (rendered_metadata (VObject o)) k
    = (if one_of content_keys (lit k) then None else (fun v => VString (json_to_string v)) <$> v_get (VObject o) k).
Proof.
  unfold v_get, es_metadata, rendered_metadata. cbn [and_then as_object].
  rewrite obj_get_rendered, !obj_get_without. split; [done|]. by destruct (one_of _ _).
Qed.

(** ** The statement of pgvector *)

(** Neither a dollar sign nor a quote. *)
Definition unquoted (s : str) : Prop := Forall (fun c => c <> 36 /\ c <> 39) s.
Definition plainb (s : str) : bool := forallb (fun c => negb (c =? 36) && negb (c =? 39)) s.
Lemma plain_b s : plainb s = true -> unquoted s.
Proof.
  unfold plainb, unquoted. rewrite forallb_forall, Forall_forall. intros Hs c Hc. apply list_elem_of_In in Hc.
  specialize (Hs _ Hc). apply andb_true_iff in Hs as [H1 H2]. apply negb_true_iff in H1, H2. by reflect_Z.
Qed.
Lemma plain_app a b : unquoted (a ++ b) <-> unquoted a /\ unquoted b.
Proof. apply Forall_app. Qed.
Ltac plain_literal := apply plain_b; vm_compute; reflexivity.

Lemma safe_plain s : is_safe_identifier s = true -> unquoted s.
Proof.
  unfold is_safe_identifier. destruct s as [|c s]; [done|]. intros Hs. apply andb_true_iff in Hs as [_ Hs].
  apply plain_b. revert Hs. unfold plainb. rewrite !forallb_forall. intros Hs x Hx. specialize (Hs x Hx).
  unfold is_ascii_alphanumeric, is_ascii_digit, is_ascii_upper, is_ascii_lower in Hs.
  destruct (x =? 36) eqn:E1; reflect_Z; [subst; discriminate Hs|]. destruct (x =? 39) eqn:E2; reflect_Z; [subst; discriminate Hs|done].
Qed.

Lemma join_with_snoc sep l x : join_with sep (l ++ [x]) = concat (map (fun y => y ++ sep) l) ++ x.
Proof.
  induction l as [|y l IH]; [done|]. simpl. destruct (l ++ [x]) as [|z l'] eqn:E; [by destruct l|].
  rewrite <- E in *. rewrite IH. by rewrite <- !app_assoc.
Qed.
Lemma join_plain sep l : unquoted sep -> Forall unquoted l -> unquoted (join_with sep l).
Proof.
  intros Hs. induction 1 as [|x l Hx Hl IH]; [constructor|]. simpl. destruct l; [done|].
  rewrite !plain_app. done.
Qed.
Lemma concat_plain sep l : unquoted sep -> Forall unquoted l -> unquoted (concat (map (fun y => y ++ sep) l)).
Proof. intros Hs. induction 1; simpl; [constructor|]. rewrite !plain_app. done. Qed.

(** A pattern that starts with a dollar sign is not found in unquoted text. *)
Definition no_dollar (s : str) : Prop := Forall (fun c => c <> 36) s.
Lemma plain_no_dollar s : unquoted s -> no_dollar s.
Proof. intros Hs. eapply Forall_impl; [apply Hs|]. by intros c [? _]. Qed.
Lemma replace_no_dollar d new a b : no_dollar a -> replace [36; d] new (a ++ b) = a ++ replace [36; d] new b.
Proof.
  unfold replace. induction 1 as [|c a Hc _ IH]; [done|]. cbn -[Z.eqb].
  destruct (36 =? c) eqn:E; reflect_Z; [congruence|]. cbn [andb]. by rewrite IH.
Qed.
Lemma replace_plain d new a b : unquoted a -> replace [36; d] new (a ++ b) = a ++ replace [36; d] new b.
Proof. intros Ha. by apply replace_no_dollar, plain_no_dollar. Qed.
Lemma replace_hit d new b : replace [36; d] new (36 :: d :: b) = new ++ replace [36; d] new b.
Proof. unfold replace. cbn -[Z.eqb]. rewrite !Z.eqb_refl. destruct b; cbn; [done|done]. Qed.
Lemma replace_miss d e new : d <> e -> replace [36; d] new [36; e] = [36; e].
Proof. intros Hde. unfold replace. cbn -[Z.eqb]. destruct (d =? e) eqn:E; reflect_Z; [done|]. cbn -[Z.eqb]. by rewrite !andb_false_r. Qed.

(** The text of the statement around the vector and the limit. *)
Definition sql_head (c : PgvectorConfig) : str :=
  lit "SELECT " ++ concat (map (fun y => y ++ lit ", ") ([pg_content_column c] ++ option_list (pg_title_column c) ++
    pg_metadata_columns c)) ++ pg_distance c ++ lit " ".
Definition sql_middle (c : PgvectorConfig) : str :=
  lit "::vector AS distance FROM " ++ pg_table c ++ lit " ORDER BY " ++ pg_distance c ++ lit " ".
Definition sql_end : str := lit "::vector LIMIT ".
Definition sql_with (c : PgvectorConfig) (vector limit : str) : str :=
  sql_head c ++ vector ++ sql_middle c ++ vector ++ sql_end ++ limit.

Lemma build_query_sql_with c : build_query_sql c = sql_with c (lit "$1") (lit "$2").
Proof.
  unfold build_query_sql, build_select_columns, sql_with, sql_head, sql_middle, sql_end.
  set (cols := [pg_content_column c] ++ option_list (pg_title_column c) ++ pg_metadata_columns c).
  replace ([pg_content_column c] ++ option_list (pg_title_column c) ++ pg_metadata_columns c ++
    [pg_distance c ++ lit " $1::vector AS distance"]) with (cols ++ [pg_distance c ++ lit " $1::vector AS distance"])
    by (unfold cols; by rewrite <- !app_assoc).
  rewrite join_with_snoc.
  change (lit " $1::vector AS distance") with (lit " " ++ lit "$1" ++ lit "::vector AS distance").
  change (lit " $1::vector LIMIT $2") with (lit " " ++ lit "$1" ++ lit "::vector LIMIT " ++ lit "$2").
  change (lit "::vector AS distance FROM ") with (lit "::vector AS distance" ++ lit " FROM ").
  by rewrite <- !app_assoc.
Qed.

Section Statement.
Context (c : PgvectorConfig) (Hsafe : Forall (fun n => is_safe_identifier n = true) (pg_names c)).

Lemma names_plain : Forall unquoted (pg_names c).
Proof. eapply Forall_impl; [apply Hsafe|]. apply safe_plain. Qed.
Lemma distance_plain : unquoted (pg_distance c).
Proof.
  pose proof names_plain as Hn. unfold pg_names in Hn. simpl in Hn.
  apply Forall_cons in Hn as [_ Hn]. apply Forall_cons in Hn as [He _].
  unfold pg_distance. rewrite !plain_app. split_and!; [done|plain_literal|]. destruct (pg_distance_metric c); plain_literal.
Qed.
Lemma head_plain : unquoted (sql_head c).
Proof.
  pose proof names_plain as Hn. unfold pg_names in Hn. simpl in Hn.
  apply Forall_cons in Hn as [_ Hn]. apply Forall_cons in Hn as [_ Hn].
  unfold sql_head. rewrite !plain_app. split_and!; [plain_literal| |apply distance_plain|plain_literal].
  apply concat_plain; [plain_literal|done].
Qed.
Lemma middle_plain : unquoted (sql_middle c).
Proof.
  pose proof names_plain as Hn. unfold pg_names in Hn. simpl in Hn. apply Forall_cons in Hn as [Ht _].
  unfold sql_middle. rewrite !plain_app. split_and!; [plain_literal|done|plain_literal|apply distance_plain|plain_literal].
Qed.
Lemma end_plain : unquoted sql_end.
Proof. plain_literal. Qed.

Lemma replace_vector v : replace (lit "$1") v (sql_with c (lit "$1") (lit "$2")) = sql_with c v (lit "$2").
Proof.
  unfold sql_with. change (lit "$1") with [36; 49].
  rewrite replace_plain by apply head_plain. cbn [app]. rewrite replace_hit, replace_plain by apply middle_plain.
  rewrite replace_hit, replace_plain by apply end_plain. by do 5 f_equal.
Qed.
Lemma replace_limit v l : no_dollar v -> replace (lit "$2") l (sql_with c v (lit "$2")) = sql_with c v l.
Proof.
  intros Hv. unfold sql_with. change (lit "$2") with [36; 50].
  rewrite replace_plain by apply head_plain. rewrite replace_no_dollar by done.
  rewrite replace_plain by apply middle_plain. rewrite replace_no_dollar by done.
  rewrite replace_plain by apply end_plain. do 5 f_equal. rewrite (replace_hit 50 l []). apply app_nil_r.
Qed.

Definition quotes (s : str) : nat := length (List.filter (Z.eqb 39) s).
Lemma quotes_app a b : quotes (a ++ b) = (quotes a + quotes b)%nat.
Proof. unfold quotes. by rewrite List.filter_app, length_app. Qed.
Lemma quotes_plain s : unquoted s -> quotes s = 0%nat.
Proof.
  unfold quotes. induction 1 as [|x s [_ Hx] _ IH]; [done|]. cbn -[Z.eqb].
  destruct (39 =? x) eqn:E; reflect_Z; [congruence|done].
Qed.
Lemma format_plain `{F : FloatText} {L : FloatTextLaws F} v : unquoted (format_vector v).
Proof.
  unfold format_vector. rewrite !plain_app. split_and!; [plain_literal| |plain_literal]. apply join_plain; [plain_literal|].
  apply Forall_map, Forall_true. intros x. apply display_plain.
Qed.
End Statement.

Lemma pg_validate_safe c : pg_validate c = Ok tt -> Forall (fun n => is_safe_identifier n = true) (pg_names c).
Proof.
  unfold pg_validate. intros H. repeat (case_match; [done|]).
  destruct (List.find _ _) eqn:E; [done|]. apply Forall_forall. intros n Hn. apply list_elem_of_In in Hn.
  pose proof (List.find_none _ _ E _ Hn) as Hs. by apply negb_false_iff.
Qed.

(** C35: for an accepted configuration the statement sent to PostgreSQL is the
    intended one, whatever the names and the vector: the two textual replacements put
    the quoted vector in its two places and renumber the limit, touch nothing else,
    and the only quotes are the four around the vector. *)
Theorem pg_statement_exact `{F : FloatText} {L : FloatTextLaws F} (c : PgvectorConfig) (v : list f32)
  (Hc : pg_validate c = Ok tt) :
  pg_sent_sql c v = sql_with c (lit "'" ++ format_vector v ++ lit "'") (lit "$1") /\ quotes (pg_sent_sql c v) = 4%nat.
Proof.
  apply pg_validate_safe in Hc. pose proof (format_plain v) as Hf.
  assert (E : pg_sent_sql c v = sql_with c (lit "'" ++ format_vector v ++ lit "'") (lit "$1")).
  { unfold pg_sent_sql. rewrite build_query_sql_with, replace_vector, replace_limit; [done|done| |done].
    unfold no_dollar. rewrite !Forall_app. split_and!; [by repeat constructor|by apply plain_no_dollar|by repeat constructor]. }
  split; [done|]. rewrite E. unfold sql_with. rewrite !quotes_app, (quotes_plain _ (head_plain c Hc)),
    (quotes_plain _ (middle_plain c Hc)), (quotes_plain _ end_plain), (quotes_plain _ Hf). reflexivity.
Qed.

Definition DemoFloatText : FloatText :=
  {| display_f32 := fun _ => lit "0.5"; json_f32_text := fun _ => lit "0.5"; json_value_text := fun _ => lit "0.5" |}.
Lemma DemoFloatText_laws : FloatTextLaws DemoFloatText.
Proof. split. intros x. plain_literal. Qed.
Definition demo_pg : PgvectorConfig :=
  {| pg_url := lit "postgres://db"; pg_table := lit "docs"; pg_embedding_column := lit "emb";
     pg_content_column := lit "body"; pg_title_column := None; pg_metadata_columns := []; pg_distance_metric := Cosine;
     pg_dimensions := None; pg_timeout_secs := 30 |}.
Lemma pg_statement_exact_witness :
  @pg_sent_sql DemoFloatText demo_pg [f_one; f_one]
  = lit "SELECT body, emb <=> '[0.5,0.5]'::vector AS distance FROM docs ORDER BY emb <=> '[0.5,0.5]'::vector LIMIT $1".
Proof.
  rewrite (proj1 (@pg_statement_exact DemoFloatText DemoFloatText_laws demo_pg [f_one; f_one] eq_refl)).
  vm_compute. reflexivity.
Defined.

(** ** Rows *)

(** The first cell is text and the last one a number. *)
Definition row_ok (row : list PgCell) : bool :=
  match row !! 0%nat, row !! (length row - 1)%nat with Some (PgText _), Some (PgFloat _) => true | _, _ => false end.
Lemma pg_row_ok c idx row :
  match pg_row c idx row with Panic => row_ok row = false | Ret r => row_ok row = true end.
Proof.
  unfold pg_row, row_ok, get_string, get_float, try_get_string.
  destruct (row !! 0%nat) as [[]|]; simpl; try done. by destruct (row !! (length row - 1)%nat) as [[]|].
Qed.
Lemma pg_rows_ok c rows : forall idx,
  match pg_rows c idx rows with
  | Panic => forallb row_ok rows = false
  | Ret rs => forallb row_ok rows = true /\ length rs = length rows
  end.
Proof.
  induction rows as [|row rows IH]; intros idx; simpl; [done|]. pose proof (pg_row_ok c idx row) as Hr.
  destruct (pg_row c idx row); simpl; [|by rewrite Hr]. specialize (IH (idx + 1)).
  destruct (pg_rows c (idx + 1) rows); simpl; [|by rewrite IH, andb_false_r]. rewrite Hr. destruct IH as [-> ->]. done.
Qed.

(** A vector query panics exactly when the statement succeeds with a row whose content
    is not text (NULL, say) or whose distance is not a number; otherwise it returns a
    result for every row, or an error. *)
Theorem pg_panics_iff `{FloatText} (sql : str -> list Z -> result (list (list PgCell)) str) took now c r v :
  pg_query_vector sql took now c r v = Panic <->
  wrong_dims (pg_dimensions c) v = false /\
  exists rows, sql (pg_sent_sql c v) [usize_as_i64 (limit_of r)] = Ok rows /\ forallb row_ok rows = false.
Proof.
  unfold pg_query_vector. destruct (wrong_dims _ _); [split; [done|by intros [? _]]|].
  destruct (sql _ _) as [rows|]; [|split; [done|by intros (_ & ? & [=] & _)]].
  pose proof (pg_rows_ok c rows 0) as Hr. destruct (pg_rows c 0 rows); simpl.
  - split; [done|]. intros (_ & ? & [= <-] & Hf). destruct Hr as [Hr _]. congruence.
  - split; [|done]. intros _. split; [done|]. by exists rows.
Qed.
