(* ===== verification/Admin.v ===== *)
(** * Reload of a running proxy (src/src/proxy/server/mod.rs apply_reload)

    The reload of the configuration into the live state: what it rejects, what it
    changes, what it keeps, and the report it gives.  The texts of the reload report are constructors. *)

From Stdlib Require Import SpecFloat.
From S2P Require Import Prelude Floats Text Types Cache CacheInv CacheSpec CacheSweep CacheEvict.
From S2P Require Import Circuit Scope Retry ConnPool Upstream Pool Cascade Auth Federated Metrics Context.
From S2P Require Import Settings Config ConfigProps.
Open Scope Z_scope.
Open Scope conproxy_scope.

(** ** The live state *)

(** What a reload reaches: the fields of the shared state that can be swapped. *)
Record LiveState := {
  lv_cache : CacheStore;
  lv_contexts : ContextManager;
  lv_federated : FederatedSearchConfig;
  lv_pool : option UpstreamPool;
  lv_cascade : option CascadeConfig;
  lv_single : option (str * Z);
  lv_breaker : CircuitBreaker;
  lv_agents : option AgentRegistry
}.
Definition on_live_cache (f : CacheStore -> CacheStore) (s : LiveState) : LiveState :=
  {| lv_cache := f (lv_cache s); lv_contexts := lv_contexts s; lv_federated := lv_federated s; lv_pool := lv_pool s;
     lv_cascade := lv_cascade s; lv_single := lv_single s; lv_breaker := lv_breaker s; lv_agents := lv_agents s |}.
Definition put_live_contexts (m : ContextManager) (s : LiveState) : LiveState :=
  {| lv_cache := lv_cache s; lv_contexts := m; lv_federated := lv_federated s; lv_pool := lv_pool s;
     lv_cascade := lv_cascade s; lv_single := lv_single s; lv_breaker := lv_breaker s; lv_agents := lv_agents s |}.

(** The views of a configuration that the components take. *)
Definition federated_config_of `{UnicodeCase} (c : FederatedSettings) : FederatedSearchConfig :=
  {| fs_enabled := default false (fd_enabled c); min_local_results := default 3 (fd_min_local_results c);
     min_local_confidence := default (F32.lit 7 10) (fd_min_local_confidence c);
     fallback_on_empty := default true (fd_fallback_on_empty c);
     fallback_on_low_confidence := default true (fd_fallback_on_low_confidence c);
     merge_mode := merge_mode_parse (default (lit "local_only_fallback") (fd_merge_mode c));
     max_merged_results := default 10 (fd_max_merged_results c) |}.
Definition pool_endpoint (e : EndpointConfig) : UpstreamEndpointConfig :=
  {| uc_id := ep_id e; uc_weight := ep_weight e; uc_priority := ep_priority e; uc_max_concurrent := ep_max_concurrent e;
     uc_enabled := ep_enabled e; uc_upstream_type := ep_upstream_type e; uc_query_mode := ep_query_mode e |}.
Definition manager_context (c : ResolvedCtx) : ResolvedContext :=
  {| rx_id := rc_id c; rx_is_default := rc_is_default c; rx_description := rc_description c;
     rx_legs := map (fun l => (ep_url (rg_endpoint l), ep_index (rg_endpoint l))) (rc_legs c); rx_scope := rc_scope c;
     rx_cascade := rc_cascade c |}.
Definition px_max (px : ProxySettings) : Z := default 10000 (px_max_entries px).
Definition px_fresh_secs (px : ProxySettings) : Z := default 300 (px_fresh_duration_secs px).
Definition px_stale_secs (px : ProxySettings) : Z := default 3600 (px_stale_duration_secs px).

(** ** Reload *)

Inductive ReloadSection :=
| SecContexts (n : Z) | SecMaxEntries (n : Z) | SecFresh (n : Z) | SecStale (n : Z) | SecFederated (on : bool)
| SecPool (n : Z) | SecCascade | SecSingle (url : str) | SecNoUpstreams | SecBreaker | SecNoAgents | SecAgents (n : Z).
Inductive RestartSection := RestartPeer | RestartApiKey | RestartRateLimit.
Inductive ReloadError :=
| ReloadLoad (e : str) | ReloadProject (e : ConfigError) | ReloadMaxEntries (e : str) | ReloadPool (e : str)
| ReloadAdapter (e : str).
Record ReloadSummary := { rl_sections : list ReloadSection; rl_restart : list RestartSection }.

Inductive UpstreamBuild :=
| BuildPool (pool : UpstreamPool) (cascade : option CascadeConfig) (count : Z)
| BuildSingle (url : str) (timeout : Z)
| BuildNone.

Section Reload.
Context {O : MapOrder} `{U : UnicodeCase} `{Clients}.
(** [GenericRestAdapter::new] *)
Variable build_adapter : str -> Z -> result unit str.

(** The limits of the cache, in the order of the source. *)
Definition reload_max (px : ProxySettings) (c : CacheStore) : result (list ReloadSection) ReloadError * CacheStore :=
  if negb (px_max px =? max_entries c) then
    match set_max_entries (px_max px) c with
    | (Err e, c) => (Err (ReloadMaxEntries e), c)
    | (Ok _, c) => (Ok [SecMaxEntries (px_max px)], c)
    end
  else (Ok [], c).
Definition reload_fresh (px : ProxySettings) (c : CacheStore) : list ReloadSection * CacheStore :=
  if negb (px_fresh_secs px =? as_secs (fresh_duration c))
  then ([SecFresh (px_fresh_secs px)], set_fresh_duration (from_secs (px_fresh_secs px)) c) else ([], c).
Definition reload_stale (px : ProxySettings) (c : CacheStore) : list ReloadSection * CacheStore :=
  if negb (px_stale_secs px =? as_secs (stale_duration c))
  then ([SecStale (px_stale_secs px)], set_stale_duration (from_secs (px_stale_secs px)) c) else ([], c).

Definition build_upstreams (px : ProxySettings) : outcome (result UpstreamBuild ReloadError) :=
  match px_upstreams px with
  | _ :: _ =>
      let! r := UpstreamPool_new (map pool_endpoint (px_upstreams px)) RoundRobin in
      Ret (match r with
           | Err e => Err (ReloadPool e)
           | Ok pool => Ok (BuildPool pool (if cc_enabled (px_cascade px) then Some (px_cascade px) else None)
                              (zlen (px_upstreams px)))
           end)
  | [] =>
      match px_upstream_url px with
      | Some url =>
          Ret (match build_adapter url (from_secs (default 30 (px_upstream_timeout_secs px))) with
               | Err e => Err (ReloadAdapter e)
               | Ok _ => Ok (BuildSingle url (from_secs (default 30 (px_upstream_timeout_secs px))))
               end)
      | None => Ret (Ok BuildNone)
      end
  end.

(** The commit phase. *)
Definition commit_upstreams (b : UpstreamBuild) (f : FederatedSearchConfig) (s : LiveState) : LiveState :=
  {| lv_cache := lv_cache s; lv_contexts := lv_contexts s; lv_federated := f;
     lv_pool := match b with BuildPool p _ _ => Some p | _ => None end;
     lv_cascade := match b with BuildPool _ c _ => c | _ => None end;
     lv_single := match b with BuildSingle u t => Some (u, t) | _ => None end;
     lv_breaker := lv_breaker s; lv_agents := lv_agents s |}.
Definition upstream_sections (b : UpstreamBuild) : list ReloadSection :=
  match b with
  | BuildPool _ c n => SecPool n :: match c with Some _ => [SecCascade] | None => [] end
  | BuildSingle url _ => [SecSingle url]
  | BuildNone => [SecNoUpstreams]
  end.
Definition commit_rest (now : Z) (cb : CircuitSettings) (agents : list AgentConfig) (s : LiveState) : LiveState :=
  {| lv_cache := lv_cache s; lv_contexts := lv_contexts s; lv_federated := lv_federated s; lv_pool := lv_pool s;
     lv_cascade := lv_cascade s; lv_single := lv_single s;
     lv_breaker := set_config (to_circuit_breaker_config cb) (lv_breaker s);
     lv_agents := match agents with [] => None | _ => Some (registry_from_config now agents) end |}.
Definition agent_sections (now : Z) (agents : list AgentConfig) : list ReloadSection :=
  match agents with
  | [] => [SecNoAgents]
  | _ => [SecAgents (Z.of_nat (size (Auth.agents (registry_from_config now agents))))]
  end.
Definition restart_sections (px : ProxySettings) : list RestartSection :=
  (if default false (pp_enabled (px_peer px)) then [RestartPeer] else []) ++
  (match px_api_key px with Some (_ :: _) => [RestartApiKey] | _ => [] end) ++
  (if default false (rl_enabled (px_rate_limit px)) then [RestartRateLimit] else []).

(** [loaded] is the configuration read again, or the failure to read it. *)
Definition apply_reload (clk : Clock) (loaded : result ConfigFile str) (s : LiveState)
  : outcome (result ReloadSummary ReloadError) * LiveState :=
  match loaded with
  | Err e => (Ret (Err (ReloadLoad e)), s)
  | Ok c =>
      match effective_proxy c with
      | Err e => (Ret (Err (ReloadProject e)), s)
      | Ok px =>
          let '(sec0, s) :=
            match resolve_contexts c with
            | Ok ((_ :: _) as rs) => ([SecContexts (zlen rs)],
                                    put_live_contexts (install_resolved clk (map manager_context rs) (lv_contexts s)) s)
            | _ => ([], s)
            end in
          match reload_max px (lv_cache s) with
          | (Err e, cache) => (Ret (Err e), on_live_cache (fun _ => cache) s)
          | (Ok sec1, cache) =>
              let '(sec2, cache) := reload_fresh px cache in
              let '(sec3, cache) := reload_stale px cache in
              let s := on_live_cache (fun _ => cache) s in
              match build_upstreams px with
              | Panic => (Panic, s)
              | Ret (Err e) => (Ret (Err e), s)
              | Ret (Ok b) =>
                  let s := commit_upstreams b (federated_config_of (px_federated px)) s in
                  let agents := or_list (cf_agents c) (px_agents px) in
                  let s := commit_rest (mono clk) (px_circuit_breaker (cf_proxy c)) agents s in
                  (Ret (Ok {| rl_sections := sec0 ++ sec1 ++ sec2 ++ sec3 ++
                                SecFederated (default false (fd_enabled (px_federated px))) :: upstream_sections b ++
                                SecBreaker :: agent_sections (mono clk) agents;
                              rl_restart := restart_sections px |}), s)
              end
          end
      end
  end.
End Reload.

(** ** Properties of the reload *)

Lemma some_and_or {A} (p : A -> bool) (x y : option A) :
  some_and p x = false -> some_and p y = false -> some_and p (or_else x y) = false.
Proof. by destruct x. Qed.
Lemma px_max_pos px : some_and is_zero (px_max_entries px) = false -> px_max px <> 0.
Proof. unfold px_max, is_zero. destruct (px_max_entries px); simpl; [|done]. intros H. by reflect_Z. Qed.
Lemma check_resolved_entries `{UnicodeCase} c : check_resolved c = Ok tt -> some_and is_zero (cx_max_entries (rc_cache c)) = false.
Proof. unfold check_resolved. rewrite reject_ok, !also_ok, reject_ok. tauto. Qed.
Lemma validate_max_entries {O : MapOrder} `{UnicodeCase} c :
  config_validate c = Ok tt -> some_and is_zero (px_max_entries (cf_proxy c)) = false.
Proof. unfold config_validate. split_checks. tauto. Qed.

(** The limits of a cache are those of the settings. *)
Record limits_of (px : ProxySettings) (c c' : CacheStore) : Prop := {
  lim_max : max_entries c' = px_max px;
  lim_fresh : as_secs (fresh_duration c') = px_fresh_secs px;
  lim_stale : as_secs (stale_duration c') = px_stale_secs px;
  lim_entries : entries c' = entries c
}.
Lemma as_from_secs n : as_secs (from_secs n) = n.
Proof. unfold as_secs, from_secs. by rewrite Z.div_mul. Qed.

Lemma reload_limits px c : px_max px <> 0 ->
  exists sec c1, reload_max px c = (Ok sec, c1) /\ limits_of px c (snd (reload_stale px (snd (reload_fresh px c1)))).
Proof.
  intros Hm. unfold reload_max, set_max_entries.
  assert (Hz : (px_max px =? 0) = false) by (by apply Z.eqb_neq). rewrite Hz.
  assert (Hgo : forall c1, max_entries c1 = px_max px -> entries c1 = entries c ->
    limits_of px c (snd (reload_stale px (snd (reload_fresh px c1))))).
  { intros c1 H1 H2. unfold reload_stale, reload_fresh.
    destruct (negb (px_fresh_secs px =? as_secs (fresh_duration c1))) eqn:E1; simpl;
    match goal with |- context [if ?b then _ else _] => destruct b eqn:E2 end; simpl;
      apply negb_false_iff in E1 || apply negb_true_iff in E1; apply negb_false_iff in E2 || apply negb_true_iff in E2;
      reflect_Z; split; simpl; rewrite ?as_from_secs; done || by symmetry. }
  destruct (negb (px_max px =? max_entries c)) eqn:E; (eexists _, _; split; [reflexivity|]); apply Hgo; simpl; try done.
  apply negb_false_iff in E. by reflect_Z.
Qed.

(** The part of the state that is committed together. *)
Definition same_services (s s' : LiveState) : Prop :=
  lv_pool s' = lv_pool s /\ lv_cascade s' = lv_cascade s /\ lv_single s' = lv_single s /\
  lv_federated s' = lv_federated s /\ lv_breaker s' = lv_breaker s /\ lv_agents s' = lv_agents s.
Record serves_with `{UnicodeCase} (now : Z) (c : ConfigFile) (px : ProxySettings) (pool : UpstreamPool) (s s' : LiveState) : Prop := {
  sw_pool : lv_pool s' = Some pool /\ lv_single s' = None;
  sw_cascade : lv_cascade s' = if cc_enabled (px_cascade px) then Some (px_cascade px) else None;
  sw_federated : lv_federated s' = federated_config_of (px_federated px);
  sw_breaker : lv_breaker s' = set_config (to_circuit_breaker_config (px_circuit_breaker (cf_proxy c))) (lv_breaker s);
  sw_agents : lv_agents s' = match agents_for_ctx c with [] => None | a => Some (registry_from_config now a) end
}.

Section ReloadProps.
Context {O : MapOrder} {L : MapOrderLaws O} `{U : UnicodeCase} `{Clients} (build_adapter : str -> Z -> result unit str).

Lemma legacy_project c : cf_contexts c = ∅ -> effective_proxy c = Err NoResolvedContexts.
Proof.
  intros Hc. unfold effective_proxy, resolve_contexts, resolve_all_contexts.
  by rewrite (proj2 (map_order_empty _) Hc).
Qed.
Lemma projected_max c rs rc : config_validate c = Ok tt -> check_resolved rc = Ok tt -> px_max (projected c rs rc) <> 0.
Proof.
  intros Hv Hrc. apply px_max_pos. destruct (base_fields c) as (_ & _ & B & _).
  assert (E : px_max_entries (projected c rs rc) = or_else (cx_max_entries (rc_cache rc)) (px_max_entries (cf_proxy c)))
    by (rewrite <- B; unfold projected; by destruct (cf_agents c)).
  rewrite E. apply some_and_or; [by apply check_resolved_entries|by apply validate_max_entries].
Qed.
Lemma projected_agents c rs rc : or_list (cf_agents c) (px_agents (projected c rs rc)) = agents_for_ctx c.
Proof.
  destruct (base_fields c) as (_ & _ & _ & B & _). unfold agents_for_ctx. rewrite <- B.
  unfold projected. by destruct (cf_agents c).
Qed.
Lemma resolved_nonempty c rs : cf_contexts c <> ∅ -> resolve_contexts c = Ok rs -> exists r rs', rs = r :: rs'.
Proof.
  intros Hc Hr. apply resolve_all_of in Hr. destruct rs as [|r rs']; [|by eexists _, _].
  exfalso. apply Hc. apply (map_order_empty (cf_contexts c)). by inversion Hr.
Qed.

End ReloadProps.

#[local] Existing Instance AsciiCase.
Definition FailingClients : Clients := {| build_client := fun _ => Err (lit "no TLS"); pgvector_feature := false |}.
Definition demo_live : LiveState :=
  {| lv_cache := CacheStore_new (from_secs 10) (from_secs 60) 5;
     lv_contexts := ContextManager_new {| mono := 0; wall := 0 |} ContextConfig_default;
     lv_federated := federated_config_of FederatedSettings_default; lv_pool := None; lv_cascade := None; lv_single := None;
     lv_breaker := CircuitBreaker_new 0 (to_circuit_breaker_config CircuitSettings_default); lv_agents := None |}.
Definition demo_reload : outcome (result ReloadSummary ReloadError) * LiveState :=
  @apply_reload ListedOrder AsciiCase FailingClients (fun _ _ => Ok tt) {| mono := 1; wall := 1 |}
    (Ok (shared_file None)) demo_live.

