(* ===== verification/Handlers.v ===== *)
(** * Handlers of the running proxy (src/src/proxy/server/cache.rs, server/admin.rs, server/context.rs)

    Clearing, checking, evicting and warming the cache; pausing; the agents that are
    created, removed and re-keyed at run time; the contexts.  A handler returns the
    status and what its reply says; the replies are records or constructors, their
    JSON is left out. *)

From Stdlib Require Import SpecFloat.
From S2P Require Import Prelude Floats Text Types Cache CacheInv CacheReach CacheSpec CacheSweep CacheProps CacheEvict.
From S2P Require Import Circuit Scope Coalesce Retry ConnPool Upstream Pool PoolProps Cascade Auth Adaptive Metrics.
From S2P Require Import Context Refresh Pipeline PipelineProps.
Open Scope Z_scope.
Open Scope conproxy_scope.

(** ** The cache *)

Definition cache_len (s : CacheStore) : Z := Z.of_nat (size (entries s)).

Record EvictRequest := {
  er_upstream_id : option str; er_context_id : option str; er_query_text_prefix : option str;
  er_older_than_secs : option Z; er_max_entries : option Z; er_expired_only : bool
}.
Record EvictResponse := { ev_evicted : Z; ev_remaining : Z }.
Record WarmupRequest := { wq_queries : list str; wq_fetch_from_upstream : bool }.
Record WarmupResponse := { wr_status : Z; wr_warmed : Z; wr_failed : Z }.

Section CacheHandlers.
Context `{E : CacheEnv} {U : Type}.

Definition handle_cache_clear (clk : Clock) (s : AppState U) : Z * AppState U :=
  (cache_len (st_cache s), on_cache (clear clk) s).

Definition handle_cache_integrity (s : AppState U) : IntegrityReport * AppState U :=
  let report := verify_integrity (st_cache s) in
  (report, if 0 <? ir_invalid report
           then on_metrics (Nat.iter (Z.to_nat (ir_invalid report)) record_integrity_failure) s else s).

Definition evict_by (clk : Clock) (r : EvictRequest) (c : CacheStore) : Z * CacheStore :=
  if er_expired_only r then evict_truly_expired clk c
  else
    match er_upstream_id r with
    | Some u =>
        match er_max_entries r with
        | Some max => enforce_per_upstream_limit clk u (count_for_upstream u c -! max) c
        | None => evict_from_upstream clk u (count_for_upstream u c) c
        end
    | None =>
        if bool_decide (is_Some (er_context_id r)) || bool_decide (is_Some (er_query_text_prefix r)) ||
           bool_decide (is_Some (er_older_than_secs r))
        then evict_filter clk (er_context_id r) (er_query_text_prefix r) (er_older_than_secs r) (er_max_entries r) c
        else evict_truly_expired clk c
    end.
Definition handle_cache_evict (clk : Clock) (r : EvictRequest) (s : AppState U) : EvictResponse * AppState U :=
  let '(evicted, c) := evict_by clk r (st_cache s) in
  ({| ev_evicted := evicted; ev_remaining := cache_len c |}, on_cache (fun _ => c) s).
End CacheHandlers.

(** ** Warming *)

Section Warmup.
Context `{E : CacheEnv} `{Backend} `{Single}.
(** The clock at its readings: one when the cache is checked, one when it is filled. *)
Context (ticks : nat -> Clock).

Definition warm_request (q : str) : QueryRequest := plain_request q None.

(** The pool if there is one, else the single adapter. *)
Definition warm_query (q : str) (b : Backends) : result QueryResponse UpstreamError * Backends :=
  if b_pool b then let '(r, w) := pool_query (warm_request q) (b_world b) in (r, put_world b w (b_reads b))
  else (sg_query (w_calls (b_world b)) (warm_request q), put_world b (called (b_world b)) (b_reads b)).

Definition warm_scoped (ctx : str) (s : AppState Backends) (r : QueryResponse) : QueryResponse :=
  {| results := apply_scope_filter (scope_filter_for ctx s) (results r); cache_status := cache_status r;
     took_ms := took_ms r; generated_at := generated_at r; miss_reason := miss_reason r |}.

(** What is done with an answer: whether the query counts as warmed. *)
Definition warm_fill (clk : Clock) (ctx q : str) (r : result QueryResponse UpstreamError) (s : AppState Backends)
  : bool * AppState Backends :=
  match r with
  | Ok r =>
      let r := warm_scoped ctx s r in
      if is_ok (response_validate r) then
        (true, on_metrics record_warmup_entry
                 (on_cache (insert_with_context clk (context_query ctx q) r (st_upstream_id s) ctx) s))
      else (false, s)
  | Err _ => (false, s)
  end.
Definition warm_one (n : nat) (ctx q : str) (s : AppState Backends) : outcome (bool * AppState Backends) :=
  let! f := check_freshness (ticks n) (context_query ctx q) (st_cache s) in
  match f with
  | Some Fresh => Ret (true, s)
  | _ => let '(r, b) := warm_query q (st_upstreams s) in
         Ret (warm_fill (ticks (S n)) ctx q r (on_upstreams (fun _ => b) s))
  end.
Fixpoint warm_loop (n : nat) (ctx : str) (qs : list str) (warmed failed : Z) (s : AppState Backends)
  : outcome (Z * Z * AppState Backends) :=
  match qs with
  | [] => Ret (warmed, failed, s)
  | q :: qs =>
      let! r := warm_one n ctx q s in
      if r.1 then warm_loop (S (S n)) ctx qs (warmed +! 1) failed r.2
      else warm_loop (S (S n)) ctx qs warmed (failed +! 1) r.2
  end.

Definition warmable (s : AppState Backends) : bool := b_pool (st_upstreams s) || b_single (st_upstreams s).
Definition handle_cache_warmup (r : WarmupRequest) (s : AppState Backends)
  : outcome (WarmupResponse * AppState Backends) :=
  let s := on_metrics record_warmup_request s in
  if negb (wq_fetch_from_upstream r) then Ret ({| wr_status := 200; wr_warmed := 0; wr_failed := 0 |}, s)
  else if negb (warmable s) then
    Ret ({| wr_status := 503; wr_warmed := 0; wr_failed := zlen (wq_queries r) |}, s)
  else
    let! x := warm_loop 0 (current (context_manager s)) (wq_queries r) 0 0 s in
    let '(warmed, failed, s) := x in
    Ret ({| wr_status := 200; wr_warmed := warmed; wr_failed := failed |}, s).
End Warmup.

(** ** Pausing, metrics and contexts *)

Section Contexts.
Context `{ContextEnv} {U : Type}.

Definition put_paused (b : bool) (s : AppState U) : AppState U :=
  {| st_cache := st_cache s; st_upstreams := st_upstreams s; coalescer := coalescer s;
     refresh_worker := refresh_worker s; st_scope_filter := st_scope_filter s; st_metrics := st_metrics s;
     circuit_breaker := circuit_breaker s; retry_policy := retry_policy s; adaptive_timeout := adaptive_timeout s;
     query_stats := query_stats s; st_upstream_id := st_upstream_id s; context_manager := context_manager s;
     paused := b; client_tracker := client_tracker s |}.
Definition handle_admin_pause (s : AppState U) : Z * AppState U :=
  (Z.of_nat (size (cl_active (client_tracker s))), put_paused true s).
Definition handle_admin_resume : AppState U -> AppState U := put_paused false.
Definition handle_admin_metrics_reset (s : AppState U) : AppState U :=
  on_contexts reset_all_stats (on_metrics metrics_reset s).

Definition list_metadata (m : ContextManager) : list ContextMetadata := map (fun kc => cx_metadata kc.2) (ctx_iter (active m)).
Definition get_context_stats (id : str) (m : ContextManager) : option (ContextStats * f64) :=
  (fun c => (cx_stats c, cs_hit_rate (cx_stats c))) <$> active m !! id.

Definition handle_contexts_list (s : AppState U) : list ContextMetadata * str :=
  (list_metadata (context_manager s), current (context_manager s)).
Definition handle_context_current (s : AppState U) : Z * option (ContextMetadata * option ContextStats) :=
  match get_current (context_manager s) with
  | Some meta => (200, Some (meta, cx_stats <$> active (context_manager s) !! md_id meta))
  | None => (404, None)
  end.
(** The status, the current context of the reply, and the error of its message. *)
Definition handle_context_switch (clk : Clock) (id : str) (s : AppState U)
  : (Z * str * option ContextError) * AppState U :=
  let '(r, m) := switch clk id (context_manager s) in
  let s := on_contexts (fun _ => m) s in
  (match r with Ok _ => (200, current m, None) | Err e => (400, current m, Some e) end, s).
Definition handle_context_create (clk : Clock) (id url collection : str) (s : AppState U)
  : (Z * result (option ContextMetadata) ContextError) * AppState U :=
  let '(r, m) := ctx_create clk id url collection (context_manager s) in
  let s := on_contexts (fun _ => m) s in
  (match r with Ok _ => (201, Ok (ctx_get id m)) | Err e => (400, Err e) end, s).
Definition handle_context_stats (id : str) (s : AppState U) : Z * option (ContextStats * f64) :=
  match get_context_stats id (context_manager s) with Some x => (200, Some x) | None => (404, None) end.
End Contexts.

(** ** Agents *)

Record AgentInfo := {
  in_id : str; in_allowed_contexts : list str; in_priority_class : Z; in_rate_limit_rps : option Z;
  in_enabled : bool; in_quota : AgentQuota
}.
Record CreateAgentRequest := {
  cr_id : str; cr_api_key : str; cr_allowed_contexts : list str; cr_priority_class : option Z;
  cr_rate_limit_rps : option Z
}.

Definition list_agents (order : gmap str AgentEntry -> list (str * AgentEntry)) (r : AgentRegistry) : list AgentInfo :=
  map (fun ke => let e := snd ke in
         {| in_id := ai_id (ae_identity e); in_allowed_contexts := allowed_contexts (ae_identity e);
            in_priority_class := priority_class (ae_identity e);
            in_rate_limit_rps := refill_rate <$> ae_rate_limiter e; in_enabled := ae_enabled e;
            in_quota := ae_quota e |}) (order (agents r)).
Definition handle_admin_agents_list (order : gmap str AgentEntry -> list (str * AgentEntry))
    (reg : option AgentRegistry) : list AgentInfo * Z :=
  match reg with
  | Some r => let l := list_agents order r in (l, zlen l)
  | None => ([], 0)
  end.
Definition agent_config_of (b : CreateAgentRequest) : AgentConfig :=
  {| ac_id := cr_id b; ac_api_key := cr_api_key b; ac_default_context := None;
     ac_allowed_contexts := cr_allowed_contexts b; ac_rate_limit_rps := cr_rate_limit_rps b;
     ac_priority_class := cr_priority_class b; ac_enabled := true |}.
(** The statuses of the three handlers, with the registry they share. *)
Definition handle_admin_agents_create (now : Z) (b : CreateAgentRequest) (reg : option AgentRegistry)
  : Z * option AgentRegistry :=
  match reg with Some r => (201, Some (register now (agent_config_of b) r)) | None => (400, None) end.
Definition handle_admin_agents_delete (id : str) (reg : option AgentRegistry) : Z * option AgentRegistry :=
  match reg with
  | Some r => let '(ok, r) := remove_by_id id r in (if ok then 200 else 404, Some r)
  | None => (400, None)
  end.
Definition handle_admin_agents_rotate_key (id new_key : str) (reg : option AgentRegistry) : Z * option AgentRegistry :=
  match reg with
  | Some r => let '(ok, r) := rotate_key id new_key r in (if ok then 200 else 404, Some r)
  | None => (400, None)
  end.

(** ** Properties of the eviction handler *)

Section Evictions.
Context `{E : CacheEnv} {L : CacheEnvLaws E}.

(** The keys that have gone are present ones that satisfy [p]; nothing else has changed. *)
Record removes (p : CacheEntry -> bool) (ks : list QueryHash) (s s' : CacheStore) : Prop := {
  rm_nodup : NoDup ks;
  rm_present : forall h, h ∈ ks -> exists e, entries s !! h = Some e /\ p e = true;
  rm_lookup : forall h, entries s' !! h = if decide (h ∈ ks) then None else entries s !! h
}.
Lemma removes_len p ks s s' : removes p ks s s' -> cache_len s' = cache_len s - zlen ks.
Proof.
  intros [Hn Hp Hl]. unfold cache_len. rewrite <- !msum_size.
  apply (count_after_removal (fun _ => true) _ _ Hn); [|exact Hl].
  intros h Hh. destruct (Hp h Hh) as (e & He & _). eauto.
Qed.
Lemma removes_kept p ks s s' h e : removes p ks s s' -> entries s !! h = Some e -> p e = false -> entries s' !! h = Some e.
Proof.
  intros [Hn Hp Hl] He Hf. rewrite Hl. case_decide as Hin; [|done]. destruct (Hp h Hin) as (e' & He' & Hp'). congruence.
Qed.
Lemma removes_old p ks s s' h e : removes p ks s s' -> entries s' !! h = Some e -> entries s !! h = Some e.
Proof. intros [Hn Hp Hl]. rewrite Hl. by case_decide. Qed.

Lemma upstream_removes clk u n s : 0 <= n ->
  exists ks, removes (of_upstream u) ks s (snd (evict_from_upstream clk u n s)) /\
    fst (evict_from_upstream clk u n s) = zlen ks.
Proof.
  intros Hn. destruct (evict_from_upstream_spec clk u n s Hn) as [Hc Hl]. eexists. split; [|exact Hc].
  split; [apply NoDup_take_keys| |exact Hl]. intros h Hh. rewrite list_elem_of_In, in_map_iff in Hh.
  destruct Hh as ([h' a] & <- & Hin%list_elem_of_In).
  assert ((h', a) ∈ by_age clk u s) as (e & He & Hu & _)%elem_of_by_age; [|eauto].
  rewrite <- (take_drop (Z.to_nat n)). apply elem_of_app. by left.
Qed.
Lemma filter_removes clk c p o mx s :
  exists ks, removes (filter_matches clk c p o) ks s (snd (evict_filter clk c p o mx s)) /\
    fst (evict_filter clk c p o mx s) = zlen ks.
Proof.
  destruct (evict_filter_keys clk c p o mx s) as [Hc Hl]. eexists. split; [|exact Hc].
  split; [apply NoDup_take, NoDup_keys_where|by intros h (e & He & Hf)%filter_keys_present; eauto|exact Hl].
Qed.

Definition over_frozen (clk : Clock) (s : CacheStore) (e : CacheEntry) : bool :=
  max_frozen_duration s <? elapsed (mono clk) (cached_at e).
Lemma expired_sweep clk s :
  fst (evict_truly_expired clk s) =
    zlen (fst (remove_all (keys_where (fun he => over_frozen clk s he.2) (entries s)) s)) /\
  entries (snd (evict_truly_expired clk s)) =
    entries (snd (remove_all (keys_where (fun he => over_frozen clk s he.2) (entries s)) s)).
Proof.
  unfold evict_truly_expired, keys_where, over_frozen. destruct (remove_all _ s) as [removed s1]. simpl. by destruct (0 <? zlen removed).
Qed.
Lemma expired_removes clk s :
  exists ks, removes (over_frozen clk s) ks s (snd (evict_truly_expired clk s)) /\
    fst (evict_truly_expired clk s) = zlen ks.
Proof.
  destruct (expired_sweep clk s) as [Hc He]. exists (keys_where (fun he => over_frozen clk s he.2) (entries s)).
  assert (Hp : forall h, h ∈ keys_where (fun he => over_frozen clk s he.2) (entries s) ->
    exists e, entries s !! h = Some e /\ over_frozen clk s e = true) by (by intros h ?%elem_of_keys_where).
  split; [split; [apply NoDup_keys_where|done|intros h; by rewrite He, remove_all_lookup]|].
  rewrite Hc. apply remove_all_count; [apply NoDup_keys_where|]. intros h (e & ? & _)%Hp. eauto.
Qed.
Lemma expired_count clk s :
  fst (evict_truly_expired clk s) = msum (fun e => if over_frozen clk s e then 1 else 0) (entries s).
Proof. rewrite (proj1 (expired_sweep clk s)). apply sweep_count. Qed.

(** What a request selects, and the bound it puts on the number. *)
Definition evict_selects (clk : Clock) (r : EvictRequest) (c : CacheStore) (e : CacheEntry) : bool :=
  if er_expired_only r then over_frozen clk c e
  else match er_upstream_id r with
       | Some u => of_upstream u e
       | None =>
           match er_context_id r, er_query_text_prefix r, er_older_than_secs r with
           | None, None, None => over_frozen clk c e
           | x, p, o => filter_matches clk x p o e
           end
       end.
Definition evict_cap (r : EvictRequest) : option Z :=
  if er_expired_only r then None
  else match er_upstream_id r, er_context_id r, er_query_text_prefix r, er_older_than_secs r with
       | None, None, None, None => None
       | _, _, _, _ => er_max_entries r
       end.
Definition capped (k : option Z) (n : Z) : Z := match k with Some k => Z.min k n | None => n end.

Lemma filter_count clk c p o mx s : match mx with Some k => 0 <= k | None => True end ->
  fst (evict_filter clk c p o mx s) = capped mx (msum (fun e => if filter_matches clk c p o e then 1 else 0) (entries s)).
Proof.
  intros Hm. rewrite (proj1 (evict_filter_keys clk c p o mx s)), <- count_iter.
  unfold keys_where, zlen, filter_bound, capped. rewrite length_take, length_map. destruct mx; lia.
Qed.

Lemma enforce_as_evict clk u k s : 0 <= k ->
  enforce_per_upstream_limit clk u (count_for_upstream u s -! k) s =
  evict_from_upstream clk u (Z.min k (count_for_upstream u s)) s.
Proof.
  intros Hk. unfold enforce_per_upstream_limit, sat_sub. assert (0 <= count_for_upstream u s) by apply zlen_nonneg.
  destruct (_ <=? _) eqn:Hle; reflect_Z.
  - rewrite Z.min_comm. replace (Z.min _ k) with 0 by lia. done.
  - f_equal. lia.
Qed.
Lemma upstream_evicted clk u k s : match k with Some k => 0 <= k | None => True end ->
  let r := match k with
           | Some k => enforce_per_upstream_limit clk u (count_for_upstream u s -! k) s
           | None => evict_from_upstream clk u (count_for_upstream u s) s
           end in
  (exists ks, removes (of_upstream u) ks s (snd r) /\ fst r = zlen ks) /\
  fst r = capped k (msum (fun e => if of_upstream u e then 1 else 0) (entries s)).
Proof.
  intros Hk r. assert (0 <= count_for_upstream u s) by apply zlen_nonneg.
  rewrite <- count_for_upstream_msum. unfold r, capped. destruct k as [k|].
  - rewrite enforce_as_evict by done. split; [apply upstream_removes; lia|]. rewrite evict_from_upstream_count; lia.
  - split; [by apply upstream_removes|]. rewrite evict_from_upstream_count; lia.
Qed.

Lemma evict_by_spec clk r c : match er_max_entries r with Some k => 0 <= k | None => True end ->
  (exists ks, removes (evict_selects clk r c) ks c (snd (evict_by clk r c)) /\ fst (evict_by clk r c) = zlen ks) /\
  fst (evict_by clk r c) = capped (evict_cap r) (msum (fun e => if evict_selects clk r c e then 1 else 0) (entries c)).
Proof.
  intros Hm. unfold evict_by, evict_selects, evict_cap. destruct (er_expired_only r).
  { split; [apply expired_removes|apply expired_count]. }
  destruct (er_upstream_id r) as [u|]; [by apply (upstream_evicted clk u (er_max_entries r) c)|].
  destruct (er_context_id r), (er_query_text_prefix r), (er_older_than_secs r);
    try (split; [apply filter_removes|by apply filter_count]).
  split; [apply expired_removes|apply expired_count].
Qed.

End Evictions.

(** ** Properties of warming *)

Section Warming.
Context `{E : CacheEnv} {L : CacheEnvLaws E} `{Backend} `{Single} (ticks : nat -> Clock).
Implicit Types (s : AppState Backends) (c : CacheStore).

(** The durations of a cache that can be added up for every entry. *)
Definition windows_fit c : Prop := forall h, exists w, windows h c = Ret w.
Lemma windows_settings h c c' : settings c' = settings c -> windows h c' = windows h c.
Proof. unfold settings, windows, jittered_ttl. intros [= H1 H2 H3 H4 H5]. by rewrite H2, H3, H4. Qed.

(** An entry was there, or it is an answer for one of the queries, filtered by the
    policy of the context and valid. *)
Definition vetted (ctx : str) (f : ScopeFilter) (qs : list str) (h : QueryHash) (e : CacheEntry) : Prop :=
  exists q rs, q ∈ qs /\ h = hash_query (context_query ctx q) /\ context_id e = ctx /\
    query_text e = Some (context_query ctx q) /\
    results (response e) = apply_scope_filter f rs /\ is_ok (response_validate (response e)) = true.
Definition warmed (ctx : str) (f : ScopeFilter) (qs : list str) c c' : Prop :=
  forall h e, entries c' !! h = Some e ->
    (exists e0 v, entries c !! h = Some e0 /\ e = put_freq e0 v) \/ vetted ctx f qs h e.

Lemma vetted_freq ctx f qs h e v : vetted ctx f qs h e -> vetted ctx f qs h (put_freq e v).
Proof. done. Qed.
Lemma vetted_incl ctx f qs qs' h e : qs ⊆ qs' -> vetted ctx f qs h e -> vetted ctx f qs' h e.
Proof. intros Hq (q & rs & Hin & Hr). exists q, rs. split; [by apply Hq|done]. Qed.
Lemma warmed_trans ctx f q qs c c1 c2 : warmed ctx f [q] c c1 -> warmed ctx f qs c1 c2 -> warmed ctx f (q :: qs) c c2.
Proof.
  intros H1 H2 h e [(e1 & v & He1 & ->)|Hv]%H2; [|right; eapply vetted_incl; [|exact Hv]; set_solver].
  destruct (H1 h e1 He1) as [(e0 & v0 & He0 & ->)|Hv]; [left; by exists e0, v|right].
  apply vetted_freq. eapply vetted_incl; [|exact Hv]. set_solver.
Qed.

(** What no query of the loop changes, and what it may do to the cache. *)
Record warm_step (N : Z) (ctx : str) (qs : list str) s s' : Prop := {
  ws_inv : inv N (st_cache s');
  ws_settings : settings (st_cache s') = settings (st_cache s);
  ws_contexts : context_manager s' = context_manager s;
  ws_scope : st_scope_filter s' = st_scope_filter s;
  ws_warmed : warmed ctx (scope_filter_for ctx s) qs (st_cache s) (st_cache s')
}.
Lemma warm_step_same N ctx qs s s' :
  inv N (st_cache s) -> st_cache s' = st_cache s -> context_manager s' = context_manager s ->
  st_scope_filter s' = st_scope_filter s -> warm_step N ctx qs s s'.
Proof.
  intros Hi H1 H2 H3. split; rewrite ?H1; try done. intros h e He. left. exists e, (freq e). by rewrite put_freq_id.
Qed.
Lemma warm_step_trans N ctx q qs s s1 s2 :
  warm_step N ctx [q] s s1 -> warm_step N ctx qs s1 s2 -> warm_step N ctx (q :: qs) s s2.
Proof.
  intros [I1 S1 C1 F1 G1] [I2 S2 C2 F2 G2]. split; try congruence.
  eapply warmed_trans; [exact G1|]. by assert (scope_filter_for ctx s1 = scope_filter_for ctx s) as <-
    by (unfold scope_filter_for; by rewrite C1, F1).
Qed.

Lemma insert_grows N clk ctx q r u f c : inv N c ->
  is_ok (response_validate r) = true -> (exists rs, results r = apply_scope_filter f rs) ->
  warmed ctx f [q] c (insert_with_context clk (context_query ctx q) r u ctx c).
Proof.
  intros Hi Hv [rs Hrs] h e He.
  destruct (insert_impl_lossy N clk (context_query ctx q) r u ctx c Hi) as [Hsh _].
  destruct (Hsh h e He) as (e0 & v & He0 & ->). apply lookup_insert_Some in He0 as [[<- <-]|[_ He0]].
  - right. exists q, rs. split_and!; try done. set_solver.
  - left. eauto.
Qed.

Lemma warm_fill_spec N clk ctx q r b s : inv N (st_cache s) ->
  warm_step N ctx [q] s (snd (warm_fill clk ctx q r (on_upstreams (fun _ => b) s))).
Proof.
  intros Hi. destruct r as [r|e]; simpl; [|by apply warm_step_same].
  destruct (is_ok _) eqn:Ev; simpl; [|by apply warm_step_same].
  split; simpl; try done; [by apply inv_insert_impl|by apply (insert_impl_settings N)|].
  eapply insert_grows; [done..|]. simpl. by exists (results r).
Qed.
Lemma warm_one_spec N n ctx q s : inv N (st_cache s) -> windows_fit (st_cache s) ->
  exists b s', warm_one ticks n ctx q s = Ret (b, s') /\ warm_step N ctx [q] s s'.
Proof.
  intros Hi Hw. unfold warm_one, check_freshness, check_freshness_by_hash.
  set (h := hash_query (context_query ctx q)). destruct (warm_query q (st_upstreams s)) as [r b].
  pose proof (warm_fill_spec N (ticks (S n)) ctx q r b s Hi) as Hf.
  destruct (warm_fill _ _ _ _ _) as [ok s'] eqn:Ef. simpl in Hf.
  destruct (entries (st_cache s) !! h) as [e|]; simpl; [|by eexists _, _].
  destruct (Hw h) as [w ->]. simpl. destruct (classify _ _ _ _); try by eexists _, _.
  eexists _, _. split; [done|]. by apply warm_step_same.
Qed.

Lemma warm_loop_spec N qs : forall n ctx w f s, inv N (st_cache s) -> windows_fit (st_cache s) ->
  0 <= w -> 0 <= f -> w + f + zlen qs <= usize_max ->
  exists w' f' s', warm_loop ticks n ctx qs w f s = Ret (w', f', s') /\ w' + f' = w + f + zlen qs /\
    warm_step N ctx qs s s'.
Proof.
  induction qs as [|q qs IH]; intros n ctx w f s Hi Hw H1 H2 H3; simpl.
  { eexists _, _, _. split; [done|]. split; [unfold zlen; simpl; lia|by apply warm_step_same]. }
  rewrite zlen_cons in *. pose proof (zlen_nonneg qs).
  destruct (warm_one_spec N n ctx q s Hi Hw) as (b & s1 & -> & Hs). simpl.
  assert (Hw1 : windows_fit (st_cache s1)).
  { intros h. rewrite (windows_settings h (st_cache s)) by apply Hs. apply Hw. }
  assert (Hadd : forall x, 0 <= x -> x + 1 <= usize_max -> x +! 1 = x + 1) by (intros; unfold sat_add, usize_max in *; lia).
  destruct b.
  - destruct (IH (S (S n)) ctx (w +! 1) f s1 (ws_inv _ _ _ _ _ Hs) Hw1) as (w' & f' & s2 & -> & He & Hs2);
      rewrite ?Hadd; try lia. rewrite Hadd in He by lia. eexists _, _, _. split; [done|]. split; [lia|]. by eapply warm_step_trans.
  - destruct (IH (S (S n)) ctx w (f +! 1) s1 (ws_inv _ _ _ _ _ Hs) Hw1) as (w' & f' & s2 & -> & He & Hs2);
      rewrite ?Hadd; try lia. rewrite Hadd in He by lia. eexists _, _, _. split; [done|]. split; [lia|]. by eapply warm_step_trans.
Qed.

(** Warming the cache always ends with a reply (as long as the durations of the
    cache can be added), whose numbers of warmed and failed queries add up to the
    number of queries, with status 503 when there is neither a pool nor a single
    upstream; every entry of the cache afterwards was there before, or is an answer
    to one of the queries, under the key of the current context, filtered by the
    policy of that context and valid. *)
Theorem warmup_exact (N : Z) (r : WarmupRequest) s (Hi : inv N (st_cache s)) (Hw : windows_fit (st_cache s))
    (Hq : zlen (wq_queries r) <= usize_max) :
  let ctx := current (context_manager s) in
  exists resp s', handle_cache_warmup ticks r s = Ret (resp, s') /\
    (wq_fetch_from_upstream r = false -> resp = {| wr_status := 200; wr_warmed := 0; wr_failed := 0 |}) /\
    (wq_fetch_from_upstream r = true ->
       wr_warmed resp + wr_failed resp = zlen (wq_queries r) /\ wr_status resp = if warmable s then 200 else 503) /\
    (wq_fetch_from_upstream r && warmable s = false -> st_cache s' = st_cache s) /\
    inv N (st_cache s') /\ warmed ctx (scope_filter_for ctx s) (wq_queries r) (st_cache s) (st_cache s').
Proof.
  intros ctx. unfold handle_cache_warmup. set (s0 := on_metrics record_warmup_request s).
  assert (Hsame : warm_step N ctx (wq_queries r) s s0) by (by apply warm_step_same).
  change (warmable s0) with (warmable s). change (current (context_manager s0)) with ctx.
  destruct (wq_fetch_from_upstream r); cbn [negb andb].
  2:{ eexists _, _. split_and!; try done; apply Hsame. }
  destruct (warmable s); cbn [negb].
  2:{ eexists _, _. split_and!; try done; apply Hsame. }
  destruct (warm_loop_spec N (wq_queries r) 0 ctx 0 0 s0 Hi Hw) as (w & f & s1 & -> & Hs & Hst); [lia..|]. simpl.
  eexists _, _. split_and!; try done; apply Hst.
Qed.
End Warming.

(** ** Properties of the agents *)

(** Names and keys correspond one to one. *)
Record registry_ok (r : AgentRegistry) : Prop := {
  ro_id : forall id k, id_to_key r !! id = Some k -> exists e, agents r !! k = Some e /\ ai_id (ae_identity e) = id;
  ro_key : forall k e, agents r !! k = Some e -> id_to_key r !! ai_id (ae_identity e) = Some k
}.
Lemma registry_new_ok : registry_ok AgentRegistry_new.
Proof. split; intros * H; by vm_compute in H. Qed.
Lemma registry_fresh_key r id k e : registry_ok r -> id_to_key r !! id = None -> agents r !! k = Some e -> ai_id (ae_identity e) <> id.
Proof. intros [_ Hk] Hn He <-. by rewrite (Hk _ _ He) in Hn. Qed.

Lemma register_ok now c r : registry_ok r -> id_to_key r !! ac_id c = None -> agents r !! ac_api_key c = None ->
  registry_ok (register now c r).
Proof.
  intros Hr Hn Hk. split; simpl.
  - intros id k [[<- <-]|[Hne He]]%lookup_insert_Some; [rewrite lookup_insert_eq; by eexists|].
    destruct (ro_id _ Hr id k He) as (e & He' & <-). exists e. rewrite lookup_insert_ne; [done|]. congruence.
  - intros k e [[<- <-]|[Hne He]]%lookup_insert_Some; simpl; [by rewrite lookup_insert_eq|].
    rewrite lookup_insert_ne; [by apply Hr|]. intros Hx. by apply (registry_fresh_key r (ac_id c) k e Hr Hn He).
Qed.
Lemma remove_by_id_ok id r : registry_ok r -> registry_ok (snd (remove_by_id id r)).
Proof.
  intros Hr. unfold remove_by_id. destruct (id_to_key r !! id) as [key|] eqn:Ei; simpl; [|done].
  destruct (ro_id _ Hr _ _ Ei) as (e0 & Hk0 & Hid0). split; simpl.
  - intros id' k [Hne He]%lookup_delete_Some. destruct (ro_id _ Hr _ _ He) as (e & Hk & Hid). exists e.
    rewrite lookup_delete_ne; [done|]. intros ->. apply Hne. congruence.
  - intros k e [Hne He]%lookup_delete_Some. pose proof (ro_key _ Hr _ _ He) as Hk. rewrite lookup_delete_ne; [done|].
    intros Hx. congruence.
Qed.
Lemma rotate_key_ok id new_key r : registry_ok r -> agents r !! new_key = None -> registry_ok (snd (rotate_key id new_key r)).
Proof.
  intros Hr Hn. unfold rotate_key, rotate_remove. destruct (id_to_key r !! id) as [old|] eqn:Ei; simpl; [|done].
  destruct (ro_id _ Hr _ _ Ei) as (e0 & Hk0 & Hid0). rewrite Hk0. split; simpl.
  - intros id' k [[<- <-]|[Hne He]]%lookup_insert_Some; [rewrite lookup_insert_eq; by eexists|].
    destruct (ro_id _ Hr _ _ He) as (e & Hk & Hid). exists e.
    rewrite lookup_insert_ne, lookup_delete_ne; [done| |congruence]. intros ->. apply Hne. congruence.
  - intros k e [[<- <-]|[Hne [Hne' He]%lookup_delete_Some]]%lookup_insert_Some; [by rewrite Hid0, lookup_insert_eq|].
    pose proof (ro_key _ Hr _ _ He) as Hk. rewrite lookup_insert_ne; [done|]. intros Hx. congruence.
Qed.

(** The requests for agents, and the status and the registry after one. *)
Inductive AgentRequest := ACreate (b : CreateAgentRequest) | ADelete (id : str) | ARotate (id new_key : str).
Definition agent_request (now : Z) (q : AgentRequest) (reg : option AgentRegistry) : Z * option AgentRegistry :=
  match q with
  | ACreate b => handle_admin_agents_create now b reg
  | ADelete id => handle_admin_agents_delete id reg
  | ARotate id k => handle_admin_agents_rotate_key id k reg
  end.
(** A request that brings no name and no key that is in use. *)
Definition unused (r : AgentRegistry) (q : AgentRequest) : Prop :=
  match q with
  | ACreate b => id_to_key r !! cr_id b = None /\ agents r !! cr_api_key b = None
  | ADelete _ => True
  | ARotate _ k => agents r !! k = None
  end.
(** The agents by name, each with its key: what the requests mean. *)
Definition holders (r : AgentRegistry) (id : str) : option (str * AgentEntry) :=
  match id_to_key r !! id with Some k => pair k <$> agents r !! k | None => None end.
Definition agent_effect (now : Z) (q : AgentRequest) (h : str -> option (str * AgentEntry)) (id : str)
  : option (str * AgentEntry) :=
  match q with
  | ACreate b => if str_eqb id (cr_id b)
                 then pair (cr_api_key b) <$> agents (register now (agent_config_of b) AgentRegistry_new) !! cr_api_key b
                 else h id
  | ADelete i => if str_eqb id i then None else h id
  | ARotate i k => if str_eqb id i then (fun x => (k, snd x)) <$> h id else h id
  end.
Definition agent_status (q : AgentRequest) (h : str -> option (str * AgentEntry)) : Z :=
  match q with
  | ACreate _ => 201
  | ADelete i | ARotate i _ => match h i with Some _ => 200 | None => 404 end
  end.

Lemma holders_key r id k e : registry_ok r -> holders r id = Some (k, e) -> agents r !! k = Some e /\ id_to_key r !! id = Some k.
Proof.
  intros Hr. unfold holders. destruct (id_to_key r !! id) as [k'|] eqn:Hk; [|done].
  destruct (agents r !! k') eqn:He; simpl; [|done]. by intros [= -> ->].
Qed.
Lemma holders_delete r i k : registry_ok r -> id_to_key r !! i = Some k -> forall id (m : gmap str AgentEntry), id <> i ->
  (forall k', k' <> k -> is_Some (agents r !! k') -> m !! k' = agents r !! k') ->
  match id_to_key r !! id with Some k' => pair k' <$> m !! k' | None => None end = holders r id.
Proof.
  intros Hr Hi id m Hne Hm. unfold holders. destruct (id_to_key r !! id) as [k'|] eqn:Hk; [|done].
  destruct (ro_id _ Hr _ _ Hi) as (e & He & He'), (ro_id _ Hr _ _ Hk) as (e' & Hk' & ?).
  rewrite Hm; [done|intros ->; congruence|by eexists].
Qed.

Lemma holders_create now b r : registry_ok r -> id_to_key r !! cr_id b = None -> agents r !! cr_api_key b = None ->
  forall id, holders (register now (agent_config_of b) r) id = agent_effect now (ACreate b) (holders r) id.
Proof.
  intros Hr Hi Hk id. unfold holders, agent_effect, str_eqb. simpl. rewrite bool_decide_decide.
  destruct (decide (id = cr_id b)) as [->|Hne]; [by rewrite !lookup_insert_eq|].
  rewrite lookup_insert_ne by done. destruct (id_to_key r !! id) as [k|] eqn:Hid; [|done].
  rewrite lookup_insert_ne; [done|]. intros <-. destruct (ro_id _ Hr _ _ Hid) as (e & He & _). congruence.
Qed.
Lemma holders_remove i r : registry_ok r ->
  exists r', (let '(ok, r0) := remove_by_id i r in (if ok : bool then 200 else 404, Some r0)) =
      (agent_status (ADelete i) (holders r), Some r') /\ registry_ok r' /\
    forall id, holders r' id = agent_effect 0 (ADelete i) (holders r) id.
Proof.
  intros Hr. pose proof (remove_by_id_ok i r Hr) as Hok. unfold remove_by_id in *. unfold agent_status, agent_effect, str_eqb.
  destruct (id_to_key r !! i) as [k|] eqn:Hi; simpl in *.
  - destruct (ro_id _ Hr _ _ Hi) as (e & He & _). eexists. split; [unfold holders; by rewrite Hi, He|]. split; [done|].
    intros id. rewrite bool_decide_decide. unfold holders at 1. simpl. destruct (decide (id = i)) as [->|Hne]; [by rewrite lookup_delete_eq|].
    rewrite lookup_delete_ne by done. apply (holders_delete r i k Hr Hi); [done|]. intros. by rewrite lookup_delete_ne.
  - eexists. split; [unfold holders; by rewrite Hi|]. split; [done|]. intros id. rewrite bool_decide_decide.
    destruct (decide (id = i)) as [->|]; [|done]. unfold holders. by rewrite Hi.
Qed.
Lemma holders_rotate i k r : registry_ok r -> agents r !! k = None ->
  exists r', (let '(ok, r0) := rotate_key i k r in (if ok : bool then 200 else 404, Some r0)) =
      (agent_status (ARotate i k) (holders r), Some r') /\ registry_ok r' /\
    forall id, holders r' id = agent_effect 0 (ARotate i k) (holders r) id.
Proof.
  intros Hr Hk. pose proof (rotate_key_ok i k r Hr Hk) as Hok. unfold rotate_key, rotate_remove in *.
  unfold agent_status, agent_effect, str_eqb. destruct (id_to_key r !! i) as [old|] eqn:Hi; simpl in *.
  - destruct (ro_id _ Hr _ _ Hi) as (e & He & _). rewrite He in *. simpl in *.
    eexists. split; [unfold holders; by rewrite Hi, He|]. split; [done|]. intros id. rewrite bool_decide_decide.
    unfold holders at 1. simpl. destruct (decide (id = i)) as [->|Hne].
    { rewrite !lookup_insert_eq. unfold holders. by rewrite Hi, He. }
    rewrite lookup_insert_ne by done. apply (holders_delete r i old Hr Hi); [done|]. intros k' Hk' [e' He'].
    rewrite lookup_insert. case_decide; [by subst; congruence|]. by rewrite lookup_delete_ne.
  - eexists. split; [unfold holders; by rewrite Hi|]. split; [done|]. intros id. rewrite bool_decide_decide.
    destruct (decide (id = i)) as [->|]; [|done]. unfold holders. by rewrite Hi.
Qed.


(** Rotating to a key that another agent uses takes that agent over: its entry is
    gone, and its name now stands for the agent that rotated. *)
Lemma rotate_takes_over r a b ka kb ea :
  id_to_key r !! a = Some ka -> agents r !! ka = Some ea -> id_to_key r !! b = Some kb -> a <> b -> ka <> kb ->
  let r' := snd (rotate_key a kb r) in
  holders r' b = Some (kb, ea) /\ holders r' a = Some (kb, ea) /\ agent_lookup kb (snd (remove_by_id b r')) = None.
Proof.
  intros Ha Hea Hb Hne Hk. unfold rotate_key, rotate_remove. rewrite Ha, Hea. simpl. unfold holders, remove_by_id. simpl.
  rewrite !lookup_insert_eq, !(lookup_insert_ne _ a b) by done. rewrite Hb. simpl. rewrite lookup_insert_eq.
  split_and!; [done..|]. unfold agent_lookup. simpl. by rewrite lookup_delete_eq.
Qed.

(** ** Witnesses *)

#[local] Existing Instance DemoEnv.
Definition demo_evict : EvictRequest :=
  {| er_upstream_id := Some (lit "up1"); er_context_id := None; er_query_text_prefix := None;
     er_older_than_secs := None; er_max_entries := Some 1; er_expired_only := false |}.
Definition demo_single : Single :=
  {| free_permit := fun _ => true; sg_query := fun n _ => if (n =? 0)%nat then Ok (demo_response "w") else Err Timeout;
     call_took := fun _ => 0 |}.
Definition demo_warm_app : AppState Backends :=
  {| st_cache := demo_init;
     st_upstreams := {| b_cascade := None; b_pool := false; b_single := true; b_world := demo_world; b_reads := 0 |};
     coalescer := RequestCoalescer_new; refresh_worker := None;
     st_scope_filter := ScopeFilter_none; st_metrics := ProxyMetrics_new; circuit_breaker := default_config 0;
     retry_policy := RetryPolicy_default; adaptive_timeout := AdaptiveTimeout_new AdaptiveTimeoutConfig_default;
     query_stats := QueryStatsTracker_new 100; st_upstream_id := lit "up";
     context_manager := ContextManager_new demo_clock ContextConfig_default; paused := false;
     client_tracker := ClientTracker_new |}.
Definition demo_warm : WarmupRequest := {| wq_queries := [lit "alpha"; lit "beta"]; wq_fetch_from_upstream := true |}.
Definition demo_warmed := @handle_cache_warmup DemoEnv DemoBackend demo_single (fun _ => demo_clock) demo_warm demo_warm_app.


(** One upstream answer, then a failure. *)
Lemma warmup_exact_witness :
  exists resp s', demo_warmed = Ret (resp, s') /\ wr_warmed resp = 1 /\ wr_failed resp = 1.
Proof.
  assert (Hi : inv 2 (st_cache demo_warm_app)) by (apply inv_init; unfold usize_max, u_max; lia).
  destruct (@warmup_exact DemoEnv DemoEnv_laws DemoBackend demo_single (fun _ => demo_clock) 2 demo_warm demo_warm_app
    Hi ltac:(intros h; eexists; reflexivity) ltac:(vm_compute; discriminate)) as (resp & s' & H & _ & H2 & _).
  exists resp, s'. destruct (H2 eq_refl) as [H3 _]. split; [exact H|].
  assert (wr_warmed resp = 1) as Hw.
  { change (handle_cache_warmup _ _ _) with demo_warmed in H.
    assert ((let! x := demo_warmed in Ret (wr_warmed x.1)) = Ret 1) as Hc by (vm_compute; reflexivity).
    rewrite H in Hc. by injection Hc. }
  split; [exact Hw|]. change (zlen (wq_queries demo_warm)) with 2 in H3. lia.
Defined.

Definition demo_agent (id key : string) : CreateAgentRequest :=
  {| cr_id := lit id; cr_api_key := lit key; cr_allowed_contexts := []; cr_priority_class := None; cr_rate_limit_rps := None |}.
Definition demo_registry : AgentRegistry := register 0 (agent_config_of (demo_agent "a" "ka")) AgentRegistry_new.
