(* ===== verification/Grpc.v ===== *)
(** * The gRPC surface (src/src/proxy/grpc/, src/proto/conproxy/v1/search.proto)

    The messages, their conversions to and from the types of the proxy, the
    interceptor, the services.  A message is a record with the fields of its
    definition; unset fields have the default of their type.  The encoding on the
    wire is third-party. *)

From Stdlib Require Import SpecFloat.
From S2P Require Import Prelude Floats Text Types Cache CacheInv CacheReach CacheSpec CacheProps.
From S2P Require Import Circuit Scope Coalesce Retry ConnPool Upstream Pool PoolProps Cascade Auth Adaptive.
From S2P Require Import Federated Metrics Context Refresh Batch Pipeline PipelineProps BatchServer Handlers.
Open Scope Z_scope.
Open Scope conproxy_scope.

(** ** Messages *)

Module Proto.
Record QueryRequestMsg := {
  query : str; top_k : Z; priority : Z; upstream_id : str; upstream_type : str; context : str; request_id : str
}.
Record SearchResultMsg := { id : str; score : f32; content : str; metadata_json : bytes; sr_upstream : str }.
Inductive CacheStatusMsg := Unspecified | PHit | PMiss | PStale | PFrozen.
Record QueryResponseMsg := { results : list SearchResultMsg; cache_status : Z; took_ms : Z; generated_at : Z }.
Record BatchQueryRequest := { bq_queries : list str; bq_fail_fast : bool; bq_context : str }.
Record BatchQueryResponse := {
  bp_results : gmap str QueryResponseMsg; bp_success_count : Z; bp_error_count : Z; bp_complete : bool
}.
Record FederatedStatsMsg := {
  local_count : Z; remote_count : Z; merged_count : Z; local_latency_ms : Z; remote_latency_ms : Z; fallback_reason : str
}.
End Proto.

(** [serde_json::to_vec] and [serde_json::from_slice] for values. *)
Class ValueCodec := { value_to_vec : Value -> bytes; value_from_slice : bytes -> option Value }.
(** What is written can be read, and is not empty. *)
Class ValueCodecLaws (C : ValueCodec) : Prop := {
  value_roundtrip : forall v, value_from_slice (value_to_vec v) = Some v;
  value_nonempty : forall v, value_to_vec v <> []
}.

(** Zero and the empty string stand for an absent field. *)
Definition positive_of (n : Z) : option Z := if 0 <? n then Some n else None.
Definition nonempty_of (s : str) : option str := match s with [] => None | _ => Some s end.

(** ** Conversions (grpc/convert.rs) *)

Definition status_to_proto (s : CacheStatus) : Proto.CacheStatusMsg :=
  match s with Hit => Proto.PHit | Miss => Proto.PMiss | Stale_ => Proto.PStale | Frozen_ => Proto.PFrozen end.
Definition status_from_proto (s : Proto.CacheStatusMsg) : CacheStatus :=
  match s with
  | Proto.PHit => Hit | Proto.PMiss => Miss | Proto.PStale => Stale_ | Proto.PFrozen => Frozen_
  | Proto.Unspecified => Miss
  end.
(** [as i32] and [try_from] of the enumeration. *)
Definition status_as_i32 (s : Proto.CacheStatusMsg) : Z :=
  match s with Proto.Unspecified => 0 | Proto.PHit => 1 | Proto.PMiss => 2 | Proto.PStale => 3 | Proto.PFrozen => 4 end.
Definition status_try_from (n : Z) : option Proto.CacheStatusMsg :=
  match n with
  | 0 => Some Proto.Unspecified | 1 => Some Proto.PHit | 2 => Some Proto.PMiss | 3 => Some Proto.PStale
  | 4 => Some Proto.PFrozen | _ => None
  end.

Definition request_from_proto (p : Proto.QueryRequestMsg) : QueryRequest :=
  {| query := Proto.query p; top_k := positive_of (Proto.top_k p);
     rq_priority := if 0 <? Proto.priority p then Some (wrap 8 (Proto.priority p)) else None;
     rq_upstream_id := nonempty_of (Proto.upstream_id p); upstream_type := nonempty_of (Proto.upstream_type p) |}.
Definition request_to_proto (r : QueryRequest) : Proto.QueryRequestMsg :=
  {| Proto.query := query r; Proto.top_k := wrap 32 (default 0 (top_k r)); Proto.priority := default 0 (rq_priority r);
     Proto.upstream_id := default [] (rq_upstream_id r); Proto.upstream_type := default [] (upstream_type r);
     Proto.context := []; Proto.request_id := [] |}.

Section Convert.
Context `{C : ValueCodec}.

Definition result_to_proto (r : SearchResult) : Proto.SearchResultMsg :=
  {| Proto.id := sr_id r; Proto.score := score r; Proto.content := content r;
     Proto.metadata_json := match metadata r with Some m => value_to_vec m | None => [] end;
     Proto.sr_upstream := default [] (sr_upstream_id r) |}.
Definition result_from_proto (p : Proto.SearchResultMsg) : SearchResult :=
  {| sr_id := Proto.id p; score := Proto.score p; content := Proto.content p;
     metadata := match Proto.metadata_json p with [] => None | b => value_from_slice b end;
     sr_upstream_id := nonempty_of (Proto.sr_upstream p) |}.

Definition response_to_proto (r : QueryResponse) : Proto.QueryResponseMsg :=
  {| Proto.results := map result_to_proto (results r);
     Proto.cache_status := status_as_i32 (status_to_proto (cache_status r)); Proto.took_ms := took_ms r;
     Proto.generated_at := default 0 (generated_at r) |}.
Definition response_from_proto (p : Proto.QueryResponseMsg) : QueryResponse :=
  {| results := map result_from_proto (Proto.results p);
     cache_status := status_from_proto (default Proto.Unspecified (status_try_from (Proto.cache_status p)));
     took_ms := Proto.took_ms p; generated_at := positive_of (Proto.generated_at p); miss_reason := None |}.

Definition cached_to_proto (r : CachedResponse) : Proto.QueryResponseMsg :=
  match r with
  | Cached e st tk =>
      {| Proto.results := map result_to_proto (results (response e)); Proto.cache_status := status_as_i32 (status_to_proto st);
         Proto.took_ms := tk; Proto.generated_at := default 0 (generated_at (response e)) |}
  | FreshResponse r => response_to_proto r
  | SharedFresh r tk =>
      {| Proto.results := map result_to_proto (results r);
         Proto.cache_status := status_as_i32 (status_to_proto (cache_status r)); Proto.took_ms := tk;
         Proto.generated_at := default 0 (generated_at r) |}
  end.

Definition batch_from_proto (p : Proto.BatchQueryRequest) : BatchRequest :=
  {| queries := imap (fun i q => {| bq_id := lit "q" ++ show_Z (Z.of_nat i); bq_query := q; bq_top_k := None; bq_priority := None |})
                  (Proto.bq_queries p);
     fail_fast := Proto.bq_fail_fast p; timeout_ms := None |}.
Definition batch_response_to_proto (r : BatchResponse) : Proto.BatchQueryResponse :=
  {| Proto.bp_results := (fun v => match bqr_response v with
       | Some resp => response_to_proto resp
       | None => {| Proto.results := []; Proto.cache_status := status_as_i32 Proto.PMiss; Proto.took_ms := bqr_took_ms v;
                    Proto.generated_at := 0 |}
       end) <$> br_results r;
     Proto.bp_success_count := wrap 32 (success_count r); Proto.bp_error_count := wrap 32 (error_count r);
     Proto.bp_complete := complete_ r |}.
Definition stats_to_proto (s : FederatedStats) : Proto.FederatedStatsMsg :=
  {| Proto.local_count := wrap 32 (local_count s); Proto.remote_count := wrap 32 (remote_count s);
     Proto.merged_count := wrap 32 (merged_count s); Proto.local_latency_ms := local_latency_ms s;
     Proto.remote_latency_ms := default 0 (remote_latency_ms s); Proto.fallback_reason := default [] (fallback_reason s) |}.
End Convert.

(** ** Metadata and authentication (grpc/middleware.rs, grpc/search.rs) *)

(** What the interceptor and the services read of the metadata of a call; a value is
    [None] inside when it is not visible ASCII. *)
Record Metadata := {
  md_api_key : option (option str); md_authorization : option (option str); md_peer_secret : option (option str);
  md_request_id : option (option str); md_context : option (option str)
}.
Inductive GrpcCode := InvalidArgument | PermissionDenied | GUnavailable | Internal | Unauthenticated | ResourceExhausted
  | GNotFound | FailedPrecondition.
#[export] Instance GrpcCode_eq_dec : EqDecision GrpcCode.
Proof. solve_decision. Defined.
Definition GrpcError : Type := GrpcCode * str.

Definition metadata_api_key (md : Metadata) : option str :=
  match md_api_key md with
  | Some v => v
  | None =>
      match md_authorization md with
      | Some (Some auth) => strip_prefix (lit "Bearer ") auth
      | _ => None
      end
  end.

Record GrpcInterceptorConfig := {
  gi_agent_registry : option AgentRegistry; gi_rate_limiter : option RateLimiter; gi_api_key : option str
}.
Definition gi_disabled : GrpcInterceptorConfig := {| gi_agent_registry := None; gi_rate_limiter := None; gi_api_key := None |}.
Definition requires_auth (c : GrpcInterceptorConfig) : bool :=
  bool_decide (is_Some (gi_agent_registry c)) || bool_decide (is_Some (gi_api_key c)).
Definition put_gi_limiter (c : GrpcInterceptorConfig) (l : option RateLimiter) : GrpcInterceptorConfig :=
  {| gi_agent_registry := gi_agent_registry c; gi_rate_limiter := l; gi_api_key := gi_api_key c |}.

Definition key_known (c : GrpcInterceptorConfig) (key : str) : bool :=
  match gi_agent_registry c with Some r => bool_decide (is_Some (agent_lookup key r)) | None => false end ||
  match gi_api_key c with Some expected => constant_time_eq key expected | None => false end.
Definition auth_check (md : Metadata) (c : GrpcInterceptorConfig) : result unit GrpcError :=
  if requires_auth c then
    match metadata_api_key md with
    | Some key => if key_known c key then Ok tt else Err (Unauthenticated, lit "Invalid API key")
    | None => Err (Unauthenticated, lit "API key required (provide via x-api-key or Authorization: Bearer)")
    end
  else Ok tt.
Definition intercept (now : Z) (md : Metadata) (c : GrpcInterceptorConfig) : result unit GrpcError * GrpcInterceptorConfig :=
  match gi_rate_limiter c with
  | Some l =>
      let '(ok, l) := rl_try_acquire now l in
      (if negb ok then Err (ResourceExhausted, lit "Rate limit exceeded") else auth_check md c, put_gi_limiter c (Some l))
  | None => (auth_check md c, c)
  end.

Definition peer_secret_of (md : Metadata) : option str :=
  match md_peer_secret md with
  | Some v => v
  | None => match md_api_key md with Some v => v | None => None end
  end.
Definition intercept_peer (expected : str) (md : Metadata) : result unit GrpcError :=
  match peer_secret_of md with
  | Some provided => if constant_time_eq provided expected then Ok tt
                     else Err (Unauthenticated, lit "Invalid peer shared secret")
  | None => Err (Unauthenticated, lit "Peer shared secret required (provide via x-peer-secret or x-api-key)")
  end.

(** The service's own check, against the registry in force. *)
Definition authenticate (live : option AgentRegistry) (md : Metadata) : result (option AgentIdentity) GrpcError :=
  match live with
  | Some r =>
      if registry_is_empty r then Ok None
      else match metadata_api_key md with
           | Some key => match agent_lookup key r with
                         | Some e => Ok (Some (ae_identity e))
                         | None => Err (Unauthenticated, lit "Invalid API key")
                         end
           | None => Err (Unauthenticated, lit "API key required")
           end
  | None => Ok None
  end.

(** ** A codec of values

    The laws can hold: values are trees, trees have codes, and the bits of a code are
    a list of bytes. *)
Abbreviation ValueLeaf := (bool + (option Z * str) + str)%type (only parsing).
Fixpoint value_tree (v : Value) : gen_tree ValueLeaf :=
  match v with
  | VNull => GenNode 0 []
  | VBool b => GenLeaf (inl (inl b))
  | VNumber n t => GenLeaf (inl (inr (n, t)))
  | VString s => GenLeaf (inr s)
  | VArray a => GenNode 1 (map value_tree a)
  | VObject o => GenNode 2 (map (fun kv => GenNode 3 [GenLeaf (inr (fst kv)); value_tree (snd kv)]) o)
  end.
Fixpoint tree_value (t : gen_tree ValueLeaf) : Value :=
  match t with
  | GenLeaf (inl (inl b)) => VBool b
  | GenLeaf (inl (inr (n, x))) => VNumber n x
  | GenLeaf (inr s) => VString s
  | GenNode 1 ts => VArray (map tree_value ts)
  | GenNode 2 ts => VObject (map (fun t => match t with
                                           | GenNode _ [GenLeaf (inr k); v] => (k, tree_value v)
                                           | _ => ([], VNull)
                                           end) ts)
  | GenNode _ _ => VNull
  end.
Fixpoint value_tree_back (v : Value) : tree_value (value_tree v) = v.
Proof.
  destruct v as [|b|n t|s|a|o]; simpl; try done.
  - f_equal. induction a as [|x a IH]; simpl; [done|]. by rewrite value_tree_back, IH.
  - f_equal. induction o as [|[k x] o IH]; simpl; [done|]. by rewrite value_tree_back, IH.
Qed.
Fixpoint positive_bits (p : positive) : bytes :=
  match p with xH => [2] | xO p => 0 :: positive_bits p | xI p => 1 :: positive_bits p end.
Fixpoint bits_positive (b : bytes) : positive :=
  match b with [] => xH | x :: b => if x =? 2 then xH else if x =? 0 then xO (bits_positive b) else xI (bits_positive b) end.
Lemma bits_positive_back p : bits_positive (positive_bits p) = p.
Proof. induction p as [p IH|p IH|]; simpl; by rewrite ?IH. Qed.

Definition TreeCodec : ValueCodec :=
  {| value_to_vec := fun v => positive_bits (encode (value_tree v));
     value_from_slice := fun b => tree_value <$> decode (bits_positive b) |}.
#[export] Instance TreeCodec_laws : ValueCodecLaws TreeCodec.
Proof.
  split; intros v; simpl.
  - rewrite bits_positive_back, decode_encode. simpl. by rewrite value_tree_back.
  - by destruct (encode (value_tree v)).
Qed.

(** ** Properties of the conversions *)

Section ConvertProps.
Context `{C : ValueCodec} {L : ValueCodecLaws C}.

(** What a message cannot tell apart: an absent field and zero or the empty string,
    and the reason of a miss. *)
Definition proto_result (r : SearchResult) : SearchResult :=
  {| sr_id := sr_id r; score := score r; content := content r; metadata := metadata r;
     sr_upstream_id := match sr_upstream_id r with Some [] => None | u => u end |}.
Definition proto_response (r : QueryResponse) : QueryResponse :=
  {| results := map proto_result (results r); cache_status := cache_status r; took_ms := took_ms r;
     generated_at := match generated_at r with Some g => positive_of g | None => None end; miss_reason := None |}.
Definition proto_request (r : QueryRequest) : QueryRequest :=
  {| query := query r; top_k := match top_k r with Some k => positive_of (wrap 32 k) | None => None end;
     rq_priority := match rq_priority r with Some p => positive_of p | None => None end;
     rq_upstream_id := match rq_upstream_id r with Some [] => None | u => u end;
     upstream_type := match upstream_type r with Some [] => None | u => u end |}.

Lemma nonempty_default (u : option str) : nonempty_of (default [] u) = match u with Some [] => None | u => u end.
Proof. by destruct u as [[|]|]. Qed.
Lemma result_roundtrip r : result_from_proto (result_to_proto r) = proto_result r.
Proof.
  unfold result_from_proto, result_to_proto, proto_result. simpl. rewrite nonempty_default.
  f_equal; [|by destruct (sr_upstream_id r) as [[|]|]].
  destruct (metadata r) as [m|]; [|done]. pose proof (value_nonempty m). pose proof (value_roundtrip m).
  by destruct (value_to_vec m).
Qed.
Lemma status_roundtrip st : status_from_proto (default Proto.Unspecified (status_try_from (status_as_i32 (status_to_proto st)))) = st.
Proof. by destruct st. Qed.

Lemma proto_response_roundtrip r : response_from_proto (response_to_proto r) = proto_response r.
Proof.
  unfold response_from_proto, response_to_proto, proto_response. simpl. rewrite status_roundtrip, map_map.
  f_equal; [|by destruct (generated_at r)]. apply map_ext. apply result_roundtrip.
Qed.
(** The message for a served response is that of the response the HTTP interface sends. *)
Lemma cached_message r : cached_to_proto r = response_to_proto (into_query_response r).
Proof. by destruct r. Qed.


(** The identifiers of a batch are distinct, so that no answer replaces another. *)
Definition digits_value (d : str) : Z := fold_left (fun a c => a * 10 + (c - 48)) d 0.
Lemma digits_aux_value fuel : forall n, 0 <= n < 10 ^ Z.of_nat fuel ->
  exists d, (forall acc, digits_aux fuel n acc = d ++ acc) /\ digits_value d = n.
Proof.
  induction fuel as [|fuel IH]; intros n Hn.
  { exists []. split; [done|]. change (10 ^ Z.of_nat 0) with 1 in Hn. unfold digits_value. simpl. lia. }
  rewrite Nat2Z.inj_succ, Z.pow_succ_r in Hn by lia. simpl. destruct (n <? 10) eqn:Hs; reflect_Z.
  { exists [48 + n mod 10]. split; [done|]. unfold digits_value. simpl. rewrite Z.mod_small; lia. }
  destruct (IH (n / 10)) as (d & Hd & Hv).
  { split; [apply Z.div_pos; lia|]. apply Z.div_lt_upper_bound; lia. }
  exists (d ++ [48 + n mod 10]). split; [intros acc; by rewrite Hd, <- app_assoc|].
  unfold digits_value in *. rewrite fold_left_app, Hv. simpl. pose proof (Z.div_mod n 10). lia.
Qed.
Lemma show_Z_inj a b : 0 <= a < 10 ^ 20 -> 0 <= b < 10 ^ 20 -> show_Z a = show_Z b -> a = b.
Proof.
  intros Ha Hb He. destruct (digits_aux_value 20 a Ha) as (da & Hda & <-), (digits_aux_value 20 b Hb) as (db & Hdb & <-).
  unfold show_Z in He. rewrite Hda, Hdb, !app_nil_r in He. by rewrite He.
Qed.
Lemma batch_ids_distinct p : zlen (Proto.bq_queries p) < 10 ^ 20 -> NoDup (map bq_id (queries (batch_from_proto p))).
Proof.
  intros Hl. unfold batch_from_proto. simpl. change (map bq_id) with (fmap (M := list) bq_id). rewrite fmap_imap.
  apply NoDup_alt. intros i j x Hi Hj. rewrite !list_lookup_imap in Hi, Hj. unfold zlen in Hl.
  destruct (Proto.bq_queries p !! i) as [qi|] eqn:Ei; [|done]. destruct (Proto.bq_queries p !! j) as [qj|] eqn:Ej; [|done].
  apply lookup_lt_Some in Ei, Ej. simpl in *. injection Hi as <-. injection Hj as Hx.
  assert (Z.of_nat j = Z.of_nat i); [|lia]. apply show_Z_inj; [lia|lia|done].
Qed.
End ConvertProps.

