(* ===== verification/GrpcServices.v ===== *)
(** * The gRPC services (src/src/proxy/grpc/search.rs, admin.rs, context.rs)

    Admission of a call, the search service over the query pipeline, the
    administration and the contexts.  A service returns its message or a status; the
    texts of success messages are left out. *)

From Stdlib Require Import SpecFloat.
From S2P Require Import Prelude Floats Text Types Cache CacheInv CacheReach CacheSpec CacheProps.
From S2P Require Import Circuit Scope Coalesce Retry ConnPool Upstream Pool PoolProps Cascade Auth Adaptive.
From S2P Require Import Federated Metrics Context Refresh Batch Pipeline PipelineProps BatchServer Handlers Grpc.
Open Scope Z_scope.
Open Scope conproxy_scope.

(** ** Admission

    The interceptor holds the registry of the start, the service reads the one in
    force. *)
Definition grpc_admit (now : Z) (md : Metadata) (live : option AgentRegistry) (gi : GrpcInterceptorConfig)
  : result (option AgentIdentity) GrpcError * GrpcInterceptorConfig :=
  match intercept now md gi with
  | (Ok _, gi) => (authenticate live md, gi)
  | (Err e, gi) => (Err e, gi)
  end.

(** ** The search service *)

(** [{:x}] of a 128-bit number. *)
Fixpoint hex_aux (fuel : nat) (n : Z) (acc : str) : str :=
  match fuel with
  | O => acc
  | S f => let acc := hex_digit (n mod 16) :: acc in if n <? 16 then acc else hex_aux f (n / 16) acc
  end.
Definition generated_id (clk : Clock) : str := lit "req-" ++ hex_aux 32 (Z.max 0 (wall clk)) [].
Definition resolve_request_id (clk : Clock) (proto_id : str) (md : Metadata) : str :=
  match proto_id with
  | _ :: _ => proto_id
  | [] => match md_request_id md with Some (Some v) => v | _ => generated_id clk end
  end.
Definition grpc_context (proto_context : str) (md : Metadata) : str :=
  match proto_context with
  | _ :: _ => proto_context
  | [] => match md_context md with Some (Some v) => v | _ => lit "default" end
  end.

Definition query_call (clk : Clock) (md : Metadata) (agent : option AgentIdentity) (p : Proto.QueryRequestMsg) : QueryCall :=
  {| qc_request := request_from_proto p; qc_context := grpc_context (Proto.context p) md;
     qc_request_id := resolve_request_id clk (Proto.request_id p) md; qc_agent := agent;
     qc_source := match agent with Some a => ai_id a | None => lit "grpc" end; qc_skip_cache := false |}.
Definition grpc_reply `{ValueCodec} (r : QueryResult) : result Proto.QueryResponseMsg GrpcError :=
  if qr_status r =? 200 then Ok (cached_to_proto (qr_response r))
  else if qr_status r =? 400 then Err (InvalidArgument, lit "Request validation failed")
  else if qr_status r =? 403 then Err (PermissionDenied, lit "Context access denied")
  else if qr_status r =? 502 then Err (GUnavailable, lit "Upstream request failed")
  else if qr_status r =? 503 then Err (GUnavailable, lit "Service unavailable")
  else Err (Internal, lit "Internal error").

Section Search.
Context `{CacheEnv} `{StatsEnv} `{ContextEnv} {U : Type} `{Dispatcher U} `{FloatPow} `{ValueCodec}.

(** A call that runs alone, after the interceptor; [None] when it would wait. *)
Definition grpc_query (start : Z) (clk clk' : Clock) (live : option AgentRegistry) (md : Metadata)
    (p : Proto.QueryRequestMsg) (s : AppState U)
  : option (outcome (result Proto.QueryResponseMsg GrpcError * option BgTask * AppState U)) :=
  match authenticate live md with
  | Err e => Some (Ret (Err e, None, s))
  | Ok agent =>
      match execute_query start clk clk' (query_call clk md agent p) s with
      | Some o => Some (let! x := o in let '(r, bg, s) := x in Ret (grpc_reply r, bg, s))
      | None => None
      end
  end.
(** A stream of one element. *)
Definition grpc_query_stream (start : Z) (clk clk' : Clock) (live : option AgentRegistry) (md : Metadata)
    (p : Proto.QueryRequestMsg) (s : AppState U)
  : option (outcome (result (list Proto.QueryResponseMsg) GrpcError * option BgTask * AppState U)) :=
  match grpc_query start clk clk' live md p s with
  | Some o => Some (let! x := o in
                    let '(r, bg, s) := x in
                    Ret (match r with Ok m => Ok [m] | Err e => Err e end, bg, s))
  | None => None
  end.
End Search.

(** ** Batches

    The handler before the queries: the agent is authenticated, but its access to the
    context is not looked at. *)
Section GrpcItem.
Context `{CacheEnv} `{StatsEnv} `{ContextEnv} {U : Type} `{Dispatcher U}.
Context (start : Z) (clk : Clock) (c : QueryCall).

Definition grpc_batch_enter (cfg : BatchConfig) (r : BatchRequest) (s : AppState U) : result unit GrpcError * AppState U :=
  match batch_validate cfg r with
  | Err _ => (Err (InvalidArgument, lit "Batch validation failed"), s)
  | Ok _ => (Ok tt, ensure_context clk c s)
  end.

Definition gitem_miss (reason : MissReason) (s : AppState U) : ItemPhase * AppState U :=
  if disp_present (st_upstreams s) then
    let '(action, co) := get_or_insert (query_hash c) (coalescer s) in
    let s := on_coalescer (fun _ => co) s in
    match action with
    | Leader => (ILead reason, on_metrics record_upstream_request s)
    | Waiter rx => (IWait rx (length (sends co)), on_metrics record_coalesced s)
    end
  else
    match cache_get_text c s with
    | (Some e, s) => (IDone (Ok (stamped (response e) Hit (took start clk))), with_latency start clk s)
    | (None, s) => (IDone (Err (lit "No upstream configured")), s)
    end.
Definition gitem_begin (s : AppState U) : outcome (ItemPhase * AppState U) :=
  let! fr := check_freshness clk (ctx_query c) (st_cache s) in
  Ret match fr with
      | Some Fresh => match cache_get_text c s with (Some e, s) => item_hit start clk c e Hit s | (None, s) => gitem_miss NotInCache s end
      | Some Stale => match cache_get_text c s with (Some e, s) => item_hit start clk c e Stale_ s | (None, s) => gitem_miss NotInCache s end
      | Some _ => gitem_miss ReasonExpired s
      | None => gitem_miss NotInCache s
      end.

(** The answer is timed before it is stored, and stored in the default context. *)
Definition gitem_lead (f : ScopeFilter) (reason : MissReason) (answer : result QueryResponse UpstreamError) (s : AppState U)
  : result QueryResponse str * AppState U :=
  match answer with
  | Ok r =>
      let s := on_contexts (record_miss_for (qc_context c)) (on_metrics (record_miss reason) s) in
      let r := timed start clk (accepted f reason r) in
      let s := with_latency start clk s in
      let s := if is_ok (response_validate r)
               then register_with_worker (ctx_query c) (on_cache (insert clk (ctx_query c) r (st_upstream_id s)) s)
               else s in
      (Ok r, with_query_stats start clk c false (on_coalescer (complete (query_hash c) (Ok r)) s))
  | Err err =>
      let s := on_metrics record_upstream_failure (on_metrics (record_miss ReasonUpstreamError) s) in
      match cache_get_text c s with
      | (Some e, s) =>
          let r := stamped (response e) Frozen_ (took start clk) in
          (Ok r, on_coalescer (complete (query_hash c) (Ok r)) (with_latency start clk s))
      | (None, s) =>
          (Err (display_upstream_error err), on_coalescer (complete (query_hash c) (Err (display_upstream_error err))) s)
      end
  end.
Definition gitem_wait (received : option (result QueryResponse str)) (s : AppState U) : result QueryResponse str * AppState U :=
  match received with
  | Some (Ok r) => (Ok (timed start clk r), with_latency start clk s)
  | _ =>
      match cache_get_text c s with
      | (Some e, s) => (Ok (stamped (response e) Frozen_ (took start clk)), with_latency start clk s)
      | (None, s) => (Err (lit "Upstream request failed"), s)
      end
  end.
End GrpcItem.

(** ** Federated search *)

Record FederatedMessage := { fm_query : str; fm_local : list Proto.SearchResultMsg; fm_top_k : Z; fm_context : str }.
Record FederatedReply := {
  fp_results : list Proto.SearchResultMsg; fp_status : Z; fp_took_ms : Z; fp_stats : Proto.FederatedStatsMsg
}.
Definition ProtoStats_default : Proto.FederatedStatsMsg :=
  {| Proto.local_count := 0; Proto.remote_count := 0; Proto.merged_count := 0; Proto.local_latency_ms := 0;
     Proto.remote_latency_ms := 0; Proto.fallback_reason := [] |}.

Section GrpcFederated.
Context `{CacheEnv} `{ContextEnv} `{ValueCodec} `{Backend} `{Single}.
Context (clk : Clock) (fed : FederatedSearchConfig).

(** The pool if there is one, else the single adapter; failures count as no answer. *)
Definition gfed_ask (m : FederatedMessage) (b : Backends) : option QueryResponse * Backends :=
  let req := plain_request (fm_query m) (positive_of (fm_top_k m)) in
  if b_pool b then let '(r, w) := pool_query req (b_world b) in
                   (match r with Ok r => Some r | Err _ => None end, put_world b w (b_reads b))
  else if b_single b then
    (match sg_query (w_calls (b_world b)) req with Ok r => Some r | Err _ => None end,
     put_world b (called (b_world b)) (b_reads b))
  else (None, b).

Definition grpc_federated (md : Metadata) (m : FederatedMessage) (s : AppState Backends)
  : result FederatedReply GrpcError * AppState Backends :=
  let ctx := grpc_context (fm_context m) md in
  let call := {| qc_request := plain_request (fm_query m) None; qc_context := ctx; qc_request_id := []; qc_agent := None;
                 qc_source := []; qc_skip_cache := false |} in
  let s := ensure_context clk call s in
  let local := map result_from_proto (fm_local m) in
  if negb (fs_enabled fed) then
    match cache_get_text call s with
    | (Some e, s) =>
        (Ok {| fp_results := map result_to_proto (results (response e)); fp_status := status_as_i32 Proto.PHit;
               fp_took_ms := 0; fp_stats := ProtoStats_default |}, on_metrics record_hit s)
    | (None, s) => (Err (GUnavailable, lit "Federated search disabled and no cache"), s)
    end
  else
    let '(remote, s) :=
      match should_query_remote fed local with
      | LocalSufficient => (None, s)
      | _ => let '(r, b) := gfed_ask m (st_upstreams s) in (r, on_upstreams (fun _ => b) s)
      end in
    let '(merged, st) := merge_responses fed
      {| results := local; cache_status := Hit; took_ms := 0; generated_at := None; miss_reason := None |} remote in
    (Ok {| fp_results := map result_to_proto (results merged);
           fp_status := status_as_i32 (status_to_proto (cache_status merged)); fp_took_ms := took_ms merged;
           fp_stats := stats_to_proto st |}, s).
End GrpcFederated.

(** ** The administration service *)

Section GrpcWarmup.
Context `{E : CacheEnv} `{Backend} `{Single} (ticks : nat -> Clock).

(** As the HTTP handler, except that an answer is stored in the default context and
    that the counters have 32 bits. *)
Definition gwarm_fill (clk : Clock) (ctx q : str) (r : result QueryResponse UpstreamError) (s : AppState Backends)
  : bool * AppState Backends :=
  match r with
  | Ok r =>
      let r := warm_scoped ctx s r in
      if is_ok (response_validate r) then
        (true, on_metrics record_warmup_entry (on_cache (insert clk (context_query ctx q) r (st_upstream_id s)) s))
      else (false, s)
  | Err _ => (false, s)
  end.
Definition gwarm_one (n : nat) (ctx q : str) (s : AppState Backends) : outcome (bool * AppState Backends) :=
  let! f := check_freshness (ticks n) (context_query ctx q) (st_cache s) in
  match f with
  | Some Fresh => Ret (true, s)
  | _ => let '(r, b) := warm_query q (st_upstreams s) in
         Ret (gwarm_fill (ticks (S n)) ctx q r (on_upstreams (fun _ => b) s))
  end.
Fixpoint gwarm_loop (n : nat) (ctx : str) (qs : list str) (warmed failed : Z) (s : AppState Backends)
  : outcome (Z * Z * AppState Backends) :=
  match qs with
  | [] => Ret (warmed, failed, s)
  | q :: qs =>
      let! r := gwarm_one n ctx q s in
      if r.1 then gwarm_loop (S (S n)) ctx qs (sat_add 32 warmed 1) failed r.2
      else gwarm_loop (S (S n)) ctx qs warmed (sat_add 32 failed 1) r.2
  end.
Definition grpc_cache_warmup (r : WarmupRequest) (s : AppState Backends) : outcome (Z * Z * AppState Backends) :=
  let s := on_metrics record_warmup_request s in
  if negb (wq_fetch_from_upstream r) then Ret (0, 0, s)
  else if negb (warmable s) then Ret (0, wrap 32 (zlen (wq_queries r)), s)
  else gwarm_loop 0 (current (context_manager s)) (wq_queries r) 0 0 s.
End GrpcWarmup.

Record EvictMessage := { em_upstream_id : str; em_max_entries : Z; em_expired_only : bool }.
Record AgentMessage := {
  am_id : str; am_api_key : str; am_allowed_contexts : list str; am_priority_class : Z; am_rate_limit_rps : Z
}.
Record ProtoAgentInfo := {
  pa_id : str; pa_default_context : str; pa_allowed_contexts : list str; pa_priority_class : Z; pa_rate_limit_rps : Z;
  pa_enabled : bool
}.

Section GrpcAdmin.
Context `{E : CacheEnv} {U : Type}.

Definition grpc_evict_by (clk : Clock) (m : EvictMessage) (c : CacheStore) : Z * CacheStore :=
  if em_expired_only m then evict_truly_expired clk c
  else match em_upstream_id m with
       | [] => evict_truly_expired clk c
       | u =>
           if 0 <? em_max_entries m
           then enforce_per_upstream_limit clk u (count_for_upstream u c -! em_max_entries m) c
           else evict_from_upstream clk u (count_for_upstream u c) c
       end.
Definition grpc_cache_evict (clk : Clock) (m : EvictMessage) (s : AppState U) : EvictResponse * AppState U :=
  let '(evicted, c) := grpc_evict_by clk m (st_cache s) in
  ({| ev_evicted := evicted; ev_remaining := cache_len c |}, on_cache (fun _ => c) s).

Definition grpc_list_agents (order : gmap str AgentEntry -> list (str * AgentEntry)) (reg : option AgentRegistry)
  : list ProtoAgentInfo * Z :=
  let l := match reg with
           | Some r => map (fun a => {| pa_id := in_id a; pa_default_context := [];
                                        pa_allowed_contexts := in_allowed_contexts a;
                                        pa_priority_class := in_priority_class a;
                                        pa_rate_limit_rps := default 0 (in_rate_limit_rps a);
                                        pa_enabled := in_enabled a |}) (list_agents order r)
           | None => []
           end in
  (l, wrap 32 (zlen l)).
Definition not_configured : GrpcError := (FailedPrecondition, lit "Agent registry not configured").
Definition agent_of_message (m : AgentMessage) : AgentConfig :=
  {| ac_id := am_id m; ac_api_key := am_api_key m; ac_default_context := None;
     ac_allowed_contexts := am_allowed_contexts m; ac_rate_limit_rps := positive_of (am_rate_limit_rps m);
     ac_priority_class := positive_of (am_priority_class m); ac_enabled := true |}.
Definition grpc_create_agent (now : Z) (m : AgentMessage) (reg : option AgentRegistry)
  : result str GrpcError * option AgentRegistry :=
  match reg with
  | Some r => (Ok (am_id m), Some (register now (agent_of_message m) r))
  | None => (Err not_configured, None)
  end.
Definition grpc_delete_agent (id : str) (reg : option AgentRegistry) : result str GrpcError * option AgentRegistry :=
  match reg with
  | Some r => let '(ok, r) := remove_by_id id r in
              (if ok then Ok id else Err (GNotFound, lit "Agent not found"), Some r)
  | None => (Err not_configured, None)
  end.
Definition grpc_rotate_key (id new_key : str) (reg : option AgentRegistry) : result str GrpcError * option AgentRegistry :=
  match reg with
  | Some r => let '(ok, r) := rotate_key id new_key r in
              (if ok then Ok id else Err (GNotFound, lit "Agent not found"), Some r)
  | None => (Err not_configured, None)
  end.
End GrpcAdmin.

(** ** The context service *)

Record ContextInfo := { ci_id : str; ci_created_at_ms : Z; ci_last_accessed_ms : Z; ci_hits : Z; ci_misses : Z }.
Record ProtoContextStats := { pc_id : str; pc_cache_entries : Z; pc_hits : Z; pc_misses : Z; pc_hit_rate : f64 }.
Definition display_context_error (e : ContextError) : str :=
  match e with
  | NotFound id => lit "Context not found: " ++ id
  | AlreadyExists id => lit "Context already exists: " ++ id
  | CannotDeleteDefault => lit "Cannot delete the default context"
  end.

Section GrpcContext.
Context `{ContextEnv} {U : Type}.
Definition info_of (m : ContextMetadata) : ContextInfo :=
  {| ci_id := md_id m; ci_created_at_ms := md_created_at m; ci_last_accessed_ms := md_last_accessed m;
     ci_hits := md_entry_count m; ci_misses := 0 |}.
Definition grpc_list_contexts (s : AppState U) : list ContextInfo * str :=
  (map info_of (list_metadata (context_manager s)), current (context_manager s)).
Definition grpc_current_context (s : AppState U) : result ContextInfo GrpcError :=
  match get_current (context_manager s) with Some m => Ok (info_of m) | None => Err (GNotFound, lit "No current context") end.
Definition grpc_switch_context (clk : Clock) (id : str) (s : AppState U)
  : result (str * str) GrpcError * AppState U :=
  let old := current (context_manager s) in
  let '(r, m) := switch clk id (context_manager s) in
  (match r with Ok _ => Ok (old, current m) | Err e => Err (InvalidArgument, display_context_error e) end,
   on_contexts (fun _ => m) s).
Definition grpc_create_context (clk : Clock) (id : str) (s : AppState U) : result str GrpcError * AppState U :=
  let '(r, m) := ctx_create clk id [] [] (context_manager s) in
  (match r with Ok _ => Ok id | Err e => Err (InvalidArgument, display_context_error e) end, on_contexts (fun _ => m) s).
Definition grpc_context_stats (id : str) (s : AppState U) : result ProtoContextStats GrpcError :=
  match get_context_stats id (context_manager s) with
  | Some (st, rate) => Ok {| pc_id := id; pc_cache_entries := cs_queries st; pc_hits := cs_hits st; pc_misses := cs_misses st;
                             pc_hit_rate := rate |}
  | None => Err (GNotFound, lit "Context '" ++ id ++ lit "' not found")
  end.
End GrpcContext.

(** ** The distillation stream (grpc/observability.rs) *)

Record DistillRequest := { dr_context : str; dr_tier : Z; dr_limit : Z; dr_include_stale : bool }.
Record DistillMessage := {
  dm_query : str; dm_context_id : str; dm_upstream_id : str; dm_cached_at_ms : Z; dm_extended_count : Z;
  dm_response_json : bytes; dm_hash_hex : str; dm_embedding : list f32
}.

Section DistillStream.
Context `{E : CacheEnv}.
(** [SystemTime::elapsed], zero when the clock reads earlier. *)
Definition wall_age (clk : Clock) (d : DistillSnapshot) : Z := Z.max 0 (wall clk - ds_cached_at_wall d).
Definition distill_keeps (clk : Clock) (r : DistillRequest) (s : CacheStore) (d : DistillSnapshot) : outcome bool :=
  if max_frozen_duration s <? wall_age clk d then Ret false
  else if negb (dr_include_stale r) then
    let! ttl := jittered_ttl (fresh_duration s) (ds_hash d) s in Ret (negb (ttl <? wall_age clk d))
  else Ret true.
Fixpoint retain {A} (p : A -> outcome bool) (l : list A) : outcome (list A) :=
  match l with
  | [] => Ret []
  | x :: l => let! b := p x in let! l := retain p l in Ret (if b : bool then x :: l else l)
  end.
Definition by_wall (a b : DistillSnapshot) : bool := ds_cached_at_wall a <=? ds_cached_at_wall b.
(** Without the embedding feature the index of embeddings is empty. *)
Definition distill_message (d : DistillSnapshot) : DistillMessage :=
  {| dm_query := ds_query_text d; dm_context_id := ds_context_id d; dm_upstream_id := ds_upstream_id d;
     dm_cached_at_ms := if 0 <=? ds_cached_at_wall d then as_millis_u64 (ds_cached_at_wall d) else 0;
     dm_extended_count := ds_extended_count d; dm_response_json := ds_response_json d;
     dm_hash_hex := query_hash_hex (ds_hash d); dm_embedding := [] |}.
Definition in_context (r : DistillRequest) (d : DistillSnapshot) : bool :=
  match dr_context r with [] => true | c => str_eqb (ds_context_id d) c end.
Definition distill_selected (clk : Clock) (r : DistillRequest) (s : CacheStore) : outcome (list DistillSnapshot) :=
  let! l := retain (distill_keeps clk r s) (List.filter (in_context r) (snapshot_entries_rich s)) in
  let l := sort_by by_wall l in
  Ret (if (0 <? dr_limit r) && (dr_limit r <? zlen l) then take (Z.to_nat (dr_limit r)) l else l).
Definition get_cache_distill (clk : Clock) (r : DistillRequest) (s : CacheStore) : outcome (list DistillMessage) :=
  let! l := distill_selected clk r s in Ret (map distill_message l).
End DistillStream.
