(* ===== verification/GrpcProps.v ===== *)
(** * Properties of the gRPC services

    Who is admitted, how that differs from the HTTP interface, what batches store,
    that the two interfaces evict alike, and what the distillation stream contains. *)

From Stdlib Require Import SpecFloat.
From S2P Require Import Prelude Floats Text Types Cache CacheInv CacheReach CacheSpec CacheProps CacheEvict.
From S2P Require Import Circuit Scope Coalesce Retry ConnPool Upstream Pool PoolProps Cascade Auth Adaptive.
From S2P Require Import Federated Metrics Context Refresh Batch Pipeline PipelineProps BatchServer Handlers Grpc GrpcServices.
Open Scope Z_scope.
Open Scope conproxy_scope.

(** ** Admission *)

Definition limiter_admits (now : Z) (gi : GrpcInterceptorConfig) : bool :=
  match gi_rate_limiter gi with Some l => fst (rl_try_acquire now l) | None => true end.
(** The key is that of an enabled agent of a registry, or the global key. *)
Definition accepted_at_start (gi : GrpcInterceptorConfig) (key : str) : Prop :=
  (exists r, gi_agent_registry gi = Some r /\ is_Some (agent_lookup key r)) \/
  (exists k, gi_api_key gi = Some k /\ as_bytes key = as_bytes k).

Lemma key_known_spec gi key : key_known gi key = true <-> accepted_at_start gi key.
Proof.
  unfold key_known, accepted_at_start. rewrite orb_true_iff. split; (intros [H|H]; [left|right]).
  - destruct (gi_agent_registry gi) as [r|]; [|done]. apply bool_decide_eq_true in H. eauto.
  - destruct (gi_api_key gi) as [k|]; [|done]. apply constant_time_eq_spec in H. eauto.
  - destruct H as (r & -> & H). by apply bool_decide_eq_true.
  - destruct H as (k & -> & H). by apply constant_time_eq_spec.
Qed.
Lemma auth_check_spec md gi :
  auth_check md gi = Ok tt <->
  (requires_auth gi = true -> exists key, metadata_api_key md = Some key /\ accepted_at_start gi key).
Proof.
  unfold auth_check. destruct (requires_auth gi); [|by split]. setoid_rewrite <- key_known_spec.
  destruct (metadata_api_key md) as [key|].
  - destruct (key_known gi key) eqn:Hk; [by split; eauto|]. split; [done|].
    intros H. destruct (H eq_refl) as (k & [= <-] & ?). congruence.
  - split; [done|]. intros H. by destruct (H eq_refl) as (? & ? & _).
Qed.
Lemma intercept_spec now md gi :
  fst (intercept now md gi) = Ok tt <->
  limiter_admits now gi = true /\
  (requires_auth gi = true -> exists key, metadata_api_key md = Some key /\ accepted_at_start gi key).
Proof.
  rewrite <- auth_check_spec. unfold intercept, limiter_admits. destruct (gi_rate_limiter gi) as [l|]; [|simpl; tauto].
  destruct (rl_try_acquire now l) as [[] l']; simpl; [tauto|]. split; [done|by intros [? _]].
Qed.
Lemma authenticate_spec live md who :
  authenticate live md = Ok who <->
  ((live = None \/ exists r, live = Some r /\ registry_is_empty r = true) /\ who = None) \/
  (exists r key e, live = Some r /\ registry_is_empty r = false /\ metadata_api_key md = Some key /\
     agent_lookup key r = Some e /\ who = Some (ae_identity e)).
Proof.
  unfold authenticate. destruct live as [r|].
  2:{ split; [intros [= <-]; left; auto|]. by intros [[_ ->]|(r & _ & _ & ? & _)]. }
  destruct (registry_is_empty r) eqn:He.
  { split; [intros [= <-]; left; eauto|]. intros [[_ ->]|(r' & _ & _ & [= <-] & ? & _)]; congruence. }
  assert (Hno : ~ ((Some r = None \/ exists r0, Some r = Some r0 /\ registry_is_empty r0 = true) /\ who = None)).
  { intros [[?|(r0 & [= <-] & ?)] _]; congruence. }
  destruct (metadata_api_key md) as [key|].
  2:{ split; [done|]. intros [?|(r' & k & _ & _ & _ & ? & _)]; [tauto|done]. }
  destruct (agent_lookup key r) as [a|] eqn:Ha.
  - split; [intros [= <-]; right; eauto 10|]. intros [?|(r' & k & e & [= <-] & _ & [= <-] & Hl & ->)]; [tauto|congruence].
  - split; [done|]. intros [?|(r' & k & e & [= <-] & _ & [= <-] & Hl & ->)]; [tauto|congruence].
Qed.
Lemma grpc_admit_ok now md live gi who :
  fst (grpc_admit now md live gi) = Ok who <-> fst (intercept now md gi) = Ok tt /\ authenticate live md = Ok who.
Proof. unfold grpc_admit. destruct (intercept now md gi) as [[[]|e] gi']; simpl; [tauto|]. split; [done|by intros [? _]]. Qed.


Lemma lookup_agent key r e : agent_lookup key r = Some e -> agents r !! key = Some e.
Proof. unfold agent_lookup. destruct (agents r !! key) as [e'|]; [|done]. by destruct (ae_enabled e'). Qed.

(** After a reload that gives every agent a new key no search call is admitted at all:
    the interceptor knows the old keys only, the service the new ones only. *)
Lemma reload_locks_out now md gi r0 r1 :
  gi_agent_registry gi = Some r0 -> gi_api_key gi = None -> registry_is_empty r1 = false ->
  (forall k, agents r0 !! k = None \/ agents r1 !! k = None) ->
  forall who, fst (grpc_admit now md (Some r1) gi) <> Ok who.
Proof.
  intros H0 Hk H1 Hd who [[_ Hi]%intercept_spec Ha%authenticate_spec]%grpc_admit_ok.
  assert (requires_auth gi = true) as Hq by (unfold requires_auth; by rewrite H0).
  destruct (Hi Hq) as (key & Hm & [(r & Hr & e0 & He0%lookup_agent)|(k & ? & _)]); [|congruence].
  destruct Ha as [[[?|(r' & [= <-] & ?)] _]|(r' & key' & e & [= <-] & _ & Hm' & He%lookup_agent & _)]; [done|congruence|].
  assert (key' = key) as -> by congruence. assert (r = r0) as -> by congruence. destruct (Hd key); congruence.
Qed.

(** With agents registered, the global key, which the HTTP interface accepts, does not
    open the search service. *)
Lemma global_key_refused now md r gi k :
  registry_is_empty r = false -> metadata_api_key md = Some k -> agent_lookup k r = None ->
  forall who, fst (grpc_admit now md (Some r) gi) <> Ok who.
Proof.
  intros H1 Hm Hl who [_ Ha%authenticate_spec]%grpc_admit_ok.
  destruct Ha as [[[?|(r' & [= <-] & ?)] _]|(r' & key' & e & [= <-] & _ & Hm' & He & _)]; congruence.
Qed.
(** An agent's own limit, which the HTTP interface enforces, plays no part. *)
Lemma agent_limit_ignored live md e r key :
  metadata_api_key md = Some key -> live = Some r -> registry_is_empty r = false -> agent_lookup key r = Some e ->
  authenticate live md = Ok (Some (ae_identity e)).
Proof. intros Hm -> H1 Hl. apply authenticate_spec. right. eauto 10. Qed.

(** ** Eviction *)

Definition evict_of_message (m : EvictMessage) : EvictRequest :=
  {| er_upstream_id := nonempty_of (em_upstream_id m); er_context_id := None; er_query_text_prefix := None;
     er_older_than_secs := None; er_max_entries := positive_of (em_max_entries m); er_expired_only := em_expired_only m |}.
(** An eviction over gRPC is the one that the HTTP interface does for the same fields. *)
Lemma grpc_evict_same `{CacheEnv} clk m c : grpc_evict_by clk m c = evict_by clk (evict_of_message m) c.
Proof.
  unfold grpc_evict_by, evict_by, evict_of_message, positive_of. simpl. destruct (em_expired_only m); [done|].
  destruct (em_upstream_id m); [done|]. simpl. by destruct (0 <? em_max_entries m).
Qed.

(** ** Batches *)

Section Items.
Context `{E : CacheEnv} {L : CacheEnvLaws E} `{SE : StatsEnv} `{CE : ContextEnv} {U : Type} `{D : Dispatcher U}.
Implicit Types (s : AppState U) (c : QueryCall).

Lemma get_text_spec c s e s' : cache_get_text c s = (e, s') ->
  (forall N, inv N (st_cache s) -> inv N (st_cache s')) /\ shrinks (entries (st_cache s)) (entries (st_cache s')) /\
  forall x, e = Some x -> exists h, stored (st_cache s) h (results (response x)).
Proof.
  unfold cache_get_text. destruct (get (ctx_query c) (st_cache s)) as [e0 cache] eqn:Eg. intros [= <- <-]. simpl.
  assert (cache = snd (get (ctx_query c) (st_cache s))) as Hc by (by rewrite Eg).
  assert (Hb : forall cs h x, entries cs = entries (st_cache s) -> entries (bump_freq h cs) !! h = Some x ->
    exists h, stored (st_cache s) h (results (response x))).
  { intros cs h x Hcs. unfold bump_freq. rewrite Hcs. destruct (entries (st_cache s) !! h) as [y|] eqn:Ey; [|congruence].
    simpl. rewrite lookup_insert_eq. intros [= <-]. by exists h, y. }
  split; [intros N HN; rewrite Hc; by apply inv_get|]. split; [rewrite Hc; apply lossy_get|].
  intros x ->. unfold get, get_two_tier, tier1 in Eg. destruct (normalized_matching (st_cache s)).
  - destruct (exact_to_normalized (st_cache s) !! _) as [nh|]; [destruct (entries (st_cache s) !! nh)|];
      try (destruct (entries (st_cache s) !! hash_query (ctx_query c)); [|done]); injection Eg as Hx _;
      eapply Hb; try exact Hx; done.
  - destruct (entries (st_cache s) !! _); [|done]. injection Eg as Hx _. by eapply Hb.
Qed.

(** A query of a gRPC batch whose leader gets an answer.  The cache afterwards
    holds what it held, and at most one new entry: the answer under the key of the
    query, filtered by the scope of the batch and valid, which is also the reply; the
    reply is the filtered answer even when it is not valid, and a failure of the
    upstreams is answered from the cache if possible. *)
Theorem grpc_item_stores (N : Z) (start : Z) (clk : Clock) c (f : ScopeFilter) (reason : MissReason)
    (answer : result QueryResponse UpstreamError) s (Hi : inv N (st_cache s)) :
  let '(reply, s') := gitem_lead start clk c f reason answer s in
  inv N (st_cache s') /\
  (forall h e, entries (st_cache s') !! h = Some e ->
     (exists e0 v, entries (st_cache s) !! h = Some e0 /\ e = put_freq e0 v) \/
     (h = query_hash c /\ reply = Ok (response e) /\ is_ok (response_validate (response e)) = true /\
      context_id e = lit "default")) /\
  match answer, reply with
  | Ok r, Ok r' => results r' = apply_scope_filter f (results r)
  | Err _, Ok r' => exists h, stored (st_cache s) h (results r')
  | Err err, Err msg => msg = display_upstream_error err
  | Ok _, Err _ => False
  end.
Proof.
  destruct answer as [r|err]; unfold gitem_lead.
  - set (r1 := timed start clk (accepted f reason r)).
    destruct (is_ok (response_validate r1)) eqn:Ev; simpl; split_and!; try done.
    + by apply inv_insert_impl.
    + intros h e He. destruct (insert_impl_lossy N clk (ctx_query c) r1 (st_upstream_id s) (lit "default") _ Hi) as [Hsh _].
      destruct (Hsh h e He) as (e0 & v & [[<- <-]|[_ He0]]%lookup_insert_Some & ->); [by right|left; eauto].
    + intros h e He. left. exists e, (freq e). by rewrite put_freq_id.
  - destruct (cache_get_text c _) as [[e|] s1] eqn:Eg; destruct (get_text_spec _ _ _ _ Eg) as (H1 & H2 & H3); simpl in *;
      split_and!; auto.
Qed.
End Items.

(** ** The distillation stream *)

Section DistillProps.
Context `{E : CacheEnv} {L : CacheEnvLaws E}.

Definition young_enough (clk : Clock) (r : DistillRequest) (s : CacheStore) (d : DistillSnapshot) : bool :=
  (wall_age clk d <=? max_frozen_duration s) &&
  (dr_include_stale r || match jittered_ttl (fresh_duration s) (ds_hash d) s with
                         | Ret ttl => wall_age clk d <=? ttl
                         | Panic => false
                         end).
Lemma keeps_young clk r s d : windows_fit s -> distill_keeps clk r s d = Ret (young_enough clk r s d).
Proof.
  intros Hw. unfold distill_keeps, young_enough. rewrite Z.leb_antisym.
  destruct (max_frozen_duration s <? wall_age clk d); [done|]. simpl. destruct (dr_include_stale r); [done|]. simpl.
  destruct (Hw (ds_hash d)) as [w Hd]. unfold windows in Hd.
  destruct (jittered_ttl _ _ _) as [t|]; [|done]. simpl. by rewrite Z.leb_antisym.
Qed.
Lemma retain_filter {A} (p : A -> outcome bool) (b : A -> bool) l : (forall x, p x = Ret (b x)) -> retain p l = Ret (List.filter b l).
Proof. intros Hp. induction l as [|x l IH]; simpl; [done|]. rewrite Hp, IH. simpl. by destruct (b x). Qed.

(** The distillation stream is the oldest part of what it should contain: with
    the durations of the cache in range, it lists, oldest first, entries of the
    cache of the requested context that are young enough, as many as the limit
    allows, and none that was left out for the limit is older than one listed. *)
Theorem distill_exact (clk : Clock) (r : DistillRequest) (s : CacheStore) (Hw : windows_fit s) (Hl : 0 <= dr_limit r) :
  let kept := List.filter (young_enough clk r s) (List.filter (in_context r) (snapshot_entries_rich s)) in
  exists l rest, get_cache_distill clk r s = Ret (map distill_message l) /\ l ++ rest ≡ₚ kept /\
    StronglySorted (fun a b => ds_cached_at_wall a <= ds_cached_at_wall b) l /\
    zlen l = (if dr_limit r =? 0 then zlen kept else Z.min (dr_limit r) (zlen kept)) /\
    (forall a b, a ∈ l -> b ∈ rest -> ds_cached_at_wall a <= ds_cached_at_wall b).
Proof.
  intros kept. unfold get_cache_distill, distill_selected.
  rewrite (retain_filter _ (young_enough clk r s)) by (intros d; by apply keeps_young). simpl. fold kept.
  set (l0 := sort_by by_wall kept).
  assert (Hs : StronglySorted (fun a b => by_wall a b = true) l0).
  { apply sort_by_sorted; unfold by_wall; [intros x y|intros x y z]; rewrite ?Z.leb_gt, ?Z.leb_le; lia. }
  assert (Hz : zlen l0 = zlen kept) by (unfold zlen, l0; by rewrite length_sort_by).
  set (k := if (0 <? dr_limit r) && (dr_limit r <? zlen l0) then Z.to_nat (dr_limit r) else length l0).
  assert (Hk : (if (0 <? dr_limit r) && (dr_limit r <? zlen l0) then take (Z.to_nat (dr_limit r)) l0 else l0) = take k l0)
    by (unfold k; destruct (_ && _); [done|]; by rewrite take_ge).
  rewrite Hk. exists (take k l0), (drop k l0). split; [done|]. rewrite take_drop. split; [apply sort_by_perm|].
  assert (Hle : forall a b, by_wall a b = true -> ds_cached_at_wall a <= ds_cached_at_wall b)
    by (intros a b; unfold by_wall; by rewrite Z.leb_le).
  split; [|split].
  - eapply strongly_sorted_impl; [exact Hle|]. rewrite <- (take_drop k) in Hs. by apply StronglySorted_app_1_l in Hs.
  - rewrite <- Hz. unfold k, zlen. rewrite length_take.
    destruct (dr_limit r =? 0) eqn:E0, (0 <? dr_limit r) eqn:E1; simpl; reflect_Z; try lia.
    destruct (dr_limit r <? Z.of_nat (length l0)) eqn:E2; reflect_Z; lia.
  - intros a b Ha Hb. apply Hle. by apply (sorted_take_drop _ _ _ _ _ Hs Ha Hb).
Qed.
End DistillProps.

(** ** Witnesses and findings *)

#[local] Existing Instance DemoEnv.
#[local] Existing Instance MulPow.

Definition demo_gapp (c : CacheStore) : AppState (result QueryResponse UpstreamError) := demo_app c (Err NotConfigured).
Lemma grpc_item_stores_witness :
  let '(reply, s') := gitem_lead 0 demo_clock (demo_call "w") ScopeFilter_none NotInCache (Ok (demo_response "w")) (demo_gapp demo_init) in
  inv 2 (st_cache s') /\ results <$> (match reply with Ok r => Some r | Err _ => None end) = Some (results (demo_response "w")).
Proof.
  pose proof (grpc_item_stores 2 0 demo_clock (demo_call "w") ScopeFilter_none NotInCache (Ok (demo_response "w"))
    (demo_gapp demo_init) ltac:(apply inv_init; unfold usize_max, u_max; lia)) as H.
  destruct (gitem_lead _ _ _ _ _ _ _) as [reply s'] eqn:Eg. destruct H as (H1 & _ & H3). split; [exact H1|].
  destruct reply as [r|]; [|destruct H3]. simpl. rewrite H3. reflexivity.
Defined.

Definition demo_distill : DistillRequest := {| dr_context := []; dr_tier := 0; dr_limit := 1; dr_include_stale := true |}.
Lemma distill_exact_witness :
  exists l, get_cache_distill demo_clock demo_distill demo_store = Ret l /\ zlen l = 1.
Proof.
  destruct (distill_exact demo_clock demo_distill demo_store ltac:(intros h; eexists; reflexivity) ltac:(discriminate))
    as (l & rest & H1 & _ & _ & H4 & _).
  exists (map distill_message l). split; [exact H1|]. unfold zlen in *. rewrite length_map, H4. vm_compute. reflexivity.
Defined.

(** An agent that may use one context only, and whose query in the default context is
    refused, reads that context through a batch. *)
Definition bound_agent : AgentIdentity :=
  {| ai_id := lit "a"; default_context := None; allowed_contexts := [lit "other"]; priority_class := 0 |}.
Definition bound_call : QueryCall :=
  {| qc_request := qc_request (demo_call "beta"); qc_context := lit "default"; qc_request_id := lit "r"; qc_agent := Some bound_agent;
     qc_source := lit "a"; qc_skip_cache := false |}.
Lemma batch_bypasses_access :
  match execute_query 0 demo_clock demo_clock bound_call (demo_gapp demo_cached) with
  | Some (Ret (r, _, _)) => qr_status r = 403
  | _ => False
  end /\
  match gitem_begin 0 demo_clock bound_call (demo_gapp demo_cached) with
  | Ret (IDone (Ok r), _) => results r = results (demo_response "b")
  | _ => False
  end.
Proof. split; vm_compute; reflexivity. Qed.

(** What a gRPC batch stores for a context is not found when that context is evicted. *)
Lemma batch_entry_outlives_context :
  let c := {| qc_request := qc_request (demo_call "w"); qc_context := lit "docs"; qc_request_id := lit "r"; qc_agent := None;
              qc_source := lit "a"; qc_skip_cache := false |} in
  let s := snd (gitem_lead 0 demo_clock c ScopeFilter_none NotInCache (Ok (demo_response "w")) (demo_gapp demo_init)) in
  cache_len (st_cache s) = 1 /\
  ev_evicted (fst (handle_cache_evict demo_clock {| er_upstream_id := None; er_context_id := Some (lit "docs");
    er_query_text_prefix := None; er_older_than_secs := None; er_max_entries := None; er_expired_only := false |} s)) = 0.
Proof. vm_compute. done. Qed.

(** The times of a context are in seconds, in fields named for milliseconds. *)
Lemma context_times_in_seconds id clk :
  ci_created_at_ms (info_of (ContextMetadata_new clk id [] [])) = as_secs (wall clk).
Proof. done. Qed.
