(* ===== verification/AuditLog.v ===== *)
(** * The audit log (src/src/proxy/audit.rs)

    Entries for requests, their builders, and the ring buffer of the most recent
    ones.  The two counters of the log and its ring buffer are one record.  The second
    part has request ids, the log of cache mutations and traces. *)

From Stdlib Require Import SpecFloat.
From S2P Require Import Prelude Floats Text Types Cache Upstream Adaptive.
Open Scope Z_scope.
Open Scope conproxy_scope.

Record AuditEntry := {
  au_request_id : Z; au_timestamp : Z; au_query : str; au_top_k : option Z; au_cache_status : CacheStatus;
  au_latency_ms : Z; au_result_count : Z; au_success : bool; au_error : option str; au_client_id : option str;
  au_upstream_id : option str; au_miss_reason : option MissReason
}.

(** [&query[..200]] panics when the cut is inside a character. *)
Definition audit_query (q : str) : outcome str :=
  if 200 <? str_len q then let! p := slice_to 200 q in Ret (p ++ lit "...") else Ret q.

Definition AuditEntry_new (clk : Clock) (id : Z) (q : str) (k : option Z) : outcome AuditEntry :=
  let! q := audit_query q in
  Ret {| au_request_id := id; au_timestamp := as_secs (Z.max 0 (wall clk)); au_query := q; au_top_k := k;
         au_cache_status := Miss; au_latency_ms := 0; au_result_count := 0; au_success := false; au_error := None;
         au_client_id := None; au_upstream_id := None; au_miss_reason := None |}.
Definition audit_success (n : Z) (e : AuditEntry) : AuditEntry :=
  {| au_request_id := au_request_id e; au_timestamp := au_timestamp e; au_query := au_query e; au_top_k := au_top_k e;
     au_cache_status := au_cache_status e; au_latency_ms := au_latency_ms e; au_result_count := n; au_success := true;
     au_error := au_error e; au_client_id := au_client_id e; au_upstream_id := au_upstream_id e;
     au_miss_reason := au_miss_reason e |}.
Definition audit_error (msg : str) (e : AuditEntry) : AuditEntry :=
  {| au_request_id := au_request_id e; au_timestamp := au_timestamp e; au_query := au_query e; au_top_k := au_top_k e;
     au_cache_status := au_cache_status e; au_latency_ms := au_latency_ms e; au_result_count := au_result_count e;
     au_success := false; au_error := Some msg; au_client_id := au_client_id e; au_upstream_id := au_upstream_id e;
     au_miss_reason := au_miss_reason e |}.
Definition audit_status (st : CacheStatus) (e : AuditEntry) : AuditEntry :=
  {| au_request_id := au_request_id e; au_timestamp := au_timestamp e; au_query := au_query e; au_top_k := au_top_k e;
     au_cache_status := st; au_latency_ms := au_latency_ms e; au_result_count := au_result_count e;
     au_success := au_success e; au_error := au_error e; au_client_id := au_client_id e;
     au_upstream_id := au_upstream_id e; au_miss_reason := au_miss_reason e |}.
Definition audit_latency (d : Z) (e : AuditEntry) : AuditEntry :=
  {| au_request_id := au_request_id e; au_timestamp := au_timestamp e; au_query := au_query e; au_top_k := au_top_k e;
     au_cache_status := au_cache_status e; au_latency_ms := as_millis_u64 d; au_result_count := au_result_count e;
     au_success := au_success e; au_error := au_error e; au_client_id := au_client_id e;
     au_upstream_id := au_upstream_id e; au_miss_reason := au_miss_reason e |}.
Definition audit_client (c : str) (e : AuditEntry) : AuditEntry :=
  {| au_request_id := au_request_id e; au_timestamp := au_timestamp e; au_query := au_query e; au_top_k := au_top_k e;
     au_cache_status := au_cache_status e; au_latency_ms := au_latency_ms e; au_result_count := au_result_count e;
     au_success := au_success e; au_error := au_error e; au_client_id := Some c; au_upstream_id := au_upstream_id e;
     au_miss_reason := au_miss_reason e |}.

(** A builder: the entry and when the request started. *)
Record AuditBuilder := { ab_entry : AuditEntry; ab_start : Z }.
Definition AuditBuilder_new (clk : Clock) (id : Z) (q : str) (k : option Z) : outcome AuditBuilder :=
  let! e := AuditEntry_new clk id q k in Ret {| ab_entry := e; ab_start := mono clk |}.
Definition builder_success (clk : Clock) (n : Z) (b : AuditBuilder) : AuditEntry :=
  audit_success n (audit_latency (elapsed (mono clk) (ab_start b)) (ab_entry b)).
Definition builder_error (clk : Clock) (msg : str) (b : AuditBuilder) : AuditEntry :=
  audit_error msg (audit_latency (elapsed (mono clk) (ab_start b)) (ab_entry b)).

(** ** The log *)

Record AuditLog := {
  al_entries : list AuditEntry; al_capacity : Z; al_write_pos : Z; al_total_logged : Z; al_next_request_id : Z
}.
Definition AuditLog_new (capacity : Z) : AuditLog :=
  {| al_entries := []; al_capacity := capacity; al_write_pos := 0; al_total_logged := 0; al_next_request_id := 1 |}.
Definition next_request_id (l : AuditLog) : Z * AuditLog :=
  (al_next_request_id l,
   {| al_entries := al_entries l; al_capacity := al_capacity l; al_write_pos := al_write_pos l;
      al_total_logged := al_total_logged l; al_next_request_id := wrap 64 (al_next_request_id l + 1) |}).
Definition audit_start (clk : Clock) (q : str) (k : option Z) (l : AuditLog) : outcome AuditBuilder * AuditLog :=
  let '(id, l) := next_request_id l in (AuditBuilder_new clk id q k, l).
(** A full log of capacity zero divides by zero. *)
Definition audit_log (e : AuditEntry) (l : AuditLog) : outcome AuditLog :=
  if (al_capacity l <=? zlen (al_entries l)) && (al_capacity l =? 0) then Panic
  else Ret {| al_entries := ring_write (al_capacity l) (al_write_pos l) e (al_entries l);
              al_capacity := al_capacity l; al_write_pos := wrap 64 (al_write_pos l + 1);
              al_total_logged := wrap 64 (al_total_logged l + 1); al_next_request_id := al_next_request_id l |}.

(** The index of the [i]-th newest entry among [n], [total] having been written. *)
Definition recent_index (n total i : Z) : Z :=
  if (0 <? total) && (n <=? total) then ((total -! 1) -! i) mod n else n -! (1 +! i).
Definition audit_recent (limit : Z) (l : AuditLog) : list AuditEntry :=
  let n := zlen (al_entries l) in
  omap (fun i => al_entries l !! Z.to_nat (recent_index n (al_write_pos l) (Z.of_nat i))) (seq 0 (Z.to_nat (Z.min n limit))).

Definition audit_filter (p : AuditEntry -> bool) (limit : Z) (l : AuditLog) : list AuditEntry :=
  take (Z.to_nat limit) (List.filter p (al_entries l)).
Definition for_client (c : str) : Z -> AuditLog -> list AuditEntry :=
  audit_filter (fun e => bool_decide (au_client_id e = Some c)).
Definition audit_failures : Z -> AuditLog -> list AuditEntry := audit_filter (fun e => negb (au_success e)).
Definition audit_slow (threshold : Z) : Z -> AuditLog -> list AuditEntry := audit_filter (fun e => threshold <? au_latency_ms e).

Record AuditStats := {
  ad_total_logged : Z; ad_entries_in_buffer : Z; ad_success_rate : f64; ad_cache_hit_rate : f64; ad_avg_latency_ms : Z
}.
Definition audit_counts (es : list AuditEntry) : Z * Z * Z :=
  fold_left (fun '(ok, hit, lat) e =>
    (if au_success e then ok +! 1 else ok, if bool_decide (au_cache_status e = Hit) then hit +! 1 else hit,
     lat +! au_latency_ms e)) es (0, 0, 0).
Definition audit_stats (l : AuditLog) : AuditStats :=
  let n := zlen (al_entries l) in
  if n =? 0 then {| ad_total_logged := 0; ad_entries_in_buffer := 0; ad_success_rate := f_zero; ad_cache_hit_rate := f_zero;
                    ad_avg_latency_ms := 0 |}
  else let '(ok, hit, lat) := audit_counts (al_entries l) in
       {| ad_total_logged := al_total_logged l; ad_entries_in_buffer := n;
          ad_success_rate := F64.div (F64.of_Z ok) (F64.of_Z n); ad_cache_hit_rate := F64.div (F64.of_Z hit) (F64.of_Z n);
          ad_avg_latency_ms := lat / n |}.
Definition audit_clear (l : AuditLog) : AuditLog :=
  {| al_entries := []; al_capacity := al_capacity l; al_write_pos := 0; al_total_logged := al_total_logged l;
     al_next_request_id := al_next_request_id l |}.

(** ** Properties *)

Record log_ok (cap : nat) (h : list AuditEntry) (l : AuditLog) : Prop := {
  lk_ring : ring_ok cap h (al_entries l);
  lk_cap : al_capacity l = Z.of_nat cap;
  lk_pos : al_write_pos l = zlen h
}.
Lemma log_ok_write cap h l e : (0 < cap)%nat -> zlen h + 1 < 2 ^ 64 -> log_ok cap h l ->
  exists l', audit_log e l = Ret l' /\ log_ok cap (h ++ [e]) l' /\ al_total_logged l' = wrap 64 (al_total_logged l + 1).
Proof.
  intros Hc Hb [Hr Hcap Hp]. unfold audit_log. rewrite Hcap. pose proof (zlen_nonneg h).
  destruct (Z.of_nat cap =? 0) eqn:E; reflect_Z; [lia|]. rewrite andb_false_r. eexists. split; [done|]. split; [|done].
  split; simpl; [|done|].
  - rewrite Hp. by apply ring_write_ok.
  - rewrite Hp, zlen_app, zlen_cons, zlen_nil. rewrite wrap_small by (unfold in_u, u_max; lia). lia.
Qed.

Fixpoint audit_run (es : list AuditEntry) (l : AuditLog) : outcome AuditLog :=
  match es with [] => Ret l | e :: es => let! l := audit_log e l in audit_run es l end.
Lemma audit_run_ok cap es : forall h l, (0 < cap)%nat -> zlen (h ++ es) < 2 ^ 64 -> log_ok cap h l ->
  exists l', audit_run es l = Ret l' /\ log_ok cap (h ++ es) l'.
Proof.
  induction es as [|e es IH]; intros h l Hc Hb Hl; simpl; [rewrite app_nil_r; eauto|].
  rewrite zlen_app, zlen_cons in Hb. pose proof (zlen_nonneg es).
  destruct (log_ok_write cap h l e Hc ltac:(lia) Hl) as (l1 & -> & Hl1 & _). simpl.
  destruct (IH (h ++ [e]) l1 Hc) as (l2 & Hr & Hl2); [|done|].
  - rewrite !zlen_app, zlen_cons, zlen_nil. lia.
  - rewrite <- app_assoc in Hl2. eauto.
Qed.

Lemma ring_length {A} k (h l : list A) : ring_ok k h l -> length l = Nat.min (length h) k.
Proof. intros [Hp _]. rewrite Hp, length_drop. lia. Qed.
(** The [i]-th newest entry is where [recent] looks for it. *)
Lemma recent_lookup cap h l i : (0 < cap)%nat -> zlen h < 2 ^ 64 -> log_ok cap h l -> (i < Nat.min (length h) cap)%nat ->
  al_entries l !! Z.to_nat (recent_index (zlen (al_entries l)) (al_write_pos l) (Z.of_nat i)) = h !! (length h - 1 - i)%nat.
Proof.
  intros Hc Hb [Hr Hcap Hp] Hi. pose proof (ring_length _ _ _ Hr) as Hlen. unfold recent_index, zlen in *. rewrite Hp, Hlen.
  destruct ((0 <? Z.of_nat (length h)) && (Z.of_nat (Nat.min (length h) cap) <=? Z.of_nat (length h))) eqn:E.
  2:{ apply andb_false_iff in E as [E|E]; reflect_Z; lia. }
  unfold sat_sub. rewrite !Z.max_l by lia.
  replace (Z.of_nat (length h) - 1 - Z.of_nat i) with (Z.of_nat (length h - 1 - i)) by lia.
  rewrite <- Nat2Z.inj_mod, Nat2Z.id. rewrite <- (r_place _ _ _ Hr) by lia. f_equal.
  destruct (le_lt_dec cap (length h)) as [Hle|Hlt]; [by rewrite Nat.min_r by lia|].
  rewrite Nat.min_l, !Nat.mod_small by lia. done.
Qed.

Lemma omap_all {A B} (f : A -> option B) (l : list A) (r : list B) : length l = length r ->
  (forall i x, l !! i = Some x -> f x = r !! i) -> omap f l = r.
Proof.
  revert r. induction l as [|x l IH]; intros [|y r] Hl Hf; simpl in *; try done; try lia.
  rewrite (Hf 0%nat x eq_refl). simpl. f_equal. apply IH; [lia|]. intros i z Hz. by rewrite (Hf (S i) z Hz).
Qed.

(** The audit log is the list of the most recent entries: after any sequence of
    entries, [recent] returns the newest first, as many as the limit and the capacity
    allow, and logging never fails for a positive capacity. *)
Theorem audit_recent_exact (cap : Z) (es : list AuditEntry) (limit : Z) (Hc : 0 < cap) (Hl : 0 <= limit) (Hb : zlen es < 2 ^ 64) :
  exists l, audit_run es (AuditLog_new cap) = Ret l /\
    audit_recent limit l = take (Z.to_nat (Z.min limit cap)) (rev es).
Proof.
  destruct (audit_run_ok (Z.to_nat cap) es [] (AuditLog_new cap)) as (l & Hr & Hok); [lia|done| |].
  { split; simpl; [split; simpl; [done|intros; lia]|lia|done]. }
  simpl in Hok. exists l. split; [done|]. unfold audit_recent.
  pose proof (ring_length _ _ _ (lk_ring _ _ _ Hok)) as Hlen.
  set (n := Z.to_nat (Z.min (zlen (al_entries l)) limit)).
  assert (Hn : n = Nat.min (Z.to_nat (Z.min limit cap)) (length es)) by (unfold n, zlen; lia).
  apply omap_all; [rewrite length_seq, length_take, length_rev; lia|].
  intros i x [-> Hi]%lookup_seq. simpl. rewrite (recent_lookup (Z.to_nat cap) es l i) by (done || lia).
  rewrite lookup_take_lt by lia. rewrite rev_alt. change (rev_append es []) with (reverse es). rewrite reverse_lookup by lia. f_equal. lia.
Qed.

Definition demo_audit (id : Z) : AuditEntry :=
  {| au_request_id := id; au_timestamp := 0; au_query := []; au_top_k := None; au_cache_status := Miss; au_latency_ms := 0;
     au_result_count := 0; au_success := true; au_error := None; au_client_id := None; au_upstream_id := None;
     au_miss_reason := None |}.
Lemma audit_recent_exact_witness :
  exists l, audit_run (map demo_audit [1; 2; 3; 4]) (AuditLog_new 3) = Ret l /\
    map au_request_id (audit_recent 5 l) = [4; 3; 2].
Proof.
  destruct (audit_recent_exact 3 (map demo_audit [1; 2; 3; 4]) 5) as (l & H1 & H2); [lia|lia|reflexivity|].
  exists l. split; [exact H1|]. rewrite H2. reflexivity.
Defined.

(** A long query that has a character across the byte 200 cannot be audited. *)
Lemma audit_query_panics : audit_query (replicate 199 97 ++ [233; 98]) = Panic.
Proof. vm_compute. reflexivity. Qed.
(** Auditing panics exactly for a query of more than 200 bytes of which no prefix has
    200 bytes. *)
Lemma audit_panics_iff q :
  audit_query q = Panic <-> 200 < str_len q /\ forall p r, q = p ++ r -> str_len p <> 200.
Proof.
  unfold audit_query. destruct (200 <? str_len q) eqn:E; reflect_Z; [|split; [done|lia]].
  rewrite <- slice_to_panics. destruct (slice_to 200 q); [|tauto]. split; [done|by intros [_ ?]].
Qed.

(** * Request ids, the log of cache mutations and request traces (src/src/proxy/observability.rs)

    The id counter is the process-wide atomic; the log is the ring behind its lock; a trace
    builder reads the monotonic clock at each call. *)

(** ** Request ids *)

Definition RequestId := str.
(** [{seq:016x}]. *)
Fixpoint hex_digits (n : nat) (x : Z) : str :=
  match n with O => [] | S n => hex_digits n (x / 16) ++ [hex_digit (x mod 16)] end.
(** The id and the counter after it. *)
Definition RequestId_generate (counter : Z) : RequestId * Z := (lit "req-" ++ hex_digits 16 counter, wrap 64 (counter + 1)).
Definition RequestId_from_header (value : str) : option RequestId :=
  if (str_len value =? 0) || (128 <? str_len value) then None else Some value.

(** ** The log of cache mutations *)

Inductive CacheMutation := MInsert | MEvict | MClear | MWarmup | MInvalidate.
Inductive MutationEvictionReason := MTtl | MCapacity | MManual | MVersionDrift.
Inductive ClearScope := ScopeAll | ScopeContext (c : str) | ScopePattern (p : str).
Record MutationAuditEntry := {
  ma_timestamp_ms : Z;
  ma_mutation : CacheMutation;
  ma_key : str;
  ma_context : option str;
  ma_eviction_reason : option MutationEvictionReason;
  ma_clear_scope : option ClearScope;
  ma_request_id : option str;
  ma_entries_affected : Z
}.
(** [wall] is the time since the epoch in nanoseconds; a time before it counts as zero. *)
Definition audit_now_ms (clk : Clock) : Z := wrap 64 (Z.max 0 (wall clk) / 1000000).
Definition audit_insert (clk : Clock) (key : str) (context : option str) (request_id : option RequestId) : MutationAuditEntry :=
  {| ma_timestamp_ms := audit_now_ms clk; ma_mutation := MInsert; ma_key := key; ma_context := context; ma_eviction_reason := None;
     ma_clear_scope := None; ma_request_id := request_id; ma_entries_affected := 1 |}.
Definition audit_evict (clk : Clock) (key : str) (reason : MutationEvictionReason) : MutationAuditEntry :=
  {| ma_timestamp_ms := audit_now_ms clk; ma_mutation := MEvict; ma_key := key; ma_context := None; ma_eviction_reason := Some reason;
     ma_clear_scope := None; ma_request_id := None; ma_entries_affected := 1 |}.
Definition audit_cleared (clk : Clock) (scope : ClearScope) (n : Z) : MutationAuditEntry :=
  {| ma_timestamp_ms := audit_now_ms clk; ma_mutation := MClear; ma_key := []; ma_context := None; ma_eviction_reason := None;
     ma_clear_scope := Some scope; ma_request_id := None; ma_entries_affected := n |}.

Record CacheMutationLog := { cl_entries : list MutationAuditEntry; cl_capacity : Z; cl_total_logged : Z }.
Definition CacheMutationLog_new (capacity : Z) : CacheMutationLog := {| cl_entries := []; cl_capacity := capacity; cl_total_logged := 0 |}.
Definition mutation_record (e : MutationAuditEntry) (l : CacheMutationLog) : CacheMutationLog :=
  let kept := if cl_capacity l <=? zlen (cl_entries l) then tail (cl_entries l) else cl_entries l in
  {| cl_entries := kept ++ [e]; cl_capacity := cl_capacity l; cl_total_logged := wrap 64 (cl_total_logged l + 1) |}.
Definition mutation_recent (limit : Z) (l : CacheMutationLog) : list MutationAuditEntry := take (Z.to_nat limit) (reverse (cl_entries l)).
Definition mutation_len (l : CacheMutationLog) : Z := zlen (cl_entries l).
Definition mutation_is_empty (l : CacheMutationLog) : bool := match cl_entries l with [] => true | _ => false end.

(** ** Request traces *)

Record TraceStage := { ts_name : str; ts_duration_us : Z }.
Record RequestTrace := {
  rt_request_id : str;
  rt_total_duration_us : Z;
  rt_stages : list TraceStage;
  rt_cache_hit : bool;
  rt_upstream_name : option str
}.
Record TraceBuilder := {
  tb_request_id : RequestId;
  tb_start : Z;
  tb_stages : list (str * Z * option Z);
  tb_cache_hit : bool;
  tb_upstream_name : option str
}.
Definition TraceBuilder_new (now : Z) (id : RequestId) : TraceBuilder :=
  {| tb_request_id := id; tb_start := now; tb_stages := []; tb_cache_hit := false; tb_upstream_name := None |}.
Definition with_stages (l : list (str * Z * option Z)) (b : TraceBuilder) : TraceBuilder :=
  {| tb_request_id := tb_request_id b; tb_start := tb_start b; tb_stages := l; tb_cache_hit := tb_cache_hit b;
     tb_upstream_name := tb_upstream_name b |}.
Definition begin_stage (now : Z) (name : str) (b : TraceBuilder) : nat * TraceBuilder :=
  (length (tb_stages b), with_stages (tb_stages b ++ [(name, now, None)]) b).
(** [elapsed] is zero when the clock reads less than the start. *)
Definition end_stage (now : Z) (idx : nat) (b : TraceBuilder) : TraceBuilder :=
  with_stages (alter (fun s => (s.1, Some (now -! s.1.2))) idx (tb_stages b)) b.
Definition set_cache_hit (hit : bool) (b : TraceBuilder) : TraceBuilder :=
  {| tb_request_id := tb_request_id b; tb_start := tb_start b; tb_stages := tb_stages b; tb_cache_hit := hit;
     tb_upstream_name := tb_upstream_name b |}.
Definition set_upstream (name : str) (b : TraceBuilder) : TraceBuilder :=
  {| tb_request_id := tb_request_id b; tb_start := tb_start b; tb_stages := tb_stages b; tb_cache_hit := tb_cache_hit b;
     tb_upstream_name := Some name |}.
Definition finish_stage (now : Z) (s : str * Z * option Z) : TraceStage :=
  {| ts_name := s.1.1; ts_duration_us := as_micros_u64 (default (now -! s.1.2) s.2) |}.
Definition trace_finish (now : Z) (b : TraceBuilder) : RequestTrace :=
  {| rt_request_id := tb_request_id b; rt_total_duration_us := as_micros_u64 (now -! tb_start b);
     rt_stages := map (finish_stage now) (tb_stages b); rt_cache_hit := tb_cache_hit b; rt_upstream_name := tb_upstream_name b |}.

Inductive TraceOp := OpBegin (name : str) | OpEnd (idx : nat) | OpHit (hit : bool) | OpUpstream (name : str).
Definition trace_op (x : Z * TraceOp) (b : TraceBuilder) : TraceBuilder :=
  match x.2 with
  | OpBegin name => (begin_stage x.1 name b).2
  | OpEnd idx => end_stage x.1 idx b
  | OpHit h => set_cache_hit h b
  | OpUpstream n => set_upstream n b
  end.
Definition trace_ops (ops : list (Z * TraceOp)) (b : TraceBuilder) : TraceBuilder := fold_left (fun b x => trace_op x b) ops b.

(** ** Ids are distinct *)

Lemma hex_digit_inj a b : 0 <= a < 16 -> 0 <= b < 16 -> hex_digit a = hex_digit b -> a = b.
Proof. unfold hex_digit. intros. repeat case_match; lia. Qed.
Lemma hex_digits_inj n a b : 0 <= a < 16 ^ Z.of_nat n -> 0 <= b < 16 ^ Z.of_nat n -> hex_digits n a = hex_digits n b -> a = b.
Proof.
  revert a b. induction n as [|n IH]; intros a b Ha Hb; cbn [hex_digits].
  { change (16 ^ Z.of_nat 0) with 1 in *. lia. }
  rewrite Nat2Z.inj_succ, Z.pow_succ_r in Ha, Hb by lia. intros [He Hd]%app_inj_tail.
  apply IH in He; [|split; [apply Z.div_pos; lia|apply Z.div_lt_upper_bound; lia]..].
  apply hex_digit_inj in Hd; [|apply Z.mod_pos_bound; lia..].
  rewrite (Z.div_mod a 16), (Z.div_mod b 16) by lia. lia.
Qed.
Fixpoint generate_many (n : nat) (counter : Z) : list RequestId :=
  match n with O => [] | S n => let '(id, c) := RequestId_generate counter in id :: generate_many n c end.
Lemma generated_in n c id : 0 <= c -> c + Z.of_nat n <= 2 ^ 64 -> id ∈ generate_many n c ->
  exists k, c <= k < c + Z.of_nat n /\ id = lit "req-" ++ hex_digits 16 k.
Proof.
  revert c. induction n as [|n IH]; intros c Hc Hn; cbn [generate_many RequestId_generate]; [by intros ?%elem_of_nil|].
  intros [->|Hin]%elem_of_cons; [exists c; split; [lia|done]|]. destruct n; [by apply elem_of_nil in Hin|].
  rewrite wrap_small in Hin by (unfold in_u, u_max; lia). destruct (IH (c + 1)) as (k & Hk & ->); [lia|lia|done|]. exists k. split; [lia|done].
Qed.
(** No two of the ids of a process are the same, up to the 2^64th. *)
Theorem request_ids_distinct n : Z.of_nat n <= 2 ^ 64 -> NoDup (generate_many n 0).
Proof.
  assert (H : forall c, 0 <= c -> c + Z.of_nat n <= 2 ^ 64 -> NoDup (generate_many n c)); [|intros; apply H; lia].
  induction n as [|n IH]; intros c Hc Hn; cbn [generate_many RequestId_generate]; constructor.
  - destruct n; [by intros ?%elem_of_nil|]. rewrite wrap_small by (unfold in_u, u_max; lia). intros Hin.
    apply generated_in in Hin as (k & Hk & He); [|lia..]. apply app_inv_head in He.
    apply (hex_digits_inj 16) in He; [lia|change (16 ^ Z.of_nat 16) with (2 ^ 64); lia..].
  - destruct n; [constructor|]. rewrite wrap_small by (unfold in_u, u_max; lia). apply IH; lia.
Qed.

(** ** The log keeps the newest entries *)

(** What the log stands for: the last entries of the history, as many as the capacity and
    at least one. *)
Definition newest {A} (n : nat) (l : list A) : list A := drop (length l - n) l.
Lemma length_newest {A} n (l : list A) : length (newest n l) = Nat.min n (length l).
Proof. unfold newest. rewrite length_drop. lia. Qed.
Lemma newest_snoc {A} n (l : list A) x : (0 < n)%nat ->
  newest n (l ++ [x]) = (if (n <=? length (newest n l))%nat then tail (newest n l) else newest n l) ++ [x].
Proof.
  intros Hn. rewrite length_newest. unfold newest. rewrite length_app. cbn [length]. destruct (Nat.leb_spec n (Nat.min n (length l))).
  - rewrite drop_app_le by lia. f_equal. replace (length l + 1 - n)%nat with (length l - n + 1)%nat by lia.
    rewrite <- drop_drop. by destruct (drop (length l - n) l).
  - replace (length l - n)%nat with O by lia. replace (length l + 1 - n)%nat with O by lia. by rewrite !drop_0.
Qed.
Definition log_run (es : list MutationAuditEntry) (l : CacheMutationLog) : CacheMutationLog := fold_left (fun l e => mutation_record e l) es l.

(** After any mutations the log holds the newest, and [recent] lists them newest first,
    however many are asked for; a log of capacity zero holds one entry all the same. *)
Theorem mutation_log_exact cap es limit : 0 <= cap ->
  let l := log_run es (CacheMutationLog_new cap) in
  let n := Nat.max 1 (Z.to_nat cap) in
  cl_entries l = newest n es /\ mutation_recent limit l = take (Nat.min (Z.to_nat limit) n) (reverse es) /\
  mutation_len l = Z.min (Z.of_nat n) (zlen es) /\ cl_total_logged l = wrap 64 (zlen es).
Proof.
  intros Hcap l n. assert (Hn : n = Nat.max 1 (Z.to_nat cap)) by done. clearbody n.
  assert (H : cl_entries l = newest n es /\ cl_capacity l = cap /\ cl_total_logged l = wrap 64 (zlen es)).
  { subst l. induction es as [|e es IH] using rev_ind; [done|]. unfold log_run. rewrite fold_left_app. cbn [fold_left].
    fold (log_run es (CacheMutationLog_new cap)). destruct IH as (He & Hc & Ht).
    unfold mutation_record. cbn. rewrite He, Hc, Ht, newest_snoc by lia. split; [|split; [done|]].
    - f_equal. unfold zlen. rewrite length_newest. destruct (Z.leb_spec cap (Z.of_nat (Nat.min n (length es)))),
        (Nat.leb_spec n (Nat.min n (length es))); try done; try lia.
      unfold newest. destruct es; [done|cbn in *; lia].
    - rewrite wrap_add_l. unfold zlen. rewrite length_app. f_equal. cbn. lia. }
  destruct H as (He & Hc & Ht). split; [done|]. unfold mutation_recent, mutation_len, zlen. rewrite He, length_newest.
  split; [|split; [lia|done]]. unfold newest. by rewrite <- take_reverse, take_take.
Qed.

(** ** A stage of a trace fits in the trace *)

(** The clock readings of a trace, in order. *)
Definition readings_ordered (start now : Z) (ops : list (Z * TraceOp)) : Prop := StronglySorted Z.le (start :: map fst ops ++ [now]).
Definition begun (ops : list (Z * TraceOp)) : list str := omap (fun x => match x.2 with OpBegin n => Some n | _ => None end) ops.
Definition stage_within (start now : Z) (s : str * Z * option Z) : Prop :=
  start <= s.1.2 <= now /\ match s.2 with Some d => 0 <= d <= now - start | None => True end.

Lemma stage_within_later start now now' s : now <= now' -> stage_within start now s -> stage_within start now' s.
Proof. unfold stage_within. destruct (s.2); lia. Qed.
Lemma trace_op_within start now t o b : start <= now <= t -> Forall (stage_within start now) (tb_stages b) ->
  Forall (stage_within start t) (tb_stages (trace_op (t, o) b)).
Proof.
  intros Ht Hs. assert (H' : Forall (stage_within start t) (tb_stages b)).
  { eapply Forall_impl; [exact Hs|]. intros s. apply stage_within_later. lia. }
  destruct o; cbn; try done.
  - apply Forall_app_2; [done|]. repeat constructor; cbn; lia.
  - apply Forall_alter; [done|]. intros s Hx (Hl & Hd). unfold stage_within, sat_sub. cbn. lia.
Qed.
Lemma trace_op_names x b : map (fun s => s.1.1) (tb_stages (trace_op x b)) =
  map (fun s => s.1.1) (tb_stages b) ++ match x.2 with OpBegin n => [n] | _ => [] end.
Proof.
  destruct x as [t [n|i| |]]; cbn; rewrite ?map_app, ?app_nil_r; try done. apply list_eq. intros j.
  rewrite !list_lookup_fmap. destruct (decide (i = j)) as [<-|]; [|by rewrite list_lookup_alter_ne].
  rewrite list_lookup_alter_eq. by destruct (tb_stages b !! i).
Qed.
Lemma trace_ops_names ops b : map (fun s => s.1.1) (tb_stages (trace_ops ops b)) = map (fun s => s.1.1) (tb_stages b) ++ begun ops.
Proof.
  revert b. induction ops as [|[t o] ops IH]; intros b; cbn; [by rewrite app_nil_r|].
  unfold trace_ops in IH. rewrite IH, trace_op_names, <- app_assoc. f_equal. by destruct o.
Qed.
Lemma trace_op_start x b : tb_start (trace_op x b) = tb_start b.
Proof. by destruct x as [t []]. Qed.
Lemma trace_ops_id ops b : tb_request_id (trace_ops ops b) = tb_request_id b.
Proof. revert b. induction ops as [|[t o] ops IH]; intros b; [done|]. cbn. unfold trace_ops in IH. rewrite IH. by destruct o. Qed.
Lemma trace_ops_within start t0 now ops b : start <= t0 -> StronglySorted Z.le (t0 :: map fst ops ++ [now]) ->
  tb_start b = start -> Forall (stage_within start t0) (tb_stages b) ->
  tb_start (trace_ops ops b) = start /\ Forall (stage_within start now) (tb_stages (trace_ops ops b)).
Proof.
  revert t0 b. induction ops as [|[t o] ops IH]; intros t0 b Hst Hs Hb Hw; cbn in *; inversion Hs as [|? ? Hs' Hle]; subst.
  - split; [done|]. eapply Forall_impl; [exact Hw|]. intros s. apply stage_within_later. by inversion Hle.
  - inversion Hle; subst. apply (IH t); [lia|done|apply trace_op_start|]. eapply trace_op_within; [|exact Hw]. lia.
Qed.

(** A finished trace has the stages that were begun, in their order, each with a duration
    no longer than the whole, whether it was ended or not, ended twice or ended by an index
    that names no stage. *)
Theorem trace_exact id start ops now : readings_ordered start now ops -> now - start < 1000 * 2 ^ 64 ->
  let t := trace_finish now (trace_ops ops (TraceBuilder_new start id)) in
  map ts_name (rt_stages t) = begun ops /\
  Forall (fun s => 0 <= ts_duration_us s <= rt_total_duration_us t) (rt_stages t) /\
  rt_total_duration_us t = (now - start) / 1000 /\ rt_request_id t = id.
Proof.
  intros Hr Hlt t.
  destruct (trace_ops_within start start now ops (TraceBuilder_new start id)) as [Hb Hw]; [lia|exact Hr|done|constructor|].
  assert (Hsn : start <= now). { apply StronglySorted_inv in Hr as [_ Hle]. rewrite Forall_app in Hle. destruct Hle as [_ Hle]. inversion Hle; subst. done. }
  assert (Hd : forall d, 0 <= d <= now - start -> as_micros_u64 d = d / 1000).
  { intros d Hd. apply wrap_small. unfold in_u, u_max. split; [apply Z.div_pos; lia|]. enough (d / 1000 < 2 ^ 64) by lia. apply Z.div_lt_upper_bound; lia. }
  assert (Htot : rt_total_duration_us t = (now - start) / 1000). { cbn. rewrite Hb. unfold sat_sub. rewrite Hd by lia. f_equal. lia. }
  split; [|split; [|split; [done|]]].
  - cbn. rewrite map_map. pose proof (trace_ops_names ops (TraceBuilder_new start id)) as Hn. exact Hn.
  - rewrite Htot. cbn. apply Forall_map. eapply Forall_impl; [exact Hw|]. intros [[n t0] d] [Hs Hd']. cbn in *.
    rewrite Hd by (destruct d; cbn; unfold sat_sub; lia).
    split; [apply Z.div_pos; [destruct d; cbn; unfold sat_sub|]; lia|apply Z.div_le_mono; [lia|]; destruct d; cbn; unfold sat_sub; lia].
  - apply trace_ops_id.
Qed.
