(* ===== verification/Start.v ===== *)
(** * The start of the proxy (src/src/proxy/server/mod.rs, src/src/bin/conproxy/commands/proxy.rs)

    From an accepted configuration to a running server: what [CacheProxy::new] builds,
    what the command line changes, the shared state of the handlers, and the
    configurations of the two authentication layers.  The properties compose the
    components: the state they reach is one that the theorems about the pipeline, the
    contexts, the circuit breaker and the limiter start from.  Sockets, routes and
    tasks are left out; the environment and the process id are arguments. *)

From Stdlib Require Import SpecFloat.
From S2P Require Import Prelude Floats Text Types Drift Cdc Cache CacheInv CacheReach CacheSpec CacheProps.
From S2P Require Import Circuit Priority Scope Coalesce Retry ConnPool Upstream Pool PoolProps Cascade Auth Adaptive.
From S2P Require Import Federated Metrics Context Refresh Batch Pipeline PipelineSys Peer Settings Config ConfigProps.
From S2P Require Import Admin Grpc AuditLog.
Open Scope Z_scope.
Open Scope conproxy_scope.

(** ** What is built *)

Record CacheProxy := {
  xp_cache : CacheStore;
  xp_upstream : option (str * Z);
  xp_pool : option UpstreamPool;
  xp_coalescer : @RequestCoalescer (result QueryResponse str);
  xp_scope_filter : ScopeFilter;
  xp_metrics : ProxyMetrics;
  xp_breaker : CircuitBreaker;
  xp_audit : AuditLog;
  xp_retry : RetryPolicy;
  xp_adaptive : AdaptiveTimeout;
  xp_upstream_id : str;
  xp_start_time : Z;
  xp_refresh_interval : Z;
  xp_api_key : option str;
  xp_limiter : option RateLimiter;
  xp_federated : FederatedSearchConfig;
  xp_queue : PriorityQueue QueryRequest;
  xp_contexts : ContextManager;
  xp_cascade : option CascadeConfig;
  xp_agents : option AgentRegistry;
  xp_cdc : option str;
  xp_peer : option PeerSettings;
  xp_shutdown_timeout : Z;
  xp_max_connections : Z;
  xp_web_ui : bool
}.
Definition put_xp_contexts (m : ContextManager) (p : CacheProxy) : CacheProxy :=
  {| xp_cache := xp_cache p; xp_upstream := xp_upstream p; xp_pool := xp_pool p; xp_coalescer := xp_coalescer p;
     xp_scope_filter := xp_scope_filter p; xp_metrics := xp_metrics p; xp_breaker := xp_breaker p;
     xp_audit := xp_audit p; xp_retry := xp_retry p; xp_adaptive := xp_adaptive p; xp_upstream_id := xp_upstream_id p;
     xp_start_time := xp_start_time p; xp_refresh_interval := xp_refresh_interval p; xp_api_key := xp_api_key p;
     xp_limiter := xp_limiter p; xp_federated := xp_federated p; xp_queue := xp_queue p; xp_contexts := m;
     xp_cascade := xp_cascade p; xp_agents := xp_agents p; xp_cdc := xp_cdc p; xp_peer := xp_peer p;
     xp_shutdown_timeout := xp_shutdown_timeout p; xp_max_connections := xp_max_connections p; xp_web_ui := xp_web_ui p |}.
Definition put_xp_cache (c : CacheStore) (p : CacheProxy) : CacheProxy :=
  {| xp_cache := c; xp_upstream := xp_upstream p; xp_pool := xp_pool p; xp_coalescer := xp_coalescer p;
     xp_scope_filter := xp_scope_filter p; xp_metrics := xp_metrics p; xp_breaker := xp_breaker p;
     xp_audit := xp_audit p; xp_retry := xp_retry p; xp_adaptive := xp_adaptive p; xp_upstream_id := xp_upstream_id p;
     xp_start_time := xp_start_time p; xp_refresh_interval := xp_refresh_interval p; xp_api_key := xp_api_key p;
     xp_limiter := xp_limiter p; xp_federated := xp_federated p; xp_queue := xp_queue p; xp_contexts := xp_contexts p;
     xp_cascade := xp_cascade p; xp_agents := xp_agents p; xp_cdc := xp_cdc p; xp_peer := xp_peer p;
     xp_shutdown_timeout := xp_shutdown_timeout p; xp_max_connections := xp_max_connections p; xp_web_ui := xp_web_ui p |}.

Section Build.
Context `{E : CacheEnv} `{Clients} (build_adapter : str -> Z -> result unit str).
Context (env : str -> option str) (pid : Z).

Definition node_id_of (c : PeerSettings) : str :=
  match pp_node_id c with
  | Some n => n
  | None => default (lit "node-" ++ show_Z pid) (env (lit "HOSTNAME"))
  end.
Definition max_memory_bytes_of (px : ProxySettings) : Z :=
  sat_mul 64 (sat_mul 64 (default 256 (cs_max_memory_mb (px_cache px))) 1024) 1024.

Definition build_cache_store (px : ProxySettings) : CacheStore * option str :=
  let cdc := if px_cdc_enabled px then Some (node_id_of (px_peer px)) else None in
  let s := with_normalized_matching (default false (cs_normalized_matching (px_cache px)))
             (with_jitter (from_secs (px_fresh_secs px)) (from_secs (px_stale_secs px)) (px_max px)
                (default (F32.lit 1 10) (px_ttl_jitter_percent px))) in
  let s := if 0 <? max_memory_bytes_of px then set_max_memory_bytes (max_memory_bytes_of px) s else s in
  let s := match cdc with Some node => with_cdc_sender (EventSender_new node) s | None => s end in
  (snd (update_config_fingerprint (px_upstream_url px) (cfg_phrase_texts (px_scope px)) s), cdc).

(** The upstreams, and the failure of the first that cannot be built. *)
Definition start_upstreams (px : ProxySettings)
  : outcome (result (option (str * Z) * option UpstreamPool) str) :=
  match px_upstreams px with
  | _ :: _ =>
      let! r := UpstreamPool_new (map pool_endpoint (px_upstreams px)) RoundRobin in
      Ret (match r with
           | Err e => Err (lit "Failed to create upstream pool: " ++ e)
           | Ok pool => Ok (None, Some pool)
           end)
  | [] =>
      match px_upstream_url px with
      | Some url =>
          let timeout := from_secs (default 30 (px_upstream_timeout_secs px)) in
          Ret (match build_adapter url timeout with
               | Err e => Err (lit "Failed to create upstream adapter: " ++ e)
               | Ok _ => Ok (Some (url, timeout), None)
               end)
      | None => Ret (Ok (None, None))
      end
  end.

Definition build_resilience (now : Z) (px : ProxySettings) : option RateLimiter * RetryPolicy :=
  let rl := px_rate_limit px in
  let rt := px_retry px in
  (if default false (rl_enabled rl)
   then Some (RateLimiter_new now (default 100 (rl_requests_per_second rl)) (default 50 (rl_burst_size rl))) else None,
   if default true (rt_enabled rt)
   then {| max_retries := default 3 (rt_max_retries rt); initial_delay := from_millis (rt_initial_delay rt);
           max_delay := from_millis (rt_max_delay rt); backoff_multiplier := default (F64.of_Z 2) (rt_backoff_multiplier rt);
           jitter_factor := F32.lit 1 10;
           retry_on := {| on_network_error := default true (rt_on_network_error rt);
                          on_timeout := default true (rt_on_timeout rt);
                          on_server_error := default true (rt_on_server_error rt);
                          on_rate_limited := default true (rt_on_rate_limited rt); on_status_codes := [] |} |}
   else no_retry).

Definition CacheProxy_new (clk : Clock) (px : ProxySettings) : outcome (result CacheProxy str) :=
  let '(cache, cdc) := build_cache_store px in
  let! u := start_upstreams px in
  match u with
  | Err e => Ret (Err e)
  | Ok (single, pool) =>
      let '(limiter, retry) := build_resilience (mono clk) px in
      Ret (Ok {|
        xp_cache := cache; xp_upstream := single; xp_pool := pool; xp_coalescer := RequestCoalescer_new;
        xp_scope_filter := from_config (px_scope px); xp_metrics := ProxyMetrics_new;
        xp_breaker := CircuitBreaker_new (mono clk) (to_circuit_breaker_config (px_circuit_breaker px));
        xp_audit := AuditLog_new 1000; xp_retry := retry; xp_adaptive := AdaptiveTimeout_new AdaptiveTimeoutConfig_default;
        xp_upstream_id := lit "proxy-" ++ show_Z pid; xp_start_time := mono clk;
        xp_refresh_interval := from_secs (default 60 (px_refresh_interval_secs px)); xp_api_key := px_api_key px;
        xp_limiter := limiter; xp_federated := federated_config_of (px_federated px); xp_queue := PriorityQueue_new 1000;
        xp_contexts := ContextManager_new clk ContextConfig_default;
        xp_cascade := if cc_enabled (px_cascade px) then (match pool with Some _ => Some (px_cascade px) | None => None end)
                      else None;
        xp_agents := match px_agents px with [] => None | a => Some (registry_from_config (mono clk) a) end;
        xp_cdc := cdc; xp_peer := if default false (pp_enabled (px_peer px)) then Some (px_peer px) else None;
        xp_shutdown_timeout := from_secs (default 30 (px_shutdown_timeout_secs px));
        xp_max_connections := default 1000 (px_max_global_connections px); xp_web_ui := wu_enabled (px_web_ui px) |})
  end.

Definition with_resolved_contexts (clk : Clock) (rs : list ResolvedCtx) (p : CacheProxy) : CacheProxy :=
  match rs with
  | [] => p
  | _ => put_xp_contexts (install_resolved clk (map manager_context rs) (xp_contexts p)) p
  end.
End Build.

(** ** The state of the handlers *)

(** The fields of [AppState] beside those of the query pipeline. *)
Record Server := {
  sv_app : AppState Backends;
  sv_single : option (str * Z);
  sv_audit : AuditLog;
  sv_queue : PriorityQueue QueryRequest;
  sv_batch : BatchConfig;
  sv_federated : FederatedSearchConfig;
  sv_start_time : Z;
  sv_level : Z;
  sv_agents : option AgentRegistry;
  sv_peer : option PeerState;
  sv_permits : Z
}.

Definition no_pool : UpstreamPool := pool_of [] RoundRobin.
Definition backends_of (p : CacheProxy) : Backends :=
  {| b_cascade := xp_cascade p; b_pool := bool_decide (is_Some (xp_pool p)); b_single := bool_decide (is_Some (xp_upstream p));
     b_world := {| w_pool := default no_pool (xp_pool p); w_calls := 0 |}; b_reads := 0 |}.

Definition to_app_state (p : CacheProxy) : Server :=
  {| sv_app := {|
       st_cache := xp_cache p; st_upstreams := backends_of p; coalescer := xp_coalescer p;
       refresh_worker := (fun _ => QueryTrackingRefreshWorker_new (xp_upstream_id p) false Drift.with_defaults) <$> xp_upstream p;
       st_scope_filter := xp_scope_filter p; st_metrics := xp_metrics p; circuit_breaker := xp_breaker p;
       retry_policy := xp_retry p; adaptive_timeout := xp_adaptive p; query_stats := QueryStatsTracker_new 10000;
       st_upstream_id := xp_upstream_id p; context_manager := xp_contexts p; paused := false;
       client_tracker := ClientTracker_new |};
     sv_single := xp_upstream p; sv_audit := xp_audit p; sv_queue := xp_queue p; sv_batch := BatchConfig_default;
     sv_federated := xp_federated p; sv_start_time := xp_start_time p; sv_level := 0; sv_agents := xp_agents p;
     sv_peer := None; sv_permits := xp_max_connections p |}.

(** The pool that is in force. *)
Definition live_pool (b : Backends) : option UpstreamPool := if b_pool b then Some (w_pool (b_world b)) else None.
Definition sv_pool (s : Server) : option UpstreamPool := live_pool (st_upstreams (sv_app s)).

Inductive DegradationLevel := LevelFull | StaleServing | ReadOnly | TextOnly | StartupFailure.
Definition level_as_u8 (l : DegradationLevel) : Z :=
  match l with LevelFull => 0 | StaleServing => 1 | ReadOnly => 2 | TextOnly => 3 | StartupFailure => 4 end.
Definition level_is_ready (l : DegradationLevel) : bool := match l with LevelFull | StaleServing => true | _ => false end.
Definition level_description (l : DegradationLevel) : str :=
  match l with
  | LevelFull => lit "Full operation"
  | StaleServing => lit "Serving from cache (upstreams degraded)"
  | ReadOnly => lit "Read-only (persistence unavailable)"
  | TextOnly => lit "Text-only (embedding unavailable)"
  | StartupFailure => lit "Startup failure (no upstreams reachable)"
  end.

Definition determine_degradation_level (s : Server) : DegradationLevel :=
  if negb (bool_decide (is_Some (sv_single s)) || bool_decide (is_Some (sv_pool s))) then StartupFailure
  else match sv_pool s with
       | Some pool =>
           if healthy_upstreams (pool_stats pool) =? 0 then
             if negb (bool_decide (entries (st_cache (sv_app s)) = ∅)) then StaleServing else StartupFailure
           else LevelFull
       | None => LevelFull
       end.

(** What [run] does before it serves: the peer manager, the level. *)
Definition put_peer_level (peer : option PeerState) (level : Z) (s : Server) : Server :=
  {| sv_app := sv_app s; sv_single := sv_single s; sv_audit := sv_audit s; sv_queue := sv_queue s; sv_batch := sv_batch s;
     sv_federated := sv_federated s; sv_start_time := sv_start_time s; sv_level := level; sv_agents := sv_agents s;
     sv_peer := peer; sv_permits := sv_permits s |}.
Definition run_state (p : CacheProxy) : Server :=
  let s := to_app_state p in
  let peer := match xp_cdc p, xp_peer p with
              | Some _, Some c => Some (initial_state (pp_peers c) (default true (pp_snapshot_on_join c)))
              | _, _ => None
              end in
  let s := put_peer_level peer (sv_level s) s in
  put_peer_level peer (level_as_u8 (determine_degradation_level s)) s.

Definition http_auth (p : CacheProxy) : AuthConfig :=
  {| api_key := xp_api_key p; agent_registry := xp_agents p; web_ui_enabled := xp_web_ui p |}.
Definition grpc_auth (p : CacheProxy) : GrpcInterceptorConfig :=
  {| gi_agent_registry := xp_agents p; gi_rate_limiter := xp_limiter p; gi_api_key := xp_api_key p |}.

(** What guards the CDC and peer services: the shared secret, or the interceptor of
    the other services. *)
Inductive PeerGuard := GuardSecret (secret : str) | GuardKey (c : GrpcInterceptorConfig).
Definition peer_guard (env : str -> option str) (p : CacheProxy) : PeerGuard :=
  match xp_peer p with
  | Some c => match resolve_shared_secret env c with
              | Ok (Some secret) => GuardSecret secret
              | _ => GuardKey (grpc_auth p)
              end
  | None => GuardKey (grpc_auth p)
  end.

(** ** The command [start] *)

Record StartArgs := { sa_listen : option str; sa_upstream : option str; sa_node_id : option str; sa_peers : option str }.

Definition put_peer (px : ProxySettings) (c : PeerSettings) : ProxySettings :=
  {| px_listen := px_listen px; px_http_listen := px_http_listen px; px_fresh_duration_secs := px_fresh_duration_secs px;
     px_stale_duration_secs := px_stale_duration_secs px; px_max_entries := px_max_entries px;
     px_upstream_url := px_upstream_url px; px_upstream_timeout_secs := px_upstream_timeout_secs px;
     px_ttl_jitter_percent := px_ttl_jitter_percent px; px_refresh_interval_secs := px_refresh_interval_secs px;
     px_scope := px_scope px; px_cache := px_cache px; px_distill := px_distill px; px_api_key := px_api_key px;
     px_rate_limit := px_rate_limit px; px_retry := px_retry px; px_upstreams := px_upstreams px;
     px_federated := px_federated px; px_security := px_security px; px_cascade := px_cascade px; px_pool := px_pool px;
     px_circuit_breaker := px_circuit_breaker px; px_agents := px_agents px; px_cdc := px_cdc px; px_peer := c;
     px_socket_tuning := px_socket_tuning px; px_shutdown_timeout_secs := px_shutdown_timeout_secs px;
     px_max_global_connections := px_max_global_connections px; px_web_ui := px_web_ui px |}.
Definition peer_overrides (a : StartArgs) (c : PeerSettings) : PeerSettings :=
  {| pp_enabled := match sa_peers a with Some _ => Some true | None => pp_enabled c end;
     pp_node_id := or_else (sa_node_id a) (pp_node_id c);
     pp_peers := match sa_peers a with Some p => map trim (split_on 44 [] p) | None => pp_peers c end;
     pp_reconnect_interval_ms := pp_reconnect_interval_ms c; pp_fetch_wait_timeout_ms := pp_fetch_wait_timeout_ms c;
     pp_snapshot_on_join := pp_snapshot_on_join c; pp_ready_threshold := pp_ready_threshold c;
     pp_snapshot_batch_size := pp_snapshot_batch_size c; pp_shared_secret := pp_shared_secret c |}.
Definition cli_overrides (a : StartArgs) (px : ProxySettings) : ProxySettings :=
  let px := put_listen px (or_else (sa_listen a) (px_listen px)) (px_http_listen px) in
  let px := put_upstreams px (px_upstreams px) (or_else (sa_upstream a) (px_upstream_url px)) in
  (normalize_upstreams (put_peer px (peer_overrides a (px_peer px)))).2.

(** The arguments the background process is started with. *)
Definition daemon_args (a : StartArgs) : StartArgs :=
  {| sa_listen := sa_listen a; sa_upstream := sa_upstream a; sa_node_id := None; sa_peers := None |}.

Section Command.
Context {O : MapOrder} `{E : CacheEnv} `{Clients} (build_adapter : str -> Z -> result unit str).
Context (env : str -> option str) (pid : Z).

Definition start_settings (c : ConfigFile) (a : StartArgs) : result ProxySettings ConfigError :=
  match effective_proxy c with Ok px => Ok (cli_overrides a px) | Err e => Err e end.

(** A foreground start up to the point where the server listens: the proxy. *)
Definition start_proxy (clk : Clock) (c : ConfigFile) (a : StartArgs)
  : outcome (result CacheProxy (ConfigError + str)) :=
  match start_settings c a with
  | Err e => Ret (Err (inl e))
  | Ok px =>
      let rs := match resolve_contexts c with Ok rs => rs | Err _ => [] end in
      let! p := CacheProxy_new build_adapter env pid clk px in
      Ret (match p with Err e => Err (inr e) | Ok p => Ok (with_resolved_contexts clk rs p) end)
  end.
End Command.

(** ** Properties *)

(** The bounds that the types of the source give. *)
Record typed (px : ProxySettings) : Prop := {
  ty_max : 0 <= px_max px < usize_max;
  ty_rps : in_u 32 (default 100 (rl_requests_per_second (px_rate_limit px)));
  ty_burst : in_u 32 (default 50 (rl_burst_size (px_rate_limit px)));
  ty_failures : in_u 32 (cb_failure_threshold (px_circuit_breaker px));
  ty_successes : in_u 32 (cb_success_threshold (px_circuit_breaker px))
}.

Lemma sum_over_pos f us : Forall (fun u => 0 <= f u) us -> Exists (fun u => 0 < f u) us -> 0 < sum_over f us.
Proof.
  assert (Hmono : forall us a, Forall (fun u => 0 <= f u) us -> 0 < a -> 0 < foldl (fun acc u => acc +! f u) a us).
  { clear. intros us. induction us as [|u us IH]; intros a Hf Ha; [done|]. inversion_clear Hf as [|? ? Hu Hus].
    simpl. apply IH; [done|]. unfold sat_add, u_max. lia. }
  intros Hf He. enough (forall a, 0 <= a -> 0 < foldl (fun acc u => acc +! f u) a us) as Hg by (by apply Hg).
  induction us as [|u us IH]; intros a Ha; [by inversion He|].
  inversion_clear Hf as [|? ? Hu Hus]. simpl. inversion_clear He as [? ? Hp|? ? Hp].
  - apply Hmono; [done|]. unfold sat_add, u_max. lia.
  - apply IH; try done. unfold sat_add, u_max. lia.
Qed.

Lemma build_all_online `{Clients} cs : forall us, build_all cs = Ret (Ok us) ->
  length us = length cs /\ Forall (fun u => status (pu_health u) = Online) us.
Proof.
  induction cs as [|c cs IH]; intros us; simpl; [intros [= <-]; by split|].
  unfold PooledUpstream_new. destruct (build_client c); [|done]. destruct (ConnectionPool_new _); [|done]. simpl.
  destruct (build_all cs) as [[us'|]|]; simpl; [|done|done]. intros [= <-].
  destruct (IH us' eq_refl) as [H1 H2]. simpl. split; [by rewrite H1|]. constructor; [by vm_compute|done].
Qed.
Lemma new_pool_healthy `{Clients} cs st pool : cs <> [] -> UpstreamPool_new cs st = Ret (Ok pool) ->
  0 < healthy_upstreams (pool_stats pool).
Proof.
  unfold UpstreamPool_new. intros Hc Hp. destruct (build_all cs) as [[us|]|] eqn:Hb; [|done|done].
  destruct (build_all_online cs us Hb) as [Hl Ho]. injection Hp as <-. simpl.
  apply sum_over_pos.
  - apply Forall_true. intros u. unfold count_status. case_decide; lia.
  - destruct us as [|u us]; [by destruct cs|]. inversion_clear Ho as [|? ? Hu _]. left. unfold count_status. by rewrite Hu.
Qed.

(** The policy that the contexts have when they are installed. *)
Lemma install_one_policy `{UnicodeCase} clk r a k :
  policy <$> install_one clk r a !! k =
  if decide (k = rx_id r) then Some (Some (policy_of r)) else policy <$> a !! k.
Proof.
  unfold install_one. case_decide as Hk.
  - subst k. destruct (a !! rx_id r); [|by rewrite lookup_insert_eq].
    rewrite lookup_insert_eq. by destruct (rx_description r).
  - destruct (a !! rx_id r); by rewrite lookup_insert_ne.
Qed.
Lemma install_all_policy `{UnicodeCase} clk rs r : NoDup (map rx_id rs) -> r ∈ rs -> forall a,
  policy <$> foldl (fun a r => install_one clk r a) a rs !! rx_id r = Some (Some (policy_of r)).
Proof.
  induction rs as [|r' rs IH]; intros Hn Hr a; [by apply not_elem_of_nil in Hr|].
  inversion_clear Hn as [|? ? Hr' Hn']. apply elem_of_cons in Hr as [->|Hr]; [|by apply IH].
  assert (Hk : forall a, policy <$> foldl (fun a r => install_one clk r a) a rs !! rx_id r' = policy <$> a !! rx_id r').
  { clear -Hr'. induction rs as [|r rs IH]; intros a; [done|]. simpl in *. apply not_elem_of_cons in Hr' as [Hx Hr'].
    rewrite (IH Hr'), install_one_policy. by rewrite decide_False. }
  simpl. by rewrite Hk, install_one_policy, decide_True.
Qed.
Lemma resolved_default_in rs r : r ∈ rs -> rx_is_default r = true ->
  (forall r', r' ∈ rs -> rx_is_default r' = true -> rx_id r' = rx_id r) -> resolved_default rs = rx_id r.
Proof.
  intros Hr Hd Hu. unfold resolved_default. destruct (List.find rx_is_default rs) as [r'|] eqn:Ef.
  - apply List.find_some in Ef as [Hin Hd']. apply Hu; [by apply list_elem_of_In|done].
  - apply list_elem_of_In in Hr. by rewrite (List.find_none _ _ Ef r Hr) in Hd.
Qed.

Section Started.
Context {O : MapOrder} {OL : MapOrderLaws O} `{E : CacheEnv} {L : CacheEnvLaws E} `{SE : StatsEnv} `{CE : ContextEnv}.
Context `{D : Dispatcher Backends} `{C : Clients}.
Context (build_adapter : str -> Z -> result unit str) (env : str -> option str) (pid : Z).

(** A server that a configuration was started with. *)
Record started (c : ConfigFile) (px : ProxySettings) (pool : UpstreamPool) (p : CacheProxy) (s : Server) : Prop := {
  sd_fresh : fresh_app (px_max px) (sv_app s);
  sd_limits : max_entries (st_cache (sv_app s)) = px_max px /\
    fresh_duration (st_cache (sv_app s)) = from_secs (px_fresh_secs px) /\
    stale_duration (st_cache (sv_app s)) = from_secs (px_stale_secs px);
  sd_pool : sv_pool s = Some pool /\ sv_single s = None /\ sv_level s = level_as_u8 LevelFull;
  sd_contexts : ctx_inv (context_manager (sv_app s)) /\
    forall k d, cf_contexts c !! k = Some d ->
      context_scope_filter k (context_manager (sv_app s)) = Some (from_config (nc_scope d)) /\
      (is_default d = true -> current (context_manager (sv_app s)) = k);
  sd_breaker : wf (circuit_breaker (sv_app s));
  sd_limiter : forall l, xp_limiter p = Some l -> limiter_ok l;
  sd_keys : xp_api_key p = px_api_key px /\
    xp_agents p = match agents_for_ctx c with [] => None | a => Some (registry_from_config (xp_start_time p) a) end;
  sd_auth : has_auth (http_auth p) = requires_auth (grpc_auth p)
}.

Lemma cache_store_built px : 0 <= px_max px < usize_max -> px_max px <> 0 ->
  let s := (build_cache_store env pid px).1 in
  inv (px_max px) s /\ entries s = ∅ /\ max_entries s = px_max px /\
  fresh_duration s = from_secs (px_fresh_secs px) /\ stale_duration s = from_secs (px_stale_secs px).
Proof.
  intros Hm Hz. unfold build_cache_store. set (s0 := with_jitter _ _ _ _).
  assert (Hi : inv (px_max px) s0).
  { replace (px_max px) with (Z.max 1 (px_max px)) at 1 by lia. by apply inv_init. }
  set (s1 := with_normalized_matching _ s0). set (s2 := if 0 <? _ then set_max_memory_bytes _ s1 else s1).
  set (s3 := match (if px_cdc_enabled px then _ else None) with Some node => _ | None => s2 end).
  assert (H3 : entries s3 = ∅ /\ inv (px_max px) s3 /\ config_fingerprint s3 = 0 /\ max_entries s3 = px_max px /\
    fresh_duration s3 = from_secs (px_fresh_secs px) /\ stale_duration s3 = from_secs (px_stale_secs px)).
  { subst s3 s2 s1 s0. destruct (px_cdc_enabled px), (0 <? _); simpl; split_and!; try done; by eapply inv_ext; [..|exact Hi]. }
  clearbody s3. destruct H3 as (He & H3 & Hf & Hx & Hr & Ht).
  pose proof (inv_update_config_fingerprint _ (px_upstream_url px) (cfg_phrase_texts (px_scope px)) _ H3) as Hu.
  simpl. split; [done|]. unfold update_config_fingerprint. by rewrite Hf.
Qed.

Lemma resolved_ids c rs : Forall2 context_of (map_order (cf_contexts c)) rs ->
  map rx_id (map manager_context rs) = map fst (map_order (cf_contexts c)).
Proof. induction 1 as [|kc r kcs rs Ho _ IH]; [done|]. simpl. by rewrite IH, (ctx_id _ _ Ho). Qed.
Lemma resolved_find c rs k d : Forall2 context_of (map_order (cf_contexts c)) rs -> cf_contexts c !! k = Some d ->
  exists r, r ∈ rs /\ context_of (k, d) r.
Proof.
  intros HF Hk. apply elem_of_map_order in Hk. apply list_elem_of_lookup in Hk as (i & Hi).
  destruct (Forall2_lookup_l _ _ _ _ _ HF Hi) as (r & Hr & Ho). exists r. split; [by eapply list_elem_of_lookup_2|done].
Qed.
Lemma installed_contexts clk c rs m : ctx_inv m -> 0 <= max_active_contexts (cm_config m) ->
  Forall2 context_of (map_order (cf_contexts c)) rs ->
  (forall k d k' d', cf_contexts c !! k = Some d -> is_default d = true -> cf_contexts c !! k' = Some d' -> is_default d' = true -> k' = k) ->
  let m' := install_resolved clk (map manager_context rs) m in
  ctx_inv m' /\ forall k d, cf_contexts c !! k = Some d ->
    context_scope_filter k m' = Some (from_config (nc_scope d)) /\ (is_default d = true -> current m' = k).
Proof.
  intros Hi Hx HF Hu. split; [exact (proj1 (ctx_apply_ok (XInstall clk (map manager_context rs)) m Hx Hi))|].
  intros k d Hk. destruct (resolved_find c rs k d HF Hk) as (r & Hr & Ho).
  assert (Hn : NoDup (map rx_id (map manager_context rs))).
  { rewrite (resolved_ids c rs HF), (map_order_perm _ (cf_contexts c)). apply NoDup_fst_map_to_list. }
  assert (Hm : manager_context r ∈ map manager_context rs) by (by apply list_elem_of_fmap_2).
  pose proof (install_all_policy clk _ _ Hn Hm (active m)) as Hp. simpl in Hp. rewrite (ctx_id _ _ Ho) in Hp. simpl in Hp.
  unfold install_resolved, context_scope_filter. set (a := foldl _ _ _) in *.
  destruct (a !! k) as [cx|] eqn:Ea; [|done]. simpl in Hp. injection Hp as Hp. split.
  - case_decide; simpl; rewrite Ea, Hp; simpl; by rewrite (ctx_scope _ _ Ho).
  - intros Hd. assert (resolved_default (map manager_context rs) = k) as ->.
    { rewrite (resolved_default_in _ _ Hm); simpl; [by rewrite (ctx_id _ _ Ho)|by rewrite (ctx_default _ _ Ho)|].
      intros r' Hr' Hd'. rewrite (ctx_id _ _ Ho). simpl.
      apply list_elem_of_fmap in Hr' as (x & -> & Hin). apply list_elem_of_lookup in Hin as (i & Hin).
      destruct (Forall2_lookup_r _ _ _ _ _ HF Hin) as ([k' d'] & Hi' & Ho'). simpl in *.
      rewrite (ctx_id _ _ Ho'). rewrite (ctx_default _ _ Ho') in Hd'. simpl in *.
      apply (Hu k d k' d'); try done. apply elem_of_map_order. by eapply list_elem_of_lookup_2. }
    rewrite decide_True; [done|]. simpl. fold a. by rewrite Ea.
Qed.

Lemma registry_nonempty now a cs : registry_is_empty (registry_from_config now (a :: cs)) = false.
Proof.
  unfold registry_is_empty, registry_from_config. apply bool_decide_eq_false. simpl.
  assert (Hg : forall cs r, agents r <> ∅ -> agents (foldl (fun r c => register now c r) r cs) <> ∅).
  { clear. intros cs. induction cs as [|c cs IH]; intros r Hr; [done|]. simpl. apply IH. simpl. apply insert_non_empty. }
  apply Hg. simpl. apply insert_non_empty.
Qed.

Lemma level_full s pool : sv_pool s = Some pool -> 0 < healthy_upstreams (pool_stats pool) ->
  determine_degradation_level s = LevelFull.
Proof.
  intros Hs Hh. unfold determine_degradation_level. rewrite Hs, (bool_decide_true (is_Some (Some pool))), orb_true_r by eauto.
  cbn [negb]. destruct (Z.eqb_spec (healthy_upstreams (pool_stats pool)) 0); [lia|done].
Qed.
(** What the arguments of the command leave alone. *)
Record same_settings (q px : ProxySettings) : Prop := {
  sm_upstreams : px_upstreams q = px_upstreams px;
  sm_max : px_max q = px_max px;
  sm_fresh : px_fresh_secs q = px_fresh_secs px;
  sm_stale : px_stale_secs q = px_stale_secs px;
  sm_breaker : px_circuit_breaker q = px_circuit_breaker px;
  sm_limit : px_rate_limit q = px_rate_limit px;
  sm_agents : px_agents q = px_agents px;
  sm_key : px_api_key q = px_api_key px
}.
Lemma cli_fields a px : px_upstreams px <> [] -> same_settings (cli_overrides a px) px.
Proof.
  intros Hne. unfold cli_overrides, normalize_upstreams. simpl.
  destruct (px_upstreams px) eqn:Eu; [done|]. split; simpl; try done; by rewrite Eu.
Qed.
Lemma proxy_agents c rs rc : px_agents (projected c rs rc) = agents_for_ctx c.
Proof. rewrite <- (projected_agents c rs rc). unfold projected. by destruct (cf_agents c) eqn:Ea; simpl; rewrite ?Ea. Qed.

End Started.

(** ** Examples *)

#[local] Existing Instance DemoEnv.
#[local] Existing Instance ListedOrder.
Definition NativeClients : Clients := {| build_client := fun _ => Ok tt; pgvector_feature := false |}.
#[local] Existing Instance NativeClients.
#[local] Instance IdleDispatcher : Dispatcher Backends :=
  {| disp_present := has_upstream; disp_query := fun _ b m => (Err NotConfigured, b, m); disp_took := fun _ => 0 |}.

Definition demo_args : StartArgs :=
  {| sa_listen := None; sa_upstream := Some (lit "http://other"); sa_node_id := Some (lit "n1"); sa_peers := Some (lit "p1:9, p2:9") |}.
Definition demo_proxy : option CacheProxy :=
  match start_proxy (fun _ _ => Ok tt) (fun _ => None) 7 demo_clock (shared_file None) demo_args with
  | Ret (Ok p) => Some p | _ => None end.


(** A background process does not get the peers and the node id of its command. *)
Lemma daemon_forgets_peers :
  exists px, effective_proxy (shared_file None) = Ok px /\
    pp_enabled (px_peer (cli_overrides demo_args px)) = Some true /\
    pp_enabled (px_peer (cli_overrides (daemon_args demo_args) px)) = None.
Proof. eexists. split; [vm_compute; reflexivity|]. split; vm_compute; reflexivity. Qed.

(** A shared secret that refers to an undefined variable leaves the peer services to
    the interceptor, which without keys lets everybody pass. *)
Lemma undefined_secret_opens env now md p c raw :
  xp_peer p = Some c -> resolve_shared_secret env c = Err (UndefinedVariable raw) ->
  xp_api_key p = None -> xp_agents p = None -> xp_limiter p = None ->
  peer_guard env p = GuardKey (grpc_auth p) /\ (intercept now md (grpc_auth p)).1 = Ok tt.
Proof.
  intros Hp Hs Hk Ha Hl. unfold peer_guard. rewrite Hp, Hs. split; [done|].
  unfold intercept, auth_check, grpc_auth, requires_auth. by rewrite Hk, Ha, Hl.
Qed.
