(* ===== verification/Status.v ===== *)
(** * Status and monitoring (src/src/proxy/server/status.rs, src/src/proxy/grpc/observability.rs)

    The read-only endpoints: health, readiness, statistics, queue, circuit breaker,
    pool, clients, audit log and metrics, over HTTP and gRPC.  The handlers read the
    server of [Start]; the one that reads the breaker may move it from open to
    half-open.  The Prometheus text is in [Prometheus]; the metrics of the Tokio runtime are
    left out. *)

From Stdlib Require Import SpecFloat.
From S2P Require Import Prelude Floats Text Types Drift Cdc Cache CacheInv CacheSweep CacheProps Circuit Priority Scope.
From S2P Require Import Coalesce Retry ConnPool Upstream Pool PoolProps Cascade Auth Adaptive Federated Metrics Context.
From S2P Require Import Refresh Batch Pipeline Peer Settings Config Admin Handlers Grpc AuditLog Start.
Open Scope Z_scope.
Open Scope conproxy_scope.

(** ** Small readers *)

Definition has_drift_alert (w : QueryTrackingRefreshWorker) : bool := should_alert (drift_aggregator w).
Definition tracked_count (w : QueryTrackingRefreshWorker) : Z := Z.of_nat (size (query_map w)).
Definition pending_count (w : QueryTrackingRefreshWorker) : Z := Z.of_nat (size (pending w)).
Definition all_context_stats `{ContextEnv} (m : ContextManager) : list (str * ContextStats * f64) :=
  map (fun kc => (kc.1, cx_stats kc.2, cs_hit_rate (cx_stats kc.2))) (ctx_iter (active m)).
Definition peer_is_warming (s : Server) : bool :=
  match sv_peer s with Some Warming => true | _ => false end.
Definition cache_is_empty (s : Server) : bool := bool_decide (entries (st_cache (sv_app s)) = ∅).
Definition uptime_secs (clk : Clock) (s : Server) : Z := as_secs (elapsed (mono clk) (sv_start_time s)).
Definition level_of_u8 (v : Z) : DegradationLevel :=
  if v =? 0 then LevelFull else if v =? 1 then StaleServing else if v =? 2 then ReadOnly else if v =? 3 then TextOnly
  else StartupFailure.
Definition status_text (st : UpstreamStatus) : str :=
  match st with Online => lit "online" | Degraded => lit "degraded" | Offline => lit "offline" end.
Definition strategy_text (st : LoadBalanceStrategy) : str :=
  match st with
  | RoundRobin => lit "round_robin" | Weighted => lit "weighted" | Random => lit "random" | Failover => lit "failover"
  end.

(** ** Health and readiness *)

Record PoolHealthSummary := { ph_total : Z; ph_healthy : Z; ph_degraded : Z; ph_offline : Z }.
Record HealthResponse := {
  hr_status : str;
  hr_uptime_secs : Z;
  hr_cache_entries : Z;
  hr_upstream_configured : bool;
  hr_upstream_healthy : option bool;
  hr_pool_health : option PoolHealthSummary;
  hr_drift_alert : bool;
  hr_error_rate : f64;
  hr_degradation_level : DegradationLevel
}.
Record ReadyResponse := {
  rd_ready : bool;
  rd_cache_populated : bool;
  rd_upstream_reachable : option bool;
  rd_pool_healthy_count : option Z;
  rd_reason : option str
}.

Section Health.
(** [GenericRestAdapter::health_check] of the single adapter, by its URL. *)
Context (health_check : str -> result bool UpstreamError).

Definition single_healthy (url : str) : bool := match health_check url with Ok b => b | Err _ => false end.

Definition handle_health (clk : Clock) (s : Server) : HealthResponse :=
  let '(configured, healthy, pool_health) :=
    match sv_pool s with
    | Some pool =>
        let st := pool_stats pool in
        (true, Some (0 <? healthy_upstreams st),
         Some {| ph_total := total_upstreams st; ph_healthy := healthy_upstreams st;
                 ph_degraded := degraded_upstreams st; ph_offline := offline_upstreams st |})
    | None =>
        match sv_single s with
        | Some (url, _) => (true, Some (single_healthy url), None)
        | None => (false, None, None)
        end
    end in
  let drift := match refresh_worker (sv_app s) with Some w => has_drift_alert w | None => false end in
  let rate := upstream_error_rate (metrics_snapshot (st_metrics (sv_app s))) in
  {| hr_status := if bool_decide (healthy = Some false) then lit "degraded"
                  else if drift then lit "warning"
                  else if f_lt (F64.lit 1 10) rate then lit "degraded"
                  else lit "ok";
     hr_uptime_secs := uptime_secs clk s; hr_cache_entries := cache_len (st_cache (sv_app s));
     hr_upstream_configured := configured; hr_upstream_healthy := healthy; hr_pool_health := pool_health;
     hr_drift_alert := drift; hr_error_rate := rate; hr_degradation_level := level_of_u8 (sv_level s) |}.

Definition handle_ready (s : Server) : Z * ReadyResponse :=
  let populated := negb (cache_is_empty s) in
  let '(configured, reachable, count) :=
    match sv_pool s with
    | Some pool => let n := healthy_upstreams (pool_stats pool) in (true, Some (0 <? n), Some n)
    | None =>
        match sv_single s with
        | Some (url, _) => (true, Some (single_healthy url), None)
        | None => (false, None, None)
        end
    end in
  if peer_is_warming s then
    (503, {| rd_ready := false; rd_cache_populated := populated; rd_upstream_reachable := reachable;
             rd_pool_healthy_count := count; rd_reason := Some (lit "Peer replication: warming (snapshot in progress)") |})
  else
    let '(ready, reason) :=
      match configured, reachable, populated with
      | false, _, true => (true, None)
      | false, _, false => (false, Some (lit "No upstream and cache is empty"))
      | true, Some true, _ => (true, None)
      | true, Some false, true => (true, None)
      | true, Some false, false => (false, Some (lit "Upstream unreachable and cache is empty"))
      | true, None, _ => (false, Some (lit "Upstream health check failed"))
      end in
    (if ready then 200 else 503,
     {| rd_ready := ready; rd_cache_populated := populated; rd_upstream_reachable := reachable;
        rd_pool_healthy_count := count; rd_reason := reason |}).
End Health.

(** ** Statistics *)

Record StatsResponse := {
  sr_uptime_secs : Z;
  sr_cache : Z * Z * Z * Z * Z;
  sr_miss_reasons : Z * Z * Z * Z;
  sr_upstream : option (str * Z);
  sr_in_flight : Z;
  sr_refresh_worker : option (Z * Z);
  sr_contexts : list (str * ContextStats * f64)
}.
Record MetricsResponse := {
  mr_proxy : MetricsSnapshot;
  mr_latency_percentiles : LatencyPercentiles;
  mr_adaptive_timeout : AdaptiveTimeoutStats;
  mr_retry : Z * Z * Z
}.
Record HotQueryInfo := { hq_query : str; hq_count : Z; hq_hits : Z; hq_hit_rate : f64; hq_avg_latency_ms : f64 }.
Record QueryStatsResponse := { qr_aggregate : AggregateStats; qr_hot : list HotQueryInfo }.
Record AuditEntryResponse := {
  ar_request_id : Z; ar_timestamp : Z; ar_query : str; ar_cache_status : str; ar_latency_ms : Z; ar_result_count : Z;
  ar_success : bool; ar_error : option str
}.
Record AuditResponse := {
  aq_total_logged : Z; aq_entries : Z; aq_success_rate : f64; aq_hit_rate : f64; aq_avg_latency_ms : Z;
  aq_recent : list AuditEntryResponse
}.
Record CircuitStatusResponse := { ct_state : str; ct_failure_count : Z; ct_times_opened : Z; ct_times_tripped : Z }.
Record QueueStatusResponse := {
  qq_total : Z; qq_max_size : Z; qq_by_priority : Z * Z * Z * Z; qq_utilization : f64
}.
Record UpstreamStatusInfo := {
  ui_id : str; ui_url : str; ui_status : str; ui_enabled : bool; ui_weight : Z; ui_priority : Z; ui_requests : Z;
  ui_failures : Z; ui_failure_rate : f64
}.
Record PoolStatusResponse := {
  pr_configured : bool; pr_stats : option PoolStats; pr_upstreams : list UpstreamStatusInfo; pr_strategy : option str
}.
Record ClientsResponse := {
  cl_active_requests : Z; cl_completed : Z; cl_rejected : Z; cl_clients : list ClientInfo
}.

Definition status_debug (st : CacheStatus) : str :=
  match st with Hit => lit "Hit" | Miss => lit "Miss" | Stale_ => lit "Stale" | Frozen_ => lit "Frozen" end.

Definition put_breaker (b : CircuitBreaker) (s : Server) : Server :=
  {| sv_app := on_circuit (fun _ => b) (sv_app s); sv_single := sv_single s; sv_audit := sv_audit s; sv_queue := sv_queue s;
     sv_batch := sv_batch s; sv_federated := sv_federated s; sv_start_time := sv_start_time s; sv_level := sv_level s;
     sv_agents := sv_agents s; sv_peer := sv_peer s; sv_permits := sv_permits s |}.

Section Monitor.
Context `{E : CacheEnv} `{StatsEnv} `{ContextEnv}.
(** [identifier] of the adapter of a pooled upstream, and the order of the clients. *)
Context (identifier : PooledUpstream -> str) (client_iter : gmap str ClientInfo -> list ClientInfo).

Definition handle_stats (clk : Clock) (s : Server) : outcome StatsResponse :=
  let a := sv_app s in
  let! cs := stats clk (st_cache a) in
  let m := st_metrics a in
  Ret {| sr_uptime_secs := uptime_secs clk s; sr_cache := (cs_total cs, cs_fresh cs, cs_stale cs, cs_expired cs, cs_max_entries cs);
         sr_miss_reasons := (pm_count m miss_not_in_cache, pm_count m miss_expired, pm_count m miss_upstream_error,
                             pm_count m miss_circuit_open);
         sr_upstream := (fun ut => (ut.1, as_secs ut.2)) <$> sv_single s;
         sr_in_flight := in_flight_count (coalescer a);
         sr_refresh_worker := (fun w => (tracked_count w, pending_count w)) <$> refresh_worker a;
         sr_contexts := all_context_stats (context_manager a) |}.

Definition handle_metrics (s : Server) : MetricsResponse :=
  let a := sv_app s in
  {| mr_proxy := metrics_snapshot (st_metrics a); mr_latency_percentiles := latency_percentiles (st_metrics a);
     mr_adaptive_timeout := at_stats (adaptive_timeout a);
     mr_retry := (max_retries (retry_policy a), as_millis_u64 (initial_delay (retry_policy a)),
                  as_millis_u64 (max_delay (retry_policy a))) |}.

Definition handle_query_stats (s : Server) : QueryStatsResponse :=
  let t := query_stats (sv_app s) in
  {| qr_aggregate := aggregate t;
     qr_hot := map (fun q => {| hq_query := sq_query q; hq_count := sq_count q; hq_hits := sq_hits q;
                                hq_hit_rate := sq_hit_rate q; hq_avg_latency_ms := sq_avg_latency_ms q |}) (top_by_count 10 t) |}.

Definition handle_audit (s : Server) : AuditResponse :=
  let st := audit_stats (sv_audit s) in
  {| aq_total_logged := ad_total_logged st; aq_entries := ad_entries_in_buffer st; aq_success_rate := ad_success_rate st;
     aq_hit_rate := ad_cache_hit_rate st; aq_avg_latency_ms := ad_avg_latency_ms st;
     aq_recent := map (fun e => {| ar_request_id := au_request_id e; ar_timestamp := au_timestamp e; ar_query := au_query e;
                                   ar_cache_status := status_debug (au_cache_status e); ar_latency_ms := au_latency_ms e;
                                   ar_result_count := au_result_count e; ar_success := au_success e; ar_error := au_error e |})
                    (audit_recent 50 (sv_audit s)) |}.

Definition circuit_text (st : CircuitState) : str :=
  match st with Closed => lit "closed" | Open => lit "open" | HalfOpen => lit "half_open" end.
Definition handle_circuit_status (now : Z) (s : Server) : CircuitStatusResponse * Server :=
  let '(st, b) := state now (circuit_breaker (sv_app s)) in
  ({| ct_state := circuit_text st; ct_failure_count := failure_count b; ct_times_opened := times_opened b;
      ct_times_tripped := times_tripped b |}, put_breaker b s).

Definition handle_queue_status (s : Server) : QueueStatusResponse :=
  let st := q_stats (sv_queue s) in
  {| qq_total := qs_total st; qq_max_size := qs_max_size st;
     qq_by_priority := (low_priority st, normal_priority st, high_priority st, critical_priority st);
     qq_utilization := Priority.utilization st |}.

Definition status_info (u : PooledUpstream) : UpstreamStatusInfo :=
  {| ui_id := pu_id u; ui_url := identifier u; ui_status := status_text (status (pu_health u)); ui_enabled := is_available u;
     ui_weight := pu_weight u; ui_priority := pu_priority u; ui_requests := requests u; ui_failures := failures u;
     ui_failure_rate := failure_rate u |}.
Definition handle_pool_status (s : Server) : PoolStatusResponse :=
  match sv_pool s with
  | Some pool => {| pr_configured := true; pr_stats := Some (pool_stats pool); pr_upstreams := map status_info (upstreams pool);
                    pr_strategy := Some (strategy_text (strategy pool)) |}
  | None =>
      {| pr_configured := false; pr_stats := None;
         pr_upstreams := match sv_single s with
                         | Some (url, _) => [{| ui_id := lit "default"; ui_url := url; ui_status := lit "online";
                                                ui_enabled := true; ui_weight := 1; ui_priority := 0; ui_requests := 0;
                                                ui_failures := 0; ui_failure_rate := f_zero |}]
                         | None => []
                         end;
         pr_strategy := None |}
  end.

Definition handle_clients (s : Server) : ClientsResponse :=
  let t := client_tracker (sv_app s) in
  let cs := client_iter (cl_active t) in
  {| cl_active_requests := zlen cs; cl_completed := total_completed t; cl_rejected := total_rejected t; cl_clients := cs |}.
End Monitor.

(** ** The gRPC service *)

Record ProtoStats := {
  pt_uptime_secs : Z; pt_cache_entries : Z; pt_hits : Z; pt_misses : Z; pt_hit_rate : f64; pt_upstream_requests : Z;
  pt_upstream_failures : Z; pt_upstream_error_rate : f64; pt_level : str; pt_paused : bool
}.
Record ProtoCircuit := { px_state : str; px_failure_count : Z; px_success_count : Z; px_consecutive : Z }.
Record ProtoQueue := { pq_pending : Z; pq_capacity : Z; pq_utilization : f64 }.
Record ProtoUpstream := { pu_proto_id : str; pu_proto_url : str; pu_proto_health : str; pu_proto_weight : Z; pu_proto_priority : Z }.
Record ProtoPool := {
  po_total : Z; po_healthy : Z; po_degraded : Z; po_offline : Z; po_upstreams : list ProtoUpstream
}.

Definition level_text (v : Z) : str :=
  if v =? 0 then lit "full" else if v =? 1 then lit "stale_serving" else if v =? 2 then lit "read_only"
  else if v =? 3 then lit "text_only" else if v =? 4 then lit "startup_failure" else lit "unknown".
Definition grpc_get_stats (clk : Clock) (s : Server) : ProtoStats :=
  let m := metrics_snapshot (st_metrics (sv_app s)) in
  {| pt_uptime_secs := uptime_secs clk s; pt_cache_entries := cache_len (st_cache (sv_app s));
     pt_hits := ms_count m cache_hits; pt_misses := ms_count m cache_misses; pt_hit_rate := cache_hit_rate m;
     pt_upstream_requests := ms_count m upstream_requests; pt_upstream_failures := ms_count m upstream_failures;
     pt_upstream_error_rate := upstream_error_rate m; pt_level := level_text (sv_level s); pt_paused := paused (sv_app s) |}.

Definition circuit_debug (st : CircuitState) : str :=
  match st with Closed => lit "Closed" | Open => lit "Open" | HalfOpen => lit "HalfOpen" end.
Definition grpc_get_circuit_status (now : Z) (s : Server) : ProtoCircuit * Server :=
  let '(st, b) := state now (circuit_breaker (sv_app s)) in
  ({| px_state := circuit_debug st; px_failure_count := failure_count b; px_success_count := times_opened b;
      px_consecutive := failure_count b |}, put_breaker b s).

Definition grpc_get_queue_stats (s : Server) : ProtoQueue :=
  let st := q_stats (sv_queue s) in
  {| pq_pending := qs_total st; pq_capacity := qs_max_size st;
     pq_utilization := if 0 <? qs_max_size st then F64.div (F64.of_Z (qs_total st)) (F64.of_Z (qs_max_size st)) else f_zero |}.

Definition upstream_status_debug (st : UpstreamStatus) : str :=
  match st with Online => lit "Online" | Degraded => lit "Degraded" | Offline => lit "Offline" end.
Definition grpc_get_pool_status (s : Server) : ProtoPool :=
  match sv_pool s with
  | Some pool =>
      let st := pool_stats pool in
      {| po_total := wrap 32 (total_upstreams st); po_healthy := wrap 32 (healthy_upstreams st);
         po_degraded := wrap 32 (degraded_upstreams st); po_offline := wrap 32 (offline_upstreams st);
         po_upstreams := map (fun u => {| pu_proto_id := pu_id u; pu_proto_url := [];
                                          pu_proto_health := upstream_status_debug (status (pu_health u));
                                          pu_proto_weight := pu_weight u; pu_proto_priority := pu_priority u |}) (upstreams pool) |}
  | None =>
      let n := if bool_decide (is_Some (sv_single s)) then 1 else 0 in
      {| po_total := n; po_healthy := n; po_degraded := 0; po_offline := 0; po_upstreams := [] |}
  end.
Definition grpc_get_cache_upstreams `{CacheEnv} (clk : Clock) (s : Server) : outcome (gmap str UpstreamCacheStats) :=
  stats_by_upstream clk (st_cache (sv_app s)).

(** ** Properties *)

(** Whether something could answer: an online upstream, a healthy single adapter, or
    the cache. *)
Definition reachable_upstream (health_check : str -> result bool UpstreamError) (s : Server) : Prop :=
  match sv_pool s with
  | Some pool => exists u, u ∈ upstreams pool /\ status (pu_health u) = Online
  | None => exists url t, sv_single s = Some (url, t) /\ health_check url = Ok true
  end.

Lemma sum_over_zero f us : Forall (fun u => f u = 0) us -> sum_over f us = 0.
Proof. unfold sum_over. induction 1 as [|u us Hu _ IH]; [done|]. simpl. by rewrite Hu. Qed.

Lemma healthy_nonneg pool : 0 <= healthy_upstreams (pool_stats pool).
Proof.
  assert (Hg : forall us a, 0 <= a -> 0 <= foldl (fun acc u => acc +! count_status Online u) a us).
  { intros us. induction us as [|u us IH]; intros a Ha; [done|]. simpl. apply IH.
    unfold count_status, sat_add, u_max. case_decide; lia. }
  by apply Hg.
Qed.

(** The count of healthy upstreams says whether one is online; those that are
    disabled count too. *)
Lemma online_counted pool :
  0 < healthy_upstreams (pool_stats pool) <-> exists u, u ∈ upstreams pool /\ status (pu_health u) = Online.
Proof.
  simpl. destruct (decide (Exists (fun u => status (pu_health u) = Online) (upstreams pool))) as [He|Hn].
  - split; [by rewrite Exists_exists in He|]. intros _. apply sum_over_pos.
    + apply Forall_true. intros u. unfold count_status. case_decide; lia.
    + eapply Exists_impl; [exact He|]. intros u Hu. unfold count_status. simpl in Hu. by rewrite decide_True.
  - rewrite sum_over_zero; [|apply Forall_Exists_neg in Hn; eapply Forall_impl; [exact Hn|];
      intros u Hu; unfold count_status; simpl in Hu; by rewrite decide_False].
    split; [lia|]. intros (u & Hu & Ho). exfalso. apply Hn, Exists_exists. by exists u.
Qed.

Lemma single_reachable (health_check : str -> result bool UpstreamError) url (t : Z) :
  (exists url' t', Some (url, t) = Some (url', t') /\ health_check url' = Ok true) <-> single_healthy health_check url = true.
Proof.
  unfold single_healthy. split; [intros (? & ? & [= <- <-] & ->); done|].
  destruct (health_check url) as [[|]|] eqn:E; try done. by exists url, t.
Qed.

(** The readiness probe: it answers 200 exactly when the peer is not warming and
    either an upstream of the pool is online (or the single adapter passes its health
    check) or the cache holds something; a reason is given exactly when it does not;
    and with a pool and no peer it agrees with the degradation level of that moment. *)
Theorem ready_exact (health_check : str -> result bool UpstreamError) (s : Server) :
  let '(code, r) := handle_ready health_check s in
  (rd_ready r = true <-> peer_is_warming s = false /\ (reachable_upstream health_check s \/ cache_is_empty s = false)) /\
  code = (if rd_ready r then 200 else 503) /\ (rd_reason r = None <-> rd_ready r = true) /\
  (is_Some (sv_pool s) -> peer_is_warming s = false -> rd_ready r = level_is_ready (determine_degradation_level s)).
Proof.
  unfold handle_ready, reachable_upstream, determine_degradation_level. fold (cache_is_empty s).
  destruct (sv_pool s) as [pool|] eqn:Ep.
  - pose proof (online_counted pool) as Ho. pose proof (healthy_nonneg pool) as H0. set (P := exists u, _) in *. set (n := healthy_upstreams (pool_stats pool)) in *.
    rewrite (bool_decide_true (is_Some (Some pool))), orb_true_r by eauto. cbn [negb]. clearbody P n.
    destruct (peer_is_warming s), (Z.ltb_spec 0 n), (cache_is_empty s), (Z.eqb_spec n 0); simpl;
      try (exfalso; lia); split_and!; try done; naive_solver lia.
  - destruct (sv_single s) as [[url t]|].
    + pose proof (single_reachable health_check url t) as Ho. set (P := exists url' t', _) in *. clearbody P.
      destruct (peer_is_warming s), (single_healthy health_check url), (cache_is_empty s); simpl; split_and!; try done;
        try (by intros [? ?]); naive_solver.
    + destruct (peer_is_warming s), (cache_is_empty s); simpl; split_and!; try done; try (by intros [? ?]); naive_solver.
Qed.

(** ** Examples *)

#[local] Existing Instance DemoEnv.

Definition AnsweringBackend : Backend :=
  {| bk_conn := fun _ _ => Ok tt; bk_query := fun _ _ _ => Ok demo_answer; bk_query_vector := fun _ _ _ _ => Err Timeout;
     bk_discover := fun _ _ => Err Timeout; bk_wall := fun _ => 0 |}.
Definition pool_server (us : list PooledUpstream) : Server :=
  to_app_state
    {| xp_cache := CacheStore_new 0 0 10; xp_upstream := None; xp_pool := Some (pool_of us RoundRobin);
       xp_coalescer := RequestCoalescer_new; xp_scope_filter := from_config ProxyScopeConfig_default;
       xp_metrics := ProxyMetrics_new; xp_breaker := CircuitBreaker_new 0 CircuitBreakerConfig_default;
       xp_audit := AuditLog_new 1000; xp_retry := no_retry; xp_adaptive := AdaptiveTimeout_new AdaptiveTimeoutConfig_default;
       xp_upstream_id := lit "proxy-1"; xp_start_time := 0; xp_refresh_interval := 0; xp_api_key := None; xp_limiter := None;
       xp_federated := federated_config_of FederatedSettings_default; xp_queue := PriorityQueue_new 1000;
       xp_contexts := ContextManager_new {| mono := 0; wall := 0 |} ContextConfig_default; xp_cascade := None;
       xp_agents := None; xp_cdc := None; xp_peer := None; xp_shutdown_timeout := 0; xp_max_connections := 1000;
       xp_web_ui := false |}.
Definition flaky_upstream : PooledUpstream :=
  Nat.iter 5 (fun u => pu_record_success 0 (pu_record_failure 0 u)) (demo_upstream "a" 1 0 FullTextSearch).

(** Five failures in ten calls leave the upstream degraded: queries are still answered, but
    the probe reports the proxy as unable to serve. *)
Lemma degraded_not_ready :
  let s := pool_server [flaky_upstream] in
  (handle_ready (fun _ => Err Timeout) s).1 = 503 /\
  rd_reason (handle_ready (fun _ => Err Timeout) s).2 = Some (lit "Upstream unreachable and cache is empty") /\
  exists r, fst (@pool_query AnsweringBackend (demo_request None) (b_world (st_upstreams (sv_app s)))) = Ok r.
Proof. split; [vm_compute; reflexivity|]. split; [vm_compute; reflexivity|]. eexists. vm_compute. reflexivity. Qed.

(** A disabled upstream counts as healthy, and is asked when no other is available. *)
Lemma disabled_is_asked :
  let s := pool_server [set_enabled false (demo_upstream "a" 1 0 FullTextSearch)] in
  (handle_ready (fun _ => Err Timeout) s).1 = 200 /\
  exists r, fst (@pool_query AnsweringBackend (demo_request None) (b_world (st_upstreams (sv_app s)))) = Ok r.
Proof. split; [vm_compute; reflexivity|]. eexists. vm_compute. reflexivity. Qed.
