(* ===== verification/Engine.v ===== *)
(** * The in-process engine (src/src/engine/mod.rs, src/src/engine/budget.rs)

    A facade over the same query path as the server: a builder with knobs for the
    limits of the cache, queries, statistics, and the ticker that keeps the memory
    limit at a fraction of what the container or the host has.  The file system
    enters as a function from the components of a path to the contents of the file;
    the listener of the dashboard and the tasks are left out. *)

From Stdlib Require Import SpecFloat.
From S2P Require Import Prelude Floats Text Types Drift Cdc Cache CacheInv CacheReach CacheSpec CacheProps CacheEvict.
From S2P Require Import Circuit Priority Scope Coalesce Retry ConnPool Upstream Pool PoolProps Cascade Auth Adaptive.
From S2P Require Import Federated Metrics Context Refresh Batch Pipeline PipelineSys Persist Settings Config ConfigProps.
From S2P Require Import Admin Grpc AuditLog Start.
Open Scope Z_scope.
Open Scope conproxy_scope.

(** ** The memory budget *)

Definition DEFAULT_MEMORY_FRACTION : f64 := F64.lit 7 10.
Definition DYNAMIC_CAP_FLOOR_BYTES : Z := 16 * 1024 * 1024.
Definition DEFAULT_TTL_SECS : Z := 300.
Definition DEFAULT_STALE_TTL_SECS : Z := 3600.

Definition strip_suffix (p s : str) : option str := option_map (@rev char) (strip_prefix (rev p) (rev s)).
(** [str::trim_end_matches] *)
Fixpoint drop_prefixes (fuel : nat) (p s : str) : str :=
  match fuel with
  | O => s
  | S fuel => match strip_prefix p s with Some r => drop_prefixes fuel p r | None => s end
  end.
Definition trim_end_matches (p s : str) : str := rev (drop_prefixes (length s) (rev p) (rev s)).
(** [str::lines] *)
Definition strip_cr (l : str) : str := match last l with Some 13 => removelast l | _ => l end.
Fixpoint lines_of (ps : list str) : list str :=
  match ps with
  | [] => []
  | [l] => match l with [] => [] | _ => [l] end
  | l :: ps => strip_cr l :: lines_of ps
  end.
Definition str_lines (s : str) : list str := lines_of (split_on 10 [] s).
(** The components of a path. *)
Definition components (p : str) : list str :=
  List.filter (fun c => negb (bool_decide (c = [])) && negb (bool_decide (c = lit "."))) (split_on 47 [] p).
Definition cgroup_root : list str := [lit "sys"; lit "fs"; lit "cgroup"].

Definition cap_for_fraction (fraction : f64) (budget : Z) : Z :=
  f_to_u 64 (F64.mul (F64.of_Z budget) (f_clamp fraction f_zero (F64.of_Z 1))).
Definition dynamic_cap (fraction : f64) (budget : Z) : Z := Z.max (cap_for_fraction fraction budget) DYNAMIC_CAP_FLOOR_BYTES.

Section Budget.
Context (fs : list str -> option str).

(** The limit that a directory of the hierarchy gives. *)
Definition limit_at (dir : list str) : option Z :=
  match fs (dir ++ [lit "memory.max"]) with
  | Some s =>
      if bool_decide (trim s = lit "max") then None
      else match parse_usize (trim s) with Some v => if 0 <? v then Some v else None | None => None end
  | None => None
  end.
(** The walk up; the directory is given from its last component. *)
Fixpoint walk_up (rdir : list str) : option Z :=
  match limit_at (rev rdir) with
  | Some v => Some v
  | None =>
      if bool_decide (rev rdir = cgroup_root) then None
      else match rdir with [] => None | _ :: rdir => walk_up rdir end
  end.
Fixpoint find_map {A B} (f : A -> option B) (l : list A) : option B :=
  match l with [] => None | a :: l => match f a with Some b => Some b | None => find_map f l end end.
Definition cgroup_v2_memory_max : option Z :=
  match fs [lit "proc"; lit "self"; lit "cgroup"] with
  | None => None
  | Some contents =>
      match find_map (strip_prefix (lit "0::")) (str_lines contents) with
      | None => None
      | Some path =>
          walk_up (rev (match trim path with [] => cgroup_root | p => components (lit "/sys/fs/cgroup" ++ p) end))
      end
  end.
Fixpoint mem_available_in (ls : list str) : option Z :=
  match ls with
  | [] => None
  | l :: ls =>
      match strip_prefix (lit "MemAvailable:") l with
      | Some rest => (fun kb => sat_mul 64 kb 1024) <$> parse_usize (trim (trim_end_matches (lit "kB") (trim rest)))
      | None => mem_available_in ls
      end
  end.
Definition mem_available : option Z :=
  match fs [lit "proc"; lit "meminfo"] with Some s => mem_available_in (str_lines s) | None => None end.
Definition read_memory_budget : Z :=
  match cgroup_v2_memory_max with Some v => v | None => default (256 * 1024 * 1024) mem_available end.
End Budget.

(** ** The engine *)

(** The texts of the configuration errors are constructors. *)
Inductive EngineError :=
| EngNoConfig | EngLoad (e : str) | EngProject (e : ConfigError) | EngProxy (e : str) | EngSetter (e : str)
| EngContext (e : ContextError) | EngMemory (raw : str) | EngDashboard (e : str)
| EngPersist (e : str) | EngFeature (name : str) | EngQuery (status : Z) | EngClosed.

Record QueryOpts := { qo_top_k : option Z; qo_context : option str; qo_skip_cache : bool }.
Record EngineStats := { eg_hits : Z; eg_misses : Z; eg_size : Z; eg_evictions : Z }.
Record Engine := {
  en_server : Server;
  en_closed : bool;
  en_context : str;
  en_fraction : option f64;
  en_dashboard : option str;
  en_refresh_spawned : bool
}.
Record EngineBuilder := {
  eb_config : bool;
  eb_persist : option str;
  eb_ttl : option Z;
  eb_stale_ttl : option Z;
  eb_context : option str;
  eb_max_entries : option Z;
  eb_max_memory : option Z;
  eb_fraction : option f64;
  eb_dashboard : option str
}.
Definition engine_builder : EngineBuilder :=
  {| eb_config := false; eb_persist := None; eb_ttl := None; eb_stale_ttl := None; eb_context := None; eb_max_entries := None;
     eb_max_memory := None; eb_fraction := None; eb_dashboard := None |}.

Definition parse_memory (raw : str) : result Z EngineError :=
  let s := trim raw in
  match parse_usize s with
  | Some n => Ok n
  | None =>
      let lower := to_ascii_lowercase s in
      let parsed (num : str) (mul : Z) :=
        match parse_usize (trim num) with Some n => Ok (sat_mul 64 n mul) | None => Err (EngMemory raw) end in
      match strip_suffix (lit "gib") lower with
      | Some num => parsed num (1024 * 1024 * 1024)
      | None =>
          match strip_suffix (lit "mib") lower with
          | Some num => parsed num (1024 * 1024)
          | None =>
              match strip_suffix (lit "kib") lower with
              | Some num => parsed num 1024
              | None => Err (EngMemory raw)
              end
          end
      end
  end.

Section Build.
Context {O : MapOrder} `{E : CacheEnv} `{CE : ContextEnv} `{Clients} (build_adapter : str -> Z -> result unit str).
Context (env : str -> option str) (pid : Z).
(** The database, when the feature is compiled in. *)
Context {D : Type} `{Redb D} `{JsonCodec PersistedEntry} (open_database : option (str -> result D str)).
Context (bind : str -> result str str) (runtime : bool).

Definition engine_settings (c : ConfigFile) : result ProxySettings EngineError :=
  match resolve_contexts c with
  | Ok (_ :: _) => match effective_proxy c with Ok px => Ok px | Err e => Err (EngProject e) end
  | _ => Ok (normalize_upstreams (cf_proxy c)).2
  end.

Definition attach_persistence (clk : Clock) (path : str) (s : CacheStore) : result CacheStore EngineError :=
  match open_database with
  | None => Err (EngFeature (lit "persistence"))
  | Some open => match open path with Err e => Err (EngPersist e) | Ok d => Ok (snd (restore_from_persistence clk d s)) end
  end.

(** The knobs that the builder turns on the cache, in the order of the source. *)
Definition apply_knobs (clk : Clock) (budget : Z) (b : EngineBuilder) (s : CacheStore)
  : result (option f64 * CacheStore) EngineError :=
  match match eb_persist b with Some p => attach_persistence clk p s | None => Ok s end with
  | Err e => Err e
  | Ok s =>
      match match eb_max_entries b with
            | Some n => match set_max_entries n s with (Err e, _) => Err (EngSetter e) | (Ok _, s) => Ok s end
            | None => Ok s
            end with
      | Err e => Err e
      | Ok s =>
          let '(fraction, s) :=
            match eb_max_memory b with
            | Some bytes => (None, set_max_memory_bytes bytes s)
            | None =>
                let f := default DEFAULT_MEMORY_FRACTION (eb_fraction b) in
                (Some f, set_max_memory_bytes (dynamic_cap f budget) s)
            end in
          let s := set_fresh_duration (default (from_secs DEFAULT_TTL_SECS) (eb_ttl b)) s in
          Ok (fraction, set_stale_duration (default (from_secs DEFAULT_STALE_TTL_SECS) (eb_stale_ttl b)) s)
      end
  end.
Definition engine_contexts (clk : Clock) (id : str) (m : ContextManager) : result ContextManager EngineError :=
  match ctx_create clk id [] [] m with
  | (Err (NotFound _ as e), _) | (Err (CannotDeleteDefault as e), _) => Err (EngContext e)
  | (_, m) => match switch clk id m with (Ok _, m) => Ok m | (Err e, _) => Err (EngContext e) end
  end.

(** [loaded] is the configuration read from the path of the builder. *)
Definition engine_build (clk : Clock) (budget : Z) (loaded : result ConfigFile str) (b : EngineBuilder)
  : outcome (result Engine EngineError) :=
  if negb (eb_config b) then Ret (Err EngNoConfig)
  else
    match loaded with
    | Err e => Ret (Err (EngLoad e))
    | Ok c =>
        match engine_settings c with
        | Err e => Ret (Err e)
        | Ok px =>
            let! r := CacheProxy_new build_adapter env pid clk px in
            Ret (match r with
                 | Err e => Err (EngProxy e)
                 | Ok p =>
                     match apply_knobs clk budget b (xp_cache p) with
                     | Err e => Err e
                     | Ok (fraction, cache) =>
                         let id := default (lit "global") (eb_context b) in
                         match engine_contexts clk id (xp_contexts p) with
                         | Err e => Err e
                         | Ok m =>
                             match match eb_dashboard b with
                                   | Some addr => match bind addr with Ok a => Ok (Some a) | Err e => Err (EngDashboard e) end
                                   | None => Ok None
                                   end with
                             | Err e => Err e
                             | Ok dash =>
                                 let sv := to_app_state (put_xp_contexts m (put_xp_cache cache p)) in
                                 Ok {| en_server := sv; en_closed := false; en_context := id; en_fraction := fraction;
                                       en_dashboard := dash;
                                       en_refresh_spawned := runtime && bool_decide (is_Some (refresh_worker (sv_app sv))) |}
                             end
                         end
                     end
                 end)
        end
    end.
End Build.

(** ** Operations *)

Definition put_en_app (a : AppState Backends) (e : Engine) : Engine :=
  {| en_server := {| sv_app := a; sv_single := sv_single (en_server e); sv_audit := sv_audit (en_server e);
                     sv_queue := sv_queue (en_server e); sv_batch := sv_batch (en_server e);
                     sv_federated := sv_federated (en_server e); sv_start_time := sv_start_time (en_server e);
                     sv_level := sv_level (en_server e); sv_agents := sv_agents (en_server e);
                     sv_peer := sv_peer (en_server e); sv_permits := sv_permits (en_server e) |};
     en_closed := en_closed e; en_context := en_context e; en_fraction := en_fraction e; en_dashboard := en_dashboard e;
     en_refresh_spawned := en_refresh_spawned e |}.
Definition en_app (e : Engine) : AppState Backends := sv_app (en_server e).

Section Operations.
Context `{E : CacheEnv} `{SE : StatsEnv} `{CE : ContextEnv} `{D : Dispatcher Backends} `{FP : FloatPow}.

(** The request that a call makes; [n] is the number that [next_request_id] gives. *)
Definition engine_call (n : Z) (q : str) (o : QueryOpts) (e : Engine) : QueryCall :=
  {| qc_request := {| query := q; top_k := qo_top_k o; rq_priority := None; rq_upstream_id := None; upstream_type := None |};
     qc_context := default (en_context e) (qo_context o); qc_request_id := lit "eng-" ++ show_Z n; qc_agent := None;
     qc_source := lit "engine"; qc_skip_cache := qo_skip_cache o |}.
Definition engine_reply (r : QueryResult) : result QueryResponse EngineError :=
  if negb (qr_status r =? 200) then Err (EngQuery (qr_status r)) else Ok (into_query_response (qr_response r)).
Definition engine_query (start : Z) (clk clk' : Clock) (n : Z) (q : str) (o : QueryOpts) (e : Engine)
  : option (outcome (result QueryResponse EngineError * option BgTask * Engine)) :=
  if en_closed e then Some (Ret (Err EngClosed, None, e))
  else match execute_query start clk clk' (engine_call n q o e) (en_app e) with
       | Some (Ret (r, bg, a)) => Some (Ret (engine_reply r, bg, put_en_app a e))
       | Some Panic => Some Panic
       | None => None
       end.
Definition engine_clear (clk : Clock) (e : Engine) : Engine := put_en_app (on_cache (clear clk) (en_app e)) e.
Definition engine_stats (clk : Clock) (e : Engine) : outcome EngineStats :=
  let m := st_metrics (en_app e) in
  let! cs := stats clk (st_cache (en_app e)) in
  Ret {| eg_hits := pm_count m cache_hits; eg_misses := pm_count m cache_misses; eg_size := cs_total cs;
         eg_evictions := pm_count m evictions |}.
Definition engine_close (e : Engine) : Engine :=
  {| en_server := en_server e; en_closed := true; en_context := en_context e; en_fraction := en_fraction e;
     en_dashboard := en_dashboard e; en_refresh_spawned := en_refresh_spawned e |}.

(** Whether the worker is started by this call. *)
Definition spawn_refresh (runtime : bool) (e : Engine) : bool * Engine :=
  if en_refresh_spawned e then (false, e)
  else (runtime && bool_decide (is_Some (refresh_worker (en_app e))),
        {| en_server := en_server e; en_closed := en_closed e; en_context := en_context e; en_fraction := en_fraction e;
           en_dashboard := en_dashboard e; en_refresh_spawned := true |}).

(** One round of [memory_ticker]: the limit it last set, and the cache. *)
Definition memory_tick (fraction : f64) (budget current : Z) (s : CacheStore) : Z * CacheStore :=
  let cap := dynamic_cap fraction budget in
  let threshold := current / 20 in
  if negb (cap =? current) && (threshold <? Z.abs (cap - current)) then
    (cap, snd (enforce_memory_limit (set_max_memory_bytes cap s)))
  else (current, s).
Fixpoint memory_ticks (fraction : f64) (budgets : list Z) (current : Z) (s : CacheStore) : Z * CacheStore :=
  match budgets with
  | [] => (current, s)
  | b :: bs => let '(current, s) := memory_tick fraction b current s in memory_ticks fraction bs current s
  end.
End Operations.

(** ** Properties *)

(** *** Sizes of memory *)

Lemma parse_digits_show d : forall acc, Forall (fun c => is_ascii_digit c = true) d ->
  0 <= acc -> fold_left (fun a c => a * 10 + (c - 48)) d acc <= usize_max ->
  parse_digits acc d = Some (fold_left (fun a c => a * 10 + (c - 48)) d acc).
Proof.
  induction d as [|c d IH]; intros acc Hd Ha Hm; [done|]. inversion_clear Hd as [|? ? Hc Hd']. simpl in *. rewrite Hc.
  replace (10 * acc + (c - 48)) with (acc * 10 + (c - 48)) by lia.
  assert (Hpos : 0 <= acc * 10 + (c - 48)) by (unfold is_ascii_digit in Hc; reflect_Z; lia).
  assert (Hge : forall d a, Forall (fun c => is_ascii_digit c = true) d -> 0 <= a -> a <= fold_left (fun a c => a * 10 + (c - 48)) d a).
  { clear. intros d. induction d as [|c d IH]; intros a Hd Ha; [done|]. inversion_clear Hd as [|? ? Hc Hd']. simpl.
    unfold is_ascii_digit in Hc. reflect_Z. etransitivity; [|apply IH; [done|lia]]. lia. }
  specialize (Hge d _ Hd' Hpos). destruct (Z.ltb_spec usize_max (acc * 10 + (c - 48))); [lia|]. by apply IH.
Qed.

Lemma digits_aux_digits fuel : forall n acc, 0 <= n -> Forall (fun c => is_ascii_digit c = true) acc ->
  Forall (fun c => is_ascii_digit c = true) (digits_aux fuel n acc).
Proof.
  induction fuel as [|fuel IH]; intros n acc Hn Ha; [done|]. simpl. pose proof (Z.mod_pos_bound n 10).
  assert (Hc : Forall (fun c => is_ascii_digit c = true) ((48 + n mod 10) :: acc)).
  { constructor; [|done]. unfold is_ascii_digit. apply andb_true_iff. split; apply Z.leb_le; lia. }
  destruct (n <? 10); [done|]. apply IH; [apply Z.div_pos; lia|done].
Qed.
Lemma show_Z_digits n : 0 <= n < 10 ^ 20 ->
  exists c d, show_Z n = c :: d /\ Forall (fun c => is_ascii_digit c = true) (c :: d) /\
    fold_left (fun a c => a * 10 + (c - 48)) (c :: d) 0 = n.
Proof.
  intros Hn. pose proof (digits_aux_digits 20 n [] (proj1 Hn) (Forall_nil_2 _)) as Hd.
  destruct (digits_aux_value 20 n Hn) as (d & Hda & Hv). fold (show_Z n) in Hd.
  assert (Hs : show_Z n = d) by (unfold show_Z; by rewrite Hda, app_nil_r). rewrite Hs in *.
  destruct d as [|c d]; [|by exists c, d].
  exfalso. pose proof (f_equal (@length char) (Hda [])) as Hl. rewrite app_nil_r in Hl. cbn [length] in Hl.
  assert (Hne : forall fuel n acc, (length acc <= length (digits_aux fuel n acc))%nat).
  { clear. intros fuel. induction fuel as [|fuel IH]; intros n acc; [done|]. simpl.
    destruct (n <? 10); simpl; [lia|]. etransitivity; [|apply IH]. simpl. lia. }
  change (digits_aux 20 n []) with (if n <? 10 then [48 + n mod 10] else digits_aux 19 (n / 10) [48 + n mod 10]) in Hl.
  destruct (n <? 10); [done|]. specialize (Hne 19%nat (n / 10) [48 + n mod 10]). cbn [length] in Hne. rewrite Hl in Hne. lia.
Qed.
Lemma trim_no_ws s : Forall (fun c => is_whitespace c = false) s -> trim s = s.
Proof.
  intros Hs. apply trim_id; intros c Hc; rewrite Forall_forall in Hs; apply Hs.
  - destruct s; [done|]. injection Hc as ->. left.
  - by apply last_Some_elem_of.
Qed.
Lemma digit_cases (P : char -> Prop) c : is_ascii_digit c = true ->
  P 48 -> P 49 -> P 50 -> P 51 -> P 52 -> P 53 -> P 54 -> P 55 -> P 56 -> P 57 -> P c.
Proof.
  unfold is_ascii_digit. intros [Hc1 Hc2]%andb_true_iff. reflect_Z.
  assert (c = 48 \/ c = 49 \/ c = 50 \/ c = 51 \/ c = 52 \/ c = 53 \/ c = 54 \/ c = 55 \/ c = 56 \/ c = 57) as Hc by lia.
  intros. by repeat (destruct Hc as [->|Hc]; [done|]); subst.
Qed.
Lemma digit_not_ws c : is_ascii_digit c = true -> is_whitespace c = false /\ to_ascii_lowercase_char c = c.
Proof. intros Hc. by apply (digit_cases (fun c => is_whitespace c = false /\ to_ascii_lowercase_char c = c) c Hc). Qed.
Lemma parse_plain_digits c s : is_ascii_digit c = true -> parse_usize (c :: s) = parse_digits 0 (c :: s).
Proof. intros Hc. by apply (digit_cases (fun c => parse_usize (c :: s) = parse_digits 0 (c :: s)) c Hc). Qed.
Lemma parse_digits_stop d x r : is_ascii_digit x = false -> forall acc, parse_digits acc (d ++ x :: r) = None.
Proof.
  intros Hx. induction d as [|c d IH]; intros acc; simpl; [by rewrite Hx|].
  destruct (is_ascii_digit c); [|done]. destruct (_ <? _); [done|apply IH].
Qed.
Lemma strip_suffix_app s p : strip_suffix p (s ++ p) = Some s.
Proof.
  unfold strip_suffix, strip_prefix. rewrite rev_app_distr.
  assert (Hs : forall p s, starts_with (p ++ s) p = true).
  { clear. intros p. induction p as [|c p IH]; intros s; [by destruct s|]. simpl. by rewrite Z.eqb_refl, IH. }
  rewrite Hs, drop_app_length. simpl. by rewrite rev_involutive.
Qed.

Lemma strip_suffix_differs s a b x y : a <> b -> strip_suffix [a; x; y] (s ++ [b; x; y]) = None.
Proof.
  intros Hab. unfold strip_suffix, strip_prefix. rewrite rev_app_distr. simpl. rewrite !Z.eqb_refl. simpl.
  destruct (Z.eqb_spec a b); [done|]. done.
Qed.

(** A size is read as written: plain bytes, or binary multiples in any case, the
    multiplication saturating. *)
Theorem memory_sizes_parsed (n : Z) (unit : str) (Hn : 0 <= n <= u_max 64) :
  parse_memory (show_Z n) = Ok n /\
  (to_ascii_lowercase unit = lit "kib" -> parse_memory (show_Z n ++ unit) = Ok (sat_mul 64 n 1024)) /\
  (to_ascii_lowercase unit = lit "mib" -> parse_memory (show_Z n ++ unit) = Ok (sat_mul 64 n (1024 * 1024))) /\
  (to_ascii_lowercase unit = lit "gib" -> parse_memory (show_Z n ++ unit) = Ok (sat_mul 64 n (1024 * 1024 * 1024))).
Proof.
  assert (0 <= n < 10 ^ 20) as Hn' by (unfold u_max in Hn; lia).
  destruct (show_Z_digits n Hn') as (c & d & Hs & Hd & Hv). rewrite Hs.
  assert (Hp : parse_usize (c :: d) = Some n).
  { rewrite parse_plain_digits by (by inversion_clear Hd). rewrite parse_digits_show; [by rewrite Hv|done|done|].
    rewrite Hv. apply Hn. }
  assert (Hws : Forall (fun c => is_whitespace c = false) (c :: d)) by (eapply Forall_impl; [exact Hd|apply digit_not_ws]).
  assert (Hlow : to_ascii_lowercase (c :: d) = c :: d).
  { clear -Hd. unfold to_ascii_lowercase. induction Hd as [|x l Hx _ IH]; [done|]. simpl. rewrite IH. f_equal. by apply digit_not_ws. }
  split; [unfold parse_memory; by rewrite (trim_no_ws _ Hws), Hp|].
  assert (Hu : forall x, to_ascii_lowercase unit = x -> Forall (fun c => is_whitespace c = false) x ->
      (exists y l, x = y :: l /\ is_ascii_digit y = false) ->
      trim ((c :: d) ++ unit) = (c :: d) ++ unit /\ parse_usize ((c :: d) ++ unit) = None /\
      to_ascii_lowercase ((c :: d) ++ unit) = (c :: d) ++ x).
  { intros x <- Hx (y & l & Hy & Hny). split; [|split].
    - apply trim_no_ws. apply Forall_app. split; [done|]. clear -Hx. unfold to_ascii_lowercase in Hx. induction unit as [|z u IH]; [done|].
      simpl in Hx. inversion_clear Hx as [|? ? Hz Hr]. constructor; [by rewrite <- to_ascii_lowercase_char_ws|by apply IH].
    - destruct unit as [|z u]; [done|]. simpl in Hy. injection Hy as Hz _. change ((c :: d) ++ z :: u) with (c :: (d ++ z :: u)).
      rewrite parse_plain_digits by (by inversion_clear Hd). change (c :: d ++ z :: u) with ((c :: d) ++ z :: u).
      apply parse_digits_stop. destruct (is_ascii_digit z) eqn:Ez; [|done].
      rewrite (proj2 (digit_not_ws z Ez)) in Hz. congruence.
    - unfold to_ascii_lowercase in *. rewrite map_app. by rewrite Hlow. }
  unfold parse_memory. split_and!; intros Hl; destruct (Hu _ Hl) as (-> & -> & ->).
  1, 4, 7: by repeat constructor.
  1, 3, 5: by eexists _, _.
  all: change (lit "gib") with [103; 105; 98]; change (lit "mib") with [109; 105; 98]; change (lit "kib") with [107; 105; 98].
  all: cbv zeta; rewrite ?strip_suffix_differs by done; rewrite strip_suffix_app, (trim_no_ws _ Hws), Hp; done.
Qed.

(** *** The budget of the container *)

Lemma walk_up_eq fs rdir :
  walk_up fs rdir = match limit_at fs (rev rdir) with
                    | Some v => Some v
                    | None => if bool_decide (rev rdir = cgroup_root) then None
                              else match rdir with [] => None | _ :: rdir => walk_up fs rdir end
                    end.
Proof. by destruct rdir. Qed.

(** The walk finds the limit of the nearest directory that has one: at the
    directory of the process or above it, not above the root of the hierarchy. *)
Theorem budget_nearest (fs : list str -> option str) (p : list str) (v : Z) :
  walk_up fs (rev (cgroup_root ++ p)) = Some v <->
  exists k, (k <= length p)%nat /\ limit_at fs (cgroup_root ++ take k p) = Some v /\
    forall j, (k < j <= length p)%nat -> limit_at fs (cgroup_root ++ take j p) = None.
Proof.
  induction p as [|x p IH] using rev_ind; rewrite walk_up_eq, rev_involutive.
  - rewrite app_nil_r, bool_decide_true by done. split.
    + intros Hw. exists 0%nat. split; [done|]. rewrite take_nil, app_nil_r.
      split; [by destruct (limit_at _ _)|simpl; lia].
    + intros (k & _ & Hl & _). rewrite take_nil, app_nil_r in Hl. by rewrite Hl.
  - rewrite bool_decide_false by (intros Hc; apply (f_equal (@length str)) in Hc; rewrite !length_app in Hc; simpl in Hc; lia).
    rewrite app_assoc, rev_app_distr. simpl rev at 2. cbn [List.app].
    assert (Hk : forall k, (k <= length p)%nat -> take k (p ++ [x]) = take k p) by (intros k Hk; by apply take_app_le).
    assert (Hfull : take (S (length p)) (p ++ [x]) = p ++ [x]) by (apply take_ge; rewrite length_app; simpl; lia).
    rewrite length_app. simpl length. destruct (limit_at fs ((cgroup_root ++ p) ++ [x])) as [w|] eqn:Ew.
    + split.
      * intros [= ->]. exists (length p + 1)%nat. split; [lia|]. split; [|lia].
        replace (length p + 1)%nat with (S (length p)) by lia. by rewrite Hfull, app_assoc.
      * intros (k & Hle & Hl & Hn). destruct (decide (k = (length p + 1)%nat)) as [->|Hne].
        -- replace (length p + 1)%nat with (S (length p)) in Hl by lia. rewrite Hfull, app_assoc, Ew in Hl. done.
        -- specialize (Hn (S (length p))). rewrite Hfull, app_assoc, Ew in Hn. discriminate Hn. lia.
    + rewrite IH. split; intros (k & Hle & Hl & Hn); exists k.
      * split; [lia|]. split; [by rewrite Hk by lia|]. intros j Hj. destruct (decide (j = S (length p))) as [->|Hne].
        -- by rewrite Hfull, app_assoc.
        -- rewrite Hk by lia. apply Hn. lia.
      * destruct (decide (k = S (length p))) as [->|Hne]; [by rewrite Hfull, app_assoc, Ew in Hl|].
        rewrite Hk in Hl by lia. split; [lia|]. split; [done|]. intros j Hj. rewrite <- (Hk j) by lia. apply Hn. lia.
Qed.

(** *** The ticker and the builder *)

Section Built.
Context {O : MapOrder} `{E : CacheEnv} {L : CacheEnvLaws E} `{CE : ContextEnv} {CL : ContextEnvLaws CE}.

Lemma set_memory_inv N n s : inv N s -> inv N (set_max_memory_bytes n s).
Proof. intros Hi. by apply (inv_ext N s). Qed.

(** What one round leaves: the limit in force, and what of the cache survived. *)
Record tracks (N : Z) (fraction : f64) (b : Z) (s : CacheStore) (r : Z * CacheStore) : Prop := {
  tk_inv : inv N r.2;
  tk_limit : max_memory_bytes r.2 = r.1;
  tk_floor : DYNAMIC_CAP_FLOOR_BYTES <= r.1;
  tk_close : Z.abs (dynamic_cap fraction b - r.1) <= r.1 / 20;
  tk_lossy : lossy s r.2
}.
Lemma memory_tick_spec N fraction b current s : inv N s ->
  (current = 0 \/ max_memory_bytes s = current /\ DYNAMIC_CAP_FLOOR_BYTES <= current) ->
  tracks N fraction b s (memory_tick fraction b current s).
Proof.
  intros Hi Hc. assert (Hf : DYNAMIC_CAP_FLOOR_BYTES <= dynamic_cap fraction b) by (unfold dynamic_cap; lia).
  unfold memory_tick. set (cap := dynamic_cap fraction b) in *. assert (0 < DYNAMIC_CAP_FLOOR_BYTES) as Hp by done.
  destruct (negb (cap =? current) && (current / 20 <? Z.abs (cap - current))) eqn:Et.
  - pose proof (set_memory_inv N cap s Hi) as Hi'. destruct (enforce_memory_limit_exit (set_max_memory_bytes cap s)) as (_ & Hm & _); [apply Hi'|simpl; lia|].
    split; simpl.
    + by apply inv_enforce_memory_limit.
    + exact Hm.
    + done.
    + unfold cap. rewrite Z.sub_diag. simpl. apply Z.div_pos; lia.
    + exact (op_lossy_spec N OEnforceMemoryLimit _ _ Hi' eq_refl eq_refl).
  - destruct Hc as [->|[Hm Hfl]].
    { exfalso. destruct (Z.eqb_spec cap 0); [lia|]. simpl in Et. change (0 / 20) with 0 in Et. reflect_Z. lia. }
    split; simpl; try done; [|apply lossy_refl].
    apply andb_false_iff in Et as [Et|Et]; [|by reflect_Z].
    apply negb_false_iff, Z.eqb_eq in Et. fold cap. replace (cap - current) with 0 by lia. simpl. apply Z.div_pos; lia.
Qed.

(** Whatever the budgets that the ticker reads, the limit in force after a reading is
    that of the cache, at least 16 MiB, within five per cent of the fraction of the
    last budget; the cache keeps its invariant and loses entries only. *)
Theorem memory_ticks_track N fraction bs b s (Hi : inv N s) :
  tracks N fraction b s (memory_ticks fraction (bs ++ [b]) 0 s).
Proof.
  enough (Hg : forall bs current s, inv N s ->
    (current = 0 \/ max_memory_bytes s = current /\ DYNAMIC_CAP_FLOOR_BYTES <= current) ->
    tracks N fraction b s (memory_ticks fraction (bs ++ [b]) current s)) by (apply Hg; auto).
  clear bs s Hi. intros bs. induction bs as [|b' bs IH]; intros current s Hi Hc; simpl.
  - pose proof (memory_tick_spec N fraction b current s Hi Hc) as Ht. by destruct (memory_tick _ _ _ _).
  - pose proof (memory_tick_spec N fraction b' current s Hi Hc) as [T1 T2 T3 _ T5]. destruct (memory_tick _ _ _ _) as [c1 s1].
    simpl in *. destruct (IH c1 s1 T1 (or_intror (conj T2 T3))) as [U1 U2 U3 U4 U5]. split; try done. by eapply lossy_trans.
Qed.

(** No context of a manager has a policy of its own. *)
Definition no_policy (m : ContextManager) : Prop := forall k c, active m !! k = Some c -> policy c = None.
Lemma no_policy_filter m k : no_policy m -> context_scope_filter k m = None.
Proof. intros Hn. unfold context_scope_filter. destruct (active m !! k) eqn:Ek; [|done]. by rewrite (Hn _ _ Ek). Qed.
Lemma no_policy_create clk id url col m : no_policy m -> no_policy (ctx_create clk id url col m).2.
Proof.
  intros Hn. unfold ctx_create. case_decide; [done|]. intros k c. simpl. rewrite lookup_insert_Some. naive_solver.
Qed.
Lemma no_policy_switch clk id m : 0 <= max_active_contexts (cm_config m) -> ctx_inv m -> is_Some (active m !! id) -> no_policy m ->
  no_policy (switch clk id m).2.
Proof.
  intros Hx [_ Hd] Hs Hn. unfold switch. rewrite decide_True by done. simpl. set (m1 := put_current _ id).
  assert (Hi : ctx_inv m1) by (split; simpl; by rewrite lookup_alter_is_Some).
  destruct (maybe_evict_spec m1 Hx Hi) as (_ & _ & _ & Hsub & _).
  intros k c Hk. apply (lookup_weaken _ _ _ _ Hk) in Hsub. unfold m1 in Hsub. simpl in Hsub.
  rewrite lookup_alter_Some in Hsub. destruct Hsub as [(-> & c0 & H0 & ->)|[_ H0]]; simpl; eauto.
Qed.
Lemma engine_contexts_ok clk id m m' : engine_contexts clk id m = Ok m' -> ctx_inv m -> no_policy m ->
  0 <= max_active_contexts (cm_config m) -> ctx_inv m' /\ current m' = id /\ no_policy m'.
Proof.
  unfold engine_contexts. intros He Hi Hn Hx. pose proof (no_policy_create clk id [] [] m Hn) as Hn1.
  pose proof (ctx_apply_ok (XCreate clk id [] []) m Hx Hi) as [Hi1 Hc1]. simpl in Hi1, Hc1.
  assert (Hs : is_Some (active (ctx_create clk id [] [] m).2 !! id)).
  { unfold ctx_create. case_decide; [done|]. simpl. rewrite lookup_insert_eq. by eexists. }
  destruct (ctx_create clk id [] [] m) as [r m1]. simpl in *.
  assert (Hx1 : 0 <= max_active_contexts (cm_config m1)) by (by rewrite Hc1).
  assert (Hgo : match switch clk id m1 with (Ok _, m) => Ok m | (Err e, _) => Err (EngContext e) end = Ok m') by (by destruct r as [|[]]).
  pose proof (switch_ok clk id m1 Hx1 Hi1) as Hsw. pose proof (no_policy_switch clk id m1 Hx1 Hi1 Hs Hn1) as Hnp.
  destruct (switch clk id m1) as [[u|e] m2]; [|done]. injection Hgo as <-. naive_solver.
Qed.

Context `{C : Clients} (build_adapter : str -> Z -> result unit str) (env : str -> option str) (pid : Z).
Context {D : Type} `{R : Redb D} `{J : JsonCodec PersistedEntry} (open_database : option (str -> result D str)).
Context (bind : str -> result str str) (runtime : bool).

Lemma knobs_plain clk budget b s r : eb_persist b = None -> apply_knobs open_database clk budget b s = Ok r ->
  entries r.2 = entries s /\ s3fifo r.2 = s3fifo s /\ total_memory_bytes r.2 = total_memory_bytes s /\
  max_entries r.2 = default (max_entries s) (eb_max_entries b) /\
  max_memory_bytes r.2 = match eb_max_memory b with
                         | Some m => m
                         | None => dynamic_cap (default DEFAULT_MEMORY_FRACTION (eb_fraction b)) budget
                         end /\
  fresh_duration r.2 = default (from_secs DEFAULT_TTL_SECS) (eb_ttl b) /\
  stale_duration r.2 = default (from_secs DEFAULT_STALE_TTL_SECS) (eb_stale_ttl b).
Proof.
  unfold apply_knobs, set_max_entries. intros ->. destruct (eb_max_entries b) as [n|]; [destruct (n =? 0); [done|]|];
    destruct (eb_max_memory b); intros [= <-]; simpl; split_and!; done.
Qed.

Lemma new_proxy_fields clk px p : CacheProxy_new build_adapter env pid clk px = Ret (Ok p) ->
  xp_cache p = (build_cache_store env pid px).1 /\ xp_contexts p = ContextManager_new clk ContextConfig_default /\
  xp_coalescer p = RequestCoalescer_new /\ xp_metrics p = ProxyMetrics_new.
Proof.
  unfold CacheProxy_new. destruct (build_cache_store env pid px) as [cache cdc].
  destruct (start_upstreams _ px) as [[[single pool]|]|]; simpl; try done. by intros [= <-].
Qed.
Lemma engine_contexts_total clk id m : ctx_inv m -> exists m', engine_contexts clk id m = Ok m'.
Proof.
  intros Hi. unfold engine_contexts, ctx_create. case_decide as Hs.
  - unfold switch. rewrite decide_True by done. by eexists.
  - unfold switch. rewrite decide_True; [by eexists|]. simpl. rewrite lookup_insert_eq. by eexists.
Qed.
Lemma knobs_total clk budget b s : eb_persist b = None -> eb_max_entries b <> Some 0 ->
  exists r, apply_knobs open_database clk budget b s = Ok r.
Proof.
  unfold apply_knobs, set_max_entries. intros -> Hn.
  destruct (eb_max_entries b) as [n|]; [destruct (Z.eqb_spec n 0); [congruence|]|]; destruct (eb_max_memory b); by eexists.
Qed.

(** An engine without a database is built whenever the proxy is, its maximum is not
    zero and the address of the dashboard can be bound.  It starts empty, with the
    memory limit and the lifetimes of the builder and its own context current; the
    maximum of the builder is what the cache reports, but the room of its queues is
    that of the configuration; and no context has the policy of the configuration. *)
Theorem engine_build_exact clk budget c b px p
  (Hpx : engine_settings c = Ok px) (Hmax : 0 < px_max px < usize_max) (Hb : eb_config b = true) (Hd : eb_persist b = None)
  (Hz : eb_max_entries b <> Some 0) (Hl : forall addr, eb_dashboard b = Some addr -> exists a, bind addr = Ok a)
  (Hp : CacheProxy_new build_adapter env pid clk px = Ret (Ok p)) :
  exists e, engine_build build_adapter env pid open_database bind runtime clk budget (Ok c) b = Ret (Ok e) /\
    let cache := st_cache (en_app e) in
    fresh_app (px_max px) (en_app e) /\ max_entries cache = default (px_max px) (eb_max_entries b) /\
    max_memory_bytes cache = match eb_max_memory b with
                             | Some m => m
                             | None => dynamic_cap (default DEFAULT_MEMORY_FRACTION (eb_fraction b)) budget
                             end /\
    fresh_duration cache = default (from_secs DEFAULT_TTL_SECS) (eb_ttl b) /\
    stale_duration cache = default (from_secs DEFAULT_STALE_TTL_SECS) (eb_stale_ttl b) /\
    ctx_inv (context_manager (en_app e)) /\ current (context_manager (en_app e)) = default (lit "global") (eb_context b) /\
    forall k, context_scope_filter k (context_manager (en_app e)) = None.
Proof.
  destruct (new_proxy_fields clk px p Hp) as (P1 & P2 & P3 & P4).
  destruct (cache_store_built env pid px) as (C1 & C2 & C3 & _); [lia|lia|]. rewrite <- P1 in *.
  destruct (knobs_total clk budget b (xp_cache p) Hd Hz) as ([fr cache] & Hk).
  destruct (knobs_plain clk budget b _ _ Hd Hk) as (K1 & K2 & K3 & K4 & K5 & K6 & K7). simpl in *.
  assert (Hi : ctx_inv (xp_contexts p)) by (rewrite P2; split; by eexists; apply lookup_singleton_eq).
  set (id := default (lit "global") (eb_context b)).
  destruct (engine_contexts_total clk id (xp_contexts p) Hi) as [m Hm].
  destruct (engine_contexts_ok clk id _ _ Hm Hi) as (M1 & M2 & M3); [|by rewrite P2|].
  { rewrite P2. intros k cx Hc. simpl in Hc. apply lookup_singleton_Some in Hc as [_ <-]. done. }
  assert (Hdash : exists d, match eb_dashboard b with
      | Some addr => match bind addr with Ok a => Ok (Some a) | Err e => Err (EngDashboard e) end | None => Ok None end = Ok d).
  { destruct (eb_dashboard b) as [addr|]; [|by eexists]. destruct (Hl addr eq_refl) as [a ->]. by eexists. }
  destruct Hdash as [dash Hdash].
  unfold engine_build. rewrite Hb, Hpx, Hp. simpl. rewrite Hk. unfold id in Hm. simpl in Hm. rewrite Hm, Hdash. eexists. split; [done|].
  simpl. rewrite K4, C3. split_and!; try done; [|by intros k; apply no_policy_filter].
  split; simpl; [by eapply inv_ext; [..|exact C1]|congruence|done|rewrite P4; apply balanced_new].
Qed.
End Built.

(** ** Examples *)

#[local] Existing Instance DemoEnv.
#[local] Existing Instance ListedOrder.
#[local] Existing Instance NativeClients.

Lemma memory_sizes_parsed_witness : parse_memory (lit "256MiB") = Ok 268435456 /\ parse_memory (lit "99999999999GiB") = Ok (u_max 64).
Proof.
  destruct (memory_sizes_parsed 256 (lit "MiB") ltac:(split; vm_compute; discriminate)) as (_ & _ & H1 & _).
  destruct (memory_sizes_parsed 99999999999 (lit "GiB") ltac:(split; vm_compute; discriminate)) as (_ & _ & _ & H2).
  split; [exact (H1 eq_refl)|exact (H2 eq_refl)].
Defined.

Lemma memory_ticks_track_witness :
  (memory_ticks (F64.lit 1 2) [100000000; 100000000; 104000000] 0 demo_init).1 = 50000000 /\
  Z.abs (dynamic_cap (F64.lit 1 2) 104000000 - 50000000) <= 2500000.
Proof.
  pose proof (memory_ticks_track 2 (F64.lit 1 2) [100000000; 100000000] 104000000 demo_init
    ltac:(apply inv_init; vm_compute; split; [discriminate|reflexivity])) as [_ _ _ H _].
  assert (E : (memory_ticks (F64.lit 1 2) ([100000000; 100000000] ++ [104000000]) 0 demo_init).1 = 50000000) by (vm_compute; reflexivity).
  rewrite E in H. split; [exact E|exact H].
Defined.

#[local] Instance NoCodec : JsonCodec PersistedEntry := {| to_vec := fun _ => Err (lit "-"); from_slice := fun _ => Err (lit "-") |}.

(** The legacy configuration of one upstream. *)
Definition plain_file : ConfigFile :=
  with_contexts None (put_upstreams ProxySettings_default [] (Some (lit "http://es"))) ∅ ∅.
Definition demo_builder : EngineBuilder :=
  {| eb_config := true; eb_persist := None; eb_ttl := None; eb_stale_ttl := None; eb_context := None; eb_max_entries := Some 1;
     eb_max_memory := Some 1000000; eb_fraction := Some (F64.lit 1 2); eb_dashboard := None |}.
Definition demo_engine : option Engine :=
  match engine_build (fun _ _ => Ok tt) (fun _ => None) 7 (D := tables) None (fun a => Ok a) true demo_clock 0 (Ok plain_file) demo_builder with
  | Ret (Ok e) => Some e | _ => None end.

(** The engine reports a maximum of one entry and keeps two. *)
Definition demo_filled (e : Engine) : CacheStore :=
  insert demo_clock (lit "b") (demo_response "b") (lit "up") (insert demo_clock (lit "a") (demo_response "a") (lit "up") (st_cache (en_app e))).
Lemma engine_build_exact_witness :
  exists e, demo_engine = Some e /\ fresh_app 10000 (en_app e) /\ max_entries (st_cache (en_app e)) = 1 /\
    max_memory_bytes (st_cache (en_app e)) = 1000000 /\ current (context_manager (en_app e)) = lit "global" /\
    size (entries (demo_filled e)) = 2%nat.
Proof.
  set (px := (normalize_upstreams (cf_proxy plain_file)).2).
  destruct (CacheProxy_new (fun _ _ => Ok tt) (fun _ => None) 7 demo_clock px) as [[p|]|] eqn:Hp; [|by vm_compute in Hp..].
  pose proof (engine_build_exact (fun _ _ => Ok tt) (fun _ => None) 7 (D := tables) None (fun a => Ok a) true demo_clock 0 plain_file
    demo_builder px p) as H.
  destruct H as (e & He & H1 & H2 & H3 & _ & _ & _ & H4 & _).
  - vm_compute. reflexivity.
  - split; vm_compute; reflexivity.
  - reflexivity.
  - reflexivity.
  - discriminate.
  - intros addr Ha. discriminate Ha.
  - exact Hp.
  - exists e. unfold demo_engine. rewrite He. split; [reflexivity|]. split; [exact H1|]. split; [exact H2|].
    split; [exact H3|]. split; [exact H4|]. vm_compute in He. injection He as <-. vm_compute. reflexivity.
Defined.

(** A call before the runtime runs marks the worker as started, so that it never is. *)
Lemma refresh_never_started e : en_refresh_spawned e = false ->
  let '(started1, e1) := spawn_refresh false e in started1 = false /\ (spawn_refresh true e1).1 = false.
Proof. intros He. unfold spawn_refresh. rewrite He. by split. Qed.

(** A fraction is documented to override a fixed limit; the fixed limit wins. *)
Lemma fixed_limit_wins : eb_fraction demo_builder <> None /\
  exists e, demo_engine = Some e /\ max_memory_bytes (st_cache (en_app e)) = 1000000 /\ en_fraction e = None.
Proof. split; [discriminate|]. eexists. vm_compute. split; [reflexivity|]. split; reflexivity. Qed.
