(* ===== verification/TuneSession.v ===== *)
(** * Tuning sessions (src/src/proxy/tune/session.rs, tune/apply.rs)

    A session belongs to an agent and a context and collects the runs of the tuning
    tools; the winning run is exported as the scope section of the context and can be
    written to the configuration.  The store is one record behind a lock; the two
    clocks are arguments, and the texts of errors are constructors. *)

From Stdlib Require Import SpecFloat.
From S2P Require Import Prelude Floats Text Types Retry Upstream Scope Settings Vendors Config Grpc GrpcServices Engine.
Open Scope Z_scope.
Open Scope conproxy_scope.

Definition DEFAULT_SESSION_TTL_SECS : Z := 3600.

Record TuneRunRecord := {
  tr_run_id : str; tr_tool : str; tr_params : Value; tr_metrics : Value; tr_selected : bool
}.
Record TuneSession := {
  ts_session_id : str; ts_agent_id : str; ts_context_id : str; ts_created_at_ms : Z; ts_last_touch : Z;
  ts_runs : list TuneRunRecord
}.
Record TuneSessionSummary := {
  sm_session_id : str; sm_agent_id : str; sm_context_id : str; sm_run_count : Z; sm_created_at_ms : Z
}.
Record TuneExportFormats := { fmt_toml : str; fmt_json : Value }.
Record TuneExportArtifact := {
  ex_session_id : str; ex_agent_id : str; ex_context_id : str; ex_scope : Value; ex_other : Value;
  ex_formats : TuneExportFormats; ex_source_run_id : option str
}.
Record SessionStore := { st_sessions : gmap str TuneSession; st_ttl : Z; st_next_id : Z }.

Inductive SessionError :=
| UnknownSession (session_id : str)
| AgentMismatch (session_id expected got : str)
| ContextMismatch (session_id expected got : str).

(** What a tool reports; the texts of [open], [append_run] and [select_run] are those of
    a [SessionError]. *)
Inductive TuneError :=
| OfSession (e : SessionError) | SessionNotFound | NoRuns | UnknownRun (run_id : str)
| EmptyInput | SweepTooLong (points max : Z) | ExecuteRejected
| LoadFailed (path : option str) | BadScopeJson (m : str) | SaveFailed (path : option str).

Definition put_selected (b : bool) (r : TuneRunRecord) : TuneRunRecord :=
  {| tr_run_id := tr_run_id r; tr_tool := tr_tool r; tr_params := tr_params r; tr_metrics := tr_metrics r;
     tr_selected := b |}.
Definition put_runs (l : list TuneRunRecord) (s : TuneSession) : TuneSession :=
  {| ts_session_id := ts_session_id s; ts_agent_id := ts_agent_id s; ts_context_id := ts_context_id s;
     ts_created_at_ms := ts_created_at_ms s; ts_last_touch := ts_last_touch s; ts_runs := l |}.
Definition touch_session (now : Z) (s : TuneSession) : TuneSession :=
  {| ts_session_id := ts_session_id s; ts_agent_id := ts_agent_id s; ts_context_id := ts_context_id s;
     ts_created_at_ms := ts_created_at_ms s; ts_last_touch := now; ts_runs := ts_runs s |}.
Definition put_session (id : str) (s : TuneSession) (st : SessionStore) : SessionStore :=
  {| st_sessions := <[id := s]> (st_sessions st); st_ttl := st_ttl st; st_next_id := st_next_id st |}.

(** [format!("{nanos:x}")] of a 128-bit number. *)
Definition show_hex (n : Z) : str := hex_aux 32 n [].

(** [new_id]: the time and a counter; [wall] is in nanoseconds since the epoch. *)
Definition new_id (prefix : str) (wall counter : Z) : str * Z :=
  (prefix ++ lit "-" ++ show_hex wall ++ lit "-" ++ show_Z counter, wrap 64 (counter + 1)).

Definition TuneSessionStore_new (ttl_secs : Z) : SessionStore :=
  {| st_sessions := ∅; st_ttl := from_secs (Z.max ttl_secs 1); st_next_id := 1 |}.
Definition TuneSessionStore_default : SessionStore := TuneSessionStore_new DEFAULT_SESSION_TTL_SECS.

Definition alive (now ttl : Z) (s : TuneSession) : bool := elapsed now (ts_last_touch s) <? ttl.
Definition evict_expired (now : Z) (st : SessionStore) : SessionStore :=
  {| st_sessions := filter (fun ks => alive now (st_ttl st) ks.2 = true) (st_sessions st); st_ttl := st_ttl st;
     st_next_id := st_next_id st |}.

Definition open_session (now wall : Z) (agent context : str) (session_id : option str) (st : SessionStore)
    : result TuneSession TuneError * SessionStore :=
  let st := evict_expired now st in
  match session_id with
  | Some id =>
      match st_sessions st !! id with
      | None => (Err (OfSession (UnknownSession id)), st)
      | Some s =>
          if negb (str_eqb (ts_agent_id s) agent) then (Err (OfSession (AgentMismatch id (ts_agent_id s) agent)), st)
          else if negb (str_eqb (ts_context_id s) context)
               then (Err (OfSession (ContextMismatch id (ts_context_id s) context)), st)
          else (Ok (touch_session now s), put_session id (touch_session now s) st)
      end
  | None =>
      let '(id, next) := new_id (lit "sess") wall (st_next_id st) in
      let s := {| ts_session_id := id; ts_agent_id := agent; ts_context_id := context;
                  ts_created_at_ms := as_millis_u64 wall; ts_last_touch := now; ts_runs := [] |} in
      (Ok s, put_session id s {| st_sessions := st_sessions st; st_ttl := st_ttl st; st_next_id := next |})
  end.

(** The filters of a lookup. *)
Definition agent_check (id : str) (agent : option str) (s : TuneSession) : result unit SessionError :=
  match agent with
  | Some a => if str_eqb (ts_agent_id s) a then Ok tt else Err (AgentMismatch id (ts_agent_id s) a)
  | None => Ok tt
  end.
Definition context_check (id : str) (context : option str) (s : TuneSession) : result unit SessionError :=
  match context with
  | Some c => if str_eqb (ts_context_id s) c then Ok tt else Err (ContextMismatch id (ts_context_id s) c)
  | None => Ok tt
  end.

Definition get_checked (now : Z) (id : str) (agent context : option str) (st : SessionStore)
    : result TuneSession SessionError * SessionStore :=
  let st := evict_expired now st in
  match st_sessions st !! id with
  | None => (Err (UnknownSession id), st)
  | Some s =>
      match agent_check id agent s with
      | Err e => (Err e, st)
      | Ok _ =>
          match context_check id context s with
          | Err e => (Err e, st)
          | Ok _ => (Ok (touch_session now s), put_session id (touch_session now s) st)
          end
      end
  end.
(** [get] takes the same steps and forgets the reason. *)
Definition get_session (now : Z) (id : str) (agent context : option str) (st : SessionStore)
    : option TuneSession * SessionStore :=
  let '(r, st) := get_checked now id agent context st in
  (match r with Ok s => Some s | Err _ => None end, st).

(** Closing does not evict. *)
Definition close_with_reason (id : str) (agent : option str) (st : SessionStore)
    : result unit SessionError * SessionStore :=
  match st_sessions st !! id with
  | None => (Err (UnknownSession id), st)
  | Some s =>
      match agent_check id agent s with
      | Err e => (Err e, st)
      | Ok _ => (Ok tt, {| st_sessions := delete id (st_sessions st); st_ttl := st_ttl st; st_next_id := st_next_id st |})
      end
  end.
Definition close_session (id : str) (agent : option str) (st : SessionStore) : bool * SessionStore :=
  let '(r, st) := close_with_reason id agent st in (is_ok r, st).

Definition session_summary (s : TuneSession) : TuneSessionSummary :=
  {| sm_session_id := ts_session_id s; sm_agent_id := ts_agent_id s; sm_context_id := ts_context_id s;
     sm_run_count := zlen (ts_runs s); sm_created_at_ms := ts_created_at_ms s |}.
Definition list_sessions {O : MapOrder} (now : Z) (agent : str) (context : option str) (st : SessionStore)
    : list TuneSessionSummary * SessionStore :=
  let st := evict_expired now st in
  (map (fun ks => session_summary ks.2)
     (List.filter (fun ks => str_eqb (ts_agent_id ks.2) agent &&
                             match context with Some c => str_eqb (ts_context_id ks.2) c | None => true end)
        (map_order (st_sessions st))), st).

(** A run that is selected takes the selection from the others. *)
Definition add_run (run : TuneRunRecord) (s : TuneSession) : TuneSession :=
  put_runs ((if tr_selected run then map (put_selected false) (ts_runs s) else ts_runs s) ++ [run]) s.
Definition append_run (now : Z) (id : str) (agent : option str) (run : TuneRunRecord) (st : SessionStore)
    : result unit TuneError * SessionStore :=
  let st := evict_expired now st in
  match st_sessions st !! id with
  | None => (Err (OfSession (UnknownSession id)), st)
  | Some s =>
      match agent_check id agent s with
      | Err e => (Err (OfSession e), st)
      | Ok _ => (Ok tt, put_session id (add_run run (touch_session now s)) st)
      end
  end.

Definition select_in (run_id : str) (l : list TuneRunRecord) : list TuneRunRecord :=
  map (fun r => put_selected (str_eqb (tr_run_id r) run_id) r) l.
(** The marks are rewritten before the run is known to exist. *)
Definition select_run (now : Z) (id : str) (agent : option str) (run_id : str) (st : SessionStore)
    : result unit TuneError * SessionStore :=
  let st := evict_expired now st in
  match st_sessions st !! id with
  | None => (Err (OfSession (UnknownSession id)), st)
  | Some s =>
      match agent_check id agent s with
      | Err e => (Err (OfSession e), st)
      | Ok _ =>
          let s := put_runs (select_in run_id (ts_runs s)) s in
          if existsb (fun r => str_eqb (tr_run_id r) run_id) (ts_runs s)
          then (Ok tt, put_session id (touch_session now s) st)
          else (Err (UnknownRun run_id), put_session id s st)
      end
  end.

(** ** Export *)

(** serde's reading of a scope section from a JSON value. *)
Class ScopeJson := scope_from_value : Value -> result ProxyScopeConfig str.

Definition json_opt (o : option Value) : Value := default VNull o.
Definition json_f64 `{FloatText} (x : f64) : Value := if is_finite x then VNumber None (json_value_text x) else VNull.

(** The run to export: the last selected one, or the last one. *)
Definition winner (l : list TuneRunRecord) : option TuneRunRecord := or_else (List.find tr_selected (reverse l)) (last l).

(** The scope of a run: its [scope] object, or the scope fields of its flat parameters;
    the fields of an object are in the order of their names. *)
Definition scope_keys : list string :=
  ["embed_band"; "lexical_weight"; "min_similarity"; "mode"; "scope_weight"; "weighted_phrases"].
Definition lifted (p : Value) : Value := VObject (concat (map (fun k => present k (v_get p k)) scope_keys)).
Definition scope_of (p : Value) : Value := default (lifted p) (v_get p "scope").

(** [str::replace] with a pattern of one character. *)
Definition replace_char (c : char) (by_ : str) (s : str) : str := concat (map (fun d => if d =? c then by_ else [d]) s).
Definition escape_toml (t : str) : str := replace_char 34 [92; 34] (replace_char 92 [92; 92] t).
Definition quoted (s : str) : str := [34] ++ s ++ [34].
Definition newline : str := [10].

Section ExportRun.
Context `{NumberViews}.

Definition toml_number (key : string) (v : Value) : str :=
  match and_then (v_get v key) as_f64 with Some x => lit key ++ lit " = " ++ display_f64 x ++ newline | None => [] end.
Definition toml_phrase (context_id : str) (p : Value) : str :=
  newline ++ lit "[[contexts." ++ context_id ++ lit ".scope.weighted_phrases]]" ++ newline ++
  match and_then (v_get p "text") as_str with
  | Some t => lit "text = " ++ quoted (escape_toml t) ++ newline
  | None => []
  end ++ toml_number "weight" p ++ toml_number "min_similarity" p.
Definition render_context_scope_toml (context_id : str) (scope : Value) : str :=
  lit "[contexts." ++ context_id ++ lit ".scope]" ++ newline ++
  match and_then (v_get scope "mode") as_str with Some m => lit "mode = " ++ quoted m ++ newline | None => [] end ++
  toml_number "min_similarity" scope ++ toml_number "scope_weight" scope ++ toml_number "lexical_weight" scope ++
  match and_then (v_get scope "weighted_phrases") as_array with
  | Some a => concat (map (toml_phrase context_id) a)
  | None => []
  end.

Definition artifact_of (s : TuneSession) (run : TuneRunRecord) : TuneExportArtifact :=
  let scope := scope_of (tr_params run) in
  {| ex_session_id := ts_session_id s; ex_agent_id := ts_agent_id s; ex_context_id := ts_context_id s; ex_scope := scope;
     ex_other := VObject [];
     ex_formats := {| fmt_toml := render_context_scope_toml (ts_context_id s) scope;
                      fmt_json := VObject [field "agent_id" (VString (ts_agent_id s));
                                           field "context_id" (VString (ts_context_id s)); field "scope" scope;
                                           field "session_id" (VString (ts_session_id s));
                                           field "source_run_id" (VString (tr_run_id run))] |};
     ex_source_run_id := Some (tr_run_id run) |}.
Definition export (now : Z) (id : str) (agent context : option str) (st : SessionStore)
    : result TuneExportArtifact TuneError * SessionStore :=
  let '(r, st) := get_session now id agent context st in
  match r with
  | None => (Err SessionNotFound, st)
  | Some s => match winner (ts_runs s) with
              | None => (Err NoRuns, st)
              | Some run => (Ok (artifact_of s run), st)
              end
  end.
End ExportRun.

(** ** Applying an export *)

Definition NamedContext_default : NamedContext :=
  {| nc_default := None; nc_description := None; nc_upstreams := []; nc_embedder := None;
     nc_cache := {| cx_fresh_secs := None; cx_stale_secs := None; cx_max_entries := None; cx_max_memory_mb := None;
                    cx_eviction_policy := None |};
     nc_scope := ProxyScopeConfig_default; nc_cascade := Cascade.CascadeConfig_default;
     nc_federated := FederatedSettings_default |}.
Definition put_scope (s : ProxyScopeConfig) (c : NamedContext) : NamedContext :=
  {| nc_default := nc_default c; nc_description := nc_description c; nc_upstreams := nc_upstreams c;
     nc_embedder := nc_embedder c; nc_cache := nc_cache c; nc_scope := s; nc_cascade := nc_cascade c;
     nc_federated := nc_federated c |}.
Definition put_contexts (m : gmap str NamedContext) (c : ConfigFile) : ConfigFile :=
  {| cf_llm := cf_llm c; cf_packages := cf_packages c; cf_registries := cf_registries c; cf_search := cf_search c;
     cf_embedding := cf_embedding c; cf_web := cf_web c; cf_proxy := cf_proxy c; cf_context := cf_context c;
     cf_server := cf_server c; cf_upstreams := cf_upstreams c; cf_embedders := cf_embedders c; cf_contexts := m;
     cf_agents := cf_agents c |}.
(** [contexts.entry(id).or_insert_with(default)] with a new scope. *)
Definition upsert_scope (id : str) (s : ProxyScopeConfig) (c : ConfigFile) : ConfigFile :=
  put_contexts (<[id := put_scope s (default NamedContext_default (cf_contexts c !! id))]> (cf_contexts c)) c.

Record ApplyReport := {
  ar_config_path : str; ar_context_id : str; ar_source_run_id : str; ar_context_created : bool; ar_toml_applied : str
}.

Section Apply.
Context {O : MapOrder} `{U : UnicodeCase} `{NumberViews} `{ScopeJson}.
Context {IoE TomlE : Type} (read : str -> option (result str IoE)) (parse : str -> result ConfigFile TomlE).
Context (global_path local_path : str) (local_root : result str (LoadError IoE TomlE)).
(** [toml::to_string_pretty], and whether a write (with the directories it needs) succeeds. *)
Context (print : ConfigFile -> option str) (writable : str -> bool).

(** A path that does not exist cannot be read; [not_found] is that error. *)
Definition Config_load_from (not_found : IoE) (path : str) : result ConfigFile (LoadError IoE TomlE) :=
  match default (Err not_found) (read path) with
  | Err e => Err (LoadIo e)
  | Ok content => match parse content with
                  | Err e => Err (LoadToml e)
                  | Ok c => match config_validate c with Err e => Err (ConfigValidation e) | Ok _ => Ok c end
                  end
  end.
Definition load_for_apply (not_found : IoE) (config_path : option str) : result ConfigFile (LoadError IoE TomlE) :=
  match config_path with
  | Some p => Config_load_from not_found p
  | None => match Config_load read parse global_path local_path local_root with Ok c => Ok (cfg_config c) | Err e => Err e end
  end.

(** The report, and what is written where. *)
Definition apply_export_artifact (not_found : IoE) (a : TuneExportArtifact) (config_path : option str)
    : result (ApplyReport * (str * str)) TuneError :=
  match load_for_apply not_found config_path with
  | Err _ => Err (LoadFailed config_path)
  | Ok c =>
      match scope_from_value (ex_scope a) with
      | Err m => Err (BadScopeJson m)
      | Ok scope =>
          let c' := upsert_scope (ex_context_id a) scope c in
          let path := default local_path config_path in
          match print c' with
          | None => Err (SaveFailed config_path)
          | Some text =>
              if writable path then
                Ok ({| ar_config_path := path; ar_context_id := ex_context_id a;
                       ar_source_run_id := default [] (ex_source_run_id a);
                       ar_context_created := negb (bool_decide (is_Some (cf_contexts c !! ex_context_id a)));
                       ar_toml_applied := fmt_toml (ex_formats a) |}, (path, text))
              else Err (SaveFailed config_path)
          end
      end
  end.
Definition apply_tune_export (not_found : IoE) (now : Z) (id : str) (agent context : option str) (config_path : option str)
    (st : SessionStore) : result (ApplyReport * (str * str)) TuneError * SessionStore :=
  let '(r, st) := export now id agent context st in
  match r with
  | Err e => (Err e, st)
  | Ok a => (apply_export_artifact not_found a config_path, st)
  end.
End Apply.
