(* ===== verification/TuneTools.v ===== *)
(** * Tuning tools (src/src/proxy/tune/)

    Each tool looks its session up, computes a report from what the caller supplies, and
    records a run.  [tool_run] is the common frame; a plan is the computation between
    the lookup and the recording.  Clock readings are arguments; the text of warnings and
    errors are constructors.  The natural logarithm, the Unicode class of letters and
    digits, and rounded decimals are third-party and enter as classes. *)

From Stdlib Require Import SpecFloat.
From S2P Require Import Prelude Floats Text Types Retry Upstream Scope Settings Vendors Config TuneSession.
Open Scope Z_scope.
Open Scope conproxy_scope.

Class FloatLn := f32_ln : f32 -> f32.
Class FloatFixed := fixed : Z -> f32 -> str.
Class UnicodeAlnum := is_alphanumeric : char -> bool.

(** ** The frame *)

Record TuneBudget := { bd_timeout_ms : Z; bd_max_results : Z; bd_max_sweep_points : Z; bd_max_queries : Z }.
Definition TuneBudget_default : TuneBudget :=
  {| bd_timeout_ms := 30000; bd_max_results := 50; bd_max_sweep_points := 16; bd_max_queries := 32 |}.

Inductive Warning := Truncated (before after : Z) | SimulationOnly | SlowCandidates | NoWarmPerformed.

Record TuneReport := {
  rp_tool : str; rp_session_id : str; rp_run_id : str; rp_params_used : Value; rp_budget : TuneBudget;
  rp_baseline : option Value; rp_candidates : list Value; rp_metrics : Value; rp_warnings : list Warning
}.
Definition TuneReport_new (tool session_id run_id : str) : TuneReport :=
  {| rp_tool := tool; rp_session_id := session_id; rp_run_id := run_id; rp_params_used := VNull;
     rp_budget := TuneBudget_default; rp_baseline := None; rp_candidates := []; rp_metrics := VObject []; rp_warnings := [] |}.

(** The first fields and the last one of the parameters of every tool. *)
Record ToolCall := { tc_session_id : str; tc_agent_id : option str; tc_context_id : option str; tc_budget : TuneBudget }.
(** The readings of the clocks: at the lookup, when the run is named, at the recording. *)
Record Moments := { at_lookup : Z; at_naming : Z; at_recording : Z }.
Definition new_run_id (wall : Z) : str := lit "run-" ++ show_Z wall.

(** What a tool computes: its value, and the parts of the report and of the run. *)
Record Planned (A : Type) := {
  pl_value : A; pl_params : Value; pl_baseline : option Value; pl_candidates : list Value; pl_metrics : Value;
  pl_warnings : list Warning
}.
#[global] Arguments Build_Planned {A}. #[global] Arguments pl_value {A}. #[global] Arguments pl_params {A}.
#[global] Arguments pl_baseline {A}. #[global] Arguments pl_candidates {A}. #[global] Arguments pl_metrics {A}.
#[global] Arguments pl_warnings {A}.
Record ToolReport (A : Type) := { tl_run_id : str; tl_value : A; tl_warnings : list Warning; tl_report : TuneReport }.
#[global] Arguments Build_ToolReport {A}. #[global] Arguments tl_run_id {A}. #[global] Arguments tl_value {A}.
#[global] Arguments tl_warnings {A}. #[global] Arguments tl_report {A}.

Definition report_of {A} (tool : string) (c : ToolCall) (run_id : str) (p : Planned A) : TuneReport :=
  {| rp_tool := lit tool; rp_session_id := tc_session_id c; rp_run_id := run_id; rp_params_used := pl_params p;
     rp_budget := tc_budget c; rp_baseline := pl_baseline p; rp_candidates := pl_candidates p; rp_metrics := pl_metrics p;
     rp_warnings := pl_warnings p |}.
Definition run_of {A} (tool : string) (run_id : str) (p : Planned A) : TuneRunRecord :=
  {| tr_run_id := run_id; tr_tool := lit tool; tr_params := pl_params p; tr_metrics := pl_metrics p; tr_selected := false |}.
Definition tool_run {A} (m : Moments) (tool : string) (c : ToolCall) (plan : outcome (result (Planned A) TuneError))
    (st : SessionStore) : outcome (result (ToolReport A) TuneError) * SessionStore :=
  let '(s, st) := get_session (at_lookup m) (tc_session_id c) (tc_agent_id c) (tc_context_id c) st in
  match s with
  | None => (Ret (Err SessionNotFound), st)
  | Some _ =>
      match plan with
      | Panic => (Panic, st)
      | Ret (Err e) => (Ret (Err e), st)
      | Ret (Ok p) =>
          let rid := new_run_id (at_naming m) in
          let '(r, st) := append_run (at_recording m) (tc_session_id c) (tc_agent_id c) (run_of tool rid p) st in
          (Ret (match r with
                | Err e => Err e
                | Ok _ => Ok {| tl_run_id := rid; tl_value := pl_value p; tl_warnings := pl_warnings p;
                                tl_report := report_of tool c rid p |}
                end), st)
      end
  end.

(** The points of a sweep, with a default where none are given, within the budget. *)
Definition sweep_points {A} (given : option (list A)) (otherwise : list A) : list A :=
  match default [] given with [] => otherwise | l => l end.
Definition within_budget {A B} (b : TuneBudget) (points : list A) (k : result B TuneError) : result B TuneError :=
  if bd_max_sweep_points b <? zlen points then Err (SweepTooLong (zlen points) (bd_max_sweep_points b)) else k.
Definition grid {A B} (l : list A) (k : list B) : list (A * B) := concat (map (fun a => map (pair a) k) l).
Definition json_array {A} (f : A -> Value) (l : list A) : Value := VArray (map f l).
Definition json_opt_f32 `{FloatText} (o : option f32) : Value := match o with Some x => json_value_f32 x | None => VNull end.
Definition json_opt_str (o : option str) : Value := match o with Some x => VString x | None => VNull end.

(** ** scope_tune *)

Record SweepPointResult := {
  sp_min_similarity : f32; sp_kept : Z; sp_dropped : Z; sp_kept_ids : list str; sp_dropped_ids : list str
}.
Record ScopeTuneParams := {
  sc_hits : list SearchResult; sc_weighted_phrases : list WeightedPhrase; sc_mode : option str;
  sc_min_similarity : option f32; sc_min_similarity_sweep : option (list f32); sc_scope_weight : option f32;
  sc_lexical_weight : option f32
}.
Record ScopeTuned := {
  sd_mode : str; sd_baseline_ids : list str; sd_sweep : list SweepPointResult; sd_primary_kept : Z; sd_primary_dropped : Z
}.
Definition build_scope_config (p : ScopeTuneParams) (mode : str) (min_similarity : f32) : ProxyScopeConfig :=
  {| weighted_phrases := sc_weighted_phrases p; cfg_seeds := []; cfg_mode := Some mode;
     cfg_min_seed_similarity := Some min_similarity; cfg_seed_weight := sc_scope_weight p; cfg_query_prefix := None;
     cfg_lexical_weight := sc_lexical_weight p; cfg_embed_band := None |}.
Definition sweep_point `{UnicodeCase} (p : ScopeTuneParams) (mode : str) (hits : list SearchResult) (ms : f32) : SweepPointResult :=
  let kept_ids := map sr_id (filter_results (from_config (build_scope_config p mode ms)) hits) in
  let dropped_ids := map sr_id (List.filter (fun h => negb (bool_decide (sr_id h ∈ kept_ids))) hits) in
  {| sp_min_similarity := ms; sp_kept := zlen kept_ids; sp_dropped := zlen dropped_ids; sp_kept_ids := kept_ids;
     sp_dropped_ids := dropped_ids |}.
Definition json_phrase `{FloatText} (w : WeightedPhrase) : Value :=
  VObject (present "min_similarity" (json_value_f32 <$> wp_min_similarity w) ++
           [field "text" (VString (wp_text w)); field "weight" (json_value_f32 (wp_weight w))]).
Definition json_sweep_point `{FloatText} (s : SweepPointResult) : Value :=
  VObject [field "dropped" (json_usize (sp_dropped s)); field "dropped_ids" (json_strs (sp_dropped_ids s));
           field "kept" (json_usize (sp_kept s)); field "kept_ids" (json_strs (sp_kept_ids s));
           field "min_similarity" (json_value_f32 (sp_min_similarity s))].
Definition scope_params_json `{FloatText} (p : ScopeTuneParams) (mode : str) (primary : f32) (thresholds : list f32) : Value :=
  VObject [field "lexical_weight" (json_opt_f32 (sc_lexical_weight p)); field "min_similarity" (json_value_f32 primary);
           field "min_similarity_sweep" (json_array json_value_f32 thresholds); field "mode" (VString mode);
           field "scope_weight" (json_opt_f32 (sc_scope_weight p));
           field "weighted_phrases" (json_array json_phrase (sc_weighted_phrases p))].
Definition no_point : SweepPointResult :=
  {| sp_min_similarity := f_zero; sp_kept := 0; sp_dropped := 0; sp_kept_ids := []; sp_dropped_ids := [] |}.
Definition scope_plan `{UnicodeCase} `{FloatText} (b : TuneBudget) (p : ScopeTuneParams) : result (Planned ScopeTuned) TuneError :=
  match sc_hits p with
  | [] => Err EmptyInput
  | _ =>
      let warnings := if bd_max_results b <? zlen (sc_hits p) then [Truncated (zlen (sc_hits p)) (bd_max_results b)] else [] in
      let hits := take (Z.to_nat (bd_max_results b)) (sc_hits p) in
      let mode := default (lit "filter") (sc_mode p) in
      let thresholds := sweep_points (sc_min_similarity_sweep p) [default (F32.lit 25 100) (sc_min_similarity p)] in
      within_budget b thresholds
        (let sweep := map (sweep_point p mode hits) thresholds in
         let primary := default no_point (head sweep) in
         Ok {| pl_value := {| sd_mode := mode; sd_baseline_ids := map sr_id hits; sd_sweep := sweep;
                              sd_primary_kept := sp_kept primary; sd_primary_dropped := sp_dropped primary |};
               pl_params := scope_params_json p mode (sp_min_similarity primary) thresholds;
               pl_baseline := Some (VObject [field "count" (json_usize (zlen hits)); field "ids" (json_strs (map sr_id hits))]);
               pl_candidates := map json_sweep_point sweep;
               pl_metrics := VObject [field "primary_dropped" (json_usize (sp_dropped primary));
                                      field "primary_kept" (json_usize (sp_kept primary));
                                      field "sweep_points" (json_usize (zlen sweep))];
               pl_warnings := warnings |})
  end.
Definition scope_tune `{UnicodeCase} `{FloatText} (m : Moments) (c : ToolCall) (p : ScopeTuneParams) :=
  tool_run m "scope_tune" c (Ret (scope_plan (tc_budget c) p)).

(** ** cache_tune *)

Record CacheAccessEvent := { ev_key : str; ev_age_secs : option Z }.
Record CacheTuneParams := {
  ct_events : list CacheAccessEvent; ct_fresh_ttl_secs : option (list Z); ct_stale_ttl_secs : option (list Z)
}.
Record CacheTuneCandidate := {
  cc_fresh_ttl_secs : Z; cc_stale_ttl_secs : Z; cc_hits : Z; cc_stale_hits : Z; cc_misses : Z; cc_hit_rate : f64;
  cc_estimated_upstream_calls : Z
}.
Inductive Access := FreshHit | StaleHit | Missed.
Definition access (fresh stale : Z) (e : CacheAccessEvent) : Access :=
  match ev_age_secs e with
  | None => Missed
  | Some age => if age <=? fresh then FreshHit
                else if (0 <? stale) && (age <=? sat_add 64 fresh stale) then StaleHit else Missed
  end.
Definition count {A} (f : A -> bool) (l : list A) : Z := zlen (List.filter f l).
Definition is_fresh_hit (a : Access) : bool := match a with FreshHit => true | _ => false end.
Definition is_stale_hit (a : Access) : bool := match a with StaleHit => true | _ => false end.
Definition is_missed (a : Access) : bool := match a with Missed => true | _ => false end.
Definition cache_candidate (events : list CacheAccessEvent) (fs : Z * Z) : CacheTuneCandidate :=
  let n_of k := count (fun e => k (access fs.1 fs.2 e)) events in
  {| cc_fresh_ttl_secs := fs.1; cc_stale_ttl_secs := fs.2; cc_hits := n_of is_fresh_hit; cc_stale_hits := n_of is_stale_hit;
     cc_misses := n_of is_missed;
     cc_hit_rate := F64.div (F64.of_Z (n_of is_fresh_hit + n_of is_stale_hit)) (F64.of_Z (Z.max (zlen events) 1));
     cc_estimated_upstream_calls := n_of is_missed |}.
Definition json_cache_candidate `{FloatText} (c : CacheTuneCandidate) : Value :=
  VObject [field "estimated_upstream_calls" (json_usize (cc_estimated_upstream_calls c));
           field "fresh_ttl_secs" (json_usize (cc_fresh_ttl_secs c)); field "hit_rate" (json_f64 (cc_hit_rate c));
           field "hits" (json_usize (cc_hits c)); field "misses" (json_usize (cc_misses c));
           field "stale_hits" (json_usize (cc_stale_hits c)); field "stale_ttl_secs" (json_usize (cc_stale_ttl_secs c))].
Definition cache_plan `{FloatText} (b : TuneBudget) (p : CacheTuneParams) : result (Planned (list CacheTuneCandidate)) TuneError :=
  match ct_events p with
  | [] => Err EmptyInput
  | _ =>
      let events := take (Z.to_nat (Z.max (sat_mul 64 (bd_max_results b) 4) 64)) (ct_events p) in
      let warnings := if zlen events <? zlen (ct_events p) then [Truncated (zlen (ct_events p)) (zlen events)] else [] in
      let fresh := default [60; 300; 900] (ct_fresh_ttl_secs p) in
      let stale := default [0; 60; 300] (ct_stale_ttl_secs p) in
      within_budget b (grid fresh stale)
        (let cs := map (cache_candidate events) (grid fresh stale) in
         Ok {| pl_value := cs;
               pl_params := VObject [field "event_count" (json_usize (zlen events));
                                     field "fresh_ttl_secs" (json_array json_usize fresh);
                                     field "stale_ttl_secs" (json_array json_usize stale)];
               pl_baseline := None; pl_candidates := map json_cache_candidate cs;
               pl_metrics := VObject [field "best_hit_rate" (json_f64 (fold_left f_max (map cc_hit_rate cs) f_zero));
                                      field "candidates" (json_usize (zlen cs))];
               pl_warnings := warnings |})
  end.
Definition cache_tune `{FloatText} (m : Moments) (c : ToolCall) (p : CacheTuneParams) :=
  tool_run m "cache_tune" c (Ret (cache_plan (tc_budget c) p)).

(** ** cascade_tune *)

Record CascadeLegProbe := {
  lp_upstream_id : str; lp_priority : Z; lp_best_score : f32; lp_result_count : Z; lp_latency_ms : Z
}.
Record CascadeTuneParams := {
  cp_legs : list CascadeLegProbe; cp_min_score_threshold : option f32; cp_min_results : option Z;
  cp_max_cascade_depth : option Z; cp_min_score_sweep : option (list f32)
}.
Record CascadeTuneCandidate := {
  ca_min_score_threshold : f32; ca_min_results : Z; ca_chosen_upstream_id : option str; ca_tried : list str;
  ca_cascaded : bool; ca_total_latency_ms : Z
}.
Definition leg_ok (thresh : f32) (min_results : Z) (l : CascadeLegProbe) : bool :=
  f_ge (lp_best_score l) thresh && (min_results <=? lp_result_count l).
(** The loop over the legs; [i] is the index of the first one of [legs]. *)
Fixpoint try_legs (thresh : f32) (min_results max_depth : Z) (i : Z) (legs : list CascadeLegProbe) (tried : list str)
    (latency : Z) : option str * list str * bool * Z :=
  match legs with
  | [] => (None, tried, false, latency)
  | l :: legs =>
      if max_depth <=? zlen tried then (None, tried, false, latency)
      else
        let tried := tried ++ [lp_upstream_id l] in
        let latency := sat_add 64 latency (lp_latency_ms l) in
        if leg_ok thresh min_results l then (Some (lp_upstream_id l), tried, 0 <? i, latency)
        else try_legs thresh min_results max_depth (i + 1) legs tried latency
  end.
Definition by_priority (legs : list CascadeLegProbe) : list CascadeLegProbe :=
  sort_by (fun a b => lp_priority a <=? lp_priority b) legs.
Definition cascade_candidate (legs : list CascadeLegProbe) (min_results max_depth : Z) (thresh : f32) : CascadeTuneCandidate :=
  let '(chosen, tried, cascaded, latency) := try_legs thresh min_results max_depth 0 (by_priority legs) [] 0 in
  {| ca_min_score_threshold := thresh; ca_min_results := min_results; ca_chosen_upstream_id := chosen; ca_tried := tried;
     ca_cascaded := cascaded; ca_total_latency_ms := latency |}.
Definition json_cascade_candidate `{FloatText} (c : CascadeTuneCandidate) : Value :=
  VObject [field "cascaded" (VBool (ca_cascaded c)); field "chosen_upstream_id" (json_opt_str (ca_chosen_upstream_id c));
           field "min_results" (json_usize (ca_min_results c));
           field "min_score_threshold" (json_value_f32 (ca_min_score_threshold c));
           field "total_latency_ms" (json_usize (ca_total_latency_ms c)); field "tried" (json_strs (ca_tried c))].
Definition cascade_plan `{FloatText} (b : TuneBudget) (p : CascadeTuneParams) : result (Planned (list CascadeTuneCandidate)) TuneError :=
  match cp_legs p with
  | [] => Err EmptyInput
  | _ =>
      let min_results := default 1 (cp_min_results p) in
      let max_depth := default (zlen (cp_legs p)) (cp_max_cascade_depth p) in
      let thresholds := sweep_points (cp_min_score_sweep p) [default (F32.lit 7 10) (cp_min_score_threshold p)] in
      within_budget b thresholds
        (let cs := map (cascade_candidate (cp_legs p) min_results max_depth) thresholds in
         Ok {| pl_value := cs;
               pl_params := VObject [field "legs" (json_strs (map lp_upstream_id (cp_legs p)));
                                     field "max_cascade_depth" (json_usize max_depth); field "min_results" (json_usize min_results);
                                     field "min_score_sweep" (json_array json_value_f32 thresholds);
                                     field "min_score_threshold" (json_opt_f32 (head thresholds))];
               pl_baseline := None; pl_candidates := map json_cascade_candidate cs;
               pl_metrics := VObject [field "any_cascade" (VBool (existsb ca_cascaded cs)); field "candidates" (json_usize (zlen cs))];
               pl_warnings := [] |})
  end.
Definition cascade_tune `{FloatText} (m : Moments) (c : ToolCall) (p : CascadeTuneParams) :=
  tool_run m "cascade_tune" c (Ret (cascade_plan (tc_budget c) p)).

(** ** federated_tune *)

Record FedHit := { fh_id : str; fh_score : f32; fh_source : str }.
Record FederatedTuneParams := { fp_hits : list FedHit; fp_local_weight_sweep : option (list f32); fp_top_k : option Z }.
Record FederatedTuneCandidate := {
  fc_local_weight : f32; fc_ordered_ids : list str; fc_local_count : Z; fc_remote_count : Z; fc_top_id : option str
}.
Definition eq_ignore_ascii_case (a b : str) : bool := str_eqb (to_ascii_lowercase a) (to_ascii_lowercase b).
Definition adjusted (w : f32) (h : FedHit) : str * f32 * bool :=
  let is_local := eq_ignore_ascii_case (fh_source h) (lit "local") in
  (fh_id h, if is_local then F32.mul (fh_score h) w else F32.mul (fh_score h) (F32.sub (F32.of_Z 1) w), is_local).
Definition fed_candidate (hits : list FedHit) (top_k : Z) (w : f32) : FederatedTuneCandidate :=
  let w := f_clamp w f_zero (F32.of_Z 1) in
  let scored := take (Z.to_nat top_k) (sort_by (fun a b : str * f32 * bool => score_desc_le a.1.2 b.1.2) (map (adjusted w) hits)) in
  let local_count := count snd scored in
  {| fc_local_weight := w; fc_ordered_ids := map (fun x => x.1.1) scored; fc_local_count := local_count;
     fc_remote_count := zlen scored - local_count; fc_top_id := (fun x : str * f32 * bool => x.1.1) <$> head scored |}.
Definition json_fed_candidate `{FloatText} (c : FederatedTuneCandidate) : Value :=
  VObject [field "local_count" (json_usize (fc_local_count c)); field "local_weight" (json_value_f32 (fc_local_weight c));
           field "ordered_ids" (json_strs (fc_ordered_ids c)); field "remote_count" (json_usize (fc_remote_count c));
           field "top_id" (json_opt_str (fc_top_id c))].
(** [clamp(1, max_results)] panics when the budget has no results. *)
Definition fed_plan `{FloatText} (b : TuneBudget) (p : FederatedTuneParams)
    : outcome (result (Planned (list FederatedTuneCandidate)) TuneError) :=
  match fp_hits p with
  | [] => Ret (Err EmptyInput)
  | _ =>
      if bd_max_results b <? 1 then Panic
      else
        let top_k := Z.min (Z.max (default 10 (fp_top_k p)) 1) (bd_max_results b) in
        let weights := sweep_points (fp_local_weight_sweep p) [F32.lit 3 10; F32.lit 5 10; F32.lit 7 10] in
        Ret (within_budget b weights
          (let cs := map (fed_candidate (fp_hits p) top_k) weights in
           Ok {| pl_value := cs;
                 pl_params := VObject [field "hit_count" (json_usize (zlen (fp_hits p)));
                                       field "local_weight_sweep" (json_array json_value_f32 weights); field "top_k" (json_usize top_k)];
                 pl_baseline := None; pl_candidates := map json_fed_candidate cs;
                 pl_metrics := VObject [field "candidates" (json_usize (zlen cs))]; pl_warnings := [] |}))
  end.
Definition federated_tune `{FloatText} (m : Moments) (c : ToolCall) (p : FederatedTuneParams) :=
  tool_run m "federated_tune" c (fed_plan (tc_budget c) p).

(** ** embed_tune *)

Record EmbedTuneParams := {
  ep_text_count : Z; ep_batch_size_sweep : option (list Z); ep_per_text_ms : option f64; ep_batch_overhead_ms : option f64
}.
Record EmbedTuneCandidate := {
  ec_batch_size : Z; ec_batches : Z; ec_est_total_ms : f64; ec_est_p50_batch_ms : f64; ec_est_p95_batch_ms : f64
}.
Definition div_ceil (a b : Z) : Z := (a + b - 1) / b.
Definition embed_candidate (n : Z) (per_text overhead : f64) (bs : Z) : EmbedTuneCandidate :=
  let bs := Z.max bs 1 in
  let batches := div_ceil n bs in
  let full := F64.add overhead (F64.mul (F64.of_Z bs) per_text) in
  let last_ms := if n mod bs =? 0 then full else F64.add overhead (F64.mul (F64.of_Z (n mod bs)) per_text) in
  {| ec_batch_size := bs; ec_batches := batches;
     ec_est_total_ms := if batches <=? 1 then last_ms else F64.add (F64.mul full (F64.of_Z (batches - 1))) last_ms;
     ec_est_p50_batch_ms := full; ec_est_p95_batch_ms := F64.mul full (F64.lit 12 10) |}.
Definition json_embed_candidate `{FloatText} (c : EmbedTuneCandidate) : Value :=
  VObject [field "batch_size" (json_usize (ec_batch_size c)); field "batches" (json_usize (ec_batches c));
           field "est_p50_batch_ms" (json_f64 (ec_est_p50_batch_ms c)); field "est_p95_batch_ms" (json_f64 (ec_est_p95_batch_ms c));
           field "est_total_ms" (json_f64 (ec_est_total_ms c))].
Definition embed_plan `{FloatText} (b : TuneBudget) (p : EmbedTuneParams) : result (Planned (list EmbedTuneCandidate)) TuneError :=
  if ep_text_count p =? 0 then Err EmptyInput
  else
    let per_text := f_max (default (F64.of_Z 2) (ep_per_text_ms p)) (F64.lit 1 100) in
    let overhead := f_max (default (F64.of_Z 15) (ep_batch_overhead_ms p)) f_zero in
    let sizes := sweep_points (ep_batch_size_sweep p) [1; 8; 16; 32] in
    within_budget b sizes
      (let cs := map (embed_candidate (ep_text_count p) per_text overhead) sizes in
       Ok {| pl_value := cs;
             pl_params := VObject [field "batch_overhead_ms" (json_f64 overhead); field "batch_size_sweep" (json_array json_usize sizes);
                                   field "per_text_ms" (json_f64 per_text); field "text_count" (json_usize (ep_text_count p))];
             pl_baseline := None; pl_candidates := map json_embed_candidate cs;
             pl_metrics := VObject [field "best_total_ms" (json_f64 (fold_left f_min (map ec_est_total_ms cs) (S754_infinity false)));
                                    field "candidates" (json_usize (zlen cs))];
             pl_warnings := [SimulationOnly] ++
               (if existsb (fun c => f_gt (ec_est_total_ms c) (F64.of_Z 30000)) cs then [SlowCandidates] else []) |}).
Definition embed_tune `{FloatText} (m : Moments) (c : ToolCall) (p : EmbedTuneParams) :=
  tool_run m "embed_tune" c (Ret (embed_plan (tc_budget c) p)).

(** ** rate_limit_tune *)

Record RateLimitTuneParams := { rt_arrival_ms : list Z; rt_rps_sweep : option (list f64); rt_burst_sweep : option (list Z) }.
Record RateLimitTuneCandidate := { rl_rps : f64; rl_burst : Z; rl_allowed : Z; rl_denied : Z; rl_allow_rate : f64 }.
Definition f64_one : f64 := F64.of_Z 1.
(** Tokens, the last arrival, the requests allowed and denied. *)
Definition bucket_step (rps burst : f64) (acc : f64 * Z * Z * Z) (t : Z) : f64 * Z * Z * Z :=
  let '(tokens, last_ms, allowed, denied) := acc in
  let dt := F64.div (F64.of_Z (sat_sub t last_ms)) (F64.of_Z 1000) in
  let tokens := f_min (F64.add tokens (F64.mul dt rps)) burst in
  if f_ge tokens f64_one then (F64.sub tokens f64_one, t, allowed + 1, denied) else (tokens, t, allowed, denied + 1).
Definition rate_candidate (arrivals : list Z) (rb : f64 * Z) : RateLimitTuneCandidate :=
  let rps := f_max rb.1 (F64.lit 1 1000) in
  let burst := F64.of_Z (Z.max rb.2 1) in
  let '(_, _, allowed, denied) := fold_left (bucket_step rps burst) arrivals (burst, 0, 0, 0) in
  {| rl_rps := rps; rl_burst := f_to_u 32 burst; rl_allowed := allowed; rl_denied := denied;
     rl_allow_rate := F64.div (F64.of_Z allowed) (F64.of_Z (Z.max (zlen arrivals) 1)) |}.
Definition json_rate_candidate `{FloatText} (c : RateLimitTuneCandidate) : Value :=
  VObject [field "allow_rate" (json_f64 (rl_allow_rate c)); field "allowed" (json_usize (rl_allowed c));
           field "burst" (json_usize (rl_burst c)); field "denied" (json_usize (rl_denied c)); field "rps" (json_f64 (rl_rps c))].
Definition rate_plan `{FloatText} (b : TuneBudget) (p : RateLimitTuneParams) : result (Planned (list RateLimitTuneCandidate)) TuneError :=
  match rt_arrival_ms p with
  | [] => Err EmptyInput
  | _ =>
      let arrivals := take (Z.to_nat (Z.max (sat_mul 64 (bd_max_results b) 10) 256)) (rt_arrival_ms p) in
      let warnings := [SimulationOnly] ++
        (if zlen arrivals <? zlen (rt_arrival_ms p) then [Truncated (zlen (rt_arrival_ms p)) (zlen arrivals)] else []) in
      let rps := default [F64.of_Z 10; F64.of_Z 50; F64.of_Z 100] (rt_rps_sweep p) in
      let burst := default [1; 10; 50] (rt_burst_sweep p) in
      within_budget b (grid rps burst)
        (let cs := map (rate_candidate arrivals) (grid rps burst) in
         Ok {| pl_value := cs;
               pl_params := VObject [field "arrival_count" (json_usize (zlen arrivals)); field "burst_sweep" (json_array json_usize burst);
                                     field "rps_sweep" (json_array json_f64 rps)];
               pl_baseline := None; pl_candidates := map json_rate_candidate cs;
               pl_metrics := VObject [field "best_allow_rate" (json_f64 (fold_left f_max (map rl_allow_rate cs) f_zero));
                                      field "candidates" (json_usize (zlen cs))];
               pl_warnings := warnings |})
  end.
Definition rate_limit_tune `{FloatText} (m : Moments) (c : ToolCall) (p : RateLimitTuneParams) :=
  tool_run m "rate_limit_tune" c (Ret (rate_plan (tc_budget c) p)).

(** ** warm_tune *)

Record WarmTuneParams := {
  wt_plan_keys : list str; wt_cached_keys : list str; wt_per_key_ms : option Z; wt_concurrency_sweep : option (list Z);
  wt_execute : bool
}.
Record WarmTuneCandidate := { wc_concurrency : Z; wc_keys_to_warm : Z; wc_already_cached : Z; wc_est_eta_ms : Z }.
Definition warm_candidate (n already per_key c : Z) : WarmTuneCandidate :=
  let c := Z.max c 1 in
  {| wc_concurrency := c; wc_keys_to_warm := n; wc_already_cached := already; wc_est_eta_ms := sat_mul 64 (div_ceil n c) per_key |}.
Definition json_warm_candidate (c : WarmTuneCandidate) : Value :=
  VObject [field "already_cached" (json_usize (wc_already_cached c)); field "concurrency" (json_usize (wc_concurrency c));
           field "est_eta_ms" (json_usize (wc_est_eta_ms c)); field "keys_to_warm" (json_usize (wc_keys_to_warm c))].
Definition min_of (l : list Z) : option Z := match l with [] => None | x :: l => Some (fold_left Z.min l x) end.
Definition warm_plan (b : TuneBudget) (p : WarmTuneParams) : result (Planned (list str * Z * list WarmTuneCandidate)) TuneError :=
  match wt_plan_keys p with
  | [] => Err EmptyInput
  | _ =>
      if wt_execute p then Err ExecuteRejected
      else
        let to_warm := List.filter (fun k => negb (bool_decide (k ∈ wt_cached_keys p))) (wt_plan_keys p) in
        let already := zlen (wt_plan_keys p) - zlen to_warm in
        let per_key := Z.max (default 50 (wt_per_key_ms p)) 1 in
        let conc := sweep_points (wt_concurrency_sweep p) [1; 4; 8] in
        within_budget b conc
          (let cs := map (warm_candidate (zlen to_warm) already per_key) conc in
           Ok {| pl_value := (to_warm, already, cs);
                 pl_params := VObject [field "already_cached" (json_usize already); field "concurrency_sweep" (json_array json_usize conc);
                                       field "execute" (VBool false); field "per_key_ms" (json_usize per_key);
                                       field "plan_count" (json_usize (zlen (wt_plan_keys p))); field "to_warm" (json_usize (zlen to_warm))];
                 pl_baseline := None; pl_candidates := map json_warm_candidate cs;
                 pl_metrics := VObject [field "already_cached" (json_usize already);
                                        field "best_eta_ms" (json_usize (default 0 (min_of (map wc_est_eta_ms cs))));
                                        field "keys_to_warm" (json_usize (zlen to_warm))];
                 pl_warnings := [NoWarmPerformed] |})
  end.
Definition warm_tune (m : Moments) (c : ToolCall) (p : WarmTuneParams) :=
  tool_run m "warm_tune" c (Ret (warm_plan (tc_budget c) p)).

(** ** scope_suggest *)

Record SuggestedPhrase := { sg_text : str; sg_weight : f32; sg_score : f32; sg_rationale : str }.
Record ScopeSuggestParams := { ss_texts : list str; ss_max_phrases : Z }.
Definition STOP : list str := map lit
  ["the"; "and"; "for"; "with"; "from"; "that"; "this"; "are"; "was"; "were"; "have"; "has";
   "been"; "not"; "but"; "you"; "your"; "all"; "any"; "can"; "will"; "into"; "about"; "over"].

Section Suggest.
Context `{UnicodeCase} `{UnicodeAlnum} `{FloatLn} `{FloatFixed} `{FloatText} {O : MapOrder}.

(** [split] on what is not alphanumeric, without the empty pieces. *)
Fixpoint alnum_runs (cur : str) (s : str) : list str :=
  match s with
  | [] => match cur with [] => [] | _ => [cur] end
  | c :: s => if is_alphanumeric c then alnum_runs (cur ++ [c]) s
              else match cur with [] => alnum_runs [] s | _ => cur :: alnum_runs [] s end
  end.
Definition suggest_tokens (s : str) : list str := alnum_runs [] (to_lowercase s).
Definition count_token (m : gmap str Z) (k : str) : gmap str Z := <[k := default 0 (m !! k) + 1]> m.
(** The loop over the tokens of one text: frequencies, document frequencies, the tokens seen. *)
Definition token_step (acc : gmap str Z * gmap str Z * gset str) (tok : str) : gmap str Z * gmap str Z * gset str :=
  let '(tf, df, seen) := acc in
  (count_token tf tok, if bool_decide (tok ∈ seen) then df else count_token df tok, {[tok]} ∪ seen).
Definition text_step (acc : gmap str Z * gmap str Z) (text : str) : gmap str Z * gmap str Z :=
  let '(tf, df, _) := fold_left token_step (suggest_tokens text) (acc.1, acc.2, ∅) in (tf, df).
Definition suggested (n_docs : Z) (df : gmap str Z) (tw : str * Z) : SuggestedPhrase :=
  let doc_freq := F32.of_Z (default 1 (df !! tw.1)) in
  let idf := F32.add (f_max (f32_ln (F32.div (F32.of_Z n_docs) doc_freq)) f_zero) (F32.of_Z 1) in
  {| sg_text := tw.1; sg_weight := F32.of_Z 1; sg_score := F32.mul (F32.of_Z tw.2) idf;
     sg_rationale := lit "tf=" ++ show_Z tw.2 ++ lit " df=" ++ fixed 0 doc_freq ++ lit " idf=" ++ fixed 2 idf |}.
Definition suggestable (t : str) : bool := (3 <=? str_len t) && negb (bool_decide (t ∈ STOP)).
Definition suggest_from_texts (texts : list str) (max_phrases : Z) : list SuggestedPhrase :=
  let '(tf, df) := fold_left text_step texts (∅, ∅) in
  take (Z.to_nat max_phrases)
    (sort_by (fun a b => score_desc_le (sg_score a) (sg_score b))
       (map (suggested (Z.max (zlen texts) 1) df) (List.filter (fun tw => suggestable tw.1) (map_order tf)))).
Definition suggest_plan (p : ScopeSuggestParams) : result (Planned (list SuggestedPhrase)) TuneError :=
  match ss_texts p with
  | [] => Err EmptyInput
  | _ =>
      let max_p := Z.min (Z.max (ss_max_phrases p) 1) 32 in
      let phrases := suggest_from_texts (ss_texts p) max_p in
      Ok {| pl_value := phrases;
            pl_params := VObject [field "max_phrases" (json_usize max_p); field "min_similarity" (json_f64 (F64.lit 25 100));
                                  field "mode" (VString (lit "filter")); field "text_count" (json_usize (zlen (ss_texts p)));
                                  field "weighted_phrases" (json_array (fun s =>
                                    VObject [field "text" (VString (sg_text s)); field "weight" (json_value_f32 (sg_weight s))]) phrases)];
            pl_baseline := None;
            pl_candidates := map (fun s => VObject [field "rationale" (VString (sg_rationale s)); field "score" (json_value_f32 (sg_score s));
                                                    field "text" (VString (sg_text s)); field "weight" (json_value_f32 (sg_weight s))]) phrases;
            pl_metrics := VObject [field "suggested" (json_usize (zlen phrases))]; pl_warnings := [] |}
  end.
Definition scope_suggest (m : Moments) (c : ToolCall) (p : ScopeSuggestParams) := tool_run m "scope_suggest" c (Ret (suggest_plan p)).
End Suggest.

(** ** compare_runs *)

(** Equality of JSON values; the fields of an object are sorted. *)
Fixpoint value_eqb (a b : Value) : bool :=
  match a, b with
  | VNull, VNull => true
  | VBool x, VBool y => Bool.eqb x y
  | VNumber u t, VNumber u' t' => bool_decide (u = u') && str_eqb t t'
  | VString s, VString s' => str_eqb s s'
  | VArray l, VArray l' =>
      (fix all l l' := match l, l' with [] , [] => true | x :: l, y :: l' => value_eqb x y && all l l' | _, _ => false end) l l'
  | VObject o, VObject o' =>
      (fix all l l' := match l, l' with
                       | [], [] => true
                       | (k, x) :: l, (k', y) :: l' => str_eqb k k' && value_eqb x y && all l l'
                       | _, _ => false
                       end) o o'
  | _, _ => false
  end.
Definition opt_value_eqb (a b : option Value) : bool :=
  match a, b with Some x, Some y => value_eqb x y | None, None => true | _, _ => false end.
Definition ab (a b : Value) : Value := VObject [field "a" a; field "b" b].
Definition flat_diff (a b : Value) : gmap str Value :=
  match as_object a, as_object b with
  | Some ma, Some mb =>
      fold_left (fun out k => if opt_value_eqb (obj_get ma k) (obj_get mb k) then out
                              else <[k := ab (json_opt (obj_get ma k)) (json_opt (obj_get mb k))]> out)
        (map fst ma ++ map fst mb) ∅
  | _, _ => if value_eqb a b then ∅ else {[lit "_" := ab a b]}
  end.
Record CompareReport := {
  cmp_session_id : str; cmp_run_a : TuneRunRecord; cmp_run_b : TuneRunRecord; cmp_param_diff : gmap str Value;
  cmp_metric_diff : gmap str Value
}.
Definition find_run (id : str) (s : TuneSession) : option TuneRunRecord :=
  List.find (fun r => str_eqb (tr_run_id r) id) (ts_runs s).
Definition compare_runs (now : Z) (id : str) (agent context : option str) (a b : str) (st : SessionStore)
    : result CompareReport TuneError * SessionStore :=
  let '(s, st) := get_session now id agent context st in
  (match s with
   | None => Err SessionNotFound
   | Some s =>
       match find_run a s with
       | None => Err (UnknownRun a)
       | Some ra =>
           match find_run b s with
           | None => Err (UnknownRun b)
           | Some rb => Ok {| cmp_session_id := id; cmp_run_a := ra; cmp_run_b := rb;
                              cmp_param_diff := flat_diff (tr_params ra) (tr_params rb);
                              cmp_metric_diff := flat_diff (tr_metrics ra) (tr_metrics rb) |}
           end
       end
   end, st).

(** ** benchmark *)

Inductive MoveStatus := MNew | MEvicted | MUp | MDown | MStable.
Record Movement := {
  mv_id : str; mv_status : MoveStatus; mv_baseline_rank : option Z; mv_tuned_rank : option Z; mv_baseline_score : f32;
  mv_tuned_score : f32; mv_score_delta : f32
}.
Inductive VerdictLabel := Improved | Degraded | Unchanged | Changed.
Record BenchmarkHit := { bh_id : str; bh_score : f32; bh_rank : Z; bh_content : str }.
Record BenchmarkReport := {
  br_query : str; br_top_k : Z; br_label : VerdictLabel; br_reason : str; br_baseline_count : Z; br_tuned_count : Z;
  br_overlapping_count : Z; br_movements : list Movement; br_baseline : list BenchmarkHit; br_tuned : list BenchmarkHit
}.
(** [iter().position(|r| r.id == id)] *)
Fixpoint position (id : str) (l : list SearchResult) : option nat :=
  match l with [] => None | r :: l => if str_eqb (sr_id r) id then Some O else S <$> position id l end.
Definition rank_of (i : nat) : Z := sat_add 64 (Z.of_nat i) 1.
Definition f32_neg (x : f32) : f32 := SFopp x.
Definition baseline_move (baseline tuned : list SearchResult) (b : SearchResult) : Movement :=
  let b_rank := rank_of (default O (position (sr_id b) baseline)) in
  match position (sr_id b) tuned with
  | Some i =>
      let t_score := from_option score f_zero (tuned !! i) in
      let t_rank := rank_of i in
      {| mv_id := sr_id b; mv_status := if t_rank <? b_rank then MUp else if b_rank <? t_rank then MDown else MStable;
         mv_baseline_rank := Some b_rank; mv_tuned_rank := Some t_rank; mv_baseline_score := score b;
         mv_tuned_score := t_score; mv_score_delta := F32.sub t_score (score b) |}
  | None =>
      {| mv_id := sr_id b; mv_status := MEvicted; mv_baseline_rank := Some b_rank; mv_tuned_rank := None;
         mv_baseline_score := score b; mv_tuned_score := f_zero; mv_score_delta := f32_neg (score b) |}
  end.
Definition tuned_move (tuned : list SearchResult) (t : SearchResult) : Movement :=
  {| mv_id := sr_id t; mv_status := MNew; mv_baseline_rank := None;
     mv_tuned_rank := Some (rank_of (default O (position (sr_id t) tuned))); mv_baseline_score := f_zero;
     mv_tuned_score := score t; mv_score_delta := score t |}.
Definition result_ids (l : list SearchResult) : gset str := list_to_set (map sr_id l).
Definition is_evicted (m : Movement) : bool := match mv_status m with MEvicted => true | _ => false end.
Definition is_new (m : Movement) : bool := match mv_status m with MNew => true | _ => false end.
Definition movements (b t : list SearchResult) : list Movement :=
  map (baseline_move b t) b ++
  map (tuned_move t) (List.filter (fun r => negb (bool_decide (sr_id r ∈ result_ids b))) t).
Definition plural (n : Z) : str := if n =? 1 then [] else lit "s".
Definition verdict (top_k overlapping : Z) (ms : list Movement) : VerdictLabel * str :=
  let evicted := List.filter is_evicted ms in
  let new := List.filter is_new ms in
  let ids l := join_with (lit ", ") (map mv_id l) in
  if 0 <? zlen evicted then
    (Degraded, show_Z (zlen evicted) ++ lit " result" ++ (if zlen evicted =? 1 then lit " evicted" else lit "s evicted") ++
               lit " evicted from top-" ++ show_Z top_k ++ lit ": " ++ ids evicted)
  else if (0 <? zlen new) && (0 <? overlapping) then
    (Improved, show_Z (zlen new) ++ lit " new result" ++ plural (zlen new) ++ lit " surfaced in top-" ++ show_Z top_k ++ lit ": " ++ ids new)
  else if (0 <? zlen new) && (overlapping =? 0) then
    (Changed, lit "complete replacement: " ++ show_Z (zlen new) ++ lit " new result" ++ plural (zlen new) ++ lit " in top-" ++ show_Z top_k)
  else
    (Unchanged, lit "all " ++ show_Z overlapping ++ lit " baseline result" ++ plural overlapping ++ lit " remain in top-" ++
                show_Z top_k ++ lit " at same ranks").
(** [&s[..max]] panics inside a character. *)
Definition truncate_text (s : str) (max : Z) : outcome str :=
  if str_len s <=? max then Ret s else let! p := slice_to max s in Ret (p ++ lit "...").
Fixpoint bench_hits (i : nat) (l : list SearchResult) : outcome (list BenchmarkHit) :=
  match l with
  | [] => Ret []
  | r :: l =>
      let! c := truncate_text (content r) 120 in
      let! hs := bench_hits (S i) l in
      Ret ({| bh_id := sr_id r; bh_score := score r; bh_rank := rank_of i; bh_content := c |} :: hs)
  end.
Definition evaluate (query : str) (baseline tuned : list SearchResult) (top_k : Z) : outcome BenchmarkReport :=
  let b := take (Z.to_nat top_k) baseline in
  let t := take (Z.to_nat top_k) tuned in
  let ms := movements b t in
  let overlapping := Z.of_nat (size (result_ids b ∩ result_ids t)) in
  let '(label, reason) := verdict top_k overlapping ms in
  let! hb := bench_hits 0 b in
  let! ht := bench_hits 0 t in
  Ret {| br_query := query; br_top_k := top_k; br_label := label; br_reason := reason; br_baseline_count := zlen b;
         br_tuned_count := zlen t; br_overlapping_count := overlapping; br_movements := ms; br_baseline := hb; br_tuned := ht |}.
