(* ===== verification/TuneProps.v ===== *)
(** * Properties of the tuning sessions (src/src/proxy/tune/session.rs, tune/apply.rs)

    Sessions of one agent are out of reach of the others, identifiers are not reused,
    one run wins, and an applied export changes one scope of the file and nothing else. *)

From Stdlib Require Import SpecFloat.
From S2P Require Import Prelude Floats Text Types Retry Upstream Scope Auth Settings Vendors Config ConfigProps Grpc GrpcServices Engine.
From S2P Require Import TuneSession.
Open Scope Z_scope.
Open Scope conproxy_scope.

(** ** Acceptance of a changed scope *)

Section Accepted.
Context {O : MapOrder} {L : MapOrderLaws O} `{U : UnicodeCase}.

Definition ctx_accepted (ups : gmap str UpstreamResource) (embs : gmap str EmbedderResource) (kn : str * NamedContext) : Prop :=
  exists c, resolve_named_context ups embs kn = Ok c /\ check_resolved c = Ok tt.

Lemma try_each_ok_all {A B E} (f : A -> result B E) l : (forall x, x ∈ l -> exists y, f x = Ok y) -> exists bs, try_each f l = Ok bs.
Proof.
  induction l as [|x l IH]; intros Hl; [by exists []|]. destruct (Hl x) as [y Hy]; [left|].
  destruct IH as [bs Hb]; [intros z Hz; apply Hl; by right|]. exists (y :: bs). apply try_each_ok. constructor; [done|].
  by apply try_each_ok.
Qed.

(** A file with contexts is accepted by what it contains, in no order. *)
Lemma context_rooted_iff ups embs ctxs agents : ctxs <> ∅ ->
  validate_context_rooted ups embs ctxs agents = Ok tt <->
  ups <> ∅ /\ zlen (defaults (map_to_list ctxs)) = 1 /\ each check_resource (map_order ups) = Ok tt /\
  each check_embedder (map_order embs) = Ok tt /\ (forall k n, ctxs !! k = Some n -> ctx_accepted ups embs (k, n)) /\
  each (check_agent ctxs) agents = Ok tt.
Proof.
  intros Hne. unfold validate_context_rooted.
  assert (Hlen : zlen (defaults (map_order ctxs)) = zlen (defaults (map_to_list ctxs))).
  { unfold zlen, defaults. by rewrite map_order_perm. }
  assert (Hups : (match map_order ups with [] => true | _ => false end) = false <-> ups <> ∅).
  { rewrite <- (map_order_empty ups). by destruct (map_order ups). }
  assert (Hr : (match resolve_all_contexts ups embs ctxs with
                | Err e => Err e
                | Ok resolved => also (each check_resolved resolved) (each (check_agent ctxs) agents)
                end = Ok tt) <->
               (forall k n, ctxs !! k = Some n -> ctx_accepted ups embs (k, n)) /\ each (check_agent ctxs) agents = Ok tt).
  { unfold resolve_all_contexts. split.
    - destruct (try_each _ _) as [rs|] eqn:Er; [|done]. rewrite also_ok, each_ok, Forall_forall. intros [Hc Ha].
      split; [|done]. intros k n Hk. apply try_each_ok in Er. apply elem_of_map_order in Hk.
      destruct (Forall2_elem_l _ _ _ _ Er Hk) as (c & Hin & Hres). exists c. by auto.
    - intros [Hc Ha]. destruct (try_each_ok_all (resolve_named_context ups embs) (map_order ctxs)) as [rs Er].
      { intros [k n] Hk. apply elem_of_map_order in Hk. destruct (Hc _ _ Hk) as (c & Hcc & _). by exists c. }
      rewrite Er, also_ok, each_ok. split; [|done]. apply Forall_forall. intros c Hin. apply try_each_ok in Er.
      destruct (Forall2_elem_r _ _ _ _ Er Hin) as ([k n] & Hk & Hres). apply elem_of_map_order in Hk.
      destruct (Hc _ _ Hk) as (c' & Hc' & Hok). rewrite Hc' in Hres. by simplify_eq. }
  destruct (map_order ctxs) as [|kc kcs] eqn:E; [by apply map_order_empty in E|].
  rewrite reject_ok, Hups, !reject_ok, !also_ok, Hr, <- Hlen. split; intros H; destruct_and!; split_and!; try done; reflect_Z; unfold zlen in *; lia.
Qed.

Lemma accepted_put_scope ups embs k n s : ctx_accepted ups embs (k, n) ->
  ctx_accepted ups embs (k, put_scope s n) <-> scope_config_validate s = Ok tt.
Proof.
  intros (c & Hc & Hok). unfold ctx_accepted, resolve_named_context in *. simpl in *.
  destruct (try_each _ _) as [legs|]; [|done]. destruct (resolve_attached _ _ _) as [emb|]; [|done]. injection Hc as <-.
  unfold check_resolved, check_scope in *. simpl in *. rewrite reject_ok, !also_ok in Hok. destruct Hok as (H1 & H2 & _ & H3).
  split.
  - intros (c' & Hc' & Hok). injection Hc' as <-. simpl in Hok. rewrite reject_ok, !also_ok in Hok.
    destruct Hok as (_ & _ & Hs & _). by destruct (scope_config_validate s) as [[]|].
  - intros Hs. eexists. split; [done|]. simpl. by rewrite Hs, reject_ok, !also_ok.
Qed.
Lemma default_not_accepted ups embs k s : ~ ctx_accepted ups embs (k, put_scope s NamedContext_default).
Proof.
  intros (c & Hc & Hok). apply check_resolved_legs in Hok. apply resolve_context_of in Hc.
  pose proof (ctx_legs _ _ Hc) as Hl. simpl in Hl. by inversion Hl.
Qed.

Lemma defaults_put_scope (m : gmap str NamedContext) k n s : m !! k = Some n ->
  zlen (defaults (map_to_list (<[k := put_scope s n]> m))) = zlen (defaults (map_to_list m)).
Proof.
  intros Hk. rewrite <- (insert_delete_id m k n) at 2 by done. rewrite <- insert_delete_eq. unfold zlen, defaults.
  rewrite !map_to_list_insert by apply lookup_delete_eq. rewrite !filter_cons.
  by destruct (is_default n) eqn:E; simpl; unfold is_default in *; simpl; rewrite E.
Qed.

Lemma check_agent_known m m' a : (forall c, is_Some (m !! c) <-> is_Some (m' !! c)) -> check_agent m a = check_agent m' a.
Proof.
  intros Hd. unfold check_agent. assert (Hk : forall c, match m !! c with Some _ => true | None => false end =
    match m' !! c with Some _ => true | None => false end :> bool).
  { intros c. specialize (Hd c). destruct (m !! c), (m' !! c); try done; exfalso; [|symmetry in Hd];
      by destruct (proj1 Hd (mk_is_Some _ _ eq_refl)). }
  f_equal. f_equal; [|by destruct (ac_default_context a); simpl; rewrite ?Hk].
  induction (ac_allowed_contexts a) as [|c l IH]; [done|]. simpl. by rewrite Hk, IH.
Qed.

(** A configuration that was accepted is still accepted after the scope of a tuned
    context is written into it exactly when that context was already there and the new
    scope passes the checks of the scope section. *)
Lemma upsert_accepted (c : ConfigFile) (id : str) (s : ProxyScopeConfig) (HV : config_validate c = Ok tt) :
  config_validate (upsert_scope id s c) = Ok tt <->
  is_Some (cf_contexts c !! id) /\ scope_config_validate s = Ok tt.
Proof.
  pose proof (validate_tables _ HV) as HT. assert (Hu : config_validate (upsert_scope id s c) = Ok tt <->
    validate_context_rooted (cf_upstreams c) (cf_embedders c) (cf_contexts (upsert_scope id s c)) (agents_for_ctx c) = Ok tt).
  { unfold config_validate in *. split_checks_in HV. split_checks. change (agents_for_ctx (upsert_scope id s c)) with (agents_for_ctx c).
    simpl. tauto. }
  rewrite Hu. simpl. clear Hu HV. rewrite context_rooted_iff by apply insert_non_empty.
  destruct (cf_contexts c !! id) as [n|] eqn:En; simpl.
  - apply context_rooted_iff in HT as (H1 & H2 & H3 & H4 & H5 & H6); [|by intros E; rewrite E, lookup_empty in En].
    rewrite (defaults_put_scope _ _ _ _ En). split.
    + intros (_ & _ & _ & _ & Hc & _). split; [done|]. apply (accepted_put_scope _ _ _ _ _ (H5 _ _ En)). apply Hc, lookup_insert_eq.
    + intros [_ Hs]. split_and!; try done.
      * intros k m [[<- <-]|[Hne Hk]]%lookup_insert_Some; [by apply accepted_put_scope; [apply H5|]|by apply H5].
      * rewrite each_ok in H6 |- *. eapply Forall_impl; [apply H6|]. simpl. intros a Ha.
        rewrite <- (check_agent_known (cf_contexts c)); [done|]. intros k. rewrite lookup_insert_is_Some'.
        split; [by right|]. intros [<-|?]; [by rewrite En|done].
  - split; [|by intros [[? ?] _]]. intros (_ & _ & _ & _ & Hc & _). exfalso.
    eapply default_not_accepted, Hc, lookup_insert_eq.
Qed.
End Accepted.

(** ** Identifiers *)

Lemma split_last_dash (l1 l2 d1 d2 : str) : 45 ∉ d1 -> 45 ∉ d2 -> l1 ++ 45 :: d1 = l2 ++ 45 :: d2 -> d1 = d2.
Proof.
  revert l2. induction l1 as [|c l1 IH]; intros [|c' l2] H1 H2 He; simpl in He.
  - by injection He.
  - injection He as _ ->. exfalso. apply H1. set_solver.
  - injection He as _ <-. exfalso. apply H2. set_solver.
  - injection He as _ He. by eapply IH.
Qed.
Lemma show_Z_no_dash n : 0 <= n -> 45 ∉ show_Z n.
Proof.
  intros Hn Hin. pose proof (digits_aux_digits 20 n [] Hn (Forall_nil_2 _)) as Hd. rewrite Forall_forall in Hd.
  by specialize (Hd _ Hin).
Qed.
(** The counter can be read off an identifier. *)
Lemma new_id_counter p w1 w2 n1 n2 : 0 <= n1 < 10 ^ 20 -> 0 <= n2 < 10 ^ 20 ->
  (new_id p w1 n1).1 = (new_id p w2 n2).1 -> n1 = n2.
Proof.
  unfold new_id. simpl. intros H1 H2. rewrite !app_comm_cons, !app_assoc. intros He.
  apply show_Z_inj; [done|done|]. eapply split_last_dash; [| |apply He]; apply show_Z_no_dash; lia.
Qed.

(** ** Who reaches which session *)

Inductive sop :=
| SOpen (now wall : Z) (agent context : str) (id : option str)
| SGet (now : Z) (id : str) (agent context : option str)
| SClose (id : str) (agent : option str)
| SList (now : Z) (agent : str) (context : option str)
| SAppend (now : Z) (id : str) (agent : option str) (run : TuneRunRecord)
| SSelect (now : Z) (id : str) (agent : option str) (run_id : str).

Section Sessions.
Context {O : MapOrder} {L : MapOrderLaws O}.

Definition s_apply (st : SessionStore) (o : sop) : SessionStore :=
  match o with
  | SOpen now wall a c id => (open_session now wall a c id st).2
  | SGet now id a c => (get_checked now id a c st).2
  | SClose id a => (close_with_reason id a st).2
  | SList now a c => (list_sessions now a c st).2
  | SAppend now id a r => (append_run now id a r st).2
  | SSelect now id a r => (select_run now id a r st).2
  end.
Definition s_run (ops : list sop) (st : SessionStore) : SessionStore := fold_left s_apply ops st.
(** The owners of the sessions an operation shows. *)
Definition shown (st : SessionStore) (o : sop) : list str :=
  match o with
  | SOpen now wall a c id => match (open_session now wall a c id st).1 with Ok s => [ts_agent_id s] | Err _ => [] end
  | SGet now id a c => match (get_checked now id a c st).1 with Ok s => [ts_agent_id s] | Err _ => [] end
  | SList now a c => map sm_agent_id (list_sessions now a c st).1
  | SClose _ _ | SAppend _ _ _ _ | SSelect _ _ _ _ => []
  end.
Definition caller (o : sop) : option str :=
  match o with
  | SOpen _ _ a _ _ | SList _ a _ => Some a
  | SGet _ _ a _ | SClose _ a | SAppend _ _ a _ | SSelect _ _ a _ => a
  end.
Definition s_time (o : sop) : option Z :=
  match o with
  | SOpen now _ _ _ _ | SGet now _ _ _ | SList now _ _ | SAppend now _ _ _ | SSelect now _ _ _ => Some now
  | SClose _ _ => None
  end.

Definition owned (a : str) (st : SessionStore) : gmap str TuneSession :=
  filter (fun ks => ts_agent_id ks.2 = a) (st_sessions st).
(** What is left of sessions when time alone passes. *)
Definition expire (ttl : Z) (m : gmap str TuneSession) (o : sop) : gmap str TuneSession :=
  match s_time o with Some now => filter (fun ks => alive now ttl ks.2 = true) m | None => m end.

(** Keys are the identifiers of their sessions and carry a counter below the next. *)
Record store_wf (st : SessionStore) : Prop := {
  wf_next : 1 <= st_next_id st;
  wf_ids : forall id s, st_sessions st !! id = Some s -> ts_session_id s = id /\
    exists w n, id = (new_id (lit "sess") w n).1 /\ 0 <= n < st_next_id st
}.

Lemma agent_check_owner id b s : agent_check id (Some b) s = Ok tt -> ts_agent_id s = b.
Proof. simpl. unfold str_eqb. by case_bool_decide. Qed.
Lemma agent_check_unit id a s u : agent_check id a s = Ok u -> agent_check id a s = Ok tt.
Proof. by destruct u. Qed.

Lemma evict_lookup now st id s : st_sessions (evict_expired now st) !! id = Some s ->
  st_sessions st !! id = Some s /\ alive now (st_ttl st) s = true.
Proof. simpl. by intros [? ?]%map_lookup_filter_Some. Qed.
Lemma wf_evict now st : store_wf st -> store_wf (evict_expired now st).
Proof. intros [Hn Hi]. split; [done|]. intros id s [Hs _]%evict_lookup. by apply Hi. Qed.
Lemma wf_put id s s0 st : store_wf st -> st_sessions st !! id = Some s0 -> ts_session_id s = ts_session_id s0 -> store_wf (put_session id s st).
Proof.
  intros [Hn Hi] H0 Hs. split; [done|]. simpl. intros k s' [[<- <-]|[_ Hk]]%lookup_insert_Some; [|by apply Hi].
  destruct (Hi _ _ H0) as [Hid Hw]. by rewrite Hs.
Qed.
Lemma open_fresh now wall a c st : store_wf st -> st_next_id st < u64_max -> store_wf (open_session now wall a c None st).2.
Proof.
  intros [Hn Hi]%(wf_evict now) Hm. simpl in Hn, Hi.
  assert (Hw : wrap 64 (st_next_id st + 1) = st_next_id st + 1) by (apply wrap_small; unfold in_u, u64_max in *; lia).
  split; simpl; rewrite Hw; [lia|]. intros k s [[<- <-]|[_ Hk]]%lookup_insert_Some.
  - split; [done|]. exists wall, (st_next_id st). split; [done|lia].
  - destruct (Hi _ _ Hk) as (? & w & n & ? & ?). split; [done|]. exists w, n. split; [done|lia].
Qed.

(** Every operation keeps the store well formed; only a new session moves the counter. *)
Lemma s_apply_wf st o : store_wf st -> st_next_id st < u64_max ->
  store_wf (s_apply st o) /\ st_next_id st <= st_next_id (s_apply st o) <= st_next_id st + 1.
Proof.
  intros Hw Hm. pose proof (fun now => wf_evict now st Hw) as He.
  assert (Hp : forall now id s s0, st_sessions (evict_expired now st) !! id = Some s0 -> ts_session_id s = ts_session_id s0 ->
    store_wf (put_session id s (evict_expired now st)) /\
    st_next_id st <= st_next_id (put_session id s (evict_expired now st)) <= st_next_id st + 1)
    by (intros; split; [by eapply wf_put; eauto|simpl; lia]).
  destruct o as [now wall a c [id|]|now id a c|id a|now a c|now id a r|now id a r]; simpl.
  2: { split; [by apply open_fresh|]. simpl. rewrite wrap_small; unfold in_u, u64_max in *; destruct Hw; lia. }
  all: unfold get_checked, close_with_reason, append_run, select_run.
  all: repeat match goal with
    | |- context [match ?m !! ?k with _ => _ end] => destruct (m !! k) as [s0|] eqn:E
    | |- context [match agent_check ?i ?a ?s with _ => _ end] => destruct (agent_check i a s)
    | |- context [match context_check ?i ?a ?s with _ => _ end] => destruct (context_check i a s)
    | |- context [if ?b then _ else _] => destruct b
    end; simpl.
  all: try (split; [first [apply He|done]|simpl; lia]).
  all: try (by eapply Hp; eauto).
  split; [|lia]. destruct Hw as [Hn Hi]. split; [done|]. simpl. intros k s' [_ Hk]%lookup_delete_Some. by apply Hi.
Qed.

Lemma owned_evict a now st : owned a (evict_expired now st) = filter (fun ks => alive now (st_ttl st) ks.2 = true) (owned a st).
Proof. unfold owned. simpl. apply map_filter_comm. Qed.
Lemma owned_put a id s st : ts_agent_id s <> a -> (forall s0, st_sessions st !! id = Some s0 -> ts_agent_id s0 <> a) ->
  owned a (put_session id s st) = owned a st.
Proof.
  intros Hs H0. unfold owned. simpl. rewrite map_filter_insert_False by done. by apply map_filter_delete_not.
Qed.
Lemma owned_delete a id st ttl next : (forall s0, st_sessions st !! id = Some s0 -> ts_agent_id s0 <> a) ->
  owned a {| st_sessions := delete id (st_sessions st); st_ttl := ttl; st_next_id := next |} = owned a st.
Proof. intros H0. unfold owned. simpl. by apply map_filter_delete_not. Qed.

(** An operation of another agent does to a session what the passing of time does. *)
Lemma foreign_step a b st o : store_wf st -> st_next_id st < u64_max -> caller o = Some b -> b <> a ->
  owned a (s_apply st o) = expire (st_ttl st) (owned a st) o /\ Forall (eq b) (shown st o).
Proof.
  intros Hw Hm Hc Hb. pose proof (fun now => owned_evict a now st) as Ho.
  assert (Hk : forall now id s0 s, st_sessions (evict_expired now st) !! id = Some s0 -> ts_agent_id s0 = b -> ts_agent_id s = b ->
    owned a (put_session id s (evict_expired now st)) = filter (fun ks => alive now (st_ttl st) ks.2 = true) (owned a st)).
  { intros now id s0 s H0 Hs0 Hs. rewrite <- Ho. apply owned_put; [by rewrite Hs|]. intros s1 H1. rewrite H0 in H1. by simplify_eq. }
  unfold expire. destruct o as [now wall a' c [id|]|now id a' c|id a'|now a' c|now id a' r|now id a' r]; simpl in *; subst; try injection Hc as ->.
  2: { split; [|by repeat constructor]. rewrite <- Ho. etransitivity; [apply owned_put; [done|]|done].
    simpl. intros s0 H0. exfalso. destruct (wf_ids _ (wf_evict now _ Hw) _ _ H0) as (_ & w & n & Hid & Hn). simpl in Hn.
    destruct Hw as [Hw _]. unfold u64_max, u_max in *.
    pose proof (new_id_counter (lit "sess") wall w (st_next_id st) n ltac:(lia) ltac:(lia) Hid). lia. }
  4: { split; [done|]. apply Forall_forall. intros x Hx. apply list_elem_of_In, in_map_iff in Hx as (sm & <- & Hsm).
    apply in_map_iff in Hsm as ([k s] & <- & Hks). apply filter_In in Hks as [_ Hks]. simpl in *.
    apply andb_true_iff in Hks as [Hks _]. unfold str_eqb in Hks. by case_bool_decide. }
  all: unfold get_checked, close_with_reason, append_run, select_run.
  all: match goal with |- context [match ?m !! ?k with _ => _ end] => destruct (m !! k) as [s0|] eqn:E end; [|by split; simpl].
  1: { unfold str_eqb. case_bool_decide as Ha; simpl; [|by split]. case_bool_decide; simpl; [|by split].
    split; [by eapply Hk|by repeat constructor]. }
  all: destruct (agent_check id (Some b) s0) as [u|] eqn:Ea; [|by split; simpl].
  all: apply agent_check_unit, agent_check_owner in Ea; simpl.
  - destruct (context_check _ _ _); simpl; [|by split]. split; [by eapply Hk|by repeat constructor].
  - split; [|done]. apply owned_delete. intros s1 H1. rewrite E in H1. by simplify_eq.
  - split; [|done]. eapply Hk; [done|done|]. unfold add_run. by destruct (tr_selected r).
  - split; [|done]. destruct (existsb _ _); simpl; by eapply Hk.
Qed.

Lemma s_apply_ttl st o : st_ttl (s_apply st o) = st_ttl st.
Proof.
  destruct o as [now wall a c [id|]|now id a c|id a|now a c|now id a r|now id a r]; simpl;
    unfold get_checked, close_with_reason, append_run, select_run; by repeat case_match.
Qed.
Lemma s_run_wf ops : forall st, store_wf st -> st_next_id st + zlen ops <= u64_max ->
  store_wf (s_run ops st) /\ st_next_id (s_run ops st) <= st_next_id st + zlen ops /\ st_ttl (s_run ops st) = st_ttl st.
Proof.
  induction ops as [|o ops IH]; intros st Hw Hm; [simpl; unfold zlen; split; [done|lia]|]. rewrite zlen_cons in *.
  pose proof (zlen_nonneg ops). destruct (s_apply_wf st o Hw) as [Hw' Hn']; [lia|].
  destruct (IH (s_apply st o)) as (H1 & H2 & H3); [done|lia|]. rewrite s_apply_ttl in H3. split; [done|]. simpl. split; [lia|done].
Qed.
Lemma new_wf ttl : store_wf (TuneSessionStore_new ttl).
Proof. by split. Qed.

(** C28: sessions are private.  From a new store, whatever was done before: operations in
    the name of other agents change the sessions of an agent exactly as the passing of
    time does, namely by dropping those that were idle for the time to live, and they
    show no session of it; identifiers are never given out twice, so that opening a
    session replaces none.  (The counter of identifiers must not wrap.) *)
Theorem sessions_private (ttl : Z) (before after : list sop) (a : str)
    (HC : zlen before + zlen after < u64_max)
    (HA : Forall (fun o => exists b, caller o = Some b /\ b <> a) after) :
  let st := s_run before (TuneSessionStore_new ttl) in
  owned a (s_run after st) = fold_left (expire (st_ttl st)) after (owned a st) /\
  forall i o, after !! i = Some o -> a ∉ shown (s_run (take i after) st) o.
Proof.
  intros st. destruct (s_run_wf before _ (new_wf ttl)) as (Hw & Hn & _).
  { simpl. pose proof (zlen_nonneg after). lia. }
  simpl in Hn. fold st in Hw, Hn. assert (Hc : st_next_id st + zlen after <= u64_max) by lia. clearbody st. clear HC Hn.
  revert st Hw Hc. induction HA as [|o after (b & Hb & Hne) _ IH]; intros st Hw Hc; [by split; [|intros i]|].
  rewrite zlen_cons in Hc. pose proof (zlen_nonneg after).
  destruct (foreign_step a b st o Hw) as [Hs Hshow]; [lia|done|done|].
  destruct (s_apply_wf st o Hw) as [Hw' Hn']; [lia|]. destruct (IH (s_apply st o) Hw') as [IH1 IH2]; [lia|].
  rewrite s_apply_ttl in IH1. simpl. rewrite <- Hs. split; [done|]. intros [|i] o' Ho'; simpl in *; [|by apply IH2].
  simplify_eq. intros Hin. rewrite Forall_forall in Hshow. by specialize (Hshow _ Hin).
Qed.
End Sessions.

(** ** The run that wins *)

Lemma find_app {A} (f : A -> bool) l k : List.find f (l ++ k) = or_else (List.find f l) (List.find f k).
Proof. induction l as [|x l IH]; simpl; [done|]. by destruct (f x). Qed.
(** A tool records an unselected run: a run that was selected before it still wins. *)
Lemma winner_kept l r w : List.find tr_selected (reverse l) = Some w -> tr_selected r = false -> winner (l ++ [r]) = Some w.
Proof. intros Hw Hr. unfold winner. rewrite reverse_app. simpl. by rewrite Hr, Hw. Qed.
Lemma winner_last l r : List.find tr_selected (reverse l) = None -> winner (l ++ [r]) = Some r.
Proof.
  intros Hw. unfold winner. rewrite reverse_app, last_snoc. simpl. by destruct (tr_selected r); [|rewrite Hw].
Qed.

Lemma find_selected_in run_id l : List.find tr_selected (reverse (select_in run_id l)) =
  put_selected true <$> List.find (fun r => str_eqb (tr_run_id r) run_id) (reverse l).
Proof.
  unfold select_in. change (map ?f l) with (f <$> l). rewrite <- fmap_reverse. induction (reverse l) as [|r k IH]; [done|].
  simpl. destruct (str_eqb (tr_run_id r) run_id) eqn:E; simpl; [|done]. done.
Qed.
Lemma existsb_select run_id l : existsb (fun r => str_eqb (tr_run_id r) run_id) (select_in run_id l) =
  existsb (fun r => str_eqb (tr_run_id r) run_id) l.
Proof. induction l as [|r l IH]; [done|]. simpl. by rewrite IH. Qed.
Lemma find_existsb {A} (f : A -> bool) l : List.find f l = None <-> existsb f l = false.
Proof. induction l as [|x l IH]; simpl; [done|]. by destruct (f x). Qed.
Lemma existsb_reverse {A} (f : A -> bool) l : existsb f (reverse l) = existsb f l.
Proof.
  apply eq_true_iff_eq. rewrite !existsb_exists. split; intros (x & Hx & Hf); exists x; split; try done;
    apply list_elem_of_In; apply list_elem_of_In in Hx; by rewrite elem_of_reverse in *.
Qed.

(** Selecting a run settles what is exported.  For a live session of the caller, a run
    that exists is exported from then on, whatever unselected runs are added; a run that
    does not exist is refused, but the selection made before is lost and the last run is
    exported instead. *)
Theorem select_settles (now : Z) (id a run_id : str) (st : SessionStore) (s : TuneSession) (new : list TuneRunRecord)
    (HS : st_sessions st !! id = Some s) (HA : ts_agent_id s = a) (HL : alive now (st_ttl st) s = true)
    (HN : Forall (fun r => tr_selected r = false) new) :
  let '(r, st') := select_run now id (Some a) run_id st in
  exists s', st_sessions st' !! id = Some s' /\ map tr_run_id (ts_runs s') = map tr_run_id (ts_runs s) /\
  match List.find (fun r => str_eqb (tr_run_id r) run_id) (reverse (ts_runs s)) with
  | Some w => r = Ok tt /\ winner (ts_runs s' ++ new) = Some (put_selected true w)
  | None => r = Err (UnknownRun run_id) /\ winner (ts_runs s' ++ new) = last (ts_runs s' ++ new)
  end.
Proof.
  unfold select_run. assert (HE : st_sessions (evict_expired now st) !! id = Some s).
  { simpl. by apply map_lookup_filter_Some. }
  rewrite HE. unfold agent_check, str_eqb at 1. rewrite bool_decide_true by done. cbn [ts_runs put_runs]. rewrite existsb_select, <- existsb_reverse.
  assert (Hids : map tr_run_id (select_in run_id (ts_runs s)) = map tr_run_id (ts_runs s)).
  { unfold select_in. rewrite map_map. apply map_ext. by intros []. }
  assert (Hnew : List.find tr_selected (reverse new) = None).
  { apply find_existsb. rewrite existsb_reverse. induction HN as [|r l Hr _ IH]; [done|]. simpl. by rewrite Hr. }
  assert (Hw : winner (select_in run_id (ts_runs s) ++ new) =
    or_else (put_selected true <$> List.find (fun r => str_eqb (tr_run_id r) run_id) (reverse (ts_runs s)))
      (last (select_in run_id (ts_runs s) ++ new))).
  { unfold winner. by rewrite reverse_app, find_app, Hnew, find_selected_in. }
  destruct (List.find (fun r => str_eqb (tr_run_id r) run_id) (reverse (ts_runs s))) as [w|] eqn:Ef; simpl in Hw.
  - destruct (existsb _ _) eqn:Ex; [|by apply find_existsb in Ex; rewrite Ex in Ef].
    eexists. split; [apply lookup_insert_eq|]. by split.
  - rewrite (proj1 (find_existsb _ _) Ef). eexists. split; [apply lookup_insert_eq|]. by split.
Qed.

(** ** The written file *)

(** The file system after a write. *)
Definition written {IoE} (read : str -> option (result str IoE)) (path text : str) (p : str) : option (result str IoE) :=
  if str_eqb p path then Some (Ok text) else read p.

Section Applied.
Context {O : MapOrder} {L : MapOrderLaws O} `{U : UnicodeCase} `{NumberViews} `{ScopeJson}.
Context {IoE TomlE : Type} (read : str -> option (result str IoE)) (parse : str -> result ConfigFile TomlE).
Context (global_path local_path : str) (local_root : result str (LoadError IoE TomlE)).
Context (print : ConfigFile -> option str) (writable : str -> bool) (not_found : IoE).

(** Applying a session's winning run to a configuration file rewrites the scope of its
    context and nothing else; the file can be loaded again exactly when it already had
    that context and the exported scope passes validation.  In particular, applying to a
    context that the file does not have leaves a file that no longer loads.  (The printed
    file is read back as what was printed.) *)
Theorem apply_reloads (now : Z) (id : str) (agent context : option str) (p path text : str) (st st' : SessionStore)
    (rep : ApplyReport)
    (HA : apply_tune_export read parse global_path local_path local_root print writable not_found now id agent context
            (Some p) st = (Ok (rep, (path, text)), st')) :
  exists s run c scope,
    (get_session now id agent context st).1 = Some s /\ winner (ts_runs s) = Some run /\
    Config_load_from read parse not_found p = Ok c /\ scope_from_value (scope_of (tr_params run)) = Ok scope /\
    path = p /\ print (upsert_scope (ts_context_id s) scope c) = Some text /\
    ar_source_run_id rep = tr_run_id run /\
    (ar_context_created rep = false <-> is_Some (cf_contexts c !! ts_context_id s)) /\
    (parse text = Ok (upsert_scope (ts_context_id s) scope c) ->
     Config_load_from (written read path text) parse not_found p =
       match config_validate (upsert_scope (ts_context_id s) scope c) with
       | Ok _ => Ok (upsert_scope (ts_context_id s) scope c)
       | Err e => Err (ConfigValidation e)
       end /\
     (is_ok (Config_load_from (written read path text) parse not_found p) = true <->
      ar_context_created rep = false /\ scope_config_validate scope = Ok tt)).
Proof.
  unfold apply_tune_export, export in HA. destruct (get_session now id agent context st) as [[s|] st1]; [|done].
  destruct (winner (ts_runs s)) as [run|] eqn:Ew; [|done]. unfold apply_export_artifact in HA. simpl in HA.
  destruct (Config_load_from read parse not_found p) as [c|] eqn:Ec; [|done].
  destruct (scope_from_value _) as [scope|] eqn:Es; [|done].
  destruct (print _) as [text'|] eqn:Ep; [|done]. destruct (writable p); [|done]. injection HA as <- <- <- <-.
  exists s, run, c, scope. simpl. split_and!; try done.
  - rewrite negb_false_iff. apply bool_decide_eq_true.
  - intros Hp. assert (Hl : Config_load_from (written read p text') parse not_found p =
       match config_validate (upsert_scope (ts_context_id s) scope c) with
       | Ok _ => Ok (upsert_scope (ts_context_id s) scope c) | Err e => Err (ConfigValidation e) end).
    { unfold Config_load_from, written, str_eqb. rewrite bool_decide_true by done. simpl. rewrite Hp. by destruct (config_validate _). }
    split; [done|]. rewrite Hl, negb_false_iff, bool_decide_eq_true. rewrite <- upsert_accepted.
    + by destruct (config_validate (upsert_scope _ _ _)) as [[]|].
    + unfold Config_load_from in Ec. destruct (default _ _) as [t|]; [|done]. destruct (parse t) as [c0|]; [|done].
      destruct (config_validate c0) as [[]|] eqn:Ev; [|done]. by simplify_eq.
Qed.
End Applied.

(** ** Witnesses *)

Definition tune_run (id : string) (sel : bool) : TuneRunRecord :=
  {| tr_run_id := lit id; tr_tool := lit "scope_tune"; tr_params := VObject [field "mode" (VString (lit "boost"))];
     tr_metrics := VObject []; tr_selected := sel |}.

Definition second : Z := nanos_per_sec.
(** Two sessions of two agents; the second agent works, and the first one's session expires. *)
Definition tune_before : list sop := [SOpen 0 7 (lit "ann") (lit "docs") None; SOpen 0 7 (lit "bob") (lit "docs") None].
Definition bob_id : str := (new_id (lit "sess") 7 2).1.
Definition tune_after : list sop :=
  [SAppend (5 * second) bob_id (Some (lit "bob")) (tune_run "r1" false); SList (9 * second) (lit "bob") None;
   SClose (new_id (lit "sess") 7 1).1 (Some (lit "bob")); SGet (10 * second) bob_id (Some (lit "bob")) None].
Lemma sessions_private_witness :
  let st := s_run (O := ListedOrder) tune_before (TuneSessionStore_new 10) in
  size (owned (lit "ann") (s_run (O := ListedOrder) (take 3 tune_after) st)) = 1%nat /\
  size (owned (lit "ann") (s_run (O := ListedOrder) tune_after st)) = 0%nat /\
  owned (lit "ann") (s_run (O := ListedOrder) tune_after st) =
    fold_left (expire (st_ttl st)) tune_after (owned (lit "ann") st).
Proof.
  split; [by vm_compute|]. split; [by vm_compute|].
  apply (sessions_private (O := ListedOrder) 10 tune_before tune_after (lit "ann")).
  - by vm_compute.
  - repeat constructor; exists (lit "bob"); split; done.
Defined.

Definition tuned_session : TuneSession :=
  {| ts_session_id := lit "s"; ts_agent_id := lit "ann"; ts_context_id := lit "docs"; ts_created_at_ms := 0;
     ts_last_touch := 0; ts_runs := [tune_run "r1" true; tune_run "r2" false] |}.
Definition tuned_store : SessionStore := {| st_sessions := {[lit "s" := tuned_session]}; st_ttl := 10 * second; st_next_id := 2 |}.
Lemma select_settles_witness :
  winner (ts_runs tuned_session) = Some (tune_run "r1" true) /\
  match select_run 1 (lit "s") (Some (lit "ann")) (lit "r9") tuned_store with
  | (r, st') => r = Err (UnknownRun (lit "r9")) /\ winner (from_option ts_runs [] (st_sessions st' !! lit "s")) = Some (tune_run "r2" false)
  end.
Proof.
  split; [done|]. pose proof (select_settles 1 (lit "s") (lit "ann") (lit "r9") tuned_store tuned_session []
    eq_refl eq_refl eq_refl (Forall_nil_2 _)) as H.
  destruct (select_run 1 (lit "s") (Some (lit "ann")) (lit "r9") tuned_store) as [r st'] eqn:E.
  destruct H as (s' & Hs & Hi & Hr & Hw). split; [done|]. rewrite Hs. simpl. rewrite app_nil_r in Hw. rewrite Hw.
  vm_compute in E. injection E as _ <-. vm_compute in Hs. by injection Hs as <-.
Defined.

(** A reader of scopes that knows the mode, and files that are printed as one letter. *)
Definition mode_scope (m : str) : ProxyScopeConfig :=
  {| weighted_phrases := []; cfg_seeds := []; cfg_mode := Some m; cfg_min_seed_similarity := None; cfg_seed_weight := None;
     cfg_query_prefix := None; cfg_lexical_weight := None; cfg_embed_band := None |}.
Definition ModeJson : ScopeJson := fun v => match and_then (v_get v "mode") as_str with Some m => Ok (mode_scope m) | None => Err [] end.
Definition NoNumbers : NumberViews := {| as_i64 := fun _ => None; as_f64 := fun _ => None; display_f64 := fun _ => [] |}.
Definition docs_read (p : str) : option (result str unit) := Some (Ok (lit "a")).
Definition docs_parse (t : str) : result ConfigFile unit :=
  if str_eqb t (lit "a") then Ok (shared_file None)
  else Ok (upsert_scope (lit "docs") (mode_scope (lit "boost")) (shared_file None)).
Definition docs_apply := @apply_tune_export ListedOrder AsciiCase NoNumbers ModeJson unit unit docs_read docs_parse
  (lit "g") (lit "l") (Ok []) (fun _ => Some (lit "b")) (fun _ => true) tt.
Lemma apply_reloads_witness :
  exists rep st', docs_apply 1 (lit "s") (Some (lit "ann")) None (Some (lit "x")) tuned_store = (Ok (rep, (lit "x", lit "b")), st') /\
  ar_context_created rep = false /\
  is_ok (@Config_load_from ListedOrder AsciiCase unit unit (written docs_read (lit "x") (lit "b")) docs_parse tt (lit "x")) = true.
Proof.
  destruct (docs_apply 1 (lit "s") (Some (lit "ann")) None (Some (lit "x")) tuned_store) as [[[rep [path text]]|] st'] eqn:E;
    [|vm_compute in E; discriminate E].
  assert (Hp : path = lit "x" /\ text = lit "b" /\ ar_context_created rep = false)
    by (vm_compute in E; injection E as <- <- <- _; by vm_compute).
  destruct Hp as (-> & -> & Hc). exists rep, st'. split; [done|]. split; [done|].
  destruct (@apply_reloads ListedOrder _ AsciiCase NoNumbers ModeJson unit unit docs_read docs_parse (lit "g") (lit "l") (Ok [])
    (fun _ => Some (lit "b")) (fun _ => true) tt _ _ _ _ _ _ _ _ _ rep E) as (s & run & c & scope & Hs & Hr & Hl & Hsc & _ & _ & _ & _ & Hlast).
  vm_compute in Hs. injection Hs as <-. vm_compute in Hr. injection Hr as <-. vm_compute in Hsc. injection Hsc as <-.
  assert (Hc' : shared_file None = c) by (unfold Config_load_from in Hl; simpl in Hl;
    destruct (config_validate (shared_file None)); [by injection Hl|done]).
  subst c. apply Hlast; [reflexivity|]. split; [done|by vm_compute].
Defined.
