(* ===== verification/TuneToolsProps.v ===== *)
(** * Properties of the tuning tools (src/src/proxy/tune/) *)

From Stdlib Require Import SpecFloat.
From S2P Require Import Prelude Floats Text Types Cache CacheProps CacheFresh Retry Upstream Scope Settings Vendors Config ConfigProps.
From S2P Require Import TuneSession TuneTools TuneProps.
Open Scope Z_scope.
Open Scope conproxy_scope.

(** ** The frame *)

Lemma str_eqb_refl s : str_eqb s s = true.
Proof. unfold str_eqb. by rewrite bool_decide_true. Qed.
Lemma get_live now id agent context st s : st_sessions st !! id = Some s -> alive now (st_ttl st) s = true ->
  agent_check id agent s = Ok tt -> context_check id context s = Ok tt ->
  get_session now id agent context st = (Some (touch_session now s), put_session id (touch_session now s) (evict_expired now st)).
Proof.
  intros Hs Hl Ha Hc. unfold get_session, get_checked. assert (He : st_sessions (evict_expired now st) !! id = Some s).
  { simpl. by apply map_lookup_filter_Some. }
  by rewrite He, Ha, Hc.
Qed.
Lemma append_live now id agent run st s : st_sessions st !! id = Some s -> alive now (st_ttl st) s = true ->
  agent_check id agent s = Ok tt ->
  append_run now id agent run st = (Ok tt, put_session id (add_run run (touch_session now s)) (evict_expired now st)).
Proof.
  intros Hs Hl Ha. unfold append_run. assert (He : st_sessions (evict_expired now st) !! id = Some s).
  { simpl. by apply map_lookup_filter_Some. }
  by rewrite He, Ha.
Qed.
Lemma touched_alive t now ttl s : now - t < ttl -> 0 < ttl -> alive now ttl (touch_session t s) = true.
Proof. intros. unfold alive, elapsed. simpl. apply Z.ltb_lt. lia. Qed.
Lemma put_evict_others id x now st k s' : k <> id -> st_sessions (put_session id x (evict_expired now st)) !! k = Some s' ->
  st_sessions st !! k = Some s'.
Proof. intros Hk. simpl. rewrite lookup_insert_ne by done. by intros [? _]%map_lookup_filter_Some. Qed.

Section Frame.
Context {A : Type}.

(** A tuning tool on a live session of its caller returns what it computed and records
    it as one more run, unselected, at the end of the session; a tool that refuses its
    input or panics records nothing; no other session changes, except by expiring. *)
Lemma tool_run_exact (m : Moments) (tool : string) (c : ToolCall) (plan : outcome (result (Planned A) TuneError))
    (st : SessionStore) (s : TuneSession)
    (HS : st_sessions st !! tc_session_id c = Some s) (HL : alive (at_lookup m) (st_ttl st) s = true)
    (HA : agent_check (tc_session_id c) (tc_agent_id c) s = Ok tt)
    (HC : context_check (tc_session_id c) (tc_context_id c) s = Ok tt)
    (HT : at_recording m - at_lookup m < st_ttl st) :
  let '(r, st') := tool_run m tool c plan st in
  match plan with
  | Ret (Ok p) =>
      r = Ret (Ok {| tl_run_id := new_run_id (at_naming m); tl_value := pl_value p; tl_warnings := pl_warnings p;
                     tl_report := report_of tool c (new_run_id (at_naming m)) p |}) /\
      st_sessions st' !! tc_session_id c =
        Some (put_runs (ts_runs s ++ [run_of tool (new_run_id (at_naming m)) p]) (touch_session (at_recording m) s))
  | Ret (Err e) => r = Ret (Err e) /\ st_sessions st' !! tc_session_id c = Some (touch_session (at_lookup m) s)
  | Panic => r = Panic /\ st_sessions st' !! tc_session_id c = Some (touch_session (at_lookup m) s)
  end /\
  (forall k s', k <> tc_session_id c -> st_sessions st' !! k = Some s' -> st_sessions st !! k = Some s').
Proof.
  unfold tool_run. rewrite (get_live _ _ _ _ _ _ HS HL HA HC).
  assert (H1 : st_sessions (put_session (tc_session_id c) (touch_session (at_lookup m) s) (evict_expired (at_lookup m) st)) !! tc_session_id c
               = Some (touch_session (at_lookup m) s)) by apply lookup_insert_eq.
  destruct plan as [[p|e]|].
  - rewrite (append_live _ _ _ _ _ _ H1).
    + split; [split; [done|]|]; [apply lookup_insert_eq|]. intros k s' Hk. intros H%put_evict_others%put_evict_others; done.
    + apply touched_alive; [done|]. simpl. unfold alive in HL. apply Z.ltb_lt in HL. unfold elapsed in HL. simpl. lia.
    + by destruct (tc_agent_id c).
  - split; [done|]. intros k s' Hk. by apply put_evict_others.
  - split; [done|]. intros k s' Hk. by apply put_evict_others.
Qed.
End Frame.

(** ** The verdict of a benchmark *)

Lemma position_none id l : position id l = None <-> id ∉ map sr_id l.
Proof.
  induction l as [|r l IH]; simpl; [split; [intros _; apply not_elem_of_nil|done]|].
  rewrite not_elem_of_cons. unfold str_eqb. case_bool_decide as E; [split; [done|]; intros [? _]; congruence|].
  rewrite <- IH. destruct (position id l); simpl; [split; [done|by intros [_ ?]]|]. split; [split; [congruence|done]|done].
Qed.
Lemma elem_of_id_set id l : id ∈ result_ids l <-> id ∈ map sr_id l.
Proof. unfold result_ids. by rewrite elem_of_list_to_set. Qed.
Lemma move_evicted b t r : is_evicted (baseline_move b t r) = true <-> sr_id r ∉ map sr_id t.
Proof.
  rewrite <- position_none. unfold is_evicted, baseline_move. destruct (position (sr_id r) t); simpl; [|done].
  split; [|done]. by repeat case_match.
Qed.
Lemma move_not_new b t r : is_new (baseline_move b t r) = false.
Proof. unfold is_new, baseline_move. destruct (position (sr_id r) t); simpl; [|done]. by repeat case_match. Qed.
Lemma zlen_filter_pos {A} (f : A -> bool) l : (0 <? zlen (List.filter f l)) = existsb f l.
Proof. induction l as [|x l IH]; simpl; [done|]. destruct (f x); simpl; [|done]. rewrite zlen_cons. pose proof (zlen_nonneg (List.filter f l)). apply Z.ltb_lt. lia. Qed.

Lemma some_evicted b t : existsb is_evicted (movements b t) = true <-> exists id, id ∈ map sr_id b /\ id ∉ map sr_id t.
Proof.
  unfold movements. rewrite existsb_app, orb_true_iff, !existsb_exists. split.
  - intros [(m & Hm & He)|(m & Hm & He)]; apply in_map_iff in Hm as (r & <- & Hr); [|done].
    exists (sr_id r). split; [by apply list_elem_of_In, in_map|by apply move_evicted in He].
  - intros (id & Hb & Ht). left. apply list_elem_of_In, in_map_iff in Hb as (r & <- & Hr).
    exists (baseline_move b t r). split; [by apply in_map|by apply move_evicted].
Qed.
Lemma some_new b t : existsb is_new (movements b t) = true <-> exists id, id ∈ map sr_id t /\ id ∉ map sr_id b.
Proof.
  unfold movements. rewrite existsb_app, orb_true_iff, !existsb_exists. split.
  - intros [(m & Hm & He)|(m & Hm & He)]; apply in_map_iff in Hm as (r & <- & Hr); [by rewrite move_not_new in He|].
    apply filter_In in Hr as [Hr Hn]. exists (sr_id r). split; [by apply list_elem_of_In, in_map|].
    apply negb_true_iff, bool_decide_eq_false in Hn. by rewrite elem_of_id_set in Hn.
  - intros (id & Ht & Hb). right. apply list_elem_of_In, in_map_iff in Ht as (r & <- & Hr).
    exists (tuned_move t r). split; [|done]. apply in_map, filter_In. split; [done|].
    apply negb_true_iff, bool_decide_eq_false. by rewrite elem_of_id_set.
Qed.
Lemma overlap_zero b t : size (result_ids b ∩ result_ids t) = 0%nat <-> forall id, id ∈ map sr_id b -> id ∉ map sr_id t.
Proof.
  rewrite size_empty_iff. split.
  - intros He id Hb Ht. apply (not_elem_of_empty (C := gset str) id). rewrite <- (He id), elem_of_intersection, !elem_of_id_set. done.
  - intros Hd id. rewrite elem_of_intersection, !elem_of_id_set. set_solver.
Qed.

(** What the label says of the identifiers of both sides. *)
Definition label_means (b t : list str) (l : VerdictLabel) : Prop :=
  match l with
  | Degraded => exists id, id ∈ b /\ id ∉ t
  | Improved => b <> [] /\ (forall id, id ∈ b -> id ∈ t) /\ exists id, id ∈ t /\ id ∉ b
  | Changed => b = [] /\ t <> []
  | Unchanged => forall id, id ∈ b <-> id ∈ t
  end.
Lemma verdict_means top_k b t :
  label_means (map sr_id b) (map sr_id t) (verdict top_k (Z.of_nat (size (result_ids b ∩ result_ids t))) (movements b t)).1.
Proof.
  unfold verdict. rewrite !zlen_filter_pos. destruct (existsb is_evicted _) eqn:Ee; [by apply some_evicted|].
  assert (Hk : forall id, id ∈ map sr_id b -> id ∈ map sr_id t).
  { intros id Hb. destruct (decide (id ∈ map sr_id t)) as [|Hn]; [done|].
    assert (He : existsb is_evicted (movements b t) = true) by (apply some_evicted; eauto). by rewrite Ee in He. }
  destruct (existsb is_new _) eqn:En; simpl.
  - apply some_new in En. destruct (0 <? _) eqn:Eo; simpl; reflect_Z.
    + split_and!; [|done|done]. intros Hb. assert (size (result_ids b ∩ result_ids t) = 0%nat); [|lia].
      apply overlap_zero. intros id. rewrite Hb. by intros ?%not_elem_of_nil.
    + assert (Hz : size (result_ids b ∩ result_ids t) = 0%nat) by lia. rewrite Hz. simpl. rewrite overlap_zero in Hz.
      split; [|destruct En as (id & Hid & _); intros E; rewrite E in Hid; by apply not_elem_of_nil in Hid].
      destruct (map sr_id b) as [|id l]; [done|]. exfalso. apply (Hz id); [left|apply Hk; left].
  - intros id. split; [by apply Hk|]. intros Ht. destruct (decide (id ∈ map sr_id b)) as [|Hn]; [done|].
    assert (He : existsb is_new (movements b t) = true) by (apply some_new; eauto). by rewrite En in He.
Qed.

(** Re-scoring never brings in a result that was not there. *)
Lemma filter_results_ids `{UnicodeCase} f rs id : id ∈ map sr_id (filter_results f rs) -> id ∈ map sr_id rs.
Proof.
  assert (He : forall ir : nat * SearchResult, ir ∈ enumerate rs -> sr_id ir.2 ∈ map sr_id rs).
  { intros [i r] Hir. unfold enumerate in Hir. apply list_elem_of_In, in_combine_r in Hir. by apply list_elem_of_In, in_map. }
  unfold filter_results, filter_results_hybrid. destruct (negb _); [done|]. rewrite !list_elem_of_In. intros Hin.
  apply in_map_iff in Hin as (r & <- & Hr). apply list_elem_of_In. destruct (mode f).
  - apply in_map_iff in Hr as (ir & <- & Hir). apply filter_In in Hir as [Hir _]. apply list_elem_of_In in Hir. by apply He.
  - apply in_map_iff in Hr as ([r' v] & <- & Hir). simpl. apply list_elem_of_In in Hir. rewrite sort_by_perm in Hir.
    apply list_elem_of_In, in_map_iff in Hir as (ir & E & Hir). injection E as <- _. apply list_elem_of_In in Hir. by apply He.
  - apply in_map_iff in Hr as (ir & <- & Hir). apply list_elem_of_In in Hir.
    replace (sr_id (boosted f None ir)) with (sr_id ir.2) by (unfold boosted; by case_match). by apply He.
Qed.

(** The verdict of a benchmark is exact: degraded when a baseline identifier is missing
    from the tuned ones, improved when all remain and some are new, changed when there was
    nothing before, unchanged when both sides have the same identifiers, in any order.  A
    live query re-scored by a scope, as the benchmark tool does, is never judged improved
    or changed when it returned no more results than were asked for. *)
Theorem benchmark_exact (query : str) (baseline tuned : list SearchResult) (top_k : Z) (rep : BenchmarkReport)
    (HE : evaluate query baseline tuned top_k = Ret rep) :
  label_means (map sr_id (take (Z.to_nat top_k) baseline)) (map sr_id (take (Z.to_nat top_k) tuned)) (br_label rep) /\
  (forall `{UnicodeCase} f, tuned = filter_results f baseline -> zlen baseline <= top_k ->
     br_label rep = Degraded \/ br_label rep = Unchanged).
Proof.
  unfold evaluate in HE. pose proof (verdict_means top_k (take (Z.to_nat top_k) baseline) (take (Z.to_nat top_k) tuned)) as Hm.
  destruct (verdict top_k _ _) as [label reason]. simpl in Hm.
  destruct (bench_hits 0 (take _ baseline)); [|done]. destruct (bench_hits 0 (take _ tuned)); [|done]. simpl in HE.
  injection HE as <-. simpl. split; [done|]. intros ? f Ht Hl. rewrite (take_ge baseline) in Hm by (unfold zlen in Hl; lia).
  assert (Hsub : forall id, id ∈ map sr_id (take (Z.to_nat top_k) tuned) -> id ∈ map sr_id baseline).
  { intros id Hid. apply (filter_results_ids f). rewrite <- Ht. change (map sr_id ?l) with (sr_id <$> l) in *.
    rewrite fmap_take in Hid. by apply elem_of_take in Hid as (i & Hi & _); apply list_elem_of_lookup_2 in Hi. }
  destruct label; [|by left|by right|]; exfalso.
  - destruct Hm as (_ & _ & id & H1 & H2). by apply H2, Hsub.
  - destruct Hm as [Hb Hn]. destruct (map sr_id (take _ tuned)) as [|id l] eqn:E; [done|]. rewrite Hb in Hsub.
    apply (not_elem_of_nil id), Hsub. left.
Qed.

(** ** Simulations and what they simulate *)

Lemma secs_lt age n : as_secs age < n <-> age < from_secs n.
Proof.
  unfold as_secs, from_secs. split; intros H.
  - pose proof (Z.div_mod age nanos_per_sec). pose proof (Z.mod_pos_bound age nanos_per_sec). unfold nanos_per_sec in *. nia.
  - apply Z.div_lt_upper_bound; unfold nanos_per_sec in *; lia.
Qed.


(** The loop over the legs, from the first one on. *)
Lemma try_legs_spec th mn dp : forall legs i tried lat, zlen tried = i -> 0 <= i ->
  let room := Z.to_nat (dp - i) in
  (try_legs th mn dp i legs tried lat).1 =
  match list_find (fun l => leg_ok th mn l = true) (take room legs) with
  | Some (j, l) => (Some (lp_upstream_id l), tried ++ map lp_upstream_id (take (S j) legs), 0 <? i + Z.of_nat j)
  | None => (None, tried ++ map lp_upstream_id (take room legs), false)
  end.
Proof.
  induction legs as [|l legs IH]; intros i tried lat Hi H0; cbn [try_legs].
  { rewrite take_nil. simpl. by rewrite app_nil_r. }
  rewrite Hi. destruct (dp <=? i) eqn:Ed; reflect_Z.
  { replace (Z.to_nat (dp - i)) with O by lia. simpl. by rewrite app_nil_r. }
  replace (Z.to_nat (dp - i)) with (S (Z.to_nat (dp - (i + 1)))) by lia. cbn [take].
  destruct (leg_ok th mn l) eqn:El.
  - cbn [list_find]. rewrite decide_True by done. simpl. by rewrite Z.add_0_r.
  - cbn [list_find]. rewrite decide_False by (by rewrite El). rewrite IH by (rewrite ?zlen_app, ?zlen_cons; unfold zlen in *; simpl; lia).
    destruct (list_find _ _) as [[j x]|]; simpl; rewrite <- app_assoc; [|done]. do 2 f_equal. lia.
Qed.

(** A simulated cascade tries the legs in order of priority, no more than its depth, and
    stops at the first leg whose score and number of results reach the thresholds. *)
Theorem cascade_tune_exact (legs : list CascadeLegProbe) (mn dp : Z) (th : f32) :
  let order := by_priority legs in
  let c := cascade_candidate legs mn dp th in
  order ≡ₚ legs /\ StronglySorted (fun a b => lp_priority a <= lp_priority b) order /\
  match list_find (fun l => leg_ok th mn l = true) (take (Z.to_nat dp) order) with
  | Some (j, l) => ca_chosen_upstream_id c = Some (lp_upstream_id l) /\
                   ca_tried c = map lp_upstream_id (take (S j) order) /\ ca_cascaded c = (0 <? Z.of_nat j)
  | None => ca_chosen_upstream_id c = None /\ ca_tried c = map lp_upstream_id (take (Z.to_nat dp) order) /\ ca_cascaded c = false
  end.
Proof.
  intros order c. split; [apply sort_by_perm|]. split.
  { unfold order, by_priority. eapply strongly_sorted_impl; [|apply sort_by_sorted]; simpl.
    - intros a b. apply Z.leb_le.
    - intros a b. rewrite Z.leb_gt. intros. apply Z.leb_le. lia.
    - intros x y z. rewrite !Z.leb_le. lia. }
  pose proof (try_legs_spec th mn dp order 0 [] 0 eq_refl ltac:(lia)) as Ht. rewrite Z.sub_0_r in Ht.
  unfold c, cascade_candidate. fold order. destruct (try_legs _ _ _ _ _ _ _) as [[[ch tr] ca] lat]. simpl in Ht. simpl.
  destruct (list_find _ _) as [[j l]|]; by simplify_eq.
Qed.

(** ** Sweeping the threshold of a scope *)

Definition signals_le (a b : ScopeSignals) : Prop :=
  (any a = true -> any b = true) /\ f_le (best_sim_of a) (best_sim_of b) = true.
Lemma f_max_skip_nan x y : not_nan x -> f_le x (f_max x y) = true.
Proof.
  intros Hx. unfold f_max. rewrite Hx. destruct (is_nan y) eqn:Ey; [by apply f_le_refl|].
  destruct (f_lt x y) eqn:E; [by apply f_lt_le|by apply f_le_refl].
Qed.
Lemma f_max_mono x x' y : f_le x x' = true -> f_le (f_max x y) (f_max x' y) = true.
Proof.
  intros Hx. pose proof (f_le_nan_l _ _ Hx) as H1. pose proof (f_le_nan_r _ _ Hx) as H2. unfold f_max at 1. rewrite H1.
  destruct (is_nan y) eqn:Ey; [unfold f_max; by rewrite H2, Ey|].
  destruct (f_lt x y); [by apply f_max_ub_r|]. eapply f_le_trans; [apply Hx|]. by apply f_max_ub_l.
Qed.
Lemma f_lt_le_trans x y z : f_lt x y = true -> f_le y z = true -> f_lt x z = true.
Proof.
  intros H1 H2. pose proof (f_lt_nan_l _ _ H1) as Hx. pose proof (f_lt_nan_r _ _ H1) as Hy. pose proof (f_le_nan_r _ _ H2) as Hz.
  rewrite f_lt_not_le in H1 |- * by done. apply negb_true_iff in H1. apply negb_true_iff.
  destruct (f_le z x) eqn:E; [|done]. by rewrite (f_le_trans _ _ _ H2 E) in H1.
Qed.

Lemma signals_loop_mono f1 f2 cl cw : phrase_embeddings f1 = None -> phrase_embeddings f2 = None ->
  f_le (min_similarity f1) (min_similarity f2) = true -> forall ps i a2 a1, signals_le a2 a1 ->
  signals_le (signals_loop f2 cl cw None i ps a2) (signals_loop f1 cl cw None i ps a1).
Proof.
  intros He1 He2 Hm. induction ps as [|p ps IH]; intros i a2 a1 [Ha Hb]; [done|]. cbn [signals_loop]. apply IH.
  unfold hybrid_sim. rewrite He1, He2. set (sim := lexical_sim _ _ _ _).
  pose proof (f_le_nan_r _ _ Hb) as Hn1. pose proof (f_max_skip_nan _ sim Hn1) as Hub.
  destruct (f_lt sim (default (min_similarity f2) _)) eqn:E2.
  - destruct (f_lt sim (default (min_similarity f1) _)); [done|]. split; simpl; [done|]. by eapply f_le_trans.
  - assert (E1 : f_lt sim (default (min_similarity f1) (pe_min_similarity p)) = false).
    { destruct (pe_min_similarity p) as [own|]; simpl in *; [done|]. destruct (f_lt sim (min_similarity f1)) eqn:E; [|done].
      by rewrite (f_lt_le_trans _ _ _ E Hm) in E2. }
    rewrite E1. split; simpl; [done|]. by apply f_max_mono.
Qed.
Lemma filter_sublist {A} (g f : A -> bool) l : (forall x, g x = true -> f x = true) -> List.filter g l `sublist_of` List.filter f l.
Proof.
  intros H. induction l as [|x l IH]; simpl; [done|]. destruct (g x) eqn:E; [rewrite (H _ E); by constructor|].
  destruct (f x); [by constructor|done].
Qed.
Lemma keeps_lex_mono `{UnicodeCase} f1 f2 r : phrases f1 = phrases f2 -> phrase_embeddings f1 = None -> phrase_embeddings f2 = None ->
  phrases f1 <> [] -> f_le (min_similarity f1) (min_similarity f2) = true -> keeps_lex f2 r = true -> keeps_lex f1 r = true.
Proof.
  intros Hp He1 He2 Hne Hm. unfold keeps_lex, signals_for, signals_for_emb. rewrite <- Hp.
  destruct (phrases f1) as [|p ps]; [done|]. set (cl := to_lowercase _).
  pose proof (signals_loop_mono f1 f2 cl (word_set_of cl) He1 He2 Hm (p :: ps) 0 ScopeSignals_NONE ScopeSignals_NONE) as [Ha Hb].
  { by split. }
  revert Ha Hb. generalize (signals_loop f1 cl (word_set_of cl) None 0 (p :: ps) ScopeSignals_NONE) as s1.
  generalize (signals_loop f2 cl (word_set_of cl) None 0 (p :: ps) ScopeSignals_NONE) as s2. intros s2 s1 Ha Hb.
  destruct (any s2) eqn:E2; [|done]. rewrite (Ha eq_refl), E2. rewrite (Ha eq_refl). simpl. unfold f_ge. intros Hk.
  eapply f_le_trans; [apply Hm|]. by eapply f_le_trans.
Qed.

(** In filter mode a higher threshold keeps fewer results of a preview: what it keeps is
    a sublist of what the lower one keeps.  Every hit is counted once, as kept or as
    dropped, when identifiers are distinct. *)
Theorem sweep_monotone `{UnicodeCase} (p : ScopeTuneParams) (md : str) (hits : list SearchResult) (lo hi : f32)
    (HM : FilterMode_from md = Filter) (HL : f_le lo hi = true) (HD : NoDup (map sr_id hits)) :
  sp_kept_ids (sweep_point p md hits hi) `sublist_of` sp_kept_ids (sweep_point p md hits lo) /\
  sp_kept_ids (sweep_point p md hits lo) ++ sp_dropped_ids (sweep_point p md hits lo) ≡ₚ map sr_id hits /\
  sp_kept (sweep_point p md hits lo) + sp_dropped (sweep_point p md hits lo) = zlen hits.
Proof.
  unfold sweep_point. simpl.
  assert (HF : forall ms, filter_results (from_config (build_scope_config p md ms)) hits =
    match sc_weighted_phrases p with [] => hits | _ => List.filter (keeps_lex (from_config (build_scope_config p md ms))) hits end).
  { intros ms. destruct (sc_weighted_phrases p) as [|w ws] eqn:Ew.
    - unfold filter_results, filter_results_hybrid, is_enabled, from_config, effective_phrases. simpl. by rewrite Ew.
    - apply filter_mode_partitions; [|done]. unfold is_enabled, from_config, effective_phrases. simpl. by rewrite Ew. }
  assert (HP : forall (l : list SearchResult), l `sublist_of` hits ->
    map sr_id l ++ map sr_id (List.filter (fun h => negb (bool_decide (sr_id h ∈ map sr_id l))) hits) ≡ₚ map sr_id hits).
  { clear -HD. intros l Hl. induction Hl as [|h l k Hl IH|h l k Hl IH]; [done| |].
    - simpl in HD. apply NoDup_cons in HD as [Hh HD]. specialize (IH HD). simpl. rewrite bool_decide_true by left. simpl.
      constructor. etransitivity; [|apply IH]. apply Permutation_app_head. erewrite filter_ext_in; [done|]. intros x Hx. simpl. f_equal.
      apply bool_decide_ext. rewrite elem_of_cons. split; [|by right]. intros [E|?]; [|done]. exfalso. apply Hh. rewrite <- E.
      by apply list_elem_of_In, in_map.
    - simpl in HD. apply NoDup_cons in HD as [Hh HD]. specialize (IH HD). simpl. rewrite bool_decide_false.
      + simpl. rewrite <- IH. by rewrite <- Permutation_middle.
      + intros Hin. apply Hh. apply list_elem_of_In, in_map_iff in Hin as (x & <- & Hx). apply list_elem_of_In, in_map.
        apply list_elem_of_In in Hx. apply list_elem_of_In. eapply elem_of_submseteq; [done|]. by apply sublist_submseteq. }
  assert (HK : forall ms, filter_results (from_config (build_scope_config p md ms)) hits `sublist_of` hits).
  { intros ms. rewrite HF. destruct (sc_weighted_phrases p); [done|]. clear. induction hits as [|h hs IH]; simpl; [done|].
    destruct (keeps_lex _ h); by constructor. }
  split; [|split; [by apply HP|]].
  - apply (fmap_sublist sr_id). rewrite !HF. destruct (sc_weighted_phrases p) as [|w ws] eqn:Ew; [done|]. apply filter_sublist.
    intros r. apply keeps_lex_mono; try done. unfold from_config, effective_phrases. simpl. by rewrite Ew.
  - unfold zlen. rewrite <- Nat2Z.inj_add. f_equal. rewrite <- length_app, (HP _ (HK lo)). by rewrite length_map.
Qed.

(** ** From a preview to the file *)

Lemma sweep_points_head {A} (given : option (list A)) x : exists y l, sweep_points given [x] = y :: l.
Proof. unfold sweep_points. destruct (default [] given) as [|y l]; eauto. Qed.
Lemma none_selected l : Forall (fun r => tr_selected r = false) l -> List.find tr_selected (reverse l) = None.
Proof.
  intros Hl. apply find_existsb. rewrite existsb_reverse. induction Hl as [|r l Hr _ IH]; [done|]. simpl. by rewrite Hr.
Qed.

(** The scope that a preview writes down, and the reading of it. *)
Definition preview_config (p : ScopeTuneParams) (sd : ScopeTuned) : ProxyScopeConfig :=
  build_scope_config p (sd_mode sd) (sp_min_similarity (default no_point (head (sd_sweep sd)))).
Definition preview_json `{FloatText} (p : ScopeTuneParams) (sd : ScopeTuned) : Value :=
  VObject [field "lexical_weight" (json_opt_f32 (sc_lexical_weight p));
           field "min_similarity" (json_value_f32 (sp_min_similarity (default no_point (head (sd_sweep sd)))));
           field "mode" (VString (sd_mode sd)); field "scope_weight" (json_opt_f32 (sc_scope_weight p));
           field "weighted_phrases" (json_array json_phrase (sc_weighted_phrases p))].

Lemma scope_plan_json `{UnicodeCase} `{FloatText} b p pl : scope_plan b p = Ok pl ->
  scope_of (pl_params pl) = preview_json p (pl_value pl) /\
  exists sp, head (sd_sweep (pl_value pl)) = Some sp /\ sp_kept_ids sp =
    map sr_id (filter_results (from_config (preview_config p (pl_value pl))) (take (Z.to_nat (bd_max_results b)) (sc_hits p))).
Proof.
  unfold scope_plan, within_budget. destruct (sc_hits p) as [|h hs] eqn:Eh; [done|].
  destruct (sweep_points_head (sc_min_similarity_sweep p) (default (F32.lit 25 100) (sc_min_similarity p))) as (y & l & Hy).
  rewrite Hy. destruct (_ <? _); [done|]. intros [= <-]. split; [done|]. eexists. by split.
Qed.

Section Preview.
Context {O : MapOrder} `{U : UnicodeCase} `{FloatText} `{NumberViews} `{ScopeJson}.
Context {IoE TomlE : Type} (read : str -> option (result str IoE)) (parse : str -> result ConfigFile TomlE).
Context (global_path local_path : str) (local_root : result str (LoadError IoE TomlE)).
Context (print : ConfigFile -> option str) (writable : str -> bool) (not_found : IoE).

(** What was previewed is what is applied.  A scope preview in a session without a
    selected run, applied to a file that has the context, writes the file with the scope
    under which the context keeps exactly the hits that the first point of the preview
    kept.  (The recorded scope is read back as the scope it was written from.) *)
Lemma preview_applied (m : Moments) (c : ToolCall) (p : ScopeTuneParams) (pl : Planned ScopeTuned) (st : SessionStore)
    (s : TuneSession) (now : Z) (path text : str) (conf : ConfigFile)
    (HS : st_sessions st !! tc_session_id c = Some s) (HL : alive (at_lookup m) (st_ttl st) s = true)
    (HA : agent_check (tc_session_id c) (tc_agent_id c) s = Ok tt)
    (HC : context_check (tc_session_id c) (tc_context_id c) s = Ok tt)
    (HT : at_recording m - at_lookup m < st_ttl st) (HW : now - at_recording m < st_ttl st)
    (HN : Forall (fun r => tr_selected r = false) (ts_runs s)) (HP : scope_plan (tc_budget c) p = Ok pl)
    (HJ : scope_from_value (preview_json p (pl_value pl)) = Ok (preview_config p (pl_value pl)))
    (HF : Config_load_from read parse not_found path = Ok conf) (HX : is_Some (cf_contexts conf !! ts_context_id s))
    (HD : print (upsert_scope (ts_context_id s) (preview_config p (pl_value pl)) conf) = Some text) (HO : writable path = true) :
  let '(r, st1) := scope_tune m c p st in
  let '(a, st2) := apply_tune_export read parse global_path local_path local_root print writable not_found now
                     (tc_session_id c) (tc_agent_id c) (tc_context_id c) (Some path) st1 in
  (exists rp, r = Ret (Ok rp) /\ tl_value rp = pl_value pl) /\
  (exists s', st_sessions st2 !! tc_session_id c = Some s' /\ ts_agent_id s' = ts_agent_id s) /\
  exists rep n sp, a = Ok (rep, (path, text)) /\ ar_source_run_id rep = new_run_id (at_naming m) /\
    cf_contexts (upsert_scope (ts_context_id s) (preview_config p (pl_value pl)) conf) !! ts_context_id s = Some n /\
    head (sd_sweep (pl_value pl)) = Some sp /\
    map sr_id (filter_results (from_config (nc_scope n)) (take (Z.to_nat (bd_max_results (tc_budget c))) (sc_hits p))) = sp_kept_ids sp.
Proof.
  destruct (scope_plan_json _ _ _ HP) as (Hj & sp & Hsp & Hk).
  pose proof (tool_run_exact m "scope_tune" c (Ret (scope_plan (tc_budget c) p)) st s HS HL HA HC HT) as Hr.
  unfold scope_tune. rewrite HP in *. assert (Httl : forall x : outcome (result (Planned ScopeTuned) TuneError), st_ttl (tool_run m "scope_tune" c x st).2 = st_ttl st).
  { intros x. unfold tool_run, get_session, get_checked, append_run. by repeat case_match; simplify_eq. }
  specialize (Httl (Ret (Ok pl))). destruct (tool_run m _ c (Ret (Ok pl)) st) as [r st1]. destruct Hr as [[-> Hr] _]. simpl in Httl.
  unfold apply_tune_export, export. rewrite (get_live _ _ _ _ _ _ Hr); [| |by destruct (tc_agent_id c)|by destruct (tc_context_id c)].
  2: { rewrite Httl. apply (touched_alive _ _ _ (put_runs _ s)); [done|]. unfold alive, elapsed in HL. apply Z.ltb_lt in HL. lia. }
  simpl. rewrite winner_last by (by apply none_selected). unfold apply_export_artifact. simpl. rewrite HF, Hj, HJ, HD, HO.
  split; [by eexists|]. split; [eexists; split; [apply lookup_insert_eq|done]|].
  destruct HX as [n0 Hn0]. eexists _, (put_scope (preview_config p (pl_value pl)) n0), sp.
  split; [reflexivity|]. split; [done|]. rewrite Hn0. simpl. by rewrite lookup_insert_eq.
Qed.
End Preview.

(** ** Witnesses *)

Definition bench_result (id content : string) : SearchResult :=
  {| sr_id := lit id; score := F32.of_Z 1; content := lit content; metadata := None; sr_upstream_id := None |}.
Definition two_hits : list SearchResult := [bench_result "1" "rust async"; bench_result "2" "refund policy"].
Definition rust_scope : ScopeTuneParams :=
  {| sc_hits := two_hits; sc_weighted_phrases := [WeightedPhrase_new (lit "rust")]; sc_mode := None; sc_min_similarity := None;
     sc_min_similarity_sweep := None; sc_scope_weight := None; sc_lexical_weight := None |}.
Definition NoText : FloatText := {| display_f32 := fun _ => []; json_f32_text := fun _ => []; json_value_text := fun _ => [] |}.

Lemma benchmark_exact_witness :
  exists rep, evaluate (lit "q") two_hits (filter_results (H := AsciiCase) (from_config (H := AsciiCase) (build_scope_config rust_scope (lit "filter") (F32.lit 1 2))) two_hits) 2
    = Ret rep /\ br_label rep = Degraded /\ br_reason rep = lit "1 result evicted evicted from top-2: 2" /\
  label_means [lit "1"; lit "2"] [lit "1"] (br_label rep).
Proof.
  destruct (evaluate (lit "q") two_hits (filter_results (H := AsciiCase) (from_config (H := AsciiCase) (build_scope_config rust_scope (lit "filter") (F32.lit 1 2))) two_hits) 2)
    as [rep|] eqn:E; [|vm_compute in E; discriminate E]. exists rep. split; [done|].
  assert (Hb : br_label rep = Degraded /\ br_reason rep = lit "1 result evicted evicted from top-2: 2")
    by (vm_compute in E; injection E as <-; by vm_compute). destruct Hb as [Hl Hr]. split; [done|]. split; [done|].
  exact (proj1 (benchmark_exact (lit "q") two_hits _ 2 rep E)).
Defined.

Lemma sweep_monotone_witness :
  sp_kept_ids (sweep_point (H := AsciiCase) rust_scope (lit "filter") two_hits (F32.lit 1 2)) `sublist_of`
  sp_kept_ids (sweep_point (H := AsciiCase) rust_scope (lit "filter") two_hits f_zero).
Proof.
  apply (sweep_monotone (H := AsciiCase) rust_scope (lit "filter") two_hits f_zero (F32.lit 1 2)); [by vm_compute|by vm_compute|].
  repeat constructor; set_solver.
Defined.

Definition fresh_session : TuneSession :=
  {| ts_session_id := lit "s"; ts_agent_id := lit "ann"; ts_context_id := lit "docs"; ts_created_at_ms := 0;
     ts_last_touch := 0; ts_runs := [tune_run "r1" false] |}.
Definition fresh_store : SessionStore := {| st_sessions := {[lit "s" := fresh_session]}; st_ttl := 10 * second; st_next_id := 2 |}.
Definition ann_call : ToolCall :=
  {| tc_session_id := lit "s"; tc_agent_id := Some (lit "ann"); tc_context_id := None; tc_budget := TuneBudget_default |}.
Definition ann_moments : Moments := {| at_lookup := 1; at_naming := 7; at_recording := 2 |}.
Definition ann_plan : Planned ScopeTuned :=
  match @scope_plan AsciiCase NoText TuneBudget_default rust_scope with
  | Ok pl => pl
  | Err _ => {| pl_value := Build_ScopeTuned [] [] [] 0 0; pl_params := VNull; pl_baseline := None; pl_candidates := [];
                pl_metrics := VNull; pl_warnings := [] |}
  end.
Definition ReadRust : ScopeJson := fun _ => Ok (preview_config rust_scope (pl_value ann_plan)).

(** A run that was selected earlier is applied in place of the one just computed. *)
Lemma old_selection_applied :
  let '(_, st1) := @scope_tune AsciiCase NoText ann_moments ann_call rust_scope tuned_store in
  match (@apply_tune_export ListedOrder AsciiCase NoNumbers ModeJson unit unit docs_read docs_parse (lit "g") (lit "l") (Ok [])
           (fun _ => Some (lit "b")) (fun _ => true) tt 3 (lit "s") (Some (lit "ann")) None (Some (lit "x")) st1).1 with
  | Ok (rep, _) => ar_source_run_id rep = lit "r1"
  | Err _ => False
  end.
Proof. by vm_compute. Qed.

(** An entry of age sixty seconds is simulated as fresh for a fresh time of sixty seconds,
    and is stale. *)
Definition sixty_store : CacheStore := put_stale_duration (put_fresh_duration demo_store (from_secs 60)) (from_secs 300).
Definition sixty_clock : Clock := {| mono := 5 + from_secs 60; wall := 0 |}.
