(* ===== verification/Mcp.v ===== *)
(** * The client and the MCP server (src/src/proxy/client.rs, src/src/mcp/mod.rs, mcp/status.rs)

    The client of the gRPC services, and the tools that the MCP server offers: searches
    through a running proxy, the tuning tools over one store of sessions, and the
    workflow that combines them.  The running proxy is reached through two functions:
    [service], the search service behind a channel, and [http], a call that returns a
    status and a body.  A tool returns its value or an error; the JSON of a reply and the
    tool protocol are left out. *)

From Stdlib Require Import SpecFloat.
From S2P Require Import Prelude Floats Text Types Cache Scope Retry Upstream Auth Pipeline Settings Config.
From S2P Require Import ConfigProps Vendors Grpc GrpcServices TuneSession TuneTools TuneProps TuneToolsProps.
Open Scope Z_scope.
Open Scope conproxy_scope.

(** ** The client *)

Inductive ClientError := Connection (m : str) | RequestFailed (status : Z) (m : str) | ClientParse (m : str) | ClientTimeout.

Definition tonic_status_to_http (c : GrpcCode) : Z :=
  match c with
  | InvalidArgument => 400
  | Unauthenticated => 401
  | PermissionDenied => 403
  | GNotFound => 404
  | ResourceExhausted => 429
  | Internal => 500
  | GUnavailable => 503
  | FailedPrecondition => 500
  end.

Record ClientConfig := { cl_base_url : str; cl_http_url : option str; cl_timeout : Z; cl_api_key : option str }.
Definition ClientConfig_default : ClientConfig :=
  {| cl_base_url := lit "http://127.0.0.1:9999"; cl_http_url := None; cl_timeout := from_secs 30; cl_api_key := None |}.
Definition ClientConfig_new (url : str) : ClientConfig :=
  {| cl_base_url := url; cl_http_url := None; cl_timeout := from_secs 30; cl_api_key := None |}.
Definition with_timeout (t : Z) (c : ClientConfig) : ClientConfig :=
  {| cl_base_url := cl_base_url c; cl_http_url := cl_http_url c; cl_timeout := t; cl_api_key := cl_api_key c |}.
Definition with_api_key (k : str) (c : ClientConfig) : ClientConfig :=
  {| cl_base_url := cl_base_url c; cl_http_url := cl_http_url c; cl_timeout := cl_timeout c; cl_api_key := Some k |}.
Definition with_http_url (u : str) (c : ClientConfig) : ClientConfig :=
  {| cl_base_url := cl_base_url c; cl_http_url := Some u; cl_timeout := cl_timeout c; cl_api_key := cl_api_key c |}.

(** [str::parse::<u16>] *)
Definition parse_u16 (s : str) : option Z :=
  match parse_usize s with Some n => if n <=? 65535 then Some n else None | None => None end.
(** The port after the last colon plus one, on the local host. *)
Definition http_base_url (c : ClientConfig) : str :=
  match cl_http_url c with
  | Some u => u
  | None =>
      match rsplit_colon (cl_base_url c) with
      | (port, Some _) =>
          match parse_u16 port with
          | Some p => lit "http://127.0.0.1:" ++ show_Z (sat_add 16 p 1)
          | None => cl_base_url c
          end
      | (_, None) => cl_base_url c
      end
  end.

(** A metadata value is visible ASCII or tabs. *)
Definition visible_ascii (s : str) : bool := forallb (fun c => (32 <=? c) && (c <? 127) || (c =? 9)) s.
Definition client_metadata (c : ClientConfig) : Metadata :=
  {| md_api_key := match cl_api_key c with Some k => if visible_ascii k then Some (Some k) else None | None => None end;
     md_authorization := None; md_peer_secret := None; md_request_id := None; md_context := None |}.

Section Client.
Context `{ValueCodec} (valid_endpoint : str -> option str) (http_client : option str).
Context (service : Metadata -> Proto.QueryRequestMsg -> result Proto.QueryResponseMsg GrpcError).

(** A client, or why it cannot be built. *)
Definition ProxyClient_new (c : ClientConfig) : result ClientConfig ClientError :=
  match valid_endpoint (cl_base_url c) with
  | Some m => Err (Connection m)
  | None => match http_client with Some m => Err (Connection m) | None => Ok c end
  end.
Definition client_query (c : ClientConfig) (r : QueryRequest) : result QueryResponse ClientError :=
  match service (client_metadata c) (request_to_proto r) with
  | Err (code, m) => Err (RequestFailed (tonic_status_to_http code) m)
  | Ok p => Ok (response_from_proto p)
  end.
Definition search_request (q : str) (limit : Z) : QueryRequest :=
  {| query := q; top_k := Some limit; rq_priority := None; rq_upstream_id := None; upstream_type := None |}.
Definition client_search (c : ClientConfig) (q : str) (limit : Z) : result QueryResponse ClientError :=
  client_query c (search_request q limit).
Definition status_url (c : ClientConfig) (path : string) : str := trim_end_slash (http_base_url c) ++ lit path.

(** ** Searching tools *)

Inductive McpError := InvalidParams (e : TuneError) | NoHits | ProxyFailed (e : ClientError) | StatusFailed (m : str).

(** The key of the proxy section, unless it is empty. *)
Definition mcp_client_config (c : ConfigFile) : ClientConfig :=
  let cfg := ClientConfig_new (lit "http://" ++ px_listen_addr (cf_proxy c)) in
  match px_api_key (cf_proxy c) with
  | Some (k0 :: k) => with_api_key (k0 :: k) cfg
  | _ => cfg
  end.
Definition build_proxy_client (c : ConfigFile) : result ClientConfig McpError :=
  match ProxyClient_new (mcp_client_config c) with Ok cl => Ok cl | Err e => Err (ProxyFailed e) end.
Definition mcp_query (c : ConfigFile) (q : str) (limit : Z) : result QueryResponse McpError :=
  match build_proxy_client c with
  | Err e => Err e
  | Ok cl => match client_query cl (search_request q limit) with Ok r => Ok r | Err e => Err (ProxyFailed e) end
  end.
Record ProxySearchResultItem := { pi_id : str; pi_content : str; pi_score : f32; pi_cache_status : CacheStatus }.
Definition mcp_search (c : ConfigFile) (q : str) (limit : Z) : result (list ProxySearchResultItem) McpError :=
  match mcp_query c q limit with
  | Err e => Err e
  | Ok r => Ok (map (fun x => {| pi_id := sr_id x; pi_content := content x; pi_score := score x; pi_cache_status := cache_status r |})
                  (results r))
  end.

(** serde's reading of a list of phrases. *)
Context (phrases_from_value : Value -> option (list WeightedPhrase)).
Context `{NumberViews} `{UnicodeCase}.

(** The run to benchmark: the one named, or the first selected one, or the last. *)
Definition benchmark_run (s : TuneSession) (run_id : option str) : option TuneRunRecord :=
  match run_id with Some rid => find_run rid s | None => or_else (List.find tr_selected (ts_runs s)) (last (ts_runs s)) end.
Definition tuned_scope (run : TuneRunRecord) : ProxyScopeConfig :=
  let num k := and_then (v_get (tr_params run) k) as_f64 in
  {| weighted_phrases := default [] (and_then (v_get (tr_params run) "weighted_phrases") phrases_from_value); cfg_seeds := [];
     cfg_mode := Some (default (lit "filter") (and_then (v_get (tr_params run) "mode") as_str));
     cfg_min_seed_similarity := Some (f32_of_f64 (default (F64.lit 25 100) (num "min_similarity")));
     cfg_seed_weight := f32_of_f64 <$> num "scope_weight"; cfg_query_prefix := None;
     cfg_lexical_weight := f32_of_f64 <$> num "lexical_weight"; cfg_embed_band := None |}.
Record BenchmarkToolParams := {
  bp_session_id : str; bp_agent_id : str; bp_context_id : str; bp_query : str; bp_top_k : Z; bp_run_id : option str
}.
Definition mcp_benchmark (now : Z) (c : ConfigFile) (p : BenchmarkToolParams) (st : SessionStore)
    : outcome (result BenchmarkReport McpError) * SessionStore :=
  let '(s, st) := get_session now (bp_session_id p) (Some (bp_agent_id p)) (Some (bp_context_id p)) st in
  (match s with
   | None => Ret (Err (InvalidParams SessionNotFound))
   | Some s =>
       match benchmark_run s (bp_run_id p) with
       | None => Ret (Err (InvalidParams NoRuns))
       | Some run =>
           match mcp_query c (bp_query p) (bp_top_k p) with
           | Err e => Ret (Err e)
           | Ok r =>
               let! rep := evaluate (bp_query p) (results r) (filter_results (from_config (tuned_scope run)) (results r)) (bp_top_k p) in
               Ret (Ok rep)
           end
       end
   end, st).

(** ** Status tools *)

(** A socket address as its host and port; a call with a key and a body. *)
Context (socket_addr : str -> option (str * Z)) (http : Method -> str -> option str -> option Value -> result (Z * str) str).
Context (json_from_str : str -> result Value str).

Definition http_listen_addr (px : ProxySettings) : str :=
  match px_http_listen px with
  | Some a => a
  | None => match socket_addr (px_listen_addr px) with
            | Some (ip, port) => ip ++ lit ":" ++ show_Z (sat_add 16 port 1)
            | None => lit "127.0.0.1:10000"
            end
  end.
Definition status_base_url (c : ConfigFile) : str := lit "http://" ++ http_listen_addr (cf_proxy c).
(** [do_get] and [do_post]; the key is sent even when it is empty. *)
Definition http_json (m : Method) (c : ConfigFile) (path : string) (body : option Value) : result Value McpError :=
  match http m (status_base_url c ++ lit "/" ++ trim_start_by (Z.eqb 47) (lit path)) (px_api_key (cf_proxy c)) body with
  | Err e => Err (StatusFailed e)
  | Ok (status, text) =>
      if negb (status_is_success status) then Err (StatusFailed text)
      else match json_from_str text with Ok v => Ok v | Err e => Err (StatusFailed e) end
  end.
Definition http_get_json := fun c path => http_json GET c path None.
Definition http_post_json := fun c path body => http_json POST c path (Some body).
(** The parts of a panel, in the order they are fetched. *)
Fixpoint fetch_all (c : ConfigFile) (paths : list (string * string)) : result (list (str * Value)) McpError :=
  match paths with
  | [] => Ok []
  | (k, p) :: paths =>
      match http_get_json c p with
      | Err e => Err e
      | Ok v => match fetch_all c paths with Err e => Err e | Ok l => Ok (field k v :: l) end
      end
  end.
Definition panel_overview (c : ConfigFile) := fetch_all c [("metrics", "/metrics"); ("stats", "/stats"); ("circuit", "/circuit")]%string.
Definition panel_cache (c : ConfigFile) := fetch_all c [("stats", "/stats"); ("pool", "/pool"); ("integrity", "/cache/integrity")]%string.
Definition panel_circuit (c : ConfigFile) := fetch_all c [("circuit", "/circuit"); ("queue", "/queue")]%string.
Definition panel_metrics (c : ConfigFile) := fetch_all c [("metrics", "/metrics"); ("pool", "/pool"); ("queries", "/stats/queries")]%string.
Definition panel_contexts (c : ConfigFile) := fetch_all c [("current", "/contexts/current"); ("contexts", "/contexts")]%string.
Definition mcp_reload (c : ConfigFile) : result Value McpError := http_post_json c "/admin/reload" (VObject []).

(** ** Tuning tools *)

(** The tools run with the default budget. *)
Definition mcp_call (id : str) (agent context : option str) : ToolCall :=
  {| tc_session_id := id; tc_agent_id := agent; tc_context_id := context; tc_budget := TuneBudget_default |}.
Definition mcp_hit (id content_ : str) (score_ : f32) : SearchResult :=
  {| sr_id := id; content := content_; score := score_; metadata := None; sr_upstream_id := None |}.
Definition tune_err {A} (r : result A TuneError) : result A McpError := match r with Ok a => Ok a | Err e => Err (InvalidParams e) end.
Definition mcp_tool {A} (r : outcome (result A TuneError) * SessionStore) : outcome (result A McpError) * SessionStore :=
  (let! x := r.1 in Ret (tune_err x), r.2).
(** What the caller of [tune_session_close] is told. *)
Inductive CloseReply := Closed | NotClosed (reason : SessionError).
Definition mcp_close (id : str) (agent : option str) (st : SessionStore) : CloseReply * SessionStore :=
  let '(r, st) := close_with_reason id agent st in (match r with Ok _ => Closed | Err e => NotClosed e end, st).

Context `{FloatText} {O : MapOrder} `{ScopeJson}.
Context {IoE TomlE : Type} (read : str -> option (result str IoE)) (parse : str -> result ConfigFile TomlE).
Context (global_path local_path : str) (local_root : result str (LoadError IoE TomlE)).
Context (print : ConfigFile -> option str) (writable : str -> bool) (not_found : IoE).

Record ApplyReply := { ap_report : ApplyReport; ap_reload : option (result Value McpError) }.
(** Apply, write, and ask the proxy to reload; a failed reload is reported, not an error. *)
Definition mcp_apply (now : Z) (c : ConfigFile) (id agent context : str) (config_path : option str) (reload : bool)
    (st : SessionStore) : result (ApplyReply * (str * str)) McpError * SessionStore :=
  let '(r, st) := apply_tune_export read parse global_path local_path local_root print writable not_found now id (Some agent)
                    (Some context) config_path st in
  (match r with
   | Err e => Err (InvalidParams e)
   | Ok (rep, w) => Ok ({| ap_report := rep; ap_reload := if reload then Some (mcp_reload c) else None |}, w)
   end, st).

Record TuneWorkflowParams := {
  wf_agent_id : str; wf_context_id : str; wf_query : str; wf_top_k : Z; wf_scope : ScopeTuneParams; wf_apply : bool;
  wf_reload : bool; wf_config_path : option str; wf_close_session : bool; wf_session_id : option str
}.
(** The readings of the clocks: opening, the tool, applying. *)
Record WorkflowTimes := { wt_open : Z; wt_wall : Z; wt_tool : Moments; wt_apply : Z }.
Record WorkflowReply := {
  wr_session_id : str; wr_hit_count : Z; wr_tune : ToolReport ScopeTuned; wr_apply : option ApplyReply;
  wr_close : option CloseReply
}.
(** The hits are those of the search, whatever [wf_scope] holds. *)
Definition scope_with_hits (p : ScopeTuneParams) (hits : list SearchResult) : ScopeTuneParams :=
  {| sc_hits := hits; sc_weighted_phrases := sc_weighted_phrases p; sc_mode := sc_mode p;
     sc_min_similarity := sc_min_similarity p; sc_min_similarity_sweep := sc_min_similarity_sweep p;
     sc_scope_weight := sc_scope_weight p; sc_lexical_weight := sc_lexical_weight p |}.
Definition workflow_end (p : TuneWorkflowParams) (id : str) (hits : Z) (rep : ToolReport ScopeTuned)
    (a : option (ApplyReply * (str * str))) (st : SessionStore)
    : outcome (result WorkflowReply McpError) * option (str * str) * SessionStore :=
  let '(closed, st) := if wf_close_session p then let '(r, st) := mcp_close id (Some (wf_agent_id p)) st in (Some r, st)
                       else (None, st) in
  (Ret (Ok {| wr_session_id := id; wr_hit_count := hits; wr_tune := rep; wr_apply := fst <$> a; wr_close := closed |}), snd <$> a, st).
(** The reply, the file written, the sessions. *)
Definition tune_workflow (t : WorkflowTimes) (c : ConfigFile) (p : TuneWorkflowParams) (st : SessionStore)
    : outcome (result WorkflowReply McpError) * option (str * str) * SessionStore :=
  match open_session (wt_open t) (wt_wall t) (wf_agent_id p) (wf_context_id p) (wf_session_id p) st with
  | (Err e, st) => (Ret (Err (InvalidParams e)), None, st)
  | (Ok s, st) =>
      let id := ts_session_id s in
      match mcp_query c (wf_query p) (wf_top_k p) with
      | Err e => (Ret (Err e), None, st)
      | Ok r =>
          match results r with
          | [] => (Ret (Err NoHits), None, st)
          | hits =>
              match scope_tune (wt_tool t) (mcp_call id (Some (wf_agent_id p)) (Some (wf_context_id p)))
                      (scope_with_hits (wf_scope p) hits) st with
              | (Ret (Ok rep), st) =>
                  if wf_apply p then
                    match mcp_apply (wt_apply t) c id (wf_agent_id p) (wf_context_id p) (wf_config_path p) (wf_reload p) st with
                    | (Err e, st) => (Ret (Err e), None, st)
                    | (Ok a, st) => workflow_end p id (zlen hits) rep (Some a) st
                    end
                  else workflow_end p id (zlen hits) rep None st
              | (Ret (Err e), st) => (Ret (Err (InvalidParams e)), None, st)
              | (Panic, st) => (Panic, None, st)
              end
          end
      end
  end.
End Client.

(** ** What reaches the proxy *)

(** Whatever context a tool is called for, its search runs in the default one. *)
Lemma searches_default_context c clk agent r : qc_context (query_call clk (client_metadata c) agent (request_to_proto r)) = lit "default".
Proof. done. Qed.

(** The status with which a call of the HTTP interface and one of the client fail. *)
Definition client_status (http : Z) : Z := if bool_decide (http ∈ [400; 403; 503]) then http else if http =? 502 then 503 else 500.

(** The client returns what the search service answered: a served answer arrives as the
    response of the HTTP interface, up to what the messages cannot carry, and a refused
    call as an error with the status of the HTTP interface, where a failed upstream
    becomes an unavailable service. *)
Theorem client_exact `{C : ValueCodec} {L : ValueCodecLaws C} (qr : QueryResult) (c : ClientConfig) (r : QueryRequest) :
  match client_query (fun _ _ => grpc_reply qr) c r with
  | Ok x => qr_status qr = 200 /\ x = proto_response (into_query_response (qr_response qr))
  | Err e => qr_status qr <> 200 /\ exists m, e = RequestFailed (client_status (qr_status qr)) m
  end.
Proof.
  unfold client_query, grpc_reply, client_status.
  destruct (qr_status qr =? 200) eqn:E2; reflect_Z; [split; [done|]; rewrite cached_message; apply proto_response_roundtrip|].
  destruct (qr_status qr =? 400) eqn:E4; reflect_Z; [rewrite E4; split; [done|by eexists]|].
  destruct (qr_status qr =? 403) eqn:E43; reflect_Z; [rewrite E43; split; [done|by eexists]|].
  destruct (qr_status qr =? 502) eqn:E5; reflect_Z; [rewrite E5; split; [done|by eexists]|].
  destruct (qr_status qr =? 503) eqn:E53; reflect_Z; [rewrite E53; split; [done|by eexists]|].
  split; [done|]. rewrite bool_decide_false by set_solver. by eexists.
Qed.

Lemma open_new now wall a c st : exists s st1, open_session now wall a c None st = (Ok s, st1) /\
  st_sessions st1 !! ts_session_id s = Some s /\ ts_agent_id s = a /\ ts_context_id s = c /\ touch_session now s = s /\
  ts_runs s = [] /\ st_ttl st1 = st_ttl st.
Proof. eexists _, _. split; [reflexivity|]. split; [apply lookup_insert_eq|done]. Qed.

Section Workflow.
Context `{C : ValueCodec} (valid_endpoint : str -> option str) (http_client : option str).
Context (service : Metadata -> Proto.QueryRequestMsg -> result Proto.QueryResponseMsg GrpcError).
Context (socket_addr : str -> option (str * Z)) (http : Method -> str -> option str -> option Value -> result (Z * str) str).
Context (json_from_str : str -> result Value str).
Context `{UnicodeCase} `{FloatText} `{NumberViews} {O : MapOrder} `{ScopeJson}.
Context {IoE TomlE : Type} (read : str -> option (result str IoE)) (parse : str -> result ConfigFile TomlE).
Context (global_path local_path : str) (local_root : result str (LoadError IoE TomlE)).
Context (print : ConfigFile -> option str) (writable : str -> bool) (not_found : IoE).

Abbreviation workflow := (tune_workflow valid_endpoint http_client service socket_addr http json_from_str
  read parse global_path local_path local_root print writable not_found).

End Workflow.

(** ** Witnesses *)

Definition rust_service (md : Metadata) (q : Proto.QueryRequestMsg) : result Proto.QueryResponseMsg GrpcError :=
  Ok {| Proto.results := map (fun r => {| Proto.id := sr_id r; Proto.score := score r; Proto.content := content r;
                                          Proto.metadata_json := []; Proto.sr_upstream := [] |}) two_hits;
        Proto.cache_status := 1; Proto.took_ms := 0; Proto.generated_at := 0 |}.
Definition down_service (md : Metadata) (q : Proto.QueryRequestMsg) : result Proto.QueryResponseMsg GrpcError :=
  Err (GUnavailable, lit "down").
Definition rust_response : QueryResponse :=
  {| results := two_hits; cache_status := Hit; took_ms := 0; generated_at := None; miss_reason := None |}.
Definition rust_workflow : TuneWorkflowParams :=
  {| wf_agent_id := lit "ann"; wf_context_id := lit "docs"; wf_query := lit "rust"; wf_top_k := 10; wf_scope := rust_scope;
     wf_apply := true; wf_reload := false; wf_config_path := Some (lit "x"); wf_close_session := true; wf_session_id := None |}.
Definition rust_times : WorkflowTimes := {| wt_open := 0; wt_wall := 5; wt_tool := ann_moments; wt_apply := 3 |}.
Definition run_workflow (service : Metadata -> Proto.QueryRequestMsg -> result Proto.QueryResponseMsg GrpcError) :=
  @tune_workflow TreeCodec (fun _ => None) None service NoNumbers AsciiCase (fun _ => None) (fun _ _ _ _ => Err [])
    (fun _ => Err []) NoText ListedOrder ReadRust unit unit docs_read docs_parse (lit "g") (lit "l") (Ok [])
    (fun _ => Some (lit "b")) (fun _ => true) tt rust_times (shared_file None) rust_workflow.

(** A workflow whose search fails leaves the session it opened, although it was to be closed. *)
Lemma workflow_leaks_session :
  match run_workflow down_service (TuneSessionStore_new 10) with
  | (Ret (Err (ProxyFailed (RequestFailed 503 _))), None, st') => size (st_sessions st') = 1%nat
  | _ => False
  end.
Proof. by vm_compute. Qed.

(** * The tools of the MCP server (src/src/mcp/mod.rs)

    A call of a tool, from the parameters the protocol delivers to the session store and
    the report.  The parameters are the records of the source; those of a tuning tool
    carry the session with an optional agent and context, and run with the default
    budget. *)

Record ToolIds := { ti_session_id : str; ti_agent_id : option str; ti_context_id : option str }.
Record McpHit := { mh_id : str; mh_content : str; mh_score : f32 }.
Record McpWeightedPhrase := { mp_text : str; mp_weight : f32; mp_min_similarity : option f32 }.
Definition default_weight : f32 := F32.of_Z 1.
Definition default_max_phrases : Z := 8.
Definition mcp_phrase (p : McpWeightedPhrase) : WeightedPhrase :=
  {| wp_text := mp_text p; wp_weight := mp_weight p; wp_min_similarity := mp_min_similarity p |}.
Record ScopeTuneToolParams := {
  sx_hits : list McpHit; sx_weighted_phrases : list McpWeightedPhrase; sx_mode : option str; sx_min_similarity : option f32;
  sx_min_similarity_sweep : option (list f32); sx_scope_weight : option f32; sx_lexical_weight : option f32
}.
Definition scope_params (p : ScopeTuneToolParams) : ScopeTuneParams :=
  {| sc_hits := map (fun h => mcp_hit (mh_id h) (mh_content h) (mh_score h)) (sx_hits p);
     sc_weighted_phrases := map mcp_phrase (sx_weighted_phrases p); sc_mode := sx_mode p; sc_min_similarity := sx_min_similarity p;
     sc_min_similarity_sweep := sx_min_similarity_sweep p; sc_scope_weight := sx_scope_weight p; sc_lexical_weight := sx_lexical_weight p |}.

(** The other tuning tools take the parameters of the tool field by field. *)
Inductive McpRequest :=
| TuneSessionOpen (agent context : str) (session_id : option str)
| TuneSessionClose (session_id : str) (agent : option str)
| TuneSessionList (agent : str) (context : option str)
| TuneSelectRun (session_id run_id : str) (agent : option str)
| TuneExport (ids : ToolIds)
| CompareRuns (ids : ToolIds) (run_id_a run_id_b : str)
| ScopeTune (ids : ToolIds) (p : ScopeTuneToolParams)
| ScopeSuggest (ids : ToolIds) (p : ScopeSuggestParams)
| CacheTune (ids : ToolIds) (p : CacheTuneParams)
| CascadeTune (ids : ToolIds) (p : CascadeTuneParams)
| FederatedTune (ids : ToolIds) (p : FederatedTuneParams)
| EmbedTune (ids : ToolIds) (p : EmbedTuneParams)
| RateLimitTune (ids : ToolIds) (p : RateLimitTuneParams)
| WarmTune (ids : ToolIds) (p : WarmTuneParams).

Inductive McpReply :=
| ROpened (s : TuneSession) | RClosed (r : CloseReply) | RListed (l : list TuneSessionSummary) | RSelected (session_id run_id : str)
| RExported (a : TuneExportArtifact) | RCompared (r : CompareReport)
| RScope (r : ToolReport ScopeTuned) | RSuggested (r : ToolReport (list SuggestedPhrase)) | RCache (r : ToolReport (list CacheTuneCandidate))
| RCascade (r : ToolReport (list CascadeTuneCandidate)) | RFederated (r : ToolReport (list FederatedTuneCandidate))
| REmbed (r : ToolReport (list EmbedTuneCandidate)) | RRateLimit (r : ToolReport (list RateLimitTuneCandidate))
| RWarm (r : ToolReport (list (list Z) * Z * list WarmTuneCandidate)).

Section Tools.
Context `{UnicodeCase} `{UnicodeAlnum} `{FloatLn} `{FloatFixed} `{FloatText} `{NumberViews} {O : MapOrder}.

Definition tool_call (ids : ToolIds) : ToolCall := mcp_call (ti_session_id ids) (ti_agent_id ids) (ti_context_id ids).
Definition reply_with {A} (f : A -> McpReply) (r : result A TuneError) : result McpReply McpError :=
  match tune_err r with Ok a => Ok (f a) | Err e => Err e end.
Definition tool_reply {A} (f : ToolReport A -> McpReply) (r : outcome (result (ToolReport A) TuneError) * SessionStore)
  : outcome (result McpReply McpError) * SessionStore :=
  (let! x := r.1 in Ret (reply_with f x), r.2).
(** One function for each tool; one that looks at the clock once uses the first moment. *)
Definition tool_session_open (m : Moments) (agent context : str) (id : option str) (st : SessionStore) : result McpReply McpError * SessionStore :=
  let '(r, st) := open_session (at_lookup m) (at_naming m) agent context id st in (reply_with ROpened r, st).
Definition tool_session_close (id : str) (agent : option str) (st : SessionStore) : result McpReply McpError * SessionStore :=
  let '(r, st) := mcp_close id agent st in (Ok (RClosed r), st).
Definition tool_session_list (m : Moments) (agent : str) (context : option str) (st : SessionStore) : result McpReply McpError * SessionStore :=
  let '(l, st) := list_sessions (at_lookup m) agent context st in (Ok (RListed l), st).
Definition tool_select_run (m : Moments) (id run : str) (agent : option str) (st : SessionStore) : result McpReply McpError * SessionStore :=
  let '(r, st) := select_run (at_lookup m) id agent run st in (reply_with (fun _ => RSelected id run) r, st).
Definition tool_export (m : Moments) (ids : ToolIds) (st : SessionStore) : result McpReply McpError * SessionStore :=
  let '(r, st) := export (at_lookup m) (ti_session_id ids) (ti_agent_id ids) (ti_context_id ids) st in (reply_with RExported r, st).
Definition tool_compare_runs (m : Moments) (ids : ToolIds) (a b : str) (st : SessionStore) : result McpReply McpError * SessionStore :=
  let '(r, st) := compare_runs (at_lookup m) (ti_session_id ids) (ti_agent_id ids) (ti_context_id ids) a b st in (reply_with RCompared r, st).
Definition tool_scope_tune (m : Moments) (ids : ToolIds) (p : ScopeTuneToolParams) (st : SessionStore) :=
  tool_reply RScope (scope_tune m (tool_call ids) (scope_params p) st).
Definition tool_scope_suggest (m : Moments) (ids : ToolIds) (p : ScopeSuggestParams) (st : SessionStore) :=
  tool_reply RSuggested (scope_suggest m (tool_call ids) p st).
Definition tool_cache_tune (m : Moments) (ids : ToolIds) (p : CacheTuneParams) (st : SessionStore) :=
  tool_reply RCache (cache_tune m (tool_call ids) p st).
Definition tool_cascade_tune (m : Moments) (ids : ToolIds) (p : CascadeTuneParams) (st : SessionStore) :=
  tool_reply RCascade (cascade_tune m (tool_call ids) p st).
Definition tool_federated_tune (m : Moments) (ids : ToolIds) (p : FederatedTuneParams) (st : SessionStore) :=
  tool_reply RFederated (federated_tune m (tool_call ids) p st).
Definition tool_embed_tune (m : Moments) (ids : ToolIds) (p : EmbedTuneParams) (st : SessionStore) :=
  tool_reply REmbed (embed_tune m (tool_call ids) p st).
Definition tool_rate_limit_tune (m : Moments) (ids : ToolIds) (p : RateLimitTuneParams) (st : SessionStore) :=
  tool_reply RRateLimit (rate_limit_tune m (tool_call ids) p st).
Definition tool_warm_tune (m : Moments) (ids : ToolIds) (p : WarmTuneParams) (st : SessionStore) :=
  tool_reply RWarm (warm_tune m (tool_call ids) p st).

Definition total {A} (r : A * SessionStore) : outcome A * SessionStore := (Ret r.1, r.2).
Definition mcp_handle (m : Moments) (q : McpRequest) (st : SessionStore) : outcome (result McpReply McpError) * SessionStore :=
  match q with
  | TuneSessionOpen agent context id => total (tool_session_open m agent context id st)
  | TuneSessionClose id agent => total (tool_session_close id agent st)
  | TuneSessionList agent context => total (tool_session_list m agent context st)
  | TuneSelectRun id run agent => total (tool_select_run m id run agent st)
  | TuneExport ids => total (tool_export m ids st)
  | CompareRuns ids a b => total (tool_compare_runs m ids a b st)
  | ScopeTune ids p => tool_scope_tune m ids p st
  | ScopeSuggest ids p => tool_scope_suggest m ids p st
  | CacheTune ids p => tool_cache_tune m ids p st
  | CascadeTune ids p => tool_cascade_tune m ids p st
  | FederatedTune ids p => tool_federated_tune m ids p st
  | EmbedTune ids p => tool_embed_tune m ids p st
  | RateLimitTune ids p => tool_rate_limit_tune m ids p st
  | WarmTune ids p => tool_warm_tune m ids p st
  end.
Definition mcp_caller (q : McpRequest) : option str :=
  match q with
  | TuneSessionOpen a _ _ | TuneSessionList a _ => Some a
  | TuneSessionClose _ a | TuneSelectRun _ _ a => a
  | TuneExport ids | CompareRuns ids _ _ | ScopeTune ids _ | ScopeSuggest ids _ | CacheTune ids _ | CascadeTune ids _
  | FederatedTune ids _ | EmbedTune ids _ | RateLimitTune ids _ | WarmTune ids _ => ti_agent_id ids
  end.

(** ** The tools are operations on the sessions of their caller *)

Lemma get_session_op now id a c st : (get_session now id a c st).2 = s_apply st (SGet now id a c).
Proof. unfold get_session. simpl. by destruct (get_checked now id a c st). Qed.
Lemma tool_run_ops {A} m tool (c : ToolCall) (plan : outcome (result (Planned A) TuneError)) st :
  exists ops, (tool_run m tool c plan st).2 = s_run ops st /\ Forall (fun o => caller o = tc_agent_id c) ops /\ (length ops <= 2)%nat.
Proof.
  unfold tool_run. pose proof (get_session_op (at_lookup m) (tc_session_id c) (tc_agent_id c) (tc_context_id c) st) as Hg.
  destruct (get_session _ _ _ _ st) as [s st1]. cbn [snd] in Hg. set (g := SGet _ _ _ _) in *.
  assert (Hone : exists ops, st1 = s_run ops st /\ Forall (fun o => caller o = tc_agent_id c) ops /\ (length ops <= 2)%nat)
    by (exists [g]; split; [done|]; split; [by repeat constructor|simpl; lia]).
  destruct s; [|exact Hone]. destruct plan as [[p|e]|]; [|exact Hone|exact Hone].
  destruct (append_run _ _ _ _ st1) as [r st2] eqn:Ea. cbn [snd].
  exists [g; SAppend (at_recording m) (tc_session_id c) (tc_agent_id c) (run_of tool (new_run_id (at_naming m)) p)].
  split; [|split; [by repeat constructor|simpl; lia]]. unfold s_run. cbn [fold_left]. rewrite <- Hg. simpl. by rewrite Ea.
Qed.
Lemma mcp_handle_ops m q st : exists ops, (mcp_handle m q st).2 = s_run ops st /\
  Forall (fun o => caller o = mcp_caller q) ops /\ (length ops <= 2)%nat.
Proof.
  assert (Hone : forall o st', caller o = mcp_caller q -> st' = s_apply st o ->
    exists ops, st' = s_run ops st /\ Forall (fun o => caller o = mcp_caller q) ops /\ (length ops <= 2)%nat).
  { intros o st' Hc ->. exists [o]. split; [done|]. split; [by repeat constructor|simpl; lia]. }
  destruct q; cbn [mcp_handle mcp_caller] in *; try (apply tool_run_ops);
    unfold total, tool_session_open, tool_session_close, tool_session_list, tool_select_run, tool_export, tool_compare_runs.
  - destruct (open_session _ _ _ _ _ st) as [r st'] eqn:Eo. eapply (Hone (SOpen (at_lookup m) (at_naming m) agent context session_id)); [done|].
    cbn [s_apply]. by rewrite Eo.
  - unfold mcp_close. destruct (close_with_reason session_id agent st) as [r st'] eqn:Eo. eapply (Hone (SClose session_id agent)); [done|].
    cbn [s_apply]. by rewrite Eo.
  - destruct (list_sessions _ agent context st) as [r st'] eqn:Eo. eapply (Hone (SList (at_lookup m) agent context)); [done|]. cbn [s_apply]. by rewrite Eo.
  - destruct (select_run _ session_id agent run_id st) as [r st'] eqn:Eo. eapply (Hone (SSelect (at_lookup m) session_id agent run_id)); [done|].
    cbn [s_apply]. by rewrite Eo.
  - unfold export. pose proof (get_session_op (at_lookup m) (ti_session_id ids) (ti_agent_id ids) (ti_context_id ids) st) as Hg.
    destruct (get_session _ _ _ _ st) as [s st'].
    eapply (Hone (SGet (at_lookup m) (ti_session_id ids) (ti_agent_id ids) (ti_context_id ids))); [done|]. rewrite <- Hg. destruct s as [s|]; [by destruct (winner (ts_runs s))|done].
  - unfold compare_runs. pose proof (get_session_op (at_lookup m) (ti_session_id ids) (ti_agent_id ids) (ti_context_id ids) st) as Hg.
    destruct (get_session _ _ _ _ st) as [s st'].
    eapply (Hone (SGet (at_lookup m) (ti_session_id ids) (ti_agent_id ids) (ti_context_id ids))); [done|]. exact Hg.
Qed.

Definition mcp_run (calls : list (Moments * McpRequest)) (st : SessionStore) : SessionStore :=
  fold_left (fun st c => (mcp_handle c.1 c.2 st).2) calls st.
Lemma mcp_run_ops calls : forall st, exists ops, mcp_run calls st = s_run ops st /\
  Forall (fun o => exists c, c ∈ calls /\ caller o = mcp_caller c.2) ops /\ (length ops <= 2 * length calls)%nat.
Proof.
  induction calls as [|[m q] calls IH]; intros st; [exists []; split; [done|split; [constructor|simpl; lia]]|].
  destruct (mcp_handle_ops m q st) as (o1 & H1' & F1 & L1). cbn [mcp_run fold_left fst snd].
  destruct (IH (mcp_handle m q st).2) as (o2 & H2' & F2 & L2). exists (o1 ++ o2). split; [|split].
  - unfold mcp_run in H2'. rewrite H2', H1'. unfold s_run. by rewrite fold_left_app.
  - apply Forall_app. split.
    + eapply Forall_impl; [exact F1|]. intros o Ho. exists (m, q). split; [left|done].
    + eapply Forall_impl; [exact F2|]. intros o (c & Hc & Ho). exists c. split; [by right|done].
  - rewrite length_app. cbn [length]. lia.
Qed.

(** From a new store, whatever calls were made before, calls in the name of other agents
    change the sessions of an agent at most by dropping some that were idle for too long;
    what is kept of them is unchanged. *)
Theorem tools_private {L : MapOrderLaws O} (ttl : Z) (before after : list (Moments * McpRequest)) (a : str)
    (HC : 2 * (zlen before + zlen after) < u64_max)
    (HA : Forall (fun c => exists b, mcp_caller c.2 = Some b /\ b <> a) after) :
  let st := mcp_run before (TuneSessionStore_new ttl) in
  owned a (mcp_run after st) ⊆ owned a st /\
  forall id s, owned a st !! id = Some s -> owned a (mcp_run after st) !! id = None ->
    exists now, alive now (st_ttl st) s = false.
Proof.
  intros st. destruct (mcp_run_ops before (TuneSessionStore_new ttl)) as (ob & Hb & _ & Lb). fold st in Hb.
  destruct (mcp_run_ops after st) as (oa & Ha & Fa & La). rewrite Ha, Hb. clear Ha.
  destruct (s_run_wf ob _ (new_wf ttl)) as (Hw & Hn & Ht); [unfold zlen in *; cbn; lia|]. cbn in Hn, Ht.
  rewrite <- Hb in *. clear Hb. assert (Hc : st_next_id st + zlen oa <= u64_max) by (unfold zlen in *; lia).
  assert (Fo : Forall (fun o => exists b, caller o = Some b /\ b <> a) oa).
  { eapply Forall_impl; [exact Fa|]. intros o (c & Hin & Ho). rewrite Forall_forall in HA. destruct (HA c Hin) as (b & Hb & Hne).
    exists b. by rewrite Ho. }
  clear - Hw Hc Fo L. clearbody st. generalize st Hw Hc. clear Hw Hc st.
  induction Fo as [|o oa (b & Hb & Hne) _ IH]; intros st Hw Hc; [split; [done|]; intros id s Hs Hx; cbn in Hx; by rewrite Hs in Hx|].
  rewrite zlen_cons in Hc. pose proof (zlen_nonneg oa). cbn [s_run fold_left].
  destruct (foreign_step a b st o Hw) as [Hs _]; [lia|done|done|]. destruct (s_apply_wf st o Hw) as [Hw' Hn']; [lia|].
  destruct (IH (s_apply st o) Hw') as [IH1 IH2]; [lia|]. rewrite s_apply_ttl in IH2. unfold s_run in *. rewrite Hs in IH1, IH2.
  assert (Hsub : expire (st_ttl st) (owned a st) o ⊆ owned a st) by (unfold expire; case_match; [apply map_filter_subseteq|done]).
  split; [by etransitivity|]. intros id s Hin Hout. destruct (expire (st_ttl st) (owned a st) o !! id) as [s'|] eqn:Ee.
  - assert (owned a st !! id = Some s') by (eapply lookup_weaken; [exact Ee|done]). simplify_eq. by eapply IH2.
  - unfold expire in Ee. destruct (s_time o) as [now|]; [|by rewrite Hin in Ee]. exists now.
    apply map_lookup_filter_None in Ee as [He|He]; [by rewrite Hin in He|]. specialize (He s Hin). cbn in He.
    by apply not_true_is_false.
Qed.
End Tools.
