(* ===== verification/Prometheus.v ===== *)
(** * The metrics page (src/src/proxy/metrics.rs, handle_metrics_prometheus of
    src/src/proxy/server/status.rs)

    The text a Prometheus server scrapes: families of samples, each with a help and a
    type line.  [Family] is what the formatting macros of the source print; the functions
    that append a part of the page keep their names.  A reader of the text format gives
    the meaning of the page.  The features that are off by default add families that are
    left out, except [append_smart_embedder_prometheus]. *)

From Stdlib Require Import SpecFloat.
From S2P Require Import Prelude Floats Text Types Drift Cdc Cache CacheInv CacheSweep CacheProps Circuit Priority Scope.
From S2P Require Import Coalesce Retry ConnPool Upstream Pool PoolProps Cascade Auth Adaptive Federated Metrics Context.
From S2P Require Import Refresh Batch Pipeline Peer Settings Config Admin Handlers Grpc AuditLog Start Status Engine.
Open Scope Z_scope.
Open Scope conproxy_scope.

(** The text of a 64-bit float, in full ([{}]) and with two decimals ([{:.2}]). *)
Class GaugeText := { gauge_text : f64 -> str; gauge_fixed2 : f64 -> str }.

(** ** Families *)

Inductive Kind := KCounter | KGauge.
Definition kind_text (k : Kind) : str := match k with KCounter => lit "counter" | KGauge => lit "gauge" end.
(** A label has a name and a value. *)
Definition Label : Type := str * str.
Record Family := { fam_name : str; fam_help : str; fam_kind : Kind; fam_samples : list (option Label * str) }.

Definition prefixed (name : str) : str := lit "conproxy_" ++ name.
#[global] Arguments prefixed : simpl never.
Definition label_text (l : option Label) : str :=
  match l with Some (k, v) => [123] ++ k ++ [61; 34] ++ v ++ [34; 125] | None => [] end.
Definition sample_text (name : str) (s : option Label * str) : str := prefixed name ++ label_text s.1 ++ [32] ++ s.2.
Definition help_text (f : Family) : str := lit "# HELP " ++ prefixed (fam_name f) ++ [32] ++ fam_help f.
Definition type_text (f : Family) : str := lit "# TYPE " ++ prefixed (fam_name f) ++ [32] ++ kind_text (fam_kind f).
Definition family_lines (f : Family) : list str :=
  help_text f :: type_text f :: map (sample_text (fam_name f)) (fam_samples f).
Definition render (fs : list Family) : str := concat (map (fun l => l ++ [10]) (concat (map family_lines fs))).

Definition counter (name help : string) (v : Z) : Family :=
  {| fam_name := lit name; fam_help := lit help; fam_kind := KCounter; fam_samples := [(None, show_Z v)] |}.
Definition gauge_of (name help : string) (v : str) : Family :=
  {| fam_name := lit name; fam_help := lit help; fam_kind := KGauge; fam_samples := [(None, v)] |}.
(** A family with one sample per value of a label. *)
Definition labelled (name help : string) (k : Kind) (label : string) (l : list (str * str)) : Family :=
  {| fam_name := lit name; fam_help := lit help; fam_kind := k;
     fam_samples := map (fun x => (Some (lit label, x.1), x.2)) l |}.
Definition named (l : list (string * Z)) : list (str * str) := map (fun x => (lit x.1, show_Z x.2)) l.

(** ** The parts of the page *)

Section Page.
Context `{GaugeText}.

Definition gauge (name help : string) (v : f64) : Family := gauge_of name help (gauge_text v).
Definition gauge_u (name help : string) (v : Z) : Family := gauge_of name help (show_Z v).
Definition thousandth (x : f64) : f64 := F64.div x (F64.of_Z 1000).

Definition request_families (s : MetricsSnapshot) : list Family :=
  let n := ms_count s in
  [counter "requests_total" "Total number of requests processed" (n requests_total);
   counter "cache_hits_total" "Number of cache hits (fresh responses)" (n cache_hits);
   counter "cache_misses_total" "Number of cache misses" (n cache_misses);
   labelled "cache_miss_reasons_total" "Number of cache misses by reason" KCounter "reason"
     (named [("not_in_cache", n miss_not_in_cache); ("expired", n miss_expired); ("upstream_error", n miss_upstream_error);
             ("circuit_open", n miss_circuit_open)]%string);
   counter "cache_stale_total" "Number of stale-while-revalidate responses" (n cache_stale);
   counter "cache_frozen_total" "Number of frozen responses (upstream unavailable)" (n cache_frozen);
   counter "coalesced_requests_total" "Number of coalesced requests (waited on leader)" (n coalesced_requests);
   counter "upstream_requests_total" "Number of upstream requests made" (n upstream_requests);
   counter "upstream_failures_total" "Number of upstream request failures" (n upstream_failures);
   counter "validation_errors_total" "Number of validation errors (bad requests)" (n validation_errors);
   counter "integrity_failures_total" "Number of integrity check failures" (n integrity_failures);
   counter "schema_changes_total" "Number of schema changes detected" (n schema_changes);
   counter "refresh_operations_total" "Number of refresh operations" (n refresh_operations);
   counter "evictions_total" "Number of cache evictions" (n evictions)].
Definition outcome_families (s : MetricsSnapshot) : list Family :=
  let n := ms_count s in
  [counter "drift_alerts_total" "Number of drift alerts triggered" (n drift_alerts);
   labelled "drift_observations_total" "Number of drift observations by level" KCounter "level"
     (named [("none", n drift_none); ("minor", n drift_minor); ("moderate", n drift_moderate);
             ("significant", n drift_significant); ("major", n drift_major)]%string);
   counter "cascade_success_total" "Number of successful cascade queries" (cascade_success (ms_cascade s));
   counter "cascade_exhausted_total" "Number of cascade queries that exhausted all upstreams" (cascade_exhausted (ms_cascade s));
   counter "cascade_timeout_total" "Number of cascade queries that timed out" (cascade_timeouts (ms_cascade s));
   gauge "cascade_avg_depth" "Average cascade depth (upstreams tried per query)" (cascade_avg_depth s);
   counter "warmup_requests_total" "Number of warmup requests (POST /cache/warmup calls)" (n warmup_requests);
   counter "warmup_entries_total" "Number of entries warmed (cache inserts from warmup)" (n warmup_entries);
   gauge "cache_hit_rate" "Cache hit rate (0.0 to 1.0)" (cache_hit_rate s);
   gauge "upstream_error_rate" "Upstream error rate (0.0 to 1.0)" (upstream_error_rate s);
   gauge "latency_avg_seconds" "Average request latency in seconds" (thousandth (latency_avg_ms s));
   gauge "latency_max_seconds" "Maximum request latency in seconds" (thousandth (ms_latency_max_ms s));
   gauge "latency_min_seconds" "Minimum request latency in seconds" (thousandth (ms_latency_min_ms s))].
Definition snapshot_families (s : MetricsSnapshot) : list Family := request_families s ++ outcome_families s.
Definition to_prometheus (s : MetricsSnapshot) : str := render (snapshot_families s).

Definition cache_families (entries_ memory max : Z) : list Family :=
  [gauge_u "cache_entries" "Current number of entries in cache" entries_;
   gauge_u "cache_memory_bytes" "Current memory usage of cache in bytes" memory;
   gauge_u "cache_max_entries" "Maximum allowed cache entries" max;
   gauge "cache_utilization" "Cache utilization (0.0 to 1.0)" (ratio entries_ max)].
Definition to_prometheus_with_cache (s : MetricsSnapshot) (entries_ memory max : Z) : str :=
  to_prometheus s ++ render (cache_families entries_ memory max).

Record PoolMetricsParams := {
  pp_total_upstreams : Z; pp_healthy_upstreams : Z; pp_fts_count : Z; pp_vector_db_count : Z; pp_hybrid_count : Z;
  pp_unknown_count : Z; pp_active_connections : Z; pp_pool_utilization : f64
}.
Definition pool_families (p : PoolMetricsParams) : list Family :=
  [gauge_u "pool_upstreams_total" "Total number of configured upstreams" (pp_total_upstreams p);
   gauge_u "pool_upstreams_healthy" "Number of healthy upstreams" (pp_healthy_upstreams p);
   labelled "pool_upstreams_by_type" "Number of upstreams by backend type" KGauge "type"
     (named [("fts", pp_fts_count p); ("vector_db", pp_vector_db_count p); ("hybrid", pp_hybrid_count p);
             ("unknown", pp_unknown_count p)]%string);
   gauge_u "pool_active_connections" "Number of active connections" (pp_active_connections p);
   gauge "pool_utilization" "Connection pool utilization (0.0 to 1.0)" (pp_pool_utilization p)].
Definition to_prometheus_with_pool (s : MetricsSnapshot) (entries_ memory max : Z) (p : PoolMetricsParams) : str :=
  to_prometheus_with_cache s entries_ memory max ++ render (pool_families p).

Record ContextMetricsEntry := { ce_ctx_id : str; ce_ctx_hits : Z; ce_ctx_misses : Z; ce_ctx_hit_rate : f64 }.
Definition context_families (l : list ContextMetricsEntry) : list Family :=
  match l with
  | [] => []
  | _ => [labelled "context_cache_hits_total" "Cache hits by context" KCounter "context"
            (map (fun c => (ce_ctx_id c, show_Z (ce_ctx_hits c))) l);
          labelled "context_cache_misses_total" "Cache misses by context" KCounter "context"
            (map (fun c => (ce_ctx_id c, show_Z (ce_ctx_misses c))) l);
          labelled "context_hit_rate" "Cache hit rate by context" KGauge "context"
            (map (fun c => (ce_ctx_id c, gauge_text (ce_ctx_hit_rate c))) l)]
  end.
Definition append_context_stats_prometheus (out : str) (l : list ContextMetricsEntry) : str := out ++ render (context_families l).

Record AgentMetricsEntry := {
  am_id : str; am_requests_total : Z; am_cache_hits : Z; am_cache_misses : Z; am_rate_limited : Z; am_context_denied : Z
}.
Definition by_agent (l : list AgentMetricsEntry) (f : AgentMetricsEntry -> Z) : list (str * str) :=
  map (fun a => (am_id a, show_Z (f a))) l.
Definition agent_families (l : list AgentMetricsEntry) : list Family :=
  match l with
  | [] => []
  | _ => [labelled "agent_requests_total" "Total requests per agent" KCounter "agent" (by_agent l am_requests_total);
          labelled "agent_cache_hits_total" "Cache hits per agent" KCounter "agent" (by_agent l am_cache_hits);
          labelled "agent_cache_misses_total" "Cache misses per agent" KCounter "agent" (by_agent l am_cache_misses);
          labelled "agent_rate_limited_total" "Rate limited requests per agent" KCounter "agent" (by_agent l am_rate_limited);
          labelled "agent_context_denied_total" "Context denied requests per agent" KCounter "agent" (by_agent l am_context_denied)]
  end.
Definition append_agent_metrics_prometheus (out : str) (l : list AgentMetricsEntry) : str := out ++ render (agent_families l).

Definition adaptive_families (s : AdaptiveTimeoutStats) : list Family :=
  [gauge "adaptive_timeout_seconds" "Current adaptive timeout in seconds" (thousandth (current_timeout_ms s));
   gauge_u "adaptive_timeout_samples" "Number of latency samples in the adaptive timeout ring buffer" (as_sample_count s)] ++
  (if 0 <? as_sample_count s
   then [labelled "upstream_latency_seconds" "Upstream latency percentiles from adaptive timeout" KGauge "quantile"
           (map (fun x => (lit x.1, gauge_text (thousandth x.2)))
              [("0.5", p50_latency_ms s); ("0.95", p95_latency_ms s); ("0.99", p99_latency_ms s);
               ("min", min_latency_ms s); ("max", max_latency_ms s); ("avg", avg_latency_ms s)]%string)]
   else []).
Definition append_adaptive_timeout_prometheus (out : str) (s : AdaptiveTimeoutStats) : str := out ++ render (adaptive_families s).

Definition breaker_families (state_value failures opened tripped : Z) : list Family :=
  [gauge_u "circuit_state" "Circuit breaker state (0=closed, 1=half_open, 2=open)" state_value;
   gauge_u "circuit_failure_count" "Current failure count in the circuit breaker window" failures;
   counter "circuit_times_opened_total" "Total times the circuit breaker has opened" opened;
   counter "circuit_times_tripped_total" "Total requests rejected by open circuit" tripped].
Definition append_circuit_breaker_prometheus (out : str) (state_value failures opened tripped : Z) : str :=
  out ++ render (breaker_families state_value failures opened tripped).

(** An upstream: its name, requests, failures, failure rate and status. *)
Definition UpstreamRow : Type := str * Z * Z * f64 * str.
Definition status_value (status : str) : Z :=
  if str_eqb status (lit "online") then 2 else if str_eqb status (lit "degraded") then 1 else 0.
Definition upstream_families (l : list UpstreamRow) : list Family :=
  match l with
  | [] => []
  | _ => [labelled "upstream_requests_by_upstream" "Total requests per upstream" KCounter "upstream"
            (map (fun '(id, requests, _, _, _) => (id, show_Z requests)) l);
          labelled "upstream_failures_by_upstream" "Total failures per upstream" KCounter "upstream"
            (map (fun '(id, _, failures, _, _) => (id, show_Z failures)) l);
          labelled "upstream_failure_rate_by_upstream" "Failure rate per upstream (0.0 to 1.0)" KGauge "upstream"
            (map (fun '(id, _, _, rate, _) => (id, gauge_text rate)) l);
          labelled "upstream_status" "Per-upstream health status (0=offline, 1=degraded, 2=online)" KGauge "upstream"
            (map (fun '(id, _, _, _, status) => (id, show_Z (status_value status))) l)]
  end.
Definition append_per_upstream_prometheus (out : str) (l : list UpstreamRow) : str := out ++ render (upstream_families l).

Definition throughput_families (uptime requests : Z) : list Family :=
  [gauge_of "requests_per_second" "Average request throughput (requests/second)" (gauge_fixed2 (ratio requests uptime))].
Definition append_throughput_prometheus (out : str) (uptime requests : Z) : str := out ++ render (throughput_families uptime requests).

Definition percentile_families (p : LatencyPercentiles) : list Family :=
  if lp_sample_count p =? 0 then []
  else [labelled "request_latency_seconds" "All-request latency percentiles (cache hits + misses)" KGauge "quantile"
          (map (fun x => (lit x.1, gauge_text (thousandth x.2)))
             [("0.5", lp_p50_ms p); ("0.95", lp_p95_ms p); ("0.99", lp_p99_ms p)]%string)].
Definition append_latency_percentiles_prometheus (out : str) (p : LatencyPercentiles) : str := out ++ render (percentile_families p).

Definition queue_families (s : QueueStats) : list Family :=
  [gauge_u "queue_depth" "Total items in request queue" (qs_total s);
   gauge_u "queue_max_size" "Maximum request queue capacity" (qs_max_size s);
   labelled "queue_by_priority" "Queue depth by priority level" KGauge "priority"
     (named [("low", low_priority s); ("normal", normal_priority s); ("high", high_priority s);
             ("critical", critical_priority s)]%string)].
Definition append_queue_prometheus (out : str) (s : QueueStats) : str := out ++ render (queue_families s).

Definition client_families (active_ completed rejected : Z) : list Family :=
  [gauge_u "clients_active" "Number of active client requests" active_;
   counter "clients_completed_total" "Total completed client requests" completed;
   counter "clients_rejected_total" "Total rejected client requests" rejected].
Definition append_client_tracker_prometheus (out : str) (active_ completed rejected : Z) : str :=
  out ++ render (client_families active_ completed rejected).

Record SmartEmbedderStats := {
  se_model_name : str; se_cache_size : Z; se_cache_hits : Z; se_cache_misses : Z; se_embeddings_computed : Z;
  se_coalesced_requests : Z
}.
Definition embedder_families (s : SmartEmbedderStats) : list Family :=
  let one (v : Z) := [(se_model_name s, show_Z v)] in
  [labelled "smart_embedder_cache_size" "Current embedding cache entries" KGauge "model" (one (se_cache_size s));
   labelled "smart_embedder_cache_hits_total" "Embedding cache hits" KCounter "model" (one (se_cache_hits s));
   labelled "smart_embedder_cache_misses_total" "Embedding cache misses" KCounter "model" (one (se_cache_misses s));
   labelled "smart_embedder_embeddings_computed_total" "Embeddings computed" KCounter "model" (one (se_embeddings_computed s));
   labelled "smart_embedder_coalesced_total" "Coalesced embed requests" KCounter "model" (one (se_coalesced_requests s))].
Definition append_smart_embedder_prometheus (out : str) (s : SmartEmbedderStats) : str := out ++ render (embedder_families s).

(** ** The handler *)

Definition circuit_value (st : CircuitState) : Z := match st with Closed => 0 | HalfOpen => 1 | Open => 2 end.
Definition pool_params (p : PoolStats) : PoolMetricsParams :=
  {| pp_total_upstreams := total_upstreams p; pp_healthy_upstreams := healthy_upstreams p; pp_fts_count := tc_fts p;
     pp_vector_db_count := tc_vector_db p; pp_hybrid_count := tc_hybrid p; pp_unknown_count := tc_unknown p;
     pp_active_connections := ps_active_connections p; pp_pool_utilization := pool_utilization p |}.
Definition upstream_row (u : PooledUpstream) : UpstreamRow :=
  (pu_id u, requests u, failures u, failure_rate u, status_text (status (pu_health u))).
Definition context_entry (x : str * ContextStats * f64) : ContextMetricsEntry :=
  let '(id, st, rate) := x in {| ce_ctx_id := id; ce_ctx_hits := cs_hits st; ce_ctx_misses := cs_misses st; ce_ctx_hit_rate := rate |}.
Definition agent_entry (i : AgentInfo) : AgentMetricsEntry :=
  {| am_id := in_id i; am_requests_total := q_requests_total (in_quota i); am_cache_hits := q_cache_hits (in_quota i);
     am_cache_misses := q_cache_misses (in_quota i); am_rate_limited := q_rate_limited (in_quota i);
     am_context_denied := q_context_denied (in_quota i) |}.

Section Handler.
Context `{E : CacheEnv} `{ContextEnv}.
Context (agent_order : gmap str AgentEntry -> list (str * AgentEntry)).

(** The status, the content type and the page; reading the breaker may move it. *)
Definition handle_metrics_prometheus (clk : Clock) (s : Server) : outcome (Z * str * str * Server) :=
  let a := sv_app s in
  let snapshot := metrics_snapshot (st_metrics a) in
  let! cs := stats clk (st_cache a) in
  let text :=
    match sv_pool s with
    | Some pool =>
        append_per_upstream_prometheus
          (to_prometheus_with_pool snapshot (cs_total cs) (cs_memory_bytes cs) (cs_max_entries cs) (pool_params (pool_stats pool)))
          (map upstream_row (upstreams pool))
    | None => to_prometheus_with_cache snapshot (cs_total cs) (cs_memory_bytes cs) (cs_max_entries cs)
    end in
  let text := append_adaptive_timeout_prometheus text (at_stats (adaptive_timeout a)) in
  let '(st, b) := state (mono clk) (circuit_breaker a) in
  let text := append_circuit_breaker_prometheus text (circuit_value st) (failure_count b) (times_opened b) (times_tripped b) in
  let text := append_throughput_prometheus text (uptime_secs clk s) (ms_count snapshot requests_total) in
  let text := append_latency_percentiles_prometheus text (latency_percentiles (st_metrics a)) in
  let text := append_context_stats_prometheus text (map context_entry (all_context_stats (context_manager a))) in
  let text := match sv_agents s with
              | Some r => append_agent_metrics_prometheus text (map agent_entry (list_agents agent_order r))
              | None => text
              end in
  let text := append_queue_prometheus text (q_stats (sv_queue s)) in
  let t := client_tracker a in
  let text := append_client_tracker_prometheus text (Z.of_nat (size (cl_active t))) (total_completed t) (total_rejected t) in
  Ret (200, lit "text/plain; version=0.0.4; charset=utf-8", text, put_breaker b s).
End Handler.
End Page.

(** ** The text format

    A reader of the exposition format: lines of help, type or sample; the value of a label
    is quoted, with escapes for the backslash, the quote and the line break.  The families
    are read from the last line to the first: samples, then their type, then their help. *)

Inductive Line :=
| HelpLine (name help : str)
| TypeLine (name kind : str)
| SampleLine (name : str) (label : option Label) (value : str).

(** The text before the first [sep], and the rest after it. *)
Fixpoint cut (sep : char) (s : str) : option (str * str) :=
  match s with
  | [] => None
  | c :: s => if c =? sep then Some ([], s) else (fun x => (c :: x.1, x.2)) <$> cut sep s
  end.
Fixpoint quoted_value (s : str) : option (str * str) :=
  match s with
  | [] => None
  | c :: s' =>
      if c =? 34 then Some ([], s')
      else if c =? 92 then
        match s' with
        | d :: s'' =>
            if (d =? 92) || (d =? 34) then (fun x => (d :: x.1, x.2)) <$> quoted_value s''
            else if d =? 110 then (fun x => (10 :: x.1, x.2)) <$> quoted_value s'' else None
        | [] => None
        end
      else (fun x => (c :: x.1, x.2)) <$> quoted_value s'
  end.
Definition name_char (c : char) : bool := is_ascii_alphanumeric c || (c =? 95).
Definition read_name (s : str) : option str := if forallb name_char s && negb (bool_decide (s = [])) then Some s else None.
Definition read_value (s : str) : option str := if bool_decide (s = []) || bool_decide (32 ∈ s) then None else Some s.
Definition read_sample (s : str) : option Line :=
  match cut 123 s with
  | Some (n, r) =>
      name ← read_name n; '(k, r) ← cut 61 r; key ← read_name k;
      match r with
      | 34 :: r => '(v, r) ← quoted_value r;
                   match r with 125 :: 32 :: r => SampleLine name (Some (key, v)) <$> read_value r | _ => None end
      | _ => None
      end
  | None => '(n, r) ← cut 32 s; name ← read_name n; SampleLine name None <$> read_value r
  end.
Definition read_line (s : str) : option Line :=
  match strip_prefix (lit "# HELP ") s with
  | Some r => '(n, h) ← cut 32 r; name ← read_name n; Some (HelpLine name h)
  | None =>
      match strip_prefix (lit "# TYPE ") s with
      | Some r => '(n, k) ← cut 32 r; name ← read_name n; Some (TypeLine name k)
      | None => read_sample s
      end
  end.
Definition read_kind (s : str) : option Kind :=
  if str_eqb s (lit "counter") then Some KCounter else if str_eqb s (lit "gauge") then Some KGauge else None.

(** What has been read below a line: samples, their type, the families after them. *)
Record Reading := { rd_samples : list (str * (option Label * str)); rd_type : option (str * Kind); rd_families : list Family }.
Definition read_step (l : Line) (r : Reading) : option Reading :=
  match l, rd_type r with
  | SampleLine n lab v, None =>
      Some {| rd_samples := (n, (lab, v)) :: rd_samples r; rd_type := None; rd_families := rd_families r |}
  | TypeLine n k, None =>
      if forallb (fun x => str_eqb x.1 n) (rd_samples r)
      then (fun k => {| rd_samples := rd_samples r; rd_type := Some (n, k); rd_families := rd_families r |}) <$> read_kind k
      else None
  | HelpLine n h, Some (m, k) =>
      if str_eqb n m
      then Some {| rd_samples := []; rd_type := None;
                   rd_families := {| fam_name := n; fam_help := h; fam_kind := k; fam_samples := map snd (rd_samples r) |}
                                  :: rd_families r |}
      else None
  | _, _ => None
  end.
Fixpoint read_lines (ls : list str) : option Reading :=
  match ls with
  | [] => Some {| rd_samples := []; rd_type := None; rd_families := [] |}
  | s :: ls => r ← read_lines ls; l ← read_line s; read_step l r
  end.
(** A page ends with a line break. *)
Definition read_page (s : str) : option (list Family) :=
  match last (split_on 10 [] s) with
  | Some [] =>
      r ← read_lines (removelast (split_on 10 [] s));
      match rd_samples r, rd_type r with [], None => Some (rd_families r) | _, _ => None end
  | _ => None
  end.
(** What a scraper records for a name and a label. *)
Definition scraped (page : str) (name : string) (label : option Label) : option str :=
  fs ← read_page page;
  f ← List.find (fun f => str_eqb (fam_name f) (prefixed (lit name))) fs;
  snd <$> List.find (fun s => bool_decide (s.1 = label)) (fam_samples f).
