(* ===== verification/PrometheusProps.v ===== *)
(** * Properties of the metrics page

    What a scraper that reads the text format records: every family once, every sample
    with the value the proxy holds.  The names of contexts, agents and upstreams are not
    escaped, so this holds for names without quotes, backslashes and line breaks; a name
    with a quote, which the interface for contexts accepts, makes the page unreadable. *)

From Stdlib Require Import SpecFloat.
From S2P Require Import Prelude Floats Text Types Drift Cdc Cache CacheInv CacheSweep CacheProps Circuit Priority Scope.
From S2P Require Import Coalesce Retry ConnPool Upstream Pool PoolProps Cascade Auth Adaptive Federated Metrics Context.
From S2P Require Import Refresh Batch Pipeline Peer Settings Config Admin Handlers Grpc AuditLog Start Status Engine Prometheus.
Open Scope Z_scope.
Open Scope conproxy_scope.

(** The text of a float is one word. *)
Definition word (s : str) : Prop := s <> [] /\ 32 ∉ s /\ 10 ∉ s /\ 123 ∉ s.
Class GaugeTextLaws (G : GaugeText) : Prop := { gauge_word x : word (gauge_text x); fixed_word x : word (gauge_fixed2 x) }.

(** ** Reading back a line *)

Definition name_ok (s : str) : Prop := forallb name_char s = true.
Definition plain_label (v : str) : Prop := Forall (fun c => c <> 34 /\ c <> 92 /\ c <> 10) v.
Definition label_ok (l : option Label) : Prop :=
  match l with Some (k, v) => k <> [] /\ name_ok k /\ plain_label v | None => True end.
Record family_ok (f : Family) : Prop := {
  fo_name : name_ok (fam_name f);
  fo_help : 10 ∉ fam_help f;
  fo_samples : Forall (fun s => label_ok s.1 /\ word s.2) (fam_samples f)
}.

Lemma name_char_not c : name_char c = true -> c <> 32 /\ c <> 61 /\ c <> 123 /\ c <> 10.
Proof.
  intros Hc. repeat split; intros ->; discriminate Hc.
Qed.
Lemma name_ok_not s : name_ok s -> 32 ∉ s /\ 61 ∉ s /\ 123 ∉ s /\ 10 ∉ s.
Proof.
  unfold name_ok. rewrite forallb_forall. intros Hs.
  repeat split; intros Hin%list_elem_of_In%Hs%name_char_not; tauto.
Qed.
Lemma prefixed_ok s : name_ok s -> name_ok (prefixed s).
Proof. intros Hs. unfold name_ok, prefixed. rewrite forallb_app. by rewrite Hs. Qed.
Lemma read_name_ok s : s <> [] -> name_ok s -> read_name s = Some s.
Proof. unfold read_name, name_ok. intros Hn ->. by rewrite bool_decide_eq_false_2. Qed.
Lemma read_prefixed s : name_ok s -> read_name (prefixed s) = Some (prefixed s).
Proof. intros Hs. apply read_name_ok; [done|by apply prefixed_ok]. Qed.
Lemma read_word s : word s -> read_value s = Some s.
Proof. intros (Hn & Hs & _ & _). unfold read_value. by rewrite !bool_decide_eq_false_2. Qed.
Lemma cut_app sep a b : sep ∉ a -> cut sep (a ++ sep :: b) = Some (a, b).
Proof.
  induction a as [|c a IH]; simpl; intros Ha; [by rewrite Z.eqb_refl|].
  destruct (Z.eqb_spec c sep) as [->|_]; [set_solver|]. rewrite IH; [done|set_solver].
Qed.
Lemma cut_none sep a : sep ∉ a -> cut sep a = None.
Proof.
  induction a as [|c a IH]; simpl; intros Ha; [done|].
  destruct (Z.eqb_spec c sep) as [->|_]; [set_solver|]. rewrite IH; [done|set_solver].
Qed.
Lemma quoted_plain v r : plain_label v -> quoted_value (v ++ 34 :: r) = Some (v, r).
Proof.
  induction 1 as [|c v (H1 & H2 & H3) Hv IH]; [done|].
  cbn [app quoted_value]. destruct (Z.eqb_spec c 34); [done|]. destruct (Z.eqb_spec c 92); [done|]. by rewrite IH.
Qed.
Lemma read_sample_ok p l v : read_name p = Some p -> 32 ∉ p -> 123 ∉ p -> label_ok l -> word v ->
  read_sample (p ++ label_text l ++ [32] ++ v) = Some (SampleLine p l v).
Proof.
  intros Hn N1 N3 Hl Hv. unfold read_sample. destruct l as [[k x]|]; simpl.
  - destruct Hl as (Hk & Hko & Hx). destruct (name_ok_not _ Hko) as (_ & K2 & _).
    rewrite cut_app by done. simpl. rewrite Hn. simpl. rewrite <- app_assoc. simpl.
    rewrite cut_app by done. simpl. rewrite (read_name_ok k) by done. simpl. rewrite <- app_assoc. simpl.
    rewrite quoted_plain by done. simpl. by rewrite read_word.
  - pose proof Hv as (V1 & V2 & V3 & V4). rewrite cut_none by set_solver. rewrite cut_app by done. simpl.
    rewrite Hn. simpl. by rewrite read_word.
Qed.
Lemma no_comment name r : strip_prefix (lit "# HELP ") (prefixed name ++ r) = None /\ strip_prefix (lit "# TYPE ") (prefixed name ++ r) = None.
Proof. done. Qed.
Lemma read_line_sample name s : name_ok name -> label_ok s.1 -> word s.2 ->
  read_line (sample_text name s) = Some (SampleLine (prefixed name) s.1 s.2).
Proof.
  intros Hn Hl Hv. unfold read_line. unfold sample_text at 1 2. destruct (no_comment name (label_text s.1 ++ [32] ++ s.2)) as [-> ->].
  destruct (name_ok_not _ (prefixed_ok _ Hn)) as (N1 & _ & N3 & _). destruct s as [l v].
  apply read_sample_ok; [by apply read_prefixed|done..].
Qed.
Lemma strip_prefix_app p s : strip_prefix p (p ++ s) = Some s.
Proof.
  unfold strip_prefix. assert (Hp : starts_with (p ++ s) p = true) by (induction p; simpl; [by destruct s|by rewrite Z.eqb_refl]).
  by rewrite Hp, drop_app_length.
Qed.
Lemma read_line_help f : name_ok (fam_name f) -> read_line (help_text f) = Some (HelpLine (prefixed (fam_name f)) (fam_help f)).
Proof.
  intros Hn. destruct (name_ok_not _ (prefixed_ok _ Hn)) as (N1 & _). unfold read_line, help_text. rewrite strip_prefix_app.
  cbn [app]. rewrite cut_app by done. simpl. by rewrite read_prefixed.
Qed.
Lemma read_line_type f : name_ok (fam_name f) -> read_line (type_text f) = Some (TypeLine (prefixed (fam_name f)) (kind_text (fam_kind f))).
Proof.
  intros Hn. destruct (name_ok_not _ (prefixed_ok _ Hn)) as (N1 & _). unfold read_line, type_text.
  change (strip_prefix (lit "# HELP ") (lit "# TYPE " ++ prefixed (fam_name f) ++ [32] ++ kind_text (fam_kind f))) with (@None str).
  rewrite strip_prefix_app. cbn [app]. rewrite cut_app by done. simpl. by rewrite read_prefixed.
Qed.
Lemma read_kind_text k : read_kind (kind_text k) = Some k.
Proof. by destruct k. Qed.

(** ** Reading back the page *)

Definition exported (f : Family) : Family :=
  {| fam_name := prefixed (fam_name f); fam_help := fam_help f; fam_kind := fam_kind f; fam_samples := fam_samples f |}.
Definition between (fs : list Family) : Reading := {| rd_samples := []; rd_type := None; rd_families := fs |}.

Lemma read_samples name ss rest fs : name_ok name -> Forall (fun s => label_ok s.1 /\ word s.2) ss ->
  read_lines rest = Some (between fs) ->
  read_lines (map (sample_text name) ss ++ rest) =
    Some {| rd_samples := map (pair (prefixed name)) ss; rd_type := None; rd_families := fs |}.
Proof.
  intros Hn Hs Hr. induction Hs as [|s ss [Hl Hv] Hs IH]; [done|]. cbn [map app read_lines]. rewrite IH.
  cbn [mbind option_bind]. rewrite read_line_sample by done. destruct s; done.
Qed.
Lemma read_family f rest fs : family_ok f -> read_lines rest = Some (between fs) ->
  read_lines (family_lines f ++ rest) = Some (between (exported f :: fs)).
Proof.
  intros [Hn Hh Hs] Hr. unfold family_lines. cbn [app read_lines]. rewrite (read_samples _ _ _ fs) by done.
  cbn [mbind option_bind]. rewrite read_line_type by done. cbn [mbind option_bind read_step rd_type rd_samples].
  assert (Ha : forallb (fun x => str_eqb x.1 (prefixed (fam_name f))) (map (pair (prefixed (fam_name f))) (fam_samples f)) = true).
  { apply forallb_forall. intros x (s & <- & _)%in_map_iff. apply bool_decide_eq_true_2. done. }
  rewrite Ha, read_kind_text. cbn [fmap option_fmap option_map mbind option_bind]. rewrite read_line_help by done.
  cbn [mbind option_bind read_step rd_type rd_samples rd_families]. unfold str_eqb. rewrite bool_decide_eq_true_2 by done.
  unfold between, exported. do 3 f_equal. rewrite map_map. simpl. by rewrite map_id.
Qed.
Lemma split_line l rest : forall cur, 10 ∉ l -> split_on 10 cur (l ++ 10 :: rest) = (cur ++ l) :: split_on 10 [] rest.
Proof.
  induction l as [|c l IH]; intros cur Hl; simpl; [by rewrite app_nil_r|].
  destruct (Z.eqb_spec c 10) as [->|_]; [set_solver|]. rewrite IH by set_solver. by rewrite <- app_assoc.
Qed.
Lemma split_lines ls : Forall (fun l => 10 ∉ l) ls -> split_on 10 [] (concat (map (fun l => l ++ [10]) ls)) = ls ++ [[]].
Proof.
  induction 1 as [|l ls Hl Hs IH]; [done|]. simpl. rewrite <- app_assoc. cbn [app]. rewrite split_line by done. by rewrite IH.
Qed.
Lemma prefixed_no_break s : name_ok s -> 10 ∉ prefixed s.
Proof. intros Hs. by destruct (name_ok_not _ (prefixed_ok _ Hs)) as (_ & _ & _ & ?). Qed.
Lemma label_no_break l : label_ok l -> 10 ∉ label_text l.
Proof.
  destruct l as [[k v]|]; [|set_solver]. intros (_ & Hk & Hv). destruct (name_ok_not _ Hk) as (_ & _ & _ & K4).
  assert (V : 10 ∉ v) by (intros Hin; unfold plain_label in Hv; rewrite Forall_forall in Hv; by destruct (Hv _ Hin) as (_ & _ & ?)).
  unfold label_text. set_solver.
Qed.
Lemma family_no_break f : family_ok f -> Forall (fun l => 10 ∉ l) (family_lines f).
Proof.
  intros [Hn Hh Hs]. pose proof (prefixed_no_break _ Hn) as Hp.
  assert (Hk : 10 ∉ kind_text (fam_kind f)) by (destruct (fam_kind f); vm_compute; set_solver).
  assert (H1 : 10 ∉ lit "# HELP ") by (vm_compute; set_solver). assert (H2 : 10 ∉ lit "# TYPE ") by (vm_compute; set_solver).
  repeat constructor; [unfold help_text; set_solver|unfold type_text; set_solver|].
  apply Forall_map. eapply Forall_impl; [apply Hs|]. intros [l v] [Hl (_ & _ & V & _)]. pose proof (label_no_break _ Hl).
  unfold sample_text. simpl in *. set_solver.
Qed.
Lemma render_app a b : render (a ++ b) = render a ++ render b.
Proof. unfold render. by rewrite map_app, concat_app, map_app, concat_app. Qed.
Lemma read_render fs : Forall family_ok fs -> read_page (render fs) = Some (map exported fs).
Proof.
  intros Hf. assert (Hl : read_lines (concat (map family_lines fs)) = Some (between (map exported fs))).
  { induction Hf as [|f fs Hf Hs IH]; [done|]. simpl. by apply read_family. }
  unfold read_page, render. rewrite split_lines.
  - rewrite last_snoc, removelast_last, Hl. done.
  - clear Hl. induction Hf as [|f fs Hf Hs IH]; [constructor|]. cbn [map concat]. apply Forall_app. split; [by apply family_no_break|done].
Qed.

(** ** The families of the page are readable *)

Definition line_check (name help : string) : bool :=
  forallb name_char (lit name) && forallb (fun c => negb (c =? 10)) (lit help).
Lemma line_check_ok name help : line_check name help = true -> name_ok (lit name) /\ 10 ∉ lit help.
Proof.
  intros [H1 H2]%andb_true_iff. split; [done|]. rewrite forallb_forall in H2. intros Hin%list_elem_of_In%H2. done.
Qed.
Lemma show_Z_word n : word (show_Z n).
Proof.
  assert (Hd : forall fuel n acc, Forall (fun c => 48 <= c <= 57) acc -> Forall (fun c => 48 <= c <= 57) (digits_aux fuel n acc)).
  { intros fuel. induction fuel as [|fuel IH]; intros m acc Ha; [done|]. simpl. pose proof (Z.mod_pos_bound m 10).
    assert (Forall (fun c => 48 <= c <= 57) ((48 + m mod 10) :: acc)) by (constructor; [lia|done]). case_match; [done|by apply IH]. }
  assert (Hl : forall fuel n acc, (length acc < length (digits_aux (S fuel) n acc))%nat).
  { intros fuel. induction fuel as [|fuel IH]; intros m acc; cbn [digits_aux]; case_match; simpl; try lia.
    etransitivity; [|apply IH]. simpl. lia. }
  specialize (Hd 20%nat n [] (Forall_nil_2 _)). fold (show_Z n) in Hd. rewrite Forall_forall in Hd. split.
  - intros He. specialize (Hl 19%nat n []). change (digits_aux 20 n []) with (show_Z n) in Hl. rewrite He in Hl. simpl in Hl. lia.
  - repeat split; intros Hin%Hd; lia.
Qed.
Lemma single_ok name help k v : line_check name help = true -> word v ->
  family_ok {| fam_name := lit name; fam_help := lit help; fam_kind := k; fam_samples := [(None, v)] |}.
Proof. intros [Hn Hh]%line_check_ok Hv. constructor; [done|done|]. simpl. apply Forall_singleton. done. Qed.
Lemma labelled_ok name help k label l : line_check name help = true -> forallb name_char (lit label) = true -> lit label <> [] ->
  Forall (fun x => plain_label x.1 /\ word x.2) l -> family_ok (labelled name help k label l).
Proof.
  intros [Hn Hh]%line_check_ok Hk Hne Hl. constructor; [done|done|]. simpl. apply Forall_map.
  eapply Forall_impl; [apply Hl|]. intros [a b] [Ha Hb]. by simpl in *.
Qed.
Definition plain_b (s : str) : bool := forallb (fun c => negb ((c =? 34) || (c =? 92) || (c =? 10))) s.
Lemma plain_b_ok s : plain_b s = true -> plain_label s.
Proof.
  unfold plain_b. rewrite forallb_forall. intros Hs. apply Forall_forall. intros c Hc%list_elem_of_In%Hs.
  apply negb_true_iff in Hc. rewrite !orb_false_iff in Hc. reflect_Z. lia.
Qed.
Lemma named_ok l : forallb (fun x => plain_b (lit x.1)) l = true -> Forall (fun x => plain_label x.1 /\ word x.2) (named l).
Proof.
  rewrite forallb_forall. intros Hl. apply Forall_map, Forall_forall. intros x Hx%list_elem_of_In%Hl.
  split; [by apply plain_b_ok|apply show_Z_word].
Qed.
Lemma shown_ok {A} (id : A -> str) (text : A -> str) l : Forall plain_label (map id l) -> (forall a, word (text a)) ->
  Forall (fun x => plain_label x.1 /\ word x.2) (map (fun a => (id a, text a)) l).
Proof. intros Hl Ht. apply Forall_map. eapply Forall_impl; [apply (proj1 (Forall_map id plain_label l) Hl)|]. intros a Ha. split; [exact Ha|apply Ht]. Qed.

Section Readable.
Context `{G : GaugeText} {L : GaugeTextLaws G}.

Ltac fam :=
  repeat apply Forall_cons_2; try apply Forall_nil_2;
  first [ apply single_ok; [reflexivity|first [apply show_Z_word|apply gauge_word|apply fixed_word]]
        | apply labelled_ok; [reflexivity|reflexivity|discriminate|first [by apply named_ok|idtac]] ].

Lemma snapshot_ok s : Forall family_ok (snapshot_families s).
Proof. apply Forall_app. split; fam. Qed.
Lemma cache_ok a b c : Forall family_ok (cache_families a b c).
Proof. fam. Qed.
Lemma pool_ok p : Forall family_ok (pool_families p).
Proof. fam. Qed.
Lemma contexts_ok l : Forall plain_label (map ce_ctx_id l) -> Forall family_ok (context_families l).
Proof.
  intros Hl. destruct l as [|c l]; [constructor|]. unfold context_families.
  fam; apply (shown_ok ce_ctx_id); try done; intros; first [apply show_Z_word|apply gauge_word].
Qed.
Lemma agents_ok l : Forall plain_label (map am_id l) -> Forall family_ok (agent_families l).
Proof.
  intros Hl. destruct l as [|c l]; [constructor|]. unfold agent_families.
  fam; apply (shown_ok am_id); try done; intros; apply show_Z_word.
Qed.
Lemma adaptive_ok s : Forall family_ok (adaptive_families s).
Proof.
  unfold adaptive_families. apply Forall_app. split; [fam|]. case_match; [|constructor].
  fam. repeat (constructor; [split; [by apply plain_b_ok|apply gauge_word]|]). constructor.
Qed.
Lemma breaker_ok a b c d : Forall family_ok (breaker_families a b c d).
Proof. fam. Qed.
Definition row_id (r : UpstreamRow) : str := let '(id, _, _, _, _) := r in id.
Lemma upstreams_ok l : Forall plain_label (map row_id l) -> Forall family_ok (upstream_families l).
Proof.
  intros Hl. destruct l as [|u l]; [constructor|]. unfold upstream_families. apply (proj1 (Forall_map row_id plain_label _)) in Hl.
  fam; apply Forall_map; (eapply Forall_impl; [apply Hl|]); intros [[[[id r] f] x] st] Hid; split; try exact Hid;
    first [apply show_Z_word|apply gauge_word].
Qed.
Lemma throughput_ok a b : Forall family_ok (throughput_families a b).
Proof. fam. Qed.
Lemma percentiles_ok p : Forall family_ok (percentile_families p).
Proof.
  unfold percentile_families. case_match; [constructor|].
  fam. repeat (constructor; [split; [by apply plain_b_ok|apply gauge_word]|]). constructor.
Qed.
Lemma queue_ok s : Forall family_ok (queue_families s).
Proof. fam. Qed.
Lemma clients_ok a b c : Forall family_ok (client_families a b c).
Proof. fam. Qed.
End Readable.

(** ** Looking up a sample *)

Lemma find_unique {A B} `{EqDecision B} (key : A -> B) (p : A -> bool) (l : list A) (x : A) :
  (forall a, p a = true <-> key a = key x) -> NoDup (map key l) -> x ∈ l -> List.find p l = Some x.
Proof.
  intros Hp Hn Hin. induction l as [|a l IH]; [by apply elem_of_nil in Hin|]. simpl in *. apply NoDup_cons in Hn as [Hn1 Hn2].
  destruct (p a) eqn:Hpa.
  - apply Hp in Hpa. apply elem_of_cons in Hin as [->|Hin]; [done|]. exfalso. apply Hn1. rewrite Hpa.
    by apply list_elem_of_In, in_map, list_elem_of_In.
  - apply elem_of_cons in Hin as [->|Hin]; [|by apply IH]. rewrite (proj2 (Hp a)) in Hpa by done. done.
Qed.
#[local] Instance prefixed_inj : Inj (=) (=) prefixed.
Proof. intros a b He. unfold prefixed in He. by apply app_inv_head in He. Qed.
Definition labelled_by (k v : str) : option Label := Some (k, v).
#[local] Instance labelled_by_inj k : Inj (=) (=) (labelled_by k).
Proof. by intros a b [= ->]. Qed.
Lemma exported_NoDup fs : NoDup (map fam_name fs) -> NoDup (map fam_name (map exported fs)).
Proof. intros Hn. rewrite map_map. change (NoDup (map (fun f => prefixed (fam_name f)) fs)). rewrite <- (map_map fam_name prefixed). by apply (NoDup_fmap_2 prefixed). Qed.
Lemma scraped_sample page fs name f l v :
  read_page page = Some (map exported fs) -> NoDup (map fam_name fs) -> f ∈ fs -> fam_name f = lit name ->
  NoDup (map fst (fam_samples f)) -> (l, v) ∈ fam_samples f -> scraped page name l = Some v.
Proof.
  intros Hr Hn Hf Hname Hl Hs. unfold scraped. rewrite Hr. cbn [mbind option_bind].
  rewrite (find_unique fam_name _ (map exported fs) (exported f)).
  - cbn [mbind option_bind]. unfold exported. simpl. rewrite (find_unique fst _ (fam_samples f) (l, v)); [done| |done|done].
    intros a. simpl. by rewrite bool_decide_eq_true.
  - intros a. simpl. rewrite Hname. unfold str_eqb. by rewrite bool_decide_eq_true.
  - by apply exported_NoDup.
  - by apply list_elem_of_In, in_map, list_elem_of_In.
Qed.
Lemma labelled_scraped {A} page fs name help k label (id text : A -> str) (l : list A) (x : A) :
  read_page page = Some (map exported fs) -> NoDup (map fam_name fs) ->
  labelled name help k label (map (fun a => (id a, text a)) l) ∈ fs -> NoDup (map id l) -> x ∈ l ->
  scraped page name (Some (lit label, id x)) = Some (text x).
Proof.
  intros Hr Hn Hf Hid Hx. eapply scraped_sample; [done|done|apply Hf|done| |]; unfold labelled; simpl; rewrite map_map; simpl.
  - rewrite map_map. simpl. rewrite <- (map_map id (labelled_by (lit label))).
    by apply (NoDup_fmap_2 (labelled_by (lit label))).
  - apply list_elem_of_In, in_map_iff. exists x. split; [done|by apply list_elem_of_In].
Qed.

(** ** The page *)

Section PageExact.
Context `{G : GaugeText} {L : GaugeTextLaws G} `{E : CacheEnv} `{C : ContextEnv} {CL : ContextEnvLaws C}.
Context (agent_order : gmap str AgentEntry -> list (str * AgentEntry)).

Definition upstream_rows (s : Server) : list UpstreamRow :=
  match sv_pool s with Some pool => map upstream_row (upstreams pool) | None => [] end.
Definition agent_rows (s : Server) : list AgentMetricsEntry :=
  match sv_agents s with Some r => map agent_entry (list_agents agent_order r) | None => [] end.
Definition context_rows (s : Server) : list ContextMetricsEntry :=
  map context_entry (all_context_stats (context_manager (sv_app s))).
Definition page_families (clk : Clock) (s : Server) (cs : CacheStats) : list Family :=
  let a := sv_app s in
  let '(st, b) := state (mono clk) (circuit_breaker a) in
  snapshot_families (metrics_snapshot (st_metrics a)) ++ cache_families (cs_total cs) (cs_memory_bytes cs) (cs_max_entries cs) ++
  match sv_pool s with Some pool => pool_families (pool_params (pool_stats pool)) | None => [] end ++
  upstream_families (upstream_rows s) ++ adaptive_families (at_stats (adaptive_timeout a)) ++
  breaker_families (circuit_value st) (failure_count b) (times_opened b) (times_tripped b) ++
  throughput_families (uptime_secs clk s) (pm_count (st_metrics a) requests_total) ++
  percentile_families (latency_percentiles (st_metrics a)) ++ context_families (context_rows s) ++
  agent_families (agent_rows s) ++ queue_families (q_stats (sv_queue s)) ++
  client_families (Z.of_nat (size (cl_active (client_tracker a)))) (total_completed (client_tracker a)) (total_rejected (client_tracker a)).

Lemma page_rendered clk s r :
  handle_metrics_prometheus agent_order clk s = Ret r ->
  exists cs, stats clk (st_cache (sv_app s)) = Ret cs /\ r.1.1.1 = 200 /\ r.1.2 = render (page_families clk s cs).
Proof.
  unfold handle_metrics_prometheus, page_families, upstream_rows, agent_rows, context_rows.
  destruct (stats clk (st_cache (sv_app s))) as [cs|]; cbn [obind]; [|done].
  destruct (state (mono clk) (circuit_breaker (sv_app s))) as [st b]. intros [= <-]. exists cs. cbn [fst snd]. split_and!; [done|done|].
  unfold append_client_tracker_prometheus, append_queue_prometheus, append_agent_metrics_prometheus, append_context_stats_prometheus,
    append_latency_percentiles_prometheus, append_throughput_prometheus, append_circuit_breaker_prometheus,
    append_adaptive_timeout_prometheus, append_per_upstream_prometheus, to_prometheus_with_pool, to_prometheus_with_cache, to_prometheus.
  destruct (sv_pool s), (sv_agents s); rewrite !render_app, <- !app_assoc; reflexivity.
Qed.

(** The names that can be labels. *)
Definition page_labels (s : Server) : list str :=
  map row_id (upstream_rows s) ++ map ce_ctx_id (context_rows s) ++ map am_id (agent_rows s).
Lemma page_ok clk s cs : Forall plain_label (page_labels s) -> Forall family_ok (page_families clk s cs).
Proof.
  unfold page_labels, page_families. rewrite !Forall_app. intros (HU & HC & HA).
  destruct (state (mono clk) (circuit_breaker (sv_app s))) as [st b]. rewrite !Forall_app.
  split_and!; auto using snapshot_ok, cache_ok, pool_ok, upstreams_ok, adaptive_ok, breaker_ok, throughput_ok, percentiles_ok,
    contexts_ok, agents_ok, queue_ok, clients_ok.
  case_match; [apply pool_ok|constructor].
Qed.

Definition all_names : list str :=
  map lit ["requests_total"; "cache_hits_total"; "cache_misses_total"; "cache_miss_reasons_total"; "cache_stale_total";
    "cache_frozen_total"; "coalesced_requests_total"; "upstream_requests_total"; "upstream_failures_total";
    "validation_errors_total"; "integrity_failures_total"; "schema_changes_total"; "refresh_operations_total";
    "evictions_total"; "drift_alerts_total"; "drift_observations_total"; "cascade_success_total";
    "cascade_exhausted_total"; "cascade_timeout_total"; "cascade_avg_depth"; "warmup_requests_total";
    "warmup_entries_total"; "cache_hit_rate"; "upstream_error_rate"; "latency_avg_seconds"; "latency_max_seconds";
    "latency_min_seconds"; "cache_entries"; "cache_memory_bytes"; "cache_max_entries"; "cache_utilization";
    "pool_upstreams_total"; "pool_upstreams_healthy"; "pool_upstreams_by_type"; "pool_active_connections";
    "pool_utilization"; "upstream_requests_by_upstream"; "upstream_failures_by_upstream";
    "upstream_failure_rate_by_upstream"; "upstream_status"; "adaptive_timeout_seconds"; "adaptive_timeout_samples";
    "upstream_latency_seconds"; "circuit_state"; "circuit_failure_count"; "circuit_times_opened_total";
    "circuit_times_tripped_total"; "requests_per_second"; "request_latency_seconds"; "context_cache_hits_total";
    "context_cache_misses_total"; "context_hit_rate"; "agent_requests_total"; "agent_cache_hits_total";
    "agent_cache_misses_total"; "agent_rate_limited_total"; "agent_context_denied_total"; "queue_depth";
    "queue_max_size"; "queue_by_priority"; "clients_active"; "clients_completed_total"; "clients_rejected_total"]%string.
Lemma all_names_NoDup : NoDup all_names.
Proof. apply (bool_decide_eq_true_1 _). vm_compute. reflexivity. Qed.
Ltac part n := match goal with |- _ ++ _ `sublist_of` ?l => rewrite <- (take_drop n l) end; apply sublist_app; cbn [take drop].
Lemma page_names clk s cs : map fam_name (page_families clk s cs) `sublist_of` all_names.
Proof.
  unfold page_families. destruct (state (mono clk) (circuit_breaker (sv_app s))) as [st b]. rewrite !map_app.
  unfold all_names. cbn [map].
  part 27%nat; [reflexivity|]. part 4%nat; [reflexivity|]. part 5%nat; [case_match; [reflexivity|apply sublist_nil_l]|].
  part 4%nat; [destruct (upstream_rows s); [apply sublist_nil_l|reflexivity]|].
  part 3%nat; [unfold adaptive_families; case_match; [reflexivity|]; cbn; repeat constructor|].
  part 4%nat; [reflexivity|]. part 1%nat; [reflexivity|].
  part 1%nat; [unfold percentile_families; case_match; [apply sublist_nil_l|reflexivity]|].
  part 3%nat; [destruct (context_rows s); [apply sublist_nil_l|reflexivity]|].
  part 5%nat; [destruct (agent_rows s); [apply sublist_nil_l|reflexivity]|].
  part 3%nat; reflexivity.
Qed.
Lemma page_names_NoDup clk s cs : NoDup (map fam_name (page_families clk s cs)).
Proof. eapply sublist_NoDup; [apply all_names_NoDup|apply page_names]. Qed.

(** The counters without labels. *)
Definition plain_counters (m : ProxyMetrics) : list (string * Z) :=
  [("requests_total", pm_count m requests_total); ("cache_hits_total", pm_count m cache_hits);
   ("cache_misses_total", pm_count m cache_misses); ("cache_stale_total", pm_count m cache_stale);
   ("cache_frozen_total", pm_count m cache_frozen); ("coalesced_requests_total", pm_count m coalesced_requests);
   ("upstream_requests_total", pm_count m upstream_requests); ("upstream_failures_total", pm_count m upstream_failures);
   ("validation_errors_total", pm_count m validation_errors); ("integrity_failures_total", pm_count m integrity_failures);
   ("schema_changes_total", pm_count m schema_changes); ("refresh_operations_total", pm_count m refresh_operations);
   ("evictions_total", pm_count m evictions); ("drift_alerts_total", pm_count m drift_alerts);
   ("warmup_requests_total", pm_count m warmup_requests); ("warmup_entries_total", pm_count m warmup_entries);
   ("cascade_success_total", cascade_success (pm_cascade m)); ("cascade_exhausted_total", cascade_exhausted (pm_cascade m));
   ("cascade_timeout_total", cascade_timeouts (pm_cascade m))]%string.
Ltac found i := apply Forall_cons; split; [exists i; eexists; reflexivity|].
Lemma plain_counter_at m :
  Forall (fun x => exists i help, snapshot_families (metrics_snapshot m) !! i = Some (counter x.1 help x.2)) (plain_counters m).
Proof.
  found 0%nat. found 1%nat. found 2%nat. found 4%nat. found 5%nat. found 6%nat. found 7%nat. found 8%nat. found 9%nat.
  found 10%nat. found 11%nat. found 12%nat. found 13%nat. found 14%nat. found 20%nat. found 21%nat. found 16%nat. found 17%nat.
  found 18%nat. apply Forall_nil_2.
Qed.
Lemma plain_counter_in m name v : (name, v) ∈ plain_counters m ->
  exists help, counter name help v ∈ snapshot_families (metrics_snapshot m).
Proof.
  intros Hin. pose proof (plain_counter_at m) as Ha. rewrite Forall_forall in Ha. destruct (Ha _ Hin) as (i & help & Hi).
  exists help. by eapply list_elem_of_lookup_2.
Qed.
Lemma upstream_rows_families (us : list PooledUpstream) : us <> [] ->
  upstream_families (map upstream_row us) =
  [labelled "upstream_requests_by_upstream" "Total requests per upstream" KCounter "upstream"
     (map (fun u => (pu_id u, show_Z (requests u))) us);
   labelled "upstream_failures_by_upstream" "Total failures per upstream" KCounter "upstream"
     (map (fun u => (pu_id u, show_Z (failures u))) us);
   labelled "upstream_failure_rate_by_upstream" "Failure rate per upstream (0.0 to 1.0)" KGauge "upstream"
     (map (fun u => (pu_id u, gauge_text (failure_rate u))) us);
   labelled "upstream_status" "Per-upstream health status (0=offline, 1=degraded, 2=online)" KGauge "upstream"
     (map (fun u => (pu_id u, show_Z (status_value (status_text (status (pu_health u)))))) us)].
Proof. intros Hu. destruct us as [|u us]; [done|]. unfold upstream_families. cbn [map]. rewrite !map_map. reflexivity. Qed.
Lemma context_rows_nodup s : NoDup (map ce_ctx_id (context_rows s)).
Proof.
  unfold context_rows, all_context_stats. rewrite !map_map. simpl. rewrite ctx_iter_perm. apply NoDup_fst_map_to_list.
Qed.

End PageExact.

(** ** Examples *)

#[local] Existing Instance DemoEnv.
#[local] Instance WholeText : GaugeText :=
  let whole (x : f64) := if is_nan x then lit "NaN" else show_Z (f_to_u 64 x) in {| gauge_text := whole; gauge_fixed2 := whole |}.
#[local] Instance WholeText_laws : GaugeTextLaws WholeText.
Proof.
  assert (Hn : word (lit "NaN")) by (repeat split; vm_compute; set_solver).
  split; intros x; simpl; (destruct (is_nan x); [done|apply show_Z_word]).
Qed.

Definition scrape_clock : Clock := {| mono := 5; wall := 0 |}.
Definition put_app (a : AppState Backends) (s : Server) : Server :=
  {| sv_app := a; sv_single := sv_single s; sv_audit := sv_audit s; sv_queue := sv_queue s; sv_batch := sv_batch s;
     sv_federated := sv_federated s; sv_start_time := sv_start_time s; sv_level := sv_level s; sv_agents := sv_agents s;
     sv_peer := sv_peer s; sv_permits := sv_permits s |}.


(** A context named with a quote is created, and the page can no longer be read. *)
Lemma quoted_context_breaks_page :
  let s := pool_server [flaky_upstream] in
  let created := handle_context_create scrape_clock [97; 34; 98] (lit "http://x") (lit "c") (sv_app s) in
  created.1.1 = 201 /\
  match handle_metrics_prometheus map_to_list scrape_clock (put_app created.2 s) with
  | Ret r => r.1.1.1 = 200 /\ read_page r.1.2 = None
  | _ => False
  end.
Proof. vm_compute. repeat split. Qed.
