(* ===== verification/Sandbox.v ===== *)
(** * Listeners and the sandbox (src/src/proxy/sandbox.rs, src/src/proxy/socket_tuning.rs,
    the part of [run] in src/src/proxy/server/mod.rs that opens the ports)

    The proxy opens its HTTP port, drops its capabilities, and opens its gRPC port.  The
    kernel is a parameter: its calls with the rules that capabilities(7), capset(2),
    prctl(2) and ip(7) document.  Capabilities and the no-new-privileges flag belong to a
    thread.  Operations on the host are a state-and-error monad. *)

From S2P Require Import Prelude Floats Text Types Distill Config Mcp.
Open Scope Z_scope.
Open Scope conproxy_scope.

(** ** The host *)

Inductive CapSet := Effective | Permitted | Inheritable.
#[export] Instance CapSet_eq_dec : EqDecision CapSet.
Proof. solve_decision. Defined.
Definition CAP_SETGID : Z := 6.
Definition CAP_SETUID : Z := 7.
Definition CAP_NET_BIND_SERVICE : Z := 10.

(** The calls that configure a listening socket. *)
Inductive SockOp :=
| ReuseAddress | NonBlocking | ReusePort | NoDelay
| KeepAlive (idle interval : Z)
| SendBuffer (size : Z) | RecvBuffer (size : Z)
| DeferAccept (secs : Z) | UserTimeout (ms : Z)
| Bind (port : Z) | Listen (backlog : Z).

Class Kernel := {
  Errno : Type;
  Host : Type;
  cap_read : CapSet -> Host -> result (gset Z) Errno;
  cap_clear : CapSet -> Host -> result unit Errno * Host;
  cap_set : CapSet -> gset Z -> Host -> result unit Errno * Host;
  setuid : Z -> Host -> result unit Errno * Host;
  setgid : Z -> Host -> result unit Errno * Host;
  prctl_nnp : Host -> result unit Errno * Host;
  prctl_get_nnp : Host -> Z;
  getuid : Host -> Z;
  getgid : Host -> Z;
  geteuid : Host -> Z;
  getpwnam : str -> Host -> option Z;
  getgrnam : str -> Host -> option Z;
  sock : SockOp -> Host -> result unit Errno * Host
}.

(** A step on the host that can fail with [E]; steps end at the first failure. *)
Definition act `{Kernel} (E : Type) : Type := Host -> result unit E * Host.
Definition done_ `{Kernel} {E} : act E := fun h => (Ok tt, h).
Definition fail `{Kernel} {E} (e : E) : act E := fun h => (Err e, h).
Definition and_next `{Kernel} {E} (m k : act E) : act E :=
  fun h => match m h with (Ok _, h) => k h | (Err e, h) => (Err e, h) end.
Definition errs_as `{Kernel} {E F} (f : E -> F) (m : act E) : act F :=
  fun h => match m h with (Ok _, h) => (Ok tt, h) | (Err e, h) => (Err (f e), h) end.
Infix "?;" := and_next (at level 85, right associativity) : conproxy_scope.
Fixpoint in_order `{Kernel} {E} (ms : list (act E)) : act E :=
  match ms with [] => done_ | m :: ms => m ?; in_order ms end.

(** ** The sandbox *)

Record SandboxConfig := {
  sb_user : option str; sb_group : option str; sb_drop_capabilities : bool; sb_allow_net_bind : bool
}.
Definition SandboxConfig_default : SandboxConfig :=
  {| sb_user := Some (lit "nobody"); sb_group := Some (lit "nogroup"); sb_drop_capabilities := true; sb_allow_net_bind := false |}.

(** [str::parse::<u32>] *)
Definition parse_u32 (s : str) : option Z :=
  match parse_usize s with Some n => if n <=? u32_max then Some n else None | None => None end.

Section Sandboxed.
Context `{K : Kernel}.

Inductive SandboxError :=
| PrivilegeDrop (call : string) (e : Errno)
| CapabilityDrop (step : string) (e : Errno)
| NoNewPrivs (e : Errno)
| UserNotFound (name : str).

(** A name with a zero character is no C string. *)
Definition drop_to_user (user : str) : act SandboxError :=
  match parse_u32 user with
  | Some uid => errs_as (PrivilegeDrop "setuid") (setuid uid)
  | None =>
      if bool_decide (0 ∈ user) then fail (UserNotFound user)
      else fun h => match getpwnam user h with
                    | None => fail (UserNotFound user) h
                    | Some uid => errs_as (PrivilegeDrop "setuid") (setuid uid) h
                    end
  end.
Definition drop_to_group (group : str) : act SandboxError :=
  match parse_u32 group with
  | Some gid => errs_as (PrivilegeDrop "setgid") (setgid gid)
  | None =>
      if bool_decide (0 ∈ group) then fail (UserNotFound group)
      else fun h => match getgrnam group h with
                    | None => fail (UserNotFound group) h
                    | Some gid => errs_as (PrivilegeDrop "setgid") (setgid gid) h
                    end
  end.
Definition drop_capabilities (allow_net_bind : bool) : act SandboxError :=
  errs_as (CapabilityDrop "clear effective") (cap_clear Effective) ?;
  errs_as (CapabilityDrop "clear permitted") (cap_clear Permitted) ?;
  errs_as (CapabilityDrop "clear inheritable") (cap_clear Inheritable) ?;
  (if allow_net_bind
   then errs_as (CapabilityDrop "set net_bind effective") (cap_set Effective {[CAP_NET_BIND_SERVICE]}) ?;
        errs_as (CapabilityDrop "set net_bind permitted") (cap_set Permitted {[CAP_NET_BIND_SERVICE]})
   else done_).
Definition set_no_new_privs : act SandboxError := errs_as NoNewPrivs prctl_nnp.
Definition apply_sandbox (c : SandboxConfig) : act SandboxError :=
  match sb_group c with Some g => drop_to_group g | None => done_ end ?;
  match sb_user c with Some u => drop_to_user u | None => done_ end ?;
  (if sb_drop_capabilities c then drop_capabilities (sb_allow_net_bind c) else done_) ?;
  set_no_new_privs.

Definition needs_sandbox (h : Host) : bool :=
  match cap_read Effective h with
  | Err _ => false
  | Ok effective =>
      if bool_decide (effective = ∅) then false
      else if bool_decide (size effective = 1%nat) && bool_decide (CAP_NET_BIND_SERVICE ∈ effective) then false
      else true
  end.
Definition is_root (h : Host) : bool := geteuid h =? 0.
Definition is_no_new_privs_set (h : Host) : bool := prctl_get_nnp h =? 1.
Record SandboxStatus := { st_uid : Z; st_gid : Z; st_is_root : bool; st_no_new_privs : bool; st_capabilities : gset Z }.
Definition get_status (h : Host) : SandboxStatus :=
  {| st_uid := getuid h; st_gid := getgid h; st_is_root := is_root h; st_no_new_privs := is_no_new_privs_set h;
     st_capabilities := match cap_read Effective h with Ok c => c | Err _ => ∅ end |}.

(** ** Sockets *)

Record SocketTuningConfig := {
  tcp_nodelay : bool; tcp_keepalive_secs : Z; tcp_keepalive_interval : Z; tcp_keepalive_probes : Z; listen_backlog : Z;
  send_buffer_size : option Z; recv_buffer_size : option Z; defer_accept_secs : Z; user_timeout_ms : Z; reuse_port : bool;
  upstream_pool_idle_timeout_secs : Z; upstream_pool_max_idle : Z
}.
Definition SocketTuningConfig_default : SocketTuningConfig :=
  {| tcp_nodelay := true; tcp_keepalive_secs := 60; tcp_keepalive_interval := 15; tcp_keepalive_probes := 5;
     listen_backlog := 4096; send_buffer_size := None; recv_buffer_size := None; defer_accept_secs := 5;
     user_timeout_ms := 30000; reuse_port := true; upstream_pool_idle_timeout_secs := 90; upstream_pool_max_idle := 32 |}.

(** The calls on Linux, in order; the backlog is cast to 32 bits with sign. *)
Definition listener_ops (port : Z) (c : SocketTuningConfig) : list SockOp :=
  [ReuseAddress; NonBlocking] ++ (if reuse_port c then [ReusePort] else []) ++ (if tcp_nodelay c then [NoDelay] else []) ++
  [KeepAlive (tcp_keepalive_secs c) (tcp_keepalive_interval c)] ++
  match send_buffer_size c with Some n => [SendBuffer n] | None => [] end ++
  match recv_buffer_size c with Some n => [RecvBuffer n] | None => [] end ++
  [DeferAccept (defer_accept_secs c); UserTimeout (user_timeout_ms c); Bind port; Listen (wrap_i32 (listen_backlog c))].
Definition create_tuned_listener (port : Z) (c : SocketTuningConfig) : act Errno := in_order (map sock (listener_ops port c)).

(** ** Opening the ports *)

Definition server_sandbox (grpc_port http_port : Z) : SandboxConfig :=
  {| sb_user := None; sb_group := None; sb_drop_capabilities := true;
     sb_allow_net_bind := (grpc_port <? 1024) || (http_port <? 1024) |}.
(** A sandbox that cannot be applied is only reported. *)
Definition sandbox_after_bind (grpc_port http_port : Z) : act Errno :=
  fun h => if needs_sandbox h then (Ok tt, (apply_sandbox (server_sandbox grpc_port http_port) h).2) else (Ok tt, h).
Definition open_ports (tuning : SocketTuningConfig) (grpc_port http_port : Z) : act Errno :=
  create_tuned_listener http_port tuning ?; sandbox_after_bind grpc_port http_port ?; create_tuned_listener grpc_port tuning.
End Sandboxed.

(** ** The kernel's rules *)

(** What the calls act on: the capabilities and the flag of each thread, the thread that
    calls, and the supplementary groups. *)
Class HostView (K : Kernel) := {
  me : Host -> nat;
  caps_of : Host -> nat -> CapSet -> gset Z;
  nnp_of : Host -> nat -> bool;
  groups_of : Host -> list Z
}.
Section Rules.
Context {K : Kernel} {V : HostView K}.
(** [h'] is [h] but for the capabilities of the calling thread. *)
Record own_caps (h h' : Host) : Prop := {
  oc_me : me h' = me h;
  oc_threads t s : t <> me h -> caps_of h' t s = caps_of h t s;
  oc_nnp t : nnp_of h' t = nnp_of h t;
  oc_groups : groups_of h' = groups_of h
}.
Definition same_caps (h h' : Host) : Prop := forall s, caps_of h' (me h) s = caps_of h (me h) s.
(** capset(2): the new effective set is within the permitted set, the new permitted set
    within the old one and around the effective one. *)
Definition may_set (h : Host) (s : CapSet) (v : gset Z) : Prop :=
  match s with
  | Effective => v ⊆ caps_of h (me h) Permitted
  | Permitted => v ⊆ caps_of h (me h) Permitted /\ caps_of h (me h) Effective ⊆ v
  | Inheritable => v ⊆ caps_of h (me h) Inheritable
  end.
End Rules.
Class KernelLaws (K : Kernel) (V : HostView K) : Prop := {
  cap_read_own s h : cap_read s h = Ok (caps_of h (me h) s);
  cap_clear_set s h : cap_clear s h = cap_set s ∅ h;
  cap_set_ok s v h : may_set h s v ->
    exists h', cap_set s v h = (Ok tt, h') /\ own_caps h h' /\ caps_of h' (me h) s = v /\
      forall s', s' <> s -> caps_of h' (me h) s' = caps_of h (me h) s';
  cap_set_refused v h : ~ may_set h Effective v -> exists e, cap_set Effective v h = (Err e, h);
  nnp_set h : exists h', prctl_nnp h = (Ok tt, h') /\ me h' = me h /\ (forall t s, caps_of h' t s = caps_of h t s) /\
    nnp_of h' (me h) = true /\ (forall t, t <> me h -> nnp_of h' t = nnp_of h t) /\ groups_of h' = groups_of h;
  setuid_frame u h : let h' := (setuid u h).2 in me h' = me h /\ (forall t, nnp_of h' t = nnp_of h t) /\ groups_of h' = groups_of h;
  setgid_frame g h : let h' := (setgid g h).2 in me h' = me h /\ (forall t, nnp_of h' t = nnp_of h t) /\ groups_of h' = groups_of h;
  sock_frame op h : let h' := (sock op h).2 in own_caps h h' /\ same_caps h h';
  bind_refused port h : port < 1024 -> CAP_NET_BIND_SERVICE ∉ caps_of h (me h) Effective -> exists e, sock (Bind port) h = (Err e, h)
}.

Section SandboxProps.
Context {K : Kernel} {V : HostView K} {L : KernelLaws K V}.

Lemma own_caps_refl h : own_caps h h.
Proof. done. Qed.
Lemma own_caps_trans a b c : own_caps a b -> own_caps b c -> own_caps a c.
Proof.
  intros [M1 T1 N1 G1] [M2 T2 N2 G2]. split; [congruence| | |congruence].
  - intros t s Ht. rewrite T2 by congruence. by apply T1.
  - intros t. by rewrite N2, N1.
Qed.
Definition bare (h : Host) : Prop := forall s, caps_of h (me h) s = ∅.

(** The three sets can be cleared in this order. *)
Lemma clear_all h : exists h1 h2 h3, cap_clear Effective h = (Ok tt, h1) /\ cap_clear Permitted h1 = (Ok tt, h2) /\
  cap_clear Inheritable h2 = (Ok tt, h3) /\ own_caps h h3 /\ bare h3.
Proof.
  destruct (cap_set_ok Effective ∅ h) as (h1 & E1 & O1 & H1 & R1); [simpl; set_solver|].
  destruct (cap_set_ok Permitted ∅ h1) as (h2 & E2 & O2 & H2 & R2).
  { simpl. rewrite (oc_me _ _ O1), H1. set_solver. }
  destruct (cap_set_ok Inheritable ∅ h2) as (h3 & E3 & O3 & H3 & R3); [simpl; set_solver|].
  exists h1, h2, h3. rewrite !cap_clear_set. split_and!; [done|done|done|by do 2 (eapply own_caps_trans; [done|])|].
  pose proof (oc_me _ _ O1) as M1. pose proof (oc_me _ _ O2) as M2. pose proof (oc_me _ _ O3) as M3.
  intros [| |]; rewrite M3; [rewrite R3, M2, R2, M1 by done; done|rewrite R3, M2 by done; done|done].
Qed.
(** Dropping the capabilities leaves none, but reports success only when none is to be
    kept: the one to be kept was given up before. *)
Lemma drop_capabilities_spec (b : bool) h : exists h', own_caps h h' /\ bare h' /\
  if b then exists e, drop_capabilities b h = (Err (CapabilityDrop "set net_bind effective"%string e), h')
  else drop_capabilities b h = (Ok tt, h').
Proof.
  destruct (clear_all h) as (h1 & h2 & h3 & E1 & E2 & E3 & O & B). exists h3. split; [done|]. split; [done|].
  unfold drop_capabilities, and_next, errs_as. rewrite E1, E2, E3. destruct b; [|done].
  destruct (cap_set_refused {[CAP_NET_BIND_SERVICE]} h3) as (e & ->); [|by exists e].
  simpl. rewrite (B Permitted). set_solver.
Qed.
Lemma drop_user_frame u h : let h' := (drop_to_user u h).2 in
  me h' = me h /\ (forall t, nnp_of h' t = nnp_of h t) /\ groups_of h' = groups_of h.
Proof.
  unfold drop_to_user, errs_as, fail. destruct (parse_u32 u) as [n|].
  - pose proof (setuid_frame n h) as Hf. by destruct (setuid n h) as [[] ?].
  - case_bool_decide; [done|]. destruct (getpwnam u h) as [n|]; [|done].
    pose proof (setuid_frame n h) as Hf. by destruct (setuid n h) as [[] ?].
Qed.
Lemma drop_group_frame g h : let h' := (drop_to_group g h).2 in
  me h' = me h /\ (forall t, nnp_of h' t = nnp_of h t) /\ groups_of h' = groups_of h.
Proof.
  unfold drop_to_group, errs_as, fail. destruct (parse_u32 g) as [n|].
  - pose proof (setgid_frame n h) as Hf. by destruct (setgid n h) as [[] ?].
  - case_bool_decide; [done|]. destruct (getgrnam g h) as [n|]; [|done].
    pose proof (setgid_frame n h) as Hf. by destruct (setgid n h) as [[] ?].
Qed.

(** The sandbox does what it reports, for the calling thread: after a success the flag is
    set and, where capabilities were to be dropped, none is left.  It never succeeds when
    the right to bind low ports is to be kept; then the flag is not set.  The supplementary
    groups are those of the start in any case, and the other threads keep their
    capabilities. *)
Lemma apply_sandbox_spec (c : SandboxConfig) (h h' : Host) (r : result unit SandboxError) (HA : apply_sandbox c h = (r, h')) :
  me h' = me h /\ groups_of h' = groups_of h /\
  (r = Ok tt -> nnp_of h' (me h) = true /\ (sb_drop_capabilities c = true -> sb_allow_net_bind c = false /\ bare h')) /\
  (sb_drop_capabilities c = true -> sb_allow_net_bind c = true ->
   (exists e, r = Err e) /\ nnp_of h' (me h) = nnp_of h (me h)) /\
  (sb_user c = None -> sb_group c = None -> sb_drop_capabilities c = true ->
   (sb_allow_net_bind c = false -> r = Ok tt) /\ bare h' /\
   forall t, t <> me h -> nnp_of h' t = nnp_of h t /\ forall s, caps_of h' t s = caps_of h t s).
Proof.
  unfold apply_sandbox, and_next in HA.
  destruct (match sb_group c with Some g => drop_to_group g | None => done_ end h) as [rg hg] eqn:Eg.
  assert (Fg : me hg = me h /\ (forall t, nnp_of hg t = nnp_of h t) /\ groups_of hg = groups_of h /\
               (sb_group c = None -> hg = h /\ rg = Ok tt)).
  { destruct (sb_group c) as [g|]; [|by injection Eg as <- <-]. pose proof (drop_group_frame g h) as Hf. rewrite Eg in Hf. naive_solver. }
  destruct Fg as (Mg & Ng & Gg & Sg). destruct rg as [[]|e]; [|injection HA as <- <-; naive_solver].
  destruct (match sb_user c with Some u => drop_to_user u | None => done_ end hg) as [ru hu] eqn:Eu.
  assert (Fu : me hu = me h /\ (forall t, nnp_of hu t = nnp_of h t) /\ groups_of hu = groups_of h /\
               (sb_user c = None -> hu = hg /\ ru = Ok tt)).
  { rewrite <- Mg, <- Gg. destruct (sb_user c) as [u|]; [|injection Eu as <- <-; naive_solver].
    pose proof (drop_user_frame u hg) as Hf. rewrite Eu in Hf. naive_solver. }
  destruct Fu as (Mu & Nu & Gu & Su). destruct ru as [[]|e]; [|injection HA as <- <-; naive_solver].
  assert (Hdrop : exists hd, own_caps hu hd /\ (sb_drop_capabilities c = true -> bare hd) /\
    (if sb_drop_capabilities c && sb_allow_net_bind c then exists e, (r, h') = (Err e, hd) else set_no_new_privs hd = (r, h'))).
  { destruct (sb_drop_capabilities c); simpl; [|by exists hu].
    destruct (drop_capabilities_spec (sb_allow_net_bind c) hu) as (hd & O & B & Hd). exists hd. split; [done|]. split; [done|].
    destruct (sb_allow_net_bind c); [destruct Hd as [e He]; rewrite He in HA; by exists (CapabilityDrop "set net_bind effective" e)|].
    by rewrite Hd in HA. }
  clear HA. destruct Hdrop as (hd & [Md Td Nd Gd] & Bd & Hend).
  assert (Hthreads : sb_user c = None -> sb_group c = None -> forall t s, t <> me h -> caps_of hd t s = caps_of h t s).
  { intros Hu Hg t s Ht. destruct (Su Hu) as [-> _], (Sg Hg) as [-> _]. apply Td. congruence. }
  destruct (sb_drop_capabilities c && sb_allow_net_bind c) eqn:Eb.
  - destruct Hend as [e [= -> ->]]. apply andb_true_iff in Eb as [Hc1 Hc2]. rewrite Hc1, Hc2. split; [congruence|]. split; [congruence|].
    split; [done|]. split; [intros _ _; split; [by exists e|by rewrite Nd, Nu]|]. intros Hu Hg _.
    split; [done|]. split; [by apply Bd|]. intros t Ht. split; [by rewrite Nd, Nu|]. intros s. by apply Hthreads.
  - destruct (nnp_set hd) as (hn & En & Mn & Cn & Nn & On & Gn). unfold set_no_new_privs, errs_as in Hend. rewrite En in Hend.
    injection Hend as <- <-. split; [congruence|]. split; [congruence|]. rewrite Md, Mu in Nn, On.
    assert (Hb : sb_drop_capabilities c = true -> bare hn) by (intros Hc s; rewrite Cn, Mn; by apply Bd).
    split; [intros _; split; [done|]; intros Hc; rewrite Hc in Eb; split; [done|by apply Hb]|].
    split; [intros Hc Ha; by rewrite Hc, Ha in Eb|]. intros Hu Hg Hc. split; [done|]. split; [by apply Hb|].
    intros t Ht. split; [rewrite On by done; by rewrite Nd, Nu|]. intros s. rewrite Cn. by apply Hthreads.
Qed.

(** ** The ports *)

Lemma ops_frame ops h : let h' := (in_order (map sock ops) h).2 in own_caps h h' /\ same_caps h h'.
Proof.
  revert h. induction ops as [|op ops IH]; intros h; [done|]. cbn [map in_order]. unfold and_next.
  pose proof (sock_frame op h) as Hf. destruct (sock op h) as [[[]|e] h1]; [|done]. destruct Hf as [O1 S1], (IH h1) as [O2 S2].
  split; [by eapply own_caps_trans|]. simpl in *. pose proof (oc_me _ _ O1) as M1.
  intros s. specialize (S2 s). rewrite M1 in S2. rewrite S2. apply S1.
Qed.
Lemma bind_needed ops port h : Bind port ∈ ops -> port < 1024 -> CAP_NET_BIND_SERVICE ∉ caps_of h (me h) Effective ->
  exists e h', in_order (map sock ops) h = (Err e, h').
Proof.
  intros Hin Hp. revert h. induction ops as [|op ops IH]; intros h Hc; [by apply elem_of_nil in Hin|].
  cbn [map in_order]. unfold and_next. apply elem_of_cons in Hin as [<-|Hin].
  - destruct (bind_refused port h Hp Hc) as [e ->]. by exists e, h.
  - pose proof (sock_frame op h) as [O S]. destruct (sock op h) as [[[]|e] h1]; [|by exists e, h1]. simpl in *.
    apply IH; [done|]. by rewrite (oc_me _ _ O), S.
Qed.
Lemma listener_binds port c : Bind port ∈ listener_ops port c.
Proof. unfold listener_ops. set_solver. Qed.
Lemma needs_same h h' : me h' = me h -> same_caps h h' -> needs_sandbox h' = needs_sandbox h.
Proof. intros Hm Hs. unfold needs_sandbox. by rewrite !cap_read_own, Hm, Hs. Qed.

End SandboxProps.

(** ** A host that follows the rules *)

Record LinuxHost := {
  lx_me : nat; lx_caps : nat -> CapSet -> gset Z; lx_nnp : nat -> bool; lx_uid : Z; lx_gid : Z; lx_groups : list Z
}.
Definition lx_has (c : Z) (h : LinuxHost) : bool := bool_decide (c ∈ lx_caps h (lx_me h) Effective).
Definition lx_put_caps (f : nat -> CapSet -> gset Z) (h : LinuxHost) : LinuxHost :=
  {| lx_me := lx_me h; lx_caps := f; lx_nnp := lx_nnp h; lx_uid := lx_uid h; lx_gid := lx_gid h; lx_groups := lx_groups h |}.
Definition lx_allowed (s : CapSet) (v : gset Z) (h : LinuxHost) : bool :=
  let own := lx_caps h (lx_me h) in
  match s with
  | Effective => bool_decide (v ⊆ own Permitted)
  | Permitted => bool_decide (v ⊆ own Permitted) && bool_decide (own Effective ⊆ v)
  | Inheritable => bool_decide (v ⊆ own Inheritable ∪ own Permitted)
  end.
Definition lx_cap_set (s : CapSet) (v : gset Z) (h : LinuxHost) : result unit unit * LinuxHost :=
  if lx_allowed s v h
  then (Ok tt, lx_put_caps (fun t s' => if bool_decide (t = lx_me h) && bool_decide (s' = s) then v else lx_caps h t s') h)
  else (Err tt, h).
Definition lx_setuid (u : Z) (h : LinuxHost) : result unit unit * LinuxHost :=
  if lx_has CAP_SETUID h || (u =? lx_uid h)
  then (Ok tt, {| lx_me := lx_me h;
                  lx_caps := if (lx_uid h =? 0) && negb (u =? 0)
                             then fun t s => match s with Inheritable => lx_caps h t s | _ => ∅ end else lx_caps h;
                  lx_nnp := lx_nnp h; lx_uid := u; lx_gid := lx_gid h; lx_groups := lx_groups h |})
  else (Err tt, h).
Definition lx_setgid (g : Z) (h : LinuxHost) : result unit unit * LinuxHost :=
  if lx_has CAP_SETGID h || (g =? lx_gid h)
  then (Ok tt, {| lx_me := lx_me h; lx_caps := lx_caps h; lx_nnp := lx_nnp h; lx_uid := lx_uid h; lx_gid := g;
                  lx_groups := lx_groups h |})
  else (Err tt, h).
Definition lx_sock (op : SockOp) (h : LinuxHost) : result unit unit * LinuxHost :=
  match op with
  | Bind port => if (port <? 1024) && negb (lx_has CAP_NET_BIND_SERVICE h) then (Err tt, h) else (Ok tt, h)
  | _ => (Ok tt, h)
  end.
#[local] Instance Linux : Kernel :=
  {| Errno := unit; Host := LinuxHost; cap_read := fun s h => Ok (lx_caps h (lx_me h) s);
     cap_clear := fun s => lx_cap_set s ∅; cap_set := lx_cap_set; setuid := lx_setuid; setgid := lx_setgid;
     prctl_nnp := fun h => (Ok tt, {| lx_me := lx_me h; lx_caps := lx_caps h;
                                      lx_nnp := fun t => bool_decide (t = lx_me h) || lx_nnp h t;
                                      lx_uid := lx_uid h; lx_gid := lx_gid h; lx_groups := lx_groups h |});
     prctl_get_nnp := fun h => if lx_nnp h (lx_me h) then 1 else 0;
     getuid := lx_uid; getgid := lx_gid; geteuid := lx_uid; getpwnam := fun _ _ => Some 65534; getgrnam := fun _ _ => Some 65534;
     sock := lx_sock |}.
#[local] Instance LinuxView : HostView Linux := {| me := lx_me; caps_of := lx_caps; nnp_of := lx_nnp; groups_of := lx_groups |}.
#[local] Instance LinuxLaws : KernelLaws Linux LinuxView.
Proof.
  split.
  - done.
  - done.
  - intros s v h Hm. simpl. unfold lx_cap_set. assert (Ha : lx_allowed s v h = true).
    { destruct s; simpl in *; [by apply bool_decide_eq_true_2|destruct Hm; apply andb_true_iff; split; by apply bool_decide_eq_true_2|].
      apply bool_decide_eq_true_2. set_solver. }
    rewrite Ha. eexists. split; [reflexivity|]. split_and!.
    + split; simpl; [done| |done|done]. intros t s' Ht. by rewrite bool_decide_eq_false_2.
    + simpl. by rewrite !bool_decide_eq_true_2.
    + intros s' Hs. simpl. rewrite (bool_decide_eq_false_2 (s' = s)) by done. by rewrite andb_false_r.
  - intros v h Hm. simpl in *. unfold lx_cap_set. simpl. rewrite bool_decide_eq_false_2 by done. by eexists.
  - intros h. eexists. split; [reflexivity|]. simpl. split_and!; try done; [by rewrite bool_decide_eq_true_2|].
    intros t Ht. by rewrite bool_decide_eq_false_2.
  - intros u h. simpl. unfold lx_setuid. by case_match.
  - intros g h. simpl. unfold lx_setgid. by case_match.
  - intros op h. simpl. unfold lx_sock. by destruct op; try case_match.
  - intros port h Hp Hc. simpl in *. unfold lx_has. rewrite (proj2 (Z.ltb_lt port 1024)) by done.
    rewrite bool_decide_eq_false_2 by done. by eexists.
Qed.

(** A process of two threads, started with four capabilities. *)
Definition root_host : @Host Linux :=
  {| lx_me := 0; lx_caps := fun _ s => match s with Inheritable => ∅ | _ => {[6; 7; 10; 21]} end;
     lx_nnp := fun _ => false; lx_uid := 0; lx_gid := 0; lx_groups := [0; 27] |}.


(** The low ports could be opened before the sandbox, and not after it. *)
Lemma low_ports_refused :
  (open_ports SocketTuningConfig_default 443 80 root_host).1 = Err tt /\
  (create_tuned_listener 80 SocketTuningConfig_default ?; create_tuned_listener 443 SocketTuningConfig_default) root_host = (Ok tt, root_host).
Proof. split; vm_compute; reflexivity. Qed.
(** A drop to an unprivileged user keeps the supplementary groups of the start. *)
Lemma groups_kept :
  let '(r, h') := apply_sandbox SandboxConfig_default root_host in
  (if r then true else false, lx_uid h', lx_gid h', lx_groups h') = (true, 65534, 65534, [0; 27]).
Proof. vm_compute. reflexivity. Qed.
