(* ===== verification/Lifecycle.v ===== *)
(** * The life of a proxy process (src/src/proxy/lifecycle.rs, the start, stop and status
    commands of src/src/bin/conproxy/commands/proxy.rs)

    The PID file, the check whether the proxy runs, stopping it, waiting for it and asking
    for its status, on Linux.  The operating system is a parameter: files, environment,
    processes, signals, ports and the HTTP client; [UnixLaws] states what the commands
    rely on in it. *)

From S2P Require Import Prelude Floats Text Types Config Engine Sandbox.
Open Scope Z_scope.
Open Scope conproxy_scope.

Inductive UnixSignal := SIGTERM | SIGKILL.

Class Unix := {
  World : Type;
  env_var : str -> World -> option str;
  runtime_dir : World -> option str;
  path_exists : str -> World -> bool;
  read_to_string : str -> World -> option str;
  create_parent : str -> World -> World;
  write_file : str -> str -> World -> bool * World;
  restrict : str -> World -> World;
  remove_file : str -> World -> bool * World;
  proc_dir : Z -> World -> bool;
  proc_comm : Z -> World -> option str;
  kill_probe : Z -> World -> bool;
  kill : UnixSignal -> Z -> World -> bool * World;
  sleep : Z -> World -> World;
  can_bind : str -> World -> bool;
  client_builds : bool;
  http_post : str -> World -> World;
  http_get : str -> World -> option (bool * option Value)
}.

Definition DEFAULT_STARTUP_TIMEOUT_MS : Z := 5000.
Definition STARTUP_CHECK_INTERVAL_MS : Z := 100.

Inductive ProxyError := StartupTimeout (addr : str) (timeout_ms : Z) | HttpFailed.

(** [Path::join] with a relative name. *)
Definition join_path (dir name : str) : str :=
  match last dir with None => name | Some c => if c =? 47 then dir ++ name else dir ++ [47] ++ name end.

Section Process.
Context `{U : Unix}.

Definition pid_file_path (w : World) : str :=
  match env_var (lit "CONPROXY_PID_FILE") w with
  | Some custom => custom
  | None => match runtime_dir w with Some dir => join_path dir (lit "conproxy.pid") | None => lit "/tmp/conproxy.pid" end
  end.
Definition write_pid_file (pid : Z) (w : World) : World :=
  let path := pid_file_path w in
  let '(ok, w) := write_file path (show_Z pid) (create_parent path w) in
  if ok then restrict path w else w.
Definition remove_pid_file (w : World) : World := (remove_file (pid_file_path w) w).2.
Definition read_pid (w : World) : option Z :=
  let path := pid_file_path w in
  if path_exists path w then match read_to_string path w with Some content => parse_u32 (trim content) | None => None end else None.
Definition is_process_alive (pid : Z) (w : World) : bool :=
  if proc_dir pid w
  then match proc_comm pid w with Some comm => contains_str (trim comm) (lit "conproxy") | None => false end
  else kill_probe pid w.
Definition is_proxy_running (w : World) : bool := match read_pid w with Some pid => is_process_alive pid w | None => false end.
Definition is_port_in_use (addr : str) (w : World) : bool := negb (can_bind addr w).

(** The checks of the loop, one for each of the remaining iterations. *)
Fixpoint wait_checks (n : nat) (addr : str) (w : World) : bool * World :=
  match n with
  | O => (false, w)
  | S n => if is_port_in_use addr w then (true, w) else wait_checks n addr (sleep STARTUP_CHECK_INTERVAL_MS w)
  end.
Definition wait_for_proxy (addr : str) (timeout_ms : Z) (w : World) : result unit ProxyError * World :=
  let '(up, w) := wait_checks (Z.to_nat (timeout_ms / STARTUP_CHECK_INTERVAL_MS)) addr w in
  (if up then Ok tt else Err (StartupTimeout addr timeout_ms), w).

Definition stop_process (pid : Z) (w : World) : World :=
  let '(_, w) := kill SIGTERM pid w in
  let w := sleep 500 w in
  if is_process_alive pid w then (kill SIGKILL pid w).2 else w.
Definition stop_proxy (addr : str) (w : World) : result unit ProxyError * World :=
  if negb client_builds then (Err HttpFailed, w)
  else
    let w := http_post (lit "http://" ++ addr ++ lit "/shutdown") w in
    match read_pid w with
    | Some pid => (Ok tt, remove_pid_file (if is_process_alive pid w then stop_process pid w else w))
    | None => (Ok tt, w)
    end.

Record ProxyStatus := { sx_running : bool; sx_pid : option Z; sx_health : option Value }.
Definition proxy_status (addr : str) (w : World) : result ProxyStatus ProxyError :=
  let pid := read_pid w in
  let process_alive := match pid with Some p => is_process_alive p w | None => false end in
  if negb client_builds then Err HttpFailed
  else
    let health := match http_get (lit "http://" ++ addr ++ lit "/health") w with Some (true, body) => body | _ => None end in
    Ok {| sx_running := bool_decide (is_Some health) || process_alive; sx_pid := pid; sx_health := health |}.

(** ** The start command

    [spawn] starts the program in the background and gives its process; [serve] runs the
    proxy until it ends, with an error or after a signal. *)
Definition start_daemon (spawn : World -> option (Z * World)) (w : World) : option Z * World :=
  if is_proxy_running w then (None, w)
  else match spawn w with Some (pid, w) => (Some pid, write_pid_file pid w) | None => (None, w) end.
Definition start_foreground (self : Z) (serve : World -> bool * World) (w : World) : bool * World :=
  let '(ok, w) := serve (write_pid_file self w) in
  if ok then (true, remove_pid_file w) else (false, w).
End Process.

(** ** What the system guarantees *)

(** The processes that were sent a signal. *)
Class UnixView (U : Unix) := { signalled : World -> list Z }.
Section Frames.
Context {U : Unix} {V : UnixView U}.
Record same_place (w w' : World) : Prop := {
  sp_env n : env_var n w' = env_var n w;
  sp_runtime : runtime_dir w' = runtime_dir w
}.
Definition same_process (w w' : World) (pid : Z) : Prop :=
  proc_dir pid w' = proc_dir pid w /\ proc_comm pid w' = proc_comm pid w /\ kill_probe pid w' = kill_probe pid w.
End Frames.
Class UnixLaws (U : Unix) (V : UnixView U) : Prop := {
  create_place p w : same_place w (create_parent p w);
  write_place p s w : same_place w (write_file p s w).2;
  write_read p s w w' : write_file p s w = (true, w') -> path_exists p w' = true /\ read_to_string p w' = Some s;
  restrict_place p w : same_place w (restrict p w);
  restrict_read p w : path_exists p (restrict p w) = path_exists p w /\ read_to_string p (restrict p w) = read_to_string p w;
  remove_place p w : same_place w (remove_file p w).2;
  remove_gone p w w' : remove_file p w = (true, w') -> path_exists p w' = false;
  remove_processes p w pid : same_process w (remove_file p w).2 pid;
  remove_signals p w : signalled (remove_file p w).2 = signalled w;
  probe_proc pid w : kill_probe pid w = true -> proc_dir pid w = true;
  kill_place s pid w : same_place w (kill s pid w).2;
  kill_signals s pid w : signalled (kill s pid w).2 = pid :: signalled w;
  killed pid w w' : kill SIGKILL pid w = (true, w') -> proc_dir pid w' = false;
  sleep_place n w : same_place w (sleep n w);
  sleep_signals n w : signalled (sleep n w) = signalled w
}.

Section LifecycleProps.
Context {U : Unix} {V : UnixView U} {L : UnixLaws U V}.

Lemma same_place_trans a b c : same_place a b -> same_place b c -> same_place a c.
Proof. intros [E1 R1] [E2 R2]. split; [intros n; by rewrite E2, E1|by rewrite R2, R1]. Qed.
Lemma same_path w w' : same_place w w' -> pid_file_path w' = pid_file_path w.
Proof. intros [E R]. unfold pid_file_path. by rewrite E, R. Qed.

(** A PID that was written is read back. *)
Theorem pid_file_roundtrip (pid : Z) (w : World) (HP : 0 <= pid <= u32_max)
    (HW : (write_file (pid_file_path w) (show_Z pid) (create_parent (pid_file_path w) w)).1 = true) :
  read_pid (write_pid_file pid w) = Some pid.
Proof.
  unfold write_pid_file, read_pid. pose proof (create_place (pid_file_path w) w) as Pc.
  pose proof (write_place (pid_file_path w) (show_Z pid) (create_parent (pid_file_path w) w)) as Pw.
  destruct (write_file (pid_file_path w) (show_Z pid) (create_parent (pid_file_path w) w)) as [ok w1] eqn:Ew. simpl in HW, Pw. subst ok.
  destruct (write_read _ _ _ _ Ew) as [Hex Hrd]. destruct (restrict_read (pid_file_path w) w1) as [Hex' Hrd'].
  rewrite (same_path w) by (eapply same_place_trans; [|apply restrict_place]; by eapply same_place_trans).
  rewrite Hex', Hex, Hrd', Hrd. unfold u32_max, u_max in HP.
  destruct (show_Z_digits pid) as (c & d & Hs & Hd & Hv); [lia|]. rewrite Hs. rewrite trim_no_ws.
  - unfold parse_u32. rewrite parse_plain_digits by (by inversion_clear Hd). rewrite parse_digits_show; [|done|done|].
    + rewrite Hv. unfold u32_max, u_max. by rewrite (proj2 (Z.leb_le pid (2 ^ 32 - 1))) by lia.
    + rewrite Hv. unfold usize_max, u64_max, u_max. lia.
  - eapply Forall_impl; [apply Hd|]. apply digit_not_ws.
Qed.

(** Waiting succeeds exactly when one of the checks, a hundred milliseconds apart, finds
    that the address cannot be bound. *)
Theorem wait_exact (addr : str) (timeout_ms : Z) (w : World) (HT : 0 <= timeout_ms) :
  (wait_for_proxy addr timeout_ms w).1 = Ok tt <->
  exists i, Z.of_nat i < timeout_ms / STARTUP_CHECK_INTERVAL_MS /\
            is_port_in_use addr (Nat.iter i (sleep STARTUP_CHECK_INTERVAL_MS) w) = true.
Proof.
  unfold wait_for_proxy. assert (Hw : forall n w, (wait_checks n addr w).1 = true <->
    exists i, (i < n)%nat /\ is_port_in_use addr (Nat.iter i (sleep STARTUP_CHECK_INTERVAL_MS) w) = true).
  { clear. intros n. induction n as [|n IH]; intros w; cbn [wait_checks]; [split; [done|intros (i & Hi & _); lia]|].
    destruct (is_port_in_use addr w) eqn:Ep.
    - split; [intros _; exists O; split; [lia|done]|done].
    - rewrite IH. split; intros (i & Hi & Hu).
      + exists (S i). split; [lia|]. by rewrite Nat.iter_succ_r.
      + destruct i as [|i]; [by simpl in Hu; rewrite Ep in Hu|]. exists i. split; [lia|]. by rewrite Nat.iter_succ_r in Hu. }
  assert (Hq : 0 <= timeout_ms / STARTUP_CHECK_INTERVAL_MS) by (apply Z.div_pos; [done|reflexivity]).
  specialize (Hw (Z.to_nat (timeout_ms / STARTUP_CHECK_INTERVAL_MS)) w).
  destruct (wait_checks _ addr w) as [up w']. simpl in *. destruct up; (split; [intros Hr|intros (i & Hi & Hu)]); try done.
  - destruct Hw as [Hw _]. destruct (Hw eq_refl) as (i & Hi & Hu). exists i. split; [lia|done].
  - destruct Hw as [_ Hw]. assert (false = true) by (apply Hw; exists i; split; [lia|done]). done.
Qed.

(** A process with the name of the proxy. *)
Definition runs_proxy (pid : Z) (w : World) : Prop :=
  proc_dir pid w = true /\ exists comm, proc_comm pid w = Some comm /\ contains_str (trim comm) (lit "conproxy") = true.
Lemma alive_runs pid w : is_process_alive pid w = true -> runs_proxy pid w.
Proof.
  unfold is_process_alive, runs_proxy. destruct (proc_dir pid w) eqn:Ed; [|by intros Hp%probe_proc; rewrite Hp in Ed].
  destruct (proc_comm pid w) as [comm|]; [|done]. eauto.
Qed.
Lemma gone_dead pid w : proc_dir pid w = false -> is_process_alive pid w = false.
Proof. intros Hd. destruct (is_process_alive pid w) eqn:Ea; [|done]. apply alive_runs in Ea as [Hp _]. by rewrite Hp in Hd. Qed.
Lemma alive_same pid w w' : same_process w w' pid -> is_process_alive pid w' = is_process_alive pid w.
Proof. intros (H1 & H2 & H3). unfold is_process_alive. by rewrite H1, H2, H3. Qed.
Lemma stop_process_spec pid w :
  let w' := stop_process pid w in
  same_place w w' /\ (forall p, p ∈ signalled w' -> p = pid \/ p ∈ signalled w) /\
  ((forall v, (kill SIGKILL pid v).1 = true) -> is_process_alive pid w' = false).
Proof.
  unfold stop_process. pose proof (kill_place SIGTERM pid w) as P1. pose proof (kill_signals SIGTERM pid w) as S1.
  destruct (kill SIGTERM pid w) as [ok1 w1]. simpl in P1, S1.
  pose proof (sleep_place 500 w1) as P2. pose proof (sleep_signals 500 w1) as S2.
  assert (P : same_place w (sleep 500 w1)) by (by eapply same_place_trans).
  destruct (is_process_alive pid (sleep 500 w1)) eqn:Ea.
  - pose proof (kill_place SIGKILL pid (sleep 500 w1)) as P3. pose proof (kill_signals SIGKILL pid (sleep 500 w1)) as S3.
    pose proof (killed pid (sleep 500 w1)) as Hk. destruct (kill SIGKILL pid (sleep 500 w1)) as [ok w3] eqn:Ek. simpl in *.
    split; [by eapply same_place_trans|]. split; [intros p; rewrite S3, S2, S1; set_solver|]. intros Hok.
    specialize (Hok (sleep 500 w1)). rewrite Ek in Hok. simpl in Hok. subst ok. apply gone_dead. by apply Hk.
  - split; [done|]. split; [intros p; rewrite S2, S1; set_solver|done].
Qed.

(** Stopping the proxy signals only the process of the PID file, and only when it has the
    name of the proxy; that process no longer runs afterwards, when the caller may kill
    it; and the proxy counts as stopped, when the PID file can be removed. *)
Theorem stop_exact (addr : str) (w w' : World) (r : result unit ProxyError) (HC : client_builds = true)
    (HS : stop_proxy addr w = (r, w')) :
  let w1 := http_post (lit "http://" ++ addr ++ lit "/shutdown") w in
  r = Ok tt /\
  (forall p, p ∈ signalled w' -> p ∈ signalled w1 \/ read_pid w1 = Some p /\ runs_proxy p w1) /\
  (forall p, read_pid w1 = Some p -> (forall v, (kill SIGKILL p v).1 = true) -> is_process_alive p w' = false) /\
  ((forall v, (remove_file (pid_file_path v) v).1 = true) -> is_proxy_running w' = false).
Proof.
  cbv zeta. set (w1 := http_post _ w) in *. unfold stop_proxy in HS. rewrite HC in HS. cbn [negb] in HS. fold w1 in HS.
  destruct (read_pid w1) as [pid|] eqn:Er; injection HS as <- <-.
  2:{ split_and!; [done|by left|done|]. intros _. unfold is_proxy_running. by rewrite Er. }
  set (w2 := if is_process_alive pid w1 then stop_process pid w1 else w1).
  assert (H2 : (forall p, p ∈ signalled w2 -> p ∈ signalled w1 \/ Some pid = Some p /\ runs_proxy p w1) /\
               ((forall v, (kill SIGKILL pid v).1 = true) -> is_process_alive pid w2 = false)).
  { unfold w2. destruct (is_process_alive pid w1) eqn:Ea; [|by split; [left|]].
    destruct (stop_process_spec pid w1) as (_ & Hs & Hk). split; [|done]. intros p Hp.
    destruct (Hs p Hp) as [->|]; [right; split; [done|by apply alive_runs]|by left]. }
  clearbody w2. destruct H2 as [Hs Hk]. unfold remove_pid_file.
  split; [done|]. split; [intros p; rewrite remove_signals; apply Hs|]. split.
  - intros p [= <-] Hok. rewrite (alive_same _ w2) by apply remove_processes. by apply Hk.
  - intros Hrm. specialize (Hrm w2). pose proof (remove_place (pid_file_path w2) w2) as Hp.
    destruct (remove_file (pid_file_path w2) w2) as [ok w3] eqn:Em. simpl in *. subst ok. apply remove_gone in Em.
    unfold is_proxy_running, read_pid. by rewrite (same_path w2 w3), Em.
Qed.
End LifecycleProps.

(** ** A small system *)

Record Machine := {
  mc_files : gmap str str; mc_procs : gmap Z str; mc_stubborn : Z -> bool; mc_log : list Z; mc_bound : gset str
}.
Definition put_files (f : gmap str str) (m : Machine) : Machine :=
  {| mc_files := f; mc_procs := mc_procs m; mc_stubborn := mc_stubborn m; mc_log := mc_log m; mc_bound := mc_bound m |}.
Definition send_signal (s : UnixSignal) (pid : Z) (m : Machine) : bool * Machine :=
  let dies := match s with SIGKILL => true | SIGTERM => negb (mc_stubborn m pid) end in
  (true, {| mc_files := mc_files m; mc_procs := if dies then delete pid (mc_procs m) else mc_procs m;
            mc_stubborn := mc_stubborn m; mc_log := pid :: mc_log m; mc_bound := mc_bound m |}).
#[local] Instance SmallUnix : Unix :=
  {| World := Machine; env_var := fun _ _ => None; runtime_dir := fun _ => Some (lit "/run/user/1000");
     path_exists := fun p m => bool_decide (is_Some (mc_files m !! p)); read_to_string := fun p m => mc_files m !! p;
     create_parent := fun _ m => m; write_file := fun p s m => (true, put_files (<[p := s]> (mc_files m)) m);
     restrict := fun _ m => m; remove_file := fun p m => (true, put_files (delete p (mc_files m)) m);
     proc_dir := fun pid m => bool_decide (is_Some (mc_procs m !! pid)); proc_comm := fun pid m => mc_procs m !! pid;
     kill_probe := fun pid m => bool_decide (is_Some (mc_procs m !! pid)); kill := send_signal; sleep := fun _ m => m;
     can_bind := fun a m => bool_decide (a ∉ mc_bound m); client_builds := true; http_post := fun _ m => m;
     http_get := fun _ _ => None |}.
#[local] Instance SmallView : UnixView SmallUnix := {| signalled := mc_log |}.
#[local] Instance SmallLaws : UnixLaws SmallUnix SmallView.
Proof.
  split; try done; simpl.
  - intros p s w w' [= <-]. simpl. rewrite lookup_insert_eq. by rewrite bool_decide_eq_true_2 by eauto.
  - intros p w w' [= <-]. simpl. rewrite lookup_delete_eq. by rewrite bool_decide_eq_false_2 by (intros [? ?]; done).
  - intros pid w w' [= <-]. simpl. rewrite lookup_delete_eq. by rewrite bool_decide_eq_false_2 by (intros [? ?]; done).
Qed.

(** A proxy that ignores the first signal, and a shell whose process has the same number
    as a proxy that ended long ago. *)
Definition machine (pid : Z) (comm : string) : @World SmallUnix :=
  write_pid_file pid {| mc_files := ∅; mc_procs := {[pid := lit comm]}; mc_stubborn := fun _ => true; mc_log := []; mc_bound := ∅ |}.
Lemma stop_exact_witness :
  exists w', stop_proxy (lit "127.0.0.1:10000") (machine 42 "conproxy") = (Ok tt, w') /\
  signalled w' = [42; 42] /\ is_process_alive 42 w' = false /\ is_proxy_running w' = false.
Proof.
  eexists. split; [reflexivity|]. split; [vm_compute; reflexivity|].
  destruct (stop_exact (lit "127.0.0.1:10000") (machine 42 "conproxy") _ (Ok tt) eq_refl eq_refl) as (_ & _ & Hk & Hr).
  split; [apply (Hk 42); [vm_compute; reflexivity|done]|by apply Hr].
Defined.
Lemma recycled_pid_spared :
  match stop_proxy (lit "127.0.0.1:10000") (machine 42 "bash") with
  | (r, w') => r = Ok tt /\ signalled w' = [] /\ read_pid w' = None
  end.
Proof. vm_compute. repeat split. Qed.
Lemma pid_file_roundtrip_witness : read_pid (machine 4194304 "conproxy") = Some 4194304.
Proof. apply pid_file_roundtrip; [vm_compute; split; discriminate|reflexivity]. Defined.
Lemma wait_exact_witness : (wait_for_proxy (lit "x") 99 (machine 1 "a")).1 = Err (StartupTimeout (lit "x") 99) /\
  ~ exists i, Z.of_nat i < 99 / STARTUP_CHECK_INTERVAL_MS /\
      is_port_in_use (lit "x") (Nat.iter i (sleep STARTUP_CHECK_INTERVAL_MS) (machine 1 "a")) = true.
Proof.
  split; [vm_compute; reflexivity|]. intros H. apply (wait_exact (lit "x") 99) in H; [|vm_compute; discriminate].
  vm_compute in H. discriminate H.
Defined.

(** A proxy that fails to start leaves its PID file behind. *)
Lemma failed_start_leaves_file :
  let w := {| mc_files := ∅; mc_procs := {[7 := lit "conproxy"]}; mc_stubborn := fun _ => false; mc_log := []; mc_bound := ∅ |} in
  match start_foreground (U := SmallUnix) 7 (fun m => (false, m)) w with (ok, w') => ok = false /\ read_pid (U := SmallUnix) w' = Some 7 end.
Proof. vm_compute. split; reflexivity. Qed.
(** A second proxy started in the foreground takes over the PID file, and removes it when
    it ends: the first one still runs and can no longer be stopped. *)
Lemma second_start_orphans_first :
  let w := machine 42 "conproxy" in
  match start_foreground (U := SmallUnix) 43 (fun m => (true, m)) w with
  | (ok, w') => ok = true /\ is_process_alive 42 w' = true /\ is_proxy_running w' = false /\
      signalled (stop_proxy (lit "127.0.0.1:10000") w').2 = []
  end.
Proof. vm_compute. repeat split. Qed.
