(* ===== verification/Cli.v ===== *)
(** * The command line (src/src/bin/conproxy/main.rs, commands/proxy.rs, commands/seed.rs)

    The commands that talk to a running proxy: contexts, search, clearing the cache, and
    the distillation of the cache to files; and the service file that the install command
    prints.  Calls over gRPC are the modelled services.  What a command prints is a value
    of an output type, texts of files are exact. *)

From Stdlib Require Import SpecFloat.
From S2P Require Import Prelude Floats Text Types Drift Cdc Cache CacheProps Circuit Scope Retry Upstream Pool.
From S2P Require Import Cascade Auth Metrics Context Refresh Batch Pipeline Peer Distill Settings Config Vendors.
From S2P Require Import Admin Handlers Grpc GrpcServices Start Sandbox Lifecycle.
Open Scope Z_scope.
Open Scope conproxy_scope.

(** ** Contexts *)

Inductive ContextOutput :=
| CtxCreated (id : str) | CtxCreateFailed (e : GrpcError)
| CtxSwitched (previous now_ : str) | CtxSwitchFailed (e : GrpcError)
| CtxShown (s : ProtoContextStats) (is_current : bool) | CtxMissing (e : GrpcError).

Section Contexts.
Context `{ContextEnv} {U : Type}.

Definition show_context (id : str) (s : AppState U) : ContextOutput :=
  match grpc_context_stats id s with
  | Ok st => CtxShown st (match grpc_current_context s with Ok c => str_eqb (ci_id c) id | Err _ => false end)
  | Err e => CtxMissing e
  end.
Definition switch_context (clk : Clock) (id : str) (s : AppState U) : list ContextOutput * AppState U :=
  match grpc_switch_context clk id s with
  | (Ok (previous, now_), s) => ([CtxSwitched previous now_], s)
  | (Err e, s) => ([CtxSwitchFailed e], s)
  end.
(** The options [--upstream] and [--collection] are not used. *)
Definition cli_context (clk : Clock) (id : str) (do_switch do_create : bool) (s : AppState U) : list ContextOutput * AppState U :=
  if do_create then
    match grpc_create_context clk id s with
    | (Ok created, s) => if do_switch then switch_context clk id s else ([CtxCreated created], s)
    | (Err e, s) => if do_switch then switch_context clk id s else ([CtxCreateFailed e], s)
    end
  else if do_switch then switch_context clk id s else ([show_context id s], s).

(** The names listed, with a mark at the current one. *)
Definition cli_contexts (s : AppState U) : str * list (str * bool) :=
  let now_ := match grpc_current_context s with Ok c => ci_id c | Err _ => lit "default" end in
  (now_, map (fun c => (ci_id c, str_eqb (ci_id c) now_)) (fst (grpc_list_contexts s))).
End Contexts.

(** ** Search *)

Definition content_preview (text : str) : outcome str :=
  if 200 <? str_len text then let! p := slice_to 200 text in Ret (p ++ lit "...") else Ret text.
Definition one_line (s : str) : str := map (fun c => if c =? 10 then 32 else c) s.
Fixpoint search_lines (i : Z) (l : list SearchResult) : outcome (list (Z * str * f32 * str)) :=
  match l with
  | [] => Ret []
  | r :: l => let! p := content_preview (content r) in
              let! rest := search_lines (i + 1) l in Ret ((sat_add 64 i 1, sr_id r, score r, one_line p) :: rest)
  end.

(** ** Clearing the cache *)

Inductive CacheRequest := PostClear | PostEvict (expired_only : bool).
(** The threshold is only printed. *)
Definition scope_clear `{UnicodeCase} (low_seed_sim : bool) (min_similarity : option f32) (all confirm : bool) (input : str)
  : option CacheRequest :=
  if all then (if confirm || str_eqb (to_lowercase (trim input)) (lit "y") then Some PostClear else None)
  else if low_seed_sim then Some (PostEvict true) else None.

(** ** Installation *)

Definition exec_start (exe listen : str) (upstream : option str) : list str :=
  [exe; lit "proxy"; lit "start"; lit "--listen"; listen] ++ match upstream with Some u => [lit "--upstream"; u] | None => [] end.
Definition unwords (l : list str) : str := match l with [] => [] | w :: l => w ++ concat (map (fun x => 32 :: x) l) end.
Definition service_unit (exe listen : str) (upstream : option str) : str :=
  concat (map (fun l => l ++ nl)
    ([lit "[Unit]"; lit "Description=Conproxy Cache Proxy"; lit "After=network.target"; []; lit "[Service]"; lit "Type=simple"] ++
     [lit "ExecStart=" ++ unwords (exec_start exe listen upstream)] ++
     [lit "Restart=on-failure"; lit "RestartSec=5"; []; lit "[Install]"; lit "WantedBy=multi-user.target"])).

(** ** Distillation to files *)

Section Files.
Context `{JsonText}.

Definition file_suffix (hash_hex : str) : outcome str := if 8 <=? str_len hash_hex then slice_to 8 hash_hex else Ret hash_hex.
Definition base_name (e : DistillMessage) : outcome str :=
  let! suffix := file_suffix (dm_hash_hex e) in
  Ret (match slugify (dm_query e) with [] => lit "entry-" ++ suffix | slug => slug ++ lit "-" ++ suffix end).
Definition entry_md (e : DistillMessage) : str :=
  lit "# " ++ dm_query e ++ nl ++ nl ++
  lit "- **Context**: `" ++ dm_context_id e ++ lit "`" ++ nl ++
  lit "- **Upstream**: `" ++ dm_upstream_id e ++ lit "`" ++ nl ++
  lit "- **Hash**: `" ++ dm_hash_hex e ++ lit "`" ++ nl ++
  lit "- **Cached at (ms)**: " ++ show_Z (dm_cached_at_ms e) ++ nl ++
  lit "- **TTL extensions**: " ++ show_Z (dm_extended_count e) ++ nl ++
  nl ++ lit "## Response" ++ nl ++ nl ++ lit "```json" ++ nl ++
  from_utf8_lossy (dm_response_json e) ++ nl ++ lit "```" ++ nl ++
  (if bool_decide (dm_embedding e = []) then [] else nl ++ lit "_Embedding: " ++ show_Z (zlen (dm_embedding e)) ++ lit " floats_" ++ nl).
(** The files of one entry, by their names in the output directory. *)
Definition entry_files (md json : bool) (name : str) (e : DistillMessage) : list (str * bytes) :=
  (if md then [(name ++ lit ".md", as_bytes (entry_md e))] else []) ++ (if json then [(name ++ lit ".json", dm_response_json e)] else []).
Definition index_line (name : str) (e : DistillMessage) : str :=
  lit "- `" ++ name ++ lit "` " ++ [8212] ++ lit " context `" ++ dm_context_id e ++ lit "`, upstream `" ++ dm_upstream_id e ++ lit "`" ++ nl.
Fixpoint named_entries (l : list DistillMessage) : outcome (list (str * DistillMessage)) :=
  match l with
  | [] => Ret []
  | e :: l => let! n := base_name e in let! rest := named_entries l in Ret ((n, e) :: rest)
  end.
Definition index_md (l : list (str * DistillMessage)) : str :=
  lit "# Distill Index" ++ nl ++ nl ++ lit "Entries: " ++ show_Z (zlen l) ++ nl ++ nl ++ concat (map (fun x => index_line x.1 x.2) l).
Definition index_value (l : list (str * DistillMessage)) : Value :=
  VArray (map (fun x => VObject
    [(lit "cached_at_ms", VNumber (Some (dm_cached_at_ms x.2)) (show_Z (dm_cached_at_ms x.2)));
     (lit "context_id", VString (dm_context_id x.2));
     (lit "extended_count", VNumber (Some (dm_extended_count x.2)) (show_Z (dm_extended_count x.2)));
     (lit "has_embedding", VBool (negb (bool_decide (dm_embedding x.2 = [])))); (lit "hash_hex", VString (dm_hash_hex x.2));
     (lit "query", VString (dm_query x.2)); (lit "slug", VString x.1); (lit "upstream_id", VString (dm_upstream_id x.2))]) l).
(** Creating a file replaces one of the same name. *)
Definition write_all (fs : list (str * bytes)) (dir : gmap str bytes) : gmap str bytes :=
  fold_left (fun d f => <[f.1 := f.2]> d) fs dir.
(** The directory after the command, or the error of the printer. *)
Definition distill_files (format : str) (l : list DistillMessage) (dir : gmap str bytes) : outcome (option (gmap str bytes)) :=
  let both := str_eqb format (lit "both") in
  let md := str_eqb format (lit "md") || both in
  let json := str_eqb format (lit "json") || both in
  let! named := named_entries l in
  let dir := write_all (concat (map (fun x => entry_files md json x.1 x.2) named)) dir in
  let dir := if md then <[lit "_index.md" := as_bytes (index_md named)]> dir else dir in
  Ret (if json then (fun p => <[lit "_index.json" := as_bytes p]> dir) <$> json_to_string_pretty (index_value named) else Some dir).
Definition distill_dir (flag config : option str) : str := default (default (lit "distill") config) flag.
(** The program and the arguments of the command run afterwards. *)
Definition post_process (flag config : option str) : option (result (str * list str) unit) :=
  match or_else flag config with
  | Some cmdline => Some (match split_whitespace cmdline with [] => Err tt | program :: args => Ok (program, args) end)
  | None => None
  end.
End Files.

(** ** The files hold the entries *)

Section FilesExact.
Context `{JsonText}.

(** The last entry of a name. *)
Definition last_named (name : str) (l : list (str * DistillMessage)) : option DistillMessage :=
  fold_left (fun acc x => if str_eqb x.1 name then Some x.2 else acc) l None.
Lemma last_named_snoc name l x : last_named name (l ++ [x]) = if str_eqb x.1 name then Some x.2 else last_named name l.
Proof. unfold last_named. by rewrite fold_left_app. Qed.

Lemma md_not_json a b : a ++ lit ".md" <> b ++ lit ".json".
Proof. intros He%(f_equal (@last char)). rewrite !last_app in He. vm_compute in He. discriminate He. Qed.
Lemma md_inj a b : a ++ lit ".md" = b ++ lit ".md" <-> a = b.
Proof. split; [apply app_inv_tail|congruence]. Qed.
Lemma json_inj a b : a ++ lit ".json" = b ++ lit ".json" <-> a = b.
Proof. split; [apply app_inv_tail|congruence]. Qed.
Lemma insert_if {A} (k k' : str) (v : A) (d : gmap str A) : <[k := v]> d !! k' = if str_eqb k k' then Some v else d !! k'.
Proof. unfold str_eqb. case_bool_decide as Hk; [subst; by rewrite lookup_insert_eq|by rewrite lookup_insert_ne]. Qed.
Lemma str_eqb_iff a b c d : (a = b <-> c = d) -> str_eqb a b = str_eqb c d.
Proof. intros Hi. unfold str_eqb. by apply bool_decide_ext. Qed.
Lemma str_eqb_ne a b : a <> b -> str_eqb a b = false.
Proof. intros Hn. unfold str_eqb. by apply bool_decide_eq_false_2. Qed.

(** What writing one entry changes. *)
Lemma entry_written md json n e d :
  let d' := write_all (entry_files md json n e) d in
  (forall m, d' !! (m ++ lit ".md") = if md && str_eqb n m then Some (as_bytes (entry_md e)) else d !! (m ++ lit ".md")) /\
  (forall m, d' !! (m ++ lit ".json") = if json && str_eqb n m then Some (dm_response_json e) else d !! (m ++ lit ".json")) /\
  (forall f, f <> n ++ lit ".md" -> f <> n ++ lit ".json" -> d' !! f = d !! f).
Proof.
  assert (M1 : forall m, str_eqb (n ++ lit ".md") (m ++ lit ".md") = str_eqb n m) by (intros m; apply str_eqb_iff, md_inj).
  assert (M2 : forall m, str_eqb (n ++ lit ".json") (m ++ lit ".json") = str_eqb n m) by (intros m; apply str_eqb_iff, json_inj).
  assert (M3 : forall a b, str_eqb (a ++ lit ".md") (b ++ lit ".json") = false) by (intros a b; apply str_eqb_ne, md_not_json).
  assert (M4 : forall a b, str_eqb (a ++ lit ".json") (b ++ lit ".md") = false)
    by (intros a b; apply str_eqb_ne; intros He; symmetry in He; by apply md_not_json in He).
  destruct md, json; unfold entry_files, write_all; cbn [app fold_left fst snd andb]; split_and!; intros;
    rewrite ?insert_if, ?M1, ?M2, ?M3, ?M4, ?str_eqb_ne by congruence; done.
Qed.
Lemma write_all_app a b d : write_all (a ++ b) d = write_all b (write_all a d).
Proof. apply fold_left_app. Qed.

Definition entry_name (named : list (str * DistillMessage)) (f : str) : Prop :=
  exists n, n ∈ map fst named /\ (f = n ++ lit ".md" \/ f = n ++ lit ".json").
Lemma entries_written md json named d :
  let d' := write_all (concat (map (fun x => entry_files md json x.1 x.2) named)) d in
  (forall m e, last_named m named = Some e ->
     (md = true -> d' !! (m ++ lit ".md") = Some (as_bytes (entry_md e))) /\
     (json = true -> d' !! (m ++ lit ".json") = Some (dm_response_json e))) /\
  (forall f, ~ entry_name named f -> d' !! f = d !! f).
Proof.
  induction named as [|[n x] named IH] using rev_ind; cbv zeta; [done|].
  rewrite map_app, concat_app, write_all_app. cbn [map concat]. rewrite app_nil_r.
  set (d1 := write_all (concat (map _ named)) d) in *. destruct IH as [I1 I2].
  destruct (entry_written md json n x d1) as (W1 & W2 & W3). cbn [fst snd] in *. split.
  - intros m e. rewrite last_named_snoc. cbn [fst snd]. rewrite W1, W2. destruct (str_eqb n m) eqn:Em.
    + intros [= <-]. by split; intros ->.
    + rewrite !andb_false_r. apply I1.
  - intros f Hf. rewrite W3; [apply I2; intros (k & Hk & He); apply Hf; exists k; split; [rewrite map_app; set_solver|done]| |];
      intros ->; apply Hf; exists n; split; try (rewrite map_app; set_solver); tauto.
Qed.
Lemma named_entries_names l : forall named, named_entries l = Ret named ->
  map snd named = l /\ Forall (fun x => base_name x.2 = Ret x.1) named.
Proof.
  induction l as [|e l IH]; intros named; simpl; [by intros [= <-]|].
  destruct (base_name e) as [n|] eqn:En; [|done]. destruct (named_entries l) as [rest|]; [|done]. simpl. intros [= <-].
  destruct (IH rest eq_refl) as [Hs Hf]. split; [simpl; by rewrite Hs|by constructor].
Qed.
Lemma last_named_in m named e : last_named m named = Some e -> (m, e) ∈ named.
Proof.
  induction named as [|[n x] named IH] using rev_ind; [done|]. rewrite last_named_snoc. cbn [fst snd].
  unfold str_eqb. case_bool_decide as Hn; [intros [= <-]; subst; set_solver|]. intros Hl%IH. set_solver.
Qed.
(** The name of a file starts with a letter or a digit. *)
Lemma base_name_head e n : base_name e = Ret n -> exists c n', n = c :: n' /\ is_slug_char c = true.
Proof.
  unfold base_name. destruct (file_suffix (dm_hash_hex e)) as [s|]; [|done]. cbn [obind]. intros [= <-].
  destruct (slugify_form (dm_query e)) as [Hs _]. destruct (slugify (dm_query e)) as [|c r]; [by eexists _, _|].
  exists c, (r ++ lit "-" ++ s). split; [done|]. destruct Hs as [|Hs]; [done|]. cbn [slug_from] in Hs.
  destruct (c =? 45); [done|]. by apply andb_true_iff in Hs as [Hs _].
Qed.
Lemma not_index e n suffix : base_name e = Ret n -> n ++ lit suffix <> lit "_index.md" /\ n ++ lit suffix <> lit "_index.json".
Proof.
  intros Hn. destruct (base_name_head e n Hn) as (c & n' & -> & Hc).
  split; cbn [app]; intros [= He _]; rewrite He in Hc; vm_compute in Hc; discriminate Hc.
Qed.

(** Distilling to files is exact: the file of a name holds the last entry of that name,
    as markdown and as the exact bytes of its response, the index lists every entry, and
    no other file of the directory changes.  (Entries of the same slug whose hashes start
    with the same eight digits share a file.) *)
Theorem distill_files_exact (format : str) (l : list DistillMessage) (dir dir' : gmap str bytes)
    (HD : distill_files format l dir = Ret (Some dir')) :
  exists named, named_entries l = Ret named /\ map snd named = l /\
  (forall m e, last_named m named = Some e ->
     (format ∈ [lit "md"; lit "both"] -> dir' !! (m ++ lit ".md") = Some (as_bytes (entry_md e))) /\
     (format ∈ [lit "json"; lit "both"] -> dir' !! (m ++ lit ".json") = Some (dm_response_json e))) /\
  (format ∈ [lit "md"; lit "both"] -> dir' !! lit "_index.md" = Some (as_bytes (index_md named))) /\
  (forall f, ~ entry_name named f -> f <> lit "_index.md" -> f <> lit "_index.json" -> dir' !! f = dir !! f).
Proof.
  unfold distill_files in HD. destruct (named_entries l) as [named|] eqn:En; [|done]. cbn [obind] in HD. exists named.
  destruct (named_entries_names l named En) as [Hl Hb]. split; [done|]. split; [done|].
  set (md := str_eqb format (lit "md") || str_eqb format (lit "both")) in *.
  set (json := str_eqb format (lit "json") || str_eqb format (lit "both")) in *.
  assert (Hmd : format ∈ [lit "md"; lit "both"] -> md = true).
  { intros Hf. unfold md, str_eqb. apply orb_true_iff. rewrite !bool_decide_eq_true. set_solver. }
  assert (Hjs : format ∈ [lit "json"; lit "both"] -> json = true).
  { intros Hf. unfold json, str_eqb. apply orb_true_iff. rewrite !bool_decide_eq_true. set_solver. }
  clearbody md json. destruct (entries_written md json named dir) as [W1 W2].
  set (d := write_all (concat (map (fun x => entry_files md json x.1 x.2) named)) dir) in *. clearbody d.
  assert (Hd : (md = true -> dir' !! lit "_index.md" = Some (as_bytes (index_md named))) /\
               forall f, f <> lit "_index.md" -> f <> lit "_index.json" -> dir' !! f = d !! f).
  { assert (Hne : lit "_index.json" <> lit "_index.md") by (vm_compute; discriminate).
    revert HD Hne. generalize (lit "_index.md") (lit "_index.json"). intros i1 i2 HD Hne.
    destruct json; [destruct (json_to_string_pretty (index_value named)) as [p|]; [|done]|]; injection HD as <-;
      destruct md; split; intros; try done;
      repeat first [rewrite lookup_insert_eq|rewrite lookup_insert_ne by congruence]; done. }
  destruct Hd as [Hi Hd]. split_and!.
  - intros m e Hm. destruct (W1 m e Hm) as [H1 H2]. rewrite Forall_forall in Hb. pose proof (Hb _ (last_named_in _ _ _ Hm)) as Hbn.
    destruct (not_index _ _ ".md" Hbn) as [N1 N2], (not_index _ _ ".json" Hbn) as [N3 N4].
    rewrite !Hd by done. split; intros Hf; [by apply H1, Hmd|by apply H2, Hjs].
  - intros Hf. by apply Hi, Hmd.
  - intros f Hf N1 N2. rewrite Hd by done. by apply W2.
Qed.
End FilesExact.

(** ** Commands on contexts *)

Section ContextCommands.
Context `{CE : ContextEnv} {CL : ContextEnvLaws CE} {U : Type}.

(** Creating and switching to a context always makes it the current one, whether it
    existed or not; switching alone does so or reports that there is no such context. *)
Theorem cli_context_switches (clk : Clock) (id : str) (do_create : bool) (s : AppState U)
    (HM : 0 <= max_active_contexts (cm_config (context_manager s))) (HI : ctx_inv (context_manager s)) :
  match cli_context clk id true do_create s with
  | ([CtxSwitched previous now_], s') =>
      previous = current (context_manager s) /\ now_ = id /\ current (context_manager s') = id /\ ctx_inv (context_manager s')
  | ([CtxSwitchFailed _], s') => do_create = false /\ context_manager s' = context_manager s
  | _ => False
  end.
Proof.
  assert (Hsw : forall s1 : AppState U, 0 <= max_active_contexts (cm_config (context_manager s1)) -> ctx_inv (context_manager s1) ->
    match switch_context clk id s1 with
    | ([CtxSwitched previous now_], s') => previous = current (context_manager s1) /\ now_ = id /\
        current (context_manager s') = id /\ ctx_inv (context_manager s')
    | ([CtxSwitchFailed _], s') => active (context_manager s1) !! id = None /\ context_manager s' = context_manager s1
    | _ => False
    end).
  { intros s1 H1 H2. unfold switch_context, grpc_switch_context. pose proof (switch_ok clk id _ H1 H2) as Hs.
    destruct (switch clk id (context_manager s1)) as [[[]|e] m']; simpl.
    - destruct Hs as (Hi & Hc & _). rewrite Hc. by split_and!.
    - destruct Hs as (-> & _ & Hn & _). by split. }
  unfold cli_context. destruct do_create.
  - unfold grpc_create_context, ctx_create. case_decide as Hid.
    + specialize (Hsw (on_contexts (fun _ => context_manager s) s) HM HI). cbn beta iota zeta.
      destruct (switch_context clk id _) as [[|[] [|]] s']; try done. destruct Hsw as [Hn _]. simpl in Hn. by rewrite Hn in Hid; destruct Hid.
    + set (m1 := put_active _ _). cbn beta iota zeta. specialize (Hsw (on_contexts (fun _ => m1) s)).
      assert (H2 : ctx_inv m1) by (destruct HI as [H1 H2]; split; simpl; apply lookup_insert_is_Some'; by right).
      specialize (Hsw HM H2). destruct (switch_context clk id _) as [[|[] [|]] s']; try done.
      destruct Hsw as [Hn _]. simpl in Hn. by rewrite lookup_insert_eq in Hn.
  - specialize (Hsw s HM HI). destruct (switch_context clk id s) as [[|[] [|]] s']; try done. by destruct Hsw.
Qed.
End ContextCommands.

(** ** Examples *)

(** The threshold of a clearing by similarity has no effect: only expired entries go. *)
Lemma clear_ignores_threshold `{UnicodeCase} m input confirm : scope_clear true m false confirm input = Some (PostEvict true).
Proof. done. Qed.

(** * The remaining commands (src/src/bin/conproxy/main.rs, commands/proxy.rs, commands/seed.rs)
    and the checks of the host (src/src/proxy/socket_tuning.rs)

    Status, replication, the event stream, search, the list of scope phrases, the reply to a
    clearing and the distillation as a whole, with the reply of [/peer/status] (src/src/proxy/
    server/mod.rs) that two of them read.  Text is the lines printed, each ended by a
    newline; a reply that cannot be read as a document counts as null. *)

(** ** Replication and the event stream *)

(** Fields with no value are left out. *)
Definition present_field (k : string) (v : option Value) : list (str * Value) := match v with Some v => [field k v] | None => [] end.
(** The node and its state where replication runs; the subscribers and the sequence number
    of the event stream where that runs. *)
Definition handle_peer_status (peer : option (str * PeerState)) (entries : Z) (cdc : option (Z * Z)) : Value :=
  match peer with
  | Some (node, st) =>
      VObject ([field "enabled" (VBool true); field "node_id" (VString node); field "state" (VString (peer_state_as_str st));
                field "cache_entry_count" (json_usize entries)] ++
               present_field "cdc_subscribers" ((fun x => json_usize x.1) <$> cdc) ++ present_field "cdc_sequence" ((fun x => json_usize x.2) <$> cdc))
  | None => VObject [field "enabled" (VBool false)]
  end.

Definition as_bool (v : Value) : option bool := match v with VBool b => Some b | _ => None end.
Definition field_u64 (k : string) (v : Value) : option Z := and_then (v_get v k) as_u64.
Definition field_str (k : string) (v : Value) : option str := and_then (v_get v k) as_str.
Definition line_if (label : string) (v : option str) : list str := match v with Some s => [lit label ++ s] | None => [] end.
Definition opt_value (o : option Value) : Value := default VNull o.

Definition not_running_json : list str := [lit "{" ++ [34] ++ lit "error" ++ [34] ++ lit ": " ++ [34] ++ lit "Proxy is not running" ++ [34] ++ lit "}"].
(** [None] for a printer that fails. *)
Definition pretty `{JsonText} (v : Value) : option (list str) := (fun s => [s]) <$> json_to_string_pretty v.
Section Documents.
Context `{JsonText} `{MapOrder}.
Definition cli_peer (json : bool) (reply : option Value) : option (list str) :=
  match reply with
  | None => Some (if json then not_running_json else [lit "Proxy is not running."; lit "Start with: conproxy start"])
  | Some body =>
      if json then pretty body
      else if default false (and_then (v_get body "enabled") as_bool)
      then Some ([lit "Peer replication: enabled"] ++ line_if "  Node ID: " (field_str "node_id" body) ++
                 line_if "  State: " (field_str "state" body) ++ line_if "  Cache entries: " (show_Z <$> field_u64 "cache_entry_count" body) ++
                 line_if "  CDC subscribers: " (show_Z <$> field_u64 "cdc_subscribers" body) ++
                 line_if "  CDC sequence: " (show_Z <$> field_u64 "cdc_sequence" body))
      else Some [lit "Peer replication: disabled"]
  end.
Definition cdc_info (body : Value) : Value :=
  VObject [field "enabled" (VBool (bool_decide (is_Some (v_get body "cdc_sequence")))); field "sequence" (opt_value (v_get body "cdc_sequence"));
           field "subscribers" (opt_value (v_get body "cdc_subscribers"))].
Definition cli_cdc (json : bool) (reply : option Value) : option (list str) :=
  match reply with
  | None => Some (if json then not_running_json else [lit "Proxy is not running."])
  | Some body =>
      if json then pretty (cdc_info body)
      else match field_u64 "cdc_sequence" body with
           | Some seq => Some ([lit "CDC event stream: enabled"; lit "  Sequence: " ++ show_Z seq] ++
                               line_if "  Subscribers: " (show_Z <$> field_u64 "cdc_subscribers" body))
           | None => Some [lit "CDC event stream: disabled"]
           end
  end.

(** ** Status *)

(** [info] is the current context and the number of contexts, where the service answers. *)
Definition status_json (st : ProxyStatus) (info : option (str * Z)) : Value :=
  VObject ((match info with Some (c, n) => [field "context" (VString c); field "contexts_count" (json_usize n)] | None => [] end) ++
           [field "health" (opt_value (sx_health st)); field "pid" (opt_value (json_usize <$> sx_pid st)); field "running" (VBool (sx_running st))]).
Definition cli_status (to_string : Value -> str) (json : bool) (st : ProxyStatus) (info : option (str * Z)) : option (list str) :=
  let info := if sx_running st then info else None in
  let shown k label := match sx_health st with Some h => line_if label (to_string <$> v_get h k) | None => [] end in
  if json then pretty (status_json st info)
  else if sx_running st
  then Some ([lit "Proxy is running."] ++ line_if "  PID: " (show_Z <$> sx_pid st) ++
             match v_get (opt_value (sx_health st)) "uptime_secs" with Some u => [lit "  Uptime: " ++ to_string u ++ lit "s"] | None => [] end ++
             shown "cache_entries" "  Cache entries: " ++ shown "upstream_configured" "  Upstream configured: " ++
             shown "upstream_healthy" "  Upstream healthy: " ++
             match info with Some (c, n) => [lit "  Context: " ++ c; lit "  Contexts available: " ++ show_Z n] | None => [] end)
  else Some [lit "Proxy is not running."].

(** ** Scope phrases *)

Definition scope_list (json : bool) (c : ConfigFile) : option (list str) :=
  let seeds := effective_scope_seeds c in
  match seeds with
  | [] => Some (if json then [lit "[]"]
                else [lit "No scope phrases configured.";
                      lit "Add [[contexts.<id>.scope.weighted_phrases]] (or legacy proxy.scope) in config.";
                      lit "Tune via MCP (plan 09) or edit TOML " ++ [8212] ++ lit " CLI is list-only."])
  | _ =>
      if json
      then pretty (VArray (imap (fun i s => VObject [field "index" (json_usize (Z.of_nat i + 1)); field "phrase" (VString s); field "seed" (VString s)]) seeds))
      else Some ((lit "Scope phrases (" ++ show_Z (zlen seeds) ++ lit " configured):") ::
                 imap (fun i s => lit "  " ++ show_Z (Z.of_nat i + 1) ++ lit ". " ++ s) seeds)
  end.
End Documents.

(** What is printed of the reply to a clearing: the status and the document. *)
Inductive ClearOutput := Cleared (n : Z) | Evicted (n : Z) | ClearFailed (status : Z) | ClearUnreachable.
Definition clear_report (r : CacheRequest) (reply : option (Z * Value)) : ClearOutput :=
  match reply with
  | None => ClearUnreachable
  | Some (status, body) =>
      if status_is_success status
      then match r with
           | PostClear => Cleared (default 0 (field_u64 "cleared_entries" body))
           | PostEvict _ => Evicted (default 0 (field_u64 "evicted" body))
           end
      else ClearFailed status
  end.

(** ** Search *)

Inductive OutputFormat := FText | FJson | FMarkdown.
Inductive SearchOutput :=
| NoProxy | SearchUnreachable | SearchRefused (status : Z) | SearchUnreadable
| SearchDocument (r : QueryResponse) | NothingFound (query : str) | SearchFound (n : Z) (lines : list (Z * str * f32 * str)).
Definition search_body (query : str) (limit : Z) : QueryRequest :=
  {| query := query; top_k := Some limit; rq_priority := None; rq_upstream_id := None; upstream_type := None |}.
(** [post] gives the status and the response where it can be read. *)
Definition run_search (running : bool) (post : QueryRequest -> option (Z * option QueryResponse)) (query : str) (limit : Z) (f : OutputFormat)
  : outcome SearchOutput :=
  if negb running then Ret NoProxy
  else match post (search_body query limit) with
       | None => Ret SearchUnreachable
       | Some (status, r) =>
           if negb (status_is_success status) then Ret (SearchRefused status)
           else match r with
                | None => Ret SearchUnreadable
                | Some r =>
                    match f with
                    | FJson => Ret (SearchDocument r)
                    | _ => match results r with
                           | [] => Ret (NothingFound query)
                           | l => let! lines := search_lines 0 l in Ret (SearchFound (zlen l) lines)
                           end
                    end
                end
       end.

(** ** Distillation *)

Inductive DistillTierArg := TierPrimary | TierSemantic | TierBoth.
Definition tier_u32 (t : DistillTierArg) : Z := match t with TierPrimary => 0 | TierSemantic => 1 | TierBoth => 2 end.
Record DistillArgs := {
  da_context : option str; da_tier : DistillTierArg; da_limit : Z; da_include_stale : bool;
  da_output_dir : option str; da_cat : bool; da_post_process : option str
}.
Definition distill_request (a : DistillArgs) : DistillRequest :=
  {| dr_context := default [] (da_context a); dr_tier := tier_u32 (da_tier a); dr_limit := da_limit a; dr_include_stale := da_include_stale a |}.
Definition cat_lines (e : DistillMessage) : list str :=
  [lit "--- query: " ++ dm_query e ++ lit " ---"; lit "context_id: " ++ dm_context_id e; lit "upstream_id: " ++ dm_upstream_id e;
   lit "hash: " ++ dm_hash_hex e; lit "cached_at_ms: " ++ show_Z (dm_cached_at_ms e); lit "response_json:";
   from_utf8_lossy (dm_response_json e)] ++
  (if bool_decide (dm_embedding e = []) then [] else [lit "embedding: [" ++ show_Z (zlen (dm_embedding e)) ++ lit " floats]"]) ++ [[]].

Inductive DistillOutput := DistillNothing | DistillCat (lines : list str) | DistillWrote (n : Z) (dir : str) (ran : option (str * list str)).
(** The output with the directories after it; [None] for an error.  A command to run
    afterwards that is empty fails when the files are written. *)
Definition run_distill `{JsonText} `{CacheEnv} (clk : Clock) (cfg : DistillSettings) (a : DistillArgs) (s : CacheStore)
    (dirs : gmap str (gmap str bytes)) : outcome (option DistillOutput * gmap str (gmap str bytes)) :=
  let! l := get_cache_distill clk (distill_request a) s in
  match l with
  | [] => Ret (Some DistillNothing, dirs)
  | _ =>
      if da_cat a then Ret (Some (DistillCat (concat (map cat_lines l))), dirs)
      else
        let dir := distill_dir (da_output_dir a) (ds_output_dir cfg) in
        let! files := distill_files (default (lit "md") (ds_format cfg)) l (default ∅ (dirs !! dir)) in
        match files with
        | None => Ret (None, dirs)
        | Some files =>
            let dirs := <[dir := files]> dirs in
            Ret (match post_process (da_post_process a) (ds_post_process_cmd cfg) with
                 | None => Some (DistillWrote (zlen l) dir None)
                 | Some (Ok c) => Some (DistillWrote (zlen l) dir (Some c))
                 | Some (Err _) => None
                 end, dirs)
        end
  end.

(** ** The command line *)

Inductive ScopeCommands := ScopeList (json : bool) | ScopeClear (low_seed_sim : bool) (min_similarity : option f32) (all confirm : bool).
Inductive Commands :=
| CStart (a : StartArgs) (daemon : bool) (config : option str)
| CStop
| CStatus (json : bool) | CPeer (json : bool) | CCdc (json : bool) | CContexts (json : bool)
| CContext (id : str) (switch create : bool) (upstream collection : option str) (json : bool)
| CInstall (listen upstream : option str) (start : bool)
| CUninstall (purge : bool)
| CLogs (lines : Z) (follow : bool)
| CDistill (a : DistillArgs)
| CScope (c : ScopeCommands) | CSeed (c : ScopeCommands)
| CSearch (query : str) (limit : Z) (format : OutputFormat)
| CMcp.
(** The name of a command on the command line: the constructor in kebab case. *)
Definition command_name (c : Commands) : str :=
  lit (match c with
       | CStart _ _ _ => "start" | CStop => "stop" | CStatus _ => "status" | CPeer _ => "peer" | CCdc _ => "cdc"
       | CContexts _ => "contexts" | CContext _ _ _ _ _ _ => "context" | CInstall _ _ _ => "install" | CUninstall _ => "uninstall"
       | CLogs _ _ => "logs" | CDistill _ => "distill" | CScope _ => "scope" | CSeed _ => "seed" | CSearch _ _ _ => "search"
       | CMcp => "mcp"
       end).

(** ** The checks of the host *)

Section HostChecks.
(** The content of a file under /proc/sys. *)
Context (read_file : str -> option str).
Definition read_sysctl (path : string) : option str := trim <$> read_file (lit path).
Definition sysctl_minimums : list (string * Z) :=
  [("/proc/sys/net/core/somaxconn", 4096); ("/proc/sys/net/ipv4/tcp_max_syn_backlog", 4096);
   ("/proc/sys/net/core/netdev_max_backlog", 5000)]%string.
Definition sysctl_exact : list (string * str) :=
  [("/proc/sys/net/ipv4/tcp_slow_start_after_idle"%string, lit "0"); ("/proc/sys/net/ipv4/tcp_tw_reuse"%string, lit "1")].
Definition sysctl_number (path : string) : option Z := and_then (read_sysctl path) parse_usize.
(** The settings that are warned of, in order. *)
Definition check_sysctl_recommendations : list string :=
  omap (fun c => match sysctl_number c.1 with Some v => if v <? c.2 then Some c.1 else None | None => None end) sysctl_minimums ++
  omap (fun c => match read_sysctl c.1 with Some v => if str_eqb (trim v) c.2 then None else Some c.1 | None => None end) sysctl_exact ++
  match sysctl_number "/proc/sys/net/ipv4/tcp_fin_timeout" with
  | Some v => if 15 <? v then ["/proc/sys/net/ipv4/tcp_fin_timeout"%string] else [] | None => [] end ++
  match sysctl_number "/proc/sys/net/ipv4/tcp_notsent_lowat" with
  | Some v => if (v =? u64_max) || (131072 <? v) then ["/proc/sys/net/ipv4/tcp_notsent_lowat"%string] else [] | None => [] end.
End HostChecks.
(** [rlimit] is the soft limit of open files, where it can be read. *)
Definition check_fd_limit (rlimit : option Z) : option bool := (fun n => n <? 4096) <$> rlimit.

(** ** Properties *)

(** What the two commands show of a node: replication exactly where it runs, and the event
    stream exactly where both it and replication run. *)
Theorem peer_commands_exact `{JsonText} peer entries cdc :
  let body := handle_peer_status peer entries cdc in
  (default false (and_then (v_get body "enabled") as_bool) = true <-> is_Some peer) /\
  (is_Some (field_u64 "cdc_sequence" body) <-> is_Some peer /\ is_Some cdc) /\
  (v_get (cdc_info body) "enabled" = Some (VBool true) <-> is_Some (field_u64 "cdc_sequence" body)) /\
  (forall node st subs seq, peer = Some (node, st) -> cdc = Some (subs, seq) ->
     cli_cdc false (Some body) = Some [lit "CDC event stream: enabled"; lit "  Sequence: " ++ show_Z seq; lit "  Subscribers: " ++ show_Z subs] /\
     cli_peer false (Some body) =
       Some [lit "Peer replication: enabled"; lit "  Node ID: " ++ node; lit "  State: " ++ peer_state_as_str st;
             lit "  Cache entries: " ++ show_Z entries; lit "  CDC subscribers: " ++ show_Z subs; lit "  CDC sequence: " ++ show_Z seq]).
Proof.
  destruct peer as [[node st]|], cdc as [[subs seq]|]; cbv zeta; split_and!; try (split; [intros Hx|intros Hx]); try done; try (by eexists);
    try (by destruct Hx as [[? ?] [? ?]]); try (by destruct Hx as [? ?]); try (intros; simplify_eq; done);
    try (split; by eexists).
Qed.

(** The event stream of a node that does not replicate is shown as disabled. *)
Lemma cdc_hidden_without_peers `{JsonText} entries subs seq :
  cli_cdc false (Some (handle_peer_status None entries (Some (subs, seq)))) = Some [lit "CDC event stream: disabled"].
Proof. done. Qed.

(** A distillation touches no directory but the one asked for, by the flag, the settings or
    the default; printing and an empty cache touch none. *)
Theorem distill_touches_its_directory `{JsonText} `{CacheEnv} clk cfg a s dirs out dirs' :
  run_distill clk cfg a s dirs = Ret (out, dirs') ->
  (forall d, d <> distill_dir (da_output_dir a) (ds_output_dir cfg) -> dirs' !! d = dirs !! d) /\
  match out with
  | Some DistillNothing | Some (DistillCat _) => dirs' = dirs
  | Some (DistillWrote n d _) => d = distill_dir (da_output_dir a) (ds_output_dir cfg) /\ is_Some (dirs' !! d) /\ 0 < n
  | None => True
  end.
Proof.
  unfold run_distill. destruct (get_cache_distill _ _ _) as [l|]; [|done]. cbn [obind]. destruct l as [|m l]; [by intros [= <- <-]|].
  destruct (da_cat a); [by intros [= <- <-]|]. destruct (distill_files _ _ _) as [[files|]|]; [|by intros [= <- <-]|done].
  intros [= <- <-]. split; [intros d Hd; by rewrite lookup_insert_ne|].
  destruct (post_process _ _) as [[c|]|]; [|done|]; (split; [done|]; split; [rewrite lookup_insert_eq; by eexists|unfold zlen; cbn [length]; lia]).
Qed.

(** The installed service starts a subcommand of the name "proxy", which no command has. *)
Lemma service_not_parsed exe listen upstream c :
  exists args, exec_start exe listen upstream = exe :: lit "proxy" :: args /\ command_name c <> lit "proxy".
Proof. eexists. split; [reflexivity|]. destruct c; vm_compute; discriminate. Qed.
