(* ===== verification/Providers.v ===== *)
(** * Embedding providers (src/src/embedding/)

    The providers behind the caching embedder: three services over HTTP and a local model.
    A service is a function of the request; the decoders of its answers, the tokenizer and
    the local model are parameters.  The tensors of the local model are nested lists, a
    row of token vectors for each text. *)

From Stdlib Require Import SpecFloat.
From S2P Require Import Prelude Floats Text Types Scope Upstream Config Vendors.
Open Scope Z_scope.
Open Scope conproxy_scope.

Inductive ProviderType := Onnx | OpenAi | Cohere | HuggingFace.
Inductive ProviderError :=
| InvalidConfig (what : string) | ModelNotInstalled | HttpError | ApiError (status : Z) (body : str) | BadReply (e : str)
| NoEmbeddings | WrongCount (got expected : Z) | TokenizationFailed | InferenceFailed.

Definition ProviderType_from_str (s : str) : option ProviderType :=
  let l := to_ascii_lowercase s in
  if str_eqb l (lit "onnx") then Some Onnx else if str_eqb l (lit "openai") then Some OpenAi
  else if str_eqb l (lit "cohere") then Some Cohere
  else if str_eqb l (lit "huggingface") || str_eqb l (lit "hf") then Some HuggingFace else None.

(** [${VAR}] names a variable; one that is not set counts as empty. *)
Definition env_reference (env : str -> option str) (s : str) : str :=
  match strip_prefix [36; 123] s with
  | Some r => match reverse r with
              | 125 :: v => default [] (env (reverse v))
              | _ => s
              end
  | None => s
  end.

(** ** The services *)

Record ApiEmbedder := { ap_kind : ProviderType; ap_key : str; ap_model : str; ap_base_url : str; ap_dimensions : Z }.
Definition default_base_url (k : ProviderType) : str :=
  match k with
  | OpenAi => lit "https://api.openai.com/v1"
  | Cohere => lit "https://api.cohere.com/v1"
  | _ => lit "https://api-inference.huggingface.com/models"
  end.
Definition ApiEmbedder_new (k : ProviderType) (key model : str) (base_url : option str) : ApiEmbedder :=
  {| ap_kind := k; ap_key := key; ap_model := model; ap_base_url := default (default_base_url k) base_url; ap_dimensions := 0 |}.
Definition endpoint (e : ApiEmbedder) : str :=
  ap_base_url e ++ match ap_kind e with OpenAi => lit "/embeddings" | Cohere => lit "/embed" | _ => lit "/" ++ ap_model e end.
Definition embed_body (e : ApiEmbedder) (text : str) : Value :=
  match ap_kind e with
  | OpenAi => VObject [field "input" (VString text); field "model" (VString (ap_model e))]
  | Cohere => VObject [field "input_type" (VString (lit "search_query")); field "model" (VString (ap_model e));
                       field "texts" (json_strs [text])]
  | _ => VObject [field "inputs" (VString text); field "options" (VObject [field "wait_for_model" (VBool true)])]
  end.
Definition batch_body (e : ApiEmbedder) (texts : list str) : Value :=
  match ap_kind e with
  | OpenAi => VObject [field "input" (json_strs texts); field "model" (VString (ap_model e))]
  | Cohere => VObject [field "input_type" (VString (lit "search_document")); field "model" (VString (ap_model e));
                       field "texts" (json_strs texts)]
  | _ => VObject [field "inputs" (json_strs texts); field "options" (VObject [field "wait_for_model" (VBool true)])]
  end.
(** The dimension of the first answer is kept. *)
Definition learn_dimension (n : Z) (e : ApiEmbedder) : ApiEmbedder :=
  if ap_dimensions e =? 0
  then {| ap_kind := ap_kind e; ap_key := ap_key e; ap_model := ap_model e; ap_base_url := ap_base_url e; ap_dimensions := n |}
  else e.

Section Services.
(** The reply to a POST with a bearer token: the status and the body. *)
Context (post : str -> str -> Value -> option (Z * str)).
(** The answers, with the index of each vector where the service gives one. *)
Context (decode_indexed : str -> result (list (Z * list f32)) str) (decode_vectors : str -> result (list (list f32)) str).

Definition call (e : ApiEmbedder) (body : Value) : result str ProviderError :=
  match post (endpoint e) (ap_key e) body with
  | None => Err HttpError
  | Some (status, text) => if status_is_success status then Ok text else Err (ApiError status text)
  end.
(** The vectors in the order of the answer, for one text, and of their indices, for several. *)
Definition answer_vectors (sorted : bool) (e : ApiEmbedder) (text : str) : result (list (list f32)) ProviderError :=
  match ap_kind e with
  | OpenAi =>
      match decode_indexed text with
      | Ok l => Ok (map snd (if sorted then sort_by (fun a b => a.1 <=? b.1) l else l))
      | Err m => Err (BadReply m)
      end
  | _ => match decode_vectors text with Ok l => Ok l | Err m => Err (BadReply m) end
  end.
Definition api_embed (text : str) (e : ApiEmbedder) : result (list f32) ProviderError * ApiEmbedder :=
  match call e (embed_body e text) with
  | Err x => (Err x, e)
  | Ok reply =>
      match answer_vectors false e reply with
      | Err x => (Err x, e)
      | Ok [] => (Err NoEmbeddings, e)
      | Ok (v :: _) => (Ok v, learn_dimension (zlen v) e)
      end
  end.
Definition api_embed_batch (texts : list str) (e : ApiEmbedder) : result (list (list f32)) ProviderError * ApiEmbedder :=
  match texts with
  | [] => (Ok [], e)
  | _ =>
      match call e (batch_body e texts) with
      | Err x => (Err x, e)
      | Ok reply =>
          match answer_vectors true e reply with
          | Err x => (Err x, e)
          | Ok l =>
              if negb (zlen l =? zlen texts) then (Err (WrongCount (zlen l) (zlen texts)), e)
              else (Ok l, learn_dimension (match l with v :: _ => zlen v | [] => 0 end) e)
          end
      end
  end.
End Services.

Record ProviderConfig := { pf_provider : ProviderType; pf_model_name : str; pf_api_key : option str; pf_base_url : option str }.
(** The local model needs its feature and its files. *)
Definition create_provider (env : str -> option str) (embed_feature : bool) (installed : str -> bool)
    (load : str -> result unit ProviderError) (client_ok : bool) (c : ProviderConfig) : result (unit + ApiEmbedder) ProviderError :=
  let api (what : string) :=
    match pf_api_key c with
    | None => Err (InvalidConfig what)
    | Some k => if client_ok then Ok (inr (ApiEmbedder_new (pf_provider c) (env_reference env k) (pf_model_name c) (pf_base_url c)))
                else Err HttpError
    end in
  match pf_provider c with
  | Onnx =>
      if negb embed_feature then Err (InvalidConfig "ONNX provider requires the 'embed' feature")
      else if negb (installed (pf_model_name c)) then Err ModelNotInstalled
      else match load (pf_model_name c) with Ok _ => Ok (inl tt) | Err e => Err e end
  | OpenAi => api "OpenAI provider requires api_key"%string
  | Cohere => api "Cohere provider requires api_key"%string
  | HuggingFace => api "HuggingFace provider requires api_key"%string
  end.

(** ** The local model *)

Definition f32_sqrt (x : f32) : f32 := SFsqrt F32.prec F32.emax x.
Definition vec_add (a b : list f32) : list f32 := zip_with F32.add a b.
(** One token: counted with its mask, where that is positive. *)
Definition pool_step (acc : list f32 * f32) (tm : list f32 * Z) : list f32 * f32 :=
  let m := F32.of_Z tm.2 in
  if f_gt m f_zero then (vec_add acc.1 (map (fun x => F32.mul x m) tm.1), F32.add acc.2 m) else acc.
Definition pool_row (hidden : nat) (tokens : list (list f32)) (mask : list Z) : list f32 :=
  let '(sum, count) := fold_left pool_step (zip tokens mask) (replicate hidden f_zero, f_zero) in
  if f_gt count f_zero then map (fun x => F32.div x count) sum else replicate hidden f_zero.
Definition mean_pool (hidden : nat) (rows : list (list (list f32))) (masks : list (list Z)) : list (list f32) :=
  zip_with (pool_row hidden) rows masks.
Definition normalize (v : list f32) : list f32 :=
  let norm := f32_sqrt (fold_left F32.add (map (fun x => F32.mul x x) v) f_zero) in
  if f_gt norm f_zero then map (fun x => F32.div x norm) v else v.

Section Local.
(** The token ids of a text with their mask, and the vectors of the tokens of each row. *)
Context (encode : str -> option (list Z * list Z)) (hidden : nat).
Context (session : list (list Z) -> list (list Z) -> option (list (list (list f32)))).

Definition embed_local (text : str) : result (list f32) ProviderError :=
  match encode text with
  | None => Err TokenizationFailed
  | Some (ids, mask) =>
      match session [ids] [mask] with
      | Some rows => match mean_pool hidden rows [mask] with v :: _ => Ok (normalize v) | [] => Err InferenceFailed end
      | None => Err InferenceFailed
      end
  end.
Definition pad_to (n : nat) (l : list Z) : list Z := l ++ replicate (n - length l) 0.
Definition embed_batch_local (texts : list str) : result (list (list f32)) ProviderError :=
  match texts with
  | [] => Ok []
  | [t] => match embed_local t with Ok v => Ok [v] | Err e => Err e end
  | _ =>
      match mapM encode texts with
      | None => Err TokenizationFailed
      | Some encs =>
          let max_len := foldr (fun e n => Nat.max (length e.1) n) O encs in
          let ids := map (fun e => pad_to max_len e.1) encs in
          let masks := map (fun e => pad_to max_len e.2) encs in
          match session ids masks with
          | Some rows => Ok (map normalize (mean_pool hidden rows masks))
          | None => Err InferenceFailed
          end
      end
  end.
End Local.

(** ** Batches are the texts one by one

    The answer of a service is put back in the order of the texts, whatever its order; a
    padded batch of the local model gives each text the vector it has alone. *)

Lemma indexed_sorted {A} (vs : list A) (i : nat) : StronglySorted (fun a b => a.1 <=? b.1 = true) (zip (map Z.of_nat (seq i (length vs))) vs).
Proof.
  revert i; induction vs as [|v vs IH]; intros i; cbn; constructor; [apply IH|].
  apply Forall_forall. intros [k x] Hx%elem_of_zip_l%list_elem_of_fmap. destruct Hx as (j & -> & Hj%elem_of_seq). cbn. lia.
Qed.
Definition indexed {A} (vs : list A) : list (Z * A) := zip (map Z.of_nat (seq 0 (length vs))) vs.
Lemma indexed_keys {A} (vs : list A) : NoDup (map fst (indexed vs)).
Proof. unfold indexed. rewrite fst_zip by (rewrite length_map, length_seq; lia). apply (NoDup_fmap_2 Z.of_nat), NoDup_seq. Qed.
Lemma indexed_values {A} (vs : list A) : map snd (indexed vs) = vs.
Proof. unfold indexed. apply snd_zip. rewrite length_map, length_seq. lia. Qed.

(** A list sorted by distinct keys is the only one of its elements. *)
Lemma sorted_unique {A} (l k : list (Z * A)) :
  StronglySorted (fun a b => a.1 <=? b.1 = true) l -> StronglySorted (fun a b => a.1 <=? b.1 = true) k ->
  NoDup (map fst k) -> l ≡ₚ k -> l = k.
Proof.
  revert l; induction k as [|a k IH]; intros l Hl Hk Hn Hp.
  { by apply Permutation_nil_r in Hp. }
  destruct l as [|b l]; [by apply Permutation_nil_l in Hp|].
  inversion Hl as [|? ? Hl' Fl]; inversion Hk as [|? ? Hk' Fk]; inversion Hn as [|? ? Hni Hn']; subst.
  assert (b = a) as ->.
  { assert (Hb : b ∈ a :: k) by (rewrite <- Hp; left). assert (Ha : a ∈ b :: l) by (rewrite Hp; left).
    rewrite !elem_of_cons in *. destruct Hb as [|Hb], Ha as [|Ha]; try done.
    rewrite Forall_forall in Fl, Fk. specialize (Fl _ Ha). specialize (Fk _ Hb). cbn in *.
    destruct Hni. apply list_elem_of_fmap. exists b. split; [lia|done]. }
  f_equal. apply IH; try done. by eapply Permutation_cons_inv.
Qed.
Lemma sort_indexed {A} (vs : list A) l : l ≡ₚ indexed vs -> sort_by (fun a b => a.1 <=? b.1) l = indexed vs.
Proof.
  intros Hp. apply sorted_unique; [| |apply indexed_keys|by rewrite sort_by_perm].
  - apply sort_by_sorted; [intros x y|intros x y z]; rewrite ?Z.leb_gt, ?Z.leb_le; lia.
  - apply indexed_sorted.
Qed.

(** The vectors of a batch come back in the order of its texts, in whatever order the
    service lists them, and the first one's length is the dimension from then on. *)
Theorem openai_batch_ordered post di dv texts e status reply (l : list (Z * list f32)) (v : list f32) (vs : list (list f32)) :
  ap_kind e = OpenAi -> post (endpoint e) (ap_key e) (batch_body e texts) = Some (status, reply) -> status_is_success status = true ->
  di reply = Ok l -> l ≡ₚ indexed (v :: vs) -> length texts = length (v :: vs) ->
  api_embed_batch post di dv texts e = (Ok (v :: vs), learn_dimension (zlen v) e) /\
  ap_dimensions (learn_dimension (zlen v) e) = if ap_dimensions e =? 0 then zlen v else ap_dimensions e.
Proof.
  intros Hk Hp Hs Hd Hl Hn. split; [|by unfold learn_dimension; case_match].
  destruct texts as [|t ts]; [done|]. unfold api_embed_batch, call. rewrite Hp, Hs. unfold answer_vectors. rewrite Hk, Hd.
  rewrite (sort_indexed _ _ Hl), indexed_values. by rewrite (proj2 (Z.eqb_eq _ _)) by (unfold zlen; lia).
Qed.

(** Whatever a service answers, a batch that succeeds has one vector for each text, and a
    batch of no text asks nothing. *)
Lemma api_batch_count post di dv texts e vs e' :
  api_embed_batch post di dv texts e = (Ok vs, e') -> length vs = length texts.
Proof.
  unfold api_embed_batch. destruct texts as [|t ts]; [by intros [= <- <-]|]. destruct (call _ _ _); [|done].
  destruct (answer_vectors _ _ _ _ _); [|done]. destruct (negb _) eqn:E; [done|]. intros [= <- _].
  apply negb_false_iff, Z.eqb_eq in E. unfold zlen in E. lia.
Qed.

(** What the tokenizer and the model promise: a mask of the length of the ids, and, for a
    padded batch, the vectors of a text's own tokens whatever is padded after them. *)
Class MaskedModel (encode : str -> option (list Z * list Z)) (session : list (list Z) -> list (list Z) -> option (list (list (list f32))))
    (vectors : list Z * list Z -> list (list f32)) : Prop := {
  mask_length t e : encode t = Some e -> length e.2 = length e.1;
  vectors_length e : length (vectors e) = length e.1;
  session_rows encs n : Forall (fun e => (length e.1 <= n)%nat) encs ->
    exists fill, Forall2 (fun (e : list Z * list Z) f => length f = (n - length e.1)%nat) encs fill /\
      session (map (fun e => pad_to n e.1) encs) (map (fun e => pad_to n e.2) encs) = Some (zip_with (fun e f => vectors e ++ f) encs fill);
}.

Lemma pool_masked_out toks n acc : fold_left pool_step (zip toks (replicate n 0)) acc = acc.
Proof. revert toks acc; induction n as [|n IH]; intros [|t toks] acc; cbn; done || apply IH. Qed.
(** What is padded does not count in the mean. *)
Lemma pool_row_padded hidden toks fill mask n : length toks = length mask -> pool_row hidden (toks ++ fill) (pad_to n mask) = pool_row hidden toks mask.
Proof. intros H. unfold pool_row, pad_to. rewrite zip_with_app by done. by rewrite fold_left_app, pool_masked_out. Qed.
Lemma pad_to_own l : pad_to (length l) l = l.
Proof. unfold pad_to. by rewrite Nat.sub_diag, app_nil_r. Qed.
Lemma max_len_bound (encs : list (list Z * list Z)) :
  Forall (fun e => (length e.1 <= foldr (fun e n => Nat.max (length e.1) n) O encs)%nat) encs.
Proof. induction encs as [|e encs IH]; cbn; constructor; [lia|]. eapply Forall_impl; [exact IH|]. cbn. lia. Qed.

Section LocalProps.
Context (encode : str -> option (list Z * list Z)) (hidden : nat).
Context (session : list (list Z) -> list (list Z) -> option (list (list (list f32)))) (vectors : list Z * list Z -> list (list f32)).
Context {M : MaskedModel encode session vectors}.

Lemma embed_local_alone t e : encode t = Some e -> embed_local encode hidden session t = Ok (normalize (pool_row hidden (vectors e) e.2)).
Proof.
  intros He. unfold embed_local. rewrite He. destruct e as [ids mask]. pose proof (mask_length _ _ He) as Hm. cbn in Hm.
  destruct (session_rows [(ids, mask)] (length ids)) as (fill & Hf & Hs); [by repeat constructor|].
  inversion Hf as [|? f ? ? Hlen Hnil]; subst. inversion Hnil; subst. cbn [map zip_with fst snd] in Hlen, Hs.
  rewrite pad_to_own in Hs. rewrite <- Hm in Hs, Hlen. rewrite pad_to_own in Hs. rewrite Hs. destruct f; [|cbn in Hlen; lia].
  cbn. by rewrite app_nil_r.
Qed.
Lemma mean_pool_padded encs fill n : Forall (fun e => length e.2 = length e.1) encs -> length fill = length encs ->
  mean_pool hidden (zip_with (fun e f => vectors e ++ f) encs fill) (map (fun e => pad_to n e.2) encs) =
  map (fun e => pool_row hidden (vectors e) e.2) encs.
Proof.
  unfold mean_pool. intros H. revert fill. induction H as [|e encs He _ IH]; intros [|f fill] Hl; cbn in *; try done.
  f_equal; [|apply IH; lia]. apply pool_row_padded. rewrite (vectors_length e). lia.
Qed.

(** A batch gives each text the vector it has alone; it fails exactly when a text has no
    tokens. *)
Theorem local_batch_exact texts :
  match mapM encode texts with
  | Some _ => exists vs, embed_batch_local encode hidden session texts = Ok vs /\
                Forall2 (fun t v => embed_local encode hidden session t = Ok v) texts vs
  | None => embed_batch_local encode hidden session texts = Err TokenizationFailed
  end.
Proof.
  destruct (mapM encode texts) as [encs|] eqn:E.
  - assert (H2 : Forall2 (fun t e => encode t = Some e) texts encs) by by apply mapM_Some_1.
    assert (Hvs : Forall2 (fun t v => embed_local encode hidden session t = Ok v) texts
                    (map normalize (map (fun e => pool_row hidden (vectors e) e.2) encs))).
    { rewrite map_map. clear E. induction H2; cbn; constructor; [by apply embed_local_alone|done]. }
    eexists. split; [|exact Hvs]. destruct texts as [|t [|t' ts]].
    + inversion H2; subst. done.
    + cbn. inversion Hvs as [|? v ? ? Hv Hn]; subst. inversion Hn; subst. by rewrite Hv.
    + unfold embed_batch_local. rewrite E.
      destruct (session_rows encs _ (max_len_bound encs)) as (fill & Hf & ->). rewrite mean_pool_padded; [done| |].
      * clear -H2 M. induction H2; constructor; [by eapply mask_length|done].
      * symmetry. by eapply Forall2_length.
  - unfold embed_batch_local. destruct texts as [|t [|t' ts]]; [done| |by rewrite E].
    unfold embed_local. cbn in E. by destruct (encode t).
Qed.
End LocalProps.

(** A model that meets the promise: a token for each byte, its vector made of the byte. *)
Definition byte_encode (t : str) : option (list Z * list Z) := if (length t =? 0)%nat then None else Some (t, replicate (length t) 1).
Definition byte_vector (id : Z) : list f32 := [F32.of_Z id; F32.of_Z 1].
Definition byte_vectors (e : list Z * list Z) : list (list f32) := map byte_vector e.1.
Definition byte_session (ids masks : list (list Z)) : option (list (list (list f32))) := Some (map (map byte_vector) ids).
#[export] Instance byte_model : MaskedModel byte_encode byte_session byte_vectors.
Proof.
  constructor.
  - intros t e. unfold byte_encode. case_match; [done|]. intros [= <-]. cbn. apply length_replicate.
  - intros e. apply length_map.
  - intros encs n _. exists (map (fun e => replicate (n - length e.1) (byte_vector 0)) encs). split.
    + induction encs as [|e encs IH]; cbn; constructor; [apply length_replicate|done].
    + unfold byte_session. f_equal. induction encs as [|e encs IH]; cbn; [done|]. f_equal; [|apply IH].
      unfold pad_to, byte_vectors. rewrite map_app. f_equal. apply fmap_replicate.
Qed.

Lemma local_batch_exact_witness :
  is_Some (mapM byte_encode [lit "ab"; lit "c"]) /\
  exists vs, embed_batch_local byte_encode 2 byte_session [lit "ab"; lit "c"] = Ok vs /\
    Forall2 (fun t v => embed_local byte_encode 2 byte_session t = Ok v) [lit "ab"; lit "c"] vs.
Proof.
  split; [by eexists|].
  exact (local_batch_exact byte_encode 2 byte_session byte_vectors [lit "ab"; lit "c"]).
Defined.

Definition openai_sample : ApiEmbedder := ApiEmbedder_new OpenAi (lit "key") (lit "text-embedding-3-small") None.
(** Two vectors listed last first. *)
Lemma openai_batch_ordered_witness :
  exists post di dv, 
    api_embed_batch post di dv [lit "a"; lit "b"] openai_sample = (Ok [[f_zero]; [F32.of_Z 1]], learn_dimension 1 openai_sample) /\
    ap_dimensions (learn_dimension 1 openai_sample) = 1.
Proof.
  exists (fun _ _ _ => Some (200, [])), (fun _ => Ok [(1, [F32.of_Z 1]); (0, [f_zero])]), (fun _ => Err []).
  apply (openai_batch_ordered _ _ _ [lit "a"; lit "b"] openai_sample 200 [] [(1, [F32.of_Z 1]); (0, [f_zero])] [f_zero] [[F32.of_Z 1]]);
    try reflexivity. apply Permutation_swap.
Defined.
