(* ===== verification/Http.v ===== *)
(** * The HTTP server (src/src/proxy/server/mod.rs, src/src/proxy/server/admin.rs)

    The table of routes with the layers that guard them, the read-only table of the
    dashboard, what a reading request leaves, and the wait for requests at the end.  The
    router is axum's: a parameter matches one segment that is not empty, a wildcard the
    rest of the path, and a GET route also serves HEAD; a request that no route serves
    reaches no handler. *)

From Stdlib Require Import SpecFloat.
From S2P Require Import Prelude Floats Text Types Drift Cdc Cache CacheSweep CacheProps Circuit Priority Scope Coalesce Retry.
From S2P Require Import ConnPool Upstream Pool Cascade Auth Adaptive Federated Metrics Context Refresh Batch Pipeline Peer.
From S2P Require Import Settings Config Admin Handlers Grpc AuditLog Start Status Prometheus PrometheusProps.
Open Scope Z_scope.
Open Scope conproxy_scope.

Inductive HttpMethod := GET | HEAD | POST | DELETE | OtherMethod.
#[export] Instance HttpMethod_eq_dec : EqDecision HttpMethod.
Proof. solve_decision. Defined.

Inductive Handler :=
| HQuery | HBatch | HFederated
| HStats | HQueryStats | HMetrics | HAudit | HCircuit | HQueue | HClients
| HCacheClear | HCacheWarmup | HCacheEvict | HCacheIntegrity | HCacheUpstreams | HCacheEntries
| HReload | HPause | HResume | HMetricsReset | HAgentsList | HAgentsCreate | HAgentsDelete | HAgentsRotate
| HContextsList | HContextCurrent | HContextSwitch | HContextCreate | HContextStats
| HHealth | HReady | HPool | HPrometheus | HPeerStatus | HTokioMetrics | HTokioDump | HDashboard.
#[export] Instance Handler_eq_dec : EqDecision Handler.
Proof. solve_decision. Defined.

(** ** Routes *)

Inductive Segment := Seg (s : str) | Param | Rest.
Record Route := { ro_method : HttpMethod; ro_pattern : list Segment; ro_handler : Handler }.
(** A route of the source, its pattern by its segments. *)
Definition segment (s : string) : Segment :=
  if String.prefix "{*" s then Rest else if String.prefix "{" s then Param else Seg (lit s).
Definition route (pattern : list string) (m : HttpMethod) (h : Handler) : Route :=
  {| ro_method := m; ro_pattern := map segment pattern; ro_handler := h |}.

Definition protected_routes : list Route :=
  [route ["query"] POST HQuery; route ["batch"] POST HBatch; route ["federated"] POST HFederated;
   route ["stats"] GET HStats; route ["stats"; "queries"] GET HQueryStats; route ["metrics"] GET HMetrics;
   route ["audit"] GET HAudit; route ["circuit"] GET HCircuit; route ["queue"] GET HQueue; route ["clients"] GET HClients;
   route ["cache"; "clear"] POST HCacheClear; route ["cache"; "warmup"] POST HCacheWarmup; route ["cache"; "evict"] POST HCacheEvict;
   route ["cache"; "integrity"] GET HCacheIntegrity; route ["cache"; "upstreams"] GET HCacheUpstreams;
   route ["cache"; "entries"] GET HCacheEntries;
   route ["admin"; "reload"] POST HReload; route ["admin"; "pause"] POST HPause; route ["admin"; "resume"] POST HResume;
   route ["admin"; "metrics"; "reset"] POST HMetricsReset; route ["admin"; "agents"] GET HAgentsList;
   route ["admin"; "agents"] POST HAgentsCreate; route ["admin"; "agents"; "{id}"] DELETE HAgentsDelete;
   route ["admin"; "agents"; "{id}"; "rotate-key"] POST HAgentsRotate;
   route ["contexts"] GET HContextsList; route ["contexts"; "current"] GET HContextCurrent;
   route ["contexts"; "switch"] POST HContextSwitch; route ["contexts"; "create"] POST HContextCreate;
   route ["contexts"; "{id}"; "stats"] GET HContextStats]%string.
Definition public_routes : list Route :=
  [route ["health"] GET HHealth; route ["ready"] GET HReady; route ["pool"] GET HPool;
   route ["metrics"; "prometheus"] GET HPrometheus; route ["peer"; "status"] GET HPeerStatus;
   route ["debug"; "tokio"] GET HTokioMetrics; route ["debug"; "tokio"; "dump"] GET HTokioDump]%string.
Definition web_ui_routes : list Route :=
  [route ["dashboard"] GET HDashboard; route ["dashboard"; "{*path}"] GET HDashboard]%string.
Definition dashboard_http_router : list Route :=
  public_routes ++
  [route ["stats"] GET HStats; route ["stats"; "queries"] GET HQueryStats; route ["metrics"] GET HMetrics;
   route ["audit"] GET HAudit; route ["circuit"] GET HCircuit; route ["queue"] GET HQueue; route ["clients"] GET HClients;
   route ["cache"; "integrity"] GET HCacheIntegrity; route ["cache"; "upstreams"] GET HCacheUpstreams;
   route ["cache"; "entries"] GET HCacheEntries; route ["contexts"] GET HContextsList;
   route ["contexts"; "current"] GET HContextCurrent; route ["contexts"; "{id}"; "stats"] GET HContextStats]%string ++ web_ui_routes.

Fixpoint segments_match (p : list Segment) (l : list str) : bool :=
  match p, l with
  | [], [] => true
  | [Rest], x :: l => negb (bool_decide (x = [] /\ l = []))
  | Seg s :: p, x :: l => str_eqb s x && segments_match p l
  | Param :: p, x :: l => negb (str_eqb x []) && segments_match p l
  | _, _ => false
  end.
(** The path after its first slash, by its slashes. *)
Definition path_segments (path : str) : option (list str) :=
  match path with c :: p => if c =? 47 then Some (split_on 47 [] p) else None | [] => None end.
Definition serves_path (r : Route) (path : str) : bool :=
  match path_segments path with Some l => segments_match (ro_pattern r) l | None => false end.
Definition serves_method (r m : HttpMethod) : bool := bool_decide (r = m) || (bool_decide (r = GET) && bool_decide (m = HEAD)).
Definition find_route (rs : list Route) (m : HttpMethod) (path : str) : option Handler :=
  ro_handler <$> List.find (fun r => serves_path r path && serves_method (ro_method r) m) rs.

(** ** The server *)

Record HttpRequest := {
  hr_method : HttpMethod; hr_path : str; hr_x_api_key : option (option str); hr_authorization : option (option str); hr_body_len : Z
}.
Definition auth_view (q : HttpRequest) : Request :=
  {| is_get := bool_decide (hr_method q = GET); path := hr_path q; h_x_api_key := hr_x_api_key q; h_authorization := hr_authorization q |}.
(** The handlers that read a body, up to the limit of the server. *)
Definition takes_body (h : Handler) : bool :=
  match h with
  | HQuery | HBatch | HFederated | HCacheWarmup | HCacheEvict | HAgentsCreate | HAgentsRotate | HContextSwitch | HContextCreate => true
  | _ => false
  end.
Definition BODY_LIMIT : Z := 256 * 1024.

Inductive Served :=
| NotServed
| Refused (r : Response)
| BodyTooLarge
| Run (h : Handler) (who : option AgentIdentity).
Definition run_handler (q : HttpRequest) (h : Handler) (who : option AgentIdentity) : Served :=
  if takes_body h && (BODY_LIMIT <? hr_body_len q) then BodyTooLarge else Run h who.
(** A route of the protected table passes the authentication and the rate limit first. *)
Definition serve (now : Z) (q : HttpRequest) (c : AuthConfig) (limiter : option RateLimiter) : Served * AuthConfig * option RateLimiter :=
  match find_route (public_routes ++ if web_ui_enabled c then web_ui_routes else []) (hr_method q) (hr_path q) with
  | Some h => (run_handler q h None, c, limiter)
  | None =>
      match find_route protected_routes (hr_method q) (hr_path q) with
      | Some h =>
          match protected now (auth_view q) c limiter with
          | (Pass who, c, limiter) => (run_handler q h who, c, limiter)
          | (r, c, limiter) => (Refused r, c, limiter)
          end
      | None => (NotServed, c, limiter)
      end
  end.

(** ** What a reading request leaves *)

Definition put_sv_app (a : AppState Backends) (s : Server) : Server :=
  {| sv_app := a; sv_single := sv_single s; sv_audit := sv_audit s; sv_queue := sv_queue s; sv_batch := sv_batch s;
     sv_federated := sv_federated s; sv_start_time := sv_start_time s; sv_level := sv_level s; sv_agents := sv_agents s;
     sv_peer := sv_peer s; sv_permits := sv_permits s |}.
Definition reads (h : Handler) : bool :=
  match h with
  | HStats | HQueryStats | HMetrics | HAudit | HCircuit | HQueue | HClients | HCacheIntegrity | HCacheUpstreams | HCacheEntries
  | HAgentsList | HContextsList | HContextCurrent | HContextStats | HHealth | HReady | HPool | HPrometheus | HPeerStatus
  | HTokioMetrics | HTokioDump | HDashboard => true
  | _ => false
  end.

Section Reading.
Context `{E : CacheEnv} `{StatsEnv} `{ContextEnv} `{G : GaugeText}.
Context (agent_order : gmap str AgentEntry -> list (str * AgentEntry)).

Definition handle_cache_upstreams (clk : Clock) (s : Server) : outcome (gmap str UpstreamCacheStats) :=
  stats_by_upstream clk (st_cache (sv_app s)).
Definition handle_cache_entries (clk : Clock) (s : Server) : Z * list CacheEntrySummary :=
  let l := entries_summary clk (st_cache (sv_app s)) in (zlen l, l).
(** The server after a handler that reads; reading the breaker may move it, and a check of
    the integrity counts what it finds. *)
Definition read_effect (clk : Clock) (h : Handler) (s : Server) : outcome Server :=
  match h with
  | HStats => let! _ := handle_stats clk s in Ret s
  | HCacheUpstreams => let! _ := handle_cache_upstreams clk s in Ret s
  | HCircuit => Ret (handle_circuit_status (mono clk) s).2
  | HPrometheus => let! r := handle_metrics_prometheus agent_order clk s in Ret r.2
  | HCacheIntegrity => Ret (put_sv_app (handle_cache_integrity (sv_app s)).2 s)
  | _ => Ret s
  end.

(** All of the state but the breaker and the counters. *)
Record untouched (s s' : Server) : Prop := {
  ut_cache : st_cache (sv_app s') = st_cache (sv_app s);
  ut_upstreams : st_upstreams (sv_app s') = st_upstreams (sv_app s);
  ut_coalescer : coalescer (sv_app s') = coalescer (sv_app s);
  ut_scope : st_scope_filter (sv_app s') = st_scope_filter (sv_app s);
  ut_contexts : context_manager (sv_app s') = context_manager (sv_app s);
  ut_paused : paused (sv_app s') = paused (sv_app s);
  ut_clients : client_tracker (sv_app s') = client_tracker (sv_app s);
  ut_queries : query_stats (sv_app s') = query_stats (sv_app s);
  ut_agents : sv_agents s' = sv_agents s;
  ut_audit : sv_audit s' = sv_audit s;
  ut_queue : sv_queue s' = sv_queue s;
  ut_level : sv_level s' = sv_level s
}.
(** The breaker is as reading it leaves it, and only the counter of failed checks grows. *)
Definition read_only (clk : Clock) (s s' : Server) : Prop :=
  untouched s s' /\
  (circuit_breaker (sv_app s') = circuit_breaker (sv_app s) \/
   circuit_breaker (sv_app s') = (state (mono clk) (circuit_breaker (sv_app s))).2) /\
  (exists n, st_metrics (sv_app s') = Nat.iter n record_integrity_failure (st_metrics (sv_app s))).

Lemma untouched_refl s : untouched s s.
Proof. by split. Qed.
Lemma read_effect_reads clk h s s' : read_effect clk h s = Ret s' -> read_only clk s s'.
Proof.
  assert (Hsame : forall t, t = s -> read_only clk s t).
  { intros t ->. split; [apply untouched_refl|]. split; [by left|by exists O]. }
  assert (Hbrk : forall b, b = (state (mono clk) (circuit_breaker (sv_app s))).2 -> read_only clk s (put_breaker b s)).
  { intros b ->. split; [by split|]. split; [by right|by exists O]. }
  destruct h; cbn [read_effect]; try (by intros [= <-]; apply Hsame).
  - destruct (handle_stats clk s); [|done]. intros [= <-]. by apply Hsame.
  - unfold handle_circuit_status. destruct (state (mono clk) (circuit_breaker (sv_app s))) as [st b] eqn:Eb. intros [= <-].
    by apply Hbrk.
  - unfold handle_cache_integrity. intros [= <-]. cbn [snd]. destruct (0 <? _); [|by apply Hsame; destruct s].
    split; [by split|]. split; [by left|]. by eexists.
  - destruct (handle_cache_upstreams clk s); [|done]. intros [= <-]. by apply Hsame.
  - unfold handle_metrics_prometheus. destruct (stats clk _); [|done]. cbn [obind].
    destruct (state (mono clk) (circuit_breaker (sv_app s))) as [st b] eqn:Eb. intros [= <-]. by apply Hbrk.
Qed.
End Reading.

(** ** No path is served by two routes *)

Fixpoint overlap (p q : list Segment) : bool :=
  match p, q with
  | [], [] => true
  | [Rest], _ :: _ | _ :: _, [Rest] => true
  | Seg a :: p, Seg b :: q => str_eqb a b && overlap p q
  | Seg _ :: p, Param :: q | Param :: p, Seg _ :: q | Param :: p, Param :: q => overlap p q
  | _, _ => false
  end.
Lemma overlap_sound p q l : segments_match p l = true -> segments_match q l = true -> overlap p q = true.
Proof.
  revert p q. induction l as [|x l IH]; intros p q Hp Hq.
  - destruct p as [|[a| |] [|]], q as [|[b| |] [|]]; done.
  - destruct p as [|[a| |] p], q as [|[b| |] q]; try done; cbn in Hp, Hq |- *;
      try (destruct p; [destruct q as [|? ?]; done|done]); try (destruct q; [done|done]);
      repeat match goal with H : _ && _ = true |- _ => apply andb_true_iff in H as [? ?] end; try (by apply IH).
    unfold str_eqb in *. repeat match goal with H : bool_decide _ = true |- _ => apply bool_decide_eq_true_1 in H; subst end.
    apply andb_true_iff. split; [by apply bool_decide_eq_true_2|by apply IH].
Qed.
Definition methods : list HttpMethod := [GET; HEAD; POST; DELETE; OtherMethod].
Lemma methods_all m : m ∈ methods.
Proof. destruct m; unfold methods; set_solver. Qed.
Definition conflicts (r q : Route) : bool :=
  overlap (ro_pattern r) (ro_pattern q) && existsb (fun m => serves_method (ro_method r) m && serves_method (ro_method q) m) methods.
Lemma conflicts_sound r q m path : serves_path r path && serves_method (ro_method r) m = true ->
  serves_path q path && serves_method (ro_method q) m = true -> conflicts r q = true.
Proof.
  intros [P1 M1]%andb_true_iff [P2 M2]%andb_true_iff. unfold serves_path in P1, P2. destruct (path_segments path) as [l|]; [|done].
  unfold conflicts. rewrite (overlap_sound _ _ l P1 P2). cbn [andb]. apply existsb_exists. exists m.
  split; [apply list_elem_of_In, methods_all|by rewrite M1, M2].
Qed.
Definition all_routes : list Route := public_routes ++ web_ui_routes ++ protected_routes.
Lemma routes_distinct : forallb (fun r => forallb (fun q => negb (conflicts r q) || bool_decide (ro_handler r = ro_handler q)) all_routes) all_routes = true.
Proof. vm_compute. reflexivity. Qed.
Lemma one_handler r q m path : r ∈ all_routes -> q ∈ all_routes -> serves_path r path && serves_method (ro_method r) m = true ->
  serves_path q path && serves_method (ro_method q) m = true -> ro_handler r = ro_handler q.
Proof.
  intros Hr Hq H1 H2. pose proof routes_distinct as Hd. rewrite forallb_forall in Hd.
  specialize (Hd r (proj1 (list_elem_of_In _ _) Hr)). rewrite forallb_forall in Hd. specialize (Hd q (proj1 (list_elem_of_In _ _) Hq)).
  rewrite (conflicts_sound r q m path H1 H2) in Hd. cbn [negb orb] in Hd. by apply bool_decide_eq_true_1 in Hd.
Qed.
Lemma find_route_some rs m path h : find_route rs m path = Some h ->
  exists r, r ∈ rs /\ ro_handler r = h /\ serves_path r path && serves_method (ro_method r) m = true.
Proof.
  unfold find_route. destruct (List.find _ rs) as [r|] eqn:Ef; [|done]. intros [= <-]. apply find_some in Ef as [Hin Hs].
  exists r. split; [by apply list_elem_of_In|done].
Qed.
Lemma find_route_serves rs r m path : (forall q, q ∈ rs -> q ∈ all_routes) -> r ∈ rs ->
  serves_path r path && serves_method (ro_method r) m = true -> find_route rs m path = Some (ro_handler r).
Proof.
  intros Hsub Hr Hs. destruct (find_route rs m path) as [h|] eqn:Ef.
  - apply find_route_some in Ef as (q & Hq & <- & Hqs). f_equal. symmetry. by apply (one_handler r q m path); auto.
  - exfalso. unfold find_route in Ef. destruct (List.find _ rs) eqn:Ef'; [done|].
    pose proof (find_none _ _ Ef' r (proj1 (list_elem_of_In _ _) Hr)) as Hn. cbn in Hn. by rewrite Hs in Hn.
Qed.

(** ** What a request without a key can do *)

Definition server_public (c : AuthConfig) : list Route := public_routes ++ if web_ui_enabled c then web_ui_routes else [].
Lemma server_public_all c r : r ∈ server_public c -> r ∈ all_routes.
Proof. unfold server_public, all_routes. destruct (web_ui_enabled c); set_solver. Qed.
Lemma protected_all r : r ∈ protected_routes -> r ∈ all_routes.
Proof. unfold all_routes. set_solver. Qed.

Lemma tables_disjoint p r : p ∈ public_routes ++ web_ui_routes -> r ∈ protected_routes -> ro_handler p <> ro_handler r.
Proof.
  assert (H : forallb (fun p => forallb (fun r => negb (bool_decide (ro_handler p = ro_handler r))) protected_routes)
                (public_routes ++ web_ui_routes) = true) by (vm_compute; reflexivity).
  intros Hp Hr. rewrite forallb_forall in H. specialize (H p (proj1 (list_elem_of_In _ _) Hp)). rewrite forallb_forall in H.
  specialize (H r (proj1 (list_elem_of_In _ _) Hr)). by apply negb_true_iff, bool_decide_eq_false_1 in H.
Qed.
Lemma server_public_ui c r : r ∈ server_public c -> r ∈ public_routes ++ web_ui_routes.
Proof. unfold server_public. destruct (web_ui_enabled c); set_solver. Qed.

(** Every route runs its handler; one of the protected table when the layers let the
    request pass, and otherwise the request is refused as they say. *)
Theorem routes_exact now q c limiter r : hr_body_len q <= BODY_LIMIT -> serves_path r (hr_path q) && serves_method (ro_method r) (hr_method q) = true ->
  (r ∈ server_public c -> serve now q c limiter = (Run (ro_handler r) None, c, limiter)) /\
  (r ∈ protected_routes -> serve now q c limiter =
     let '(a, c', limiter') := protected now (auth_view q) c limiter in
     (match a with Pass who => Run (ro_handler r) who | _ => Refused a end, c', limiter')).
Proof.
  intros Hb Hs. assert (Hrun : forall h who, run_handler q h who = Run h who).
  { intros h who. unfold run_handler. rewrite (proj2 (Z.ltb_ge _ _)) by lia. by rewrite andb_false_r. }
  unfold serve. fold (server_public c). split.
  - intros Hr. rewrite (find_route_serves (server_public c) r) by (done || apply server_public_all). by rewrite Hrun.
  - intros Hr. destruct (find_route (server_public c) _ _) as [h|] eqn:Ef.
    + exfalso. apply find_route_some in Ef as (p & Hp & <- & Hps).
      apply (tables_disjoint p r); [by eapply server_public_ui|done|]. apply (one_handler p r (hr_method q) (hr_path q)); try done;
        [by eapply server_public_all|by apply protected_all].
    + rewrite (find_route_serves protected_routes r) by (done || apply protected_all).
      destruct (protected now (auth_view q) c limiter) as [[[who| |] c'] l']; cbn; by rewrite ?Hrun.
Qed.

Definition joined (l : list str) : str := concat (map (fun x => 47 :: x) l).
Lemma split_joined cur s : joined (split_on 47 cur s) = 47 :: cur ++ s.
Proof.
  revert cur. induction s as [|c s IH]; intros cur; cbn [split_on]; [by unfold joined; cbn|].
  destruct (Z.eqb_spec c 47) as [->|]; [|by rewrite IH, <- app_assoc]. unfold joined in *. cbn. by rewrite (IH []).
Qed.
Lemma static_match xs l : segments_match (map Seg xs) l = true -> l = xs.
Proof.
  revert l. induction xs as [|x xs IH]; intros [|y l]; cbn; try done. intros [H1 H2]%andb_true_iff.
  unfold str_eqb in H1. apply bool_decide_eq_true_1 in H1 as ->. by rewrite (IH l H2).
Qed.
(** The path of a route without parameters. *)
Lemma static_path r xs path : ro_pattern r = map Seg xs -> serves_path r path = true -> path = joined xs.
Proof.
  intros Hp. unfold serves_path, path_segments. destruct path as [|c path]; [done|].
  destruct (Z.eqb_spec c 47) as [->|]; [|done].
  rewrite Hp. intros Hl%static_match. by rewrite <- Hl, split_joined.
Qed.

(** The request has the key of an agent that may call, or the global one. *)
Definition knows_key (q : HttpRequest) (c : AuthConfig) : Prop :=
  exists key, extract_api_key (auth_view q) = Some key /\
    (is_Some (agent_of key c) \/ exists k, api_key c = Some k /\ as_bytes key = as_bytes k).

Lemma stranger_auth now q c a c' : has_auth c = true -> ~ knows_key q c -> auth_middleware now (auth_view q) c = (a, c') ->
  c' = c /\ (a = Pass None /\ web_ui_enabled c = true /\ hr_method q = GET /\ is_web_ui_allowlisted (hr_path q) = true \/ exists m, a = Unauthorized m).
Proof.
  intros Ha Hk. unfold auth_middleware. destruct (web_ui_enabled c && is_get (auth_view q) && _) eqn:Eb.
  { intros [= <- <-]. apply andb_true_iff in Eb as [[E1 E2]%andb_true_iff E3]. cbn in E2. apply bool_decide_eq_true_1 in E2. split; [done|]. by left. }
  rewrite Ha. cbn [negb]. destruct (extract_api_key _) as [key|] eqn:Ek; [|intros [= <- <-]; split; [done|right; by eexists]].
  destruct (agent_of key c) as [e|] eqn:Ee; [destruct Hk; exists key; split; [done|left; by rewrite Ee]|].
  unfold global_key_check. intros [= <- <-]. split; [done|]. right. destruct (api_key c) as [k|] eqn:Ec; [|by eexists].
  destruct (constant_time_eq key k) eqn:Et; [|by eexists]. destruct Hk. exists key. split; [done|]. right. exists k.
  split; [done|by apply constant_time_eq_spec].
Qed.
Lemma public_reads c r : r ∈ server_public c -> reads (ro_handler r) = true /\ takes_body (ro_handler r) = false.
Proof.
  intros Hr%server_public_ui. assert (H : forallb (fun r => reads (ro_handler r) && negb (takes_body (ro_handler r))) (public_routes ++ web_ui_routes) = true)
    by (vm_compute; reflexivity).
  rewrite forallb_forall in H. specialize (H r (proj1 (list_elem_of_In _ _) Hr)). apply andb_true_iff in H as [? ?%negb_true_iff]. by split.
Qed.
Lemma get_reads r : r ∈ protected_routes -> serves_method (ro_method r) GET = true ->
  reads (ro_handler r) = true /\ takes_body (ro_handler r) = false /\
  (ro_handler r = HCacheEntries -> ro_pattern r = map Seg [lit "cache"; lit "entries"]) /\
  (ro_handler r = HAgentsList -> ro_pattern r = map Seg [lit "admin"; lit "agents"]).
Proof.
  intros Hr. unfold protected_routes in Hr. repeat (apply elem_of_cons in Hr as [->|Hr]; [intros Hm; first [by vm_compute in Hm|by split_and!]|]).
  by apply elem_of_nil in Hr.
Qed.

Section Strangers.
Context `{E : CacheEnv} `{StatsEnv} `{ContextEnv} `{G : GaugeText}.
Context (agent_order : gmap str AgentEntry -> list (str * AgentEntry)).

(** C32: a request without a valid key reads at most: where keys are configured, it reaches a
    handler of the public table, or one the web interface may show where that is enabled,
    never the list of entries or of agents, and the server is afterwards as it was, but
    for what reading the breaker does to it and the counter of failed integrity checks. *)
Theorem stranger_reads_only (now : Z) (clk : Clock) (q : HttpRequest) (c : AuthConfig) (limiter : option RateLimiter) (s : Server)
    (HA : has_auth c = true) (HK : ~ knows_key q c) :
  let '(r, c', _) := serve now q c limiter in
  c' = c /\
  match r with
  | Run h who =>
      who = None /\ reads h = true /\ h <> HCacheEntries /\ h <> HAgentsList /\
      (h ∈ map ro_handler public_routes \/ web_ui_enabled c = true) /\
      forall s', read_effect agent_order clk h s = Ret s' -> read_only clk s s'
  | _ => True
  end.
Proof.
  unfold serve. fold (server_public c). destruct (find_route (server_public c) _ _) as [h|] eqn:Ef.
  - apply find_route_some in Ef as (r & Hr & <- & _). destruct (public_reads c r Hr) as [Hrd Hb]. unfold run_handler. rewrite Hb. cbn [andb].
    split; [done|]. split; [done|]. split; [done|].
    assert (Hp : forall x, x ∈ protected_routes -> ro_handler r <> ro_handler x) by (intros x; apply tables_disjoint; by eapply server_public_ui).
    split; [apply (Hp (route ["cache"; "entries"] GET HCacheEntries)%string); unfold protected_routes; set_solver|].
    split; [apply (Hp (route ["admin"; "agents"] GET HAgentsList)%string); unfold protected_routes; set_solver|].
    split; [|intros s'; apply read_effect_reads]. unfold server_public in Hr. destruct (web_ui_enabled c); [by right|].
    rewrite app_nil_r in Hr. left. by apply list_elem_of_fmap_2.
  - destruct (find_route protected_routes _ _) as [h|] eqn:Ef'; [|done]. apply find_route_some in Ef' as (r & Hr & <- & [Hpath Hm]%andb_true_iff).
    unfold protected. destruct (auth_middleware now (auth_view q) c) as [a c'] eqn:Ea.
    destruct (stranger_auth _ _ _ _ _ HA HK Ea) as [-> [(-> & Hw & Hg & Hal)|(m & ->)]]; [|done].
    rewrite Hg in Hm. destruct (get_reads r Hr Hm) as (Hrd & Hb & He & Hl).
    assert (Hlim : exists l', rate_limit_middleware now None limiter = (Pass None, l') \/ rate_limit_middleware now None limiter = (TooManyRequests, l')).
    { unfold rate_limit_middleware. destruct limiter as [l|]; [|eexists; by left]. destruct (rl_try_acquire now l) as [[] l']; eexists; eauto. }
    destruct Hlim as (l' & [->| ->]); [|done]. unfold run_handler. rewrite Hb. cbn [andb]. split; [done|]. split; [done|]. split; [done|].
    split; [intros Hx; rewrite (static_path r _ _ (He Hx) Hpath) in Hal; by vm_compute in Hal|].
    split; [intros Hx; rewrite (static_path r _ _ (Hl Hx) Hpath) in Hal; by vm_compute in Hal|].
    split; [by right|intros s'; apply read_effect_reads].
Qed.
End Strangers.

Definition get_request (path : string) : HttpRequest :=
  {| hr_method := GET; hr_path := lit path; hr_x_api_key := None; hr_authorization := None; hr_body_len := 0 |}.
Definition keyed_config (web_ui : bool) : AuthConfig := {| api_key := Some (lit "k"); agent_registry := None; web_ui_enabled := web_ui |}.
Lemma get_knows_nothing path w : ~ knows_key (get_request path) (keyed_config w).
Proof. intros (key & He & _). discriminate He. Qed.

(** The dashboard of the engine: every route is a GET of a handler that reads, and the
    routes are those of the server. *)
Theorem dashboard_read_only r : r ∈ dashboard_http_router ->
  ro_method r = GET /\ reads (ro_handler r) = true /\ r ∈ all_routes.
Proof.
  intros Hr. assert (H : forall x, x ∈ dashboard_http_router -> x ∈ all_routes) by (unfold dashboard_http_router, all_routes, protected_routes; set_solver).
  specialize (H r Hr). assert (Hb : forallb (fun x => bool_decide (ro_method x = GET) && reads (ro_handler x)) dashboard_http_router = true)
    by (vm_compute; reflexivity).
  rewrite forallb_forall in Hb. specialize (Hb r (proj1 (list_elem_of_In _ _) Hr)). apply andb_true_iff in Hb as [Hm Hrd].
  apply bool_decide_eq_true_1 in Hm. done.
Qed.

(** ** The end of the server *)

(** The wait for requests: [active] is the number of active requests at a time, [wake t]
    the time at which a sleep until [t] ends. *)
Section Drain.
Context (active : Z -> Z) (wake : Z -> Z).
Definition DRAIN_INTERVAL : Z := 250 * 1000000.
Inductive DrainEnd := Drained (at_ : Z) | ForcedExit (at_ : Z) (left : Z).
Fixpoint drain_loop (fuel : nat) (now deadline : Z) : option DrainEnd :=
  match fuel with
  | O => None
  | S fuel =>
      if active now =? 0 then Some (Drained now)
      else if deadline <=? now then Some (ForcedExit now (active now))
      else drain_loop fuel (wake (Z.min deadline (now + DRAIN_INTERVAL))) deadline
  end.
Definition drain_fuel (timeout : Z) : nat := Z.to_nat (timeout / DRAIN_INTERVAL) + 3.
Definition drain (now timeout : Z) : option DrainEnd := drain_loop (drain_fuel timeout) now (now + timeout).

(** Sleeping lasts at least as long as asked, and at most [late] more. *)
Context (late : Z) (Hlate : 0 <= late) (Hwake : forall t, t <= wake t <= t + late).

Lemma drain_loop_ends fuel now deadline : deadline - now < DRAIN_INTERVAL * (Z.of_nat fuel - 2) ->
  (2 < fuel)%nat ->
  exists e, drain_loop fuel now deadline = Some e /\
    match e with Drained t => active t = 0 /\ now <= t | ForcedExit t n => n = active t /\ n <> 0 /\ deadline <= t end /\
    (let t := match e with Drained t => t | ForcedExit t _ => t end in t <= Z.max now (deadline + late)).
Proof.
  revert now. induction fuel as [|fuel IH]; intros now Hf H2; [lia|]. cbn [drain_loop]. destruct (Z.eqb_spec (active now) 0) as [H0|H0].
  { eexists. split; [done|]. cbn. split; [split; [done|lia]|lia]. }
  destruct (Z.leb_spec deadline now) as [Hd|Hd]; [eexists; split; [done|]; cbn; split; [done|lia]|].
  destruct (Hwake (Z.min deadline (now + DRAIN_INTERVAL))) as [W1 W2]. unfold DRAIN_INTERVAL in *.
  set (w := wake _) in *. destruct (decide (deadline <= w)) as [Hw|Hw].
  - destruct fuel as [|fuel]; [lia|]. clear IH. cbn [drain_loop]. destruct (Z.eqb_spec (active w) 0) as [H0'|H0'].
    { eexists. split; [done|]. cbn. split; [split; [done|lia]|lia]. }
    rewrite (proj2 (Z.leb_le _ _) Hw). eexists. split; [done|]. cbn. split; [done|lia].
  - destruct (IH w) as (e & -> & He & Ht); [lia|lia|]. exists e. split; [done|]. split; [|destruct e; cbn in *; lia].
    destruct e; cbn in *; [destruct He; split; [done|lia]|done].
Qed.
(** The wait ends: with no request active, or at the deadline with those that are left; and
    not later than the deadline by more than one sleep oversleeps. *)
Theorem drain_ends now timeout : 0 <= timeout ->
  exists e, drain now timeout = Some e /\
    match e with Drained t => active t = 0 /\ now <= t | ForcedExit t n => n = active t /\ n <> 0 /\ now + timeout <= t end /\
    (let t := match e with Drained t => t | ForcedExit t _ => t end in t <= now + timeout + late).
Proof.
  intros Ht. unfold drain, drain_fuel. assert (Hq : 0 <= timeout / DRAIN_INTERVAL) by (apply Z.div_pos; [done|reflexivity]).
  destruct (drain_loop_ends (Z.to_nat (timeout / DRAIN_INTERVAL) + 3) now (now + timeout)) as (e & He & H1 & H2); [|lia|].
  - pose proof (Z.mul_succ_div_gt timeout DRAIN_INTERVAL ltac:(reflexivity)). rewrite Nat2Z.inj_add, Z2Nat.id by lia. lia.
  - exists e. split; [done|]. split; [done|]. cbn in *. lia.
Qed.
End Drain.

(** ** Replies of the reload *)

Definition section_text (x : ReloadSection) : str :=
  match x with
  | SecContexts n => lit "contexts=" ++ show_Z n
  | SecMaxEntries n => lit "cache.max_entries=" ++ show_Z n
  | SecFresh n => lit "cache.fresh_duration_secs=" ++ show_Z n
  | SecStale n => lit "cache.stale_duration_secs=" ++ show_Z n
  | SecFederated b => lit "proxy.federated (enabled=" ++ lit (if b then "true" else "false") ++ lit ")"
  | SecPool n => lit "proxy.upstreams (" ++ show_Z n ++ lit " in pool)"
  | SecCascade => lit "proxy.cascade"
  | SecSingle url => lit "proxy.upstreams (single: " ++ url ++ lit ")"
  | SecNoUpstreams => lit "proxy.upstreams (none)"
  | SecBreaker => lit "proxy.circuit_breaker"
  | SecNoAgents => lit "agents (none; auth disabled)"
  | SecAgents n => lit "agents (" ++ show_Z n ++ lit " registered)"
  end.
Definition restart_text (x : RestartSection) : str :=
  lit (match x with
       | RestartPeer => "proxy.peer (restart to apply)"
       | RestartApiKey => "proxy.api_key (auth key; restart to apply)"
       | RestartRateLimit => "proxy.rate_limit (restart to apply)"
       end).
Fixpoint join_str (sep : str) (l : list str) : str :=
  match l with [] => [] | [x] => x | x :: l => x ++ sep ++ join_str sep l end.
Record ReloadResponse := { rp_success : bool; rp_reloaded : list str; rp_restart_required : list str; rp_error : option str; rp_message : str }.
(** [error_text] is the text of an error of the reload. *)
Definition reload_response (error_text : ReloadError -> str) (r : result ReloadSummary ReloadError) : ReloadResponse :=
  match r with
  | Ok sm =>
      let sections := map section_text (rl_sections sm) in
      let restart := map restart_text (rl_restart sm) in
      {| rp_success := true; rp_reloaded := sections; rp_restart_required := restart; rp_error := None;
         rp_message := lit "Reloaded " ++ show_Z (zlen sections) ++ lit " section(s): " ++ join_str (lit ", ") sections ++
                       match restart with [] => [] | _ => lit ". Restart required for: " ++ join_str (lit "; ") restart end |}
  | Err e =>
      {| rp_success := false; rp_reloaded := []; rp_restart_required := []; rp_error := Some (error_text e);
         rp_message := lit "Config reload failed: " ++ error_text e |}
  end.
(** The status with the reply, and the call of the service, which never fails. *)
Definition handle_admin_reload (error_text : ReloadError -> str) (r : result ReloadSummary ReloadError) : Z * ReloadResponse :=
  (match r with Ok _ => 200 | Err _ => 500 end, reload_response error_text r).
Record ProtoReload := { pr_success : bool; pr_reloaded : list str; pr_error : str; pr_message : str; pr_restart_required : list str }.
Definition grpc_reload (error_text : ReloadError -> str) (r : result ReloadSummary ReloadError) : ProtoReload :=
  let p := reload_response error_text r in
  {| pr_success := rp_success p; pr_reloaded := rp_reloaded p; pr_error := default [] (rp_error p); pr_message := rp_message p;
     pr_restart_required := rp_restart_required p |}.

(** ** A query over HTTP *)

Record QueryHeaders := { qh_request_id : option (option str); qh_context : option (option str); qh_forwarded_for : option (option str) }.
Definition header_text (h : option (option str)) : option str := default None h.
(** [generated] is the id made from the clock. *)
Definition extract_request_id (generated : str) (h : QueryHeaders) : str := default generated (header_text (qh_request_id h)).
Definition http_query_call (generated : str) (h : QueryHeaders) (agent : option AgentIdentity) (r : QueryRequest) : QueryCall :=
  {| qc_request := r; qc_context := resolve_context (qh_context h) agent; qc_request_id := extract_request_id generated h;
     qc_agent := agent;
     qc_source := match agent with Some a => ai_id a | None => default (lit "local") (header_text (qh_forwarded_for h)) end;
     qc_skip_cache := false |}.
Definition handle_query `{CacheEnv} `{StatsEnv} `{ContextEnv} {U} `{Dispatcher U} `{FloatPow} (start : Z) (clk clk' : Clock) (generated : str)
    (h : QueryHeaders) (agent : option AgentIdentity) (r : QueryRequest) (s : AppState U)
  : option (outcome (Z * CachedResponse * option BgTask * AppState U)) :=
  match execute_query start clk clk' (http_query_call generated h agent r) s with
  | Some (Ret (res, bg, s)) => Some (Ret (http_status res, qr_response res, bg, s))
  | Some Panic => Some Panic
  | None => None
  end.

(** ** Queries of an upstream whose mode is not known *)

Section Modes.
Context (text_query : QueryRequest -> result QueryResponse UpstreamError) (vector_query : QueryRequest -> list f32 -> result QueryResponse UpstreamError).
Context (discover : result QueryMode UpstreamError) (embedder : option (str -> result (list f32) str)).

Definition embed_query (missing : string) (r : QueryRequest) : result QueryResponse UpstreamError :=
  match embedder with
  | None => Err (EmbeddingRequired (lit missing))
  | Some embed => match embed (query r) with Ok v => vector_query r v | Err e => Err (EmbeddingFailed e) end
  end.
(** The answer with the mode that is stored afterwards. *)
Definition query_with_mode (mode : QueryMode) (r : QueryRequest) : result QueryResponse UpstreamError * QueryMode :=
  match mode with
  | TextNative => (text_query r, mode)
  | VectorOnly => (embed_query "VectorOnly upstream requires proxy-embed feature with embedder configured" r, mode)
  | UnknownMode =>
      match text_query r with
      | Ok resp => (Ok resp, TextNative)
      | Err (UnsupportedQueryType _) =>
          let undetermined := Err (UnsupportedQueryType (lit "Could not determine upstream query mode")) in
          match discover with
          | Ok VectorOnly => (embed_query "VectorOnly upstream requires embedding support" r, VectorOnly)
          | Ok m => (undetermined, m)
          | Err _ => (undetermined, mode)
          end
      | Err e => (Err e, mode)
      end
  end.

(** A query that is answered leaves the mode known, and the next one with that mode asks
    in the way that was answered. *)
Theorem mode_settles mode r resp mode' : query_with_mode mode r = (Ok resp, mode') ->
  mode' <> UnknownMode /\ (mode <> UnknownMode -> mode' = mode) /\ query_with_mode mode' r = (Ok resp, mode').
Proof.
  assert (He : forall m m', embed_query m r = Ok resp -> embed_query m' r = Ok resp) by (unfold embed_query; by destruct embedder).
  unfold query_with_mode. destruct mode.
  - intros [= Ht <-]. by rewrite Ht.
  - intros [= Ht <-]. by rewrite Ht.
  - destruct (text_query r) as [x|e] eqn:Et; [by intros [= -> <-]|]. destruct e; try done.
    destruct discover as [[]|]; try done. intros [= Hv <-]. by rewrite (He _ _ Hv).
Qed.
End Modes.

(** ** Examples *)

#[local] Existing Instance DemoEnv.
#[local] Existing Instance WholeText.
#[local] Instance some_stats : StatsEnv := {| default_hash := fun q => q; stats_iter := map_to_list |}.
(** The check of the integrity of the cache, through the web interface. *)
Lemma stranger_reads_only_witness :
  has_auth (keyed_config true) = true /\ ~ knows_key (get_request "/cache/integrity") (keyed_config true) /\
  serve 0 (get_request "/cache/integrity") (keyed_config true) None = (Run HCacheIntegrity None, keyed_config true, None) /\
  forall s', read_effect map_to_list scrape_clock HCacheIntegrity (pool_server [flaky_upstream]) = Ret s' ->
    read_only scrape_clock (pool_server [flaky_upstream]) s'.
Proof.
  split; [reflexivity|]. split; [apply get_knows_nothing|]. split; [vm_compute; reflexivity|].
  pose proof (stranger_reads_only map_to_list 0 scrape_clock (get_request "/cache/integrity") (keyed_config true) None (pool_server [flaky_upstream])
    eq_refl (get_knows_nothing _ _)) as H.
  assert (Hs : serve 0 (get_request "/cache/integrity") (keyed_config true) None = (Run HCacheIntegrity None, keyed_config true, None)) by (vm_compute; reflexivity).
  rewrite Hs in H. exact (proj2 (proj2 (proj2 (proj2 (proj2 (proj2 H)))))).
Defined.
(** A change needs the key: without one it is refused, and with it the handler runs. *)
Lemma clearing_needs_key w :
  let q := {| hr_method := POST; hr_path := lit "/cache/clear"; hr_x_api_key := None; hr_authorization := None; hr_body_len := 0 |} in
  let k := {| hr_method := POST; hr_path := lit "/cache/clear"; hr_x_api_key := Some (Some (lit "k")); hr_authorization := None; hr_body_len := 0 |} in
  (exists m, (serve 0 q (keyed_config w) None).1.1 = Refused (Unauthorized m)) /\ (serve 0 k (keyed_config w) None).1.1 = Run HCacheClear None.
Proof. destruct w; (split; [eexists|]; vm_compute; reflexivity). Qed.
