(* ===== verification/HitTrace.v ===== *)
(** * Traces of the hit-rate benchmark (src/src/bin/hitrate_bench.rs)

    The random generator, the texts of queries and their paraphrases, the generators of
    traffic, the readers of trace files and the synthetic embedder.  A draw passes the
    state of the generator along ([rand]) and may panic (a draw from nothing).  The
    power function of a Zipf distribution is a parameter ([FloatPowf]). *)

From Stdlib Require Import SpecFloat.
From S2P Require Import Prelude Floats Text Types Cdc Cache Auth Scope Vendors Distill Engine Providers.
Open Scope Z_scope.
Open Scope conproxy_scope.

(** ** The generator: xorshift64 star *)

Definition Rng_new (seed : Z) : Z := Z.max seed 1.
Definition xorshift (x : Z) : Z :=
  let x := Z.lxor x (Z.shiftr x 12) in
  let x := Z.lxor x (wrap 64 (Z.shiftl x 25)) in
  Z.lxor x (Z.shiftr x 27).
(** The value and the next state. *)
Definition next_u64 (st : Z) : Z * Z :=
  let x := xorshift st in (wrap 64 (x * 0x2545F4914F6CDD1D), x).

Definition rand (A : Type) : Type := Z -> outcome (A * Z).
Definition rret {A} (a : A) : rand A := fun st => Ret (a, st).
Definition rand_bind {A B} (m : rand A) (k : A -> rand B) : rand B :=
  fun st => let! (a, st) := m st in k a st.
Definition rlift {A} (o : outcome A) : rand A := fun st => let! a := o in Ret (a, st).
Notation "'draw' x ':=' m 'in' k" := (rand_bind m (fun x => k))
  (at level 10, x pattern, m at level 100, k at level 200) : conproxy_scope.

Definition rng_u64 : rand Z := fun st => Ret (next_u64 st).
Definition rng_f64 : rand f64 :=
  draw x := rng_u64 in rret (F64.div (F64.of_Z (Z.shiftr x 11)) (F64.of_Z (2 ^ 53))).
(** The remainder by zero panics. *)
Definition rng_below (n : Z) : rand Z :=
  draw x := rng_u64 in if n =? 0 then (fun _ => Panic) else rret (x mod n).
Definition bernoulli (p : f64) : rand bool := draw x := rng_f64 in rret (f_lt x p).

(** [(0..n).map(|_| m).collect()] *)
Fixpoint times {A} (n : nat) (m : rand A) : rand (list A) :=
  match n with O => rret [] | S n => draw a := m in draw l := times n m in rret (a :: l) end.

(** ** Texts *)

Record TraceEvent := { te_query : str; te_cluster : Z; te_phase : Z }.

Definition VOCAB : list str := map lit
  ["login"; "password"; "reset"; "account"; "billing"; "payment"; "refund"; "order"; "shipping";
   "invoice"; "error"; "crash"; "install"; "update"; "delete"; "backup"; "restore"; "sync";
   "export"; "import"; "api"; "token"; "webhook"; "quota"; "limit"; "latency"; "timeout";
   "config"; "deploy"; "rollback"; "cache"; "index"; "search"; "vector"; "embed"; "model";
   "agent"; "retry"; "session"; "auth"; "scope"; "filter"; "tenant"; "region"; "cluster"; "node";
   "shard"; "replica"; "snapshot"; "migrate"]%string.
Definition SYNONYMS : list (str * str) := map (fun ab => (lit ab.1, lit ab.2))
  [("login", "signin"); ("password", "passcode"); ("reset", "restore"); ("error", "failure");
   ("payment", "billing"); ("refund", "chargeback"); ("order", "purchase"); ("account", "profile");
   ("delete", "remove"); ("update", "modify")]%string.

(** The order of strings: UTF-8 keeps the order of the scalar values. *)
Fixpoint str_leb (a b : str) : bool :=
  match a, b with
  | [], _ => true
  | _ :: _, [] => false
  | x :: a, y :: b => (x <? y) || ((x =? y) && str_leb a b)
  end.
Fixpoint join_words (sep : str) (l : list str) : str :=
  match l with [] => [] | [x] => x | x :: l => x ++ sep ++ join_words sep l end.

Definition vocab (i : Z) : str := default [] (VOCAB !! Z.to_nat i).
Definition id_words (id : Z) : list str := [vocab (id mod 50); vocab (id / 50 mod 50); vocab (id / 2500 mod 50)].
Definition bench_id_text (id : Z) : str := join_words (lit " ") (sort_by str_leb (id_words id)).

(** [replacen(p, r, 1)]: the first occurrence. *)
Fixpoint replace_first (p r s : str) : str :=
  if starts_with s p then r ++ drop (length p) s
  else match s with [] => [] | c :: s => c :: replace_first p r s end.
Fixpoint swap_synonym (l : list (str * str)) (out : str) : str :=
  match l with
  | [] => out
  | (a, b) :: l => if contains_str out a then replace_first a b out else swap_synonym l out
  end.

Definition list_swap {A} (i j : nat) (l : list A) : list A :=
  match l !! i, l !! j with Some x, Some y => <[i := y]> (<[j := x]> l) | _, _ => l end.
(** The exchanges at positions [i], ..., 1. *)
Fixpoint fisher_yates {A} (i : nat) (w : list A) : rand (list A) :=
  match i with
  | O => rret w
  | S i' => draw j := rng_below (Z.of_nat i + 1) in fisher_yates i' (list_swap i (Z.to_nat j) w)
  end.

Definition TEMPLATES : list str := map lit ["how to {}"; "help with {}"; "please {}"]%string.
Definition paraphrase (text : str) : rand str :=
  let words := split_whitespace text in
  draw k := rng_below 3 in
  if k =? 0 then draw w := fisher_yates (length words - 1) words in rret (join_words (lit " ") w)
  else if k =? 1 then rret (swap_synonym SYNONYMS text)
  else
    draw t := rng_below (zlen TEMPLATES) in
    rret (replace_first (lit "{}") text (default [] (TEMPLATES !! Z.to_nat t))).
Definition maybe_paraphrase (text : str) (rate : f64) : rand str :=
  if f_gt rate f_zero then draw b := bernoulli rate in if b then paraphrase text else rret text
  else rret text.

(** ** Generators of traffic *)

Class FloatPowf := { powf : f64 -> f64 -> f64 }.

Section Generators.
Context `{E : CacheEnv} {P : FloatPowf}.

Definition cluster_of (text : str) : Z := from_le_bytes (take 8 (blake3_hash (as_bytes text))).

(** The text of a rank: a line of the pool, which is indexed modulo its length, or an
    artificial text. *)
Definition base_text (pool_texts : option (list str)) (i : Z) : outcome str :=
  match pool_texts with
  | Some p => match p !! Z.to_nat (i mod zlen p) with Some t => Ret t | None => Panic end
  | None => Ret (bench_id_text i)
  end.
Definition text_event (base : str) (para_rate : f64) : rand TraceEvent :=
  draw q := maybe_paraphrase base para_rate in
  rret {| te_query := q; te_cluster := cluster_of base; te_phase := 0 |}.

Fixpoint zipf_prefix (n : nat) (rank : Z) (s acc : f64) : list f64 :=
  match n with
  | O => []
  | S n => let acc := F64.add acc (powf (F64.of_Z rank) (SFopp s)) in acc :: zipf_prefix n (rank + 1) s acc
  end.
(** [partition_point]: the length of the first part. *)
Fixpoint partition_point {A} (p : A -> bool) (l : list A) : Z :=
  match l with [] => 0 | a :: l => if p a then 1 + partition_point p l else 0 end.

Definition zipf_rank (unique : Z) (prefix : list f64) (total x : f64) (invert : bool) : Z :=
  let x := F64.mul x total in
  let rank := Z.min (partition_point (fun c => f_lt c x) prefix) (unique - 1) in
  if invert then unique - 1 - rank else rank.
Definition gen_zipf_ranks (unique : Z) (s : f64) (queries : Z) (para_rate : f64) (pool_texts : option (list str))
  (invert : bool) : rand (list TraceEvent) :=
  let unique := Z.max unique 1 in
  let prefix := zipf_prefix (Z.to_nat unique) 1 s f_zero in
  let total := default f_zero (last prefix) in
  times (Z.to_nat queries)
    (draw x := rng_f64 in
     draw base := rlift (base_text pool_texts (zipf_rank unique prefix total x invert)) in
     text_event base para_rate).
Definition gen_zipf (unique : Z) (s : f64) (queries : Z) (para_rate : f64) (pool_texts : option (list str)) :=
  gen_zipf_ranks unique s queries para_rate pool_texts false.

Definition event_phase (ph : Z) (e : TraceEvent) : TraceEvent :=
  {| te_query := te_query e; te_cluster := te_cluster e; te_phase := ph |}.
Definition gen_zipf_flip (unique : Z) (s : f64) (queries : Z) (para_rate : f64) (pool_texts : option (list str))
  : rand (list TraceEvent) :=
  let first := queries / 2 in
  let second := queries -! first in
  draw a := gen_zipf_ranks unique s first para_rate pool_texts false in
  draw b := gen_zipf_ranks unique s second para_rate pool_texts true in
  let ev := a ++ b in
  let mid := (length ev / 2)%nat in
  rret (map (event_phase 0) (take mid ev) ++ map (event_phase 1) (drop mid ev)).

(** The one-shot query of position [i]. *)
Definition scan_text (unique : Z) (pool_texts : option (list str)) (i : Z) : outcome str :=
  match pool_texts with
  | Some p => match p !! Z.to_nat (i mod zlen p) with
              | Some t => Ret (lit "scan-" ++ show_Z i ++ lit "-" ++ t)
              | None => Panic
              end
  | None => Ret (bench_id_text (unique +! i))
  end.
Fixpoint scan_events (n : nat) (i unique : Z) (pool_texts : option (list str)) : outcome (list TraceEvent) :=
  match n with
  | O => Ret []
  | S n =>
      let! base := scan_text unique pool_texts i in
      let! rest := scan_events n (i + 1) unique pool_texts in
      Ret ({| te_query := base; te_cluster := cluster_of base; te_phase := 1 |} :: rest)
  end.
Definition gen_scan_storm (unique : Z) (s : f64) (queries scan_n : Z) (para_rate : f64)
  (pool_texts : option (list str)) : rand (list TraceEvent) :=
  let first := queries / 2 in
  let second := queries -! first in
  draw a := gen_zipf unique s first para_rate pool_texts in
  draw scan := rlift (scan_events (Z.to_nat scan_n) 0 unique pool_texts) in
  let ev := a ++ scan in
  let after_scan := length ev in
  draw c := gen_zipf unique s second para_rate pool_texts in
  let ev := ev ++ c in
  let ev := map (event_phase 0) (take (Z.to_nat first) ev) ++ drop (Z.to_nat first) ev in
  rret (take after_scan ev ++ map (event_phase 2) (drop after_scan ev)).

Fixpoint hot_from (n : nat) (i : Z) (pool_texts : option (list str)) : outcome (list str) :=
  match n with
  | O => Ret []
  | S n => let! t := base_text pool_texts i in let! l := hot_from n (i + 1) pool_texts in Ret (t :: l)
  end.
Definition zipf_hot_queries (n : Z) (pool_texts : option (list str)) : outcome (list str) :=
  hot_from (Z.to_nat n) 0 pool_texts.

(** One call of an agent: a query it has already made, or one of the task. *)
Definition agent_pick (requery : f64) (working emitted : list Z) : rand Z :=
  let pick l := draw i := rng_below (zlen l) in rret (default 0 (l !! Z.to_nat i)) in
  match emitted with
  | [] => pick working
  | _ => draw again := bernoulli requery in if again then pick emitted else pick working
  end.
Fixpoint agent_calls (n : nat) (requery para_rate : f64) (pool_texts : option (list str)) (working emitted : list Z)
  : rand (list TraceEvent) :=
  match n with
  | O => rret []
  | S n =>
      draw id := agent_pick requery working emitted in
      draw base := rlift (base_text pool_texts id) in
      draw e := text_event base para_rate in
      draw rest := agent_calls n requery para_rate pool_texts working (emitted ++ [id]) in
      rret (e :: rest)
  end.
Definition working_size (calls : Z) (requery : f64) : Z :=
  f_to_u 64 (F64.add (F64.mul (F64.of_Z calls) (F64.sub (F64.of_Z 1) requery)) (F64.of_Z 2)).
Definition agentic_task (calls : Z) (requery : f64) (agents pool : Z) (para_rate : f64) (pool_texts : option (list str))
  : rand (list TraceEvent) :=
  draw working := times (Z.to_nat (working_size calls requery)) (rng_below pool) in
  draw runs := times (Z.to_nat agents) (agent_calls (Z.to_nat calls) requery para_rate pool_texts working []) in
  rret (concat runs).
Definition gen_agentic (tasks calls : Z) (requery : f64) (agents pool : Z) (para_rate : f64)
  (pool_texts : option (list str)) : rand (list TraceEvent) :=
  draw runs := times (Z.to_nat tasks) (agentic_task calls requery agents pool para_rate pool_texts) in
  rret (concat runs).
End Generators.

(** ** Trace files *)

(** What is wrong with a line: it is no JSON, or has no query. *)
Inductive ReplayError := RNotJson | RMissingQuery.

Section Loaders.
Context `{E : CacheEnv} {J : JsonText}.

Definition replay_line (line : str) : result TraceEvent ReplayError :=
  match json_from_slice (as_bytes line) with
  | None => Err RNotJson
  | Some v =>
      match and_then (v_get v "query") as_str with
      | None => Err RMissingQuery
      | Some q => Ok {| te_query := q; te_phase := 0;
                        te_cluster := default (cluster_of q) (and_then (v_get v "cluster_id") as_u64) |}
      end
  end.
(** Blank lines are skipped; an error carries the number of its line, from one. *)
Fixpoint replay_lines (lineno : Z) (ls : list str) : result (list TraceEvent) (Z * ReplayError) :=
  match ls with
  | [] => Ok []
  | l :: ls =>
      match trim l with
      | [] => replay_lines (lineno + 1) ls
      | line =>
          match replay_line line with
          | Err e => Err (lineno + 1, e)
          | Ok ev => match replay_lines (lineno + 1) ls with Ok evs => Ok (ev :: evs) | Err e => Err e end
          end
      end
  end.
Definition load_replay (raw : str) : result (list TraceEvent) (Z * ReplayError) := replay_lines 0 (str_lines raw).
End Loaders.

(** One line of a file of queries: its second field when it has tabs. *)
Definition query_line (line : str) : option str :=
  match trim line with
  | [] => None
  | l =>
      let text := if contains_char l 9 then trim (default l (split_on 9 [] l !! 1%nat)) else l in
      match text with [] => None | t => Some t end
  end.
Definition load_queries_file (raw : str) : option (list str) :=
  match omap query_line (str_lines raw) with [] => None | l => Some l end.

(** ** The synthetic embedder *)

Definition SEM_DIM : Z := 128.
Definition EXTRA : list str := map lit
  ["signin"; "passcode"; "chargeback"; "purchase"; "profile"; "remove"; "modify"; "failure";
   "how"; "to"; "help"; "with"; "please"; "what"; "is"; "the"]%string.
Definition position_of (w : str) (l : list str) : option Z :=
  (fun '(i, _) => Z.of_nat i) <$> list_find (fun v => v = w) l.
Definition known_word_index (w : str) : option Z :=
  match position_of w VOCAB with
  | Some i => Some i
  | None => (fun i => 50 + i) <$> position_of w EXTRA
  end.

Section Embed.
Context `{E : CacheEnv}.
Definition word_index (tok : str) : Z :=
  default (64 + default 0 (head (blake3_hash (as_bytes tok))) mod (SEM_DIM - 64)) (known_word_index tok).
Definition count_word (v : list f32) (tok : str) : list f32 :=
  alter (fun x => F32.add x (F32.of_Z 1)) (Z.to_nat (word_index tok)) v.
Definition synthetic_embed (text : str) : list f32 :=
  normalize (fold_left count_word (split_whitespace text) (replicate (Z.to_nat SEM_DIM) f_zero)).
Definition bench_query_hash (text : str) : QueryHash := blake3_hash (as_bytes text).
End Embed.

(** ** The generator never gets stuck *)

Lemma lxor_shiftr_inj k x y : 0 < k -> 0 <= x -> 0 <= y ->
  Z.lxor x (Z.shiftr x k) = Z.lxor y (Z.shiftr y k) -> x = y.
Proof.
  intros Hk Hx Hy He. set (d := Z.lxor x y).
  assert (Hd : d = Z.shiftr d k).
  { apply Z.lxor_eq. unfold d. rewrite Z.shiftr_lxor. apply Z.bits_inj'. intros i Hi.
    apply (f_equal (fun z => Z.testbit z i)) in He. rewrite !Z.lxor_spec, Z.bits_0 in *.
    destruct (Z.testbit x i), (Z.testbit y i), (Z.testbit (Z.shiftr x k) i), (Z.testbit (Z.shiftr y k) i); done. }
  apply Z.lxor_eq. fold d. assert (0 <= d) by (by apply Z.lxor_nonneg). rewrite Z.shiftr_div_pow2 in Hd by lia.
  destruct (decide (d = 0)) as [|Hn]; [done|]. assert (d / 2 ^ k < d); [|lia].
  apply Z.div_lt; [lia|]. apply Z.pow_gt_1; lia.
Qed.

Lemma lxor_shiftl_inj k w x y : 0 < k -> 0 <= x < 2 ^ w -> 0 <= y < 2 ^ w -> 0 <= w ->
  Z.lxor x (wrap w (Z.shiftl x k)) = Z.lxor y (wrap w (Z.shiftl y k)) -> x = y.
Proof.
  intros Hk Hx Hy Hw He. assert (Hbits : forall n i, 0 <= i < Z.of_nat n -> Z.testbit x i = Z.testbit y i).
  { induction n as [|n IH]; intros i Hi; [lia|].
    destruct (decide (i < w)) as [Hiw|Hiw].
    - apply (f_equal (fun z => Z.testbit z i)) in He. rewrite !Z.lxor_spec in He. unfold wrap in He.
      rewrite !Z.mod_pow2_bits_low, !Z.shiftl_spec in He by lia.
      assert (Z.testbit x (i - k) = Z.testbit y (i - k)) as Hik.
      { destruct (decide (i < k)); [by rewrite !Z.testbit_neg_r by lia|]. apply IH. lia. }
      rewrite Hik in He. destruct (Z.testbit x i), (Z.testbit y i), (Z.testbit y (i - k)); done.
    - rewrite <- (Z.mod_small x (2 ^ w)), <- (Z.mod_small y (2 ^ w)) by done.
      by rewrite !Z.mod_pow2_bits_high by lia. }
  apply Z.bits_inj'. intros i Hi. apply (Hbits (S (Z.to_nat i))). lia.
Qed.

Lemma lxor_bound w x y : 0 <= w -> 0 <= x < 2 ^ w -> 0 <= y < 2 ^ w -> 0 <= Z.lxor x y < 2 ^ w.
Proof.
  intros Hw Hx Hy. assert (0 <= Z.lxor x y) by (apply Z.lxor_nonneg; lia). split; [done|].
  destruct (decide (Z.lxor x y = 0)) as [->|Hn]; [lia|]. apply Z.log2_lt_pow2; [lia|].
  eapply Z.le_lt_trans; [apply Z.log2_lxor; lia|]. destruct (decide (w = 0)) as [->|].
  { simpl in *. assert (x = 0) by lia. assert (y = 0) by lia. by subst. }
  assert (forall z, 0 <= z < 2 ^ w -> Z.log2 z < w) as Hl; [|apply Z.max_lub_lt; auto].
  intros z Hz. destruct (decide (z = 0)) as [->|]; [simpl; lia|]. apply Z.log2_lt_pow2; lia.
Qed.
Lemma shiftr_bound w k x : 0 <= k -> 0 <= x < 2 ^ w -> 0 <= Z.shiftr x k < 2 ^ w.
Proof.
  intros Hk Hx. rewrite Z.shiftr_div_pow2 by done. assert (0 < 2 ^ k) by (apply Z.pow_pos_nonneg; lia).
  split; [apply Z.div_pos; lia|]. eapply Z.le_lt_trans; [|apply Hx]. apply Z.div_le_upper_bound; nia.
Qed.

Definition rng_state (st : Z) : Prop := 0 < st < 2 ^ 64.
Lemma xorshift_inj x y : 0 <= x < 2 ^ 64 -> 0 <= y < 2 ^ 64 -> xorshift x = xorshift y -> x = y.
Proof.
  intros Hx Hy He. unfold xorshift in He. cbv zeta in He.
  assert (Hstep : forall z, 0 <= z < 2 ^ 64 -> 0 <= Z.lxor z (Z.shiftr z 12) < 2 ^ 64)
    by (intros; apply lxor_bound; [done..|]; by apply shiftr_bound).
  assert (Hmid : forall z, 0 <= z < 2 ^ 64 -> 0 <= Z.lxor z (wrap 64 (Z.shiftl z 25)) < 2 ^ 64)
    by (intros; apply lxor_bound; [done..|]; by apply Z.mod_pos_bound).
  apply lxor_shiftr_inj in He; [|done|apply Hmid, Hstep, Hx|apply Hmid, Hstep, Hy].
  apply lxor_shiftl_inj in He; [|done|by apply Hstep..|done].
  apply lxor_shiftr_inj in He; [done|done|lia..].
Qed.
Lemma xorshift_bound x : 0 <= x < 2 ^ 64 -> 0 <= xorshift x < 2 ^ 64.
Proof.
  intros Hx. unfold xorshift. cbv zeta.
  assert (H1 : 0 <= Z.lxor x (Z.shiftr x 12) < 2 ^ 64) by (apply lxor_bound; [done..|]; by apply shiftr_bound).
  set (z := Z.lxor x (Z.shiftr x 12)) in *.
  assert (H2 : 0 <= Z.lxor z (wrap 64 (Z.shiftl z 25)) < 2 ^ 64)
    by (apply lxor_bound; [done..|]; by apply Z.mod_pos_bound).
  apply lxor_bound; [done..|]. by apply shiftr_bound.
Qed.
Lemma star_inj x y : 0 <= x < 2 ^ 64 -> 0 <= y < 2 ^ 64 ->
  wrap 64 (x * 0x2545F4914F6CDD1D) = wrap 64 (y * 0x2545F4914F6CDD1D) -> x = y.
Proof.
  intros Hx Hy He. unfold wrap in He.
  assert (Hd : (2 ^ 64 | 0x2545F4914F6CDD1D * (x - y))).
  { apply Z.mod_divide; [done|]. replace (0x2545F4914F6CDD1D * (x - y)) with
      (x * 0x2545F4914F6CDD1D - y * 0x2545F4914F6CDD1D) by lia.
    rewrite Zminus_mod, He, Z.sub_diag. by apply Z.mod_0_l. }
  apply Z.gauss in Hd; [|by vm_compute]. destruct Hd as [k Hk].
  change (2 ^ 64) with 18446744073709551616 in *. destruct (decide (k = 0)) as [->|]; lia.
Qed.

(** From every seed the states stay non-zero 64-bit numbers, two states are followed by
    different states and give different numbers, so the sequence returns to its start
    without ever sticking at zero. *)
Theorem rng_never_stuck st : rng_state st ->
  rng_state (next_u64 st).2 /\ 0 < (next_u64 st).1 < 2 ^ 64 /\
  (forall st', rng_state st' -> (next_u64 st').2 = (next_u64 st).2 \/ (next_u64 st').1 = (next_u64 st).1 -> st' = st).
Proof.
  intros Hs. assert (Hr : forall z, rng_state z -> 0 <= z < 2 ^ 64) by (unfold rng_state; lia).
  assert (Hx0 : xorshift st <> 0).
  { intros H0. apply (xorshift_inj st 0) in H0; [unfold rng_state in Hs; lia|by apply Hr|done]. }
  pose proof (xorshift_bound st (Hr _ Hs)) as Hb. split; [unfold rng_state; cbn [next_u64 snd]; lia|]. split.
  - unfold next_u64. cbv zeta. cbn [fst]. pose proof (Z.mod_pos_bound (xorshift st * 0x2545F4914F6CDD1D) (2 ^ 64) eq_refl).
    unfold wrap. assert (wrap 64 (xorshift st * 0x2545F4914F6CDD1D) <> 0); [|unfold wrap in *; lia].
    intros H0. apply Hx0, star_inj; [done|done|by rewrite H0].
  - intros st' Hs' [He|He]; unfold next_u64 in He; cbv zeta in He; cbn [fst snd] in He.
    + apply xorshift_inj; auto.
    + apply xorshift_inj; auto. apply star_inj; auto using xorshift_bound.
Qed.
Lemma rng_new_state seed : in_u 64 seed -> rng_state (Rng_new seed).
Proof. unfold in_u, u_max, rng_state, Rng_new. lia. Qed.

(** ** Texts and paraphrases *)

Lemma str_leb_refl a : str_leb a a = true.
Proof. induction a as [|x a IH]; [done|]. cbn. rewrite Z.eqb_refl, IH, andb_true_r. apply orb_true_r. Qed.
Lemma str_leb_total a b : str_leb a b = true \/ str_leb b a = true.
Proof.
  revert b. induction a as [|x a IH]; intros [|y b]; cbn; auto.
  destruct (Z.ltb_spec x y), (Z.ltb_spec y x); auto. assert (x = y) as -> by lia. rewrite Z.eqb_refl. apply IH.
Qed.
Lemma str_leb_trans a b c : str_leb a b = true -> str_leb b c = true -> str_leb a c = true.
Proof.
  revert b c. induction a as [|x a IH]; intros [|y b] [|z c]; cbn; try done.
  rewrite !orb_true_iff, !andb_true_iff, !Z.ltb_lt, !Z.eqb_eq. intros [H|[-> H]] [H'|[-> H']].
  - left. lia.
  - by left.
  - by left.
  - right. split; [done|]. by eapply IH.
Qed.
Lemma str_leb_antisym a b : str_leb a b = true -> str_leb b a = true -> a = b.
Proof.
  revert b. induction a as [|x a IH]; intros [|y b]; cbn; try done.
  rewrite !orb_true_iff, !andb_true_iff, !Z.ltb_lt, !Z.eqb_eq. intros [H|[-> H]] [H'|[H'' H']]; try lia.
  f_equal. by apply IH.
Qed.

(** Sorting words does not depend on the order they come in. *)
Lemma sort_words_perm l l' : l ≡ₚ l' -> sort_by str_leb l = sort_by str_leb l'.
Proof.
  intros Hp. set (R := fun a b => str_leb a b = true).
  assert (AntiSymm (=) R) by (intros a b; apply str_leb_antisym).
  assert (Hs : forall k, StronglySorted R (sort_by str_leb k)).
  { intros k. apply sort_by_sorted; [|apply str_leb_trans]. intros x y Hxy. destruct (str_leb_total x y); congruence. }
  apply (StronglySorted_unique R); [apply Hs..|]. by rewrite !sort_by_perm.
Qed.

(** A word: not empty, without white space. *)
Definition plain_word (w : str) : Prop := w <> [] /\ Forall (fun c => is_whitespace c = false) w.

Lemma split_ws_cur cur s : Forall (fun c => is_whitespace c = false) s ->
  split_ws cur s = match cur ++ s with [] => [] | w => [w] end.
Proof.
  intros Hs. revert cur. induction Hs as [|c s Hc Hs IH]; intros cur.
  - rewrite app_nil_r. destruct cur; done.
  - cbn. rewrite Hc, IH. by rewrite <- app_assoc.
Qed.
Lemma split_ws_word cur w s : Forall (fun c => is_whitespace c = false) w -> cur ++ w <> [] ->
  split_ws cur (w ++ 32 :: s) = (cur ++ w) :: split_ws [] s.
Proof.
  intros Hw. revert cur. induction Hw as [|c w Hc Hw IH]; intros cur Hn; cbn.
  - rewrite app_nil_r in *. destruct cur; done.
  - rewrite Hc, IH; rewrite <- app_assoc; done.
Qed.
Lemma split_join_words l : Forall plain_word l -> split_whitespace (join_words (lit " ") l) = l.
Proof.
  unfold split_whitespace. induction 1 as [|w l [Hn Hw] Hl IH]; [done|].
  destruct l as [|w' l].
  - cbn [join_words]. rewrite split_ws_cur by done. destruct w; done.
  - change (join_words (lit " ") (w :: w' :: l)) with (w ++ 32 :: join_words (lit " ") (w' :: l)). rewrite split_ws_word by done. by rewrite IH.
Qed.
Lemma split_ws_words cur s : Forall (fun c => is_whitespace c = false) cur -> Forall plain_word (split_ws cur s).
Proof.
  revert cur. induction s as [|c s IH]; intros cur Hc; cbn.
  - destruct cur; [constructor|]. constructor; [done|constructor].
  - destruct (is_whitespace c) eqn:Ec.
    + destruct cur; [by apply IH|]. constructor; [done|]. by apply IH.
    + apply IH, Forall_app. split; [done|by repeat constructor].
Qed.

Lemma vocab_words : Forall plain_word VOCAB.
Proof. unfold plain_word. repeat (constructor; [split; [done|by repeat constructor]|]). constructor. Qed.
Lemma vocab_word i : 0 <= i < 50 -> plain_word (vocab i).
Proof.
  intros Hi. unfold vocab. destruct (VOCAB !! Z.to_nat i) as [w|] eqn:Ew; cbn.
  - eapply Forall_lookup_1; [apply vocab_words|done].
  - apply lookup_ge_None in Ew. change (length VOCAB) with 50%nat in Ew. lia.
Qed.
Lemma id_words_word id : Forall plain_word (id_words id).
Proof. unfold id_words. repeat constructor; apply vocab_word; by apply Z.mod_pos_bound. Qed.

(** Two numbers have the same text exactly when they select the same words, in whatever
    order. *)
Theorem id_text_canonical a b : bench_id_text a = bench_id_text b <-> id_words a ≡ₚ id_words b.
Proof.
  unfold bench_id_text. split; intros H; [|by rewrite (sort_words_perm _ _ H)].
  assert (Hw : forall id, Forall plain_word (sort_by str_leb (id_words id)))
    by (intros id; rewrite sort_by_perm; apply id_words_word).
  apply (f_equal split_whitespace) in H. rewrite !split_join_words in H by auto.
  by rewrite <- (sort_by_perm str_leb (id_words a)), H, sort_by_perm.
Qed.

(** ** Shuffles and the synthetic embedder *)

Lemma list_swap_perm {A} i j (l : list A) : list_swap i j l ≡ₚ l.
Proof.
  unfold list_swap. destruct (l !! i) as [x|] eqn:Hx; [|done]. destruct (l !! j) as [y|] eqn:Hy; [|done].
  destruct (decide (i = j)) as [<-|Hij].
  { assert (x = y) as <- by congruence. by rewrite list_insert_insert_eq, list_insert_id. }
  symmetry. apply Permutation_inj. split; [by rewrite !length_insert|].
  exists (fun k => if decide (k = i) then j else if decide (k = j) then i else k). split.
  - intros a b. repeat case_decide; congruence.
  - intros k. pose proof (lookup_lt_Some _ _ _ Hx). pose proof (lookup_lt_Some _ _ _ Hy).
    repeat case_decide; subst.
    + rewrite list_lookup_insert_ne by done. by rewrite list_lookup_insert_eq, Hx by done.
    + rewrite list_lookup_insert_eq by (by rewrite length_insert). done.
    + by rewrite !list_lookup_insert_ne.
Qed.
Lemma fisher_yates_perm {A} i (w w' : list A) st st' : fisher_yates i w st = Ret (w', st') -> w' ≡ₚ w.
Proof.
  revert w st. induction i as [|i IH]; intros w st; cbn -[rng_below]; [by intros [= -> _]|].
  unfold rand_bind at 1. destruct (rng_below _ st) as [[j st1]|]; [|done]. cbn -[list_swap].
  intros H%IH. by rewrite H, list_swap_perm.
Qed.

Section EmbedProps.
Context `{E : CacheEnv}.
Lemma count_words_perm l l' v : l ≡ₚ l' -> fold_left count_word l v = fold_left count_word l' v.
Proof.
  intros Hp. revert v. induction Hp as [|x l l' Hp IH|x y l|l1 l2 l3 H1 IH1 H2 IH2]; intros v; cbn; [done|apply IH| |].
  - f_equal. unfold count_word. destruct (decide (Z.to_nat (word_index x) = Z.to_nat (word_index y))) as [->|Hn]; [done|].
    by apply list_alter_alter_ne.
  - by rewrite IH1, IH2.
Qed.
(** Texts with the same words have the same vector. *)
Theorem same_words_same_embedding t t' :
  split_whitespace t ≡ₚ split_whitespace t' -> synthetic_embed t = synthetic_embed t'.
Proof. intros Hp. unfold synthetic_embed. by rewrite (count_words_perm _ _ _ Hp). Qed.

(** A shuffled text has the vector of the text it comes from. *)
Corollary shuffle_same_embedding i t w st st' : fisher_yates i (split_whitespace t) st = Ret (w, st') ->
  synthetic_embed (join_words (lit " ") w) = synthetic_embed t.
Proof.
  intros H%fisher_yates_perm. apply same_words_same_embedding. rewrite split_join_words; [done|].
  rewrite H. by apply split_ws_words.
Qed.
End EmbedProps.

(** ** The shape of the traffic *)

(** From every state of the generator [m] gives a value with the property [Q]. *)
Definition draws {A} (m : rand A) (Q : A -> Prop) : Prop := forall st, exists a st', m st = Ret (a, st') /\ Q a.

Lemma draws_ret {A} (a : A) (Q : A -> Prop) : Q a -> draws (rret a) Q.
Proof. intros H st. by exists a, st. Qed.
Lemma draws_bind {A B} (m : rand A) (k : A -> rand B) Q R :
  draws m Q -> (forall a, Q a -> draws (k a) R) -> draws (rand_bind m k) R.
Proof.
  intros Hm Hk st. destruct (Hm st) as (a & st1 & Ha & HQ). destruct (Hk a HQ st1) as (b & st2 & Hb & HR).
  exists b, st2. unfold rand_bind. by rewrite Ha.
Qed.
Lemma draws_mono {A} (m : rand A) (Q R : A -> Prop) : draws m Q -> (forall a, Q a -> R a) -> draws m R.
Proof. intros Hm Hi st. destruct (Hm st) as (a & st' & Ha & HQ). exists a, st'. auto. Qed.
Lemma draws_lift {A} (o : outcome A) (a : A) : o = Ret a -> draws (rlift o) (fun x => x = a).
Proof. intros -> st. by exists a, st. Qed.
Lemma draws_below n : 0 < n -> draws (rng_below n) (fun x => 0 <= x < n).
Proof.
  intros Hn st. unfold rng_below, rand_bind, rng_u64. destruct (next_u64 st) as [x st']. cbn.
  rewrite (proj2 (Z.eqb_neq n 0)) by lia. exists (x mod n), st'. split; [done|by apply Z.mod_pos_bound].
Qed.
Lemma draws_f64 : draws rng_f64 (fun _ => True).
Proof. intros st. unfold rng_f64, rand_bind, rng_u64. destruct (next_u64 st). cbn. eauto. Qed.
Lemma draws_bernoulli p : draws (bernoulli p) (fun _ => True).
Proof. eapply draws_bind; [apply draws_f64|]. intros. by apply draws_ret. Qed.
Lemma draws_times {A} n (m : rand A) Q : draws m Q -> draws (times n m) (fun l => length l = n /\ Forall Q l).
Proof.
  intros Hm. induction n as [|n IH]; cbn [times]; [by apply draws_ret|].
  eapply draws_bind; [exact Hm|]. intros a Ha. eapply draws_bind; [exact IH|]. intros l [Hl HQ].
  apply draws_ret. cbn. split; [lia|by constructor].
Qed.
#[export] Hint Resolve draws_ret draws_f64 draws_bernoulli draws_times : cpx.

Lemma draws_fisher_yates {A} i (w : list A) : draws (fisher_yates i w) (fun w' => w' ≡ₚ w).
Proof.
  intros st. assert (draws (fisher_yates i w) (fun _ => True)) as Hd.
  { clear st. revert w. induction i as [|i IH]; intros w; cbn [fisher_yates]; [by apply draws_ret|].
    eapply draws_bind; [apply draws_below; lia|]. intros j _. apply IH. }
  destruct (Hd st) as (w' & st' & H & _). exists w', st'. split; [done|]. by eapply fisher_yates_perm.
Qed.
(** A paraphrase is always found: the words in another order, one word exchanged for its
    synonym, or the text in a template. *)
Lemma draws_paraphrase text : draws (paraphrase text) (fun q =>
  split_whitespace q ≡ₚ split_whitespace text \/ q = swap_synonym SYNONYMS text \/
  q ∈ [lit "how to " ++ text; lit "help with " ++ text; lit "please " ++ text]).
Proof.
  unfold paraphrase. eapply draws_bind; [by apply draws_below|]. intros k Hk. destruct (k =? 0).
  - eapply draws_bind; [apply draws_fisher_yates|]. intros w Hw. apply draws_ret. left.
    rewrite split_join_words; [done|]. rewrite Hw. by apply split_ws_words.
  - destruct (k =? 1); [apply draws_ret; auto|].
    eapply draws_bind; [by apply draws_below|]. intros t Ht. apply draws_ret. right. right.
    cbv beta in Ht. change (zlen TEMPLATES) with 3 in Ht.
    assert (Hr : forall h, h ∈ map lit ["how to "; "help with "; "please "]%string ->
      replace_first (lit "{}") text (h ++ lit "{}") = h ++ text ++ []).
    { intros h Hh. cbn [map] in Hh. repeat (apply elem_of_cons in Hh as [-> | Hh]; [reflexivity|]). by apply not_elem_of_nil in Hh. }
    assert (Hrest : t = 0 \/ t = 1 \/ t = 2) by lia.
    destruct Hrest as [-> | [-> | -> ] ];
      [change (default [] _) with (lit "how to " ++ lit "{}")|change (default [] _) with (lit "help with " ++ lit "{}")
      |change (default [] _) with (lit "please " ++ lit "{}")]; rewrite Hr by set_solver; rewrite app_nil_r; set_solver.
Qed.

Section Shapes.
Context `{E : CacheEnv} {P : FloatPowf}.

(** The event is about the text of a number in [ids]. *)
Definition about (pool_texts : option (list str)) (ids : Z -> Prop) (e : TraceEvent) : Prop :=
  exists i t, ids i /\ base_text pool_texts i = Ret t /\ te_cluster e = cluster_of t /\ te_phase e = 0.
Definition usable (pool_texts : option (list str)) : Prop :=
  match pool_texts with Some p => p <> [] | None => True end.

Lemma base_text_ret pool_texts i : usable pool_texts -> exists t, base_text pool_texts i = Ret t.
Proof.
  destruct pool_texts as [p|]; cbn; [|eauto]. intros Hp.
  assert (0 < zlen p) by (unfold zlen; destruct p; [done|cbn; lia]).
  pose proof (Z.mod_pos_bound i (zlen p)). destruct (p !! _) eqn:El; [eauto|].
  apply lookup_ge_None in El. unfold zlen in *. lia.
Qed.
Lemma draws_text_event pool_texts (ids : Z -> Prop) i t rate : ids i -> base_text pool_texts i = Ret t ->
  draws (text_event t rate) (about pool_texts ids).
Proof.
  intros Hi Ht. unfold text_event. eapply (draws_bind _ _ (fun _ => True)).
  - unfold maybe_paraphrase. destruct (f_gt _ _); [|by apply draws_ret].
    eapply draws_bind; [apply draws_bernoulli|]. intros [] _; [|by apply draws_ret].
    eapply draws_mono; [apply draws_paraphrase|done].
  - intros q _. apply draws_ret. exists i, t. done.
Qed.

Lemma partition_point_nonneg {A} (p : A -> bool) l : 0 <= partition_point p l.
Proof. induction l as [|a l IH]; cbn [partition_point]; [done|]. destruct (p a); lia. Qed.
Lemma zipf_rank_range unique prefix total x invert : 0 < unique -> 0 <= zipf_rank unique prefix total x invert < unique.
Proof.
  intros Hu. unfold zipf_rank. pose proof (partition_point_nonneg (fun c => f_lt c (F64.mul x total)) prefix).
  destruct invert; lia.
Qed.
(** Zipf traffic has the length asked for, each query about a rank of the distribution. *)
Lemma draws_zipf unique s queries rate pool_texts invert : usable pool_texts -> 0 <= queries ->
  draws (gen_zipf_ranks unique s queries rate pool_texts invert)
    (fun l => zlen l = queries /\ Forall (about pool_texts (fun i => 0 <= i < Z.max unique 1)) l).
Proof.
  intros Hu Hq. unfold gen_zipf_ranks. eapply draws_mono; [apply draws_times|].
  - eapply draws_bind; [apply draws_f64|]. intros x _.
    destruct (base_text_ret pool_texts (zipf_rank (Z.max unique 1) (zipf_prefix (Z.to_nat (Z.max unique 1)) 1 s f_zero)
      (default f_zero (last (zipf_prefix (Z.to_nat (Z.max unique 1)) 1 s f_zero))) x invert) Hu) as [t Ht].
    eapply draws_bind; [exact (draws_lift _ _ Ht)|]. intros ? ->.
    eapply (draws_text_event _ (fun i => 0 <= i < Z.max unique 1)); [|exact Ht].
    apply zipf_rank_range. lia.
  - cbn beta. intros l [Hl HF]. split; [unfold zlen; lia|done].
Qed.
Lemma about_phase pool_texts ids l : Forall (about pool_texts ids) l -> map te_phase l = replicate (length l) 0.
Proof. induction 1 as [|e l (i & t & _ & _ & _ & He) Hl IH]; [done|]. cbn. by rewrite He, IH. Qed.
Lemma map_set_phase ph l : map te_phase (map (event_phase ph) l) = replicate (length l) ph.
Proof. induction l as [|e l IH]; [done|]. cbn. by rewrite IH. Qed.

(** Traffic whose popularity flips: ranks in their order, then inverted. *)
Theorem flip_shape unique s queries rate pool_texts : usable pool_texts -> 0 <= queries ->
  draws (gen_zipf_flip unique s queries rate pool_texts) (fun l => zlen l = queries /\
    map te_phase l = replicate (Z.to_nat (queries / 2)) 0 ++ replicate (Z.to_nat (queries - queries / 2)) 1).
Proof.
  intros Hu Hq. assert (Hd : 0 <= queries / 2 <= queries) by (split; [by apply Z.div_pos|apply Z.div_le_upper_bound; lia]).
  unfold gen_zipf_flip, sat_sub. rewrite Z.max_l by lia.
  eapply draws_bind; [apply draws_zipf; [done|lia]|]. intros a [Ha _].
  eapply draws_bind; [apply draws_zipf; [done|lia]|]. intros b [Hb _]. apply draws_ret.
  assert (Hlen : length (a ++ b) = Z.to_nat queries) by (rewrite length_app; unfold zlen in *; lia).
  assert (Hmid : (length (a ++ b) / 2 = Z.to_nat (queries / 2))%nat).
  { rewrite Hlen. apply Nat2Z.inj. rewrite Nat2Z.inj_div, !Z2Nat.id by lia. done. }
  rewrite Hmid, map_app, !map_set_phase, length_take, length_drop. unfold zlen in *.
  rewrite length_app, !length_map, length_take, length_drop. split; [lia|]. f_equal; f_equal; lia.
Qed.

Lemma scan_text_ret unique pool_texts i : usable pool_texts -> exists t, scan_text unique pool_texts i = Ret t.
Proof.
  intros Hu. destruct (base_text_ret pool_texts i Hu) as [t Ht]. unfold scan_text. destruct pool_texts as [p|]; [|eauto].
  cbn in Ht. destruct (p !! _); eauto.
Qed.
Lemma scan_events_shape n i unique pool_texts : usable pool_texts -> exists l,
  scan_events n i unique pool_texts = Ret l /\ map te_phase l = replicate n 1 /\
  Forall (fun e => te_cluster e = cluster_of (te_query e)) l.
Proof.
  intros Hu. revert i. induction n as [|n IH]; intros i; cbn [scan_events]; [by exists []|].
  destruct (scan_text_ret unique pool_texts i Hu) as [t ->]. destruct (IH (i + 1)) as (l & -> & Hp & Hc). cbn [obind].
  eexists. split; [done|]. cbn. rewrite Hp. split; [done|by constructor].
Qed.
(** A storm: half of the queries, the one-shots, the other half. *)
Theorem scan_shape unique s queries scan_n rate pool_texts : usable pool_texts -> 0 <= queries -> 0 <= scan_n ->
  draws (gen_scan_storm unique s queries scan_n rate pool_texts) (fun l => zlen l = queries + scan_n /\
    map te_phase l = replicate (Z.to_nat (queries / 2)) 0 ++ replicate (Z.to_nat scan_n) 1 ++
                     replicate (Z.to_nat (queries - queries / 2)) 2).
Proof.
  intros Hu Hq Hn. assert (Hd : 0 <= queries / 2 <= queries) by (split; [by apply Z.div_pos|apply Z.div_le_upper_bound; lia]).
  unfold gen_scan_storm, sat_sub. rewrite Z.max_l by lia.
  eapply draws_bind; [apply draws_zipf; [done|lia]|]. intros a [Ha HF].
  destruct (scan_events_shape (Z.to_nat scan_n) 0 unique pool_texts Hu) as (sc & Hsc & Hp & _).
  eapply draws_bind; [exact (draws_lift _ _ Hsc)|]. intros ? ->.
  eapply draws_bind; [apply draws_zipf; [done|lia]|]. intros c [Hc _]. apply draws_ret.
  assert (Hla : length a = Z.to_nat (queries / 2)) by (unfold zlen in *; lia).
  assert (Hls : length sc = Z.to_nat scan_n) by (by rewrite <- (length_map te_phase), Hp, length_replicate).
  assert (Htd : forall (A : Type) n (k1 k2 : list A), length k1 = n -> take n (k1 ++ k2) = k1 /\ drop n (k1 ++ k2) = k2).
  { intros A n k1 k2 <-. by rewrite take_app_length, drop_app_length. }
  rewrite <- (app_assoc a sc c). destruct (Htd _ _ a (sc ++ c) Hla) as [-> ->]. rewrite (app_assoc _ sc c).
  destruct (Htd _ (length (a ++ sc)) (map (event_phase 0) a ++ sc) c) as [-> ->]; [by rewrite !length_app, length_map|].
  unfold zlen in *. rewrite !map_app, !map_set_phase, Hp, !length_app, !length_map, Hla, Hls, <- app_assoc. split; [lia|].
  repeat f_equal. lia.
Qed.

Lemma draws_member (ids : Z -> Prop) (l : list Z) : l <> [] -> Forall ids l ->
  draws (draw i := rng_below (zlen l) in rret (default 0 (l !! Z.to_nat i))) ids.
Proof.
  intros Hn HF. assert (0 < zlen l) by (unfold zlen; destruct l; [done|cbn; lia]).
  eapply draws_bind; [by apply draws_below|]. intros i Hi. apply draws_ret.
  destruct (l !! Z.to_nat i) as [x|] eqn:Ex; cbn; [by eapply Forall_lookup_1|].
  apply lookup_ge_None in Ex. unfold zlen in *. cbv beta in Hi. lia.
Qed.
Lemma draws_agent_calls n requery rate pool_texts (ids : Z -> Prop) working emitted :
  usable pool_texts -> n = O \/ working <> [] -> Forall ids working -> Forall ids emitted ->
  draws (agent_calls n requery rate pool_texts working emitted)
    (fun l => length l = n /\ Forall (about pool_texts ids) l).
Proof.
  intros Hu Hw HFw. revert emitted. induction n as [|n IH]; intros emitted HFe; cbn [agent_calls]; [by apply draws_ret|].
  destruct Hw as [|Hw]; [done|]. eapply (draws_bind _ _ ids).
  - unfold agent_pick. destruct emitted as [|e0 em]; [by apply draws_member|].
    eapply draws_bind; [apply draws_bernoulli|]. intros [] _; by apply draws_member.
  - intros id Hid. destruct (base_text_ret pool_texts id Hu) as [t Ht].
    eapply draws_bind; [exact (draws_lift _ _ Ht)|]. intros ? ->.
    eapply draws_bind; [by eapply (draws_text_event _ ids)|]. intros e He.
    eapply draws_bind; [apply IH; [by right|apply Forall_app; by auto]|]. intros l [Hl HF].
    apply draws_ret. cbn. split; [lia|by constructor].
Qed.
Lemma concat_shape {A} (Q : A -> Prop) n m (ls : list (list A)) :
  length ls = n /\ Forall (fun l => length l = m /\ Forall Q l) ls ->
  length (concat ls) = (n * m)%nat /\ Forall Q (concat ls).
Proof.
  intros [<- HF]. induction HF as [|l ls [Hl HQ] HF [IH1 IH2]]; [done|]. cbn. rewrite length_app, IH1, Hl. split; [done|].
  by apply Forall_app.
Qed.
(** Agentic traffic: every agent of every task makes its calls, each about an entry of
    the pool; with a pool and a working set that are not empty nothing panics. *)
Theorem agentic_shape tasks calls requery agents pool rate pool_texts :
  usable pool_texts -> 0 < pool -> 0 < working_size calls requery -> 0 <= tasks -> 0 <= agents -> 0 <= calls ->
  draws (gen_agentic tasks calls requery agents pool rate pool_texts) (fun l =>
    zlen l = tasks * agents * calls /\ Forall (about pool_texts (fun i => 0 <= i < pool)) l).
Proof.
  intros Hu Hp Hw Ht Ha Hc. unfold gen_agentic. eapply draws_bind.
  - apply draws_times. eapply (draws_bind _ _ (fun w => w <> [] /\ Forall (fun i => 0 <= i < pool) w)
      (fun l => length l = (Z.to_nat agents * Z.to_nat calls)%nat /\ Forall (about pool_texts (fun i => 0 <= i < pool)) l)).
    + eapply draws_mono; [apply draws_times, draws_below, Hp|]. cbv beta. intros w [Hl HF]. split; [|done].
      intros ->. cbn in Hl. lia.
    + intros w [Hn HF]. eapply draws_bind.
      * apply draws_times, (draws_agent_calls _ _ _ _ (fun i => 0 <= i < pool) _ []); [done|by right|exact HF|constructor].
      * intros runs Hr%concat_shape. apply draws_ret, Hr.
  - intros runs Hr%concat_shape. apply draws_ret. unfold zlen. destruct Hr as [Hl HF]. split; [|done]. rewrite Hl. lia.
Qed.
End Shapes.

(** ** What the traffic does otherwise than described *)

(** The one-shots of a storm are texts of ranks: the first one, under the default of
    10000 ranks, is the query of the fifth rank. *)
Theorem scan_repeats_hot : scan_text 10000 None 0 = Ret (bench_id_text 4) /\ id_words 10000 <> id_words 4.
Proof. split; vm_compute; [done|discriminate]. Qed.

(** A paraphrase may be the text itself, and a synonym may give the text of another number. *)
Theorem paraphrase_may_repeat : swap_synonym SYNONYMS (bench_id_text 51020) = bench_id_text 51020 /\
  swap_synonym SYNONYMS (bench_id_text (5 + 50 * 5 + 2500 * 5)) = bench_id_text (4 + 50 * 5 + 2500 * 5).
Proof. split; by vm_compute. Qed.

(** A row whose query is empty gives the number of the row. *)
Theorem empty_row_gives_its_id : load_queries_file (lit "7" ++ [9; 10]) = Some [lit "7"].
Proof. by vm_compute. Qed.

(** Two of the known words lie in the part of the vector that other words hash into. *)
Theorem tail_overlaps_words `{E : CacheEnv} tok : known_word_index tok = None ->
  head (blake3_hash (as_bytes tok)) = Some 1 -> word_index tok = word_index (lit "the").
Proof.
  intros Hk Hh. unfold word_index at 1. rewrite Hk, Hh. unfold word_index.
  replace (known_word_index (lit "the")) with (Some 65) by (by vm_compute). by vm_compute.
Qed.

(** ** Witnesses *)

Lemma rng_never_stuck_witness : rng_state (next_u64 (Rng_new 42)).2.
Proof. apply (rng_never_stuck (Rng_new 42)). split; by vm_compute. Defined.
