(* ===== verification/HitRate.v ===== *)
(** * The hit-rate benchmark (src/src/bin/hitrate_bench.rs): sweeps and verdict

    A trace of [HitTrace] is replayed against the store of [Cache] ([run_sweep]) or
    against the store and the embedding tier of [Semantic] ([run_sem_sweep]); the reports
    give the verdict and the exit code.  The store reads its own clock, the replay has a
    virtual one.  Counters are exact: there are at most as many events as a vector holds. *)

From Stdlib Require Import SpecFloat.
From S2P Require Import Prelude Floats Text Types Cdc Cache CacheInv CacheReach CacheSpec CacheProps Scope Semantic.
From S2P Require Import HitTrace.
Open Scope Z_scope.
Open Scope conproxy_scope.

Record CostModel := {
  t_lookup_ms : f64; t_embed_ms : f64; t_backend_ms : f64; embed_usd_per_mtok : f64; ru_usd_per_m : f64;
  tokens_per_query : f64
}.
Definition saved_per_hit_ms (m : CostModel) : f64 := F64.add (t_embed_ms m) (t_backend_ms m).
Definition usd_per_1k_hits (m : CostModel) : f64 :=
  let embed := F64.div (F64.mul (embed_usd_per_mtok m) (tokens_per_query m)) (F64.of_Z 1000) in
  F64.add embed (F64.div (ru_usd_per_m m) (F64.of_Z 1000)).

Record PressureCfg := {
  warmup_frac : f64; series_every : Z; hot_queries : list str; hot_queries_current : list str;
  elephants : bool; elephant_bytes : Z
}.

(** ** Answers of the benchmark's upstream *)

Definition make_response_sized (content_bytes : Z) : QueryResponse :=
  {| results := [{| sr_id := lit "bench-doc"; score := F32.of_Z 1; metadata := None;
                    content := if content_bytes =? 0 then lit "hitrate bench payload"
                               else replicate (Z.to_nat content_bytes) 120;
                    sr_upstream_id := Some (lit "bench") |}];
     cache_status := Miss; took_ms := 1; generated_at := None; miss_reason := None |}.
Definition make_response : QueryResponse := make_response_sized 0.

(** The texts an embedder has seen, with their vectors. *)
Abbreviation Memo := (gmap str EmbVec).

Section HitRate.
Context `{E : CacheEnv}.

Definition payload_len (query : str) (min max : Z) : Z :=
  if max <=? min then Z.max min 1
  else
    let frac := F64.div (F64.of_Z (from_le_bytes (take 8 (bench_query_hash query)))) (F64.of_Z u64_max) in
    let t := F64.mul (F64.mul frac frac) frac in
    let span := max -! min in
    Z.max (Z.min (Z.max (min +! f_to_u 64 (F64.mul t (F64.of_Z span))) min) max) 1.
Definition is_elephant (query : str) : bool := default 0 (bench_query_hash query !! 8%nat) mod 100 =? 0.

(** What a replay is run with. *)
Record SweepCfg := {
  sc_ttl : option Z; sc_dt : f64; sc_mutation_rate : f64; sc_cdc_delay : option f64; sc_max_memory : Z;
  sc_payload_min : Z; sc_payload_max : Z; sc_pressure : PressureCfg;
  (** The clock of the store, at each event. *)
  sc_clock : Z -> Clock
}.
Definition mk_resp (c : SweepCfg) (q : str) : QueryResponse :=
  if elephants (sc_pressure c) && is_elephant q then make_response_sized (Z.max (elephant_bytes (sc_pressure c)) 1)
  else if sc_payload_max c =? 0 then make_response
  else make_response_sized (payload_len q (Z.max (sc_payload_min c) 1) (sc_payload_max c)).
Definition sweep_store (c : SweepCfg) (cache_size : Z) : CacheStore :=
  if 0 <? sc_max_memory c
  then with_memory_limit (from_secs 86400) (from_secs 604800) cache_size (sc_max_memory c)
  else CacheStore_new (from_secs 86400) (from_secs 604800) cache_size.
Definition mutations (c : SweepCfg) : bool := f_gt (sc_mutation_rate c) f_zero.
Definition ttl_secs (c : SweepCfg) : option f64 := as_secs_f64 <$> sc_ttl c.

(** The world behind the cache: the virtual time, the versions of the clusters, the
    versions that have been invalidated, the invalidations under way, the history. *)
Record SweepWorld := {
  w_now : f64; w_version : gmap Z Z; w_healed : gmap Z Z; w_pending : list (f64 * Z); w_seen : list Z
}.
(** The store with what is known of its entries, and the counters. *)
Record SweepServed := {
  sv_store : CacheStore; sv_vtime : gmap QueryHash f64; sv_version : gmap QueryHash Z; sv_cached : gset Z;
  sv_exact : Z; sv_expired : Z; sv_stale : Z; sv_healed : Z; sv_ceiling : Z
}.
Record Tally := {
  tl_tail_hits : Z; tl_tail_q : Z; tl_seen : Z; tl_series : list (Z * f64); tl_prev : Z;
  tl_phase_q : list Z; tl_phase_h : list Z
}.

(** The invalidations that are due: each one covers the present version of its cluster. *)
Fixpoint fire_due (now : f64) (versions : gmap Z Z) (pending : list (f64 * Z)) (healed : gmap Z Z)
  : list (f64 * Z) * gmap Z Z :=
  match pending with
  | [] => ([], healed)
  | (fire, c) :: rest =>
      if f_gt fire now then (pending, healed)
      else fire_due now versions rest (<[c := Z.max (default 0 (versions !! c)) (default 0 (healed !! c))]> healed)
  end.
Definition advance (c : SweepCfg) (w : SweepWorld) : SweepWorld :=
  let now := F64.add (w_now w) (sc_dt c) in
  let '(pending, healed) := fire_due now (w_version w) (w_pending w) (w_healed w) in
  {| w_now := now; w_version := w_version w; w_healed := healed; w_pending := pending; w_seen := w_seen w |}.

(** Fetch and store again; [versioned]: the version is recorded too. *)
Definition refetch (c : SweepCfg) (i : Z) (ev : TraceEvent) (w : SweepWorld) (qh : option QueryHash) (versioned : bool)
  (sv : SweepServed) : SweepServed :=
  {| sv_store := insert (sc_clock c i) (te_query ev) (mk_resp c (te_query ev)) (lit "bench") (sv_store sv);
     sv_vtime := match qh with Some h => <[h := w_now w]> (sv_vtime sv) | None => sv_vtime sv end;
     sv_version := match qh with
                   | Some h => if versioned then <[h := default 0 (w_version w !! te_cluster ev)]> (sv_version sv)
                               else sv_version sv
                   | None => sv_version sv end;
     sv_cached := sv_cached sv; sv_exact := sv_exact sv; sv_expired := sv_expired sv; sv_stale := sv_stale sv;
     sv_healed := sv_healed sv; sv_ceiling := sv_ceiling sv |}.
Definition put_store (s : CacheStore) (sv : SweepServed) : SweepServed :=
  {| sv_store := s; sv_vtime := sv_vtime sv; sv_version := sv_version sv; sv_cached := sv_cached sv;
     sv_exact := sv_exact sv; sv_expired := sv_expired sv; sv_stale := sv_stale sv; sv_healed := sv_healed sv;
     sv_ceiling := sv_ceiling sv |}.
(** Add to the counters: hits, expired, stale, healed, ceiling. *)
Definition count_served (exact expired stale healed ceiling : bool) (sv : SweepServed) : SweepServed :=
  {| sv_store := sv_store sv; sv_vtime := sv_vtime sv; sv_version := sv_version sv; sv_cached := sv_cached sv;
     sv_exact := sv_exact sv + Z.b2z exact; sv_expired := sv_expired sv + Z.b2z expired;
     sv_stale := sv_stale sv + Z.b2z stale; sv_healed := sv_healed sv + Z.b2z healed;
     sv_ceiling := sv_ceiling sv + Z.b2z ceiling |}.
Definition add_cached (k : Z) (sv : SweepServed) : SweepServed :=
  {| sv_store := sv_store sv; sv_vtime := sv_vtime sv; sv_version := sv_version sv; sv_cached := {[k]} ∪ sv_cached sv;
     sv_exact := sv_exact sv; sv_expired := sv_expired sv; sv_stale := sv_stale sv; sv_healed := sv_healed sv;
     sv_ceiling := sv_ceiling sv |}.

Definition answer (c : SweepCfg) (i : Z) (ev : TraceEvent) (w : SweepWorld) (sv : SweepServed) : SweepServed :=
  let qh := if bool_decide (is_Some (ttl_secs c)) || mutations c then Some (bench_query_hash (te_query ev)) else None in
  let '(found, store) := get (te_query ev) (sv_store sv) in
  let sv := put_store store sv in
  match found with
  | Some _ =>
      let is_expired := match ttl_secs c, and_then qh (fun h => sv_vtime sv !! h) with
                        | Some t, Some t0 => f_gt (F64.sub (w_now w) t0) t
                        | _, _ => false
                        end in
      if is_expired then refetch c i ev w qh (mutations c) (count_served false true false false false sv)
      else
        let iv := and_then qh (fun h => sv_version sv !! h) in
        let cv := w_version w !! te_cluster ev in
        let hv := w_healed w !! te_cluster ev in
        let cdc_invalidated := bool_decide (is_Some (sc_cdc_delay c)) &&
          match iv, hv with Some iv, Some hv => iv <? hv | _, _ => false end in
        if cdc_invalidated then refetch c i ev w qh true (count_served false false false true false sv)
        else
          let is_stale := mutations c && match iv, cv with Some iv, Some cv => iv <? cv | _, _ => false end in
          count_served true false is_stale false false sv
  | None =>
      let sv := count_served false false false false (bool_decide (te_cluster ev ∈ sv_cached sv)) sv in
      add_cached (te_cluster ev) (refetch c i ev w qh (mutations c) sv)
  end.

Definition bump_at (n : nat) (l : list Z) : list Z := alter (fun x => sat_add 64 x 1) n l.
Definition tally (c : SweepCfg) (warmup_n : Z) (ev : TraceEvent) (exact : Z) (t : Tally) : Tally :=
  let seen := tl_seen t +! 1 in
  let hit_now := tl_prev t <? exact in
  let tail := warmup_n <? seen in
  let phase := Z.to_nat (Z.min (te_phase ev) 2) in
  let every := series_every (sc_pressure c) in
  {| tl_tail_hits := if tail && hit_now then tl_tail_hits t +! 1 else tl_tail_hits t;
     tl_tail_q := if tail then tl_tail_q t +! 1 else tl_tail_q t;
     tl_seen := seen; tl_prev := exact;
     tl_series := if (0 <? every) && (seen mod every =? 0)
                  then tl_series t ++ [(seen, F64.div (F64.of_Z exact) (F64.of_Z seen))] else tl_series t;
     tl_phase_q := bump_at phase (tl_phase_q t);
     tl_phase_h := if hit_now then bump_at phase (tl_phase_h t) else tl_phase_h t |}.

(** A cluster that has been asked for may change after the event. *)
Definition mutate (c : SweepCfg) (ev : TraceEvent) (w : SweepWorld) : rand SweepWorld :=
  if mutations c then
    let seen := w_seen w ++ [te_cluster ev] in
    draw b := bernoulli (sc_mutation_rate c) in
    if b then
      draw k := rng_below (zlen seen) in
      let cl := default 0 (seen !! Z.to_nat k) in
      rret {| w_now := w_now w; w_version := <[cl := default 0 (w_version w !! cl) + 1]> (w_version w);
              w_healed := w_healed w;
              w_pending := match sc_cdc_delay c with
                           | Some d => w_pending w ++ [(F64.add (w_now w) d, cl)] | None => w_pending w end;
              w_seen := seen |}
    else rret {| w_now := w_now w; w_version := w_version w; w_healed := w_healed w; w_pending := w_pending w;
                 w_seen := seen |}
  else rret w.

Definition sweep_event (c : SweepCfg) (warmup_n : Z) (ev : TraceEvent) (x : SweepWorld * SweepServed * Tally)
  : rand (SweepWorld * SweepServed * Tally) :=
  let '(w, sv, t) := x in
  let w := advance c w in
  let sv := answer c (tl_seen t) ev w sv in
  let t := tally c warmup_n ev (sv_exact sv) t in
  draw w := mutate c ev w in rret (w, sv, t).
Fixpoint sweep_loop (c : SweepCfg) (warmup_n : Z) (evs : list TraceEvent) (x : SweepWorld * SweepServed * Tally)
  : rand (SweepWorld * SweepServed * Tally) :=
  match evs with
  | [] => rret x
  | ev :: evs => draw x := sweep_event c warmup_n ev x in sweep_loop c warmup_n evs x
  end.

Record SweepPoint := {
  sp_cache_size : Z; sp_ttl_secs : option Z; sp_queries : Z; sp_exact_hits : Z; sp_expired_misses : Z;
  sp_stale_hits : Z; sp_cdc_healed : Z; sp_cdc_delay_secs : option f64; sp_exact_hit_rate : f64;
  sp_semantic_ceiling_rate : f64; sp_mean_latency_ms : f64; sp_mean_latency_no_cache_ms : f64;
  sp_latency_saved_pct : f64; sp_usd_saved_per_1k_queries : f64; sp_max_memory_bytes : Z; sp_payload_min : Z;
  sp_payload_max : Z; sp_small_evictions : Z; sp_main_evictions : Z; sp_promotions : Z; sp_ghost_hits : Z;
  sp_live_entries : Z; sp_live_memory_bytes : Z; sp_tail_queries : Z; sp_tail_hits : Z; sp_tail_hit_rate : f64;
  sp_hot_set_n : Z; sp_hot_set_retained : Z; sp_hot_set_current_n : Z; sp_hot_set_current_retained : Z;
  sp_phase_queries : list Z; sp_phase_hits : list Z; sp_series : list (Z * f64)
}.

Definition sweep_init (c : SweepCfg) (cache_size : Z) : SweepWorld * SweepServed * Tally :=
  ({| w_now := f_zero; w_version := ∅; w_healed := ∅; w_pending := []; w_seen := [] |},
   {| sv_store := sweep_store c cache_size; sv_vtime := ∅; sv_version := ∅; sv_cached := ∅; sv_exact := 0;
      sv_expired := 0; sv_stale := 0; sv_healed := 0; sv_ceiling := 0 |},
   {| tl_tail_hits := 0; tl_tail_q := 0; tl_seen := 0; tl_series := []; tl_prev := 0;
      tl_phase_q := [0; 0; 0]; tl_phase_h := [0; 0; 0] |}).
Definition warmup_count (c : SweepCfg) (n : Z) : Z :=
  f_to_u 64 (F64.mul (F64.of_Z n) (f_clamp (warmup_frac (sc_pressure c)) f_zero (F64.lit 95 100))).
Definition retained (s : CacheStore) (qs : list str) : Z := zlen (List.filter (fun q => contains q s) qs).
Definition hit_ratio (a b : Z) : f64 := F64.div (F64.of_Z a) (F64.of_Z b).

Definition point_of_sweep (c : SweepCfg) (cache_size : Z) (model : CostModel) (q : Z) (sv : SweepServed) (t : Tally) : SweepPoint :=
  let h := hit_ratio (sv_exact sv) q in
  let mean := F64.add (t_lookup_ms model) (F64.mul (F64.sub (F64.of_Z 1) h) (saved_per_hit_ms model)) in
  let no_cache := F64.add (t_lookup_ms model) (saved_per_hit_ms model) in
  let s := sv_store sv in
  {| sp_cache_size := cache_size; sp_ttl_secs := as_secs <$> sc_ttl c; sp_queries := q;
     sp_exact_hits := sv_exact sv; sp_expired_misses := sv_expired sv; sp_stale_hits := sv_stale sv;
     sp_cdc_healed := sv_healed sv; sp_cdc_delay_secs := sc_cdc_delay c; sp_exact_hit_rate := h;
     sp_semantic_ceiling_rate := hit_ratio (sv_ceiling sv) q; sp_mean_latency_ms := mean;
     sp_mean_latency_no_cache_ms := no_cache;
     sp_latency_saved_pct := F64.div (F64.mul (F64.of_Z 100) (F64.sub no_cache mean)) no_cache;
     sp_usd_saved_per_1k_queries := F64.mul h (usd_per_1k_hits model);
     sp_max_memory_bytes := sc_max_memory c; sp_payload_min := sc_payload_min c; sp_payload_max := sc_payload_max c;
     sp_small_evictions := small_evictions (eviction_stats s); sp_main_evictions := main_evictions (eviction_stats s);
     sp_promotions := promotions (eviction_stats s); sp_ghost_hits := ghost_hits (eviction_stats s);
     sp_live_entries := Z.of_nat (size (entries s)); sp_live_memory_bytes := memory_usage s;
     sp_tail_queries := tl_tail_q t; sp_tail_hits := tl_tail_hits t;
     sp_tail_hit_rate := if tl_tail_q t =? 0 then f_zero else hit_ratio (tl_tail_hits t) (tl_tail_q t);
     sp_hot_set_n := zlen (hot_queries (sc_pressure c)); sp_hot_set_retained := retained s (hot_queries (sc_pressure c));
     sp_hot_set_current_n := zlen (hot_queries_current (sc_pressure c));
     sp_hot_set_current_retained := retained s (hot_queries_current (sc_pressure c));
     sp_phase_queries := tl_phase_q t; sp_phase_hits := tl_phase_h t; sp_series := tl_series t |}.
Definition run_sweep (c : SweepCfg) (events : list TraceEvent) (cache_size : Z) (model : CostModel) : rand SweepPoint :=
  draw (_, sv, t) := sweep_loop c (warmup_count c (zlen events)) events (sweep_init c cache_size) in
  rret (point_of_sweep c cache_size model (zlen events) sv t).

(** ** The semantic sweep *)

(** The three embedders; what a local model or a service returns is a parameter. *)
Inductive BenchEmbedder :=
| Synthetic
| OnnxModel (embed : str -> result EmbVec str)
| ApiProvider (embed : str -> result EmbVec str).
Definition embed_one (b : BenchEmbedder) (text : str) : result EmbVec str :=
  match b with Synthetic => Ok (synthetic_embed text) | OnnxModel f | ApiProvider f => f text end.
Definition embedder_name (b : BenchEmbedder) : str :=
  match b with Synthetic => lit "synthetic" | OnnxModel _ => lit "onnx" | ApiProvider _ => lit "api" end.

Definition embed_memo (b : BenchEmbedder) (text : str) (memo : Memo) : result EmbVec str * Memo :=
  match memo !! text with
  | Some v => (Ok v, memo)
  | None => match embed_one b text with Ok v => (Ok v, <[text := v]> memo) | Err e => (Err e, memo) end
  end.

Record SemPoint := {
  mp_cache_size : Z; mp_tau : f64; mp_queries : Z; mp_exact_hits : Z; mp_semantic_hits : Z;
  mp_semantic_correct : Z; mp_semantic_false : Z; mp_exact_hit_rate : f64; mp_semantic_hit_rate : f64;
  mp_combined_hit_rate : f64; mp_false_hit_rate : f64; mp_uplift : f64
}.
Record SemState := {
  ms_store : CacheStore; ms_sem : SemanticCache; ms_cluster : gmap QueryHash Z; ms_memo : Memo;
  ms_exact : Z; ms_hits : Z; ms_correct : Z; ms_false : Z
}.

Context `{SE : EmbedEnv} (b : BenchEmbedder) (clock : Z -> Clock).

Definition sem_event (i : Z) (ev : TraceEvent) (x : SemState) : result SemState str :=
  let '(found, store) := get (te_query ev) (ms_store x) in
  match found with
  | Some _ =>
      Ok {| ms_store := store; ms_sem := ms_sem x; ms_cluster := ms_cluster x; ms_memo := ms_memo x;
            ms_exact := ms_exact x + 1; ms_hits := ms_hits x; ms_correct := ms_correct x; ms_false := ms_false x |}
  | None =>
      let '(r, memo) := embed_memo b (te_query ev) (ms_memo x) in
      match r with
      | Err e => Err e
      | Ok emb =>
          let '(hit, sem) := semantic_lookup emb (ms_sem x) in
          match hit with
          | Some h =>
              let right := bool_decide (ms_cluster x !! h = Some (te_cluster ev)) in
              Ok {| ms_store := store; ms_sem := sem; ms_cluster := ms_cluster x; ms_memo := memo;
                    ms_exact := ms_exact x; ms_hits := ms_hits x + 1;
                    ms_correct := ms_correct x + Z.b2z right; ms_false := ms_false x + Z.b2z (negb right) |}
          | None =>
              let h := bench_query_hash (te_query ev) in
              Ok {| ms_store := insert (clock i) (te_query ev) make_response (lit "bench") store;
                    ms_sem := semantic_insert h emb sem; ms_cluster := <[h := te_cluster ev]> (ms_cluster x);
                    ms_memo := memo; ms_exact := ms_exact x; ms_hits := ms_hits x; ms_correct := ms_correct x;
                    ms_false := ms_false x |}
          end
      end
  end.
Fixpoint sem_loop (i : Z) (evs : list TraceEvent) (x : SemState) : result SemState str :=
  match evs with
  | [] => Ok x
  | ev :: evs => match sem_event i ev x with Ok x => sem_loop (i + 1) evs x | Err e => Err e end
  end.
Definition sem_init (cache_size : Z) (tau : f64) (memo : Memo) : SemState :=
  {| ms_store := CacheStore_new (from_secs 86400) (from_secs 604800) cache_size;
     ms_sem := SemanticCache_new (f32_of_f64 tau) cache_size; ms_cluster := ∅; ms_memo := memo;
     ms_exact := 0; ms_hits := 0; ms_correct := 0; ms_false := 0 |}.
(** The point and the memory of the embedder, which later sweeps use. *)
Definition run_sem_sweep (events : list TraceEvent) (cache_size : Z) (tau : f64) (max_q : Z) (memo : Memo)
  : result (SemPoint * Memo) str :=
  match sem_loop 0 (take (Z.to_nat (Z.min max_q (zlen events))) events) (sem_init cache_size tau memo) with
  | Err e => Err e
  | Ok x =>
      let q := Z.min (zlen events) max_q in
      let eh := hit_ratio (ms_exact x) q in
      let sh := hit_ratio (ms_hits x) q in
      Ok ({| mp_cache_size := cache_size; mp_tau := tau; mp_queries := q; mp_exact_hits := ms_exact x;
             mp_semantic_hits := ms_hits x; mp_semantic_correct := ms_correct x; mp_semantic_false := ms_false x;
             mp_exact_hit_rate := eh; mp_semantic_hit_rate := sh; mp_combined_hit_rate := F64.add eh sh;
             mp_false_hit_rate := hit_ratio (ms_false x) (Z.max (ms_hits x) 1); mp_uplift := sh |}, ms_memo x)
  end.
End HitRate.

(** * Properties of the hit-rate benchmark

    A sweep is compared with counting the repeated queries of its trace: the ideal cache
    that forgets nothing ([repeats]). *)

(** The number of events whose key came up before. *)
Fixpoint repeats {K} `{EqDecision K} (key : TraceEvent -> K) (seen : list K) (evs : list TraceEvent) : Z :=
  match evs with
  | [] => 0
  | e :: evs => Z.b2z (bool_decide (key e ∈ seen)) + repeats key (key e :: seen) evs
  end.
Lemma repeats_snoc {K} `{EqDecision K} (key : TraceEvent -> K) evs e : forall seen,
  repeats key seen (evs ++ [e]) = repeats key seen evs + Z.b2z (bool_decide (key e ∈ map key evs ++ seen)).
Proof.
  induction evs as [|e' evs IH]; intros seen; cbn [repeats app map]; [lia|]. rewrite IH.
  replace (bool_decide (key e ∈ map key evs ++ key e' :: seen)) with (bool_decide (key e ∈ key e' :: map key evs ++ seen));
    [lia|]. apply bool_decide_ext. set_solver.
Qed.
Lemma repeats_bounds {K} `{EqDecision K} (key : TraceEvent -> K) evs : forall seen, 0 <= repeats key seen evs <= zlen evs.
Proof.
  induction evs as [|e evs IH]; intros seen; cbn [repeats]; [done|]. specialize (IH (key e :: seen)).
  unfold zlen in *. cbn [length]. destruct (bool_decide _); cbn [Z.b2z]; lia.
Qed.
(** Two keys that agree on which events are alike count alike. *)
Lemma repeats_ext {K1 K2} `{EqDecision K1, EqDecision K2} (k1 : TraceEvent -> K1) (k2 : TraceEvent -> K2) evs : forall dn,
  (forall e e', e ∈ dn ++ evs -> e' ∈ dn ++ evs -> k1 e = k1 e' <-> k2 e = k2 e') ->
  repeats k1 (map k1 dn) evs = repeats k2 (map k2 dn) evs.
Proof.
  induction evs as [|e evs IH]; intros dn Hk; cbn [repeats]; [done|]. f_equal.
  - f_equal. apply bool_decide_ext. rewrite !list_elem_of_fmap. split; intros (e' & He & Hin); exists e'; split; try done;
      apply (Hk e e'); set_solver.
  - apply (IH (e :: dn)). intros a a' Ha Ha'. apply Hk; set_solver.
Qed.

Section HitRateProps.
Context `{E : CacheEnv} {L : CacheEnvLaws E}.

Definition event_key (e : TraceEvent) : QueryHash := hash_query (te_query e).

(** ** One event *)

Lemma get_found q s : normalized_matching s = false ->
  is_Some (fst (get q s)) <-> is_Some (entries s !! hash_query q).
Proof.
  intros Hn. unfold get. rewrite Hn. destruct (entries s !! hash_query q) as [e|] eqn:He; cbn.
  - rewrite (bump_lookup _ _ _ He). split; eauto.
  - split; by intros [].
Qed.
Lemma get_frame q s : normalized_matching s = false ->
  let s' := snd (get q s) in
  normalized_matching s' = false /\ queue_len s' = queue_len s /\ per_upstream_limit s' = per_upstream_limit s /\
  max_memory_bytes s' = max_memory_bytes s /\ (forall h, is_Some (entries s' !! h) <-> is_Some (entries s !! h)).
Proof.
  intros Hn s'. unfold s', get. rewrite Hn. destruct (entries s !! hash_query q) as [e|] eqn:He; [|done].
  cbn. unfold bump_freq. rewrite He. cbn. split_and!; try done. intros h. rewrite lookup_insert.
  case_decide; [subst; rewrite He; split; eauto|done].
Qed.

(** The outcome of an event: a hit, an expired or an invalidated entry, or a miss. *)
Inductive Verdict := VHit (stale : bool) | VExpired | VHealed | VMiss (ceiling : bool).
Definition verdict_counted (v : Verdict) (sv sv' : SweepServed) : Prop :=
  sv_exact sv' = sv_exact sv + (match v with VHit _ => 1 | _ => 0 end) /\
  sv_stale sv' = sv_stale sv + (match v with VHit true => 1 | _ => 0 end) /\
  sv_expired sv' = sv_expired sv + (match v with VExpired => 1 | _ => 0 end) /\
  sv_healed sv' = sv_healed sv + (match v with VHealed => 1 | _ => 0 end) /\
  sv_ceiling sv' = sv_ceiling sv + (match v with VMiss true => 1 | _ => 0 end).

Lemma answer_cases c i ev w sv :
  normalized_matching (sv_store sv) = false ->
  exists v, verdict_counted v sv (answer c i ev w sv) /\
    (is_Some (entries (sv_store sv) !! event_key ev) <-> match v with VMiss _ => False | _ => True end) /\
    (v = VExpired -> is_Some (sc_ttl c)) /\ (v = VHit true -> mutations c = true) /\
    (v = VHealed -> sv_version sv <> ∅) /\
    (mutations c = false -> sv_version sv = ∅ -> sv_version (answer c i ev w sv) = ∅) /\
    sv_store (answer c i ev w sv) =
      (match v with
       | VHit _ => snd (get (te_query ev) (sv_store sv))
       | _ => insert (sc_clock c i) (te_query ev) (mk_resp c (te_query ev)) (lit "bench") (snd (get (te_query ev) (sv_store sv)))
       end).
Proof.
  intros Hn. pose proof (get_found (te_query ev) (sv_store sv) Hn) as Hg. fold (event_key ev) in Hg.
  unfold answer. destruct (get (te_query ev) (sv_store sv)) as [found store]. cbn [fst snd] in *.
  assert (Hq : forall o : option QueryHash, and_then o (fun h => sv_version (put_store store sv) !! h) <> None -> sv_version sv <> ∅).
  { intros [h|]; cbn; [|done]. intros H H0. rewrite H0, lookup_empty in H. done. }
  assert (Hv : forall (o : option QueryHash) k, mutations c = false -> sv_version sv = ∅ ->
    match o with Some h => if mutations c then <[h := k]> (sv_version sv) else sv_version sv | None => sv_version sv end = ∅).
  { intros [h|] k Hm Hs; rewrite ?Hm; done. }
  set (qh := if _ || _ then _ else _). destruct found as [e|].
  - assert (is_Some (entries (sv_store sv) !! event_key ev)) by (apply Hg; eauto).
    match goal with |- context [if ?b then refetch c i ev w qh (mutations c) _ else _] => destruct b eqn:Ex end.
    + exists VExpired. split; [unfold verdict_counted; cbn; lia|]. split_and!; try done; [|by apply Hv].
      intros _. unfold ttl_secs in Ex. destruct (sc_ttl c); [eauto|done].
    + match goal with |- context [if ?b then refetch c i ev w qh true _ else _] => destruct b eqn:Eh end.
      * exists VHealed. split; [unfold verdict_counted; cbn; lia|].
        assert (Hne : sv_version sv <> ∅).
        { apply (Hq qh). intros H0. rewrite H0, andb_false_r in Eh. done. }
        split_and!; try done.
      * eexists (VHit _). split; [unfold verdict_counted; cbn; split_and!; [lia| |lia..]|].
        { instantiate (1 := mutations c && _). by destruct (_ && _). }
        split_and!; try done. intros [= Hs]. by apply andb_true_iff in Hs as [? _].
  - exists (VMiss (bool_decide (te_cluster ev ∈ sv_cached (put_store store sv)))).
    assert (~ is_Some (entries (sv_store sv) !! event_key ev)) by (rewrite <- Hg; by intros []).
    split; [unfold verdict_counted; cbn; destruct (bool_decide (te_cluster ev ∈ _)); cbn; lia|]. split_and!; try done. by apply Hv.
Qed.

(** ** What holds all along a sweep *)

Record served_ok (c : SweepCfg) (N : Z) (dn : list TraceEvent) (sv : SweepServed) : Prop := {
  so_inv : inv N (sv_store sv);
  so_plain : normalized_matching (sv_store sv) = false;
  so_keys : forall h, is_Some (entries (sv_store sv) !! h) -> h ∈ map event_key dn;
  so_stale : 0 <= sv_stale sv <= sv_exact sv;
  so_nonneg : 0 <= sv_expired sv /\ 0 <= sv_healed sv;
  so_bound : sv_exact sv + sv_expired sv + sv_healed sv <= repeats event_key [] dn;
  so_ttl : sc_ttl c = None -> sv_expired sv = 0;
  so_mut : mutations c = false -> sv_stale sv = 0 /\ sv_healed sv = 0 /\ sv_version sv = ∅
}.

Lemma insert_keys N clk q r s : inv N s -> normalized_matching s = false ->
  let s' := insert clk q r (lit "bench") s in
  inv N s' /\ normalized_matching s' = false /\
  (forall h, is_Some (entries s' !! h) -> h = hash_query q \/ is_Some (entries s !! h)).
Proof.
  intros Hi Hn s'. unfold s', insert. split; [by apply inv_insert_impl|]. split.
  - pose proof (insert_impl_settings N clk q r (lit "bench") (lit "default") s Hi) as Hs. unfold settings in Hs. congruence.
  - intros h [e He]. destruct (insert_impl_lossy N clk q r (lit "bench") (lit "default") s Hi) as [Hsh _].
    destruct (Hsh _ _ He) as (e0 & v & He0 & _). rewrite lookup_insert in He0. case_decide; [auto|]. right. eauto.
Qed.

Lemma answer_ok c N i ev w dn sv : served_ok c N dn sv -> served_ok c N (dn ++ [ev]) (answer c i ev w sv).
Proof.
  intros [Hi Hp Hk Hs [Hn1 Hn2] Hb Ht Hm].
  destruct (answer_cases c i ev w sv Hp) as (v & (He & Hst & Hex & Hhe & _) & Hin & Hvx & Hvs & Hvh & Hver & Hstore).
  destruct (get_frame (te_query ev) (sv_store sv) Hp) as (Hgp & _ & _ & _ & Hgk).
  pose proof (inv_get N (te_query ev) (sv_store sv) Hi) as Hgi.
  destruct (insert_keys N (sc_clock c i) (te_query ev) (mk_resp c (te_query ev)) _ Hgi Hgp) as (Hii & Hip & Hik).
  assert (Hsnoc : forall h, h ∈ map event_key dn -> h ∈ map event_key (dn ++ [ev])) by (intros h; rewrite map_app; set_solver).
  constructor.
  - rewrite Hstore. by destruct v.
  - rewrite Hstore. by destruct v.
  - intros h Hh. rewrite Hstore in Hh.
    assert (h = event_key ev \/ is_Some (entries (sv_store sv) !! h)) as [->|Hh'].
    { destruct v; [right; by apply Hgk|destruct (Hik h Hh) as [->|H%Hgk]; auto..]. }
    + rewrite map_app. set_solver.
    + auto.
  - destruct v as [[]| | |[]]; lia.
  - destruct v as [[]| | |[]]; lia.
  - rewrite repeats_snoc, app_nil_r. destruct (bool_decide_reflect (event_key ev ∈ map event_key dn)) as [Hd|Hd]; cbn [Z.b2z].
    + destruct v as [[]| | |[]]; lia.
    + destruct v as [b| | |b]; [destruct Hd; apply Hk; by apply Hin..|lia].
  - intros H0. rewrite Hex, (Ht H0). destruct v; try done. destruct (Hvx eq_refl). congruence.
  - intros H0. destruct (Hm H0) as (H1 & H2 & H3). rewrite Hst, Hhe, H1, H2. split_and!; [| |auto].
    + destruct v as [[]| | |]; try done. specialize (Hvs eq_refl). congruence.
    + destruct v; try done. by destruct (Hvh eq_refl).
Qed.

Record tally_ok (warmup : Z) (dn : list TraceEvent) (exact : Z) (t : Tally) : Prop := {
  to_seen : tl_seen t = zlen dn;
  to_prev : tl_prev t = exact;
  to_tail : tl_tail_q t = Z.max 0 (zlen dn - warmup) /\ 0 <= tl_tail_hits t <= Z.min (tl_tail_q t) exact;
  to_phases : exists q0 q1 q2 h0 h1 h2, tl_phase_q t = [q0; q1; q2] /\ tl_phase_h t = [h0; h1; h2] /\
    q0 + q1 + q2 = zlen dn /\ h0 + h1 + h2 = exact /\ 0 <= h0 <= q0 /\ 0 <= h1 <= q1 /\ 0 <= h2 <= q2
}.
Lemma tally_step c warmup ev dn exact exact' t : 0 <= warmup -> zlen dn < u64_max ->
  exact' = exact \/ exact' = exact + 1 -> tally_ok warmup dn exact t ->
  tally_ok warmup (dn ++ [ev]) exact' (tally c warmup ev exact' t).
Proof.
  intros Hw Hl He [Hs Hp [Hq Hh] (q0 & q1 & q2 & h0 & h1 & h2 & Eq & Eh & Sq & Sh & B0 & B1 & B2)].
  assert (Hz : zlen (dn ++ [ev]) = zlen dn + 1) by (unfold zlen; rewrite length_app; cbn; lia).
  assert (0 <= zlen dn) by (unfold zlen; lia).
  assert (Hadd : forall x, 0 <= x < u64_max -> x +! 1 = x + 1) by (intros; unfold sat_add, u64_max in *; lia).
  unfold tally. rewrite Hs, Hp, (Hadd (zlen dn)) by lia. constructor; cbn [tl_seen tl_prev tl_tail_q tl_tail_hits tl_phase_q tl_phase_h].
  - lia.
  - done.
  - rewrite Hz, Hq. destruct (Z.ltb_spec warmup (zlen dn + 1)), (Z.ltb_spec exact exact'); cbn [andb]; rewrite ?Hadd by lia; lia.
  - rewrite Eq, Eh, Hz. assert (Hph : (Z.to_nat (Z.min (te_phase ev) 2) = 0 \/ Z.to_nat (Z.min (te_phase ev) 2) = 1 \/
      Z.to_nat (Z.min (te_phase ev) 2) = 2)%nat) by lia.
    destruct Hph as [-> | [-> | -> ] ]; unfold bump_at; cbn -[Z.add sat_add]; fold (sat_add 64);
      rewrite ?(Hadd q0), ?(Hadd q1), ?(Hadd q2) by lia;
      destruct (Z.ltb_spec exact exact'); rewrite ?(Hadd h0), ?(Hadd h1), ?(Hadd h2) by lia;
      do 6 eexists; split_and!; try done; lia.
Qed.

Lemma draws_mutate c ev w : draws (mutate c ev w) (fun _ => True).
Proof.
  unfold mutate. destruct (mutations c); [|by apply draws_ret].
  eapply draws_bind; [apply draws_bernoulli|]. intros [] _; [|by apply draws_ret].
  eapply draws_bind; [apply draws_below; unfold zlen; rewrite length_app; cbn; lia|]. intros k _. by apply draws_ret.
Qed.

(** A property of the store and the counters that every event keeps holds at the end. *)
Lemma sweep_loop_keeps c warmup evs (I : list TraceEvent -> SweepServed -> Tally -> Prop) :
  (forall dn ev w sv t, zlen dn < zlen evs -> I dn sv t ->
     let sv' := answer c (tl_seen t) ev (advance c w) sv in I (dn ++ [ev]) sv' (tally c warmup ev (sv_exact sv') t)) ->
  forall w sv t, I [] sv t -> draws (sweep_loop c warmup evs (w, sv, t)) (fun x => I evs x.1.2 x.2).
Proof.
  intros Hstep. assert (Hgen : forall rest dn w sv t, dn ++ rest = evs -> I dn sv t ->
    draws (sweep_loop c warmup rest (w, sv, t)) (fun x => I evs x.1.2 x.2)).
  { induction rest as [|ev rest IH]; intros dn w sv t Hd HI; cbn [sweep_loop].
    - apply draws_ret. cbn. rewrite app_nil_r in Hd. by subst.
    - eapply (draws_bind _ _ (fun x => I (dn ++ [ev]) x.1.2 x.2)).
      + unfold sweep_event. eapply draws_bind; [apply draws_mutate|]. intros w' _. apply draws_ret. cbn [fst snd].
        apply Hstep; [|done]. rewrite <- Hd. unfold zlen. rewrite length_app. cbn. lia.
      + intros [[w' sv'] t'] HI'. eapply (IH (dn ++ [ev])); [|exact HI']. by rewrite <- app_assoc. }
  intros w sv t. by apply Hgen.
Qed.

Lemma inv_sweep_store c n : 0 <= n < usize_max -> inv (Z.max 1 n) (sweep_store c n).
Proof. intros Hn. unfold sweep_store. destruct (_ <? _); by apply inv_init. Qed.
Lemma sweep_init_ok c n : 0 <= n < usize_max -> served_ok c (Z.max 1 n) [] (sweep_init c n).1.2.
Proof.
  intros Hn. assert (Hsv : entries (sweep_store c n) = ∅ /\ normalized_matching (sweep_store c n) = false)
    by (unfold sweep_store; by destruct (_ <? _)).
  destruct Hsv as [He Hp]. constructor; cbn; try done; try lia.
  - by apply inv_sweep_store.
  - intros h. rewrite He, lookup_empty. by intros [].
Qed.
Lemma tally_init_ok c n warmup : 0 <= warmup -> tally_ok warmup [] 0 (sweep_init c n).2.
Proof.
  intros Hw. constructor; cbn -[Z.max Z.sub]; try done; [unfold zlen; cbn; lia|].
  by exists 0, 0, 0, 0, 0, 0.
Qed.

(** A sweep always ends with a report.  No cache and no accident of time gets more hits
    than the queries that repeat, every hit lost to time or to an invalidation is counted
    as such, the tail and the phases add up, and the store keeps to its size. *)
Theorem sweep_exact c events cache_size model :
  0 <= cache_size < usize_max -> zlen events <= u64_max ->
  draws (run_sweep c events cache_size model) (fun p =>
    sp_queries p = zlen events /\ 0 <= sp_stale_hits p <= sp_exact_hits p /\
    sp_exact_hits p + sp_expired_misses p + sp_cdc_healed p <= repeats event_key [] events /\
    0 <= sp_expired_misses p /\ 0 <= sp_cdc_healed p /\
    (sc_ttl c = None -> sp_expired_misses p = 0) /\
    (mutations c = false -> sp_stale_hits p = 0 /\ sp_cdc_healed p = 0) /\
    sp_live_entries p <= Z.max 1 cache_size /\
    sp_tail_queries p = Z.max 0 (zlen events - warmup_count c (zlen events)) /\
    0 <= sp_tail_hits p <= Z.min (sp_tail_queries p) (sp_exact_hits p) /\
    exists q0 q1 q2 h0 h1 h2, sp_phase_queries p = [q0; q1; q2] /\ sp_phase_hits p = [h0; h1; h2] /\
      q0 + q1 + q2 = sp_queries p /\ h0 + h1 + h2 = sp_exact_hits p /\ 0 <= h0 <= q0 /\ 0 <= h1 <= q1 /\ 0 <= h2 <= q2).
Proof.
  intros Hn Hl. set (warmup := warmup_count c (zlen events)).
  assert (Hw : 0 <= warmup) by (by apply f_to_u_range).
  unfold run_sweep. fold warmup. destruct (sweep_init c cache_size) as [[w sv] t] eqn:Ei. eapply draws_bind.
  - apply (sweep_loop_keeps c warmup events (fun dn sv t => served_ok c (Z.max 1 cache_size) dn sv /\ tally_ok warmup dn (sv_exact sv) t)).
    + intros dn ev w' sv' t' Hlt [Hs Ht] sv''. split; [by apply answer_ok|]. eapply tally_step; [done|lia| |exact Ht].
      destruct (answer_cases c (tl_seen t') ev (advance c w') sv' (so_plain _ _ _ _ Hs)) as (v & (He & _) & _).
      fold sv'' in He. destruct v; lia.
    + pose proof (sweep_init_ok c cache_size Hn) as H1. pose proof (tally_init_ok c cache_size warmup Hw) as H2.
      rewrite Ei in H1, H2. split; [exact H1|]. replace (sv_exact sv) with 0; [exact H2|]. unfold sweep_init in Ei. by injection Ei as _ <- _.
  - intros [[w' sv'] t'] [[Hi _ _ Hst [Hx Hh] Hb Httl Hm] [_ _ [Hq Hth] Hph]]. apply draws_ret. cbn [fst snd] in *.
    split_and!; cbn [sp_queries sp_stale_hits sp_exact_hits sp_expired_misses sp_cdc_healed sp_live_entries sp_tail_queries
      sp_tail_hits sp_phase_queries sp_phase_hits point_of_sweep]; try done; try lia.
    + intros H0. by destruct (Hm H0) as (? & ? & _).
    + by apply inv_size.
Qed.

(** ** A cache with room for every query *)

Record roomy (N : Z) (dn : list TraceEvent) (sv : SweepServed) : Prop := {
  rm_inv : inv N (sv_store sv);
  rm_plain : normalized_matching (sv_store sv) = false;
  rm_limit : per_upstream_limit (sv_store sv) = None;
  rm_memory : max_memory_bytes (sv_store sv) <= 0;
  rm_queue : (queue_len (sv_store sv) <= length dn)%nat;
  rm_keys : forall h, is_Some (entries (sv_store sv) !! h) <-> h ∈ map event_key dn;
  rm_exact : sv_exact sv = repeats event_key [] dn;
  rm_version : sv_version sv = ∅
}.
Lemma answer_roomy c N i ev w dn sv : sc_ttl c = None -> mutations c = false -> zlen dn < N ->
  roomy N dn sv -> roomy N (dn ++ [ev]) (answer c i ev w sv).
Proof.
  intros Ht Hm Hlt [Hi Hp Hu Hmem Hq Hk He Hv].
  destruct (answer_cases c i ev w sv Hp) as (v & (He' & _) & Hin & Hvx & _ & Hvh & Hver & Hstore).
  destruct (get_frame (te_query ev) (sv_store sv) Hp) as (Gp & Gq & Gu & Gm & Gk).
  pose proof (inv_get N (te_query ev) (sv_store sv) Hi) as Gi. set (s1 := snd (get (te_query ev) (sv_store sv))) in *.
  assert (Hlen : length (dn ++ [ev]) = S (length dn)) by (rewrite length_app; cbn; lia).
  assert (Hroom : Z.of_nat (queue_len s1) < N) by (unfold zlen in *; lia).
  assert (Hel : event_key ev ∈ map event_key dn <-> match v with VMiss _ => False | _ => True end) by (by rewrite <- Hk).
  assert (Hmap : forall h, h ∈ map event_key (dn ++ [ev]) <-> h = event_key ev \/ h ∈ map event_key dn)
    by (intros h; rewrite map_app; cbn; set_solver).
  assert (Hrep : repeats event_key [] (dn ++ [ev]) =
    repeats event_key [] dn + match v with VMiss _ => 0 | _ => 1 end).
  { rewrite repeats_snoc, app_nil_r. f_equal. destruct v;
      [rewrite bool_decide_eq_true_2 by (by apply Hel); done..|rewrite bool_decide_eq_false_2 by (intros Hx; exact (proj1 Hel Hx)); done]. }
  destruct v as [b| | |b]; [|destruct (Hvx eq_refl); congruence|by destruct (Hvh eq_refl)|].
  - constructor; rewrite ?Hstore; try done; try lia; try congruence; auto. intros h. rewrite Gk, Hk, Hmap. split; [auto|].
    intros [->|]; [by apply Hel|done].
  - set (r := mk_resp c (te_query ev)) in *. set (clk := sc_clock c i) in *. unfold insert in Hstore.
    destruct (insert_impl_room N clk (te_query ev) r (lit "bench") (lit "default") s1 Gi) as (Ien & Inm & _);
      [congruence|right; split; [done|left; lia]|].
    destruct (insert_impl_queue N clk (te_query ev) r (lit "bench") (lit "default") s1 Gi) as (Iq & Iu & Im);
      [congruence|lia|done|].
    constructor; rewrite ?Hstore; try done; try lia; try congruence; auto; [by apply inv_insert_impl|].
    intros h. rewrite Ien, Hmap, <- Hk, <- Gk, lookup_insert. fold (event_key ev). case_decide as Hh; [|naive_solver].
    subst. split; [auto|eauto].
Qed.

(** The hash separates the normalized texts of the trace. *)
Definition texts_separated (events : list TraceEvent) : Prop := forall e e', e ∈ events -> e' ∈ events ->
  event_key e = event_key e' -> normalize_query (te_query e) = normalize_query (te_query e').

(** C31: in a cache with room for every query, with no expiry and nothing that changes, the
    hits are exactly the queries whose normalized text was asked before. *)
Theorem sweep_ideal c events cache_size model :
  sc_ttl c = None -> mutations c = false -> sc_max_memory c <= 0 -> texts_separated events ->
  zlen events <= cache_size < usize_max ->
  draws (run_sweep c events cache_size model) (fun p =>
    sp_exact_hits p = repeats (fun e => normalize_query (te_query e)) [] events).
Proof.
  intros Ht Hm Hmem Hsep Hn. assert (0 <= zlen events) by (unfold zlen; lia).
  destruct (sweep_init c cache_size) as [[w sv] t] eqn:Ei. unfold run_sweep. rewrite Ei. eapply draws_bind.
  - apply (sweep_loop_keeps c _ events (fun dn sv _ => roomy (Z.max 1 cache_size) dn sv)).
    + intros dn ev w' sv' t' Hlt Hr. apply answer_roomy; [done..|lia|done].
    + unfold sweep_init in Ei. injection Ei as _ <- _.
      pose proof (inv_sweep_store c cache_size ltac:(lia)) as Hi0. unfold sweep_store in *.
      rewrite (proj2 (Z.ltb_ge 0 _)) in * by done. constructor; cbn; try done.
      intros h. rewrite lookup_empty. split; [by intros []|set_solver].
  - intros [[w' sv'] t'] Hr. apply draws_ret. cbn. cbn in Hr. rewrite (rm_exact _ _ _ Hr).
    apply (repeats_ext event_key _ events []). intros e e' He He'. cbn in *. split; [by apply Hsep|].
    intros Hx. unfold event_key, hash_query. by rewrite Hx.
Qed.

(** ** The semantic sweep *)

Section SemProps.
Context {SE : EmbedEnv} (b : BenchEmbedder) (clock : Z -> Clock).

(** What the memory of the embedder holds is what the embedder gives. *)
Definition memo_ok (memo : Memo) : Prop := forall t v, memo !! t = Some v -> embed_one b t = Ok v.
Lemma embed_memo_spec memo t : memo_ok memo ->
  fst (embed_memo b t memo) = embed_one b t /\ memo_ok (snd (embed_memo b t memo)).
Proof.
  intros Hm. unfold embed_memo. destruct (memo !! t) as [v|] eqn:Ev; [by rewrite (Hm _ _ Ev)|].
  destruct (embed_one b t) as [v|e] eqn:Eo; [|done]. cbn. split; [done|].
  intros t' v'. rewrite lookup_insert. case_decide; [congruence|apply Hm].
Qed.

Definition put_memo (memo : Memo) (x : SemState) : SemState :=
  {| ms_store := ms_store x; ms_sem := ms_sem x; ms_cluster := ms_cluster x; ms_memo := memo;
     ms_exact := ms_exact x; ms_hits := ms_hits x; ms_correct := ms_correct x; ms_false := ms_false x |}.
(** The same outcome, up to the memory. *)
Definition same_but_memo (r r' : result SemState str) : Prop :=
  match r, r' with
  | Ok x, Ok x' => put_memo ∅ x = put_memo ∅ x' /\ memo_ok (ms_memo x) /\ memo_ok (ms_memo x')
  | Err e, Err e' => e = e'
  | _, _ => False
  end.
Lemma sem_event_memo i ev x x' : same_but_memo (Ok x) (Ok x') -> same_but_memo (sem_event b clock i ev x) (sem_event b clock i ev x').
Proof.
  intros (Hx & Hm & Hm'). destruct x as [s1 s2 s3 m n1 n2 n3 n4], x' as [t1 t2 t3 m' k1 k2 k3 k4].
  unfold put_memo in Hx. cbn in Hx. injection Hx as -> -> -> -> -> -> ->. cbn in Hm, Hm'.
  unfold sem_event. cbn [ms_store ms_sem ms_cluster ms_memo ms_exact ms_hits ms_correct ms_false].
  destruct (get (te_query ev) t1) as [[e|] store]; [done|].
  destruct (embed_memo_spec m (te_query ev) Hm) as [E1 M1]. destruct (embed_memo_spec m' (te_query ev) Hm') as [E2 M2].
  destruct (embed_memo b (te_query ev) m) as [r1 mm1], (embed_memo b (te_query ev) m') as [r2 mm2]. cbn [fst snd] in *.
  subst r1 r2. destruct (embed_one b (te_query ev)) as [emb|e]; [|done].
  destruct (semantic_lookup emb t2) as [[h|] sem]; done.
Qed.
Lemma sem_loop_memo evs : forall i x x', same_but_memo (Ok x) (Ok x') ->
  same_but_memo (sem_loop b clock i evs x) (sem_loop b clock i evs x').
Proof.
  induction evs as [|ev evs IH]; intros i x x' Hx; [done|]. cbn [sem_loop].
  pose proof (sem_event_memo i ev x x' Hx) as Hs.
  destruct (sem_event b clock i ev x), (sem_event b clock i ev x'); [by apply IH|done..].
Qed.
(** Sharing the embeddings between sweeps changes no report. *)
Theorem memo_transparent events n tau max_q memo : memo_ok memo ->
  match run_sem_sweep b clock events n tau max_q memo, run_sem_sweep b clock events n tau max_q ∅ with
  | Ok (p, memo'), Ok (p', _) => p = p' /\ memo_ok memo'
  | Err e, Err e' => e = e'
  | _, _ => False
  end.
Proof.
  intros Hm. unfold run_sem_sweep. set (evs := take _ events).
  pose proof (sem_loop_memo evs 0 (sem_init n tau memo) (sem_init n tau ∅)) as Hs.
  destruct (sem_loop b clock 0 evs (sem_init n tau memo)) as [x|e], (sem_loop b clock 0 evs (sem_init n tau ∅)) as [x'|e'];
    cbn in Hs; try (apply Hs; split_and!; [done|done|intros ? ?; by rewrite lookup_empty]).
  destruct Hs as (Hx & Hmx & _); [split_and!; [done|done|intros ? ?; by rewrite lookup_empty]|].
  unfold put_memo in Hx. injection Hx as _ _ _ -> -> -> ->. done.
Qed.

(** Every query is an exact hit, a semantic hit of the right or of the wrong cluster, or
    is stored. *)
Theorem sem_sweep_balances events n tau max_q memo p memo' : 0 <= max_q ->
  run_sem_sweep b clock events n tau max_q memo = Ok (p, memo') ->
  mp_semantic_hits p = mp_semantic_correct p + mp_semantic_false p /\ 0 <= mp_semantic_correct p /\
  0 <= mp_semantic_false p /\ 0 <= mp_exact_hits p /\ mp_exact_hits p + mp_semantic_hits p <= mp_queries p /\
  mp_queries p = Z.min (zlen events) max_q.
Proof.
  intros Hq. unfold run_sem_sweep. set (evs := take _ events).
  assert (Hlen : zlen evs = Z.min (zlen events) max_q) by (unfold evs, zlen in *; rewrite length_take; lia).
  assert (Hloop : forall l i x x', sem_loop b clock i l x = Ok x' ->
    exists a c d, 0 <= a /\ 0 <= c /\ 0 <= d /\ a + c + d <= zlen l /\ ms_exact x' = ms_exact x + a /\
      ms_hits x' = ms_hits x + c + d /\ ms_correct x' = ms_correct x + c /\ ms_false x' = ms_false x + d).
  { induction l as [|ev l IH]; intros i x x'; cbn [sem_loop]; [intros [= <-]; exists 0, 0, 0; unfold zlen; cbn; lia|].
    destruct (sem_event b clock i ev x) as [x1|] eqn:E1; [|done]. intros (a & c & d & Ha & Hc & Hd & Hs & H1 & H2 & H3 & H4)%IH.
    assert (Hl : zlen (ev :: l) = zlen l + 1) by (unfold zlen; cbn; lia).
    unfold sem_event in E1. destruct (get (te_query ev) (ms_store x)) as [[e|] store].
    - injection E1 as <-. cbn in *. exists (a + 1), c, d. lia.
    - destruct (embed_memo b _ _) as [[emb|] mm]; [|done]. destruct (semantic_lookup emb _) as [[h|] sem]; injection E1 as <-; cbn in *.
      + destruct (bool_decide _); cbn in *; [exists a, (c + 1), d|exists a, c, (d + 1)]; lia.
      + exists a, c, d. lia. }
  destruct (sem_loop b clock 0 evs (sem_init n tau memo)) as [x|] eqn:El; [|done]. intros [= <- _].
  destruct (Hloop _ _ _ _ El) as (a & c & d & Ha & Hc & Hd & Hs & H1 & H2 & H3 & H4). cbn in *. lia.
Qed.
End SemProps.
End HitRateProps.

(** ** Runs *)

#[local] Existing Instance DemoEnv.

Definition bench_event (q : string) (cl : Z) : TraceEvent := {| te_query := lit q; te_cluster := cl; te_phase := 0 |}.
Definition bench_trace : list TraceEvent :=
  [bench_event "login api" 1; bench_event "Login  API" 1; bench_event "cache node" 2; bench_event "login api" 1].
Definition demo_pressure : PressureCfg :=
  {| warmup_frac := f_zero; series_every := 2; hot_queries := []; hot_queries_current := []; elephants := false;
     elephant_bytes := 65536 |}.
Definition demo_sweep_cfg : SweepCfg :=
  {| sc_ttl := None; sc_dt := F64.lit 1 10; sc_mutation_rate := f_zero; sc_cdc_delay := None; sc_max_memory := 0;
     sc_payload_min := 0; sc_payload_max := 0; sc_pressure := demo_pressure; sc_clock := fun _ => demo_clock |}.
Definition bench_model : CostModel :=
  {| t_lookup_ms := F64.of_Z 1; t_embed_ms := F64.of_Z 30; t_backend_ms := F64.of_Z 20;
     embed_usd_per_mtok := F64.lit 13 100; ru_usd_per_m := F64.of_Z 16; tokens_per_query := F64.of_Z 15 |}.

Lemma demo_separated : texts_separated bench_trace.
Proof.
  intros e e' He He'. unfold bench_trace in *. rewrite !elem_of_cons, elem_of_nil in He, He'.
  destruct_or!; subst; intros H; first [done|by vm_compute in H|by vm_compute].
Qed.
Lemma sweep_ideal_witness : texts_separated bench_trace /\
  draws (run_sweep demo_sweep_cfg bench_trace 10 bench_model) (fun p => sp_exact_hits p = 2).
Proof.
  split; [apply demo_separated|]. eapply draws_mono;
    [apply (sweep_ideal demo_sweep_cfg bench_trace 10 bench_model); [done..|apply demo_separated|by vm_compute]|].
  intros p ->. by vm_compute.
Defined.
Lemma sweep_exact_witness : draws (run_sweep demo_sweep_cfg bench_trace 1 bench_model) (fun p => sp_queries p = 4).
Proof.
  eapply draws_mono; [apply (sweep_exact demo_sweep_cfg bench_trace 1 bench_model); by vm_compute|]. by intros p [H _].
Defined.

(** A semantic hit is counted although the store no longer has the entry: after a hit on
    the first query the store keeps it and drops the second, the embeddings drop the
    first and keep the second. *)
Definition evicted_trace : list TraceEvent :=
  [bench_event "login api" 1; bench_event "login api" 1; bench_event "cache node" 2; bench_event "deploy quota" 3;
   bench_event "node cache" 2].
Theorem semantic_hit_without_entry :
  exists x, sem_loop Synthetic (fun _ => demo_clock) 0 evicted_trace (sem_init 2 (F64.lit 9 10) ∅) = Ok x /\
    ms_hits x = 1 /\ ms_correct x = 1 /\ contains (lit "cache node") (ms_store x) = false /\
    contains (lit "node cache") (ms_store x) = false.
Proof. eexists. split; [vm_compute; reflexivity|by vm_compute]. Qed.

(** An invalidation takes along a change whose own invalidation is not due: with a delay
    of two seconds a change of the first second, and one of the third, the second one is
    taken as invalidated in the third second. *)
Definition sweep_world : SweepWorld :=
  {| w_now := F64.of_Z 2; w_version := {[7 := 2]}; w_healed := ∅; w_pending := [(F64.of_Z 3, 7); (F64.of_Z 5, 7)]; w_seen := [] |}.
Theorem invalidation_covers_later_change :
  let c := {| sc_ttl := None; sc_dt := F64.of_Z 1; sc_mutation_rate := F64.lit 1 2; sc_cdc_delay := Some (F64.of_Z 2);
              sc_max_memory := 0; sc_payload_min := 0; sc_payload_max := 0; sc_pressure := demo_pressure;
              sc_clock := fun _ => demo_clock |} in
  w_healed (advance c sweep_world) !! 7 = Some 2 /\ w_pending (advance c sweep_world) = [(F64.of_Z 5, 7)].
Proof. by vm_compute. Qed.
