(* ===== verification/HitReport.v ===== *)
(** * The hit-rate benchmark (src/src/bin/hitrate_bench.rs): runs, reports, live replay

    From the arguments to the exit code: the checks, the workloads, the sweeps over sizes,
    times to live and thresholds, the verdict, the JSON of the report, and the replay
    against a running proxy.  The numbers of the arguments are parsed; what the files, the
    embedders, the proxy and the vector database answer are parameters. *)

From Stdlib Require Import SpecFloat.
From S2P Require Import Prelude Floats Text Types Cdc Cache CacheInv CacheReach CacheSpec CacheProps Scope Vendors.
From S2P Require Import Config Semantic TuneSession Providers Distill Engine HitTrace HitRate.
Open Scope Z_scope.
Open Scope conproxy_scope.

Record WorkloadReport := { wr_name : str; wr_sweep : list SweepPoint; wr_sem : list SemPoint }.

(** ** The verdict *)

(** [max_by] with [partial_cmp], which keeps the last of the greatest. *)
Definition best_step (acc : option SemPoint) (p : SemPoint) : option SemPoint :=
  match acc with
  | None => Some p
  | Some a => match cmp_or_eq (mp_combined_hit_rate a) (mp_combined_hit_rate p) with Gt => acc | _ => Some p end
  end.
Definition valid_tau (gate_false : f64) (p : SemPoint) : bool :=
  f_le (mp_false_hit_rate p) gate_false && (0 <? mp_semantic_hits p).
Definition best_valid_tau (sem : list SemPoint) (gate_false : f64) : option SemPoint :=
  fold_left best_step (List.filter (valid_tau gate_false) sem) None.

Inductive BenchVerdict := FailCore | FailTrust | Pass.
Definition verdict_str (v : BenchVerdict) : str :=
  match v with FailCore => lit "FAIL-CORE" | FailTrust => lit "FAIL-TRUST" | Pass => lit "PASS" end.
Definition find_report (name : string) (reports : list WorkloadReport) : option WorkloadReport :=
  find (fun r => str_eqb (wr_name r) (lit name)) reports.
Definition agentic_best (reports : list WorkloadReport) : f64 :=
  match find_report "agentic" reports with
  | Some r => fold_left f_max (map sp_exact_hit_rate (wr_sweep r)) f_zero
  | None => F64.of_Z 1
  end.
Definition fail_core (reports : list WorkloadReport) (gate : f64) : bool :=
  bool_decide (is_Some (find_report "agentic" reports)) && f_lt (agentic_best reports) gate.
Definition is_nil {A} (l : list A) : bool := match l with [] => true | _ => false end.
Definition fail_trust (semantic : bool) (reports : list WorkloadReport) (gate_false : f64) : bool :=
  semantic && existsb (fun r => negb (is_nil (wr_sem r)) &&
                               match best_valid_tau (wr_sem r) gate_false with None => true | Some _ => false end) reports.
Definition bench_verdict (semantic : bool) (reports : list WorkloadReport) (gate gate_false : f64) : BenchVerdict :=
  if fail_core reports gate then FailCore else if fail_trust semantic reports gate_false then FailTrust else Pass.
Definition bench_exit (no_fail semantic : bool) (reports : list WorkloadReport) (gate gate_false : f64) : Z :=
  if fail_core reports gate && negb no_fail then 2
  else if fail_trust semantic reports gate_false && negb no_fail then 3 else 0.

(** ** The report as JSON *)

Section Json.
Context {F : FloatText}.

Definition sem_point_json (p : SemPoint) : Value := VObject
  [field "cache_size" (json_usize (mp_cache_size p)); field "tau" (json_f64 (mp_tau p));
   field "queries" (json_usize (mp_queries p)); field "exact_hits" (json_usize (mp_exact_hits p));
   field "semantic_hits" (json_usize (mp_semantic_hits p)); field "semantic_correct" (json_usize (mp_semantic_correct p));
   field "semantic_false" (json_usize (mp_semantic_false p)); field "exact_hit_rate" (json_f64 (mp_exact_hit_rate p));
   field "semantic_hit_rate" (json_f64 (mp_semantic_hit_rate p));
   field "combined_hit_rate" (json_f64 (mp_combined_hit_rate p));
   field "false_hit_rate" (json_f64 (mp_false_hit_rate p)); field "uplift" (json_f64 (mp_uplift p))].
Definition series_json (s : Z * f64) : Value := VObject [field "at" (json_usize s.1); field "hr" (json_f64 s.2)].
Definition sweep_point_json (p : SweepPoint) : Value := VObject
  [field "cache_size" (json_usize (sp_cache_size p)); field "ttl_secs" (json_opt (json_usize <$> sp_ttl_secs p));
   field "queries" (json_usize (sp_queries p)); field "exact_hits" (json_usize (sp_exact_hits p));
   field "expired_misses" (json_usize (sp_expired_misses p)); field "stale_hits" (json_usize (sp_stale_hits p));
   field "stale_rate" (json_f64 (hit_ratio (sp_stale_hits p) (Z.max (sp_exact_hits p) 1)));
   field "cdc_healed" (json_usize (sp_cdc_healed p)); field "cdc_delay_secs" (json_opt (json_f64 <$> sp_cdc_delay_secs p));
   field "exact_hit_rate" (json_f64 (sp_exact_hit_rate p));
   field "semantic_ceiling_rate" (json_f64 (sp_semantic_ceiling_rate p));
   field "mean_latency_ms" (json_f64 (sp_mean_latency_ms p));
   field "mean_latency_no_cache_ms" (json_f64 (sp_mean_latency_no_cache_ms p));
   field "latency_saved_pct" (json_f64 (sp_latency_saved_pct p));
   field "usd_saved_per_1k_queries" (json_f64 (sp_usd_saved_per_1k_queries p));
   field "max_memory_bytes" (json_usize (sp_max_memory_bytes p)); field "payload_min" (json_usize (sp_payload_min p));
   field "payload_max" (json_usize (sp_payload_max p)); field "small_evictions" (json_usize (sp_small_evictions p));
   field "main_evictions" (json_usize (sp_main_evictions p)); field "promotions" (json_usize (sp_promotions p));
   field "ghost_hits" (json_usize (sp_ghost_hits p)); field "live_entries" (json_usize (sp_live_entries p));
   field "live_memory_bytes" (json_usize (sp_live_memory_bytes p)); field "tail_queries" (json_usize (sp_tail_queries p));
   field "tail_hits" (json_usize (sp_tail_hits p)); field "tail_hit_rate" (json_f64 (sp_tail_hit_rate p));
   field "hot_set_n" (json_usize (sp_hot_set_n p)); field "hot_set_retained" (json_usize (sp_hot_set_retained p));
   field "hot_set_current_n" (json_usize (sp_hot_set_current_n p));
   field "hot_set_current_retained" (json_usize (sp_hot_set_current_retained p));
   field "phase_queries" (VArray (map json_usize (sp_phase_queries p)));
   field "phase_hits" (VArray (map json_usize (sp_phase_hits p))); field "series" (VArray (map series_json (sp_series p)))].

(** τ frontier: the workloads with semantic points. *)
Definition frontier_json (reports : list WorkloadReport) (gate_false : f64) : Value := VObject
  [field "schema_version" (json_usize 1); field "tool" (VString (lit "hitrate_bench"));
   field "kind" (VString (lit "semantic_frontier"));
   field "workloads" (VArray (map (fun r => VObject
     [field "workload" (VString (wr_name r)); field "gate_false_hit" (json_f64 gate_false);
      field "frontier" (VArray (map sem_point_json (wr_sem r)));
      field "best_valid" (json_opt (sem_point_json <$> best_valid_tau (wr_sem r) gate_false))])
     (List.filter (fun r => negb (is_nil (wr_sem r))) reports)))].

(** The notes and the descriptions of the workloads are texts for the reader. *)
Definition summary_json (describe : WorkloadReport -> str) (notes : list str) (reports : list WorkloadReport)
  (model : CostModel) (seed : Z) (gate gate_false : f64) (verdict : str) (best : f64) (embedder : str) : Value := VObject
  [field "schema_version" (json_usize 1); field "tool" (VString (lit "hitrate_bench")); field "seed" (json_usize seed);
   field "verdict" (VString verdict);
   field "gates" (VObject [field "agentic_exact_hit_rate" (json_f64 gate); field "agentic_exact_best" (json_f64 best);
                           field "false_hit_rate" (json_f64 gate_false)]);
   field "model" (VObject [field "t_lookup_ms" (json_f64 (t_lookup_ms model)); field "t_embed_ms" (json_f64 (t_embed_ms model));
                           field "t_backend_ms" (json_f64 (t_backend_ms model));
                           field "embed_usd_per_mtok" (json_f64 (embed_usd_per_mtok model));
                           field "ru_usd_per_m" (json_f64 (ru_usd_per_m model));
                           field "tokens_per_query" (json_f64 (tokens_per_query model))]);
   field "embedder" (VString embedder); field "notes" (json_strs notes);
   field "workloads" (VArray (map (fun r => VObject
     [field "name" (VString (wr_name r)); field "description" (VString (describe r));
      field "sweep" (VArray (map sweep_point_json (wr_sweep r)));
      field "semantic" (VArray (map sem_point_json (wr_sem r)))]) reports))].
End Json.

(** ** A run *)

Record BenchArgs := {
  ba_workload : option str; ba_seed : option Z; ba_queries : option Z; ba_unique : option Z; ba_zipf_s : option f64;
  ba_tasks : option Z; ba_calls : option Z; ba_requery : option f64; ba_agents : option Z; ba_pool : option Z;
  ba_paraphrase_rate : option f64; ba_trace : option str; ba_queries_file : option str; ba_mutation_rate : option f64;
  ba_cdc_delay : option f64; ba_cache_sizes : list Z; ba_ttl_values : list Z; ba_virtual_qps : option f64;
  ba_t_embed_ms : option f64; ba_t_backend_ms : option f64; ba_t_lookup_ms : option f64;
  ba_embed_usd_per_mtok : option f64; ba_ru_usd_per_m : option f64; ba_tokens_per_query : option f64;
  ba_gate_exact : option f64; ba_gate_false_hit : option f64; ba_semantic : bool; ba_embedder : option str;
  ba_embed_provider : option str; ba_embed_model : option str; ba_embed_api_key_var : option str; ba_taus : list f64;
  ba_sem_cache_sizes : list Z; ba_sem_max_queries : option Z; ba_probe : bool; ba_no_fail : bool;
  ba_results_dir : option str; ba_live_url : option str; ba_live_seed : option str; ba_live_collection : option str;
  ba_live_top_k : option Z; ba_live_docs : option Z; ba_live_mutate : option f64; ba_live_evict : bool;
  ba_max_memory_bytes : option Z; ba_payload_bytes : option Z; ba_payload_zipf_max : option Z;
  ba_warmup_frac : option f64; ba_series_every : option Z; ba_hot_set : option Z; ba_elephants : bool;
  ba_elephant_bytes : option Z; ba_scan_n : option Z
}.

(** The provider of an embedding service: its kind, model and the variable of its key. *)
Definition provider_table (name : str) : option (ProviderType * string * string) :=
  if str_eqb name (lit "openai") then Some (OpenAi, "text-embedding-3-small", "OPENAI_API_KEY")%string
  else if str_eqb name (lit "cohere") then Some (Cohere, "embed-english-v3.0", "COHERE_API_KEY")%string
  else if str_eqb name (lit "huggingface") then Some (HuggingFace, "sentence-transformers/all-MiniLM-L6-v2", "HF_API_KEY")%string
  else None.
Definition api_config (env : str -> option str) (a : BenchArgs) : option ProviderConfig :=
  match provider_table (default (lit "openai") (ba_embed_provider a)) with
  | None => None
  | Some (ptype, model, key) =>
      let key_var := default (lit key) (ba_embed_api_key_var a) in
      match env key_var with
      | None => None
      | Some _ => Some {| pf_provider := ptype; pf_model_name := default (lit model) (ba_embed_model a);
                          pf_api_key := Some ([36; 123] ++ key_var ++ [125]); pf_base_url := None |}
      end
  end.

Section Run.
Context `{E : CacheEnv} {P : FloatPowf} {J : JsonText} {SE : EmbedEnv}.
(** The files, the embedders that can be built, and the clock of the stores. *)
Context (read_file : str -> option str) (env : str -> option str).
Context (build_onnx : str -> option BenchEmbedder) (build_api : ProviderConfig -> option BenchEmbedder).
Context (build_mock : option BenchEmbedder) (clock : Z -> Clock) (embed_api embed_feature : bool).

Definition build_embedder (a : BenchArgs) : option BenchEmbedder :=
  let kind := default (lit "synthetic") (ba_embedder a) in
  if str_eqb kind (lit "synthetic") then Some Synthetic
  else if str_eqb kind (lit "onnx") then
    if embed_feature then build_onnx (default (lit "all-MiniLM-L6-v2") (ba_embed_model a)) else None
  else if str_eqb kind (lit "api") then
    if str_eqb (default (lit "openai") (ba_embed_provider a)) (lit "mock") then build_mock
    else match api_config env a with Some c => build_api c | None => None end
  else None.

(** The least and the greatest size of a result, or nothing when they are the wrong way round. *)
Definition payload_bounds (a : BenchArgs) : option (Z * Z) :=
  let '(mn, mx) := match ba_payload_zipf_max a, ba_payload_bytes a with
                   | Some mx, b => (default 64 b, mx)
                   | None, Some n => (n, n)
                   | None, None => (0, 0)
                   end in
  if (0 <? mx) && (mx <? mn) then None else Some (mn, mx).
Definition cost_model (a : BenchArgs) : CostModel :=
  {| t_lookup_ms := default (F64.of_Z 1) (ba_t_lookup_ms a); t_embed_ms := default (F64.of_Z 30) (ba_t_embed_ms a);
     t_backend_ms := default (F64.of_Z 20) (ba_t_backend_ms a);
     embed_usd_per_mtok := default (F64.lit 13 100) (ba_embed_usd_per_mtok a);
     ru_usd_per_m := default (F64.of_Z 16) (ba_ru_usd_per_m a);
     tokens_per_query := default (F64.of_Z 15) (ba_tokens_per_query a) |}.
(** The ranks that are hot after a flip, from the last one. *)
Fixpoint hot_current (n : nat) (unique i : Z) (pool : option (list str)) : outcome (list str) :=
  match n with
  | O => Ret []
  | S n => let! t := base_text pool (unique -! 1 -! i) in let! l := hot_current n unique (i + 1) pool in Ret (t :: l)
  end.
Definition pressure_of (a : BenchArgs) (warmup : f64) (pool : option (list str)) : outcome PressureCfg :=
  let n := default 0 (ba_hot_set a) in
  let! hot := zipf_hot_queries n pool in
  let! current := hot_current (Z.to_nat n) (default 10000 (ba_unique a)) 0 pool in
  Ret {| warmup_frac := warmup; series_every := default 0 (ba_series_every a); hot_queries := hot;
         hot_queries_current := current; elephants := ba_elephants a;
         elephant_bytes := default 65536 (ba_elephant_bytes a) |}.

(** The workloads of a run; nothing when the name or the trace is no good. *)
Definition named_spec (name : string) (evs : list TraceEvent) : list (str * list TraceEvent) := [(lit name, evs)].
Definition zipf_specs (w : str) (a : BenchArgs) (pool : option (list str)) : rand (list (str * list TraceEvent)) :=
  if str_eqb w (lit "zipf") || str_eqb w (lit "suite") then
    draw evs := gen_zipf (default 10000 (ba_unique a)) (default (F64.of_Z 1) (ba_zipf_s a))
                  (default 100000 (ba_queries a)) (default (F64.lit 1 10) (ba_paraphrase_rate a)) pool in
    rret (named_spec "zipf" evs)
  else rret [].
Definition workload_specs (w : str) (a : BenchArgs) (pool : option (list str)) : rand (option (list (str * list TraceEvent))) :=
  let unique := default 10000 (ba_unique a) in
  let s := default (F64.of_Z 1) (ba_zipf_s a) in
  let w_is (x : string) := str_eqb w (lit x) in
  if negb (w_is "zipf" || w_is "suite" || w_is "agentic" || w_is "replay" || w_is "scan" || w_is "flip") then rret None
  else
    draw specs := zipf_specs w a pool in
    if w_is "agentic" || w_is "suite" then
      draw evs := gen_agentic (default 500 (ba_tasks a)) (default 20 (ba_calls a)) (default (F64.lit 4 10) (ba_requery a))
                    (default 4 (ba_agents a)) (default 200 (ba_pool a)) (default (F64.lit 3 10) (ba_paraphrase_rate a)) pool in
      rret (Some (specs ++ named_spec "agentic" evs))
    else if w_is "replay" then
      rret (match ba_trace a with
            | None => None
            | Some path => match read_file path with
                           | None => None
                           | Some raw => match load_replay raw with Ok evs => Some (specs ++ named_spec "replay" evs) | Err _ => None end
                           end
            end)
    else if w_is "scan" then
      draw evs := gen_scan_storm unique s (default 40000 (ba_queries a)) (default 8000 (ba_scan_n a))
                    (default f_zero (ba_paraphrase_rate a)) pool in
      rret (Some (specs ++ named_spec "scan" evs))
    else if w_is "flip" then
      draw evs := gen_zipf_flip unique s (default 80000 (ba_queries a)) (default f_zero (ba_paraphrase_rate a)) pool in
      rret (Some (specs ++ named_spec "flip" evs))
    else rret (Some specs).

Definition or_default {A} (d l : list A) : list A := match l with [] => d | _ => l end.
Fixpoint sweeps (c : option Z -> SweepCfg) (grid : list (Z * option Z)) (evs : list TraceEvent) (m : CostModel)
  : rand (list SweepPoint) :=
  match grid with
  | [] => rret []
  | (size, ttl) :: grid =>
      draw p := run_sweep (c ttl) evs size m in draw ps := sweeps c grid evs m in rret (p :: ps)
  end.
Fixpoint sem_sweeps (b : BenchEmbedder) (grid : list (Z * f64)) (evs : list TraceEvent) (max_q : Z) (memo : Memo)
  : result (list SemPoint * Memo) str :=
  match grid with
  | [] => Ok ([], memo)
  | (size, tau) :: grid =>
      match run_sem_sweep b clock evs size tau max_q memo with
      | Err e => Err e
      | Ok (p, memo) =>
          match sem_sweeps b grid evs max_q memo with Err e => Err e | Ok (ps, memo) => Ok (p :: ps, memo) end
      end
  end.
Definition TAUS : list f64 := map (fun n => F64.lit n 100) [70; 75; 80; 85; 90; 95].
(** One workload after the other; nothing when an embedding fails. *)
Fixpoint run_reports (a : BenchArgs) (c : option Z -> SweepCfg) (emb : option BenchEmbedder)
  (specs : list (str * list TraceEvent)) (memo : Memo) : rand (option (list WorkloadReport)) :=
  match specs with
  | [] => rret (Some [])
  | (name, evs) :: specs =>
      let ttls := match ba_ttl_values a with [] => [None] | l => map (fun s => Some (from_secs s)) l end in
      let sizes := or_default [100; 1000; 10000] (ba_cache_sizes a) in
      draw sweep := sweeps c (list_prod sizes ttls) evs (cost_model a) in
      match (match emb with
             | None => Ok ([], memo)
             | Some b => sem_sweeps b (list_prod (or_default [1000] (ba_sem_cache_sizes a)) (or_default TAUS (ba_taus a))) evs
                           (default usize_max (ba_sem_max_queries a)) memo
             end) with
      | Err _ => rret None
      | Ok (sem, memo) =>
          draw rest := run_reports a c emb specs memo in
          rret (match rest with None => None | Some l => Some ({| wr_name := name; wr_sweep := sweep; wr_sem := sem |} :: l) end)
      end
  end.

(** What becomes of a run: an exit code, the reports of the sweeps, or the replay against
    the proxy at an address with the workloads. *)
Inductive BenchRun :=
| Exit (code : Z)
| Reports (seed : Z) (rs : list WorkloadReport)
| Live (url : str) (seed : Z) (specs : list (str * list TraceEvent)).

(** [--probe] prints the similarities of eight texts. *)
Definition PROBE_TEXTS : list str := map lit
  ["login alpha bravo charlie"; "bravo charlie login alpha"; "how do I reset my password";
   "password reset instructions"; "kubernetes pod crash loop back-off"; "best italian restaurants nearby";
   "This is an example sentence"; "Each sentence is converted"]%string.
Definition probe_embedder (b : BenchEmbedder) : Z :=
  if forallb (fun t => is_ok (embed_one b t)) PROBE_TEXTS then 0 else 1.

(** The embedder of a semantic run; [--embedder] without [--semantic] is refused. *)
Definition choose_embedder (a : BenchArgs) : option (option BenchEmbedder) :=
  if negb embed_api then Some None
  else if ba_semantic a then Some <$> build_embedder a
  else if bool_decide (is_Some (ba_embedder a)) then None else Some None.
Definition load_pool (a : BenchArgs) : option (option (list str)) :=
  match ba_queries_file a with
  | None => Some None
  | Some path => match read_file path with Some raw => Some <$> load_queries_file raw | None => None end
  end.

Definition bench_main (a : BenchArgs) : outcome BenchRun :=
  let seed := default 42 (ba_seed a) in
  if ba_semantic a && negb embed_api then Ret (Exit 1)
  else if embed_api && ba_probe a then
    Ret (Exit (match build_embedder a with Some b => probe_embedder b | None => 1 end))
  else match choose_embedder a, payload_bounds a with
  | Some emb, Some (pmin, pmax) =>
      let warmup := default f_zero (ba_warmup_frac a) in
      let vqps := default (F64.of_Z 10) (ba_virtual_qps a) in
      if negb (f_le f_zero warmup && f_lt warmup (F64.of_Z 1)) then Ret (Exit 1)
      else if f_le vqps f_zero then Ret (Exit 1)
      else match load_pool a with
      | None => Ret (Exit 1)
      | Some pool =>
          let! pressure := pressure_of a warmup pool in
          if match ba_cdc_delay a with Some d => f_lt d f_zero | None => false end then Ret (Exit 1)
          else
            let! (specs, _) := workload_specs (default (lit "suite") (ba_workload a)) a pool (Rng_new seed) in
            match specs with
            | None => Ret (Exit 1)
            | Some specs =>
                match ba_live_url a with
                | Some url => Ret (Live url seed specs)
                | None =>
                    if bool_decide (is_Some (ba_live_seed a)) || bool_decide (is_Some (ba_live_mutate a)) ||
                       ba_live_evict a || bool_decide (is_Some (ba_live_collection a)) then Ret (Exit 1)
                    else
                      let c ttl := {| sc_ttl := ttl; sc_dt := F64.div (F64.of_Z 1) vqps;
                                      sc_mutation_rate := default f_zero (ba_mutation_rate a);
                                      sc_cdc_delay := ba_cdc_delay a; sc_max_memory := default 0 (ba_max_memory_bytes a);
                                      sc_payload_min := pmin; sc_payload_max := pmax; sc_pressure := pressure;
                                      sc_clock := clock |} in
                      let! (rs, _) := run_reports a c emb specs ∅ (Rng_new (wrap 64 (seed + 1))) in
                      Ret (match rs with None => Exit 1 | Some rs => Reports seed rs end)
                end
            end
      end
  | _, _ => Ret (Exit 1)
  end.
(** The exit code once the reports are written, where they can be. *)
Definition bench_code (a : BenchArgs) (written : bool) (rs : list WorkloadReport) : Z :=
  if bool_decide (is_Some (ba_results_dir a)) && negb written then 1
  else bench_exit (ba_no_fail a) (ba_semantic a) rs (default (F64.lit 40 100) (ba_gate_exact a))
         (default (F64.lit 1 100) (ba_gate_false_hit a)).
End Run.

(** ** Live replay *)

Record LivePoint := {
  lp_workload : str; lp_queries : Z; lp_hits : Z; lp_misses : Z; lp_stale_status : Z; lp_stale_content : Z;
  lp_mutated : Z; lp_evictions : Z; lp_errors : Z; lp_hit_ms : list f64; lp_miss_ms : list f64
}.
Definition live_hit_rate (p : LivePoint) : f64 :=
  if lp_queries p =? 0 then f_zero else hit_ratio (lp_hits p + lp_stale_status p) (lp_queries p).

(** [round] of a number that is not negative, as an integer. *)
Definition f_round_to_u (w : Z) (x : f64) : Z :=
  match x with
  | S754_finite false m e =>
      Z.min (if 0 <=? e then Zpos m * 2 ^ e else (Zpos m + 2 ^ (- e - 1)) / 2 ^ (- e)) (u_max w)
  | _ => f_to_u w x
  end.
Definition percentile_ms (sorted : list f64) (p : f64) : f64 :=
  match sorted with
  | [] => f_zero
  | _ => let idx := f_round_to_u 64 (F64.mul (F64.of_Z (zlen sorted - 1)) p) in
         default f_zero (sorted !! Z.to_nat (Z.min idx (zlen sorted - 1)))
  end.

(** [rsplit_once(" v")] *)
Fixpoint rsplit_marker (s : str) : option (str * str) :=
  match s with
  | [] => None
  | c :: s' =>
      match rsplit_marker s' with
      | Some (h, t) => Some (c :: h, t)
      | None => if starts_with s (lit " v") then Some ([], drop 2 s) else None
      end
  end.
Definition parse_doc_version (content : str) : option Z :=
  match rsplit_marker content with
  | None | Some ([], _) => None
  | Some (_, tail) => parse_usize (trim tail)
  end.
Definition doc_content (text : str) (v : Z) : str := text ++ lit " v" ++ show_Z v.

(** The reply to one query: none, a refusal, or an answer with the time it took. *)
Inductive LiveReply := NoReply | Refused | Undecoded | Answered (wall_ms : f64) (v : Value).

Section Live.
(** The replies of the proxy, whether a document could be changed and the cache evicted,
    at each event. *)
Context (ask : Z -> str -> LiveReply) (set_payload : Z -> Z -> str -> bool) (evict_ok : Z -> bool).

Definition first_result (v : Value) : option Value :=
  match and_then (v_get v "results") as_array with Some (r :: _) => Some r | _ => None end.
Definition stale_answer (latest : gmap Z Z) (v : Value) : bool :=
  match first_result v with
  | None => false
  | Some first =>
      match and_then (and_then (v_get first "id") as_str) parse_usize,
            and_then (and_then (v_get first "content") as_str) parse_doc_version with
      | Some id, Some ver => ver <? default 1 (latest !! id)
      | _, _ => false
      end
  end.
Definition add_live (h m ss sc mu ev er : Z) (hms mms : list f64) (p : LivePoint) : LivePoint :=
  {| lp_workload := lp_workload p; lp_queries := lp_queries p; lp_hits := lp_hits p + h; lp_misses := lp_misses p + m;
     lp_stale_status := lp_stale_status p + ss; lp_stale_content := lp_stale_content p + sc;
     lp_mutated := lp_mutated p + mu; lp_evictions := lp_evictions p + ev; lp_errors := lp_errors p + er;
     lp_hit_ms := lp_hit_ms p ++ hms; lp_miss_ms := lp_miss_ms p ++ mms |}.
Definition record_answer (latest : gmap Z Z) (wall : f64) (v : Value) (p : LivePoint) : LivePoint :=
  let status := default (lit "miss") (and_then (v_get v "cache_status") as_str) in
  if str_eqb status (lit "hit") || str_eqb status (lit "frozen")
  then add_live 1 0 0 (Z.b2z (stale_answer latest v)) 0 0 0 [wall] [] p
  else if str_eqb status (lit "stale") then add_live 0 0 1 0 0 0 0 [wall] [] p
  else add_live 0 1 0 0 0 0 0 [] [wall] p.
(** A document may get a new version, and the cache be evicted after it. *)
Definition live_mutation (i : Z) (rate : f64) (evict seeded : bool) (docs : list str) (latest : gmap Z Z) (p : LivePoint)
  : rand (gmap Z Z * LivePoint) :=
  if f_gt rate f_zero && negb (is_nil docs) then
    draw x := rng_f64 in
    if f_lt x rate && seeded then
      draw r := rng_u64 in
      let idx := r mod zlen docs in
      let new_v := default 1 (latest !! idx) + 1 in
      if set_payload i idx (doc_content (default [] (docs !! Z.to_nat idx)) new_v) then
        rret (<[idx := new_v]> latest, add_live 0 0 0 0 1 (Z.b2z (evict && evict_ok i)) 0 [] [] p)
      else rret (latest, p)
    else rret (latest, p)
  else rret (latest, p).
(** Nothing when the proxy does not answer, or not in JSON. *)
Fixpoint live_loop (i : Z) (evs : list TraceEvent) (rate : f64) (evict seeded : bool) (docs : list str)
  (latest : gmap Z Z) (p : LivePoint) : rand (option (gmap Z Z * LivePoint)) :=
  match evs with
  | [] => rret (Some (latest, p))
  | ev :: evs =>
      match ask i (te_query ev) with
      | NoReply | Undecoded => rret None
      | Refused => live_loop (i + 1) evs rate evict seeded docs latest (add_live 0 0 0 0 0 0 1 [] [] p)
      | Answered wall v =>
          draw (latest, p) := live_mutation i rate evict seeded docs latest (record_answer latest wall v p) in
          live_loop (i + 1) evs rate evict seeded docs latest p
      end
  end.
Definition run_live (name : str) (evs : list TraceEvent) (rate : f64) (evict seeded : bool) (docs : list str)
  (latest : gmap Z Z) : rand (option (gmap Z Z * LivePoint)) :=
  live_loop 0 evs rate evict seeded docs latest
    {| lp_workload := name; lp_queries := zlen evs; lp_hits := 0; lp_misses := 0; lp_stale_status := 0;
       lp_stale_content := 0; lp_mutated := 0; lp_evictions := 0; lp_errors := 0; lp_hit_ms := []; lp_miss_ms := [] |}.

(** The documents: the texts of the queries, each once, up to a number. *)
Fixpoint doc_texts (cap : Z) (seen : gset str) (docs : list str) (qs : list str) : list str :=
  match qs with
  | [] => docs
  | q :: qs =>
      if bool_decide (q ∈ seen) then doc_texts cap seen docs qs
      else doc_texts cap ({[q]} ∪ seen) (if zlen docs <? cap then docs ++ [q] else docs) qs
  end.
Fixpoint live_points (specs : list (str * list TraceEvent)) (rate : f64) (evict seeded : bool) (docs : list str)
  (latest : gmap Z Z) : rand (option (list LivePoint)) :=
  match specs with
  | [] => rret (Some [])
  | (name, evs) :: specs =>
      draw r := run_live name evs rate evict seeded docs latest in
      match r with
      | None => rret None
      | Some (latest, p) =>
          draw rest := live_points specs rate evict seeded docs latest in
          rret (match rest with Some l => Some (p :: l) | None => None end)
      end
  end.
Definition live_best (points : list LivePoint) : option f64 :=
  live_hit_rate <$> find (fun p => str_eqb (lp_workload p) (lit "agentic")) points.
Definition live_fail_core (points : list LivePoint) (gate : f64) : bool :=
  match live_best points with Some r => f_lt r gate | None => false end.
(** [seed_ok]: the documents could be put into the vector database. *)
Definition run_live_mode (a : BenchArgs) (specs : list (str * list TraceEvent)) (seed : Z) (client_ok embed_feature : bool)
  (seed_ok : list str -> bool) (written : bool) : outcome Z :=
  let rate := default f_zero (ba_live_mutate a) in
  let docs := doc_texts (default 2000 (ba_live_docs a)) ∅ [] (concat (map (fun s => map te_query s.2) specs)) in
  if negb client_ok then Ret 1
  else if match ba_live_seed a with
          | Some _ => negb (embed_feature && seed_ok docs)
          | None => f_gt rate f_zero
          end then Ret 1
  else
    let! (points, _) := live_points specs rate (ba_live_evict a) (bool_decide (is_Some (ba_live_seed a))) docs ∅
                          (Rng_new (wrap 64 (seed + 7))) in
    Ret (match points with
         | None => 1
         | Some ps =>
             if bool_decide (is_Some (ba_results_dir a)) && negb written then 1
             else if live_fail_core ps (default (F64.lit 40 100) (ba_gate_exact a)) && negb (ba_no_fail a) then 2 else 0
         end).
End Live.

Section LiveJson.
Context {F : FloatText}.
Definition summary_json_live (describe : LivePoint -> str) (points : list LivePoint) (seed : Z) (gate : f64) (verdict : str)
  : Value := VObject
  [field "schema_version" (json_usize 1); field "tool" (VString (lit "hitrate_bench")); field "mode" (VString (lit "live"));
   field "seed" (json_usize seed); field "gate_exact" (json_f64 gate); field "verdict" (VString verdict);
   field "workloads" (VArray (map (fun p => VObject
     [field "name" (VString (lp_workload p)); field "description" (VString (describe p));
      field "queries" (json_usize (lp_queries p)); field "hits" (json_usize (lp_hits p));
      field "misses" (json_usize (lp_misses p)); field "stale_status" (json_usize (lp_stale_status p));
      field "stale_content" (json_usize (lp_stale_content p)); field "mutated" (json_usize (lp_mutated p));
      field "evicted" (json_usize (lp_evictions p)); field "errors" (json_usize (lp_errors p));
      field "hit_rate" (json_f64 (live_hit_rate p))]) points))].
End LiveJson.

(** ** The verdict is that of the points *)

Lemma f_max_lt a x g : not_nan a -> f_lt (f_max a x) g = true <-> f_lt a g = true /\ (is_nan x = true \/ f_lt x g = true).
Proof.
  intros Ha. unfold f_max. rewrite Ha. destruct (is_nan x) eqn:Hx; [naive_solver|].
  destruct (f_lt a x) eqn:Hl; split.
  - intros H. split; [by eapply f_lt_trans|auto].
  - naive_solver.
  - intros H. split; [done|]. right. assert (Hg : not_nan g) by eauto with cpx.
    rewrite f_lt_not_le in * by done. rewrite negb_true_iff in *. rewrite negb_false_iff in Hl.
    apply not_true_iff_false. intros Hgx. rewrite (f_le_trans _ _ _ Hgx Hl) in H. done.
  - naive_solver.
Qed.
Lemma f_max_defined a x : not_nan a -> not_nan (f_max a x).
Proof. intros Ha. unfold f_max. rewrite Ha. destruct (is_nan x) eqn:Hx; [done|]. by destruct (f_lt a x). Qed.
Lemma fold_max_lt l g : forall a, not_nan a -> f_lt (fold_left f_max l a) g = true <->
  f_lt a g = true /\ Forall (fun x => is_nan x = true \/ f_lt x g = true) l.
Proof.
  induction l as [|x l IH]; intros a Ha; cbn [fold_left]; [naive_solver|].
  rewrite IH by (by apply f_max_defined). rewrite f_max_lt, Forall_cons by done. tauto.
Qed.

(** The core verdict fails exactly when the agentic workload was run and none of its
    points reaches a positive gate. *)
Theorem fail_core_exact reports gate : fail_core reports gate = true <->
  exists r, find_report "agentic" reports = Some r /\ f_lt f_zero gate = true /\
    Forall (fun p => is_nan (sp_exact_hit_rate p) = true \/ f_lt (sp_exact_hit_rate p) gate = true) (wr_sweep r).
Proof.
  unfold fail_core, agentic_best. destruct (find_report "agentic" reports) as [r|]; cbn [bool_decide andb].
  - rewrite bool_decide_eq_true_2 by eauto. cbn [andb]. rewrite fold_max_lt by done. rewrite Forall_map. naive_solver.
  - rewrite bool_decide_eq_false_2 by (by intros []). cbn. naive_solver.
Qed.

Lemma best_fold l : forall acc,
  (forall a, acc = Some a -> not_nan (mp_combined_hit_rate a)) -> Forall (fun p => not_nan (mp_combined_hit_rate p)) l ->
  match fold_left best_step l acc with
  | None => acc = None /\ l = []
  | Some p => (acc = Some p \/ p ∈ l) /\
      (forall q, acc = Some q \/ q ∈ l -> f_le (mp_combined_hit_rate q) (mp_combined_hit_rate p) = true)
  end.
Proof.
  induction l as [|x l IH]; intros acc Ha Hl; cbn [fold_left].
  { destruct acc as [a|]; [|done]. split; [auto|]. intros q [[= ->]|H]; [apply f_le_refl; auto|set_solver]. }
  apply Forall_cons in Hl as [Hx Hl].
  assert (Hstep : exists p, best_step acc x = Some p /\ not_nan (mp_combined_hit_rate p) /\ (acc = Some p \/ p = x) /\
    (forall q, acc = Some q \/ q = x -> f_le (mp_combined_hit_rate q) (mp_combined_hit_rate p) = true)).
  { unfold best_step. destruct acc as [a|].
    - specialize (Ha a eq_refl). unfold cmp_or_eq. rewrite SFcompare_key by done.
      destruct (key_compare _ _) eqn:Ec; [exists x|exists x|exists a]; split_and!; auto; intros q [[= ->]| ->];
        try (by apply f_le_refl); apply f_le_key; try done; try congruence.
      rewrite key_compare_spec in Ec. by rewrite Ec.
    - exists x. split_and!; auto. intros q [?| -> ]; [done|by apply f_le_refl]. }
  destruct Hstep as (p & Hp & Hn & Hin & Hmax). rewrite Hp. specialize (IH (Some p)).
  destruct (fold_left best_step l (Some p)) as [r|].
  - destruct IH as [Hr Hall]; [by intros a [= <-]|done|]. split.
    + destruct Hr as [[= <-]|Hr]; [|set_solver]. destruct Hin as [| -> ]; [auto|set_solver].
    + assert (Hcut : forall q, acc = Some q \/ q = x -> f_le (mp_combined_hit_rate q) (mp_combined_hit_rate r) = true).
      { intros q Hq. eapply f_le_trans; [by apply Hmax|]. apply Hall. by left. }
      intros q [Hq|[Hq|Hq]%elem_of_cons]; [by apply Hcut; left|by apply Hcut; right|by apply Hall; right].
  - destruct IH as [? _]; [by intros a [= <-]|done|done].
Qed.
(** The point that is proposed keeps the false hits below the gate and no such point has
    a better rate; nothing is proposed exactly when there is no such point. *)
Theorem best_valid_tau_exact sem gate : Forall (fun p => not_nan (mp_combined_hit_rate p)) sem ->
  match best_valid_tau sem gate with
  | Some p => p ∈ sem /\ valid_tau gate p = true /\
      forall q, q ∈ sem -> valid_tau gate q = true -> f_le (mp_combined_hit_rate q) (mp_combined_hit_rate p) = true
  | None => Forall (fun q => valid_tau gate q = false) sem
  end.
Proof.
  intros Hn. unfold best_valid_tau.
  assert (Hm : forall q, q ∈ List.filter (valid_tau gate) sem <-> q ∈ sem /\ valid_tau gate q = true)
    by (intros q; by rewrite !list_elem_of_In, filter_In).
  pose proof (best_fold (List.filter (valid_tau gate) sem) None) as Hb.
  destruct (fold_left best_step _ None) as [p|].
  - destruct Hb as [[?|Hp] Hall]; [done| |done|].
    { rewrite Forall_forall in *. intros q [Hq _]%Hm. auto. }
    apply Hm in Hp as [? ?]. split_and!; [done..|]. intros q Hq Hv. apply Hall. right. by apply Hm.
  - destruct Hb as [_ Hb]; [done| |]. { rewrite Forall_forall in *. intros q [Hq _]%Hm. auto. }
    apply Forall_forall. intros q Hq. apply not_true_iff_false. intros Hv.
    assert (q ∈ List.filter (valid_tau gate) sem) by (by apply Hm). rewrite Hb in *. set_solver.
Qed.

(** ** Live replay *)

Lemma rsplit_marker_none s : Forall (fun c => is_ascii_digit c = true) s -> rsplit_marker s = None.
Proof.
  induction 1 as [|c s Hc Hs IH]; [done|]. cbn [rsplit_marker]. rewrite IH.
  assert (c <> 32) by (intros ->; done). change (lit " v") with [32; 118]. cbn [starts_with].
  destruct (Z.eqb_spec c 32), (Z.eqb_spec 32 c); done.
Qed.
Lemma rsplit_marker_app h t : Forall (fun c => is_ascii_digit c = true) t -> rsplit_marker (h ++ lit " v" ++ t) = Some (h, t).
Proof.
  intros Ht. induction h as [|c h IH]; [|cbn [app rsplit_marker]; by rewrite IH].
  change ([] ++ lit " v" ++ t) with (32 :: 118 :: t). cbn [rsplit_marker].
  rewrite (rsplit_marker_none t Ht). change (starts_with (118 :: t) (lit " v")) with false.
  change (starts_with (32 :: 118 :: t) (lit " v")) with (starts_with t []). by destruct t.
Qed.
Lemma parse_digits_fold d : forall acc, Forall (fun c => is_ascii_digit c = true) d -> 0 <= acc ->
  fold_left (fun a c => a * 10 + (c - 48)) d acc <= usize_max ->
  parse_digits acc d = Some (fold_left (fun a c => a * 10 + (c - 48)) d acc).
Proof.
  induction d as [|c d IH]; intros acc Hd Ha Hm; [done|]. apply Forall_cons in Hd as [Hc Hd]. cbn -[Z.mul].
  rewrite Hc. unfold is_ascii_digit in Hc. apply andb_true_iff in Hc as [Hc1 Hc2]. reflect_Z.
  assert (Hmono : forall l a, Forall (fun c => is_ascii_digit c = true) l -> 0 <= a ->
    a <= fold_left (fun a c => a * 10 + (c - 48)) l a).
  { clear. induction l as [|x l IH]; intros a Hl Ha; [done|]. apply Forall_cons in Hl as [Hx Hl]. cbn -[Z.mul].
    unfold is_ascii_digit in Hx. apply andb_true_iff in Hx as [Hx1 Hx2]. reflect_Z.
    etransitivity; [|apply IH; [done|lia]]. lia. }
  cbn -[Z.mul] in Hm. pose proof (Hmono d (acc * 10 + (c - 48)) Hd ltac:(lia)) as Hle.
  rewrite (proj2 (Z.ltb_ge usize_max _)) by lia. replace (10 * acc + (c - 48)) with (acc * 10 + (c - 48)) by lia.
  apply IH; [done|lia|done].
Qed.
(** The version that was put into a document is read back from it. *)
Theorem doc_version_roundtrip text v : text <> [] -> in_u 64 v -> parse_doc_version (doc_content text v) = Some v.
Proof.
  intros Hn Hv. assert (H20 : 0 <= v < 10 ^ 20) by (unfold in_u, u_max in Hv; lia).
  destruct (show_Z_digits v H20) as (c & d & Hs & Hd & Hf). unfold parse_doc_version, doc_content.
  rewrite Hs, rsplit_marker_app by done. destruct text as [|x text]; [done|].
  rewrite trim_no_ws by (eapply Forall_impl; [exact Hd|]; intros y Hy; by apply digit_not_ws).
  rewrite parse_plain_digits by (by apply Forall_cons in Hd as [? _]). rewrite <- Hf.
  apply parse_digits_fold; [done|done|]. rewrite Hf. apply Hv.
Qed.

Section LiveProps.
Context (ask : Z -> str -> LiveReply) (set_payload : Z -> Z -> str -> bool) (evict_ok : Z -> bool).

Definition live_sum (p : LivePoint) : Z := lp_hits p + lp_misses p + lp_stale_status p + lp_errors p.
Definition live_ok (n : Z) (p : LivePoint) : Prop :=
  live_sum p = n /\ 0 <= lp_hits p /\ 0 <= lp_misses p /\ 0 <= lp_stale_status p /\ 0 <= lp_errors p /\
  0 <= lp_stale_content p <= lp_hits p /\ 0 <= lp_evictions p <= lp_mutated p /\
  zlen (lp_hit_ms p) = lp_hits p + lp_stale_status p /\ zlen (lp_miss_ms p) = lp_misses p.
Lemma zlen_snoc {A} (l k : list A) : zlen (l ++ k) = zlen l + zlen k.
Proof. unfold zlen. rewrite length_app. lia. Qed.
Lemma record_answer_ok n latest wall v p : live_ok n p -> live_ok (n + 1) (record_answer latest wall v p).
Proof.
  unfold live_ok, live_sum, record_answer. intros H.
  assert (0 <= Z.b2z (stale_answer latest v) <= 1) by (destruct (stale_answer latest v); cbn; lia).
  destruct (_ || _); [|destruct (str_eqb _ _)]; cbn [add_live lp_hits lp_misses lp_stale_status lp_errors lp_stale_content
    lp_evictions lp_mutated lp_hit_ms lp_miss_ms]; rewrite !zlen_snoc; change (zlen [wall]) with 1; change (zlen (@nil f64)) with 0; lia.
Qed.
Lemma draws_live_mutation i n rate evict seeded docs latest p : live_ok n p ->
  draws (live_mutation set_payload evict_ok i rate evict seeded docs latest p) (fun r => live_ok n r.2 /\ lp_queries r.2 = lp_queries p).
Proof.
  intros Hp. unfold live_mutation. destruct (_ && _); [|by apply draws_ret].
  eapply draws_bind; [apply draws_f64|]. intros x _. destruct (_ && _); [|by apply draws_ret].
  eapply (draws_bind _ _ (fun _ => True)); [intros st; unfold rng_u64; destruct (next_u64 st); eauto|]. intros r _.
  destruct (set_payload _ _ _); [|by apply draws_ret]. apply draws_ret. split; [|done]. unfold live_ok, live_sum in *.
  assert (0 <= Z.b2z (evict && evict_ok i) <= 1) by (destruct (evict && evict_ok i); cbn; lia).
  cbn [snd add_live lp_hits lp_misses lp_stale_status lp_errors lp_stale_content lp_evictions lp_mutated lp_hit_ms lp_miss_ms].
  rewrite !app_nil_r. lia.
Qed.
Lemma draws_live_loop evs : forall i n rate evict seeded docs latest p, live_ok n p ->
  draws (live_loop ask set_payload evict_ok i evs rate evict seeded docs latest p)
    (fun r => match r with Some (_, p') => live_ok (n + zlen evs) p' /\ lp_queries p' = lp_queries p
              | None => exists j q, ask j q = NoReply \/ ask j q = Undecoded end).
Proof.
  induction evs as [|ev evs IH]; intros i n rate evict seeded docs latest p Hp; cbn [live_loop].
  { apply draws_ret. change (zlen (@nil TraceEvent)) with 0. by rewrite Z.add_0_r. }
  assert (Hz : zlen (ev :: evs) = 1 + zlen evs) by (unfold zlen; cbn; lia). rewrite Hz, Z.add_assoc.
  destruct (ask i (te_query ev)) as [| | |wall v] eqn:Ea.
  - apply draws_ret. eauto.
  - eapply draws_mono; [apply (IH (i + 1) (n + 1)); unfold live_ok, live_sum in *; cbn [add_live lp_hits lp_misses lp_stale_status
      lp_errors lp_stale_content lp_evictions lp_mutated lp_hit_ms lp_miss_ms]; rewrite !app_nil_r; lia|]. done.
  - apply draws_ret. eauto.
  - eapply draws_bind; [apply draws_live_mutation, record_answer_ok, Hp|]. intros [latest' p'] [Hp' Hq'].
    eapply draws_mono; [apply (IH (i + 1) (n + 1)), Hp'|]. intros [[l2 p2]|]; [|done]. cbn in Hq'. rewrite Hq'.
    assert (lp_queries (record_answer latest wall v p) = lp_queries p) as -> by
      (unfold record_answer; destruct (_ || _); [done|by destruct (str_eqb _ _)]). done.
Qed.
(** A replay ends; unless the proxy could not be reached or read, every query is a hit, a
    miss, a stale answer or an error, with its time, and the versions known to lag are hits. *)
Theorem live_balances name evs rate evict seeded docs latest :
  draws (run_live ask set_payload evict_ok name evs rate evict seeded docs latest)
    (fun r => match r with Some (_, p) => live_ok (zlen evs) p /\ lp_queries p = zlen evs
              | None => exists j q, ask j q = NoReply \/ ask j q = Undecoded end).
Proof.
  unfold run_live. eapply draws_mono; [apply (draws_live_loop evs 0 0)|].
  - unfold live_ok, live_sum, zlen. cbn. lia.
  - intros [[l p]|]; [|done]. by rewrite Z.add_0_l.
Qed.
End LiveProps.

(** ** A run without arguments ends with its reports *)

Section RunProps.
Context `{E : CacheEnv} {L : CacheEnvLaws E} {P : FloatPowf} {J : JsonText} {SE : EmbedEnv}.

Lemma draws_sweeps c grid evs m : Forall (fun g => 0 <= g.1 < usize_max) grid -> zlen evs <= u64_max ->
  draws (sweeps c grid evs m) (fun l => length l = length grid /\ Forall (fun p => sp_queries p = zlen evs) l).
Proof.
  intros Hg Hl. induction Hg as [|[size ttl] grid Hs Hg IH]; cbn [sweeps]; [by apply draws_ret|].
  eapply draws_bind; [by apply sweep_exact|]. intros p [Hp _]. eapply draws_bind; [exact IH|]. intros ps [Hps HF].
  apply draws_ret. cbn. split; [lia|by constructor].
Qed.

Definition default_args : BenchArgs :=
  {| ba_workload := None; ba_seed := None; ba_queries := None; ba_unique := None; ba_zipf_s := None; ba_tasks := None;
     ba_calls := None; ba_requery := None; ba_agents := None; ba_pool := None; ba_paraphrase_rate := None; ba_trace := None;
     ba_queries_file := None; ba_mutation_rate := None; ba_cdc_delay := None; ba_cache_sizes := []; ba_ttl_values := [];
     ba_virtual_qps := None; ba_t_embed_ms := None; ba_t_backend_ms := None; ba_t_lookup_ms := None;
     ba_embed_usd_per_mtok := None; ba_ru_usd_per_m := None; ba_tokens_per_query := None; ba_gate_exact := None;
     ba_gate_false_hit := None; ba_semantic := false; ba_embedder := None; ba_embed_provider := None; ba_embed_model := None;
     ba_embed_api_key_var := None; ba_taus := []; ba_sem_cache_sizes := []; ba_sem_max_queries := None; ba_probe := false;
     ba_no_fail := false; ba_results_dir := None; ba_live_url := None; ba_live_seed := None; ba_live_collection := None;
     ba_live_top_k := None; ba_live_docs := None; ba_live_mutate := None; ba_live_evict := false; ba_max_memory_bytes := None;
     ba_payload_bytes := None; ba_payload_zipf_max := None; ba_warmup_frac := None; ba_series_every := None;
     ba_hot_set := None; ba_elephants := false; ba_elephant_bytes := None; ba_scan_n := None |}.

(** The report of a workload has a point for each cache size, over all of its queries. *)
Definition reported (name : string) (queries : Z) (r : WorkloadReport) : Prop :=
  wr_name r = lit name /\ length (wr_sweep r) = 3%nat /\ Forall (fun p => sp_queries p = queries) (wr_sweep r) /\ wr_sem r = [].

Lemma draws_run_reports clock c specs memo : Forall (fun s => zlen s.2 <= u64_max) specs ->
  draws (run_reports clock default_args c None specs memo) (fun r => exists rs, r = Some rs /\
    Forall2 (fun s r => wr_name r = s.1 /\ length (wr_sweep r) = 3%nat /\
                        Forall (fun p => sp_queries p = zlen s.2) (wr_sweep r) /\ wr_sem r = []) specs rs).
Proof.
  induction 1 as [|[name evs] specs Hl Hs IH]; cbn [run_reports]; [apply draws_ret; eauto|].
  eapply draws_bind; [apply draws_sweeps; [by repeat constructor|exact Hl]|]. intros sweep [Hlen HF].
  eapply draws_bind; [exact IH|]. intros ? (rs & -> & Hrs). apply draws_ret. eexists. split; [done|].
  constructor; [|done]. cbn. done.
Qed.
Lemma draws_suite read_file : draws (workload_specs read_file (lit "suite") default_args None) (fun r =>
  exists z a, r = Some [(lit "zipf", z); (lit "agentic", a)] /\ zlen z = 100000 /\ zlen a = 40000).
Proof.
  unfold workload_specs. change (negb _) with false. cbv iota. change (str_eqb (lit "suite") (lit "agentic") || _) with true.
  cbv iota. eapply draws_bind.
  - unfold zipf_specs. change (_ || _) with true. cbv iota.
    eapply (draws_bind _ _ _ (fun l => exists z, l = [(lit "zipf", z)] /\ zlen z = 100000)); [by apply draws_zipf|].
    intros z [Hz _]. apply draws_ret. by exists z.
  - intros ? (z & -> & Hz). eapply draws_bind; [apply agentic_shape; by vm_compute|]. intros a [Ha _]. apply draws_ret.
    exists z, a. by rewrite Ha.
Qed.
Theorem default_run_reports read_file env build_onnx build_api build_mock clock embed_api embed_feature :
  exists z a, bench_main read_file env build_onnx build_api build_mock clock embed_api embed_feature default_args =
    Ret (Reports 42 [z; a]) /\ reported "zipf" 100000 z /\ reported "agentic" 40000 a.
Proof.
  unfold bench_main. cbn [ba_semantic default_args andb]. change (embed_api && ba_probe default_args) with (embed_api && false).
  rewrite andb_false_r.
  replace (choose_embedder env build_onnx build_api build_mock embed_api embed_feature default_args) with
    (@Some (option BenchEmbedder) None) by (unfold choose_embedder; by destruct embed_api).
  change (payload_bounds default_args) with (Some (0, 0)). cbv iota beta zeta.
  change (negb (f_le f_zero _ && _)) with false. change (f_le _ f_zero) with false. cbv iota.
  change (load_pool read_file default_args) with (@Some (option (list str)) None). cbv iota.
  change (pressure_of default_args _ None) with
    (Ret {| warmup_frac := f_zero; series_every := 0; hot_queries := []; hot_queries_current := []; elephants := false;
            elephant_bytes := 65536 |}). cbn [obind ba_cdc_delay default_args].
  change (default (lit "suite") (ba_workload default_args)) with (lit "suite").
  destruct (draws_suite read_file (Rng_new 42)) as (? & st & Hs & z & a & -> & Hz & Ha).
  change (Rng_new (default 42 (ba_seed default_args))) with (Rng_new 42). fold default_args. rewrite Hs. cbn [obind].
  change (ba_live_url default_args) with (@None str). cbv iota. change (bool_decide _ || _ || _ || _) with false. cbv iota.
  match goal with |- context [run_reports clock ?d ?c None ?sp ?m ?st0] =>
    destruct (draws_run_reports clock c sp m) with st0 as (? & st' & Hr & rs & -> & Hrs) end.
  { repeat constructor; cbn [snd]; rewrite ?Hz, ?Ha; by vm_compute. }
  rewrite Hr. cbn [obind]. inversion Hrs as [|? rz ? rs' Hrz Hrs' E1 E2]. subst.
  inversion Hrs' as [|? ra ? rs'' Hra Hrs'' E1 E2]. subst. inversion Hrs''. subst.
  exists rz, ra. split; [done|]. cbn [fst snd] in *. rewrite Hz in Hrz. rewrite Ha in Hra. split; [exact Hrz|exact Hra].
Qed.
End RunProps.
