(* ===== verification/Perf.v ===== *)
(** * The summary of performance runs (src/src/bin/perf_summarize.rs)

    The comparison of benchmarks with their baseline and its verdict, the state of the
    baseline, the history of earlier runs with trends and chronic regressions, the
    readers of the hit-rate report, of a metrics page and of the runtime's metrics.  Files
    and tools are arguments; a file that cannot be read is absent.  JSON numbers are read
    through [NumberViews]. *)

From Stdlib Require Import SpecFloat.
From S2P Require Import Prelude Floats Text Types Cdc Cache Auth Scope Retry Vendors Config Distill Engine Prometheus.
From S2P Require Import Semantic TuneSession HitTrace HitRate HitReport.
Open Scope Z_scope.
Open Scope conproxy_scope.

(** ** One benchmark *)

Record EstPoint := { ep_point : f64; ep_ci : option (f64 * f64); ep_se : option f64 }.
Inductive BenchStatus := BRegression | BImprovement | BInconclusive | BOk | BNoMain.
Record BenchEntry := {
  be_name : str; be_group : str; be_mean_ns : f64; be_change_pct : option f64; be_ci : option (f64 * f64);
  be_has_main : bool; be_status : BenchStatus
}.

Definition bench_group (name : str) : str :=
  if starts_with name (lit "cache_") then lit "core_ops"
  else if starts_with name (lit "query_") || starts_with name (lit "response_") then lit "core_ops"
  else if str_eqb name (lit "slugify") || str_eqb name (lit "normalize_query") then lit "core_ops"
  else if starts_with name (lit "fuse_rrf") || starts_with name (lit "scope_") then lit "cascade_scope"
  else lit "other".

Section Evaluate.
Context {FP : FloatPow}.

Definition pct (x : f64) : f64 := F64.mul x (F64.of_Z 100).
(** The change against the baseline, in percent, with its interval. *)
Definition main_delta (mean_ns : f64) (new_se : option f64) (main : EstPoint) : option f64 * option (f64 * f64) :=
  let main_mean := ep_point main in
  if f_gt main_mean f_zero && f_gt mean_ns f_zero then
    let delta := F64.sub mean_ns main_mean in
    let se_delta := F64.sqrt (F64.add (powi (default f_zero new_se) 2) (powi (default f_zero (ep_se main)) 2)) in
    let ci_delta := F64.mul (F64.lit 196 100) se_delta in
    (Some (pct (F64.div delta main_mean)),
     Some (pct (F64.div (F64.sub delta ci_delta) main_mean), pct (F64.div (F64.add delta ci_delta) main_mean)))
  else (None, None).
Definition change_delta (ch : EstPoint) : option f64 * option (f64 * f64) :=
  (Some (pct (ep_point ch)), (fun b => (pct b.1, pct b.2)) <$> ep_ci ch).
Definition status_of (threshold : f64) (delta : option f64) (ci : option (f64 * f64)) : BenchStatus :=
  match delta, ci with
  | None, _ => BNoMain
  | Some _, Some (lo, hi) =>
      if f_ge lo threshold then BRegression else if f_le hi (SFopp threshold) then BImprovement else BInconclusive
  | Some p, None =>
      if f_ge p threshold then BRegression else if f_le p (SFopp threshold) then BImprovement else BOk
  end.
(** A baseline or a change that is there but cannot be read is an error. *)
Definition evaluate_bench (name : str) (mean_ns : f64) (new_se : option f64) (change main : option (option EstPoint))
  (threshold : f64) : option BenchEntry :=
  let entry dc has_main :=
    let '(delta, ci) := dc in
    Some {| be_name := name; be_group := bench_group name; be_mean_ns := mean_ns; be_change_pct := delta; be_ci := ci;
            be_has_main := has_main; be_status := status_of threshold delta ci |} in
  match main, change with
  | Some None, _ => None
  | Some (Some m), _ => entry (main_delta mean_ns new_se m) true
  | None, Some None => None
  | None, Some (Some ch) => entry (change_delta ch) false
  | None, None => entry (None, None) false
  end.

(** ** A run *)

(** A directory of results: its name, the time and the estimate of the new run, and the
    estimates against the last run and the baseline. *)
Record BenchDir := {
  bd_name : str; bd_mtime : option Z; bd_new : option EstPoint; bd_change : option (option EstPoint);
  bd_main : option (option EstPoint)
}.
Definition collect_benches (since : option Z) (dirs : list BenchDir) : list BenchDir :=
  sort_by (fun a b => str_leb (bd_name a) (bd_name b))
    (List.filter (fun d => match since, bd_mtime d with Some mn, Some t => negb (t <? mn) | _, _ => true end) dirs).

Record ChangeEntry := { ch_name : str; ch_pct : f64; ch_ci : option (f64 * f64) }.
Definition change_entry (b : BenchEntry) : ChangeEntry :=
  {| ch_name := be_name b; ch_pct := default f_zero (be_change_pct b); ch_ci := be_ci b |}.
(** The benchmarks in the order of their names; one whose estimate cannot be read is left out. *)
Fixpoint evaluate_all (threshold : f64) (dirs : list BenchDir) : option (list BenchEntry) :=
  match dirs with
  | [] => Some []
  | d :: dirs =>
      match bd_new d with
      | None => evaluate_all threshold dirs
      | Some e =>
          match evaluate_bench (bd_name d) (ep_point e) (ep_se e) (bd_change d) (bd_main d) threshold with
          | None => None
          | Some b => match evaluate_all threshold dirs with Some bs => Some (b :: bs) | None => None end
          end
      end
  end.
Definition status_rank (s : BenchStatus) : Z :=
  match s with BRegression => 0 | BInconclusive => 1 | BOk => 2 | BNoMain => 3 | BImprovement => 4 end.
Definition entry_le (a b : BenchEntry) : bool :=
  match status_rank (be_status a) ?= status_rank (be_status b) with
  | Lt => true
  | Gt => false
  | Eq => score_desc_le (default f_zero (be_change_pct a)) (default f_zero (be_change_pct b))
  end.
Definition with_status (s : BenchStatus) (bs : list BenchEntry) : list ChangeEntry :=
  map change_entry (List.filter (fun b => status_rank (be_status b) =? status_rank s) bs).
Inductive PerfVerdict := Regressions | NoBaseline | PerfPass.
Definition perf_verdict (bs : list BenchEntry) : PerfVerdict :=
  match with_status BRegression bs with
  | _ :: _ => Regressions
  | [] => if forallb (fun b => negb (be_has_main b) && (status_rank (be_status b) =? status_rank BNoMain)) bs
          then NoBaseline else PerfPass
  end.
Record PerfRun := {
  pr_benches : list BenchEntry; pr_regressions : list ChangeEntry; pr_improvements : list ChangeEntry;
  pr_inconclusive : list ChangeEntry; pr_verdict : PerfVerdict
}.
(** [dirs] is empty when there is no directory of results. *)
Definition perf_run (threshold : f64) (since : option Z) (dirs : list BenchDir) : option PerfRun :=
  match evaluate_all threshold (collect_benches since dirs) with
  | None => None
  | Some bs =>
      Some {| pr_benches := sort_by entry_le bs;
              pr_regressions := sort_by (fun a b => score_desc_le (ch_pct a) (ch_pct b)) (with_status BRegression bs);
              pr_improvements := sort_by (fun a b => score_desc_le (ch_pct b) (ch_pct a)) (with_status BImprovement bs);
              pr_inconclusive := with_status BInconclusive bs;
              pr_verdict := perf_verdict bs |}
  end.
Definition perf_exit (fail_on_regression : bool) (r : option PerfRun) : Z :=
  match r with
  | None => 1
  | Some r => match pr_verdict r with Regressions => if fail_on_regression then 2 else 0 | _ => 0 end
  end.
End Evaluate.

(** ** The state of the baseline *)

(** [&s[a..b]] on bytes: a panic outside the string or inside a character. *)
Fixpoint skip_bytes (n : Z) (s : str) {struct s} : option str :=
  if n =? 0 then Some s
  else match s with
       | [] => None
       | c :: s => let k := zlen (utf8_char c) in if n <? k then None else skip_bytes (n - k) s
       end.
Fixpoint take_bytes (n : Z) (s : str) {struct s} : option str :=
  if n =? 0 then Some []
  else match s with
       | [] => None
       | c :: s => let k := zlen (utf8_char c) in
                   if n <? k then None else match take_bytes (n - k) s with Some r => Some (c :: r) | None => None end
       end.
Definition slice (a b : Z) (s : str) : option str := and_then (skip_bytes a s) (take_bytes (b - a)).
Definition index_slice (a b : Z) (s : str) : outcome str := match slice a b s with Some r => Ret r | None => Panic end.
(** [parse::<i64>] of a short text: an optional sign and digits. *)
Definition parse_i64 (s : str) : option Z :=
  match s with
  | 45 :: c :: d => Z.opp <$> parse_digits 0 (c :: d)
  | _ => parse_usize s
  end.

Definition iso_days (year month day : Z) : Z :=
  let y := year - Z.b2z (month <=? 2) in
  let m := month + (if month <=? 2 then 12 else 0) in
  365 * y + Z.quot y 4 - Z.quot y 100 + Z.quot y 400 + Z.quot (153 * (m - 3) + 2) 5 + day - 719468.
Fixpoint trim_end_z (s : str) : str :=
  match s with
  | [] => []
  | c :: s' => match trim_end_z s' with [] => if c =? 90 then [] else [c] | r => c :: r end
  end.
Definition parse_iso8601_hours (now_secs : Z) (ts : str) : outcome (option f64) :=
  let s := trim_end_z ts in
  let field a b k := let! t := index_slice a b s in match parse_i64 t with Some n => k n | None => Ret None end in
  field 0 4 (fun year => field 5 7 (fun month => field 8 10 (fun day => field 11 13 (fun hour => field 14 16 (fun min =>
    let sec := default 0 (and_then (slice 17 19 s) parse_i64) in
    let stamp_secs := wrap 64 (iso_days year month day * 86400 + hour * 3600 + min * 60 + sec) in
    Ret (Some (F64.div (F64.of_Z (now_secs -! stamp_secs)) (F64.of_Z 3600)))))))).

Record BaselineMeta := { bm_saved_at : str; bm_git_sha : str; bm_git_dirty : bool }.
Inductive BaselineStatus := NoMeta | StaleDirty | StaleSha | StaleAge | BaselineOk.
(** [rev_count]: what git counts between the commit of the baseline and the present one. *)
Definition baseline_status (now_secs : Z) (current_sha : option str) (rev_count : str -> option Z) (meta : option BaselineMeta)
  : outcome (BaselineStatus * option f64 * option Z) :=
  match meta with
  | None => Ret (NoMeta, None, None)
  | Some m =>
      let! age := parse_iso8601_hours now_secs (bm_saved_at m) in
      let behind := if starts_with (default [] current_sha) (take 8 (bm_git_sha m)) then Some 0 else rev_count (bm_git_sha m) in
      let status := if bm_git_dirty m then StaleDirty
                    else if 0 <? default 0 behind then StaleSha
                    else if f_gt (default (S754_infinity false) age) (F64.of_Z 24) then StaleAge else BaselineOk in
      Ret (status, age, behind)
  end.

(** ** Earlier runs *)

(** The directories of a history, as they are listed: the time each was changed, where it
    is known, and its summary, where it has one that is JSON. *)
Record HistoryDir := { hd_mtime : option Z; hd_summary : option Value }.
(** The summaries, the newest first. *)
Definition newest_first (dirs : list HistoryDir) : list HistoryDir :=
  sort_by (fun a b => default 0 (hd_mtime b) <=? default 0 (hd_mtime a))
    (List.filter (fun d => bool_decide (is_Some (hd_mtime d))) dirs).

Section History.
Context {NV : NumberViews}.

Definition get_str (k : string) (dflt : str) (v : Value) : str := default dflt (and_then (v_get v k) as_str).
Definition get_f64 (k : string) (v : Value) : option f64 := and_then (v_get v k) as_f64.
Definition bench_values (v : Value) : list Value := default [] (and_then (v_get v "benches") as_array).
(** A summary of the present commit is not an earlier run. *)
Definition is_current (current_sha : str) (v : Value) : bool := starts_with (get_str "git_sha" [] v) current_sha.

Record HistoryEntry := { he_timestamp : str; he_sha : str; he_verdict : str; he_top : option (str * f64) }.
Definition top_step (top : option (str * f64)) (b : Value) : option (str * f64) :=
  match get_f64 "change_pct" b with
  | None => top
  | Some p =>
      let better := match top with None => true | Some (_, tp) => f_gt (f_abs p) (f_abs tp) end in
      if better then Some (get_str "name" (lit "?") b, p) else top
  end.
Definition history_entry (v : Value) : HistoryEntry :=
  {| he_timestamp := get_str "timestamp" [] v; he_sha := take 8 (get_str "git_sha" [] v);
     he_verdict := get_str "verdict" (lit "?") v; he_top := fold_left top_step (bench_values v) None |}.
Definition prior_summaries (current_sha : str) (dirs : list HistoryDir) : list Value :=
  List.filter (fun v => negb (is_current current_sha v)) (omap hd_summary dirs).
(** The newest ten directories give at most five entries. *)
Definition load_history (current_sha : str) (dirs : list HistoryDir) : list HistoryEntry :=
  take 5 (map history_entry (prior_summaries current_sha (take 10 (newest_first dirs)))).

(** The field of each benchmark of a summary; the last of a name counts. *)
Definition bench_field (k : string) (v : Value) : gmap str f64 :=
  fold_left (fun m b => match and_then (v_get b "name") as_str, get_f64 k b with
                        | Some n, Some x => <[n := x]> m
                        | _, _ => m
                        end) (bench_values v) ∅.
Definition nonempty (m : gmap str f64) : bool := negb (bool_decide (m = ∅)).
Definition find_prior_bench_estimates (current_sha : str) (dirs : list HistoryDir) : option (gmap str f64) :=
  head (List.filter nonempty (map (bench_field "mean_ns") (prior_summaries current_sha (newest_first dirs)))).

Record TrendPoint := { tp_name : str; tp_prev : f64; tp_new : f64; tp_delta_pct : f64 }.
Definition compute_trend (current_sha : str) (benches : list BenchEntry) (dirs : list HistoryDir) : list TrendPoint :=
  match find_prior_bench_estimates current_sha dirs with
  | None => []
  | Some prior =>
      omap (fun b => match prior !! be_name b with
                     | Some prev =>
                         if f_gt prev f_zero
                         then Some {| tp_name := be_name b; tp_prev := prev; tp_new := be_mean_ns b;
                                      tp_delta_pct := pct (F64.div (F64.sub (be_mean_ns b) prev) prev) |}
                         else None
                     | None => None
                     end) benches
  end.
(** The five greatest changes. *)
Definition trend (current_sha : str) (benches : list BenchEntry) (dirs : list HistoryDir) : list TrendPoint :=
  take 5 (sort_by (fun a b => score_desc_le (f_abs (tp_delta_pct a)) (f_abs (tp_delta_pct b)))
            (compute_trend current_sha benches dirs)).

Record ChronicRegression := { cr_name : str; cr_runs : Z; cr_last_pct : f64 }.
Definition compute_chronic_regressions (current_sha : str) (benches : list BenchEntry) (dirs : list HistoryDir)
  : list ChronicRegression :=
  let prior := take 2 (List.filter nonempty (map (bench_field "change_pct") (prior_summaries current_sha (newest_first dirs)))) in
  match prior with
  | [] => []
  | _ =>
      omap (fun b =>
        if negb (status_rank (be_status b) =? status_rank BRegression) then None
        else if forallb (fun m => match m !! be_name b with Some p => f_gt p f_zero | None => false end) prior
        then Some {| cr_name := be_name b; cr_runs := zlen prior + 1; cr_last_pct := default f_zero (be_change_pct b) |}
        else None) benches
  end.

(** ** The report of the hit-rate benchmark *)

Record HitrateWorkload := {
  hw_name : str; hw_best_exact : option f64; hw_best_combined : option f64; hw_best_tau : option f64;
  hw_false_hit : option f64; hw_uplift : option f64
}.
Record HitrateSummary := { hs_verdict : str; hs_agentic_best : option f64; hs_agentic_gate : option f64; hs_workloads : list HitrateWorkload }.
(** The points with the best exact and the best combined rate; the first of the best. *)
Definition better_point (k : string) (best : option Value) (p : Value) : option Value :=
  match get_f64 k p with
  | None => best
  | Some x => match and_then best (get_f64 k) with
              | None => Some p
              | Some b => if f_gt x b then Some p else best
              end
  end.
Definition best_point (k : string) (sweep : list Value) : option Value := fold_left (better_point k) sweep None.
Definition load_workload (wl : Value) : HitrateWorkload :=
  let sweep := default [] (and_then (v_get wl "sweep") as_array) in
  let exact := best_point "exact_hit_rate" sweep in
  let combined := best_point "combined_hit_rate" sweep in
  {| hw_name := get_str "name" (lit "?") wl; hw_best_exact := and_then exact (get_f64 "exact_hit_rate");
     hw_best_combined := and_then combined (get_f64 "combined_hit_rate"); hw_best_tau := and_then combined (get_f64 "tau");
     hw_false_hit := or_else (and_then exact (get_f64 "false_hit_rate")) (and_then combined (get_f64 "false_hit_rate"));
     hw_uplift := and_then combined (get_f64 "uplift") |}.
Definition load_hitrate_summary (v : Value) : HitrateSummary :=
  let workloads := map load_workload (default [] (and_then (v_get v "workloads") as_array)) in
  {| hs_verdict := get_str "verdict" (lit "UNKNOWN") v;
     hs_agentic_best := and_then (find (fun w => str_eqb (hw_name w) (lit "agentic")) workloads) hw_best_exact;
     hs_agentic_gate := Some (F64.lit 40 100); hs_workloads := workloads |}.

(** ** The runtime's metrics *)

Record TokioMetrics := {
  tm_alive_tasks : option Z; tm_workers : option Z; tm_queue_depth : option Z; tm_busy_ns : option Z;
  tm_poll_count : option Z; tm_mean_poll_ns : option Z; tm_forced_yields : option Z
}.
Definition load_tokio_metrics (json : str -> option Value) (text : str) : option TokioMetrics :=
  if negb (starts_with (trim_start_by is_whitespace text) (lit "{")) then None
  else match and_then (json text) as_object with
       | None => None
       | Some o =>
           let num k := and_then (obj_get o (lit k)) as_u64 in
           Some {| tm_alive_tasks := num "num_alive_tasks"; tm_workers := num "num_workers";
                   tm_queue_depth := num "global_queue_depth"; tm_busy_ns := num "worker_total_busy_duration_ns";
                   tm_poll_count := num "worker_poll_count"; tm_mean_poll_ns := num "worker_mean_poll_time_ns";
                   tm_forced_yields := num "budget_forced_yield_count" |}
       end.
End History.

Definition DUMP_MAX_BYTES : Z := 64 * 1024.
Record TokioDump := { td_available : bool; td_text : str; td_hint : option str }.
(** The cut at the limit panics inside a character. *)
Definition load_tokio_dump (file : option str) : outcome TokioDump :=
  match file with
  | None => Ret {| td_available := false; td_text := []; td_hint := None |}
  | Some text =>
      let placeholder := negb (starts_with (trim_start_by is_whitespace text) (lit "{")) &&
        existsb (fun l => contains_str l (lit "RUSTFLAGS") || contains_str l (lit "tokio_unstable")) (str_lines text) in
      if placeholder then Ret {| td_available := false; td_text := []; td_hint := Some (trim text) |}
      else let! t := (if DUMP_MAX_BYTES <? str_len text then index_slice 0 DUMP_MAX_BYTES text else Ret text) in
           Ret {| td_available := true; td_text := t; td_hint := None |}
  end.

(** ** The metrics page *)

Record PromEntry := { pe_value : f64; pe_type : option str }.
Section Prom.
(** [str::parse::<f64>] *)
Context (parse_f64 : str -> option f64).

Definition prom_step (acc : gmap str PromEntry * option (str * str)) (raw : str) : gmap str PromEntry * option (str * str) :=
  let '(out, current) := acc in
  let line := trim raw in
  match line with
  | [] => acc
  | c :: _ =>
      match strip_prefix (lit "# TYPE ") line with
      | Some rest =>
          let ws := split_whitespace rest in
          (out, Some (default [] (ws !! 0%nat), default [] (ws !! 1%nat)))
      | None =>
          if c =? 35 then acc
          else match cut 32 line with
               | None => acc
               | Some (key, value_str) =>
                   match parse_f64 (default [] (head (split_whitespace value_str))) with
                   | None => acc
                   | Some v =>
                       let kind := match current with Some (n, t) => if str_eqb n key then Some t else None | None => None end in
                       let old := and_then (out !! key) pe_type in
                       (<[key := {| pe_value := v; pe_type := or_else kind old |}]> out, current)
                   end
               end
      end
  end.
Definition parse_prom_text (text : str) : gmap str PromEntry := (fold_left prom_step (str_lines text) (∅, None)).1.
(** A number that is not finite becomes null, which counts as zero. *)
Definition read_back (x : f64) : f64 := if is_finite x then x else f_zero.
Definition prom_deltas (before after : gmap str PromEntry) : gmap str f64 :=
  map_imap (fun k a =>
    match before !! k with
    | Some b => if bool_decide (pe_type a = Some (lit "counter"))
                then Some (F64.sub (read_back (pe_value a)) (read_back (pe_value b))) else None
    | None => None
    end) after.
End Prom.

(** ** The day of a stamp *)

Lemma month_day_range doy : 0 <= doy < 366 -> 1 <= (month_day doy).1 <= 12 /\ 1 <= (month_day doy).2 <= 31.
Proof.
  intros Hd. unfold month_day. pose proof (Z.div_mod (5 * doy + 2) 153 ltac:(lia)). pose proof (Z.mod_pos_bound (5 * doy + 2) 153 ltac:(lia)).
  set (mp := (5 * doy + 2) / 153) in *. pose proof (Z.div_mod (153 * mp + 2) 5 ltac:(lia)).
  pose proof (Z.mod_pos_bound (153 * mp + 2) 5 ltac:(lia)). cbn. destruct (Z.ltb_spec mp 10); lia.
Qed.
Lemma iso_days_civil era yoe doy : 0 <= era -> 0 <= yoe < 400 -> 0 <= doy < 366 ->
  let '(y, m, d) := shift_year era (civil yoe doy) in
  iso_days y m d = era * 146097 + (year_start yoe + doy) - 719468 + 1.
Proof.
  intros He Hy Hd. pose proof (month_day_range doy Hd) as [Hm _].
  assert (Hdiv : forall k, 0 < k -> (400 mod k = 0) -> (yoe + 400 * era) / k = yoe / k + 400 / k * era).
  { intros k Hk H0. replace (400 * era) with (400 / k * era * k); [by rewrite Z.div_add by lia|].
    pose proof (Z.div_mod 400 k ltac:(lia)). nia. }
  unfold civil, month_day in *. cbn [fst snd] in *. set (mp := (5 * doy + 2) / 153) in *.
  assert (0 <= mp < 12) by (split; [apply Z.div_pos|apply Z.div_lt_upper_bound]; lia). assert (0 <= 153 * mp + 2) by lia.
  assert (Hmain : forall y m, y = yoe + 400 * era -> m - 3 = mp ->
    365 * y + Z.quot y 4 - Z.quot y 100 + Z.quot y 400 + Z.quot (153 * (m - 3) + 2) 5 +
      (doy - (153 * mp + 2) / 5 + 1) - 719468 = era * 146097 + (year_start yoe + doy) - 719468 + 1).
  { intros y m -> ->. rewrite !Z.quot_div_nonneg by lia. unfold year_start.
    rewrite !Hdiv by (done || lia). rewrite (Z.div_small yoe 400) by lia.
    change (400 / 4) with 100. change (400 / 100) with 4. change (400 / 400) with 1. lia. }
  unfold iso_days. destruct (Z.ltb_spec mp 10).
  - rewrite (proj2 (Z.leb_gt (mp + 3) 2)) by lia. cbn [shift_year]. rewrite (proj2 (Z.leb_gt (mp + 3) 2)) by lia. cbn [Z.b2z].
    rewrite Z.sub_0_r, Z.add_0_r. apply Hmain; lia.
  - rewrite (proj2 (Z.leb_le (mp - 9) 2)) by lia. cbn [shift_year]. rewrite (proj2 (Z.leb_le (mp - 9) 2)) by lia. cbn [Z.b2z].
    apply Hmain; lia.
Qed.
(** The date of a day is taken for the day after it. *)
Lemma iso_days_late n : 0 <= n <= 213503982335 -> let '(y, m, d) := days_to_ymd n in iso_days y m d = n + 1.
Proof.
  intros Hn. set (z := n + 719468). pose proof (Z.div_mod z 146097 ltac:(lia)) as Hz. pose proof (Z.mod_pos_bound z 146097 ltac:(lia)) as Hm.
  destruct (year_split (z mod 146097) Hm) as (yoe & doy & Hy & Hd & He).
  replace n with (z / 146097 * 146097 + (year_start yoe + doy) - 719468) by (unfold z in *; lia).
  assert (0 <= z / 146097) by (apply Z.div_pos; unfold z; lia).
  rewrite days_to_ymd_civil by (done || unfold z in *; lia).
  assert (0 <= doy < 366) by (unfold year_len in Hd; destruct (leap _); lia).
  pose proof (iso_days_civil (z / 146097) yoe doy) as Hi. destruct (shift_year _ _) as [[y m] d]. apply Hi; lia.
Qed.

Lemma skip_bytes_ascii s : forall n, Forall (fun c => 0 <= c < 128) s -> 0 <= n <= zlen s ->
  skip_bytes n s = Some (drop (Z.to_nat n) s).
Proof.
  induction s as [|c s IH]; intros n Hs Hn; cbn [skip_bytes].
  - unfold zlen in Hn. cbn in Hn. by replace n with 0 by lia.
  - apply Forall_cons in Hs as [Hc Hs]. destruct (Z.eqb_spec n 0) as [->|Hne]; [done|].
    assert (utf8_char c = [c]) as -> by (unfold utf8_char; by rewrite (proj2 (Z.ltb_lt c 128)) by lia).
    change (zlen [c]) with 1. unfold zlen in Hn. cbn [length] in Hn. rewrite (proj2 (Z.ltb_ge n 1)) by lia.
    rewrite IH by (done || unfold zlen; lia). replace (Z.to_nat n) with (S (Z.to_nat (n - 1))) by lia. done.
Qed.
Lemma take_bytes_ascii s : forall n, Forall (fun c => 0 <= c < 128) s -> 0 <= n <= zlen s ->
  take_bytes n s = Some (take (Z.to_nat n) s).
Proof.
  induction s as [|c s IH]; intros n Hs Hn; cbn [take_bytes].
  - unfold zlen in Hn. cbn in Hn. by replace n with 0 by lia.
  - apply Forall_cons in Hs as [Hc Hs]. destruct (Z.eqb_spec n 0) as [->|Hne]; [done|].
    assert (utf8_char c = [c]) as -> by (unfold utf8_char; by rewrite (proj2 (Z.ltb_lt c 128)) by lia).
    change (zlen [c]) with 1. unfold zlen in Hn. cbn [length] in Hn. rewrite (proj2 (Z.ltb_ge n 1)) by lia.
    rewrite IH by (done || unfold zlen; lia). replace (Z.to_nat n) with (S (Z.to_nat (n - 1))) by lia. done.
Qed.
Lemma slice_ascii a b s : Forall (fun c => 0 <= c < 128) s -> 0 <= a <= b -> b <= zlen s ->
  slice a b s = Some (take (Z.to_nat (b - a)) (drop (Z.to_nat a) s)).
Proof.
  intros Hs Ha Hb. unfold slice. rewrite skip_bytes_ascii by (done || lia). cbn [and_then]. apply take_bytes_ascii.
  - by apply Forall_drop.
  - unfold zlen in *. rewrite length_drop. lia.
Qed.
Lemma trim_end_z_snoc t c : c <> 90 -> trim_end_z (t ++ [c; 90]) = t ++ [c].
Proof.
  intros Hc. induction t as [|x t IH]; [cbn; by rewrite (proj2 (Z.eqb_neq c 90))|].
  cbn [app trim_end_z]. rewrite IH. by destruct t.
Qed.

(** [w] digits that are read as [n]. *)
Definition reads_as (w : nat) (n : Z) (t : str) : Prop :=
  length t = w /\ parse_i64 t = Some n /\ Forall (fun c => is_ascii_digit c = true) t.
Definition reads_check (w : nat) (n : Z) : bool :=
  Nat.eqb (length (pad w n)) w && bool_decide (parse_i64 (pad w n) = Some n) && forallb is_ascii_digit (pad w n).
Lemma reads_check_ok w n : reads_check w n = true -> reads_as w n (pad w n).
Proof.
  intros [[H1 H2]%andb_true_iff H3]%andb_true_iff. split_and!; [by apply Nat.eqb_eq|by apply bool_decide_eq_true in H2|].
  rewrite forallb_forall in H3. apply Forall_forall. intros c Hc%list_elem_of_In. auto.
Qed.
Lemma pad2_reads n : 0 <= n < 100 -> reads_as 2 n (pad 2 n).
Proof. intros Hn. apply reads_check_ok. revert n Hn. apply seqZ_check. vm_compute. reflexivity. Qed.
Lemma pad4_digits n : 0 <= n < 10000 -> pad 4 n = map (Z.add 48) [n / 1000; n / 100 mod 10; n / 10 mod 10; n mod 10].
Proof.
  intros Hn. assert (H100 : n / 10 / 10 = n / 100) by (rewrite Z.div_div by lia; done).
  assert (H1000 : n / 100 / 10 = n / 1000) by (rewrite Z.div_div by lia; done).
  assert (Hs : forall f m acc, digits_aux (S f) m acc = if m <? 10 then 48 + m mod 10 :: acc else digits_aux f (m / 10) (48 + m mod 10 :: acc)) by done.
  unfold pad, show_Z. rewrite !Hs, H100, H1000.
  destruct (Z.ltb_spec n 10), (Z.ltb_spec (n / 10) 10), (Z.ltb_spec (n / 100) 10), (Z.ltb_spec (n / 1000) 10);
    cbn [length Nat.sub replicate app map]; repeat (f_equal; []); try (exfalso; clear Hs; Z.to_euclidean_division_equations; lia);
    repeat f_equal; clear Hs; Z.to_euclidean_division_equations; lia.
Qed.
Lemma pad4_reads n : 0 <= n < 10000 -> reads_as 4 n (pad 4 n).
Proof.
  intros Hn. rewrite pad4_digits by done. cbn [map].
  assert (Hd : forall k, 0 <= k < 10 -> is_ascii_digit (48 + k) = true)
    by (intros k Hk; unfold is_ascii_digit; apply andb_true_iff; split; apply Z.leb_le; lia).
  assert (Hk : 0 <= n / 1000 < 10 /\ 0 <= n / 100 mod 10 < 10 /\ 0 <= n / 10 mod 10 < 10 /\ 0 <= n mod 10 < 10)
    by (Z.to_euclidean_division_equations; lia).
  destruct Hk as (H1 & H2 & H3 & H4). split_and!; [done| |by repeat constructor; apply Hd].
  assert (Hp : forall c s, is_ascii_digit c = true -> parse_i64 (c :: s) = parse_digits 0 (c :: s)).
  { intros c s Hc. by apply (digit_cases (fun c => parse_i64 (c :: s) = parse_digits 0 (c :: s)) c Hc). }
  rewrite Hp by (by apply Hd). cbn [parse_digits]. rewrite !Hd by done.
  rewrite !(proj2 (Z.ltb_ge usize_max _)) by (unfold usize_max, u_max; cbn; lia).
  f_equal. clear Hd Hp. Z.to_euclidean_division_equations; lia.
Qed.

(** The text of a stamp: 2024-01-15T10:30:00Z. *)
Definition iso_stamp (secs : Z) : str :=
  let '(year, month, day) := days_to_ymd (secs / 86400) in
  let sod := secs mod 86400 in
  pad 4 year ++ lit "-" ++ pad 2 month ++ lit "-" ++ pad 2 day ++ lit "T" ++ pad 2 (sod / 3600) ++ lit ":" ++
  pad 2 (sod mod 3600 / 60) ++ lit ":" ++ pad 2 (sod mod 60) ++ lit "Z".

Lemma digit_ascii c : is_ascii_digit c = true -> 0 <= c < 128 /\ c <> 90.
Proof. unfold is_ascii_digit. intros [H1 H2]%andb_true_iff. reflect_Z. lia. Qed.

Lemma parse_stamp now y m d h mi s sy sm sd sh smi ss :
  reads_as 4 y sy -> reads_as 2 m sm -> reads_as 2 d sd -> reads_as 2 h sh -> reads_as 2 mi smi -> reads_as 2 s ss ->
  parse_iso8601_hours now (sy ++ lit "-" ++ sm ++ lit "-" ++ sd ++ lit "T" ++ sh ++ lit ":" ++ smi ++ lit ":" ++ ss ++ lit "Z") =
  Ret (Some (F64.div (F64.of_Z (now -! wrap 64 (iso_days y m d * 86400 + h * 3600 + mi * 60 + s))) (F64.of_Z 3600))).
Proof.
  intros (Ly & Py & Fy) (Lm & Pm & Fm) (Ld & Pd & Fd) (Lh & Ph & Fh) (Li & Pi & Fi) (Ls & Ps & Fs).
  destruct sy as [|y1 [|y2 [|y3 [|y4 [|]]]]]; try discriminate Ly. destruct sm as [|m1 [|m2 [|]]]; try discriminate Lm.
  destruct sd as [|d1 [|d2 [|]]]; try discriminate Ld. destruct sh as [|h1 [|h2 [|]]]; try discriminate Lh.
  destruct smi as [|i1 [|i2 [|]]]; try discriminate Li. destruct ss as [|s1 [|s2 [|]]]; try discriminate Ls.
  set (t := [y1; y2; y3; y4; 45; m1; m2; 45; d1; d2; 84; h1; h2; 58; i1; i2; 58; s1; s2]).
  assert (Ht : Forall (fun c => 0 <= c < 128) t).
  { rewrite !Forall_cons in Fy; rewrite !Forall_cons in Fm, Fd, Fh, Fi, Fs. cbv beta in *. unfold t.
    repeat (apply Forall_cons; split; [first [lia|apply digit_ascii; tauto]|]). constructor. }
  assert (Hz : trim_end_z (t ++ [90]) = t).
  { apply (trim_end_z_snoc [y1; y2; y3; y4; 45; m1; m2; 45; d1; d2; 84; h1; h2; 58; i1; i2; 58; s1] s2).
    apply digit_ascii. rewrite !Forall_cons in Fs. cbv beta in *. tauto. }
  match goal with |- parse_iso8601_hours now ?x = _ => change x with (t ++ [90]) end.
  unfold parse_iso8601_hours. rewrite Hz. unfold index_slice.
  rewrite (slice_ascii 0 4 t), (slice_ascii 5 7 t), (slice_ascii 8 10 t), (slice_ascii 11 13 t), (slice_ascii 14 16 t),
    (slice_ascii 17 19 t) by (exact Ht || by vm_compute).
  change (take (Z.to_nat (4 - 0)) (drop (Z.to_nat 0) t)) with [y1; y2; y3; y4].
  change (take (Z.to_nat (7 - 5)) (drop (Z.to_nat 5) t)) with [m1; m2].
  change (take (Z.to_nat (10 - 8)) (drop (Z.to_nat 8) t)) with [d1; d2].
  change (take (Z.to_nat (13 - 11)) (drop (Z.to_nat 11) t)) with [h1; h2].
  change (take (Z.to_nat (16 - 14)) (drop (Z.to_nat 14) t)) with [i1; i2].
  change (take (Z.to_nat (19 - 17)) (drop (Z.to_nat 17) t)) with [s1; s2].
  cbn [obind and_then]. rewrite Py, Pm, Pd, Ph, Pi, Ps. done.
Qed.

(** The age of a stamp is a day too small: it is counted from the day after the stamp, for
    every second from 1970 until the year 9600. *)
Theorem baseline_age_short now secs : 0 <= secs < 240784704000 ->
  parse_iso8601_hours now (iso_stamp secs) = Ret (Some (F64.div (F64.of_Z (now -! (secs + 86400))) (F64.of_Z 3600))).
Proof.
  intros Hs. pose proof (Z.div_mod secs 86400 ltac:(lia)) as Hdm. pose proof (Z.mod_pos_bound secs 86400 ltac:(lia)) as Hsod.
  assert (Hn : 0 <= secs / 86400 < 2786860) by (split; [apply Z.div_pos; lia|apply Z.div_lt_upper_bound; lia]).
  set (n := secs / 86400) in *. set (sod := secs mod 86400) in *.
  pose proof (iso_days_late n ltac:(lia)) as Hlate.
  assert (Hr : let '(y, m, d) := days_to_ymd n in 0 <= y < 10000 /\ 0 <= m < 100 /\ 0 <= d < 100).
  { set (z := n + 719468). pose proof (Z.div_mod z 146097 ltac:(lia)) as Hz. pose proof (Z.mod_pos_bound z 146097 ltac:(lia)) as Hm.
    destruct (year_split (z mod 146097) Hm) as (yoe & doy & Hy & Hd & He).
    assert (Hera : 0 <= z / 146097 < 24) by (split; [apply Z.div_pos|apply Z.div_lt_upper_bound]; unfold z; lia).
    replace n with (z / 146097 * 146097 + (year_start yoe + doy) - 719468) by (unfold z in *; lia).
    rewrite days_to_ymd_civil by (done || lia).
    assert (Hd' : 0 <= doy < 366) by (unfold year_len in Hd; destruct (leap _); lia).
    pose proof (month_day_range doy Hd') as [Hmm Hdd]. unfold civil. destruct (month_day doy) as [m d]. cbn [fst snd shift_year] in *.
    destruct (m <=? 2); lia. }
  unfold iso_stamp. fold n sod. destruct (days_to_ymd n) as [[y m] d]. destruct Hr as (Hy & Hm & Hd).
  pose proof (Z.div_mod sod 3600 ltac:(lia)). pose proof (Z.mod_pos_bound sod 3600 ltac:(lia)).
  pose proof (Z.div_mod (sod mod 3600) 60 ltac:(lia)). pose proof (Z.mod_pos_bound (sod mod 3600) 60 ltac:(lia)).
  assert (Hmod : sod mod 3600 mod 60 = sod mod 60) by (rewrite <- (Znumtheory.Zmod_div_mod 60 3600 sod); [done|lia|lia|by exists 60]).
  rewrite (parse_stamp now y m d (sod / 3600) (sod mod 3600 / 60) (sod mod 60)); [|apply pad4_reads; lia|apply pad2_reads; lia..].
  rewrite Hlate, wrap_small by (unfold in_u, u_max; lia). do 5 f_equal. lia.
Qed.

(** A clean baseline of the present commit is reported as fresh for two days. *)
Theorem old_baseline_ok : exists age, baseline_status (1000000 + 47 * 3600) (Some (lit "0123abcd")) (fun _ => Some 0)
  (Some {| bm_saved_at := iso_stamp 1000000; bm_git_sha := lit "0123abcd"; bm_git_dirty := false |}) = Ret (BaselineOk, Some age, Some 0)
  /\ age = F64.of_Z 23.
Proof. eexists. split; vm_compute; reflexivity. Qed.

(** ** The verdict *)

Section RunProps.
Context {FP : FloatPow}.

(** Against a saved baseline no benchmark is ever reported as unchanged. *)
Theorem never_ok_against_main name mean se change m threshold b :
  evaluate_bench name mean se change (Some (Some m)) threshold = Some b -> be_status b <> BOk.
Proof.
  unfold evaluate_bench, main_delta. destruct (f_gt _ _ && f_gt _ _); intros [= <-]; cbn; [|done].
  destruct (f_ge _ _); [done|]. by destruct (f_le _ _).
Qed.

Lemma evaluate_all_spec threshold dirs bs : evaluate_all threshold dirs = Some bs ->
  Forall2 (fun d b => exists e, bd_new d = Some e /\
      evaluate_bench (bd_name d) (ep_point e) (ep_se e) (bd_change d) (bd_main d) threshold = Some b)
    (List.filter (fun d => bool_decide (is_Some (bd_new d))) dirs) bs.
Proof.
  revert bs. induction dirs as [|d dirs IH]; intros bs; cbn [evaluate_all List.filter]; [by intros [= <-]|].
  destruct (bd_new d) as [e|] eqn:Ee.
  - rewrite bool_decide_eq_true_2 by eauto. destruct (evaluate_bench _ _ _ _ _ _) as [b|] eqn:Eb; [|done].
    destruct (evaluate_all threshold dirs) as [bs'|]; [|done]. intros [= <-]. constructor; [eauto|by apply IH].
  - rewrite bool_decide_eq_false_2 by (by intros []). apply IH.
Qed.
Lemma with_status_in s bs c : c ∈ with_status s bs <-> exists b, b ∈ bs /\ be_status b = s /\ c = change_entry b.
Proof.
  unfold with_status. rewrite list_elem_of_fmap. split.
  - intros (b & -> & Hb). apply list_elem_of_In, filter_In in Hb as [Hb Hs]. exists b. rewrite list_elem_of_In. split_and!; [done| |done].
    apply Z.eqb_eq in Hs. by destruct (be_status b), s.
  - intros (b & Hb & <- & ->). exists b. split; [done|]. apply list_elem_of_In, filter_In. rewrite list_elem_of_In in Hb.
    split; [done|apply Z.eqb_refl].
Qed.
(** A run reports each fresh benchmark whose estimate can be read, once; it fails exactly
    when one of them regressed, and has no baseline exactly when nothing was compared. *)
Theorem perf_run_exact threshold since dirs r : perf_run threshold since dirs = Some r ->
  (exists bs, pr_benches r ≡ₚ bs /\
     Forall2 (fun d b => be_name b = bd_name d)
       (List.filter (fun d => bool_decide (is_Some (bd_new d))) (collect_benches since dirs)) bs) /\
  (pr_verdict r = Regressions <-> exists b, b ∈ pr_benches r /\ be_status b = BRegression) /\
  (pr_verdict r = NoBaseline <-> forall b, b ∈ pr_benches r -> be_has_main b = false /\ be_status b = BNoMain) /\
  (forall c, c ∈ pr_regressions r <-> exists b, b ∈ pr_benches r /\ be_status b = BRegression /\ c = change_entry b) /\
  (forall fail, perf_exit fail (Some r) = if fail then (match pr_verdict r with Regressions => 2 | _ => 0 end) else 0).
Proof.
  unfold perf_run. destruct (evaluate_all threshold (collect_benches since dirs)) as [bs|] eqn:Ea; [|done]. intros [= <-].
  pose proof (evaluate_all_spec _ _ _ Ea) as HF. cbn [pr_benches pr_verdict pr_regressions].
  assert (Hin : forall b, b ∈ sort_by entry_le bs <-> b ∈ bs) by (intros b; by rewrite (sort_by_perm entry_le bs)).
  assert (Hreg : with_status BRegression bs = [] <-> ~ exists b, b ∈ bs /\ be_status b = BRegression).
  { split.
    - intros H0 (b & Hb & Hs). assert (change_entry b ∈ with_status BRegression bs) as Hc by (apply with_status_in; eauto).
      rewrite H0 in Hc. set_solver.
    - intros Hno. destruct (with_status BRegression bs) as [|c l] eqn:El; [done|]. destruct Hno.
      assert (c ∈ with_status BRegression bs) as (b & Hb & Hs & _)%with_status_in by (rewrite El; set_solver). eauto. }
  split_and!.
  - exists bs. split; [apply sort_by_perm|]. eapply Forall2_impl; [exact HF|]. intros d b (e & He & Hb).
    unfold evaluate_bench in Hb. destruct (bd_main d) as [[m|]|], (bd_change d) as [[c|]|]; try done;
      try (destruct (main_delta _ _ _)); by injection Hb as <-.
  - setoid_rewrite Hin. unfold perf_verdict. destruct (with_status BRegression bs) as [|c l] eqn:El.
    + split; [by destruct (forallb _ _)|]. intros Hx. by apply Hreg in Hx.
    + split; [|done]. intros _. assert (c ∈ with_status BRegression bs) as (b & Hb & Hs & _)%with_status_in by (rewrite El; set_solver). eauto.
  - setoid_rewrite Hin. unfold perf_verdict. destruct (with_status BRegression bs) as [|c l] eqn:El.
    + destruct (forallb _ bs) eqn:Eb.
      * split; [|done]. intros _ b Hb%list_elem_of_In. rewrite forallb_forall in Eb. apply Eb in Hb.
        apply andb_true_iff in Hb as [H1%negb_true_iff H2%Z.eqb_eq]. split; [done|]. by destruct (be_status b).
      * split; [done|]. intros Hall. apply not_true_iff_false in Eb. destruct Eb. apply forallb_forall.
        intros b Hb%list_elem_of_In%Hall. destruct Hb as [-> ->]. done.
    + split; [done|]. intros Hall. assert (c ∈ with_status BRegression bs) as (b & Hb & Hs & _)%with_status_in by (rewrite El; set_solver).
      destruct (Hall b Hb). congruence.
  - intros c. rewrite sort_by_perm. setoid_rewrite Hin. apply with_status_in.
  - intros [|]; cbn [perf_exit pr_verdict]; by destruct (perf_verdict bs).
Qed.
End RunProps.

(** ** Reading the report of the hit-rate benchmark *)

Section HitrateRead.
Context {NV : NumberViews} {F : FloatText}.

Lemma no_field_points k ps : Forall (fun p => get_f64 k p = None) ps -> best_point k ps = None.
Proof.
  unfold best_point. induction 1 as [|p ps Hp Hs IH]; [done|]. cbn [fold_left]. unfold better_point at 2. by rewrite Hp.
Qed.
Lemma sweep_point_fields p : Forall (fun k => v_get (sweep_point_json p) k = None)
  ["combined_hit_rate"; "tau"; "false_hit_rate"; "uplift"]%string.
Proof. repeat constructor; reflexivity. Qed.
Lemma sweep_no_field ps k : k ∈ ["combined_hit_rate"; "tau"; "false_hit_rate"; "uplift"]%string ->
  Forall (fun p => get_f64 k p = None) (map sweep_point_json ps).
Proof.
  intros Hk. apply Forall_map, Forall_forall. intros p _. pose proof (sweep_point_fields p) as Hf.
  rewrite Forall_forall in Hf. unfold get_f64. by rewrite (Hf k Hk).
Qed.
Lemma best_point_in k ps p : best_point k ps = Some p -> p ∈ ps.
Proof.
  unfold best_point. assert (Hg : forall best, fold_left (better_point k) ps best = Some p -> best = Some p \/ p ∈ ps).
  { induction ps as [|x ps IH]; intros best; cbn [fold_left]; [auto|]. intros [Hb|Hin]%IH; [|set_solver].
    unfold better_point in Hb. destruct (get_f64 k x); [|auto]. destruct (and_then best _); [destruct (f_gt _ _)|]; set_solver. }
  intros [?|?]%Hg; done.
Qed.

(** The summary of a run never shows what the semantic sweeps of the benchmark found: it
    looks for their rates, thresholds and false hits among the points of the exact
    sweeps, and it shows a fixed gate whatever the gate of the run was. *)
Theorem semantic_results_lost describe notes reports model seed gate gate_false verdict best embedder :
  let s := load_hitrate_summary (summary_json describe notes reports model seed gate gate_false verdict best embedder) in
  hs_verdict s = verdict /\ map hw_name (hs_workloads s) = map wr_name reports /\
  Forall (fun w => hw_best_combined w = None /\ hw_best_tau w = None /\ hw_false_hit w = None /\ hw_uplift w = None) (hs_workloads s) /\
  hs_agentic_gate s = Some (F64.lit 40 100).
Proof.
  unfold load_hitrate_summary. cbn [hs_verdict hs_workloads hs_agentic_gate].
  set (wl := fun r : WorkloadReport => VObject
    [field "name" (VString (wr_name r)); field "description" (VString (describe r));
     field "sweep" (VArray (map sweep_point_json (wr_sweep r))); field "semantic" (VArray (map sem_point_json (wr_sem r)))]).
  change (default [] (and_then (v_get (summary_json _ _ _ _ _ _ _ _ _ _) "workloads") as_array)) with (map wl reports).
  split; [done|]. rewrite !(map_map wl load_workload). split; [rewrite map_map; done|]. split; [|done].
  apply Forall_map, Forall_forall. intros r _. unfold load_workload.
  change (default [] (and_then (v_get (wl r) "sweep") as_array)) with (map sweep_point_json (wr_sweep r)).
  rewrite (no_field_points "combined_hit_rate" (map sweep_point_json (wr_sweep r)) (sweep_no_field _ "combined_hit_rate" ltac:(set_solver))).
  cbn [hw_best_combined hw_best_tau hw_false_hit hw_uplift and_then]. split_and!; try done.
  destruct (best_point "exact_hit_rate" _) as [p|] eqn:Ep; [|done]. apply best_point_in in Ep.
  pose proof (sweep_no_field (wr_sweep r) "false_hit_rate" ltac:(set_solver)) as Hf. rewrite Forall_forall in Hf.
  cbn [and_then]. by rewrite (Hf _ Ep).
Qed.
End HitrateRead.

(** ** Other readings *)

(** A cut inside a character. *)
Lemma take_bytes_inside c rest pre : 128 <= c -> Forall (fun d => 0 <= d < 128) pre ->
  take_bytes (zlen pre + 1) (pre ++ c :: rest) = None.
Proof.
  intros Hc. induction pre as [|d pre IH]; intros Hp.
  - assert (H2 : (1 <? zlen (utf8_char c)) = true).
    { unfold utf8_char. rewrite (proj2 (Z.ltb_ge c 128)) by lia. by destruct (c <? 2048), (c <? 65536). }
    change (zlen [] + 1) with 1. cbn [take_bytes app Z.eqb]. by rewrite H2.
  - apply Forall_cons in Hp as [Hd Hp]. cbn [take_bytes app].
    assert (utf8_char d = [d]) as -> by (unfold utf8_char; by rewrite (proj2 (Z.ltb_lt d 128)) by lia).
    change (zlen [d]) with 1. replace (zlen (d :: pre) + 1 - 1) with (zlen pre + 1) by (unfold zlen; cbn [length]; lia).
    rewrite (IH Hp). destruct (Z.eqb_spec (zlen (d :: pre) + 1) 0) as [H0|_]; [unfold zlen in H0; lia|]. by destruct (_ <? _).
Qed.
Lemma str_len_ascii pre : Forall (fun d => 0 <= d < 128) pre -> str_len pre = zlen pre.
Proof.
  unfold str_len, zlen. induction 1 as [|d pre Hd _ IH]; [done|].
  unfold as_bytes in *. cbn [map concat]. rewrite length_app.
  assert (utf8_char d = [d]) as -> by (unfold utf8_char; by rewrite (proj2 (Z.ltb_lt d 128)) by lia).
  cbn [length]. lia.
Qed.
(** A dump of which the limit falls inside a character panics: one whose last byte below
    the limit begins a character of several bytes. *)
Theorem long_dump_panics body c rest : Forall (fun d => 0 <= d < 128) body -> zlen body = DUMP_MAX_BYTES - 2 -> 128 <= c ->
  load_tokio_dump (Some (123 :: body ++ c :: rest)) = Panic.
Proof.
  intros Hb Hl Hc. set (pre := 123 :: body). assert (Hp : Forall (fun d => 0 <= d < 128) pre) by (constructor; [lia|done]).
  assert (Hn : DUMP_MAX_BYTES = zlen pre + 1) by (unfold pre, zlen in *; cbn [length]; lia).
  change (123 :: body ++ c :: rest) with (pre ++ c :: rest).
  assert (H2 : (DUMP_MAX_BYTES <? str_len (pre ++ c :: rest)) = true).
  { apply Z.ltb_lt. pose proof (str_len_ascii pre Hp) as Hs. unfold str_len, as_bytes, zlen in *. rewrite map_app, concat_app.
    cbn [map concat]. rewrite !length_app. assert (2 <= length (utf8_char c))%nat; [|lia].
    unfold utf8_char. rewrite (proj2 (Z.ltb_ge c 128)) by lia. destruct (c <? 2048), (c <? 65536); cbn; lia. }
  unfold load_tokio_dump. rewrite H2.
  assert (starts_with (trim_start_by is_whitespace (pre ++ c :: rest)) (lit "{") = true) as ->
    by (change (starts_with (body ++ c :: rest) [] = true); by destruct (body ++ c :: rest)).
  cbn [negb andb].
  unfold index_slice, slice. replace (skip_bytes 0 (pre ++ c :: rest)) with (Some (pre ++ c :: rest)) by done.
  cbn [and_then]. by rewrite Z.sub_0_r, Hn, take_bytes_inside.
Qed.
(** A stamp without a time panics. *)
Theorem short_stamp_panics now : parse_iso8601_hours now (lit "2024-01-15") = Panic.
Proof. by vm_compute. Qed.

(** A number is its text. *)
Definition demo_numbers : NumberViews :=
  {| as_i64 := as_u64; as_f64 := fun v => F64.of_Z <$> as_u64 v; display_f64 := fun _ => [] |}.
#[local] Existing Instance demo_numbers.
Definition demo_summary (sha : string) (change : Z) : Value := VObject
  [field "git_sha" (VString (lit sha));
   field "benches" (VArray [VObject [field "name" (VString (lit "slugify")); field "change_pct" (VNumber (Some change) [])]])].
Definition demo_bench : BenchEntry :=
  {| be_name := lit "slugify"; be_group := lit "core_ops"; be_mean_ns := F64.of_Z 120; be_change_pct := Some (F64.of_Z 20);
     be_ci := None; be_has_main := true; be_status := BRegression |}.
(** One earlier run, in which the benchmark was one percent slower and no regression, is
    enough for a chronic regression. *)
Theorem one_run_is_chronic :
  map cr_runs (compute_chronic_regressions (lit "bbbb") [demo_bench]
    [{| hd_mtime := Some 5; hd_summary := Some (demo_summary "aaaa" 1) |}]) = [2].
Proof. by vm_compute. Qed.

(** The counters of a page that have labels are not compared: their type is not known. *)
Theorem labelled_counters_not_compared :
  let page n := render [counter "requests_total" "Requests" n; labelled "agent_requests" "Requests" KCounter "agent" [(lit "a", show_Z n)]] in
  let read n := parse_prom_text (fun s => F64.of_Z <$> parse_usize s) (page n) in
  map fst (map_to_list (read 7)) ≡ₚ [prefixed (lit "requests_total"); lit "conproxy_agent_requests{agent=" ++ [34; 97; 34; 125]] /\
  map_to_list (prom_deltas (read 3) (read 7)) = [(prefixed (lit "requests_total"), F64.of_Z 4)].
Proof. split; [|by vm_compute]. vm_compute. first [done|apply Permutation_swap]. Qed.
