(* ===== verification/Corpus.v ===== *)
(** * The test corpora (src/src/bin/corpus_gen.rs, corpus_seed.rs)

    Generation of documents from templates, and which documents go to which backend.  The
    random ranges of the [fake] crate are a parameter ([RangeRng]): a number of the range
    and the next state.  Front matter, TOML and JSONL are read by parameters too. *)

From Stdlib Require Import SpecFloat.
From S2P Require Import Prelude Floats Text Types Cdc Cache Auth Scope Vendors Config Distill Mcp Engine HitTrace.
Open Scope Z_scope.
Open Scope conproxy_scope.

Definition PRODUCTS : list str := map lit
  ["Xyfalon Cache"; "Qorbix Mesh"; "Nexafold Index"; "Vexalith Queue"; "Plexaron Engine"; "Aethor Search";
   "Pulvion Monitor"; "Cryxel Cascade"; "Drevon Sensor"; "Fyron Router"; "Helvion Store"; "Ixion Bridge";
   "Junctar Proxy"; "Krylon Sync"; "Luxon View"; "Morphix Store"; "Nyxon Relay"; "Orvion Cache"; "Phyxon Query";
   "Rivox Index"]%string.

Record CorpusEntry := {
  cp_id : str; cp_title : str; cp_content : str; cp_category : str; cp_tags : list str; cp_topic : str; cp_overlap : bool
}.
Record QueryEntry := { qe_query : str; qe_corpus : str; qe_topic : str; qe_min_results : Z }.
Record Frontmatter := { fm_topic : str; fm_query : str; fm_title : str; fm_keywords : list str; fm_category : str }.
Record LoadedTemplate := {
  lt_topic : str; lt_query : str; lt_title : str; lt_keywords : list str; lt_category : str; lt_paragraphs : list str
}.

(** ** Templates *)

(** [split(p)] for a pattern that is not empty: the pieces between its occurrences. *)
Fixpoint split_str (fuel : nat) (p cur s : str) : list str :=
  match fuel with
  | O => [cur ++ s]
  | S fuel =>
      if starts_with s p then cur :: split_str fuel p [] (drop (length p) s)
      else match s with [] => [cur] | c :: s => split_str fuel p (cur ++ [c]) s end
  end.
Definition split_by (p s : str) : list str := split_str (S (length s)) p [] s.
(** [splitn(3, p)]: the rest is one piece. *)
Definition splitn3 (p s : str) : option (str * str) :=
  match split_by p s with
  | _ :: fm :: (r :: rs) => Some (fm, join_words p (r :: rs))
  | _ => None
  end.
Definition RULE : str := lit "---" ++ [10].
Inductive TemplateError := TUnreadable | TMissing | TBadFrontmatter | TNoParagraphs.
Definition paragraphs_of (body : str) : list str := List.filter (fun s => negb (bool_decide (s = []))) (map trim (split_by RULE body)).
(** The front matter of a template without one. *)
Definition default_frontmatter (template : str) : str :=
  RULE ++ lit "topic: " ++ trim_end_matches (lit ".md") template ++ [10] ++ lit "query: " ++ [34; 34; 10] ++
  lit "title: " ++ [34; 34; 10] ++ lit "keywords: []" ++ [10] ++ lit "category: unknown" ++ [10].
Definition load_template (read : str -> option str) (yaml : str -> option Frontmatter) (template : str)
  : result LoadedTemplate TemplateError :=
  match read template with
  | None => Err TUnreadable
  | Some content =>
      let parts := if starts_with content RULE then splitn3 RULE content else Some (default_frontmatter template, content) in
      match parts with
      | None => Err TMissing
      | Some (fm, body) =>
          match yaml fm with
          | None => Err TBadFrontmatter
          | Some f =>
              match paragraphs_of body with
              | [] => Err TNoParagraphs
              | ps => Ok {| lt_topic := fm_topic f; lt_query := fm_query f; lt_title := fm_title f;
                            lt_keywords := fm_keywords f; lt_category := fm_category f; lt_paragraphs := ps |}
              end
          end
      end
  end.
Fixpoint load_group (read : str -> option str) (yaml : str -> option Frontmatter) (refs : list str)
  : result (list LoadedTemplate) TemplateError :=
  match refs with
  | [] => Ok []
  | r :: refs =>
      match load_template read yaml r with
      | Err e => Err e
      | Ok t => match load_group read yaml refs with Ok ts => Ok (t :: ts) | Err e => Err e end
      end
  end.

(** ** Documents *)

Class RangeRng (S : Type) := { rng_range : S -> Z -> Z -> Z * S }.
Class RangeRngLaws {S} (R : RangeRng S) : Prop := {
  rng_range_in : forall s lo hi, lo < hi -> lo <= fst (rng_range s lo hi) < hi
}.

Section Assemble.
Context {S : Type} {R : RangeRng S}.

Definition replace_all (p r s : str) : str := join_words r (split_by p s).
Definition pick_product (s : S) : str * S :=
  let '(i, s) := rng_range s 0 (zlen PRODUCTS) in (default [] (PRODUCTS !! Z.to_nat i), s).
(** The exchanges at positions [j], ..., 1. *)
Fixpoint shuffle_from (j : nat) (pool : list nat) (s : S) : list nat * S :=
  match j with
  | O => (pool, s)
  | Datatypes.S j' => let '(k, s) := rng_range s 0 (Z.of_nat j + 1) in shuffle_from j' (list_swap j (Z.to_nat k) pool) s
  end.
Definition corpus_id (corpus : str) (idx : Z) : str := corpus ++ lit "-" ++ pad 3 idx.
Definition assemble_doc (t : LoadedTemplate) (corpus : str) (idx : Z) (s : S) : CorpusEntry * S :=
  let '(product, s) := pick_product s in
  let len := zlen (lt_paragraphs t) in
  let '(n, s) := rng_range s (Z.min 4 len) (len + 1) in
  let n := Z.min n len in
  let '(pool, s) := shuffle_from (length (lt_paragraphs t) - 1) (seq 0 (length (lt_paragraphs t))) s in
  let chosen := omap (fun j => lt_paragraphs t !! j) (take (Z.to_nat n) pool) in
  ({| cp_id := corpus_id corpus idx; cp_title := replace_all (lit "{product}") product (lt_title t);
      cp_content := replace_all (lit "{product}") product (join_words [10; 10] chosen); cp_category := lt_category t;
      cp_tags := lt_keywords t; cp_topic := lt_topic t; cp_overlap := idx <? 10 |}, s).
Fixpoint assemble_from (n : nat) (t : LoadedTemplate) (corpus : str) (idx : Z) (s : S) : list CorpusEntry * S :=
  match n with
  | O => ([], s)
  | Datatypes.S n =>
      let '(e, s) := assemble_doc t corpus idx s in
      let '(es, s) := assemble_from n t corpus (idx + 1) s in (e :: es, s)
  end.
Definition assemble_docs (t : LoadedTemplate) (corpus : str) (start : Z) (s : S) : list CorpusEntry * S :=
  assemble_from 5 t corpus start s.
Fixpoint gen_corpus (ts : list LoadedTemplate) (corpus : str) (idx : Z) (s : S) : list CorpusEntry * list QueryEntry * S :=
  match ts with
  | [] => ([], [], s)
  | t :: ts =>
      let '(es, s) := assemble_docs t corpus idx s in
      let '(rest, qs, s) := gen_corpus ts corpus (idx +! zlen es) s in
      (es ++ rest, {| qe_query := lt_query t; qe_corpus := corpus; qe_topic := lt_topic t; qe_min_results := 3 |} :: qs, s)
  end.
End Assemble.

(** ** Seeding *)

Record Doc := { dc_id : str; dc_corpus : str; dc_title : str; dc_content : str; dc_category : str; dc_tags : list str; dc_vector : list f32 }.
Definition doc_of_entry (e : CorpusEntry) : Doc :=
  {| dc_id := cp_id e; dc_corpus := default [] (head (split_on 45 [] (cp_id e))); dc_title := cp_title e;
     dc_content := cp_content e; dc_category := cp_category e; dc_tags := cp_tags e; dc_vector := [] |}.
(** A line that is no entry is an error, with its number. *)
Fixpoint load_lines (json : str -> option CorpusEntry) (i : Z) (ls : list str) : result (list (Doc * bool)) Z :=
  match ls with
  | [] => Ok []
  | l :: ls =>
      match trim l with
      | [] => load_lines json (i + 1) ls
      | _ => match json l with
             | None => Err (i + 1)
             | Some e => match load_lines json (i + 1) ls with Ok ds => Ok ((doc_of_entry e, cp_overlap e) :: ds) | Err n => Err n end
             end
      end
  end.
Definition load_corpus_jsonl (json : str -> option CorpusEntry) (content : str) : result (list (Doc * bool)) Z :=
  load_lines json 0 (str_lines content).

Record BackendSets := { bs_qdrant : list Doc; bs_elastic : list Doc; bs_opensearch : list Doc; bs_meili1 : list Doc; bs_meili2 : list Doc; bs_pgvector : list Doc }.
Definition build_backend_sets (docs tickets code : list Doc) : BackendSets :=
  let universal := take 10 docs ++ take 10 tickets ++ take 10 code in
  let unique_docs := drop 10 docs in
  let unique_tickets := drop 10 tickets in
  let unique_code := drop 10 code in
  {| bs_qdrant := universal ++ unique_docs ++ unique_code; bs_elastic := universal ++ unique_docs ++ unique_tickets;
     bs_opensearch := universal; bs_meili1 := universal ++ unique_tickets; bs_meili2 := universal ++ unique_tickets;
     bs_pgvector := universal ++ unique_docs ++ unique_code |}.
Definition select_corpora (which : str) (docs tickets code : list Doc) : list Doc * list Doc * list Doc :=
  if str_eqb which (lit "docs") then (docs, [], []) else if str_eqb which (lit "tickets") then ([], tickets, [])
  else if str_eqb which (lit "code") then ([], [], code) else (docs, tickets, code).
(** The vectors of the titles; the documents stay as they are when the model fails. *)
Definition embed_all (embed_batch : list str -> option (list (list f32))) (docs : list Doc) : list Doc :=
  match embed_batch (map dc_title docs) with
  | Some vs =>
      if Nat.eqb (length vs) (length docs)
      then zip_with (fun d v => {| dc_id := dc_id d; dc_corpus := dc_corpus d; dc_title := dc_title d; dc_content := dc_content d;
                                  dc_category := dc_category d; dc_tags := dc_tags d; dc_vector := v |}) docs vs
      else docs
  | None => docs
  end.
(** The address of a backend: the host without its port, with the port of the backend. *)
Definition backend_url (host : str) (port : Z) : str :=
  let bare := match rsplit_colon host with
              | (p, Some h) => match parse_u16 p with Some _ => h | None => host end
              | (_, None) => host
              end in
  bare ++ lit ":" ++ show_Z port.

(** ** Pieces of a text *)

Lemma join_cons p x l : l <> [] -> join_words p (x :: l) = x ++ p ++ join_words p l.
Proof. by destruct l. Qed.
Lemma split_str_ne fuel p cur s : split_str fuel p cur s <> [].
Proof. revert cur s. induction fuel as [|fuel IH]; intros cur s; cbn; [done|]. destruct (starts_with s p); [done|]. destruct s; [done|apply IH]. Qed.
Lemma starts_with_split s p : starts_with s p = true -> s = p ++ drop (length p) s.
Proof.
  revert s. induction p as [|c p IH]; intros s; [done|]. destruct s as [|d s]; cbn; [done|].
  intros [->%Z.eqb_eq H]%andb_true_iff. by rewrite <- IH.
Qed.
(** What [split] takes apart [join] puts together, for whatever fuel. *)
Lemma join_split_str p fuel cur s : p <> [] -> join_words p (split_str fuel p cur s) = cur ++ s.
Proof.
  intros Hp. revert cur s. induction fuel as [|fuel IH]; intros cur s; cbn [split_str]; [done|].
  destruct (starts_with s p) eqn:Es.
  - rewrite join_cons by apply split_str_ne. rewrite IH. cbn [app]. by rewrite <- (starts_with_split _ _ Es).
  - destruct s as [|c s]; [by rewrite app_nil_r|]. rewrite IH. by rewrite <- app_assoc.
Qed.
(** A template is its rule, its front matter, a rule, and its body. *)
Theorem splitn3_exact p s fm body : p <> [] -> starts_with s p = true -> splitn3 p s = Some (fm, body) -> s = p ++ fm ++ p ++ body.
Proof.
  intros Hp Hs H. pose proof (join_split_str p (S (length s)) [] s Hp) as Hj. cbn [app] in Hj. fold (split_by p s) in Hj.
  unfold splitn3 in H. assert (H0 : head (split_by p s) = Some []) by (unfold split_by; cbn [split_str]; by rewrite Hs).
  destruct (split_by p s) as [|x [|f [|r rs]]]; try done. injection H as <- <-. injection H0 as ->.
  rewrite <- Hj, (join_cons p [] (f :: r :: rs)) by done. cbn [app]. by rewrite (join_cons p f (r :: rs)) by done.
Qed.

(** ** The corpus *)

Definition digit_value (l : str) : Z := fold_left (fun a c => a * 10 + (c - 48)) l 0.
Lemma pad_value w n : 0 <= n < 10 ^ 20 -> digit_value (pad w n) = n.
Proof.
  intros Hn. destruct (show_Z_digits n Hn) as (c & d & Hs & _ & Hf). unfold digit_value, pad. rewrite fold_left_app.
  replace (fold_left (fun a c => a * 10 + (c - 48)) (replicate (w - length (show_Z n)) 48) 0) with 0.
  - by rewrite Hs.
  - induction (w - length (show_Z n))%nat as [|k IH]; [done|]. cbn [replicate fold_left]. exact IH.
Qed.
Lemma corpus_id_inj corpus a b : 0 <= a < 10 ^ 20 -> 0 <= b < 10 ^ 20 -> corpus_id corpus a = corpus_id corpus b -> a = b.
Proof.
  intros Ha Hb H. unfold corpus_id in H. apply app_inv_head in H. injection H as H. by rewrite <- (pad_value 3 a), <- (pad_value 3 b), H.
Qed.

Section CorpusProps.
Context {S : Type} {R : RangeRng S} {L : RangeRngLaws R}.

Lemma shuffle_perm j pool s : (shuffle_from j pool s).1 ≡ₚ pool.
Proof.
  revert pool s. induction j as [|j IH]; intros pool s; cbn [shuffle_from]; [done|].
  destruct (rng_range s 0 _) as [k s']. by rewrite IH, list_swap_perm.
Qed.
Lemma omap_length_perm (ps : list str) pool n : pool ≡ₚ seq 0 (length ps) ->
  length (omap (fun j => ps !! j) (take n pool)) = Nat.min n (length ps).
Proof.
  intros Hp. assert (Hl : length pool = length ps) by (by rewrite Hp, length_seq). rewrite <- Hl, <- length_take.
  assert (HF : Forall (fun j => (j < length ps)%nat) (take n pool)).
  { apply Forall_take. rewrite Hp. apply Forall_forall. intros j Hj%elem_of_seq. lia. }
  induction HF as [|j l Hj HF IH]; [done|]. cbn [omap list_omap]. destruct (ps !! j) eqn:E; [cbn; by rewrite IH|].
  apply lookup_ge_None in E. lia.
Qed.

Lemma assemble_from_spec n t corpus idx s :
  let es := (assemble_from n t corpus idx s).1 in
  length es = n /\ map cp_id es = map (corpus_id corpus) (seqZ idx (Z.of_nat n)) /\
  map cp_overlap es = map (fun i => i <? 10) (seqZ idx (Z.of_nat n)) /\ Forall (fun e => cp_topic e = lt_topic t) es.
Proof.
  revert idx s. induction n as [|n IH]; intros idx s; cbn [assemble_from]; [done|].
  destruct (assemble_doc t corpus idx s) as [e s1] eqn:Ee. specialize (IH (idx + 1) s1).
  destruct (assemble_from n t corpus (idx + 1) s1) as [es s2]. cbn [fst] in *. destruct IH as (H1 & H2 & H3 & H4).
  assert (He : cp_id e = corpus_id corpus idx /\ cp_overlap e = (idx <? 10) /\ cp_topic e = lt_topic t).
  { unfold assemble_doc in Ee. destruct (pick_product s) as [product sa]. destruct (rng_range sa _ _) as [k sb].
    destruct (shuffle_from _ _ sb) as [pool sc]. injection Ee as <- _. done. }
  destruct He as (He1 & He2 & He3). rewrite (seqZ_cons idx (Z.of_nat (Datatypes.S n))) by lia.
  replace (Z.pred (Z.of_nat (Datatypes.S n))) with (Z.of_nat n) by lia. replace (Z.succ idx) with (idx + 1) by lia.
  cbn [length map]. rewrite H1, H2, H3, He1, He2. split_and!; try done. by constructor.
Qed.
(** Five documents for each template, numbered on, with a query for each template; the
    first ten are shared by all backends. *)
Theorem gen_corpus_exact ts corpus s : zlen ts < 2 ^ 60 ->
  let '(es, qs, _) := gen_corpus ts corpus 0 s in
  zlen es = 5 * zlen ts /\ NoDup (map cp_id es) /\ map cp_overlap es = map (fun i => i <? 10) (seqZ 0 (5 * zlen ts)) /\
  map qe_topic qs = map lt_topic ts.
Proof.
  assert (Hgen : forall ts idx s, 0 <= idx -> idx + 5 * zlen ts < 2 ^ 63 ->
    let '(es, qs, _) := gen_corpus ts corpus idx s in
    zlen es = 5 * zlen ts /\ map cp_id es = map (corpus_id corpus) (seqZ idx (5 * zlen ts)) /\
    map cp_overlap es = map (fun i => i <? 10) (seqZ idx (5 * zlen ts)) /\ map qe_topic qs = map lt_topic ts).
  { clear ts s. induction ts as [|t ts IH]; intros idx s Hi Hb; cbn [gen_corpus]; [done|].
    assert (Hz : zlen (t :: ts) = 1 + zlen ts) by (unfold zlen; cbn; lia). assert (0 <= zlen ts) by (unfold zlen; lia).
    pose proof (assemble_from_spec 5 t corpus idx s) as Ha. unfold assemble_docs.
    destruct (assemble_from 5 t corpus idx s) as [es s1]. cbn [fst] in Ha. destruct Ha as (H1 & H2 & H3 & _).
    assert (Hadd : idx +! zlen es = idx + 5) by (unfold zlen, sat_add, u_max; rewrite H1; lia). rewrite Hadd.
    specialize (IH (idx + 5) s1 ltac:(lia) ltac:(lia)). destruct (gen_corpus ts corpus (idx + 5) s1) as [[rest qs] s2].
    destruct IH as (G1 & G2 & G3 & G4). rewrite Hz, !map_app. cbn [map]. rewrite H2, H3, G2, G3, G4.
    replace (5 * (1 + zlen ts)) with (5 + 5 * zlen ts) by lia. rewrite seqZ_app, !map_app by lia.
    split_and!; try done. unfold zlen in *. rewrite length_app. lia. }
  intros Hl. assert (0 <= zlen ts) by (unfold zlen; lia). specialize (Hgen ts 0 s ltac:(lia) ltac:(lia)).
  destruct (gen_corpus ts corpus 0 s) as [[es qs] s']. destruct Hgen as (H1 & H2 & H3 & H4). split_and!; try done.
  rewrite H2. apply (NoDup_fmap_2_strong (corpus_id corpus)); [|apply NoDup_seqZ].
  intros a b Ha%elem_of_seqZ Hb%elem_of_seqZ. apply corpus_id_inj; lia.
Qed.
End CorpusProps.

(** ** Seeding *)

Lemma split_on_head sep a b cur : sep ∉ a -> head (split_on sep cur (a ++ sep :: b)) = Some (cur ++ a).
Proof.
  revert cur. induction a as [|c a IH]; intros cur Ha; cbn; [by rewrite Z.eqb_refl, app_nil_r|].
  destruct (Z.eqb_spec c sep) as [->|]; [set_solver|]. rewrite IH by set_solver. by rewrite <- app_assoc.
Qed.
(** A seeded document belongs to the corpus it was generated for. *)
Theorem corpus_recovered corpus idx e : 45 ∉ corpus -> cp_id e = corpus_id corpus idx -> dc_corpus (doc_of_entry e) = corpus.
Proof.
  intros Hc He. unfold doc_of_entry. cbn [dc_corpus]. rewrite He. unfold corpus_id.
  change (corpus ++ lit "-" ++ pad 3 idx) with (corpus ++ 45 :: pad 3 idx). by rewrite split_on_head.
Qed.

(** Every document reaches a backend, the first ten of a corpus reach all of them, and no
    backend gets a document twice. *)
Theorem backend_sets_exact docs tickets code : NoDup (docs ++ tickets ++ code) ->
  let b := build_backend_sets docs tickets code in
  let all := [bs_qdrant b; bs_elastic b; bs_opensearch b; bs_meili1 b; bs_meili2 b; bs_pgvector b] in
  Forall NoDup all /\ (forall d, d ∈ docs ++ tickets ++ code <-> exists l, l ∈ all /\ d ∈ l) /\
  (forall d, d ∈ take 10 docs ++ take 10 tickets ++ take 10 code <-> Forall (fun l => d ∈ l) all).
Proof.
  intros Hnd b all. rewrite <- (take_drop 10 docs), <- (take_drop 10 tickets), <- (take_drop 10 code) in Hnd.
  assert (Hin : forall (l : list Doc) d, d ∈ l <-> d ∈ take 10 l \/ d ∈ drop 10 l)
    by (intros l d; rewrite <- elem_of_app, take_drop; done).
  unfold all, b, build_backend_sets. cbn [bs_qdrant bs_elastic bs_opensearch bs_meili1 bs_meili2 bs_pgvector].
  set (d1 := take 10 docs) in *. set (d2 := drop 10 docs) in *. set (t1 := take 10 tickets) in *.
  set (t2 := drop 10 tickets) in *. set (c1 := take 10 code) in *. set (c2 := drop 10 code) in *.
  split_and!.
  - rewrite !NoDup_app in Hnd. repeat constructor; rewrite ?NoDup_app; set_solver.
  - intros d. rewrite !elem_of_app, (Hin docs), (Hin tickets), (Hin code). fold d1 d2 t1 t2 c1 c2. split.
    + intros Hd. assert (d ∈ t2 \/ (d ∈ d1 \/ d ∈ d2) \/ d ∈ t1 \/ d ∈ c1 \/ d ∈ c2) as [?|?] by tauto.
      * exists ((d1 ++ t1 ++ c1) ++ d2 ++ t2). rewrite !elem_of_cons, !elem_of_app. tauto.
      * exists ((d1 ++ t1 ++ c1) ++ d2 ++ c2). rewrite !elem_of_cons, !elem_of_app. tauto.
    + intros (l & Hl & Hd). rewrite !elem_of_cons, elem_of_nil in Hl. destruct_or!; subst; rewrite !elem_of_app in Hd; tauto.
  - intros d. rewrite !Forall_cons, !elem_of_app. set_solver.
Qed.

(** With corpora of sixty and twice fifty documents: the sizes of the sets. *)
Definition numbered (corpus : string) (n : nat) : list Doc :=
  map (fun i => {| dc_id := corpus_id (lit corpus) (Z.of_nat i); dc_corpus := lit corpus; dc_title := []; dc_content := [];
                   dc_category := []; dc_tags := []; dc_vector := [] |}) (seq 0 n).
Theorem backend_totals : let b := build_backend_sets (numbered "docs" 60) (numbered "tickets" 50) (numbered "code" 50) in
  map zlen [bs_qdrant b; bs_pgvector b; bs_elastic b; bs_opensearch b; bs_meili1 b; bs_meili2 b] = [120; 120; 120; 30; 70; 70].
Proof. by vm_compute. Qed.
